(* ===== verification/_CoqProject ===== *)
-Q . S2P
Prelude.v
Crc32.v
Utf8.v
Types.v
Base64.v
Increment.v
Parse.v
Hdlc.v
ParseText.v
Condition.v
ConditionCorrect.v
MqttTopic.v
MqttAcl.v
MqttAclCorrect.v
MqttIdPool.v
MsgHead.v
MsgMsg.v
MsgLog.v
MsgStats.v
MsgDispatch.v
TypeValue.v
Array.v
ArrayMessage.v
ArrayDelivery.v
TypeImport.v
Read.v
ReadFrames.v
ReadMessages.v
Websocket.v
Fifo.v
Mmap.v
MmapCollection.v
MmapChannel.v
MmapChannelCorrect.v
Modbus.v
ModbusClient.v
MqttPayloadBuf.v
MqttProperty.v
MqttSubscription.v
MqttPacket.v
MqttParse.v
MqttParsePacket.v
MqttParseSafe.v
MqttAssemble.v
MqttWire.v
MqttRoundtrip.v
MqttConnection.v
MqttAccess.v
MqttDelivery.v
