(* ===== verification/Prelude.v ===== *)
(** * Verification of RRR (Read Route Record)

    RRR is a message router: instances of modules read data from files,
    sockets, MQTT, HTTP, Modbus and other sources, turn them into messages,
    and route them to each other and to other hosts.  This development models
    the library code below that everything else stands on (src/src/lib): the
    message format and its network form, the reading of messages and frames
    from a transport, the framing protocols, MQTT from topics and packets up to
    connections, Modbus, the typed values and arrays that messages carry, the buffers
    and the memory messages are kept in, and the text and integer primitives they
    use.

    ** The program's parts and the files that model them

    - [Prelude] (this file): machine integers as [Z] with explicit wrapping,
      the [outcome] of code that may abort or leave its buffer, byte encodings
      and slices, and the tactics and hints the other files use.
    - [Crc32]: util/crc32.c.  The table-driven checksum, equal to the bit-serial
      CRC-32, and the class [Checksum], which states what message framing needs
      of a checksum; the framing theorems use the class, the instance is proved
      for the code.
    - [Utf8]: util/utf8.c.  The decoder and the two loops over it, against the
      encoding of RFC 3629.
    - [Base64]: util/base64.c.  The encoders and decoders, with the capacity of
      the buffers they write to; a write beyond it is [Oob].
    - [Types]: rrr_types.h.  The checked 32- and 64-bit length arithmetic.
    - [Increment]: util/increment.c.  Identifier sequences with a prefix.
    - [Parse]: parse.c and parse.h.  The text cursor: skipping, matching,
      extracting, splitting.  The object behind [data] is a list of bytes and a
      read outside of it is [Oob].  [ParseText]: what its functions find in a text,
      for the files about texts.
    - [Condition]: condition.c, on top of [Parse].  The conditions of array
      trees: the shunting yard that brings them into postfix form, and their
      evaluation on 64-bit numbers.  The counters of the code are [int]; they are not
      bounded here, which only matters from 2^31 operands or parentheses on.
      [ConditionCorrect]: expressions as trees, with the precedence and the values of C,
      their texts, and that the code computes these.
    - [Hdlc]: hdlc/hdlc.c.  Byte stuffing: export and the parser state machine.
    - [MqttTopic]: mqtt/mqtt_topic.c.  Validation, tokenizing and matching of
      topics; uses [Utf8] for the characters.
    - [MqttAcl]: mqtt/mqtt_acl.c and the reading of files in socket/rrr_socket.c.
      The access list of the broker: the parser of its file, the list of entries,
      the decision about a topic and a user.  [MqttAclCorrect]: the grammar the
      parser accepts, the one the manual documents, and that texts of the latter are read
      as what they say.  [MqttAccess]: the handlers of
      mqtt/mqtt_broker.c and modules/d_mqttbroker.c that use the list.
    - [MqttIdPool]: mqtt/mqtt_id_pool.c.  The growing bit map of packet
      identifiers.
    - [MsgHead]: messages/msg_head.h, msg.c, msg_checksum.c, util/rrr_endian.c.
      The header all messages share, in the memory of a host of either byte
      order, and its conversion to and from the network with two checksums.
    - [MsgMsg]: messages/msg_msg.c.  The data message with topic and data; uses
      [MsgHead], [Utf8] to validate and [MqttTopic] to match topics.
    - [MsgLog]: messages/msg_addr.c, msg_log.c.  Address and log messages.
    - [MsgStats]: stats/stats_message.c.  Statistics messages.
    - [MsgDispatch]: the receiving end of msg.c, which verifies a message,
      converts it by its type and calls back.
    - [Read]: read.c.  Read sessions (the buffer a message is assembled in, what
      was received beyond it, the skipping of garbage), their collections, and one
      call of the reading function with its rate limit, callbacks and end of
      file; [ReadFrames]: the class [Framing] of what a protocol promises (the
      target size is found from any long enough prefix, and never wrongly from a
      shorter one) and reassembly from pieces of any size, proved against it;
      [ReadMessages]: the callbacks for RRR messages in read.c, an instance of
      [Framing], and the composition with [MsgDispatch].
    - [Websocket]: websocket/websocket.c.  Frames to send, and the state machine
      that parses, unmasks and reassembles received ones.
    - [Fifo]: fifo.c, the buffers between instances.  Entries live in a [store]
      (a [gmap] from addresses, and the calls of [incref] and [decref] made), so
      that linking, unlinking and freeing are those of the code; an access to
      memory that is not allocated is [Oob].  [linked] and [holds] relate the
      pointers to the list of entries.
    - [Mmap]: rrr_mmap.c, the heap that messages are allocated from.  The heap is
      a map from offsets to 64-bit words, and holds its own indexes; [layout] and
      [heap_ok] relate the words to the list of blocks in use.
    - [MmapCollection]: the rest of rrr_mmap.c, collections of heaps that are
      mapped and unmapped as needed; uses [Mmap].  The system's mapping of memory
      is a parameter.
    - [MmapChannel]: mmap_channel.c and the mutexes of util/posix.c.  The ring of
      blocks in shared memory between two processes.  An operation is a program, a
      tree of atomic actions; the heaps that blocks are allocated from are seen
      through the class [SharedHeap].  [MmapChannelCorrect]: a program logic with
      ghost states for the two processes, the theorems for all interleavings, and
      the instance of the class for the collections of [MmapCollection].

    - [MqttPayloadBuf], [MqttProperty], [MqttSubscription], [MqttPacket]:
      mqtt_payload_buf.c, mqtt_property.c, mqtt_subscription.c and mqtt_packet.c.
      The growing buffer packets are assembled in, with variable length integers;
      properties and their definitions; subscriptions and their collections; the
      packets as one type with a constructor for every kind of packet.
    - [MqttParse], [MqttParsePacket]: mqtt_parse.c.  The parse session and the
      fields and properties; the packet types and the entry points.
      [MqttParseSafe]: the parser never leaves its buffer; it aborts for some SUBSCRIBE
      packets of MQTT 5 and uses memory it was refused for SUBSCRIBE and UNSUBSCRIBE, and
      for nothing else.
    - [MqttAssemble]: mqtt_assemble.c.  [MqttWire]: the bytes the MQTT standards
      give to a packet, and that the assembler writes exactly these or aborts, which it
      only does when its buffer is moved while there are properties to write.
      [MqttRoundtrip]: the parser reads them back.
    - [MqttConnection]: mqtt_connection.c and mqtt_connection.h.  The protocol state
      of a connection, its timers, sending, disconnecting and the callbacks it
      gives to the read framework.  [MqttDelivery]: sending on one connection and
      receiving on another, from assembling to the handler, and disconnecting.

    - [Modbus]: modbus/rrr_modbus.c.  The client: building requests, the ring of
      transactions, and the parsing of responses.  [ModbusClient]: the ring as a
      window over transaction numbers, and exchanges with a server.
    - [TypeValue], [Array]: type.c and array.c.  The types of values (a constructor
      each, with their function pointers as functions of it), importing, packing,
      unpacking and exporting; arrays, and their form as the data of a message.
      [ArrayMessage]: what a value stands for and its bytes in a message;
      [ArrayDelivery]: arrays from one host to another, on top of [MsgDispatch];
      [TypeImport]: what importing integers and text gives.

    A C struct is a [Record], an object in memory whose layout matters a list
    of bytes, a function that changes an object one that returns the new one,
    and an [int] status the first component of the result.  Static functions
    keep their names without the leading underscores; a loop of a function is a
    [Fixpoint] of its own beside it.  Where the code allocates, an argument
    [alloc_ok] or [alloc] says which allocations succeed; clocks, random numbers
    and the transport a frame is pushed to are arguments as well.  A callback is
    a function that passes a state of its own along.  The clock stands still
    during one call.  Interfaces between components are classes: [Checksum] of
    [Crc32], used by [MsgHead], [Framing] of [ReadFrames], and [SharedHeap] of
    [MmapChannel].

    ** What the theorems show

    - Reading: whatever the pieces in which the bytes of a sequence of messages
      arrive, each message is delivered once, whole and in order, as long as no message
      pauses for more than 30 seconds ([ReadMessages]).
    - Messages: any host delivers to any other ([MsgDispatch]), the header and
      the data round trip between byte orders and no single corrupted byte is
      accepted ([MsgHead]), new messages and changed topics have exactly the
      content asked for, and matching a topic decides the filter relation
      ([MsgMsg]); log and statistics messages round trip.
    - MQTT: filters are accepted exactly when well formed, tokenizing gives the
      levels, the matcher over tokens and the one over strings agree with one
      relation on levels, identifiers are never handed out twice, and the pool
      refines a set of identifiers.  The parser is safe on all input but for the two
      cases named at [MqttParseSafe].  The assembler writes the standard's bytes if its
      buffer stays where it is, and parsing them gives the packet back, in versions 3.1,
      3.1.1 and 5, for all packet types except SUBACK, UNSUBACK and DISCONNECT, and for
      properties without binary data.  Subscription collections refine
      a map from filters, and a publish reaches exactly the subscriptions that
      match.  Packets sent on a connection are delivered to the handler at the
      other end, under the same conditions.  The protocol state moves as the phases of
      CONNECT, CONNACK and DISCONNECT say; other packets are let through in any phase.
      Disconnecting tells the handler and sends DISCONNECT exactly when it should, and
      ends.  The access lists the manual describes are read as what they
      say, and with such a file the broker decides about packets as the last block says
      that matches by the rules of MQTT, for topics about which manual and standard agree.
    - Arrays: the array one host makes into a message is what another appends,
      whatever the byte orders ([ArrayDelivery]); imported integers are extended
      with their sign, and text is imported as it was exported ([TypeImport]).
    - Conditions: the text of an expression of C, with at least one operator and with
      parentheses where operators of equal precedence meet, is evaluated to
      the value it has in C, and no text makes the interpreter leave it or abort
      ([ConditionCorrect]).
    - Modbus: every request answered by the server ends in the callback for its
      function with the data of the response, and the ring of transactions stays
      well formed ([ModbusClient]).
    - Framing: HDLC and WebSocket frames round trip, the HDLC parser is safe on
      all input, its length calculation is exact; WebSocket messages are
      reassembled and control frames answered as specified.
    - Buffers: every operation of a FIFO buffer on pointers implements the
      operation on the list of its entries (the [_spec] functions): the links,
      the counter, the reference counts and the memory freed; what is written
      is read first in, first out, and ordered writing keeps a buffer sorted.
    - Memory: allocating and freeing in any order, blocks never overlap each
      other, an index or the end of the heap, no word of a block in use changes,
      only what is in use can be freed ([Mmap]); no heap is unmapped with blocks
      in use and every block is found by its address; the report about a request that
      cannot be met may read past the end of a heap, in exactly the case stated
      ([MmapCollection]).
    - Channels: whatever the interleaving of the two processes, what is read is what
      was written, each message once, whole and in order, and no action of either
      process leaves the memory of the channel, but for that report.  Messages of more than
      8192 bytes are only covered where [shmat] never fails, since the code does not
      notice that it does ([MmapChannelCorrect]).
    - Primitives: UTF-8 validation and CRC-32 against their references, base 64
      round trips within the allocated buffers, lengths that are exact or
      reported, sequences that stay in range, and the parser primitives against
      list functions.

    Where the code does not do what it should, the smallest statement that shows
    it is a lemma at the end of its file (for instance
    [rrr_websocket_ping_between_fragments] and [message_validate_topic_overread]).

    ** Bounds and fuel

    Loops over bytes recurse on the bytes or take the length plus one as fuel,
    which the lemmas show to be enough.  The retry loop of the identifier pool
    gets two rounds: a pool that has just grown has a free bit
    ([get_id_retry_spec]); running out would be [Bug] and is shown not to
    happen.  Variable length integers get five rounds, one more than the code
    reads; the loops over properties and subscriptions get one round for each
    byte left in the packet, since every entry takes at least one.  Flushing a read
    session gets one round more than the bytes left over, as do the loops over the
    values of an array message and the messages of a value, which take at least
    one byte each.  So does the interpreter of conditions, which takes a
    byte in every round that does not end it, and the loops of the access list
    parser; there running out is [Bug] and is shown not to happen.  Walks through a FIFO buffer get one
    round more than there are allocated entries; the writing loops, which go on as long as the callback
    asks, take the number of rounds as an argument, and run out exactly when the
    list operation does.  Walks over the indexes of a heap get one round for every
    byte of it, more than there can be indexes; running out is [Oob] and is shown
    not to happen.  The loops over the blocks of a channel run over their 1024 slots; the
    theorems on channels are for the first 2^25 calls of the heaps and the system,
    since the version of a collection has 32 bits and goes up by at most 128 with
    each.  Lengths are bounded by what the code can address: 2^32 - 1 for
    messages and lengths, 2^63 - 1 for WebSocket frames.  The platform has
    64-bit [size_t] and pointers and signed [char].

    ** What is not modelled

    System calls, event loops, threads, TLS, databases, script interpreters and
    the modules that wire instances together, since their behaviour is that of
    the libraries and the operating system; printing and debug output of the
    modelled parts; HTTP; FIFO callbacks that call the buffer they are called
    from; packets that stop arriving within their payload (the delivery theorem of
    [MqttDelivery] lets the header arrive in pieces).  The
    conversion of fixed point numbers, which is [long double] arithmetic, is an
    argument.  MQTT sessions and the rest of the broker, array trees and conversions between
    types, discern definitions, UDP streams, configuration and the FIFO buffers
    with locks are left for files to come. *)
From stdpp Require Export base list numbers option.
From stdpp Require Import tactics.

#[global] Set Default Proof Using "Type".
Open Scope Z_scope.

(** * Notation of C integer operators *)

Declare Scope c_scope.
Delimit Scope c_scope with C.
Infix "&&&" := Z.land (at level 40, left associativity) : c_scope.
Infix "|||" := Z.lor (at level 50, left associativity) : c_scope.
Infix "^^^" := Z.lxor (at level 45, left associativity) : c_scope.
Infix "<<<" := Z.shiftl (at level 38, left associativity) : c_scope.
Infix ">>>" := Z.shiftr (at level 38, left associativity) : c_scope.
Open Scope c_scope.

(** * Machine integers: a w-bit unsigned integer is a [Z]; a conversion to the
    type wraps. *)

Definition wrap (w z : Z) : Z := z mod 2 ^ w.
Abbreviation u8 := (wrap 8).
Abbreviation u16 := (wrap 16).
Abbreviation u32 := (wrap 32).
Abbreviation u64 := (wrap 64).

(** Value of a byte read through a (signed) [char]. *)
Definition schar (b : Z) : Z := if b <? 128 then b else b - 256.

(** The value of an object of a signed 64-bit type with this unsigned image. *)
Definition s64 (z : Z) : Z := (z + 2 ^ 63) mod 2 ^ 64 - 2 ^ 63.

Definition byte_ok (b : Z) : Prop := 0 <= b < 256.
Abbreviation bytes_ok := (Forall byte_ok).

#[export] Instance byte_ok_dec b : Decision (byte_ok b).
Proof. unfold byte_ok. apply _. Defined.

(** Inclusive range test, as the code writes [c >= lo && c <= hi]. *)
Definition in_range (lo hi c : Z) : bool := (lo <=? c) && (c <=? hi).

(** C truth value of an integer. *)
Definition truth (z : Z) : bool := negb (z =? 0).

(** * Outcomes of code that may abort

    [Ret] is a normal return; [Bug] is [RRR_BUG], [assert] or [abort] (the
    process stops); [Oob] is an access outside the object the pointer refers
    to. *)

Inductive outcome (A : Type) : Type :=
| Ret (a : A)
| Bug
| Oob.
Arguments Ret {A} a.
Arguments Bug {A}.
Arguments Oob {A}.

#[export] Instance outcome_ret : MRet outcome := λ A a, Ret a.
#[export] Instance outcome_bind : MBind outcome := λ A B f m,
  match m with Ret a => f a | Bug => Bug | Oob => Oob end.

#[export] Instance outcome_eq_dec `{EqDecision A} : EqDecision (outcome A).
Proof. solve_decision. Defined.

Definition returns {A} (m : outcome A) : Prop := exists a, m = Ret a.

(** Byte [i] of an object of [length buf] bytes. *)
Definition load8 (buf : list Z) (i : Z) : outcome Z :=
  if i <? 0 then Oob else
  match buf !! Z.to_nat i with Some b => Ret b | None => Oob end.

(** * Return codes of read_constants.h *)

Definition RRR_READ_OK : Z := 0.
Definition RRR_READ_HARD_ERROR : Z := 1.
Definition RRR_READ_SOFT_ERROR : Z := 2.
Definition RRR_READ_INCOMPLETE : Z := 4.
Definition RRR_READ_EOF : Z := 8.

(** * Fixed-width integer encodings *)

Fixpoint le_enc (n : nat) (v : Z) : list Z :=
  match n with
  | O => []
  | S n => v mod 256 :: le_enc n (v / 256)
  end.

Fixpoint le_dec (l : list Z) : Z :=
  match l with
  | [] => 0
  | b :: l => b + 256 * le_dec l
  end.

Definition be_enc (n : nat) (v : Z) : list Z := rev (le_enc n v).
Definition be_dec (l : list Z) : Z := le_dec (rev l).

(** Slice of [n] bytes at offset [off], and replacement of a slice. *)
Definition slice (off n : nat) (l : list Z) : list Z := take n (drop off l).
Definition splice (off : nat) (bs l : list Z) : list Z :=
  take off l ++ bs ++ drop (off + length bs) l.

(** * Hints and tactics *)

Create HintDb rrr.
Create Rewrite HintDb rrr_len.
#[export] Hint Extern 2 (byte_ok _) => unfold byte_ok; lia : rrr.

(** Split a boolean test in the goal or a hypothesis and turn it into the
    proposition it decides. *)
Ltac btest :=
  match goal with
  | |- context [?a =? ?b] => destruct (Z.eqb_spec a b)
  | |- context [?a <? ?b] => destruct (Z.ltb_spec a b)
  | |- context [?a <=? ?b] => destruct (Z.leb_spec a b)
  | H : context [?a =? ?b] |- _ => destruct (Z.eqb_spec a b)
  | H : context [?a <? ?b] |- _ => destruct (Z.ltb_spec a b)
  | H : context [?a <=? ?b] |- _ => destruct (Z.leb_spec a b)
  end.
Ltac btests := repeat (btest; simpl in *; try lia; try done).

(** Equality of integers bit by bit. *)
Ltac zbits := apply Z.bits_inj'; intros ?i ?Hi;
  repeat first [rewrite Z.lxor_spec | rewrite Z.land_spec | rewrite Z.lor_spec
    | rewrite Z.bits_0 | rewrite Z.shiftr_spec by lia | rewrite Z.shiftl_spec by lia].

Lemma bind_ret {A B} (a : A) (f : A -> outcome B) : (x ← Ret a; f x) = f a.
Proof. done. Qed.

(** * Ranges *)

Lemma wrap_range w z : 0 <= w -> 0 <= wrap w z < 2 ^ w.
Proof. intros. apply Z.mod_pos_bound, Z.pow_pos_nonneg; lia. Qed.

Lemma wrap_small w z : 0 <= z < 2 ^ w -> wrap w z = z.
Proof. apply Z.mod_small. Qed.

Lemma in_range_spec lo hi c : in_range lo hi c = true <-> lo <= c <= hi.
Proof. unfold in_range. rewrite andb_true_iff, !Z.leb_le. lia. Qed.

Lemma truth_spec z : truth z = true <-> z <> 0.
Proof. unfold truth. rewrite negb_true_iff, Z.eqb_neq. done. Qed.

(** A property of all bytes is decided by checking the 256 values. *)
Definition all_bytes (f : Z -> bool) : bool := forallb f (seqZ 0 256).

Lemma all_bytes_spec f b : all_bytes f = true -> byte_ok b -> f b = true.
Proof.
  unfold all_bytes. rewrite forallb_forall. intros H Hb. apply H.
  apply list_elem_of_In, elem_of_seqZ. unfold byte_ok in Hb. lia.
Qed.

Lemma all_bytes_eq f g b :
  all_bytes (fun b => f b =? g b) = true -> byte_ok b -> f b = g b.
Proof.
  intros H Hb. apply Z.eqb_eq. by apply (all_bytes_spec (fun b => f b =? g b)).
Qed.

(** Integers below a power of two are those with no bit above it. *)
Lemma bits_above w z i : 0 <= z < 2 ^ w -> w <= i -> Z.testbit z i = false.
Proof.
  intros Hz Hi. destruct (Z_le_gt_dec 0 w) as [Hw|Hw].
  - rewrite <- (Z.mod_small z (2 ^ w)) by lia. apply Z.mod_pow2_bits_high. lia.
  - rewrite Z.pow_neg_r in Hz by lia. lia.
Qed.

Lemma lt_pow2_bits w z :
  0 <= w -> 0 <= z -> (forall i, w <= i -> Z.testbit z i = false) -> z < 2 ^ w.
Proof.
  intros Hw Hz H. destruct (Z_lt_ge_dec z (2 ^ w)) as [|Hge]; [done|].
  exfalso. assert (0 < 2 ^ w) by (apply Z.pow_pos_nonneg; lia).
  assert (w <= Z.log2 z) as Hl by (apply Z.log2_le_pow2; lia).
  pose proof (Z.bit_log2 z ltac:(lia)) as Hb. rewrite H in Hb; done.
Qed.

Lemma lxor_range w a b :
  0 <= w -> 0 <= a < 2 ^ w -> 0 <= b < 2 ^ w -> 0 <= a ^^^ b < 2 ^ w.
Proof.
  intros Hw Ha Hb. assert (0 <= a ^^^ b) by (apply Z.lxor_nonneg; lia).
  split; [done|]. apply lt_pow2_bits; [lia..|]. intros i Hi.
  rewrite Z.lxor_spec, (bits_above w a), (bits_above w b); done.
Qed.

Lemma land_ones_mod a w : 0 <= w -> a &&& Z.ones w = a mod 2 ^ w.
Proof. apply Z.land_ones. Qed.

Lemma lxor_land_distr a b m : (a ^^^ b) &&& m = (a &&& m) ^^^ (b &&& m).
Proof. zbits. destruct (Z.testbit a i), (Z.testbit b i), (Z.testbit m i); done. Qed.

Lemma land_255 a : a &&& 255 = a mod 256.
Proof. apply (Z.land_ones a 8). lia. Qed.

Lemma lor_shiftl_add k a b : 0 <= k -> 0 <= b < 2 ^ k -> (a <<< k) ||| b = a * 2 ^ k + b.
Proof.
  intros Hk Hb. rewrite <- Z.shiftl_mul_pow2 by lia. symmetry.
  apply Z.add_nocarry_lor. zbits. destruct (Z.lt_ge_cases i k).
  - rewrite Z.testbit_neg_r by lia. done.
  - rewrite (bits_above k b) by lia. apply andb_false_r.
Qed.

Lemma land_low_bits k a m : 0 <= k -> m = Z.ones k -> a &&& m = a mod 2 ^ k.
Proof. intros ? ->. by apply Z.land_ones. Qed.

(** Linear arithmetic with division and remainder by constants. *)
Ltac zdiv := Z.to_euclidean_division_equations; lia.

(** * Encodings *)

Lemma length_le_enc n v : length (le_enc n v) = n.
Proof. revert v. induction n; simpl; auto. Qed.

Lemma length_be_enc n v : length (be_enc n v) = n.
Proof. unfold be_enc. rewrite length_rev. apply length_le_enc. Qed.

Lemma le_enc_bytes n v : bytes_ok (le_enc n v).
Proof.
  revert v. induction n; simpl; constructor; auto.
  pose proof (Z.mod_pos_bound v 256). auto with rrr.
Qed.

Lemma be_enc_bytes n v : bytes_ok (be_enc n v).
Proof. apply Forall_rev, le_enc_bytes. Qed.

Lemma le_dec_enc n v : le_dec (le_enc n v) = v mod 2 ^ (8 * Z.of_nat n).
Proof.
  revert v. induction n as [|n IH]; intros v; simpl le_enc; simpl le_dec.
  - symmetry. apply Z.mod_1_r.
  - rewrite IH. replace (8 * Z.of_nat (S n)) with (8 + 8 * Z.of_nat n) by lia.
    rewrite Z.pow_add_r by lia. change (2 ^ 8) with 256.
    rewrite Z.rem_mul_r; [lia..|]. apply Z.pow_pos_nonneg; lia.
Qed.

Lemma le_enc_dec l : bytes_ok l -> le_enc (length l) (le_dec l) = l.
Proof.
  induction 1 as [|b l Hb _ IH]; [done|]. simpl. unfold byte_ok in Hb.
  f_equal.
  - rewrite (Z.mul_comm 256), Z.mod_add, Z.mod_small; lia.
  - rewrite (Z.mul_comm 256), Z.div_add, Z.div_small, Z.add_0_l by lia. done.
Qed.

Lemma le_dec_range l : bytes_ok l -> 0 <= le_dec l < 2 ^ (8 * Z.of_nat (length l)).
Proof.
  intros H. rewrite <- (le_enc_dec l H). rewrite le_dec_enc, length_le_enc.
  apply Z.mod_pos_bound, Z.pow_pos_nonneg; lia.
Qed.

Lemma be_dec_enc n v : be_dec (be_enc n v) = v mod 2 ^ (8 * Z.of_nat n).
Proof. unfold be_dec, be_enc. rewrite rev_involutive. apply le_dec_enc. Qed.

Lemma be_enc_dec l : bytes_ok l -> be_enc (length l) (be_dec l) = l.
Proof.
  intros H. unfold be_dec, be_enc. rewrite <- (length_rev l).
  rewrite le_enc_dec by (by apply Forall_rev). apply rev_involutive.
Qed.

Lemma be_dec_range l : bytes_ok l -> 0 <= be_dec l < 2 ^ (8 * Z.of_nat (length l)).
Proof.
  intros H. unfold be_dec. rewrite <- (length_rev l). by apply le_dec_range, Forall_rev.
Qed.

(** * Slices *)

Lemma length_splice off bs l :
  (off + length bs <= length l)%nat -> length (splice off bs l) = length l.
Proof. intros. unfold splice. rewrite !length_app, length_take, length_drop. lia. Qed.

Lemma length_slice off n l : (off + n <= length l)%nat -> length (slice off n l) = n.
Proof. intros. unfold slice. rewrite length_take, length_drop. lia. Qed.

Lemma lookup_slice off n l i : (i < n)%nat -> slice off n l !! i = l !! (off + i)%nat.
Proof. intros. unfold slice. rewrite lookup_take_lt by done. apply lookup_drop. Qed.

Lemma slice_splice_same off bs l :
  (off + length bs <= length l)%nat -> slice off (length bs) (splice off bs l) = bs.
Proof.
  intros. unfold slice, splice. rewrite drop_app_length' by (rewrite length_take; lia).
  by apply take_app_length.
Qed.

Lemma lookup_splice off bs l i :
  (off + length bs <= length l)%nat ->
  splice off bs l !! i =
    if decide (off <= i < off + length bs)%nat then bs !! (i - off)%nat else l !! i.
Proof.
  intros Hl. unfold splice. destruct (decide (i < off)%nat) as [H1|H1].
  - rewrite lookup_app_l by (rewrite length_take; lia). rewrite lookup_take_lt by done.
    case_decide; [lia|done].
  - rewrite lookup_app_r by (rewrite length_take; lia). rewrite length_take_le by lia.
    case_decide as H2.
    + by rewrite lookup_app_l by lia.
    + rewrite lookup_app_r by lia. rewrite lookup_drop. f_equal. lia.
Qed.

Lemma slice_splice_disjoint off n off' bs l :
  (off' + length bs <= length l)%nat ->
  (off + n <= off' \/ off' + length bs <= off)%nat ->
  slice off n (splice off' bs l) = slice off n l.
Proof.
  intros Hl Hd. apply list_eq. intros i. destruct (decide (i < n)%nat).
  - rewrite !lookup_slice by done. rewrite lookup_splice by done. case_decide; [lia|done].
  - rewrite !lookup_ge_None_2; [done|..]; unfold slice; rewrite length_take; lia.
Qed.

Lemma splice_bytes off bs l : bytes_ok bs -> bytes_ok l -> bytes_ok (splice off bs l).
Proof. intros. unfold splice. rewrite !Forall_app. auto using Forall_take, Forall_drop. Qed.

Lemma slice_bytes off n l : bytes_ok l -> bytes_ok (slice off n l).
Proof. intros. unfold slice. auto using Forall_take, Forall_drop. Qed.

#[export] Hint Resolve le_enc_bytes be_enc_bytes splice_bytes slice_bytes : rrr.
#[export] Hint Rewrite length_le_enc length_be_enc length_app : rrr_len.

(** * Loads *)

Lemma load8_Some buf i b :
  load8 buf i = Ret b <-> 0 <= i /\ buf !! Z.to_nat i = Some b.
Proof.
  unfold load8. destruct (Z.ltb_spec i 0).
  - split; [done|lia].
  - destruct (buf !! Z.to_nat i); split; intros Hx; try done; destruct_and?; by simplify_eq.
Qed.

Lemma load8_inside buf i : 0 <= i < Z.of_nat (length buf) -> returns (load8 buf i).
Proof.
  intros Hi. destruct (lookup_lt_is_Some_2 buf (Z.to_nat i)) as [b Hb]; [lia|].
  exists b. apply load8_Some. split; [lia|done].
Qed.
