(* ===== verification/Crc32.v ===== *)
(** CRC-32 (src/src/lib/util/crc32.c): the table-driven checksum every RRR
    message header and payload carries, its equality with the bit-serial CRC
    of polynomial 0xedb88320, and the error detection message framing relies
    on, stated as the [Checksum] interface. *)
From S2P Require Import Prelude.

Module Crc32.

Definition crc_32_tab : list Z := [
  0x00000000; 0x77073096; 0xee0e612c; 0x990951ba; 0x076dc419; 0x706af48f;
  0xe963a535; 0x9e6495a3; 0x0edb8832; 0x79dcb8a4; 0xe0d5e91e; 0x97d2d988;
  0x09b64c2b; 0x7eb17cbd; 0xe7b82d07; 0x90bf1d91; 0x1db71064; 0x6ab020f2;
  0xf3b97148; 0x84be41de; 0x1adad47d; 0x6ddde4eb; 0xf4d4b551; 0x83d385c7;
  0x136c9856; 0x646ba8c0; 0xfd62f97a; 0x8a65c9ec; 0x14015c4f; 0x63066cd9;
  0xfa0f3d63; 0x8d080df5; 0x3b6e20c8; 0x4c69105e; 0xd56041e4; 0xa2677172;
  0x3c03e4d1; 0x4b04d447; 0xd20d85fd; 0xa50ab56b; 0x35b5a8fa; 0x42b2986c;
  0xdbbbc9d6; 0xacbcf940; 0x32d86ce3; 0x45df5c75; 0xdcd60dcf; 0xabd13d59;
  0x26d930ac; 0x51de003a; 0xc8d75180; 0xbfd06116; 0x21b4f4b5; 0x56b3c423;
  0xcfba9599; 0xb8bda50f; 0x2802b89e; 0x5f058808; 0xc60cd9b2; 0xb10be924;
  0x2f6f7c87; 0x58684c11; 0xc1611dab; 0xb6662d3d; 0x76dc4190; 0x01db7106;
  0x98d220bc; 0xefd5102a; 0x71b18589; 0x06b6b51f; 0x9fbfe4a5; 0xe8b8d433;
  0x7807c9a2; 0x0f00f934; 0x9609a88e; 0xe10e9818; 0x7f6a0dbb; 0x086d3d2d;
  0x91646c97; 0xe6635c01; 0x6b6b51f4; 0x1c6c6162; 0x856530d8; 0xf262004e;
  0x6c0695ed; 0x1b01a57b; 0x8208f4c1; 0xf50fc457; 0x65b0d9c6; 0x12b7e950;
  0x8bbeb8ea; 0xfcb9887c; 0x62dd1ddf; 0x15da2d49; 0x8cd37cf3; 0xfbd44c65;
  0x4db26158; 0x3ab551ce; 0xa3bc0074; 0xd4bb30e2; 0x4adfa541; 0x3dd895d7;
  0xa4d1c46d; 0xd3d6f4fb; 0x4369e96a; 0x346ed9fc; 0xad678846; 0xda60b8d0;
  0x44042d73; 0x33031de5; 0xaa0a4c5f; 0xdd0d7cc9; 0x5005713c; 0x270241aa;
  0xbe0b1010; 0xc90c2086; 0x5768b525; 0x206f85b3; 0xb966d409; 0xce61e49f;
  0x5edef90e; 0x29d9c998; 0xb0d09822; 0xc7d7a8b4; 0x59b33d17; 0x2eb40d81;
  0xb7bd5c3b; 0xc0ba6cad; 0xedb88320; 0x9abfb3b6; 0x03b6e20c; 0x74b1d29a;
  0xead54739; 0x9dd277af; 0x04db2615; 0x73dc1683; 0xe3630b12; 0x94643b84;
  0x0d6d6a3e; 0x7a6a5aa8; 0xe40ecf0b; 0x9309ff9d; 0x0a00ae27; 0x7d079eb1;
  0xf00f9344; 0x8708a3d2; 0x1e01f268; 0x6906c2fe; 0xf762575d; 0x806567cb;
  0x196c3671; 0x6e6b06e7; 0xfed41b76; 0x89d32be0; 0x10da7a5a; 0x67dd4acc;
  0xf9b9df6f; 0x8ebeeff9; 0x17b7be43; 0x60b08ed5; 0xd6d6a3e8; 0xa1d1937e;
  0x38d8c2c4; 0x4fdff252; 0xd1bb67f1; 0xa6bc5767; 0x3fb506dd; 0x48b2364b;
  0xd80d2bda; 0xaf0a1b4c; 0x36034af6; 0x41047a60; 0xdf60efc3; 0xa867df55;
  0x316e8eef; 0x4669be79; 0xcb61b38c; 0xbc66831a; 0x256fd2a0; 0x5268e236;
  0xcc0c7795; 0xbb0b4703; 0x220216b9; 0x5505262f; 0xc5ba3bbe; 0xb2bd0b28;
  0x2bb45a92; 0x5cb36a04; 0xc2d7ffa7; 0xb5d0cf31; 0x2cd99e8b; 0x5bdeae1d;
  0x9b64c2b0; 0xec63f226; 0x756aa39c; 0x026d930a; 0x9c0906a9; 0xeb0e363f;
  0x72076785; 0x05005713; 0x95bf4a82; 0xe2b87a14; 0x7bb12bae; 0x0cb61b38;
  0x92d28e9b; 0xe5d5be0d; 0x7cdcefb7; 0x0bdbdf21; 0x86d3d2d4; 0xf1d4e242;
  0x68ddb3f8; 0x1fda836e; 0x81be16cd; 0xf6b9265b; 0x6fb077e1; 0x18b74777;
  0x88085ae6; 0xff0f6a70; 0x66063bca; 0x11010b5c; 0x8f659eff; 0xf862ae69;
  0x616bffd3; 0x166ccf45; 0xa00ae278; 0xd70dd2ee; 0x4e048354; 0x3903b3c2;
  0xa7672661; 0xd06016f7; 0x4969474d; 0x3e6e77db; 0xaed16a4a; 0xd9d65adc;
  0x40df0b66; 0x37d83bf0; 0xa9bcae53; 0xdebb9ec5; 0x47b2cf7f; 0x30b5ffe9;
  0xbdbdf21c; 0xcabac28a; 0x53b39330; 0x24b4a3a6; 0xbad03605; 0xcdd70693;
  0x54de5729; 0x23d967bf; 0xb3667a2e; 0xc4614ab8; 0x5d681b02; 0x2a6f2b94;
  0xb40bbe37; 0xc30c8ea1; 0x5a05df1b; 0x2d02ef8d
].

(** [UPDC32(octet, crc)]; [octet] is the [char] of the buffer, converted to
    [uint32_t] (so sign-extended) before the xor. *)
Definition UPDC32 (octet crc : Z) : Z :=
  nth (Z.to_nat ((crc ^^^ u32 octet) &&& 0xff)) crc_32_tab 0 ^^^ (crc >>> 8).

Definition rrr_crc32buf (buf : list Z) : Z :=
  0xFFFFFFFF ^^^ fold_left (fun crc32 b => UPDC32 (schar b) crc32) buf 0xFFFFFFFF.

Definition rrr_crc32cmp (buf : list Z) (crc32 : Z) : Z :=
  u32 (rrr_crc32buf buf - crc32).

(** * Bit-serial reference *)

Definition crc_step (c : Z) : Z :=
  if Z.testbit c 0 then (c >>> 1) ^^^ 0xEDB88320 else c >>> 1.

Definition crc_byte (crc b : Z) : Z := Nat.iter 8 crc_step (crc ^^^ b).

Definition crc32_reference (buf : list Z) : Z :=
  0xFFFFFFFF ^^^ fold_left crc_byte buf 0xFFFFFFFF.

(** What message framing needs of its checksum: 32 bits wide, and no two
    buffers that differ in one byte collide. *)
Class Checksum (f : list Z -> Z) : Prop := {
  checksum_range buf : bytes_ok buf -> 0 <= f buf < 2 ^ 32;
  checksum_single_byte l1 b b' l2 :
    bytes_ok (l1 ++ b :: l2) -> byte_ok b' -> b <> b' ->
    f (l1 ++ b :: l2) <> f (l1 ++ b' :: l2)
}.

Lemma checksum_insert `{Checksum f} (l : list Z) (i : nat) b b' :
  bytes_ok l -> l !! i = Some b -> byte_ok b' -> b <> b' -> f (<[i := b']> l) <> f l.
Proof.
  intros Hl Hi Hb' Hne Heq. pose proof (take_drop_middle l i b Hi) as E.
  rewrite (insert_take_drop l i b') in Heq by (by eapply lookup_lt_Some).
  rewrite <- E in Heq at 3. rewrite <- E in Hl.
  by apply (checksum_single_byte (take i l) b b' (drop (S i) l)).
Qed.

(** * The table is eight bit-serial steps *)

Lemma crc_step_lxor a b : crc_step (a ^^^ b) = crc_step a ^^^ crc_step b.
Proof.
  unfold crc_step. rewrite Z.lxor_spec, Z.shiftr_lxor.
  destruct (Z.testbit a 0), (Z.testbit b 0); simpl xorb; cbv iota; zbits;
    repeat destruct (Z.testbit _ _); done.
Qed.

Lemma iter_step_lxor n a b :
  Nat.iter n crc_step (a ^^^ b) = Nat.iter n crc_step a ^^^ Nat.iter n crc_step b.
Proof. induction n as [|n IH]; simpl; [done|]. by rewrite IH, crc_step_lxor. Qed.

Lemma iter_step_shiftl n h : Nat.iter n crc_step (h <<< Z.of_nat n) = h.
Proof.
  revert h. induction n as [|n IH]; intros h; [apply Z.shiftl_0_r|].
  rewrite Nat.iter_succ_r. unfold crc_step at 2.
  replace (Z.testbit (h <<< Z.of_nat (S n)) 0) with false
    by (symmetry; apply Z.shiftl_spec_low; lia).
  replace ((h <<< Z.of_nat (S n)) >>> 1) with (h <<< Z.of_nat n); [apply IH|].
  rewrite Z.shiftr_shiftl_l by lia. f_equal. lia.
Qed.

Lemma split_low_byte c : c = (c &&& 255) ^^^ ((c >>> 8) <<< 8).
Proof.
  change 255 with (Z.ones 8). zbits. destruct (Z.lt_ge_cases i 8).
  - rewrite Z.ones_spec_low, (Z.testbit_neg_r _ (i - 8)) by lia. by destruct (Z.testbit c i).
  - rewrite Z.ones_spec_high, Z.shiftr_spec by lia. replace (i - 8 + 8) with i by lia.
    by destruct (Z.testbit c i).
Qed.

Lemma crc_32_tab_steps i :
  byte_ok i -> nth (Z.to_nat i) crc_32_tab 0 = Nat.iter 8 crc_step i.
Proof.
  apply (all_bytes_eq (fun i => nth (Z.to_nat i) crc_32_tab 0)). vm_compute. done.
Qed.

Lemma schar_low_byte b : byte_ok b -> u32 (schar b) &&& 255 = b.
Proof.
  apply (all_bytes_eq (fun b => u32 (schar b) &&& 255) (fun b => b)). vm_compute. done.
Qed.

Lemma byte_land_255 b : byte_ok b -> b &&& 255 = b.
Proof. unfold byte_ok. intros. rewrite land_255. apply Z.mod_small. lia. Qed.

Lemma UPDC32_crc_byte crc b : byte_ok b -> UPDC32 (schar b) crc = crc_byte crc b.
Proof.
  intros Hb. unfold UPDC32, crc_byte.
  assert ((crc ^^^ u32 (schar b)) &&& 255 = (crc ^^^ b) &&& 255) as ->.
  { rewrite !lxor_land_distr. by rewrite schar_low_byte, (byte_land_255 b). }
  rewrite crc_32_tab_steps.
  2: { rewrite land_255. pose proof (Z.mod_pos_bound (crc ^^^ b) 256). auto with rrr. }
  rewrite (split_low_byte (crc ^^^ b)) at 2. rewrite iter_step_lxor.
  rewrite (iter_step_shiftl 8). f_equal. rewrite Z.shiftr_lxor.
  replace (b >>> 8) with 0; [by rewrite Z.lxor_0_r|].
  unfold byte_ok in Hb. rewrite Z.shiftr_div_pow2 by lia. symmetry. apply Z.div_small. lia.
Qed.

(** * Each update is a permutation of the 32-bit states *)

Lemma crc_step_range c : 0 <= c < 2 ^ 32 -> 0 <= crc_step c < 2 ^ 32.
Proof.
  intros Hc. unfold crc_step. assert (0 <= c >>> 1 < 2 ^ 32).
  { rewrite Z.shiftr_div_pow2 by lia. split; [apply Z.div_pos; lia|].
    apply Z.div_lt_upper_bound; lia. }
  case_match; [apply lxor_range; lia|done].
Qed.

Lemma crc_step_bit31 c : 0 <= c < 2 ^ 32 -> Z.testbit (crc_step c) 31 = Z.testbit c 0.
Proof.
  intros Hc. unfold crc_step.
  assert (Z.testbit (c >>> 1) 31 = false) as H31.
  { rewrite Z.shiftr_spec by lia. by apply (bits_above 32). }
  case_match eqn:E; rewrite ?Z.lxor_spec, ?H31; done.
Qed.

Lemma crc_step_inj a b :
  0 <= a < 2 ^ 32 -> 0 <= b < 2 ^ 32 -> crc_step a = crc_step b -> a = b.
Proof.
  intros Ha Hb H.
  assert (Z.testbit a 0 = Z.testbit b 0) as H0.
  { rewrite <- (crc_step_bit31 a), <- (crc_step_bit31 b) by done. by rewrite H. }
  assert (a >>> 1 = b >>> 1) as H1.
  { unfold crc_step in H. rewrite H0 in H. destruct (Z.testbit b 0); [|done].
    rewrite !(Z.lxor_comm _ 0xEDB88320) in H.
    apply (f_equal (Z.lxor 0xEDB88320)) in H.
    by rewrite <- !Z.lxor_assoc, Z.lxor_nilpotent, !Z.lxor_0_l in H. }
  apply Z.bits_inj'. intros i Hi. destruct (Z.eq_dec i 0) as [->|]; [done|].
  apply (f_equal (fun z => Z.testbit z (i - 1))) in H1.
  rewrite !Z.shiftr_spec in H1 by lia. by replace (i - 1 + 1) with i in H1 by lia.
Qed.

Lemma iter_step_range n c : 0 <= c < 2 ^ 32 -> 0 <= Nat.iter n crc_step c < 2 ^ 32.
Proof. intros. induction n; simpl; auto using crc_step_range. Qed.

Lemma iter_step_inj n a b :
  0 <= a < 2 ^ 32 -> 0 <= b < 2 ^ 32 ->
  Nat.iter n crc_step a = Nat.iter n crc_step b -> a = b.
Proof.
  intros Ha Hb. induction n as [|n IH]; simpl; [done|]. intros H.
  apply crc_step_inj in H; auto using iter_step_range.
Qed.

Lemma lxor_byte_range c b : 0 <= c < 2 ^ 32 -> byte_ok b -> 0 <= c ^^^ b < 2 ^ 32.
Proof. unfold byte_ok. intros. apply lxor_range; lia. Qed.

Lemma lxor_cancel_l a b c : a ^^^ b = a ^^^ c -> b = c.
Proof.
  intros H%(f_equal (Z.lxor a)).
  by rewrite <- !Z.lxor_assoc, Z.lxor_nilpotent, !Z.lxor_0_l in H.
Qed.

Lemma lxor_cancel_r a b c : b ^^^ a = c ^^^ a -> b = c.
Proof. rewrite !(Z.lxor_comm _ a). apply lxor_cancel_l. Qed.

Lemma crc_fold_range l c :
  bytes_ok l -> 0 <= c < 2 ^ 32 -> 0 <= fold_left crc_byte l c < 2 ^ 32.
Proof.
  intros Hl. revert c. induction Hl; intros c Hc; simpl; [done|].
  apply IHHl, iter_step_range, lxor_byte_range; done.
Qed.

Lemma crc_fold_inj l a b :
  bytes_ok l -> 0 <= a < 2 ^ 32 -> 0 <= b < 2 ^ 32 ->
  fold_left crc_byte l a = fold_left crc_byte l b -> a = b.
Proof.
  intros Hl. revert a b. induction Hl as [|x l Hx _ IH]; intros a b Ha Hb H; [done|].
  simpl in H. apply IH in H; [|by apply iter_step_range, lxor_byte_range..].
  apply iter_step_inj in H; [|by apply lxor_byte_range..]. by apply lxor_cancel_r in H.
Qed.

Lemma crc32buf_eq_reference buf : bytes_ok buf -> rrr_crc32buf buf = crc32_reference buf.
Proof.
  intros H. unfold rrr_crc32buf, crc32_reference. f_equal. generalize 0xFFFFFFFF.
  induction H; intros c; simpl; [done|]. rewrite UPDC32_crc_byte by done. auto.
Qed.

#[export] Instance crc32_checksum : Checksum rrr_crc32buf.
Proof.
  split.
  - intros buf Hb. rewrite crc32buf_eq_reference by done.
    apply lxor_range; [lia..|]. by apply crc_fold_range.
  - intros l1 b b' l2 H Hb' Hne. apply Forall_app in H as [H1 H2].
    apply Forall_cons_iff in H2 as [Hb H2].
    rewrite !crc32buf_eq_reference by (apply Forall_app; auto).
    unfold crc32_reference. intros Heq%lxor_cancel_l.
    rewrite !fold_left_app in Heq. simpl in Heq.
    assert (0 <= fold_left crc_byte l1 0xFFFFFFFF < 2 ^ 32) by (by apply crc_fold_range).
    apply crc_fold_inj in Heq; [|done|by apply iter_step_range, lxor_byte_range..].
    apply iter_step_inj in Heq; [|by apply lxor_byte_range..].
    by apply lxor_cancel_l in Heq.
Qed.

Lemma crc32cmp_zero buf crc :
  bytes_ok buf -> 0 <= crc < 2 ^ 32 -> rrr_crc32cmp buf crc = 0 <-> rrr_crc32buf buf = crc.
Proof.
  intros Hb Hc. pose proof (checksum_range buf Hb). unfold rrr_crc32cmp, wrap.
  split; intros H1; [|by rewrite H1, Z.sub_diag].
  assert (rrr_crc32buf buf - crc = 0); [|lia].
  apply Z.mod_divide in H1 as [k Hk]; [|done]. nia.
Qed.

(** C40. The table-driven [rrr_crc32buf] computes the standard reflected CRC-32
    (polynomial 0xedb88320, initial value and final xor all ones) of the
    buffer, bit by bit, for every buffer. *)
Theorem rrr_crc32buf_is_crc32 buf : bytes_ok buf -> rrr_crc32buf buf = crc32_reference buf.
Proof. apply crc32buf_eq_reference. Qed.

Lemma rrr_crc32buf_is_crc32_witness :
  rrr_crc32buf [0x31;0x32;0x33;0x34;0x35;0x36;0x37;0x38;0x39] = 0xCBF43926 /\
  rrr_crc32buf [0xff;0x80] = crc32_reference [0xff;0x80].
Proof.
  split; [vm_compute; reflexivity|]. apply rrr_crc32buf_is_crc32.
  repeat constructor; vm_compute; congruence.
Defined.

End Crc32.
