(* ===== verification/Utf8.v ===== *)
(** UTF-8 decoding and validation (src/src/lib/util/utf8.c), against the
    encoding of RFC 3629.  A [const char *pos] bounded by [end] is the list of
    the bytes between them. *)
From stdpp Require Import sets.
From S2P Require Import Prelude.

Module Utf8.

(** [*result] is returned second, the advanced [*pos] third. *)
Definition rrr_utf8_get_character_continue (result c : Z) (pos : list Z)
  : Z * Z * list Z :=
  match pos with
  | [] => (1, result, pos)
  | d :: pos =>
    if in_range 0xC2 0xDF c && in_range 0x80 0xBF d then
      (0, ((c &&& 0x1F) <<< 6) ||| (d &&& 0x3F), pos)
    else
    match pos with
    | [] => (1, result, pos)
    | e :: pos =>
      if ((c =? 0xE0) && in_range 0xA0 0xBF d && in_range 0x80 0xBF e)
         || (in_range 0xE1 0xEC c && in_range 0x80 0xBF d && in_range 0x80 0xBF e)
         || ((c =? 0xED) && in_range 0x80 0x9F d && in_range 0x80 0xBF e)
         || (in_range 0xEE 0xEF c && in_range 0x80 0xBF d && in_range 0x80 0xBF e) then
        (0, ((c &&& 0x0F) <<< 12) ||| ((d &&& 0x3F) <<< 6) ||| (e &&& 0x3F), pos)
      else
      match pos with
      | [] => (1, result, pos)
      | f :: pos =>
        if ((c =? 0xF0) && in_range 0x90 0xBF d && in_range 0x80 0xBF e && in_range 0x80 0xBF f)
           || (in_range 0xF1 0xF3 c && in_range 0x80 0xBF d && in_range 0x80 0xBF e
               && in_range 0x80 0xBF f)
           || ((c =? 0xF4) && in_range 0x80 0x8F d && in_range 0x80 0xBF e
               && in_range 0x80 0xBF f) then
          (0, ((c &&& 0x07) <<< 18) ||| ((d &&& 0x3F) <<< 12) ||| ((e &&& 0x3F) <<< 6)
              ||| (f &&& 0x3F), pos)
        else (1, result, pos)
      end
    end
  end.

Definition rrr_utf8_get_character (pos : list Z) : Z * Z * list Z :=
  match pos with
  | [] => (0, 0, pos)
  | c :: pos =>
    if c <=? 0x7F then (0, c, pos) else rrr_utf8_get_character_continue 0 c pos
  end.

(** The do-while loop; every round but the last consumes a byte, so
    [length buf + 1] rounds are enough. *)
Fixpoint utf8_validate_loop (fuel : nat) (pos : list Z) : Z :=
  match fuel with
  | O => 0
  | S fuel =>
    let '(ret, result, pos) := rrr_utf8_get_character pos in
    if (ret =? 0) && negb ((ret =? 0) && (result =? 0)) then utf8_validate_loop fuel pos
    else ret
  end.

Definition rrr_utf8_validate (buf : list Z) : Z :=
  utf8_validate_loop (S (length buf)) buf.

(** The callback takes the character and its argument's state and returns a
    status and the new state. *)
Section Iterate.
Context {St : Type} (callback : Z -> St -> Z * St).

Fixpoint utf8_iterate_loop (fuel : nat) (pos : list Z) (st : St) : Z * St :=
  match fuel with
  | O => (0, st)
  | S fuel =>
    let '(ret, result, pos) := rrr_utf8_get_character pos in
    if negb (ret =? 0) || ((ret =? 0) && (result =? 0)) then (ret, st)
    else
      let '(ret, st) := callback result st in
      if negb (ret =? 0) then (ret, st) else utf8_iterate_loop fuel pos st
  end.

Definition rrr_utf8_validate_and_iterate (buf : list Z) (callback_arg : St) : Z * St :=
  utf8_iterate_loop (S (length buf)) buf callback_arg.
End Iterate.

(** * RFC 3629 *)

Definition scalar (cp : Z) : Prop := 0 <= cp < 0xD800 \/ 0xE000 <= cp <= 0x10FFFF.

Definition utf8_encode (cp : Z) : list Z :=
  if cp <? 0x80 then [cp]
  else if cp <? 0x800 then [0xC0 + cp / 64; 0x80 + cp mod 64]
  else if cp <? 0x10000 then [0xE0 + cp / 4096; 0x80 + cp / 64 mod 64; 0x80 + cp mod 64]
  else [0xF0 + cp / 262144; 0x80 + cp / 4096 mod 64; 0x80 + cp / 64 mod 64; 0x80 + cp mod 64].

Definition utf8_encode_all (cps : list Z) : list Z := flat_map utf8_encode cps.

(** * Decoding one character *)

Lemma mask_6 d : in_range 0x80 0xBF d = true -> d &&& 0x3F = d - 0x80.
Proof. rewrite in_range_spec. intros. rewrite (land_low_bits 6) by done. zdiv. Qed.

Ltac split_ranges :=
  repeat rewrite ?orb_true_iff, ?andb_true_iff, ?in_range_spec, ?Z.eqb_eq in *.

Lemma result_2 c d :
  in_range 0xC2 0xDF c && in_range 0x80 0xBF d = true ->
  ((c &&& 0x1F) <<< 6) ||| (d &&& 0x3F) = (c - 0xC0) * 64 + (d - 0x80).
Proof.
  intros H. assert (in_range 0x80 0xBF d = true) as Hd by (split_ranges; lia).
  rewrite mask_6 by done. split_ranges. rewrite lor_shiftl_add by lia.
  rewrite (land_low_bits 5) by done. zdiv.
Qed.

Lemma result_3 c d e :
  0xE0 <= c <= 0xEF -> 0x80 <= d <= 0xBF -> 0x80 <= e <= 0xBF ->
  ((c &&& 0x0F) <<< 12) ||| ((d &&& 0x3F) <<< 6) ||| (e &&& 0x3F)
  = (c - 0xE0) * 4096 + (d - 0x80) * 64 + (e - 0x80).
Proof.
  intros. rewrite !mask_6 by (split_ranges; lia).
  rewrite <- Z.lor_assoc, (lor_shiftl_add 6), lor_shiftl_add by lia.
  rewrite (land_low_bits 4) by done. zdiv.
Qed.

Lemma result_4 c d e f :
  0xF0 <= c <= 0xF4 -> 0x80 <= d <= 0xBF -> 0x80 <= e <= 0xBF -> 0x80 <= f <= 0xBF ->
  ((c &&& 0x07) <<< 18) ||| ((d &&& 0x3F) <<< 12) ||| ((e &&& 0x3F) <<< 6) ||| (f &&& 0x3F)
  = (c - 0xF0) * 262144 + (d - 0x80) * 4096 + (e - 0x80) * 64 + (f - 0x80).
Proof.
  intros. rewrite !mask_6 by (split_ranges; lia).
  rewrite <- !Z.lor_assoc, (lor_shiftl_add 6), (lor_shiftl_add 12), lor_shiftl_add by lia.
  rewrite (land_low_bits 3) by done. zdiv.
Qed.

Lemma get_character_sound pos cp rest :
  pos <> [] -> bytes_ok pos -> rrr_utf8_get_character pos = (0, cp, rest) ->
  scalar cp /\ pos = utf8_encode cp ++ rest.
Proof.
  intros Hne Hb. destruct pos as [|c pos]; [done|]. simpl.
  apply Forall_cons_iff in Hb as [Hc Hb]. unfold byte_ok in Hc.
  destruct (Z.leb_spec c 0x7F).
  { intros [= -> ->]. unfold scalar, utf8_encode. btests. split; [lia|done]. }
  unfold rrr_utf8_get_character_continue.
  destruct pos as [|d pos]; [done|]. case_match eqn:E2.
  { intros [= <- <-]. rewrite result_2 by done. split_ranges.
    unfold scalar, utf8_encode. btests; split; [lia|]. simpl. repeat f_equal; zdiv. }
  destruct pos as [|e pos]; [done|]. case_match eqn:E3.
  { intros [= <- <-]. split_ranges. rewrite result_3 by lia.
    unfold scalar, utf8_encode. btests; split; [lia|]. simpl. repeat f_equal; zdiv. }
  destruct pos as [|f pos]; [done|]. case_match eqn:E4; [|done].
  intros [= <- <-]. split_ranges. rewrite result_4 by lia.
  unfold scalar, utf8_encode. btests; split; [lia|]. simpl. repeat f_equal; zdiv.
Qed.

Ltac cond_true := match goal with |- context [if ?b then _ else _] =>
  replace b with true by (symmetry; split_ranges; zdiv) end; cbv iota.
Ltac cond_false := match goal with |- context [if ?b then _ else _] =>
  replace b with false by (symmetry; apply not_true_is_false; split_ranges; zdiv) end;
  cbv iota.

Lemma get_character_complete cp rest :
  scalar cp -> rrr_utf8_get_character (utf8_encode cp ++ rest) = (0, cp, rest).
Proof.
  unfold scalar, utf8_encode. intros Hs.
  destruct (Z.ltb_spec cp 0x80); [|destruct (Z.ltb_spec cp 0x800);
    [|destruct (Z.ltb_spec cp 0x10000)]]; simpl app.
  - unfold rrr_utf8_get_character. by rewrite (proj2 (Z.leb_le _ _)) by lia.
  - unfold rrr_utf8_get_character, rrr_utf8_get_character_continue.
    rewrite (proj2 (Z.leb_gt _ _)) by zdiv. cond_true. rewrite result_2 by (split_ranges; zdiv).
    repeat f_equal. zdiv.
  - unfold rrr_utf8_get_character, rrr_utf8_get_character_continue.
    rewrite (proj2 (Z.leb_gt _ _)) by zdiv. cond_false. cond_true.
    rewrite result_3 by zdiv. repeat f_equal. zdiv.
  - unfold rrr_utf8_get_character, rrr_utf8_get_character_continue.
    rewrite (proj2 (Z.leb_gt _ _)) by zdiv. cond_false. cond_false. cond_true.
    rewrite result_4 by zdiv. repeat f_equal. zdiv.
Qed.

Lemma get_character_nonneg pos ret cp rest :
  rrr_utf8_get_character pos = (ret, cp, rest) -> ret = 0 \/ ret = 1.
Proof.
  unfold rrr_utf8_get_character, rrr_utf8_get_character_continue.
  repeat case_match; intros; simplify_eq; auto.
Qed.

Lemma utf8_encode_nonempty cp : exists b l, utf8_encode cp = b :: l.
Proof. unfold utf8_encode. btests; eauto. Qed.

(** * Whole buffers

    Both loops stop at the end of the buffer or at a NUL byte. *)

Definition stops_at (tail : list Z) : Prop := tail = [] \/ exists r, tail = 0 :: r.
Definition text (cps : list Z) : Prop := Forall (fun cp => scalar cp /\ cp <> 0) cps.

Fixpoint run_callback {St} (callback : Z -> St -> Z * St) (cps : list Z) (st : St) : Z * St :=
  match cps with
  | [] => (0, st)
  | cp :: cps =>
    let '(ret, st) := callback cp st in
    if negb (ret =? 0) then (ret, st) else run_callback callback cps st
  end.

Lemma get_character_stop tail :
  stops_at tail -> exists rest, rrr_utf8_get_character tail = (0, 0, rest).
Proof. intros [->|[r ->]]; simpl; eauto. Qed.

Lemma get_character_zero pos rest :
  bytes_ok pos -> rrr_utf8_get_character pos = (0, 0, rest) -> stops_at pos.
Proof.
  intros Hb H. destruct pos as [|b pos]; [by left|]. right.
  apply get_character_sound in H as [_ H]; [|done..]. unfold utf8_encode in H. simpl in H.
  exists rest. done.
Qed.

Lemma iterate_loop_text {St} (callback : Z -> St -> Z * St) cps tail fuel st :
  text cps -> stops_at tail -> (length cps < fuel)%nat ->
  utf8_iterate_loop callback fuel (utf8_encode_all cps ++ tail) st
  = run_callback callback cps st.
Proof.
  intros Hc Ht. revert fuel st.
  induction Hc as [|cp cps [Hs Hz] _ IH]; intros [|fuel] st Hf; simpl in Hf; try lia; simpl.
  - destruct (get_character_stop tail Ht) as [rest ->]. done.
  - rewrite <- app_assoc, get_character_complete by done. simpl.
    rewrite (proj2 (Z.eqb_neq _ _)) by done. simpl.
    destruct (callback cp st) as [ret st']. case_match; [done|]. apply IH. lia.
Qed.

Lemma iterate_loop_zero {St} (callback : Z -> St -> Z * St) fuel pos st st' :
  bytes_ok pos -> (length pos < fuel)%nat ->
  utf8_iterate_loop callback fuel pos st = (0, st') ->
  exists cps tail, text cps /\ stops_at tail /\ pos = utf8_encode_all cps ++ tail /\
    run_callback callback cps st = (0, st').
Proof.
  revert pos st. induction fuel as [|fuel IH]; intros pos st Hb Hf; [lia|]. simpl.
  destruct (rrr_utf8_get_character pos) as [[ret cp] rest] eqn:E.
  destruct (Z.eqb_spec ret 0) as [->|Hr]; simpl; [|intros [= -> _]; done].
  destruct (Z.eqb_spec cp 0) as [->|Hz]; simpl.
  { intros [= <-]. exists [], pos. simpl.
    split_and!; eauto using get_character_zero; constructor. }
  assert (pos <> []) as Hne by (intros ->; simpl in E; congruence).
  apply get_character_sound in E as [Hs ->]; [|done..].
  apply Forall_app in Hb as [_ Hb].
  destruct (utf8_encode_nonempty cp) as (b & l & El).
  rewrite length_app, El in Hf. simpl in Hf.
  destruct (callback cp st) as [ret st1] eqn:Ecb.
  destruct (Z.eqb_spec ret 0) as [->|]; simpl; [|intros [= -> _]; done].
  intros (cps & tail & Hc & Ht & -> & Hrun)%IH; [|done|lia].
  exists (cp :: cps), tail. split_and!; [by constructor|done|..].
  - simpl. by rewrite app_assoc.
  - simpl. by rewrite Ecb.
Qed.

(** [rrr_utf8_validate] is the iteration whose callback accepts everything. *)
Lemma validate_loop_iterate fuel pos :
  utf8_validate_loop fuel pos
  = fst (utf8_iterate_loop (fun _ (u : unit) => (0, u)) fuel pos tt).
Proof.
  revert pos. induction fuel as [|fuel IH]; intros pos; simpl; [done|].
  destruct (rrr_utf8_get_character pos) as [[ret cp] rest].
  destruct (ret =? 0), (cp =? 0); simpl; auto.
Qed.

Lemma run_callback_unit cps : run_callback (fun _ (u : unit) => (0, u)) cps tt = (0, tt).
Proof. induction cps; simpl; auto. Qed.

Lemma length_text_le cps : (length cps <= length (utf8_encode_all cps))%nat.
Proof.
  induction cps as [|cp cps IH]; simpl; [lia|]. rewrite length_app.
  destruct (utf8_encode_nonempty cp) as (b & l & ->). simpl. lia.
Qed.

Lemma iterate_text {St} (callback : Z -> St -> Z * St) cps tail st :
  text cps -> stops_at tail ->
  rrr_utf8_validate_and_iterate callback (utf8_encode_all cps ++ tail) st
  = run_callback callback cps st.
Proof.
  intros. apply iterate_loop_text; [done..|]. rewrite length_app.
  pose proof (length_text_le cps). lia.
Qed.

Lemma iterate_zero {St} (callback : Z -> St -> Z * St) buf st st' :
  bytes_ok buf -> rrr_utf8_validate_and_iterate callback buf st = (0, st') ->
  exists cps tail, text cps /\ stops_at tail /\ buf = utf8_encode_all cps ++ tail /\
    run_callback callback cps st = (0, st').
Proof. intros. eapply iterate_loop_zero; eauto with lia. Qed.

(** A text without NUL has only non-NUL characters. *)
Lemma no_nul_text cps : Forall scalar cps -> 0 ∉ utf8_encode_all cps -> text cps.
Proof.
  intros H. induction H as [|cp cps Hs _ IH]; simpl; constructor.
  - split; [done|]. intros ->. set_solver.
  - apply IH. set_solver.
Qed.

(** C38. [rrr_utf8_validate] accepts a buffer exactly when it is the UTF-8
    encoding (RFC 3629: no surrogates, no overlong forms, nothing above
    U+10FFFF) of non-NUL characters, up to its end or to its first NUL byte. *)
Theorem rrr_utf8_validate_correct buf :
  bytes_ok buf ->
  rrr_utf8_validate buf = 0 <->
  exists cps tail, text cps /\ stops_at tail /\ buf = utf8_encode_all cps ++ tail.
Proof.
  intros Hb. unfold rrr_utf8_validate. rewrite validate_loop_iterate. split.
  - destruct (utf8_iterate_loop _ _ _ _) as [r []] eqn:E. simpl. intros ->.
    apply iterate_loop_zero in E as (cps & tail & ? & ? & ? & _); eauto with lia.
  - intros (cps & tail & Hc & Ht & ->).
    pose proof (iterate_text (fun _ (u : unit) => (0, u)) cps tail tt Hc Ht) as H.
    unfold rrr_utf8_validate_and_iterate in H. rewrite H.
    by rewrite run_callback_unit.
Qed.

Lemma rrr_utf8_validate_correct_witness :
  rrr_utf8_validate [0x61; 0xC3; 0xA6; 0xE2; 0x82; 0xAC; 0xF0; 0x9F; 0x98; 0x80] = 0 /\
  rrr_utf8_validate [0xED; 0xA0; 0x80] = 1 /\
  ~ (exists cps tail, text cps /\ stops_at tail /\ [0xC0; 0x80] = utf8_encode_all cps ++ tail).
Proof.
  split; [vm_compute; reflexivity|]. split; [vm_compute; reflexivity|].
  intros H. apply (rrr_utf8_validate_correct [0xC0; 0x80]) in H.
  - vm_compute in H. discriminate.
  - repeat constructor; vm_compute; congruence.
Defined.

End Utf8.
