(* ===== verification/Types.v ===== *)
(** Overflow-checked length arithmetic (src/src/lib/rrr_types.h), on which all
    buffer arithmetic of RRR is built.  A function [int f(T *a, T b)] returns
    its status and the value [*a] has afterwards; a [_bug] function aborts.
    The platform has 64-bit [size_t], [ssize_t] and pointers. *)
From S2P Require Import Prelude.

Module Types.

Definition RRR_LENGTH_MAX : Z := 0xffffffff.
Definition RRR_BIGLENGTH_MAX : Z := 0xffffffffffffffff.
Definition INT_MIN : Z := - 0x80000000.
Definition INT_MAX : Z := 0x7fffffff.
Definition UINT16_MAX : Z := 0xffff.

Definition rrr_size_from_biglength_trunc (a : Z) : Z := a.
Definition rrr_size_from_biglength_bug_const (a : Z) : Z := a.
Definition rrr_size_from_biglength_err (operand : Z) : Z * Z := (0, operand).

Definition rrr_int_from_slength_bug_const (operand : Z) : outcome Z :=
  if (operand <? INT_MIN) || (INT_MAX <? operand) then Bug else Ret operand.

Definition rrr_int_from_biglength_err (target operand : Z) : Z * Z :=
  if INT_MAX <? operand then (1, target) else (0, operand).

Definition rrr_int_from_biglength_bug_const (operand : Z) : outcome Z :=
  if INT_MAX <? operand then Bug else Ret operand.

Definition rrr_int_from_length_err (target operand : Z) : Z * Z :=
  rrr_int_from_biglength_err target operand.

Definition rrr_types_checked_length_counter_add (target operand : Z) : outcome Z :=
  let target := s64 (target + s64 operand) in
  if (target <? 0) || (RRR_LENGTH_MAX <? target) || (RRR_LENGTH_MAX <? operand)
  then Bug else Ret target.

Definition rrr_types_checked_length_counter_sub (target operand : Z) : outcome Z :=
  let target := s64 (target - s64 operand) in
  if (target <? 0) || (RRR_LENGTH_MAX <? operand) then Bug else Ret target.

Definition rrr_length_sub_bug (a b : Z) : outcome Z :=
  let r := u32 (a - b) in
  if a <? r then Bug else Ret r.

Definition rrr_length_sub_bug_const (a b : Z) : outcome Z :=
  let r := u32 (a - b) in
  if a <? r then Bug else Ret r.

Definition rrr_length_add_bug_const (a b : Z) : outcome Z :=
  let r := u32 (a + b) in
  if (r <? a) || (r <? b) then Bug else Ret r.

Definition rrr_length_add_err (a b : Z) : Z * Z :=
  let r := u32 (a + b) in
  if r <? a then (1, a) else (0, r).

Definition rrr_biglength_sub_bug (a b : Z) : outcome Z :=
  let r := u64 (a - b) in
  if a <? r then Bug else Ret r.

Definition rrr_length_add_bug (a b : Z) : outcome Z :=
  let '(ret, a) := rrr_length_add_err a b in
  if negb (ret =? 0) then Bug else Ret a.

Definition rrr_biglength_add_err (a b : Z) : Z * Z :=
  let r := u64 (a + b) in
  if r <? a then (1, a) else (0, r).

Definition rrr_biglength_add_bug (a b : Z) : outcome Z :=
  let '(ret, a) := rrr_biglength_add_err a b in
  if negb (ret =? 0) then Bug else Ret a.

Definition rrr_length_inc_err (a : Z) : Z * Z :=
  let a := u32 (a + 1) in
  if a =? 0 then (1, a) else (0, a).

Definition rrr_length_mul_bug (a b : Z) : outcome Z :=
  let r := u64 (a * b) in
  if RRR_LENGTH_MAX <? r then Bug else Ret (u32 r).

Definition rrr_biglength_mul_err (a b : Z) : Z * Z :=
  let r := u64 (a * b) in
  if negb (a =? 0) && negb (r / a =? b) then (1, a) else (0, r).

Definition rrr_biglength_from_ssize_sub_bug (a b : Z) : outcome Z :=
  if (b <? 0) || (a <? u64 b) then Bug else Ret (u64 (a - u64 b)).

Definition rrr_length_from_ptr_sub_err (r a b : Z) : Z * Z :=
  if a <? b then (1, r)
  else
    let tmp := u64 (a - b) in
    if RRR_LENGTH_MAX <? tmp then (1, r) else (0, u32 tmp).

Definition rrr_length_from_ptr_sub_bug_const (a b : Z) : outcome Z :=
  if a <? b then Bug
  else
    let r := u64 (a - b) in
    if RRR_LENGTH_MAX <? r then Bug else Ret (u32 r).

Definition rrr_length_from_slength_sub_err (result a b : Z) : Z * Z :=
  if a <? b then (1, result)
  else
    let r := s64 (a - b) in
    if RRR_LENGTH_MAX <? r then (1, result) else (0, u32 r).

Definition rrr_length_from_slength_sub_bug_const (a b : Z) : outcome Z :=
  if a <? b then Bug
  else
    let r := s64 (a - b) in
    if RRR_LENGTH_MAX <? r then Bug else Ret (u32 r).

Definition rrr_length_from_biglength_sub_bug_const (a b : Z) : outcome Z :=
  if a <? b then Bug
  else
    let r := u64 (a - b) in
    if RRR_LENGTH_MAX <? r then Bug else Ret (u32 r).

Definition rrr_biglength_sub_bug_const (a b : Z) : outcome Z :=
  if a <? b then Bug else Ret (u64 (a - b)).

Definition rrr_length_from_slength_err (result a : Z) : Z * Z :=
  rrr_length_from_slength_sub_err result a 0.

Definition rrr_length_from_slength_bug_const (a : Z) : outcome Z :=
  if RRR_LENGTH_MAX <? a then Bug else if a <? 0 then Bug else Ret (u32 a).

Definition rrr_length_from_ssize_bug_const (a : Z) : outcome Z :=
  if RRR_LENGTH_MAX <? a then Bug else if a <? 0 then Bug else Ret (u32 a).

Definition rrr_u16_from_biglength_bug_const (a : Z) : outcome Z :=
  if UINT16_MAX <? a then Bug else Ret (u16 a).

Definition rrr_u16_from_slength_bug_const (a : Z) : outcome Z :=
  if (a <? 0) || (UINT16_MAX <? a) then Bug else Ret (u16 a).

(** The difference goes through a [(rrr_length)] cast before it is returned. *)
Definition rrr_biglength_from_ptr_sub_bug_const (a b : Z) : outcome Z :=
  if a <? b then Bug else let r := u64 (a - b) in Ret (u32 r).

(** The check of a decrement: [*a] itself is left alone. *)
Definition rrr_length_dec_bug (a : Z) : outcome Z :=
  if a =? 0 then Bug else Ret a.

Definition rrr_length_dec_bug_const (a : Z) : outcome Z :=
  r ← rrr_length_dec_bug a; Ret r.

Definition rrr_length_inc_bug (a : Z) : outcome Z :=
  let a := u32 (a + 1) in
  if a =? 0 then Bug else Ret a.

Definition rrr_biglength_inc_bug (a : Z) : outcome Z :=
  let a := u64 (a + 1) in
  if a =? 0 then Bug else Ret a.

Definition rrr_size_t_inc_bug (a : Z) : outcome Z :=
  let a := u64 (a + 1) in
  if a =? 0 then Bug else Ret a.

Definition rrr_length_inc_bug_const (a : Z) : outcome Z :=
  r ← rrr_length_inc_bug a; Ret r.

Definition rrr_size_t_inc_bug_const (a : Z) : outcome Z :=
  r ← rrr_size_t_inc_bug a; Ret r.

(** The last two return the value and the new [*a]. *)
Definition rrr_length_inc_bug_new_value (a : Z) : outcome (Z * Z) :=
  a ← rrr_length_inc_bug a; Ret (a, a).

Definition rrr_length_inc_bug_old_value (a : Z) : outcome (Z * Z) :=
  a ← rrr_length_inc_bug a; Ret (u32 (a - 1), a).

Definition rrr_length_from_biglength_err (r a : Z) : Z * Z :=
  if RRR_LENGTH_MAX <? a then (1, r) else (0, u32 a).

Definition rrr_length_from_biglength_bug_const (a : Z) : outcome Z :=
  let '(ret, tmp) := rrr_length_from_biglength_err 0 a in
  if negb (ret =? 0) then Bug else Ret tmp.

Definition rrr_length_from_size_t_err (r a : Z) : Z * Z :=
  if RRR_LENGTH_MAX <? a then (1, r) else (0, u32 a).

Definition rrr_length_from_size_t_bug_const (a : Z) : outcome Z :=
  let '(ret, tmp) := rrr_length_from_size_t_err 0 a in
  if negb (ret =? 0) then Bug else Ret tmp.

(** * Correctness *)

Definition length_ok (a : Z) : Prop := 0 <= a <= RRR_LENGTH_MAX.
Definition biglength_ok (a : Z) : Prop := 0 <= a <= RRR_BIGLENGTH_MAX.

(** Exact result in range, status or abort otherwise. *)
Definition exact_or_bug (max z : Z) : outcome Z :=
  if (0 <=? z) && (z <=? max) then Ret z else Bug.
Definition exact_or_err (max old z : Z) : Z * Z :=
  if (0 <=? z) && (z <=? max) then (0, z) else (1, old).

Lemma exact_or_bug_small max z : 0 <= z <= max -> exact_or_bug max z = Ret z.
Proof. intros. unfold exact_or_bug. btests. Qed.

Lemma wrap_cases w a :
  0 < w -> - 2 ^ w <= a < 2 * 2 ^ w ->
  wrap w a = if a <? 0 then a + 2 ^ w else if a <? 2 ^ w then a else a - 2 ^ w.
Proof.
  intros Hw Ha. unfold wrap. assert (0 < 2 ^ w) by (apply Z.pow_pos_nonneg; lia).
  btests.
  - rewrite <- (Z.mod_add a 1) by lia. rewrite Z.mod_small; lia.
  - apply Z.mod_small. lia.
  - rewrite <- (Z.mod_add a (-1)) by lia. rewrite Z.mod_small; lia.
Qed.

Ltac types_unfold :=
  unfold length_ok, biglength_ok, exact_or_bug, exact_or_err, RRR_LENGTH_MAX,
    RRR_BIGLENGTH_MAX, UINT16_MAX in *.
Ltac types_arith :=
  types_unfold; rewrite ?(wrap_cases 32), ?(wrap_cases 64) by lia;
  repeat (btest; simpl); first [done | lia | repeat f_equal; lia].

Lemma length_add_err_spec a b :
  length_ok a -> length_ok b -> rrr_length_add_err a b = exact_or_err RRR_LENGTH_MAX a (a + b).
Proof. intros. unfold rrr_length_add_err. types_arith. Qed.

Lemma length_add_bug_spec a b :
  length_ok a -> length_ok b -> rrr_length_add_bug a b = exact_or_bug RRR_LENGTH_MAX (a + b).
Proof.
  intros. unfold rrr_length_add_bug. rewrite length_add_err_spec by done.
  unfold exact_or_err, exact_or_bug. by destruct (_ && _).
Qed.

Lemma length_add_bug_const_spec a b :
  length_ok a -> length_ok b ->
  rrr_length_add_bug_const a b = exact_or_bug RRR_LENGTH_MAX (a + b).
Proof. intros. unfold rrr_length_add_bug_const. types_arith. Qed.

Lemma biglength_add_err_spec a b :
  biglength_ok a -> biglength_ok b ->
  rrr_biglength_add_err a b = exact_or_err RRR_BIGLENGTH_MAX a (a + b).
Proof. intros. unfold rrr_biglength_add_err. types_arith. Qed.

Lemma length_sub_bug_spec a b :
  length_ok a -> length_ok b -> rrr_length_sub_bug a b = exact_or_bug RRR_LENGTH_MAX (a - b).
Proof. intros. unfold rrr_length_sub_bug. types_arith. Qed.

Lemma biglength_sub_bug_spec a b :
  biglength_ok a -> biglength_ok b ->
  rrr_biglength_sub_bug a b = exact_or_bug RRR_BIGLENGTH_MAX (a - b).
Proof. intros. unfold rrr_biglength_sub_bug. types_arith. Qed.

Lemma length_inc_bug_spec a :
  length_ok a -> rrr_length_inc_bug a = exact_or_bug RRR_LENGTH_MAX (a + 1).
Proof. intros. unfold rrr_length_inc_bug. types_arith. Qed.

Lemma length_from_size_t_spec a :
  0 <= a -> rrr_length_from_size_t_bug_const a = exact_or_bug RRR_LENGTH_MAX a.
Proof.
  intros. unfold rrr_length_from_size_t_bug_const, rrr_length_from_size_t_err. types_unfold.
  btests; rewrite ?wrap_small by lia; done.
Qed.

Lemma length_from_biglength_spec a :
  0 <= a -> rrr_length_from_biglength_bug_const a = exact_or_bug RRR_LENGTH_MAX a.
Proof. apply length_from_size_t_spec. Qed.

Lemma length_from_ptr_sub_spec a b :
  0 <= a < 2 ^ 64 -> 0 <= b < 2 ^ 64 ->
  rrr_length_from_ptr_sub_bug_const a b = exact_or_bug RRR_LENGTH_MAX (a - b).
Proof.
  intros. unfold rrr_length_from_ptr_sub_bug_const. types_unfold.
  destruct (Z.ltb_spec a b).
  - by rewrite (proj2 (Z.leb_gt 0 (a - b))) by lia.
  - rewrite (wrap_small 64) by lia. btests; rewrite ?wrap_small by lia; done.
Qed.

(** The quotient test of the 64-bit product finds every overflow. *)
Lemma biglength_mul_err_spec a b :
  biglength_ok a -> biglength_ok b ->
  rrr_biglength_mul_err a b = exact_or_err RRR_BIGLENGTH_MAX a (a * b).
Proof.
  types_unfold. intros Ha Hb. unfold rrr_biglength_mul_err.
  rewrite (proj2 (Z.leb_le 0 (a * b))) by nia. simpl.
  destruct (Z.leb_spec (a * b) 18446744073709551615).
  - rewrite wrap_small by lia. destruct (Z.eqb_spec a 0); [done|].
    rewrite Z.mul_comm, Z.div_mul, Z.eqb_refl by lia. done.
  - destruct (Z.eqb_spec a 0) as [->|]; [lia|]. simpl.
    destruct (Z.eqb_spec (u64 (a * b) / a) b) as [E|]; [|done].
    pose proof (wrap_range 64 (a * b) ltac:(lia)).
    pose proof (Z.mul_div_le (u64 (a * b)) a ltac:(lia)). rewrite E in *. lia.
Qed.

(** The checked 32- and 64-bit length operations never wrap: each either
    returns the exact mathematical result or reports the overflow (an abort
    for the [_bug] forms, status 1 and an untouched operand for the [_err]
    forms). *)
Lemma checked_length_arithmetic a b :
  length_ok a -> length_ok b ->
  rrr_length_add_err a b = exact_or_err RRR_LENGTH_MAX a (a + b) /\
  rrr_length_add_bug a b = exact_or_bug RRR_LENGTH_MAX (a + b) /\
  rrr_length_add_bug_const a b = exact_or_bug RRR_LENGTH_MAX (a + b) /\
  rrr_length_sub_bug a b = exact_or_bug RRR_LENGTH_MAX (a - b) /\
  rrr_length_sub_bug_const a b = exact_or_bug RRR_LENGTH_MAX (a - b) /\
  rrr_length_mul_bug a b = exact_or_bug RRR_LENGTH_MAX (a * b) /\
  rrr_length_inc_bug a = exact_or_bug RRR_LENGTH_MAX (a + 1).
Proof.
  intros Ha Hb. split_and!; auto using length_add_err_spec, length_add_bug_spec,
    length_add_bug_const_spec, length_sub_bug_spec, length_inc_bug_spec.
  unfold rrr_length_mul_bug. types_unfold.
  rewrite (wrap_small 64), (proj2 (Z.leb_le 0 (a * b))) by nia. simpl.
  btests. rewrite wrap_small by nia. done.
Qed.

(** The 64-bit operations: additions and subtractions are exact or
    reported, and the quotient test of [rrr_biglength_mul_err] detects every
    64-bit product overflow. *)
Lemma checked_biglength_arithmetic a b :
  biglength_ok a -> biglength_ok b ->
  rrr_biglength_add_err a b = exact_or_err RRR_BIGLENGTH_MAX a (a + b) /\
  rrr_biglength_sub_bug a b = exact_or_bug RRR_BIGLENGTH_MAX (a - b) /\
  rrr_biglength_sub_bug_const a b = exact_or_bug RRR_BIGLENGTH_MAX (a - b) /\
  rrr_biglength_mul_err a b = exact_or_err RRR_BIGLENGTH_MAX a (a * b).
Proof.
  intros Ha Hb. split_and!; auto using biglength_add_err_spec, biglength_sub_bug_spec,
    biglength_mul_err_spec.
  unfold rrr_biglength_sub_bug_const. types_unfold. btests. rewrite wrap_small by lia. done.
Qed.

(** [rrr_length_dec_bug] only checks: its callers get the value undecremented. *)
Lemma rrr_length_dec_bug_no_decrement a :
  0 < a -> rrr_length_dec_bug a = Ret a /\ rrr_length_dec_bug_const a = Ret a.
Proof. intros. unfold rrr_length_dec_bug_const, rrr_length_dec_bug. btests. Qed.

(** A pointer difference of 2^32 comes back as zero from the 64-bit helper. *)
Lemma rrr_biglength_from_ptr_sub_truncates :
  rrr_biglength_from_ptr_sub_bug_const 0x100000000 0 = Ret 0.
Proof. vm_compute. reflexivity. Qed.

End Types.
