(* ===== verification/Base64.v ===== *)
(** Base 64 (util/base64.c), used by WebSocket and HTTP/2 handshakes: the two
    encoders and decoders, with the bytes they write into the buffers they
    allocate. *)
From S2P Require Import Prelude.

Module Base64.

(** The tables, as character codes: A-Z, a-z, 0-9 and the last two. *)
Definition alphabet (c62 c63 : Z) : list Z :=
  seqZ 65 26 ++ seqZ 97 26 ++ seqZ 48 10 ++ [c62; c63].
Definition base64_table : list Z := alphabet 43 47.
Definition base64url_table : list Z := alphabet 45 95.

Definition NEWLINE : Z := 10.
Definition PAD : Z := 61.

(** Bytes written at [pos] in a buffer of [cap] bytes, of which [out] are
    written. *)
Definition emit (cap : Z) (out cs : list Z) : outcome (list Z) :=
  if Z.of_nat (length out + length cs) <=? cap then Ret (out ++ cs) else Oob.

Definition at_index (table : list Z) (i : Z) : Z := nth (Z.to_nat i) table 0.

(** The size of the output buffer, in 64 bits. *)
Definition encoded_size (len : Z) : Z :=
  let olen := u64 (u64 (len * 4) / 3 + 4) in
  let olen := u64 (olen + olen / 72) in
  u64 (olen + 1).

Definition encode_3 (table : list Z) (a b c : Z) : list Z :=
  [at_index table (a >>> 2);
   at_index table (((a &&& 0x03) <<< 4) ||| (b >>> 4));
   at_index table (((b &&& 0x0f) <<< 2) ||| (c >>> 6));
   at_index table (c &&& 0x3f)].

(** The bytes left, the output and [line_len]. *)
Fixpoint encode_loop (cap : Z) (src out : list Z) (line_len : Z)
  : outcome (list Z * list Z * Z) :=
  match src with
  | a :: b :: c :: rest =>
    out ← emit cap out (encode_3 base64_table a b c);
    let line_len := line_len + 4 in
    if 72 <=? line_len then
      out ← emit cap out [NEWLINE]; encode_loop cap rest out 0
    else encode_loop cap rest out line_len
  | _ => Ret (src, out, line_len)
  end.

(** The buffer up to the terminating zero, which is not counted in [*out_len];
    [None] for [NULL]. *)
Definition rrr_base64_encode (alloc_ok : bool) (src : list Z) : outcome (option (list Z)) :=
  let len := Z.of_nat (length src) in
  let olen := encoded_size len in
  if olen <? len then Ret None
  else if negb alloc_ok then Ret None
  else
    '(rest, out, line_len) ← encode_loop olen src [] 0;
    '(out, line_len) ← (match rest with
      | [] => Ret (out, line_len)
      | a :: rest =>
        out ← emit olen out [at_index base64_table (a >>> 2)];
        out ← (match rest with
          | [] => emit olen out [at_index base64_table ((a &&& 0x03) <<< 4); PAD]
          | b :: _ =>
            emit olen out [at_index base64_table (((a &&& 0x03) <<< 4) ||| (b >>> 4));
                           at_index base64_table ((b &&& 0x0f) <<< 2)]
          end);
        out ← emit olen out [PAD];
        Ret (out, line_len + 4)
      end);
    out ← (if truth line_len then emit olen out [NEWLINE] else Ret out);
    _ ← emit olen out [0];
    Ret (Some out).

(** [dtable] after the initialisation loop. *)
Definition fill_dtable (table : list Z) : list Z :=
  foldl (fun d i => <[Z.to_nat (at_index table i) := i]> d) (replicate 256 0x80) (seqZ 0 64).
Definition base64_dtable : list Z := <[Z.to_nat PAD := 0]> (fill_dtable base64_table).
Definition base64url_dtable : list Z := fill_dtable base64url_table.

Definition count_valid (dtable src : list Z) : Z :=
  fold_left (fun count b => if at_index dtable b =? 0x80 then count else u64 (count + 1)) src 0.

Definition decode_4 (block : list Z) : list Z :=
  let b i := nth i block 0 in
  [u8 ((b 0%nat <<< 2) ||| (b 1%nat >>> 4));
   u8 ((b 1%nat <<< 4) ||| (b 2%nat >>> 2));
   u8 ((b 2%nat <<< 6) ||| b 3%nat)].

Fixpoint decode_loop (cap : Z) (src block out : list Z) (pad : Z) : outcome (option (list Z)) :=
  match src with
  | [] => Ret (Some out)
  | b :: src =>
    let tmp := at_index base64_dtable b in
    if tmp =? 0x80 then decode_loop cap src block out pad
    else
      let pad := if b =? PAD then pad + 1 else pad in
      let block := block ++ [tmp] in
      if Nat.eqb (length block) 4 then
        out ← emit cap out (decode_4 block);
        if truth pad then
          if pad =? 1 then Ret (Some (take (length out - 1) out))
          else if pad =? 2 then Ret (Some (take (length out - 2) out))
          else Ret None
        else decode_loop cap src [] out pad
      else decode_loop cap src block out pad
  end.

(** The decoded bytes, or [None] for [NULL]. *)
Definition rrr_base64_decode (alloc_ok : bool) (src : list Z) : outcome (option (list Z)) :=
  let count := count_valid base64_dtable src in
  if (count =? 0) || truth (count mod 4) then Ret None
  else
    let olen := u64 (count / 4 * 3) in
    if negb alloc_ok then Ret None else decode_loop olen src [] [] 0.

Fixpoint encodeurl_loop (cap : Z) (src out : list Z) : outcome (list Z * list Z) :=
  match src with
  | a :: b :: c :: rest =>
    out ← emit cap out (encode_3 base64url_table a b c);
    encodeurl_loop cap rest out
  | _ => Ret (src, out)
  end.

Definition rrr_base64url_encode (alloc_ok : bool) (src : list Z) : outcome (option (list Z)) :=
  let len := Z.of_nat (length src) in
  let olen := encoded_size len in
  if olen <? len then Ret None
  else if negb alloc_ok then Ret None
  else
    '(rest, out) ← encodeurl_loop olen src [];
    out ← (match rest with
      | [] => Ret out
      | a :: rest =>
        out ← emit olen out [at_index base64url_table (a >>> 2)];
        match rest with
        | [] => emit olen out [at_index base64url_table ((a &&& 0x03) <<< 4)]
        | b :: _ =>
          emit olen out [at_index base64url_table (((a &&& 0x03) <<< 4) ||| (b >>> 4));
                         at_index base64url_table ((b &&& 0x0f) <<< 2)]
        end
      end);
    _ ← emit olen out [0];
    Ret (Some out).

Fixpoint decodeurl_loop (cap : Z) (src block out : list Z) : outcome (list Z) :=
  match src with
  | [] => Ret out
  | b :: src =>
    let tmp := at_index base64url_dtable b in
    if tmp =? 0x80 then decodeurl_loop cap src block out
    else
      let block := block ++ [tmp] in
      if Nat.eqb (length block) 4 then
        out ← emit cap out (decode_4 block);
        decodeurl_loop cap src [] out
      else decodeurl_loop cap src block out
  end.

Definition rrr_base64url_decode (alloc_ok : bool) (src : list Z) : outcome (option (list Z)) :=
  let count := count_valid base64url_dtable src in
  if (count =? 0) || truth (count mod 4) then Ret None
  else
    let olen := u64 (count / 4 * 3) in
    if negb alloc_ok then Ret None
    else out ← decodeurl_loop olen src [] []; Ret (Some out).

(** * The encoding as a function on bytes *)

Definition encode_2 (table : list Z) (a b : Z) : list Z :=
  [at_index table (a >>> 2);
   at_index table (((a &&& 0x03) <<< 4) ||| (b >>> 4));
   at_index table ((b &&& 0x0f) <<< 2)].

Definition encode_1 (table : list Z) (a : Z) : list Z :=
  [at_index table (a >>> 2); at_index table ((a &&& 0x03) <<< 4)].

(** Padded, in lines of 72 characters, with [line_len] characters on the line. *)
Fixpoint encoded (line_len : Z) (src : list Z) : list Z :=
  match src with
  | [] => if truth line_len then [NEWLINE] else []
  | [a] => encode_1 base64_table a ++ [PAD; PAD; NEWLINE]
  | [a; b] => encode_2 base64_table a b ++ [PAD; NEWLINE]
  | a :: b :: c :: rest =>
    encode_3 base64_table a b c ++
    (if 72 <=? line_len + 4 then NEWLINE :: encoded 0 rest else encoded (line_len + 4) rest)
  end.

(** Without padding and lines. *)
Fixpoint encodedurl (src : list Z) : list Z :=
  match src with
  | [] => []
  | [a] => encode_1 base64url_table a
  | [a; b] => encode_2 base64url_table a b
  | a :: b :: c :: rest => encode_3 base64url_table a b c ++ encodedurl rest
  end.

(** Groups of three bytes, the last one perhaps not full. *)
Definition groups (n : Z) : Z := (n + 2) / 3.

(** Induction by groups of three. *)
Lemma list_ind3 {A} (P : list A -> Prop) :
  P [] -> (forall a, P [a]) -> (forall a b, P [a; b]) ->
  (forall a b c l, P l -> P (a :: b :: c :: l)) -> forall l, P l.
Proof.
  intros H0 H1 H2 H3. fix IH 1. intros [|a [|b [|c l]]]; [exact H0|apply H1|apply H2|apply H3, IH].
Qed.

(** * Six-bit indexes *)

Lemma indexes a b c : byte_ok a -> byte_ok b -> byte_ok c ->
  a >>> 2 = a / 4 /\ ((a &&& 0x03) <<< 4) ||| (b >>> 4) = a mod 4 * 16 + b / 16 /\
  ((b &&& 0x0f) <<< 2) ||| (c >>> 6) = b mod 16 * 4 + c / 64 /\ c &&& 0x3f = c mod 64.
Proof.
  unfold byte_ok. intros Ha Hb Hc.
  rewrite !Z.shiftr_div_pow2 by lia. rewrite !lor_shiftl_add by zdiv.
  rewrite (land_low_bits 2 a), (land_low_bits 4 b), (land_low_bits 6 c) by done. done.
Qed.

Lemma tail_indexes a : (a &&& 0x03) <<< 4 = a mod 4 * 16 /\ (a &&& 0x0f) <<< 2 = a mod 16 * 4.
Proof.
  rewrite !Z.shiftl_mul_pow2 by lia.
  by rewrite (land_low_bits 2 a), (land_low_bits 4 a) by done.
Qed.

Lemma decode_4_indexes i0 i1 i2 i3 :
  0 <= i0 < 64 -> 0 <= i1 < 64 -> 0 <= i2 < 64 -> 0 <= i3 < 64 ->
  decode_4 [i0; i1; i2; i3] =
    [(i0 * 4 + i1 / 16) mod 256; (i1 * 16 + i2 / 4) mod 256; (i2 * 64 + i3) mod 256].
Proof.
  intros. unfold decode_4, wrap. simpl nth.
  rewrite !Z.shiftr_div_pow2 by lia. by rewrite !lor_shiftl_add by zdiv.
Qed.

(** The characters of a table, and what the decoder's table has for them. *)
Definition symbols_ok (table dtable : list Z) : bool :=
  forallb (fun i => (at_index dtable (at_index table i) =? i) &&
    negb (at_index table i =? PAD)) (seqZ 0 64).

Lemma symbols_ok_spec table dtable i : symbols_ok table dtable = true -> 0 <= i < 64 ->
  at_index dtable (at_index table i) = i /\ at_index table i <> PAD.
Proof.
  unfold symbols_ok. rewrite forallb_forall. intros H Hi.
  assert (In i (seqZ 0 64)) as Hin by (apply list_elem_of_In, elem_of_seqZ; lia).
  specialize (H i Hin). apply andb_true_iff in H as [H1 H2].
  apply Z.eqb_eq in H1. apply negb_true_iff, Z.eqb_neq in H2. done.
Qed.

Lemma base64_symbols : symbols_ok base64_table base64_dtable = true.
Proof. vm_compute. reflexivity. Qed.

Lemma base64url_symbols : symbols_ok base64url_table base64url_dtable = true.
Proof. vm_compute. reflexivity. Qed.

(** * Encoding *)

Lemma emit_Ret cap out cs : Z.of_nat (length out + length cs) <= cap ->
  emit cap out cs = Ret (out ++ cs).
Proof. intros H. unfold emit. by apply Z.leb_le in H as ->. Qed.

Lemma encoded_size_small len : 0 <= len < 2 ^ 62 ->
  encoded_size len = len * 4 / 3 + 4 + (len * 4 / 3 + 4) / 72 + 1.
Proof.
  intros H. unfold encoded_size. rewrite (wrap_small 64 (len * 4)) by lia.
  rewrite (wrap_small 64 (len * 4 / 3 + 4)) by zdiv.
  set (x := len * 4 / 3 + 4). assert (0 <= x < 2 ^ 63) by (subst x; zdiv). clearbody x.
  rewrite (wrap_small 64 (x + x / 72)) by zdiv. by rewrite wrap_small by zdiv.
Qed.

(** The test for overflow catches every length for which the size wraps. *)
Lemma encoded_size_big len : 2 ^ 62 <= len < 2 ^ 64 -> encoded_size len < len.
Proof.
  intros H. unfold encoded_size.
  assert (exists k, 1 <= k <= 3 /\ u64 (len * 4) = len * 4 - k * 2 ^ 64 /\
    0 <= len * 4 - k * 2 ^ 64 < 2 ^ 64) as (k & Hk & -> & Hr).
  { exists (len * 4 / 2 ^ 64). unfold wrap. split_and!; zdiv. }
  set (x := len * 4 - k * 2 ^ 64) in *.
  assert (0 <= x / 3 < 2 ^ 63) as Hy by zdiv. set (y := x / 3) in *.
  assert (y * 3 <= x) as Hyx by (subst y; zdiv). clearbody y.
  rewrite (wrap_small 64 (y + 4)) by lia.
  assert (0 <= (y + 4) / 72 < 2 ^ 60 /\ 72 * ((y + 4) / 72) <= y + 4) as Hz by zdiv.
  set (z := (y + 4) / 72) in *. clearbody z.
  rewrite (wrap_small 64 (y + 4 + z)), wrap_small by lia. lia.
Qed.

Lemma length_encoded src : forall line_len, 0 <= line_len < 72 ->
  Z.of_nat (length (encoded line_len src)) <=
    4 * groups (Z.of_nat (length src)) + (line_len + 4 * groups (Z.of_nat (length src))) / 72 + 1.
Proof.
  unfold groups. induction src as [|a|a b|a b c src IH] using list_ind3; intros ll Hll.
  - simpl. destruct (truth ll); simpl; zdiv.
  - simpl. zdiv.
  - simpl. zdiv.
  - cbn [encoded]. rewrite length_app. simpl length.
    destruct (Z.leb_spec 72 (ll + 4)).
    + specialize (IH 0 ltac:(lia)). simpl length. zdiv.
    + specialize (IH (ll + 4) ltac:(lia)). zdiv.
Qed.

Lemma encode_loop_spec src : forall cap out line_len,
  Z.of_nat (length (out ++ encoded line_len src)) <= cap ->
  exists rest out' line_len', encode_loop cap src out line_len = Ret (rest, out', line_len') /\
    out ++ encoded line_len src = out' ++ encoded line_len' rest /\ (length rest < 3)%nat /\
    (0 <= line_len -> 0 <= line_len').
Proof.
  induction src as [|a|a b|a b c src IH] using list_ind3; intros cap out ll Hc;
    [eexists _, _, _; split_and!; [done..|simpl; lia|done]..|].
  cbn [encoded encode_loop] in *. set (four := encode_3 base64_table a b c) in *.
  assert (length four = 4%nat) as H4 by done. rewrite !length_app in Hc.
  rewrite emit_Ret by lia. cbn [mbind outcome_bind]. destruct (72 <=? ll + 4).
  - simpl length in Hc. rewrite emit_Ret by (rewrite length_app; simpl; lia).
    cbn [mbind outcome_bind]. destruct (IH cap ((out ++ four) ++ [NEWLINE]) 0)
      as (rest & out' & ll' & -> & E & Hr & Hn); [rewrite !length_app; simpl; lia|].
    eexists rest, out', ll'. split_and!; [done| |done|intros _; by apply Hn].
    rewrite <- E, <- !app_assoc. done.
  - destruct (IH cap (out ++ four) (ll + 4)) as (rest & out' & ll' & -> & E & Hr & Hn);
      [rewrite !length_app; simpl; lia|].
    eexists rest, out', ll'. split_and!; [done| |done|lia].
    rewrite <- E, <- app_assoc. done.
Qed.

Lemma encode_correct src : Z.of_nat (length src) < 2 ^ 62 ->
  rrr_base64_encode true src = Ret (Some (encoded 0 src)).
Proof.
  intros Hlen. unfold rrr_base64_encode.
  pose proof (length_encoded src 0 ltac:(lia)) as Hl. unfold groups in Hl.
  set (len := Z.of_nat (length src)) in *. assert (0 <= len) by (subst len; lia).
  rewrite encoded_size_small by lia.
  set (cap := len * 4 / 3 + 4 + _ + 1).
  assert (len <= cap /\ Z.of_nat (length (encoded 0 src)) + 1 <= cap) as [Hc1 Hc2]
    by (subst cap; clearbody len; zdiv).
  clearbody cap. rewrite (proj2 (Z.ltb_ge cap len)) by done. cbn [negb].
  destruct (encode_loop_spec src cap [] 0) as (rest & out & ll & -> & E & Hr & Hn); [simpl; lia|].
  cbn [mbind outcome_bind]. simpl app in E. rewrite E in Hc2. rewrite E.
  specialize (Hn ltac:(lia)). rewrite length_app in Hc2.
  destruct rest as [|a [|b [|]]]; simpl length in *; [| | |lia]; cbn [encoded].
  - cbn [mbind outcome_bind]. cbn [encoded] in Hc2. destruct (truth ll); simpl length in *.
    + rewrite emit_Ret by (simpl; lia). cbn [mbind outcome_bind].
      by rewrite emit_Ret by (rewrite length_app; simpl; lia).
    + cbn [mbind outcome_bind]. rewrite emit_Ret by (simpl; lia). by rewrite app_nil_r.
  - simpl in Hc2.
    do 3 (rewrite emit_Ret by (rewrite ?length_app; simpl; lia); cbn [mbind outcome_bind]).
    assert (truth (ll + 4) = true) as -> by (apply truth_spec; lia).
    rewrite emit_Ret by (rewrite ?length_app; simpl; lia). cbn [mbind outcome_bind].
    rewrite <- !app_assoc. simpl. by rewrite emit_Ret by (rewrite ?length_app; simpl; lia).
  - simpl in Hc2.
    do 3 (rewrite emit_Ret by (rewrite ?length_app; simpl; lia); cbn [mbind outcome_bind]).
    assert (truth (ll + 4) = true) as -> by (apply truth_spec; lia).
    rewrite emit_Ret by (rewrite ?length_app; simpl; lia). cbn [mbind outcome_bind].
    rewrite <- !app_assoc. simpl. by rewrite emit_Ret by (rewrite ?length_app; simpl; lia).
Qed.

Lemma length_encodedurl src :
  Z.of_nat (length (encodedurl src)) <= 4 * groups (Z.of_nat (length src)).
Proof.
  unfold groups. induction src as [|a|a b|a b c src IH] using list_ind3; simpl; zdiv.
Qed.

Lemma encodeurl_loop_spec src : forall cap out,
  Z.of_nat (length (out ++ encodedurl src)) <= cap ->
  exists rest out', encodeurl_loop cap src out = Ret (rest, out') /\
    out ++ encodedurl src = out' ++ encodedurl rest /\ (length rest < 3)%nat.
Proof.
  induction src as [|a|a b|a b c src IH] using list_ind3; intros cap out Hc;
    [eexists _, _; split_and!; [done..|simpl; lia]..|].
  cbn [encodedurl encodeurl_loop] in *. set (four := encode_3 base64url_table a b c) in *.
  assert (length four = 4%nat) as H4 by done. rewrite !length_app in Hc.
  rewrite emit_Ret by lia. cbn [mbind outcome_bind].
  destruct (IH cap (out ++ four)) as (rest & out' & -> & E & Hr);
    [rewrite !length_app; simpl; lia|].
  eexists rest, out'. split_and!; [done| |done]. rewrite <- E, <- app_assoc. done.
Qed.

Lemma encodeurl_correct src : Z.of_nat (length src) < 2 ^ 62 ->
  rrr_base64url_encode true src = Ret (Some (encodedurl src)).
Proof.
  intros Hlen. unfold rrr_base64url_encode.
  pose proof (length_encodedurl src) as Hl. unfold groups in Hl.
  set (len := Z.of_nat (length src)) in *. assert (0 <= len) by (subst len; lia).
  rewrite encoded_size_small by lia.
  set (cap := len * 4 / 3 + 4 + _ + 1).
  assert (len <= cap /\ Z.of_nat (length (encodedurl src)) + 1 <= cap) as [Hc1 Hc2]
    by (subst cap; clearbody len; zdiv).
  clearbody cap. rewrite (proj2 (Z.ltb_ge cap len)) by done. cbn [negb].
  destruct (encodeurl_loop_spec src cap []) as (rest & out & -> & E & Hr); [simpl; lia|].
  cbn [mbind outcome_bind]. simpl app in E. rewrite E in Hc2. rewrite E.
  rewrite length_app in Hc2.
  destruct rest as [|a [|b [|]]]; simpl length in *; [| | |lia]; cbn [encodedurl mbind outcome_bind].
  - rewrite emit_Ret by (simpl; lia). by rewrite app_nil_r.
  - do 2 (rewrite emit_Ret by (rewrite ?length_app; simpl; lia); cbn [mbind outcome_bind]).
    rewrite <- !app_assoc. simpl. by rewrite emit_Ret by (rewrite ?length_app; simpl; lia).
  - do 2 (rewrite emit_Ret by (rewrite ?length_app; simpl; lia); cbn [mbind outcome_bind]).
    rewrite <- !app_assoc. simpl. by rewrite emit_Ret by (rewrite ?length_app; simpl; lia).
Qed.

(** * Decoding *)

Definition valid (dtable : list Z) (b : Z) : bool := negb (at_index dtable b =? 0x80).

Lemma count_valid_from dtable src : forall k, 0 <= k -> k + Z.of_nat (length src) < 2 ^ 64 ->
  fold_left (fun count b => if at_index dtable b =? 0x80 then count else u64 (count + 1)) src k =
    k + Z.of_nat (length (List.filter (valid dtable) src)).
Proof.
  induction src as [|b src IH]; intros k Hk Hl; simpl in *; [lia|].
  unfold valid at 1. destruct (at_index dtable b =? 0x80); simpl.
  - apply IH; lia.
  - rewrite wrap_small by lia. rewrite IH by lia. lia.
Qed.

Lemma count_valid_spec dtable src : Z.of_nat (length src) < 2 ^ 64 ->
  count_valid dtable src = Z.of_nat (length (List.filter (valid dtable) src)).
Proof. intros H. unfold count_valid. by rewrite count_valid_from by lia. Qed.

Lemma filter_symbols table dtable idx : symbols_ok table dtable = true ->
  Forall (fun i => 0 <= i < 64) idx ->
  List.filter (valid dtable) (map (at_index table) idx) = map (at_index table) idx.
Proof.
  intros Hs. induction 1 as [|i idx Hi _ IH]; simpl; [done|].
  unfold valid at 1. destruct (symbols_ok_spec _ _ _ Hs Hi) as [-> _].
  rewrite (proj2 (Z.eqb_neq i 0x80)) by lia. simpl. by rewrite IH.
Qed.

(** The indexes of the characters of an encoded group. *)
Lemma encode_3_map table a b c : byte_ok a -> byte_ok b -> byte_ok c ->
  encode_3 table a b c =
    map (at_index table) [a / 4; a mod 4 * 16 + b / 16; b mod 16 * 4 + c / 64; c mod 64].
Proof.
  intros Ha Hb Hc. unfold encode_3. destruct (indexes a b c Ha Hb Hc) as (-> & -> & -> & ->). done.
Qed.

Lemma encode_2_map table a b : byte_ok a -> byte_ok b ->
  encode_2 table a b = map (at_index table) [a / 4; a mod 4 * 16 + b / 16; b mod 16 * 4].
Proof.
  intros Ha Hb. unfold encode_2. destruct (indexes a b 0 Ha Hb ltac:(done)) as (-> & -> & _).
  destruct (tail_indexes b) as [_ ->]. done.
Qed.

Lemma encode_1_map table a : byte_ok a ->
  encode_1 table a = map (at_index table) [a / 4; a mod 4 * 16].
Proof.
  intros Ha. unfold encode_1. destruct (indexes a 0 0 Ha ltac:(done) ltac:(done)) as (-> & _).
  destruct (tail_indexes a) as [-> _]. done.
Qed.

Definition index_ok (i : Z) : Prop := 0 <= i < 64.

Lemma groups_index_ok a b c : byte_ok a -> byte_ok b -> byte_ok c ->
  Forall index_ok [a / 4; a mod 4 * 16 + b / 16; b mod 16 * 4 + c / 64; c mod 64] /\
  Forall index_ok [a / 4; a mod 4 * 16 + b / 16; b mod 16 * 4] /\
  Forall index_ok [a / 4; a mod 4 * 16].
Proof.
  unfold byte_ok, index_ok. intros. split_and!; repeat apply Forall_cons_2;
    try apply Forall_nil_2; zdiv.
Qed.

Lemma decode_symbol i rest cap block out pad : index_ok i ->
  decode_loop cap (at_index base64_table i :: rest) block out pad =
    if Nat.eqb (length (block ++ [i])) 4 then
      out ← emit cap out (decode_4 (block ++ [i]));
      if truth pad then
        if pad =? 1 then Ret (Some (take (length out - 1) out))
        else if pad =? 2 then Ret (Some (take (length out - 2) out))
        else Ret None
      else decode_loop cap rest [] out pad
    else decode_loop cap rest (block ++ [i]) out pad.
Proof.
  intros Hi. destruct (symbols_ok_spec _ _ _ base64_symbols Hi) as [E1 E2].
  cbn [decode_loop]. rewrite E1. rewrite (proj2 (Z.eqb_neq i 0x80)) by (unfold index_ok in Hi; lia).
  by rewrite (proj2 (Z.eqb_neq _ PAD) E2).
Qed.

Lemma decode_pad rest cap block out pad :
  decode_loop cap (PAD :: rest) block out pad =
    if Nat.eqb (length (block ++ [0])) 4 then
      out ← emit cap out (decode_4 (block ++ [0]));
      if truth (pad + 1) then
        if pad + 1 =? 1 then Ret (Some (take (length out - 1) out))
        else if pad + 1 =? 2 then Ret (Some (take (length out - 2) out))
        else Ret None
      else decode_loop cap rest [] out (pad + 1)
    else decode_loop cap rest (block ++ [0]) out (pad + 1).
Proof. reflexivity. Qed.

Lemma decode_newline rest cap block out pad :
  decode_loop cap (NEWLINE :: rest) block out pad = decode_loop cap rest block out pad.
Proof. reflexivity. Qed.

Lemma decode_groups a b c : byte_ok a -> byte_ok b -> byte_ok c ->
  decode_4 [a / 4; a mod 4 * 16 + b / 16; b mod 16 * 4 + c / 64; c mod 64] = [a; b; c] /\
  decode_4 [a / 4; a mod 4 * 16 + b / 16; b mod 16 * 4; 0] = [a; b; 0] /\
  decode_4 [a / 4; a mod 4 * 16; 0; 0] = [a; 0; 0].
Proof.
  unfold byte_ok. intros. rewrite !decode_4_indexes by zdiv. split_and!; repeat f_equal; zdiv.
Qed.

Lemma take_but_last {A} (out l k : list A) n : n = length k ->
  take (length (out ++ l ++ k) - n) (out ++ l ++ k) = out ++ l.
Proof. intros ->. rewrite app_assoc. apply take_app_length'. rewrite length_app. lia. Qed.

Lemma decode_encoded src : forall line_len cap out, bytes_ok src ->
  Z.of_nat (length out) + 3 * groups (Z.of_nat (length src)) <= cap ->
  decode_loop cap (encoded line_len src) [] out 0 = Ret (Some (out ++ src)).
Proof.
  unfold groups. induction src as [|a|a b|a b c src IH] using list_ind3; intros ll cap out Hb Hcap.
  - rewrite app_nil_r. simpl. by destruct (truth ll).
  - inversion_clear Hb as [|? ? Ha _].
    destruct (groups_index_ok a 0 0) as (_ & _ & Hi); [done..|].
    destruct (decode_groups a 0 0) as (_ & _ & Hd); [done..|].
    inversion_clear Hi as [|? ? Hi0 Hi']. inversion_clear Hi' as [|? ? Hi1 _].
    cbn [encoded]. rewrite (encode_1_map _ _ Ha). cbn [map app].
    do 2 (rewrite decode_symbol by done; cbn [app length Nat.eqb]).
    do 2 (rewrite decode_pad; cbn [app length Nat.eqb]). rewrite Hd.
    rewrite emit_Ret by (simpl in *; zdiv). cbn [mbind outcome_bind].
    change (out ++ [a; 0; 0]) with (out ++ [a] ++ [0; 0]).
    by rewrite (take_but_last out [a] [0; 0] 2).
  - inversion_clear Hb as [|? ? Ha Hb']. inversion_clear Hb' as [|? ? Hb _].
    destruct (groups_index_ok a b 0) as (_ & Hi & _); [done..|].
    destruct (decode_groups a b 0) as (_ & Hd & _); [done..|].
    inversion_clear Hi as [|? ? Hi0 Hi']. inversion_clear Hi' as [|? ? Hi1 Hi].
    inversion_clear Hi as [|? ? Hi2 _].
    cbn [encoded]. rewrite (encode_2_map _ _ _ Ha Hb). cbn [map app].
    do 3 (rewrite decode_symbol by done; cbn [app length Nat.eqb]).
    rewrite decode_pad; cbn [app length Nat.eqb]. rewrite Hd.
    rewrite emit_Ret by (simpl in *; zdiv). cbn [mbind outcome_bind].
    change (out ++ [a; b; 0]) with (out ++ [a; b] ++ [0]).
    by rewrite (take_but_last out [a; b] [0] 1).
  - inversion_clear Hb as [|? ? Ha Hb']. inversion_clear Hb' as [|? ? Hb Hc'].
    inversion_clear Hc' as [|? ? Hc Hs].
    destruct (groups_index_ok a b c) as (Hi & _ & _); [done..|].
    destruct (decode_groups a b c) as (Hd & _ & _); [done..|].
    inversion_clear Hi as [|? ? Hi0 Hi']. inversion_clear Hi' as [|? ? Hi1 Hi].
    inversion_clear Hi as [|? ? Hi2 Hi']. inversion_clear Hi' as [|? ? Hi3 _].
    cbn [encoded]. rewrite (encode_3_map _ _ _ _ Ha Hb Hc). cbn [map app].
    do 4 (rewrite decode_symbol by done; cbn [app length Nat.eqb]). rewrite Hd.
    simpl length in Hcap. rewrite emit_Ret by (simpl in *; zdiv).
    cbn [mbind outcome_bind]. simpl truth. cbn iota.
    assert (forall ll, decode_loop cap (encoded ll src) [] (out ++ [a; b; c]) 0 =
      Ret (Some (out ++ a :: b :: c :: src))) as IH'.
    { intros ll'. rewrite IH; [by rewrite <- app_assoc|done|]. rewrite length_app. simpl. zdiv. }
    destruct (72 <=? ll + 4); [rewrite decode_newline|]; apply IH'.
Qed.

Lemma count_encoded src : forall line_len, bytes_ok src ->
  Z.of_nat (length (List.filter (valid base64_dtable) (encoded line_len src))) =
    4 * groups (Z.of_nat (length src)).
Proof.
  unfold groups. induction src as [|a|a b|a b c src IH] using list_ind3; intros ll Hb.
  - simpl. by destruct (truth ll).
  - inversion_clear Hb as [|? ? Ha _]. cbn [encoded]. rewrite (encode_1_map _ _ Ha).
    rewrite List.filter_app, (filter_symbols _ _ _ base64_symbols); [done|].
    by apply (groups_index_ok a 0 0).
  - inversion_clear Hb as [|? ? Ha Hb']. inversion_clear Hb' as [|? ? Hb _].
    cbn [encoded]. rewrite (encode_2_map _ _ _ Ha Hb).
    rewrite List.filter_app, (filter_symbols _ _ _ base64_symbols); [done|].
    by apply (groups_index_ok a b 0).
  - inversion_clear Hb as [|? ? Ha Hb']. inversion_clear Hb' as [|? ? Hb Hc'].
    inversion_clear Hc' as [|? ? Hc Hs]. cbn [encoded]. rewrite (encode_3_map _ _ _ _ Ha Hb Hc).
    rewrite List.filter_app, (filter_symbols _ _ _ base64_symbols), length_app
      by (by apply (groups_index_ok a b c)).
    simpl length. destruct (72 <=? ll + 4); [change (List.filter (valid base64_dtable)
      (NEWLINE :: encoded 0 src)) with (List.filter (valid base64_dtable) (encoded 0 src))|];
      rewrite Nat2Z.inj_add, IH by done; zdiv.
Qed.

Lemma count_encodedurl src : bytes_ok src ->
  Z.of_nat (length (List.filter (valid base64url_dtable) (encodedurl src))) =
    4 * (Z.of_nat (length src) / 3) +
    (if Z.of_nat (length src) mod 3 =? 0 then 0 else Z.of_nat (length src) mod 3 + 1).
Proof.
  induction src as [|a|a b|a b c src IH] using list_ind3; intros Hb; [done|..].
  - inversion_clear Hb as [|? ? Ha _]. cbn [encodedurl]. rewrite (encode_1_map _ _ Ha).
    rewrite (filter_symbols _ _ _ base64url_symbols); [done|]. by apply (groups_index_ok a 0 0).
  - inversion_clear Hb as [|? ? Ha Hb']. inversion_clear Hb' as [|? ? Hb _].
    cbn [encodedurl]. rewrite (encode_2_map _ _ _ Ha Hb).
    rewrite (filter_symbols _ _ _ base64url_symbols); [done|]. by apply (groups_index_ok a b 0).
  - inversion_clear Hb as [|? ? Ha Hb']. inversion_clear Hb' as [|? ? Hb Hc'].
    inversion_clear Hc' as [|? ? Hc Hs].
    cbn [encodedurl]. rewrite (encode_3_map _ _ _ _ Ha Hb Hc).
    rewrite List.filter_app, (filter_symbols _ _ _ base64url_symbols), length_app
      by (by apply (groups_index_ok a b c)).
    rewrite Nat2Z.inj_add, IH by done. simpl length.
    replace (Z.of_nat (S (S (S (length src))))) with (Z.of_nat (length src) + 1 * 3) by lia.
    rewrite Z.mod_add, Z.div_add by lia. lia.
Qed.

Lemma decodeurl_symbol i rest cap block out : index_ok i ->
  decodeurl_loop cap (at_index base64url_table i :: rest) block out =
    if Nat.eqb (length (block ++ [i])) 4 then
      out ← emit cap out (decode_4 (block ++ [i])); decodeurl_loop cap rest [] out
    else decodeurl_loop cap rest (block ++ [i]) out.
Proof.
  intros Hi. destruct (symbols_ok_spec _ _ _ base64url_symbols Hi) as [E1 _].
  cbn [decodeurl_loop]. rewrite E1.
  by rewrite (proj2 (Z.eqb_neq i 0x80)) by (unfold index_ok in Hi; lia).
Qed.

Lemma decodeurl_encoded src : forall cap out, bytes_ok src ->
  Z.of_nat (length src) mod 3 = 0 -> Z.of_nat (length out + length src) <= cap ->
  decodeurl_loop cap (encodedurl src) [] out = Ret (out ++ src).
Proof.
  induction src as [|a|a b|a b c src IH] using list_ind3; intros cap out Hb Hm Hcap; try done.
  - simpl. by rewrite app_nil_r.
  - inversion_clear Hb as [|? ? Ha Hb']. inversion_clear Hb' as [|? ? Hb Hc'].
    inversion_clear Hc' as [|? ? Hc Hs].
    destruct (groups_index_ok a b c) as (Hi & _ & _); [done..|].
    destruct (decode_groups a b c) as (Hd & _ & _); [done..|].
    inversion_clear Hi as [|? ? Hi0 Hi']. inversion_clear Hi' as [|? ? Hi1 Hi].
    inversion_clear Hi as [|? ? Hi2 Hi']. inversion_clear Hi' as [|? ? Hi3 _].
    cbn [encodedurl]. rewrite (encode_3_map _ _ _ _ Ha Hb Hc). cbn [map app].
    do 4 (rewrite decodeurl_symbol by done; cbn [app length Nat.eqb]). rewrite Hd.
    simpl length in Hcap, Hm. rewrite emit_Ret by (simpl; lia). cbn [mbind outcome_bind].
    rewrite IH; [by rewrite <- app_assoc|done|zdiv|rewrite length_app; simpl; lia].
Qed.

(** * Theorems *)

(** C39. Data of at least one and less than 2^62 bytes, encoded in base 64, decodes
    to itself, when the allocations succeed, and neither direction writes outside
    of the buffer it allocates; from 2^62 bytes on, where the size of the output
    does not fit, the encoder refuses the data.  (Empty data is left out: it
    encodes to the empty text, which the decoder refuses.) *)
Theorem rrr_base64_roundtrip src :
  bytes_ok src -> src <> [] ->
  (Z.of_nat (length src) < 2 ^ 62 -> exists out,
     rrr_base64_encode true src = Ret (Some out) /\ rrr_base64_decode true out = Ret (Some src)) /\
  (2 ^ 62 <= Z.of_nat (length src) < 2 ^ 64 -> rrr_base64_encode true src = Ret None).
Proof.
  intros Hb Hne. split; intros Hlen.
  - exists (encoded 0 src). split; [by apply encode_correct|]. unfold rrr_base64_decode.
    assert (0 < Z.of_nat (length src)) by (destruct src; simpl; [done|lia]).
    pose proof (length_encoded src 0 ltac:(lia)) as Hl. unfold groups in Hl.
    rewrite count_valid_spec by zdiv. rewrite count_encoded by done. unfold groups.
    rewrite (proj2 (Z.eqb_neq _ 0)) by zdiv. unfold truth.
    rewrite (Z.mul_comm 4), Z.mod_mul, Z.div_mul by lia. cbn [Z.eqb negb orb].
    rewrite wrap_small by zdiv. apply decode_encoded; [done|]. unfold groups. simpl. lia.
  - unfold rrr_base64_encode. by rewrite (proj2 (Z.ltb_lt _ _) (encoded_size_big _ Hlen)).
Qed.

(** The URL variant decodes to the same bytes exactly when their number is a
    multiple of three: the encoder leaves the padding out and the decoder refuses
    text whose length is not a multiple of four. *)
Lemma rrr_base64url_roundtrip src :
  bytes_ok src -> src <> [] -> Z.of_nat (length src) < 2 ^ 62 ->
  exists out, rrr_base64url_encode true src = Ret (Some out) /\
    rrr_base64url_decode true out =
      Ret (if Z.of_nat (length src) mod 3 =? 0 then Some src else None).
Proof.
  intros Hb Hne Hlen. exists (encodedurl src). split; [by apply encodeurl_correct|].
  unfold rrr_base64url_decode.
  assert (0 < Z.of_nat (length src)) by (destruct src; simpl; [done|lia]).
  pose proof (length_encodedurl src) as Hl. unfold groups in Hl.
  rewrite count_valid_spec by zdiv. rewrite count_encodedurl by done.
  destruct (Z.eqb_spec (Z.of_nat (length src) mod 3) 0) as [Hm|Hm].
  - rewrite Z.add_0_r. rewrite (proj2 (Z.eqb_neq _ 0)) by zdiv. unfold truth.
    rewrite (Z.mul_comm 4), Z.mod_mul, Z.div_mul by lia. cbn [Z.eqb negb orb].
    rewrite wrap_small by zdiv. rewrite decodeurl_encoded; [done..|]. simpl. zdiv.
  - assert (truth ((4 * (Z.of_nat (length src) / 3) + (Z.of_nat (length src) mod 3 + 1)) mod 4)
      = true) as -> by (apply truth_spec; zdiv).
    by rewrite orb_true_r.
Qed.

Lemma rrr_base64_roundtrip_witness : exists out,
  rrr_base64_encode true [0; 255; 16; 77] = Ret (Some out) /\
  rrr_base64_decode true out = Ret (Some [0; 255; 16; 77]).
Proof.
  apply (rrr_base64_roundtrip [0; 255; 16; 77]).
  - repeat constructor; unfold byte_ok; lia.
  - discriminate.
  - simpl. lia.
Defined.

End Base64.
