(* ===== verification/Increment.v ===== *)
(** The incrementer arithmetic (src/src/lib/util/increment.c): prefixed
    message ids and the two id sequences of the incrementer module. *)
From S2P Require Import Prelude.

Module Increment.

(** [while (n) { bits++; n >>= 1; }] on a [uint64_t]: 64 rounds are enough. *)
Fixpoint bit_requirement_loop (fuel : nat) (bits n : Z) : Z :=
  match fuel with
  | O => bits
  | S fuel => if truth n then bit_requirement_loop fuel (bits + 1) (n >>> 1) else bits
  end.

Definition rrr_increment_calculate_bit_requirement (n : Z) : Z :=
  u8 (bit_requirement_loop 64 0 n).

Fixpoint bits_to_max_loop (bits : nat) (max : Z) : Z :=
  match bits with
  | O => max
  | S bits => bits_to_max_loop bits (u64 (max <<< 1) ||| 1)
  end.

Definition rrr_increment_bits_to_max (bits : Z) : outcome Z :=
  if negb (bits <=? 64) then Bug else Ret (bits_to_max_loop (Z.to_nat bits) 0).

Definition rrr_increment_max_to_prefix_mask (max : Z) : Z :=
  u64 (0xffffffffffffffff <<< rrr_increment_calculate_bit_requirement max).

Definition rrr_increment_verify_value_prefix (value max prefix : Z) : Z :=
  let bits := rrr_increment_calculate_bit_requirement max in
  if negb (u64 (prefix <<< bits) =? (value &&& rrr_increment_max_to_prefix_mask max))
  then 1 else 0.

(** Returns [*prefix] and the stripped value. *)
Definition rrr_increment_strip_prefix (value max : Z) : outcome (Z * Z) :=
  let mask := rrr_increment_max_to_prefix_mask max in
  let bits := rrr_increment_calculate_bit_requirement max in
  let prefix := (value &&& mask) >>> bits in
  let res := value &&& u64 (Z.lnot mask) in
  if negb (res <=? 0xffffffff) then Bug else Ret (prefix, u32 res).

Definition rrr_increment_apply_prefix (value max prefix : Z) : Z :=
  value ||| u64 (prefix <<< rrr_increment_calculate_bit_requirement max).

Definition rrr_increment_verify (step_or_mod min max position_or_zero prefix : Z) : Z :=
  if 0xff <? step_or_mod then 1
  else if 0xffffffff <? min then 1
  else if 0xffffffff <? max then 1
  else if 0xffffffff <? position_or_zero then 1
  else if max <? min then 1
  else if step_or_mod =? 0 then 1
  else if u64 (max - min + 1) <? step_or_mod then 1
  else if u64 (step_or_mod - 1) <? position_or_zero then 1
  else if 64 <? rrr_increment_calculate_bit_requirement prefix
                + rrr_increment_calculate_bit_requirement max then 1
  else 0.

(** [value + step] is computed on [uint32_t] operands, then widened. *)
Definition rrr_increment_basic (value step min max : Z) : Z :=
  let value_tmp := u32 (value + step) in
  let value_tmp := if (max <? value_tmp) || (value_tmp <? min) then min else value_tmp in
  u32 value_tmp.

Definition rrr_increment_mod (value mod_ min max position : Z) : Z :=
  let value_tmp := u64 (value - value mod mod_ + mod_ + position) in
  let value_tmp :=
    if (max <? value_tmp) || (value_tmp <? min) then
      let value_tmp := u64 (min - min mod mod_ + position) in
      if value_tmp <? min then u64 (value_tmp + mod_) else value_tmp
    else value_tmp in
  u32 value_tmp.

(** * Bit counts *)

Lemma bit_requirement_loop_spec fuel bits n :
  0 <= n < 2 ^ Z.of_nat fuel ->
  bit_requirement_loop fuel bits n = bits + (if n =? 0 then 0 else Z.log2 n + 1).
Proof.
  revert bits n. induction fuel as [|fuel IH]; intros bits n Hn; simpl.
  - change (2 ^ Z.of_nat 0) with 1 in Hn. replace n with 0 by lia. simpl. lia.
  - unfold truth. destruct (Z.eqb_spec n 0) as [->|Hz]; simpl; [lia|].
    assert (n >>> 1 = n / 2) as Hs by (by rewrite Z.shiftr_div_pow2 by lia).
    rewrite Nat2Z.inj_succ, Z.pow_succ_r in Hn by lia.
    rewrite IH by (rewrite Hs; split; [apply Z.div_pos|apply Z.div_lt_upper_bound]; lia).
    destruct (Z.eqb_spec (n >>> 1) 0) as [H2|H2].
    + assert (n = 1) as -> by (rewrite Hs in H2; zdiv). simpl. lia.
    + rewrite Z.log2_shiftr by lia. assert (0 < Z.log2 n); [|lia].
      apply Z.log2_pos. rewrite Hs in H2. zdiv.
Qed.

(** The number of bits of [n]. *)
Definition bit_length (n : Z) : Z := if n =? 0 then 0 else Z.log2 n + 1.

Lemma bit_requirement_spec n :
  0 <= n < 2 ^ 64 -> rrr_increment_calculate_bit_requirement n = bit_length n.
Proof.
  intros Hn. unfold rrr_increment_calculate_bit_requirement.
  rewrite bit_requirement_loop_spec by done. fold (bit_length n). apply wrap_small.
  unfold bit_length. destruct (Z.eqb_spec n 0); [lia|].
  assert (Z.log2 n < 64) by (apply Z.log2_lt_pow2; lia).
  pose proof (Z.log2_nonneg n). lia.
Qed.

Lemma bit_length_bound n k : 0 <= n -> 0 <= k -> n < 2 ^ k <-> bit_length n <= k.
Proof.
  intros Hn Hk. unfold bit_length. destruct (Z.eqb_spec n 0) as [->|].
  - split; [lia|]. intros _. apply Z.pow_pos_nonneg; lia.
  - rewrite Z.log2_lt_pow2 by lia. lia.
Qed.

Lemma bit_length_nonneg n : 0 <= bit_length n.
Proof. unfold bit_length. pose proof (Z.log2_nonneg n). case_match; lia. Qed.

Lemma bit_length_fits n : 0 <= n -> n < 2 ^ bit_length n.
Proof. intros. apply bit_length_bound; auto using bit_length_nonneg. lia. Qed.

(** * Prefixes *)

Section Prefix.
Context (max : Z) (Hmax : 0 <= max < 2 ^ 32).

Lemma bits_of_max : rrr_increment_calculate_bit_requirement max = bit_length max.
Proof using Hmax. apply bit_requirement_spec. lia. Qed.

Lemma bits_of_max_le : 0 <= bit_length max <= 32.
Proof using Hmax. split; [apply bit_length_nonneg|]. apply bit_length_bound; lia. Qed.

Lemma testbit_u64 z i : 0 <= i < 64 -> Z.testbit (u64 z) i = Z.testbit z i.
Proof. intros. unfold wrap. apply Z.mod_pow2_bits_low. lia. Qed.

Lemma testbit_u64_high z i : 64 <= i -> Z.testbit (u64 z) i = false.
Proof. intros. unfold wrap. apply Z.mod_pow2_bits_high. lia. Qed.

Lemma prefix_mask_bit i :
  0 <= i -> Z.testbit (rrr_increment_max_to_prefix_mask max) i
            = (bit_length max <=? i) && (i <? 64).
Proof using Hmax.
  intros Hi. unfold rrr_increment_max_to_prefix_mask. rewrite bits_of_max.
  pose proof bits_of_max_le. change 0xffffffffffffffff with (Z.ones 64).
  destruct (Z.ltb_spec i 64); [|rewrite andb_false_r; by apply testbit_u64_high].
  rewrite testbit_u64, Z.shiftl_spec by lia. rewrite andb_true_r.
  destruct (Z.leb_spec (bit_length max) i).
  - apply Z.ones_spec_low. lia.
  - apply Z.testbit_neg_r. lia.
Qed.

Lemma land_prefix_mask v :
  0 <= v < 2 ^ 64 ->
  v &&& rrr_increment_max_to_prefix_mask max = (v / 2 ^ bit_length max) * 2 ^ bit_length max.
Proof using Hmax.
  intros Hv. pose proof bits_of_max_le.
  rewrite <- Z.shiftr_div_pow2, <- Z.shiftl_mul_pow2 by lia. zbits.
  rewrite prefix_mask_bit by lia. destruct (Z.leb_spec (bit_length max) i).
  - rewrite Z.shiftr_spec by lia. replace (i - bit_length max + bit_length max) with i by lia.
    destruct (Z.ltb_spec i 64); [apply andb_true_r|]. by rewrite (bits_above 64 v) by lia.
  - rewrite andb_false_r. symmetry. apply Z.testbit_neg_r. lia.
Qed.

Lemma land_not_prefix_mask v :
  0 <= v < 2 ^ 64 ->
  v &&& u64 (Z.lnot (rrr_increment_max_to_prefix_mask max)) = v mod 2 ^ bit_length max.
Proof using Hmax.
  intros Hv. pose proof bits_of_max_le. rewrite <- Z.land_ones by lia. zbits.
  destruct (Z.lt_ge_cases i 64); [|by rewrite (bits_above 64 v) by lia].
  rewrite testbit_u64, Z.lnot_spec, prefix_mask_bit by lia.
  rewrite (proj2 (Z.ltb_lt i 64)), andb_true_r by lia. f_equal.
  destruct (Z.leb_spec (bit_length max) i); symmetry.
  - apply Z.ones_spec_high. lia.
  - apply Z.ones_spec_low. lia.
Qed.

Lemma prefix_shift_fits prefix :
  0 <= prefix -> bit_length prefix + bit_length max <= 64 ->
  u64 (prefix <<< bit_length max) = prefix * 2 ^ bit_length max.
Proof using Hmax.
  intros Hp Hb. pose proof bits_of_max_le. pose proof (bit_length_nonneg prefix).
  rewrite Z.shiftl_mul_pow2 by lia. apply wrap_small. split; [nia|].
  pose proof (bit_length_fits prefix Hp).
  apply Z.lt_le_trans with (2 ^ bit_length prefix * 2 ^ bit_length max).
  - apply Z.mul_lt_mono_pos_r; [apply Z.pow_pos_nonneg|]; lia.
  - rewrite <- Z.pow_add_r by lia. apply Z.pow_le_mono_r; lia.
Qed.

Lemma apply_prefix_value value prefix :
  0 <= value <= max -> 0 <= prefix -> bit_length prefix + bit_length max <= 64 ->
  rrr_increment_apply_prefix value max prefix = prefix * 2 ^ bit_length max + value /\
  0 <= prefix * 2 ^ bit_length max + value < 2 ^ 64 /\
  value < 2 ^ bit_length max.
Proof using Hmax.
  intros Hv Hp Hb. pose proof bits_of_max_le as Hbl. pose proof (bit_length_nonneg prefix).
  assert (value < 2 ^ bit_length max) as Hlt
    by (pose proof (bit_length_fits max ltac:(lia)); lia).
  assert (rrr_increment_apply_prefix value max prefix = prefix * 2 ^ bit_length max + value) as E.
  { unfold rrr_increment_apply_prefix. rewrite bits_of_max, prefix_shift_fits by done.
    rewrite Z.lor_comm, <- Z.shiftl_mul_pow2 by lia.
    rewrite lor_shiftl_add by lia. by rewrite Z.shiftl_mul_pow2 by lia. }
  split_and!; [done|nia| |done].
  pose proof (bit_length_fits prefix Hp).
  assert (2 ^ bit_length prefix * 2 ^ bit_length max <= 2 ^ 64).
  { rewrite <- Z.pow_add_r by lia. apply Z.pow_le_mono_r; lia. }
  nia.
Qed.

End Prefix.

(** Ids with a prefix: when prefix and maximum fit in 64 bits together (the
    condition [rrr_increment_verify] checks), stripping the prefix of an id
    gives back the prefix and the value, never trips the assertion, and the
    id passes the prefix check. *)
Lemma rrr_increment_prefix_roundtrip value max prefix :
  0 <= max < 2 ^ 32 -> 0 <= value <= max -> 0 <= prefix < 2 ^ 64 ->
  rrr_increment_calculate_bit_requirement prefix
    + rrr_increment_calculate_bit_requirement max <= 64 ->
  let id := rrr_increment_apply_prefix value max prefix in
  rrr_increment_strip_prefix id max = Ret (prefix, value) /\
  rrr_increment_verify_value_prefix id max prefix = 0.
Proof.
  intros Hm Hv Hp Hb. rewrite !bit_requirement_spec in Hb by lia.
  pose proof (bits_of_max_le max Hm).
  destruct (apply_prefix_value max Hm value prefix) as (E & Hid & Hlt); [lia..|].
  assert (0 < 2 ^ bit_length max) by (apply Z.pow_pos_nonneg; lia).
  simpl. rewrite E. unfold rrr_increment_strip_prefix, rrr_increment_verify_value_prefix.
  rewrite bits_of_max, land_prefix_mask, land_not_prefix_mask by done.
  rewrite prefix_shift_fits by lia.
  rewrite Z.div_add_l, (Z.div_small value), Z.add_0_r by lia.
  rewrite Z.shiftr_div_pow2, Z.div_mul by lia.
  rewrite Z.add_comm, Z.mod_add, (Z.mod_small value) by lia.
  rewrite Z.eqb_refl, (proj2 (Z.leb_le _ _)) by lia. simpl. split; [|done].
  do 2 f_equal. apply wrap_small. lia.
Qed.

(** * The two id sequences *)

Lemma verify_ok step min max pos prefix :
  0 <= step -> 0 <= min -> 0 <= max -> 0 <= pos ->
  rrr_increment_verify step min max pos prefix = 0 ->
  0 < step <= 0xff /\ max <= 0xffffffff /\ min <= max /\ step <= max - min + 1 /\ pos < step.
Proof.
  intros ????. unfold rrr_increment_verify.
  destruct (Z.ltb_spec 0xff step), (Z.ltb_spec 0xffffffff min), (Z.ltb_spec 0xffffffff max),
    (Z.ltb_spec 0xffffffff pos), (Z.ltb_spec max min), (Z.eqb_spec step 0); try done.
  rewrite !wrap_small by lia. btests.
Qed.

(** With a configuration [rrr_increment_verify] accepts, the modulo
    sequence stays in [min, max] and in the residue class of its position
    from any starting value, and advances to the next member of the class, or
    to the first one in range when that exceeds the range. *)
Lemma rrr_increment_mod_correct value mod_ min max position prefix :
  0 <= value < 2 ^ 32 -> 0 <= mod_ -> 0 <= min -> 0 <= max -> 0 <= position ->
  rrr_increment_verify mod_ min max position prefix = 0 ->
  let next := rrr_increment_mod value mod_ min max position in
  min <= next <= max /\ next mod mod_ = position /\
  (min <= value - value mod mod_ + mod_ + position <= max ->
     next = value - value mod mod_ + mod_ + position) /\
  (~ (min <= value - value mod mod_ + mod_ + position <= max) -> next < min + mod_).
Proof.
  intros Hv ???? Hok. apply verify_ok in Hok as (Hm & Hmax & Hmm & Hr & Hp); [|done..].
  unfold rrr_increment_mod. simpl.
  pose proof (Z.div_mod value mod_ ltac:(lia)) as Dv.
  pose proof (Z.mod_pos_bound value mod_ ltac:(lia)).
  pose proof (Z.div_mod min mod_ ltac:(lia)) as Dm.
  pose proof (Z.mod_pos_bound min mod_ ltac:(lia)).
  pose proof (Z.mod_le value mod_ ltac:(lia) ltac:(lia)).
  pose proof (Z.mod_le min mod_ ltac:(lia) ltac:(lia)).
  set (qv := value / mod_) in *. set (qm := min / mod_) in *.
  assert (forall k, (mod_ * k + position) mod mod_ = position) as Hcls.
  { intros k. rewrite Z.add_comm, Z.mul_comm, Z.mod_add by lia. apply Z.mod_small. lia. }
  replace (value - value mod mod_ + mod_ + position) with (mod_ * (qv + 1) + position) by lia.
  replace (min - min mod mod_ + position) with (mod_ * qm + position) by lia.
  assert (0 <= mod_ * (qv + 1) + position < 2 ^ 33) by lia.
  assert (0 <= mod_ * qm + position < 2 ^ 33) by lia.
  rewrite !(wrap_small 64) by lia.
  destruct (Z.ltb_spec max (mod_ * (qv + 1) + position)); simpl;
    [|destruct (Z.ltb_spec (mod_ * (qv + 1) + position) min); simpl];
    try (destruct (Z.ltb_spec (mod_ * qm + position) min));
    rewrite wrap_small by lia;
    try replace (mod_ * qm + position + mod_) with (mod_ * (qm + 1) + position) by lia;
    rewrite Hcls; split_and!; lia.
Qed.

(** The plain sequence always stays in [min, max], and adds the step or
    restarts at [min] as long as the 32-bit sum does not overflow. *)
Lemma rrr_increment_basic_correct value step min max :
  0 <= value < 2 ^ 32 -> 0 <= step < 2 ^ 32 -> 0 <= min <= max -> max < 2 ^ 32 ->
  let next := rrr_increment_basic value step min max in
  min <= next <= max /\
  (value + step < 2 ^ 32 ->
   next = if (min <=? value + step) && (value + step <=? max) then value + step else min).
Proof.
  intros Hv Hs Hm Hx. simpl. unfold rrr_increment_basic.
  pose proof (wrap_range 32 (value + step) ltac:(lia)).
  split; [|intros Hsum; rewrite !(wrap_small 32 (value + step)) by lia];
    repeat btest; simpl; rewrite ?wrap_small by lia; lia.
Qed.

(** The sum of [rrr_increment_basic] is taken in 32 bits before it is widened
    to compare it with the maximum: near 2^32 the sequence skips past its
    restart value. *)
Lemma rrr_increment_basic_wraps :
  rrr_increment_verify 0xff 0 0xfffffff0 0 0 = 0 /\
  rrr_increment_basic 0xfffffff0 0xff 0 0xfffffff0 = 0xef.
Proof. split; vm_compute; reflexivity. Qed.

End Increment.
