(* ===== verification/Parse.v ===== *)
(** The position-based text scanner (src/src/lib/parse.c, parse.h) used for
    configuration files, array definitions and protocol frames.  The object
    [data] points to is a list of bytes; a read outside it is [Oob]. *)
From S2P Require Import Prelude Types.

Module Parse.
Import Types.

Record rrr_parse_pos := mk_pos {
  data : list Z;
  pos : Z;
  size : Z;
  line : Z;
  line_begin_pos : Z
}.

Definition set_pos (v : Z) (p : rrr_parse_pos) : rrr_parse_pos :=
  mk_pos (data p) v (size p) (line p) (line_begin_pos p).

Definition RRR_PARSE_MATCH_SPACE_TAB : Z := 1 <<< 0.
Definition RRR_PARSE_MATCH_COMMAS : Z := 1 <<< 1.
Definition RRR_PARSE_MATCH_LETTERS : Z := 1 <<< 2.
Definition RRR_PARSE_MATCH_HEX : Z := 1 <<< 3.
Definition RRR_PARSE_MATCH_NUMBERS : Z := 1 <<< 4.
Definition RRR_PARSE_MATCH_NEWLINES : Z := 1 <<< 5.
Definition RRR_PARSE_MATCH_NULL : Z := 1 <<< 6.
Definition RRR_PARSE_MATCH_END : Z := 1 <<< 7.
Definition RRR_PARSE_MATCH_DASH : Z := 1 <<< 8.
Definition RRR_PARSE_MATCH_CONTROL : Z := 1 <<< 9.
Definition RRR_PARSE_MATCH_NAME : Z :=
  RRR_PARSE_MATCH_LETTERS ||| RRR_PARSE_MATCH_NUMBERS ||| RRR_PARSE_MATCH_DASH.

Definition RRR_PARSE_CHECK_EOF (p : rrr_parse_pos) : bool := size p <=? pos p.

Definition RRR_PARSE_MATCH_C_SPACE_TAB (c : Z) : bool := (c =? 32) || (c =? 9).
Definition RRR_PARSE_MATCH_C_NEWLINES (c : Z) : bool := (c =? 13) || (c =? 10).
Definition RRR_PARSE_MATCH_C_COMMAS (c : Z) : bool := (c =? 44) || (c =? 59).
Definition RRR_PARSE_MATCH_C_DASH (c : Z) : bool := c =? 45.
Definition RRR_PARSE_MATCH_C_LETTER (c : Z) : bool :=
  in_range 97 122 c || in_range 65 90 c || (c =? 95).
Definition RRR_PARSE_MATCH_C_HEX (c : Z) : bool :=
  in_range 97 102 c || in_range 65 70 c || in_range 48 57 c.
Definition RRR_PARSE_MATCH_C_NUMBER (c : Z) : bool := in_range 48 57 c.
Definition RRR_PARSE_MATCH_C_NULL (c : Z) : bool := c =? 0.
Definition RRR_PARSE_MATCH_C_CONTROL (c : Z) : bool := c <=? 0x1f.

(** The quick functions return their result and the advanced position. *)
Definition rrr_parse_quick_match_or_skip (p : rrr_parse_pos) (c : Z)
  : outcome (Z * rrr_parse_pos) :=
  pos_c ← load8 (data p) (pos p);
  Ret (if pos_c =? c then 0 else 1, set_pos (u32 (pos p + 1)) p).

Definition rrr_parse_quick_match (p : rrr_parse_pos) (c : Z) : outcome (Z * rrr_parse_pos) :=
  pos_c ← load8 (data p) (pos p);
  if pos_c =? c then Ret (0, set_pos (u32 (pos p + 1)) p) else Ret (1, p).

Definition rrr_parse_quick_byte (p : rrr_parse_pos) : outcome (Z * rrr_parse_pos) :=
  b ← load8 (data p) (pos p);
  Ret (b, set_pos (u32 (pos p + 1)) p).

Definition rrr_parse_pos_init (data : list Z) (size : Z) : rrr_parse_pos :=
  mk_pos data 0 size 1 0.

(** These three see the byte as [unsigned char]. *)
Definition rrr_parse_is_space_or_tab (c : Z) : bool := RRR_PARSE_MATCH_C_SPACE_TAB c.
Definition rrr_parse_is_spaces (c : Z) : bool :=
  RRR_PARSE_MATCH_C_SPACE_TAB c || RRR_PARSE_MATCH_C_NEWLINES c.
Definition rrr_parse_is_control (c : Z) : bool := RRR_PARSE_MATCH_C_CONTROL c.

(** One line terminator seen at [c] with look-ahead [next]. *)
Definition count_line (c next : Z) (p : rrr_parse_pos) : rrr_parse_pos :=
  if (c =? 13) && (next =? 10) then
    let p := set_pos (u32 (pos p + 1)) p in
    mk_pos (data p) (pos p) (size p) (u32 (line p + 1)) (u32 (pos p + 1))
  else if c =? 10 then
    mk_pos (data p) (pos p) (size p) (u32 (line p + 1)) (u32 (pos p + 1))
  else if c =? 13 then
    mk_pos (data p) (pos p) (size p) (u32 (line p + 1)) (u32 (pos p + 1))
  else p.

(** The position after one round of the loop on byte [c] and look-ahead. *)
Definition ignore_round (c next : Z) (p : rrr_parse_pos) : rrr_parse_pos :=
  let p := count_line c next p in set_pos (u32 (pos p + 1)) p.

(** The loop runs once per byte at most: [size - pos] rounds are enough. *)
Fixpoint ignore_loop (fuel : nat) (condition_cb : Z -> bool) (c : Z) (p : rrr_parse_pos)
  : outcome rrr_parse_pos :=
  match fuel with
  | O => Ret p
  | S fuel =>
    if condition_cb c && (pos p <? size p) then
      next ← (if u32 (pos p + 1) <? size p then load8 (data p) (u32 (pos p + 1)) else Ret 0);
      let p := ignore_round c next p in
      if RRR_PARSE_CHECK_EOF p then Ret p
      else c ← load8 (data p) (pos p); ignore_loop fuel condition_cb c p
    else Ret p
  end.

Definition rrr_parse_ignore_and_increment_line (p : rrr_parse_pos) (condition_cb : Z -> bool)
  : outcome rrr_parse_pos :=
  if size p <=? pos p then Ret p
  else
    c ← load8 (data p) (pos p);
    ignore_loop (Z.to_nat (size p - pos p)) condition_cb c p.

Definition rrr_parse_ignore_space_and_tab (p : rrr_parse_pos) : outcome rrr_parse_pos :=
  rrr_parse_ignore_and_increment_line p rrr_parse_is_space_or_tab.

Definition rrr_parse_ignore_control_and_increment_line (p : rrr_parse_pos)
  : outcome rrr_parse_pos :=
  rrr_parse_ignore_and_increment_line p rrr_parse_is_control.

Definition rrr_parse_ignore_spaces_and_increment_line (p : rrr_parse_pos)
  : outcome rrr_parse_pos :=
  rrr_parse_ignore_and_increment_line p rrr_parse_is_spaces.

(** The loop of [rrr_parse_comment] reads [data[pos]] before it compares the
    advanced position with the size. *)
Fixpoint comment_loop (fuel : nat) (c : Z) (p : rrr_parse_pos) : outcome rrr_parse_pos :=
  match fuel with
  | O => Ret p
  | S fuel =>
    if negb (c =? 13) && negb (c =? 10) && (pos p <? size p) then
      let p := set_pos (u32 (pos p + 1)) p in
      c ← load8 (data p) (pos p); comment_loop fuel c p
    else Ret p
  end.

Definition rrr_parse_comment (p : rrr_parse_pos) : outcome rrr_parse_pos :=
  if size p <=? pos p then Ret p
  else
    c ← load8 (data p) (pos p);
    p ← comment_loop (S (Z.to_nat (size p - pos p))) c p;
    rrr_parse_ignore_spaces_and_increment_line p.

(** [word] is a C string: its bytes without the terminator. *)
Definition other_case (c : Z) : Z :=
  if in_range 97 122 c then c - 32 else if in_range 65 90 c then c + 32 else 0.

(** Returns the unmatched rest of the word and the position reached. *)
Fixpoint match_word_loop (eq : Z -> Z -> bool) (word_pos : list Z) (p : rrr_parse_pos)
  : outcome (list Z * rrr_parse_pos) :=
  match word_pos with
  | [] => Ret ([], p)
  | w :: word_rest =>
    if pos p <? size p then
      c ← load8 (data p) (pos p);
      if negb (eq w c) then Ret (word_pos, p)
      else match_word_loop eq word_rest (set_pos (u32 (pos p + 1)) p)
    else Ret (word_pos, p)
  end.

Definition match_word_with (eq : Z -> Z -> bool) (p : rrr_parse_pos) (word : list Z)
  : outcome (Z * rrr_parse_pos) :=
  let pos_orig := pos p in
  '(word_pos, p) ← match_word_loop eq word p;
  match word_pos with
  | [] => Ret (1, p)
  | _ => Ret (0, set_pos pos_orig p)
  end.

Definition rrr_parse_match_word_case (p : rrr_parse_pos) (word : list Z)
  : outcome (Z * rrr_parse_pos) :=
  match_word_with (fun w c => (w =? c) || (w =? other_case c)) p word.

Definition rrr_parse_match_word (p : rrr_parse_pos) (word : list Z)
  : outcome (Z * rrr_parse_pos) :=
  match_word_with (fun w c => w =? c) p word.

Fixpoint letters_simple_loop (fuel : nat) (ret : Z) (p : rrr_parse_pos)
  : outcome (Z * rrr_parse_pos) :=
  match fuel with
  | O => Ret (ret, p)
  | S fuel =>
    if negb (RRR_PARSE_CHECK_EOF p) then
      b ← load8 (data p) (pos p);
      let letter := schar b in
      if negb (RRR_PARSE_MATCH_C_LETTER letter) then Ret (ret, p)
      else letters_simple_loop fuel 1 (set_pos (u32 (pos p + 1)) p)
    else Ret (ret, p)
  end.

Definition rrr_parse_match_letters_simple (p : rrr_parse_pos) : outcome (Z * rrr_parse_pos) :=
  letters_simple_loop (Z.to_nat (size p - pos p)) 0 p.

Definition rrr_parse_match_char (c flags : Z) : bool :=
  (truth (flags &&& RRR_PARSE_MATCH_SPACE_TAB) && RRR_PARSE_MATCH_C_SPACE_TAB c) ||
  (truth (flags &&& RRR_PARSE_MATCH_COMMAS) && RRR_PARSE_MATCH_C_COMMAS c) ||
  (truth (flags &&& RRR_PARSE_MATCH_LETTERS) && RRR_PARSE_MATCH_C_LETTER c) ||
  (truth (flags &&& RRR_PARSE_MATCH_HEX) && RRR_PARSE_MATCH_C_HEX c) ||
  (truth (flags &&& RRR_PARSE_MATCH_NUMBERS) && RRR_PARSE_MATCH_C_NUMBER c) ||
  (truth (flags &&& RRR_PARSE_MATCH_NEWLINES) && RRR_PARSE_MATCH_C_NEWLINES c) ||
  (truth (flags &&& RRR_PARSE_MATCH_NULL) && RRR_PARSE_MATCH_C_NULL c) ||
  (truth (flags &&& RRR_PARSE_MATCH_DASH) && RRR_PARSE_MATCH_C_DASH c) ||
  (truth (flags &&& RRR_PARSE_MATCH_CONTROL) && RRR_PARSE_MATCH_C_CONTROL c).

Fixpoint letters_peek_loop (fuel : nat) (flags : Z) (p : rrr_parse_pos)
  : outcome rrr_parse_pos :=
  match fuel with
  | O => Ret p
  | S fuel =>
    if negb (RRR_PARSE_CHECK_EOF p) then
      b ← load8 (data p) (pos p);
      if negb (rrr_parse_match_char (schar b) flags) then Ret p
      else q ← rrr_length_inc_bug (pos p); letters_peek_loop fuel flags (set_pos q p)
    else Ret p
  end.

Definition rrr_parse_match_letters_peek (pos_orig : rrr_parse_pos) (flags : Z) : outcome Z :=
  pos_tmp ← letters_peek_loop (Z.to_nat (size pos_orig - pos pos_orig)) flags pos_orig;
  Ret (u32 (pos pos_tmp - pos pos_orig)).

(** The matching functions return the position, [*start] and [*end]. *)
Definition rrr_parse_match_letters (p : rrr_parse_pos) (flags : Z)
  : outcome (rrr_parse_pos * Z * Z) :=
  let start := pos p in
  n ← rrr_parse_match_letters_peek p flags;
  q ← rrr_length_add_bug (pos p) n;
  Ret (set_pos q p, start, q - 1).

Fixpoint match_until_loop (fuel : nat) (flags c : Z) (p : rrr_parse_pos)
  : outcome (bool * rrr_parse_pos) :=
  match fuel with
  | O => Ret (false, p)
  | S fuel =>
    if negb (RRR_PARSE_CHECK_EOF p) then
      if rrr_parse_match_char c flags then Ret (true, p)
      else
        let p := set_pos (u32 (pos p + 1)) p in
        if RRR_PARSE_CHECK_EOF p then Ret (truth (flags &&& RRR_PARSE_MATCH_END), p)
        else b ← load8 (data p) (pos p); match_until_loop fuel flags (schar b) p
    else Ret (false, p)
  end.

Definition rrr_parse_match_until (p : rrr_parse_pos) (flags : Z)
  : outcome (rrr_parse_pos * Z * Z) :=
  let start := pos p in
  let pos_orig := pos p in
  b ← load8 (data p) (pos p);
  '(found, p) ← match_until_loop (Z.to_nat (size p - pos p)) flags (schar b) p;
  let p := if negb found then set_pos pos_orig p else p in
  Ret (p, start, pos p - 1).

(** [rrr_parse_non_newline] and [rrr_parse_non_control] differ in the test of
    the [char] only. *)
Fixpoint non_loop (fuel : nat) (stop : Z -> bool) (c : Z) (p : rrr_parse_pos)
  : outcome rrr_parse_pos :=
  match fuel with
  | O => Ret p
  | S fuel =>
    if negb (RRR_PARSE_CHECK_EOF p) then
      if stop c then Ret p
      else
        let p := set_pos (u32 (pos p + 1)) p in
        if RRR_PARSE_CHECK_EOF p then Ret p
        else b ← load8 (data p) (pos p); non_loop fuel stop (schar b) p
    else Ret p
  end.

Definition rrr_parse_non_newline (p : rrr_parse_pos) : outcome (rrr_parse_pos * Z * Z) :=
  let start := pos p in
  b ← load8 (data p) (pos p);
  p ← non_loop (Z.to_nat (size p - pos p)) (fun c => (c =? 13) || (c =? 10)) (schar b) p;
  Ret (p, start, pos p - 1).

Definition rrr_parse_non_control (p : rrr_parse_pos) : outcome (rrr_parse_pos * Z * Z) :=
  let start := pos p in
  b ← load8 (data p) (pos p);
  p ← non_loop (Z.to_nat (size p - pos p)) RRR_PARSE_MATCH_C_CONTROL (schar b) p;
  Ret (p, start, pos p - 1).

(** [memcpy] of [length] bytes out of an object. *)
Definition copy_out (buf : list Z) (begin length : Z) : outcome (list Z) :=
  if (begin <? 0) || (Z.of_nat (List.length buf) <? begin + length) then Oob
  else Ret (slice (Z.to_nat begin) (Z.to_nat length) buf).

(** Allocating functions take [alloc_ok], whether [rrr_allocate] succeeds, and
    return their status and the new string, if any. *)
Definition rrr_parse_str_extract (alloc_ok : bool) (p : rrr_parse_pos) (begin length : Z)
  : outcome (Z * option (list Z)) :=
  if length =? 0 then Bug
  else if negb alloc_ok then Ret (1, None)
  else bytes ← copy_out (data p) begin length; Ret (0, Some bytes).

(** [element] holds the bytes between the start of the current element and
    [pos]; the end of the list is the terminating NUL. *)
Fixpoint str_split_loop (chr elements_max : Z) (pos element : list Z)
    (elements_count : Z) (elements : list (list Z)) : Z * Z * list (list Z) :=
  if elements_count =? elements_max then (1, elements_count, elements)
  else
    match pos with
    | [] =>
      let elements := elements ++ [element] in
      let '(ret, elements_count) := rrr_length_inc_err elements_count in
      (ret, elements_count, elements)
    | c :: pos =>
      if c =? chr then
        let elements := elements ++ [element] in
        let '(ret, elements_count) := rrr_length_inc_err elements_count in
        if negb (ret =? 0) then (ret, elements_count, elements)
        else str_split_loop chr elements_max pos [] elements_count elements
      else str_split_loop chr elements_max pos (element ++ [c]) elements_count elements
    end.

Definition rrr_parse_str_split {St} (alloc_ok : bool) (str : list Z) (chr elements_max : Z)
    (callback : list (list Z) -> Z -> St -> Z * St) (callback_arg : St) : Z * St :=
  match str with
  | [] => callback [] 0 callback_arg
  | _ =>
    if negb alloc_ok then (1, callback_arg)
    else
      let '(ret, elements_count, elements) := str_split_loop chr elements_max str [] 0 [] in
      if negb (ret =? 0) then (ret, callback_arg)
      else callback elements elements_count callback_arg
  end.

(** [strchr]: the offset of the first [c], where the terminator counts. *)
Fixpoint strchr (str : list Z) (c : Z) : option Z :=
  match str with
  | [] => if c =? 0 then Some 0 else None
  | b :: str => if b =? c then Some 0 else Z.add 1 <$> strchr str c
  end.

Definition rrr_parse_str_extract_until (alloc_ok : bool) (str : list Z) (end_char : Z)
  : Z * option (list Z) * Z :=
  match strchr str end_char with
  | None => (0, None, 0)
  | Some e =>
    let length := u32 e in
    if negb alloc_ok then (1, None, 0)
    else (0, Some (take (Z.to_nat length) str), length)
  end.

Definition rrr_parse_str_extract_name (alloc_ok : bool) (p : rrr_parse_pos) (end_char : Z)
  : outcome (Z * option (list Z) * rrr_parse_pos) :=
  p ← rrr_parse_ignore_spaces_and_increment_line p;
  if RRR_PARSE_CHECK_EOF p then Ret (0, None, p)
  else
    '(p, start, end_) ← rrr_parse_match_letters p RRR_PARSE_MATCH_NAME;
    if end_ <? start then Ret (0, None, p)
    else
      p ← rrr_parse_ignore_spaces_and_increment_line p;
      missing ← (if RRR_PARSE_CHECK_EOF p then Ret true
                 else b ← load8 (data p) (pos p); Ret (negb (b =? end_char)));
      if missing : bool then Ret (1, None, p)
      else
        q ← rrr_length_inc_bug (pos p);
        let p := set_pos q p in
        d ← rrr_length_from_slength_sub_bug_const end_ start;
        name_length ← rrr_length_inc_bug_const d;
        if negb alloc_ok then Ret (1, None, p)
        else name ← copy_out (data p) start name_length; Ret (0, Some name, p).

(** In-place edits of a C string: the buffer is [str] with its terminator. *)
Definition is_newline (c : Z) : bool := (c =? 13) || (c =? 10).

Fixpoint strip_skip (fuel : nat) (buf : list Z) (i skip_count length : nat) : nat :=
  match fuel with
  | O => skip_count
  | S fuel =>
    if (skip_count + i <? length)%nat && is_newline (nth (i + skip_count) buf 0)
    then strip_skip fuel buf i (S skip_count) length else skip_count
  end.

(** [for (i = 0; i < length; i++)] with [n] rounds left. *)
Fixpoint strip_loop (n : nat) (buf : list Z) (i skip_count length : nat) : list Z :=
  match n with
  | O => buf
  | S n =>
    let skip_count := strip_skip length buf i skip_count length in
    if (length <=? skip_count + i)%nat then <[i := 0]> buf
    else strip_loop n (<[i := nth (i + skip_count) buf 0]> buf) (S i) skip_count length
  end.

(** The string a C buffer holds. *)
Fixpoint cstr (buf : list Z) : list Z :=
  match buf with
  | [] => []
  | b :: buf => if b =? 0 then [] else b :: cstr buf
  end.

Definition rrr_parse_str_strip_newlines (buf : list Z) : list Z :=
  let length := List.length (cstr buf) in
  strip_loop length buf 0 0 length.

(** [pos] counts the bytes up to and including [*pos]. *)
Fixpoint trim_loop (pos : nat) (buf : list Z) : list Z :=
  match pos with
  | O => buf
  | S i =>
    let c := nth i buf 0 in
    if (c =? 32) || (c =? 13) || (c =? 10) || (c =? 9) then trim_loop i (<[i := 0]> buf)
    else buf
  end.

Definition rrr_parse_str_trim (buf : list Z) : list Z :=
  trim_loop (List.length (cstr buf)) buf.

(** * Positions as suffixes of the data *)

Definition wf (p : rrr_parse_pos) : Prop :=
  0 <= pos p <= size p /\ size p <= Z.of_nat (length (data p)) /\ size p <= RRR_LENGTH_MAX /\
  0 <= line p < 2 ^ 32.

(** What is left to read; the object may be longer than [size]. *)
Definition rest (p : rrr_parse_pos) : list Z :=
  take (Z.to_nat (size p - pos p)) (drop (Z.to_nat (pos p)) (data p)).

(** [p] moved forward by [n] bytes, nothing else changed. *)
Definition forward (n : nat) (p : rrr_parse_pos) : rrr_parse_pos := set_pos (pos p + Z.of_nat n) p.

(** Length of the longest prefix whose bytes satisfy [f]. *)
Fixpoint span (f : Z -> bool) (l : list Z) : nat :=
  match l with
  | [] => O
  | b :: l => if f b then S (span f l) else O
  end.

Lemma span_le f l : (span f l <= length l)%nat.
Proof. induction l; simpl; [lia|]. case_match; lia. Qed.

Lemma span_app f l1 l2 :
  forallb f l1 = true -> span f (l1 ++ l2) = (length l1 + span f l2)%nat.
Proof.
  induction l1 as [|b l1 IH]; simpl; [done|]. intros [-> ?]%andb_true_iff.
  rewrite IH; done.
Qed.

Lemma span_stop f c l : f c = false -> span f (c :: l) = O.
Proof. simpl. by intros ->. Qed.

Section Positions.
Implicit Types p : rrr_parse_pos.

Lemma length_rest p : wf p -> Z.of_nat (length (rest p)) = size p - pos p.
Proof. intros (? & ? & ?). unfold rest. rewrite length_take, length_drop. lia. Qed.

Lemma forward_0 p : forward 0 p = p.
Proof. destruct p. unfold forward, set_pos. simpl. f_equal. lia. Qed.

Lemma forward_forward m n p : forward m (forward n p) = forward (n + m) p.
Proof. unfold forward, set_pos. simpl. f_equal. lia. Qed.

Lemma wf_forward n p : wf p -> (n <= length (rest p))%nat -> wf (forward n p).
Proof.
  intros Hp Hn. pose proof (length_rest p Hp). destruct Hp as (? & ? & ? & ?).
  unfold wf, forward, set_pos. simpl. lia.
Qed.

Lemma rest_moved k ln lb p :
  0 <= pos p ->
  rest (mk_pos (data p) (pos p + Z.of_nat k) (size p) ln lb) = drop k (rest p).
Proof.
  intros Hp. unfold rest. simpl. rewrite skipn_firstn_comm, drop_drop. f_equal; [lia|].
  f_equal. lia.
Qed.

Lemma rest_forward n p : wf p -> rest (forward n p) = drop n (rest p).
Proof.
  intros Hp. apply rest_moved. apply Hp.
Qed.

(** The object may hold more than the text, a terminator for example. *)
Lemma init_spec l tail :
  Z.of_nat (length l) <= RRR_LENGTH_MAX ->
  wf (rrr_parse_pos_init (l ++ tail) (Z.of_nat (length l))) /\
  rest (rrr_parse_pos_init (l ++ tail) (Z.of_nat (length l))) = l.
Proof.
  intros Hl. split; [unfold wf; simpl; rewrite length_app; lia|].
  unfold rest. simpl. rewrite Z.sub_0_r, Nat2Z.id, drop_0. apply take_app_length.
Qed.

Lemma rest_init l :
  rest (rrr_parse_pos_init l (Z.of_nat (length l))) = l.
Proof. unfold rest. simpl. rewrite Z.sub_0_r, Nat2Z.id, drop_0. apply firstn_all. Qed.

(** Either the position is at the end or the byte there can be read and the
    increment does not wrap. *)
Lemma rest_nil p : wf p -> rest p = [] -> RRR_PARSE_CHECK_EOF p = true /\ pos p = size p.
Proof.
  intros Hp Hr. pose proof (length_rest p Hp) as Hl. rewrite Hr in Hl. simpl in Hl.
  unfold RRR_PARSE_CHECK_EOF. rewrite Z.leb_le. destruct Hp. lia.
Qed.

Lemma rest_cons p b l :
  wf p -> rest p = b :: l ->
  pos p < size p /\ RRR_PARSE_CHECK_EOF p = false /\ load8 (data p) (pos p) = Ret b /\
  set_pos (u32 (pos p + 1)) p = forward 1 p /\ rest (forward 1 p) = l /\ wf (forward 1 p) /\
  u32 (pos p + 1) = pos p + 1 /\ rrr_length_inc_bug (pos p) = Ret (pos p + 1).
Proof.
  intros Hp Hr. pose proof (length_rest p Hp) as Hl. rewrite Hr in Hl. simpl in Hl.
  assert (wf (forward 1 p)) as Hw by (apply wf_forward; [done|rewrite Hr; simpl; lia]).
  assert (rest (forward 1 p) = l) as Hf by (rewrite rest_forward, Hr by done; done).
  destruct Hp as (Hpos & Hsz & Hmax & _). unfold RRR_LENGTH_MAX in Hmax.
  assert (u32 (pos p + 1) = pos p + 1) as Hu by (apply wrap_small; lia).
  unfold RRR_PARSE_CHECK_EOF, rrr_length_inc_bug. rewrite Hu.
  split_and!; try done; [lia|apply Z.leb_gt; lia| |].
  - apply load8_Some. split; [lia|]. unfold rest in Hr.
    rewrite <- (Nat.add_0_r (Z.to_nat _)), <- lookup_drop.
    rewrite <- (lookup_take_lt _ (Z.to_nat (size p - pos p))) by lia. by rewrite Hr.
  - by rewrite (proj2 (Z.eqb_neq _ _)) by lia.
Qed.

(** * Matching *)

Lemma letters_peek_spec flags fuel p :
  wf p -> (length (rest p) <= fuel)%nat ->
  letters_peek_loop fuel flags p
  = Ret (forward (span (fun b => rrr_parse_match_char (schar b) flags) (rest p)) p).
Proof.
  revert p. induction fuel as [|fuel IH]; intros p Hp Hf; destruct (rest p) as [|b l] eqn:Hr;
    simpl in Hf; try lia; simpl.
  - by rewrite forward_0.
  - apply rest_nil in Hr as [-> _]; [|done]. simpl. by rewrite forward_0.
  - apply rest_cons in Hr as (_ & -> & -> & E & Hr & Hw & Eu & Ei); [|done]. simpl.
    destruct (rrr_parse_match_char (schar b) flags); simpl; [|by rewrite forward_0].
    rewrite Ei. simpl. rewrite <- Eu, E, IH by (rewrite ?Hr; auto with lia).
    by rewrite Hr, forward_forward.
Qed.

Lemma match_letters_peek_spec flags p :
  wf p -> rrr_parse_match_letters_peek p flags
          = Ret (Z.of_nat (span (fun b => rrr_parse_match_char (schar b) flags) (rest p))).
Proof.
  intros Hp. unfold rrr_parse_match_letters_peek. pose proof (length_rest p Hp).
  rewrite letters_peek_spec by (auto with lia). simpl. f_equal.
  pose proof (span_le (fun b => rrr_parse_match_char (schar b) flags) (rest p)).
  replace (pos p + _ - pos p) with
    (Z.of_nat (span (fun b => rrr_parse_match_char (schar b) flags) (rest p))) by lia.
  destruct Hp as (? & ? & Hm & _). unfold RRR_LENGTH_MAX in Hm. apply wrap_small. lia.
Qed.

Lemma match_letters_spec flags p :
  wf p ->
  let n := span (fun b => rrr_parse_match_char (schar b) flags) (rest p) in
  rrr_parse_match_letters p flags = Ret (forward n p, pos p, pos p + Z.of_nat n - 1).
Proof.
  intros Hp n. unfold rrr_parse_match_letters. rewrite match_letters_peek_spec by done.
  fold n. simpl. pose proof (length_rest p Hp).
  assert (n <= length (rest p))%nat by apply span_le.
  destruct Hp as (? & ? & Hm & _). unfold RRR_LENGTH_MAX in Hm.
  rewrite length_add_bug_spec by (unfold length_ok, RRR_LENGTH_MAX; lia).
  unfold exact_or_bug, RRR_LENGTH_MAX.
  rewrite (proj2 (Z.leb_le 0 _)), (proj2 (Z.leb_le _ 4294967295)) by lia. simpl. done.
Qed.

Lemma match_word_loop_spec (eq : Z -> Z -> bool) word p :
  wf p ->
  exists k, match_word_loop eq word p = Ret (drop k word, forward k p) /\
    (k <= length word)%nat /\ (k <= length (rest p))%nat /\
    Forall2 (fun w c => eq w c = true) (take k word) (take k (rest p)) /\
    (k = length word \/ rest p !! k = None \/
     exists w c, word !! k = Some w /\ rest p !! k = Some c /\ eq w c = false).
Proof.
  revert p. induction word as [|w word IH]; intros p Hp.
  - exists O. simpl. rewrite forward_0. split_and!; auto with lia.
  - simpl. destruct (rest p) as [|b l] eqn:Hr.
    + apply rest_nil in Hr as [_ E]; [|done]. rewrite E, Z.ltb_irrefl.
      exists O. simpl. rewrite forward_0. split_and!; auto with lia.
    + apply rest_cons in Hr as (Hlt & _ & -> & E & Hr & Hw & _ & _); [|done].
      rewrite (proj2 (Z.ltb_lt _ _)) by done. simpl.
      destruct (eq w b) eqn:Ew; simpl.
      * destruct (IH (forward 1 p) Hw) as (k & Ek & H1 & H2 & H3 & H4). rewrite Hr in *.
        exists (S k). rewrite E, Ek, forward_forward. simpl. split_and!; auto with lia.
        destruct H4 as [->|H4]; [by left|by right].
      * exists O. simpl. rewrite forward_0. split_and!; eauto 10 with lia.
Qed.

(** A word is matched exactly when it is a prefix of what is left, up to [eq]. *)
Lemma match_word_with_spec (eq : Z -> Z -> bool) p word :
  wf p ->
  (exists l1 l2, rest p = l1 ++ l2 /\ Forall2 (fun w c => eq w c = true) word l1 /\
     match_word_with eq p word = Ret (1, forward (length word) p)) \/
  ((forall l1 l2, rest p = l1 ++ l2 -> ~ Forall2 (fun w c => eq w c = true) word l1) /\
     match_word_with eq p word = Ret (0, p)).
Proof.
  intros Hp. unfold match_word_with.
  destruct (match_word_loop_spec eq word p Hp) as (k & -> & Hk & Hk' & Hf & Hstop). simpl.
  destruct (decide (k = length word)) as [->|Hne].
  - left. exists (take (length word) (rest p)), (drop (length word) (rest p)).
    rewrite drop_all, take_drop. rewrite take_ge in Hf by lia. done.
  - right. destruct Hstop as [?|Hstop]; [done|]. split.
    + intros l1 l2 Hl Hall. assert (length word = length l1) as Hlen by eauto using Forall2_length.
      destruct (lookup_lt_is_Some_2 word k) as [w Hw]; [lia|].
      destruct (Forall2_lookup_l _ _ _ _ _ Hall Hw) as (c & Hc & Hwc); simpl in Hwc.
      assert (rest p !! k = Some c) as Hrk by (rewrite Hl; by apply lookup_app_l_Some).
      destruct Hstop as [?|(w' & c' & ? & ? & ?)]; congruence.
    + destruct (drop k word) eqn:Ed.
      * apply (f_equal length) in Ed. rewrite length_drop in Ed. simpl in Ed. lia.
      * by destruct p.
Qed.

End Positions.

(** * Skipping, with line counting *)

(** Line number and start of the current line after the bytes [l] at offset
    [off]; CR LF, LF and CR each end a line. *)
Fixpoint scan_lines (l : list Z) (off ln lb : Z) : Z * Z :=
  match l with
  | [] => (ln, lb)
  | c :: l' =>
    match l' with
    | d :: l'' =>
      if (c =? 13) && (d =? 10) then scan_lines l'' (off + 2) (u32 (ln + 1)) (off + 2)
      else if is_newline c then scan_lines l' (off + 1) (u32 (ln + 1)) (off + 1)
      else scan_lines l' (off + 1) ln lb
    | [] => if is_newline c then (u32 (ln + 1), off + 1) else (ln, lb)
    end
  end.

Definition skip (cond : Z -> bool) (p : rrr_parse_pos) : rrr_parse_pos :=
  let n := span cond (rest p) in
  let '(ln, lb) := scan_lines (take n (rest p)) (pos p) (line p) (line_begin_pos p) in
  mk_pos (data p) (pos p + Z.of_nat n) (size p) ln lb.

(** [p] moved [k] bytes forward with a given line state. *)
Definition at_line (k : nat) (ln lb : Z) (p : rrr_parse_pos) : rrr_parse_pos :=
  mk_pos (data p) (pos p + Z.of_nat k) (size p) ln lb.

Lemma at_line_wf k ln lb p :
  wf p -> (k <= length (rest p))%nat -> 0 <= ln < 2 ^ 32 ->
  wf (at_line k ln lb p) /\ rest (at_line k ln lb p) = drop k (rest p).
Proof.
  intros Hp Hk Hln. pose proof (length_rest p Hp). destruct Hp as (? & ? & Hm & ?).
  split; [unfold wf, RRR_LENGTH_MAX in *; simpl; lia|].
  apply rest_moved. lia.
Qed.

Lemma take_span_head cond l z l' :
  take (span cond l) l = z :: l' -> exists l'', l = z :: l''.
Proof. destruct l as [|y l]; simpl; [done|]. case_match; simpl; intros; simplify_eq; eauto. Qed.

Section Skipping.
Context (cond : Z -> bool) (Hcond : cond 13 = cond 10).
Implicit Types p : rrr_parse_pos.

Lemma skip_stop p : span cond (rest p) = O -> skip cond p = p.
Proof. intros H. unfold skip. rewrite H. simpl. destruct p; simpl. f_equal. lia. Qed.

Definition lookahead (l : list Z) : Z := match l with d :: _ => d | [] => 0 end.

(** A round is one byte forward, or two on CR LF, with the lines counted. *)
Lemma round_cases b l p :
  wf p -> rest p = b :: l ->
  let next := lookahead l in
  (b = 13 /\ (exists l', l = 10 :: l') /\
     ignore_round b next p = at_line 2 (u32 (line p + 1)) (pos p + 2) p) \/
  ((b =? 13) && (next =? 10) = false /\
     ignore_round b next p = if is_newline b then at_line 1 (u32 (line p + 1)) (pos p + 1) p
                      else at_line 1 (line p) (line_begin_pos p) p).
Proof.
  intros Hp Hr next. pose proof (length_rest p Hp) as Hl. rewrite Hr in Hl. simpl in Hl.
  destruct Hp as (Hpos & Hsz & Hmax & Hln). unfold RRR_LENGTH_MAX in Hmax.
  assert (u32 (pos p + 1) = pos p + 1) as Hu by (apply wrap_small; lia).
  unfold ignore_round, count_line, is_newline, at_line, set_pos.
  destruct ((b =? 13) && (next =? 10)) eqn:Ecrlf.
  - left. apply andb_true_iff in Ecrlf as [->%Z.eqb_eq En%Z.eqb_eq].
    subst next. destruct l as [|d l']; simpl in En; [done|]. subst d. simpl in Hl.
    split_and!; [done|eauto|]. simpl. rewrite Hu, (wrap_small 32 (pos p + 1 + 1)) by lia.
    f_equal; lia.
  - right. split; [done|]. destruct (b =? 10), (b =? 13); simpl; by rewrite Hu.
Qed.

Lemma round_wf b l p :
  wf p -> rest p = b :: l ->
  wf (ignore_round b (lookahead l) p) /\ (length (rest (ignore_round b (lookahead l) p)) <= length l)%nat.
Proof.
  intros Hp Hr. pose proof (wrap_range 32 (line p + 1) ltac:(lia)).
  assert (0 <= line p < 2 ^ 32) by apply Hp.
  destruct (round_cases b l p Hp Hr) as [(-> & [l' ->] & ->)|[_ ->]].
  - destruct (at_line_wf 2 (u32 (line p + 1)) (pos p + 2) p) as [Hw He];
      [done|rewrite Hr; simpl; lia|done|]. split; [done|]. rewrite He, Hr, length_drop. simpl. lia.
  - destruct (is_newline b).
    + destruct (at_line_wf 1 (u32 (line p + 1)) (pos p + 1) p) as [Hw He];
        [done|rewrite Hr; simpl; lia|done|]. split; [done|]. rewrite He, Hr, length_drop. simpl. lia.
    + destruct (at_line_wf 1 (line p) (line_begin_pos p) p) as [Hw He];
        [done|rewrite Hr; simpl; lia|done|]. split; [done|]. rewrite He, Hr, length_drop. simpl. lia.
Qed.

(** Skipping is not changed by taking one round first. *)
Lemma skip_at_line k ln lb b l p :
  wf p -> rest p = b :: l -> (k <= length (b :: l))%nat -> 0 <= ln < 2 ^ 32 ->
  span cond (b :: l) = (k + span cond (drop k (b :: l)))%nat ->
  scan_lines (take (span cond (b :: l)) (b :: l)) (pos p) (line p) (line_begin_pos p)
  = scan_lines (take (span cond (drop k (b :: l))) (drop k (b :: l))) (pos p + Z.of_nat k) ln lb ->
  skip cond p = skip cond (at_line k ln lb p).
Proof.
  intros Hp Hr Hk Hln Hsp Hs. destruct (at_line_wf k ln lb p) as [_ He]; [done|by rewrite Hr|done|].
  unfold skip. rewrite He, Hr, Hs, Hsp. unfold at_line. cbn [pos line line_begin_pos data size].
  by rewrite Nat2Z.inj_add, Z.add_assoc.
Qed.

Lemma skip_round b l p :
  wf p -> rest p = b :: l -> cond b = true ->
  skip cond p = skip cond (ignore_round b (lookahead l) p).
Proof using Hcond.
  intros Hp Hr Hb. pose proof (wrap_range 32 (line p + 1) ltac:(lia)).
  assert (0 <= line p < 2 ^ 32) by apply Hp.
  destruct (round_cases b l p Hp Hr) as [(-> & [l' ->] & ->)|[Hn ->]].
  - apply (skip_at_line _ _ _ 13 (10 :: l')); simpl; rewrite ?drop_0; try done; [lia|..];
      by rewrite Hb, <- Hcond, Hb.
  - assert (scan_lines (take (span cond (b :: l)) (b :: l)) (pos p) (line p) (line_begin_pos p)
      = if is_newline b
        then scan_lines (take (span cond l) l) (pos p + 1) (u32 (line p + 1)) (pos p + 1)
        else scan_lines (take (span cond l) l) (pos p + 1) (line p) (line_begin_pos p)) as Hs.
    { simpl. rewrite Hb. simpl. destruct (take (span cond l) l) as [|z l'] eqn:Et; [done|].
      apply take_span_head in Et as [l'' ->]. simpl in Hn. by rewrite Hn. }
    destruct (is_newline b); (eapply skip_at_line; [done..| |done| |]); simpl;
      rewrite ?drop_0, ?Hb; try lia; try done; simpl in Hs; rewrite Hb in Hs; exact Hs.
Qed.

Lemma ignore_loop_spec fuel b l p :
  wf p -> rest p = b :: l -> (length l < fuel)%nat ->
  ignore_loop fuel cond b p = Ret (skip cond p).
Proof using Hcond.
  revert b l p. induction fuel as [|fuel IH]; intros b l p Hp Hr Hf; [lia|].
  cbn [ignore_loop]. destruct (cond b) eqn:Hb; cbn [andb];
    [|rewrite skip_stop; [done|]; rewrite Hr; by apply span_stop].
  pose proof (rest_cons p b l Hp Hr) as (Hlt & _ & _ & _ & Hr1 & Hw1 & Hu & _).
  rewrite (proj2 (Z.ltb_lt _ _)) by done. rewrite Hu.
  assert ((if pos p + 1 <? size p then load8 (data p) (pos p + 1) else Ret 0)
          = Ret (lookahead l)) as ->.
  { destruct l as [|d l'].
    - apply rest_nil in Hr1 as [_ E]; [|done]. simpl in E. change (Z.of_nat 1) with 1 in E.
      by rewrite E, Z.ltb_irrefl.
    - apply rest_cons in Hr1 as (Hlt' & _ & El & _); [|done]. simpl in Hlt', El.
      change (Z.of_nat 1) with 1 in *.
      by rewrite (proj2 (Z.ltb_lt _ _)). }
  rewrite bind_ret. cbv zeta. destruct (round_wf b l p Hp Hr) as [Hw Hlen].
  rewrite (skip_round b l p Hp Hr Hb).
  destruct (rest (ignore_round b (lookahead l) p)) as [|b' l2] eqn:Hr2.
  - rewrite skip_stop by (by rewrite Hr2). apply rest_nil in Hr2 as [-> _]; done.
  - pose proof (rest_cons _ b' l2 Hw Hr2) as (_ & -> & -> & _). rewrite bind_ret.
    apply (IH b' l2); [done..|]. simpl in Hlen. lia.
Qed.

Lemma ignore_spec p :
  wf p -> rrr_parse_ignore_and_increment_line p cond = Ret (skip cond p).
Proof using Hcond.
  intros Hp. unfold rrr_parse_ignore_and_increment_line.
  destruct (rest p) as [|b l] eqn:Hr.
  - rewrite skip_stop by (by rewrite Hr). apply rest_nil in Hr as [_ ->]; [|done].
    by rewrite Z.leb_refl.
  - pose proof (rest_cons p b l Hp Hr) as (Hlt & _ & -> & _).
    rewrite (proj2 (Z.leb_gt _ _)) by done. simpl. apply (ignore_loop_spec _ b l); [done..|].
    pose proof (length_rest p Hp) as Hl. rewrite Hr in Hl. simpl in Hl. lia.
Qed.

End Skipping.

Lemma scan_lines_range l off ln lb :
  0 <= ln < 2 ^ 32 -> 0 <= fst (scan_lines l off ln lb) < 2 ^ 32.
Proof.
  assert (forall n l, (length l <= n)%nat -> forall off ln lb, 0 <= ln < 2 ^ 32 ->
    0 <= fst (scan_lines l off ln lb) < 2 ^ 32) as H; [|eauto].
  clear. intros n. induction n as [|n IH]; intros [|c [|d l]] Hl off ln lb Hln;
    simpl in *; try lia; pose proof (wrap_range 32 (ln + 1) ltac:(lia)).
  - case_match; simpl; lia.
  - case_match; [apply IH; [lia|done]|]. case_match; apply (IH (d :: l)); simpl; lia.
Qed.

Lemma skip_wf cond p :
  wf p -> wf (skip cond p) /\ rest (skip cond p) = drop (span cond (rest p)) (rest p) /\
  pos (skip cond p) = pos p + Z.of_nat (span cond (rest p)) /\ data (skip cond p) = data p.
Proof.
  intros Hp. unfold skip.
  pose proof (scan_lines_range (take (span cond (rest p)) (rest p)) (pos p) (line p)
    (line_begin_pos p) ltac:(apply Hp)) as Hr.
  destruct (scan_lines _ _ _ _) as [ln lb]. simpl in Hr.
  destruct (at_line_wf (span cond (rest p)) ln lb p) as [? ?]; [done|apply span_le|done|].
  done.
Qed.

(** * Splitting strings *)

Fixpoint split_on (chr : Z) (l : list Z) : list (list Z) :=
  match l with
  | [] => [[]]
  | c :: l =>
    if c =? chr then [] :: split_on chr l
    else match split_on chr l with h :: t => (c :: h) :: t | [] => [] end
  end.

Fixpoint join (chr : Z) (ls : list (list Z)) : list Z :=
  match ls with
  | [] => []
  | [l] => l
  | l :: ls => l ++ chr :: join chr ls
  end.

Lemma split_on_cons chr l : exists h t, split_on chr l = h :: t.
Proof.
  induction l as [|c l (h & t & IH)]; simpl; eauto. rewrite IH. case_match; eauto.
Qed.

Lemma join_split chr l :
  join chr (split_on chr l) = l /\ Forall (fun e => chr ∉ e) (split_on chr l).
Proof.
  induction l as [|c l [IH1 IH2]]; simpl.
  - split; [done|]. constructor; [apply not_elem_of_nil|constructor].
  - destruct (split_on_cons chr l) as (h & t & E). rewrite E in *.
    destruct (Z.eqb_spec c chr) as [->|Hne].
    + split; [by rewrite <- IH1|]. constructor; [apply not_elem_of_nil|done].
    + apply Forall_cons_iff in IH2 as [Hh Ht]. split.
      * rewrite <- IH1. by destruct t.
      * constructor; [|done]. rewrite not_elem_of_cons. auto.
Qed.

(** [element] is what precedes [l] in the current element. *)
Definition split_from (chr : Z) (element l : list Z) : list (list Z) :=
  match split_on chr l with h :: t => (element ++ h) :: t | [] => [] end.

Lemma split_loop_spec chr elements_max l element elements :
  elements_max <= RRR_LENGTH_MAX -> Z.of_nat (length elements) <= elements_max ->
  let parts := split_from chr element l in
  let '(ret, count, res) :=
    str_split_loop chr elements_max l element (Z.of_nat (length elements)) elements in
  if Z.of_nat (length elements + length parts) <=? elements_max
  then ret = 0 /\ count = Z.of_nat (length res) /\ res = elements ++ parts
  else ret = 1.
Proof.
  intros Hmax. unfold RRR_LENGTH_MAX in Hmax.
  assert (forall n, Z.of_nat n < elements_max ->
    rrr_length_inc_err (Z.of_nat n) = (0, Z.of_nat (S n))) as Hinc.
  { intros n Hn. unfold rrr_length_inc_err. rewrite wrap_small by lia.
    rewrite (proj2 (Z.eqb_neq _ _)) by lia. f_equal. lia. }
  revert element elements. induction l as [|c l IH]; intros element elements Hle.
  - simpl. destruct (Z.eqb_spec (Z.of_nat (length elements)) elements_max).
    { unfold split_from. simpl. rewrite (proj2 (Z.leb_gt _ _)) by lia. done. }
    rewrite Hinc by lia. unfold split_from. simpl.
    rewrite (proj2 (Z.leb_le _ _)) by lia. rewrite length_app, app_nil_r. simpl.
    split_and!; [done|lia|done].
  - simpl. destruct (Z.eqb_spec (Z.of_nat (length elements)) elements_max).
    { assert (length (split_from chr element (c :: l)) <> O) as Hp.
      { unfold split_from. destruct (split_on_cons chr (c :: l)) as (h & t & ->). done. }
      rewrite (proj2 (Z.leb_gt _ _)) by lia. done. }
    unfold split_from. simpl. destruct (split_on_cons chr l) as (h & t & E). rewrite E.
    destruct (Z.eqb_spec c chr) as [->|Hne].
    + rewrite Hinc by lia. simpl. specialize (IH [] (elements ++ [element])).
      rewrite length_app in IH. simpl in IH. rewrite Nat.add_1_r in IH.
      specialize (IH ltac:(lia)). unfold split_from in IH. rewrite E in IH.
      destruct (str_split_loop _ _ _ _ _ _) as [[ret cnt] res]. simpl in *.
      replace (length elements + S (S (length t)))%nat
        with (S (length elements + S (length t)))%nat by lia.
      revert IH. case_match; [|done]. intros (-> & -> & ->).
      rewrite <- app_assoc. simpl. by rewrite app_nil_r.
    + specialize (IH (element ++ [c]) elements Hle). unfold split_from in IH. rewrite E in IH.
      simpl in *. by rewrite <- app_assoc in IH.
Qed.

(** [rrr_parse_str_split] hands its callback the elements between the
    separators, exactly and in order, when they are at most [elements_max],
    and otherwise fails without calling it. *)
Lemma rrr_parse_str_split_correct {St} str chr elements_max
    (callback : list (list Z) -> Z -> St -> Z * St) arg :
  str <> [] -> 0 <= elements_max <= RRR_LENGTH_MAX ->
  exists parts, join chr parts = str /\ Forall (fun e => chr ∉ e) parts /\
    rrr_parse_str_split true str chr elements_max callback arg
    = if Z.of_nat (length parts) <=? elements_max
      then callback parts (Z.of_nat (length parts)) arg else (1, arg).
Proof.
  intros Hne Hmax. exists (split_on chr str). destruct (join_split chr str) as [H1 H2].
  split_and!; [done..|]. unfold rrr_parse_str_split. destruct str as [|c l]; [done|].
  cbn [negb]. remember (c :: l) as str eqn:Estr. clear Estr c l.
  pose proof (split_loop_spec chr elements_max str [] [] ltac:(lia) ltac:(simpl; lia)) as H.
  simpl length in H. change (Z.of_nat 0) with 0 in H.
  assert (split_from chr [] str = split_on chr str) as E.
  { unfold split_from. by destruct (split_on_cons chr str) as (h & t & ->). }
  rewrite E in H. destruct (str_split_loop _ _ _ _ _ _) as [[ret cnt] res].
  simpl in H. revert H. case_match; [intros (-> & -> & ->)|intros ->]; done.
Qed.

(** * In-place string edits *)

Local Abbreviation keep := (List.filter (fun c => negb (is_newline c))).

Lemma cstr_app str tail : 0 ∉ str -> cstr (str ++ 0 :: tail) = str.
Proof.
  induction str as [|b str IH]; simpl; [done|]. rewrite not_elem_of_cons. intros [? ?].
  rewrite (proj2 (Z.eqb_neq _ _)) by done. by rewrite IH.
Qed.

Lemma cstr_take_zero (buf : list Z) i :
  0 ∉ take i buf -> buf !! i = Some 0 -> cstr buf = take i buf.
Proof.
  intros Hn Hi. rewrite <- (take_drop_middle buf i 0 Hi) at 1. by apply cstr_app.
Qed.

Lemma nth_lookup_Some (l : list Z) i x : l !! i = Some x -> nth i l 0 = x.
Proof. intros H. rewrite nth_lookup, H. done. Qed.

Section Strip.
Context (str tail : list Z) (Hz : 0 ∉ str).
Local Abbreviation L := (length str).
Local Abbreviation orig := (str ++ 0 :: tail).

Definition agrees (i : nat) (buf : list Z) : Prop :=
  length buf = length orig /\ forall j, (i <= j)%nat -> buf !! j = orig !! j.

Lemma agrees_nth i buf j :
  agrees i buf -> (i <= j < L)%nat -> exists c, str !! j = Some c /\ nth j buf 0 = c.
Proof.
  intros [_ H] Hj. destruct (lookup_lt_is_Some_2 str j) as [c Hc]; [lia|].
  exists c. split; [done|]. apply nth_lookup_Some. rewrite H by lia. by apply lookup_app_l_Some.
Qed.

Lemma strip_skip_spec fuel buf i skip :
  agrees i buf -> (i + skip <= L)%nat -> (L - (i + skip) <= fuel)%nat ->
  let skip' := strip_skip fuel buf i skip L in
  (i + skip' <= L)%nat /\ keep (take (i + skip') str) = keep (take (i + skip) str) /\
  ((i + skip')%nat = L \/ exists c, str !! (i + skip')%nat = Some c /\ nth (i + skip') buf 0 = c /\
     is_newline c = false).
Proof.
  intros Ha. revert skip. induction fuel as [|fuel IH]; intros skip Hs Hf; simpl.
  - split_and!; [lia|done|left; lia].
  - destruct (Nat.ltb_spec (skip + i) L); simpl; [|split_and!; [lia|done|left; lia]].
    destruct (agrees_nth i buf (i + skip) Ha ltac:(lia)) as (c & Hc & Hn). rewrite Hn.
    destruct (is_newline c) eqn:Ec; [|split_and!; [lia|done|eauto]].
    destruct (IH (S skip) ltac:(lia) ltac:(lia)) as (H1 & H2 & H3). split_and!; [done| |done].
    rewrite H2. replace (i + S skip)%nat with (S (i + skip)) by lia.
    rewrite (take_S_r _ _ c), List.filter_app by done. simpl. rewrite Ec. simpl. apply app_nil_r.
Qed.

Lemma keep_no_zero k : 0 ∉ keep (take k str).
Proof using Hz.
  intros H%list_elem_of_In%List.filter_In. destruct H as [H _].
  apply Hz. apply list_elem_of_In in H. by apply elem_of_take in H as (j & ? & _);
    apply list_elem_of_lookup_2 in H.
Qed.

Lemma strip_loop_spec n buf i skip :
  agrees i buf -> (i + skip <= L)%nat -> (n + i = L)%nat ->
  take i buf = keep (take (i + skip) str) -> cstr (strip_loop n buf i skip L) = keep str.
Proof using Hz.
  revert buf i skip. induction n as [|n IH]; intros buf i skip Ha Hs Hn Ht; simpl.
  - assert (skip = O /\ i = L) as [-> ->] by lia. rewrite Nat.add_0_r, firstn_all in Ht.
    rewrite (cstr_take_zero buf L), Ht; [done|rewrite Ht, <- (firstn_all str); apply keep_no_zero|].
    destruct Ha as [_ Ha]. rewrite Ha by lia. by apply list_lookup_middle.
  - destruct (strip_skip_spec L buf i skip Ha Hs ltac:(lia)) as (H1 & H2 & H3).
    set (skip' := strip_skip L buf i skip L) in *. destruct Ha as [Hl Ha].
    rewrite length_app in Hl. simpl in Hl.
    destruct (Nat.leb_spec L (skip' + i)).
    + rewrite (cstr_take_zero _ i).
      * rewrite take_insert_ge by lia. rewrite Ht, <- H2.
        replace (i + skip')%nat with L by lia. by rewrite firstn_all.
      * rewrite take_insert_ge by lia. rewrite Ht. apply keep_no_zero.
      * apply list_lookup_insert_eq. lia.
    + destruct H3 as [?|(c & Hc & -> & Hk)]; [lia|]. apply IH; [|lia|lia|].
      * split; [rewrite length_insert, length_app; simpl; lia|]. intros j Hj.
        rewrite list_lookup_insert_ne by lia. apply Ha. lia.
      * rewrite (take_S_r _ _ c) by (apply list_lookup_insert_eq; lia).
        rewrite take_insert_ge by lia. rewrite Ht, <- H2.
        replace (S i + skip')%nat with (S (i + skip')) by lia.
        rewrite (take_S_r _ _ c), List.filter_app by done. simpl. by rewrite Hk.
Qed.

End Strip.

(** [rrr_parse_str_strip_newlines] leaves in the buffer exactly the string
    without its CR and LF characters. *)
Lemma rrr_parse_str_strip_newlines_correct str tail :
  0 ∉ str ->
  cstr (rrr_parse_str_strip_newlines (str ++ 0 :: tail))
  = List.filter (fun c => negb (is_newline c)) str.
Proof.
  intros Hz. unfold rrr_parse_str_strip_newlines. rewrite cstr_app by done.
  apply (strip_loop_spec str tail Hz); [split; done|simpl; lia|simpl; lia|done].
Qed.

(** * The scanner's contract *)

(** Skipping spaces never reads outside the data, consumes exactly the
    longest run of spaces, tabs, CR and LF, and keeps the line number and line
    start in step with the line ends (CR LF, LF or CR) it passed. *)
Lemma rrr_parse_ignore_spaces_correct p :
  wf p ->
  exists p' l, rrr_parse_ignore_spaces_and_increment_line p = Ret p' /\ wf p' /\
    rest p = l ++ rest p' /\ forallb rrr_parse_is_spaces l = true /\
    (forall b l', rest p' = b :: l' -> rrr_parse_is_spaces b = false) /\
    pos p' = pos p + Z.of_nat (length l) /\
    (line p', line_begin_pos p') = scan_lines l (pos p) (line p) (line_begin_pos p).
Proof.
  intros Hp. set (n := span rrr_parse_is_spaces (rest p)).
  exists (skip rrr_parse_is_spaces p), (take n (rest p)).
  destruct (skip_wf rrr_parse_is_spaces p Hp) as (Hw & Hr & Hpos & _).
  fold n in Hr, Hpos. rewrite Hr, take_drop.
  assert (n <= length (rest p))%nat by apply span_le.
  split_and!; [by apply ignore_spec|done|done|..].
  - subst n. generalize (rest p). intros l. induction l as [|b l IH]; simpl; [done|].
    destruct (rrr_parse_is_spaces b) eqn:E; simpl; [|done]. by rewrite E.
  - subst n. intros b l'. generalize (rest p). intros l. induction l as [|x l IH]; simpl; [done|].
    destruct (rrr_parse_is_spaces x) eqn:E; simpl; [done|]. intros; simplify_eq. done.
  - rewrite length_take_le by done. done.
  - unfold skip. fold n. by destruct (scan_lines _ _ _ _).
Qed.

(** [rrr_parse_match_word] matches exactly when the word is a prefix of
    what is left, then consumes it, and otherwise leaves the position alone. *)
Lemma rrr_parse_match_word_correct p word :
  wf p ->
  rrr_parse_match_word p word
  = if decide (word `prefix_of` rest p) then Ret (1, forward (length word) p) else Ret (0, p).
Proof.
  intros Hp. unfold rrr_parse_match_word.
  assert (forall l, Forall2 (fun w c => (w =? c) = true) word l <-> word = l) as Heq.
  { intros l. split.
    - induction 1 as [|w c ? ? ?%Z.eqb_eq]; congruence.
    - intros <-. induction word; constructor; auto using Z.eqb_refl. }
  destruct (match_word_with_spec (fun w c => w =? c) p word Hp) as
    [(l1 & l2 & Hr & Hf & ->)|[Hn ->]].
  - apply Heq in Hf as <-. rewrite decide_True; [done|]. by exists l2.
  - rewrite decide_False; [done|]. intros [l2 Hr]. apply (Hn word l2 Hr). by apply Heq.
Qed.

(** [rrr_parse_comment] reads one byte past the data when the last line is a
    comment without a line end. *)
Lemma rrr_parse_comment_overread :
  rrr_parse_comment (rrr_parse_pos_init [35; 97] 2) = Oob.
Proof. vm_compute. reflexivity. Qed.

(** The test of control characters of [rrr_parse_non_control] is made on a
    signed [char]: it stops at the first byte of any non-ASCII character. *)
Lemma rrr_parse_non_control_stops_at_utf8 :
  exists p s e, rrr_parse_non_control (rrr_parse_pos_init [97; 0xC3; 0xA6; 98] 4) = Ret (p, s, e) /\
    pos p = 1 /\
    exists q, rrr_parse_ignore_control_and_increment_line p = Ret q /\ pos q = 1.
Proof. do 3 eexists. split; [vm_compute; reflexivity|]. split; [done|]. eexists. split; vm_compute; reflexivity. Qed.

End Parse.
