(* ===== verification/Hdlc.v ===== *)
(** HDLC byte stuffing (src/src/lib/hdlc/hdlc.c, hdlc.h): the frame exporter
    and the frame parser, a state machine over a scanner position. *)
From S2P Require Import Prelude Types Parse.

Module Hdlc.
Import Types Parse.

Definition RRR_HDLC_OK : Z := RRR_READ_OK.
Definition RRR_HDLC_INCOMPLETE : Z := RRR_READ_INCOMPLETE.
Definition RRR_HDLC_SOFT_ERROR : Z := RRR_READ_SOFT_ERROR.
Definition RRR_HDLC_MAX : Z := 4096.

Definition RRR_HDLC_BYTE_FRAME : Z := 0x7e.
Definition RRR_HDLC_BYTE_ESCAPE : Z := 0x7d.
Definition RRR_HDLC_BYTE_XOR : Z := 0x20.

Definition MUST_ESCAPE (c : Z) : bool :=
  (c =? RRR_HDLC_BYTE_FRAME) || (c =? RRR_HDLC_BYTE_ESCAPE).

Inductive rrr_hdlc_parse_flag :=
| RRR_HDLC_PARSE_STATE_IDLE
| RRR_HDLC_PARSE_STATE_FRAME
| RRR_HDLC_PARSE_STATE_ESCAPE
| RRR_HDLC_PARSE_STATE_DONE.

(** [result] is the array of [RRR_HDLC_MAX] bytes. *)
Record rrr_hdlc_parse_state := mk_hdlc {
  parse_pos : rrr_parse_pos;
  result_wpos : Z;
  parse_flag : rrr_hdlc_parse_flag;
  result : list Z
}.

Definition set_parse_pos p st := mk_hdlc p (result_wpos st) (parse_flag st) (result st).
Definition set_flag f st := mk_hdlc (parse_pos st) (result_wpos st) f (result st).

(** The array itself is not cleared. *)
Definition rrr_hdlc_parse_state_init (array : list Z) (pos : rrr_parse_pos)
  : rrr_hdlc_parse_state :=
  mk_hdlc pos 0 RRR_HDLC_PARSE_STATE_IDLE array.

Definition rrr_hdlc_parse_frame_done_verify_size (st : rrr_hdlc_parse_state) : Z :=
  if result_wpos st =? 0 then RRR_HDLC_SOFT_ERROR else RRR_HDLC_OK.

(** [PUSH(c)]: [None] when the array is full, before [c] is evaluated. *)
Definition PUSH (st : rrr_hdlc_parse_state) : bool := result_wpos st =? RRR_HDLC_MAX - 1.
Definition push_byte (c : Z) (st : rrr_hdlc_parse_state) : rrr_hdlc_parse_state :=
  mk_hdlc (parse_pos st) (u32 (result_wpos st + 1)) (parse_flag st)
    (<[Z.to_nat (result_wpos st) := c]> (result st)).

(** Each round consumes a byte, so one round per byte left is enough. *)
Fixpoint parse_frame_loop (fuel : nat) (st : rrr_hdlc_parse_state)
  : outcome (Z * rrr_hdlc_parse_state) :=
  match fuel with
  | O => Ret (RRR_HDLC_INCOMPLETE, st)
  | S fuel =>
    if RRR_PARSE_CHECK_EOF (parse_pos st) then Ret (RRR_HDLC_INCOMPLETE, st)
    else
      match parse_flag st with
      | RRR_HDLC_PARSE_STATE_IDLE =>
        '(m, p) ← rrr_parse_quick_match_or_skip (parse_pos st) RRR_HDLC_BYTE_FRAME;
        let st := set_parse_pos p st in
        parse_frame_loop fuel (if m =? 0 then set_flag RRR_HDLC_PARSE_STATE_FRAME st else st)
      | RRR_HDLC_PARSE_STATE_FRAME =>
        '(m, p) ← rrr_parse_quick_match (parse_pos st) RRR_HDLC_BYTE_ESCAPE;
        let st := set_parse_pos p st in
        if m =? 0 then parse_frame_loop fuel (set_flag RRR_HDLC_PARSE_STATE_ESCAPE st)
        else
          '(m, p) ← rrr_parse_quick_match (parse_pos st) RRR_HDLC_BYTE_FRAME;
          let st := set_parse_pos p st in
          if m =? 0 then
            if result_wpos st =? 0 then parse_frame_loop fuel st
            else
              let st := set_flag RRR_HDLC_PARSE_STATE_DONE st in
              Ret (rrr_hdlc_parse_frame_done_verify_size st, st)
          else if PUSH st then Ret (RRR_HDLC_SOFT_ERROR, st)
          else
            '(c, p) ← rrr_parse_quick_byte (parse_pos st);
            parse_frame_loop fuel (push_byte c (set_parse_pos p st))
      | RRR_HDLC_PARSE_STATE_ESCAPE =>
        if PUSH st then Ret (RRR_HDLC_SOFT_ERROR, st)
        else
          '(c, p) ← rrr_parse_quick_byte (parse_pos st);
          let st := push_byte (c ^^^ RRR_HDLC_BYTE_XOR) (set_parse_pos p st) in
          parse_frame_loop fuel (set_flag RRR_HDLC_PARSE_STATE_FRAME st)
      | RRR_HDLC_PARSE_STATE_DONE =>
        Ret (rrr_hdlc_parse_frame_done_verify_size st, st)
      end
  end.

Definition rrr_hdlc_parse_frame (st : rrr_hdlc_parse_state)
  : outcome (Z * rrr_hdlc_parse_state) :=
  parse_frame_loop (Z.to_nat (size (parse_pos st) - pos (parse_pos st))) st.

(** Status and [*result]; the sum is a 64-bit integer. *)
Definition rrr_hdlc_get_export_length (data : list Z) : outcome (Z * Z) :=
  let result_tmp := fold_left (fun n c => u64 (n + (if MUST_ESCAPE c then 2 else 1))) data 0 in
  let result_tmp := u64 (result_tmp + 2) in
  if RRR_HDLC_MAX <? result_tmp then Ret (1, 0)
  else r ← rrr_length_from_biglength_bug_const result_tmp; Ret (0, r).

(** The bytes written to [target], whose number is [*written_bytes]. *)
Definition rrr_hdlc_export_frame (data : list Z) : list Z :=
  [RRR_HDLC_BYTE_FRAME] ++
  flat_map (fun c => if MUST_ESCAPE c then [RRR_HDLC_BYTE_ESCAPE; c ^^^ RRR_HDLC_BYTE_XOR]
                     else [c]) data ++
  [RRR_HDLC_BYTE_FRAME].

(** * Export length *)

Definition stuff (c : Z) : list Z :=
  if MUST_ESCAPE c then [RRR_HDLC_BYTE_ESCAPE; c ^^^ RRR_HDLC_BYTE_XOR] else [c].

Lemma export_length_fold data n :
  0 <= n -> n + 2 * Z.of_nat (length data) < 2 ^ 63 ->
  fold_left (fun n c => u64 (n + (if MUST_ESCAPE c then 2 else 1))) data n
  = n + Z.of_nat (length (flat_map stuff data)).
Proof.
  revert n. induction data as [|c data IH]; intros n Hn Hl; simpl in *; [lia|].
  rewrite wrap_small by (case_match; lia). rewrite IH by (case_match; lia).
  rewrite length_app. unfold stuff. case_match; simpl; lia.
Qed.

(** * Parsing an exported frame *)

(** The parser state with [bs] received so far. *)
Definition holds (st : rrr_hdlc_parse_state) (bs : list Z) : Prop :=
  wf (parse_pos st) /\ result_wpos st = Z.of_nat (length bs) /\
  length (result st) = Z.to_nat RRR_HDLC_MAX /\ take (length bs) (result st) = bs.

Lemma holds_push st bs c :
  holds st bs -> (length bs < Z.to_nat RRR_HDLC_MAX - 1)%nat ->
  PUSH st = false /\ holds (push_byte c st) (bs ++ [c]).
Proof.
  intros (Hw & Hp & Hl & Ht) Hb. unfold RRR_HDLC_MAX in *. split.
  - unfold PUSH, RRR_HDLC_MAX. rewrite Hp. apply Z.eqb_neq. lia.
  - unfold holds, push_byte, RRR_HDLC_MAX. simpl. rewrite Hp, Nat2Z.id, length_app, length_insert.
    split_and!; [done| |done|].
    + rewrite wrap_small by lia. simpl. lia.
    + simpl. rewrite Nat.add_1_r.
      rewrite (take_S_r _ _ c) by (apply list_lookup_insert_eq; lia).
      rewrite take_insert_ge by lia. by rewrite Ht.
Qed.

Lemma holds_set_parse_pos st bs p : holds st bs -> wf p -> holds (set_parse_pos p st) bs.
Proof. intros (? & ? & ? & ?) ?. done. Qed.

Lemma holds_set_flag st bs f : holds st bs -> holds (set_flag f st) bs.
Proof. done. Qed.

Lemma quick_match_or_skip_spec p b l c :
  wf p -> rest p = b :: l ->
  rrr_parse_quick_match_or_skip p c = Ret (if b =? c then 0 else 1, forward 1 p).
Proof.
  intros Hp Hr. apply rest_cons in Hr as (_ & _ & E & E' & _); [|done].
  unfold rrr_parse_quick_match_or_skip. by rewrite E, E'.
Qed.

Lemma quick_match_spec p b l c :
  wf p -> rest p = b :: l ->
  rrr_parse_quick_match p c = Ret (if b =? c then (0, forward 1 p) else (1, p)).
Proof.
  intros Hp Hr. apply rest_cons in Hr as (_ & _ & E & E' & _); [|done].
  unfold rrr_parse_quick_match. rewrite E, bind_ret, E'. by case_match.
Qed.

Lemma quick_byte_spec p b l :
  wf p -> rest p = b :: l -> rrr_parse_quick_byte p = Ret (b, forward 1 p).
Proof.
  intros Hp Hr. apply rest_cons in Hr as (_ & _ & E & E' & _); [|done].
  unfold rrr_parse_quick_byte. by rewrite E, E'.
Qed.

Section Rounds.
Context (st : rrr_hdlc_parse_state) (bs : list Z) (b : Z) (l : list Z) (fuel : nat).
Hypothesis Hh : holds st bs.
Hypothesis Hr : rest (parse_pos st) = b :: l.
Local Abbreviation next := (set_parse_pos (forward 1 (parse_pos st)) st).

Lemma next_holds : holds next bs /\ rest (parse_pos next) = l.
Proof using Hh Hr.
  destruct (rest_cons _ _ _ (proj1 Hh) Hr) as (_ & _ & _ & _ & ? & ? & _).
  split; [by apply holds_set_parse_pos|done].
Qed.

Lemma round_idle :
  parse_flag st = RRR_HDLC_PARSE_STATE_IDLE ->
  parse_frame_loop (S fuel) st
  = parse_frame_loop fuel
      (if b =? RRR_HDLC_BYTE_FRAME then set_flag RRR_HDLC_PARSE_STATE_FRAME next else next).
Proof using Hh Hr.
  intros Hf. cbn [parse_frame_loop].
  destruct (rest_cons _ _ _ (proj1 Hh) Hr) as (_ & -> & _). rewrite Hf.
  rewrite (quick_match_or_skip_spec _ b l) by (done || apply Hh). rewrite bind_ret.
  by destruct (b =? RRR_HDLC_BYTE_FRAME).
Qed.

Lemma round_frame :
  parse_flag st = RRR_HDLC_PARSE_STATE_FRAME ->
  parse_frame_loop (S fuel) st
  = if b =? RRR_HDLC_BYTE_ESCAPE
    then parse_frame_loop fuel (set_flag RRR_HDLC_PARSE_STATE_ESCAPE next)
    else if b =? RRR_HDLC_BYTE_FRAME then
      if result_wpos st =? 0 then parse_frame_loop fuel next
      else Ret (RRR_HDLC_OK, set_flag RRR_HDLC_PARSE_STATE_DONE next)
    else if PUSH st then Ret (RRR_HDLC_SOFT_ERROR, st)
    else parse_frame_loop fuel (push_byte b next).
Proof using Hh Hr.
  intros Hf. cbn [parse_frame_loop]. assert (wf (parse_pos st)) as Hw by apply Hh.
  assert (set_parse_pos (parse_pos st) st = st) as Hid by (by destruct st).
  destruct (rest_cons _ _ _ Hw Hr) as (_ & -> & _). rewrite Hf.
  rewrite (quick_match_spec _ b l), bind_ret by done.
  destruct (b =? RRR_HDLC_BYTE_ESCAPE); [done|]. rewrite Hid. cbn [Z.eqb].
  rewrite (quick_match_spec _ b l), bind_ret by done.
  destruct (b =? RRR_HDLC_BYTE_FRAME); cbn [Z.eqb].
  - unfold rrr_hdlc_parse_frame_done_verify_size. cbn [result_wpos set_parse_pos set_flag].
    by destruct (result_wpos st =? 0).
  - rewrite Hid. destruct (PUSH st); [done|]. by rewrite (quick_byte_spec _ b l), bind_ret.
Qed.

Lemma round_escape :
  parse_flag st = RRR_HDLC_PARSE_STATE_ESCAPE ->
  parse_frame_loop (S fuel) st
  = if PUSH st then Ret (RRR_HDLC_SOFT_ERROR, st)
    else parse_frame_loop fuel
           (set_flag RRR_HDLC_PARSE_STATE_FRAME (push_byte (b ^^^ RRR_HDLC_BYTE_XOR) next)).
Proof using Hh Hr.
  intros Hf. cbn [parse_frame_loop]. assert (wf (parse_pos st)) as Hw by apply Hh.
  destruct (rest_cons _ _ _ Hw Hr) as (_ & -> & _). rewrite Hf.
  destruct (PUSH st); [done|]. by rewrite (quick_byte_spec _ b l), bind_ret.
Qed.

End Rounds.

Lemma stuff_cases c :
  (MUST_ESCAPE c = true /\ stuff c = [RRR_HDLC_BYTE_ESCAPE; c ^^^ RRR_HDLC_BYTE_XOR]) \/
  (MUST_ESCAPE c = false /\ stuff c = [c]).
Proof. unfold stuff. destruct (MUST_ESCAPE c); auto. Qed.

Lemma parse_body data bs st fuel tail :
  holds st bs -> parse_flag st = RRR_HDLC_PARSE_STATE_FRAME ->
  rest (parse_pos st) = flat_map stuff data ++ RRR_HDLC_BYTE_FRAME :: tail ->
  (length bs + length data < Z.to_nat RRR_HDLC_MAX)%nat -> bs ++ data <> [] ->
  (length (rest (parse_pos st)) <= fuel)%nat ->
  exists st', parse_frame_loop fuel st = Ret (RRR_HDLC_OK, st') /\ holds st' (bs ++ data) /\
    rest (parse_pos st') = tail.
Proof.
  revert bs st fuel. induction data as [|c data IH]; intros bs st fuel Hh Hf Hr Hl Hne Hfuel;
    simpl in Hr; rewrite Hr in Hfuel; simpl in Hfuel, Hl.
  - destruct fuel as [|fuel]; [simpl in Hfuel; lia|]. rewrite app_nil_r in *.
    destruct (next_holds st bs _ _ Hh Hr) as [Hn Hnr].
    rewrite (round_frame st bs _ _ fuel Hh Hr Hf). simpl.
    destruct Hh as (? & Hw & ?). rewrite Hw. destruct bs; [done|]. simpl. eauto.
  - destruct (next_holds st bs (hd 0 (stuff c)) (tl (stuff c) ++ flat_map stuff data ++
      RRR_HDLC_BYTE_FRAME :: tail) Hh) as [Hn Hnr];
      [rewrite Hr, <- app_assoc; unfold stuff; by case_match|].
    assert ((bs ++ [c]) ++ data <> []) by (by destruct bs).
    rewrite !length_app in Hfuel.
    destruct (stuff_cases c) as [[Ec Es]|[Ec Es]]; rewrite Es in *; simpl in Hr, Hnr, Hn, Hfuel.
    + destruct fuel as [|[|fuel]]; [simpl in Hfuel; lia..|].
      rewrite (round_frame st bs _ _ _ Hh Hr Hf). simpl (_ =? _).
      set (st1 := set_flag RRR_HDLC_PARSE_STATE_ESCAPE _).
      assert (holds st1 bs) as Hh1 by done.
      assert (rest (parse_pos st1) = c ^^^ 32 :: flat_map stuff data ++ 126 :: tail) as Hr1 by done.
      destruct (next_holds st1 bs _ _ Hh1 Hr1) as [Hn1 Hnr1].
      destruct (holds_push _ bs c Hn1) as [_ Hh2]; [lia|].
      rewrite (round_escape st1 bs _ _ fuel Hh1 Hr1 eq_refl).
      destruct (holds_push st1 bs c Hh1) as [-> _]; [lia|].
      rewrite Z.lxor_assoc, Z.lxor_nilpotent, Z.lxor_0_r.
      replace (bs ++ c :: data) with ((bs ++ [c]) ++ data) by (by rewrite <- app_assoc).
      apply IH; [done|done|done|rewrite length_app; simpl; lia|done|].
      cbn [parse_pos set_flag push_byte]. rewrite Hnr1, length_app. simpl in *. lia.
    + destruct fuel as [|fuel]; [simpl in Hfuel; lia|].
      rewrite (round_frame st bs _ _ _ Hh Hr Hf). unfold MUST_ESCAPE in Ec.
      apply orb_false_iff in Ec as [-> ->].
      destruct (holds_push st bs c Hh) as [-> _]; [lia|].
      destruct (holds_push _ bs c Hn) as [_ Hh2]; [lia|].
      replace (bs ++ c :: data) with ((bs ++ [c]) ++ data) by (by rewrite <- app_assoc).
      apply IH; [done|done|done|rewrite length_app; simpl; lia|done|].
      cbn [parse_pos push_byte set_parse_pos]. rewrite Hnr, length_app. simpl in *. lia.
Qed.

Lemma parse_idle g st fuel l :
  holds st [] -> parse_flag st = RRR_HDLC_PARSE_STATE_IDLE ->
  RRR_HDLC_BYTE_FRAME ∉ g -> rest (parse_pos st) = g ++ RRR_HDLC_BYTE_FRAME :: l ->
  (length (rest (parse_pos st)) <= fuel)%nat ->
  exists st' fuel', parse_frame_loop fuel st = parse_frame_loop fuel' st' /\ holds st' [] /\
    parse_flag st' = RRR_HDLC_PARSE_STATE_FRAME /\ rest (parse_pos st') = l /\
    (length l <= fuel')%nat.
Proof.
  revert st fuel. induction g as [|b g IH]; intros st fuel Hh Hf Hg Hr Hfuel;
    rewrite Hr in Hfuel; simpl in Hr, Hfuel; (destruct fuel as [|fuel]; [simpl in Hfuel; lia|]);
    destruct (next_holds st [] _ _ Hh Hr) as [Hn Hnr];
    rewrite (round_idle st [] _ _ fuel Hh Hr Hf).
  - eexists _, fuel. split; [done|]. split_and!; [done..|]. lia.
  - apply not_elem_of_cons in Hg as [Hb Hg]. rewrite (proj2 (Z.eqb_neq _ _)) by done.
    apply IH; [done..|]. rewrite Hnr. lia.
Qed.

(** C37. Round trip of data of 1 to 4095 bytes: the parser, started idle on any
    noise that has no frame byte, reads the exported frame back as exactly the
    exported data and stops right after it, whatever follows, as long as noise,
    frame and what follows are less than 2^32 bytes.  (The parser passes over an
    empty frame and refuses one of 4096 bytes of data or more.) *)
Theorem rrr_hdlc_roundtrip array noise data tail :
  length array = Z.to_nat RRR_HDLC_MAX -> RRR_HDLC_BYTE_FRAME ∉ noise ->
  data <> [] -> (length data < Z.to_nat RRR_HDLC_MAX)%nat ->
  let buf := noise ++ rrr_hdlc_export_frame data ++ tail in
  Z.of_nat (length buf) <= RRR_LENGTH_MAX ->
  exists st, rrr_hdlc_parse_frame
      (rrr_hdlc_parse_state_init array (rrr_parse_pos_init buf (Z.of_nat (length buf))))
    = Ret (RRR_HDLC_OK, st) /\
    take (Z.to_nat (result_wpos st)) (result st) = data /\
    result_wpos st = Z.of_nat (length data) /\ rest (parse_pos st) = tail.
Proof.
  intros Ha Hg Hd Hl buf Hbuf. unfold rrr_hdlc_parse_frame.
  set (st0 := rrr_hdlc_parse_state_init _ _).
  assert (holds st0 []) as Hh.
  { unfold holds, wf. simpl. split_and!; try lia; done. }
  assert (rest (parse_pos st0) = buf) as Hr0 by apply rest_init.
  assert (buf = noise ++ RRR_HDLC_BYTE_FRAME ::
    (flat_map stuff data ++ RRR_HDLC_BYTE_FRAME :: tail)) as Eb.
  { unfold buf, rrr_hdlc_export_frame. simpl. by rewrite <- !app_assoc. }
  destruct (parse_idle noise st0 (Z.to_nat (size (parse_pos st0) - pos (parse_pos st0)))
    (flat_map stuff data ++ RRR_HDLC_BYTE_FRAME :: tail) Hh eq_refl Hg) as
    (st1 & fuel & -> & Hh1 & Hf1 & Hr1 & Hfuel); [by rewrite Hr0| |].
  { rewrite Hr0. unfold st0. simpl. lia. }
  destruct (parse_body data [] st1 fuel tail Hh1 Hf1 Hr1) as (st' & E & Hh' & Hr');
    [simpl; lia|done|by rewrite Hr1|].
  exists st'. destruct Hh' as (_ & Hw & _ & Ht). simpl in Hw, Ht.
  split_and!; [done| |done|done]. by rewrite Hw, Nat2Z.id.
Qed.

Lemma rrr_hdlc_roundtrip_witness :
  exists st, rrr_hdlc_parse_frame
      (rrr_hdlc_parse_state_init (repeat 0 4096)
        (rrr_parse_pos_init ([1; 2] ++ rrr_hdlc_export_frame [0x7e; 5; 0x7d] ++ [9]) 10))
    = Ret (RRR_HDLC_OK, st) /\
    take (Z.to_nat (result_wpos st)) (result st) = [0x7e; 5; 0x7d] /\ rest (parse_pos st) = [9].
Proof.
  destruct (rrr_hdlc_roundtrip (repeat 0 4096) [1; 2] [0x7e; 5; 0x7d] [9])
    as (st & H1 & H2 & _ & H3).
  - vm_compute. reflexivity.
  - rewrite !not_elem_of_cons. repeat split; try discriminate. apply not_elem_of_nil.
  - discriminate.
  - vm_compute. lia.
  - vm_compute. discriminate.
  - exists st. split; [exact H1|]. split; [exact H2|exact H3].
Defined.

(** [rrr_hdlc_get_export_length] announces exactly the number of bytes
    [rrr_hdlc_export_frame] writes, or fails when that exceeds the maximum:
    the caller's buffer cannot be overrun. *)
Lemma rrr_hdlc_export_length_exact data :
  Z.of_nat (length data) <= RRR_LENGTH_MAX ->
  let n := Z.of_nat (length (rrr_hdlc_export_frame data)) in
  rrr_hdlc_get_export_length data = Ret (if n <=? RRR_HDLC_MAX then (0, n) else (1, 0)).
Proof.
  intros Hl n. unfold RRR_LENGTH_MAX in Hl. unfold rrr_hdlc_get_export_length.
  assert (n = Z.of_nat (length (flat_map stuff data)) + 2) as En.
  { unfold n, rrr_hdlc_export_frame. fold stuff. simpl. rewrite length_app. simpl.
    change (flat_map (fun c => if MUST_ESCAPE c then _ else _) data) with (flat_map stuff data).
    lia. }
  assert (forall d, (length (flat_map stuff d) <= 2 * length d)%nat) as Hb.
  { intros d. induction d as [|c d IH]; simpl; [lia|]. rewrite length_app.
    unfold stuff at 1. case_match; simpl; lia. }
  specialize (Hb data). rewrite export_length_fold by lia.
  replace (0 + _ + 2) with n by lia. rewrite wrap_small by lia. unfold RRR_HDLC_MAX.
  destruct (Z.ltb_spec 4096 n), (Z.leb_spec n 4096); try lia; [done|].
  rewrite length_from_biglength_spec by lia. unfold exact_or_bug, RRR_LENGTH_MAX.
  rewrite (proj2 (Z.leb_le 0 n)), (proj2 (Z.leb_le n _)) by lia. done.
Qed.

Lemma push_room st bs :
  holds st bs -> (length bs < Z.to_nat RRR_HDLC_MAX)%nat -> PUSH st = false ->
  (length bs < Z.to_nat RRR_HDLC_MAX - 1)%nat.
Proof.
  intros (_ & Hw & _) Hl. unfold PUSH. rewrite Hw. intros ?%Z.eqb_neq.
  unfold RRR_HDLC_MAX in *. lia.
Qed.

Lemma parse_loop_safe fuel st bs :
  holds st bs -> (length bs < Z.to_nat RRR_HDLC_MAX)%nat ->
  exists ret st' bs', parse_frame_loop fuel st = Ret (ret, st') /\ holds st' bs' /\
    (length bs' < Z.to_nat RRR_HDLC_MAX)%nat.
Proof.
  revert st bs. induction fuel as [|fuel IH]; intros st bs Hh Hl; [simpl; eauto 10|].
  destruct (rest (parse_pos st)) as [|b l] eqn:Hr.
  { cbn [parse_frame_loop]. apply rest_nil in Hr as [-> _]; [eauto 10|apply Hh]. }
  destruct (next_holds st bs b l Hh Hr) as [Hn _].
  destruct (parse_flag st) eqn:Hf.
  - rewrite (round_idle st bs b l fuel Hh Hr Hf). case_match; by apply (IH _ bs).
  - rewrite (round_frame st bs b l fuel Hh Hr Hf).
    destruct (b =? RRR_HDLC_BYTE_ESCAPE); [by apply (IH _ bs)|].
    destruct (b =? RRR_HDLC_BYTE_FRAME).
    { destruct (result_wpos st =? 0); [by apply (IH _ bs)|]. do 3 eexists. by split; [|split]. }
    destruct (PUSH st) eqn:E; [eauto 10|]. pose proof (push_room st bs Hh Hl E).
    destruct (holds_push _ bs b Hn) as [_ Hp]; [done|].
    apply (IH _ _ Hp). rewrite length_app. simpl. lia.
  - rewrite (round_escape st bs b l fuel Hh Hr Hf). case_match eqn:E; [eauto 10|].
    pose proof (push_room st bs Hh Hl E).
    destruct (holds_push _ bs (b ^^^ RRR_HDLC_BYTE_XOR) Hn) as [_ Hp]; [done|].
    apply (IH _ _ (holds_set_flag _ _ _ Hp)). rewrite length_app. simpl. lia.
  - cbn [parse_frame_loop]. destruct (rest_cons _ _ _ (proj1 Hh) Hr) as (_ & -> & _).
    rewrite Hf. eauto 10.
Qed.

(** Memory safety of the parser on arbitrary input: it always returns,
    reads only inside the input and writes only inside its array, with the
    write position below the array's last byte. *)
Lemma rrr_hdlc_parse_frame_safe array buf :
  length array = Z.to_nat RRR_HDLC_MAX -> Z.of_nat (length buf) <= RRR_LENGTH_MAX ->
  exists ret st, rrr_hdlc_parse_frame
      (rrr_hdlc_parse_state_init array (rrr_parse_pos_init buf (Z.of_nat (length buf))))
    = Ret (ret, st) /\ 0 <= result_wpos st < RRR_HDLC_MAX /\
    length (result st) = length array /\ wf (parse_pos st).
Proof.
  intros Ha Hb. set (st0 := rrr_hdlc_parse_state_init _ _).
  destruct (parse_loop_safe (Z.to_nat (size (parse_pos st0) - pos (parse_pos st0))) st0 [])
    as (ret & st & bs & E & (Hw & Hp & Hl & _) & Hlt).
  - unfold holds, wf. simpl. split_and!; try lia; done.
  - simpl. unfold RRR_HDLC_MAX. lia.
  - exists ret, st. split_and!; [done|lia| |congruence|done].
    unfold RRR_HDLC_MAX in *. lia.
Qed.

End Hdlc.
