(* ===== verification/ParseText.v ===== *)
(** Reading text with the scanner: what its functions find at a position, and
    positions that only move forward.  Shared by the files about the formats
    that are read with it (conditions, access lists). *)
From S2P Require Import Prelude Types Parse.

Module ParseText.
Import Types Parse.

(** * What is at a position *)

Fixpoint prefix_by (eq : Z -> Z -> bool) (w l : list Z) : bool :=
  match w, l with
  | [], _ => true
  | x :: w, c :: l => eq x c && prefix_by eq w l
  | _ :: _, [] => false
  end.

Lemma prefix_by_spec eq w l :
  prefix_by eq w l = true <-> exists l1 l2, l = l1 ++ l2 /\ Forall2 (fun x c => eq x c = true) w l1.
Proof.
  revert l. induction w as [|x w IH]; intros l; simpl.
  - split; [|done]. intros _. by exists [], l.
  - destruct l as [|c l].
    + split; [done|]. intros (l1 & l2 & E & H). apply Forall2_cons_inv_l in H as (c & l1' & _ & _ & ->). done.
    + rewrite andb_true_iff, IH. split.
      * intros (Hc & l1 & l2 & -> & H). exists (c :: l1), l2. auto.
      * intros (l1 & l2 & E & H). apply Forall2_cons_inv_l in H as (c' & l1' & Hc & H & ->).
        simplify_eq/=. eauto.
Qed.

Lemma match_word_by eq p w :
  wf p -> match_word_with eq p w
    = Ret (if prefix_by eq w (rest p) then (1, forward (length w) p) else (0, p)).
Proof.
  intros Hp. destruct (match_word_with_spec eq p w Hp) as [(l1 & l2 & E & H & ->)|[Hn ->]].
  - rewrite (proj2 (prefix_by_spec _ _ _)) by eauto. done.
  - destruct (prefix_by eq w (rest p)) eqn:E; [|done].
    apply prefix_by_spec in E as (l1 & l2 & E & H). by destruct (Hn l1 l2 E).
Qed.

Definition spaces (l : list Z) : bool := forallb rrr_parse_is_spaces l.

(** A token that does not begin with a space is found behind the spaces. *)
Lemma skip_spec p gap c l :
  wf p -> rest p = gap ++ c :: l -> spaces gap = true -> rrr_parse_is_spaces c = false ->
  exists q, rrr_parse_ignore_spaces_and_increment_line p = Ret q /\ wf q /\ rest q = c :: l
    /\ RRR_PARSE_CHECK_EOF q = false.
Proof.
  intros Hp Hr Hg Hc. exists (skip rrr_parse_is_spaces p).
  destruct (skip_wf rrr_parse_is_spaces p Hp) as (Hw & Hrest & _).
  rewrite Hr, span_app, span_stop, Nat.add_0_r, drop_app_length in Hrest by done.
  split; [by apply ignore_spec|]. split; [done|]. split; [done|]. by eapply rest_cons.
Qed.

Lemma skip_none p c l :
  wf p -> rest p = c :: l -> rrr_parse_is_spaces c = false ->
  rrr_parse_ignore_spaces_and_increment_line p = Ret p /\ RRR_PARSE_CHECK_EOF p = false.
Proof.
  intros Hp Hr Hc. split; [|by eapply rest_cons].
  unfold rrr_parse_ignore_spaces_and_increment_line. rewrite ignore_spec, skip_stop by
    (done || by rewrite Hr; apply span_stop). done.
Qed.

Lemma span_exact (f g : Z -> bool) l r :
  (forall c, f c = true -> g (schar c) = true) -> forallb f l = true ->
  match r with c :: _ => g (schar c) = false | [] => True end ->
  span (fun c => g (schar c)) (l ++ r) = length l.
Proof.
  intros Hfg Hl Hr. rewrite span_app.
  - destruct r as [|c r]; [simpl; lia|]. rewrite span_stop by done. lia.
  - apply forallb_forall. intros c Hc. apply Hfg. by eapply forallb_forall in Hl.
Qed.

Lemma schar_low c : c < 128 -> schar c = c.
Proof. intros H. unfold schar. by rewrite (proj2 (Z.ltb_lt _ _)). Qed.

Lemma advance p a r :
  wf p -> rest p = a ++ r -> wf (forward (length a) p) /\ rest (forward (length a) p) = r.
Proof.
  intros Hp Hr. split; [apply wf_forward; [done|rewrite Hr, length_app; lia]|].
  by rewrite rest_forward, Hr, drop_app_length.
Qed.

Lemma pos_wrap p k : wf p -> 0 <= k <= pos p -> u32 (pos p - k) = pos p - k.
Proof. intros ((? & ?) & ? & Hm & _) ?. unfold RRR_LENGTH_MAX in Hm. apply wrap_small. lia. Qed.

Lemma pos_wrap_add p k : wf p -> u32 (pos p + Z.of_nat k - Z.of_nat k) = pos p.
Proof.
  intros ((? & ?) & ? & Hm & _). unfold RRR_LENGTH_MAX in Hm. rewrite wrap_small; lia.
Qed.

Definition same_letter (w c : Z) : bool := (w =? c) || (w =? other_case c).

Definition is_dec (c : Z) : bool := in_range 48 57 c.
Definition is_name (c : Z) : bool := RRR_PARSE_MATCH_C_LETTER c || is_dec c.

Lemma match_name c :
  rrr_parse_match_char c (RRR_PARSE_MATCH_LETTERS ||| RRR_PARSE_MATCH_NUMBERS) = is_name c.
Proof. unfold rrr_parse_match_char. simpl. by rewrite !orb_false_r. Qed.

(** A position further on in the same text. *)
Definition later (p q : rrr_parse_pos) : Prop :=
  wf q /\ data q = data p /\ size q = size p /\ pos p <= pos q.

Lemma later_refl p : wf p -> later p p.
Proof. intros Hp. split_and!; [done..|lia]. Qed.

Lemma later_forward p k : wf p -> (k <= length (rest p))%nat -> later p (forward k p).
Proof. intros Hp Hk. split; [by apply wf_forward|]. unfold forward. simpl. split_and!; [done..|lia]. Qed.

Lemma later_trans p q r : later p q -> later q r -> later p r.
Proof. intros (? & ? & ? & ?) (? & ? & ? & ?). split_and!; [done|congruence..|lia]. Qed.

Lemma prefix_length eq w l : prefix_by eq w l = true -> (length w <= length l)%nat.
Proof.
  intros (l1 & l2 & -> & H)%prefix_by_spec. rewrite length_app. apply Forall2_length in H. lia.
Qed.

Lemma match_word_later eq p w :
  wf p -> exists found q, match_word_with eq p w = Ret (found, q) /\ later p q
    /\ (if truth found then pos q = pos p + Z.of_nat (length w) else q = p).
Proof.
  intros Hp. rewrite match_word_by by done. destruct (prefix_by eq w (rest p)) eqn:E.
  - exists 1, (forward (length w) p). split; [done|]. split; [|done].
    apply later_forward; [done|]. by eapply prefix_length.
  - exists 0, p. split; [done|]. split; [|done]. by apply later_refl.
Qed.

Lemma match_letters_later p flags :
  wf p -> exists q, rrr_parse_match_letters p flags = Ret (q, pos p, pos q - 1) /\ later p q.
Proof.
  intros Hp. rewrite match_letters_spec by done.
  exists (forward (span (fun b => rrr_parse_match_char (schar b) flags) (rest p)) p). split; [done|].
  apply later_forward; [done|apply span_le].
Qed.

Lemma skip_later cond p : wf p -> later p (skip cond p).
Proof.
  intros Hp. destruct (skip_wf cond p Hp) as (? & _ & ? & ?). split_and!; [done..| |lia].
  unfold skip. by destruct (scan_lines _ _ _ _).
Qed.

Lemma ignore_later p :
  wf p -> exists q, rrr_parse_ignore_spaces_and_increment_line p = Ret q /\ later p q.
Proof.
  intros Hp. exists (skip rrr_parse_is_spaces p). split; [by apply ignore_spec|by apply skip_later].
Qed.

Lemma later_size p q : later p q -> size q = size p.
Proof. by intros (_ & _ & ? & _). Qed.

(** The text that is left at a position. *)
Definition reads (p : rrr_parse_pos) (text : list Z) : Prop := wf p /\ rest p = text.

Lemma reads_eof p l :
  reads p l -> RRR_PARSE_CHECK_EOF p = match l with [] => true | _ :: _ => false end.
Proof.
  intros [Hp Hr]. destruct l as [|c l]; [by eapply rest_nil|by eapply rest_cons].
Qed.

Lemma reads_size p l : reads p l -> Z.of_nat (length l) = size p - pos p.
Proof. intros [Hp <-]. by apply length_rest. Qed.

Lemma reads_short p l : reads p l -> Z.of_nat (length l) < 2 ^ 32.
Proof.
  intros Hp. pose proof (reads_size p l Hp). destruct Hp as [((? & _) & _ & Hm & _) _].
  unfold RRR_LENGTH_MAX in Hm. lia.
Qed.

Lemma reads_forward p a r : reads p (a ++ r) -> reads (forward (length a) p) r.
Proof. intros [Hp Hr]. by apply advance. Qed.

Lemma span_ext (f g : Z -> bool) l :
  Forall (fun c => f c = g c) l -> span f l = span g l.
Proof. induction 1 as [|c l Hc _ IH]; [done|]. simpl. by rewrite Hc, IH. Qed.

Lemma span_take f l : forallb f (take (span f l) l) = true.
Proof.
  induction l as [|c l IH]; [done|]. simpl. destruct (f c) eqn:E; [|done]. simpl. by rewrite E.
Qed.

Lemma span_drop f l : match drop (span f l) l with c :: _ => f c = false | [] => True end.
Proof. induction l as [|c l IH]; [done|]. simpl. by destruct (f c) eqn:E. Qed.

(** ** Lines *)

(** The number of lines that end is counted modulo 2^32. *)
Lemma scan_lines_count l off ln lb :
  0 <= ln < 2 ^ 32 ->
  exists k, 0 <= k <= Z.of_nat (length l) /\ (k = 0 <-> existsb is_newline l = false) /\
    fst (scan_lines l off ln lb) = (ln + k) mod 2 ^ 32.
Proof.
  assert (forall n l, (length l <= n)%nat -> forall off ln lb, 0 <= ln < 2 ^ 32 ->
    exists k, 0 <= k <= Z.of_nat (length l) /\ (k = 0 <-> existsb is_newline l = false) /\
    fst (scan_lines l off ln lb) = (ln + k) mod 2 ^ 32) as H; [|eauto].
  clear. assert (forall ln k, ((ln + 1) mod 2 ^ 32 + k) mod 2 ^ 32 = (ln + (k + 1)) mod 2 ^ 32) as Hadd.
  { intros ln k. rewrite Zplus_mod_idemp_l. f_equal. lia. }
  intros n. induction n as [|n IH]; intros [|c [|d l]] Hl off ln lb Hln; simpl in Hl; try lia;
    try (exists 0; split_and!; [simpl; lia..|done|by rewrite Z.add_0_r, Z.mod_small]).
  - cbn [scan_lines existsb]. rewrite orb_false_r. destruct (is_newline c).
    + exists 1. by split_and!.
    + exists 0. split_and!; [simpl; lia..|done|by rewrite Z.add_0_r, Z.mod_small].
  - pose proof (wrap_range 32 (ln + 1) ltac:(lia)) as Hw.
    change (scan_lines (c :: d :: l) off ln lb) with
      (if (c =? 13) && (d =? 10) then scan_lines l (off + 2) (u32 (ln + 1)) (off + 2)
       else if is_newline c then scan_lines (d :: l) (off + 1) (u32 (ln + 1)) (off + 1)
       else scan_lines (d :: l) (off + 1) ln lb).
    destruct ((c =? 13) && (d =? 10)) eqn:Ecrlf.
    + apply andb_true_iff in Ecrlf as [->%Z.eqb_eq ->%Z.eqb_eq].
      destruct (IH l ltac:(lia) (off + 2) (u32 (ln + 1)) (off + 2) Hw) as (k & Hk & _ & ->).
      exists (k + 1). split_and!; [simpl; lia..| |apply Hadd]. split; [lia|done].
    + change (existsb is_newline (c :: d :: l)) with (is_newline c || existsb is_newline (d :: l)).
      destruct (is_newline c).
      * destruct (IH (d :: l) ltac:(simpl; lia) (off + 1) (u32 (ln + 1)) (off + 1) Hw) as (k & Hk & _ & ->).
        exists (k + 1). split_and!; [simpl in *; lia..| |apply Hadd]. split; [lia|done].
      * destruct (IH (d :: l) ltac:(simpl; lia) (off + 1) ln lb Hln) as (k & Hk & Hz & ->).
        exists k. split_and!; [simpl in *; lia..|done|done].
Qed.

(** Skipping spaces, and whether a line ended among them. *)
Lemma ignore_text p l :
  reads p l ->
  exists q, rrr_parse_ignore_spaces_and_increment_line p = Ret q /\ later p q /\
    reads q (drop (span rrr_parse_is_spaces l) l) /\
    (pos p =? pos q) = (span rrr_parse_is_spaces l =? 0)%nat /\
    (line p =? line q) = negb (existsb is_newline (take (span rrr_parse_is_spaces l) l)).
Proof.
  intros Hl. pose proof (reads_short p l Hl) as Hs. destruct Hl as [Hp Hr].
  exists (skip rrr_parse_is_spaces p). split; [by apply ignore_spec|].
  split; [by apply skip_later|]. destruct (skip_wf rrr_parse_is_spaces p Hp) as (Hw & Hrest & Hpos & _).
  rewrite Hr in Hrest, Hpos. split; [done|]. split.
  { rewrite Hpos. destruct (span _ _); [apply Z.eqb_eq; lia|]. apply Z.eqb_neq. lia. }
  unfold skip. rewrite Hr. set (g := take _ l). assert (length g <= length l)%nat by (subst g; rewrite length_take; lia).
  assert (0 <= line p < 2 ^ 32) as Hline by apply Hp.
  destruct (scan_lines_count g (pos p) (line p) (line_begin_pos p) Hline) as (k & Hk & Hz & Hc).
  destruct (scan_lines _ _ _ _) as [ln lb]. simpl in Hc |- *. subst ln.
  destruct (existsb is_newline g); cbn [negb].
  - apply Z.eqb_neq. intros He. assert (k <> 0) by naive_solver.
    destruct (Z.lt_ge_cases (line p + k) (2 ^ 32)).
    + rewrite Z.mod_small in He; lia.
    + rewrite <-(Z.mod_unique_pos (line p + k) (2 ^ 32) 1 (line p + k - 2 ^ 32)) in He; lia.
  - apply Z.eqb_eq. assert (k = 0) as -> by naive_solver. rewrite Z.add_0_r, Z.mod_small; lia.
Qed.

(** ** The end of the line *)

(** The object has a byte behind the text. *)
Definition terminated (p : rrr_parse_pos) : Prop := size p < Z.of_nat (length (data p)).

Lemma terminated_later p q : terminated p -> later p q -> terminated q.
Proof. unfold terminated. intros H (_ & -> & -> & _). done. Qed.

Lemma terminated_load p : wf p -> terminated p -> exists c, load8 (data p) (pos p) = Ret c.
Proof.
  intros Hp Ht. unfold terminated in Ht. destruct Hp as ((? & ?) & _).
  destruct (lookup_lt_is_Some_2 (data p) (Z.to_nat (pos p))) as [c Hc]; [lia|].
  exists c. by apply load8_Some.
Qed.

Definition on_line (c : Z) : bool := negb (is_newline c).

Lemma comment_loop_spec fuel c p :
  wf p -> terminated p -> load8 (data p) (pos p) = Ret c -> (length (rest p) < fuel)%nat ->
  comment_loop fuel c p = Ret (forward (span on_line (rest p)) p).
Proof.
  revert c p. induction fuel as [|fuel IH]; intros c p Hp Ht Hc Hf; [lia|]. cbn [comment_loop].
  destruct (rest p) as [|b l] eqn:Hr.
  - apply rest_nil in Hr as [_ ->]; [|done]. rewrite Z.ltb_irrefl, andb_false_r.
    simpl. by rewrite forward_0.
  - pose proof (rest_cons p b l Hp Hr) as (Hlt & _ & Hb & E & Hr1 & Hw & _). assert (c = b) as -> by congruence.
    rewrite (proj2 (Z.ltb_lt _ _)), andb_true_r by done. cbn [span].
    rewrite <-negb_orb. change (negb ((b =? 13) || (b =? 10))) with (on_line b).
    destruct (on_line b); [|by rewrite forward_0]. cbv zeta. rewrite E.
    destruct (terminated_load (forward 1 p)) as [c' Hc']; [done..|]. rewrite Hc', bind_ret.
    rewrite IH by (rewrite ?Hr1; simpl in Hf; auto with lia). by rewrite Hr1, forward_forward.
Qed.

Lemma comment_text p c l :
  reads p (c :: l) -> terminated p -> is_newline c = false ->
  exists q, rrr_parse_comment p = Ret q /\ later p q /\
    let l' := drop (span on_line l) l in reads q (drop (span rrr_parse_is_spaces l') l').
Proof.
  intros [Hp Hr] Ht Hc. pose proof (rest_cons p c l Hp Hr) as (Hlt & _ & Hb & _).
  unfold rrr_parse_comment. rewrite (proj2 (Z.leb_gt _ _)) by done. rewrite Hb, bind_ret.
  pose proof (length_rest p Hp) as Hlen. rewrite comment_loop_spec by (auto with lia).
  rewrite bind_ret, Hr. cbn [span]. unfold on_line at 1. rewrite Hc. cbn [negb].
  assert (span on_line l <= length l)%nat by apply span_le.
  assert (S (span on_line l) <= length (rest p))%nat by (rewrite Hr; simpl; lia).
  destruct (ignore_text (forward (S (span on_line l)) p) (drop (span on_line l) l)) as (q & -> & Hq & Hl & _).
  { split; [by apply wf_forward|]. by rewrite rest_forward, Hr. }
  exists q. split; [done|]. split; [|done]. eapply later_trans; [|done]. by apply later_forward.
Qed.

Lemma non_loop_spec stop fuel c p :
  wf p -> (length (rest p) <= fuel)%nat -> (forall b l, rest p = b :: l -> c = schar b) ->
  non_loop fuel stop c p = Ret (forward (span (fun b => negb (stop (schar b))) (rest p)) p).
Proof.
  revert c p. induction fuel as [|fuel IH]; intros c p Hp Hf Hc;
    destruct (rest p) as [|b l] eqn:Hr; simpl in Hf; try lia; cbn [non_loop].
  - simpl. by rewrite forward_0.
  - apply rest_nil in Hr as [-> _]; [|done]. simpl. by rewrite forward_0.
  - pose proof (rest_cons p b l Hp Hr) as (_ & -> & _ & E & Hr1 & Hw & _). cbn [negb span].
    rewrite (Hc b l eq_refl). destruct (stop (schar b)); [by rewrite forward_0|]. cbv zeta.
    rewrite E. destruct l as [|b' l].
    + apply rest_nil in Hr1 as [-> _]; [|done]. done.
    + pose proof (rest_cons _ _ _ Hw Hr1) as (_ & -> & -> & _). rewrite bind_ret.
      rewrite IH; [by rewrite Hr1, forward_forward|done|rewrite Hr1; simpl in *; lia|].
      intros b0 l0. rewrite Hr1. congruence.
Qed.

Lemma non_newline_text p l :
  reads p l -> terminated p -> bytes_ok l ->
  let n := span on_line l in
  rrr_parse_non_newline p = Ret (forward n p, pos p, pos p + Z.of_nat n - 1).
Proof.
  intros Hl Ht Hb n. pose proof (reads_size p l Hl). destruct Hl as [Hp Hr].
  unfold rrr_parse_non_newline. destruct (terminated_load p Hp Ht) as [c Hc]. rewrite Hc, bind_ret.
  assert (span (fun b => negb ((schar b =? 13) || (schar b =? 10))) l = n) as Hn.
  { apply span_ext. apply (List.Forall_impl _ (P := byte_ok)); [|done]. intros b Hb'. unfold byte_ok in Hb'.
    unfold on_line, is_newline, schar. destruct (Z.ltb_spec b 128); [done|]. f_equal.
    rewrite !(proj2 (Z.eqb_neq _ _)) by lia. done. }
  rewrite non_loop_spec; [|done|rewrite Hr; lia|].
  - rewrite bind_ret, Hr, Hn. done.
  - intros b l' E. pose proof (rest_cons p b l' Hp E) as (_ & _ & Hb' & _). congruence.
Qed.

End ParseText.

