(* ===== verification/Condition.v ===== *)
(** Conditional expressions of array trees (src/src/lib/condition.c, condition.h):
    the shunting yard that turns them into postfix form, and their evaluation.

    A pointer into the table of operators is a constructor.  A carrier on the
    stack of operators always has an operator and no value, so the stack is a
    list of operators with its top first.  Behaviour that C leaves undefined
    (signed overflow, shifts by 64 and more or of negative numbers to the left)
    is [Oob].  The callback that evaluates names is a function of the name, and
    gives a status, the number and whether it is signed.  The level of
    parentheses and the counts of values and operators, which are [int]s, are unbounded here;
    that makes a difference from 2^31 open parentheses or operands on. *)
From S2P Require Import Prelude Types Parse.

Module Condition.
Import Types Parse.

Definition RRR_CONDITION_VALUE_MAX : Z := 64.
Definition RRR_CONDITION_OK : Z := RRR_READ_OK.
Definition RRR_CONDITION_HARD_ERROR : Z := RRR_READ_HARD_ERROR.
Definition RRR_CONDITION_SOFT_ERROR : Z := RRR_READ_SOFT_ERROR.

Definition RRR_CONDITION_PRIORITY_NONE : Z := 0.
Definition RRR_CONDITION_PRIORITY_SINGULAR : Z := 1.
Definition RRR_CONDITION_PRIORITY_MUL : Z := 2.
Definition RRR_CONDITION_PRIORITY_ADD : Z := 3.
Definition RRR_CONDITION_PRIORITY_BW_SHIFT : Z := 4.
Definition RRR_CONDITION_PRIORITY_CMP : Z := 5.
Definition RRR_CONDITION_PRIORITY_EQUALITY : Z := 6.
Definition RRR_CONDITION_PRIORITY_BW_AND : Z := 7.
Definition RRR_CONDITION_PRIORITY_BW_XOR : Z := 8.
Definition RRR_CONDITION_PRIORITY_BW_OR : Z := 9.
Definition RRR_CONDITION_PRIORITY_AND : Z := 10.
Definition RRR_CONDITION_PRIORITY_OR : Z := 11.

Inductive rrr_condition_op :=
| operator_par_open | operator_par_close | operator_lteq | operator_gteq
| operator_bw_left | operator_bw_right | operator_lt | operator_gt | operator_eq | operator_ne
| operator_and | operator_or | operator_and_word | operator_or_word
| operator_bw_and | operator_bw_xor | operator_bw_or | operator_add | operator_sub
| operator_mul | operator_div | operator_bw_not.

#[export] Instance rrr_condition_op_eq_dec : EqDecision rrr_condition_op.
Proof. solve_decision. Defined.

Definition operators : list rrr_condition_op :=
  [operator_par_open; operator_par_close; operator_lteq; operator_gteq; operator_bw_left;
   operator_bw_right; operator_lt; operator_gt; operator_eq; operator_ne; operator_and;
   operator_or; operator_and_word; operator_or_word; operator_bw_and; operator_bw_xor;
   operator_bw_or; operator_add; operator_sub; operator_mul; operator_div; operator_bw_not].

(** The member [op]. *)
Definition op_name (o : rrr_condition_op) : list Z :=
  match o with
  | operator_par_open => [40] | operator_par_close => [41]
  | operator_lteq => [60; 61] | operator_gteq => [62; 61]
  | operator_bw_left => [60; 60] | operator_bw_right => [62; 62]
  | operator_lt => [60] | operator_gt => [62]
  | operator_eq => [61; 61] | operator_ne => [33; 61]
  | operator_and => [38; 38] | operator_or => [124; 124]
  | operator_and_word => [65; 78; 68] | operator_or_word => [79; 82]
  | operator_bw_and => [38] | operator_bw_xor => [94] | operator_bw_or => [124]
  | operator_add => [43] | operator_sub => [45] | operator_mul => [42] | operator_div => [47]
  | operator_bw_not => [126]
  end.

Definition prio (o : rrr_condition_op) : Z :=
  match o with
  | operator_par_open | operator_par_close => RRR_CONDITION_PRIORITY_NONE
  | operator_lteq | operator_gteq | operator_lt | operator_gt => RRR_CONDITION_PRIORITY_CMP
  | operator_bw_left | operator_bw_right => RRR_CONDITION_PRIORITY_BW_SHIFT
  | operator_eq | operator_ne => RRR_CONDITION_PRIORITY_EQUALITY
  | operator_and | operator_and_word => RRR_CONDITION_PRIORITY_AND
  | operator_or | operator_or_word => RRR_CONDITION_PRIORITY_OR
  | operator_bw_and => RRR_CONDITION_PRIORITY_BW_AND
  | operator_bw_xor => RRR_CONDITION_PRIORITY_BW_XOR
  | operator_bw_or => RRR_CONDITION_PRIORITY_BW_OR
  | operator_add | operator_sub => RRR_CONDITION_PRIORITY_ADD
  | operator_mul | operator_div => RRR_CONDITION_PRIORITY_MUL
  | operator_bw_not => RRR_CONDITION_PRIORITY_SINGULAR
  end.

(** [value] is a C string without its terminator. *)
Record rrr_condition_shunting_yard_carrier := mk_carrier {
  op : option rrr_condition_op;
  value : list Z
}.

Record rrr_condition_shunting_yard := mk_yard {
  carriers : list rrr_condition_shunting_yard_carrier;
  op_stack : list rrr_condition_op
}.

Definition empty_yard : rrr_condition_shunting_yard := mk_yard [] [].
Definition op_carrier (o : rrr_condition_op) := mk_carrier (Some o) [].

(** Status and [*target]; [value] is what the pointer refers to. *)
Definition rrr_condition_shunting_yard_carrier_new (alloc_ok : bool)
    (o : option rrr_condition_op) (value : list Z) (value_length : Z)
  : outcome (Z * option rrr_condition_shunting_yard_carrier) :=
  if negb alloc_ok then Ret (RRR_CONDITION_HARD_ERROR, None) else
  if RRR_CONDITION_VALUE_MAX - 1 <? value_length then Ret (RRR_CONDITION_SOFT_ERROR, None) else
  v ← (if 0 <? value_length then copy_out value 0 value_length else Ret []);
  Ret (RRR_CONDITION_OK, Some (mk_carrier o v)).

Definition rrr_condition_clear (target : rrr_condition_shunting_yard) : rrr_condition_shunting_yard :=
  empty_yard.

(** The loop over the source; allocation number [i] succeeds when [alloc i]. *)
Fixpoint rrr_condition_shunting_yard_clone (alloc : nat -> bool) (i : nat)
    (target : rrr_condition_shunting_yard)
    (source : list rrr_condition_shunting_yard_carrier) : Z * rrr_condition_shunting_yard :=
  match source with
  | [] => (0, target)
  | node :: source =>
    if negb (alloc i) then (RRR_CONDITION_HARD_ERROR, target)
    else rrr_condition_shunting_yard_clone alloc (S i)
           (mk_yard (carriers target ++ [node]) (op_stack target)) source
  end.

Definition rrr_condition_clone (alloc : nat -> bool) (target source : rrr_condition_shunting_yard) :=
  rrr_condition_shunting_yard_clone alloc 0 target (carriers source).

(** * Parsing *)

Fixpoint parse_op_loop (ops : list rrr_condition_op) (p : rrr_parse_pos)
  : outcome (option rrr_condition_op * rrr_parse_pos) :=
  match ops with
  | [] => Ret (None, p)
  | o :: ops =>
    '(found, p) ← rrr_parse_match_word p (op_name o);
    if truth found then Ret (Some o, p) else parse_op_loop ops p
  end.

Definition rrr_condition_parse_op (p : rrr_parse_pos) := parse_op_loop operators p.

(** Operators that are no sign before a number count against the values. *)
Definition count_op (c : rrr_condition_shunting_yard_carrier) : Z :=
  match op c with
  | Some o => if prio o =? RRR_CONDITION_PRIORITY_SINGULAR then 0 else 1
  | None => 0
  end.
Definition count_value (c : rrr_condition_shunting_yard_carrier) : Z :=
  match op c with Some _ => 0 | None => 1 end.
Definition sum_of (f : rrr_condition_shunting_yard_carrier -> Z) l :=
  fold_left (fun n c => n + f c) l 0.

Definition rrr_condition_shunting_yard_finalize (y : rrr_condition_shunting_yard) : outcome Z :=
  match op_stack y with
  | _ :: _ => Bug
  | [] =>
    match carriers y with
    | [] => Ret 0
    | l => Ret (if sum_of count_value l - sum_of count_op l =? 1 then 0 else 1)
    end
  end.

(** The loop that takes operators off the stack up to the opening parenthesis. *)
Fixpoint close_loop (out : list rrr_condition_shunting_yard_carrier)
    (stack : list rrr_condition_op) : rrr_condition_shunting_yard :=
  match stack with
  | [] => mk_yard out []
  | o :: stack =>
    if decide (o = operator_par_open) then mk_yard out stack
    else close_loop (out ++ [op_carrier o]) stack
  end.

(** The loop that takes off operators of higher priority. *)
Fixpoint shunt_loop (out : list rrr_condition_shunting_yard_carrier)
    (stack : list rrr_condition_op) (new : rrr_condition_op) : rrr_condition_shunting_yard :=
  match stack with
  | o :: rest =>
    if (prio o <? prio new) && negb (bool_decide (o = operator_par_open))
    then shunt_loop (out ++ [op_carrier o]) rest new
    else mk_yard out (new :: stack)
  | [] => mk_yard out [new]
  end.

(** Status, [*par_level] and the yard. *)
Definition rrr_condition_shunting_yard_shunt_op (alloc_ok : bool) (par_level : Z)
    (y : rrr_condition_shunting_yard) (o : rrr_condition_op)
  : outcome (Z * Z * rrr_condition_shunting_yard) :=
  '(ret, _) ← rrr_condition_shunting_yard_carrier_new alloc_ok (Some o) [] 0;
  if negb (ret =? 0) then Ret (ret, par_level, y) else
  if decide (o = operator_par_open) then
    Ret (0, par_level + 1, mk_yard (carriers y) (o :: op_stack y))
  else if decide (o = operator_par_close) then
    let par_level := par_level - 1 in
    if par_level <? 0 then Ret (RRR_CONDITION_SOFT_ERROR, par_level, y) else
    Ret (0, par_level, close_loop (carriers y) (op_stack y))
  else match op_stack y with
  | [] => Ret (0, par_level, mk_yard (carriers y) [o])
  | stack => Ret (0, par_level, shunt_loop (carriers y) stack o)
  end.

(** [value] is what the pointer refers to. *)
Definition rrr_condition_shunting_yard_shunt_value (alloc_ok : bool)
    (y : rrr_condition_shunting_yard) (value : list Z) (size : Z)
  : outcome (Z * rrr_condition_shunting_yard) :=
  '(ret, c) ← rrr_condition_shunting_yard_carrier_new alloc_ok None value size;
  match c with
  | None => Ret (ret, y)
  | Some c => Ret (ret, mk_yard (carriers y ++ [c]) (op_stack y))
  end.

(** The value at the position: [None] when there is none, else its first and
    last byte. *)
Definition parse_value (p : rrr_parse_pos) : outcome (rrr_parse_pos * option (Z * Z)) :=
  '(found, p) ← rrr_parse_match_word p [123];
  if truth found then
    '(p, start, end_) ← rrr_parse_match_letters p
      (RRR_PARSE_MATCH_LETTERS ||| RRR_PARSE_MATCH_NUMBERS);
    if end_ - start <? 0 then Ret (p, None) else
    '(found, p) ← rrr_parse_match_word p [125];
    if negb (truth found) then Ret (p, None) else Ret (p, Some (u32 (start - 1), end_ + 1))
  else
  '(found, p) ← rrr_parse_match_word_case p [48; 120];
  if truth found then
    '(p, start, end_) ← rrr_parse_match_letters p RRR_PARSE_MATCH_HEX;
    if end_ - start <? 0 then Ret (p, None) else Ret (p, Some (u32 (start - 2), end_))
  else
  '(found, p) ← rrr_parse_match_word_case p [45];
  if truth found then
    '(p, start, end_) ← rrr_parse_match_letters p RRR_PARSE_MATCH_NUMBERS;
    if end_ - start <? 0 then Ret (p, None) else Ret (p, Some (u32 (start - 1), end_))
  else
  '(p, start, end_) ← rrr_parse_match_letters p RRR_PARSE_MATCH_NUMBERS;
  if end_ - start <? 0 then Ret (p, None) else Ret (p, Some (start, end_)).

(** What the loop changes; [allocs] is the number of allocations made. *)
Record interpreter := mk_interp {
  yard : rrr_condition_shunting_yard;
  par_level : Z;
  prev_was_op : bool;
  allocs : nat;
  at_pos : rrr_parse_pos
}.

(** The loop ends, goes on, or fails. *)
Inductive next := Break (s : interpreter) | Continue (s : interpreter) | Fail (ret : Z) (p : rrr_parse_pos).

Definition interpret_op (alloc : nat -> bool) (s : interpreter) (p : rrr_parse_pos)
    (o : rrr_condition_op) : outcome next :=
  '(ret, level, y) ← rrr_condition_shunting_yard_shunt_op (alloc (allocs s)) (par_level s) (yard s) o;
  if negb (ret =? 0) then Ret (Fail ret p) else
  let s := mk_interp y level true (S (allocs s)) p in
  Ret (if level =? 0 then Break s else Continue s).

Definition interpret_value (alloc : nat -> bool) (s : interpreter) (p : rrr_parse_pos)
  : outcome next :=
  p ← rrr_parse_ignore_spaces_and_increment_line p;
  let s := mk_interp (yard s) (par_level s) false (allocs s) p in
  if RRR_PARSE_CHECK_EOF p then Ret (Break s) else
  '(p, v) ← parse_value p;
  let s := mk_interp (yard s) (par_level s) false (allocs s) p in
  match v with
  | None => Ret (Break s)
  | Some (start, end_) =>
    d ← rrr_length_from_slength_sub_bug_const end_ start;
    n ← rrr_length_inc_bug_const d;
    '(ret, y) ← rrr_condition_shunting_yard_shunt_value (alloc (allocs s)) (yard s)
                  (drop (Z.to_nat start) (data p)) n;
    if negb (ret =? 0) then Ret (Fail ret p)
    else Ret (Continue (mk_interp y (par_level s) false (S (allocs s)) p))
  end.

(** One round. *)
Definition interpret_round (alloc : nat -> bool) (s : interpreter) : outcome next :=
  p ← rrr_parse_ignore_spaces_and_increment_line (at_pos s);
  let s := mk_interp (yard s) (par_level s) (prev_was_op s) (allocs s) p in
  if RRR_PARSE_CHECK_EOF p then Ret (Break s) else
  '(o, p) ← rrr_condition_parse_op p;
  if (par_level s =? 0) && negb (bool_decide (o = Some operator_par_open))
  then Ret (Fail RRR_CONDITION_SOFT_ERROR p) else
  match o with
  | Some o =>
    if bool_decide (o = operator_sub) &&
       (prev_was_op s || (length (carriers (yard s)) =? 0)%nat)
    then interpret_value alloc s (set_pos (u32 (pos p - 1)) p)
    else interpret_op alloc s p o
  | None => interpret_value alloc s p
  end.

(** Every round takes at least one byte or ends the loop. *)
Fixpoint interpret_loop (fuel : nat) (alloc : nat -> bool) (s : interpreter)
  : outcome (Z * rrr_parse_pos + interpreter) :=
  match fuel with
  | O => Oob
  | S fuel =>
    if RRR_PARSE_CHECK_EOF (at_pos s) then Ret (inr s) else
    n ← interpret_round alloc s;
    match n with
    | Break s => Ret (inr s)
    | Continue s => interpret_loop fuel alloc s
    | Fail ret p => Ret (inl (ret, p))
    end
  end.

Definition rrr_condition_str_false : list Z := [48].

(** Status, the condition and the position. *)
Definition rrr_condition_interpret (alloc : nat -> bool) (target : rrr_condition_shunting_yard)
    (p : rrr_parse_pos) : outcome (Z * rrr_condition_shunting_yard * rrr_parse_pos) :=
  r ← interpret_loop (S (Z.to_nat (size p - pos p))) alloc (mk_interp target 0 false 0 p);
  match r with
  | inl (ret, p) => Ret (ret, rrr_condition_clear target, p)
  | inr s =>
    if negb (par_level s =? 0) then
      Ret (RRR_CONDITION_SOFT_ERROR, rrr_condition_clear target, at_pos s)
    else
    '(ret, y) ← (match carriers (yard s) with
                 | [] => rrr_condition_shunting_yard_shunt_value (alloc (allocs s)) (yard s)
                           rrr_condition_str_false 1
                 | _ => Ret (0, yard s)
                 end);
    if negb (ret =? 0) then Ret (ret, rrr_condition_clear target, at_pos s) else
    ret ← rrr_condition_shunting_yard_finalize y;
    if negb (ret =? 0) then Ret (ret, rrr_condition_clear target, at_pos s)
    else Ret (0, y, at_pos s)
  end.

Definition rrr_condition_interpret_raw (alloc : nat -> bool) (target : rrr_condition_shunting_yard)
    (buf : list Z) (buf_length : Z) :=
  rrr_condition_interpret alloc target (rrr_parse_pos_init buf buf_length).

(** The name without its braces. *)
Definition rrr_condition_extract_name (value : list Z) : list Z :=
  drop 1 (take (length value - 1) value).

Section iterate.
Context {W : Type}
  (callback : option rrr_condition_op -> option (list Z) -> option (list Z) -> W -> outcome (Z * W)).

Fixpoint iterate_loop (l : list rrr_condition_shunting_yard_carrier) (w : W) : outcome (Z * W) :=
  match l with
  | [] => Ret (0, w)
  | node :: l =>
    let '(v, tag) :=
      if nth 0 (value node) 0 =? 123 then (None, Some (rrr_condition_extract_name (value node)))
      else (Some (value node), None) in
    '(ret, w) ← callback (op node) v tag w;
    if negb (ret =? 0) then Ret (ret, w) else iterate_loop l w
  end.

Definition rrr_condition_iterate (condition : rrr_condition_shunting_yard) (w : W) :=
  iterate_loop (carriers condition) w.

End iterate.

(** * Numbers *)

Definition is_space (c : Z) : bool := (c =? 32) || in_range 9 13 c.
Fixpoint skip_spaces (l : list Z) : list Z :=
  match l with
  | c :: rest => if is_space c then skip_spaces rest else l
  | [] => []
  end.

Definition digit_value (base c : Z) : option Z :=
  let d := if in_range 48 57 c then c - 48 else if in_range 97 122 c then c - 87
           else if in_range 65 90 c then c - 55 else 36 in
  if d <? base then Some d else None.

(** The value of the digits, how many there are, and what follows. *)
Fixpoint digits (base acc : Z) (n : nat) (l : list Z) : Z * nat * list Z :=
  match l with
  | [] => (acc, n, [])
  | c :: rest =>
    match digit_value base c with
    | Some d => digits base (acc * base + d) (S n) rest
    | None => (acc, n, l)
    end
  end.

Definition skip_sign (l : list Z) : bool * list Z :=
  match l with
  | c :: rest => if c =? 45 then (true, rest) else if c =? 43 then (false, rest) else (false, l)
  | [] => (false, [])
  end.

(** A prefix "0x" counts when a hexadecimal digit follows. *)
Definition skip_hex (base : Z) (l : list Z) : list Z :=
  match l with
  | z :: x :: c :: rest =>
    if (base =? 16) && (z =? 48) && ((x =? 120) || (x =? 88)) &&
       match digit_value 16 c with Some _ => true | None => false end
    then c :: rest else l
  | _ => l
  end.

(** Sign, magnitude and what follows the number, which is all when there is no
    number. *)
Definition strto (base : Z) (l : list Z) : bool * Z * list Z :=
  let '(negative, digs) := skip_sign (skip_spaces l) in
  let '(v, n, rest) := digits base 0 0 (skip_hex base digs) in
  match n with O => (false, 0, l) | _ => (negative, v, rest) end.

Definition strtoull (base : Z) (l : list Z) : Z * list Z :=
  let '(negative, v, rest) := strto base l in
  (if 2 ^ 64 - 1 <? v then 2 ^ 64 - 1 else if negative then u64 (- v) else v, rest).

Definition strtoll (base : Z) (l : list Z) : Z * list Z :=
  let '(negative, v, rest) := strto base l in
  (Z.max (- 2 ^ 63) (Z.min (2 ^ 63 - 1) (if negative then - v else v)), rest).

(** * Evaluation *)

Record rrr_condition_running_result := mk_result {
  result : Z;
  is_signed : bool;
  is_evaluated : bool
}.

(** [EVALUATION] with the operations of the type; comparisons and logic are
    the same for both. *)
Definition EVALUATION (shl shr bw_not add sub mul div : Z -> Z -> outcome Z) (a b : Z)
    (o : rrr_condition_op) : outcome Z :=
  match o with
  | operator_lteq => Ret (Z.b2z (a <=? b))
  | operator_gteq => Ret (Z.b2z (b <=? a))
  | operator_lt => Ret (Z.b2z (a <? b))
  | operator_gt => Ret (Z.b2z (b <? a))
  | operator_eq => Ret (Z.b2z (a =? b))
  | operator_ne => Ret (Z.b2z (negb (a =? b)))
  | operator_and | operator_and_word => Ret (Z.b2z (truth a && truth b))
  | operator_or | operator_or_word => Ret (Z.b2z (truth a || truth b))
  | operator_bw_and => Ret (a &&& b)
  | operator_bw_xor => Ret (a ^^^ b)
  | operator_bw_or => Ret (a ||| b)
  | operator_bw_left => shl a b
  | operator_bw_right => shr a b
  | operator_bw_not => bw_not a b
  | operator_add => add a b
  | operator_sub => sub a b
  | operator_mul => mul a b
  | operator_div => div a b
  | operator_par_open | operator_par_close => Bug
  end.

Definition defined_shift (b : Z) (z : Z) : outcome Z :=
  if (0 <=? b) && (b <? 64) then Ret z else Oob.
Definition in_int64 (z : Z) : bool := (- 2 ^ 63 <=? z) && (z <? 2 ^ 63).
Definition defined (z : Z) : outcome Z := if in_int64 z then Ret z else Oob.

(** [*fpe] and the result. *)
Definition rrr_condition_evaluate_operator (a b : Z) (o : rrr_condition_op) : outcome (bool * Z) :=
  if bool_decide (o = operator_div) && (b =? 0) then Ret (true, 0) else
  z ← EVALUATION
        (fun a b => defined_shift b (u64 (a <<< b))) (fun a b => defined_shift b (a >>> b))
        (fun a b => Ret (u64 (Z.lnot b)))
        (fun a b => Ret (u64 (a + b))) (fun a b => Ret (u64 (a - b))) (fun a b => Ret (u64 (a * b)))
        (fun a b => Ret (a / b)) a b o;
  Ret (false, z).

(** Shifting a negative number to the right keeps its sign. *)
Definition rrr_condition_evaluate_operator_signed (a b : Z) (o : rrr_condition_op)
  : outcome (bool * Z) :=
  if bool_decide (o = operator_div) && ((b =? 0) || ((a =? - 2 ^ 63) && (b =? -1)))
  then Ret (true, 0) else
  z ← EVALUATION
        (fun a b => if a <? 0 then Oob else z ← defined_shift b (a <<< b); defined z)
        (fun a b => defined_shift b (a >>> b)) (fun a b => Ret (Z.lnot b))
        (fun a b => defined (a + b)) (fun a b => defined (a - b)) (fun a b => defined (a * b))
        (fun a b => Ret (Z.quot a b)) a b o;
  Ret (false, z).

Definition rrr_condition_evaluate_ensure_signed (r : rrr_condition_running_result) : bool * Z :=
  if negb (is_signed r) && (2 ^ 63 - 1 <? result r) then (true, 0)
  else (false, s64 (result r)).

(** The loop from the last result on; [n] results are left.  The positions of
    the second and the first operand. *)
Fixpoint find_operands (n : nat) (singular : bool) (results : list rrr_condition_running_result)
    (b a : option nat) : option nat * option nat :=
  match n with
  | O => (b, a)
  | S j =>
    let '(b, a) :=
      match results !! j with
      | Some r => if is_evaluated r then match b with None => (Some j, a) | _ => (b, Some j) end
                  else (b, a)
      | None => (b, a)
      end in
    match b, a with
    | Some _, Some _ => (b, a)
    | Some _, None => if singular then (b, a) else find_operands j singular results b a
    | _, _ => find_operands j singular results b a
    end
  end.

Definition clear_evaluated (r : rrr_condition_running_result) : rrr_condition_running_result :=
  mk_result (result r) (is_signed r) false.

(** The number that an operator makes of its operands: status, result and
    signedness. *)
Definition evaluate_operands (a : option rrr_condition_running_result)
    (b : rrr_condition_running_result) (o : rrr_condition_op) : outcome (Z * Z * bool) :=
  if is_signed b || match a with Some a => is_signed a | None => false end then
    let '(fpe, signed_a) := match a with
                            | Some a => rrr_condition_evaluate_ensure_signed a
                            | None => (false, 0)
                            end in
    if fpe : bool then Ret (RRR_CONDITION_SOFT_ERROR, 0, false) else
    let '(fpe, signed_b) := rrr_condition_evaluate_ensure_signed b in
    if fpe : bool then Ret (RRR_CONDITION_SOFT_ERROR, 0, false) else
    '(fpe, z) ← rrr_condition_evaluate_operator_signed signed_a signed_b o;
    if fpe : bool then Ret (RRR_CONDITION_SOFT_ERROR, 0, false) else Ret (0, u64 z, true)
  else
    '(fpe, z) ← rrr_condition_evaluate_operator (match a with Some a => result a | None => 0 end)
                  (result b) o;
    if fpe : bool then Ret (RRR_CONDITION_SOFT_ERROR, 0, false) else Ret (0, z, false).

(** The results up to the position of the operator.  Status, [*result] when it
    is set, and the results with the new one.  The position before the operator
    is an unsigned difference of 32 bits: that of an operator without anything
    before it is outside of the results. *)
Definition rrr_condition_evaluate_op (o : rrr_condition_op)
    (results : list rrr_condition_running_result)
  : outcome (Z * Z * list rrr_condition_running_result) :=
  if (length results =? 0)%nat then Oob else
  let '(b, a) := find_operands (length results) (prio o =? RRR_CONDITION_PRIORITY_SINGULAR)
                   results None None in
  match b with
  | None => Bug
  | Some j =>
    match results !! j with
    | None => Oob
    | Some rb =>
      let ra := a ≫= (fun i => results !! i) in
      '(ret, z, signed) ← evaluate_operands ra rb o;
      if negb (ret =? 0) then Ret (ret, 0, results) else
      let results := match a with Some i => alter clear_evaluated i results | None => results end in
      let results := alter clear_evaluated j results in
      Ret (0, z, results ++ [mk_result z signed true])
    end
  end.

(** The status of a conversion, which has to end at the end of the string. *)
Definition at_end (rest : list Z) : Z :=
  match rest with [] => 0 | _ => RRR_CONDITION_SOFT_ERROR end.

(** Status and the result of a value. *)
Definition rrr_condition_evaluate_value (callback : list Z -> Z * Z * bool) (value : list Z)
  : Z * rrr_condition_running_result :=
  let first := nth 0 value 0 in
  let second := nth 1 value 0 in
  if first =? 123 then
    let '(ret, n, signed) := callback (rrr_condition_extract_name value) in
    (ret, mk_result n signed true)
  else if (first =? 48) && ((second =? 120) || (second =? 88)) then
    let '(n, rest) := strtoull 16 (drop 2 value) in (at_end rest, mk_result n false true)
  else if first =? 45 then
    let '(n, rest) := strtoll 10 value in (at_end rest, mk_result (u64 n) true true)
  else
    let '(n, rest) := strtoull 10 value in (at_end rest, mk_result n false true).

(** The loop over the carriers: status and [*result], which is that of the last
    operator. *)
Fixpoint evaluate_loop (callback : list Z -> Z * Z * bool)
    (l : list rrr_condition_shunting_yard_carrier) (last : Z)
    (results : list rrr_condition_running_result) : outcome (Z * Z) :=
  match l with
  | [] => Ret (0, last)
  | c :: l =>
    match op c with
    | Some o =>
      '(ret, z, results) ← rrr_condition_evaluate_op o results;
      if negb (ret =? 0) then Ret (ret, last) else evaluate_loop callback l z results
    | None =>
      let '(ret, r) := rrr_condition_evaluate_value callback (value c) in
      if negb (ret =? 0) then Ret (ret, last) else evaluate_loop callback l last (results ++ [r])
    end
  end.

Definition rrr_condition_evaluate (callback : list Z -> Z * Z * bool)
    (condition : rrr_condition_shunting_yard) : outcome (Z * Z) :=
  evaluate_loop callback (carriers condition) 0 [].

End Condition.
