(* ===== verification/ConditionCorrect.v ===== *)
(** What conditions mean: the text of an expression is turned into its postfix
    form by the priorities of the operators, and evaluating that gives the
    value that the expression has by the precedence of C and the arithmetic of 64-bit
    integers, for expressions in which parentheses keep operators of the same
    precedence apart; and any text is read without leaving it. *)
From S2P Require Import Prelude Types Parse ParseText Condition.

Module ConditionCorrect.
Import Types Parse ParseText Condition.

(** * Expressions *)

Inductive literal :=
| Dec (ds : list Z)
| Hex (x : Z) (ds : list Z)
| Neg (ds : list Z)
| Name (n : list Z).

Inductive expr :=
| Val (l : literal)
| Par (e : expr)
| Not (e : expr)
| Bin (o : rrr_condition_op) (l r : expr).

Definition chars (l : literal) : list Z :=
  match l with
  | Dec ds => ds
  | Hex x ds => 48 :: x :: ds
  | Neg ds => 45 :: ds
  | Name n => 123 :: n ++ [125]
  end.

Definition literal_ok (l : literal) : Prop :=
  (length (chars l) < 64)%nat /\
  match l with
  | Dec ds | Neg ds => ds <> [] /\ forallb is_dec ds = true
  | Hex x ds => (x = 120 \/ x = 88) /\ ds <> [] /\ forallb RRR_PARSE_MATCH_C_HEX ds = true
  | Name n => n <> [] /\ forallb is_name n = true
  end.

Definition binary (o : rrr_condition_op) : bool := 1 <? prio o.

(** The priority of the operator of an expression that is not in parentheses. *)
Definition top (e : expr) : Z :=
  match e with Val _ | Par _ => 0 | Not _ => 1 | Bin o _ _ => prio o end.

(** A minus is an operator after a value only. *)
Fixpoint ends_in_value (e : expr) : bool :=
  match e with
  | Val _ => true
  | Par _ => false
  | Not e => ends_in_value e
  | Bin _ _ r => ends_in_value r
  end.

(** An operand without parentheses binds tighter than the operator on its
    right, and at least as tight as the one on its left. *)
Fixpoint expr_ok (e : expr) : Prop :=
  match e with
  | Val l => literal_ok l
  | Par e => expr_ok e
  | Not e => expr_ok e /\ top e <= 1
  | Bin o l r =>
    expr_ok l /\ expr_ok r /\ binary o = true /\ top l < prio o /\ top r <= prio o
    /\ (o = operator_sub -> ends_in_value l = true)
  end.

Fixpoint postfix (e : expr) : list rrr_condition_shunting_yard_carrier :=
  match e with
  | Val l => [mk_carrier None (chars l)]
  | Par e => postfix e
  | Not e => postfix e ++ [op_carrier operator_bw_not]
  | Bin o l r => postfix l ++ postfix r ++ [op_carrier o]
  end.

(** * Tokens *)

Inductive token := TOp (o : rrr_condition_op) | TVal (l : literal).

Fixpoint tokens (e : expr) : list token :=
  match e with
  | Val l => [TVal l]
  | Par e => TOp operator_par_open :: tokens e ++ [TOp operator_par_close]
  | Not e => TOp operator_bw_not :: tokens e
  | Bin o l r => tokens l ++ TOp o :: tokens r
  end.

(** What one token does to the level and the yard. *)
Definition shunted (t : token) (s : Z * rrr_condition_shunting_yard)
  : Z * rrr_condition_shunting_yard :=
  let '(level, y) := s in
  match t with
  | TOp operator_par_open => (level + 1, mk_yard (carriers y) (operator_par_open :: op_stack y))
  | TOp operator_par_close => (level - 1, close_loop (carriers y) (op_stack y))
  | TOp o => (level, shunt_loop (carriers y) (op_stack y) o)
  | TVal l => (level, mk_yard (carriers y ++ [mk_carrier None (chars l)]) (op_stack y))
  end.

Definition run (ts : list token) (s : Z * rrr_condition_shunting_yard) :=
  fold_left (fun s t => shunted t s) ts s.

Lemma run_app ts us s : run (ts ++ us) s = run us (run ts s).
Proof. apply fold_left_app. Qed.

(** Of the postfix form, what is written and what is on the stack after the
    tokens of the expression. *)
Fixpoint pending (e : expr) : list rrr_condition_op :=
  match e with
  | Val _ | Par _ => []
  | Not e => pending e ++ [operator_bw_not]
  | Bin o _ r => pending r ++ [o]
  end.

Fixpoint flushed (e : expr) : list rrr_condition_shunting_yard_carrier :=
  match e with
  | Val _ | Par _ => postfix e
  | Not e => flushed e
  | Bin o l r => postfix l ++ flushed r
  end.

Lemma flushed_pending e : flushed e ++ (op_carrier <$> pending e) = postfix e.
Proof.
  induction e as [l|e IH|e IH|o l IHl r IHr]; simpl; rewrite ?app_nil_r; try done.
  - by rewrite fmap_app, app_assoc, IH.
  - by rewrite fmap_app, app_assoc, <-(app_assoc (postfix l)), IHr, <-app_assoc.
Qed.

Lemma pending_prio e :
  expr_ok e -> Forall (fun o => 0 < prio o <= top e) (pending e).
Proof.
  induction e as [l|e IH|e IH|o l IHl r IHr]; simpl; [by constructor..| |].
  - intros [He Ht]. apply Forall_app. split; [|by repeat constructor].
    eapply Forall_impl; [|by apply IH]. simpl. lia.
  - intros (_ & Hr & Hb & _ & Ht & _). apply Forall_app. unfold binary in Hb. split.
    + eapply Forall_impl; [|by apply IHr]. simpl. lia.
    + repeat constructor; lia.
Qed.

(** The loops of the shunting yard. *)
Lemma shunt_pops out ops rest new :
  Forall (fun o => 0 < prio o < prio new) ops ->
  shunt_loop out (ops ++ rest) new = shunt_loop (out ++ (op_carrier <$> ops)) rest new.
Proof.
  revert out. induction ops as [|o ops IH]; intros out Ho; [by rewrite app_nil_r|].
  apply Forall_cons_1 in Ho as [Ho Hops]. cbn [app shunt_loop].
  rewrite (proj2 (Z.ltb_lt _ _)) by lia.
  rewrite bool_decide_false by (intros ->; change (prio operator_par_open) with 0 in Ho; lia). cbn [andb negb].
  rewrite IH by done. by rewrite fmap_cons, <-app_assoc.
Qed.

(** The operator on the stack keeps the new one above it. *)
Definition holds_back (new : Z) (stack : list rrr_condition_op) : Prop :=
  match stack with
  | [] => True
  | o :: _ => o = operator_par_open \/ new <= prio o
  end.

Lemma shunt_stops out stack new :
  holds_back (prio new) stack -> shunt_loop out stack new = mk_yard out (new :: stack).
Proof.
  destruct stack as [|o stack]; [done|]. simpl. intros [->|H].
  - by rewrite bool_decide_true, andb_false_r.
  - by rewrite (proj2 (Z.ltb_ge _ _)).
Qed.

Lemma close_pops out ops rest :
  Forall (fun o => 0 < prio o) ops ->
  close_loop out (ops ++ operator_par_open :: rest) = mk_yard (out ++ (op_carrier <$> ops)) rest.
Proof.
  revert out. induction ops as [|o ops IH]; intros out Ho; cbn [app close_loop].
  { by rewrite decide_True, app_nil_r. }
  apply Forall_cons_1 in Ho as [Ho Hops]. rewrite decide_False by (intros ->; change (prio operator_par_open) with 0 in Ho; lia).
  rewrite IH by done. by rewrite fmap_cons, <-app_assoc.
Qed.

Lemma shunted_op o level out stack :
  0 < prio o -> shunted (TOp o) (level, mk_yard out stack) = (level, shunt_loop out stack o).
Proof. by destruct o. Qed.

Lemma run_expr e level out stack :
  expr_ok e -> holds_back (top e) stack ->
  run (tokens e) (level, mk_yard out stack) = (level, mk_yard (out ++ flushed e) (pending e ++ stack)).
Proof.
  revert level out stack. induction e as [l|e IH|e IH|o l IHl r IHr]; intros level out stack He Hs;
    simpl in He.
  - done.
  - cbn [tokens]. rewrite app_comm_cons, run_app. cbn [run fold_left].
    change (fold_left _ (tokens e) ?s) with (run (tokens e) s). cbn [shunted carriers op_stack].
    rewrite IH by (done || by left). cbn [shunted carriers op_stack].
    rewrite close_pops, <-app_assoc, flushed_pending
      by (eapply Forall_impl; [|by apply pending_prio]; simpl; lia).
    cbn [flushed pending app]. f_equal. lia.
  - destruct He as [He Ht]. cbn [tokens run fold_left].
    change (fold_left _ (tokens e) ?s) with (run (tokens e) s).
    rewrite shunted_op, shunt_stops by done. rewrite IH by (done || right; done).
    cbn [flushed pending]. by rewrite <-app_assoc.
  - destruct He as (Hl & Hr & Hb & Htl & Htr & _). unfold binary in Hb. cbn [tokens].
    rewrite run_app, IHl; [|done|].
    2: { destruct stack as [|o' stack]; [done|]. simpl in *. destruct Hs; [by left|right; lia]. }
    cbn [run fold_left]. change (fold_left _ (tokens r) ?s) with (run (tokens r) s).
    rewrite shunted_op by lia. rewrite shunt_pops.
    2: { eapply Forall_impl; [|by apply pending_prio]. simpl. lia. }
    rewrite shunt_stops by done. rewrite <-app_assoc, flushed_pending.
    rewrite IHr by (done || right; lia). cbn [flushed pending]. by rewrite <-!app_assoc.
Qed.

(** * Text *)

(** The operator that the parser finds: the first one of the table. *)
Definition first_op (l : list Z) : option rrr_condition_op :=
  List.find (fun o => prefix_by Z.eqb (op_name o) l) operators.

Lemma parse_op_spec p :
  wf p -> rrr_condition_parse_op p
    = Ret (match first_op (rest p) with
           | Some o => (Some o, forward (length (op_name o)) p)
           | None => (None, p)
           end).
Proof.
  intros Hp. unfold rrr_condition_parse_op, first_op. induction operators as [|o ops IH]; [done|].
  cbn [parse_op_loop List.find]. unfold rrr_parse_match_word. rewrite match_word_by by done.
  change (fun w c : Z => w =? c) with Z.eqb.
  destruct (prefix_by Z.eqb (op_name o) (rest p)); [done|]. apply IH.
Qed.

(** * Values *)

Lemma match_numbers c : rrr_parse_match_char c RRR_PARSE_MATCH_NUMBERS = is_dec c.
Proof. unfold rrr_parse_match_char. simpl. by rewrite !orb_false_r. Qed.
Lemma match_hex c : rrr_parse_match_char c RRR_PARSE_MATCH_HEX = RRR_PARSE_MATCH_C_HEX c.
Proof. unfold rrr_parse_match_char. simpl. by rewrite !orb_false_r. Qed.
Lemma class_bounds c :
  is_dec c || RRR_PARSE_MATCH_C_HEX c || is_name c = true -> 48 <= c < 123.
Proof.
  unfold is_name, is_dec, RRR_PARSE_MATCH_C_HEX, RRR_PARSE_MATCH_C_LETTER.
  rewrite !orb_true_iff, !in_range_spec, Z.eqb_eq. lia.
Qed.

Lemma class_schar (f : Z -> bool) :
  (forall c, f c = true -> is_dec c || RRR_PARSE_MATCH_C_HEX c || is_name c = true) ->
  forall c, f c = true -> f (schar c) = true.
Proof. intros Hf c Hc. pose proof (class_bounds c (Hf c Hc)). by rewrite schar_low by lia. Qed.

Lemma dec_schar c : is_dec c = true -> is_dec (schar c) = true.
Proof. apply class_schar. intros d Hd. by rewrite Hd. Qed.
Lemma hex_schar c : RRR_PARSE_MATCH_C_HEX c = true -> RRR_PARSE_MATCH_C_HEX (schar c) = true.
Proof. apply class_schar. intros d Hd. by rewrite Hd, orb_true_r. Qed.
Lemma name_schar c : is_name c = true -> is_name (schar c) = true.
Proof. apply class_schar. intros d Hd. by rewrite Hd, orb_true_r. Qed.

(** What follows a value is not taken for a part of it. *)
Definition literal_ends (l : literal) (r : list Z) : Prop :=
  match r with
  | [] => True
  | c :: _ =>
    match l with
    | Dec _ => is_dec (schar c) = false /\ c <> 120 /\ c <> 88
    | Neg _ => is_dec (schar c) = false
    | Hex _ _ => RRR_PARSE_MATCH_C_HEX (schar c) = false
    | Name _ => True
    end
  end.

(** The letters of a value behind a prefix [pre] of it. *)
Lemma match_value flags g (f : Z -> bool) p pre ds r :
  (forall c, rrr_parse_match_char c flags = g c) -> (forall c, f c = true -> g (schar c) = true) ->
  wf p -> rest p = pre ++ ds ++ r -> ds <> [] -> forallb f ds = true ->
  match r with c :: _ => g (schar c) = false | [] => True end ->
  rrr_parse_match_letters (forward (length pre) p) flags
  = Ret (forward (length (pre ++ ds)) p, pos p + Z.of_nat (length pre),
         pos p + Z.of_nat (length (pre ++ ds)) - 1)
  /\ (pos p + Z.of_nat (length (pre ++ ds)) - 1 - (pos p + Z.of_nat (length pre)) <? 0) = false.
Proof.
  intros Hg Hf Hp Hr Hne Hds Hend. destruct (advance p pre (ds ++ r) Hp Hr) as [Hw Hr'].
  split; [|apply Z.ltb_ge; rewrite length_app; destruct ds; simpl in *; [done|lia]].
  rewrite match_letters_spec by done. cbv zeta. rewrite Hr'.
  assert (span (fun b => rrr_parse_match_char (schar b) flags) (ds ++ r) = length ds) as ->.
  { rewrite <-(span_exact f g ds r) by done. generalize (ds ++ r). intros l.
    induction l as [|c l IH]; [done|]. simpl. by rewrite Hg, IH. }
  rewrite forward_forward, length_app. unfold forward at 2 3. cbn [pos set_pos].
  do 2 f_equal. lia.
Qed.

Lemma other_case_dec d : is_dec d = true -> other_case d = 0.
Proof.
  unfold other_case, is_dec. rewrite in_range_spec. intros Hd.
  assert (in_range 97 122 d = false /\ in_range 65 90 d = false) as [-> ->]; [|done].
  unfold in_range. split; apply andb_false_iff; left; apply Z.leb_gt; lia.
Qed.

Lemma not_x c : c <> 120 -> c <> 88 -> same_letter 120 c = false.
Proof.
  intros H1 H2. unfold same_letter, other_case. rewrite (proj2 (Z.eqb_neq 120 c)) by done.
  destruct (in_range 97 122 c) eqn:E; [|destruct (in_range 65 90 c) eqn:E'; [|done]];
    apply Z.eqb_neq; [apply in_range_spec in E; lia|lia].
Qed.

Lemma dec_not_hex ds r :
  ds <> [] -> forallb is_dec ds = true -> literal_ends (Dec ds) r ->
  prefix_by same_letter [48; 120] (ds ++ r) = false
  /\ prefix_by same_letter [45] (ds ++ r) = false /\ prefix_by Z.eqb [123] (ds ++ r) = false.
Proof.
  intros Hne Hds Hend. destruct ds as [|d ds]; [done|]. cbn [forallb] in Hds.
  apply andb_true_iff in Hds as [Hd Hds]. pose proof (proj1 (in_range_spec 48 57 d) Hd) as Hd'.
  cbn [app prefix_by]. split_and!.
  - apply andb_false_iff. right. rewrite andb_true_r || idtac.
    destruct ds as [|d' ds]; cbn [app].
    + destruct r as [|c r]; [done|]. destruct Hend as (_ & H1 & H2). by rewrite not_x.
    + cbn [forallb] in Hds. apply andb_true_iff in Hds as [Hd2 _].
      apply in_range_spec in Hd2. rewrite not_x; [done|lia..].
  - unfold same_letter. rewrite other_case_dec, (proj2 (Z.eqb_neq 45 d)) by (done || lia). done.
  - by rewrite (proj2 (Z.eqb_neq 123 d)) by lia.
Qed.

Lemma parse_value_spec p l r :
  wf p -> rest p = chars l ++ r -> literal_ok l -> literal_ends l r ->
  parse_value p = Ret (forward (length (chars l)) p,
                       Some (pos p, pos p + Z.of_nat (length (chars l)) - 1)).
Proof.
  intros Hp Hr (Hlen & Hl) Hend. unfold parse_value, rrr_parse_match_word, rrr_parse_match_word_case.
  change (fun w c : Z => w =? c) with Z.eqb.
  change (fun w c : Z => (w =? c) || (w =? other_case c)) with same_letter.
  assert (0 <= pos p) as Hpos by apply Hp.
  destruct l as [ds|x ds|ds|n]; cbn [chars] in *.
  - destruct Hl as [Hne Hds]. destruct (dec_not_hex ds r Hne Hds Hend) as (H1 & H2 & H3).
    rewrite (match_word_by _ p [123]), Hr, H3, bind_ret by done. cbn [truth Z.eqb negb].
    rewrite (match_word_by _ p [48; 120]), Hr, H1, bind_ret by done. cbn [truth Z.eqb negb].
    rewrite (match_word_by _ p [45]), Hr, H2, bind_ret by done. cbn [truth Z.eqb negb].
    destruct (match_value RRR_PARSE_MATCH_NUMBERS is_dec is_dec p [] ds r) as [Hm Hn];
      [apply match_numbers|apply dec_schar|done..| |].
    { destruct r; [done|]. apply Hend. }
    cbn [length app] in Hm, Hn. rewrite forward_0 in Hm. rewrite Hm, bind_ret, Hn.
    change (Z.of_nat 0) with 0. by rewrite Z.add_0_r.
  - destruct Hl as (Hx & Hne & Hds).
    rewrite (match_word_by _ p [123]), Hr, bind_ret by done. change (prefix_by Z.eqb [123] (_ ++ _)) with false. cbv iota beta. cbn [truth Z.eqb negb].
    rewrite (match_word_by _ p [48; 120]), Hr, bind_ret by done.
    assert (prefix_by same_letter [48; 120] ((48 :: x :: ds) ++ r) = true) as -> by by destruct Hx as [->| ->].
    cbn [truth Z.eqb negb].
    destruct (match_value RRR_PARSE_MATCH_HEX RRR_PARSE_MATCH_C_HEX RRR_PARSE_MATCH_C_HEX p [48; x] ds r)
      as [Hm Hn]; [apply match_hex|apply hex_schar|done..| |].
    { destruct r; [done|]. apply Hend. }
    change (length [48; 120]) with (length [48; x]). rewrite Hm, bind_ret, Hn.
    cbn [length app]. rewrite pos_wrap_add by done. done.
  - destruct Hl as (Hne & Hds).
    rewrite (match_word_by _ p [123]), Hr, bind_ret by done. change (prefix_by Z.eqb [123] (_ ++ _)) with false. cbv iota beta. cbn [truth Z.eqb negb].
    rewrite (match_word_by _ p [48; 120]), Hr, bind_ret by done. change (prefix_by same_letter [48; 120] (_ ++ _)) with false. cbv iota beta. cbn [truth Z.eqb negb].
    rewrite (match_word_by _ p [45]), Hr, bind_ret by done. change (prefix_by same_letter [45] (_ ++ _)) with true. cbv iota beta. cbn [truth Z.eqb negb].
    destruct (match_value RRR_PARSE_MATCH_NUMBERS is_dec is_dec p [45] ds r) as [Hm Hn];
      [apply match_numbers|apply dec_schar|done..| |].
    { destruct r; [done|]. apply Hend. }
    rewrite Hm, bind_ret, Hn. cbn [length app]. rewrite pos_wrap_add by done. done.
  - destruct Hl as (Hne & Hn).
    rewrite (match_word_by _ p [123]), Hr, bind_ret by done.
    change (prefix_by Z.eqb [123] (_ ++ _)) with true. cbv iota beta. cbn [truth Z.eqb negb].
    rewrite <-app_comm_cons, <-app_assoc in Hr. cbn [app] in Hr.
    destruct (match_value (RRR_PARSE_MATCH_LETTERS ||| RRR_PARSE_MATCH_NUMBERS) is_name is_name p
      [123] n (125 :: r)) as [Hm Hneg]; [apply match_name|apply name_schar|done..|].
    rewrite Hm, bind_ret, Hneg. destruct (advance p (123 :: n) (125 :: r) Hp Hr) as [Hw Hr'].
    cbn [app] in *. rewrite (match_word_by _ (forward _ p) [125]), Hr', bind_ret by done.
    change (prefix_by Z.eqb [125] (_ :: _)) with true. cbv iota beta. cbn [truth Z.eqb negb].
    cbn [length]. rewrite pos_wrap_add by done. rewrite forward_forward, length_app. cbn [length].
    do 4 f_equal. lia.
Qed.

(** * The loop *)

(** The text [text] is that of the tokens, with white space where it is wanted,
    up to [r]. *)
Inductive lexes : list token -> list Z -> list Z -> Prop :=
| lexes_nil r : lexes [] r r
| lexes_op gap o text ts r :
    spaces gap = true -> first_op (op_name o ++ text) = Some o -> lexes ts text r ->
    lexes (TOp o :: ts) (gap ++ op_name o ++ text) r
| lexes_val gap l text ts r :
    spaces gap = true -> literal_ok l -> literal_ends l text -> lexes ts text r ->
    lexes (TVal l :: ts) (gap ++ chars l ++ text) r.

Definition token_name (t : token) : list Z := match t with TOp o => op_name o | TVal l => chars l end.

Lemma token_head t text :
  match t with TVal l => literal_ok l | _ => True end ->
  exists c rest, token_name t ++ text = c :: rest /\ rrr_parse_is_spaces c = false.
Proof.
  destruct t as [o|[ds|x ds|ds|n]]; intros Ht; simpl.
  - destruct o; eauto.
  - destruct Ht as (_ & Hne & Hds). destruct ds as [|d ds]; [done|]. exists d, (ds ++ text).
    split; [done|]. apply andb_true_iff in Hds as [Hd%in_range_spec _].
    unfold rrr_parse_is_spaces, RRR_PARSE_MATCH_C_SPACE_TAB, RRR_PARSE_MATCH_C_NEWLINES.
    by rewrite !(proj2 (Z.eqb_neq d _)) by lia.
  - eauto.
  - eauto.
  - eauto.
Qed.

(** The position where the text goes on. *)
Section rounds.
Context (alloc : nat -> bool) (Halloc : forall n, alloc n = true).

Lemma shunt_op_shunted level y o :
  (o = operator_par_close -> 0 < level) ->
  rrr_condition_shunting_yard_shunt_op true level y o
  = Ret (0, (shunted (TOp o) (level, y)).1, (shunted (TOp o) (level, y)).2).
Proof.
  intros Hc. unfold rrr_condition_shunting_yard_shunt_op, rrr_condition_shunting_yard_carrier_new.
  simpl. destruct (op_stack y) eqn:E; destruct o; try done; simpl;
    rewrite (proj2 (Z.ltb_ge _ _)) by (specialize (Hc eq_refl); lia); by rewrite ?E.
Qed.

Lemma round_op s gap o text :
  reads (at_pos s) (gap ++ op_name o ++ text) -> spaces gap = true ->
  first_op (op_name o ++ text) = Some o ->
  (par_level s = 0 -> o = operator_par_open) -> 0 <= par_level s ->
  (o = operator_sub -> prev_was_op s = false /\ carriers (yard s) <> []) ->
  exists p, reads p text /\
    interpret_round alloc s
    = Ret (let '(level, y) := shunted (TOp o) (par_level s, yard s) in
           let s := mk_interp y level true (S (allocs s)) p in
           if level =? 0 then Break s else Continue s).
Proof using Halloc.
  intros [Hp Hr] Hg Hf Hpar Hlevel Hsub.
  destruct (token_head (TOp o) text I) as (c & l & Hcl & Hc). cbn [token_name] in Hcl.
  rewrite Hcl in Hr. destruct (skip_spec _ gap c l Hp Hr Hg Hc) as (q & Hq & Hqw & Hqr & Heof).
  rewrite <-Hcl in Hqr. destruct (advance q (op_name o) text Hqw Hqr) as [Hw Hr'].
  exists (forward (length (op_name o)) q). split; [done|].
  unfold interpret_round. rewrite Hq, bind_ret. cbn [at_pos]. rewrite Heof.
  rewrite parse_op_spec, Hqr, Hf, bind_ret by done. cbn [par_level prev_was_op yard].
  destruct (Z.eqb_spec (par_level s) 0) as [E|E].
  - rewrite (Hpar E). cbn [andb negb]. rewrite bool_decide_true by done. cbn [negb].
    rewrite bool_decide_false by done. cbn [andb]. unfold interpret_op.
    cbn [allocs par_level yard]. rewrite Halloc, shunt_op_shunted by done. by rewrite bind_ret.
  - cbn [andb]. assert (bool_decide (o = operator_sub) &&
      (prev_was_op s || (length (carriers (yard s)) =? 0)%nat) = false) as ->.
    { destruct (decide (o = operator_sub)) as [->|Hn]; [|by rewrite bool_decide_false].
      destruct (Hsub eq_refl) as [-> Hne]. rewrite bool_decide_true by done. cbn [andb orb].
      apply Nat.eqb_neq. by destruct (carriers (yard s)). }
    unfold interpret_op. cbn [allocs par_level yard].
    rewrite Halloc, shunt_op_shunted by (intros ->; lia). rewrite bind_ret. cbn [Z.eqb negb].
    by destruct (shunted (TOp o) (par_level s, yard s)).
Qed.

Lemma first_op_value l text :
  literal_ok l ->
  first_op (chars l ++ text) = match l with Neg _ => Some operator_sub | _ => None end.
Proof.
  intros (_ & Hl). destruct l as [ds|x ds|ds|n]; [|done..]. destruct Hl as [Hne Hds].
  destruct ds as [|d ds]; [done|]. apply andb_true_iff in Hds as [Hd%in_range_spec _].
  cbn [chars app]. unfold first_op, operators. cbn [List.find op_name prefix_by].
  by rewrite !(proj2 (Z.eqb_neq _ d)) by lia.
Qed.

Lemma slength_between a n :
  0 < n < 2 ^ 32 -> rrr_length_from_slength_sub_bug_const (a + n - 1) a = Ret (n - 1).
Proof.
  intros Hn. unfold rrr_length_from_slength_sub_bug_const, s64, RRR_LENGTH_MAX.
  rewrite (proj2 (Z.ltb_ge _ _)) by lia. replace (a + n - 1 - a) with (n - 1) by lia.
  rewrite Z.mod_small by lia. rewrite (proj2 (Z.ltb_ge _ _)) by lia.
  rewrite wrap_small by lia. f_equal. lia.
Qed.

Lemma shunt_value_spec y v text :
  (0 < length v < 64)%nat ->
  rrr_condition_shunting_yard_shunt_value true y (v ++ text) (Z.of_nat (length v))
  = Ret (0, mk_yard (carriers y ++ [mk_carrier None v]) (op_stack y)).
Proof.
  intros Hv. unfold rrr_condition_shunting_yard_shunt_value, rrr_condition_shunting_yard_carrier_new.
  cbn [negb]. unfold RRR_CONDITION_VALUE_MAX. rewrite (proj2 (Z.ltb_ge _ _)) by lia.
  rewrite (proj2 (Z.ltb_lt _ _)) by lia. unfold copy_out, slice. change (0 <? 0) with false.
  rewrite length_app, (proj2 (Z.ltb_ge _ _)) by lia. cbn [orb]. rewrite !bind_ret.
  by rewrite Nat2Z.id, drop_0, take_app_length.
Qed.

Lemma interpret_value_spec s q l text :
  reads q (chars l ++ text) -> literal_ok l -> literal_ends l text ->
  exists p, reads p text /\
    interpret_value alloc s q
    = Ret (Continue (mk_interp (mk_yard (carriers (yard s) ++ [mk_carrier None (chars l)])
        (op_stack (yard s))) (par_level s) false (S (allocs s)) p)).
Proof using Halloc.
  intros [Hq Hr] Hl He. destruct (token_head (TVal l) text Hl) as (c & k & Hck & Hc).
  cbn [token_name] in Hck. destruct (advance q (chars l) text Hq Hr) as [Hw Hr'].
  exists (forward (length (chars l)) q). split; [done|]. unfold interpret_value.
  rewrite Hck in Hr. destruct (skip_none q c k Hq Hr Hc) as [-> Heof]. rewrite bind_ret, Heof.
  rewrite <-Hck in Hr. rewrite (parse_value_spec q l text), bind_ret by done.
  assert (0 < length (chars l))%nat as Hpos.
  { destruct l as [ds|x ds|ds|n]; simpl; try lia. destruct Hl as (_ & Hne & _).
    destruct ds; [done|simpl; lia]. }
  assert (length (chars l) < 64)%nat as Hmax by apply Hl.
  rewrite slength_between, bind_ret by lia. unfold rrr_length_inc_bug_const, rrr_length_inc_bug.
  rewrite wrap_small by lia. replace (Z.of_nat (length (chars l)) - 1 + 1)
    with (Z.of_nat (length (chars l))) by lia.
  rewrite (proj2 (Z.eqb_neq _ 0)), !bind_ret by lia.
  cbn [forward set_pos data]. rewrite <-(take_drop (Z.to_nat (size q - pos q)) (drop _ _)).
  fold (rest q). rewrite Hr, Halloc, <-app_assoc, shunt_value_spec by lia. done.
Qed.

Lemma round_val s gap l text :
  reads (at_pos s) (gap ++ chars l ++ text) -> spaces gap = true ->
  literal_ok l -> literal_ends l text -> par_level s <> 0 ->
  match l with Neg _ => prev_was_op s = true | _ => True end ->
  exists p, reads p text /\
    interpret_round alloc s
    = Ret (Continue (mk_interp (shunted (TVal l) (par_level s, yard s)).2 (par_level s) false
        (S (allocs s)) p)).
Proof using Halloc.
  intros [Hp Hr] Hg Hl He Hlevel Hneg.
  destruct (token_head (TVal l) text Hl) as (c & k & Hck & Hc). cbn [token_name] in Hck.
  rewrite Hck in Hr. destruct (skip_spec _ gap c k Hp Hr Hg Hc) as (q & Hq & Hqw & Hqr & Heof).
  rewrite <-Hck in Hqr.
  destruct (interpret_value_spec (mk_interp (yard s) (par_level s) (prev_was_op s) (allocs s) q)
    q l text) as (p & Hp' & Hv); [done..|]. exists p. split; [done|].
  unfold interpret_round. rewrite Hq, bind_ret. cbn [at_pos]. rewrite Heof.
  rewrite parse_op_spec, Hqr, first_op_value, bind_ret by done. cbn [par_level prev_was_op yard].
  rewrite (proj2 (Z.eqb_neq _ 0)) by done. cbn [andb].
  destruct l as [ds|x ds|ds|n]; try exact Hv. rewrite Hneg.
  rewrite bool_decide_true by done. cbn [andb orb forward set_pos pos].
  assert (set_pos (u32 (pos q + Z.of_nat (length (op_name operator_sub)) - 1))
    (forward (length (op_name operator_sub)) q) = q) as ->; [|exact Hv].
  pose proof (pos_wrap_add q 1 Hqw) as Hwrap. change (Z.of_nat 1) with 1 in Hwrap.
  change (Z.of_nat (length (op_name operator_sub))) with 1. rewrite Hwrap. by destruct q.
Qed.

Definition is_op (t : token) : bool := match t with TOp _ => true | TVal _ => false end.

(** A minus after a value is an operator, and one after an operator a sign. *)
Fixpoint readable (prev : bool) (ts : list token) : Prop :=
  match ts with
  | [] => True
  | t :: ts =>
    match t with
    | TOp operator_sub => prev = false
    | TVal (Neg _) => prev = true
    | _ => True
    end /\ readable (is_op t) ts
  end.

Definition level_after (t : token) (level : Z) : Z :=
  match t with
  | TOp operator_par_open => level + 1
  | TOp operator_par_close => level - 1
  | _ => level
  end.

(** No token closes the outermost parenthesis. *)
Fixpoint stays (level : Z) (ts : list token) : Prop :=
  match ts with
  | [] => True
  | t :: ts => 1 <= level_after t level /\ stays (level_after t level) ts
  end.

Lemma shunted_level t level y : (shunted t (level, y)).1 = level_after t level.
Proof. by destruct t as [[]|]. Qed.

Lemma not_eof p text c l : reads p text -> text = c :: l -> RRR_PARSE_CHECK_EOF p = false.
Proof. intros [Hp Hr] E. rewrite E in Hr. by eapply rest_cons. Qed.

Lemma gap_not_eof p gap t text :
  reads p (gap ++ token_name t ++ text) -> match t with TVal l => literal_ok l | _ => True end ->
  RRR_PARSE_CHECK_EOF p = false.
Proof.
  intros Hp Ht. destruct (token_head t text Ht) as (c & l & E & _). rewrite E in Hp.
  destruct gap as [|g gap]; by eapply not_eof.
Qed.

Lemma loop_tokens ts text r s k :
  lexes ts text r -> reads (at_pos s) text -> readable (prev_was_op s) ts ->
  stays (par_level s) ts -> 1 <= par_level s ->
  (prev_was_op s = false -> carriers (yard s) <> []) ->
  exists s', interpret_loop (length ts + k) alloc s = interpret_loop k alloc s'
    /\ reads (at_pos s') r /\ (par_level s', yard s') = run ts (par_level s, yard s).
Proof using Halloc.
  intros Hlex. revert s. induction Hlex as [r|gap o text ts r Hg Hf _ IH|gap l text ts r Hg Hl He _ IH];
    intros s Hs Hread Hstay Hlevel Hprev; [by exists s|..];
    cbn [readable stays] in Hread, Hstay; destruct Hread as [Ht Hread], Hstay as [Hlv Hstay];
    cbn [length Nat.add interpret_loop].
  - rewrite (gap_not_eof _ gap (TOp o) text) by done.
    destruct (round_op s gap o text) as (p & Hp & ->); [done|done|done|lia|lia| |].
    { intros ->. auto. }
    rewrite bind_ret. pose proof (shunted_level (TOp o) (par_level s) (yard s)) as Hsl.
    cbn [run fold_left]. change (fold_left _ ts ?x) with (run ts x).
    destruct (shunted (TOp o) (par_level s, yard s)) as [level y]. cbn [fst] in Hsl. subst level.
    rewrite (proj2 (Z.eqb_neq _ 0)) by lia.
    destruct (IH (mk_interp y (level_after (TOp o) (par_level s)) true (S (allocs s)) p))
      as (s' & Hloop & Hr & Hrun); [done..|]. by exists s'.
  - rewrite (gap_not_eof _ gap (TVal l) text) by done.
    destruct (round_val s gap l text) as (p & Hp & ->); [done..|lia|by destruct l|].
    rewrite bind_ret. cbn [run fold_left]. change (fold_left _ ts ?x) with (run ts x).
    destruct (IH (mk_interp (shunted (TVal l) (par_level s, yard s)).2 (par_level s) false
      (S (allocs s)) p)) as (s' & Hloop & Hr & Hrun); [done..| |by exists s'].
    intros _ E. cbn in E. by destruct (carriers (yard s)).
Qed.

(** The tokens of an expression. *)

Lemma lexes_app ts us text r :
  lexes (ts ++ us) text r -> exists mid, lexes ts text mid /\ lexes us mid r.
Proof.
  revert text. induction ts as [|t ts IH]; intros text H; [exists text; eauto using lexes_nil|].
  inversion H; subst; edestruct IH as (mid & ? & ?); eauto; exists mid; eauto using lexes_op, lexes_val.
Qed.

Definition levels (ts : list token) (level : Z) : Z := fold_left (fun l t => level_after t l) ts level.

Lemma stays_app level ts us :
  stays level ts -> stays (levels ts level) us -> stays level (ts ++ us).
Proof.
  revert level. induction ts as [|t ts IH]; intros level; [done|]. simpl. intros [? ?] ?. auto.
Qed.

Lemma levels_app ts us level : levels (ts ++ us) level = levels us (levels ts level).
Proof. apply fold_left_app. Qed.

Lemma binary_level o level : binary o = true -> level_after (TOp o) level = level.
Proof. by destruct o. Qed.

Lemma stays_expr e level :
  expr_ok e -> 1 <= level -> stays level (tokens e) /\ levels (tokens e) level = level.
Proof.
  revert level. induction e as [l|e IH|e IH|o l IHl r IHr]; intros level He Hl; cbn [expr_ok tokens] in *.
  - done.
  - destruct (IH (level + 1)) as [H1 H2]; [done|lia|].
    split.
    + split; [simpl; lia|]. apply stays_app; [done|]. cbn [level_after]. rewrite H2. simpl. lia.
    + cbn [levels fold_left level_after]. change (fold_left _ ?ts ?x) with (levels ts x).
      rewrite levels_app, H2. simpl. lia.
  - destruct (IH level) as [H1 H2]; [tauto|done|]. done.
  - destruct He as (Hel & Her & Hb & _). destruct (IHl level) as [H1 H2]; [done..|].
    destruct (IHr level) as [H3 H4]; [done..|]. split.
    + apply stays_app; [done|]. rewrite H2. cbn [stays]. by rewrite binary_level.
    + rewrite levels_app, H2. cbn [levels fold_left]. by rewrite binary_level.
Qed.

Definition prev_after (prev : bool) (ts : list token) : bool := fold_left (fun _ t => is_op t) ts prev.

Lemma readable_app prev ts us :
  readable prev ts -> readable (prev_after prev ts) us -> readable prev (ts ++ us).
Proof.
  revert prev. induction ts as [|t ts IH]; intros prev; [done|]. cbn [readable app].
  intros [? ?] ?. auto.
Qed.

Lemma prev_after_app prev ts us : prev_after prev (ts ++ us) = prev_after (prev_after prev ts) us.
Proof. apply fold_left_app. Qed.

Lemma readable_expr e :
  expr_ok e -> readable true (tokens e) /\ prev_after true (tokens e) = negb (ends_in_value e).
Proof.
  induction e as [l|e IH|e IH|o l IHl r IHr]; intros He; cbn [expr_ok tokens ends_in_value] in *.
  - split; [|done]. by destruct l.
  - destruct (IH He) as [H1 H2]. split; [|by rewrite app_comm_cons, prev_after_app].
    split; [done|]. by apply readable_app.
  - destruct (IH ltac:(tauto)) as [H1 H2]. done.
  - destruct He as (Hel & Her & _ & _ & _ & Hsub).
    destruct (IHl Hel) as [H1 H2], (IHr Her) as [H3 H4]. split.
    + apply readable_app; [done|]. rewrite H2. split; [|done].
      destruct o; try done. by rewrite Hsub.
    + by rewrite prev_after_app.
Qed.

Lemma sum_of_app f l k : sum_of f (l ++ k) = sum_of f l + sum_of f k.
Proof.
  unfold sum_of. rewrite fold_left_app. generalize (fold_left (fun n c => n + f c) l 0).
  induction k as [|c k IH] using rev_ind; intros n; [simpl; lia|].
  rewrite !fold_left_app. simpl. rewrite IH. lia.
Qed.

Lemma postfix_counts e :
  expr_ok e -> postfix e <> [] /\ sum_of count_value (postfix e) - sum_of count_op (postfix e) = 1.
Proof.
  induction e as [l|e IH|e IH|o l IHl r IHr]; intros He; cbn [expr_ok postfix] in *.
  - done.
  - auto.
  - destruct IH as [H1 H2]; [tauto|]. split; [by destruct (postfix e)|].
    rewrite !sum_of_app. change (sum_of count_value [op_carrier operator_bw_not]) with 0.
    change (sum_of count_op [op_carrier operator_bw_not]) with 0. lia.
  - destruct He as (Hl & Hr & Hb & _). destruct (IHl Hl) as [H1 H2], (IHr Hr) as [H3 H4].
    split; [by destruct (postfix l)|]. rewrite !sum_of_app.
    assert (sum_of count_value [op_carrier o] = 0 /\ sum_of count_op [op_carrier o] = 1) as [-> ->]
      by by destruct o. lia.
Qed.

Lemma lexes_length ts text r : lexes ts text r -> (length ts + length r <= length text)%nat.
Proof.
  induction 1 as [r|gap o text ts r _ _ _ IH|gap l text ts r _ Hl _ _ IH]; cbn [length]; [lia|..];
    rewrite !length_app.
  - destruct o; cbn [op_name length]; lia.
  - destruct l as [ds|x ds|ds|n]; cbn [chars length] in *; try lia.
    destruct Hl as (_ & Hne & _). destruct ds; [done|]. cbn [length]. lia.
Qed.

(** The text of an expression in parentheses becomes its postfix form, and what
    follows it is left. *)
Lemma interpret_spec e text r p :
  expr_ok e -> lexes (tokens (Par e)) text r -> reads p text ->
  exists p', rrr_condition_interpret alloc empty_yard p = Ret (0, mk_yard (postfix e) [], p')
    /\ reads p' r.
Proof using Halloc.
  intros He Hlex Hp. pose proof (lexes_length _ _ _ Hlex) as Hlen. cbn [tokens length] in Hlen.
  rewrite length_app in Hlen. cbn [length] in Hlen. cbn [tokens] in Hlex.
  inversion Hlex as [|gap o text1 ts r' Hg Hf Hlex1|]; subst; clear Hlex.
  apply lexes_app in Hlex1 as (mid & Hlex1 & Hlex2).
  inversion Hlex2 as [|gap2 o2 text2 ts2 r2 Hg2 Hf2 Hlex3|]; subst; clear Hlex2.
  inversion Hlex3; subst. unfold rrr_condition_interpret.
  pose proof (length_rest p (proj1 Hp)) as Hsize. rewrite (proj2 Hp) in Hsize. rewrite <-Hsize, Nat2Z.id.
  cbn [interpret_loop at_pos]. rewrite (gap_not_eof p gap (TOp operator_par_open) text1) by done.
  destruct (round_op (mk_interp empty_yard 0 false 0 p) gap operator_par_open text1)
    as (p1 & Hp1 & ->); [done..|]. rewrite bind_ret. cbn [shunted par_level yard].
  change (0 + 1 =? 0) with false. cbv iota.
  destruct (stays_expr e 1) as [Hstay _]; [done|lia|]. destruct (readable_expr e He) as [Hread _].
  set (s1 := mk_interp _ _ _ _ p1).
  set (n := length (gap ++ op_name operator_par_open ++ text1)) in *.
  replace n with (length (tokens e) + S (n - length (tokens e) - 1))%nat by lia.
  destruct (loop_tokens (tokens e) text1 _ s1 (S (n - length (tokens e) - 1)) Hlex1)
    as (s2 & -> & Hs2 & Hrun); [done..|]. cbn in Hrun.
  rewrite run_expr in Hrun by (done || by left). injection Hrun as Hlv Hyd.
  cbn [interpret_loop]. rewrite (gap_not_eof (at_pos s2) gap2 (TOp operator_par_close) r) by done.
  destruct (round_op s2 gap2 operator_par_close r) as (p2 & Hp2 & ->); [done..|lia|lia|done|].
  rewrite bind_ret, Hlv, Hyd. cbn [shunted carriers op_stack].
  rewrite close_pops by (eapply Forall_impl; [|by apply pending_prio]; simpl; lia).
  cbn [app]. rewrite flushed_pending. change (0 + 1 - 1 =? 0) with true. cbv beta iota zeta. rewrite bind_ret.
  cbn [par_level yard carriers op_stack Z.eqb negb at_pos].
  destruct (postfix_counts e He) as [Hne Hcount]. exists p2. split; [|done].
  destruct (postfix e) as [|c l] eqn:E; [done|]. rewrite bind_ret. cbn [Z.eqb negb].
  unfold rrr_condition_shunting_yard_finalize. cbn [op_stack carriers]. rewrite Hcount. done.
Qed.

End rounds.

(** * Numbers *)

Definition number (base : Z) (ds : list Z) : Z :=
  fold_left (fun n c => n * base + default 0 (digit_value base c)) ds 0.

Lemma digits_spec base acc n ds :
  Forall (fun c => is_Some (digit_value base c)) ds ->
  digits base acc n ds
  = (fold_left (fun n c => n * base + default 0 (digit_value base c)) ds acc, (n + length ds)%nat, []).
Proof.
  intros Hds. revert acc n. induction Hds as [|c ds [d Hd] _ IH]; intros acc n; simpl.
  - by rewrite Nat.add_0_r.
  - rewrite Hd, IH. simpl. f_equal. f_equal. lia.
Qed.

Lemma digit_dec c : is_dec c = true -> is_Some (digit_value 10 c).
Proof.
  unfold is_dec, digit_value. intros H. rewrite H. apply in_range_spec in H.
  rewrite (proj2 (Z.ltb_lt _ _)) by lia. eauto.
Qed.

Lemma digit_hex c : RRR_PARSE_MATCH_C_HEX c = true -> is_Some (digit_value 16 c).
Proof.
  unfold RRR_PARSE_MATCH_C_HEX, digit_value. rewrite !orb_true_iff, !in_range_spec. intros H.
  destruct (in_range 48 57 c) eqn:E1; [|destruct (in_range 97 122 c) eqn:E2;
    [|destruct (in_range 65 90 c) eqn:E3]]; rewrite ?in_range_spec in *.
  - rewrite (proj2 (Z.ltb_lt _ _)) by lia. eauto.
  - rewrite (proj2 (Z.ltb_lt _ _)); [eauto|]. assert (~ 48 <= c <= 57); [|lia].
    rewrite <-in_range_spec. congruence.
  - rewrite (proj2 (Z.ltb_lt _ _)); [eauto|]. assert (~ 48 <= c <= 57 /\ ~ 97 <= c <= 122); [|lia].
    rewrite <-!in_range_spec. split; congruence.
  - exfalso. assert (~ 48 <= c <= 57 /\ ~ 97 <= c <= 122 /\ ~ 65 <= c <= 90); [|lia].
    rewrite <-!in_range_spec. split_and!; congruence.
Qed.

(** A digit is neither space nor sign. *)
Lemma strto_digits base (f : Z -> bool) ds :
  (forall c, f c = true -> 48 <= c < 123 /\ c <> 120 /\ c <> 88 /\ is_Some (digit_value base c)) ->
  ds <> [] -> forallb f ds = true ->
  strto base ds = (false, number base ds, []) /\ strto base (45 :: ds) = (true, number base ds, []).
Proof.
  intros Hf Hne Hds. assert (Forall (fun c => is_Some (digit_value base c)) ds) as Hall.
  { apply Forall_forall. intros c Hc. apply Hf. eapply forallb_forall in Hds; done. }
  assert (skip_hex base ds = ds) as Hhex.
  { destruct ds as [|z [|x [|c ds]]]; try done. cbn [forallb] in Hds.
    apply andb_true_iff in Hds as [_ [Hx _]%andb_true_iff]. destruct (Hf x Hx) as (_ & H1 & H2 & _).
    cbn [skip_hex]. rewrite !(proj2 (Z.eqb_neq x _)), andb_false_r by done. done. }
  destruct ds as [|d ds]; [done|]. cbn [forallb] in Hds. apply andb_true_iff in Hds as [Hd _].
  destruct (Hf d Hd) as (Hr & _). unfold strto. split.
  - cbn [skip_spaces]. assert (is_space d = false) as ->.
    { unfold is_space. rewrite (proj2 (Z.eqb_neq _ _)) by lia. apply andb_false_iff. right.
      apply Z.leb_gt. lia. }
    cbn [skip_sign]. rewrite !(proj2 (Z.eqb_neq d _)) by lia. rewrite Hhex, digits_spec by done. done.
  - change (skip_sign (skip_spaces (45 :: d :: ds))) with (true, d :: ds). cbv iota beta.
    by rewrite Hhex, digits_spec.
Qed.

(** * Evaluation *)

Section evaluate.
Context (callback : list Z -> Z * Z * bool).

(** The number of a literal: out of range, the nearest one. *)
Definition literal_value (l : literal) : Z * rrr_condition_running_result :=
  match l with
  | Dec ds => (0, mk_result (Z.min (number 10 ds) (2 ^ 64 - 1)) false true)
  | Hex _ ds => (0, mk_result (Z.min (number 16 ds) (2 ^ 64 - 1)) false true)
  | Neg ds => (0, mk_result (u64 (Z.max (- 2 ^ 63) (- number 10 ds))) true true)
  | Name n => let '(ret, v, signed) := callback n in (ret, mk_result v signed true)
  end.

Lemma number_nonneg base ds : 0 <= base -> 0 <= number base ds.
Proof.
  intros Hb. unfold number. assert (forall n, 0 <= n ->
    0 <= fold_left (fun n c => n * base + default 0 (digit_value base c)) ds n) as H; [|by apply H].
  induction ds as [|c ds IH]; intros n Hn; [done|]. simpl. apply IH.
  assert (0 <= default 0 (digit_value base c)); [|nia].
  unfold digit_value. repeat (case_match; simpl; try lia);
    rewrite ?in_range_spec in *; simplify_eq; lia.
Qed.

Lemma saturate v : (if 2 ^ 64 - 1 <? v then 2 ^ 64 - 1 else v) = Z.min v (2 ^ 64 - 1).
Proof. destruct (Z.ltb_spec (2 ^ 64 - 1) v); lia. Qed.

Lemma evaluate_value_spec l :
  literal_ok l -> rrr_condition_evaluate_value callback (chars l) = literal_value l.
Proof.
  assert (forall c, is_dec c = true ->
    48 <= c < 123 /\ c <> 120 /\ c <> 88 /\ is_Some (digit_value 10 c)) as Hdec.
  { intros c Hc. pose proof (digit_dec c Hc). apply in_range_spec in Hc. split_and!; auto; lia. }
  assert (forall c, RRR_PARSE_MATCH_C_HEX c = true ->
    48 <= c < 123 /\ c <> 120 /\ c <> 88 /\ is_Some (digit_value 16 c)) as Hhex.
  { intros c Hc. pose proof (digit_hex c Hc). unfold RRR_PARSE_MATCH_C_HEX in Hc.
    rewrite !orb_true_iff, !in_range_spec in Hc. split_and!; auto; lia. }
  intros (_ & Hl). unfold rrr_condition_evaluate_value, strtoull, strtoll.
  destruct l as [ds|x ds|ds|n]; cbn [chars literal_value].
  - destruct Hl as [Hne Hds]. destruct (strto_digits 10 is_dec ds Hdec Hne Hds) as [-> _].
    destruct ds as [|d ds]; [done|]. cbn [forallb] in Hds. apply andb_true_iff in Hds as [Hd Hds].
    destruct (Hdec d Hd) as (Hr & _). assert (d < 58) by (apply in_range_spec in Hd; lia). cbn [nth].
    rewrite (proj2 (Z.eqb_neq d 123)), (proj2 (Z.eqb_neq d 45)) by lia.
    assert ((nth 0 ds 0 =? 120) || (nth 0 ds 0 =? 88) = false) as ->.
    { destruct ds as [|d' ds]; [done|]. cbn [forallb] in Hds. apply andb_true_iff in Hds as [Hd' _].
      destruct (Hdec d' Hd') as (_ & ? & ? & _). cbn [nth]. by rewrite !(proj2 (Z.eqb_neq d' _)). }
    rewrite andb_false_r, saturate. done.
  - destruct Hl as (Hx & Hne & Hds).
    destruct (strto_digits 16 RRR_PARSE_MATCH_C_HEX ds Hhex Hne Hds) as [Hs _]. cbn [nth drop].
    rewrite drop_0, Hs. assert ((x =? 120) || (x =? 88) = true) as -> by by destruct Hx as [->| ->].
    cbn [Z.eqb Pos.eqb andb]. by rewrite saturate.
  - destruct Hl as (Hne & Hds). destruct (strto_digits 10 is_dec ds Hdec Hne Hds) as [_ ->].
    cbn [nth]. change (45 =? 123) with false. change (45 =? 48) with false. cbn [andb].
    change (45 =? 45) with true. cbv iota. cbn [at_end]. pose proof (number_nonneg 10 ds ltac:(lia)).
    do 3 f_equal. lia.
  - cbn [nth]. change (123 =? 123) with true. cbv iota.
    unfold rrr_condition_extract_name. cbn [length]. rewrite length_app. cbn [length].
    replace (S (length n + 1) - 1)%nat with (S (length n)) by lia.
    cbn [take]. rewrite take_app_length. cbn [drop]. by rewrite drop_0.
Qed.

(** The value of an expression: a status, and the number and whether it is
    signed when that is 0. *)
Fixpoint eval (e : expr) : outcome (Z * rrr_condition_running_result) :=
  match e with
  | Val l => Ret (literal_value l)
  | Par e => eval e
  | Not e =>
    '(ret, b) ← eval e;
    if negb (ret =? 0) then Ret (ret, b) else
    '(ret, z, signed) ← evaluate_operands None b operator_bw_not;
    Ret (ret, mk_result z signed true)
  | Bin o l r =>
    '(ret, a) ← eval l;
    if negb (ret =? 0) then Ret (ret, a) else
    '(ret, b) ← eval r;
    if negb (ret =? 0) then Ret (ret, b) else
    '(ret, z, signed) ← evaluate_operands (Some a) b o;
    Ret (ret, mk_result z signed true)
  end.

Fixpoint has_operator (e : expr) : bool :=
  match e with Val _ => false | Par e => has_operator e | Not _ | Bin _ _ _ => true end.

(** Results that are used up. *)
Definition used (l : list rrr_condition_running_result) : Prop :=
  Forall (fun r => is_evaluated r = false) l.

(** The results are a stack, with used results anywhere in it. *)
Inductive stacked : list rrr_condition_running_result -> list rrr_condition_running_result -> Prop :=
| stacked_nil dead : used dead -> stacked dead []
| stacked_cons rs st r dead :
    stacked rs st -> is_evaluated r = true -> used dead -> stacked (rs ++ r :: dead) (r :: st).

Lemma find_used n rs dead more singular b a :
  used dead -> n = length (rs ++ dead) -> a = None -> (singular = true -> b = None) ->
  find_operands n singular (rs ++ dead ++ more) b a
  = find_operands (length rs) singular (rs ++ dead ++ more) b a.
Proof.
  intros Hd -> -> Hb. revert more. induction dead as [|r dead IH] using rev_ind; intros more.
  { by rewrite app_nil_r. }
  apply Forall_app in Hd as [Hd [Hr _]%Forall_cons_1].
  assert ((rs ++ (dead ++ [r]) ++ more) !! length (rs ++ dead) = Some r) as Hlook
    by (rewrite <-app_assoc, app_assoc; by apply list_lookup_middle).
  replace (length (rs ++ dead ++ [r])) with (S (length (rs ++ dead)))
    by (rewrite !length_app; simpl; lia).
  cbn [find_operands]. rewrite Hlook, Hr. rewrite <-app_assoc, IH by done.
  destruct b; [|done]. destruct singular; [|done]. by discriminate Hb.
Qed.

Lemma find_first rs r dead singular :
  is_evaluated r = true -> used dead ->
  find_operands (length (rs ++ r :: dead)) singular (rs ++ r :: dead) None None
  = if singular then (Some (length rs), None)
    else find_operands (length rs) false (rs ++ r :: dead) (Some (length rs)) None.
Proof.
  intros Hr Hd. pose proof (find_used (length (rs ++ r :: dead)) (rs ++ [r]) dead [] singular None None) as H.
  rewrite app_nil_r, <-!app_assoc in H. cbn [app] in H. rewrite H by done. clear H.
  rewrite length_app. cbn [length]. rewrite Nat.add_1_r. cbn [find_operands].
  rewrite list_lookup_middle, Hr by done. by destruct singular.
Qed.

Lemma find_second rs r mid more j :
  is_evaluated r = true -> used mid ->
  find_operands (length (rs ++ r :: mid)) false (rs ++ r :: mid ++ more) (Some j) None
  = (Some j, Some (length rs)).
Proof.
  intros Hr Hd.
  pose proof (find_used (length (rs ++ r :: mid)) (rs ++ [r]) mid more false (Some j) None) as H.
  rewrite <-!app_assoc in H. cbn [app] in H. rewrite H by done. clear H.
  rewrite length_app. cbn [length]. rewrite Nat.add_1_r. cbn [find_operands].
  by rewrite list_lookup_middle, Hr by done.
Qed.

Lemma alter_middle (f : rrr_condition_running_result -> rrr_condition_running_result) rs r k :
  alter f (length rs) (rs ++ r :: k) = rs ++ f r :: k.
Proof. induction rs as [|x rs IH]; [done|]. simpl. f_equal. apply IH. Qed.

Lemma stacked_used rs st dead : stacked rs st -> used dead -> stacked (rs ++ dead) st.
Proof.
  intros H Hd. destruct H as [d Hd'|rs st r d Hs Hr Hd'].
  - constructor. by apply Forall_app.
  - rewrite <-app_assoc. cbn [app]. constructor; [done..|]. by apply Forall_app.
Qed.

Lemma middle_not_empty (rs : list rrr_condition_running_result) b k :
  (length (rs ++ b :: k) =? 0)%nat = false.
Proof. apply Nat.eqb_neq. rewrite length_app. simpl. lia. Qed.

Lemma evaluate_singular rs b st :
  stacked rs (b :: st) -> exists rs', stacked rs' st /\
    rrr_condition_evaluate_op operator_bw_not rs
    = '(ret, z, signed) ← evaluate_operands None b operator_bw_not;
      if negb (ret =? 0) then Ret (ret, 0, rs) else Ret (0, z, rs' ++ [mk_result z signed true]).
Proof.
  intros H. inversion H as [|rs0 st' b' dead Hs Hb Hd]; subst.
  exists (rs0 ++ clear_evaluated b :: dead). split; [apply stacked_used; [done|by constructor]|].
  unfold rrr_condition_evaluate_op. rewrite middle_not_empty, find_first by done.
  change (prio operator_bw_not =? RRR_CONDITION_PRIORITY_SINGULAR) with true. cbv iota beta.
  by rewrite list_lookup_middle, alter_middle by done.
Qed.

Lemma alter_both (f : rrr_condition_running_result -> rrr_condition_running_result) rs a d b k :
  alter f (length (rs ++ a :: d)) (alter f (length rs) (rs ++ a :: d ++ b :: k))
  = rs ++ (f a :: d) ++ f b :: k.
Proof.
  rewrite alter_middle. replace (length (rs ++ a :: d)) with (length (rs ++ f a :: d))
    by (by rewrite !length_app).
  change (rs ++ f a :: d ++ b :: k) with (rs ++ (f a :: d) ++ b :: k).
  by rewrite app_assoc, alter_middle, <-app_assoc.
Qed.

Lemma evaluate_binary o rs a b st :
  binary o = true -> stacked rs (b :: a :: st) -> exists rs', stacked rs' st /\
    rrr_condition_evaluate_op o rs
    = '(ret, z, signed) ← evaluate_operands (Some a) b o;
      if negb (ret =? 0) then Ret (ret, 0, rs) else Ret (0, z, rs' ++ [mk_result z signed true]).
Proof.
  intros Ho H. inversion H as [|rs0 st' b' d2 H0 Hb Hd2]; subst.
  inversion H0 as [|rs1 st' a' d1 Hs Ha Hd1]; subst.
  exists (rs1 ++ (clear_evaluated a :: d1) ++ clear_evaluated b :: d2).
  split; [apply stacked_used; [done|]; apply Forall_app; split; by constructor|].
  unfold rrr_condition_evaluate_op. rewrite middle_not_empty, find_first by done.
  assert ((prio o =? RRR_CONDITION_PRIORITY_SINGULAR) = false) as -> by by destruct o.
  rewrite <-(app_assoc rs1). cbn [app]. rewrite find_second by done.
  rewrite (app_comm_cons d1), (app_assoc rs1), list_lookup_middle by done.
  cbn [mbind option_bind]. rewrite <-app_assoc. cbn [app]. rewrite list_lookup_middle by done.
  by rewrite alter_both.
Qed.

(** Evaluating the postfix form puts the value on the stack. *)
Definition evaluates (e : expr) : Prop := forall rest last rs st, stacked rs st ->
  match eval e with
  | Ret (ret, v) =>
    is_evaluated v = true /\
    if ret =? 0 then exists rs', stacked rs' (v :: st) /\
      evaluate_loop callback (postfix e ++ rest) last rs
      = evaluate_loop callback rest (if has_operator e then result v else last) rs'
    else exists z, evaluate_loop callback (postfix e ++ rest) last rs = Ret (ret, z)
  | Bug => evaluate_loop callback (postfix e ++ rest) last rs = Bug
  | Oob => evaluate_loop callback (postfix e ++ rest) last rs = Oob
  end.

Lemma stacked_snoc rs st r :
  stacked rs st -> is_evaluated r = true -> stacked (rs ++ [r]) (r :: st).
Proof. intros. apply stacked_cons; [done..|constructor]. Qed.

(** What an operator leaves. *)
Lemma operator_done (m : outcome (Z * Z * bool)) rest last rs rs' st :
  stacked rs' st ->
  let loop :=
    '(ret, z, results) ← ('(ret, z, signed) ← m;
      if negb (ret =? 0) then Ret (ret, 0, rs) else Ret (0, z, rs' ++ [mk_result z signed true]));
    if negb (ret =? 0) then Ret (ret, last) else evaluate_loop callback rest z results in
  match '(ret, z, signed) ← m; Ret (ret, mk_result z signed true) with
  | Ret (ret, v) =>
    is_evaluated v = true /\
    if ret =? 0 then exists rs', stacked rs' (v :: st) /\ loop = evaluate_loop callback rest (result v) rs'
    else exists z, loop = Ret (ret, z)
  | Bug => loop = Bug
  | Oob => loop = Oob
  end.
Proof.
  intros Hs. cbv zeta. destruct m as [[[ret z] signed]| |]; [|done..]. rewrite !bind_ret.
  split; [done|]. destruct (ret =? 0) eqn:Er; cbn [negb]; rewrite bind_ret; cbn [Z.eqb negb].
  - exists (rs' ++ [mk_result z signed true]). split; [by apply stacked_snoc|done].
  - rewrite Er. cbn [negb]. eauto.
Qed.

Lemma evaluates_expr e : expr_ok e -> evaluates e.
Proof.
  induction e as [l|e IH|e IH|o l IHl r IHr]; intros He rest last rs st Hs; cbn [expr_ok] in He.
  - cbn [eval postfix app evaluate_loop op value has_operator]. rewrite evaluate_value_spec by done.
    assert (is_evaluated (literal_value l).2 = true) as Hv.
    { destruct l as [ | | |n]; try done. simpl. by destruct (callback n) as [[? ?] ?]. }
    destruct (literal_value l) as [ret v]. split; [done|].
    destruct (ret =? 0); cbn [negb]; [|eauto]. exists (rs ++ [v]). split; [by apply stacked_snoc|done].
  - cbn [eval postfix has_operator]. by apply IH.
  - destruct He as [He _]. cbn [eval postfix has_operator]. rewrite <-app_assoc.
    specialize (IH He ([op_carrier operator_bw_not] ++ rest) last rs st Hs).
    destruct (eval e) as [[ret b]| |]; [|by rewrite IH..]. rewrite bind_ret.
    destruct IH as [Hb IH]. destruct (ret =? 0) eqn:Er; cbn [negb]; [|by rewrite Er].
    destruct IH as (rs1 & Hs1 & ->). cbn [app evaluate_loop op op_carrier].
    destruct (evaluate_singular rs1 b st Hs1) as (rs2 & Hs2 & ->). by apply operator_done.
  - destruct He as (Hel & Her & Ho & _). cbn [eval postfix has_operator]. rewrite <-!app_assoc.
    specialize (IHl Hel (postfix r ++ [op_carrier o] ++ rest) last rs st Hs).
    destruct (eval l) as [[ret a]| |]; [|by rewrite IHl..]. rewrite bind_ret.
    destruct IHl as [Ha IHl]. destruct (ret =? 0) eqn:Er; cbn [negb]; [|by rewrite Er].
    destruct IHl as (rs1 & Hs1 & ->).
    specialize (IHr Her ([op_carrier o] ++ rest) (if has_operator l then result a else last) rs1 (a :: st) Hs1).
    destruct (eval r) as [[ret' b]| |]; [|by rewrite IHr..]. rewrite bind_ret.
    destruct IHr as [Hb IHr]. destruct (ret' =? 0) eqn:Er'; cbn [negb]; [|by rewrite Er'].
    destruct IHr as (rs2 & Hs2 & ->). cbn [app evaluate_loop op op_carrier].
    destruct (evaluate_binary o rs2 a b st Ho Hs2) as (rs3 & Hs3 & ->). by apply operator_done.
Qed.

End evaluate.

(** * What a condition means *)

(** The precedence of C: from the unary operators (2) down to [||] (12). *)
Definition c_precedence (o : rrr_condition_op) : Z :=
  match o with
  | operator_bw_not => 2
  | operator_mul | operator_div => 3
  | operator_add | operator_sub => 4
  | operator_bw_left | operator_bw_right => 5
  | operator_lt | operator_lteq | operator_gt | operator_gteq => 6
  | operator_eq | operator_ne => 7
  | operator_bw_and => 8
  | operator_bw_xor => 9
  | operator_bw_or => 10
  | operator_and | operator_and_word => 11
  | operator_or | operator_or_word => 12
  | operator_par_open | operator_par_close => 0
  end.

Definition c_binary (o : rrr_condition_op) : Prop :=
  match o with operator_bw_not | operator_par_open | operator_par_close => False | _ => True end.

(** An operand binds tighter than the operator, or is in parentheses. *)
Definition tighter (e : expr) (level : Z) : Prop :=
  match e with
  | Val _ | Par _ => True
  | Not _ => c_precedence operator_bw_not < level
  | Bin o _ _ => c_precedence o < level
  end.

(** Expressions whose grouping does not depend on the order of operators of the same
    precedence.  A minus as an operator has a number or a name before it. *)
Fixpoint clear_expr (e : expr) : Prop :=
  match e with
  | Val l => literal_ok l
  | Par e => clear_expr e
  | Not e => clear_expr e /\ (tighter e (c_precedence operator_bw_not) \/ exists e', e = Not e')
  | Bin o l r =>
    clear_expr l /\ clear_expr r /\ c_binary o /\ tighter l (c_precedence o) /\ tighter r (c_precedence o) /\
    (o = operator_sub -> ends_in_value l = true)
  end.

(** Integers of 64 bits, without or with sign. *)
Inductive number_type := U64 | I64.

Definition fits (t : number_type) (z : Z) : bool :=
  match t with
  | U64 => (0 <=? z) && (z <? 2 ^ 64)
  | I64 => (- 2 ^ 63 <=? z) && (z <? 2 ^ 63)
  end.

(** A number, an error that has to be reported, or nothing that can be relied upon. *)
Inductive meaning := Number (t : number_type) (z : Z) | Error | Undefined.

(** Arithmetic without sign is modulo 2^64; with sign it must not overflow. *)
Definition arithmetic (t : number_type) (z : Z) : meaning :=
  match t with
  | U64 => Number U64 (z mod 2 ^ 64)
  | I64 => if fits I64 z then Number I64 z else Undefined
  end.

Definition predicate (t : number_type) (b : bool) : meaning := Number t (if b then 1 else 0).

(** An operator on two integers of the same type. *)
Definition operate (o : rrr_condition_op) (t : number_type) (a b : Z) : meaning :=
  match o with
  | operator_add => arithmetic t (a + b)
  | operator_sub => arithmetic t (a - b)
  | operator_mul => arithmetic t (a * b)
  | operator_div => if (b =? 0) || negb (fits t (Z.quot a b)) then Error else Number t (Z.quot a b)
  | operator_bw_left =>
    if (0 <=? a) && (0 <=? b) && (b <? 64) then arithmetic t (a * 2 ^ b) else Undefined
  | operator_bw_right => if (0 <=? b) && (b <? 64) then Number t (a / 2 ^ b) else Undefined
  | operator_lt => predicate t (a <? b)
  | operator_lteq => predicate t (a <=? b)
  | operator_gt => predicate t (b <? a)
  | operator_gteq => predicate t (b <=? a)
  | operator_eq => predicate t (a =? b)
  | operator_ne => predicate t (negb (a =? b))
  | operator_and | operator_and_word => predicate t (negb (a =? 0) && negb (b =? 0))
  | operator_or | operator_or_word => predicate t (negb (a =? 0) || negb (b =? 0))
  | operator_bw_and => Number t (Z.land a b)
  | operator_bw_or => Number t (Z.lor a b)
  | operator_bw_xor => Number t (Z.lxor a b)
  | operator_bw_not | operator_par_open | operator_par_close => Undefined
  end.

(** Two operands are brought to one type: with sign, if one of them has it. *)
Definition operate_mixed (o : rrr_condition_op) (ta : number_type) (a : Z) (tb : number_type) (b : Z) : meaning :=
  let t := match ta, tb with U64, U64 => U64 | _, _ => I64 end in
  if fits t a && fits t b then operate o t a b else Error.

Definition complement (t : number_type) (b : Z) : meaning :=
  Number t (match t with U64 => 2 ^ 64 - 1 - b | I64 => - 1 - b end).

(** In C the right operand of these is evaluated only if the left one does not decide. *)
Definition lazy (o : rrr_condition_op) : bool :=
  match o with operator_and | operator_and_word | operator_or | operator_or_word => true | _ => false end.

Section Meaning.
(** The value of a name. *)
Context (value_of : list Z -> meaning).

Definition literal_meaning (l : literal) : meaning :=
  match l with
  | Dec ds => if fits U64 (number 10 ds) then Number U64 (number 10 ds) else Undefined
  | Hex _ ds => if fits U64 (number 16 ds) then Number U64 (number 16 ds) else Undefined
  | Neg ds => if fits I64 (- number 10 ds) then Number I64 (- number 10 ds) else Undefined
  | Name n => value_of n
  end.

Fixpoint means (e : expr) : meaning :=
  match e with
  | Val l => literal_meaning l
  | Par e => means e
  | Not e => match means e with Number t z => complement t z | m => m end
  | Bin o l r =>
    match means l with
    | Number ta a =>
      match means r with
      | Number tb b => operate_mixed o ta a tb b
      | Error => if lazy o then Undefined else Error
      | Undefined => Undefined
      end
    | m => m
    end
  end.
End Meaning.

(** The callback of a module as values of names: a number of 64 bits or an error. *)
Definition named (callback : list Z -> Z * Z * bool) (n : list Z) : meaning :=
  let '(ret, v, signed) := callback n in
  if ret =? 0 then (if signed : bool then Number I64 (s64 v) else Number U64 v) else Error.

(** ** The code computes it *)

Lemma c_precedence_prio o : o <> operator_par_open -> o <> operator_par_close -> c_precedence o = prio o + 1.
Proof. by destruct o. Qed.

Lemma tighter_top e o : c_binary o -> clear_expr e -> tighter e (c_precedence o) -> top e < prio o.
Proof.
  intros Ho He. destruct e as [l|e|e|o' l r]; cbn [tighter top].
  - by destruct o.
  - by destruct o.
  - by destruct o.
  - destruct He as (_ & _ & Ho' & _). rewrite !c_precedence_prio by (intros ->; done). lia.
Qed.

Lemma clear_expr_ok e : clear_expr e -> expr_ok e.
Proof.
  induction e as [l|e IH|e IH|o l IHl r IHr]; cbn [clear_expr expr_ok]; [done..| |].
  - intros [He Ht]. split; [auto|]. destruct Ht as [Ht|[e' ->]]; [|done]. destruct e as [l|e|e|o l r]; try (cbn; lia).
    destruct He as (_ & _ & Ho & _). cbn [tighter] in Ht. by destruct o.
  - intros (Hl & Hr & Ho & Tl & Tr & Hs). split_and!; auto.
    + by destruct o.
    + by apply tighter_top.
    + apply Z.lt_le_incl. by apply tighter_top.
Qed.

(** A running result that holds a number. *)
Definition shows (r : rrr_condition_running_result) (t : number_type) (z : Z) : Prop :=
  is_signed r = (match t with U64 => false | I64 => true end) /\ result r = z mod 2 ^ 64 /\ fits t z = true.

Lemma shows_range r t z : shows r t z ->
  match t with U64 => 0 <= z < 2 ^ 64 | I64 => - 2 ^ 63 <= z < 2 ^ 63 end.
Proof. intros (_ & _ & H). destruct t; cbn [fits] in H; lia. Qed.

Lemma s64_mod z : - 2 ^ 63 <= z < 2 ^ 63 -> s64 (z mod 2 ^ 64) = z.
Proof.
  intros Hz. unfold s64. rewrite Zplus_mod_idemp_l, Z.mod_small by lia. lia.
Qed.

Lemma ensure_signed_shows r t z : shows r t z ->
  rrr_condition_evaluate_ensure_signed r = if fits I64 z then (false, z) else (true, 0).
Proof.
  intros H. pose proof (shows_range r t z H) as Hz. destruct H as (Es & Er & _).
  unfold rrr_condition_evaluate_ensure_signed. rewrite Es, Er. cbn [fits]. destruct t; cbn [negb andb].
  - rewrite (Z.mod_small z) by lia. destruct (Z.ltb_spec (2 ^ 63 - 1) z) as [Hl|Hl].
    + by rewrite (proj2 (Z.ltb_ge z (2 ^ 63))), andb_false_r by lia.
    + rewrite (proj2 (Z.leb_le _ z)), (proj2 (Z.ltb_lt z _)) by lia. cbn [andb].
      by rewrite <- (Z.mod_small z (2 ^ 64)) at 1 by lia; rewrite s64_mod by lia.
  - rewrite (proj2 (Z.leb_le _ z)), (proj2 (Z.ltb_lt z _)) by lia. cbn [andb]. by rewrite s64_mod by lia.
Qed.

(** Bits above those of the type. *)
Lemma fits_high t z : fits t z = true <->
  match t with U64 => Z.shiftr z 64 = 0 | I64 => Z.shiftr z 63 = 0 \/ Z.shiftr z 63 = -1 end.
Proof.
  assert (forall n, 0 < n -> n * (z / n) <= z < n * (z / n) + n) as H
    by (intros n Hn; pose proof (Z.div_mod z n); pose proof (Z.mod_pos_bound z n); lia).
  destruct t; cbn [fits]; rewrite andb_true_iff, Z.leb_le, Z.ltb_lt, !Z.shiftr_div_pow2 by lia.
  - specialize (H (2 ^ 64) ltac:(lia)). nia.
  - specialize (H (2 ^ 63) ltac:(lia)). nia.
Qed.

Lemma fits_bits t a b : fits t a = true -> fits t b = true ->
  fits t (Z.land a b) = true /\ fits t (Z.lor a b) = true /\ fits t (Z.lxor a b) = true.
Proof.
  rewrite !fits_high. rewrite !Z.shiftr_land, !Z.shiftr_lor, !Z.shiftr_lxor. destruct t.
  - intros -> ->. done.
  - intros [-> | ->] [-> | ->]; cbn; tauto.
Qed.

Lemma fits_predicate t (b : bool) : fits t (if b then 1 else 0) = true.
Proof. by destruct t, b. Qed.

Lemma shiftr_m1 n : 0 <= n -> Z.shiftr (-1) n = -1.
Proof. intros Hn. apply Z.bits_inj'. intros k Hk. rewrite Z.shiftr_spec, !Z.bits_m1 by lia. done. Qed.

Lemma fits_shift t a b : fits t a = true -> 0 <= b -> fits t (a / 2 ^ b) = true.
Proof.
  intros H Hb. rewrite <- Z.shiftr_div_pow2 by lia. revert H. rewrite !fits_high. intros H.
  destruct t; rewrite Z.shiftr_shiftr, Z.add_comm, <- Z.shiftr_shiftr by lia.
  - rewrite H. by rewrite Z.shiftr_0_l.
  - destruct H as [-> | ->]; [left; by rewrite Z.shiftr_0_l|right]. by apply shiftr_m1.
Qed.

(** What an operator of the code makes of two numbers, against their meaning. *)
Definition computes (r : outcome (Z * Z * bool)) (m : meaning) : Prop :=
  match m with
  | Number t z => r = Ret (0, z mod 2 ^ 64, match t with U64 => false | I64 => true end) /\ fits t z = true
  | Error => exists ret z s, r = Ret (ret, z, s) /\ ret <> 0
  | Undefined => True
  end.

Definition finished_by (signed : bool) (m : outcome (bool * Z)) : outcome (Z * Z * bool) :=
  '(fpe, z) ← m;
  if fpe : bool then Ret (RRR_CONDITION_SOFT_ERROR, 0, false) else Ret (0, if signed then u64 z else z, signed).

Lemma fits_mod z : fits U64 (z mod 2 ^ 64) = true.
Proof. cbn [fits]. pose proof (Z.mod_pos_bound z (2 ^ 64)). lia. Qed.

Lemma computes_number (signed : bool) t z w : signed = (match t with U64 => false | I64 => true end) ->
  fits t z = true -> w = z ->
  computes (finished_by signed (Ret (false, w))) (Number t z).
Proof.
  intros -> Hz ->. cbn. split; [|done]. destruct t; [|done]. cbn [fits] in Hz. by rewrite Z.mod_small by lia.
Qed.

Lemma b2z_predicate (b : bool) : Z.b2z b = if b then 1 else 0.
Proof. by destruct b. Qed.

Lemma unsigned_computes o a b : c_binary o -> fits U64 a = true -> fits U64 b = true ->
  computes (finished_by false (rrr_condition_evaluate_operator a b o)) (operate o U64 a b).
Proof.
  intros Ho Ha Hb. destruct (fits_bits U64 a b Ha Hb) as (Hland & Hlor & Hlxor).
  assert (0 <= a < 2 ^ 64 /\ 0 <= b < 2 ^ 64) as [Ra Rb] by (cbn [fits] in *; lia).
  unfold rrr_condition_evaluate_operator, defined_shift.
  destruct o; try done; cbn [EVALUATION bool_decide operate arithmetic];
    try (rewrite bool_decide_false by done); cbn [andb mbind outcome_bind predicate];
    rewrite ?b2z_predicate; try (apply computes_number; [done|by rewrite ?fits_predicate, ?fits_mod, ?Hland, ?Hlor, ?Hlxor|done]).
  - destruct (0 <=? a) eqn:?, (0 <=? b) eqn:?, (b <? 64) eqn:?; cbn [andb]; try done.
    cbn [mbind outcome_bind]. apply computes_number; [done|apply fits_mod|]. by rewrite Z.shiftl_mul_pow2 by lia.
  - destruct (0 <=? b) eqn:?, (b <? 64) eqn:?; cbn [andb]; try done.
    cbn [mbind outcome_bind]. apply computes_number; [done|apply fits_shift; [done|lia]|].
    by rewrite Z.shiftr_div_pow2 by lia.
  - rewrite bool_decide_true by done. cbn [andb]. destruct (Z.eqb_spec b 0) as [->|Hn]; cbn [orb].
    { cbn. by eexists _, _, _. }
    assert (fits U64 (Z.quot a b) = true) as Hq.
    { rewrite Z.quot_div_nonneg by lia. cbn [fits]. pose proof (Z.div_pos a b ltac:(lia) ltac:(lia)).
      pose proof (Z.div_le_upper_bound a b a ltac:(lia) ltac:(nia)). lia. }
    rewrite Hq. cbn [negb mbind outcome_bind]. apply computes_number; [done|done|].
    by rewrite Z.quot_div_nonneg by lia.
Qed.

Lemma signed_computes o a b : c_binary o -> fits I64 a = true -> fits I64 b = true ->
  computes (finished_by true (rrr_condition_evaluate_operator_signed a b o)) (operate o I64 a b).
Proof.
  intros Ho Ha Hb. destruct (fits_bits I64 a b Ha Hb) as (Hland & Hlor & Hlxor).
  assert (- 2 ^ 63 <= a < 2 ^ 63 /\ - 2 ^ 63 <= b < 2 ^ 63) as [Ra Rb] by (cbn [fits] in *; lia).
  unfold rrr_condition_evaluate_operator_signed, defined_shift, defined. unfold in_int64.
  destruct o; try done; cbn [EVALUATION operate arithmetic];
    try (rewrite bool_decide_false by done); cbn [andb mbind outcome_bind predicate];
    rewrite ?b2z_predicate; try (apply computes_number; [done|by rewrite ?fits_predicate, ?Hland, ?Hlor, ?Hlxor|done]);
    try (match goal with |- computes _ (if ?f then _ else _) => destruct f eqn:Hf end; [cbn [fits] in Hf; rewrite Hf; cbn [mbind outcome_bind]; by apply computes_number|done]).
  - destruct (Z.leb_spec 0 a); cbn [andb]; [|done]. rewrite (proj2 (Z.ltb_ge a 0)) by lia.
    destruct (0 <=? b) eqn:?, (b <? 64) eqn:?; cbn [andb]; try done. cbn [mbind outcome_bind].
    rewrite Z.shiftl_mul_pow2 by lia. cbn [arithmetic]. destruct (fits I64 (a * 2 ^ b)) eqn:Hf; [|done].
    cbn [fits] in Hf. rewrite Hf. cbn [mbind outcome_bind]. by apply computes_number.
  - destruct (0 <=? b) eqn:?, (b <? 64) eqn:?; cbn [andb]; try done.
    cbn [mbind outcome_bind]. apply computes_number; [done|apply fits_shift; [done|lia]|].
    by rewrite Z.shiftr_div_pow2 by lia.
  - rewrite bool_decide_true by done. cbn [andb]. destruct (Z.eqb_spec b 0) as [->|Hn]; cbn [orb].
    { cbn. by eexists _, _, _. }
    destruct (fits I64 (Z.quot a b)) eqn:Hq; cbn [negb].
    + assert ((a =? - 2 ^ 63) && (b =? -1) = false) as ->.
      { destruct (Z.eqb_spec a (- 2 ^ 63)) as [->|], (Z.eqb_spec b (-1)) as [->|]; try done. }
      cbn [mbind outcome_bind]. by apply computes_number.
    + assert ((a =? - 2 ^ 63) && (b =? -1) = true) as ->.
      { apply andb_true_iff. rewrite !Z.eqb_eq. cbn [fits] in Hq.
        pose proof (Z.quot_rem a b Hn) as Hqr. pose proof (Z.rem_bound_abs a b Hn) as Hrb.
        pose proof (Z.quot_abs a b Hn) as Hqa.
        assert (Z.abs a / Z.abs b <= Z.abs a) by (apply Z.div_le_upper_bound; nia).
        rewrite Z.quot_div_nonneg in Hqa by lia.
        assert (Z.quot a b = 2 ^ 63) as Eq by lia. assert (Z.abs a = 2 ^ 63) as Ea by lia.
        assert (a = - 2 ^ 63) as -> by lia. split; [done|]. nia. }
      cbn. by eexists _, _, _.
Qed.

Lemma operands_compute o ra ta a rb tb b : c_binary o -> shows ra ta a -> shows rb tb b ->
  computes (evaluate_operands (Some ra) rb o) (operate_mixed o ta a tb b).
Proof.
  intros Ho Ha Hb. unfold evaluate_operands, operate_mixed.
  rewrite (ensure_signed_shows _ _ _ Ha), (ensure_signed_shows _ _ _ Hb).
  pose proof (shows_range _ _ _ Ha) as Ra. pose proof (shows_range _ _ _ Hb) as Rb.
  destruct Ha as (Sa & Ea & Fa), Hb as (Sb & Eb & Fb). rewrite Sa, Sb, Ea, Eb.
  destruct ta, tb; cbn [orb].
  { rewrite !Z.mod_small, Fa, Fb by lia. cbn [andb]. by apply unsigned_computes. }
  all: destruct (fits I64 a) eqn:Ia; cbn [andb]; [|by exists RRR_CONDITION_SOFT_ERROR, 0, false].
  all: destruct (fits I64 b) eqn:Ib; [|by exists RRR_CONDITION_SOFT_ERROR, 0, false].
  all: by apply signed_computes.
Qed.

Lemma not_computes rb t b : shows rb t b ->
  computes (evaluate_operands None rb operator_bw_not) (complement t b).
Proof.
  intros Hb. pose proof (shows_range _ _ _ Hb) as Rb. unfold evaluate_operands.
  rewrite (ensure_signed_shows _ _ _ Hb). destruct Hb as (Sb & Eb & Fb). rewrite Sb, Eb.
  destruct t; cbn [orb complement].
  - assert (fits U64 (2 ^ 64 - 1 - b) = true) as Hf by (cbn [fits]; lia). rewrite Z.mod_small by lia.
    apply (computes_number false U64); [done|done|]. unfold Z.lnot, u64, wrap.
    rewrite <- (Z_mod_plus_full (Z.pred (- b)) 1), Z.mod_small by lia. lia.
  - rewrite Fb. assert (fits I64 (- 1 - b) = true) as Hf by (cbn [fits]; lia).
    apply (computes_number true I64); [done|done|]. unfold Z.lnot. lia.
Qed.

Lemma eval_means callback e : (forall n, 0 <= (callback n).1.2 < 2 ^ 64) -> clear_expr e ->
  match means (named callback) e with
  | Number t z => exists r, eval callback e = Ret (0, r) /\ shows r t z
  | Error => exists ret r, eval callback e = Ret (ret, r) /\ ret <> 0
  | Undefined => True
  end.
Proof.
  intros Hcb. induction e as [l|e IH|e IH|o l IHl r IHr]; intros He; cbn [means eval].
  - destruct l as [ds|x ds|ds|n]; cbn [literal_meaning literal_value].
    1-2: destruct (fits U64 _) eqn:Hf; [|done]; eexists; split; [done|]; cbn [fits] in Hf;
      (split; [done|]; split; [|done]; cbn [result]; rewrite Z.mod_small, Z.min_l by lia; done).
    + destruct (fits I64 _) eqn:Hf; [|done]. eexists. split; [done|]. split; [done|]. split; [|done].
      cbn [fits] in Hf. cbn [result]. by rewrite Z.max_r by lia.
    + unfold named. specialize (Hcb n). destruct (callback n) as [[ret v] signed]. cbn [fst snd] in Hcb.
      destruct (Z.eqb_spec ret 0) as [->|Hr]; [|by eexists _, _].
      destruct signed; (eexists; split; [done|]; split; [done|]; split; cbn [result]).
      * unfold s64. rewrite Zminus_mod_idemp_l. replace (v + 2 ^ 63 - 2 ^ 63) with v by lia. by rewrite Z.mod_small.
      * unfold s64. pose proof (Z.mod_pos_bound (v + 2 ^ 63) (2 ^ 64)). cbn [fits]. lia.
      * by rewrite Z.mod_small.
      * cbn [fits]. lia.
  - by apply IH.
  - destruct He as [He _]. specialize (IH He). destruct (means _ e) as [t z| |]; [|by destruct IH as (ret & r & -> & Hr); exists ret, r; rewrite bind_ret, (proj2 (Z.eqb_neq _ _) Hr)|done].
    destruct IH as (r & -> & Hr). rewrite bind_ret. cbn [Z.eqb negb].
    pose proof (not_computes r t z Hr) as H. destruct (complement t z) as [t' z'| |] eqn:Ec; try done.
    destruct H as [-> Hf]. rewrite bind_ret. eexists. split; [done|]. split; [by destruct t'|]. split; [done|done].
  - destruct He as (Hel & Her & Ho & _). specialize (IHl Hel). specialize (IHr Her).
    destruct (means _ l) as [ta a| |]; [|by destruct IHl as (ret & x & -> & Hr); exists ret, x; rewrite bind_ret, (proj2 (Z.eqb_neq _ _) Hr)|done].
    destruct IHl as (ra & -> & Ha). rewrite bind_ret. cbn [Z.eqb negb].
    destruct (means _ r) as [tb b| |].
    + destruct IHr as (rb & -> & Hb). rewrite bind_ret. cbn [Z.eqb negb].
      pose proof (operands_compute o ra ta a rb tb b Ho Ha Hb) as H.
      destruct (operate_mixed o ta a tb b) as [t z| |]; try done.
      * destruct H as [-> Hf]. rewrite bind_ret. eexists. split; [done|]. split; [by destruct t|]. split; done.
      * destruct H as (ret & z & s & -> & Hn). rewrite bind_ret. by eexists _, _.
    + destruct (lazy o); [done|]. destruct IHr as (ret & x & -> & Hr). exists ret, x.
      by rewrite bind_ret, (proj2 (Z.eqb_neq _ _) Hr).
    + done.
Qed.

(** C8. Conditions mean what they say.  The text of an expression with at least one operator,
    in parentheses and with any white space, is read up to its closing parenthesis (when
    allocations succeed), and evaluating the condition gives the value that the expression has
    by the precedence of C: arithmetic without sign modulo 2^64, and with sign when a number is
    negative or a name has a value with sign; an error of a name, of a division and of a number
    that is too large to be used with sign is reported.
    Operators of the same precedence are kept apart by parentheses (without them the code groups
    to the right, against the manual), and a minus that is an operator does not stand behind a
    closing parenthesis.  Nothing is said where C leaves the result undefined (overflow with
    sign, shifts), where a literal is out of range, and where the right operand of a logical
    operator is an error, which C would not look at when the left one decides. *)
Theorem rrr_condition_correct alloc callback e text r p :
  (forall n, alloc n = true) -> (forall n, 0 <= (callback n).1.2 < 2 ^ 64) ->
  clear_expr e -> has_operator e = true -> lexes (tokens (Par e)) text r -> reads p text ->
  exists condition p',
    rrr_condition_interpret alloc empty_yard p = Ret (0, condition, p') /\ reads p' r /\
    match means (named callback) e with
    | Number t z => rrr_condition_evaluate callback condition = Ret (0, z mod 2 ^ 64)
    | Error => exists ret z, rrr_condition_evaluate callback condition = Ret (ret, z) /\ ret <> 0
    | Undefined => True
    end.
Proof.
  intros Halloc Hcb Hc Hop Hlex Hp. pose proof (clear_expr_ok e Hc) as He.
  destruct (interpret_spec alloc Halloc e text r p He Hlex Hp) as (p' & Hi & Hp').
  exists (mk_yard (postfix e) []), p'. split; [done|]. split; [done|].
  assert (stacked [] []) as Hs by (do 2 constructor).
  pose proof (evaluates_expr callback e He [] 0 [] [] Hs) as H. rewrite app_nil_r in H.
  unfold rrr_condition_evaluate. cbn [carriers]. pose proof (eval_means callback e Hcb Hc) as Hm.
  destruct (means (named callback) e) as [t z| |]; [| |done].
  - destruct Hm as (v & E & _ & Ev & _). rewrite E, Hop in H. destruct H as (_ & rs' & _ & ->). by rewrite <- Ev.
  - destruct Hm as (ret & v & E & Hr). rewrite E in H. destruct H as (_ & H).
    rewrite (proj2 (Z.eqb_neq _ _) Hr) in H. destruct H as [z ->]. by eexists _, _.
Qed.

(** "({a}*2 - -3) x" where the name is 5. *)
Lemma rrr_condition_correct_witness :
  exists condition p',
    rrr_condition_interpret (fun _ => true) empty_yard
      (rrr_parse_pos_init [40; 123; 97; 125; 42; 50; 32; 45; 32; 45; 51; 41; 32; 120] 14)
      = Ret (0, condition, p')
    /\ reads p' [32; 120]
    /\ rrr_condition_evaluate (fun _ => (0, 5, false)) condition = Ret (0, 13).
Proof.
  refine (rrr_condition_correct (fun _ => true) (fun _ => (0, 5, false))
    (Bin operator_sub (Bin operator_mul (Val (Name [97])) (Val (Dec [50]))) (Val (Neg [51])))
    [40; 123; 97; 125; 42; 50; 32; 45; 32; 45; 51; 41; 32; 120] [32; 120] _ _ _ _ _ _ _).
  - done.
  - intros n. cbn. lia.
  - cbn [clear_expr literal_ok]. repeat split; vm_compute; done || lia || (intros; congruence).
  - done.
  - cbn [tokens app].
    apply (lexes_op [] operator_par_open); [done..|].
    apply (lexes_val [] (Name [97]) [42; 50; 32; 45; 32; 45; 51; 41; 32; 120]); [done|repeat split; simpl; done || lia|done|].
    apply (lexes_op [] operator_mul); [done..|].
    apply (lexes_val [] (Dec [50]) [32; 45; 32; 45; 51; 41; 32; 120]); [done|repeat split; simpl; done || lia|done|].
    apply (lexes_op [32] operator_sub); [done..|].
    apply (lexes_val [32] (Neg [51]) [41; 32; 120]); [done|repeat split; simpl; done || lia|done|].
    apply (lexes_op [] operator_par_close); [done..|]. constructor.
  - repeat split; simpl; lia || done.
Defined.

(** * Any text *)

Definition opens (stack : list rrr_condition_op) : Z :=
  Z.of_nat (length (filter (fun o => o = operator_par_open) stack)).

(** There is an opening parenthesis below every operator, and as many of them
    as the level says. *)
Definition stack_ok (level : Z) (stack : list rrr_condition_op) : Prop :=
  opens stack = level /\ (stack = [] \/ exists l, stack = l ++ [operator_par_open]).

Lemma opens_cons o stack :
  opens (o :: stack) = opens stack + (if decide (o = operator_par_open) then 1 else 0).
Proof. unfold opens. rewrite filter_cons. destruct (decide _); cbn [length]; lia. Qed.

Lemma opens_app l k : opens (l ++ k) = opens l + opens k.
Proof. induction l as [|o l IH]; [done|]. cbn [app]. rewrite !opens_cons, IH. lia. Qed.

Lemma stack_ok_zero stack : stack_ok 0 stack -> stack = [].
Proof.
  intros [H [->|[l ->]]]; [done|]. exfalso. rewrite opens_app in H.
  change (opens [operator_par_open]) with 1 in H. unfold opens in H. lia.
Qed.

Lemma stack_tail o stack : o :: stack = [] \/ (exists l, o :: stack = l ++ [operator_par_open]) ->
  stack = [] \/ exists l, stack = l ++ [operator_par_open].
Proof.
  intros [H|[[|x l] H]]; simplify_eq/=; eauto.
Qed.

Lemma close_ok level out stack :
  stack_ok level stack -> 0 < level -> stack_ok (level - 1) (op_stack (close_loop out stack)).
Proof.
  revert out. induction stack as [|o stack IH]; intros out [Hc Hl] Hlevel; cbn [close_loop].
  { unfold opens in Hc. simpl in Hc. lia. }
  rewrite opens_cons in Hc. destruct (decide (o = operator_par_open)).
  - split; [cbn [op_stack]; lia|]. by eapply stack_tail.
  - apply IH; [|done]. split; [lia|]. by eapply stack_tail.
Qed.

Lemma shunt_ok level out stack o :
  stack_ok level stack -> 0 < level -> o <> operator_par_open ->
  stack_ok level (op_stack (shunt_loop out stack o)).
Proof.
  revert out. induction stack as [|x stack IH]; intros out [Hc Hl] Hlevel Ho; cbn [shunt_loop].
  { unfold opens in Hc. simpl in Hc. lia. }
  destruct ((prio x <? prio o) && negb (bool_decide (x = operator_par_open))) eqn:E.
  - apply andb_true_iff in E as [_ E]. apply IH; [|done..].
    rewrite opens_cons, decide_False in Hc
      by (intros ->; by rewrite bool_decide_true in E). split; [lia|]. by eapply stack_tail.
  - cbn [op_stack]. split; [rewrite opens_cons, decide_False by done; lia|]. right.
    destruct Hl as [?|[l ->]]; [done|]. by exists (o :: l).
Qed.

Ltac word p :=
  match goal with |- context [match_word_with ?eq p ?w] =>
    let found := fresh "found" in let q := fresh "q" in
    let Hq := fresh "Hq" in let Hf := fresh "Hf" in
    destruct (match_word_later eq p w) as (found & q & -> & Hq & Hf); [done|];
    rewrite bind_ret; destruct (truth found); cbn [negb]; [|subst q]
  end.
Ltac letters p :=
  match goal with |- context [rrr_parse_match_letters p ?flags] =>
    let q := fresh "q" in let Hq := fresh "Hq" in
    destruct (match_letters_later p flags) as (q & -> & Hq); [done|]; rewrite bind_ret
  end.

(** Letters of a value behind [k] bytes of it. *)
Lemma letters_value p q k flags :
  wf p -> later p q -> pos q = pos p + Z.of_nat k ->
  exists q', rrr_parse_match_letters q flags = Ret (q', pos q, pos q' - 1) /\ later p q'
    /\ ((pos q' - 1 - pos q <? 0) = false -> u32 (pos q - Z.of_nat k) = pos p /\ pos p <= pos q' - 1).
Proof.
  intros Hp Hq Hk. destruct (match_letters_later q flags) as (q' & -> & Hq'); [apply Hq|].
  exists q'. split; [done|]. split; [by apply (later_trans p q)|]. intros Hn%Z.ltb_ge.
  rewrite Hk, pos_wrap_add by done. split; [done|lia].
Qed.

(** A value that is found lies between the positions. *)
Lemma parse_value_later p :
  wf p -> exists q v, parse_value p = Ret (q, v) /\ later p q /\
    match v with
    | Some (start, end_) => start = pos p /\ start <= end_ /\ end_ = pos q - 1
    | None => True
    end.
Proof.
  intros Hp. unfold parse_value, rrr_parse_match_word, rrr_parse_match_word_case.
  pose proof (later_refl p Hp) as Hpp. word p.
  - destruct (letters_value p q 1 (RRR_PARSE_MATCH_LETTERS ||| RRR_PARSE_MATCH_NUMBERS))
      as (q' & -> & Hq' & Hv); [done..|]. rewrite bind_ret.
    destruct (pos q' - 1 - pos q <? 0); [by exists q', None|]. destruct (Hv eq_refl) as [Hu Hle].
    change (Z.of_nat 1) with 1 in Hu. rewrite Hu. destruct (Hq') as (Hw' & _). word q'.
    + exists q0, (Some (pos p, pos q' - 1 + 1)). split; [done|].
      split; [by apply (later_trans p q')|]. cbn [length] in Hf0. lia.
    + by exists q', None.
  - word p.
    + destruct (letters_value p q 2 RRR_PARSE_MATCH_HEX) as (q' & -> & Hq' & Hv); [done..|].
      rewrite bind_ret. destruct (pos q' - 1 - pos q <? 0); [by exists q', None|].
      destruct (Hv eq_refl) as [Hu Hle]. change (Z.of_nat 2) with 2 in Hu. rewrite Hu.
      by exists q', (Some (pos p, pos q' - 1)).
    + word p.
      * destruct (letters_value p q 1 RRR_PARSE_MATCH_NUMBERS) as (q' & -> & Hq' & Hv); [done..|].
        rewrite bind_ret. destruct (pos q' - 1 - pos q <? 0); [by exists q', None|].
        destruct (Hv eq_refl) as [Hu Hle]. change (Z.of_nat 1) with 1 in Hu. rewrite Hu.
        by exists q', (Some (pos p, pos q' - 1)).
      * destruct (letters_value p p 0 RRR_PARSE_MATCH_NUMBERS) as (q' & -> & Hq' & Hv);
          [done..|lia|]. rewrite bind_ret.
        destruct (pos q' - 1 - pos p <? 0); [by exists q', None|].
        destruct (Hv eq_refl) as [Hu Hle]. by exists q', (Some (pos p, pos q' - 1)).
Qed.

(** A state of the loop in a text of which at most [n] bytes are left. *)
Definition state_ok (n : Z) (s : interpreter) : Prop :=
  wf (at_pos s) /\ stack_ok (par_level s) (op_stack (yard s)) /\ size (at_pos s) - pos (at_pos s) <= n.

(** A round that goes on has taken a byte. *)
Definition next_ok (n : Z) (x : next) : Prop :=
  match x with
  | Break s => state_ok n s
  | Continue s => state_ok (n - 1) s
  | Fail ret p => ret <> 0
  end.

Lemma level_nonneg level stack : stack_ok level stack -> 0 <= level.
Proof. intros [<- _]. unfold opens. lia. Qed.

Lemma parse_op_later p :
  wf p -> exists o q, rrr_condition_parse_op p = Ret (o, q) /\ later p q
    /\ match o with Some o => pos q = pos p + Z.of_nat (length (op_name o)) | None => q = p end.
Proof.
  intros Hp. rewrite parse_op_spec by done. destruct (first_op (rest p)) as [o|] eqn:E.
  - exists (Some o), (forward (length (op_name o)) p). split; [done|]. split; [|done].
    apply later_forward; [done|]. unfold first_op in E. apply find_some in E as [_ E].
    by eapply prefix_length.
  - exists None, p. split; [done|]. split; [|done]. by apply later_refl.
Qed.

Lemma new_ok alloc_ok o v n :
  n <= Z.of_nat (length v) ->
  exists ret c, rrr_condition_shunting_yard_carrier_new alloc_ok o v n = Ret (ret, c)
    /\ match c with Some _ => ret = 0 | None => ret <> 0 end.
Proof.
  intros Hn. unfold rrr_condition_shunting_yard_carrier_new.
  destruct alloc_ok; cbn [negb]; [|by eexists _, None].
  destruct (RRR_CONDITION_VALUE_MAX - 1 <? n); [by eexists _, None|].
  destruct (0 <? n) eqn:E; [|by eexists _, (Some _)].
  unfold copy_out. replace (_ || _) with false; [by eexists _, (Some _)|].
  symmetry. apply orb_false_iff. split; [done|]. apply Z.ltb_ge. lia.
Qed.

(** The yard behind an operator. *)
Lemma shunt_op_ok alloc_ok level y o :
  stack_ok level (op_stack y) -> 0 < level \/ o = operator_par_open ->
  exists ret level' y', rrr_condition_shunting_yard_shunt_op alloc_ok level y o = Ret (ret, level', y')
    /\ (ret = 0 -> stack_ok level' (op_stack y')).
Proof.
  intros Hs Hlevel. unfold rrr_condition_shunting_yard_shunt_op.
  destruct (new_ok alloc_ok (Some o) [] 0) as (ret & c & -> & _); [done|]. rewrite bind_ret.
  destruct (ret =? 0) eqn:Eret; cbn [negb]; [|exists ret, level, y; split; [done|lia]].
  destruct (decide (o = operator_par_open)) as [->|Ho].
  { eexists _, _, _. split; [done|]. intros _. cbn [op_stack]. destruct Hs as [Hc Hl].
    split; [rewrite opens_cons, decide_True by done; lia|]. right.
    destruct Hl as [->|[l ->]]; [by exists []|by exists (operator_par_open :: l)]. }
  destruct Hlevel as [Hlevel|?]; [|done].
  destruct (decide (o = operator_par_close)).
  { destruct (level - 1 <? 0) eqn:E; [lia|]. eexists _, _, _. split; [done|]. intros _.
    by apply close_ok. }
  destruct (op_stack y) as [|x st] eqn:E.
  { destruct Hs as [Hc _]. unfold opens in Hc. simpl in Hc. lia. }
  eexists _, _, _. split; [done|]. intros _. by apply shunt_ok.
Qed.

Lemma interpret_op_ok alloc s p o n :
  wf p -> stack_ok (par_level s) (op_stack (yard s)) -> size p - pos p <= n - 1 ->
  0 < par_level s \/ o = operator_par_open ->
  exists x, interpret_op alloc s p o = Ret x /\ next_ok n x.
Proof.
  intros Hp Hs Hn Hl. unfold interpret_op.
  destruct (shunt_op_ok (alloc (allocs s)) (par_level s) (yard s) o) as (ret & l & y & -> & Hy); [done..|].
  rewrite bind_ret. destruct (ret =? 0) eqn:E; cbn [negb]; [|eexists; split; [done|]; simpl; lia].
  assert (stack_ok l (op_stack y)) by (apply Hy; lia).
  eexists. split; [done|]. destruct (l =? 0); repeat split; simpl; apply Hp || (by destruct H) || lia.
Qed.

(** A value between two positions of the text. *)
Lemma value_length p start end_ :
  wf p -> 0 <= start <= end_ -> end_ < pos p ->
  rrr_length_from_slength_sub_bug_const end_ start = Ret (end_ - start) /\
  rrr_length_inc_bug_const (end_ - start) = Ret (end_ - start + 1) /\
  end_ - start + 1 <= Z.of_nat (length (drop (Z.to_nat start) (data p))).
Proof.
  intros ((Hp1 & Hp2) & Hsize & Hmax & _) Hle Hpos. unfold RRR_LENGTH_MAX in Hmax.
  split; [|split].
  - replace end_ with (start + (end_ - start + 1) - 1) at 1 by lia.
    rewrite slength_between by lia. f_equal. lia.
  - unfold rrr_length_inc_bug_const, rrr_length_inc_bug. rewrite wrap_small by lia.
    by rewrite (proj2 (Z.eqb_neq _ 0)) by lia.
  - rewrite length_drop. lia.
Qed.

Lemma interpret_value_ok alloc s p n :
  wf p -> stack_ok (par_level s) (op_stack (yard s)) -> size p - pos p <= n ->
  exists x, interpret_value alloc s p = Ret x /\ next_ok n x.
Proof.
  intros Hp Hs Hn. unfold interpret_value.
  destruct (ignore_later p) as (q & -> & Hq); [done|]. rewrite bind_ret.
  pose proof (later_size p q Hq) as Hsq. destruct Hq as (Hwq & _ & _ & Hpq).
  destruct (RRR_PARSE_CHECK_EOF q).
  { eexists. split; [done|]. split; [done|]. split; [done|]. cbn [at_pos]. lia. }
  destruct (parse_value_later q Hwq) as (q' & v & -> & Hq' & Hv). rewrite bind_ret.
  pose proof (later_size q q' Hq') as Hsq'. destruct Hq' as (Hwq' & Hdq' & _ & Hpq').
  destruct v as [[start end_]|].
  2: { eexists. split; [done|]. split; [done|]. split; [done|]. cbn [at_pos]. lia. }
  destruct Hv as (-> & Hle & ->). destruct (Hwq) as ((? & _) & _).
  destruct (value_length q' (pos q) (pos q' - 1)) as (-> & Hinc & Hlen); [done|lia..|].
  rewrite bind_ret, Hinc, bind_ret. unfold rrr_condition_shunting_yard_shunt_value.
  cbn [allocs yard].
  destruct (new_ok (alloc (allocs s)) None _ _ Hlen) as (ret & c & -> & Hc). rewrite !bind_ret.
  destruct c as [c|]; rewrite bind_ret.
  - subst ret. eexists. split; [done|]. split; [done|]. split; [done|]. cbn [at_pos]. lia.
  - rewrite (proj2 (Z.eqb_neq ret 0)) by done. eexists. split; [done|]. done.
Qed.

Lemma op_name_length o : (0 < length (op_name o))%nat.
Proof. destruct o; simpl; lia. Qed.

Lemma interpret_round_ok alloc s n :
  state_ok n s -> exists x, interpret_round alloc s = Ret x /\ next_ok n x.
Proof.
  intros (Hp & Hs & Hn). unfold interpret_round.
  destruct (ignore_later (at_pos s)) as (q & -> & Hq); [done|]. rewrite bind_ret.
  pose proof (later_size _ q Hq) as Hsq. destruct Hq as (Hwq & _ & _ & Hpq).
  destruct (RRR_PARSE_CHECK_EOF q).
  { eexists. split; [done|]. split; [done|]. split; [done|]. cbn [at_pos]. lia. }
  destruct (parse_op_later q Hwq) as (o & q' & -> & Hq' & Ho). rewrite bind_ret.
  cbn [par_level prev_was_op yard]. pose proof (level_nonneg _ _ Hs) as Hlevel.
  pose proof (later_size q q' Hq') as Hsq'. destruct Hq' as (Hwq' & Hdq' & _ & Hpq').
  destruct ((par_level s =? 0) && _) eqn:Eopen; [by eexists|].
  destruct o as [o|]; [|subst q'; apply interpret_value_ok; [done|done|lia]].
  destruct (bool_decide (o = operator_sub) && _) eqn:Esub.
  - apply andb_true_iff in Esub as [Esub%bool_decide_eq_true _]. subst o.
    change (Z.of_nat (length (op_name operator_sub))) with 1 in Ho.
    pose proof (pos_wrap_add q 1 Hwq) as Hu. change (Z.of_nat 1) with 1 in Hu.
    rewrite <-Ho in Hu. rewrite Hu. destruct Hwq as (? & ? & ?), Hwq' as (? & ? & ?).
    apply interpret_value_ok; [|done|cbn [set_pos size pos]; lia].
    repeat split; cbn [set_pos size pos data line]; lia.
  - apply interpret_op_ok; [done|done| |].
    + pose proof (op_name_length o). lia.
    + destruct (par_level s =? 0) eqn:E; [|left; cbn [par_level]; lia].
      right. cbn [andb] in Eopen.
      apply negb_false_iff, bool_decide_eq_true in Eopen. congruence.
Qed.

Lemma interpret_loop_ok fuel alloc s :
  state_ok (Z.of_nat fuel) s ->
  exists r, interpret_loop (S fuel) alloc s = Ret r /\
    match r with
    | inl (ret, _) => ret <> 0
    | inr s' => stack_ok (par_level s') (op_stack (yard s'))
    end.
Proof.
  revert s. induction fuel as [|fuel IH]; intros s Hs; cbn [interpret_loop];
    pose proof Hs as (Hp & Hst & Hn); (destruct (RRR_PARSE_CHECK_EOF (at_pos s)) eqn:Eof;
    [by eexists|]).
  { unfold RRR_PARSE_CHECK_EOF in Eof. destruct Hp as (? & _). lia. }
  destruct (interpret_round_ok alloc s _ Hs) as (x & -> & Hx). rewrite bind_ret.
  destruct x as [s'|s'|ret p].
  - eexists. split; [done|]. apply Hx.
  - apply IH. cbn [next_ok] in Hx. by replace (Z.of_nat fuel) with (Z.of_nat (S fuel) - 1) by lia.
  - by eexists.
Qed.

(** What follows the loop when all parentheses are closed. *)
Lemma interpret_end alloc s :
  op_stack (yard s) = [] ->
  exists ret y, (match carriers (yard s) with
                 | [] => rrr_condition_shunting_yard_shunt_value (alloc (allocs s)) (yard s)
                           rrr_condition_str_false 1
                 | _ => Ret (0, yard s)
                 end) = Ret (ret, y)
    /\ op_stack y = [] /\ (ret = 0 -> carriers y <> []).
Proof.
  intros Hs. destruct (carriers (yard s)) as [|c l] eqn:E.
  - unfold rrr_condition_shunting_yard_shunt_value.
    destruct (new_ok (alloc (allocs s)) None rrr_condition_str_false 1) as (ret & c & -> & Hc); [done|].
    rewrite bind_ret. destruct c; eexists _, _; (split; [done|]); (split; [done|]); intros Hret.
    + cbn [carriers]. by rewrite E.
    + done.
  - eexists _, _. split; [done|]. split; [done|]. congruence.
Qed.

(** C9. Any text whatever is interpreted to the end or to an error: every read
    stays inside of the text, no internal check fails, and a condition that is
    accepted has no operator left on its stack and one value more than it has
    operators with two operands.  A condition that is refused is left empty. *)
Theorem rrr_condition_interpret_total alloc p :
  wf p ->
  exists ret condition p', rrr_condition_interpret alloc empty_yard p = Ret (ret, condition, p') /\
    op_stack condition = [] /\
    if ret =? 0
    then sum_of count_value (carriers condition) - sum_of count_op (carriers condition) = 1
    else carriers condition = [].
Proof.
  intros Hp. unfold rrr_condition_interpret.
  destruct (interpret_loop_ok (Z.to_nat (size p - pos p)) alloc (mk_interp empty_yard 0 false 0 p))
    as (r & -> & Hr).
  { split; [done|]. split; [by split; [|left]|]. cbn [at_pos]. destruct Hp as (? & _). lia. }
  rewrite bind_ret. destruct r as [[ret q]|s].
  { eexists _, _, _. split; [done|]. split; [done|]. by rewrite (proj2 (Z.eqb_neq ret 0)). }
  destruct (par_level s =? 0) eqn:E; cbn [negb]; [|by eexists _, _, _].
  apply Z.eqb_eq in E. rewrite E in Hr. apply stack_ok_zero in Hr.
  destruct (interpret_end alloc s) as (ret & y & Hy & Hst & Hne); [done|].
  rewrite Hy, bind_ret. destruct (ret =? 0) eqn:Eret; cbn [negb].
  2: { eexists _, _, _. split; [done|]. by rewrite Eret. }
  unfold rrr_condition_shunting_yard_finalize. rewrite Hst.
  destruct (carriers y) as [|c l] eqn:Ey; [by destruct Hne; [lia|]|]. rewrite bind_ret.
  destruct (_ =? 1) eqn:Ec; cbn [negb Z.eqb]; eexists _, _, _; (split; [done|]); (split; [done|]).
  - cbn [Z.eqb]. rewrite Ey. lia.
  - done.
Qed.

(** "(1 + " is refused, as any text with a parenthesis left open. *)
Lemma rrr_condition_interpret_total_witness :
  exists ret condition p',
    rrr_condition_interpret (fun _ => true) empty_yard (rrr_parse_pos_init [40; 49; 32; 43; 32] 5)
      = Ret (ret, condition, p') /\
    op_stack condition = [] /\
    if ret =? 0
    then sum_of count_value (carriers condition) - sum_of count_op (carriers condition) = 1
    else carriers condition = [].
Proof. apply rrr_condition_interpret_total. repeat split; simpl; lia || done. Defined.

(** * What is not as one would expect *)

Definition interpreted (text : list Z) :=
  rrr_condition_interpret_raw (fun _ => true) empty_yard text (Z.of_nat (length text)).

(** Status and result of a text that is accepted. *)
Definition evaluated (text : list Z) : outcome (Z * Z) :=
  '(ret, condition, _) ← interpreted text;
  if negb (ret =? 0) then Ret (ret, 0) else rrr_condition_evaluate (fun _ => (1, 0, false)) condition.

(** "(10 - 4 - 3)" is 10 - (4 - 3) and "(8 / 4 / 2)" is 8 / (4 / 2): an operator
    waits for one of its own priority. *)
Lemma same_priority_groups_right :
  evaluated [40; 49; 48; 32; 45; 32; 52; 32; 45; 32; 51; 41] = Ret (0, 9) /\
  evaluated [40; 56; 32; 47; 32; 52; 32; 47; 32; 50; 41] = Ret (0, 4).
Proof. by vm_compute. Qed.

(** "((5) - 2)" is refused, although "(5 - 2)" and "((5) + 2)" are not: behind a
    closing parenthesis the sign belongs to a number. *)
Lemma minus_behind_parenthesis :
  evaluated [40; 40; 53; 41; 32; 45; 32; 50; 41] = Ret (RRR_CONDITION_SOFT_ERROR, 0) /\
  evaluated [40; 40; 53; 41; 32; 45; 50; 41] = Ret (1, 0) /\
  evaluated [40; 40; 53; 41; 32; 43; 32; 50; 41] = Ret (0, 7).
Proof. by vm_compute. Qed.

(** "(5)" is 0: only operators set the result. *)
Lemma value_alone_is_zero : evaluated [40; 53; 41] = Ret (0, 0).
Proof. by vm_compute. Qed.

(** "(0 && 1/0)" and "(1 || 1/0)" are errors: both operands are evaluated. *)
Lemma logical_not_lazy :
  (exists z, evaluated [40; 48; 32; 38; 38; 32; 49; 47; 48; 41] = Ret (RRR_CONDITION_SOFT_ERROR, z)) /\
  (exists z, evaluated [40; 49; 32; 124; 124; 32; 49; 47; 48; 41] = Ret (RRR_CONDITION_SOFT_ERROR, z)).
Proof. split; eexists; vm_compute; reflexivity. Qed.

(** "((~) 1)" and "((+) 1 2)": an operator in front of its operands is accepted,
    and then looks for them outside of the results. *)
Lemma operator_before_operands_outside :
  evaluated [40; 40; 126; 41; 32; 49; 41] = Oob /\
  evaluated [40; 40; 43; 41; 32; 49; 32; 50; 41] = Oob.
Proof. by vm_compute. Qed.

(** "(1 << 64)" and "(-1 << 1)" have no defined result. *)
Lemma shift_undefined :
  evaluated [40; 49; 32; 60; 60; 32; 54; 52; 41] = Oob /\
  evaluated [40; 45; 49; 32; 60; 60; 32; 49; 41] = Oob.
Proof. by vm_compute. Qed.

End ConditionCorrect.
