(* ===== verification/MqttTopic.v ===== *)
(** MQTT topic names and filters (src/src/lib/mqtt/mqtt_topic.c): validation,
    tokenizing, and the two matchers, over token lists and directly over the
    strings.  A token list is the list of the C strings its nodes hold; the
    empty list is the NULL pointer.  C strings are lists of non-zero bytes. *)
From stdpp Require Import sets.
From S2P Require Import Prelude Types Utf8 Parse.

Module MqttTopic.
Import Types Utf8 Parse.

Definition RRR_MQTT_TOKEN_MATCH : Z := 0.
Definition RRR_MQTT_TOKEN_INTERNAL_ERROR : Z := 1.
Definition RRR_MQTT_TOKEN_MISMATCH : Z := 4.

Definition HASH : Z := 35.
Definition PLUS : Z := 43.
Definition SLASH : Z := 47.
Definition DOLLAR : Z := 36.

(** [struct topic_name_seq] without the unused [orig]. *)
Record topic_name_seq := mk_seq { c1 : Z; c2 : Z }.

Definition rrr_mqtt_topic_filter_char_is_ok (c : Z) (seq : topic_name_seq)
  : Z * topic_name_seq :=
  let seq := mk_seq (c2 seq) c in
  if (c2 seq =? HASH) && negb (c1 seq =? SLASH) && negb (c1 seq =? 0) then (1, seq)
  else if (c2 seq =? PLUS) && negb (c1 seq =? SLASH) && negb (c1 seq =? 0) then (1, seq)
  else if c1 seq =? HASH then (1, seq)
  else if (c1 seq =? PLUS) && negb (c2 seq =? SLASH) && negb (c1 seq =? 0) then (1, seq)
  else (0, seq).

Definition rrr_mqtt_topic_name_char_is_ok (c : Z) (seq : topic_name_seq)
  : Z * topic_name_seq :=
  if (c =? HASH) || (c =? PLUS) then (1, seq) else (0, seq).

Definition rrr_mqtt_topic_filter_validate_name (topic_filter : list Z) : outcome Z :=
  if 0xffff <? Z.of_nat (length topic_filter) then Ret 1
  else
    _ ← rrr_length_from_size_t_bug_const (Z.of_nat (length topic_filter));
    Ret (fst (rrr_utf8_validate_and_iterate rrr_mqtt_topic_filter_char_is_ok
                topic_filter (mk_seq 0 0))).

(** The bytes from [topic_name] to [end], both addresses of one object. *)
Definition rrr_mqtt_topic_validate_name_with_end (topic_name : list Z) : outcome Z :=
  match topic_name with
  | [] => Ret 1
  | _ =>
    _ ← rrr_length_from_ptr_sub_bug_const (Z.of_nat (length topic_name)) 0;
    Ret (fst (rrr_utf8_validate_and_iterate rrr_mqtt_topic_name_char_is_ok
                topic_name (mk_seq 0 0)))
  end.

(** [None] is the NULL pointer. *)
Definition rrr_mqtt_topic_validate_name (topic_name : option (list Z)) : outcome Z :=
  match topic_name with
  | None | Some [] => Ret 1
  | Some topic_name => rrr_mqtt_topic_validate_name_with_end topic_name
  end.

(** First character of a C string, the terminator when it is empty. *)
Definition first_char (data : list Z) : Z := hd 0 data.

Definition strcmp_eq (a b : list Z) : bool := bool_decide (a = b).

Fixpoint rrr_mqtt_topic_match_tokens_recursively (sub_token pub_token : list (list Z))
  : outcome Z :=
  match sub_token, pub_token with
  | sub :: sub_next, pub :: pub_next =>
    if first_char sub =? HASH then
      if negb (length sub =? 1)%nat then Bug
      else if first_char pub =? DOLLAR then Ret RRR_MQTT_TOKEN_MISMATCH
      else Ret RRR_MQTT_TOKEN_MATCH
    else
      let continue :=
        match sub_next, pub_next with
        | [], [] => Ret RRR_MQTT_TOKEN_MATCH
        | _, _ => rrr_mqtt_topic_match_tokens_recursively sub_next pub_next
        end in
      if first_char sub =? PLUS then
        if negb (length sub =? 1)%nat then Bug
        else if first_char pub =? DOLLAR then Ret RRR_MQTT_TOKEN_MISMATCH
        else continue
      else if negb (strcmp_eq sub pub) then Ret RRR_MQTT_TOKEN_MISMATCH
      else continue
  | _, _ => Ret RRR_MQTT_TOKEN_MISMATCH
  end.

(** The linear matcher reads through [topic_pos] and [filter_pos] without
    comparing them with the ends: [topic_after] and [filter_after] are the
    bytes of the objects beyond the ends. *)
Section Linear.
Context (topic_after filter_after : list Z).

Definition deref (pos after : list Z) : outcome Z :=
  match pos ++ after with b :: _ => Ret b | [] => Oob end.

(** [for (; topic_pos < topic_end; topic_pos++)]: whether a separator was
    found, and the position. *)
Fixpoint skip_level (topic_pos : list Z) : bool * list Z :=
  match topic_pos with
  | [] => (false, [])
  | t :: rest => if t =? SLASH then (true, topic_pos) else skip_level rest
  end.

Fixpoint linear_loop (filter_pos topic_pos : list Z) (filter_token_pos topic_token_pos : Z)
  : outcome Z :=
  match filter_pos with
  | [] =>
    match topic_pos with
    | _ :: _ => Ret RRR_MQTT_TOKEN_MISMATCH
    | [] => _ ← deref [] filter_after; Ret RRR_MQTT_TOKEN_MATCH
    end
  | f :: filter_rest =>
    if f =? HASH then
      if negb (topic_token_pos =? 0) || negb (filter_token_pos =? 0) then Bug
      else
        t ← deref topic_pos topic_after;
        if t =? DOLLAR then Ret RRR_MQTT_TOKEN_MISMATCH else Ret RRR_MQTT_TOKEN_MATCH
    else if f =? PLUS then
      if negb (topic_token_pos =? 0) || negb (filter_token_pos =? 0) then Bug
      else
        t ← deref topic_pos topic_after;
        if t =? DOLLAR then Ret RRR_MQTT_TOKEN_MISMATCH
        else
          let '(found, topic_pos) := skip_level topic_pos in
          let topic_token_pos := if found : bool then -1 else topic_token_pos in
          linear_loop filter_rest topic_pos (filter_token_pos + 1) (topic_token_pos + 1)
    else
      match topic_pos with
      | [] => Ret RRR_MQTT_TOKEN_MISMATCH
      | t :: topic_pos =>
        if negb (f =? t) then Ret RRR_MQTT_TOKEN_MISMATCH
        else
          let '(filter_token_pos, topic_token_pos) :=
            if f =? SLASH then (-1, -1) else (filter_token_pos, topic_token_pos) in
          linear_loop filter_rest topic_pos (filter_token_pos + 1) (topic_token_pos + 1)
      end
  end.

Definition rrr_mqtt_topic_match_topic_and_linear_with_end (topic filter : list Z) : outcome Z :=
  match topic, filter with
  | [], _ | _, [] => Bug
  | _, _ => linear_loop filter topic 0 0
  end.
End Linear.

Fixpoint rrr_mqtt_topic_match_tokens_recursively_acl (token_master token_slave : list (list Z))
  : Z :=
  match token_master, token_slave with
  | master :: master_next, slave :: slave_next =>
    let continue :=
      match master_next, slave_next with
      | [], [] => RRR_MQTT_TOKEN_MATCH
      | _, _ => rrr_mqtt_topic_match_tokens_recursively_acl master_next slave_next
      end in
    if first_char master =? HASH then RRR_MQTT_TOKEN_MATCH
    else if first_char slave =? HASH then RRR_MQTT_TOKEN_MISMATCH
    else if (first_char master =? PLUS) || (first_char slave =? PLUS) then
      if first_char master =? DOLLAR then RRR_MQTT_TOKEN_MISMATCH else continue
    else if negb (strcmp_eq master slave) then RRR_MQTT_TOKEN_MISMATCH
    else continue
  | _, _ => RRR_MQTT_TOKEN_MISMATCH
  end.

(** Allocation [n] of a call succeeds when [alloc n] holds.  The status and the
    new tokens are returned. *)
Section Tokens.
Context (alloc : nat -> bool).

Fixpoint tokens_clone_from (n : nat) (first_token : list (list Z)) : Z * list (list Z) :=
  match first_token with
  | [] => (0, [])
  | data :: next =>
    if negb (alloc n) then (1, [])
    else
      let '(ret, result_next) := tokens_clone_from (S n) next in
      if negb (ret =? 0) then (ret, []) else (ret, data :: result_next)
  end.

Definition rrr_mqtt_topic_tokens_clone (first_token : list (list Z)) : Z * list (list Z) :=
  tokens_clone_from 0 first_token.

(** Offset of [chr], if it is there. *)
Fixpoint rrr_mqtt_topic_strnchr (haystack : list Z) (chr : Z) : option nat :=
  match haystack with
  | [] => None
  | b :: haystack => if b =? chr then Some O else S <$> rrr_mqtt_topic_strnchr haystack chr
  end.

(** One token per call; a call on [k] bytes makes at most [k] calls below it,
    and one more for a separator at the very end. *)
Fixpoint tokenize_from (fuel n : nat) (pos : list Z) : Z * list (list Z) :=
  match fuel with
  | O => (1, [])
  | S fuel =>
    match pos with
    | [] => (0, [])
    | _ =>
      let token_end := rrr_mqtt_topic_strnchr pos SLASH in
      let len := default (length pos) token_end in
      if negb (alloc n) then (1, [])
      else
        let data := cstr (take len pos) in
        if bool_decide (token_end = Some (length pos - 1)%nat) then
          let '(ret, next) := tokenize_from fuel (S n) [0] in
          if negb (ret =? 0) then (ret, []) else (ret, data :: next)
        else
          match drop (len + 1) pos with
          | [] => (0, [data])
          | pos =>
            let '(ret, next) := tokenize_from fuel (S n) pos in
            if negb (ret =? 0) then (ret, []) else (ret, data :: next)
          end
    end
  end.

Definition rrr_mqtt_topic_tokenize_with_end (topic : list Z) : Z * list (list Z) :=
  tokenize_from (S (length topic)) 0 topic.

Definition rrr_mqtt_topic_tokenize (topic : list Z) : Z * list (list Z) :=
  rrr_mqtt_topic_tokenize_with_end topic.
End Tokens.

Definition rrr_mqtt_topic_match_str_with_end (alloc_filter alloc_topic : nat -> bool)
    (sub_filter pub_topic : list Z) : outcome Z :=
  let '(ret, sub_filter_tokens) := rrr_mqtt_topic_tokenize alloc_filter sub_filter in
  if negb (ret =? 0) then Ret RRR_MQTT_TOKEN_INTERNAL_ERROR
  else
    let '(ret, pub_topic_tokens) := rrr_mqtt_topic_tokenize_with_end alloc_topic pub_topic in
    if negb (ret =? 0) then Ret RRR_MQTT_TOKEN_INTERNAL_ERROR
    else rrr_mqtt_topic_match_tokens_recursively sub_filter_tokens pub_topic_tokens.

Definition rrr_mqtt_topic_match_str (alloc_filter alloc_topic : nat -> bool)
    (sub_filter pub_topic : list Z) : outcome Z :=
  rrr_mqtt_topic_match_str_with_end alloc_filter alloc_topic sub_filter pub_topic.

(** * Topic levels and what a filter matches *)

Definition levels (topic : list Z) : list (list Z) := split_on SLASH topic.

Definition level_matches (f t : list Z) : bool :=
  if strcmp_eq f [PLUS] then negb (first_char t =? DOLLAR) else strcmp_eq f t.

Fixpoint filter_matches (filter topic : list (list Z)) : bool :=
  match filter, topic with
  | [], [] => true
  | f :: filter, t :: topic =>
    if strcmp_eq f [HASH] then negb (first_char t =? DOLLAR)
    else level_matches f t && filter_matches filter topic
  | _, _ => false
  end.

(** A level is one wildcard or has none; '#' is the last level. *)
Definition plain (l : list Z) : Prop := (HASH ∉ l) /\ (PLUS ∉ l).

Inductive valid_filter : list (list Z) -> Prop :=
| valid_nil : valid_filter []
| valid_hash : valid_filter [[HASH]]
| valid_plus ls : valid_filter ls -> valid_filter ([PLUS] :: ls)
| valid_plain l ls : plain l -> valid_filter ls -> valid_filter (l :: ls).

#[local] Hint Constructors valid_filter : rrr.

Definition match_result (b : bool) : outcome Z :=
  Ret (if b then RRR_MQTT_TOKEN_MATCH else RRR_MQTT_TOKEN_MISMATCH).

Lemma strcmp_eq_refl a : strcmp_eq a a = true.
Proof. unfold strcmp_eq. by rewrite bool_decide_true. Qed.

Lemma strcmp_eq_ne a b : a <> b -> strcmp_eq a b = false.
Proof. unfold strcmp_eq. intros. by rewrite bool_decide_false. Qed.

Lemma plain_first l : plain l -> first_char l <> HASH /\ first_char l <> PLUS.
Proof.
  destruct l as [|c l]; [done|]. unfold plain. rewrite !not_elem_of_cons. simpl. intros [[] []]; auto.
Qed.

Lemma plain_not_wild l : plain l -> strcmp_eq l [HASH] = false /\ strcmp_eq l [PLUS] = false.
Proof.
  intros H. apply plain_first in H as [? ?]. split; apply strcmp_eq_ne; by intros ->.
Qed.

(** The recursive matcher decides the relation and never aborts. *)
Lemma match_tokens_spec filter topic :
  valid_filter filter -> filter <> [] ->
  rrr_mqtt_topic_match_tokens_recursively filter topic
  = match_result (filter_matches filter topic).
Proof.
  intros Hv. revert topic. induction Hv as [| |ls Hv IH|l ls Hp Hv IH]; intros topic Hne; [done|..].
  - destruct topic as [|t topic]; [done|]. simpl. rewrite ?strcmp_eq_refl.
    by destruct (first_char t =? DOLLAR).
  - destruct topic as [|t topic]; [done|]. simpl. unfold level_matches. rewrite ?strcmp_eq_refl.
    simpl. destruct (first_char t =? DOLLAR); simpl; [done|].
    destruct ls as [|l' ls]; [by destruct topic|]. by rewrite IH.
  - destruct topic as [|t topic]; [done|]. simpl.
    destruct (plain_first l Hp) as [H1%Z.eqb_neq H2%Z.eqb_neq].
    destruct (plain_not_wild l Hp) as [W1 W2]. unfold level_matches. rewrite H1, H2, W1, W2.
    destruct (strcmp_eq l t); simpl; [|done].
    destruct ls as [|l' ls]; [by destruct topic|]. by rewrite IH.
Qed.

(** * Tokenizing *)

Lemma cstr_id l : 0 ∉ l -> cstr l = l.
Proof.
  induction l as [|b l IH]; simpl; [done|]. rewrite not_elem_of_cons. intros [? ?].
  rewrite (proj2 (Z.eqb_neq _ _)) by done. by rewrite IH.
Qed.

(** The first level is what precedes the first separator. *)
Lemma strnchr_split l :
  match rrr_mqtt_topic_strnchr l SLASH with
  | None => split_on SLASH l = [l]
  | Some k => (k < length l)%nat /\ l !! k = Some SLASH /\
              split_on SLASH l = take k l :: split_on SLASH (drop (S k) l)
  end.
Proof.
  induction l as [|b l IH]; simpl; [done|]. destruct (Z.eqb_spec b SLASH) as [->|Hne].
  - rewrite drop_0. split_and!; [lia|done|done].
  - destruct (rrr_mqtt_topic_strnchr l SLASH) as [k|]; simpl; [|by rewrite IH].
    destruct IH as (? & ? & ->). split_and!; [lia|done|done].
Qed.

Lemma no_nul_take_drop (k : nat) (l : list Z) : 0 ∉ l -> (0 ∉ take k l) /\ (0 ∉ drop k l).
Proof. rewrite <- (take_drop k l) at 1. rewrite not_elem_of_app. done. Qed.

Section Alloc.
Context (alloc : nat -> bool).

(** The first [k] allocations from [n] on. *)
Definition allocs (n k : nat) : bool := forallb alloc (seq n k).

Lemma tokenize_from_spec fuel n topic :
  topic <> [] -> 0 ∉ topic -> (length topic < fuel)%nat ->
  tokenize_from alloc fuel n topic
  = if allocs n (length (levels topic)) then (0, levels topic) else (1, []).
Proof.
  revert n topic. induction fuel as [|fuel IH]; intros n topic Hne Hz Hf; [lia|].
  cbn [tokenize_from]. destruct topic as [|b topic]; [done|].
  remember (b :: topic) as l eqn:El. clear El b topic.
  pose proof (strnchr_split l) as Hs. unfold levels.
  destruct (rrr_mqtt_topic_strnchr l SLASH) as [k|]; simpl default.
  - destruct Hs as (Hk & Hc & ->). destruct (no_nul_take_drop k l Hz) as [Hz1 _].
    destruct (no_nul_take_drop (S k) l Hz) as [_ Hz2]. rewrite (cstr_id _ Hz1).
    unfold allocs. cbn [length seq forallb]. destruct (alloc n); [cbn [negb andb]|done].
    case_bool_decide as Hlast.
    + simplify_eq. destruct fuel as [|fuel]; [lia|]. rewrite drop_ge by lia.
      cbn [tokenize_from split_on length seq forallb]. rewrite andb_true_r.
      by destruct (alloc (S n)).
    + rewrite Nat.add_1_r. pose proof (length_drop l (S k)) as Hd.
      destruct (drop (S k) l) as [|c l'] eqn:Ed; [simpl in Hd; exfalso; apply Hlast; f_equal; lia|].
      rewrite IH by (done || lia). unfold allocs, levels.
      by destruct (forallb alloc (seq (S n) _)).
  - rewrite Hs, firstn_all, (cstr_id _ Hz). rewrite bool_decide_false by done.
    unfold allocs. cbn [length seq forallb]. destruct (alloc n); simpl; [|done].
    by rewrite drop_ge by lia.
Qed.

Lemma tokenize_spec topic :
  topic <> [] -> 0 ∉ topic ->
  rrr_mqtt_topic_tokenize_with_end alloc topic
  = if allocs 0 (length (levels topic)) then (0, levels topic) else (1, []).
Proof. intros. apply tokenize_from_spec; [done..|lia]. Qed.

End Alloc.

(** Tokenizing a non-empty string gives its levels, in order: joined with
    separators they are the string, and no level has a separator (so a leading
    or trailing '/' makes an empty level).  It fails exactly when one of the
    allocations, one per level, fails, and then nothing is left allocated. *)
Lemma rrr_mqtt_topic_tokenize_correct alloc topic :
  topic <> [] -> 0 ∉ topic ->
  exists tokens,
    join SLASH tokens = topic /\ Forall (fun token => SLASH ∉ token) tokens /\
    rrr_mqtt_topic_tokenize alloc topic
    = if allocs alloc 0 (length tokens) then (0, tokens) else (1, []).
Proof.
  intros Hne Hz. exists (levels topic). destruct (join_split SLASH topic) as [? ?].
  split_and!; [done..|]. by apply tokenize_spec.
Qed.

(** * Validated filters are well formed *)

Definition pair_ok (a b : Z) : bool :=
  negb ((b =? HASH) && negb (a =? SLASH) && negb (a =? 0)) &&
  negb ((b =? PLUS) && negb (a =? SLASH) && negb (a =? 0)) &&
  negb (a =? HASH) &&
  negb ((a =? PLUS) && negb (b =? SLASH) && negb (a =? 0)).

Fixpoint chain_ok (prev : Z) (l : list Z) : bool :=
  match l with
  | [] => true
  | c :: l => pair_ok prev c && chain_ok c l
  end.

Lemma filter_char_ok c seq :
  rrr_mqtt_topic_filter_char_is_ok c seq
  = (if pair_ok (c2 seq) c then 0 else 1, mk_seq (c2 seq) c).
Proof.
  unfold rrr_mqtt_topic_filter_char_is_ok, pair_ok. simpl.
  repeat (case_match; simpl; try done).
Qed.

Lemma filter_chars_ok cps a prev :
  fst (run_callback rrr_mqtt_topic_filter_char_is_ok cps (mk_seq a prev)) = 0
  <-> chain_ok prev cps = true.
Proof.
  revert a prev. induction cps as [|c cps IH]; intros a prev; simpl; [done|].
  rewrite filter_char_ok. simpl. destruct (pair_ok prev c); simpl; [apply IH|done].
Qed.

(** The test sees characters through five classes only. *)
Definition class (c : Z) : Z :=
  if (c =? HASH) || (c =? PLUS) || (c =? SLASH) || (c =? 0) then c else 1.

Lemma class_cases c :
  class c = c \/ (class c = 1 /\ (c =? HASH) = false /\ (c =? PLUS) = false /\
                  (c =? SLASH) = false /\ (c =? 0) = false).
Proof.
  unfold class. destruct (c =? HASH), (c =? PLUS), (c =? SLASH), (c =? 0); simpl; auto 10.
Qed.

Lemma pair_ok_class a b : pair_ok a b = pair_ok (class a) (class b).
Proof.
  destruct (class_cases a) as [->|(-> & Ha1 & Ha2 & Ha3 & Ha4)],
    (class_cases b) as [->|(-> & Hb1 & Hb2 & Hb3 & Hb4)]; unfold pair_ok;
    rewrite ?Ha1, ?Ha2, ?Ha3, ?Ha4, ?Hb1, ?Hb2, ?Hb3, ?Hb4; done.
Qed.

Lemma chain_ok_class prev l : chain_ok prev l = chain_ok (class prev) (class <$> l).
Proof.
  revert prev. induction l as [|c l IH]; intros prev; simpl; [done|].
  by rewrite pair_ok_class, IH.
Qed.

Lemma class_high b : 0x80 <= b -> class b = 1.
Proof. intros. unfold class, HASH, PLUS, SLASH. btests. Qed.

Lemma class_encode cp :
  scalar cp -> 0x80 <= cp -> exists n, class <$> utf8_encode cp = replicate (S n) 1.
Proof.
  unfold scalar, utf8_encode. intros ? ?. rewrite (proj2 (Z.ltb_ge _ _)) by lia.
  repeat case_match; simpl; rewrite !class_high by zdiv;
    [exists 1%nat|exists 2%nat|exists 3%nat]; done.
Qed.

Lemma chain_ok_ones prev n l :
  chain_ok prev (replicate (S n) 1 ++ l) = pair_ok prev 1 && chain_ok 1 l.
Proof.
  revert prev. induction n as [|n IH]; intros prev; [done|].
  change (replicate (S (S n)) 1) with (1 :: replicate (S n) 1). cbn [app chain_ok].
  by rewrite IH.
Qed.

(** A character and its encoding have the same effect on the test. *)
Lemma chain_ok_encode prev cp l :
  scalar cp ->
  chain_ok prev (utf8_encode cp ++ l) = pair_ok prev cp && chain_ok cp l.
Proof.
  intros Hs. destruct (Z.lt_ge_cases cp 0x80).
  { unfold utf8_encode. by rewrite (proj2 (Z.ltb_lt _ _)). }
  rewrite (chain_ok_class cp), (pair_ok_class prev cp), (class_high cp) by done.
  rewrite (chain_ok_class prev), fmap_app.
  destruct (class_encode cp Hs) as [n ->]; [done|]. apply chain_ok_ones.
Qed.

Lemma chain_ok_encode_all prev cps :
  Forall scalar cps -> chain_ok prev (utf8_encode_all cps) = chain_ok prev cps.
Proof.
  intros H. revert prev. induction H as [|cp cps Hs _ IH]; intros prev; simpl; [done|].
  by rewrite chain_ok_encode, IH.
Qed.

(** What the test leaves possible after [prev], level by level. *)
Definition levels_after (prev : Z) (l h : list Z) (t : list (list Z)) : Prop :=
  ((prev = 0 \/ prev = SLASH) -> valid_filter (h :: t)) /\
  (prev = PLUS -> h = [] /\ valid_filter t) /\
  (prev = HASH -> l = []) /\
  (prev <> HASH -> prev <> PLUS -> prev <> SLASH -> prev <> 0 -> plain h /\ valid_filter t).

Lemma plain_nil : plain [].
Proof. split; apply not_elem_of_nil. Qed.

Lemma plain_cons c l : c <> HASH -> c <> PLUS -> plain l -> plain (c :: l).
Proof. unfold plain. rewrite !not_elem_of_cons. intros ? ? [? ?]. auto. Qed.

#[local] Hint Resolve plain_nil plain_cons : rrr.

Lemma pair_ok_spec a b :
  pair_ok a b = true ->
  (b = HASH \/ b = PLUS -> a = SLASH \/ a = 0) /\ a <> HASH /\ (a = PLUS -> b = SLASH).
Proof.
  unfold pair_ok, HASH, PLUS, SLASH.
  destruct (Z.eqb_spec b 35), (Z.eqb_spec a 47), (Z.eqb_spec a 0), (Z.eqb_spec b 43),
    (Z.eqb_spec a 35), (Z.eqb_spec a 43), (Z.eqb_spec b 47); simpl; intros; try done; lia.
Qed.

Lemma chain_ok_levels prev l :
  0 ∉ l -> chain_ok prev l = true ->
  match split_on SLASH l with [] => False | h :: t => levels_after prev l h t end.
Proof.
  revert prev. induction l as [|c l IH]; intros prev Hz.
  - intros _. simpl. unfold levels_after. split_and!; intros; auto with rrr.
  - apply not_elem_of_cons in Hz as [Hc0 Hz]. simpl. intros [Hp Hc]%andb_true_iff.
    specialize (IH c Hz Hc). apply pair_ok_spec in Hp as (P1 & P2 & P3).
    destruct (split_on SLASH l) as [|h t] eqn:El; [done|]. destruct IH as (I1 & I2 & I3 & I4).
    unfold levels_after. destruct (Z.eqb_spec c SLASH) as [->|Hs].
    { split_and!; intros; auto with rrr; done. }
    destruct (Z.eq_dec c HASH) as [->|Hh]; [|destruct (Z.eq_dec c PLUS) as [->|Hpl]].
    + rewrite (I3 eq_refl) in El. simpl in El. simplify_eq.
      split_and!; intros; auto with rrr; [exfalso; tauto|done|destruct P1; tauto].
    + destruct (I2 eq_refl) as [-> ?].
      split_and!; intros; auto with rrr; [exfalso; tauto|done|destruct P1; tauto].
    + destruct I4 as [? ?]; [done..|].
      split_and!; intros; auto with rrr; [exfalso; tauto|done].
Qed.

Lemma valid_filter_inv h t :
  valid_filter (h :: t) ->
  (h = [HASH] /\ t = []) \/ (h = [PLUS] /\ valid_filter t) \/ (plain h /\ valid_filter t).
Proof. inversion 1; subst; auto. Qed.

Lemma plain_inv c l : plain (c :: l) -> c <> HASH /\ c <> PLUS /\ plain l.
Proof. unfold plain. rewrite !not_elem_of_cons. intros [[] []]. auto. Qed.

Lemma pair_ok_intro a b :
  (b = HASH \/ b = PLUS -> a = SLASH \/ a = 0) -> a <> HASH -> (a = PLUS -> b = SLASH) ->
  pair_ok a b = true.
Proof.
  unfold pair_ok, HASH, PLUS, SLASH.
  destruct (Z.eqb_spec b 35), (Z.eqb_spec a 47), (Z.eqb_spec a 0), (Z.eqb_spec b 43),
    (Z.eqb_spec a 35), (Z.eqb_spec a 43), (Z.eqb_spec b 47); simpl; intros; try done; lia.
Qed.

Lemma split_on_nil l : split_on SLASH l = [[]] -> l = [].
Proof. intros H. destruct (join_split SLASH l) as [<- _]. by rewrite H. Qed.

(** A level begun with a plain or a wildcard character continues as it must. *)
Lemma levels_after_step prev c l h t :
  split_on SLASH l = h :: t -> c <> SLASH -> c <> 0 ->
  levels_after prev (c :: l) (c :: h) t -> pair_ok prev c = true /\ levels_after c l h t.
Proof.
  intros El Hc Hc0 (L1 & L2 & L3 & L4).
  assert (prev <> HASH) as Hh by (intros ->; by discriminate L3).
  assert (prev <> PLUS) as Hp by (intros ->; by destruct (L2 eq_refl)).
  destruct (decide (prev = 0 \/ prev = SLASH)) as [Hst|Hst].
  - destruct (valid_filter_inv _ _ (L1 Hst)) as [[[= -> ->] ->]|[[[= -> ->] Hv]|[Hpl Hv]]].
    + apply split_on_nil in El as ->. split; [apply pair_ok_intro; tauto|].
      split_and!; intros; auto with rrr; destruct_or?; done.
    + split; [apply pair_ok_intro; tauto|]. split_and!; intros; auto; destruct_or?; done.
    + apply plain_inv in Hpl as (? & ? & ?). split; [apply pair_ok_intro; tauto|].
      split_and!; intros; auto; destruct_or?; done.
  - destruct L4 as [(? & ? & ?)%plain_inv ?]; [tauto..|].
    split; [apply pair_ok_intro; tauto|]. split_and!; intros; auto; destruct_or?; done.
Qed.

Lemma levels_after_end prev l t :
  prev <> HASH -> levels_after prev l [] t -> valid_filter t.
Proof.
  intros Hh (L1 & L2 & L3 & L4). destruct (decide (prev = 0 \/ prev = SLASH)) as [Hst|Hst].
  - by destruct (valid_filter_inv _ _ (L1 Hst)) as [[[=] _]|[[[=] _]|[_ ?]]].
  - destruct (Z.eq_dec prev PLUS); [by apply L2|apply L4; tauto].
Qed.

Lemma levels_chain_ok prev l h t :
  0 ∉ l -> split_on SLASH l = h :: t -> levels_after prev l h t -> chain_ok prev l = true.
Proof.
  revert prev h t. induction l as [|c l IH]; intros prev h t Hz; [done|].
  apply not_elem_of_cons in Hz as [Hc0 Hz]. cbn [split_on chain_ok].
  destruct (split_on_cons SLASH l) as (h' & t' & El). rewrite El, andb_true_iff.
  destruct (Z.eqb_spec c SLASH) as [->|Hc]; intros [= <- <-] HL.
  - assert (prev <> HASH) as Hh by (intros ->; destruct HL as (_ & _ & L3 & _); by discriminate L3).
    pose proof (levels_after_end _ _ _ Hh HL) as Hv.
    split; [apply pair_ok_intro; [intros [[=]|[=]]|done|done]|].
    apply (IH SLASH h' t'); [done..|]. split_and!; intros; done.
  - destruct (levels_after_step _ _ _ _ _ El Hc (not_eq_sym Hc0) HL) as [? ?]. eauto.
Qed.

Lemma chain_ok_valid l : 0 ∉ l -> chain_ok 0 l = true <-> valid_filter (levels l).
Proof.
  intros Hz. unfold levels. split; intros H.
  - pose proof (chain_ok_levels 0 l Hz H) as Hl.
    destruct (split_on SLASH l) as [|h t]; [done|]. apply Hl. auto.
  - destruct (split_on_cons SLASH l) as (h & t & El). rewrite El in H.
    apply (levels_chain_ok 0 l h t Hz El). split_and!; intros; done.
Qed.

Lemma text_scalar cps : text cps -> Forall scalar cps.
Proof. intros H. induction H as [|cp cps [? _] _ IH]; by constructor. Qed.

(** A string of UTF-8 text: without NUL the iteration covers it to its end. *)
Lemma iterate_string {St} (callback : Z -> St -> Z * St) f st :
  bytes_ok f -> 0 ∉ f ->
  fst (rrr_utf8_validate_and_iterate callback f st) = 0 <->
  exists cps, text cps /\ f = utf8_encode_all cps /\ fst (run_callback callback cps st) = 0.
Proof.
  intros Hb Hz. split.
  - destruct (rrr_utf8_validate_and_iterate callback f st) as [r st'] eqn:E. simpl. intros ->.
    apply iterate_zero in E as (cps & tail & Ht & Hs & -> & Hr); [|done]. exists cps.
    apply not_elem_of_app in Hz as [_ Hz].
    destruct Hs as [->|[r ->]]; [|by apply not_elem_of_cons in Hz as [? _]].
    by rewrite app_nil_r, Hr.
  - intros (cps & Ht & -> & Hr).
    rewrite <- (app_nil_r (utf8_encode_all cps)), iterate_text; [done..|by left].
Qed.

Lemma filter_validate_spec f :
  bytes_ok f -> 0 ∉ f ->
  rrr_mqtt_topic_filter_validate_name f = Ret 0 <->
  Z.of_nat (length f) <= 0xffff /\ (exists cps, text cps /\ f = utf8_encode_all cps) /\
  valid_filter (levels f).
Proof.
  intros Hb Hz. unfold rrr_mqtt_topic_filter_validate_name.
  destruct (Z.ltb_spec 0xffff (Z.of_nat (length f))) as [Hl|Hl].
  { split; [done|]. intros (? & _). lia. }
  rewrite length_from_size_t_spec, exact_or_bug_small by (unfold RRR_LENGTH_MAX; lia).
  rewrite bind_ret, <- (chain_ok_valid f Hz).
  split.
  - intros [= (cps & Ht & -> & Hr)%iterate_string]; [|done..].
    apply filter_chars_ok in Hr. rewrite chain_ok_encode_all by eauto using text_scalar. eauto.
  - intros (_ & (cps & Ht & ->) & Hc). f_equal. apply iterate_string; [done..|].
    exists cps. rewrite chain_ok_encode_all in Hc by eauto using text_scalar.
    split_and!; [done..|]. by apply filter_chars_ok.
Qed.

(** A filter string is accepted exactly when it fits in 65535 bytes, is
    UTF-8, and its levels are well formed: every wildcard is a level of its
    own, and '#' is the last one. *)
Lemma rrr_mqtt_topic_filter_validate_name_correct f :
  bytes_ok f -> 0 ∉ f ->
  rrr_mqtt_topic_filter_validate_name f = Ret 0 <->
  Z.of_nat (length f) <= 0xffff /\ (exists cps, text cps /\ f = utf8_encode_all cps) /\
  valid_filter (levels f).
Proof. apply filter_validate_spec. Qed.

(** * Topic names *)

Lemma name_chars_ok cps st :
  fst (run_callback rrr_mqtt_topic_name_char_is_ok cps st) = 0 <-> plain cps.
Proof.
  revert st. induction cps as [|c cps IH]; intros st; simpl.
  - split; [intros _; apply plain_nil|done].
  - unfold rrr_mqtt_topic_name_char_is_ok at 1.
    destruct (Z.eqb_spec c HASH) as [Hh|Hh], (Z.eqb_spec c PLUS) as [Hp|Hp]; simpl;
      [| | |rewrite IH; split; [by apply plain_cons|by intros (_ & _ & ?)%plain_inv]];
      (split; [done|intros (? & ? & _)%plain_inv; done]).
Qed.

(** A name is accepted when it is non-empty text without wildcards. *)
Lemma validate_name_with_end_spec t :
  bytes_ok t -> 0 ∉ t -> Z.of_nat (length t) <= RRR_LENGTH_MAX ->
  exists valid, rrr_mqtt_topic_validate_name_with_end t = Ret valid /\
    (valid = 0 <-> t <> [] /\ exists cps, text cps /\ t = utf8_encode_all cps /\ plain cps).
Proof.
  intros Hb Hz Hl. unfold rrr_mqtt_topic_validate_name_with_end. destruct t as [|b t].
  { exists 1. split; [done|]. split; [done|]. by intros [? _]. }
  rewrite length_from_ptr_sub_spec, exact_or_bug_small by (unfold RRR_LENGTH_MAX in *; lia).
  rewrite bind_ret. eexists. split; [done|]. rewrite iterate_string by done.
  split.
  - intros (cps & ? & ? & ?%name_chars_ok). eauto 6.
  - intros (_ & cps & ? & ? & ?). exists cps. by rewrite name_chars_ok.
Qed.

(** * The matcher that works directly on the strings *)

Lemma skip_level_split topic :
  exists h t, split_on SLASH topic = h :: t /\
    split_on SLASH (skip_level topic).2 = [] :: t.
Proof.
  induction topic as [|c topic IH]; [by exists [], []|]. simpl.
  destruct (Z.eqb_spec c SLASH) as [->|Hc]; [by exists [], (split_on SLASH topic)|].
  destruct IH as (h & t & -> & ->). by exists (c :: h), t.
Qed.

Lemma strcmp_eq_cons a b l l' :
  strcmp_eq (a :: l) (b :: l') = (a =? b) && strcmp_eq l l'.
Proof.
  destruct (Z.eqb_spec a b) as [->|]; simpl; [|apply strcmp_eq_ne; congruence].
  unfold strcmp_eq. apply bool_decide_ext. split; congruence.
Qed.

Lemma filter_matches_plain h t h' t' :
  plain h -> filter_matches (h :: t) (h' :: t') = strcmp_eq h h' && filter_matches t t'.
Proof.
  intros Hp. simpl. unfold level_matches. destruct (plain_not_wild h Hp) as [-> ->]. done.
Qed.

Section LinearSpec.
Context (topic_after filter_after : list Z) (after : Z).
Context (Htopic : hd_error topic_after = Some after) (Hafter : after <> DOLLAR).
Context (Hfilter : filter_after <> []).

Lemma deref_dollar topic :
  exists b, deref topic topic_after = Ret b /\
    forall h t, split_on SLASH topic = h :: t -> (b =? DOLLAR) = (first_char h =? DOLLAR).
Proof using Htopic Hafter.
  destruct topic as [|c topic].
  - destruct topic_after as [|a l]; [done|]. simplify_eq/=. exists after. split; [done|].
    intros h t [= <- <-]. by rewrite (proj2 (Z.eqb_neq _ _) Hafter).
  - exists c. split; [done|]. intros h t. simpl. destruct (split_on_cons SLASH topic) as (h' & t' & ->).
    destruct (Z.eqb_spec c SLASH) as [->|]; by intros [= <- <-].
Qed.

(** Within a plain level, whatever the positions in it. *)
Definition inside_spec (l : list Z) : Prop := forall topic p q h t h' t',
  split_on SLASH l = h :: t -> plain h -> valid_filter t -> split_on SLASH topic = h' :: t' ->
  linear_loop topic_after filter_after l topic p q
  = match_result (strcmp_eq h h' && filter_matches t t').

(** At the start of a level. *)
Definition start_spec (l : list Z) : Prop := forall topic,
  valid_filter (split_on SLASH l) ->
  linear_loop topic_after filter_after l topic 0 0
  = match_result (filter_matches (split_on SLASH l) (split_on SLASH topic)).

Lemma linear_inside_nil : inside_spec [].
Proof using Hfilter.
  intros topic p q h t h' t' [= <- <-] _ _ Et. destruct topic as [|c topic]; simplify_eq/=.
  - by destruct filter_after.
  - destruct (split_on_cons SLASH topic) as (h & t & E). rewrite E in Et.
    destruct (c =? SLASH); injection Et as <- <-; done.
Qed.

Lemma linear_inside_cons c l : start_spec l -> inside_spec l -> inside_spec (c :: l).
Proof.
  intros HA HB topic p q h t h' t' El Hp Hv Et. cbn [split_on] in El.
  destruct (split_on_cons SLASH l) as (lh & lt & E). rewrite E in El.
  assert (c <> HASH /\ c <> PLUS) as [H1%Z.eqb_neq H2%Z.eqb_neq].
  { destruct (Z.eqb_spec c SLASH) as [->|]; [done|]. simplify_eq. by apply plain_inv in Hp as (? & ? & _). }
  cbn [linear_loop]. rewrite H1, H2. destruct topic as [|d topic].
  { injection Et as <- <-. destruct (c =? SLASH); by injection El as <- <-. }
  cbn [split_on] in Et. destruct (split_on_cons SLASH topic) as (th & tt & E'). rewrite E' in Et.
  destruct (Z.eqb_spec c d) as [->|Hne]; simpl.
  - destruct (d =? SLASH); injection El as <- <-; injection Et as <- <-.
    + rewrite <- E in Hv. rewrite (HA _ Hv), E', E. done.
    + apply plain_inv in Hp as (_ & _ & Hp).
      rewrite (HB _ _ _ lh lt th tt), strcmp_eq_cons, Z.eqb_refl by done. done.
  - destruct (Z.eqb_spec c SLASH), (Z.eqb_spec d SLASH); injection El as <- <-;
      injection Et as <- <-; rewrite ?strcmp_eq_cons, ?(proj2 (Z.eqb_neq _ _) Hne); first [done | congruence].
Qed.

Lemma linear_start c l : inside_spec (c :: l) -> inside_spec l -> start_spec (c :: l).
Proof using Htopic Hafter.
  intros HB' HB topic Hv. destruct (split_on_cons SLASH (c :: l)) as (h & t & El).
  destruct (split_on_cons SLASH topic) as (h' & t' & Et). rewrite El in Hv.
  pose proof El as El'. cbn [split_on] in El.
  destruct (split_on_cons SLASH l) as (lh & lt & E). rewrite E in El.
  destruct (deref_dollar topic) as (b & Hb & Hd). specialize (Hd _ _ Et). rewrite El', Et.
  destruct (valid_filter_inv _ _ Hv) as [[-> ->]|[[-> Hvt]|[Hp Hvt]]].
  - destruct (c =? SLASH); [done|]. injection El as -> -> ->. cbn [linear_loop Z.eqb negb orb].
    change (HASH =? HASH) with true. cbn iota. rewrite Hb, bind_ret, Hd.
    cbn [filter_matches]. rewrite strcmp_eq_refl. by destruct (first_char h' =? DOLLAR).
  - destruct (c =? SLASH); [done|]. injection El as -> -> ->. cbn [linear_loop].
    change (PLUS =? HASH) with false. change (PLUS =? PLUS) with true. cbn [Z.eqb negb orb].
    rewrite Hb, bind_ret, Hd. cbn [filter_matches].
    unfold level_matches. rewrite strcmp_eq_refl, strcmp_eq_ne by done.
    destruct (first_char h' =? DOLLAR); [done|].
    destruct (skip_level_split topic) as (h2 & t2 & Et2 & Esk). rewrite Et in Et2.
    injection Et2 as <- <-.
    destruct (skip_level topic) as [found pos]. simpl in Esk.
    by rewrite (HB _ _ _ [] t [] t') by auto using plain_nil.
  - rewrite (HB' _ _ _ h t h' t') by done. by rewrite filter_matches_plain.
Qed.

Lemma linear_loop_spec l : start_spec l.
Proof using Htopic Hafter Hfilter.
  assert (start_spec l /\ inside_spec l) as [? _]; [|done].
  induction l as [|c l [IHA IHB]].
  - split; [|apply linear_inside_nil]. intros topic _.
    destruct (split_on_cons SLASH topic) as (h & t & E).
    rewrite (linear_inside_nil topic 0 0 [] [] h t), E, <- filter_matches_plain;
      auto using plain_nil, valid_nil.
  - pose proof (linear_inside_cons c l IHA IHB). split; [|done]. by apply linear_start.
Qed.
End LinearSpec.

Lemma allocs_true alloc n k : (forall i, alloc i = true) -> allocs alloc n k = true.
Proof. intros H. unfold allocs. apply forallb_forall. auto. Qed.

(** The matcher over strings, through tokens. *)
Lemma match_str_spec alloc_filter alloc_topic f t :
  (forall n, alloc_filter n = true) -> (forall n, alloc_topic n = true) ->
  f <> [] -> t <> [] -> 0 ∉ f -> 0 ∉ t -> valid_filter (levels f) ->
  rrr_mqtt_topic_match_str alloc_filter alloc_topic f t
  = match_result (filter_matches (levels f) (levels t)).
Proof.
  intros Hf Ht ? ? ? ? Hv. unfold rrr_mqtt_topic_match_str, rrr_mqtt_topic_match_str_with_end,
    rrr_mqtt_topic_tokenize. rewrite !tokenize_spec, !allocs_true by done. simpl.
  apply match_tokens_spec; [done|]. unfold levels.
  by destruct (split_on_cons SLASH f) as (? & ? & ->).
Qed.

(** C20. The two matchers agree.  For a filter that was validated, matching
    through allocated token lists and matching directly over the strings both
    return (neither aborts), and both decide whether the filter matches the
    topic level by level: '+' one level, '#' the rest, neither of them a level
    that begins with '$'.  The bytes after the strings are those of the
    surrounding objects; the one after the topic is not '$'. *)
Theorem rrr_mqtt_topic_matchers_agree alloc_filter alloc_topic topic_after filter_after after f t :
  (forall n, alloc_filter n = true) -> (forall n, alloc_topic n = true) ->
  bytes_ok f -> f <> [] -> t <> [] -> 0 ∉ f -> 0 ∉ t ->
  hd_error topic_after = Some after -> after <> DOLLAR -> filter_after <> [] ->
  rrr_mqtt_topic_filter_validate_name f = Ret 0 ->
  rrr_mqtt_topic_match_str alloc_filter alloc_topic f t
    = match_result (filter_matches (levels f) (levels t)) /\
  rrr_mqtt_topic_match_topic_and_linear_with_end topic_after filter_after t f
    = match_result (filter_matches (levels f) (levels t)).
Proof.
  intros ? ? ? Hf Ht Hz ? ? ? ? Hok. unfold rrr_mqtt_topic_filter_validate_name in Hok.
  destruct (0xffff <? _); [done|].
  destruct (rrr_length_from_size_t_bug_const _); [|done..]. rewrite bind_ret in Hok.
  injection Hok as (cps & Ht' & -> & Hr)%iterate_string; [|done..].
  apply filter_chars_ok in Hr. rewrite <- chain_ok_encode_all in Hr by eauto using text_scalar.
  apply chain_ok_valid in Hr; [|done]. split; [by apply match_str_spec|].
  unfold rrr_mqtt_topic_match_topic_and_linear_with_end.
  destruct t as [|b t]; [done|]. destruct (utf8_encode_all cps) as [|b' f]; [done|].
  by apply (linear_loop_spec topic_after filter_after after).
Qed.

Lemma rrr_mqtt_topic_matchers_agree_witness :
  let f := [97; SLASH; PLUS; SLASH; HASH] in let t := [97; SLASH; 98; SLASH; 99; SLASH; 100] in
  rrr_mqtt_topic_match_str (fun _ => true) (fun _ => true) f t
    = match_result (filter_matches (levels f) (levels t)) /\
  rrr_mqtt_topic_match_topic_and_linear_with_end [0] [0] t f
    = match_result (filter_matches (levels f) (levels t)).
Proof.
  intros f t. apply (rrr_mqtt_topic_matchers_agree (fun _ => true) (fun _ => true) [0] [0] 0);
    try done; by apply (bool_decide_unpack _).
Defined.

(** The string matcher reads the byte at [topic_end]: with the same topic and
    filter, the result depends on what follows the topic in memory. *)
Lemma linear_reads_past_topic :
  let f := [97; SLASH; PLUS] in let t := [97; SLASH] in
  rrr_mqtt_topic_match_topic_and_linear_with_end [120] [0] t f = Ret RRR_MQTT_TOKEN_MATCH /\
  rrr_mqtt_topic_match_topic_and_linear_with_end [DOLLAR] [0] t f = Ret RRR_MQTT_TOKEN_MISMATCH /\
  rrr_mqtt_topic_match_topic_and_linear_with_end [] [0] t f = Oob.
Proof. vm_compute. auto. Qed.

(** ["sport/#"] does not match its parent level ["sport"]. *)
Lemma hash_does_not_match_parent :
  rrr_mqtt_topic_match_str (fun _ => true) (fun _ => true)
    [115; 112; 111; 114; 116; SLASH; HASH] [115; 112; 111; 114; 116]
  = Ret RRR_MQTT_TOKEN_MISMATCH.
Proof. vm_compute. reflexivity. Qed.

(** Access control: a subscription with '#' at some level is only covered
    by an ACL entry that itself has '#' at that level or before it. *)
Lemma rrr_mqtt_topic_acl_hash_needs_hash master slave (i : nat) level :
  rrr_mqtt_topic_match_tokens_recursively_acl master slave = RRR_MQTT_TOKEN_MATCH ->
  slave !! i = Some level -> first_char level = HASH ->
  exists (j : nat) level', (j <= i)%nat /\ master !! j = Some level' /\ first_char level' = HASH.
Proof.
  revert slave i. induction master as [|m master IH]; intros slave i; [done|].
  destruct slave as [|s slave]; [done|]. simpl.
  destruct (Z.eqb_spec (first_char m) HASH) as [Hm|Hm].
  { intros _ _ _. exists 0%nat, m. split_and!; [lia|done..]. }
  destruct (Z.eqb_spec (first_char s) HASH) as [Hs|Hs]; [done|].
  intros Hrest Hi Hl. destruct i as [|i]; [simplify_eq/=; done|]. simpl in Hi.
  assert (rrr_mqtt_topic_match_tokens_recursively_acl master slave = RRR_MQTT_TOKEN_MATCH) as Hr.
  { destruct slave as [|s' slave]; [done|].
    destruct master as [|m' master], (_ || _), (first_char m =? DOLLAR), (strcmp_eq m s); done. }
  destruct (IH slave i Hr Hi Hl) as (j & level' & ? & ? & ?).
  exists (S j), level'. split_and!; [lia|done..].
Qed.

(** The '+' of a subscription is covered by any literal ACL level: the entry
    ["a"] covers the subscription ["+"], which also matches ["b"]. *)
Lemma acl_literal_covers_plus :
  rrr_mqtt_topic_match_tokens_recursively_acl (levels [97]) (levels [PLUS]) = RRR_MQTT_TOKEN_MATCH /\
  filter_matches (levels [PLUS]) (levels [98]) = true /\
  filter_matches (levels [97]) (levels [98]) = false.
Proof. vm_compute. auto. Qed.

End MqttTopic.
