(* ===== verification/MqttAcl.v ===== *)
(** The access list of the MQTT broker (src/src/lib/mqtt/mqtt_acl.c): the list of
    topic blocks, the parser of the file they are written in, and the decision for a
    topic and a user; with the reading of the file (src/src/lib/socket/rrr_socket.c).
    C strings are lists of non-zero bytes, the linked lists are lists. *)
From S2P Require Import Prelude Types Utf8 Parse ParseText MqttTopic.

Module MqttAcl.
Import Types Utf8 Parse ParseText MqttTopic.

Definition RRR_MQTT_ACL_ACTION_DENY : Z := 0.
Definition RRR_MQTT_ACL_ACTION_RO : Z := 1.
Definition RRR_MQTT_ACL_ACTION_RW : Z := 2.
Definition RRR_MQTT_ACL_ACTION_DEFAULT : Z := RRR_MQTT_ACL_ACTION_DENY.

Definition RRR_MQTT_ACL_RESULT_ALLOW : Z := 0.
Definition RRR_MQTT_ACL_RESULT_ERR : Z := 1.
Definition RRR_MQTT_ACL_RESULT_DENY : Z := 2.
Definition RRR_MQTT_ACL_RESULT_DISCONNECT : Z := 3.

Record rrr_mqtt_acl_user_entry := mk_user { username : list Z; action : Z }.

(** [users] is the list the entry is the head of. *)
Record rrr_mqtt_acl_entry := mk_entry {
  users : list rrr_mqtt_acl_user_entry;
  default_action : Z;
  default_action_is_set : Z;
  first_token : list (list Z);
  topic_orig : list Z
}.

Abbreviation rrr_mqtt_acl := (list rrr_mqtt_acl_entry).

Definition set_default_action (v : Z) (e : rrr_mqtt_acl_entry) : rrr_mqtt_acl_entry :=
  mk_entry (users e) v (default_action_is_set e) (first_token e) (topic_orig e).
Definition set_default_action_is_set (v : Z) (e : rrr_mqtt_acl_entry) : rrr_mqtt_acl_entry :=
  mk_entry (users e) (default_action e) v (first_token e) (topic_orig e).

Definition rrr_mqtt_acl_entry_collection_clear (collection : rrr_mqtt_acl) : rrr_mqtt_acl := [].

(** The keywords, as C strings. *)
Definition DENY : list Z := [68; 69; 78; 89].
Definition READ : list Z := [82; 69; 65; 68].
Definition WRITE : list Z := [87; 82; 73; 84; 69].
Definition DEFAULT : list Z := [68; 69; 70; 65; 85; 76; 84].
Definition USER : list Z := [85; 83; 69; 82].
Definition TOPIC : list Z := [84; 79; 80; 73; 67].

(** Allocation [n] succeeds when [alloc n] holds.  The functions that allocate take
    the number of allocations made before and return the number made after, which
    counts nothing once they have failed: the parser then stops. *)
Section Parser.
Context (alloc : nat -> bool).

Definition rrr_mqtt_acl_user_entry_new_and_append (n : nat) (target : rrr_mqtt_acl_entry)
    (username : list Z) (action : Z) : Z * nat * rrr_mqtt_acl_entry :=
  if negb (alloc n) then (1, n, target)
  else if negb (alloc (n + 1)%nat) then (1, n, target)
  else
    (0, (n + 2)%nat,
     mk_entry (users target ++ [mk_user username action]) (default_action target)
       (default_action_is_set target) (first_token target) (topic_orig target)).

Definition rrr_mqtt_acl_entry_collection_push_new (n : nat) (collection : rrr_mqtt_acl)
    (first_token : list (list Z)) (topic_orig : list Z) : Z * nat * rrr_mqtt_acl :=
  if negb (alloc n) then (1, n, collection)
  else
    let '(ret, tokens) :=
      rrr_mqtt_topic_tokens_clone (fun i => alloc (n + 1 + i)%nat) first_token in
    if negb (ret =? 0) then (1, n, collection)
    else
      let n := (n + 1 + length tokens)%nat in
      if negb (alloc n) then (1, n, collection)
      else (0, (n + 1)%nat,
            collection ++ [mk_entry [] RRR_MQTT_ACL_ACTION_DEFAULT 0 tokens topic_orig]).

(** A round that goes on has taken the '#', so [size - pos] rounds and one more are
    enough; running out would be [Bug]. *)
Fixpoint new_comment (fuel : nat) (p : rrr_parse_pos) : outcome rrr_parse_pos :=
  match fuel with
  | O => Bug
  | S fuel =>
    p ← rrr_parse_ignore_spaces_and_increment_line p;
    if RRR_PARSE_CHECK_EOF p then Ret p
    else
      c ← load8 (data p) (pos p);
      if c =? 35 then p ← rrr_parse_comment p; new_comment fuel p
      else rrr_parse_ignore_spaces_and_increment_line p
  end.

Definition rrr_mqtt_acl_parse_spaces_and_comments (p : rrr_parse_pos) : outcome rrr_parse_pos :=
  new_comment (S (Z.to_nat (size p - pos p))) p.

Definition rrr_mqtt_acl_parse_require_newline_or_eof (p : rrr_parse_pos)
  : outcome (Z * rrr_parse_pos) :=
  let pos_orig := pos p in
  let line_orig := line p in
  p ← rrr_parse_ignore_spaces_and_increment_line p;
  if RRR_PARSE_CHECK_EOF p then Ret (0, p)
  else if pos_orig =? pos p then Ret (1, p)
  else if negb (line_orig =? line p) then Ret (0, p)
  else Ret (1, p).

Definition rrr_mqtt_acl_parse_require_space_then_non_newline (p : rrr_parse_pos)
  : outcome (Z * rrr_parse_pos) :=
  let pos_orig := pos p in
  let line_orig := line p in
  p ← rrr_parse_ignore_spaces_and_increment_line p;
  if (pos_orig =? pos p) || negb (line_orig =? line p) then Ret (1, p) else Ret (0, p).

(** The status, [*action] and the position. *)
Definition rrr_mqtt_acl_parse_acl_action (p : rrr_parse_pos) : outcome (Z * Z * rrr_parse_pos) :=
  '(found, p) ← rrr_parse_match_word_case p DENY;
  if found =? 1 then Ret (0, RRR_MQTT_ACL_ACTION_DENY, p)
  else
    '(found, p) ← rrr_parse_match_word_case p READ;
    if found =? 1 then Ret (0, RRR_MQTT_ACL_ACTION_RO, p)
    else
      '(found, p) ← rrr_parse_match_word_case p WRITE;
      if found =? 1 then Ret (0, RRR_MQTT_ACL_ACTION_RW, p)
      else Ret (1, RRR_MQTT_ACL_ACTION_DEFAULT, p).

Definition rrr_mqtt_acl_parse_keyword_default (entry : rrr_mqtt_acl_entry) (p : rrr_parse_pos)
  : outcome (Z * rrr_mqtt_acl_entry * rrr_parse_pos) :=
  '(ret, p) ← rrr_mqtt_acl_parse_require_space_then_non_newline p;
  if negb (ret =? 0) then Ret (1, entry, p)
  else
    '(ret, action, p) ← rrr_mqtt_acl_parse_acl_action p;
    let entry := set_default_action action entry in
    if negb (ret =? 0) then Ret (1, entry, p)
    else
      '(ret, p) ← rrr_mqtt_acl_parse_require_newline_or_eof p;
      if negb (ret =? 0) then Ret (1, entry, p) else Ret (0, entry, p).

Definition rrr_mqtt_acl_parse_keyword_user (n : nat) (entry : rrr_mqtt_acl_entry)
    (p : rrr_parse_pos) : outcome (Z * nat * rrr_mqtt_acl_entry * rrr_parse_pos) :=
  p ← rrr_parse_ignore_space_and_tab p;
  '(p, username_start, username_end) ←
    rrr_parse_match_letters p (RRR_PARSE_MATCH_LETTERS ||| RRR_PARSE_MATCH_NUMBERS);
  if username_end <? username_start then Ret (1, n, entry, p)
  else
    d ← rrr_length_from_slength_sub_bug_const username_end username_start;
    length ← rrr_length_inc_bug_const d;
    '(ret, username_tmp) ← rrr_parse_str_extract (alloc n) p username_start length;
    match username_tmp with
    | None => Ret (ret, n, entry, p)
    | Some bytes =>
      let username_tmp := cstr bytes in
      '(ret, p) ← rrr_mqtt_acl_parse_require_space_then_non_newline p;
      if negb (ret =? 0) then Ret (ret, n, entry, p)
      else
        '(ret, action, p) ← rrr_mqtt_acl_parse_acl_action p;
        if negb (ret =? 0) then Ret (ret, n, entry, p)
        else
          '(ret, p) ← rrr_mqtt_acl_parse_require_newline_or_eof p;
          if negb (ret =? 0) then Ret (ret, n, entry, p)
          else if (List.length username_tmp =? 0)%nat then Bug
          else
            let '(ret, n, entry) :=
              rrr_mqtt_acl_user_entry_new_and_append (n + 1) entry username_tmp action in
            Ret (ret, n, entry, p)
    end.

(** A round that goes on has taken a keyword: [size - pos] rounds and one more are
    enough, and running out would be [Bug]. *)
Fixpoint topic_block_body_loop (fuel n : nat) (entry : rrr_mqtt_acl_entry) (p : rrr_parse_pos)
  : outcome (Z * nat * rrr_mqtt_acl_entry * rrr_parse_pos) :=
  match fuel with
  | O => Bug
  | S fuel =>
    if RRR_PARSE_CHECK_EOF p then Ret (0, n, entry, p)
    else
      let pos_orig := pos p in
      p ← rrr_mqtt_acl_parse_spaces_and_comments p;
      if RRR_PARSE_CHECK_EOF p then Ret (0, n, entry, p)
      else
        '(found, p) ← rrr_parse_match_word_case p DEFAULT;
        if found =? 1 then
          if negb (default_action_is_set entry =? 0) then Ret (1, n, entry, p)
          else
            '(ret, entry, p) ← rrr_mqtt_acl_parse_keyword_default entry p;
            if negb (ret =? 0) then Ret (1, n, entry, p)
            else topic_block_body_loop fuel n (set_default_action_is_set 1 entry) p
        else
          '(found, p) ← rrr_parse_match_word_case p USER;
          if found =? 1 then
            '(ret, n, entry, p) ← rrr_mqtt_acl_parse_keyword_user n entry p;
            if negb (ret =? 0) then Ret (1, n, entry, p)
            else topic_block_body_loop fuel n entry p
          else
            '(found, p) ← rrr_parse_match_word_case p TOPIC;
            if found =? 1 then Ret (0, n, entry, set_pos pos_orig p)
            else Ret (1, n, entry, p)
  end.

Definition rrr_mqtt_acl_parse_topic_block_body (n : nat) (entry : rrr_mqtt_acl_entry)
    (p : rrr_parse_pos) : outcome (Z * nat * rrr_mqtt_acl_entry * rrr_parse_pos) :=
  topic_block_body_loop (S (Z.to_nat (size p - pos p))) n entry p.

Definition RRR_LL_LAST (collection : rrr_mqtt_acl) : option rrr_mqtt_acl_entry :=
  hd_error (rev collection).

(** The entry [RRR_LL_LAST] points to, changed in place. *)
Definition set_last (collection : rrr_mqtt_acl) (e : rrr_mqtt_acl_entry) : rrr_mqtt_acl :=
  removelast collection ++ [e].

Fixpoint topic_blocks_loop (fuel n : nat) (target : rrr_mqtt_acl) (p : rrr_parse_pos)
  : outcome (Z * rrr_mqtt_acl * rrr_parse_pos) :=
  match fuel with
  | O => Bug
  | S fuel =>
    p ← rrr_mqtt_acl_parse_spaces_and_comments p;
    if RRR_PARSE_CHECK_EOF p then Ret (0, target, p)
    else
      '(found, p) ← rrr_parse_match_word_case p TOPIC;
      if negb (found =? 1) then Ret (1, target, p)
      else
        '(ret, p) ← rrr_mqtt_acl_parse_require_space_then_non_newline p;
        if negb (ret =? 0) then Ret (1, target, p)
        else
          '(p, topic_start, topic_end) ← rrr_parse_non_newline p;
          if topic_end <? topic_start then Ret (1, target, p)
          else
            d ← rrr_length_from_slength_sub_bug_const topic_end topic_start;
            length ← rrr_length_inc_bug_const d;
            '(ret, topic_tmp) ← rrr_parse_str_extract (alloc n) p topic_start length;
            match topic_tmp with
            | None => Ret (1, target, p)
            | Some bytes =>
              let topic_tmp := cstr bytes in
              ret ← rrr_mqtt_topic_filter_validate_name topic_tmp;
              if negb (ret =? 0) then Ret (1, target, p)
              else
                let '(ret, first_token_tmp) :=
                  rrr_mqtt_topic_tokenize (fun i => alloc (n + 1 + i)%nat) topic_tmp in
                if negb (ret =? 0) then Ret (1, target, p)
                else
                  let n := (n + 1 + List.length first_token_tmp)%nat in
                  let '(ret, n, target) :=
                    rrr_mqtt_acl_entry_collection_push_new n target first_token_tmp topic_tmp in
                  if negb (ret =? 0) then Ret (1, target, p)
                  else
                    match RRR_LL_LAST target with
                    | None => Bug
                    | Some entry =>
                      '(ret, n, entry, p) ← rrr_mqtt_acl_parse_topic_block_body n entry p;
                      let target := set_last target entry in
                      if negb (ret =? 0) then Ret (1, target, p)
                      else topic_blocks_loop fuel n target p
                    end
            end
  end.

Definition rrr_mqtt_acl_parse_topic_blocks (target : rrr_mqtt_acl) (p : rrr_parse_pos)
  : outcome (Z * rrr_mqtt_acl * rrr_parse_pos) :=
  topic_blocks_loop (S (Z.to_nat (size p - pos p))) 0 target p.

End Parser.

(** What the system answers while a file is read: the descriptor, the two seeks, and
    what [read] returns and stores for a number of bytes. *)
Record file_io := mk_file {
  open_fd : Z;
  seek_end : Z;
  seek_set : Z;
  read_file : Z -> Z * list Z
}.

(** The status, the new object with the terminator behind the bytes, [*result_bytes]
    and [*file_size]. *)
Definition rrr_socket_open_and_read_file_head (alloc_ok : bool) (f : file_io) (bytes : Z)
  : Z * option (list Z) * Z * Z :=
  if open_fd f <=? 0 then (1, None, 0, 0)
  else
    let bytes_total := seek_end f in
    if bytes_total =? 0 then (0, None, 0, 0)
    else if bytes_total <? 0 then (1, None, 0, 0)
    else
      let bytes := if (bytes <=? 0) || (u64 bytes_total <? bytes) then u64 bytes_total else bytes in
      if negb (seek_set f =? 0) then (1, None, 0, 0)
      else if negb alloc_ok then (1, None, 0, 0)
      else
        let '(bytes_read, contents_tmp) := read_file f bytes in
        if negb (u64 bytes_read =? bytes) then (1, None, 0, 0)
        else (0, Some (contents_tmp ++ [0]), bytes, u64 bytes_total).

Definition rrr_socket_open_and_read_file (alloc_ok : bool) (f : file_io)
  : Z * option (list Z) * Z :=
  let '(ret, result, result_bytes, _) := rrr_socket_open_and_read_file_head alloc_ok f 0 in
  (ret, result, result_bytes).

Definition rrr_mqtt_acl_entry_collection_populate_from_file (alloc_file : bool)
    (alloc : nat -> bool) (collection : rrr_mqtt_acl) (f : file_io) : outcome (Z * rrr_mqtt_acl) :=
  let '(ret, contents, bytes) := rrr_socket_open_and_read_file alloc_file f in
  if negb (ret =? 0) then Ret (1, collection)
  else
    match contents with
    | None => Ret (0, collection)
    | Some contents =>
      if bytes <=? 0 then Ret (0, collection)
      else if RRR_LENGTH_MAX <? bytes then Ret (1, collection)
      else
        size ← rrr_length_from_biglength_bug_const bytes;
        '(ret, collection, _) ←
          rrr_mqtt_acl_parse_topic_blocks alloc collection (rrr_parse_pos_init contents size);
        if negb (ret =? 0) then Ret (1, rrr_mqtt_acl_entry_collection_clear collection)
        else Ret (0, collection)
    end.

Definition rrr_mqtt_acl_entry_collection_push_allow_all (alloc : nat -> bool)
    (collection : rrr_mqtt_acl) : outcome (Z * rrr_mqtt_acl) :=
  let '(ret, token_tmp) := rrr_mqtt_topic_tokenize alloc [HASH] in
  if negb (ret =? 0) then Ret (1, collection)
  else
    let '(ret, _, collection) := rrr_mqtt_acl_entry_collection_push_new alloc (length token_tmp)
      collection token_tmp [HASH] in
    if negb (ret =? 0) then Ret (1, collection)
    else
      match RRR_LL_LAST collection with
      | None => Bug
      | Some e => Ret (0, set_last collection (set_default_action RRR_MQTT_ACL_ACTION_RW e))
      end.

(** * The decision *)

Definition rrr_mqtt_acl_check_access_single (action requested_access_level : Z) : outcome Z :=
  let '(allow_write, allow_read) :=
    if action =? RRR_MQTT_ACL_ACTION_RW then (1, 1)
    else if action =? RRR_MQTT_ACL_ACTION_RO then (0, 1) else (0, 0) in
  if requested_access_level =? RRR_MQTT_ACL_ACTION_RO then
    Ret (if negb (allow_read =? 0) then RRR_MQTT_ACL_RESULT_ALLOW else RRR_MQTT_ACL_RESULT_DENY)
  else if requested_access_level =? RRR_MQTT_ACL_ACTION_RW then
    Ret (if negb (allow_write =? 0) then RRR_MQTT_ACL_RESULT_ALLOW else RRR_MQTT_ACL_RESULT_DENY)
  else Bug.

Fixpoint check_users (level : Z) (name : list Z) (l : list rrr_mqtt_acl_user_entry) (ret : Z)
  : outcome Z :=
  match l with
  | [] => Ret ret
  | node :: l =>
    ret ← (if strcmp_eq (username node) name
           then rrr_mqtt_acl_check_access_single (action node) level else Ret ret);
    check_users level name l ret
  end.

Section Check.
Context (match_function : list (list Z) -> list (list Z) -> outcome Z).

Fixpoint check_entries (first : list (list Z)) (level : Z) (name : option (list Z))
    (collection : rrr_mqtt_acl) (ret : Z) : outcome Z :=
  match collection with
  | [] => Ret ret
  | node :: collection =>
    m ← match_function (first_token node) first;
    ret ← (if m =? RRR_MQTT_TOKEN_MATCH then
             ret ← rrr_mqtt_acl_check_access_single (default_action node) level;
             match name with
             | None | Some [] => Ret ret
             | Some name => check_users level name (users node) ret
             end
           else Ret ret);
    check_entries first level name collection ret
  end.

Definition rrr_mqtt_acl_check_access (collection : rrr_mqtt_acl) (first_token : list (list Z))
    (requested_access_level : Z) (username : option (list Z)) : outcome Z :=
  check_entries first_token requested_access_level username collection RRR_MQTT_ACL_RESULT_DENY.
End Check.

End MqttAcl.
