(* ===== verification/MqttAclCorrect.v ===== *)
(** What an access list file says: its grammar, and that the parser accepts exactly
    the files of the grammar and builds the list they describe. *)
From S2P Require Import Prelude Types Utf8 Parse ParseText MqttTopic MqttAcl.

Module MqttAclCorrect.
Import Types Utf8 Parse ParseText MqttTopic MqttAcl.

(** * The grammar *)

Inductive access := Deny | Read | Write.

Definition word (a : access) : list Z :=
  match a with Deny => DENY | Read => READ | Write => WRITE end.
Definition code (a : access) : Z :=
  match a with
  | Deny => RRR_MQTT_ACL_ACTION_DENY
  | Read => RRR_MQTT_ACL_ACTION_RO
  | Write => RRR_MQTT_ACL_ACTION_RW
  end.

Inductive statement := Default (a : access) | User (name : list Z) (a : access).

(** [raw] is what follows the keyword on the line; the topic ends at a NUL. *)
Record block := mk_block { raw : list Z; statements : list statement }.

(** A keyword in upper and lower case letters. *)
Definition keyword (w l : list Z) : Prop := Forall2 (fun x c => same_letter x c = true) w l.

Definition blank (l : list Z) : bool := forallb rrr_parse_is_space_or_tab l.

(** Spaces, line ends and comments. *)
Inductive gap_text : list Z -> Prop :=
| gap_nil : gap_text []
| gap_space c l : rrr_parse_is_spaces c = true -> gap_text l -> gap_text (c :: l)
| gap_comment k c l :
    forallb on_line k = true -> is_newline c = true -> gap_text l -> gap_text (35 :: k ++ c :: l).

Inductive statement_text : statement -> list Z -> Prop :=
| text_default k sep w a :
    keyword DEFAULT k -> sep <> [] -> blank sep = true -> keyword (word a) w ->
    statement_text (Default a) (k ++ sep ++ w)
| text_user k sep name sep' w a :
    keyword USER k -> blank sep = true -> name <> [] -> forallb is_name name = true ->
    sep' <> [] -> blank sep' = true -> keyword (word a) w ->
    statement_text (User name a) (k ++ sep ++ name ++ sep' ++ w).

(** Statements, each on a line of its own, and the text [r] that follows them. *)
Inductive body_text : list statement -> list Z -> list Z -> Prop :=
| body_end r : body_text [] r r
| body_statement g t e s ss r l :
    gap_text g -> statement_text s t ->
    spaces e = true -> existsb is_newline e = true \/ l = [] ->
    body_text ss r l -> body_text (s :: ss) r (g ++ t ++ e ++ l).

Definition line_ends (l : list Z) : Prop :=
  match l with [] => True | c :: _ => is_newline c = true end.

Definition raw_ok (raw : list Z) : Prop :=
  forallb on_line raw = true /\
  match raw with [] => False | c :: _ => rrr_parse_is_space_or_tab c = false end.

Inductive acl_text : list block -> list Z -> Prop :=
| acl_end g : gap_text g -> acl_text [] g
| acl_comment g k : gap_text g -> forallb on_line k = true -> acl_text [] (g ++ 35 :: k)
| acl_block g k sep raw ss bs r l :
    gap_text g -> keyword TOPIC k -> sep <> [] -> blank sep = true ->
    raw_ok raw -> line_ends l -> body_text ss r l -> acl_text bs r ->
    acl_text (mk_block raw ss :: bs) (g ++ k ++ sep ++ raw ++ l).

(** ** Files as the manual has them

    The grammar above is the widest that is ever read.  In the files that rrr.conf(5) describes
    every keyword is followed by a space or tab, a topic has no NUL and does not end in a space
    or tab, and there is a block. *)
Inductive documented_statement : statement -> list Z -> Prop :=
| documented_default k sep w a :
    keyword DEFAULT k -> sep <> [] -> blank sep = true -> keyword (word a) w ->
    documented_statement (Default a) (k ++ sep ++ w)
| documented_user k sep name sep' w a :
    keyword USER k -> sep <> [] -> blank sep = true -> name <> [] -> forallb is_name name = true ->
    sep' <> [] -> blank sep' = true -> keyword (word a) w ->
    documented_statement (User name a) (k ++ sep ++ name ++ sep' ++ w).

Inductive documented_body : list statement -> list Z -> list Z -> Prop :=
| documented_body_end r : documented_body [] r r
| documented_body_statement g t e s ss r l :
    gap_text g -> documented_statement s t ->
    spaces e = true -> existsb is_newline e = true \/ l = [] ->
    documented_body ss r l -> documented_body (s :: ss) r (g ++ t ++ e ++ l).

Definition documented_topic (raw : list Z) : Prop :=
  raw_ok raw /\ (0 ∉ raw) /\ rrr_parse_is_space_or_tab (List.last raw 0) = false.

Inductive documented_blocks : list block -> list Z -> Prop :=
| documented_end g : gap_text g -> documented_blocks [] g
| documented_comment g k : gap_text g -> forallb on_line k = true -> documented_blocks [] (g ++ 35 :: k)
| documented_block g k sep raw ss bs r l :
    gap_text g -> keyword TOPIC k -> sep <> [] -> blank sep = true ->
    documented_topic raw -> line_ends l -> documented_body ss r l -> documented_blocks bs r ->
    documented_blocks (mk_block raw ss :: bs) (g ++ k ++ sep ++ raw ++ l).

Lemma documented_statement_text s t : documented_statement s t -> statement_text s t.
Proof. intros []; by constructor. Qed.

Lemma documented_body_text ss r l : documented_body ss r l -> body_text ss r l.
Proof. induction 1; constructor; auto using documented_statement_text. Qed.

Lemma documented_blocks_text bs l : documented_blocks bs l -> acl_text bs l.
Proof.
  induction 1 as [| |g k sep raw ss bs r l Hg Hk Hne Hb [Hraw _] Hl Hbody _ IH]; [by constructor..|].
  econstructor; eauto using documented_body_text.
Qed.

(** The filter is an MQTT filter, and there is one default at most. *)
Definition topic_filter_ok (f : list Z) : Prop :=
  Z.of_nat (length f) <= 0xffff /\ (exists cps, text cps /\ f = utf8_encode_all cps) /\
  valid_filter (levels f).

Definition is_default (s : statement) : bool := match s with Default _ => true | User _ _ => false end.

Fixpoint one_default (set : bool) (ss : list statement) : bool :=
  match ss with
  | [] => true
  | s :: ss => negb (set && is_default s) && one_default (set || is_default s) ss
  end.

Definition block_ok (b : block) : Prop :=
  topic_filter_ok (cstr (raw b)) /\ one_default false (statements b) = true.

(** A file of the manual with the blocks [bs]. *)
Definition documented (bs : list block) (text : list Z) : Prop :=
  bs <> [] /\ documented_blocks bs text /\ Forall block_ok bs.

(** The entry of a block. *)
Definition add_user (name : list Z) (a : Z) (e : rrr_mqtt_acl_entry) : rrr_mqtt_acl_entry :=
  mk_entry (users e ++ [mk_user name a]) (default_action e) (default_action_is_set e)
    (first_token e) (topic_orig e).

Definition apply (e : rrr_mqtt_acl_entry) (s : statement) : rrr_mqtt_acl_entry :=
  match s with
  | Default a => set_default_action_is_set 1 (set_default_action (code a) e)
  | User name a => add_user name (code a) e
  end.

Definition topic_levels (t : list Z) : list (list Z) := match t with [] => [] | _ => levels t end.

Definition new_entry (t : list Z) : rrr_mqtt_acl_entry :=
  mk_entry [] RRR_MQTT_ACL_ACTION_DENY 0 (topic_levels t) t.

Definition entry_of (b : block) : rrr_mqtt_acl_entry :=
  fold_left apply (statements b) (new_entry (cstr (raw b))).

(** * Reading the text as a list *)

Fixpoint strip (comment : bool) (l : list Z) : list Z :=
  match l with
  | [] => []
  | c :: l' =>
    if comment then strip (on_line c) l'
    else if rrr_parse_is_spaces c then strip false l'
    else if c =? 35 then strip true l' else l
  end.

Definition read_sep (l : list Z) : option (list Z) :=
  let n := span rrr_parse_is_spaces l in
  if (n =? 0)%nat || existsb is_newline (take n l) then None else Some (drop n l).

Definition read_end (l : list Z) : option (list Z) :=
  let n := span rrr_parse_is_spaces l in
  match drop n l with
  | [] => Some []
  | l' => if existsb is_newline (take n l) then Some l' else None
  end.

Definition read_word (w l : list Z) : option (list Z) :=
  if prefix_by same_letter w l then Some (drop (length w) l) else None.

Definition read_action (l : list Z) : option (access * list Z) :=
  match read_word DENY l with
  | Some r => Some (Deny, r)
  | None =>
    match read_word READ l with
    | Some r => Some (Read, r)
    | None => match read_word WRITE l with Some r => Some (Write, r) | None => None end
    end
  end.

Definition read_value (l : list Z) : option (access * list Z) :=
  match read_sep l with
  | None => None
  | Some l =>
    match read_action l with
    | None => None
    | Some (a, l) => match read_end l with Some l => Some (a, l) | None => None end
    end
  end.

Definition read_user (l : list Z) : option (list Z * access * list Z) :=
  let l := drop (span rrr_parse_is_space_or_tab l) l in
  let n := span is_name l in
  if (n =? 0)%nat then None
  else match read_value (drop n l) with Some (a, r) => Some (take n l, a, r) | None => None end.

Definition read_statement (l : list Z) : option (statement * list Z) :=
  match read_word DEFAULT l with
  | Some l => match read_value l with Some (a, r) => Some (Default a, r) | None => None end
  | None =>
    match read_word USER l with
    | Some l =>
      match read_user l with Some (name, a, r) => Some (User name a, r) | None => None end
    | None => None
    end
  end.

(** The statements of a block, and what is left: nothing, or a text in which the
    next block is what comes first. *)
Fixpoint read_body (fuel : nat) (set : bool) (l : list Z) : option (list statement * list Z) :=
  match fuel with
  | O => None
  | S fuel =>
    match strip false l with
    | [] => Some ([], [])
    | l' =>
      match read_statement l' with
      | Some (s, r) =>
        if set && is_default s then None
        else
          match read_body fuel (set || is_default s) r with
          | Some (ss, r) => Some (s :: ss, r)
          | None => None
          end
      | None => match read_word TOPIC l' with Some _ => Some ([], l) | None => None end
      end
    end
  end.

Definition validates (f : list Z) : bool :=
  match rrr_mqtt_topic_filter_validate_name f with Ret r => r =? 0 | _ => false end.

(** What is on the line behind the keyword of a block. *)
Definition read_topic (l : list Z) : option (list Z * list Z) :=
  match read_word TOPIC l with
  | None => None
  | Some l =>
    match read_sep l with
    | None => None
    | Some l =>
      let n := span on_line l in if (n =? 0)%nat then None else Some (take n l, drop n l)
    end
  end.

Fixpoint read_blocks (fuel : nat) (l : list Z) : option (list block) :=
  match fuel with
  | O => None
  | S fuel =>
    match strip false l with
    | [] => Some []
    | l =>
      match read_topic l with
      | None => None
      | Some (raw, l) =>
        if negb (validates (cstr raw)) then None
        else
          match read_body (S (length l)) false l with
          | None => None
          | Some (ss, r) =>
            match read_blocks fuel r with
            | Some bs => Some (mk_block raw ss :: bs)
            | None => None
            end
          end
      end
    end
  end.

(** ** Spaces and comments *)

Lemma strip_spaces l : strip false (drop (span rrr_parse_is_spaces l) l) = strip false l.
Proof. induction l as [|c l IH]; [done|]. simpl. by destruct (rrr_parse_is_spaces c) eqn:E; simpl; rewrite ?E. Qed.

Lemma newline_space c : is_newline c = true -> rrr_parse_is_spaces c = true.
Proof. unfold rrr_parse_is_spaces, RRR_PARSE_MATCH_C_NEWLINES, is_newline. intros ->. apply orb_true_r. Qed.

Lemma strip_line l : strip false (drop (span on_line l) l) = strip true l.
Proof.
  induction l as [|c l IH]; [done|]. simpl. destruct (on_line c) eqn:E; [done|]. simpl.
  unfold on_line in E. by rewrite newline_space by (by destruct (is_newline c)).
Qed.

Lemma strip_length b l : (length (strip b l) <= length l)%nat.
Proof.
  revert b. induction l as [|c l IH]; intros b; [done|]. simpl.
  repeat case_match; simpl; try lia; etransitivity; try apply IH; lia.
Qed.

Lemma strip_head l c r : strip false l = c :: r -> rrr_parse_is_spaces c = false /\ (c =? 35) = false.
Proof.
  generalize false at 1. induction l as [|x l IH]; intros b; simpl; [done|].
  repeat case_match; eauto. intros; simplify_eq. done.
Qed.

Lemma new_comment_text fuel p l :
  reads p l -> terminated p -> (length l < fuel)%nat ->
  exists q, new_comment fuel p = Ret q /\ later p q /\ reads q (strip false l).
Proof.
  revert p l. induction fuel as [|fuel IH]; intros p l Hl Ht Hf; [lia|]. cbn [new_comment].
  destruct (ignore_text p l Hl) as (q & -> & Hq & Hql & _). rewrite bind_ret, (reads_eof _ _ Hql).
  rewrite <-strip_spaces. set (g := span _ _) in *. pose proof (span_drop rrr_parse_is_spaces l) as Hd.
  fold g in Hd. assert (length (drop g l) <= length l)%nat by (rewrite length_drop; lia).
  destruct (drop g l) as [|c r]; [eauto|]. destruct Hql as [Hw Hr].
  pose proof (rest_cons q c r Hw Hr) as (_ & _ & -> & _). rewrite bind_ret. simpl. rewrite Hd.
  assert (terminated q) as Htq by eauto using terminated_later.
  destruct (Z.eqb_spec c 35) as [->|Hne].
  - destruct (comment_text q 35 r) as (q' & -> & Hq' & Hl'); [done..|]. rewrite bind_ret. cbv zeta in Hl'.
    set (t := drop (span on_line r) r) in *. simpl in H. assert (length t <= length r)%nat by (subst t; rewrite length_drop; lia).
    destruct (IH q' (drop (span rrr_parse_is_spaces t) t)) as (q2 & -> & Hq2 & Hl2);
      [done|eauto using terminated_later|rewrite length_drop; lia|].
    rewrite strip_spaces in Hl2. subst t. rewrite strip_line in Hl2. exists q2. split; [done|].
    eauto using later_trans.
  - destruct (skip_none q c r) as [-> _]; [done..|]. exists q. done.
Qed.

Lemma spaces_and_comments_text p l :
  reads p l -> terminated p ->
  exists q, rrr_mqtt_acl_parse_spaces_and_comments p = Ret q /\ later p q /\ reads q (strip false l).
Proof.
  intros Hl Ht. apply new_comment_text; [done..|]. pose proof (reads_size p l Hl). lia.
Qed.

(** ** Values *)

Definition got {A} (ret : Z) (q : rrr_parse_pos) (o : option (A * list Z)) (P : A -> Prop) : Prop :=
  match o with
  | Some (x, r) => ret = 0 /\ reads q r /\ P x
  | None => ret = 1
  end.

Lemma require_space_text p l :
  reads p l ->
  exists ret q, rrr_mqtt_acl_parse_require_space_then_non_newline p = Ret (ret, q) /\ later p q /\
    match read_sep l with Some r => ret = 0 /\ reads q r | None => ret = 1 end.
Proof.
  intros Hl. unfold rrr_mqtt_acl_parse_require_space_then_non_newline, read_sep.
  destruct (ignore_text p l Hl) as (q & -> & Hq & Hql & Hpos & Hline). rewrite bind_ret, Hpos, Hline, negb_involutive.
  destruct (_ || _); eauto 10.
Qed.

Lemma require_newline_text p l :
  reads p l ->
  exists ret q, rrr_mqtt_acl_parse_require_newline_or_eof p = Ret (ret, q) /\ later p q /\
    match read_end l with Some r => ret = 0 /\ reads q r | None => ret = 1 end.
Proof.
  intros Hl. unfold rrr_mqtt_acl_parse_require_newline_or_eof, read_end.
  destruct (ignore_text p l Hl) as (q & -> & Hq & Hql & Hpos & Hline).
  rewrite bind_ret, Hpos, Hline, negb_involutive, (reads_eof _ _ Hql).
  destruct (drop _ l) as [|c r]; [eauto 10|]. destruct (span rrr_parse_is_spaces l) as [|k]; cbn [Nat.eqb].
  - simpl. eauto 10.
  - destruct (existsb _ _); eauto 10.
Qed.

Lemma word_text p l w :
  reads p l ->
  exists q, rrr_parse_match_word_case p w = Ret (if prefix_by same_letter w l then 1 else 0, q) /\
    later p q /\ match read_word w l with Some r => reads q r | None => q = p end.
Proof.
  intros [Hp Hr]. unfold rrr_parse_match_word_case, read_word. rewrite match_word_by, Hr by done.
  change (fun w c : Z => (w =? c) || (w =? other_case c)) with same_letter.
  destruct (prefix_by same_letter w l) eqn:E; [|eauto using later_refl].
  exists (forward (length w) p). split; [done|].
  assert (length w <= length (rest p))%nat by (rewrite Hr; by eapply prefix_length).
  split; [by apply later_forward|]. split; [by apply wf_forward|]. by rewrite rest_forward, Hr.
Qed.

(** Tries a keyword: found, the position behind it, or not found, the same. *)
Ltac word p l w :=
  let q := fresh "q" in let Hq := fresh "Hq" in let Hw := fresh "Hw" in
  destruct (word_text p l w) as (q & -> & Hq & Hw); [done|]; rewrite bind_ret;
  unfold read_word in Hw |- *; destruct (prefix_by same_letter w l);
  cbn [Z.eqb Pos.eqb negb] in Hw |- *; [|subst q].

Lemma action_text p l :
  reads p l ->
  exists ret a q, rrr_mqtt_acl_parse_acl_action p = Ret (ret, a, q) /\ later p q /\
    got ret q (read_action l) (fun x => a = code x).
Proof.
  intros Hl. unfold rrr_mqtt_acl_parse_acl_action, read_action.
  word p l DENY; [by eexists _, _, _|]. word p l READ; [by eexists _, _, _|].
  word p l WRITE; by eexists _, _, _.
Qed.

(** What both statements have behind their keyword, with what the code does when it is
    there and when it is not. *)
Lemma value_text {A} p l (found : Z -> rrr_parse_pos -> outcome A)
    (no_space : Z -> rrr_parse_pos -> outcome A) (no_value : Z -> Z -> rrr_parse_pos -> outcome A) :
  reads p l ->
  exists a q, later p q /\
    let run :=
      '(ret, p) ← rrr_mqtt_acl_parse_require_space_then_non_newline p;
      if negb (ret =? 0) then no_space ret p
      else
        '(ret, action, p) ← rrr_mqtt_acl_parse_acl_action p;
        if negb (ret =? 0) then no_value ret action p
        else
          '(ret, p) ← rrr_mqtt_acl_parse_require_newline_or_eof p;
          if negb (ret =? 0) then no_value ret action p else found action p in
    match read_value l with
    | Some (x, r) => reads q r /\ run = found (code x) q
    | None => run = no_space 1 q \/ run = no_value 1 a q
    end.
Proof.
  intros Hl. cbv zeta. unfold read_value.
  destruct (require_space_text p l Hl) as (ret & q & -> & Hq & Hs). rewrite bind_ret.
  destruct (read_sep l) as [l1|]; [|subst ret; exists 0, q; auto]. destruct Hs as [-> Hl1]. cbn [Z.eqb negb].
  destruct (action_text q l1 Hl1) as (ret & a & q1 & -> & Hq1 & Ha). rewrite bind_ret. unfold got in Ha.
  destruct (read_action l1) as [[x l2]|]; [|subst ret; exists a, q1; eauto using later_trans].
  destruct Ha as (-> & Hl2 & ->). cbn [Z.eqb negb].
  destruct (require_newline_text q1 l2 Hl2) as (ret & q2 & -> & Hq2 & Hs). rewrite bind_ret. exists (code x), q2.
  split; [eauto using later_trans|]. destruct (read_end l2) as [l3|]; [|subst ret; auto].
  by destruct Hs as [-> Hl3].
Qed.

Lemma default_text e p l :
  reads p l ->
  exists ret e' q, rrr_mqtt_acl_parse_keyword_default e p = Ret (ret, e', q) /\ later p q /\
    got ret q (read_value l) (fun a => e' = set_default_action (code a) e).
Proof.
  intros Hl. unfold rrr_mqtt_acl_parse_keyword_default.
  destruct (value_text p l (fun a p => Ret (0, set_default_action a e, p)) (fun _ p => Ret (1, e, p))
    (fun _ a p => Ret (1, set_default_action a e, p)) Hl) as (a & q & Hq & Hrun).
  destruct (read_value l) as [[x r]|].
  - destruct Hrun as [Hr Hrun]. exists 0, (set_default_action (code x) e), q. by split_and!.
  - destruct Hrun as [Hrun|Hrun]; [exists 1, e, q|exists 1, (set_default_action a e), q]; by split_and!.
Qed.

(** The bytes between two positions are copied whole. *)
Lemma extract_text p q a r :
  reads p (a ++ r) -> data q = data p -> a <> [] ->
  rrr_length_from_slength_sub_bug_const (pos p + Z.of_nat (length a) - 1) (pos p)
  = Ret (Z.of_nat (length a) - 1) /\
  rrr_length_inc_bug_const (Z.of_nat (length a) - 1) = Ret (Z.of_nat (length a)) /\
  forall ok, rrr_parse_str_extract ok q (pos p) (Z.of_nat (length a))
    = Ret (if ok then (0, Some a) else (1, None)).
Proof.
  intros Hl Hd Ha. pose proof (reads_size _ _ Hl) as Hs. destruct Hl as [Hp Hr].
  destruct Hp as ((? & ?) & Hdata & Hm & _). unfold RRR_LENGTH_MAX in Hm. rewrite length_app in Hs.
  assert (0 < length a)%nat by (destruct a; simpl; [done|lia]). split_and!.
  - unfold rrr_length_from_slength_sub_bug_const, s64, RRR_LENGTH_MAX.
    replace (pos p + Z.of_nat (length a) - 1 - pos p) with (Z.of_nat (length a) - 1) by lia.
    rewrite (proj2 (Z.ltb_ge _ _)) by lia. rewrite Z.mod_small by lia.
    replace (Z.of_nat (length a) - 1 + 2 ^ 63 - 2 ^ 63) with (Z.of_nat (length a) - 1) by lia.
    by rewrite (proj2 (Z.ltb_ge _ _)), wrap_small by lia.
  - unfold rrr_length_inc_bug_const, rrr_length_inc_bug. rewrite wrap_small by lia.
    replace (Z.of_nat (length a) - 1 + 1) with (Z.of_nat (length a)) by lia.
    by rewrite (proj2 (Z.eqb_neq _ _)), bind_ret by lia.
  - intros ok. unfold rrr_parse_str_extract. rewrite (proj2 (Z.eqb_neq _ 0)) by lia.
    destruct ok; [|done]. cbn [negb]. unfold copy_out. rewrite Hd.
    rewrite (proj2 (Z.ltb_ge (pos p) 0)) by lia.
    rewrite (proj2 (Z.ltb_ge (Z.of_nat (length (data p))) _)) by lia. cbn [orb].
    rewrite bind_ret. do 3 f_equal. unfold slice. rewrite Nat2Z.id. unfold rest in Hr.
    rewrite <-(take_drop (Z.to_nat (size p - pos p)) (drop _ _)), Hr, <-app_assoc. apply take_app_length.
Qed.

Lemma blank_text p l :
  reads p l ->
  exists q, rrr_parse_ignore_space_and_tab p = Ret q /\ later p q /\
    reads q (drop (span rrr_parse_is_space_or_tab l) l).
Proof.
  intros [Hp Hr]. exists (skip rrr_parse_is_space_or_tab p). split; [by apply ignore_spec|].
  split; [by apply skip_later|]. destruct (skip_wf rrr_parse_is_space_or_tab p Hp) as (Hw & Hrest & _).
  rewrite Hr in Hrest. done.
Qed.

Lemma name_byte c : byte_ok c -> is_name (schar c) = is_name c.
Proof.
  intros Hc. apply eqb_prop.
  by apply (all_bytes_spec (fun c => Bool.eqb (is_name (schar c)) (is_name c))).
Qed.

Lemma name_text p l :
  reads p l -> bytes_ok l ->
  let n := span is_name l in
  rrr_parse_match_letters p (RRR_PARSE_MATCH_LETTERS ||| RRR_PARSE_MATCH_NUMBERS)
  = Ret (forward n p, pos p, pos p + Z.of_nat n - 1).
Proof.
  intros [Hp Hr] Hb n. rewrite match_letters_spec by done. cbv zeta. rewrite Hr.
  assert (span (fun b => rrr_parse_match_char (schar b)
    (RRR_PARSE_MATCH_LETTERS ||| RRR_PARSE_MATCH_NUMBERS)) l = n) as ->; [|done].
  apply span_ext. eapply List.Forall_impl; [|exact Hb]. intros c Hc. by rewrite match_name, name_byte.
Qed.

Lemma name_no_nul l : forallb is_name l = true -> 0 ∉ l.
Proof. intros H Hin. apply list_elem_of_In in Hin. eapply forallb_forall in H; [|done]. done. Qed.

(** ** What is read is less than what was left *)

Definition behind (r l : list Z) : Prop := exists k, r = drop k l.

Lemma behind_drop k l : behind (drop k l) l.
Proof. by exists k. Qed.

Lemma behind_trans a b c : behind a b -> behind b c -> behind a c.
Proof. intros [i ->] [j ->]. exists (j + i)%nat. by rewrite drop_drop. Qed.

Lemma behind_bytes r l : behind r l -> bytes_ok l -> bytes_ok r.
Proof. intros [k ->]. apply Forall_drop. Qed.

Lemma behind_length r l : behind r l -> (length r <= length l)%nat.
Proof. intros [k ->]. rewrite length_drop. lia. Qed.

Lemma read_sep_behind l r : read_sep l = Some r -> behind r l.
Proof. unfold read_sep. case_match; intros; simplify_eq. apply behind_drop. Qed.

Lemma read_end_behind l r : read_end l = Some r -> behind r l.
Proof.
  unfold read_end. destruct (drop _ l) eqn:E; [|case_match]; intros; simplify_eq;
    rewrite <-?E; [|apply behind_drop]. exists (length l). by rewrite drop_all.
Qed.

Lemma read_word_behind w l r : read_word w l = Some r -> behind r l /\ (length r + length w <= length l)%nat.
Proof.
  unfold read_word. destruct (prefix_by same_letter w l) eqn:E; intros; simplify_eq.
  apply prefix_length in E. split; [apply behind_drop|]. rewrite length_drop. lia.
Qed.

Lemma read_action_behind l a r : read_action l = Some (a, r) -> behind r l.
Proof.
  unfold read_action. repeat case_match; intros; simplify_eq;
    by match goal with H : read_word _ _ = Some _ |- _ => apply read_word_behind in H as [? _] end.
Qed.

Lemma read_value_behind l a r : read_value l = Some (a, r) -> behind r l.
Proof.
  unfold read_value. destruct (read_sep l) as [l1|] eqn:E1; [|done].
  destruct (read_action l1) as [[x l2]|] eqn:E2; [|done].
  destruct (read_end l2) as [l3|] eqn:E3; [|done]. intros; simplify_eq.
  eapply behind_trans; [by eapply read_end_behind|].
  eapply behind_trans; [by eapply read_action_behind|by eapply read_sep_behind].
Qed.

Lemma read_statement_behind l s r : read_statement l = Some (s, r) -> behind r l /\ (length r < length l)%nat.
Proof.
  unfold read_statement. destruct (read_word DEFAULT l) as [l1|] eqn:E1.
  - apply read_word_behind in E1 as [Hb Hl]. destruct (read_value l1) as [[a l2]|] eqn:E2; [|done].
    apply read_value_behind in E2. intros; simplify_eq. split; [eauto using behind_trans|].
    apply behind_length in E2. simpl in Hl. lia.
  - destruct (read_word USER l) as [l1|] eqn:E2; [|done]. apply read_word_behind in E2 as [Hb Hl].
    unfold read_user. cbv zeta. destruct (span is_name _ =? 0)%nat; [done|].
    destruct (read_value _) as [[a l2]|] eqn:E3; [|done]. apply read_value_behind in E3.
    intros; simplify_eq. assert (behind r l1) as Hr by eauto using behind_trans, behind_drop.
    split; [eauto using behind_trans|]. apply behind_length in Hr. simpl in Hl. lia.
Qed.

Lemma strip_behind b l : behind (strip b l) l.
Proof.
  revert b. induction l as [|c l IH]; intros b; [by exists O|]. simpl.
  assert (forall b, behind (strip b l) (c :: l)) by (intros b'; destruct (IH b') as [k ->]; by exists (S k)).
  repeat case_match; auto. by exists O.
Qed.

(** Keywords that begin with different letters are told apart. *)
Lemma same_letter_cases x c : 65 <= x <= 90 -> same_letter x c = true -> c = x \/ c = x + 32.
Proof.
  intros Hx. unfold same_letter, other_case. rewrite orb_true_iff, !Z.eqb_eq.
  intros [->|E]; [by left|]. right. destruct (in_range 97 122 c) eqn:E1; [lia|].
  destruct (in_range 65 90 c) eqn:E2; [apply in_range_spec in E2|]; lia.
Qed.

Lemma keywords_apart x w y w' l :
  65 <= x <= 90 -> 65 <= y <= 90 -> x <> y ->
  prefix_by same_letter (x :: w) l = true -> prefix_by same_letter (y :: w') l = false.
Proof.
  intros Hx Hy Hne H. destruct (prefix_by same_letter (y :: w') l) eqn:E; [|done].
  destruct l as [|c l]; [done|]. simpl in H, E. apply andb_true_iff in H as [H _], E as [E _].
  apply same_letter_cases in H, E; lia.
Qed.

Lemma topic_apart l x w :
  prefix_by same_letter (x :: w) l = true -> 65 <= x <= 90 -> x <> 84 -> prefix_by same_letter TOPIC l = false.
Proof. intros. eapply keywords_apart; [| |done..]; lia. Qed.

Lemma cstr_no_nul l : 0 ∉ cstr l.
Proof.
  induction l as [|c l IH]; simpl; [apply not_elem_of_nil|]. destruct (Z.eqb_spec c 0); [apply not_elem_of_nil|].
  rewrite not_elem_of_cons. auto.
Qed.

Lemma cstr_bytes l : bytes_ok l -> bytes_ok (cstr l).
Proof. induction 1; simpl; [constructor|]. case_match; [constructor|]. by constructor. Qed.

Lemma validates_text f :
  exists ret, rrr_mqtt_topic_filter_validate_name f = Ret ret /\ validates f = (ret =? 0).
Proof.
  unfold validates. enough (exists ret, rrr_mqtt_topic_filter_validate_name f = Ret ret) as [ret ->] by eauto.
  unfold rrr_mqtt_topic_filter_validate_name. destruct (Z.ltb_spec 0xffff (Z.of_nat (length f))); [eauto|].
  rewrite length_from_size_t_spec, exact_or_bug_small by (unfold RRR_LENGTH_MAX; lia).
  rewrite bind_ret. eauto.
Qed.

Lemma read_body_behind fuel set l ss r : read_body fuel set l = Some (ss, r) -> behind r l.
Proof.
  revert set l ss r. induction fuel as [|fuel IH]; intros set l ss r; simpl; [done|].
  pose proof (strip_behind false l) as Hs. destruct (strip false l) as [|c l1].
  { intros; simplify_eq. exists (length l). by rewrite drop_all. }
  destruct (read_statement (c :: l1)) as [[s l2]|] eqn:E.
  - destruct (set && is_default s); [done|]. destruct (read_body _ _ _) as [[ss' r']|] eqn:E2; [|done].
    intros; simplify_eq. apply read_statement_behind in E as [E _]. apply IH in E2.
    eauto using behind_trans.
  - destruct (read_word TOPIC _); [|done]. intros; simplify_eq. by exists O.
Qed.

Lemma last_push (c : rrr_mqtt_acl) e : RRR_LL_LAST (c ++ [e]) = Some e.
Proof. unfold RRR_LL_LAST. by rewrite rev_app_distr. Qed.

Lemma set_last_push (c : rrr_mqtt_acl) e e' : set_last (c ++ [e]) e' = c ++ [e'].
Proof. unfold set_last. by rewrite removelast_last. Qed.

(** The line of a topic: what the code does with its text, and when there is none. *)
Lemma topic_line {A} ok p l (no_topic : rrr_parse_pos -> outcome A)
    (found : option (list Z) -> rrr_parse_pos -> outcome A) :
  reads p l -> terminated p -> bytes_ok l ->
  exists q, later p q /\
    let run :=
      '(found_, p) ← rrr_parse_match_word_case p TOPIC;
      if negb (found_ =? 1) then no_topic p
      else
        '(ret, p) ← rrr_mqtt_acl_parse_require_space_then_non_newline p;
        if negb (ret =? 0) then no_topic p
        else
          '(p, topic_start, topic_end) ← rrr_parse_non_newline p;
          if topic_end <? topic_start then no_topic p
          else
            d ← rrr_length_from_slength_sub_bug_const topic_end topic_start;
            length ← rrr_length_inc_bug_const d;
            '(ret, topic_tmp) ← rrr_parse_str_extract ok p topic_start length;
            found topic_tmp p in
    match read_topic l with
    | Some (raw, r) => reads q r /\ run = found (if ok then Some raw else None) q
    | None => run = no_topic q
    end.
Proof.
  intros Hl Ht Hb. cbv zeta. unfold read_topic.
  destruct (word_text p l TOPIC Hl) as (q & -> & Hq & Hw). rewrite bind_ret. unfold read_word in Hw |- *.
  destruct (prefix_by same_letter TOPIC l); cbn [Z.eqb Pos.eqb negb]; [|by exists q].
  set (l1 := drop (length TOPIC) l) in *.
  destruct (require_space_text q l1 Hw) as (ret & q2 & -> & Hq2 & Hs). rewrite bind_ret.
  destruct (read_sep l1) as [l2|] eqn:E2; [|subst ret; exists q2; split; [by eapply later_trans|done]].
  destruct Hs as [-> Hl2]. cbn [Z.eqb negb]. apply read_sep_behind in E2.
  assert (bytes_ok l2) as Hb2 by (eapply behind_bytes, Hb; eapply behind_trans; [done|apply behind_drop]).
  assert (later p q2) as Hq02 by by eapply later_trans.
  rewrite (non_newline_text q2 l2), bind_ret by eauto using terminated_later. set (k := span on_line l2).
  assert (k <= length l2)%nat by apply span_le. destruct (Nat.eqb_spec k 0) as [->|Hk].
  { rewrite (proj2 (Z.ltb_lt _ _)) by lia. exists q2. by rewrite forward_0. }
  rewrite (proj2 (Z.ltb_ge _ _)) by lia. rewrite <-(take_drop k l2) in Hl2. set (raw := take k l2) in *.
  assert (length raw = k) as Hk' by (subst raw; rewrite length_take; lia).
  destruct (extract_text q2 (forward k q2) raw (drop k l2)) as (Hsub & Hinc & Hext);
    [done..|by intros E; rewrite E in Hk'|].
  rewrite Hk' in Hsub, Hinc, Hext. rewrite Hsub, bind_ret, Hinc, bind_ret, Hext, bind_ret.
  pose proof (reads_forward _ _ _ Hl2) as Hl3. rewrite Hk' in Hl3. exists (forward k q2). split.
  { eapply later_trans; [done|]. apply later_forward; [apply Hl2|]. rewrite (proj2 Hl2), length_app. lia. }
  split; [done|]. by destruct ok.
Qed.

Lemma read_topic_behind l raw r : read_topic l = Some (raw, r) -> behind r l /\ (length r < length l)%nat.
Proof.
  unfold read_topic. destruct (read_word TOPIC l) as [l1|] eqn:E1; [|done].
  destruct (read_sep l1) as [l2|] eqn:E2; [|done]. cbv zeta. destruct (_ =? 0)%nat; [done|]. intros; simplify_eq.
  apply read_word_behind in E1 as [Hb Hl]. apply read_sep_behind in E2.
  assert (behind (drop (span on_line l2) l2) l1) as Hr by (eapply behind_trans; [apply behind_drop|done]).
  split; [by eapply behind_trans|]. apply behind_length in Hr. simpl in Hl. lia.
Qed.

Section Alloc.
Context (alloc : nat -> bool).

(** A function that gives what the text says, unless an allocation fails. *)
Definition gets {A} (ret : Z) (q : rrr_parse_pos) (o : option (A * list Z)) (P : A -> Prop) : Prop :=
  match o with
  | Some (x, r) => (ret = 0 /\ reads q r /\ P x) \/ (ret = 1 /\ ~ forall i, alloc i = true)
  | None => ret = 1
  end.

Lemma not_all i : alloc i = false -> ~ forall i, alloc i = true.
Proof. intros Hi H. by rewrite H in Hi. Qed.

Lemma append_user n e name a :
  exists ret n', rrr_mqtt_acl_user_entry_new_and_append alloc n e name a
    = (ret, n', if ret =? 0 then add_user name a e else e) /\
  (ret = 0 \/ (ret = 1 /\ ~ forall i, alloc i = true)).
Proof.
  unfold rrr_mqtt_acl_user_entry_new_and_append.
  destruct (alloc n) eqn:E1; [|exists 1, n; split; [done|eauto using not_all]].
  destruct (alloc (n + 1)) eqn:E2; [exists 0, (n + 2)%nat; auto|exists 1, n; split; [done|eauto using not_all]].
Qed.

Lemma user_text n e p l :
  reads p l -> bytes_ok l ->
  exists ret n' e' q, rrr_mqtt_acl_parse_keyword_user alloc n e p = Ret (ret, n', e', q) /\ later p q /\
    gets ret q (read_user l)
      (fun '(name, a) => e' = add_user name (code a) e).
Proof.
  intros Hl Hb. unfold rrr_mqtt_acl_parse_keyword_user, read_user. cbv zeta.
  destruct (blank_text p l Hl) as (q & -> & Hq & Hl1). rewrite bind_ret.
  assert (bytes_ok (drop (span rrr_parse_is_space_or_tab l) l)) as Hb1 by by apply Forall_drop.
  set (l1 := drop (span rrr_parse_is_space_or_tab l) l) in *. clearbody l1.
  rewrite (name_text q l1), bind_ret by done. set (k := span is_name l1).
  assert (k <= length l1)%nat by apply span_le. destruct (Nat.eqb_spec k 0) as [->|Hk].
  { rewrite (proj2 (Z.ltb_lt _ _)) by lia. rewrite forward_0. by eexists 1, _, _, q. }
  rewrite (proj2 (Z.ltb_ge _ _)) by lia.
  rewrite <-(take_drop k l1) in Hl1. set (name := take k l1) in *.
  assert (length name = k) as Hlen by (subst name; rewrite length_take; lia).
  assert (name <> []) as Hne by (intros E; by rewrite E in Hlen).
  destruct (extract_text q (forward k q) name (drop k l1)) as (Hsub & Hinc & Hext); [done..|].
  rewrite Hlen in Hsub, Hinc, Hext. rewrite Hsub, bind_ret, Hinc, bind_ret, Hext, bind_ret.
  pose proof (reads_forward _ _ _ Hl1) as Hl2. rewrite Hlen in Hl2.
  assert (later p (forward k q)) as Hq2.
  { eapply later_trans; [exact Hq|]. apply later_forward; [apply Hl1|].
    rewrite (proj2 Hl1), length_app. lia. }
  destruct (alloc n) eqn:En.
  2: { eexists 1, _, _, _. split; [done|]. split; [done|]. destruct (read_value _) as [[x r]|]; simpl; eauto using not_all. }
  rewrite (cstr_id name) by (apply name_no_nul, span_take).
  destruct (value_text (forward k q) (drop k l1)
    (fun a p => if (length name =? 0)%nat then Bug else
       let '(ret, n, entry) := rrr_mqtt_acl_user_entry_new_and_append alloc (n + 1) e name a in
       Ret (ret, n, entry, p))
    (fun ret p => Ret (ret, n, e, p)) (fun ret a p => Ret (ret, n, e, p)) Hl2) as (a & q' & Hq' & Hrun).
  cbv zeta in Hrun. destruct (read_value (drop k l1)) as [[x r]|]; simpl.
  - destruct Hrun as [Hr ->]. rewrite (proj2 (Nat.eqb_neq _ _)) by lia.
    destruct (append_user (n + 1) e name (code x)) as (ret & n' & -> & Hret).
    eexists ret, n', _, q'. split; [done|]. split; [eauto using later_trans|].
    destruct Hret as [->|[-> ?]]; [left|right]; done.
  - eexists 1, n, e, q'. split; [destruct Hrun as [->| ->]; done|]. split; [eauto using later_trans|done].
Qed.

(** ** Blocks *)

Definition set_of (e : rrr_mqtt_acl_entry) : bool := negb (default_action_is_set e =? 0).

Lemma set_of_apply e s : set_of (apply e s) = set_of e || is_default s.
Proof. destruct s; simpl; [by rewrite orb_true_r|by rewrite orb_false_r]. Qed.

Definition body_reads (fuel n : nat) (e : rrr_mqtt_acl_entry) (p0 p : rrr_parse_pos)
    (o : option (list statement * list Z)) (e0 : rrr_mqtt_acl_entry) : Prop :=
  exists ret n' e' q, topic_block_body_loop alloc fuel n e p = Ret (ret, n', e', q) /\ later p0 q /\
    gets ret q o (fun ss => e' = fold_left apply ss e0).

(** The rest of the body behind a statement. *)
Lemma body_step fuel n e s p0 p l r :
  (forall n e p l, reads p l -> terminated p -> bytes_ok l -> (length l < fuel)%nat ->
     body_reads fuel n e p p (read_body fuel (set_of e) l) e) ->
  read_statement l = Some (s, r) -> set_of e && is_default s = false ->
  reads p r -> later p0 p -> terminated p0 -> bytes_ok l -> (length l <= fuel)%nat ->
  body_reads fuel n (apply e s) p0 p
    (match read_body fuel (set_of e || is_default s) r with
     | Some (ss, r) => Some (s :: ss, r) | None => None end) e.
Proof.
  intros IH Hs Hset Hr Hlater Ht Hb Hf. apply read_statement_behind in Hs as [Hbh Hlen].
  destruct (IH n (apply e s) p r) as (ret & n' & e2 & q & E & Hq & Hg);
    [done|by eapply terminated_later|by eapply behind_bytes|lia|].
  exists ret, n', e2, q. split; [done|]. split; [by eapply later_trans|].
  rewrite set_of_apply in Hg. by destruct (read_body _ _ _) as [[ss r']|].
Qed.

Lemma body_default fuel n e q l p0 l0 :
  (forall n e p l, reads p l -> terminated p -> bytes_ok l -> (length l < fuel)%nat ->
     body_reads fuel n e p p (read_body fuel (set_of e) l) e) ->
  read_word DEFAULT l = Some l0 -> reads q l0 -> later p0 q -> terminated p0 -> bytes_ok l ->
  (length l <= fuel)%nat ->
  exists ret n' e' q',
    (if set_of e then Ret (1, n, e, q)
     else
       '(ret, entry, p) ← rrr_mqtt_acl_parse_keyword_default e q;
       if negb (ret =? 0) then Ret (1, n, entry, p)
       else topic_block_body_loop alloc fuel n (set_default_action_is_set 1 entry) p)
    = Ret (ret, n', e', q') /\ later p0 q' /\
    gets ret q'
      (match read_statement l with
       | Some (s, r) =>
         if set_of e && is_default s then None
         else match read_body fuel (set_of e || is_default s) r with
              | Some (ss, r) => Some (s :: ss, r) | None => None end
       | None => None
       end) (fun ss => e' = fold_left apply ss e).
Proof.
  intros IH Hw Hq Hlater Ht Hb Hf. destruct (set_of e) eqn:Eset.
  { eexists 1, n, e, q. split; [done|]. split; [done|]. unfold read_statement. rewrite Hw.
    by destruct (read_value _) as [[a r]|]. }
  destruct (default_text e q _ Hq) as (ret & e' & q2 & -> & Hq2 & Hd). rewrite bind_ret. unfold got in Hd.
  pose proof (later_trans _ _ _ Hlater Hq2) as Hl2.
  destruct (read_value l0) as [[a r]|] eqn:Ev.
  - assert (read_statement l = Some (Default a, r)) as Es by (unfold read_statement; by rewrite Hw, Ev).
    destruct Hd as (-> & Hr & ->). cbn [Z.eqb negb]. rewrite Es.
    destruct (body_step fuel n e (Default a) p0 q2 l r) as (ret & n' & e2 & q' & E & Hq' & Hg);
      [done|done|by rewrite Eset|done..|]. rewrite Eset in Hg. exists ret, n', e2, q'. by rewrite andb_false_l.
  - subst ret. exists 1, n, e', q2. split; [done|]. split; [done|]. unfold read_statement. by rewrite Hw, Ev.
Qed.

Lemma body_user fuel n e q l p0 l0 :
  (forall n e p l, reads p l -> terminated p -> bytes_ok l -> (length l < fuel)%nat ->
     body_reads fuel n e p p (read_body fuel (set_of e) l) e) ->
  read_word DEFAULT l = None -> read_word USER l = Some l0 -> reads q l0 -> later p0 q ->
  terminated p0 -> bytes_ok l -> (length l <= fuel)%nat ->
  exists ret n' e' q',
    ('(ret, n, entry, p) ← rrr_mqtt_acl_parse_keyword_user alloc n e q;
     if negb (ret =? 0) then Ret (1, n, entry, p) else topic_block_body_loop alloc fuel n entry p)
    = Ret (ret, n', e', q') /\ later p0 q' /\
    gets ret q'
      (match read_statement l with
       | Some (s, r) =>
         if set_of e && is_default s then None
         else match read_body fuel (set_of e || is_default s) r with
              | Some (ss, r) => Some (s :: ss, r) | None => None end
       | None => None
       end) (fun ss => e' = fold_left apply ss e).
Proof.
  intros IH Hd Hw Hq Hlater Ht Hb Hf. assert (bytes_ok l0) as Hb0.
  { apply read_word_behind in Hw as [Hw _]. by eapply behind_bytes. }
  destruct (user_text n e q l0 Hq Hb0) as (ret & n' & e' & q2 & -> & Hq2 & Hg). rewrite bind_ret.
  pose proof (later_trans _ _ _ Hlater Hq2) as Hl2. unfold gets in Hg.
  assert (ret = 1 -> ~ (forall i, alloc i = true) \/ read_user l0 = None ->
    exists ret' n2 e2 q', (if negb (ret =? 0) then Ret (1, n', e', q2)
       else topic_block_body_loop alloc fuel n' e' q2) = Ret (ret', n2, e2, q') /\ later p0 q' /\
    gets ret' q' (match read_statement l with
       | Some (s, r) =>
         if set_of e && is_default s then None
         else match read_body fuel (set_of e || is_default s) r with
              | Some (ss, r) => Some (s :: ss, r) | None => None end
       | None => None end) (fun ss => e2 = fold_left apply ss e)) as Hfail.
  { intros -> Hwhy. exists 1, n', e', q2. split; [done|]. split; [done|].
    destruct Hwhy as [Hall|Hnone]; [|unfold read_statement; by rewrite Hd, Hw, Hnone].
    destruct (read_statement l) as [[s r]|]; [|done]. destruct (set_of e && is_default s); [done|].
    destruct (read_body _ _ _) as [[ss r']|]; [by right|done]. }
  destruct (read_user l0) as [[[name a] r]|] eqn:Eu; [|auto].
  destruct Hg as [(-> & Hr & ->)|[-> Hall]]; [|auto]. cbn [Z.eqb negb].
  assert (read_statement l = Some (User name a, r)) as Es by (unfold read_statement; by rewrite Hd, Hw, Eu).
  rewrite Es. destruct (body_step fuel n' e (User name a) p0 q2 l r) as (ret & n2 & e2 & q' & E & Hq' & Hg);
    [done|done|by rewrite andb_false_r|done..|]. rewrite andb_false_r. exists ret, n2, e2, q'. done.
Qed.

Lemma body_loop_text fuel n e p l :
  reads p l -> terminated p -> bytes_ok l -> (length l < fuel)%nat ->
  body_reads fuel n e p p (read_body fuel (set_of e) l) e.
Proof.
  revert n e p l. induction fuel as [|fuel IH]; intros n e p l Hl Ht Hb Hf; [lia|].
  unfold body_reads. cbn [topic_block_body_loop read_body]. rewrite (reads_eof _ _ Hl).
  destruct (spaces_and_comments_text p l Hl Ht) as (q & Hskip & Hq & Hql).
  destruct l as [|c0 l0] eqn:El.
  { eexists 0, _, _, p. split; [done|]. split; [apply later_refl, Hl|]. left. done. }
  rewrite Hskip, bind_ret, (reads_eof _ _ Hql). rewrite <-El in *. clear El c0 l0.
  pose proof (strip_behind false l) as Hbh.
  destruct (strip false l) as [|c l1]; [eexists 0, _, _, q; split; [done|]; split; [done|]; by left|].
  set (lq := c :: l1) in *. clearbody lq. pose proof (behind_length _ _ Hbh) as Hlen.
  pose proof (behind_bytes _ _ Hbh Hb) as Hbq.
  destruct (word_text q lq DEFAULT Hql) as (q1 & -> & Hq1 & Hw1). rewrite bind_ret.
  pose proof (later_trans _ _ _ Hq Hq1) as Hl1.
  destruct (read_word DEFAULT lq) as [l2|] eqn:E1; pose proof E1 as E1'; unfold read_word in E1';
    destruct (prefix_by same_letter DEFAULT lq) eqn:Ep1; try done; cbn [Z.eqb Pos.eqb].
  { destruct (body_default fuel n e q1 lq p l2) as (ret & n' & e' & q' & E & Hq' & Hg); [done..|lia|].
    exists ret, n', e', q'. split; [done|]. split; [done|]. destruct (read_statement lq) as [[s r]|]; [done|].
    unfold read_word. by rewrite (topic_apart _ 68 [69; 70; 65; 85; 76; 84] Ep1) by lia. }
  subst q1. destruct (word_text q lq USER Hql) as (q1 & -> & Hq2 & Hw2). rewrite bind_ret.
  pose proof (later_trans _ _ _ Hq Hq2) as Hl2.
  destruct (read_word USER lq) as [l2|] eqn:E2; pose proof E2 as E2'; unfold read_word in E2';
    destruct (prefix_by same_letter USER lq) eqn:Ep2; try done; cbn [Z.eqb Pos.eqb].
  { destruct (body_user fuel n e q1 lq p l2) as (ret & n' & e' & q' & E & Hq' & Hg); [done..|lia|].
    exists ret, n', e', q'. split; [done|]. split; [done|]. destruct (read_statement lq) as [[s r]|]; [done|].
    unfold read_word. by rewrite (topic_apart _ 85 [83; 69; 82] Ep2) by lia. }
  subst q1. unfold read_statement. rewrite E1, E2.
  destruct (word_text q lq TOPIC Hql) as (q1 & -> & Hq3 & Hw3). rewrite bind_ret. unfold read_word in Hw3 |- *.
  pose proof (later_trans _ _ _ Hq Hq3) as (Hw & Hd & Hsz & Hpos).
  destruct (prefix_by same_letter TOPIC lq); cbn [Z.eqb Pos.eqb].
  - eexists 0, n, e, _. split; [done|].
    assert (reads (set_pos (pos p) q1) l) as Hback.
    { destruct Hl as [Hp Hr]. split; [|unfold rest in *; simpl; by rewrite Hd, Hsz].
      destruct Hp as (Hp1 & Hp2 & Hp3 & _), Hw as (_ & _ & _ & Hw4). unfold wf. simpl. rewrite Hd, Hsz. done. }
    split; [|by left]. split; [apply Hback|]. simpl. split_and!; [done..|lia].
  - subst q1. eexists 1, n, e, q. split; [done|]. split; [|done]. done.
Qed.

Lemma tokenize_text n t :
  0 ∉ t ->
  rrr_mqtt_topic_tokenize (fun i => alloc (n + i)%nat) t = (0, topic_levels t) \/
  (exists l, rrr_mqtt_topic_tokenize (fun i => alloc (n + i)%nat) t = (1, l)) /\ ~ forall i, alloc i = true.
Proof.
  intros Hz. destruct t as [|c t]; [by left|]. unfold rrr_mqtt_topic_tokenize.
  rewrite tokenize_spec by done. destruct (allocs _ _ _) eqn:E; [by left|]. right. split; [eauto|].
  intros Hall. rewrite allocs_true in E; [done|]. eauto.
Qed.

Lemma clone_text n l :
  rrr_mqtt_topic_tokens_clone (fun i => alloc (n + i)%nat) l = (0, l) \/
  rrr_mqtt_topic_tokens_clone (fun i => alloc (n + i)%nat) l = (1, []) /\ ~ forall i, alloc i = true.
Proof.
  unfold rrr_mqtt_topic_tokens_clone. generalize O. induction l as [|t l IH]; intros m; [by left|]. simpl.
  destruct (alloc (n + m)) eqn:E; simpl; [|right; eauto using not_all].
  destruct (IH (S m)) as [->|[-> ?]]; [by left|by right].
Qed.

Lemma push_text n c t :
  exists ret n', rrr_mqtt_acl_entry_collection_push_new alloc n c (topic_levels t) t
    = (ret, n', if ret =? 0 then c ++ [new_entry t] else c) /\
  (ret = 0 \/ ret = 1 /\ ~ forall i, alloc i = true).
Proof.
  unfold rrr_mqtt_acl_entry_collection_push_new.
  destruct (alloc n) eqn:E; [|exists 1, n; split; [done|eauto using not_all]]. cbn [negb].
  destruct (clone_text (n + 1) (topic_levels t)) as [->|[-> ?]]; [|exists 1, n; auto]. cbn [Z.eqb negb].
  set (m := (n + 1 + length (topic_levels t))%nat). destruct (alloc m) eqn:E2; cbn [negb].
  - exists 0, (m + 1)%nat. auto.
  - exists 1, m. split; [done|eauto using not_all].
Qed.

(** The body of a block, and the list with the entry changed by it. *)
Lemma block_text n c t p l {A} (k : Z -> nat -> rrr_mqtt_acl -> rrr_parse_pos -> outcome A) :
  reads p l -> terminated p -> bytes_ok l ->
  exists ret n' c' q,
    match RRR_LL_LAST (c ++ [new_entry t]) with
    | None => Bug
    | Some entry =>
      '(ret, n, entry, p) ← rrr_mqtt_acl_parse_topic_block_body alloc n entry p;
      k ret n (set_last (c ++ [new_entry t]) entry) p
    end = k ret n' c' q /\ later p q /\
    gets ret q (read_body (S (length l)) false l)
      (fun ss => c' = c ++ [fold_left apply ss (new_entry t)]).
Proof.
  intros Hl Ht Hb. rewrite last_push. unfold rrr_mqtt_acl_parse_topic_block_body.
  rewrite <-(reads_size p l Hl), Nat2Z.id.
  destruct (body_loop_text (S (length l)) n (new_entry t) p l) as (ret & n' & e' & q & -> & Hq & Hg); [done..|lia|].
  rewrite bind_ret, set_last_push. exists ret, n', (c ++ [e']), q. split; [done|]. split; [done|].
  change (set_of (new_entry t)) with false in Hg. destruct (read_body _ _ _) as [[ss r]|]; [|done].
  destruct Hg as [(-> & ? & ->)|?]; [left|right]; done.
Qed.

(** What a round of the loop over the blocks does with the text of the topic. *)
Definition store_block (fuel n : nat) (target : rrr_mqtt_acl) (topic_tmp : option (list Z))
    (p : rrr_parse_pos) : outcome (Z * rrr_mqtt_acl * rrr_parse_pos) :=
  match topic_tmp with
  | None => Ret (1, target, p)
  | Some bytes =>
    ret ← rrr_mqtt_topic_filter_validate_name (cstr bytes);
    if negb (ret =? 0) then Ret (1, target, p)
    else
      let '(ret, first_token_tmp) :=
        rrr_mqtt_topic_tokenize (fun i => alloc (n + 1 + i)%nat) (cstr bytes) in
      if negb (ret =? 0) then Ret (1, target, p)
      else
        let '(ret, n, target) := rrr_mqtt_acl_entry_collection_push_new alloc
          (n + 1 + length first_token_tmp) target first_token_tmp (cstr bytes) in
        if negb (ret =? 0) then Ret (1, target, p)
        else
          match RRR_LL_LAST target with
          | None => Bug
          | Some entry =>
            '(ret, n, entry, p) ← rrr_mqtt_acl_parse_topic_block_body alloc n entry p;
            let target := set_last target entry in
            if negb (ret =? 0) then Ret (1, target, p) else topic_blocks_loop alloc fuel n target p
          end
  end.

Definition blocks_read (c : rrr_mqtt_acl) (run : outcome (Z * rrr_mqtt_acl * rrr_parse_pos))
    (o : option (list block)) : Prop :=
  exists ret c' q, run = Ret (ret, c', q) /\
    match o with
    | Some bs => ret = 0 /\ c' = c ++ (entry_of <$> bs) \/ ret = 1 /\ ~ forall i, alloc i = true
    | None => ret = 1
    end.

Lemma blocks_fail c c' q o :
  o = None \/ ~ (forall i, alloc i = true) -> blocks_read c (Ret (1, c', q)) o.
Proof. intros H. exists 1, c', q. split; [done|]. destruct o; naive_solver. Qed.

Lemma store_text fuel n c raw p l :
  (forall n c p l, reads p l -> terminated p -> bytes_ok l -> (length l < fuel)%nat ->
     blocks_read c (topic_blocks_loop alloc fuel n c p) (read_blocks fuel l)) ->
  reads p l -> terminated p -> bytes_ok l -> (length l < fuel)%nat ->
  blocks_read c (store_block fuel n c (Some raw) p)
    (if negb (validates (cstr raw)) then None
     else
       match read_body (S (length l)) false l with
       | None => None
       | Some (ss, r) =>
         match read_blocks fuel r with Some bs => Some (mk_block raw ss :: bs) | None => None end
       end).
Proof.
  intros IH Hl Ht Hb Hf. unfold store_block.
  destruct (validates_text (cstr raw)) as (ret0 & -> & ->). rewrite bind_ret.
  destruct (ret0 =? 0); cbn [negb]; [|apply blocks_fail; auto].
  destruct (tokenize_text (n + 1) (cstr raw) (cstr_no_nul raw)) as [->|[[l' ->] Hall]]; cbn [Z.eqb Pos.eqb negb];
    [|apply blocks_fail; auto].
  destruct (push_text (n + 1 + length (topic_levels (cstr raw))) c (cstr raw)) as (ret2 & n2 & -> & Hret).
  destruct Hret as [->|[-> Hall]]; cbn [Z.eqb negb]; [|apply blocks_fail; auto].
  destruct (block_text n2 c (cstr raw) p l (fun ret n target p =>
    if negb (ret =? 0) then Ret (1, target, p) else topic_blocks_loop alloc fuel n target p) Hl Ht Hb)
    as (ret & n3 & c' & q & Hrun & Hq & Hg). rewrite Hrun. clear Hrun. unfold gets in Hg.
  destruct (read_body _ _ _) as [[ss r]|] eqn:Er; [|subst ret; apply blocks_fail; auto].
  destruct Hg as [(-> & Hr & ->)|[-> Hall]]; cbn [Z.eqb negb]; [|apply blocks_fail; auto].
  apply read_body_behind in Er. pose proof (behind_length _ _ Er).
  destruct (IH n3 (c ++ [entry_of (mk_block raw ss)]) q r) as (ret' & c2 & q2 & E & Hc);
    [done|by eapply terminated_later|by eapply behind_bytes|lia|].
  exists ret', c2, q2. split; [exact E|]. destruct (read_blocks fuel r) as [bs|]; [|done].
  destruct Hc as [[-> ->]|?]; [left|by right]. split; [done|]. by rewrite <-app_assoc.
Qed.

Lemma blocks_loop_text fuel n c p l :
  reads p l -> terminated p -> bytes_ok l -> (length l < fuel)%nat ->
  blocks_read c (topic_blocks_loop alloc fuel n c p) (read_blocks fuel l).
Proof.
  revert n c p l. induction fuel as [|fuel IH]; intros n c p l Hl Ht Hb Hf; [lia|].
  cbn [topic_blocks_loop read_blocks].
  destruct (spaces_and_comments_text p l Hl Ht) as (q & -> & Hq & Hql). rewrite bind_ret, (reads_eof _ _ Hql).
  pose proof (strip_behind false l) as Hbh.
  destruct (strip false l) as [|c0 l0]; [eexists 0, c, q; split; [done|]; left; by rewrite app_nil_r|].
  set (lq := c0 :: l0) in *. clearbody lq. pose proof (behind_length _ _ Hbh) as Hlen.
  pose proof (behind_bytes _ _ Hbh Hb) as Hbq. assert (terminated q) as Htq by eauto using terminated_later.
  destruct (topic_line (alloc n) q lq (fun p => Ret (1, c, p)) (store_block fuel n c) Hql Htq Hbq)
    as (q2 & Hq2 & Hrun). cbv zeta in Hrun.
  destruct (read_topic lq) as [[raw r]|] eqn:Er.
  - destruct Hrun as [Hr Hrun]. unfold store_block at 1 in Hrun. rewrite Hrun.
    apply read_topic_behind in Er as [Hbr Hlt].
    destruct (alloc n) eqn:En; [|by apply blocks_fail; right; eapply not_all].
    apply store_text; [done|done|by eapply terminated_later|by eapply behind_bytes|lia].
  - unfold store_block in Hrun. rewrite Hrun. apply blocks_fail. auto.
Qed.

End Alloc.

(** * The readings are those of the grammar *)

Lemma strip_gap g l : gap_text g -> strip false (g ++ l) = strip false l.
Proof.
  assert (forall k r, forallb on_line k = true -> strip true (k ++ r) = strip true r) as Hline.
  { intros k r. induction k as [|c k IH]; [done|]. simpl. by intros [-> ?]%andb_true_iff; auto. }
  induction 1 as [|c g Hc _ IH|k c g Hk Hc _ IH]; [done|simpl; by rewrite Hc|].
  cbn [app strip]. change (rrr_parse_is_spaces 35) with false. change (35 =? 35) with true. cbn iota.
  rewrite <-app_assoc, Hline by done. simpl. unfold on_line at 1. by rewrite Hc.
Qed.

(** What precedes the first byte that is not skipped. *)
Definition skipped (comment : bool) (g : list Z) : Prop :=
  if comment then exists k c g', g = k ++ c :: g' /\ forallb on_line k = true /\ is_newline c = true /\ gap_text g'
  else gap_text g.

Definition all_skipped (comment : bool) (l : list Z) : Prop :=
  if comment
  then forallb on_line l = true \/
       exists k c l', l = k ++ c :: l' /\ forallb on_line k = true /\ is_newline c = true /\ acl_text [] l'
  else acl_text [] l.

Lemma acl_nil_cons g l : gap_text g -> acl_text [] l -> acl_text [] (g ++ l).
Proof.
  assert (forall g g', gap_text g -> gap_text g' -> gap_text (g ++ g')) as Happ.
  { intros g1 g2 H1 H2. induction H1; simpl; [done|by constructor|]. rewrite <-app_assoc. by constructor. }
  intros Hg Hl. inversion Hl; subst; [apply acl_end; auto|]. rewrite app_assoc. apply acl_comment; auto.
Qed.

Lemma strip_sound l comment :
  match strip comment l with
  | [] => all_skipped comment l
  | c :: r => exists g, l = g ++ c :: r /\ skipped comment g
  end.
Proof.
  revert comment. induction l as [|x l IH]; intros [|]; simpl; [by left|by apply acl_end; constructor|..].
  - specialize (IH (on_line x)). destruct (on_line x) eqn:Ex; simpl in IH.
    + destruct (strip true l) as [|c r].
      * destruct IH as [IH|(k & c & l' & -> & Hk & ?)]; [left; by apply andb_true_iff|].
        right. exists (x :: k), c, l'. split; [done|]. split; [by apply andb_true_iff|done].
      * destruct IH as (g & -> & k & c' & g' & -> & Hk & ?). exists (x :: k ++ c' :: g'). split; [done|].
        exists (x :: k), c', g'. split; [done|]. split; [by apply andb_true_iff|done].
    + unfold on_line in Ex. apply negb_false_iff in Ex. destruct (strip false l) as [|c r].
      * right. by exists [], x, l.
      * destruct IH as (g & -> & Hg). exists (x :: g). split; [done|]. by exists [], x, g.
  - destruct (rrr_parse_is_spaces x) eqn:Ex.
    { specialize (IH false). simpl in IH. destruct (strip false l) as [|c r].
      - apply (acl_nil_cons [x]); [|done]. by constructor; [|constructor].
      - destruct IH as (g & -> & Hg). exists (x :: g). split; [done|]. by constructor. }
    destruct (Z.eqb_spec x 35) as [->|]; [|exists []; split; [done|constructor]].
    specialize (IH true). simpl in IH. destruct (strip true l) as [|c r].
    + destruct IH as [IH|(k & c & l' & -> & Hk & Hc & Hl)]; [by apply (acl_comment []); [constructor|]|].
      change (35 :: k ++ c :: l') with ((35 :: k) ++ [c] ++ l'). rewrite app_assoc.
      apply acl_nil_cons; [|done]. apply gap_comment; [done..|constructor].
    + destruct IH as (g & -> & k & c' & g' & -> & Hk & Hc & Hg). exists (35 :: k ++ c' :: g').
      split; [done|]. by constructor.
Qed.

Lemma acl_nil_strip l : acl_text [] l -> strip false l = [].
Proof.
  intros H. inversion H; subst.
  - rewrite <-(app_nil_r l). by rewrite strip_gap.
  - rewrite strip_gap by done. simpl. change (rrr_parse_is_spaces 35) with false. cbn iota.
    rewrite <-strip_line. assert (span on_line k = length k) as ->; [|by rewrite drop_all].
    rewrite <-(app_nil_r k) at 1. rewrite span_app by done. simpl. lia.
Qed.

(** ** Keywords, separators and line ends *)

Definition starts (f : Z -> bool) (l : list Z) : Prop :=
  match l with c :: _ => f c = false | [] => True end.

Lemma span_run f a r : forallb f a = true -> starts f r -> span f (a ++ r) = length a.
Proof. intros Ha Hr. rewrite span_app by done. destruct r; [simpl; lia|]. rewrite span_stop by done. lia. Qed.

Lemma blank_spaces l : blank l = spaces l && negb (existsb is_newline l).
Proof.
  unfold blank, spaces. induction l as [|c l IH]; [done|]. cbn [forallb existsb]. rewrite IH.
  assert (rrr_parse_is_space_or_tab c = rrr_parse_is_spaces c && negb (is_newline c)) as ->.
  { unfold rrr_parse_is_space_or_tab, rrr_parse_is_spaces, RRR_PARSE_MATCH_C_SPACE_TAB,
      RRR_PARSE_MATCH_C_NEWLINES, is_newline.
    destruct (Z.eqb_spec c 32), (Z.eqb_spec c 9), (Z.eqb_spec c 13), (Z.eqb_spec c 10); simpl; try done; lia. }
  clear IH. destruct (rrr_parse_is_spaces c), (is_newline c), (forallb _ l), (existsb _ l); done.
Qed.

Lemma read_sep_complete sep r :
  sep <> [] -> blank sep = true -> starts rrr_parse_is_spaces r -> read_sep (sep ++ r) = Some r.
Proof.
  rewrite blank_spaces, andb_true_iff. intros Hne [Hs Hn] Hr. unfold read_sep.
  rewrite span_run, take_app_length, drop_app_length by done. apply negb_true_iff in Hn. rewrite Hn.
  by destruct sep.
Qed.

Lemma read_sep_sound l r :
  read_sep l = Some r ->
  exists sep, l = sep ++ r /\ sep <> [] /\ blank sep = true /\ starts rrr_parse_is_spaces r.
Proof.
  unfold read_sep. set (n := span _ _). destruct (Nat.eqb_spec n 0) as [|Hn]; [done|].
  destruct (existsb _ _) eqn:E; [done|]. intros [= <-]. exists (take n l).
  split; [by rewrite take_drop|]. split; [|split].
  - intros H. apply (f_equal length) in H. rewrite length_take in H.
    pose proof (span_le rrr_parse_is_spaces l) as Hle. fold n in Hle. simpl in H. lia.
  - rewrite blank_spaces, E, andb_true_r. apply span_take.
  - apply (span_drop rrr_parse_is_spaces l).
Qed.

Lemma read_end_complete e l :
  spaces e = true -> existsb is_newline e = true \/ l = [] ->
  read_end (e ++ l) = Some (drop (span rrr_parse_is_spaces l) l).
Proof.
  intros He Hor. unfold read_end. rewrite span_app by done.
  rewrite drop_app_add, take_app_add. destruct Hor as [Hn| ->]; [|done].
  destruct (drop _ l); [done|]. by rewrite existsb_app, Hn.
Qed.

Lemma read_end_sound l r :
  read_end l = Some r ->
  exists e, l = e ++ r /\ spaces e = true /\ (existsb is_newline e = true \/ r = []).
Proof.
  unfold read_end. set (n := span _ _). intros H. exists (take n l).
  assert (drop n l = r /\ (existsb is_newline (take n l) = true \/ r = [])) as [<- ?].
  { destruct (drop n l); [by simplify_eq; auto|]. destruct (existsb _ _); simplify_eq; auto. }
  rewrite take_drop. split; [done|]. split; [apply span_take|done].
Qed.

Lemma read_word_complete w k r : keyword w k -> read_word w (k ++ r) = Some r.
Proof.
  intros Hk. unfold read_word. rewrite (proj2 (prefix_by_spec _ _ _)) by eauto.
  by rewrite (Forall2_length Hk), drop_app_length.
Qed.

Lemma read_word_sound w l r : read_word w l = Some r -> exists k, l = k ++ r /\ keyword w k.
Proof.
  unfold read_word. destruct (prefix_by same_letter w l) eqn:E; [|done]. intros; simplify_eq.
  apply prefix_by_spec in E as (k & r & -> & Hk). exists k.
  by rewrite (Forall2_length Hk), drop_app_length.
Qed.

(** Of keywords that begin with different letters, only one is read. *)
Definition apart (v w : list Z) : bool :=
  match v, w with
  | x :: _, y :: _ => in_range 65 90 x && in_range 65 90 y && negb (x =? y)
  | _, _ => false
  end.

Lemma read_word_other v w k r : apart v w = true -> keyword v k -> read_word w (k ++ r) = None.
Proof.
  destruct v as [|x v], w as [|y w]; try done. simpl.
  rewrite !andb_true_iff, negb_true_iff, !in_range_spec, Z.eqb_neq. intros [[Hx Hy] Hne] Hk. unfold read_word.
  by rewrite (keywords_apart x v y w (k ++ r)) by (done || apply prefix_by_spec; eauto).
Qed.

Lemma keyword_starts x w k r f :
  65 <= x <= 90 -> keyword (x :: w) k -> f x = false -> f (x + 32) = false -> starts f (k ++ r).
Proof.
  intros Hx Hk H1 H2. apply Forall2_cons_inv_l in Hk as (c & k' & Hc & _ & ->). simpl.
  by apply same_letter_cases in Hc as [->| ->].
Qed.

Lemma read_action_complete a w r : keyword (word a) w -> read_action (w ++ r) = Some (a, r).
Proof.
  intros Hw. unfold read_action. destruct a; simpl in Hw.
  - by rewrite (read_word_complete DENY).
  - rewrite (read_word_other READ DENY) by done. by rewrite (read_word_complete READ).
  - rewrite (read_word_other WRITE DENY), (read_word_other WRITE READ) by done. by rewrite (read_word_complete WRITE).
Qed.

Lemma read_action_sound l a r : read_action l = Some (a, r) -> exists w, l = w ++ r /\ keyword (word a) w.
Proof.
  unfold read_action. destruct (read_word DENY l) eqn:E1; [intros; simplify_eq; by apply read_word_sound|].
  destruct (read_word READ l) eqn:E2; [intros; simplify_eq; by apply read_word_sound|].
  destruct (read_word WRITE l) eqn:E3; [intros; simplify_eq; by apply read_word_sound|done].
Qed.

Lemma word_starts a w r : keyword (word a) w -> starts rrr_parse_is_spaces (w ++ r).
Proof. intros Hw. destruct a; (eapply keyword_starts; [|exact Hw|done|done]; lia). Qed.

Lemma read_value_complete sep a w e l :
  sep <> [] -> blank sep = true -> keyword (word a) w -> spaces e = true ->
  existsb is_newline e = true \/ l = [] ->
  read_value (sep ++ w ++ e ++ l) = Some (a, drop (span rrr_parse_is_spaces l) l).
Proof.
  intros Hne Hb Hw He Hor. unfold read_value.
  rewrite read_sep_complete by eauto using word_starts.
  by rewrite (read_action_complete a), read_end_complete by done.
Qed.

Lemma read_value_sound l a r :
  read_value l = Some (a, r) ->
  exists sep w e, l = sep ++ w ++ e ++ r /\ sep <> [] /\ blank sep = true /\ keyword (word a) w /\
    spaces e = true /\ (existsb is_newline e = true \/ r = []).
Proof.
  unfold read_value. destruct (read_sep l) as [l1|] eqn:E1; [|done].
  destruct (read_action l1) as [[x l2]|] eqn:E2; [|done]. destruct (read_end l2) as [l3|] eqn:E3; [|done].
  intros; simplify_eq. apply read_sep_sound in E1 as (sep & -> & ? & ? & _).
  apply read_action_sound in E2 as (w & -> & ?). apply read_end_sound in E3 as (e & -> & ? & ?).
  exists sep, w, e. done.
Qed.

(** ** Statements *)

Lemma name_no_space c : is_name c = true -> rrr_parse_is_space_or_tab c = false.
Proof.
  unfold rrr_parse_is_space_or_tab, RRR_PARSE_MATCH_C_SPACE_TAB.
  destruct (Z.eqb_spec c 32) as [->|]; [done|]. by destruct (Z.eqb_spec c 9) as [->|].
Qed.

Lemma blank_no_name c : rrr_parse_is_space_or_tab c = true -> is_name c = false.
Proof.
  intros Hc. destruct (is_name c) eqn:E; [|done]. apply name_no_space in E. congruence.
Qed.

Lemma read_user_complete sep name sep' a w e l :
  blank sep = true -> name <> [] -> forallb is_name name = true -> sep' <> [] -> blank sep' = true ->
  keyword (word a) w -> spaces e = true -> existsb is_newline e = true \/ l = [] ->
  read_user (sep ++ name ++ sep' ++ w ++ e ++ l) = Some (name, a, drop (span rrr_parse_is_spaces l) l).
Proof.
  intros Hs Hne Hn Hne' Hs' Hw He Hor. unfold read_user.
  rewrite span_run, drop_app_length; [|done|].
  2: { destruct name as [|c name]; [done|]. simpl in Hn |- *. apply andb_true_iff in Hn as [? _]. by apply name_no_space. }
  cbv zeta. rewrite span_run, take_app_length, drop_app_length; [|done|].
  2: { destruct sep' as [|c sep']; [done|]. simpl in Hs' |- *. apply andb_true_iff in Hs' as [? _]. by apply blank_no_name. }
  rewrite (read_value_complete _ a) by done. by destruct name.
Qed.

Lemma read_user_sound l name a r :
  read_user l = Some (name, a, r) ->
  exists sep sep' w e, l = sep ++ name ++ sep' ++ w ++ e ++ r /\ blank sep = true /\ name <> [] /\
    forallb is_name name = true /\ sep' <> [] /\ blank sep' = true /\ keyword (word a) w /\
    spaces e = true /\ (existsb is_newline e = true \/ r = []).
Proof.
  unfold read_user. set (b := span rrr_parse_is_space_or_tab l). cbv zeta. set (n := span is_name (drop b l)).
  destruct (Nat.eqb_spec n 0) as [|Hn]; [done|].
  destruct (read_value _) as [[x r']|] eqn:E; [|done]. intros [= <- <- <-].
  apply read_value_sound in E as (sep' & w & e & E & ?). exists (take b l), sep', w, e.
  rewrite <-E, !take_drop. split; [done|]. split; [apply span_take|]. split; [|split; [apply span_take|done]].
  intros H'. apply (f_equal length) in H'. rewrite length_take in H'. pose proof (span_le is_name (drop b l)) as Hle.
  fold n in Hle. simpl in H'. lia.
Qed.

Lemma read_statement_complete s t e l :
  statement_text s t -> spaces e = true -> existsb is_newline e = true \/ l = [] ->
  read_statement (t ++ e ++ l) = Some (s, drop (span rrr_parse_is_spaces l) l).
Proof.
  intros Hs He Hor. unfold read_statement.
  inversion Hs as [k sep w a Hk Hne Hb Hw|k sep name sep' w a Hk Hb Hne Hn Hne' Hb' Hw]; subst; rewrite <-!app_assoc.
  - by rewrite (read_word_complete DEFAULT), (read_value_complete _ a) by done.
  - rewrite (read_word_other USER DEFAULT), (read_word_complete USER) by done.
    by rewrite (read_user_complete _ _ _ a) by done.
Qed.

Lemma read_statement_sound l s r :
  read_statement l = Some (s, r) ->
  exists t e, l = t ++ e ++ r /\ statement_text s t /\ spaces e = true /\ (existsb is_newline e = true \/ r = []).
Proof.
  unfold read_statement. destruct (read_word DEFAULT l) as [l1|] eqn:E1.
  - destruct (read_value l1) as [[a l2]|] eqn:E2; [|done]. intros [= <- <-].
    apply read_word_sound in E1 as (k & -> & Hk).
    apply read_value_sound in E2 as (sep & w & e & -> & ? & ? & ? & ?). exists (k ++ sep ++ w), e.
    rewrite <-!app_assoc. split; [done|]. split; [by constructor|done].
  - destruct (read_word USER l) as [l1|] eqn:E2; [|done].
    destruct (read_user l1) as [[[name a] l2]|] eqn:E3; [|done]. intros [= <- <-].
    apply read_word_sound in E2 as (k & -> & Hk).
    apply read_user_sound in E3 as (sep & sep' & w & e & -> & ? & ? & ? & ? & ? & ? & ?).
    exists (k ++ sep ++ name ++ sep' ++ w), e. rewrite <-!app_assoc. split; [done|]. split; [by constructor|done].
Qed.

(** A keyword is not skipped. *)
Lemma keyword_kept w k r :
  65 <= hd 0 w <= 90 -> keyword w k -> strip false (k ++ r) = k ++ r /\ (0 < length k)%nat.
Proof.
  intros Hx Hk. destruct w as [|x w]; simpl in Hx; [lia|].
  apply Forall2_cons_inv_l in Hk as (c & k' & Hc & _ & ->). apply same_letter_cases in Hc; [|done].
  split; [|simpl; lia]. simpl. unfold rrr_parse_is_spaces, RRR_PARSE_MATCH_C_SPACE_TAB, RRR_PARSE_MATCH_C_NEWLINES.
  rewrite !(proj2 (Z.eqb_neq c _)) by lia. done.
Qed.

Lemma statement_starts s t r :
  statement_text s t -> strip false (t ++ r) = t ++ r /\ (0 < length t)%nat.
Proof.
  intros Hs. destruct Hs as [k sep w a Hk|k sep name sep' w a Hk]; rewrite <-app_assoc, length_app.
  - destruct (keyword_kept DEFAULT k ((sep ++ w) ++ r)) as [-> ?]; [simpl; lia|done|]. split; [done|lia].
  - destruct (keyword_kept USER k ((sep ++ name ++ sep' ++ w) ++ r)) as [-> ?]; [simpl; lia|done|].
    split; [done|lia].
Qed.

(** ** Bodies and blocks *)

(** Nothing follows, or a block. *)
Definition block_next (r : list Z) : Prop :=
  strip false r = [] \/ exists k l, strip false r = k ++ l /\ keyword TOPIC k.

Lemma read_body_complete ss r l set fuel l0 :
  body_text ss r l -> block_next r -> one_default set ss = true ->
  strip false l0 = strip false l -> (length l0 < fuel)%nat ->
  exists r0, read_body fuel set l0 = Some (ss, r0) /\ strip false r0 = strip false r.
Proof.
  intros Hb Hr. revert set fuel l0. induction Hb as [r|g t e s ss r l Hg Hs He Hor _ IH];
    intros set fuel l0 Hone Hl Hf; (destruct fuel as [|fuel]; [lia|]); cbn [read_body].
  - destruct Hr as [Hr|(k & l & Hr & Hk)]; rewrite Hl, Hr; [by exists []|].
    assert (read_statement (k ++ l) = None) as Hn
      by (unfold read_statement; by rewrite (read_word_other TOPIC DEFAULT), (read_word_other TOPIC USER)).
    pose proof (read_word_complete TOPIC k l Hk) as Ht.
    destruct (k ++ l) as [|c m] eqn:E; [by apply app_eq_nil in E as [-> _]; apply Forall2_nil_inv_r in Hk|].
    rewrite Hn, Ht. exists l0. by rewrite Hl.
  - rewrite strip_gap in Hl by done. destruct (statement_starts s t (e ++ l) Hs) as [Hst Hlen]. rewrite Hst in Hl.
    pose proof (strip_length false l0) as Hle. rewrite Hl, !length_app in Hle. rewrite Hl.
    pose proof (read_statement_complete s t e l Hs He Hor) as Hread.
    destruct (t ++ e ++ l) as [|c m] eqn:E; [by apply app_eq_nil in E as [-> _]; simpl in Hlen; lia|].
    rewrite Hread. simpl in Hone. apply andb_true_iff in Hone as [H1 H2].
    apply negb_true_iff in H1. rewrite H1.
    destruct (IH Hr (set || is_default s) fuel (drop (span rrr_parse_is_spaces l) l)) as (r0 & -> & Hr0);
      [done|apply strip_spaces|rewrite length_drop; lia|]. by exists r0.
Qed.

Lemma read_body_sound fuel set l ss r :
  read_body fuel set l = Some (ss, r) ->
  exists r', body_text ss r' l /\ one_default set ss = true /\ (r = r' \/ r = [] /\ strip false r' = []).
Proof.
  revert set l ss r. induction fuel as [|fuel IH]; intros set l ss r; simpl; [done|].
  pose proof (strip_sound l false) as Hs. simpl in Hs. destruct (strip false l) as [|c l1] eqn:El.
  { intros [= <- <-]. exists l. split; [constructor|]. auto. }
  destruct Hs as (g & -> & Hg). destruct (read_statement (c :: l1)) as [[s l2]|] eqn:E.
  - destruct (set && is_default s) eqn:Eset; [done|]. destruct (read_body _ _ _) as [[ss' r']|] eqn:E2; [|done].
    intros [= <- <-]. apply IH in E2 as (r2 & Hb & Hone & Hr). apply read_statement_sound in E as (t & e & -> & ? & ? & ?).
    exists r2. split; [by constructor|]. simpl. by rewrite Eset, Hone.
  - destruct (read_word TOPIC _); [|done]. intros [= <- <-]. exists (g ++ c :: l1). split; [constructor|]. auto.
Qed.

Lemma acl_block_next bs r : acl_text bs r -> block_next r.
Proof.
  intros H. inversion H as [g Hg|g k Hg Hk|g k sep raw ss bs' r' l Hg Hk]; subst.
  - left. by apply acl_nil_strip.
  - left. by apply acl_nil_strip.
  - right. exists k, (sep ++ raw ++ l). split; [|done]. rewrite strip_gap by done.
    apply (keyword_kept TOPIC); [simpl; lia|done].
Qed.

Lemma raw_starts raw l : raw_ok raw -> starts rrr_parse_is_spaces (raw ++ l).
Proof.
  intros [Hon Hc]. destruct raw as [|c raw]; [done|]. simpl in *. apply andb_true_iff in Hon as [Hc' _].
  unfold rrr_parse_is_spaces. unfold rrr_parse_is_space_or_tab in Hc. rewrite Hc. unfold on_line in Hc'.
  by apply negb_true_iff in Hc'.
Qed.

Lemma line_ends_starts l : line_ends l -> starts on_line l.
Proof. destruct l as [|c l]; [done|]. simpl. unfold on_line. by intros ->. Qed.

Lemma read_topic_complete k sep raw l :
  keyword TOPIC k -> sep <> [] -> blank sep = true -> raw_ok raw -> line_ends l ->
  read_topic (k ++ sep ++ raw ++ l) = Some (raw, l).
Proof.
  intros Hk Hne Hb Hraw Hl. unfold read_topic. rewrite read_word_complete by done.
  rewrite read_sep_complete by eauto using raw_starts. cbv zeta.
  rewrite span_run, take_app_length, drop_app_length by (apply Hraw || by apply line_ends_starts).
  destruct raw; [|done]. by destruct Hraw.
Qed.

Lemma read_topic_sound l raw r :
  read_topic l = Some (raw, r) ->
  exists k sep, l = k ++ sep ++ raw ++ r /\ keyword TOPIC k /\ sep <> [] /\ blank sep = true /\
    raw_ok raw /\ line_ends r.
Proof.
  unfold read_topic. destruct (read_word TOPIC l) as [l1|] eqn:E1; [|done].
  destruct (read_sep l1) as [l2|] eqn:E2; [|done]. cbv zeta. set (n := span on_line l2).
  destruct (Nat.eqb_spec n 0) as [|Hn]; [done|]. intros [= <- <-].
  apply read_word_sound in E1 as (k & -> & Hk). apply read_sep_sound in E2 as (sep & -> & ? & ? & Hst).
  exists k, sep. rewrite take_drop. split_and!; [done..| |].
  - split; [apply span_take|]. destruct l2 as [|c l2]; [done|]. subst n. simpl in Hst, Hn |- *.
    destruct (on_line c); [|done]. simpl. unfold rrr_parse_is_spaces in Hst. by apply orb_false_iff in Hst as [? _].
  - pose proof (span_drop on_line l2) as Hd. fold n in Hd. destruct (drop n l2); [done|].
    unfold on_line in Hd. by apply negb_false_iff in Hd.
Qed.

Lemma validates_ok f : bytes_ok f -> 0 ∉ f -> validates f = true <-> topic_filter_ok f.
Proof.
  intros Hb Hz. unfold topic_filter_ok. rewrite <-filter_validate_spec by done. unfold validates.
  destruct (validates_text f) as (ret & -> & _). rewrite Z.eqb_eq. split; [by intros ->|by intros [=]].
Qed.

Lemma read_blocks_complete bs l fuel l0 :
  acl_text bs l -> Forall block_ok bs -> strip false l0 = strip false l -> bytes_ok l0 ->
  (length l0 < fuel)%nat -> read_blocks fuel l0 = Some bs.
Proof.
  intros Ha. revert fuel l0. induction Ha as [g Hg|g k Hg Hk|g k sep raw ss bs r l Hg Hk Hne Hb Hraw Hl Hbody Hrest IH];
    intros fuel l0 Hok Hl0 Hbytes Hf; (destruct fuel as [|fuel]; [lia|]); cbn [read_blocks].
  1, 2: by rewrite Hl0, acl_nil_strip by (by constructor).
  apply Forall_cons_1 in Hok as [[Hfil Hone] Hok]. simpl in Hfil, Hone.
  rewrite strip_gap in Hl0 by done.
  pose proof (strip_behind false l0) as Hbh. pose proof (behind_bytes _ _ Hbh Hbytes) as Hbq.
  pose proof (behind_length _ _ Hbh) as Hlen. rewrite Hl0 in Hbq, Hlen |- *.
  pose proof (proj1 (keyword_kept TOPIC k (sep ++ raw ++ l) ltac:(simpl; lia) Hk)) as Hst.
  rewrite Hst in Hbq, Hlen |- *. pose proof (read_topic_complete k sep raw l Hk Hne Hb Hraw Hl) as Hread.
  pose proof (read_topic_behind _ _ _ Hread) as [Hbl Hlt]. pose proof (behind_bytes _ _ Hbl Hbq) as Hbytes_l.
  rewrite !Forall_app in Hbq. destruct Hbq as (_ & _ & Hbraw & _).
  destruct (k ++ sep ++ raw ++ l) as [|c m]; [done|]. rewrite Hread.
  rewrite (proj2 (validates_ok _ (cstr_bytes _ Hbraw) (cstr_no_nul _)) Hfil). cbn [negb].
  destruct (read_body_complete ss r l false (S (length l)) l) as (r0 & Hr & Hr0);
    [done|by eapply acl_block_next|done|done|lia|]. rewrite Hr.
  pose proof (read_body_behind _ _ _ _ _ Hr) as Hbr. pose proof (behind_length _ _ Hbr).
  rewrite (IH fuel r0); [done|done|done|by eapply behind_bytes|lia].
Qed.

Lemma read_blocks_sound fuel l bs :
  bytes_ok l -> read_blocks fuel l = Some bs -> acl_text bs l /\ Forall block_ok bs.
Proof.
  revert l bs. induction fuel as [|fuel IH]; intros l bs Hb; cbn [read_blocks]; [done|].
  pose proof (strip_sound l false) as Hs. pose proof (strip_behind false l) as Hbh.
  destruct (strip false l) as [|c l1]; [by intros [= <-]|]. destruct Hs as (g & -> & Hg).
  pose proof (behind_bytes _ _ Hbh Hb) as Hbq.
  destruct (read_topic (c :: l1)) as [[raw r]|] eqn:Et; [|done].
  destruct (validates (cstr raw)) eqn:Ev; [|done]. cbn [negb].
  destruct (read_body _ _ _) as [[ss r']|] eqn:Er; [|done].
  destruct (read_blocks fuel r') as [bs'|] eqn:Ebs; [|done]. intros [= <-].
  pose proof (read_topic_behind _ _ _ Et) as [Hbr _]. pose proof (behind_bytes _ _ Hbr Hbq) as Hbytes_r.
  apply read_topic_sound in Et as (k & sep & E & Hk & Hne & Hblank & Hraw & Hends). rewrite E in Hbq |- *.
  rewrite !Forall_app in Hbq. destruct Hbq as (_ & _ & Hbraw & _).
  pose proof (read_body_behind _ _ _ _ _ Er) as Hbr'.
  apply read_body_sound in Er as (r2 & Hbody & Hone & Hr).
  assert (r' = [] -> bs' = []) as Hnil by (intros ->; destruct fuel; simpl in Ebs; congruence).
  apply IH in Ebs as [Hacl Hok]; [|by eapply behind_bytes]. split.
  - apply (acl_block g k sep raw ss bs' r2); [done..|]. destruct Hr as [->|[-> Hr2]]; [done|].
    rewrite Hnil by done. pose proof (strip_sound r2 false) as Hs. by rewrite Hr2 in Hs.
  - constructor; [|done]. split; [|done]. apply validates_ok; auto using cstr_bytes, cstr_no_nul.
Qed.

(** * The file *)

(** The system gives the bytes of the file. *)
Definition holds_file (f : file_io) (text : list Z) : Prop :=
  0 < open_fd f /\ seek_end f = Z.of_nat (length text) /\ seek_set f = 0 /\
  read_file f (Z.of_nat (length text)) = (Z.of_nat (length text), text).

Lemma read_whole_file f text :
  holds_file f text -> text <> [] -> Z.of_nat (length text) <= RRR_LENGTH_MAX ->
  rrr_socket_open_and_read_file true f = (0, Some (text ++ [0]), Z.of_nat (length text)).
Proof.
  intros (Ho & He & Hs & Hr) Hne Hl. unfold RRR_LENGTH_MAX in Hl.
  assert (0 < length text)%nat by (destruct text; simpl; [done|lia]).
  unfold rrr_socket_open_and_read_file, rrr_socket_open_and_read_file_head.
  rewrite (proj2 (Z.leb_gt _ _)), He by lia. rewrite (proj2 (Z.eqb_neq _ 0)), (proj2 (Z.ltb_ge _ 0)) by lia.
  change (0 <=? 0) with true. cbn [orb]. rewrite (wrap_small 64) by lia. cbn [negb].
  rewrite Hs, Hr. change (negb (0 =? 0)) with false. cbn iota.
  by rewrite (wrap_small 64), Z.eqb_refl by lia.
Qed.

(** What the parser makes of a text, whether or not memory runs out. *)
Lemma parse_text alloc c text :
  bytes_ok text -> Z.of_nat (length text) <= RRR_LENGTH_MAX ->
  blocks_read alloc c
    (rrr_mqtt_acl_parse_topic_blocks alloc c (rrr_parse_pos_init (text ++ [0]) (Z.of_nat (length text))))
    (read_blocks (S (length text)) text).
Proof.
  intros Hb Hl. unfold rrr_mqtt_acl_parse_topic_blocks. cbn [rrr_parse_pos_init size pos].
  rewrite Z.sub_0_r, Nat2Z.id. apply blocks_loop_text; [by apply init_spec| |done|lia].
  unfold terminated. simpl. rewrite length_app. simpl. lia.
Qed.

Lemma populate_text alloc c f text :
  holds_file f text -> text <> [] -> bytes_ok text -> Z.of_nat (length text) <= RRR_LENGTH_MAX ->
  exists ret c', rrr_mqtt_acl_entry_collection_populate_from_file true alloc c f = Ret (ret, c') /\
    match read_blocks (S (length text)) text with
    | Some bs => ret = 0 /\ c' = c ++ (entry_of <$> bs) \/ ret = 1 /\ c' = [] /\ ~ forall i, alloc i = true
    | None => ret = 1 /\ c' = []
    end.
Proof.
  intros Hf Hne Hb Hl. unfold rrr_mqtt_acl_entry_collection_populate_from_file.
  rewrite (read_whole_file f text) by done. cbn [Z.eqb negb].
  assert (0 < length text)%nat by (destruct text; simpl; [done|lia]).
  rewrite (proj2 (Z.leb_gt _ 0)), (proj2 (Z.ltb_ge _ _)) by lia.
  rewrite length_from_biglength_spec, exact_or_bug_small, bind_ret by lia.
  destruct (parse_text alloc c text Hb Hl) as (ret & c' & q & -> & Hres). rewrite bind_ret.
  destruct (read_blocks _ text) as [bs|].
  - destruct Hres as [[-> ->]|[-> Hall]]; [exists 0|exists 1]; eexists; split; [done|by left|done|right; done].
  - subst ret. by exists 1, [].
Qed.

Lemma populate_empty alloc c f : holds_file f [] ->
  rrr_mqtt_acl_entry_collection_populate_from_file true alloc c f = Ret (0, c).
Proof.
  intros (Ho & He & Hs & Hr). unfold rrr_mqtt_acl_entry_collection_populate_from_file,
    rrr_socket_open_and_read_file, rrr_socket_open_and_read_file_head.
  rewrite (proj2 (Z.leb_gt _ _)), He by lia. done.
Qed.

Lemma documented_not_empty bs text : documented bs text -> text <> [].
Proof.
  intros (Hne & Hd & _) ->. inversion Hd as [| |g k sep raw ss bs' r l Hg Hk]; subst; [done| |];
    match goal with E : _ = [] |- _ => repeat apply app_eq_nil in E as [? E] end; [done|].
  subst. by apply Forall2_nil_inv_r in Hk.
Qed.


Definition whole_file (text : list Z) : file_io :=
  mk_file 3 (Z.of_nat (length text)) 0 (fun n => (n, text)).

(** ["# x", "TopiC a/#", " DEFAULT read", "USER u1  WRITE", "#"], the first four with a
    line end. *)
Definition sample_text : list Z :=
  [35; 32; 120; 10] ++ [84; 111; 112; 105; 67; 32; 97; 47; 35; 10] ++
  [9] ++ DEFAULT ++ [32; 114; 101; 97; 100; 13; 10] ++ USER ++ [32; 117; 49; 32; 32] ++ WRITE ++ [10; 35].

Definition sample_blocks : list block := [mk_block [97; 47; 35] [Default Read; User [117; 49] Write]].

Lemma sample_documented : documented sample_blocks sample_text.
Proof.
  split; [done|]. split.
  - apply (documented_block [35; 32; 120; 10] [84; 111; 112; 105; 67] [32] [97; 47; 35] _ [] [35]
      (([10; 9]) ++ (DEFAULT ++ [32] ++ [114; 101; 97; 100]) ++ [13; 10] ++
       ([] ++ (USER ++ [32] ++ [117; 49] ++ [32; 32] ++ WRITE) ++ [10] ++ [35])));
      try done.
    + apply (gap_comment [32; 120] 10 []); [done..|constructor].
    + repeat constructor.
    + split; [split; done|]. split; [|done]. by apply (bool_decide_unpack _).
    + constructor; [by repeat constructor| |done|by left|].
      * by constructor; try done; repeat constructor.
      * constructor; [constructor| |done|by left|constructor]. by constructor; try done; repeat constructor.
    + apply (documented_comment [] []); [constructor|done].
  - constructor; [|constructor]. split; [|done]. apply validates_ok; [|by apply (bool_decide_unpack _)|by vm_compute].
    repeat constructor; unfold byte_ok; lia.
Qed.


(** * The decision *)

Definition verdict (a level : Z) : Z :=
  if (a =? RRR_MQTT_ACL_ACTION_RW) || (a =? RRR_MQTT_ACL_ACTION_RO) && (level =? RRR_MQTT_ACL_ACTION_RO)
  then RRR_MQTT_ACL_RESULT_ALLOW else RRR_MQTT_ACL_RESULT_DENY.

Definition level_ok (level : Z) : Prop :=
  level = RRR_MQTT_ACL_ACTION_RO \/ level = RRR_MQTT_ACL_ACTION_RW.

(** The last line of a user counts, then the default. *)
Definition entry_action (name : option (list Z)) (e : rrr_mqtt_acl_entry) : Z :=
  match name with
  | None | Some [] => default_action e
  | Some u =>
    match List.find (fun x => strcmp_eq (username x) u) (rev (users e)) with
    | Some x => action x
    | None => default_action e
    end
  end.

Lemma check_single a level : level_ok level -> rrr_mqtt_acl_check_access_single a level = Ret (verdict a level).
Proof.
  intros Hl. unfold rrr_mqtt_acl_check_access_single, verdict.
  destruct Hl as [->| ->]; destruct (a =? RRR_MQTT_ACL_ACTION_RW), (a =? RRR_MQTT_ACL_ACTION_RO); done.
Qed.

Lemma find_snoc {A} (f : A -> bool) l x :
  List.find f (l ++ [x]) = match List.find f l with Some y => Some y | None => if f x then Some x else None end.
Proof. induction l as [|y l IH]; simpl; [done|]. by destruct (f y). Qed.

Lemma check_users_last level name l ret :
  level_ok level ->
  check_users level name l ret
  = Ret (match List.find (fun x => strcmp_eq (username x) name) (rev l) with
         | Some x => verdict (action x) level | None => ret end).
Proof.
  intros Hl. revert ret. induction l as [|x l IH]; intros ret; [done|]. simpl. rewrite find_snoc.
  destruct (strcmp_eq (username x) name).
  - rewrite check_single, bind_ret, IH by done. by destruct (List.find _ _).
  - rewrite bind_ret, IH. by destruct (List.find _ _).
Qed.

(** The last entry that matches decides; without one access is denied. *)
Lemma check_access_last match_function (m : rrr_mqtt_acl_entry -> bool) c first level name :
  level_ok level ->
  (forall e, e ∈ c -> match_function (first_token e) first = match_result (m e)) ->
  rrr_mqtt_acl_check_access match_function c first level name
  = Ret (match List.find m (rev c) with
         | Some e => verdict (entry_action name e) level
         | None => RRR_MQTT_ACL_RESULT_DENY
         end).
Proof.
  intros Hl Hm. unfold rrr_mqtt_acl_check_access. generalize RRR_MQTT_ACL_RESULT_DENY as ret.
  induction c as [|e c IH]; intros ret; [done|]. simpl. rewrite find_snoc, (Hm e) by (by left).
  unfold match_result. rewrite bind_ret. assert (forall ret, check_entries match_function first level name c ret
    = Ret (match List.find m (rev c) with Some e => verdict (entry_action name e) level | None => ret end)) as IH'
    by (intros r; apply IH; intros; apply Hm; by right). clear IH.
  destruct (m e).
  2: { change (RRR_MQTT_TOKEN_MISMATCH =? RRR_MQTT_TOKEN_MATCH) with false. cbn iota.
       rewrite bind_ret, IH'. by destruct (List.find _ _). }
  change (RRR_MQTT_TOKEN_MATCH =? RRR_MQTT_TOKEN_MATCH) with true. cbn iota. rewrite check_single, bind_ret by done.
  destruct name as [[|b name]|].
  - rewrite bind_ret, IH'. by destruct (List.find _ _).
  - rewrite check_users_last, bind_ret, IH' by done. destruct (List.find m (rev c)); [done|].
    unfold entry_action. by destruct (List.find _ _).
  - rewrite bind_ret, IH'. by destruct (List.find _ _).
Qed.

(** ** On blocks *)

Definition default_of (b : block) : access :=
  match List.find is_default (statements b) with Some (Default a) => a | _ => Deny end.

Definition names (u : list Z) (s : statement) : bool :=
  match s with User name _ => strcmp_eq name u | Default _ => false end.

Definition access_of (user : option (list Z)) (b : block) : access :=
  match user with
  | None | Some [] => default_of b
  | Some u =>
    match List.find (names u) (rev (statements b)) with
    | Some (User _ a) => a
    | _ => default_of b
    end
  end.

Definition user_of (s : statement) : list rrr_mqtt_acl_user_entry :=
  match s with User name a => [mk_user name (code a)] | Default _ => [] end.

Lemma fold_users ss e : users (fold_left apply ss e) = users e ++ flat_map user_of ss.
Proof.
  revert e. induction ss as [|s ss IH]; intros e; simpl; [by rewrite app_nil_r|].
  rewrite IH. destruct s; simpl; [done|]. by rewrite <-app_assoc.
Qed.

Lemma fold_default ss e set :
  one_default set ss = true ->
  default_action (fold_left apply ss e)
  = match List.find is_default ss with Some (Default a) => code a | _ => default_action e end.
Proof.
  revert e set. induction ss as [|s ss IH]; intros e set; simpl; [done|].
  intros [_ Hone]%andb_true_iff. rewrite (IH _ _ Hone). destruct s as [a|name a]; simpl; [|done].
  rewrite orb_true_r in Hone. assert (List.find is_default ss = None) as ->; [|done]. clear -Hone.
  induction ss as [|s ss IH]; [done|]. simpl in *. apply andb_true_iff in Hone as [H1 H2].
  destruct s; [done|]. auto.
Qed.

Lemma find_user u ss :
  option_map action (List.find (fun x => strcmp_eq (username x) u) (rev (flat_map user_of ss)))
  = match List.find (names u) (rev ss) with Some (User _ a) => Some (code a) | _ => None end.
Proof.
  induction ss as [|s ss IH]; [done|]. simpl. rewrite rev_app_distr.
  destruct s as [a|name a]; simpl; rewrite ?app_nil_r, !find_snoc.
  - rewrite IH. by destruct (List.find (names u) (rev ss)) as [[]|].
  - simpl. destruct (List.find (fun x => _) _) as [x|] eqn:E1; simpl in IH |- *.
    + rewrite IH. destruct (List.find (names u) (rev ss)); [done|]. by destruct (strcmp_eq name u).
    + destruct (List.find (names u) (rev ss)) as [s'|] eqn:E2; [|by destruct (strcmp_eq name u)].
      apply find_some in E2 as [_ E2]. by destruct s'.
Qed.

Lemma entry_action_of user b :
  block_ok b -> entry_action user (entry_of b) = code (access_of user b).
Proof.
  intros [_ Hone].
  assert (default_action (entry_of b) = code (default_of b)) as Hd.
  { unfold entry_of. rewrite (fold_default _ _ false) by done. unfold default_of.
    destruct (List.find _ _) as [[a|name a]|]; done. }
  unfold entry_action, access_of. destruct user as [[|c u]|]; [done| |done].
  pose proof (find_user (c :: u) (statements b)) as Hf. unfold entry_of at 1. rewrite fold_users. simpl app.
  destruct (List.find (fun x => _) _) as [x|]; simpl in Hf.
  - destruct (List.find (names _) _) as [[a|name a]|]; by simplify_eq/=.
  - by destruct (List.find (names _) _) as [[a|name a]|].
Qed.

(** The last block whose filter matches [m] says what a user may do. *)
Definition granted (m : list (list Z) -> bool) (user : option (list Z)) (bs : list block) : access :=
  match List.find (fun b => m (topic_levels (cstr (raw b)))) (rev bs) with
  | Some b => access_of user b
  | None => Deny
  end.

Lemma entry_tokens b : first_token (entry_of b) = topic_levels (cstr (raw b)).
Proof.
  unfold entry_of. assert (forall ss e, first_token (fold_left apply ss e) = first_token e) as ->; [|done].
  induction ss as [|s ss IH]; intros e; [done|]. simpl. rewrite IH. by destruct s.
Qed.

Lemma find_entry m l :
  List.find (fun e => m (first_token e)) (map entry_of l)
  = entry_of <$> List.find (fun b => m (topic_levels (cstr (raw b)))) l.
Proof. induction l as [|b l IH]; [done|]. simpl. rewrite entry_tokens. by destruct (m _). Qed.

Lemma check_access_blocks match_function m bs first level user :
  level_ok level -> Forall block_ok bs ->
  (forall b, b ∈ bs -> match_function (topic_levels (cstr (raw b))) first
                       = match_result (m (topic_levels (cstr (raw b))))) ->
  rrr_mqtt_acl_check_access match_function (entry_of <$> bs) first level user
  = Ret (verdict (code (granted m user bs)) level).
Proof.
  intros Hl Hok Hm. rewrite (check_access_last _ (fun e => m (first_token e))); [|done|].
  - f_equal. unfold granted. change (entry_of <$> bs) with (map entry_of bs). rewrite <-map_rev, find_entry.
    destruct (List.find _ (rev bs)) as [b|] eqn:E; simpl.
    + apply find_some in E as [E%in_rev _]. rewrite entry_action_of; [done|].
      by apply (proj1 (List.Forall_forall _ _) Hok).
    + by destruct Hl as [->| ->].
  - intros e (b & -> & Hb)%list_elem_of_fmap. rewrite entry_tokens. auto.
Qed.

End MqttAclCorrect.
