(* ===== verification/MqttIdPool.v ===== *)
(** The pool of MQTT packet identifiers (src/src/lib/mqtt/mqtt_id_pool.c): a bit
    map of 32-bit words which grows in steps; identifier [id] is bit
    [(id - 1) % 32] of word [(id - 1) / 32]. *)
From stdpp Require Import gmap sets.
From S2P Require Import Prelude Types.

Module MqttIdPool.
Import Types.

Definition RRR_MQTT_ID_POOL_SIZE_IN_32 : Z := 2048.
Definition RRR_MQTT_ID_POOL_STEP_SIZE_IN_32 : Z := 512.

(** [struct rrr_mqtt_id_pool]; the array is a list of words, the NULL pointer
    is the empty one. *)
Record rrr_mqtt_id_pool := mk_pool {
  pool : list Z;
  last_allocated_id : Z
}.

Definition allocated_majors (p : rrr_mqtt_id_pool) : Z := Z.of_nat (length (pool p)).

Definition rrr_mqtt_id_pool_init : rrr_mqtt_id_pool := mk_pool [] 0.

Definition rrr_mqtt_id_pool_clear (p : rrr_mqtt_id_pool) : rrr_mqtt_id_pool := mk_pool [] 0.

Definition rrr_mqtt_id_pool_realloc (alloc_ok : bool) (p : rrr_mqtt_id_pool) (steps : Z)
  : Z * rrr_mqtt_id_pool :=
  let new_majors := u32 (allocated_majors p + steps) in
  if RRR_MQTT_ID_POOL_SIZE_IN_32 <? new_majors then (1, p)
  else if negb alloc_ok then (1, p)
  else
    let zeros := replicate (Z.to_nat (new_majors - allocated_majors p)) 0 in
    (0, mk_pool (pool p ++ zeros) (last_allocated_id p)).

(** The loop over the 32 bits from bit [i] on; the new word is returned too. *)
Fixpoint get_id_32_loop (n : nat) (i source tmp : Z) : outcome (Z * Z) :=
  match n with
  | O => Bug
  | S n =>
    if tmp &&& 1 =? 0 then Ret (u16 (i + 1), source ||| u32 (1 <<< i))
    else get_id_32_loop n (i + 1) source (tmp >>> 1)
  end.

Definition rrr_mqtt_id_pool_get_id_32 (source : Z) : outcome (Z * Z) :=
  if source =? 0xffffffff then Ret (0, source) else get_id_32_loop 32 0 source source.

(** [MIN_MAJ_MASK(id)].  For [id = 0] the shift count is out of range, which is
    undefined; no mask is given then. *)
Definition MIN_MAJ_MASK (id : Z) : option (Z * Z) :=
  let min := u32 (Z.rem (id - 1) 32) in
  let maj := u32 (id - 1 - min) / 32 in
  if min <? 32 then Some (maj, u32 (1 <<< min)) else None.

(** The loop over the words from index [i] on: the identifier and the new
    words when one has a free bit. *)
Fixpoint scan (i : Z) (words : list Z) : outcome (option (Z * list Z)) :=
  match words with
  | [] => Ret None
  | word :: words =>
    '(ret_tmp, word) ← rrr_mqtt_id_pool_get_id_32 word;
    if 0 <? ret_tmp then Ret (Some (u16 (ret_tmp + 32 * i), word :: words))
    else
      found ← scan (i + 1) words;
      Ret (match found with Some (ret, words) => Some (ret, word :: words) | None => None end)
  end.

(** The [retry] loop; attempt [n] to grow the array succeeds in allocating when
    [alloc n] holds.  [fuel] bounds the rounds. *)
Fixpoint get_id_retry (fuel n : nat) (alloc : nat -> bool) (p : rrr_mqtt_id_pool)
  : outcome (Z * rrr_mqtt_id_pool) :=
  match fuel with
  | O => Bug
  | S fuel =>
    found ← scan 0 (pool p);
    match found with
    | Some (ret, words) => Ret (ret, mk_pool words (last_allocated_id p))
    | None =>
      let '(err, p) := rrr_mqtt_id_pool_realloc (alloc n) p RRR_MQTT_ID_POOL_STEP_SIZE_IN_32 in
      if err =? 0 then get_id_retry fuel (S n) alloc p else Ret (0, p)
    end
  end.

Definition set_last (p : rrr_mqtt_id_pool) (id : Z) : rrr_mqtt_id_pool := mk_pool (pool p) id.

(** The next identifier in sequence, when its word exists and its bit is free. *)
Definition fast_words (p : rrr_mqtt_id_pool) (maj mask : Z) : option (list Z) :=
  if maj <? allocated_majors p then
    match pool p !! Z.to_nat maj with
    | Some word => if word &&& mask =? 0 then Some (<[Z.to_nat maj := word ||| mask]> (pool p))
                   else None
    | None => None
    end
  else None.

Definition rrr_mqtt_id_pool_get_id (alloc : nat -> bool) (p : rrr_mqtt_id_pool)
  : outcome (Z * rrr_mqtt_id_pool) :=
  let ret := u16 (last_allocated_id p + 1) in
  let p := set_last p ret in
  let ret := if ret =? 0 then u16 (ret + 1) else ret in
  match MIN_MAJ_MASK ret with
  | None => Oob
  | Some (maj, mask) =>
    match fast_words p maj mask with
    | Some words => Ret (ret, mk_pool words ret)
    | None =>
      '(ret, p) ← get_id_retry 2 0 alloc p;
      Ret (ret, set_last p ret)
    end
  end.

Definition rrr_mqtt_id_pool_release_id (p : rrr_mqtt_id_pool) (id : Z)
  : outcome rrr_mqtt_id_pool :=
  match MIN_MAJ_MASK id with
  | None => Oob
  | Some (maj, mask) =>
    if allocated_majors p <=? maj then Bug
    else
      match pool p !! Z.to_nat maj with
      | None => Oob
      | Some word =>
        if word &&& mask =? 0 then Bug
        else Ret (mk_pool (<[Z.to_nat maj := word &&& u32 (Z.lnot mask)]> (pool p))
                    (last_allocated_id p))
      end
  end.

(** * The set of identifiers in use *)

Definition word_ok (w : Z) : Prop := 0 <= w < 2 ^ 32.

Definition bit_of (id : Z) : nat * Z := (Z.to_nat ((id - 1) / 32), (id - 1) mod 32).

Definition words_use (words : list Z) (id : Z) : bool :=
  Z.testbit (default 0 (words !! (bit_of id).1)) (bit_of id).2.

Definition in_use (p : rrr_mqtt_id_pool) (id : Z) : bool := words_use (pool p) id.

(** Packet identifiers are the non-zero 16-bit values. *)
Definition packet_id (id : Z) : Prop := 1 <= id <= 65535.

Definition ids (p : rrr_mqtt_id_pool) : gset Z :=
  list_to_set (filter (fun id => in_use p id = true) (seqZ 1 65535)).

Record pool_ok (p : rrr_mqtt_id_pool) : Prop := {
  ok_words : Forall word_ok (pool p);
  ok_steps : exists k, allocated_majors p = 512 * k /\ 0 <= k <= 4;
  ok_last : 0 <= last_allocated_id p < 65536
}.

Lemma elem_of_ids p id : id ∈ ids p <-> packet_id id /\ in_use p id = true.
Proof.
  unfold ids, packet_id. rewrite elem_of_list_to_set, list_elem_of_filter, elem_of_seqZ.
  split; intros [? ?]; split; (done || lia).
Qed.

(** * One word *)

Lemma land_1_bit w i : 0 <= i -> (w >>> i) &&& 1 = Z.b2z (Z.testbit w i).
Proof.
  intros. rewrite (land_low_bits 1), Z.shiftr_div_pow2 by done. symmetry. by apply Z.testbit_spec'.
Qed.

Lemma mask_bit i : 0 <= i < 32 -> u32 (1 <<< i) = 2 ^ i.
Proof.
  intros. rewrite Z.shiftl_1_l. apply wrap_small. split; [apply Z.pow_nonneg; lia|].
  apply Z.pow_lt_mono_r; lia.
Qed.

Lemma setbit_ok w i : word_ok w -> 0 <= i < 32 -> word_ok (w ||| 2 ^ i).
Proof.
  intros [? ?] ?. split; [apply Z.lor_nonneg; split; [lia|apply Z.pow_nonneg; lia]|].
  apply lt_pow2_bits; [lia|apply Z.lor_nonneg; split; [lia|apply Z.pow_nonneg; lia]|].
  intros j ?. rewrite Z.lor_spec, (bits_above 32 w), Z.pow2_bits_false by lia. done.
Qed.

Lemma setbit_testbit w i j :
  0 <= i -> Z.testbit (w ||| 2 ^ i) j = Z.testbit w j || (i =? j).
Proof. intros. by rewrite Z.lor_spec, Z.pow2_bits_eqb. Qed.

Lemma get_id_32_loop_spec w n i :
  0 <= i -> (n + Z.to_nat i = 32)%nat ->
  (forall j, 0 <= j < i -> Z.testbit w j = true) ->
  (exists j, i <= j < 32 /\ Z.testbit w j = false) ->
  exists j, 0 <= j < 32 /\ Z.testbit w j = false /\
    (forall j', 0 <= j' < j -> Z.testbit w j' = true) /\
    get_id_32_loop n i w (w >>> i) = Ret (j + 1, w ||| 2 ^ j).
Proof.
  revert i. induction n as [|n IH]; intros i Hi Hn Hlow (j & Hj & Hfree); [lia|].
  cbn [get_id_32_loop]. rewrite land_1_bit by done. destruct (Z.testbit w i) eqn:E; simpl.
  - rewrite Z.shiftr_shiftr by lia. apply IH; [lia..| |].
    + intros j' ?. destruct (Z.eq_dec j' i) as [->|]; [done|apply Hlow; lia].
    + exists j. split; [|done]. destruct (Z.eq_dec j i) as [->|]; [congruence|lia].
  - exists i. rewrite mask_bit, wrap_small by lia. split_and!; (done || lia).
Qed.

(** A word that is not full has a free bit. *)
Lemma word_free w :
  word_ok w -> w <> 0xffffffff -> exists j, 0 <= j < 32 /\ Z.testbit w j = false.
Proof.
  intros Hw Hne. destruct (forallb (Z.testbit w) (seqZ 0 32)) eqn:E.
  - exfalso. apply Hne. rewrite forallb_forall in E. change 0xffffffff with (Z.ones 32).
    apply Z.bits_inj'. intros j Hj. destruct (Z.lt_ge_cases j 32).
    + rewrite Z.ones_spec_low, E; [done| |lia]. apply list_elem_of_In, elem_of_seqZ. lia.
    + by rewrite Z.ones_spec_high, (bits_above 32 w) by (done || lia).
  - apply not_true_iff_false in E. rewrite forallb_forall in E.
    destruct (decide (Exists (fun j => Z.testbit w j = false) (seqZ 0 32))) as [Hx|Hx].
    + apply Exists_exists in Hx as (j & Hj%list_elem_of_In%elem_of_seqZ & ?).
      exists j. split; [lia|done].
    + exfalso. apply E. intros j Hj. apply not_Exists_Forall in Hx; [|apply _].
      rewrite Forall_forall in Hx. specialize (Hx j Hj). by apply not_false_iff_true.
Qed.

Lemma get_id_32_spec w :
  word_ok w ->
  (w = 0xffffffff /\ rrr_mqtt_id_pool_get_id_32 w = Ret (0, w)) \/
  exists j, 0 <= j < 32 /\ Z.testbit w j = false /\
    (forall j', 0 <= j' < j -> Z.testbit w j' = true) /\
    rrr_mqtt_id_pool_get_id_32 w = Ret (j + 1, w ||| 2 ^ j).
Proof.
  intros Hw. unfold rrr_mqtt_id_pool_get_id_32. destruct (Z.eqb_spec w 0xffffffff) as [->|Hne].
  - by left.
  - right. destruct (get_id_32_loop_spec w 32 0) as (j & ? & ? & ? & Hl); [lia|done|lia| |].
    + destruct (word_free w Hw Hne) as (j & ? & ?). exists j. split; [lia|done].
    + exists j. split_and!; (done || lia).
Qed.

(** * The words *)

Lemma bit_of_inj id id' : 1 <= id -> 1 <= id' -> bit_of id = bit_of id' -> id = id'.
Proof. unfold bit_of. intros ? ? [= H1 H2]. zdiv. Qed.

Lemma bit_of_range id : 0 <= (bit_of id).2 < 32.
Proof. apply Z.mod_pos_bound. lia. Qed.

Lemma bit_of_word (words : list Z) id :
  1 <= id <= 32 * Z.of_nat (length words) -> is_Some (words !! (bit_of id).1).
Proof. intros. apply lookup_lt_is_Some. unfold bit_of. simpl. zdiv. Qed.

Lemma bit_of_id (k : nat) j : 0 <= j < 32 -> bit_of (j + 1 + 32 * Z.of_nat k) = (k, j).
Proof. intros. unfold bit_of. f_equal; zdiv. Qed.

(** Replacing the word of [id] by one that differs in its bit only. *)
Lemma words_use_insert words id w w' b :
  1 <= id -> words !! (bit_of id).1 = Some w ->
  (forall j, 0 <= j < 32 -> Z.testbit w' j = if (bit_of id).2 =? j then b else Z.testbit w j) ->
  forall id', 1 <= id' ->
    words_use (<[(bit_of id).1 := w']> words) id' = if id' =? id then b else words_use words id'.
Proof.
  intros Hid Hw Hb id' Hid'. unfold words_use.
  destruct (decide ((bit_of id).1 = (bit_of id').1)) as [E|E].
  - rewrite <- E, list_lookup_insert_eq by (by eapply lookup_lt_Some). rewrite Hw. cbn [default].
    rewrite Hb by apply bit_of_range. destruct (Z.eqb_spec id' id) as [->|Hne].
    + by rewrite Z.eqb_refl.
    + rewrite (proj2 (Z.eqb_neq _ _)); [done|]. intros E2. apply Hne, bit_of_inj; [lia..|].
      rewrite (surjective_pairing (bit_of id)), E, E2. done.
  - rewrite list_lookup_insert_ne by done. destruct (Z.eqb_spec id' id) as [->|]; done.
Qed.

Definition occupy (words : list Z) (id : Z) : list Z :=
  <[(bit_of id).1 := default 0 (words !! (bit_of id).1) ||| 2 ^ (bit_of id).2]> words.

Lemma words_use_occupy words id id' :
  1 <= id <= 32 * Z.of_nat (length words) -> 1 <= id' ->
  words_use (occupy words id) id' = (id' =? id) || words_use words id'.
Proof.
  intros Hid Hid'. destruct (bit_of_word words id Hid) as [w Hw]. unfold occupy. rewrite Hw. simpl.
  rewrite (words_use_insert words id w _ true); [by destruct (id' =? id)|lia|done| |done].
  intros j ?. rewrite setbit_testbit by apply bit_of_range.
  destruct (_ =? j); [apply orb_true_r|apply orb_false_r].
Qed.

Lemma occupy_ok words id : Forall word_ok words -> Forall word_ok (occupy words id).
Proof.
  intros H. apply Forall_insert; [done|]. apply setbit_ok; [|apply bit_of_range].
  destruct (words !! _) as [w|] eqn:E; simpl; [by eapply Forall_lookup_1|].
  split; [lia|reflexivity].
Qed.

Lemma length_occupy words id : length (occupy words id) = length words.
Proof. apply length_insert. Qed.

Lemma words_use_zeros words n id : words_use (words ++ replicate n 0) id = words_use words id.
Proof.
  unfold words_use. destruct (words !! (bit_of id).1) as [w|] eqn:E.
  - by rewrite (lookup_app_l_Some _ _ _ _ E).
  - apply lookup_ge_None in E. rewrite lookup_app_r by done.
    destruct (replicate n 0 !! _) as [w|] eqn:E2; [|done].
    by apply lookup_replicate in E2 as [-> _].
Qed.

Lemma full_word_bit j : 0 <= j < 32 -> Z.testbit 0xffffffff j = true.
Proof. apply (Z.ones_spec_low 32). Qed.

(** The scan finds the lowest free identifier. *)
Lemma scan_words i words :
  Forall word_ok words ->
  (scan i words = Ret None /\ Forall (fun w => w = 0xffffffff) words) \/
  exists (k : nat) w j, words !! k = Some w /\ 0 <= j < 32 /\ Z.testbit w j = false /\
    (forall j', 0 <= j' < j -> Z.testbit w j' = true) /\
    (forall k', (k' < k)%nat -> words !! k' = Some 0xffffffff) /\
    scan i words = Ret (Some (u16 (j + 1 + 32 * (i + Z.of_nat k)), <[k := w ||| 2 ^ j]> words)).
Proof.
  intros H. revert i. induction H as [|w words Hw H IH]; intros i; [by left|]. cbn [scan].
  destruct (get_id_32_spec w Hw) as [[-> ->]|(j & ? & ? & ? & ->)]; rewrite bind_ret; simpl.
  - destruct (IH (i + 1)) as [[-> Hall]|(k & w & j & Hk & ? & ? & ? & Hlt & ->)].
    + left. split; [done|by constructor].
    + right. exists (S k), w, j. split_and!; try (done || lia).
      * intros [|k'] ?; [done|]. apply Hlt. lia.
      * rewrite bind_ret. simpl. do 4 f_equal. lia.
  - right. exists 0%nat, w, j. split_and!; try (done || lia).
    destruct (Z.ltb_spec 0 (j + 1)); [|lia]. simpl. by rewrite Z.add_0_r.
Qed.

Lemma scan_spec words :
  Forall word_ok words ->
  (scan 0 words = Ret None /\
   forall id, 1 <= id <= 32 * Z.of_nat (length words) -> words_use words id = true) \/
  exists id, 1 <= id <= 32 * Z.of_nat (length words) /\ words_use words id = false /\
    (forall id', 1 <= id' < id -> words_use words id' = true) /\
    scan 0 words = Ret (Some (u16 id, occupy words id)).
Proof.
  intros H. destruct (scan_words 0 words H) as [[-> Hall]|(k & w & j & Hk & Hj & Hf & Hj' & Hk' & ->)].
  - left. split; [done|]. intros id Hid. destruct (bit_of_word words id Hid) as [w Hw].
    unfold words_use. rewrite Hw. simpl.
    pose proof (Forall_lookup_1 _ _ _ _ Hall Hw) as Hx. simpl in Hx. subst w.
    apply full_word_bit, bit_of_range.
  - right. exists (j + 1 + 32 * Z.of_nat k). pose proof (lookup_lt_Some _ _ _ Hk).
    unfold occupy, words_use. rewrite bit_of_id by done. cbn [fst snd]. rewrite Hk. cbn [default].
    split_and!; [lia|lia|done| |done].
    intros id' Hid'. destruct (decide ((bit_of id').1 = k)) as [E|E].
    + rewrite E, Hk. cbn [default]. apply Hj'. unfold bit_of in *. simpl in *. subst k. zdiv.
    + rewrite Hk' by (unfold bit_of in *; simpl in *; zdiv). simpl.
      apply full_word_bit, bit_of_range.
Qed.

(** * The operations *)

Lemma land_pow2_zero w i : 0 <= i -> (w &&& 2 ^ i =? 0) = negb (Z.testbit w i).
Proof.
  intros Hi. destruct (Z.testbit w i) eqn:E; simpl.
  - apply Z.eqb_neq. intros H. apply (f_equal (fun z => Z.testbit z i)) in H.
    rewrite Z.land_spec, E, Z.pow2_bits_true, Z.bits_0 in H by done. done.
  - apply Z.eqb_eq. zbits. rewrite Z.pow2_bits_eqb by done.
    destruct (Z.eqb_spec i i0) as [<-|]; [by rewrite E|apply andb_false_r].
Qed.

Lemma MIN_MAJ_MASK_id id :
  packet_id id -> MIN_MAJ_MASK id = Some ((id - 1) / 32, 2 ^ (bit_of id).2).
Proof.
  unfold packet_id, MIN_MAJ_MASK. intros Hid. rewrite Z.rem_mod_nonneg by lia.
  pose proof (bit_of_range id) as Hr. cbn [bit_of snd] in *.
  rewrite (wrap_small 32 ((id - 1) mod 32)) by lia. rewrite (proj2 (Z.ltb_lt _ _)) by lia.
  rewrite mask_bit by lia. rewrite wrap_small by zdiv. do 2 f_equal. zdiv.
Qed.

Lemma lookup_word p id w :
  packet_id id -> pool p !! (bit_of id).1 = Some w -> in_use p id = Z.testbit w (bit_of id).2.
Proof. intros _ Hw. unfold in_use, words_use. by rewrite Hw. Qed.

(** What a call promises its caller, given the identifiers in use before. *)
Definition took (p : rrr_mqtt_id_pool) (id : Z) (words : list Z) : Prop :=
  packet_id id /\ in_use p id = false /\
  forall id', packet_id id' -> words_use words id' = (id' =? id) || in_use p id'.

Definition took_none (p : rrr_mqtt_id_pool) (words : list Z) : Prop :=
  forall id', packet_id id' -> words_use words id' = in_use p id'.

Definition words_ok (words : list Z) : Prop :=
  Forall word_ok words /\ exists k, Z.of_nat (length words) = 512 * k /\ 0 <= k <= 4.

Lemma occupy_words_ok words id : words_ok words -> words_ok (occupy words id).
Proof. intros [? ?]. split; [by apply occupy_ok|]. by rewrite length_occupy. Qed.

(** A scan that finds something, in a pool that extends [p] by unused words. *)
Lemma took_scan p words id :
  words_ok words -> (forall id, words_use words id = in_use p id) ->
  1 <= id <= 32 * Z.of_nat (length words) -> words_use words id = false ->
  (forall id', 1 <= id' < id -> words_use words id' = true) ->
  took p (u16 id) (occupy words id) \/
  u16 id = 0 /\ took_none p (occupy words id) /\ forall id', packet_id id' -> in_use p id' = true.
Proof.
  intros [Hw (k & Hk & ?)] Hsame Hid Hf Hlow. unfold took, took_none, packet_id.
  destruct (Z.eq_dec id 65536) as [->|Hne].
  - right. split_and!; [done| |].
    + intros id' ?. rewrite words_use_occupy, Hsame by lia. btests.
    + intros id' ?. rewrite <- Hsame. apply Hlow. lia.
  - left. rewrite wrap_small by lia. rewrite <- Hsame. split_and!; [lia|lia|done|].
    intros id' ?. by rewrite words_use_occupy, Hsame by lia.
Qed.

Lemma words_ok_grow words :
  words_ok words -> Z.of_nat (length words) <> 2048 -> words_ok (words ++ replicate 512 0).
Proof.
  intros [H (k & Hk & ?)] Hn. split.
  - apply Forall_app. split; [done|]. apply Forall_replicate. split; [lia|reflexivity].
  - exists (k + 1). rewrite length_app, length_replicate. lia.
Qed.

Lemma realloc_spec alloc_ok p :
  words_ok (pool p) ->
  rrr_mqtt_id_pool_realloc alloc_ok p RRR_MQTT_ID_POOL_STEP_SIZE_IN_32
  = if alloc_ok && negb (allocated_majors p =? 2048)
    then (0, mk_pool (pool p ++ replicate 512 0) (last_allocated_id p)) else (1, p).
Proof.
  intros [_ (k & Hk & ?)].
  unfold rrr_mqtt_id_pool_realloc, allocated_majors, RRR_MQTT_ID_POOL_SIZE_IN_32,
    RRR_MQTT_ID_POOL_STEP_SIZE_IN_32. rewrite wrap_small by lia.
  destruct (Z.ltb_spec 2048 (Z.of_nat (length (pool p)) + 512)),
    (Z.eqb_spec (Z.of_nat (length (pool p))) 2048), alloc_ok; try lia; try done.
  cbn [andb negb]. by rewrite Z.add_simpl_l.
Qed.

(** Two rounds are enough: a pool that has just grown has a free bit. *)
Lemma get_id_retry_spec alloc p :
  words_ok (pool p) ->
  exists id words, get_id_retry 2 0 alloc p = Ret (id, mk_pool words (last_allocated_id p)) /\
    words_ok words /\
    (took p id words \/
     id = 0 /\ took_none p words /\
     (alloc 0%nat = true -> forall id', packet_id id' -> in_use p id' = true)).
Proof.
  intros Hok. cbn [get_id_retry].
  destruct (scan_spec (pool p)) as [[-> Hfull]|(id & Hid & Hf & Hlow & ->)]; [apply Hok|..];
    rewrite bind_ret.
  - rewrite realloc_spec by done. unfold allocated_majors.
    destruct (Z.eqb_spec (Z.of_nat (length (pool p))) 2048) as [Hlen|Hlen];
      [rewrite andb_false_r|rewrite andb_true_r; destruct (alloc 0%nat) eqn:Ha]; cbn [Z.eqb].
    + exists 0, (pool p). destruct p. simpl in *. split_and!; [done..|]. right.
      split_and!; [done..|]. intros _ id' ?. apply Hfull. unfold packet_id in *. lia.
    + pose proof (words_ok_grow _ Hok Hlen) as Hok'. cbn [pool last_allocated_id].
      destruct (scan_spec (pool p ++ replicate 512 0)) as [[_ Hfull2]|(id & Hid & Hf & Hlow & ->)];
        [apply Hok'|..].
      { exfalso. destruct Hok as [_ (k & Hk & ?)].
        specialize (Hfull2 (32 * Z.of_nat (length (pool p)) + 1)).
        rewrite length_app, length_replicate, words_use_zeros in Hfull2.
        unfold words_use in Hfull2. rewrite lookup_ge_None_2 in Hfull2; [|unfold bit_of; simpl; zdiv].
        simpl in Hfull2. rewrite Z.bits_0 in Hfull2. by discriminate Hfull2; lia. }
      rewrite bind_ret. exists (u16 id), (occupy (pool p ++ replicate 512 0) id).
      split_and!; [done|by apply occupy_words_ok|].
      destruct (took_scan p (pool p ++ replicate 512 0) id) as [|(? & ? & ?)]; auto.
      intros. apply words_use_zeros.
    + exists 0, (pool p). destruct p. simpl in *. split_and!; [done..|]. right. by split_and!.
  - exists (u16 id), (occupy (pool p) id). split_and!; [done|by apply occupy_words_ok|].
    destruct (took_scan p (pool p) id) as [|(? & ? & ?)]; auto.
Qed.

Lemma pool_ok_words p : pool_ok p -> words_ok (pool p).
Proof. intros [? ? ?]. by split. Qed.

Lemma mk_pool_ok words id : words_ok words -> 0 <= id < 65536 -> pool_ok (mk_pool words id).
Proof. intros [? ?] ?. by constructor. Qed.

Lemma took_ids p id words last :
  took p id words -> (id ∉ ids p) /\ ids (mk_pool words last) = {[id]} ∪ ids p.
Proof.
  intros (Hid & Hf & Hw). split.
  - rewrite elem_of_ids, Hf. by intros [_ ?].
  - apply set_eq. intros x. rewrite elem_of_union, elem_of_singleton, !elem_of_ids. unfold in_use at 1.
    simpl. split.
    + intros [Hx Hu]. rewrite Hw in Hu by done. destruct (Z.eqb_spec x id); auto.
    + intros [->|[Hx Hu]]; (split; [done|]); rewrite Hw by done; [by rewrite Z.eqb_refl|].
      by rewrite Hu, orb_true_r.
Qed.

Lemma took_none_ids p words last : took_none p words -> ids (mk_pool words last) = ids p.
Proof.
  intros H. apply set_eq. intros x. rewrite !elem_of_ids. unfold in_use at 1. simpl.
  split; intros [Hx Hu]; (split; [done|]); [by rewrite <- H|by rewrite H].
Qed.

Lemma u16_packet_id last :
  0 <= last < 65536 ->
  packet_id (if u16 (last + 1) =? 0 then u16 (u16 (last + 1) + 1) else u16 (last + 1)).
Proof.
  intros. unfold packet_id. destruct (Z.eq_dec last 65535) as [->|]; [by vm_compute|].
  rewrite (wrap_small 16 (last + 1)) by lia. btests.
Qed.

Lemma fast_took p id words :
  words_ok (pool p) -> packet_id id ->
  fast_words p ((id - 1) / 32) (2 ^ (bit_of id).2) = Some words ->
  took p id words /\ words_ok words.
Proof.
  intros Hok Hid. unfold fast_words, allocated_majors.
  destruct (Z.ltb_spec ((id - 1) / 32) (Z.of_nat (length (pool p)))) as [Hlt|]; [|done].
  change (Z.to_nat ((id - 1) / 32)) with (bit_of id).1.
  destruct (pool p !! (bit_of id).1) as [w|] eqn:Hw; [|done].
  rewrite land_pow2_zero by apply bit_of_range.
  destruct (Z.testbit w (bit_of id).2) eqn:Hb; [done|]. cbn [negb]. intros Hx.
  assert (words = occupy (pool p) id) as -> by (unfold occupy; rewrite Hw; by injection Hx).
  split; [|by apply occupy_words_ok]. split; [done|split].
  - by rewrite (lookup_word p id w).
  - intros id' ?. unfold packet_id in *. apply words_use_occupy; [zdiv|lia].
Qed.

Lemma get_id_spec alloc p :
  pool_ok p ->
  exists id p', rrr_mqtt_id_pool_get_id alloc p = Ret (id, p') /\ pool_ok p' /\
    last_allocated_id p' = id /\
    ((packet_id id /\ (id ∉ ids p) /\ ids p' = {[id]} ∪ ids p) \/
     (id = 0 /\ ids p' = ids p /\
      (alloc 0%nat = true -> forall id', packet_id id' -> id' ∈ ids p))).
Proof.
  intros Hp. pose proof (pool_ok_words p Hp) as Hok. unfold rrr_mqtt_id_pool_get_id.
  pose proof (u16_packet_id _ (ok_last p Hp)) as Hid.
  set (id := if _ =? 0 then _ else _) in *. rewrite MIN_MAJ_MASK_id by done.
  set (p1 := set_last p _).
  destruct (fast_words p1 _ _) as [words|] eqn:Ef.
  - apply fast_took in Ef as [Ht Hok']; [|done..].
    exists id, (mk_pool words id). unfold packet_id in Hid.
    destruct (took_ids p id words id Ht) as [? ?].
    split_and!; [done|apply mk_pool_ok; [done|lia]|done|left; by split_and!].
  - destruct (get_id_retry_spec alloc p1) as (id2 & words & -> & Hok' & Hres); [done|].
    rewrite bind_ret. exists id2, (mk_pool words id2). split_and!; [done| |done|].
    + apply mk_pool_ok; [done|]. destruct Hres as [[Hx _]|[-> _]]; [unfold packet_id in Hx|]; lia.
    + destruct Hres as [Ht|(-> & Hn & Hall)]; [left|right].
      * destruct (took_ids p id2 words id2 Ht). by split_and!; try apply Ht.
      * split_and!; [done|by apply took_none_ids|]. intros Ha x Hx. apply elem_of_ids.
        split; [done|by apply Hall].
Qed.

(** Allocating an identifier always returns, within two rounds of the
    retry loop, and does one of two things: it hands out an identifier that was
    not in use and marks exactly it, or it returns 0 and changes nothing, which
    happens only when all 65535 identifiers are in use or memory ran out. *)
Lemma rrr_mqtt_id_pool_get_id_correct alloc p :
  pool_ok p ->
  exists id p', rrr_mqtt_id_pool_get_id alloc p = Ret (id, p') /\ pool_ok p' /\
    last_allocated_id p' = id /\
    ((packet_id id /\ (id ∉ ids p) /\ ids p' = {[id]} ∪ ids p) \/
     (id = 0 /\ ids p' = ids p /\
      (alloc 0%nat = true -> forall id', packet_id id' -> id' ∈ ids p))).
Proof. apply get_id_spec. Qed.

Lemma pool_init_ok : pool_ok rrr_mqtt_id_pool_init.
Proof. constructor; simpl; [constructor|exists 0; done|lia]. Qed.

Lemma ids_empty : ids rrr_mqtt_id_pool_init = ∅.
Proof.
  apply set_eq. intros x. rewrite elem_of_ids, elem_of_empty. unfold in_use, words_use. simpl.
  rewrite Z.bits_0. by split; [intros []|].
Qed.

Lemma release_id_spec p id :
  pool_ok p -> packet_id id ->
  if decide (id ∈ ids p) then
    exists p', rrr_mqtt_id_pool_release_id p id = Ret p' /\ pool_ok p' /\ ids p' = ids p ∖ {[id]}
  else rrr_mqtt_id_pool_release_id p id = Bug.
Proof.
  intros Hp Hid. unfold rrr_mqtt_id_pool_release_id, allocated_majors.
  rewrite MIN_MAJ_MASK_id by done. change (Z.to_nat ((id - 1) / 32)) with (bit_of id).1.
  destruct (Z.leb_spec (Z.of_nat (length (pool p))) ((id - 1) / 32)) as [Hge|Hlt].
  { rewrite decide_False; [done|]. rewrite elem_of_ids. unfold in_use, words_use.
    rewrite lookup_ge_None_2 by (unfold bit_of; simpl; lia). simpl. by rewrite Z.bits_0; intros []. }
  destruct (bit_of_word (pool p) id) as [w Hw]; [unfold packet_id in Hid; zdiv|]. rewrite Hw.
  rewrite land_pow2_zero by apply bit_of_range. rewrite <- (lookup_word p id w) by done.
  destruct (in_use p id) eqn:Hu; cbn [negb].
  2: { rewrite decide_False; [done|]. rewrite elem_of_ids, Hu. by intros []. }
  rewrite decide_True by (by apply elem_of_ids). eexists. split; [done|].
  destruct (pool_ok_words p Hp) as [Hws Hk]. pose proof (Forall_lookup_1 _ _ _ _ Hws Hw) as Hwok.
  split.
  - apply mk_pool_ok; [|apply Hp]. split; [|by rewrite length_insert].
    apply Forall_insert; [done|]. split; [apply Z.land_nonneg; left; apply Hwok|].
    apply lt_pow2_bits; [lia|apply Z.land_nonneg; left; apply Hwok|].
    intros i Hi. rewrite Z.land_spec, (bits_above 32 w) by done. done.
  - assert (forall id', packet_id id' -> in_use (mk_pool (<[(bit_of id).1 := w &&& u32 (Z.lnot
      (2 ^ (bit_of id).2))]> (pool p)) (last_allocated_id p)) id'
      = if id' =? id then false else in_use p id') as Hnew.
    { intros id' Hid'. unfold packet_id in *. apply words_use_insert with w; [lia|done| |lia].
      intros j Hj. unfold wrap.
      rewrite Z.land_spec, Z.mod_pow2_bits_low, Z.lnot_spec, Z.pow2_bits_eqb
        by (apply bit_of_range || lia).
      destruct (_ =? j); [apply andb_false_r|apply andb_true_r]. }
    apply set_eq. intros x. rewrite elem_of_difference, elem_of_singleton, !elem_of_ids. split.
    + intros [Hx Hxu]. rewrite Hnew in Hxu by done. by destruct (Z.eqb_spec x id).
    + intros [[Hx Hxu] Hne]. split; [done|]. rewrite Hnew by done. by destruct (Z.eqb_spec x id).
Qed.

(** Releasing frees exactly the identifier released when it is in use, and
    aborts the process when it is not. *)
Lemma rrr_mqtt_id_pool_release_id_correct p id :
  pool_ok p -> packet_id id ->
  if decide (id ∈ ids p) then
    exists p', rrr_mqtt_id_pool_release_id p id = Ret p' /\ pool_ok p' /\ ids p' = ids p ∖ {[id]}
  else rrr_mqtt_id_pool_release_id p id = Bug.
Proof. apply release_id_spec. Qed.

(** * Histories of a pool

    [history p held] : the pool [p] is reached from an initialised one by
    allocations and releases of identifiers, and [held] are those handed out and not
    yet released, the latest first. *)
Inductive history : rrr_mqtt_id_pool -> list Z -> Prop :=
| history_init : history rrr_mqtt_id_pool_init []
| history_clear p held : history p held -> history (rrr_mqtt_id_pool_clear p) []
| history_get p held alloc id p' :
    history p held -> rrr_mqtt_id_pool_get_id alloc p = Ret (id, p') ->
    history p' (if id =? 0 then held else id :: held)
| history_release p held id p' :
    history p held -> id ∈ held -> rrr_mqtt_id_pool_release_id p id = Ret p' ->
    history p' (filter (fun x => x <> id) held).

(** C21. Over any history of allocations, releases and clears, the identifiers
    held by callers are exactly those the pool marks, none is held twice, and a
    new one is never one that is still held. *)
Theorem rrr_mqtt_id_pool_history_distinct p held :
  history p held ->
  pool_ok p /\ NoDup held /\ (forall id, id ∈ held <-> id ∈ ids p) /\
  forall alloc, exists id p', rrr_mqtt_id_pool_get_id alloc p = Ret (id, p') /\ id ∉ held.
Proof.
  intros H. assert (pool_ok p /\ NoDup held /\ forall id, id ∈ held <-> id ∈ ids p)
    as (Hp & Hnd & Hids).
  { induction H as [|p held H IH|p held alloc id p' H IH Hget|p held id p' H IH Hin Hrel].
    - split_and!; [apply pool_init_ok|constructor|].
      intros. by rewrite ids_empty, elem_of_nil, elem_of_empty.
    - change (rrr_mqtt_id_pool_clear p) with rrr_mqtt_id_pool_init.
      split_and!; [apply pool_init_ok|constructor|].
      intros. by rewrite ids_empty, elem_of_nil, elem_of_empty.
    - destruct IH as (Hp & Hnd & Hids).
      destruct (get_id_spec alloc p Hp) as (id1 & p1 & E & Hp' & _ & Hres). rewrite E in Hget.
      injection Hget as -> ->. split; [done|].
      destruct Hres as [((? & ?) & Hfree & ->)|(-> & -> & _)]; [|done].
      destruct (Z.eqb_spec id 0) as [->|]; [lia|]. split.
      + constructor; [by rewrite Hids|done].
      + intros x. rewrite elem_of_cons, elem_of_union, elem_of_singleton, Hids. done.
    - destruct IH as (Hp & Hnd & Hids). apply Hids in Hin as Hin2.
      apply elem_of_ids in Hin2 as [Hid _].
      pose proof (release_id_spec p id Hp Hid) as Hs. rewrite decide_True in Hs by (by apply Hids).
      destruct Hs as (p1 & E & Hp' & Hd). rewrite E in Hrel. injection Hrel as ->.
      split_and!; [done|by apply list.NoDup_filter|]. intros x.
      rewrite Hd, elem_of_difference, elem_of_singleton, <- Hids, list_elem_of_filter. tauto. }
  split_and!; [done..|]. intros alloc.
  destruct (get_id_spec alloc p Hp) as (id & p' & E & _ & _ & Hres). exists id, p'.
  split; [done|]. rewrite Hids. destruct Hres as [(_ & ? & _)|(-> & _ & _)]; [done|].
  rewrite elem_of_ids. unfold packet_id. lia.
Qed.

Lemma rrr_mqtt_id_pool_history_distinct_witness :
  exists p held, history p held /\ length held = 1%nat /\ NoDup held.
Proof.
  destruct (rrr_mqtt_id_pool_get_id (fun _ => true) rrr_mqtt_id_pool_init) as [[id p']| |] eqn:E;
    [|discriminate..].
  assert (history p' (if id =? 0 then [] else [id])) as Hh
    by exact (history_get _ _ _ _ _ history_init E).
  assert (id = 1) as -> by (apply (f_equal (fun o => match o with Ret (i, _) => i | _ => 0 end)) in E;
    symmetry; exact E).
  exists p', [1]. split; [exact Hh|]. split; [reflexivity|].
  apply (rrr_mqtt_id_pool_history_distinct p' [1] Hh).
Defined.

(** The last bit of the full pool stands for 65536, which is 0 in 16 bits: the
    call that reaches it reports that no identifier is free, and marks it. *)
Lemma rrr_mqtt_id_pool_last_bit :
  scan 0 (replicate 2047 0xffffffff ++ [0x7fffffff])
  = Ret (Some (0, replicate 2048 0xffffffff)).
Proof. vm_compute. reflexivity. Qed.

End MqttIdPool.
