(* ===== verification/MsgHead.v ===== *)
(** RRR messages: the common header, its checksums and its network form
    (src/src/lib/messages/msg_head.h, msg.c, msg_checksum.c, and
    src/src/lib/util/rrr_endian.c).  A message is the list of the bytes of its
    object; fields are read and written in the byte order of the host. *)
From S2P Require Import Prelude Types Crc32.

Module MsgHead.
Import Types Crc32.

(** A field of a packed struct: offset and size. *)
Definition field : Type := nat * nat.

Definition header_crc32 : field := (0, 4)%nat.
Definition msg_size : field := (4, 4)%nat.
Definition msg_type : field := (8, 2)%nat.
Definition msg_value : field := (10, 4)%nat.
Definition data_crc32 : field := (14, 4)%nat.
(** [sizeof(struct rrr_msg)] *)
Definition sizeof_msg : Z := 18.

(** [n] bytes at offset [off], inside the object. *)
Definition bytes_at (off n : Z) (buf : list Z) : outcome (list Z) :=
  if (0 <=? off) && (0 <=? n) && (off + n <=? Z.of_nat (length buf))
  then Ret (slice (Z.to_nat off) (Z.to_nat n) buf) else Oob.

Section Host.
(** The host is big endian, or little endian. *)
Context (big : bool).

Definition host_enc (n : nat) (v : Z) : list Z := if big then be_enc n v else le_enc n v.
Definition host_dec (bs : list Z) : Z := if big then be_dec bs else le_dec bs.

Definition get (f : field) (buf : list Z) : outcome Z :=
  bs ← bytes_at (Z.of_nat f.1) (Z.of_nat f.2) buf; Ret (host_dec bs).

Definition set (f : field) (v : Z) (buf : list Z) : outcome (list Z) :=
  _ ← bytes_at (Z.of_nat f.1) (Z.of_nat f.2) buf; Ret (splice f.1 (host_enc f.2 v) buf).

(** The byte-order conversions of <endian.h>. *)
Definition swap (n : nat) (x : Z) : Z := le_dec (be_enc n x).
Definition to_be (n : nat) (x : Z) : Z := if big then x else swap n x.

Definition rrr_htobe16 (x : Z) : Z := to_be 2 x.
Definition rrr_be16toh (x : Z) : Z := to_be 2 x.
Definition rrr_htobe32 (x : Z) : Z := to_be 4 x.
Definition rrr_be32toh (x : Z) : Z := to_be 4 x.
Definition rrr_htobe64 (x : Z) : Z := to_be 8 x.
Definition rrr_be64toh (x : Z) : Z := to_be 8 x.

(** [msg->f = conv(msg->f)] *)
Definition convert (conv : Z -> Z) (f : field) (buf : list Z) : outcome (list Z) :=
  v ← get f buf; set f (conv v) buf.

Definition RRR_MSG_TYPE_CTRL : Z := 1.
Definition RRR_MSG_TYPE_MESSAGE : Z := 2.
Definition RRR_MSG_TYPE_SETTING : Z := 4.
Definition RRR_MSG_TYPE_STATS : Z := 6.
Definition RRR_MSG_TYPE_MESSAGE_ADDR : Z := 8.
Definition RRR_MSG_TYPE_MESSAGE_LOG : Z := 16.

Definition RRR_MSG_CTRL_F_RESERVED : Z := 1.
Definition RRR_MSG_CTRL_F_PING : Z := 4.
Definition RRR_MSG_CTRL_F_PONG : Z := 8.
Definition RRR_MSG_CTRL_F_ACK : Z := 16.
Definition RRR_MSG_CTRL_F_NACK : Z := 32.
Definition RRR_MSG_CTRL_F_ALL : Z :=
  RRR_MSG_CTRL_F_RESERVED ||| RRR_MSG_CTRL_F_PING ||| RRR_MSG_CTRL_F_PONG |||
  RRR_MSG_CTRL_F_ACK ||| RRR_MSG_CTRL_F_NACK ||| 0xF000.

(** The tests on the type field, [RRR_MSG_IS_...] and [RRR_MSG_TYPE_OK]. *)
Definition RRR_MSG_IS_CTRL (type : Z) : bool := type &&& RRR_MSG_TYPE_CTRL =? RRR_MSG_TYPE_CTRL.
Definition RRR_MSG_TYPE_OK (type : Z) : bool :=
  RRR_MSG_IS_CTRL type || (type =? RRR_MSG_TYPE_MESSAGE) ||
  (type =? RRR_MSG_TYPE_MESSAGE_ADDR) || (type =? RRR_MSG_TYPE_SETTING) ||
  (type =? RRR_MSG_TYPE_MESSAGE_LOG) || (type =? RRR_MSG_TYPE_STATS).

Definition rrr_msg_populate_head (message : list Z) (type size value : Z) : outcome (list Z) :=
  if size <? sizeof_msg then Bug
  else
    message ← set msg_type type message;
    message ← set msg_size size message;
    set msg_value value message.

Definition rrr_msg_populate_control_msg (message : list Z) (flags value : Z)
  : outcome (list Z) :=
  if truth (flags &&& RRR_MSG_CTRL_F_RESERVED) then Bug
  else rrr_msg_populate_head message (RRR_MSG_TYPE_CTRL ||| flags) sizeof_msg value.

Definition rrr_msg_head_validate (message : list Z) (expected_size : Z) : outcome Z :=
  size ← get msg_size message;
  if negb (size =? expected_size) then Ret 1
  else
    type ← get msg_type message;
    if RRR_MSG_IS_CTRL type then
      if truth (type &&& u16 (Z.lnot RRR_MSG_CTRL_F_ALL)) then Ret 1 else Ret 0
    else if RRR_MSG_TYPE_OK type then Ret 0
    else Ret 1.

Definition rrr_msg_head_to_host_and_verify (message : list Z) (expected_size : Z)
  : outcome (Z * list Z) :=
  message ← set header_crc32 0 message;
  message ← convert rrr_be32toh data_crc32 message;
  message ← convert rrr_be16toh msg_type message;
  message ← convert rrr_be32toh msg_size message;
  message ← convert rrr_be32toh msg_value message;
  ret ← rrr_msg_head_validate message expected_size;
  if negb (ret =? 0) then Ret (1, message) else Ret (0, message).

(** The status and the new [*target_size]. *)
Definition rrr_msg_get_target_size_and_check_checksum (target_size : Z) (msg : list Z)
    (buf_size : Z) : outcome (Z * Z) :=
  if buf_size <? sizeof_msg then Ret (RRR_READ_INCOMPLETE, target_size)
  else
    head ← bytes_at 4 (sizeof_msg - 4) msg;
    crc ← get header_crc32 msg;
    if truth (rrr_crc32cmp head (rrr_be32toh crc)) then Ret (RRR_READ_SOFT_ERROR, 0)
    else
      size ← get msg_size msg;
      Ret (RRR_READ_OK, rrr_be32toh size).

Definition rrr_msg_check_data_checksum_and_length (message : list Z) (data_size : Z)
  : outcome (Z * list Z) :=
  if data_size <? sizeof_msg then Bug
  else
    size ← get msg_size message;
    if negb (size =? data_size) then Ret (1, message)
    else
      checksum ← get data_crc32 message;
      data ← bytes_at sizeof_msg (data_size - sizeof_msg) message;
      if truth (rrr_crc32cmp data checksum) then Ret (1, message)
      else
        message ← set data_crc32 0 message;
        message ← set header_crc32 0 message;
        Ret (0, message).

Definition rrr_msg_checksum_and_to_network_endian (message : list Z) : outcome (list Z) :=
  message ← set header_crc32 0 message;
  message ← set data_crc32 0 message;
  size ← get msg_size message;
  let data_size := u32 (size - sizeof_msg) in
  message ← (if 0 <? data_size
    then data ← bytes_at sizeof_msg data_size message; set data_crc32 (rrr_crc32buf data) message
    else Ret message);
  message ← convert rrr_htobe16 msg_type message;
  message ← convert rrr_htobe32 msg_size message;
  message ← convert rrr_htobe32 msg_value message;
  message ← convert rrr_htobe32 data_crc32 message;
  head ← bytes_at 4 (sizeof_msg - 4) message;
  set header_crc32 (rrr_htobe32 (rrr_crc32buf head)) message.

End Host.

(** * Layout *)

Lemma bytes_at_app pre mid post off n :
  length pre = off -> length mid = n ->
  bytes_at (Z.of_nat off) (Z.of_nat n) (pre ++ mid ++ post) = Ret mid.
Proof.
  intros <- <-. unfold bytes_at. rewrite !length_app.
  btests.
  unfold slice. by rewrite !Nat2Z.id, drop_app_length, take_app_length.
Qed.

Section Fields.
Context (big : bool).

Lemma get_app pre mid post off n :
  length pre = off -> length mid = n ->
  get big (off, n) (pre ++ mid ++ post) = Ret (host_dec big mid).
Proof. intros. unfold get. simpl. by rewrite bytes_at_app. Qed.

Lemma length_host_enc n v : length (host_enc big n v) = n.
Proof. unfold host_enc. destruct big; autorewrite with rrr_len; done. Qed.

Lemma set_app pre mid post off n v :
  length pre = off -> length mid = n ->
  set big (off, n) v (pre ++ mid ++ post) = Ret (pre ++ host_enc big n v ++ post).
Proof.
  intros <- <-. unfold set. simpl. rewrite bytes_at_app by done. rewrite bind_ret. unfold splice.
  rewrite take_app_length, length_host_enc. f_equal. f_equal.
  rewrite <- length_app, app_assoc. f_equal. apply drop_app_length.
Qed.

Lemma host_dec_enc n v : 0 <= v < 2 ^ (8 * Z.of_nat n) -> host_dec big (host_enc big n v) = v.
Proof.
  intros. unfold host_dec, host_enc.
  destruct big; rewrite ?be_dec_enc, ?le_dec_enc; by apply Z.mod_small.
Qed.

Lemma host_enc_dec bs : bytes_ok bs -> host_enc big (length bs) (host_dec big bs) = bs.
Proof.
  intros. unfold host_dec, host_enc. destruct big; [by apply be_enc_dec|by apply le_enc_dec].
Qed.

Lemma host_dec_range bs : bytes_ok bs -> 0 <= host_dec big bs < 2 ^ (8 * Z.of_nat (length bs)).
Proof.
  intros. unfold host_dec. destruct big; [by apply be_dec_range|by apply le_dec_range].
Qed.

Lemma host_enc_bytes n v : bytes_ok (host_enc big n v).
Proof. unfold host_enc. destruct big; auto with rrr. Qed.

(** A value converted to network order is stored big endian. *)
Lemma host_enc_to_be n v : host_enc big n (to_be big n v) = be_enc n v.
Proof.
  unfold host_enc, to_be, swap. destruct big; [done|].
  rewrite <- (length_be_enc n v) at 1. apply le_enc_dec, be_enc_bytes.
Qed.

(** A big-endian field converted to host order is its value. *)
Lemma to_be_host_dec n v :
  0 <= v < 2 ^ (8 * Z.of_nat n) -> to_be big n (host_dec big (be_enc n v)) = v.
Proof.
  intros Hv. unfold to_be, swap, host_dec. destruct big.
  - rewrite be_dec_enc. by apply Z.mod_small.
  - rewrite <- (length_be_enc n v) at 1. unfold be_enc at 1.
    rewrite le_enc_dec by apply be_enc_bytes. unfold be_enc. rewrite rev_involutive, le_dec_enc.
    by apply Z.mod_small.
Qed.

(** An object as the list of its fields. *)
Lemma concat_field (fs : list (list Z)) (i : nat) f :
  fs !! i = Some f -> concat fs = concat (take i fs) ++ f ++ concat (drop (S i) fs).
Proof.
  intros H. rewrite <- (take_drop_middle fs i f H) at 1. by rewrite concat_app.
Qed.

Lemma get_concat fs i f off n :
  fs !! i = Some f -> length (concat (take i fs)) = off -> length f = n ->
  get big (off, n) (concat fs) = Ret (host_dec big f).
Proof. intros H ? ?. rewrite (concat_field fs i f H). by apply get_app. Qed.

Lemma set_concat fs i f off n v :
  fs !! i = Some f -> length (concat (take i fs)) = off -> length f = n ->
  set big (off, n) v (concat fs) = Ret (concat (<[i := host_enc big n v]> fs)).
Proof.
  intros H ? ?. rewrite (concat_field fs i f H), set_app by done.
  rewrite insert_take_drop by (by eapply lookup_lt_Some). by rewrite concat_app.
Qed.

End Fields.

(** The five fields, as the bytes that hold them, and what follows. *)
Definition layout (crc size type value dcrc data : list Z) : list Z :=
  crc ++ size ++ type ++ value ++ dcrc ++ data.

Definition fields_ok (crc size type value dcrc : list Z) : Prop :=
  length crc = 4%nat /\ length size = 4%nat /\ length type = 2%nat /\ length value = 4%nat /\
  length dcrc = 4%nat.

Section Layout.
Context (big : bool) (crc size type value dcrc data : list Z).
Context (Hok : fields_ok crc size type value dcrc).

Ltac split_layout :=
  destruct Hok as (? & ? & ? & ? & ?);
  unfold layout, header_crc32, msg_size, msg_type, msg_value, data_crc32, sizeof_msg.

Lemma get_crc : get big header_crc32 (layout crc size type value dcrc data) = Ret (host_dec big crc).
Proof using Hok.
  split_layout.
  by apply (get_app big [] crc).
Qed.

Lemma get_size : get big msg_size (layout crc size type value dcrc data) = Ret (host_dec big size).
Proof using Hok.
  split_layout. by apply get_app.
Qed.

Lemma get_type : get big msg_type (layout crc size type value dcrc data) = Ret (host_dec big type).
Proof using Hok.
  split_layout. rewrite (app_assoc crc size).
  apply get_app; rewrite ?length_app; lia.
Qed.

Lemma get_value : get big msg_value (layout crc size type value dcrc data) = Ret (host_dec big value).
Proof using Hok.
  split_layout. rewrite (app_assoc size type), (app_assoc crc).
  apply get_app; rewrite ?length_app; lia.
Qed.

Lemma get_dcrc : get big data_crc32 (layout crc size type value dcrc data) = Ret (host_dec big dcrc).
Proof using Hok.
  split_layout.
  rewrite (app_assoc type value), (app_assoc size), (app_assoc crc).
  apply get_app; rewrite ?length_app; lia.
Qed.

Lemma set_crc v : set big header_crc32 v (layout crc size type value dcrc data)
  = Ret (layout (host_enc big 4 v) size type value dcrc data).
Proof using Hok.
  split_layout.
  by apply (set_app big [] crc).
Qed.

Lemma set_size v : set big msg_size v (layout crc size type value dcrc data)
  = Ret (layout crc (host_enc big 4 v) type value dcrc data).
Proof using Hok.
  split_layout. by apply set_app.
Qed.

Lemma set_type v : set big msg_type v (layout crc size type value dcrc data)
  = Ret (layout crc size (host_enc big 2 v) value dcrc data).
Proof using Hok.
  split_layout. rewrite !(app_assoc crc size).
  apply set_app; rewrite ?length_app; lia.
Qed.

Lemma set_value v : set big msg_value v (layout crc size type value dcrc data)
  = Ret (layout crc size type (host_enc big 4 v) dcrc data).
Proof using Hok.
  split_layout.
  rewrite !(app_assoc size type), !(app_assoc crc).
  apply set_app; rewrite ?length_app; lia.
Qed.

Lemma set_dcrc v : set big data_crc32 v (layout crc size type value dcrc data)
  = Ret (layout crc size type value (host_enc big 4 v) data).
Proof using Hok.
  split_layout.
  rewrite !(app_assoc type value), !(app_assoc size), !(app_assoc crc).
  apply set_app; rewrite ?length_app; lia.
Qed.

Lemma bytes_at_head :
  bytes_at 4 (sizeof_msg - 4) (layout crc size type value dcrc data)
  = Ret (size ++ type ++ value ++ dcrc).
Proof using Hok.
  split_layout.
  rewrite (app_assoc value), (app_assoc type), (app_assoc size).
  apply (bytes_at_app crc (size ++ type ++ value ++ dcrc) data 4 14); rewrite ?length_app; lia.
Qed.

Lemma bytes_at_data n :
  n = Z.of_nat (length data) ->
  bytes_at sizeof_msg n (layout crc size type value dcrc data) = Ret data.
Proof using Hok.
  intros ->. split_layout.
  rewrite <- (app_nil_r data) at 2.
  rewrite (app_assoc value), (app_assoc type), (app_assoc size), (app_assoc crc).
  apply (bytes_at_app _ data [] 18); rewrite ?length_app; lia.
Qed.

Lemma length_layout :
  length (layout crc size type value dcrc data) = (18 + length data)%nat.
Proof using Hok.
  split_layout. rewrite !length_app. lia.
Qed.

End Layout.

(** * The header as a record *)

Record rrr_msg := mk_msg {
  h_crc : Z;
  h_size : Z;
  h_type : Z;
  h_value : Z;
  h_data_crc : Z
}.

Definition msg_ok (h : rrr_msg) : Prop :=
  0 <= h_crc h < 2 ^ 32 /\ 0 <= h_size h < 2 ^ 32 /\ 0 <= h_type h < 2 ^ 16 /\
  0 <= h_value h < 2 ^ 32 /\ 0 <= h_data_crc h < 2 ^ 32.

(** The object in the memory of a host, followed by the message's data. *)
Definition msg_bytes (big : bool) (h : rrr_msg) (data : list Z) : list Z :=
  layout (host_enc big 4 (h_crc h)) (host_enc big 4 (h_size h)) (host_enc big 2 (h_type h))
    (host_enc big 4 (h_value h)) (host_enc big 4 (h_data_crc h)) data.

(** The network form: every field big endian. *)
Definition wire_bytes (h : rrr_msg) (data : list Z) : list Z :=
  layout (be_enc 4 (h_crc h)) (be_enc 4 (h_size h)) (be_enc 2 (h_type h))
    (be_enc 4 (h_value h)) (be_enc 4 (h_data_crc h)) data.

(** The part of the header its own checksum covers. *)
Definition covered (h : rrr_msg) : list Z :=
  be_enc 4 (h_size h) ++ be_enc 2 (h_type h) ++ be_enc 4 (h_value h) ++ be_enc 4 (h_data_crc h).

Definition with_data_crc (h : rrr_msg) (crc : Z) : rrr_msg :=
  mk_msg (h_crc h) (h_size h) (h_type h) (h_value h) crc.
Definition with_crc (h : rrr_msg) (crc : Z) : rrr_msg :=
  mk_msg crc (h_size h) (h_type h) (h_value h) (h_data_crc h).

(** The header as it is sent. *)
Definition sent (h : rrr_msg) (data : list Z) : rrr_msg :=
  let h := with_data_crc h (rrr_crc32buf data) in with_crc h (rrr_crc32buf (covered h)).

Definition cleared (h : rrr_msg) : rrr_msg := mk_msg 0 (h_size h) (h_type h) (h_value h) 0.

Lemma fields_ok_enc (f g : nat -> Z -> list Z) a b c d e :
  (forall n v, length (f n v) = n) ->
  fields_ok (f 4%nat a) (f 4%nat b) (f 2%nat c) (f 4%nat d) (f 4%nat e).
Proof. intros H. unfold fields_ok. rewrite !H. done. Qed.

Ltac fields := unfold fields_ok; rewrite ?length_host_enc, ?length_be_enc; done.
Ltac width :=
  change (8 * Z.of_nat 1) with 8; change (8 * Z.of_nat 2) with 16;
  change (8 * Z.of_nat 4) with 32; change (8 * Z.of_nat 8) with 64; lia.
Ltac run_layout :=
  repeat first [rewrite get_crc by fields | rewrite get_size by fields | rewrite get_type by fields
    | rewrite get_value by fields | rewrite get_dcrc by fields | rewrite set_crc by fields
    | rewrite set_size by fields | rewrite set_type by fields | rewrite set_value by fields
    | rewrite set_dcrc by fields | rewrite bytes_at_head by fields
    | rewrite bytes_at_data by (fields || done || lia)
    | rewrite bind_ret | rewrite host_dec_enc by width | rewrite to_be_host_dec by width
    | rewrite host_enc_to_be].

Lemma crc_nil : rrr_crc32buf [] = 0.
Proof. reflexivity. Qed.

Lemma crc_range data : bytes_ok data -> 0 <= rrr_crc32buf data < 2 ^ 32.
Proof. apply checksum_range. Qed.

Lemma covered_bytes h : bytes_ok (covered h).
Proof. unfold covered. rewrite !Forall_app. auto with rrr. Qed.

Lemma crc32cmp_self buf : truth (rrr_crc32cmp buf (rrr_crc32buf buf)) = false.
Proof. unfold rrr_crc32cmp. by rewrite Z.sub_diag. Qed.

Ltac sent_fields :=
  unfold sent, covered;
  cbn [with_crc with_data_crc h_crc h_size h_type h_value h_data_crc].

Section Wire.
Context (h : rrr_msg) (data : list Z).
Context (Hh : msg_ok h) (Hd : bytes_ok data) (Hsize : h_size h = sizeof_msg + Z.of_nat (length data)).

Ltac ranges :=
  destruct Hh as (? & ? & ? & ? & ?); pose proof (crc_range data Hd);
  unfold sizeof_msg, msg_bytes, wire_bytes, convert, rrr_htobe16, rrr_htobe32, rrr_be16toh, rrr_be32toh in *.

Lemma to_network_spec big :
  rrr_msg_checksum_and_to_network_endian big (msg_bytes big h data)
  = Ret (wire_bytes (sent h data) data).
Proof using Hh Hd Hsize.
  unfold rrr_msg_checksum_and_to_network_endian. ranges. run_layout.
  rewrite wrap_small by lia.
  destruct (Z.ltb_spec 0 (h_size h - 18)) as [Hpos|Hz].
  - run_layout. sent_fields. reflexivity.
  - assert (data = []) as -> by (apply length_zero_iff_nil; lia). run_layout. sent_fields. reflexivity.
Qed.

Lemma sent_crc : h_crc (sent h data) = rrr_crc32buf (covered (sent h data)).
Proof. reflexivity. Qed.

Lemma sent_ok : msg_ok (sent h data).
Proof using Hh Hd.
  destruct Hh as (? & ? & ? & ? & ?). unfold msg_ok.
  pose proof (crc_range data Hd). pose proof (crc_range _ (covered_bytes (with_data_crc h (rrr_crc32buf data)))).
  unfold sent. cbn [with_crc h_crc h_size h_type h_value h_data_crc].
  cbn [with_data_crc h_size h_type h_value h_data_crc]. auto 10.
Qed.

(** Reading the header needs only its 18 bytes. *)
Lemma get_target_size_spec big target_size rest n :
  sizeof_msg <= n ->
  rrr_msg_get_target_size_and_check_checksum big target_size (wire_bytes (sent h data) rest) n
  = Ret (RRR_READ_OK, h_size h).
Proof using Hh Hd.
  intros Hn. unfold rrr_msg_get_target_size_and_check_checksum.
  rewrite (proj2 (Z.ltb_ge _ _)) by done.
  pose proof sent_ok as (? & ? & ? & ? & ?). ranges. run_layout.
  rewrite sent_crc. fold (covered (sent h data)).
  rewrite crc32cmp_self. run_layout. done.
Qed.


End Wire.

(** Which types a receiver accepts. *)
Definition type_valid (type : Z) : bool :=
  if RRR_MSG_IS_CTRL type then negb (truth (type &&& u16 (Z.lnot RRR_MSG_CTRL_F_ALL)))
  else RRR_MSG_TYPE_OK type.

Ltac head_ranges Hh :=
  destruct Hh as (? & ? & ? & ? & ?);
  unfold msg_bytes, wire_bytes, convert, rrr_htobe16, rrr_htobe32, rrr_be16toh, rrr_be32toh in *.

Lemma head_to_host_spec big h data expected_size :
  msg_ok h ->
  rrr_msg_head_to_host_and_verify big (wire_bytes h data) expected_size
  = Ret (if (h_size h =? expected_size) && type_valid (h_type h) then 0 else 1,
         msg_bytes big (with_crc h 0) data).
Proof.
  intros Hh. unfold rrr_msg_head_to_host_and_verify, rrr_msg_head_validate, type_valid.
  head_ranges Hh. run_layout. unfold with_crc. cbn [h_crc h_size h_type h_value h_data_crc].
  destruct (h_size h =? expected_size); cbn [negb andb]; [|done].
  run_layout. destruct (RRR_MSG_IS_CTRL (h_type h)).
  - by destruct (truth (h_type h &&& _)).
  - by destruct (RRR_MSG_TYPE_OK (h_type h)).
Qed.

Lemma check_data_spec big h data n :
  h_size h = n -> msg_ok h -> bytes_ok data -> n = sizeof_msg + Z.of_nat (length data) ->
  rrr_msg_check_data_checksum_and_length big (msg_bytes big h data) n
  = if rrr_crc32buf data =? h_data_crc h then Ret (0, msg_bytes big (cleared h) data)
    else Ret (1, msg_bytes big h data).
Proof.
  intros <- Hh Hd Hs. unfold rrr_msg_check_data_checksum_and_length. head_ranges Hh.
  rewrite (proj2 (Z.ltb_ge _ _)) by lia. run_layout. rewrite Z.eqb_refl. cbn [negb]. run_layout.
  unfold truth. destruct (Z.eqb_spec (rrr_crc32buf data) (h_data_crc h)) as [E|E].
  - rewrite (proj2 (crc32cmp_zero data (h_data_crc h) Hd ltac:(lia)) E). cbn [Z.eqb negb].
    run_layout. done.
  - rewrite <- (crc32cmp_zero data) in E by (done || lia). by rewrite (proj2 (Z.eqb_neq _ _) E).
Qed.

(** C10. What one host sends any other host receives.  A message with a valid
    header and of the size it states, whatever the byte order of the sender,
    is given a network form of which the first 18 bytes are enough to learn the
    size; a receiver of either byte order then accepts header and data, and is
    left with the same fields and data, checksums cleared. *)
Theorem rrr_msg_network_roundtrip big_sender big_receiver h data :
  msg_ok h -> bytes_ok data -> h_size h = sizeof_msg + Z.of_nat (length data) ->
  type_valid (h_type h) = true ->
  exists wire received,
    rrr_msg_checksum_and_to_network_endian big_sender (msg_bytes big_sender h data) = Ret wire /\
    (forall n, sizeof_msg <= n <= h_size h ->
       rrr_msg_get_target_size_and_check_checksum big_receiver 0 (take (Z.to_nat n) wire) n
       = Ret (RRR_READ_OK, h_size h)) /\
    rrr_msg_head_to_host_and_verify big_receiver wire (h_size h) = Ret (0, received) /\
    rrr_msg_check_data_checksum_and_length big_receiver received (h_size h)
    = Ret (0, msg_bytes big_receiver (cleared h) data).
Proof.
  intros Hh Hd Hs Ht. exists (wire_bytes (sent h data) data).
  exists (msg_bytes big_receiver (with_crc (sent h data) 0) data).
  pose proof (sent_ok h data Hh Hd) as Hsent. split_and!.
  - by apply to_network_spec.
  - intros n Hn. assert (take (Z.to_nat n) (wire_bytes (sent h data) data)
      = wire_bytes (sent h data) (take (Z.to_nat n - 18) data)) as ->.
    { unfold wire_bytes, layout. rewrite !app_assoc. rewrite take_app_ge.
      - f_equal.
      - rewrite !length_app, !length_be_enc. unfold sizeof_msg in Hn. lia. }
    apply get_target_size_spec; (done || lia).
  - rewrite head_to_host_spec by done. change (h_size (sent h data)) with (h_size h).
    change (h_type (sent h data)) with (h_type h). by rewrite Z.eqb_refl, Ht.
  - rewrite (check_data_spec big_receiver (with_crc (sent h data) 0) data).
    + change (h_data_crc (with_crc (sent h data) 0)) with (rrr_crc32buf data).
      by rewrite Z.eqb_refl.
    + done.
    + destruct Hsent as (? & ? & ? & ? & ?). unfold msg_ok, with_crc. simpl. auto 10 with lia.
    + done.
    + done.
Qed.

Lemma rrr_msg_network_roundtrip_witness :
  let h := mk_msg 0 20 RRR_MSG_TYPE_MESSAGE 7 0 in
  exists wire received,
    rrr_msg_checksum_and_to_network_endian false (msg_bytes false h [1; 255]) = Ret wire /\
    rrr_msg_head_to_host_and_verify true wire 20 = Ret (0, received).
Proof.
  intros h. destruct (rrr_msg_network_roundtrip false true h [1; 255])
    as (wire & received & H1 & _ & H3 & _).
  - vm_compute. intuition congruence.
  - repeat constructor; vm_compute; congruence.
  - reflexivity.
  - reflexivity.
  - exists wire, received. split; assumption.
Defined.

(** * Corruption *)

Lemma be_dec_inj l l' :
  bytes_ok l -> bytes_ok l' -> length l = length l' -> be_dec l = be_dec l' -> l = l'.
Proof.
  intros H H' Hlen E. rewrite <- (be_enc_dec l H), <- (be_enc_dec l' H'). congruence.
Qed.

(** The header check on arbitrary bytes: the first four against the next 14. *)
Lemma get_target_size_bytes big target_size crc cov rest n :
  length crc = 4%nat -> length cov = 14%nat -> bytes_ok crc -> bytes_ok cov -> sizeof_msg <= n ->
  rrr_crc32buf cov <> be_dec crc ->
  rrr_msg_get_target_size_and_check_checksum big target_size (crc ++ cov ++ rest) n
  = Ret (RRR_READ_SOFT_ERROR, 0).
Proof.
  intros Hc Hv Hcb Hvb Hn Hne. unfold rrr_msg_get_target_size_and_check_checksum.
  rewrite (proj2 (Z.ltb_ge _ _)) by done.
  change 4 with (Z.of_nat 4) at 1. change (sizeof_msg - 4) with (Z.of_nat 14).
  rewrite bytes_at_app by done. rewrite bind_ret.
  change (crc ++ cov ++ rest) with ([] ++ crc ++ cov ++ rest).
  unfold header_crc32. rewrite (get_app big [] crc) by done. rewrite bind_ret.
  pose proof (be_dec_range crc Hcb) as Hr. rewrite Hc in Hr.
  assert (rrr_be32toh big (host_dec big crc) = be_dec crc) as ->.
  { rewrite <- (be_enc_dec crc Hcb) at 1. rewrite Hc. by apply to_be_host_dec. }
  unfold truth. rewrite <- (crc32cmp_zero cov) in Hne by done.
  by rewrite (proj2 (Z.eqb_neq _ _) Hne).
Qed.

(** C11. No single corrupted byte goes unnoticed.  When any one byte of a sent
    message is replaced, in the header the header check fails before the size
    is believed, and in the data the header is accepted and the data check
    fails. *)
Theorem rrr_msg_corruption_detected big h data (i : nat) b b' :
  msg_ok h -> bytes_ok data -> h_size h = sizeof_msg + Z.of_nat (length data) ->
  type_valid (h_type h) = true ->
  wire_bytes (sent h data) data !! i = Some b -> byte_ok b' -> b <> b' ->
  let wire' := <[i := b']> (wire_bytes (sent h data) data) in
  if (i <? 18)%nat then
    rrr_msg_get_target_size_and_check_checksum big 0 wire' (h_size h) = Ret (RRR_READ_SOFT_ERROR, 0)
  else exists received,
    rrr_msg_head_to_host_and_verify big wire' (h_size h) = Ret (0, received) /\
    rrr_msg_check_data_checksum_and_length big received (h_size h) = Ret (1, received).
Proof.
  intros Hh Hd Hs Ht Hi Hb' Hne wire'. pose proof (sent_ok h data Hh Hd) as Hsent.
  set (crc := be_enc 4 (h_crc (sent h data))). set (cov := covered (sent h data)).
  assert (length crc = 4%nat) as Hcrc by apply length_be_enc.
  assert (length cov = 14%nat) as Hcov by (unfold cov, covered; by rewrite !length_app, !length_be_enc).
  assert (rrr_crc32buf cov = be_dec crc) as Hgood.
  { unfold crc, cov. rewrite be_dec_enc, Z.mod_small by apply Hsent. by rewrite <- sent_crc. }
  assert (bytes_ok crc) by apply be_enc_bytes. pose proof (covered_bytes (sent h data)) as Hcb.
  assert (wire_bytes (sent h data) data = crc ++ cov ++ data) as Ew
    by (unfold wire_bytes, layout, cov, covered; by rewrite <- !app_assoc).
  subst wire'. rewrite Ew in Hi |- *. destruct (Nat.ltb_spec i 18) as [Hlt|Hge].
  - destruct (decide (i < 4)%nat) as [H4|H4].
    + rewrite lookup_app_l in Hi by lia. rewrite insert_app_l by lia.
      apply get_target_size_bytes; rewrite ?length_insert; auto using Forall_insert; [lia|].
      rewrite Hgood. intros E%be_dec_inj; auto using Forall_insert; [|by rewrite length_insert].
      rewrite E, list_lookup_insert_eq in Hi by lia. congruence.
    + rewrite lookup_app_r, lookup_app_l in Hi by lia.
      rewrite insert_app_r_alt, insert_app_l by lia.
      apply get_target_size_bytes; rewrite ?length_insert; auto using Forall_insert; [lia|].
      rewrite <- Hgood. by eapply checksum_insert.
  - rewrite !lookup_app_r in Hi by lia. rewrite !insert_app_r_alt by lia.
    set (data' := <[_ := b']> data).
    assert (crc ++ cov ++ data' = wire_bytes (sent h data) data') as ->
      by (unfold wire_bytes, layout, cov, covered; by rewrite <- !app_assoc).
    exists (msg_bytes big (with_crc (sent h data) 0) data'). rewrite head_to_host_spec by done.
    change (h_size (sent h data)) with (h_size h). change (h_type (sent h data)) with (h_type h).
    rewrite Z.eqb_refl, Ht. split; [done|].
    rewrite (check_data_spec big (with_crc (sent h data) 0) data').
    + change (h_data_crc (with_crc (sent h data) 0)) with (rrr_crc32buf data).
      rewrite (proj2 (Z.eqb_neq _ _)); [done|]. by eapply checksum_insert.
    + done.
    + destruct Hsent as (? & ? & ? & ? & ?). unfold msg_ok, with_crc. simpl. auto 10 with lia.
    + by apply Forall_insert.
    + unfold data'. by rewrite length_insert.
Qed.

Lemma rrr_msg_corruption_detected_witness :
  let h := mk_msg 0 20 RRR_MSG_TYPE_MESSAGE 7 0 in
  exists received,
    rrr_msg_head_to_host_and_verify false (<[18%nat := 9]> (wire_bytes (sent h [1; 2]) [1; 2])) 20
      = Ret (0, received) /\
    rrr_msg_check_data_checksum_and_length false received 20 = Ret (1, received).
Proof.
  intros h. apply (rrr_msg_corruption_detected false h [1; 2] 18 1 9);
    try reflexivity; try (vm_compute; congruence).
  - vm_compute. intuition congruence.
  - repeat constructor; vm_compute; congruence.
  - split; [discriminate|reflexivity].
Defined.

End MsgHead.
