(* ===== verification/MsgMsg.v ===== *)
(** The data message of RRR, with timestamp, type, class, topic and data
    (src/src/lib/messages/msg_msg.c and msg_msg_struct.h). *)
From S2P Require Import Prelude Types Utf8 Parse Crc32 MqttTopic MsgHead.

Module MsgMsg.
Import Types Utf8 Parse Crc32 MqttTopic MsgHead.

Definition timestamp : field := (18, 8)%nat.
Definition type_and_class : field := (26, 1)%nat.
Definition version : field := (27, 1)%nat.
Definition topic_length : field := (28, 2)%nat.
(** Offset of [data], and [sizeof(struct rrr_msg_msg)] with its [char data[1]]. *)
Definition DATA : Z := 30.
Definition sizeof_msg_msg : Z := 31.

Definition UINT32_MAX : Z := 0xffffffff.

Definition MSG_TYPE_MSG : Z := 1.
Definition MSG_TYPE_TAG : Z := 2.
Definition MSG_TYPE_GET : Z := 3.
Definition MSG_TYPE_PUT : Z := 4.
Definition MSG_TYPE_DEL : Z := 5.
Definition MSG_CLASS_DATA : Z := 1.
Definition MSG_CLASS_ARRAY : Z := 11.

(** [memcpy] of [src] into the object at [off]. *)
Definition memcpy_to (off : Z) (src buf : list Z) : outcome (list Z) :=
  _ ← bytes_at off (Z.of_nat (length src)) buf; Ret (splice (Z.to_nat off) src buf).

Section Host.
Context (big : bool).

Definition MSG_TYPE (message : list Z) : outcome Z :=
  tc ← get big type_and_class message; Ret (tc &&& 0x0f).
Definition MSG_CLASS (message : list Z) : outcome Z :=
  tc ← get big type_and_class message; Ret ((tc &&& 0xf0) >>> 4).
Definition MSG_SET_TYPE (message : list Z) (n : Z) : outcome (list Z) :=
  tc ← get big type_and_class message;
  set big type_and_class (u8 ((tc &&& 0xf0) ||| (n &&& 0x0f))) message.
Definition MSG_SET_CLASS (message : list Z) (n : Z) : outcome (list Z) :=
  tc ← get big type_and_class message;
  set big type_and_class (u8 ((tc &&& 0x0f) ||| (n <<< 4))) message.

Definition MSG_TOTAL_SIZE (message : list Z) : outcome Z := get big msg_size message.
Definition MSG_TOPIC_LENGTH (message : list Z) : outcome Z := get big topic_length message.
Definition MSG_DATA_LENGTH (message : list Z) : outcome Z :=
  size ← get big msg_size message;
  tl ← get big topic_length message;
  Ret (u32 (u32 (size - (sizeof_msg_msg - 1)) - tl)).

(** The topic, [MSG_TOPIC_LENGTH] bytes at [MSG_TOPIC_PTR]. *)
Definition topic_bytes (message : list Z) : outcome (list Z) :=
  tl ← MSG_TOPIC_LENGTH message; bytes_at DATA tl message.
(** The data, [MSG_DATA_LENGTH] bytes at [MSG_DATA_PTR]. *)
Definition data_bytes (message : list Z) : outcome (list Z) :=
  tl ← MSG_TOPIC_LENGTH message;
  dl ← MSG_DATA_LENGTH message;
  bytes_at (DATA + tl) dl message.

(** The status and [*final_result] ([None] when it is not set). *)
Definition rrr_msg_msg_new_empty (alloc_ok : bool)
    (type class time tlen data_length : Z) : outcome (Z * option (list Z)) :=
  let total_size := u64 (sizeof_msg_msg - 1 + tlen + data_length) in
  if UINT32_MAX <? total_size then Ret (1, None)
  else if negb alloc_ok then Ret (1, None)
  else
    let result := replicate (Z.to_nat total_size) 0 in
    result ← rrr_msg_populate_head big result RRR_MSG_TYPE_MESSAGE (u32 total_size) 0;
    result ← MSG_SET_TYPE result type;
    result ← MSG_SET_CLASS result class;
    result ← set big timestamp time result;
    result ← set big topic_length tlen result;
    Ret (0, Some result).

Definition rrr_msg_msg_new_array (alloc_ok : bool) (time tlen data_length : Z)
  : outcome (option (list Z)) :=
  '(ret, res) ← rrr_msg_msg_new_empty alloc_ok MSG_TYPE_MSG MSG_CLASS_ARRAY time tlen data_length;
  if negb (ret =? 0) then Ret None else Ret res.

(** [topic] and [data] are the objects the pointers refer to, [None] for NULL. *)
Definition rrr_msg_msg_new_with_data (alloc_ok : bool) (type class time : Z)
    (topic : option (list Z)) (tlen : Z) (data : option (list Z)) (data_length : Z)
  : outcome (Z * option (list Z)) :=
  '(ret, res) ← rrr_msg_msg_new_empty alloc_ok type class time tlen data_length;
  match res with
  | Some message =>
    if negb (ret =? 0) then Ret (1, Some message)
    else
      message ← (match topic with
        | Some topic =>
          if 0 <? tlen then src ← bytes_at 0 tlen topic; memcpy_to DATA src message
          else Ret message
        | None => Ret message
        end);
      message ← (match data with
        | Some data =>
          if 0 <? data_length then
            src ← bytes_at 0 data_length data;
            tl ← MSG_TOPIC_LENGTH message;
            memcpy_to (DATA + tl) src message
          else Ret message
        | None => Ret message
        end);
      Ret (0, Some message)
  | None => Ret (1, None)
  end.

Definition rrr_msg_msg_new_with_data_nullsafe_callback (alloc_ok : bool) (type class time : Z)
    (topic : option (list Z)) (tlen : Z) (str : option (list Z)) (len : Z)
  : outcome (Z * option (list Z)) :=
  if UINT32_MAX <? len then Ret (1, None)
  else rrr_msg_msg_new_with_data alloc_ok type class time topic tlen str (u32 len).

Definition MSG_CLASS_OK (class : Z) : bool :=
  (class =? MSG_CLASS_DATA) || (class =? MSG_CLASS_ARRAY).
Definition MSG_TYPE_OK (type : Z) : bool := (MSG_TYPE_MSG <=? type) && (type <=? MSG_TYPE_DEL).

Definition message_validate (message : list Z) : outcome Z :=
  size ← get big msg_size message;
  total ← MSG_TOTAL_SIZE message;
  if (size <? sizeof_msg_msg - 1) || negb (total =? size) then Ret 1
  else
    class ← MSG_CLASS message;
    let ret := if negb (MSG_CLASS_OK class) then 1 else 0 in
    type ← MSG_TYPE message;
    let ret := if negb (MSG_TYPE_OK type) then 1 else ret in
    topic ← topic_bytes message;
    Ret (if negb (rrr_utf8_validate topic =? 0) then 1 else ret).

Definition rrr_msg_msg_to_host_and_verify (message : list Z) (expected_size : Z)
  : outcome (Z * list Z) :=
  if expected_size <? sizeof_msg_msg - 1 then Ret (1, message)
  else
    message ← convert big (rrr_be64toh big) timestamp message;
    message ← convert big (rrr_be16toh big) topic_length message;
    total ← MSG_TOTAL_SIZE message;
    if negb (total =? expected_size) then Ret (1, message)
    else ret ← message_validate message; Ret (ret, message).

Definition rrr_msg_msg_prepare_for_network (message : list Z) : outcome (list Z) :=
  message ← convert big (rrr_htobe64 big) timestamp message;
  convert big (rrr_htobe16 big) topic_length message.

Definition rrr_msg_msg_duplicate_no_data_with_size (alloc_ok : bool) (message : list Z)
    (tlen data_length : Z) : outcome (option (list Z)) :=
  let new_total_size := sizeof_msg_msg - 1 + tlen + data_length in
  if UINT32_MAX <? new_total_size then Bug
  else if negb alloc_ok then Ret None
  else
    src ← bytes_at 0 (sizeof_msg_msg - 2) message;
    ret ← memcpy_to 0 src (replicate (Z.to_nat new_total_size) 0);
    ret ← set big topic_length tlen ret;
    ret ← set big msg_size (u32 new_total_size) ret;
    Ret (Some ret).

Definition rrr_msg_msg_duplicate (alloc_ok : bool) (message : list Z)
  : outcome (option (list Z)) :=
  total ← MSG_TOTAL_SIZE message;
  if negb alloc_ok then Ret None
  else src ← bytes_at 0 total message; Ret (Some src).

(** [ret->msg_size] is written when the object has it. *)
Definition rrr_msg_msg_duplicate_no_data (alloc_ok : bool) (message : list Z)
  : outcome (option (list Z)) :=
  tl ← MSG_TOPIC_LENGTH message;
  let new_size := u32 (sizeof_msg_msg - 1 + tl) in
  if negb alloc_ok then Ret None
  else
    src ← bytes_at 0 new_size message;
    ret ← set big msg_size new_size src;
    Ret (Some ret).

(** The status and the new [*message]. *)
Definition rrr_msg_msg_topic_set (alloc_ok : bool) (message topic : list Z) (topic_len : Z)
  : outcome (Z * list Z) :=
  dl ← MSG_DATA_LENGTH message;
  dup ← rrr_msg_msg_duplicate_no_data_with_size alloc_ok message topic_len dl;
  match dup with
  | None => Ret (1, message)
  | Some ret =>
    src ← bytes_at 0 topic_len topic;
    ret ← memcpy_to DATA src ret;
    data ← data_bytes message;
    tl ← MSG_TOPIC_LENGTH ret;
    ret ← memcpy_to (DATA + tl) data ret;
    Ret (0, ret)
  end.

(** The status, the new string with its terminator, and its length. *)
Definition rrr_msg_msg_topic_and_length_get (alloc_ok : bool) (message : list Z)
  : outcome (Z * option (list Z) * Z) :=
  tl ← MSG_TOPIC_LENGTH message;
  if negb alloc_ok then Ret (1, None, 0)
  else topic ← bytes_at DATA tl message; Ret (0, Some (topic ++ [0]), tl).

(** [topic] is a C string. *)
Definition rrr_msg_msg_topic_equals (message topic : list Z) : outcome Z :=
  len_a ← MSG_TOPIC_LENGTH message;
  let len_b := Z.of_nat (length topic) in
  if negb (len_a =? len_b) then Ret 0
  else if len_a =? 0 then Ret 1
  else
    mine ← bytes_at DATA len_a message;
    Ret (if bool_decide (mine = topic) then 1 else 0).

(** The status and [*does_match]. *)
Definition rrr_msg_msg_topic_match (alloc : nat -> bool) (message : list Z)
    (filter_first_token : list (list Z)) : outcome (Z * Z) :=
  topic ← topic_bytes message;
  valid ← rrr_mqtt_topic_validate_name_with_end topic;
  if negb (valid =? 0) then Ret (0, 0)
  else
    let '(ret, entry_first_token) := rrr_mqtt_topic_tokenize_with_end alloc topic in
    if negb (ret =? 0) then Ret (1, 0)
    else
      res ← rrr_mqtt_topic_match_tokens_recursively filter_first_token entry_first_token;
      Ret (0, if res =? RRR_MQTT_TOKEN_MATCH then 1 else 0).

(** [time] is the clock. *)
Definition rrr_msg_msg_ttl_ok (time : Z) (msg : list Z) (ttl : Z) : outcome Z :=
  if time <? ttl then Ret 1
  else
    stamp ← get big timestamp msg;
    if stamp <? u64 (time - ttl) then Ret 0 else Ret 1.

End Host.

(** * Layout of the second part of the header *)

Definition body (ts tc vr tl payload : list Z) : list Z := ts ++ tc ++ vr ++ tl ++ payload.

Definition body_ok (ts tc vr tl : list Z) : Prop :=
  length ts = 8%nat /\ length tc = 1%nat /\ length vr = 1%nat /\ length tl = 2%nat.

Section Body.
Context (big : bool) (crc size type value dcrc ts tc vr tl payload : list Z).
Context (Hh : fields_ok crc size type value dcrc) (Hb : body_ok ts tc vr tl).
Abbreviation message := (layout crc size type value dcrc (body ts tc vr tl payload)).

Lemma message_split :
  message = (crc ++ size ++ type ++ value ++ dcrc) ++ body ts tc vr tl payload.
Proof. unfold layout. by rewrite <- !app_assoc. Qed.

Lemma length_head18 : length (crc ++ size ++ type ++ value ++ dcrc) = 18%nat.
Proof using Hh. destruct Hh as (? & ? & ? & ? & ?). rewrite !length_app. lia. Qed.

Ltac split_body :=
  rewrite message_split; pose proof length_head18 as Hl; destruct Hb as (? & ? & ? & ?);
  unfold body, timestamp, type_and_class, version, topic_length.
Ltac lens := rewrite ?length_app in *; lia.

Lemma get_ts : get big timestamp message = Ret (host_dec big ts).
Proof using Hh Hb. split_body. by apply get_app. Qed.

Lemma get_tc : get big type_and_class message = Ret (host_dec big tc).
Proof using Hh Hb. split_body. rewrite (app_assoc _ ts). apply get_app; lens. Qed.

Lemma get_vr : get big version message = Ret (host_dec big vr).
Proof using Hh Hb.
  split_body. rewrite (app_assoc ts), (app_assoc (crc ++ _)). apply get_app; lens.
Qed.

Lemma get_tl : get big topic_length message = Ret (host_dec big tl).
Proof using Hh Hb.
  split_body. rewrite (app_assoc tc vr), (app_assoc ts), (app_assoc (crc ++ _)).
  apply get_app; lens.
Qed.

Lemma set_ts v :
  set big timestamp v message
  = Ret (layout crc size type value dcrc (body (host_enc big 8 v) tc vr tl payload)).
Proof using Hh Hb.
  split_body. rewrite set_app by done. unfold layout. by rewrite <- !app_assoc.
Qed.

Lemma set_tc v :
  set big type_and_class v message
  = Ret (layout crc size type value dcrc (body ts (host_enc big 1 v) vr tl payload)).
Proof using Hh Hb.
  split_body. rewrite (app_assoc _ ts), set_app by lens. unfold layout. by rewrite <- !app_assoc.
Qed.

Lemma set_vr v :
  set big version v message
  = Ret (layout crc size type value dcrc (body ts tc (host_enc big 1 v) tl payload)).
Proof using Hh Hb.
  split_body. rewrite (app_assoc ts), (app_assoc (crc ++ _)), set_app by lens.
  unfold layout. by rewrite <- !app_assoc.
Qed.

Lemma set_tl v :
  set big topic_length v message
  = Ret (layout crc size type value dcrc (body ts tc vr (host_enc big 2 v) payload)).
Proof using Hh Hb.
  split_body. rewrite (app_assoc tc vr), (app_assoc ts), (app_assoc (crc ++ _)), set_app by lens.
  unfold layout. by rewrite <- !app_assoc.
Qed.

(** The 30 bytes before the topic. *)
Definition head30 : list Z := (crc ++ size ++ type ++ value ++ dcrc) ++ ts ++ tc ++ vr ++ tl.

Lemma message_head30 : message = head30 ++ payload.
Proof. unfold head30, layout, body. by rewrite <- !app_assoc. Qed.

Lemma length_head30 : length head30 = 30%nat.
Proof using Hh Hb.
  unfold head30. rewrite length_app, length_head18. destruct Hb as (? & ? & ? & ?).
  rewrite !length_app. lia.
Qed.

End Body.

Ltac fields2 :=
  unfold fields_ok, body_ok; rewrite ?length_host_enc, ?length_be_enc, ?length_replicate; done.
Ltac run_message :=
  repeat first [rewrite get_ts by fields2 | rewrite get_tc by fields2 | rewrite get_tl by fields2
    | rewrite set_ts by fields2 | rewrite set_tc by fields2 | rewrite set_tl by fields2
    | rewrite get_vr by fields2 | rewrite set_vr by fields2
    | rewrite get_size by fields2 | rewrite set_size by fields2 | rewrite set_type by fields2
    | rewrite set_value by fields2
    | rewrite bind_ret | rewrite host_dec_enc by width | rewrite to_be_host_dec by width
    | rewrite host_enc_to_be].

(** * Messages as records *)

Record rrr_msg_msg := mk_mm {
  mm_head : rrr_msg;
  mm_timestamp : Z;
  mm_type_and_class : Z;
  mm_version : Z;
  mm_topic : list Z;
  mm_data : list Z
}.

Definition topic_len (m : rrr_msg_msg) : Z := Z.of_nat (length (mm_topic m)).
Definition data_len (m : rrr_msg_msg) : Z := Z.of_nat (length (mm_data m)).

Record mm_ok (m : rrr_msg_msg) : Prop := {
  ok_head : msg_ok (mm_head m);
  ok_size : h_size (mm_head m) = 30 + topic_len m + data_len m;
  ok_time : 0 <= mm_timestamp m < 2 ^ 64;
  ok_tc : byte_ok (mm_type_and_class m);
  ok_version : byte_ok (mm_version m);
  ok_topic_len : topic_len m < 2 ^ 16;
  ok_topic : bytes_ok (mm_topic m);
  ok_data : bytes_ok (mm_data m)
}.

(** The object in memory of a host. *)
Definition mm_body (enc : nat -> Z -> list Z) (m : rrr_msg_msg) : list Z :=
  body (enc 8%nat (mm_timestamp m)) (enc 1%nat (mm_type_and_class m)) (enc 1%nat (mm_version m))
    (enc 2%nat (topic_len m)) (mm_topic m ++ mm_data m).
Definition mm_bytes (big : bool) (m : rrr_msg_msg) : list Z :=
  msg_bytes big (mm_head m) (mm_body (host_enc big) m).

Lemma mm_bytes_head30 big m :
  exists head, length head = 30%nat /\ mm_bytes big m = head ++ mm_topic m ++ mm_data m.
Proof.
  eexists. split; [|unfold mm_bytes, mm_body, msg_bytes; by rewrite message_head30].
  apply length_head30; fields2.
Qed.

Section Read.
Context (big : bool) (m : rrr_msg_msg) (Hm : mm_ok m).

Ltac message_ranges :=
  destruct Hm as [(? & ? & ? & ? & ?) ? ? [? ?] [? ?] ? ? ?];
  assert (0 <= topic_len m) by apply Nat2Z.is_nonneg; assert (0 <= data_len m) by apply Nat2Z.is_nonneg;
  unfold mm_bytes, mm_body, msg_bytes.

Lemma mm_get_size : get big msg_size (mm_bytes big m) = Ret (h_size (mm_head m)).
Proof using Hm. message_ranges. by run_message. Qed.

Lemma mm_get_ts : get big timestamp (mm_bytes big m) = Ret (mm_timestamp m).
Proof using Hm. message_ranges. by run_message. Qed.

Lemma mm_get_tc : get big type_and_class (mm_bytes big m) = Ret (mm_type_and_class m).
Proof using Hm. message_ranges. by run_message. Qed.

Lemma mm_get_version : get big version (mm_bytes big m) = Ret (mm_version m).
Proof using Hm. message_ranges. by run_message. Qed.

Lemma mm_get_tl : get big topic_length (mm_bytes big m) = Ret (topic_len m).
Proof using Hm. message_ranges. by run_message. Qed.

Lemma mm_data_length : MSG_DATA_LENGTH big (mm_bytes big m) = Ret (data_len m).
Proof using Hm.
  unfold MSG_DATA_LENGTH. rewrite mm_get_size, mm_get_tl, !bind_ret. message_ranges.
  unfold sizeof_msg_msg. rewrite (wrap_small 32 (_ - (31 - 1))) by lia.
  rewrite wrap_small by lia. f_equal. lia.
Qed.

Lemma mm_topic_bytes : topic_bytes big (mm_bytes big m) = Ret (mm_topic m).
Proof using Hm.
  unfold topic_bytes, MSG_TOPIC_LENGTH. rewrite mm_get_tl, bind_ret.
  destruct (mm_bytes_head30 big m) as (head & Hl & ->). by apply (bytes_at_app head _ _ 30).
Qed.

Lemma mm_data_bytes : data_bytes big (mm_bytes big m) = Ret (mm_data m).
Proof using Hm.
  unfold data_bytes, MSG_TOPIC_LENGTH. rewrite mm_get_tl, bind_ret, mm_data_length, bind_ret.
  destruct (mm_bytes_head30 big m) as (head & Hl & ->).
  rewrite app_assoc, <- (app_nil_r (mm_data m)) at 1. unfold DATA, topic_len, data_len.
  replace (30 + Z.of_nat (length (mm_topic m)))
    with (Z.of_nat (30 + length (mm_topic m))) by lia.
  apply bytes_at_app; [rewrite length_app; lia|done].
Qed.

End Read.

(** * New messages *)

Definition new_message (type class time : Z) (topic data : list Z) : rrr_msg_msg :=
  mk_mm (mk_msg 0 (30 + Z.of_nat (length topic) + Z.of_nat (length data)) RRR_MSG_TYPE_MESSAGE 0 0)
    time (type + 16 * class) 0 topic data.

Lemma host_enc_zero big n : host_enc big n 0 = replicate n 0.
Proof.
  unfold host_enc, be_enc.
  assert (le_enc n 0 = replicate n 0) as ->.
  { induction n as [|n IH]; [done|]. cbn [le_enc replicate]. by f_equal. }
  destruct big; [|done]. induction n as [|n IH]; simpl; [done|].
  by rewrite IH, <- replicate_cons_app.
Qed.

Lemma zero_message big n :
  replicate (30 + n) 0
  = layout (host_enc big 4 0) (host_enc big 4 0) (host_enc big 2 0) (host_enc big 4 0)
      (host_enc big 4 0)
      (body (host_enc big 8 0) (host_enc big 1 0) (host_enc big 1 0) (host_enc big 2 0)
        (replicate n 0)).
Proof. rewrite !host_enc_zero. reflexivity. Qed.

Lemma type_class_value type class :
  0 <= type < 16 -> 0 <= class < 16 ->
  u8 ((u8 ((0 &&& 0xf0) ||| (type &&& 0x0f)) &&& 0x0f) ||| (class <<< 4)) = type + 16 * class.
Proof.
  intros Ht Hc. rewrite Z.land_0_l, Z.lor_0_l, !(land_low_bits 4) by (done || lia).
  rewrite (Z.mod_small type) by lia. rewrite (wrap_small 8 type), (Z.mod_small type) by lia.
  rewrite Z.lor_comm, lor_shiftl_add by lia. rewrite wrap_small; lia.
Qed.

(** The message with other bytes for topic and data. *)
Definition with_payload (m : rrr_msg_msg) (t d : list Z) : rrr_msg_msg :=
  mk_mm (mm_head m) (mm_timestamp m) (mm_type_and_class m) (mm_version m) t d.

(** Of the same lengths, only the payload in memory changes. *)
Lemma payload_head big m :
  exists head, length head = 30%nat /\
    forall t d, length t = length (mm_topic m) -> length d = length (mm_data m) ->
      mm_bytes big (with_payload m t d) = head ++ t ++ d.
Proof.
  eexists. split; [|intros t d Ht Hd; unfold mm_bytes, mm_body, msg_bytes; rewrite message_head30;
    unfold with_payload, topic_len; cbn [mm_head mm_timestamp mm_type_and_class mm_version mm_topic
      mm_data]; rewrite Ht; reflexivity].
  apply length_head30; fields2.
Qed.

Lemma with_payload_ok m t d :
  mm_ok m -> length t = length (mm_topic m) -> length d = length (mm_data m) ->
  bytes_ok t -> bytes_ok d -> mm_ok (with_payload m t d).
Proof.
  intros [] Ht Hd ? ?. constructor; unfold topic_len, data_len in *; simpl; rewrite ?Ht, ?Hd; done.
Qed.

Lemma memcpy_app pre mid post src off :
  off = Z.of_nat (length pre) -> length mid = length src ->
  memcpy_to off src (pre ++ mid ++ post) = Ret (pre ++ src ++ post).
Proof.
  intros -> Hl. unfold memcpy_to. rewrite bytes_at_app, bind_ret by done. unfold splice.
  rewrite Nat2Z.id, take_app_length. do 3 f_equal.
  rewrite <- Hl, <- length_app, app_assoc. apply drop_app_length.
Qed.

Lemma bytes_at_concat (fs : list (list Z)) (i : nat) f off n :
  fs !! i = Some f -> off = Z.of_nat (length (concat (take i fs))) -> n = Z.of_nat (length f) ->
  bytes_at off n (concat fs) = Ret f.
Proof. intros H -> ->. rewrite (concat_field fs i f H). by apply bytes_at_app. Qed.

(** A copy to offset [k] of one of the fields. *)
Lemma memcpy_concat (fs : list (list Z)) (i k : nat) f src off :
  fs !! i = Some f -> off = Z.of_nat (length (concat (take i fs)) + k) ->
  (k + length src <= length f)%nat ->
  memcpy_to off src (concat fs) = Ret (concat (<[i := splice k src f]> fs)).
Proof.
  intros H -> Hl. rewrite (concat_field fs i f H).
  rewrite insert_take_drop by (by eapply lookup_lt_Some). rewrite concat_app. cbn [concat].
  rewrite <- (take_drop k f) at 1. rewrite <- (take_drop (length src) (drop k f)) at 1.
  rewrite drop_drop, <- !app_assoc, (app_assoc (concat (take i fs))).
  rewrite memcpy_app.
  - unfold splice. by rewrite <- !app_assoc.
  - rewrite length_app, length_take. lia.
  - rewrite length_take, length_drop. lia.
Qed.

Lemma splice_all src (l : list Z) : length src = length l -> splice 0 src l = src.
Proof. intros H. unfold splice. rewrite drop_ge by (simpl; lia). simpl. apply app_nil_r. Qed.

Lemma concat_zeros ns : concat ((fun n => replicate n 0) <$> ns) = replicate (sum_list ns) 0.
Proof.
  induction ns as [|n ns IH]; [done|].
  rewrite fmap_cons. cbn [concat]. by rewrite IH, <- replicate_add.
Qed.

Lemma bytes_at_0_app (l rest : list Z) :
  bytes_at 0 (Z.of_nat (length l)) (l ++ rest) = Ret l.
Proof. by apply (bytes_at_app [] l rest 0). Qed.

Lemma zeros_bytes n : bytes_ok (replicate n 0).
Proof. apply Forall_replicate. split; [lia|reflexivity]. Qed.

Section New.
Context (big : bool) (type class time : Z) (topic data : list Z).
Context (Htype : 0 <= type < 16) (Hclass : 0 <= class < 16) (Htime : 0 <= time < 2 ^ 64).
Context (Htlen : Z.of_nat (length topic) < 2 ^ 16) (Hdlen : Z.of_nat (length data) < 2 ^ 32).
Let total := 30 + Z.of_nat (length topic) + Z.of_nat (length data).

Lemma new_empty_spec alloc_ok :
  rrr_msg_msg_new_empty big alloc_ok type class time (Z.of_nat (length topic))
    (Z.of_nat (length data))
  = if (total <=? UINT32_MAX) && alloc_ok then
      Ret (0, Some (mm_bytes big (new_message type class time
        (replicate (length topic) 0) (replicate (length data) 0))))
    else Ret (1, None).
Proof using Htype Hclass Htime Htlen Hdlen.
  unfold rrr_msg_msg_new_empty, sizeof_msg_msg. change (31 - 1) with 30. fold total.
  assert (0 <= total < 2 ^ 64) by (unfold total; lia). rewrite (wrap_small 64) by done.
  destruct (Z.ltb_spec UINT32_MAX total), (Z.leb_spec total UINT32_MAX); try lia; [done|].
  destruct alloc_ok; cbn [negb andb]; [|done]. unfold UINT32_MAX in *.
  rewrite (wrap_small 32) by lia. unfold rrr_msg_populate_head, sizeof_msg.
  rewrite (proj2 (Z.ltb_ge _ _)) by (unfold total; lia).
  replace (Z.to_nat total) with (30 + (length topic + length data))%nat by (unfold total; lia).
  rewrite (zero_message big). unfold MSG_SET_TYPE, MSG_SET_CLASS.
  run_message. rewrite host_dec_enc by (apply wrap_range; lia). run_message.
  rewrite type_class_value by done.
  unfold mm_bytes, mm_body, msg_bytes, new_message, topic_len.
  cbn [mm_head mm_timestamp mm_type_and_class mm_version mm_topic mm_data h_crc h_size h_type h_value h_data_crc].
  rewrite !length_replicate, <- replicate_add. done.
Qed.

Lemma new_message_head :
  exists head, length head = 30%nat /\
    forall t d, length t = length topic -> length d = length data ->
      mm_bytes big (new_message type class time t d) = head ++ t ++ d.
Proof.
  destruct (payload_head big (new_message type class time topic data)) as (head & Hl & E).
  exists head. split; [done|]. intros t d Ht Hd. rewrite <- (E t d Ht Hd).
  unfold new_message, with_payload. simpl. by rewrite Ht, Hd.
Qed.

Lemma new_message_ok t d :
  length t = length topic -> length d = length data -> bytes_ok t -> bytes_ok d ->
  total <= UINT32_MAX -> mm_ok (new_message type class time t d).
Proof using Htype Hclass Htime Htlen.
  unfold total, UINT32_MAX. intros Ht Hd ? ? ?.
  constructor; unfold topic_len, data_len, byte_ok; simpl; rewrite ?Ht, ?Hd; try done; try lia.
  unfold msg_ok. simpl. unfold RRR_MSG_TYPE_MESSAGE. lia.
Qed.

Lemma copy_topic_spec (rest d : list Z) message :
  length d = length data -> message = mm_bytes big (new_message type class time (replicate (length topic) 0) d) ->
  (if 0 <? Z.of_nat (length topic) then
     src ← bytes_at 0 (Z.of_nat (length topic)) (topic ++ rest); memcpy_to DATA src message
   else Ret message)
  = Ret (mm_bytes big (new_message type class time topic d)).
Proof using Htlen.
  intros Hd ->. destruct new_message_head as (head & Hl & E).
  rewrite !E by (rewrite ?length_replicate; done).
  destruct (Z.ltb_spec 0 (Z.of_nat (length topic))) as [Hpos|Hz].
  - rewrite bytes_at_0_app, bind_ret. apply memcpy_app; [by rewrite Hl|apply length_replicate].
  - assert (topic = []) as -> by (apply length_zero_iff_nil; lia). done.
Qed.

Lemma copy_data_spec (rest : list Z) message :
  bytes_ok topic -> total <= UINT32_MAX ->
  message = mm_bytes big (new_message type class time topic (replicate (length data) 0)) ->
  (if 0 <? Z.of_nat (length data) then
     src ← bytes_at 0 (Z.of_nat (length data)) (data ++ rest);
     tl ← MSG_TOPIC_LENGTH big message; memcpy_to (DATA + tl) src message
   else Ret message)
  = Ret (mm_bytes big (new_message type class time topic data)).
Proof using Htype Hclass Htime Htlen Hdlen.
  intros Ht Hmax ->. destruct (Z.ltb_spec 0 (Z.of_nat (length data))) as [Hpos|Hz].
  - rewrite bytes_at_0_app, bind_ret. unfold MSG_TOPIC_LENGTH.
    rewrite mm_get_tl, bind_ret
      by (apply new_message_ok; rewrite ?length_replicate; auto using zeros_bytes).
    destruct new_message_head as (head & Hl & E). rewrite !E by (rewrite ?length_replicate; done).
    rewrite !(app_assoc head), <- (app_nil_r (replicate (length data) 0)).
    rewrite memcpy_app; [by rewrite app_nil_r| |apply length_replicate].
    unfold topic_len, DATA. simpl. rewrite length_app. lia.
  - assert (data = []) as -> by (apply length_zero_iff_nil; lia). done.
Qed.
End New.

(** A new message has the size, type, class, timestamp, topic and data it
    was asked to have, in a header with cleared checksums; when its size does
    not fit in 32 bits or memory runs out there is an error and no message. *)
Lemma rrr_msg_msg_new_with_data_correct big alloc_ok type class time topic trest data drest :
  0 <= type < 16 -> 0 <= class < 16 -> 0 <= time < 2 ^ 64 ->
  Z.of_nat (length topic) < 2 ^ 16 -> Z.of_nat (length data) < 2 ^ 32 -> bytes_ok topic ->
  rrr_msg_msg_new_with_data big alloc_ok type class time
    (Some (topic ++ trest)) (Z.of_nat (length topic))
    (Some (data ++ drest)) (Z.of_nat (length data))
  = if (30 + Z.of_nat (length topic) + Z.of_nat (length data) <=? UINT32_MAX) && alloc_ok
    then Ret (0, Some (mm_bytes big (new_message type class time topic data)))
    else Ret (1, None).
Proof.
  intros Hty Hc Hti Htl Hdl Ht. unfold rrr_msg_msg_new_with_data.
  rewrite new_empty_spec by done.
  destruct (Z.leb_spec (30 + Z.of_nat (length topic) + Z.of_nat (length data)) UINT32_MAX),
    alloc_ok; cbn [andb]; rewrite bind_ret; try done.
  cbn [Z.eqb negb].
  rewrite (copy_topic_spec big type class time topic data Htl trest (replicate (length data) 0))
    by (rewrite ?length_replicate; done).
  rewrite bind_ret. by rewrite (copy_data_spec big type class time topic data).
Qed.

(** * Network form *)

Definition mm_type (m : rrr_msg_msg) : Z := mm_type_and_class m &&& 0x0f.
Definition mm_class (m : rrr_msg_msg) : Z := (mm_type_and_class m &&& 0xf0) >>> 4.

(** What a receiver demands beyond the sizes. *)
Definition acceptable (m : rrr_msg_msg) : bool :=
  MSG_CLASS_OK (mm_class m) && MSG_TYPE_OK (mm_type m) && (rrr_utf8_validate (mm_topic m) =? 0).

Definition mm_wire (big : bool) (m : rrr_msg_msg) : list Z :=
  msg_bytes big (mm_head m) (mm_body be_enc m).

Lemma host_enc_1 big v : host_enc big 1 v = be_enc 1 v.
Proof. by destruct big. Qed.

Section Network.
Context (big : bool) (m : rrr_msg_msg) (Hm : mm_ok m).

Ltac message_ranges :=
  destruct Hm as [(? & ? & ? & ? & ?) ? ? [? ?] [? ?] ? ? ?];
  assert (0 <= topic_len m) by apply Nat2Z.is_nonneg; assert (0 <= data_len m) by apply Nat2Z.is_nonneg;
  unfold mm_bytes, mm_wire, mm_body, msg_bytes.

Lemma prepare_for_network_spec :
  rrr_msg_msg_prepare_for_network big (mm_bytes big m) = Ret (mm_wire big m).
Proof using Hm.
  unfold rrr_msg_msg_prepare_for_network, convert, rrr_htobe64, rrr_htobe16. message_ranges.
  run_message. by rewrite !host_enc_1.
Qed.

Lemma validate_spec :
  message_validate big (mm_bytes big m) = Ret (if acceptable m then 0 else 1).
Proof using Hm.
  unfold message_validate, MSG_TOTAL_SIZE, MSG_CLASS, MSG_TYPE, sizeof_msg_msg, acceptable.
  rewrite mm_get_size, mm_get_tc, mm_topic_bytes by done. rewrite !bind_ret.
  rewrite Z.eqb_refl. cbn [negb]. rewrite orb_false_r, (proj2 (Z.ltb_ge _ _)).
  - fold (mm_class m) (mm_type m).
    by destruct (MSG_CLASS_OK _), (MSG_TYPE_OK _), (rrr_utf8_validate _ =? 0).
  - message_ranges. lia.
Qed.

Lemma to_host_and_verify_spec :
  rrr_msg_msg_to_host_and_verify big (mm_wire big m) (h_size (mm_head m))
  = Ret (if acceptable m then 0 else 1, mm_bytes big m).
Proof using Hm.
  unfold rrr_msg_msg_to_host_and_verify, sizeof_msg_msg.
  assert ((h_size (mm_head m) <? 31 - 1) = false) as -> by (message_ranges; apply Z.ltb_ge; lia).
  assert (convert big (rrr_be64toh big) timestamp (mm_wire big m)
    = Ret (msg_bytes big (mm_head m) (body (host_enc big 8 (mm_timestamp m))
        (be_enc 1 (mm_type_and_class m)) (be_enc 1 (mm_version m)) (be_enc 2 (topic_len m))
        (mm_topic m ++ mm_data m)))) as ->.
  { unfold convert, rrr_be64toh. message_ranges. by run_message. }
  rewrite bind_ret.
  assert (convert big (rrr_be16toh big) topic_length (msg_bytes big (mm_head m) (body
    (host_enc big 8 (mm_timestamp m)) (be_enc 1 (mm_type_and_class m)) (be_enc 1 (mm_version m))
    (be_enc 2 (topic_len m)) (mm_topic m ++ mm_data m))) = Ret (mm_bytes big m)) as ->.
  { unfold convert, rrr_be16toh. message_ranges. rewrite <- !(host_enc_1 big). by run_message. }
  rewrite bind_ret. unfold MSG_TOTAL_SIZE. rewrite mm_get_size, bind_ret, Z.eqb_refl by done.
  cbn [negb]. by rewrite validate_spec.
Qed.

End Network.

(** * Topics *)

(** The message with another topic. *)
Definition with_topic (m : rrr_msg_msg) (topic : list Z) : rrr_msg_msg :=
  let h := mm_head m in
  mk_mm (mk_msg (h_crc h) (30 + Z.of_nat (length topic) + data_len m) (h_type h) (h_value h)
           (h_data_crc h))
    (mm_timestamp m) (mm_type_and_class m) (mm_version m) topic (mm_data m).

Lemma with_topic_ok m topic :
  mm_ok m -> bytes_ok topic -> Z.of_nat (length topic) < 2 ^ 16 ->
  30 + Z.of_nat (length topic) + data_len m <= UINT32_MAX -> mm_ok (with_topic m topic).
Proof.
  unfold UINT32_MAX. intros [(? & ? & ? & ? & ?) ? ? ? ? ? ? ?] ? ? ?.
  constructor; unfold with_topic, topic_len, data_len, msg_ok in *; simpl; try done; lia.
Qed.

Definition zero_payload (m : rrr_msg_msg) : rrr_msg_msg :=
  with_payload m (replicate (length (mm_topic m)) 0) (replicate (length (mm_data m)) 0).

Lemma host_enc_2 big v : exists b b', host_enc big 2 v = [b; b'].
Proof. destruct big; simpl; eauto. Qed.

(** The copy takes 29 bytes: the header up to the first byte of the topic
    length, which is then overwritten. *)
Lemma duplicate_no_data_spec big m topic :
  Z.of_nat (length topic) < 2 ^ 16 ->
  30 + Z.of_nat (length topic) + data_len m <= UINT32_MAX ->
  rrr_msg_msg_duplicate_no_data_with_size big true (mm_bytes big m)
    (Z.of_nat (length topic)) (data_len m)
  = Ret (Some (mm_bytes big (zero_payload (with_topic m topic)))).
Proof.
  intros Ht Hmax. unfold rrr_msg_msg_duplicate_no_data_with_size, sizeof_msg_msg.
  change (31 - 1) with 30. change (31 - 2) with (Z.of_nat 29).
  assert (0 <= data_len m) by apply Nat2Z.is_nonneg.
  rewrite (proj2 (Z.ltb_ge _ _)) by done. cbn [negb].
  destruct (host_enc_2 big (topic_len m)) as (b & b' & Etl).
  set (src := (host_enc big 4 (h_crc (mm_head m)) ++ host_enc big 4 (h_size (mm_head m)) ++
    host_enc big 2 (h_type (mm_head m)) ++ host_enc big 4 (h_value (mm_head m)) ++
    host_enc big 4 (h_data_crc (mm_head m)) ++ host_enc big 8 (mm_timestamp m) ++
    host_enc big 1 (mm_type_and_class m) ++ host_enc big 1 (mm_version m) ++ [b])).
  assert (length src = 29%nat) as Hsrc by (unfold src; rewrite !length_app, !length_host_enc; done).
  assert (mm_bytes big m = [] ++ src ++ b' :: mm_topic m ++ mm_data m) as ->.
  { unfold mm_bytes, mm_body, msg_bytes, layout, body, src. rewrite Etl.
    rewrite <- !app_assoc. reflexivity. }
  rewrite (bytes_at_app [] src _ 0 29) by done. rewrite bind_ret.
  replace (Z.to_nat (30 + Z.of_nat (length topic) + data_len m))
    with (29 + (1 + (length topic + length (mm_data m))))%nat by (unfold data_len; lia).
  rewrite replicate_add. change (memcpy_to 0 src (?a ++ ?b)) with (memcpy_to 0 src ([] ++ a ++ b)).
  rewrite (memcpy_app [] (replicate 29 0)) by (rewrite ?length_replicate; done). rewrite bind_ret.
  assert ([] ++ src ++ replicate (1 + (length topic + length (mm_data m))) 0
    = layout (host_enc big 4 (h_crc (mm_head m))) (host_enc big 4 (h_size (mm_head m)))
        (host_enc big 2 (h_type (mm_head m))) (host_enc big 4 (h_value (mm_head m)))
        (host_enc big 4 (h_data_crc (mm_head m)))
        (body (host_enc big 8 (mm_timestamp m)) (host_enc big 1 (mm_type_and_class m))
          (host_enc big 1 (mm_version m)) [b; 0] (replicate (length topic + length (mm_data m)) 0)))
    as ->.
  { unfold src, layout, body. rewrite <- !app_assoc. reflexivity. }
  run_message. unfold UINT32_MAX in *. rewrite (wrap_small 32) by lia.
  unfold mm_bytes, mm_body, msg_bytes, zero_payload, with_payload, with_topic, topic_len.
  cbn [mm_head mm_timestamp mm_type_and_class mm_version mm_topic mm_data h_crc h_size h_type h_value h_data_crc].
  by rewrite length_replicate, <- replicate_add.
Qed.

(** Setting a topic changes the topic, its length and the size of the
    message, and nothing else: the data are moved to their new place.  When
    there is no memory the message is unchanged; when the new size does not fit
    in 32 bits the process stops. *)
Lemma rrr_msg_msg_topic_set_correct big alloc_ok m topic rest :
  mm_ok m -> bytes_ok topic -> Z.of_nat (length topic) < 2 ^ 16 ->
  rrr_msg_msg_topic_set big alloc_ok (mm_bytes big m) (topic ++ rest) (Z.of_nat (length topic))
  = if 30 + Z.of_nat (length topic) + data_len m <=? UINT32_MAX then
      if alloc_ok then Ret (0, mm_bytes big (with_topic m topic)) else Ret (1, mm_bytes big m)
    else Bug.
Proof.
  intros Hm Ht Hl. unfold rrr_msg_msg_topic_set. rewrite mm_data_length, bind_ret by done.
  destruct (Z.leb_spec (30 + Z.of_nat (length topic) + data_len m) UINT32_MAX) as [Hmax|Hmax].
  2: { unfold rrr_msg_msg_duplicate_no_data_with_size, sizeof_msg_msg. change (31 - 1) with 30.
       by rewrite (proj2 (Z.ltb_lt _ _) Hmax). }
  destruct alloc_ok.
  2: { unfold rrr_msg_msg_duplicate_no_data_with_size, sizeof_msg_msg. change (31 - 1) with 30.
       by rewrite (proj2 (Z.ltb_ge _ _) Hmax). }
  rewrite duplicate_no_data_spec, !bind_ret by done. rewrite bytes_at_0_app, bind_ret.
  set (m' := with_topic m topic). destruct (payload_head big m') as (head & Hh & E).
  pose proof (with_topic_ok m topic Hm Ht Hl Hmax) as Hm'. unfold zero_payload.
  rewrite (E (replicate _ _) (replicate _ _)) by apply length_replicate.
  rewrite memcpy_app by (by rewrite ?Hh, ?length_replicate). rewrite bind_ret.
  rewrite mm_data_bytes, bind_ret by done. rewrite <- (E topic) by (done || apply length_replicate).
  unfold MSG_TOPIC_LENGTH. rewrite mm_get_tl, bind_ret
    by (apply with_payload_ok; rewrite ?length_replicate; auto using zeros_bytes).
  rewrite (E topic) by (done || apply length_replicate).
  rewrite app_assoc, <- (app_nil_r (replicate (length (mm_data m')) 0)).
  rewrite memcpy_app by (rewrite ?length_replicate, ?length_app, ?Hh; unfold DATA, topic_len; simpl; (done || lia)).
  rewrite bind_ret, app_nil_r, <- app_assoc, <- (E topic) by done. by destruct m.
Qed.

(** Matching a message against a filter succeeds (as long as there is
    memory), and reports a match exactly when the topic of the message is a
    valid topic name and the filter matches it level by level. *)
Lemma rrr_msg_msg_topic_match_correct big alloc m filter :
  mm_ok m -> 0 ∉ mm_topic m -> valid_filter filter -> filter <> [] ->
  (forall n, alloc n = true) ->
  exists does_match,
    rrr_msg_msg_topic_match big alloc (mm_bytes big m) filter = Ret (0, does_match) /\
    (does_match = 1 <->
     mm_topic m <> [] /\
     (exists cps, text cps /\ mm_topic m = utf8_encode_all cps /\ plain cps) /\
     filter_matches filter (levels (mm_topic m)) = true).
Proof.
  intros Hm Hz Hv Hne Ha. unfold rrr_msg_msg_topic_match. rewrite mm_topic_bytes, bind_ret by done.
  destruct (validate_name_with_end_spec (mm_topic m)) as (valid & -> & Hiff).
  { apply Hm. } { done. }
  { pose proof (ok_topic_len m Hm). unfold topic_len, RRR_LENGTH_MAX in *. lia. }
  rewrite bind_ret. destruct (Z.eqb_spec valid 0) as [->|Hbad]; cbn [negb].
  - destruct (proj1 Hiff eq_refl) as [Hnil Htext].
    rewrite tokenize_spec, allocs_true by done. cbn [Z.eqb negb].
    rewrite match_tokens_spec by done. unfold match_result. rewrite bind_ret.
    destruct (filter_matches filter (levels (mm_topic m))); eexists; (split; [done|]).
    + by split.
    + split; [done|]. by intros (_ & _ & ?).
  - exists 0. split; [done|]. split; [done|]. intros (? & ? & _). exfalso. apply Hbad, Hiff. done.
Qed.

Lemma topic_equals_spec big m topic :
  mm_ok m -> rrr_msg_msg_topic_equals big (mm_bytes big m) topic
             = Ret (if bool_decide (mm_topic m = topic) then 1 else 0).
Proof.
  intros Hm. pose proof (mm_topic_bytes big m Hm) as Ht.
  unfold rrr_msg_msg_topic_equals, topic_bytes, MSG_TOPIC_LENGTH in *.
  rewrite mm_get_tl, bind_ret in Ht by done. rewrite mm_get_tl, bind_ret by done.
  unfold topic_len in *.
  destruct (Z.eqb_spec (Z.of_nat (length (mm_topic m))) (Z.of_nat (length topic))) as [E|E]; cbn [negb].
  - destruct (Z.eqb_spec (Z.of_nat (length (mm_topic m))) 0) as [E0|E0].
    + rewrite bool_decide_true; [done|]. transitivity ([] : list Z); [|symmetry];
        apply length_zero_iff_nil; lia.
    + by rewrite Ht.
  - rewrite bool_decide_false; [done|]. congruence.
Qed.

(** The validation does not compare the topic length with the size of the
    message: a 30-byte message that states a topic of 5 bytes has it read from
    beyond the message. *)
Lemma message_validate_topic_overread :
  message_validate false
    (layout [0; 0; 0; 0] [30; 0; 0; 0] [2; 0] [0; 0; 0; 0] [0; 0; 0; 0]
      (body (replicate 8 0) [17] [0] [5; 0] [])) = Oob.
Proof. vm_compute. reflexivity. Qed.

End MsgMsg.
