(* ===== verification/MsgLog.v ===== *)
(** Address and log messages (src/src/lib/messages/msg_addr.c, msg_addr.h,
    msg_log.c and msg_log.h). *)
From S2P Require Import Prelude Types Parse MsgHead MsgMsg.

Module MsgLog.
Import Types Parse MsgHead MsgMsg.

(** * Address messages *)

(** [sizeof(struct rrr_msg_addr)] and of its [addr]. *)
Definition sizeof_addr_msg : Z := 147.
Definition sizeof_addr : Z := 128.

(** * Log messages *)

Definition FILE : Z := 18.
Definition line : field := (146, 4)%nat.
Definition is_stdout : field := (150, 1)%nat.
Definition loglevel_translated : field := (151, 1)%nat.
Definition loglevel_orig : field := (152, 1)%nat.
Definition prefix_size : field := (153, 2)%nat.
(** Offset of [prefix_and_message] and [sizeof(struct rrr_msg_log)]. *)
Definition PREFIX_AND_MESSAGE : Z := 155.
Definition sizeof_log : Z := 156.
Definition sizeof_file : Z := 128.

Definition RRR_MSG_LOG_MESSAGE_MAX : Z := 65536.

(** [strncpy] into an array of [n] bytes. *)
Definition strncpy (n : nat) (src : list Z) : list Z := take n (src ++ replicate n 0).

Section Host.
Context (big : bool).

Definition RRR_MSG_ADDR_SIZE_OK (msg : list Z) : outcome bool :=
  size ← get big msg_size msg; Ret (sizeof_addr_msg - sizeof_addr <=? size).

Definition rrr_msg_addr_to_host (msg : list Z) : outcome Z :=
  ok ← RRR_MSG_ADDR_SIZE_OK msg; Ret (if negb ok then 1 else 0).

Definition RRR_MSG_ADDR_GET_ADDR_LEN (msg : list Z) : outcome Z :=
  size ← get big msg_size msg;
  Ret (if size =? 0 then 0 else u64 (size - sizeof_addr_msg + sizeof_addr)).

Definition rrr_msg_addr_init_head (target : list Z) (addr_len : Z) : outcome (list Z) :=
  target ← rrr_msg_populate_head big target RRR_MSG_TYPE_MESSAGE_ADDR sizeof_addr_msg 0;
  set big msg_size (u32 (sizeof_addr_msg - sizeof_addr + addr_len)) target.

(** [target] is overwritten by zeros first. *)
Definition rrr_msg_addr_init : outcome (list Z) :=
  rrr_msg_addr_init_head (replicate (Z.to_nat sizeof_addr_msg) 0) 0.

Definition rrr_msg_addr_new (alloc_ok : bool) : outcome (Z * option (list Z)) :=
  if negb alloc_ok then Ret (1, None)
  else result ← rrr_msg_addr_init; Ret (0, Some result).

Definition rrr_msg_addr_clone (alloc_ok : bool) (source : list Z)
  : outcome (Z * option (list Z)) :=
  '(ret, new_message) ← rrr_msg_addr_new alloc_ok;
  match new_message with
  | None => Ret (ret, None)
  | Some _ => copy ← bytes_at 0 sizeof_addr_msg source; Ret (0, Some copy)
  end.

Definition rrr_msg_msg_log_prepare_for_network (msg : list Z) : outcome (list Z) :=
  msg ← convert big (rrr_htobe16 big) prefix_size msg;
  convert big (rrr_htobe32 big) line msg.

(** [msg_size] has 32 bits, [sizeof] has 64: the subtraction is of 64 bits. *)
Definition RRR_MSG_LOG_SIZE_OK (msg : list Z) : outcome bool :=
  ps ← get big prefix_size msg;
  size ← get big msg_size msg;
  Ret (negb (u64 (size - sizeof_log - 1) <? ps)).

Definition RRR_MSG_LOG_MSG_SIZE (msg : list Z) : outcome Z :=
  ps ← get big prefix_size msg;
  size ← get big msg_size msg;
  Ret (u64 (size - (sizeof_log - 1) - ps)).

Definition rrr_msg_msg_log_to_host (msg : list Z) : outcome (Z * list Z) :=
  msg ← convert big (rrr_be16toh big) prefix_size msg;
  msg ← convert big (rrr_be32toh big) line msg;
  ok ← RRR_MSG_LOG_SIZE_OK msg;
  if negb ok then Ret (1, msg)
  else
    ps ← get big prefix_size msg;
    prefix_end ← (if 0 <? ps then load8 msg (PREFIX_AND_MESSAGE + ps - 1) else Ret 0);
    if negb (prefix_end =? 0) then Ret (1, msg)
    else
      size ← get big msg_size msg;
      message_end ← load8 msg (size - 1);
      if negb (message_end =? 0) then Ret (1, msg) else Ret (0, msg).

Definition rrr_msg_msg_log_init_head (target : list Z) (psize data_size : Z) : outcome (list Z) :=
  target ← rrr_msg_populate_head big target RRR_MSG_TYPE_MESSAGE_LOG
             (u32 (sizeof_log - 1 + psize + data_size)) 0;
  set big prefix_size psize target.

(** [file], [prefix] and [message] are C strings.  The status and the message. *)
Definition rrr_msg_msg_log_new (alloc_ok : bool) (file : list Z) (lineno translated orig : Z)
    (prefix message : list Z) : outcome (Z * option (list Z)) :=
  let psize := Z.of_nat (length prefix) + 1 in
  let psize := if 0xffff <? psize then 0xffff else psize in
  let message_size := Z.of_nat (length message) + 1 in
  let message_size :=
    if RRR_MSG_LOG_MESSAGE_MAX <? message_size then RRR_MSG_LOG_MESSAGE_MAX else message_size in
  let allocation_size := sizeof_log - 1 + psize + message_size in
  if negb alloc_ok then Ret (1, None)
  else
    result ← rrr_msg_msg_log_init_head (replicate (Z.to_nat allocation_size) 0)
               (u16 psize) (u32 message_size);
    result ← memcpy_to FILE (strncpy (Z.to_nat sizeof_file) file) result;
    result ← memcpy_to (FILE + sizeof_file - 1) [0] result;
    result ← set big line (if lineno <? 0 then 0 else u32 lineno) result;
    src ← bytes_at 0 psize (prefix ++ [0]);
    result ← memcpy_to PREFIX_AND_MESSAGE src result;
    src ← bytes_at 0 message_size (message ++ [0]);
    ps ← get big prefix_size result;
    result ← memcpy_to (PREFIX_AND_MESSAGE + ps) src result;
    result ← set big loglevel_translated translated result;
    result ← set big loglevel_orig orig result;
    Ret (0, Some result).

(** The status, the prefix and the message, each with a terminator added. *)
Definition rrr_msg_msg_log_to_str (alloc : nat -> bool) (msg : list Z)
  : outcome (Z * option (list Z * list Z)) :=
  ps ← get big prefix_size msg;
  size ← RRR_MSG_LOG_MSG_SIZE msg;
  if negb (alloc 0%nat) then Ret (1, None)
  else if negb (alloc 1%nat) then Ret (1, None)
  else
    prefix ← bytes_at PREFIX_AND_MESSAGE ps msg;
    message ← bytes_at (PREFIX_AND_MESSAGE + ps) size msg;
    Ret (0, Some (prefix ++ [0], message ++ [0])).

End Host.

(** * Layout of a log message *)

Definition file_field (file : list Z) : list Z := splice 127 [0] (strncpy 128 file).

Lemma length_strncpy n src : length (strncpy n src) = n.
Proof. unfold strncpy. rewrite length_take, length_app, length_replicate. lia. Qed.

Lemma length_file_field file : length (file_field file) = 128%nat.
Proof. unfold file_field. rewrite length_splice; by rewrite length_strncpy. Qed.

(** The fields of the object; [enc] gives the byte order of the two that are
    converted for the network. *)
Definition log_fields (big : bool) (enc : nat -> Z -> list Z) (h : rrr_msg) (file : list Z)
    (lineno stdout translated orig : Z) (prefix message : list Z) : list (list Z) :=
  [host_enc big 4 (h_crc h); host_enc big 4 (h_size h); host_enc big 2 (h_type h);
   host_enc big 4 (h_value h); host_enc big 4 (h_data_crc h); file; enc 4%nat lineno;
   host_enc big 1 stdout; host_enc big 1 translated; host_enc big 1 orig;
   enc 2%nat (Z.of_nat (length prefix)); prefix; message].

Definition log_head (prefix message : list Z) : rrr_msg :=
  mk_msg 0 (155 + Z.of_nat (length prefix) + Z.of_nat (length message))
    RRR_MSG_TYPE_MESSAGE_LOG 0 0.

(** Prove a side condition on the offset of a field. *)
Ltac offsets :=
  cbn [take concat app log_fields fmap list_fmap]; rewrite ?length_app, ?length_host_enc, ?length_be_enc, ?length_replicate,
    ?length_file_field, ?length_strncpy; simpl length; (done || lia).

(** Write field [i]. *)
Ltac set_field i :=
  erewrite (set_concat _ _ i) by offsets; rewrite bind_ret; cbn [insert list_insert].

Section New.
Context (big : bool) (file prefix message : list Z) (lineno translated orig : Z).
Context (Hp : Z.of_nat (length prefix) + 1 <= 0xffff).
Context (Hmsg : Z.of_nat (length message) + 1 <= RRR_MSG_LOG_MESSAGE_MAX).
Context (Hline : 0 <= lineno < 2 ^ 31).

Lemma log_new_spec :
  rrr_msg_msg_log_new big true file lineno translated orig prefix message
  = Ret (0, Some (concat (log_fields big (host_enc big) (log_head (prefix ++ [0]) (message ++ [0]))
      (file_field file) lineno 0 translated orig (prefix ++ [0]) (message ++ [0])))).
Proof using Hp Hmsg Hline.
  unfold rrr_msg_msg_log_new, rrr_msg_msg_log_init_head, rrr_msg_populate_head, sizeof_msg,
    RRR_MSG_LOG_MESSAGE_MAX, sizeof_log in *.
  rewrite (proj2 (Z.ltb_ge 0xffff _)), (proj2 (Z.ltb_ge 65536 _)), (proj2 (Z.ltb_ge lineno 0)) by lia.
  change (negb true) with false. cbv iota.
  rewrite (wrap_small 16), (wrap_small 32 lineno), (wrap_small 32 (Z.of_nat (length message) + 1)) by lia.
  rewrite (wrap_small 32) by lia.
  set (np := S (length prefix)). set (nm := S (length message)).
  assert (Z.to_nat (156 - 1 + (Z.of_nat (length prefix) + 1) + (Z.of_nat (length message) + 1))
    = sum_list [4; 4; 2; 4; 4; 128; 4; 1; 1; 1; 2; np; nm]%nat) as -> by (simpl; lia).
  rewrite <- concat_zeros. rewrite (proj2 (Z.ltb_ge _ 18)) by lia. cbn [fmap list_fmap].
  unfold msg_type, msg_size, msg_value, prefix_size, line, loglevel_translated, loglevel_orig.
  set_field 2%nat. set_field 1%nat. set_field 3%nat. set_field 10%nat.
  rewrite (memcpy_concat _ 5 0 (replicate 128 0)) by offsets.
  rewrite splice_all, bind_ret by offsets. cbn [insert list_insert].
  rewrite (memcpy_concat _ 5 127 (strncpy 128 file)) by offsets. rewrite bind_ret.
  cbn [insert list_insert]. fold (file_field file). set_field 6%nat.
  replace (Z.of_nat (length prefix) + 1) with (Z.of_nat (length (prefix ++ [0]))) by offsets.
  replace (Z.of_nat (length message) + 1) with (Z.of_nat (length (message ++ [0]))) by offsets.
  rewrite <- (app_nil_r (prefix ++ [0])) at 2. rewrite bytes_at_0_app, bind_ret.
  rewrite (memcpy_concat _ 11 0 (replicate np 0)) by offsets.
  rewrite splice_all, bind_ret by offsets. cbn [insert list_insert].
  rewrite <- (app_nil_r (message ++ [0])) at 2. rewrite bytes_at_0_app, bind_ret.
  erewrite (get_concat big _ 10) by offsets.
  assert (Z.of_nat (length (prefix ++ [0])) = Z.of_nat (length prefix) + 1) as Ep by offsets.
  assert (Z.of_nat (length (message ++ [0])) = Z.of_nat (length message) + 1) as Em by offsets.
  rewrite host_dec_enc, bind_ret by width.
  rewrite (memcpy_concat _ 12 0 (replicate nm 0)) by (unfold PREFIX_AND_MESSAGE; offsets).
  rewrite splice_all, bind_ret by offsets. cbn [insert list_insert].
  set_field 8%nat. set_field 9%nat. unfold log_fields, log_head.
  cbn [h_crc h_size h_type h_value h_data_crc]. rewrite !host_enc_zero. done.
Qed.

End New.

Lemma load8_app (pre post : list Z) b i :
  i = Z.of_nat (length pre) -> load8 (pre ++ b :: post) i = Ret b.
Proof.
  intros ->. apply load8_Some. split; [lia|]. rewrite Nat2Z.id. by apply list_lookup_middle.
Qed.

Section Use.
Context (big : bool) (h : rrr_msg) (file prefix message : list Z).
Context (lineno stdout translated orig : Z).
Context (Hsize : h_size h = 155 + Z.of_nat (length prefix) + Z.of_nat (length message)).
Context (Hsize32 : h_size h < 2 ^ 32) (Hp : Z.of_nat (length prefix) < 2 ^ 16).
Context (Hfile : length file = 128%nat) (Hline : 0 <= lineno < 2 ^ 32).
Abbreviation msg enc := (concat (log_fields big enc h file lineno stdout translated orig prefix message)).

Lemma log_prepare_spec :
  rrr_msg_msg_log_prepare_for_network big (msg (host_enc big)) = Ret (msg be_enc).
Proof using Hp Hfile Hline.
  unfold rrr_msg_msg_log_prepare_for_network, convert, prefix_size, line, rrr_htobe16, rrr_htobe32,
    log_fields.
  erewrite (get_concat big _ 10) by offsets. rewrite bind_ret, host_dec_enc by width.
  set_field 10%nat. erewrite (get_concat big _ 6) by offsets. rewrite bind_ret, host_dec_enc by width.
  erewrite (set_concat _ _ 6) by offsets. cbn [insert list_insert].
  by rewrite !host_enc_to_be.
Qed.

Lemma log_convert_spec {A} (k : list Z -> outcome A) :
  (msg ← convert big (rrr_be16toh big) prefix_size (msg be_enc);
   msg ← convert big (rrr_be32toh big) line msg; k msg) = k (msg (host_enc big)).
Proof using Hp Hfile Hline.
  unfold convert, prefix_size, line, rrr_be16toh, rrr_be32toh, log_fields.
  erewrite (get_concat big _ 10) by offsets. rewrite bind_ret, to_be_host_dec by width.
  set_field 10%nat. erewrite (get_concat big _ 6) by offsets. rewrite bind_ret, to_be_host_dec by width.
  by set_field 6%nat.
Qed.

Lemma log_get_prefix_size :
  get big prefix_size (msg (host_enc big)) = Ret (Z.of_nat (length prefix)).
Proof using Hp Hfile.
  unfold prefix_size, log_fields. erewrite (get_concat big _ 10) by offsets. by rewrite host_dec_enc by width.
Qed.

Lemma log_get_size : get big msg_size (msg (host_enc big)) = Ret (h_size h).
Proof using Hsize Hsize32 Hfile.
  unfold msg_size, log_fields. erewrite (get_concat big _ 1) by offsets. by rewrite host_dec_enc by width.
Qed.

Lemma log_to_str_spec alloc :
  alloc 0%nat = true -> alloc 1%nat = true ->
  rrr_msg_msg_log_to_str big alloc (msg (host_enc big)) = Ret (0, Some (prefix ++ [0], message ++ [0])).
Proof using Hsize Hsize32 Hp Hfile.
  intros H0 H1. unfold rrr_msg_msg_log_to_str, RRR_MSG_LOG_MSG_SIZE, sizeof_log.
  rewrite log_get_prefix_size, log_get_size, !bind_ret, H0, H1. cbn [negb].
  rewrite wrap_small by lia. unfold PREFIX_AND_MESSAGE, log_fields.
  rewrite (bytes_at_concat _ 11 prefix 155), bind_ret by offsets.
  erewrite (bytes_at_concat _ 12) by offsets. done.
Qed.

Lemma log_load_prefix_end p b :
  prefix = p ++ [b] ->
  load8 (msg (host_enc big)) (PREFIX_AND_MESSAGE + Z.of_nat (length prefix) - 1) = Ret b.
Proof using Hfile.
  intros E. rewrite (concat_field _ 11 prefix) by done. rewrite E at 2.
  rewrite <- app_assoc, (app_assoc _ p). apply load8_app. rewrite E, length_app.
  unfold PREFIX_AND_MESSAGE, log_fields. offsets.
Qed.

Lemma log_load_message_end m b :
  message = m ++ [b] -> load8 (msg (host_enc big)) (h_size h - 1) = Ret b.
Proof using Hsize Hfile.
  intros E. rewrite (concat_field _ 12 message) by done. rewrite E at 2.
  rewrite <- app_assoc, (app_assoc _ m). apply load8_app. rewrite Hsize, E, length_app.
  unfold log_fields. offsets.
Qed.

End Use.

(** A log message survives the wire: building it, converting it for the
    network and back accepts it, and the strings read out of it are the prefix
    and the message it was built from (each with one terminator more).  The
    strings fit their limits and the message is not empty. *)
Lemma rrr_msg_msg_log_roundtrip big alloc file lineno translated orig prefix message :
  Z.of_nat (length prefix) + 1 <= 0xffff ->
  1 < Z.of_nat (length message) + 1 <= RRR_MSG_LOG_MESSAGE_MAX ->
  0 <= lineno < 2 ^ 31 -> alloc 0%nat = true -> alloc 1%nat = true ->
  exists msg wire,
    rrr_msg_msg_log_new big true file lineno translated orig prefix message = Ret (0, Some msg) /\
    rrr_msg_msg_log_prepare_for_network big msg = Ret wire /\
    rrr_msg_msg_log_to_host big wire = Ret (0, msg) /\
    rrr_msg_msg_log_to_str big alloc msg
    = Ret (0, Some ((prefix ++ [0]) ++ [0], (message ++ [0]) ++ [0])).
Proof.
  intros Hp Hm Hline H0 H1. eexists. eexists. split; [apply log_new_spec; (done || lia)|].
  unfold RRR_MSG_LOG_MESSAGE_MAX in Hm.
  assert (length (prefix ++ [0]) = S (length prefix)) as Ep by (rewrite length_app; simpl; lia).
  assert (length (message ++ [0]) = S (length message)) as Em by (rewrite length_app; simpl; lia).
  assert (h_size (log_head (prefix ++ [0]) (message ++ [0]))
    = 155 + Z.of_nat (length (prefix ++ [0])) + Z.of_nat (length (message ++ [0]))) as Hs by done.
  pose proof (length_file_field file) as Hf.
  split; [apply log_prepare_spec; (done || lia)|].
  split; [|apply log_to_str_spec; (done || lia)].
  unfold rrr_msg_msg_log_to_host. rewrite log_convert_spec by (done || lia).
  unfold RRR_MSG_LOG_SIZE_OK. rewrite log_get_prefix_size, log_get_size, !bind_ret by (done || lia).
  unfold sizeof_log. rewrite wrap_small by lia. rewrite (proj2 (Z.ltb_ge _ _)) by lia. cbn [negb].
  rewrite (proj2 (Z.ltb_lt 0 _)) by lia.
  rewrite (log_load_prefix_end _ _ _ (prefix ++ [0]) _ _ _ _ _ ltac:(done) prefix 0), bind_ret by done.
  cbn [Z.eqb negb].
  rewrite (log_load_message_end _ _ _ _ (message ++ [0]) _ _ _ _ ltac:(done) ltac:(done) message 0) by done.
  done.
Qed.

(** An empty message is built but refused by the receiver: the size test
    wants one byte too much. *)
Lemma rrr_msg_msg_log_empty_refused :
  match rrr_msg_msg_log_new false true [] 1 7 3 [112] [] with
  | Ret (_, Some msg) =>
    (wire ← rrr_msg_msg_log_prepare_for_network false msg;
     res ← rrr_msg_msg_log_to_host false wire; Ret (fst res)) = Ret 1
  | _ => False
  end.
Proof. vm_compute. reflexivity. Qed.

(** A message shorter than its own struct passes the size test, since the
    subtraction wraps, and the prefix terminator is looked for outside of it. *)
Lemma rrr_msg_msg_log_short_overread :
  rrr_msg_msg_log_to_host false
    (layout [0; 0; 0; 0] [155; 0; 0; 0] [16; 0] [0; 0; 0; 0] [0; 0; 0; 0]
      (replicate 135 0 ++ [0; 9])) = Oob.
Proof. vm_compute. reflexivity. Qed.

End MsgLog.
