(* ===== verification/MsgStats.v ===== *)
(** Statistics messages (src/src/lib/stats/stats_message.c and
    stats_message.h): the struct used in the program and its packed form on the
    wire. *)
From S2P Require Import Prelude Types Parse MsgHead MsgMsg MsgLog.

Module MsgStats.
Import Types Parse MsgHead MsgMsg MsgLog.

Definition RRR_STATS_MESSAGE_TYPE_KEEPALIVE : Z := 0.
Definition RRR_STATS_MESSAGE_TYPE_TEXT : Z := 1.
Definition RRR_STATS_MESSAGE_TYPE_BASE10_TEXT : Z := 2.
Definition RRR_STATS_MESSAGE_TYPE_DOUBLE_TEXT : Z := 3.

Definition RRR_STATS_MESSAGE_FLAGS_STICKY : Z := 1.
Definition RRR_STATS_MESSAGE_FLAGS_RRR_MSG_PREFACE : Z := 2.
Definition RRR_STATS_MESSAGE_FLAGS_EVENT : Z := 4.
Definition RRR_STATS_MESSAGE_FLAGS_LOG : Z := 8.
Definition RRR_STATS_MESSAGE_FLAGS_ALL : Z :=
  RRR_STATS_MESSAGE_FLAGS_STICKY ||| RRR_STATS_MESSAGE_FLAGS_RRR_MSG_PREFACE |||
  RRR_STATS_MESSAGE_FLAGS_EVENT ||| RRR_STATS_MESSAGE_FLAGS_LOG.

Definition RRR_STATS_MESSAGE_PATH_MAX_LENGTH : Z := 512.
Definition RRR_STATS_MESSAGE_DATA_MAX_SIZE : Z := 512.

(** [struct rrr_msg_stats]; [path] and [data] are the arrays. *)
Record rrr_msg_stats := mk_stats {
  type : Z;
  flags : Z;
  data_size : Z;
  timestamp : Z;
  path : list Z;
  data : list Z
}.

Definition zero_stats : rrr_msg_stats := mk_stats 0 0 0 0 (replicate 513 0) (replicate 512 0).

(** [struct rrr_msg_stats_packed]: fields, offset of [path_and_data], sizes. *)
Definition p_type : field := (18, 1)%nat.
Definition p_flags : field := (19, 4)%nat.
Definition p_path_size : field := (23, 2)%nat.
Definition PATH_AND_DATA : Z := 25.
Definition sizeof_packed : Z := 1050.
Definition sizeof_path_and_data : Z := 1025.

Section Host.
Context (big : bool).

(** The status and the new [*target]. *)
Definition rrr_msg_stats_unpack_flip (target : rrr_msg_stats) (source : list Z)
    (expected_size : Z) (do_flip : bool) : outcome (Z * rrr_msg_stats) :=
  if expected_size <? sizeof_packed - sizeof_path_and_data then Ret (RRR_READ_SOFT_ERROR, target)
  else if sizeof_packed <? expected_size then Ret (RRR_READ_SOFT_ERROR, target)
  else
    ps ← get big p_path_size source;
    fl ← get big p_flags source;
    let '(path_size, fl) :=
      if do_flip then (rrr_be16toh big ps, rrr_be32toh big fl) else (ps, fl) in
    ty ← get big p_type source;
    if truth (fl &&& u32 (Z.lnot RRR_STATS_MESSAGE_FLAGS_ALL)) then Ret (RRR_READ_SOFT_ERROR, target)
    else if negb ((ty =? RRR_STATS_MESSAGE_TYPE_KEEPALIVE) || (ty =? RRR_STATS_MESSAGE_TYPE_TEXT) ||
                  (ty =? RRR_STATS_MESSAGE_TYPE_BASE10_TEXT) || (ty =? RRR_STATS_MESSAGE_TYPE_DOUBLE_TEXT))
    then Ret (RRR_READ_SOFT_ERROR, target)
    else
      actual ← rrr_length_from_size_t_bug_const (expected_size - (sizeof_packed - sizeof_path_and_data));
      if actual <? path_size then Ret (RRR_READ_SOFT_ERROR, target)
      else
        value ← get big msg_value source;
        let size := u32 (actual - path_size) in
        new_data ← (if 0 <? size then
            src ← bytes_at (PATH_AND_DATA + path_size) size source;
            memcpy_to 0 src (data zero_stats)
          else Ret (data zero_stats));
        if 0 <? path_size then
          terminator ← load8 source (PATH_AND_DATA + path_size - 1);
          if negb (terminator =? 0)
          then Ret (RRR_READ_SOFT_ERROR, mk_stats ty fl size value (path zero_stats) new_data)
          else
            src ← bytes_at PATH_AND_DATA path_size source;
            new_path ← memcpy_to 0 src (path zero_stats);
            Ret (0, mk_stats ty fl size value new_path new_data)
        else Ret (0, mk_stats ty fl size value (path zero_stats) new_data).

Definition rrr_msg_stats_flip_and_unpack (target : rrr_msg_stats) (source : list Z)
    (expected_size : Z) : outcome (Z * rrr_msg_stats) :=
  rrr_msg_stats_unpack_flip target source expected_size true.

Definition rrr_msg_stats_unpack (target : rrr_msg_stats) (source : list Z)
    (expected_size : Z) : outcome (Z * rrr_msg_stats) :=
  rrr_msg_stats_unpack_flip target source expected_size false.

(** The packed object and its size. *)
Definition rrr_msg_stats_pack (target : list Z) (source : rrr_msg_stats)
  : outcome (list Z * Z) :=
  len ← rrr_length_from_size_t_bug_const (Z.of_nat (length (cstr (path source))));
  path_size ← rrr_length_inc_bug_const len;
  let path_and_data_size := u32 (path_size + data_size source) in
  let total_size := u32 (sizeof_packed - sizeof_path_and_data + path_and_data_size) in
  target ← set big p_type (type source) target;
  target ← set big p_flags (flags source) target;
  target ← set big p_path_size (u16 path_size) target;
  src ← bytes_at 0 path_size (path source);
  target ← memcpy_to PATH_AND_DATA src target;
  src ← bytes_at 0 (data_size source) (data source);
  target ← memcpy_to (PATH_AND_DATA + path_size) src target;
  Ret (target, total_size).

Definition rrr_msg_stats_pack_and_flip (target : list Z) (source : rrr_msg_stats)
  : outcome (list Z * Z) :=
  '(target, total_size) ← rrr_msg_stats_pack target source;
  target ← set big p_type (type source) target;
  target ← set big p_flags (rrr_htobe32 big (flags source)) target;
  ps ← get big p_path_size target;
  target ← set big p_path_size (rrr_htobe16 big (u16 ps)) target;
  Ret (target, total_size).

End Host.

(** [strcpy] of a C string into a zeroed array. *)
Definition strcpy_to (s array : list Z) : outcome (list Z) := memcpy_to 0 (s ++ [0]) array.

(** [path_postfix] is a C string; the data pointer may be NULL. *)
Definition rrr_msg_stats_init (message : rrr_msg_stats) (type flags : Z) (path_postfix : list Z)
    (src : option (list Z)) (size : Z) : outcome (Z * rrr_msg_stats) :=
  if RRR_STATS_MESSAGE_PATH_MAX_LENGTH <? Z.of_nat (length path_postfix) then Ret (1, zero_stats)
  else if RRR_STATS_MESSAGE_DATA_MAX_SIZE <? size then Ret (1, zero_stats)
  else
    new_path ← strcpy_to path_postfix (path zero_stats);
    new_data ← (if 0 <? size then
        match src with
        | None => Bug
        | Some src => bs ← bytes_at 0 size src; memcpy_to 0 bs (data zero_stats)
        end
      else Ret (data zero_stats));
    Ret (0, mk_stats type flags size 0 new_path new_data).

(** ["log_hook"] and ["event_hook"]. *)
Definition RRR_STATS_MESSAGE_PATH_GLOBAL_LOG_HOOK : list Z := [108; 111; 103; 95; 104; 111; 111; 107].
Definition RRR_STATS_MESSAGE_PATH_GLOBAL_EVENT_HOOK : list Z :=
  [101; 118; 101; 110; 116; 95; 104; 111; 111; 107].

Definition rrr_msg_stats_init_log (message : rrr_msg_stats) (src : option (list Z)) (size : Z) :=
  rrr_msg_stats_init message RRR_STATS_MESSAGE_TYPE_TEXT RRR_STATS_MESSAGE_FLAGS_LOG
    RRR_STATS_MESSAGE_PATH_GLOBAL_LOG_HOOK src size.
Definition rrr_msg_stats_init_event (message : rrr_msg_stats) (src : option (list Z)) (size : Z) :=
  rrr_msg_stats_init message RRR_STATS_MESSAGE_TYPE_TEXT RRR_STATS_MESSAGE_FLAGS_EVENT
    RRR_STATS_MESSAGE_PATH_GLOBAL_EVENT_HOOK src size.
Definition rrr_msg_stats_init_keepalive (message : rrr_msg_stats) :=
  rrr_msg_stats_init message RRR_STATS_MESSAGE_TYPE_KEEPALIVE 0 [] None 0.

Definition rrr_msg_stats_set_path (message : rrr_msg_stats) (new : list Z)
  : outcome (Z * rrr_msg_stats) :=
  if RRR_STATS_MESSAGE_PATH_MAX_LENGTH <? Z.of_nat (length new) then Ret (1, message)
  else
    new_path ← strcpy_to new (path message);
    Ret (0, mk_stats (type message) (flags message) (data_size message) (timestamp message)
              new_path (data message)).

Definition rrr_msg_stats_duplicate (alloc_ok : bool) (source : rrr_msg_stats)
  : Z * option rrr_msg_stats :=
  if negb alloc_ok then (1, None) else (0, Some source).

(** * Round trip *)

(** A message as the program builds it: [p] and [d] in zeroed arrays. *)
Definition stats (ty fl ts : Z) (p d : list Z) : rrr_msg_stats :=
  mk_stats ty fl (Z.of_nat (length d)) ts (p ++ replicate (513 - length p) 0)
    (d ++ replicate (512 - length d) 0).

Definition head5 (big : bool) (h : rrr_msg) : list (list Z) :=
  [host_enc big 4 (h_crc h); host_enc big 4 (h_size h); host_enc big 2 (h_type h);
   host_enc big 4 (h_value h); host_enc big 4 (h_data_crc h)].

Lemma memcpy_zeros src n :
  (length src <= n)%nat -> memcpy_to 0 src (replicate n 0) = Ret (src ++ replicate (n - length src) 0).
Proof.
  intros H. replace n with (length src + (n - length src))%nat at 1 by lia.
  rewrite replicate_add. by apply (memcpy_app []); [|apply length_replicate].
Qed.

Lemma cstr_padded p n : 0 ∉ p -> cstr (p ++ replicate n 0) = p.
Proof.
  induction p as [|b p IH]; simpl; [by destruct n|].
  rewrite not_elem_of_cons. intros [Hb Hp]. rewrite (proj2 (Z.eqb_neq b 0)) by done. by rewrite IH.
Qed.

Ltac stats_offsets :=
  cbn [take concat app head5]; rewrite ?length_app, ?length_host_enc, ?length_be_enc, ?length_replicate;
  simpl length; (done || lia).

Ltac set_stats i :=
  erewrite (set_concat _ _ i) by stats_offsets; rewrite bind_ret; cbn [insert list_insert].

Lemma copy_data_zeros (d : list Z) (m : outcome (list Z)) :
  (length d <= 512)%nat -> m = Ret d ->
  (if 0 <? Z.of_nat (length d) then src ← m; memcpy_to 0 src (data zero_stats)
   else Ret (data zero_stats)) = Ret (d ++ replicate (512 - length d) 0).
Proof.
  intros Hd ->. destruct (Z.ltb_spec 0 (Z.of_nat (length d))) as [Hpos|Hz].
  - rewrite bind_ret. by apply memcpy_zeros.
  - assert (d = []) as -> by (apply length_zero_iff_nil; lia). done.
Qed.

Section RoundTrip.
Context (big : bool) (h : rrr_msg) (t0 f0 s0 pd : list Z) (ty fl ts : Z) (p d : list Z).
Context (Hv : 0 <= h_value h < 2 ^ 32).
Context (Hlen : length t0 = 1%nat /\ length f0 = 4%nat /\ length s0 = 2%nat /\ length pd = 1025%nat).
Context (Hty : 0 <= ty <= 3) (Hfl : 0 <= fl < 2 ^ 32).
Context (Hflags : fl &&& u32 (Z.lnot RRR_STATS_MESSAGE_FLAGS_ALL) = 0).
Context (Hp : (length p <= 512)%nat) (Hp0 : 0 ∉ p) (Hd : (length d <= 512)%nat).

Let total : Z := 25 + (Z.of_nat (length p) + 1) + Z.of_nat (length d).

(** The bytes sent. *)
Definition stats_wire : list (list Z) :=
  head5 big h ++ [host_enc big 1 ty; be_enc 4 fl; be_enc 2 (Z.of_nat (length p) + 1); p ++ [0]; d].

Lemma filled_splice : exists rest,
  splice (length (p ++ [0])) d (splice 0 (p ++ [0]) pd) = (p ++ [0]) ++ d ++ rest.
Proof.
  change (splice 0 (p ++ [0]) pd) with ((p ++ [0]) ++ drop (length (p ++ [0])) pd).
  eexists. unfold splice. rewrite take_app_length. done.
Qed.

Lemma pack_spec : exists rest,
  rrr_msg_stats_pack big (concat (head5 big h ++ [t0; f0; s0; pd])) (stats ty fl ts p d)
  = Ret (concat (head5 big h ++ [host_enc big 1 ty; host_enc big 4 fl;
      host_enc big 2 (Z.of_nat (length p) + 1); p ++ [0]; d; rest]), total).
Proof using Hlen Hp Hp0 Hd.
  destruct Hlen as (Ht & Hf & Hs & Hpd). destruct filled_splice as [rest Hrest]. exists rest.
  unfold rrr_msg_stats_pack, stats. cbn [path data data_size type flags].
  rewrite cstr_padded, length_from_size_t_spec, exact_or_bug_small, bind_ret
    by (done || unfold RRR_LENGTH_MAX; lia).
  unfold rrr_length_inc_bug_const.
  rewrite length_inc_bug_spec, exact_or_bug_small, !bind_ret by (unfold length_ok, RRR_LENGTH_MAX; lia).
  unfold p_type, p_flags, p_path_size. cbn [head5 app].
  set_stats 5%nat. set_stats 6%nat. set_stats 7%nat.
  assert (Z.of_nat (length p) + 1 = Z.of_nat (length (p ++ [0]))) as El by stats_offsets.
  assert (p ++ replicate (513 - length p) 0 = (p ++ [0]) ++ replicate (512 - length p) 0) as ->.
  { rewrite <- app_assoc. f_equal. by replace (513 - length p)%nat with (S (512 - length p)) by lia. }
  rewrite El, (bytes_at_0_app (p ++ [0])), bind_ret.
  rewrite (memcpy_concat _ 8 0 pd) by (unfold PATH_AND_DATA; stats_offsets). rewrite bind_ret.
  cbn [insert list_insert]. rewrite bytes_at_0_app, bind_ret.
  rewrite (memcpy_concat _ 8 (length (p ++ [0])) (splice 0 (p ++ [0]) pd))
    by (first [done | unfold PATH_AND_DATA; stats_offsets
      | rewrite length_splice; rewrite ?length_app; simpl; lia]).
  rewrite bind_ret, Hrest. cbn [insert list_insert]. do 2 f_equal.
  - cbn [concat]. rewrite !app_nil_r, (wrap_small 16) by lia. by rewrite <- !app_assoc.
  - unfold total, sizeof_packed, sizeof_path_and_data. rewrite <- El.
    rewrite (wrap_small 32 (Z.of_nat (length p) + 1 + _)), wrap_small; lia.
Qed.

Lemma pack_and_flip_spec : exists rest,
  rrr_msg_stats_pack_and_flip big (concat (head5 big h ++ [t0; f0; s0; pd])) (stats ty fl ts p d)
  = Ret (concat stats_wire ++ rest, total).
Proof using Hlen Hp Hp0 Hd.
  destruct pack_spec as [rest E]. exists rest. unfold rrr_msg_stats_pack_and_flip.
  rewrite E, bind_ret. unfold stats, p_type, p_flags, p_path_size. cbn [type flags head5 app].
  set_stats 5%nat. set_stats 6%nat.
  erewrite (get_concat big _ 7) by stats_offsets. rewrite host_dec_enc, bind_ret, (wrap_small 16) by width.
  set_stats 7%nat. unfold stats_wire, rrr_htobe32, rrr_htobe16. rewrite !host_enc_to_be.
  cbn [concat head5 app]. by rewrite <- ?app_assoc, ?app_nil_r.
Qed.

Lemma flip_and_unpack_spec target :
  rrr_msg_stats_flip_and_unpack big target (concat stats_wire) total
  = Ret (0, stats ty fl (h_value h) p d).
Proof using Hv Hty Hfl Hflags Hp Hd.
  clear Hlen t0 f0 s0 pd.
  unfold rrr_msg_stats_flip_and_unpack, rrr_msg_stats_unpack_flip, sizeof_packed,
    sizeof_path_and_data, PATH_AND_DATA, total.
  rewrite (proj2 (Z.ltb_ge _ (1050 - 1025))), (proj2 (Z.ltb_ge 1050 _)) by lia.
  unfold p_type, p_flags, p_path_size, msg_value, stats_wire. cbn [head5 app].
  erewrite (get_concat big _ 7 _ 23 2) by stats_offsets. rewrite bind_ret.
  erewrite (get_concat big _ 6 _ 19 4) by stats_offsets. rewrite bind_ret. cbv beta iota zeta.
  unfold rrr_be16toh, rrr_be32toh. rewrite !to_be_host_dec by width.
  erewrite (get_concat big _ 5 _ 18 1) by stats_offsets. rewrite bind_ret, host_dec_enc by width.
  unfold truth. rewrite Hflags, Z.eqb_refl. cbn [negb].
  assert ((ty =? RRR_STATS_MESSAGE_TYPE_KEEPALIVE) || (ty =? RRR_STATS_MESSAGE_TYPE_TEXT) ||
    (ty =? RRR_STATS_MESSAGE_TYPE_BASE10_TEXT) || (ty =? RRR_STATS_MESSAGE_TYPE_DOUBLE_TEXT) = true)
    as ->.
  { unfold RRR_STATS_MESSAGE_TYPE_KEEPALIVE, RRR_STATS_MESSAGE_TYPE_TEXT,
      RRR_STATS_MESSAGE_TYPE_BASE10_TEXT, RRR_STATS_MESSAGE_TYPE_DOUBLE_TEXT. btests. }
  cbn [negb]. rewrite length_from_size_t_spec, exact_or_bug_small, bind_ret
    by (unfold RRR_LENGTH_MAX; lia).
  rewrite (proj2 (Z.ltb_ge _ (Z.of_nat (length p) + 1))) by lia.
  erewrite (get_concat big _ 3 _ 10 4) by stats_offsets. rewrite bind_ret, host_dec_enc by width.
  rewrite wrap_small by lia.
  replace (25 + (Z.of_nat (length p) + 1) + Z.of_nat (length d) - (1050 - 1025) -
    (Z.of_nat (length p) + 1)) with (Z.of_nat (length d)) by lia.
  rewrite (copy_data_zeros d) by (done || apply (bytes_at_concat _ 9); stats_offsets). rewrite bind_ret.
  rewrite (proj2 (Z.ltb_lt 0 (Z.of_nat (length p) + 1))) by lia.
  match goal with |- context [load8 (concat ?fs) ?i] =>
    assert (load8 (concat fs) i = Ret 0) as -> end.
  { rewrite (concat_field _ 8 (p ++ [0])) by done. rewrite <- app_assoc, (app_assoc _ p).
    apply load8_app. stats_offsets. }
  rewrite bind_ret. cbn [Z.eqb negb].
  rewrite (bytes_at_concat _ 8 (p ++ [0])), bind_ret by stats_offsets.
  cbn [path zero_stats]. rewrite memcpy_zeros, bind_ret by stats_offsets.
  unfold stats. rewrite <- app_assoc, length_app. cbn [length app].
  by replace (513 - length p)%nat with (S (513 - (length p + 1))) by lia.
Qed.
End RoundTrip.

(** Statistics messages round trip.  Packing a message into a buffer and
    unpacking the bytes that are sent gives the message back: type, flags, path
    and data, with the value of the message header as the timestamp. *)
Lemma rrr_msg_stats_roundtrip big h t0 f0 s0 pd ty fl ts p d target :
  0 <= h_value h < 2 ^ 32 ->
  length t0 = 1%nat /\ length f0 = 4%nat /\ length s0 = 2%nat /\ length pd = 1025%nat ->
  0 <= ty <= 3 -> 0 <= fl < 2 ^ 32 ->
  fl &&& u32 (Z.lnot RRR_STATS_MESSAGE_FLAGS_ALL) = 0 ->
  (length p <= 512)%nat -> 0 ∉ p -> (length d <= 512)%nat ->
  exists packed total,
    rrr_msg_stats_pack_and_flip big (concat (head5 big h ++ [t0; f0; s0; pd])) (stats ty fl ts p d)
    = Ret (packed, total) /\
    rrr_msg_stats_flip_and_unpack big target (take (Z.to_nat total) packed) total
    = Ret (0, stats ty fl (h_value h) p d).
Proof.
  intros Hv Hlen Hty Hfl Hflags Hp Hp0 Hd.
  destruct (pack_and_flip_spec big h t0 f0 s0 pd ty fl ts p d Hlen Hp Hp0 Hd) as [rest E].
  eexists. eexists. split; [exact E|].
  rewrite take_app_length'; [by apply flip_and_unpack_spec|].
  unfold stats_wire. cbn [head5 app concat].
  rewrite !length_app, !length_host_enc, !length_be_enc. simpl length. lia.
Qed.

(** The unpacked data may be as long as path and data together, 1025 bytes,
    but the array for them has 512: a message with no path and more than that
    is copied past its end, and so is a path of more than 513. *)
Lemma rrr_msg_stats_unpack_overflow :
  rrr_msg_stats_flip_and_unpack false zero_stats
    (concat (head5 false (mk_msg 0 538 6 0 0)) ++ [1] ++ [0; 0; 0; 0] ++ [0; 0] ++ replicate 513 1) 538
  = Oob /\
  rrr_msg_stats_flip_and_unpack false zero_stats
    (concat (head5 false (mk_msg 0 539 6 0 0)) ++ [1] ++ [0; 0; 0; 0] ++ [2; 2] ++ replicate 514 0) 539
  = Oob.
Proof. split; vm_compute; reflexivity. Qed.

End MsgStats.
