(* ===== verification/MsgDispatch.v ===== *)
(** Receiving a message: [rrr_msg_to_host_and_verify_with_callback] of
    src/src/lib/messages/msg.c, which checks a message that has been read
    completely, converts it to host order by its type and hands it over. *)
From S2P Require Import Prelude Types Utf8 Crc32 MsgHead MsgMsg MsgLog MsgStats.

Module MsgDispatch.
Import Types Crc32 MsgHead MsgMsg MsgLog.

(** The callbacks, [None] when the pointer is NULL; [W] is the state they change. *)
Record callbacks (W : Type) := mk_callbacks {
  callback_msg : option (list Z -> W -> outcome (Z * W));
  callback_addr_msg : option (list Z -> W -> outcome (Z * W));
  callback_log_msg : option (list Z -> W -> outcome (Z * W));
  callback_ctrl_msg : option (list Z -> W -> outcome (Z * W));
  callback_stats_msg : option (MsgStats.rrr_msg_stats -> W -> outcome (Z * W))
}.
Arguments mk_callbacks {W}.
Arguments callback_msg {W}.
Arguments callback_addr_msg {W}.
Arguments callback_log_msg {W}.
Arguments callback_ctrl_msg {W}.
Arguments callback_stats_msg {W}.

Section Host.
Context {W : Type} (big : bool).

(** [undefined] is the content of the uninitialised struct on the stack. *)
Definition rrr_msg_to_host_and_verify_with_callback (undefined : MsgStats.rrr_msg_stats)
    (cb : callbacks W) (msg : list Z) (expected_size : Z) (w : W) : outcome (Z * W) :=
  '(ret, msg) ← rrr_msg_head_to_host_and_verify big msg expected_size;
  if negb (ret =? 0) then Ret (RRR_READ_SOFT_ERROR, w)
  else
    '(ret, msg) ← rrr_msg_check_data_checksum_and_length big msg expected_size;
    if negb (ret =? 0) then Ret (RRR_READ_SOFT_ERROR, w)
    else
      type ← get big msg_type msg;
      if type =? RRR_MSG_TYPE_MESSAGE then
        match callback_msg cb with
        | None => Ret (RRR_READ_SOFT_ERROR, w)
        | Some callback =>
          '(ret, msg) ← rrr_msg_msg_to_host_and_verify big msg expected_size;
          if negb (ret =? 0) then Ret (RRR_READ_SOFT_ERROR, w) else callback msg w
        end
      else if RRR_MSG_IS_CTRL type then
        match callback_ctrl_msg cb with
        | None => Ret (RRR_READ_SOFT_ERROR, w)
        | Some callback => callback msg w
        end
      else if type =? RRR_MSG_TYPE_MESSAGE_ADDR then
        match callback_addr_msg cb with
        | None => Ret (RRR_READ_SOFT_ERROR, w)
        | Some callback =>
          ret ← rrr_msg_addr_to_host big msg;
          if negb (ret =? 0) then Ret (RRR_READ_SOFT_ERROR, w) else callback msg w
        end
      else if type =? RRR_MSG_TYPE_MESSAGE_LOG then
        match callback_log_msg cb with
        | None => Ret (RRR_READ_SOFT_ERROR, w)
        | Some callback =>
          '(ret, msg) ← rrr_msg_msg_log_to_host big msg;
          if negb (ret =? 0) then Ret (RRR_READ_SOFT_ERROR, w) else callback msg w
        end
      else if type =? RRR_MSG_TYPE_STATS then
        match callback_stats_msg cb with
        | None => Ret (RRR_READ_SOFT_ERROR, w)
        | Some callback =>
          '(ret, tmp) ← MsgStats.rrr_msg_stats_flip_and_unpack big undefined msg expected_size;
          if negb (ret =? 0) then Ret (RRR_READ_SOFT_ERROR, w) else callback tmp w
        end
      else Ret (RRR_READ_SOFT_ERROR, w).

End Host.

(** A data message whose header checksums are cleared. *)
Definition clear_crc (m : rrr_msg_msg) : rrr_msg_msg :=
  mk_mm (cleared (mm_head m)) (mm_timestamp m) (mm_type_and_class m) (mm_version m)
    (mm_topic m) (mm_data m).

Lemma clear_crc_ok m : mm_ok m -> mm_ok (clear_crc m).
Proof.
  intros [(? & ? & ? & ? & ?) ? ? ? ? ? ? ?]. by constructor.
Qed.

Lemma body_bytes m : mm_ok m -> bytes_ok (mm_body be_enc m).
Proof. intros []. unfold mm_body, body. rewrite !Forall_app. auto 10 with rrr. Qed.

Lemma length_body m : Z.of_nat (length (mm_body be_enc m)) = 12 + topic_len m + data_len m.
Proof.
  unfold mm_body, body, topic_len, data_len. rewrite !length_app, !length_be_enc. lia.
Qed.

(** The wire form of a data message, from either byte order. *)
Definition mm_sent (m : rrr_msg_msg) : list Z :=
  wire_bytes (sent (mm_head m) (mm_body be_enc m)) (mm_body be_enc m).

Section Delivery.
Context (m : rrr_msg_msg) (Hm : mm_ok m) (Htype : h_type (mm_head m) = RRR_MSG_TYPE_MESSAGE).

Lemma size_body : h_size (mm_head m) = sizeof_msg + Z.of_nat (length (mm_body be_enc m)).
Proof using Hm. rewrite length_body, (ok_size m Hm). unfold sizeof_msg. lia. Qed.

Lemma send_spec big :
  (message ← rrr_msg_msg_prepare_for_network big (mm_bytes big m);
   rrr_msg_checksum_and_to_network_endian big message) = Ret (mm_sent m).
Proof using Hm.
  rewrite prepare_for_network_spec, bind_ret by done.
  apply to_network_spec; [apply Hm|by apply body_bytes|apply size_body].
Qed.

Lemma receive_spec {W} big undefined (cb : callbacks W) w :
  rrr_msg_to_host_and_verify_with_callback big undefined cb (mm_sent m) (h_size (mm_head m)) w
  = match callback_msg cb with
    | Some callback =>
      if acceptable m then callback (mm_bytes big (clear_crc m)) w else Ret (RRR_READ_SOFT_ERROR, w)
    | None => Ret (RRR_READ_SOFT_ERROR, w)
    end.
Proof using Hm Htype.
  unfold rrr_msg_to_host_and_verify_with_callback, mm_sent.
  pose proof (body_bytes m Hm) as Hb. pose proof size_body as Hs. destruct (Hm) as [Hh _ _ _ _ _ _ _].
  set (data := mm_body be_enc m) in *. pose proof (sent_ok (mm_head m) data Hh Hb) as Hsent.
  rewrite head_to_host_spec by done. rewrite bind_ret.
  change (h_size (sent (mm_head m) data)) with (h_size (mm_head m)).
  change (h_type (sent (mm_head m) data)) with (h_type (mm_head m)).
  rewrite Z.eqb_refl, Htype. cbn [andb Z.eqb negb]. change (type_valid RRR_MSG_TYPE_MESSAGE) with true.
  cbv iota. cbn [Z.eqb negb].
  rewrite (check_data_spec big (with_crc (sent (mm_head m) data) 0) data (h_size (mm_head m)));
    [|done| |done|done].
  2: { destruct Hsent as (? & ? & ? & ? & ?). unfold msg_ok, with_crc. simpl. auto 10 with lia. }
  change (h_data_crc (with_crc (sent (mm_head m) data) 0)) with (rrr_crc32buf data).
  rewrite Z.eqb_refl, bind_ret. cbn [Z.eqb negb].
  change (cleared (with_crc (sent (mm_head m) data) 0)) with (cleared (mm_head m)).
  change (msg_bytes big (cleared (mm_head m)) data) with (mm_wire big (clear_crc m)).
  assert (get big msg_type (mm_wire big (clear_crc m)) = Ret RRR_MSG_TYPE_MESSAGE) as ->.
  { unfold mm_wire, msg_bytes. rewrite get_type by fields. simpl. rewrite Htype.
    by rewrite host_dec_enc. }
  rewrite bind_ret, Z.eqb_refl. destruct (callback_msg cb) as [callback|]; [|done].
  change (h_size (mm_head m)) with (h_size (mm_head (clear_crc m))).
  rewrite to_host_and_verify_spec by (by apply clear_crc_ok). rewrite bind_ret.
  change (acceptable (clear_crc m)) with (acceptable m). by destruct (acceptable m).
Qed.

End Delivery.

(** C2. Delivery.  A data message prepared and checksummed by its sender
    reaches the message callback of the receiver as the same message with its
    checksums cleared, whatever the byte orders of the two hosts, if its type,
    class and topic are acceptable, and is answered with a soft error, never
    with a callback, if they are not or there is no callback. *)
Theorem rrr_msg_delivery {W} big_sender big_receiver undefined (cb : callbacks W) m w :
  mm_ok m -> h_type (mm_head m) = RRR_MSG_TYPE_MESSAGE ->
  exists wire,
    (message ← rrr_msg_msg_prepare_for_network big_sender (mm_bytes big_sender m);
     rrr_msg_checksum_and_to_network_endian big_sender message) = Ret wire /\
    rrr_msg_to_host_and_verify_with_callback big_receiver undefined cb wire (h_size (mm_head m)) w
    = match callback_msg cb with
      | Some callback =>
        if acceptable m then callback (mm_bytes big_receiver (clear_crc m)) w
        else Ret (RRR_READ_SOFT_ERROR, w)
      | None => Ret (RRR_READ_SOFT_ERROR, w)
      end.
Proof.
  intros Hm Ht. exists (mm_sent m). split; [by apply send_spec|by apply receive_spec].
Qed.

Lemma rrr_msg_delivery_witness :
  let m := new_message MSG_TYPE_MSG MSG_CLASS_DATA 5 [97] [1; 2] in
  exists wire,
    (message ← rrr_msg_msg_prepare_for_network false (mm_bytes false m);
     rrr_msg_checksum_and_to_network_endian false message) = Ret wire /\
    rrr_msg_to_host_and_verify_with_callback true MsgStats.zero_stats
      (mk_callbacks (Some (fun bytes w => Ret (0, w + Z.of_nat (length bytes)))) None None None None) wire 33 0
    = Ret (0, 33).
Proof.
  intros m.
  destruct (rrr_msg_delivery false true MsgStats.zero_stats
    (mk_callbacks (Some (fun bytes w => Ret (0, w + Z.of_nat (length bytes)))) None None None None) m 0)
    as (wire & H1 & H2).
  - constructor; vm_compute; try (intuition congruence); repeat constructor; discriminate.
  - reflexivity.
  - exists wire. split; [exact H1|]. etransitivity; [exact H2|]. vm_compute. reflexivity.
Defined.

End MsgDispatch.
