(* ===== verification/TypeValue.v ===== *)
(** The typed values that arrays are made of (src/src/lib/type.c, type.h): their
    definitions, importing from raw data, packing into and unpacking from array
    messages, and exporting.

    A [struct rrr_type_definition] is a constructor and its function pointers are
    functions of it ([None] is NULL).  The data of a value is the object that is
    allocated for it; fresh memory holds what the function [fresh] says.  The data
    to import from is the list of the bytes between [start] and [end].  Fixed
    point numbers are converted with [long double] arithmetic by fixed_point.c;
    the conversion from text is an argument, [str_to_fixp], which gives the
    status, the number and the bytes parsed. *)
From S2P Require Import Prelude Types Parse Hdlc MsgHead MsgMsg.

Module TypeValue.
Import Types MsgHead MsgMsg.

Definition RRR_TYPE_PARSE_OK : Z := RRR_READ_OK.
Definition RRR_TYPE_PARSE_HARD_ERR : Z := RRR_READ_HARD_ERROR.
Definition RRR_TYPE_PARSE_SOFT_ERR : Z := RRR_READ_SOFT_ERROR.
Definition RRR_TYPE_PARSE_INCOMPLETE : Z := RRR_READ_INCOMPLETE.

Inductive rrr_type_definition :=
| definition_be
| definition_h
| definition_le
| definition_blob
| definition_ustr
| definition_istr
| definition_sep
| definition_msg
| definition_fixp
| definition_str
| definition_nsep
| definition_stx
| definition_err
| definition_vain
| definition_hdlc.

#[export] Instance rrr_type_definition_eq_dec : EqDecision rrr_type_definition.
Proof. solve_decision. Defined.

(** The member [type], [enum rrr_type_enum]. *)
Definition type (d : rrr_type_definition) : Z :=
  match d with
  | definition_le => 2 | definition_be => 3 | definition_h => 4 | definition_blob => 5
  | definition_ustr => 6 | definition_istr => 7 | definition_sep => 8 | definition_msg => 9
  | definition_fixp => 10 | definition_str => 11 | definition_nsep => 12 | definition_stx => 13
  | definition_err => 14 | definition_vain => 15 | definition_hdlc => 16
  end.

(** The member [identifier], [RRR_TYPE_NAME_...]. *)
Definition identifier (d : rrr_type_definition) : list Z :=
  match d with
  | definition_le => [108; 101] | definition_be => [98; 101] | definition_h => [104]
  | definition_blob => [98; 108; 111; 98] | definition_ustr => [117; 115; 116; 114]
  | definition_istr => [105; 115; 116; 114] | definition_sep => [115; 101; 112]
  | definition_msg => [109; 115; 103] | definition_fixp => [102; 105; 120; 112]
  | definition_str => [115; 116; 114] | definition_nsep => [110; 115; 101; 112]
  | definition_stx => [115; 116; 120] | definition_err => [101; 114; 114]
  | definition_vain => [118; 97; 105; 110] | definition_hdlc => [104; 100; 108; 99]
  end.

Definition type_templates : list rrr_type_definition :=
  [definition_be; definition_hdlc; definition_h; definition_le; definition_blob;
   definition_ustr; definition_istr; definition_sep; definition_msg; definition_fixp;
   definition_str; definition_nsep; definition_stx; definition_err; definition_vain].

(** The loop over the templates; the data is the text from [start] to [end]. *)
Fixpoint parse_from_string_loop (templates : list rrr_type_definition) (text : list Z)
  : option (rrr_type_definition * Z) :=
  match templates with
  | [] => None
  | d :: templates =>
    let len := length (identifier d) in
    if (length text <? len)%nat then parse_from_string_loop templates text
    else if decide (take len text = identifier d) then Some (d, Z.of_nat len)
    else parse_from_string_loop templates text
  end.

Definition rrr_type_parse_from_string (text : list Z) : option (rrr_type_definition * Z) :=
  parse_from_string_loop type_templates text.

Fixpoint get_from_id_loop (templates : list rrr_type_definition) (type_in : Z)
  : option rrr_type_definition :=
  match templates with
  | [] => None
  | d :: templates => if type d =? type_in then Some d else get_from_id_loop templates type_in
  end.

Definition rrr_type_get_from_id (type_in : Z) : option rrr_type_definition :=
  get_from_id_loop type_templates type_in.

(** * Flags and characters *)

Definition RRR_TYPE_FLAG_SIGNED : Z := 1.
Definition RRR_TYPE_FLAG_IS_SIGNED (flags : Z) : bool := flags &&& RRR_TYPE_FLAG_SIGNED =? 1.
Definition RRR_TYPE_FLAG_SET_SIGNED (flags : Z) : Z := flags ||| RRR_TYPE_FLAG_SIGNED.
Definition RRR_TYPE_FLAG_SET_UNSIGNED (flags : Z) : Z :=
  flags &&& u8 (Z.lnot RRR_TYPE_FLAG_SIGNED).

Definition RRR_TYPE_CHAR_IS_STX (c : Z) : bool := in_range 1 2 c.
Definition RRR_TYPE_CHAR_IS_SEP_A (c : Z) : bool := (c =? 10) || (c =? 13) || (c =? 9).
Definition RRR_TYPE_CHAR_IS_SEP_B (c : Z) : bool := in_range 33 47 c.
Definition RRR_TYPE_CHAR_IS_SEP_C (c : Z) : bool := in_range 58 64 c.
Definition RRR_TYPE_CHAR_IS_SEP_D (c : Z) : bool := in_range 91 96 c.
Definition RRR_TYPE_CHAR_IS_SEP_E (c : Z) : bool := in_range 123 126 c.
Definition RRR_TYPE_CHAR_IS_SEP_F (c : Z) : bool := (c =? 0) || in_range 3 4 c.
Definition RRR_TYPE_CHAR_IS_SEP (c : Z) : bool :=
  RRR_TYPE_CHAR_IS_SEP_A c || RRR_TYPE_CHAR_IS_SEP_B c || RRR_TYPE_CHAR_IS_SEP_C c ||
  RRR_TYPE_CHAR_IS_SEP_D c || RRR_TYPE_CHAR_IS_SEP_E c || RRR_TYPE_CHAR_IS_SEP_F c.

Definition rrr_type_validate_sep (c : Z) : bool := RRR_TYPE_CHAR_IS_SEP (schar c).
Definition rrr_type_validate_stx (c : Z) : bool := RRR_TYPE_CHAR_IS_STX (schar c).

(** * Values *)

(** [tag_length] is the length of [tag]; the terminating NUL is not in the list. *)
Record rrr_type_value := mk_value {
  definition : rrr_type_definition;
  flags : Z;
  import_length : Z;
  import_length_ref : option (list Z);
  total_stored_length : Z;
  element_count : Z;
  element_count_ref : option (list Z);
  tag : list Z;
  data : option (list Z)
}.

Definition tag_length (v : rrr_type_value) : Z := Z.of_nat (length (tag v)).

Definition set_definition d v := mk_value d (flags v) (import_length v) (import_length_ref v)
  (total_stored_length v) (element_count v) (element_count_ref v) (tag v) (data v).
Definition set_flags f v := mk_value (definition v) f (import_length v) (import_length_ref v)
  (total_stored_length v) (element_count v) (element_count_ref v) (tag v) (data v).
Definition set_import_length n v := mk_value (definition v) (flags v) n (import_length_ref v)
  (total_stored_length v) (element_count v) (element_count_ref v) (tag v) (data v).
Definition set_element_count n v := mk_value (definition v) (flags v) (import_length v)
  (import_length_ref v) (total_stored_length v) n (element_count_ref v) (tag v) (data v).
Definition set_stored n d v := mk_value (definition v) (flags v) (import_length v)
  (import_length_ref v) n (element_count v) (element_count_ref v) (tag v) d.

(** [n] bytes at [off] of the data; reading none of them is always possible. *)
Definition data_at (v : rrr_type_value) (off n : Z) : outcome (list Z) :=
  if n =? 0 then Ret [] else
  match data v with Some d => bytes_at off n d | None => Oob end.

(** The stored bytes. *)
Definition stored (v : rrr_type_value) : outcome (list Z) := data_at v 0 (total_stored_length v).

(** A C string ends at the first NUL. *)
Fixpoint c_str (l : list Z) : list Z :=
  match l with
  | [] => []
  | c :: l => if c =? 0 then [] else c :: c_str l
  end.

(** [None] is a NULL pointer. *)
Definition rrr_type_value_is_tag (v : rrr_type_value) (t : option (list Z)) : bool :=
  let a := c_str (tag v) in
  let b := match t with Some t => c_str t | None => [] end in
  match a, b with
  | [], [] => true
  | [], _ | _, [] => false
  | _, _ => bool_decide (a = b)
  end.

Definition sizeof_type_value : Z := 80.
Definition rrr_type_value_get_allocated_size (v : rrr_type_value) : Z :=
  u64 (u64 (sizeof_type_value + total_stored_length v) + tag_length v).

(** * Integers *)

Definition store8 (buf : list Z) (i b : Z) : outcome (list Z) :=
  if (0 <=? i) && (i <? Z.of_nat (length buf)) then Ret (<[Z.to_nat i := b]> buf) else Oob.

Section Host.
(** Byte order of the host, as in [MsgHead]. *)
Context (big : bool).

Definition RRR_TYPE_SYSTEM_ENDIAN_IS_LE : bool := negb big.

Definition rrr_le64toh (x : Z) : Z := if big then swap 8 x else x.

(** The loop that copies from the last byte to the first. *)
Fixpoint expand_be_loop (rpos : nat) (wpos : Z) (src temp_b : list Z) : outcome (list Z) :=
  b ← load8 src (Z.of_nat rpos);
  temp_b ← store8 temp_b wpos b;
  match rpos with
  | O => Ret temp_b
  | S rpos => expand_be_loop rpos (u32 (wpos - 1)) src temp_b
  end.

(** What [temp] holds before the copy. *)
Definition expand_fill (is_negative : bool) : list Z :=
  host_enc big 8 (if is_negative then 0xffffffffffffffff else 0).

Definition rrr_type_expand_be (import_length : Z) (src : list Z) (flags : Z) : outcome Z :=
  if import_length =? 0 then Bug else
  negative ← (if RRR_TYPE_FLAG_IS_SIGNED flags then
                b ← load8 src 0; Ret (0 <? b &&& 0x80)
              else Ret false);
  temp_b ← expand_be_loop (Z.to_nat (import_length - 1)) 7 src (expand_fill negative);
  Ret (rrr_be64toh big (host_dec big temp_b)).

Fixpoint expand_le_loop (n : nat) (pos : Z) (src temp_b : list Z) : outcome (list Z) :=
  match n with
  | O => Ret temp_b
  | S n =>
    b ← load8 src pos;
    temp_b ← store8 temp_b pos b;
    expand_le_loop n (pos + 1) src temp_b
  end.

Definition rrr_type_expand_le (import_length : Z) (src : list Z) (flags : Z) : outcome Z :=
  negative ← (if RRR_TYPE_FLAG_IS_SIGNED flags then
                b ← load8 src (import_length - 1); Ret (truth (b &&& 0x80))
              else Ret false);
  temp_b ← expand_le_loop (Z.to_nat import_length) 0 src (expand_fill negative);
  Ret (rrr_le64toh (host_dec big temp_b)).

(** * Importing

    Status, value and [*parsed_bytes]; the latter is given as well, since not all
    paths set it. *)

Context (fresh : Z -> list Z).

Fixpoint import_int_loop (expander : Z -> list Z -> Z -> outcome Z) (array_size : nat)
    (import_length flags : Z) (src : list Z) (wpos : Z) (target : list Z) : outcome (list Z) :=
  match array_size with
  | O => Ret target
  | S array_size =>
    result ← expander import_length src flags;
    target ← memcpy_to wpos (host_enc big 8 result) target;
    import_int_loop expander array_size import_length flags
      (drop (Z.to_nat import_length) src) (wpos + 8) target
  end.

Definition rrr_type_import_int (alloc_ok : bool) (expander : Z -> list Z -> Z -> outcome Z)
    (node : rrr_type_value) (parsed_bytes : Z) (start : list Z)
  : outcome (Z * rrr_type_value * Z) :=
  if data node then Bug else
  if 8 <? import_length node then Ret (RRR_TYPE_PARSE_SOFT_ERR, node, parsed_bytes) else
  let array_size := element_count node in
  let total_size := u32 (element_count node * import_length node) in
  if Z.of_nat (length start) <? total_size then
    Ret (RRR_TYPE_PARSE_INCOMPLETE, node, parsed_bytes)
  else
  let node := set_stored (u32 (element_count node * 8)) (data node) node in
  if negb alloc_ok then Ret (RRR_TYPE_PARSE_HARD_ERR, node, parsed_bytes) else
  target ← import_int_loop expander (Z.to_nat array_size) (import_length node) (flags node)
             start 0 (fresh (total_stored_length node));
  let node := set_stored (u32 (8 * element_count node)) (Some target) node in
  Ret (RRR_TYPE_PARSE_OK, set_definition definition_h node, total_size).

Definition rrr_type_import_le alloc_ok node parsed_bytes start :=
  rrr_type_import_int alloc_ok rrr_type_expand_le node parsed_bytes start.

Definition rrr_type_import_be alloc_ok node parsed_bytes start :=
  rrr_type_import_int alloc_ok rrr_type_expand_be node parsed_bytes start.

Definition rrr_type_import_host alloc_ok node parsed_bytes start :=
  if RRR_TYPE_SYSTEM_ENDIAN_IS_LE then rrr_type_import_le alloc_ok node parsed_bytes start
  else rrr_type_import_be alloc_ok node parsed_bytes start.

Definition rrr_type_import_blob (alloc_ok : bool) (node : rrr_type_value) (parsed_bytes : Z)
    (start : list Z) : outcome (Z * rrr_type_value * Z) :=
  if data node then Bug else
  let total_size := u32 (import_length node * element_count node) in
  if Z.of_nat (length start) <? total_size then
    Ret (RRR_TYPE_PARSE_INCOMPLETE, node, parsed_bytes)
  else if negb alloc_ok then Ret (RRR_TYPE_PARSE_HARD_ERR, node, parsed_bytes) else
  target ← memcpy_to 0 (take (Z.to_nat total_size) start)
             (fresh (if 0 <? total_size then total_size else 1));
  Ret (RRR_TYPE_PARSE_OK, set_stored total_size (Some target) node, total_size).

(** * Numbers as text *)

Definition is_digit (c : Z) : bool := in_range 48 57 c.

(** The digits at the start of the text and their value. *)
Fixpoint digits (acc : Z) (n : nat) (text : list Z) : Z * nat :=
  match text with
  | [] => (acc, n)
  | c :: text => if is_digit c then digits (acc * 10 + (c - 48)) (S n) text else (acc, n)
  end.

(** [strtoll] and [strtoull] with base 10 on a text without leading space: the
    value, which is the nearest one when it is out of range, and the number of
    characters converted. *)
Definition strto (text : list Z) (lo hi : Z) : Z * Z :=
  let '(negative, skip, text) :=
    match text with
    | c :: rest => if c =? 45 then (true, 1, rest) else if c =? 43 then (false, 1, rest)
                   else (false, 0, text)
    | [] => (false, 0, text)
    end in
  let '(v, n) := digits 0 0 text in
  if (n =? 0)%nat then (0, 0) else
  let v := if negative then - v else v in
  (Z.max lo (Z.min hi v), skip + Z.of_nat n).

Definition strtoll (text : list Z) : Z * Z := strto text (- 2 ^ 63) (2 ^ 63 - 1).
Definition strtoull (text : list Z) : Z * Z := strto text 0 (2 ^ 64 - 1).

(** Status, [*result] and the characters converted. *)
Definition rrr_type_convert_integer_10 (value : list Z) : Z * Z * Z :=
  match value with
  | [] => (1, 0, 0)
  | _ => let '(result, n) := strtoll value in (if n =? 0 then 1 else 0, result, n)
  end.

Definition rrr_type_convert_unsigned_integer_10 (value : list Z) : Z * Z * Z :=
  match value with
  | [] => (1, 0, 0)
  | _ => let '(result, n) := strtoull value in (if n =? 0 then 1 else 0, result, n)
  end.

Fixpoint skip_blank (n : Z) (text : list Z) : Z * list Z :=
  match text with
  | c :: rest => if (c =? 32) || (c =? 9) then skip_blank (n + 1) rest else (n, text)
  | [] => (n, [])
  end.

(** The loop that collects the number: [inl] when there are too many characters,
    else the characters and whether one behind them was found. *)
Fixpoint collect_number (is_signed : bool) (tmp : list Z) (text : list Z)
  : unit + list Z * bool :=
  match text with
  | [] => inr (tmp, false)
  | c :: text =>
    if is_digit c || (c =? 43) || (is_signed && (c =? 45)) then
      let tmp := tmp ++ [c] in
      if 63 <? Z.of_nat (length tmp) then inl tt else collect_number is_signed tmp text
    else inr (tmp, true)
  end.

(** Status, the 8 bytes of [target] when it is written, and [*parsed_bytes]. *)
Definition rrr_type_import_numeric_str_raw (parsed_bytes : Z) (start : list Z)
    (is_signed : bool) : Z * option (list Z) * Z :=
  match start with
  | [] => (RRR_TYPE_PARSE_INCOMPLETE, None, parsed_bytes)
  | _ =>
    let '(ignore_length, rest) := skip_blank 0 start in
    match collect_number is_signed [] rest with
    | inl _ => (RRR_TYPE_PARSE_SOFT_ERR, None, 0)
    | inr (_, false) => (RRR_TYPE_PARSE_INCOMPLETE, None, 0)
    | inr (tmp, true) =>
      let number_length := Z.of_nat (length tmp) in
      if number_length =? 0 then (RRR_TYPE_PARSE_SOFT_ERR, None, 0) else
      let '(err, result, convert_end) :=
        if is_signed then rrr_type_convert_integer_10 tmp
        else rrr_type_convert_unsigned_integer_10 tmp in
      if negb (err =? 0) then (RRR_TYPE_PARSE_SOFT_ERR, None, 0) else
      if negb (convert_end =? number_length) then (RRR_TYPE_PARSE_SOFT_ERR, None, 0) else
      (RRR_TYPE_PARSE_OK, Some (host_enc big 8 (u64 result)), u32 (number_length + ignore_length))
    end
  end.

Definition rrr_type_import_ustr_raw parsed_bytes start :=
  rrr_type_import_numeric_str_raw parsed_bytes start false.
Definition rrr_type_import_istr_raw parsed_bytes start :=
  rrr_type_import_numeric_str_raw parsed_bytes start true.

(** The common body of [__rrr_type_import_ustr] and [__rrr_type_import_istr]. *)
Definition import_numeric_str (raw : Z -> list Z -> Z * option (list Z) * Z) (set : Z -> Z)
    (alloc_ok : bool) (node : rrr_type_value) (parsed_bytes : Z) (start : list Z)
  : outcome (Z * rrr_type_value * Z) :=
  if data node then Bug else
  if negb (element_count node =? 1) then Bug else
  if negb (import_length node =? 0) then Bug else
  if negb alloc_ok then Ret (RRR_TYPE_PARSE_HARD_ERR, node, parsed_bytes) else
  let '(ret, target, parsed_bytes) := raw parsed_bytes start in
  let node := set_stored (total_stored_length node) (Some (default (fresh 8) target)) node in
  if negb (ret =? 0) then Ret (ret, node, parsed_bytes) else
  let node := set_stored 8 (data node) (set_definition definition_h node) in
  Ret (ret, set_flags (set (flags node)) node, parsed_bytes).

Definition rrr_type_import_ustr alloc_ok node parsed_bytes start :=
  import_numeric_str rrr_type_import_ustr_raw RRR_TYPE_FLAG_SET_UNSIGNED alloc_ok node
    parsed_bytes start.
Definition rrr_type_import_istr alloc_ok node parsed_bytes start :=
  import_numeric_str rrr_type_import_istr_raw RRR_TYPE_FLAG_SET_SIGNED alloc_ok node
    parsed_bytes start.

(** * Separators *)

Definition rrr_type_import_sep_stx (validate : Z -> bool) (alloc_ok : bool)
    (node : rrr_type_value) (parsed_bytes : Z) (start : list Z)
  : outcome (Z * rrr_type_value * Z) :=
  if data node then Bug else
  let total_size := u32 (import_length node * element_count node) in
  if Z.of_nat (length start) <? total_size then
    Ret (RRR_TYPE_PARSE_INCOMPLETE, node, parsed_bytes)
  else
  let chars := take (Z.to_nat total_size) start in
  if negb (forallb validate chars) then Ret (RRR_TYPE_PARSE_SOFT_ERR, node, parsed_bytes) else
  let found := Z.of_nat (length chars) in
  if negb (found =? total_size) then Ret (RRR_TYPE_PARSE_SOFT_ERR, node, parsed_bytes) else
  if negb alloc_ok then Ret (RRR_TYPE_PARSE_HARD_ERR, node, parsed_bytes) else
  target ← memcpy_to 0 chars (fresh found);
  Ret (RRR_TYPE_PARSE_OK, set_stored total_size (Some target) node, found).

Definition rrr_type_import_sep := rrr_type_import_sep_stx rrr_type_validate_sep.
Definition rrr_type_import_stx := rrr_type_import_sep_stx rrr_type_validate_stx.

(** * Messages *)

(** The message starts at the head of [msg], an object of which more follows. *)
Definition rrr_type_msg_to_host_single (msg : list Z) (max_size : Z) : outcome (Z * list Z) :=
  '(ret, target_size) ← rrr_msg_get_target_size_and_check_checksum big 0 msg max_size;
  if negb (ret =? 0) then Ret (RRR_TYPE_PARSE_SOFT_ERR, msg) else
  if max_size <? target_size then Ret (RRR_TYPE_PARSE_SOFT_ERR, msg) else
  '(ret, msg) ← rrr_msg_head_to_host_and_verify big msg target_size;
  if negb (ret =? 0) then Ret (RRR_TYPE_PARSE_SOFT_ERR, msg) else
  '(ret, msg) ← rrr_msg_check_data_checksum_and_length big msg target_size;
  if negb (ret =? 0) then Ret (RRR_TYPE_PARSE_SOFT_ERR, msg) else
  '(ret, msg) ← rrr_msg_msg_to_host_and_verify big msg target_size;
  if negb (ret =? 0) then Ret (RRR_TYPE_PARSE_SOFT_ERR, msg) else
  Ret (0, msg).

(** The loop over the messages: status, number of messages and new data.  A
    message that is accepted has a size of at least that of its header, so one
    round per stored byte is enough. *)
Fixpoint msg_unpack_loop (fuel : nat) (pos count : Z) (stored_length : Z) (d : list Z)
  : outcome (Z * Z * list Z) :=
  match fuel with
  | O => Oob
  | S fuel =>
    if stored_length <=? pos then Ret (0, count, d) else
    '(ret, msg) ← rrr_type_msg_to_host_single (drop (Z.to_nat pos) d) (stored_length - pos);
    let d := splice (Z.to_nat pos) msg d in
    if negb (ret =? 0) then Ret (ret, count, d) else
    size ← get big msg_size msg;
    msg_unpack_loop fuel (u32 (pos + size)) (u32 (count + 1)) stored_length d
  end.

Definition rrr_type_msg_unpack (node : rrr_type_value) : outcome (Z * rrr_type_value) :=
  '(ret, count, d) ← msg_unpack_loop (S (Z.to_nat (total_stored_length node))) 0 0
                       (total_stored_length node) (default [] (data node));
  let node := set_stored (total_stored_length node) (if data node then Some d else None) node in
  if negb (ret =? 0) then Ret (ret, node) else Ret (0, set_element_count count node).

(** The loop that adds up the sizes; the pointer to the message does not move. *)
Fixpoint import_msg_loop (n : nat) (msg : list Z) (size_total remaining_size target_size_total
    count : Z) : outcome (Z * Z * Z * Z) :=
  match n with
  | O => Ret (0, remaining_size, target_size_total, count)
  | S n =>
    if negb (0 <? remaining_size) then Ret (0, remaining_size, target_size_total, count) else
    if remaining_size <? sizeof_msg_msg - 1 then
      Ret (RRR_TYPE_PARSE_INCOMPLETE, remaining_size, target_size_total, count)
    else
    '(ret, target_size) ← rrr_msg_get_target_size_and_check_checksum big 0 msg
                            (u32 remaining_size);
    if negb (ret =? 0) then
      Ret (RRR_TYPE_PARSE_SOFT_ERR, remaining_size, target_size_total, count)
    else
    target_size_total ← rrr_types_checked_length_counter_add target_size_total target_size;
    if size_total <? target_size_total then
      Ret (RRR_TYPE_PARSE_INCOMPLETE, remaining_size, target_size_total, count)
    else
    import_msg_loop n msg size_total (remaining_size - target_size) target_size_total (count + 1)
  end.

Definition rrr_type_import_msg (alloc_ok : bool) (node : rrr_type_value) (parsed_bytes : Z)
    (start : list Z) : outcome (Z * rrr_type_value * Z) :=
  let size_total := Z.of_nat (length start) in
  '(ret, remaining_size, target_size_total, count) ←
    import_msg_loop (Z.to_nat (element_count node)) start size_total size_total 0 0;
  if negb (ret =? 0) then Ret (ret, node, 0) else
  if remaining_size <? 0 then Bug else
  if negb (count =? element_count node) && negb (element_count node =? 0) then
    Ret (RRR_TYPE_PARSE_SOFT_ERR, node, 0)
  else if RRR_LENGTH_MAX <? target_size_total then Ret (RRR_TYPE_PARSE_SOFT_ERR, node, 0)
  else if negb alloc_ok then
    Ret (RRR_TYPE_PARSE_HARD_ERR, set_stored (total_stored_length node) None node, 0)
  else
  d ← memcpy_to 0 (take (Z.to_nat target_size_total) start) (fresh target_size_total);
  '(ret, node) ← rrr_type_msg_unpack (set_stored target_size_total (Some d) node);
  if negb (ret =? 0) then Ret (ret, node, 0) else Ret (0, node, target_size_total).

(** * The other imports *)

Definition rrr_type_import_vain (alloc_ok : bool) (node : rrr_type_value) (parsed_bytes : Z)
    (start : list Z) : outcome (Z * rrr_type_value * Z) := Ret (0, node, 0).

Definition rrr_type_import_err (alloc_ok : bool) (node : rrr_type_value) (parsed_bytes : Z)
    (start : list Z) : outcome (Z * rrr_type_value * Z) :=
  Ret (RRR_TYPE_PARSE_SOFT_ERR, node, parsed_bytes).

Definition rrr_type_import_hdlc (alloc_ok : bool) (node : rrr_type_value) (parsed_bytes : Z)
    (start : list Z) : outcome (Z * rrr_type_value * Z) :=
  size ← rrr_length_from_ptr_sub_bug_const (Z.of_nat (length start)) 0;
  '(ret, state) ← Hdlc.rrr_hdlc_parse_frame
    (Hdlc.rrr_hdlc_parse_state_init (fresh Hdlc.RRR_HDLC_MAX) (Parse.rrr_parse_pos_init start size));
  if negb (ret =? 0) then
    Ret (if ret =? Hdlc.RRR_HDLC_INCOMPLETE then RRR_TYPE_PARSE_INCOMPLETE
         else if ret =? Hdlc.RRR_HDLC_SOFT_ERROR then RRR_TYPE_PARSE_SOFT_ERR
         else RRR_TYPE_PARSE_HARD_ERR, node, 0)
  else
  let data_size := Hdlc.result_wpos state in
  if negb (0 <? data_size) then Bug else
  if negb alloc_ok then
    Ret (RRR_TYPE_PARSE_HARD_ERR, set_stored (total_stored_length node) None node, 0)
  else
  src ← bytes_at 0 data_size (Hdlc.result state);
  target ← memcpy_to 0 src (fresh data_size);
  let node := set_stored data_size (Some target) (set_element_count 1 node) in
  Ret (RRR_TYPE_PARSE_OK, set_definition definition_hdlc node, Parse.pos (Hdlc.parse_pos state)).

(** [str_to_fixp] stands for [rrr_fixp_str_to_fixp]. *)
Definition rrr_type_import_fixp (str_to_fixp : list Z -> Z * Z * Z) (alloc_ok : bool)
    (node : rrr_type_value) (parsed_bytes : Z) (start : list Z)
  : outcome (Z * rrr_type_value * Z) :=
  if data node then Bug else
  if negb (element_count node =? 1) then Bug else
  if negb (import_length node =? 0) then Bug else
  _ ← rrr_length_from_ptr_sub_bug_const (Z.of_nat (length start)) 0;
  let '(ret, fixp, endptr) := str_to_fixp start in
  if negb (ret =? 0) then Ret (RRR_TYPE_PARSE_SOFT_ERR, node, parsed_bytes) else
  if endptr =? Z.of_nat (length start) then Ret (RRR_TYPE_PARSE_INCOMPLETE, node, parsed_bytes)
  else if negb alloc_ok then Ret (RRR_TYPE_PARSE_HARD_ERR, node, parsed_bytes) else
  let node := set_stored 8 (Some (host_enc big 8 (u64 fixp))) node in
  if endptr <? 0 then Bug else Ret (ret, node, u32 endptr).

(** The number of bytes up to the closing quote, if there is one. *)
Fixpoint str_length_loop (n : Z) (prev_was_backslash : bool) (buf : list Z) : option Z :=
  match buf with
  | [] => None
  | c :: buf =>
    if negb prev_was_backslash && (c =? 34) then Some n
    else str_length_loop (n + 1) (negb prev_was_backslash && (c =? 92)) buf
  end.

(** Status and [*import_length]. *)
Definition get_import_length_str (buf : list Z) : Z * Z :=
  match buf with
  | [] => (RRR_TYPE_PARSE_INCOMPLETE, 0)
  | c :: rest =>
    if negb (c =? 34) then (RRR_TYPE_PARSE_SOFT_ERR, 0) else
    match str_length_loop 1 false rest with
    | Some n => (RRR_TYPE_PARSE_OK, u32 (n + 1))
    | None => (RRR_TYPE_PARSE_INCOMPLETE, 0)
    end
  end.

Fixpoint nsep_length_loop (len : Z) (buf : list Z) : Z * Z :=
  match buf with
  | [] => (RRR_TYPE_PARSE_INCOMPLETE, len)
  | c :: buf =>
    if RRR_TYPE_CHAR_IS_SEP_A (schar c) || RRR_TYPE_CHAR_IS_SEP_F (schar c) then
      (if len =? 0 then RRR_TYPE_PARSE_SOFT_ERR else RRR_TYPE_PARSE_OK, len)
    else nsep_length_loop (u32 (len + 1)) buf
  end.

Definition get_import_length_nsep (buf : list Z) : Z * Z := nsep_length_loop 0 buf.

Definition rrr_type_import_nsep (alloc_ok : bool) (node : rrr_type_value) (parsed_bytes : Z)
    (start : list Z) : outcome (Z * rrr_type_value * Z) :=
  if data node then Bug else
  if negb (element_count node =? 1) then Bug else
  if negb (import_length node =? 0) then Bug else
  let '(ret, len) := get_import_length_nsep start in
  if negb (ret =? 0) then Ret (ret, node, parsed_bytes) else
  let node := set_import_length len node in
  '(ret, node, parsed_bytes_tmp) ← rrr_type_import_blob alloc_ok node 0 start;
  if negb (ret =? 0) then Ret (ret, node, parsed_bytes) else
  if negb (parsed_bytes_tmp =? len) then Bug else
  Ret (ret, set_import_length len node, parsed_bytes_tmp).

(** The loop that strips escape sequences in place, and the bytes written. *)
Fixpoint strip_escapes (prev_was_backslash : bool) (l : list Z) : list Z :=
  match l with
  | [] => if prev_was_backslash then [92] else []
  | c :: l => if negb prev_was_backslash && (c =? 92) then strip_escapes true l
              else c :: strip_escapes false l
  end.

Definition rrr_type_import_str (alloc_ok : bool) (node : rrr_type_value) (parsed_bytes : Z)
    (start : list Z) : outcome (Z * rrr_type_value * Z) :=
  if data node then Bug else
  if negb (element_count node =? 1) then Bug else
  if negb (import_length node =? 0) then Bug else
  let '(ret, len) := get_import_length_str start in
  if negb (ret =? 0) then Ret (ret, node, parsed_bytes) else
  let node := set_import_length (u32 (len - 2)) node in
  '(ret, node, parsed_bytes_tmp) ← rrr_type_import_blob alloc_ok node 0 (drop 1 start);
  if negb (ret =? 0) then Ret (ret, node, parsed_bytes) else
  if negb (u32 (parsed_bytes_tmp + 2) =? len) then Bug else
  let node := set_import_length len node in
  src ← stored node;
  let text := strip_escapes false src in
  d ← memcpy_to 0 text (default [] (data node));
  Ret (ret, set_stored (Z.of_nat (length text)) (Some d) node, u32 (parsed_bytes_tmp + 2)).

(** The member [do_import]. *)
Definition do_import (str_to_fixp : list Z -> Z * Z * Z) (d : rrr_type_definition) :=
  match d with
  | definition_be => rrr_type_import_be
  | definition_h => rrr_type_import_host
  | definition_le => rrr_type_import_le
  | definition_blob => rrr_type_import_blob
  | definition_ustr => rrr_type_import_ustr
  | definition_istr => rrr_type_import_istr
  | definition_sep => rrr_type_import_sep
  | definition_msg => rrr_type_import_msg
  | definition_fixp => rrr_type_import_fixp str_to_fixp
  | definition_str => rrr_type_import_str
  | definition_nsep => rrr_type_import_nsep
  | definition_stx => rrr_type_import_stx
  | definition_err => rrr_type_import_err
  | definition_vain => rrr_type_import_vain
  | definition_hdlc => rrr_type_import_hdlc
  end.

(** * Unpacking, packing and exporting *)

(** The loop over the 64-bit words of an object; [conv] is the byte order
    conversion. *)
Fixpoint convert_64_loop (conv : Z -> Z) (array_size : nat) (pos : Z) (d : list Z)
  : outcome (list Z) :=
  match array_size with
  | O => Ret []
  | S array_size =>
    bs ← bytes_at pos 8 d;
    rest ← convert_64_loop conv array_size (pos + 8) d;
    Ret (host_enc big 8 (conv (host_dec big bs)) ++ rest)
  end.

Definition rrr_type_64_unpack (target_type : Z) (node : rrr_type_value)
  : outcome (Z * rrr_type_value) :=
  if negb (total_stored_length node mod 8 =? 0) then Ret (1, node) else
  let array_size := total_stored_length node / 8 in
  d ← convert_64_loop (rrr_be64toh big) (Z.to_nat array_size) 0 (default [] (data node));
  match rrr_type_get_from_id target_type with
  | None => Oob
  | Some def =>
    let d := match data node with Some old => Some (splice 0 d old) | None => None end in
    Ret (0, set_definition def (set_stored (total_stored_length node) d node))
  end.

Definition rrr_type_be_unpack := rrr_type_64_unpack 4.
Definition rrr_type_fixp_unpack := rrr_type_64_unpack 10.

Definition rrr_type_blob_unpack (node : rrr_type_value) : outcome (Z * rrr_type_value) :=
  if total_stored_length node =? 0 then Ret (1, node) else Ret (0, node).
Definition rrr_type_str_unpack (node : rrr_type_value) : outcome (Z * rrr_type_value) :=
  Ret (0, node).
Definition rrr_type_vain_unpack (node : rrr_type_value) : outcome (Z * rrr_type_value) :=
  Ret (0, node).

(** The member [unpack]. *)
Definition unpack (d : rrr_type_definition)
  : option (rrr_type_value -> outcome (Z * rrr_type_value)) :=
  match d with
  | definition_be => Some rrr_type_be_unpack
  | definition_blob | definition_sep | definition_nsep | definition_stx | definition_hdlc =>
    Some rrr_type_blob_unpack
  | definition_msg => Some rrr_type_msg_unpack
  | definition_fixp => Some rrr_type_fixp_unpack
  | definition_str => Some rrr_type_str_unpack
  | definition_vain => Some rrr_type_vain_unpack
  | definition_h | definition_le | definition_ustr | definition_istr | definition_err => None
  end.

(** Exports give the status and the bytes written, whose number is
    [*written_bytes]; packing gives the new type as well. *)
Definition rrr_type_64_export_or_pack (node : rrr_type_value) : outcome (Z * list Z) :=
  if negb (total_stored_length node mod 8 =? 0) then Ret (1, []) else
  let array_size := total_stored_length node / 8 in
  d ← convert_64_loop (rrr_htobe64 big) (Z.to_nat array_size) 0 (default [] (data node));
  Ret (0, d).

Definition rrr_type_host_export := rrr_type_64_export_or_pack.

Definition rrr_type_host_pack (node : rrr_type_value) : outcome (Z * list Z * Z) :=
  '(ret, bytes) ← rrr_type_64_export_or_pack node; Ret (ret, bytes, 3).
Definition rrr_type_fixp_pack (node : rrr_type_value) : outcome (Z * list Z * Z) :=
  '(ret, bytes) ← rrr_type_64_export_or_pack node; Ret (ret, bytes, 10).

Definition rrr_type_fixp_export (node : rrr_type_value) : outcome (Z * list Z) := Bug.

Definition rrr_type_blob_export_or_pack (node : rrr_type_value) : outcome (Z * list Z) :=
  bytes ← stored node; Ret (0, bytes).

Definition rrr_type_blob_pack (node : rrr_type_value) : outcome (Z * list Z * Z) :=
  if total_stored_length node =? 0 then Ret (1, [], 0) else
  '(ret, bytes) ← rrr_type_blob_export_or_pack node; Ret (ret, bytes, type (definition node)).

Definition rrr_type_blob_export (node : rrr_type_value) : outcome (Z * list Z) :=
  if total_stored_length node =? 0 then Ret (1, []) else rrr_type_blob_export_or_pack node.

Definition rrr_type_str_pack (node : rrr_type_value) : outcome (Z * list Z * Z) :=
  '(ret, bytes) ← rrr_type_blob_export_or_pack node; Ret (ret, bytes, type (definition node)).

(** The loop over the messages; each is copied to the target and converted there.
    A message has at least the size of its struct, so one round per stored byte is
    enough. *)
Fixpoint msg_pack_loop (fuel : nat) (pos stored_length : Z) (d target : list Z)
  : outcome (Z * Z * list Z) :=
  match fuel with
  | O => Oob
  | S fuel =>
    if stored_length <=? pos then Ret (0, pos, target) else
    let source := drop (Z.to_nat pos) d in
    total ← MSG_TOTAL_SIZE big source;
    if total <? sizeof_msg_msg - 1 then Ret (1, pos, target) else
    if stored_length <? u32 (pos + total) then Ret (1, pos, target) else
    msg ← bytes_at 0 total source;
    msg ← rrr_msg_msg_prepare_for_network big msg;
    msg ← rrr_msg_checksum_and_to_network_endian big msg;
    msg_pack_loop fuel (u32 (pos + total)) stored_length d (target ++ msg)
  end.

Definition rrr_type_msg_pack_or_export (node : rrr_type_value) : outcome (Z * list Z) :=
  '(ret, pos, bytes) ← msg_pack_loop (S (Z.to_nat (total_stored_length node))) 0
                         (total_stored_length node) (default [] (data node)) [];
  if negb (ret =? 0) then Ret (1, bytes) else
  if negb (pos =? total_stored_length node) then Ret (1, bytes) else Ret (0, bytes).

Definition rrr_type_msg_export := rrr_type_msg_pack_or_export.

Definition rrr_type_msg_pack (node : rrr_type_value) : outcome (Z * list Z * Z) :=
  '(ret, bytes) ← rrr_type_msg_pack_or_export node;
  Ret (ret, bytes, if ret =? 0 then 9 else 0).

Definition needs_escape (c : Z) : bool := (c =? 92) || (c =? 34).

(** Status and [*bytes]. *)
Definition rrr_type_str_get_export_length (node : rrr_type_value) : outcome (Z * Z) :=
  text ← stored node;
  let escape_count := u32 (Z.of_nat (length (filter (fun c => needs_escape c = true) text))) in
  let tmp := u64 (u64 (total_stored_length node + 2) + escape_count) in
  if RRR_LENGTH_MAX <? tmp then Ret (1, 0) else Ret (0, u32 tmp).

Definition rrr_type_str_export (node : rrr_type_value) : outcome (Z * list Z) :=
  text ← stored node;
  Ret (0, [34] ++ flat_map (fun c => if needs_escape c then [92; c] else [c]) text ++ [34]).

Definition rrr_type_vain_export (node : rrr_type_value) : outcome (Z * list Z) := Ret (0, []).
Definition rrr_type_vain_pack (node : rrr_type_value) : outcome (Z * list Z * Z) :=
  Ret (0, [], 15).

Definition rrr_type_hdlc_get_export_length (node : rrr_type_value) : outcome (Z * Z) :=
  src ← stored node;
  '(ret, n) ← Hdlc.rrr_hdlc_get_export_length src;
  if negb (ret =? 0) then Ret (1, n) else Ret (0, n).

Definition rrr_type_hdlc_export (node : rrr_type_value) : outcome (Z * list Z) :=
  src ← stored node; Ret (0, Hdlc.rrr_hdlc_export_frame src).

(** The members [get_export_length], [do_export] and [pack]. *)
Definition get_export_length (d : rrr_type_definition)
  : option (rrr_type_value -> outcome (Z * Z)) :=
  match d with
  | definition_str => Some rrr_type_str_get_export_length
  | definition_hdlc => Some rrr_type_hdlc_get_export_length
  | _ => None
  end.

Definition do_export (d : rrr_type_definition)
  : option (rrr_type_value -> outcome (Z * list Z)) :=
  match d with
  | definition_h => Some rrr_type_host_export
  | definition_blob | definition_sep | definition_nsep | definition_stx =>
    Some rrr_type_blob_export
  | definition_msg => Some rrr_type_msg_export
  | definition_fixp => Some rrr_type_fixp_export
  | definition_str => Some rrr_type_str_export
  | definition_vain => Some rrr_type_vain_export
  | definition_hdlc => Some rrr_type_hdlc_export
  | definition_be | definition_le | definition_ustr | definition_istr | definition_err => None
  end.

Definition pack (d : rrr_type_definition)
  : option (rrr_type_value -> outcome (Z * list Z * Z)) :=
  match d with
  | definition_h => Some rrr_type_host_pack
  | definition_blob | definition_sep | definition_nsep | definition_stx | definition_hdlc =>
    Some rrr_type_blob_pack
  | definition_msg => Some rrr_type_msg_pack
  | definition_fixp => Some rrr_type_fixp_pack
  | definition_str => Some rrr_type_str_pack
  | definition_vain => Some rrr_type_vain_pack
  | definition_be | definition_le | definition_ustr | definition_istr | definition_err => None
  end.

(** * Conversion to integers *)

Definition rrr_type_blob_to_64 (node : rrr_type_value) : outcome Z :=
  let n := total_stored_length node in
  let get_length := if 8 <? n then 8 else n in
  if get_length =? 0 then Ret 0 else
  src ← data_at node (n - get_length) get_length;
  rrr_type_expand_be get_length src 0.

Definition rrr_type_64_to_64 (node : rrr_type_value) : outcome Z :=
  bs ← data_at node 0 8; Ret (host_dec big bs).
Definition rrr_type_vain_to_64 (node : rrr_type_value) : outcome Z := Ret 0.
Definition rrr_type_hdlc_to_64 (node : rrr_type_value) : outcome Z := Ret 1.

(** The member [to_64]. *)
Definition to_64 (d : rrr_type_definition) : option (rrr_type_value -> outcome Z) :=
  match d with
  | definition_be | definition_h | definition_le => Some rrr_type_64_to_64
  | definition_err => None
  | definition_vain => Some rrr_type_vain_to_64
  | definition_hdlc => Some rrr_type_hdlc_to_64
  | _ => Some rrr_type_blob_to_64
  end.

Definition rrr_type_h_to_ull (node : rrr_type_value) : outcome Z := rrr_type_64_to_64 node.

(** [strtoull] also skips white space; a division by zero is [Oob]. *)
Fixpoint skip_space (text : list Z) : list Z :=
  match text with
  | c :: rest => if (c =? 32) || in_range 9 13 c then skip_space rest else text
  | [] => []
  end.

Definition rrr_type_str_to_ull (node : rrr_type_value) : outcome Z :=
  if total_stored_length node =? 0 then Ret 0 else
  if element_count node =? 0 then Oob else
  let element_size := total_stored_length node / element_count node in
  let len := if element_size <? 256 then element_size else 255 in
  tmp ← data_at node 0 len;
  let text := skip_space (c_str tmp) in
  Ret (match text with
       | c :: rest => if c =? 45 then u64 (- (strtoull rest).1) else (strtoull text).1
       | [] => 0
       end).

(** * Making values *)

(** Allocations are numbered: the value, the two references, the data, the tag. *)
Definition rrr_type_value_set_tag (alloc_ok : bool) (v : rrr_type_value) (t : list Z)
  : Z * rrr_type_value :=
  let with_tag t := mk_value (definition v) (flags v) (import_length v) (import_length_ref v)
    (total_stored_length v) (element_count v) (element_count_ref v) t (data v) in
  match t with
  | [] => (0, with_tag [])
  | _ => if negb alloc_ok then (1, with_tag []) else (0, with_tag t)
  end.

Definition rrr_type_value_set_data (v : rrr_type_value) (d : list Z) (data_length : Z)
  : outcome rrr_type_value :=
  if (element_count v =? 0) || negb (data_length mod element_count v =? 0) then Bug
  else Ret (set_stored data_length (Some d) v).

(** A reference that is NULL or empty is not stored. *)
Definition new_ref (alloc_ok : bool) (r : option (list Z)) : option (option (list Z)) :=
  match r with
  | None => Some None
  | Some t =>
    match c_str t with
    | [] => Some None
    | t => if alloc_ok then Some (Some t) else None
    end
  end.

(** [tag_src] is the object the tag is copied from.  Status and [*result]. *)
Definition rrr_type_value_new (alloc : nat -> bool) (d : rrr_type_definition) (flags : Z)
    (tag_length : Z) (tag_src : list Z) (import_length : Z) (import_length_ref : option (list Z))
    (element_count : Z) (element_count_ref : option (list Z)) (stored_length : Z)
  : outcome (Z * option rrr_type_value) :=
  if negb (alloc 0%nat) then Ret (1, None) else
  match new_ref (alloc 1%nat) import_length_ref with
  | None => Ret (1, None)
  | Some length_ref =>
    match new_ref (alloc 2%nat) element_count_ref with
    | None => Ret (1, None)
    | Some count_ref =>
      if (0 <? stored_length) && negb (alloc 3%nat) then Ret (1, None) else
      let d' := if 0 <? stored_length then Some (fresh stored_length) else None in
      if (0 <? tag_length) && negb (alloc 4%nat) then Ret (1, None) else
      t ← (if 0 <? tag_length then bytes_at 0 tag_length tag_src else Ret []);
      let v := mk_value d flags import_length length_ref stored_length element_count count_ref
                 [] d' in
      let '(ret, v) := rrr_type_value_set_tag (alloc 4%nat) v t in
      if negb (ret =? 0) then Ret (1, None) else Ret (0, Some v)
    end
  end.

(** [data_start] is the object from the pointer on, first the tag, then the data. *)
Definition rrr_type_value_new_and_unpack (alloc : nat -> bool) (d : rrr_type_definition)
    (data_start : list Z) (flags tag_length total_length element_count : Z)
  : outcome (Z * option rrr_type_value) :=
  '(ret, v) ← rrr_type_value_new alloc d flags tag_length data_start total_length None
                element_count None total_length;
  match v with
  | None => Ret (ret, None)
  | Some v =>
    if negb (ret =? 0) then Ret (ret, None) else
    v ← (if 0 <? total_length then
           src ← bytes_at tag_length total_length data_start;
           d' ← memcpy_to 0 src (default [] (data v));
           Ret (set_stored (total_stored_length v) (Some d') v)
         else Ret v);
    match unpack (definition v) with
    | None => Ret (1, None)
    | Some f =>
      '(ret, v) ← f v;
      if negb (ret =? 0) then Ret (ret, None) else Ret (0, Some v)
    end
  end.

Definition rrr_type_value_new_simple (alloc : nat -> bool) (d : rrr_type_definition)
    (flags tag_length : Z) (tag_src : list Z) :=
  rrr_type_value_new alloc d flags tag_length tag_src 0 None 0 None 0.

Definition rrr_type_new_vain (alloc : nat -> bool) (tag_length : Z) (tag_src : list Z) :=
  rrr_type_value_new alloc definition_vain 0 tag_length tag_src 0 None 1 None 0.

Definition rrr_type_new_h (alloc : nat -> bool) (tag_length : Z) (tag_src : list Z)
    (element_count : Z) : outcome (Z * option rrr_type_value) :=
  let stored_length := u64 (8 * element_count) in
  if negb (0 <? stored_length) then Bug else
  if RRR_LENGTH_MAX <? stored_length then Ret (RRR_TYPE_PARSE_SOFT_ERR, None) else
  '(ret, v) ← rrr_type_value_new alloc definition_h 0 tag_length tag_src 0 None element_count
                None (u32 stored_length);
  match v with
  | None => Ret (ret, None)
  | Some v =>
    Ret (ret, Some (set_stored (total_stored_length v)
                      (Some (replicate (Z.to_nat stored_length) 0)) v))
  end.

(** Allocations as above. *)
Definition rrr_type_value_clone (alloc : nat -> bool) (source : rrr_type_value)
    (do_clone_data : bool) : outcome (Z * option rrr_type_value) :=
  if negb (alloc 0%nat) then Ret (1, None) else
  if (if import_length_ref source then negb (alloc 1%nat) else false) then Ret (1, None) else
  if (if element_count_ref source then negb (alloc 2%nat) else false) then Ret (1, None) else
  let clone d := mk_value (definition source) (flags source) (import_length source)
    (import_length_ref source) (total_stored_length source) (element_count source)
    (element_count_ref source) (tag source) d in
  let finish d :=
    if (0 <? tag_length source) && negb (alloc 4%nat) then Ret (1, None)
    else Ret (0, Some (clone d)) in
  if do_clone_data && (if data source then true else false) then
    if negb (alloc 3%nat) then Ret (1, None) else
    d ← stored source; finish (Some d)
  else finish None.

Definition rrr_type_value_get_export_length (v : rrr_type_value) : outcome (Z * Z) :=
  match get_export_length (definition v) with
  | Some f => f v
  | None => Ret (0, total_stored_length v)
  end.

(** Status, [*target] and [*written_bytes]. *)
Definition rrr_type_value_allocate_and_export (alloc_ok : bool) (node : rrr_type_value)
  : outcome (Z * option (list Z) * Z) :=
  '(ret, buf_size) ← rrr_type_value_get_export_length node;
  if negb (ret =? 0) then Ret (ret, None, 0) else
  if negb alloc_ok then Ret (1, None, 0) else
  match do_export (definition node) with
  | None => Oob
  | Some f =>
    '(ret, bytes) ← f node;
    buf ← memcpy_to 0 bytes (fresh buf_size);
    if negb (ret =? 0) then Ret (1, None, 0) else Ret (0, Some buf, Z.of_nat (length bytes))
  end.

(** [data_start] is what lies between the two pointers. *)
Definition rrr_type_value_allocate_and_import_raw (str_to_fixp : list Z -> Z * Z * Z)
    (alloc : nat -> bool) (import_alloc_ok : bool) (d : rrr_type_definition)
    (data_start : list Z) (tag_length : Z) (tag_src : list Z) (import_length element_count : Z)
  : outcome (Z * option rrr_type_value) :=
  let stored_length := u32 (import_length * element_count) in
  if negb (stored_length =? Z.of_nat (length data_start)) then Bug else
  '(ret, v) ← rrr_type_value_new alloc d 0 tag_length tag_src import_length None element_count
                None 0;
  match v with
  | None => Ret (1, None)
  | Some v =>
    if data v then Bug else
    '(ret, v, parsed_bytes) ← do_import str_to_fixp d import_alloc_ok v 0 data_start;
    if negb (ret =? 0) then Ret (1, None) else
    if negb (parsed_bytes =? stored_length) then Ret (1, None) else
    Ret (0, Some v)
  end.

Definition rrr_type_value_with_tmp_do {W} (alloc : nat -> bool) (d : rrr_type_definition)
    (data_start : list Z) (flags tag_length total_length element_count : Z)
    (callback : rrr_type_value -> W -> outcome (Z * W)) (w : W) : outcome (Z * W) :=
  '(ret, v) ← rrr_type_value_new_and_unpack alloc d data_start flags tag_length total_length
                element_count;
  match v with
  | None => Ret (ret, w)
  | Some v => callback v w
  end.

End Host.

End TypeValue.
