(* ===== verification/Array.v ===== *)
(** Arrays of typed values (src/src/lib/array.c, array.h): building and editing
    them, and their form as the data of a message.

    The linked list of values is a list.  Allocation number [n] made for value
    number [i] succeeds when [alloc i n] holds; a tag is a C string, [None] for
    NULL. *)
From S2P Require Import Prelude Types MsgHead MsgMsg TypeValue.

Module Array.
Import Types MsgHead MsgMsg TypeValue.

Definition RRR_ARRAY_VERSION : Z := 7.
Definition RRR_ARRAY_OK : Z := RRR_READ_OK.
Definition RRR_ARRAY_SOFT_ERROR : Z := RRR_READ_SOFT_ERROR.
Definition RRR_ARRAY_ITERATE_STOP : Z := RRR_READ_EOF.
Definition RRR_TYPE_TAG_MAX : Z := RRR_LENGTH_MAX.

(** [struct rrr_array_value_packed] without the first byte of the data. *)
Definition packed_type : field := (0, 1)%nat.
Definition packed_flags : field := (1, 1)%nat.
Definition packed_tag_length : field := (2, 4)%nat.
Definition packed_total_length : field := (6, 4)%nat.
Definition packed_elements : field := (10, 4)%nat.
Definition sizeof_packed : Z := 15.

Record rrr_array := mk_array {
  values : list rrr_type_value;
  array_version : Z
}.

Definition empty_array : rrr_array := mk_array [] 0.
Definition set_values vs a := mk_array vs (array_version a).
Definition append v a := mk_array (values a ++ [v]) (array_version a).

(** * Cloning *)

(** The loop over the source; [None] when a value could not be cloned. *)
Fixpoint clone_values_loop (alloc : nat -> nat -> bool) (i : nat) (source : list rrr_type_value)
    (do_clone_data : bool) : outcome (option (list rrr_type_value)) :=
  match source with
  | [] => Ret (Some [])
  | v :: source =>
    '(ret, new_value) ← rrr_type_value_clone (alloc i) v do_clone_data;
    match new_value with
    | None => Ret None
    | Some new_value =>
      rest ← clone_values_loop alloc (S i) source do_clone_data;
      Ret (match rest with Some vs => Some (new_value :: vs) | None => None end)
    end
  end.

Definition rrr_array_clone_values (alloc : nat -> nat -> bool) (target source : rrr_array)
    (do_clone_data : bool) : outcome (Z * rrr_array) :=
  match values target with
  | _ :: _ => Bug
  | [] =>
    vs ← clone_values_loop alloc 0 (values source) do_clone_data;
    Ret (match vs with
         | Some vs => (0, mk_array vs (array_version source))
         | None => (1, empty_array)
         end)
  end.

Definition rrr_array_clone_without_data alloc target source :=
  rrr_array_clone_values alloc target source false.

(** [RRR_LL_MERGE_AND_CLEAR_SOURCE_HEAD] leaves the version of the target. *)
Definition merge (target source : rrr_array) : rrr_array :=
  set_values (values target ++ values source) target.

Definition rrr_array_append_from (alloc : nat -> nat -> bool) (target source : rrr_array)
  : outcome (Z * rrr_array) :=
  '(ret, tmp) ← rrr_array_clone_values alloc empty_array source true;
  if negb (ret =? 0) then Ret (ret, target) else Ret (ret, merge target tmp).

Definition rrr_array_clone (alloc_ok : bool) (alloc : nat -> nat -> bool) (source : rrr_array)
  : outcome (Z * option rrr_array) :=
  if negb alloc_ok then Ret (0, None) else
  '(ret, array) ← rrr_array_append_from alloc empty_array source;
  if negb (ret =? 0) then Ret (ret, None) else Ret (ret, Some array).

(** * Adding values *)

Section Host.
Context (big : bool) (fresh : Z -> list Z).

(** [SET_AND_VERIFY_TAG_LENGTH]: the length, [None] when it is too large, and the
    object the tag is read from. *)
Definition SET_AND_VERIFY_TAG_LENGTH (tag : option (list Z)) : option Z :=
  let n := Z.of_nat (length (c_str (default [] tag))) in
  if RRR_TYPE_TAG_MAX <? n then None else Some n.

Definition tag_object (tag : option (list Z)) : list Z := default [] tag.

Definition rrr_array_push_value_vain_with_tag (alloc : nat -> bool) (array : rrr_array)
    (tag : option (list Z)) : outcome (Z * rrr_array) :=
  match SET_AND_VERIFY_TAG_LENGTH tag with
  | None => Ret (RRR_ARRAY_SOFT_ERROR, array)
  | Some n =>
    '(ret, v) ← rrr_type_value_new fresh alloc definition_vain 0 n (tag_object tag) 0 None 1 None 0;
    match v with
    | None => Ret (1, array)
    | Some v => Ret (ret, append v array)
    end
  end.

Definition rrr_array_push_value_64_with_tag (alloc : nat -> bool) (import_alloc_ok : bool)
    (array : rrr_array) (tag : option (list Z)) (value : Z) (flags : Z)
  : outcome (Z * rrr_array) :=
  match SET_AND_VERIFY_TAG_LENGTH tag with
  | None => Ret (RRR_ARRAY_SOFT_ERROR, array)
  | Some n =>
    '(ret, v) ← rrr_type_value_new fresh alloc definition_h flags n (tag_object tag) 8 None 1 None 0;
    match v with
    | None => Ret (1, array)
    | Some v =>
      '(ret, v, _) ← rrr_type_import_host big fresh import_alloc_ok v 0 (host_enc big 8 value);
      if negb (ret =? 0) then Ret (1, array) else Ret (ret, append v array)
    end
  end.

Definition rrr_array_push_value_u64_with_tag alloc import_alloc_ok array tag value :=
  rrr_array_push_value_64_with_tag alloc import_alloc_ok array tag value 0.
Definition rrr_array_push_value_i64_with_tag alloc import_alloc_ok array tag value :=
  rrr_array_push_value_64_with_tag alloc import_alloc_ok array tag (u64 value) 1.

(** [value] is the object the pointer refers to. *)
Definition rrr_array_push_value_x_with_tag_with_size_with_flags (alloc : nat -> bool)
    (array : rrr_array) (tag : option (list Z)) (value : list Z) (value_size : Z)
    (type : rrr_type_definition) (flags : Z) : outcome (Z * rrr_array) :=
  match SET_AND_VERIFY_TAG_LENGTH tag with
  | None => Ret (RRR_ARRAY_SOFT_ERROR, array)
  | Some n =>
    '(ret, v) ← rrr_type_value_new fresh alloc type flags n (tag_object tag) value_size None 1
                  None value_size;
    match v with
    | None => Ret (ret, array)
    | Some v =>
      if value_size =? 0 then Ret (ret, append v array) else
      src ← bytes_at 0 value_size value;
      d ← memcpy_to 0 src (default [] (data v));
      Ret (ret, append (set_stored (total_stored_length v) (Some d) v) array)
    end
  end.

Definition rrr_array_push_value_fixp_with_tag alloc array tag value :=
  rrr_array_push_value_x_with_tag_with_size_with_flags alloc array tag (host_enc big 8 (u64 value))
    8 definition_fixp 0.

Definition rrr_array_push_value_str_with_tag_with_size alloc array tag value value_size :=
  rrr_array_push_value_x_with_tag_with_size_with_flags alloc array tag value value_size
    definition_str 0.

Definition rrr_array_push_value_str_with_tag_with_size_with_flags alloc array tag value
    value_size flags :=
  rrr_array_push_value_x_with_tag_with_size_with_flags alloc array tag value value_size
    definition_str flags.

Definition rrr_array_push_value_blob_with_tag_with_size alloc array tag value value_size :=
  rrr_array_push_value_x_with_tag_with_size_with_flags alloc array tag value value_size
    definition_blob 0.

(** The callback of the two functions that take a nullsafe string. *)
Definition rrr_array_push_value_x_with_tag_nullsafe_callback alloc array tag (definition : rrr_type_definition)
    (str : list Z) (len : Z) : outcome (Z * rrr_array) :=
  if RRR_LENGTH_MAX <? len then Ret (1, array) else
  rrr_array_push_value_x_with_tag_with_size_with_flags alloc array tag str (u32 len) definition 0.

Definition rrr_array_push_value_str_with_tag alloc array tag (value : list Z) :=
  rrr_array_push_value_str_with_tag_with_size alloc array tag value
    (u32 (Z.of_nat (length (c_str value)))).

End Host.

(** * Finding values *)

Fixpoint find_by_tag (vs : list rrr_type_value) (tag : option (list Z)) : option rrr_type_value :=
  match vs with
  | [] => None
  | v :: vs => if rrr_type_value_is_tag v tag then Some v else find_by_tag vs tag
  end.

Definition rrr_array_value_get_by_tag (a : rrr_array) tag := find_by_tag (values a) tag.
Definition rrr_array_value_get_by_tag_const (a : rrr_array) tag := find_by_tag (values a) tag.
Definition rrr_array_has_tag (a : rrr_array) tag : bool :=
  match find_by_tag (values a) tag with Some _ => true | None => false end.

Fixpoint find_by_index (vs : list rrr_type_value) (i idx : Z) : option rrr_type_value :=
  match vs with
  | [] => None
  | v :: vs => if i =? idx then Some v else find_by_index vs (i + 1) idx
  end.
Definition rrr_array_value_get_by_index (a : rrr_array) (idx : Z) := find_by_index (values a) 0 idx.

Section Host.
Context (big : bool) (fresh : Z -> list Z).

(** Status and [*result]; the pointer to 64-bit integers is advanced by the
    index times their size. *)
Definition rrr_array_get_value_64_by_tag (array : rrr_array) (tag : option (list Z))
    (index : Z) (do_signed : bool) : outcome (Z * option Z) :=
  match rrr_array_value_get_by_tag_const array tag with
  | None => Ret (1, None)
  | Some value =>
    if element_count value <=? index then Ret (1, None) else
    bs ← data_at value (8 * (8 * index)) 8;
    let unsigned_result := host_dec big bs in
    let signed_result := s64 unsigned_result in
    if do_signed then
      if negb (RRR_TYPE_FLAG_IS_SIGNED (flags value)) && (2 ^ 63 - 1 <? unsigned_result)
      then Ret (1, None) else Ret (0, Some signed_result)
    else
      if RRR_TYPE_FLAG_IS_SIGNED (flags value) && (signed_result <? 0)
      then Ret (1, None) else Ret (0, Some unsigned_result)
  end.

Definition rrr_array_get_value_unsigned_64_by_tag array tag index :=
  rrr_array_get_value_64_by_tag array tag index false.
Definition rrr_array_get_value_signed_64_by_tag array tag index :=
  rrr_array_get_value_64_by_tag array tag index true.
Definition rrr_array_get_value_first_unsigned_64_by_tag array tag :=
  rrr_array_get_value_unsigned_64_by_tag array tag 0.

End Host.

(** * Removing and moving values *)

Definition rrr_array_strip_type (a : rrr_array) (d : rrr_type_definition) : rrr_array :=
  set_values (filter (fun v => definition v <> d) (values a)) a.

Definition rrr_array_clear (a : rrr_array) : rrr_array := set_values [] a.
Definition rrr_array_clear_void (a : rrr_array) : rrr_array := rrr_array_clear a.

Definition rrr_array_clear_by_tag_checked (a : rrr_array) (tag : option (list Z))
  : Z * rrr_array :=
  (u32 (Z.of_nat (length (filter (fun v => rrr_type_value_is_tag v tag = true) (values a)))),
   set_values (filter (fun v => rrr_type_value_is_tag v tag = false) (values a)) a).

Definition rrr_array_clear_by_tag (a : rrr_array) tag : rrr_array :=
  (rrr_array_clear_by_tag_checked a tag).2.

(** The loop from the end, on the reversed list. *)
Fixpoint trim_loop (target_length : Z) (reversed : list rrr_type_value) : list rrr_type_value :=
  match reversed with
  | [] => []
  | v :: rest =>
    if target_length <? Z.of_nat (length reversed) then trim_loop target_length rest else reversed
  end.

Definition rrr_array_trim (a : rrr_array) (target_length : Z) : outcome rrr_array :=
  if (Z.of_nat (length (values a)) <? target_length) || (target_length <? 0) then Bug
  else Ret (set_values (rev (trim_loop target_length (rev (values a)))) a).

Definition rrr_array_rotate_reverse (a : rrr_array) : rrr_array :=
  match values a with
  | [] => a
  | first :: rest => set_values (rest ++ [first]) a
  end.

Definition rrr_array_rotate_forward (a : rrr_array) : rrr_array :=
  match rev (values a) with
  | [] => a
  | last :: rest => set_values (last :: rev rest) a
  end.

(** * Lengths *)

(** The sum of two lengths is one of 32 bits. *)
Fixpoint packed_length_loop (sum : Z) (vs : list rrr_type_value) : Z * Z :=
  match vs with
  | [] => (0, sum)
  | v :: vs =>
    let a := u64 (u32 (tag_length v + total_stored_length v) + sizeof_packed - 1) in
    let b := u64 (sum + a) in
    if (b <? sum) || (b <? a) then (1, 0) else packed_length_loop b vs
  end.

(** Status and [*result]. *)
Definition rrr_array_get_packed_length (a : rrr_array) : Z * Z := packed_length_loop 0 (values a).

Fixpoint exported_length_loop (sum : Z) (vs : list rrr_type_value) : outcome (Z * Z) :=
  match vs with
  | [] => Ret (0, sum)
  | v :: vs =>
    '(ret, a) ← rrr_type_value_get_export_length v;
    if negb (ret =? 0) then Ret (RRR_ARRAY_SOFT_ERROR, 0) else
    let b := u64 (sum + a) in
    if (b <? sum) || (b <? a) then Ret (RRR_ARRAY_SOFT_ERROR, 0) else exported_length_loop b vs
  end.

Definition rrr_array_get_exported_length (a : rrr_array) : outcome (Z * Z) :=
  exported_length_loop 0 (values a).

(** * Packing and exporting *)

Section Host.
Context (big : bool) (fresh : Z -> list Z).

Section iterate.
Context {W : Type} (callback : rrr_type_value -> W -> outcome (Z * W)).

(** [tags] is [None] for NULL, else the tags of the map. *)
Definition chosen (tags : option (list (list Z))) (v : rrr_type_value) : bool :=
  match tags with
  | None => true
  | Some tags => existsb (fun t => rrr_type_value_is_tag v (Some t)) tags
  end.

(** Status, number of tags found and the state of the callback. *)
Fixpoint rrr_array_array_iterate_chosen_tags (found : Z) (vs : list rrr_type_value)
    (tags : option (list (list Z))) (w : W) : outcome (Z * Z * W) :=
  match vs with
  | [] => Ret (0, found, w)
  | v :: vs =>
    if chosen tags v then
      '(ret, w) ← callback v w;
      if negb (ret =? 0) then
        if ret =? RRR_ARRAY_ITERATE_STOP then Ret (0, found + 1, w) else Ret (1, found + 1, w)
      else rrr_array_array_iterate_chosen_tags (found + 1) vs tags w
    else rrr_array_array_iterate_chosen_tags found vs tags w
  end.

End iterate.

(** The buffer that is written to, the position and the bytes counted. *)
Record pack_callback_data := mk_pack {
  written_bytes_total : Z;
  write_pos : Z;
  target : list Z
}.

(** Write [bs] and advance. *)
Definition put (bs : list Z) (w : pack_callback_data) : outcome pack_callback_data :=
  buf ← memcpy_to (write_pos w) bs (target w);
  let n := Z.of_nat (length bs) in
  Ret (mk_pack (u64 (written_bytes_total w + n)) (write_pos w + n) buf).

Definition skip (n : Z) (w : pack_callback_data) : pack_callback_data :=
  mk_pack (u64 (written_bytes_total w + n)) (write_pos w + n) (target w).

(** The head, which lies at [pos]; its integers are in network order. *)
Definition packed_head (new_type flags tag_length total_length elements : Z) : list Z :=
  host_enc big 1 new_type ++ host_enc big 1 flags ++
  host_enc big 4 (rrr_htobe32 big tag_length) ++ host_enc big 4 (rrr_htobe32 big total_length) ++
  host_enc big 4 (rrr_htobe32 big elements).

Definition rrr_array_array_pack_callback (node : rrr_type_value) (w : pack_callback_data)
  : outcome (Z * pack_callback_data) :=
  match pack big (definition node) with
  | None => Bug
  | Some pack =>
    let head := write_pos w in
    let w := skip (sizeof_packed - 1) w in
    w ← (if 0 <? tag_length node then put (tag node) w else Ret w);
    '(ret, bytes, new_type) ← pack node;
    w' ← put bytes w;
    if negb (ret =? 0) then
      Ret (RRR_ARRAY_SOFT_ERROR, mk_pack (written_bytes_total w) (write_pos w) (target w'))
    else
    let written_bytes := Z.of_nat (length bytes) in
    buf ← memcpy_to head (packed_head new_type (flags node) (tag_length node) written_bytes
                            (element_count node)) (target w');
    if written_bytes <? total_stored_length node then Bug else
    Ret (0, mk_pack (written_bytes_total w') (write_pos w') buf)
  end.

Definition rrr_array_array_export_callback (node : rrr_type_value) (w : pack_callback_data)
  : outcome (Z * pack_callback_data) :=
  match do_export big (definition node) with
  | None => Bug
  | Some do_export =>
    '(ret, bytes) ← do_export node;
    w' ← put bytes w;
    if negb (ret =? 0) then
      Ret (RRR_ARRAY_SOFT_ERROR, mk_pack (written_bytes_total w) (write_pos w) (target w'))
    else if Z.of_nat (length bytes) <? total_stored_length node then Bug else Ret (0, w')
  end.

(** Status, the buffer, [*found_tags] and [*written_bytes_final]. *)
Definition rrr_array_array_pack_or_export (buf : list Z) (target_size : Z) (a : rrr_array)
    (tags : option (list (list Z)))
    (method : rrr_type_value -> pack_callback_data -> outcome (Z * pack_callback_data))
  : outcome (Z * list Z * Z * Z) :=
  '(ret, found, w) ← rrr_array_array_iterate_chosen_tags method 0 (values a) tags
                       (mk_pack 0 0 buf);
  if negb (ret =? 0) then Ret (ret, target w, found, 0) else
  if target_size <? write_pos w then Bug else
  Ret (ret, target w, found, written_bytes_total w).

(** Status, [*target], [*target_size] and [*found_tags]. *)
Definition rrr_array_selected_tags_export (alloc_ok : bool) (a : rrr_array)
    (tags : option (list (list Z))) : outcome (Z * option (list Z) * Z * Z) :=
  '(ret, total_data_length) ← rrr_array_get_exported_length a;
  if negb (ret =? 0) then Ret (ret, None, 0, 0) else
  if RRR_LENGTH_MAX <? total_data_length then Ret (RRR_ARRAY_SOFT_ERROR, None, 0, 0) else
  if negb alloc_ok then Ret (1, None, 0, 0) else
  '(ret, buf, found, size) ← rrr_array_array_pack_or_export (fresh total_data_length)
    (u32 total_data_length) a tags rrr_array_array_export_callback;
  if negb (ret =? 0) then Ret (ret, None, size, found) else Ret (0, Some buf, size, found).

(** [topic] is the object the pointer refers to. *)
Definition rrr_array_new_message_from_array (alloc_ok : bool) (a : rrr_array) (time : Z)
    (topic : list Z) (topic_length : Z) : outcome (Z * option (list Z)) :=
  let '(ret, total_data_length) := rrr_array_get_packed_length a in
  if negb (ret =? 0) || (RRR_LENGTH_MAX <? total_data_length) then
    Ret (RRR_ARRAY_SOFT_ERROR, None)
  else
  message ← rrr_msg_msg_new_array big alloc_ok time topic_length (u32 total_data_length);
  match message with
  | None => Ret (RRR_ARRAY_SOFT_ERROR, None)
  | Some message =>
    message ← set big version RRR_ARRAY_VERSION message;
    message ← (if 0 <? topic_length then
                 src ← bytes_at 0 topic_length topic; memcpy_to DATA src message
               else Ret message);
    data_length ← MSG_DATA_LENGTH big message;
    tl ← MSG_TOPIC_LENGTH big message;
    let data_ptr := Z.to_nat (DATA + tl) in
    '(ret, buf, _, written_bytes_total) ← rrr_array_array_pack_or_export (drop data_ptr message)
      (u32 data_length) a None rrr_array_array_pack_callback;
    if negb (ret =? 0) then Ret (ret, None) else
    if negb (written_bytes_total =? total_data_length) then Bug else
    Ret (0, Some (splice data_ptr buf message))
  end.

(** * Splitting values with several elements *)

Fixpoint split_empty_loop (alloc : nat -> nat -> bool) (i : nat) (n : nat) (node : rrr_type_value)
    (acc : list rrr_type_value) : outcome (Z * list rrr_type_value) :=
  match n with
  | O => Ret (0, acc)
  | S n =>
    '(ret, v) ← rrr_type_value_new fresh (alloc i) (definition node) (flags node) 0 [] 0 None 1
                  None 0;
    match v with
    | None => Ret (ret, acc)
    | Some v => split_empty_loop alloc (S i) n node (acc ++ [v])
    end
  end.

(** The loop over the elements; each takes at least one byte. *)
Fixpoint split_loop (fuel : nat) (alloc : nat -> nat -> bool) (i : nat) (pos element_size : Z)
    (node : rrr_type_value) (acc : list rrr_type_value) : outcome (Z * list rrr_type_value) :=
  match fuel with
  | O => Oob
  | S fuel =>
    if total_stored_length node <=? pos then Ret (0, acc) else
    '(ret, v) ← rrr_type_value_new fresh (alloc i) (definition node) (flags node) 0 [] 0 None 1
                  None element_size;
    match v with
    | None => Ret (ret, acc)
    | Some v =>
      src ← data_at node pos element_size;
      d ← memcpy_to 0 src (default [] (data v));
      split_loop fuel alloc (S i) (u32 (pos + element_size)) element_size node
        (acc ++ [set_stored (total_stored_length v) (Some d) v])
    end
  end.

Section split.
Context {W : Type} (callback : rrr_type_value -> rrr_array -> W -> outcome (Z * W)).

Definition rrr_array_selected_tags_split_callback (alloc : nat -> nat -> bool)
    (node : rrr_type_value) (w : W) : outcome (Z * W) :=
  '(ret, vs) ←
    (if total_stored_length node =? 0 then
       split_empty_loop alloc 0 (Z.to_nat (element_count node)) node []
     else if element_count node =? 0 then Oob
     else
       let element_size := total_stored_length node / element_count node in
       if negb (u32 (element_size * element_count node) =? total_stored_length node)
       then Ret (1, [])
       else split_loop (S (Z.to_nat (total_stored_length node))) alloc 0 0 element_size node []);
  if negb (ret =? 0) then Ret (ret, w) else callback node (mk_array vs 0) w.

Definition rrr_array_selected_tags_split (alloc : nat -> nat -> bool) (a : rrr_array)
    (tags : option (list (list Z))) (w : W) : outcome (Z * Z * W) :=
  rrr_array_array_iterate_chosen_tags (rrr_array_selected_tags_split_callback alloc) 0
    (values a) tags w.

End split.

(** * Reading array messages *)

Section read.
Context {W : Type}
  (callback : list Z -> rrr_type_definition -> Z -> Z -> Z -> Z -> W -> outcome (Z * W)).

(** [base] is the offset of the data in the message, [pos] the position in it. *)
Fixpoint message_iterate_loop (fuel : nat) (message : list Z) (base pos end_ : Z) (w : W)
  : outcome (Z * W) :=
  match fuel with
  | O => Oob
  | S fuel =>
    if end_ <=? pos then Ret (0, w) else
    let packed := drop (Z.to_nat (base + pos)) message in
    let pos := pos + (sizeof_packed - 1) in
    if end_ <? pos then Ret (1, w) else
    type ← get big packed_type packed;
    flags ← get big packed_flags packed;
    tag_length ← get big packed_tag_length packed;
    total_length ← get big packed_total_length packed;
    elements ← get big packed_elements packed;
    let tag_length := rrr_be32toh big tag_length in
    let total_length := rrr_be32toh big total_length in
    let elements := rrr_be32toh big elements in
    if end_ <? pos + tag_length + total_length then Ret (1, w) else
    match rrr_type_get_from_id type with
    | None => Ret (1, w)
    | Some def =>
      match unpack big def with
      | None => Ret (1, w)
      | Some _ =>
        '(ret, w) ← callback (drop (Z.to_nat (base + pos)) message) def flags tag_length
                      total_length elements w;
        if negb (ret =? 0) then
          Ret (if ret =? RRR_ARRAY_ITERATE_STOP then 0 else ret, w)
        else message_iterate_loop fuel message base (pos + u32 (tag_length + total_length)) end_ w
      end
    end
  end.

Definition rrr_array_message_iterate (message : list Z) (w : W) : outcome (Z * W) :=
  class ← MSG_CLASS big message;
  if negb (class =? MSG_CLASS_ARRAY) then Bug else
  v ← get big version message;
  if negb (v =? RRR_ARRAY_VERSION) then Ret (1, w) else
  tl ← MSG_TOPIC_LENGTH big message;
  data_length ← MSG_DATA_LENGTH big message;
  message_iterate_loop (S (Z.to_nat data_length)) message (DATA + tl) 0 data_length w.

End read.

Definition rrr_array_message_iterate_values_callback {W} (alloc : nat -> bool)
    (callback : rrr_type_value -> W -> outcome (Z * W)) (data_start : list Z)
    (type : rrr_type_definition) (flags tag_length total_length element_count : Z) (w : W) :=
  rrr_type_value_with_tmp_do big fresh alloc type data_start flags tag_length total_length
    element_count callback w.

Definition rrr_array_message_iterate_values {W} (alloc : nat -> bool)
    (callback : rrr_type_value -> W -> outcome (Z * W)) (message : list Z) (w : W) :=
  rrr_array_message_iterate (rrr_array_message_iterate_values_callback alloc callback) message w.

(** [strlen(tag) == tag_length && memcmp(data_start, tag, tag_length) == 0] *)
Definition rrr_array_message_has_tag_callback (tag : list Z) (data_start : list Z)
    (type : rrr_type_definition) (flags tag_length total_length element_count : Z) (w : unit)
  : outcome (Z * unit) :=
  if Z.of_nat (length (c_str tag)) =? tag_length then
    bs ← bytes_at 0 tag_length data_start;
    Ret (if bool_decide (bs = c_str tag) then 1 else 0, w)
  else Ret (0, w).

Definition rrr_array_message_has_tag (message tag : list Z) : outcome Z :=
  class ← MSG_CLASS big message;
  if negb (class =? MSG_CLASS_ARRAY) then Ret 0 else
  '(ret, _) ← rrr_array_message_iterate (rrr_array_message_has_tag_callback tag) message tt;
  Ret ret.

Definition rrr_array_message_clone_value_by_tag_callback (alloc : nat -> bool)
    (tag : option (list Z)) (value : rrr_type_value) (w : option rrr_type_value)
  : outcome (Z * option rrr_type_value) :=
  if negb (rrr_type_value_is_tag value tag) then Ret (0, w) else
  if w then Bug else
  '(ret, clone) ← rrr_type_value_clone alloc value true;
  Ret (if ret =? 0 then RRR_ARRAY_ITERATE_STOP else ret, clone).

(** Status and [*target]. *)
Definition rrr_array_message_clone_value_by_tag (alloc clone_alloc : nat -> bool)
    (message : list Z) (tag : option (list Z)) : outcome (Z * option rrr_type_value) :=
  class ← MSG_CLASS big message;
  if negb (class =? MSG_CLASS_ARRAY) then Ret (0, None) else
  rrr_array_message_iterate_values alloc
    (rrr_array_message_clone_value_by_tag_callback clone_alloc tag) message None.

Definition rrr_array_message_append_to_array_by_tag (alloc clone_alloc : nat -> bool)
    (a : rrr_array) (message : list Z) (tag : option (list Z)) : outcome (Z * rrr_array) :=
  '(ret, value) ← rrr_array_message_clone_value_by_tag alloc clone_alloc message tag;
  if negb (ret =? 0) then Ret (ret, a) else
  Ret (ret, match value with Some v => append v a | None => a end).

Definition rrr_array_message_append_to_array_callback (alloc : nat -> bool) (data_start : list Z)
    (type : rrr_type_definition) (flags tag_length total_length element_count : Z)
    (target_tmp : rrr_array) : outcome (Z * rrr_array) :=
  '(ret, template) ← rrr_type_value_new_and_unpack big fresh alloc type data_start flags
                       tag_length total_length element_count;
  match template with
  | None => Ret (ret, target_tmp)
  | Some v => Ret (ret, append v target_tmp)
  end.

(** Status, [*array_version] when it is set, and the array. *)
Definition rrr_array_message_append_to_array (alloc : nat -> bool) (a : rrr_array)
    (message : list Z) : outcome (Z * option Z * rrr_array) :=
  '(ret, target_tmp) ← rrr_array_message_iterate
    (rrr_array_message_append_to_array_callback alloc) message empty_array;
  if negb (ret =? 0) then Ret (ret, None, a) else
  v ← get big version message;
  Ret (ret, Some v, merge a target_tmp).

End Host.

Definition sizeof_array : Z := 48.
Definition rrr_array_get_allocated_size (a : rrr_array) : Z :=
  fold_left (fun acc v => u64 (acc + rrr_type_value_get_allocated_size v)) (values a) sizeof_array.

End Array.
