(* ===== verification/ArrayMessage.v ===== *)
(** Arrays as messages: the bytes a value has in an array message whatever the
    host, and that the array made by one host is what another one reads. *)
From S2P Require Import Prelude Types Crc32 MsgHead MsgMsg MsgDispatch TypeValue Array.

Module ArrayMessage.
Import Types Crc32 MsgHead MsgMsg MsgDispatch TypeValue Array.

(** * What a value means *)

Inductive content :=
| Words (vs : list Z)
| Fixps (vs : list Z)
| Blob (bs : list Z)
| Sep (bs : list Z)
| Nsep (bs : list Z)
| Stx (bs : list Z)
| Frame (bs : list Z)
| Text (bs : list Z)
| Messages (ms : list rrr_msg_msg)
| Nothing.

Record item := mk_item {
  i_tag : list Z;
  i_flags : Z;
  i_count : Z;
  i_content : content
}.

Definition content_definition (c : content) : rrr_type_definition :=
  match c with
  | Words _ => definition_h | Fixps _ => definition_fixp | Blob _ => definition_blob
  | Sep _ => definition_sep | Nsep _ => definition_nsep | Stx _ => definition_stx
  | Frame _ => definition_hdlc | Text _ => definition_str | Messages _ => definition_msg
  | Nothing => definition_vain
  end.

(** The type that stands in the message. *)
Definition wire_type (c : content) : Z :=
  match c with Words _ => 3 | _ => type (content_definition c) end.

Definition word_ok (v : Z) : Prop := 0 <= v < 2 ^ 64.

(** A message that a receiver accepts. *)
Definition message_ok (m : rrr_msg_msg) : Prop :=
  mm_ok m /\ h_type (mm_head m) = RRR_MSG_TYPE_MESSAGE /\ acceptable m = true.

(** Values of the types that are not text may not be empty. *)
Definition content_ok (c : content) : Prop :=
  match c with
  | Words vs | Fixps vs => Forall word_ok vs
  | Blob bs | Sep bs | Nsep bs | Stx bs | Frame bs => bytes_ok bs /\ bs <> []
  | Text bs => bytes_ok bs
  | Messages ms => Forall message_ok ms
  | Nothing => True
  end.

(** The bytes in the memory of a host, and in the message. *)
Definition content_host (big : bool) (c : content) : list Z :=
  match c with
  | Words vs | Fixps vs => concat (host_enc big 8 <$> vs)
  | Blob bs | Sep bs | Nsep bs | Stx bs | Frame bs | Text bs => bs
  | Messages ms => concat (mm_bytes big <$> ms)
  | Nothing => []
  end.

Definition content_wire (c : content) : list Z :=
  match c with
  | Words vs | Fixps vs => concat (be_enc 8 <$> vs)
  | Blob bs | Sep bs | Nsep bs | Stx bs | Frame bs | Text bs => bs
  | Messages ms => concat (mm_sent <$> ms)
  | Nothing => []
  end.

Definition u32_ok (v : Z) : Prop := 0 <= v < 2 ^ 32.

Definition item_ok (i : item) : Prop :=
  bytes_ok (i_tag i) /\ byte_ok (i_flags i) /\ u32_ok (i_count i) /\ content_ok (i_content i).

Definition item_wire (i : item) : list Z :=
  let d := content_wire (i_content i) in
  be_enc 1 (wire_type (i_content i)) ++ be_enc 1 (i_flags i) ++
  be_enc 4 (Z.of_nat (length (i_tag i))) ++ be_enc 4 (Z.of_nat (length d)) ++
  be_enc 4 (i_count i) ++ i_tag i ++ d.

Definition items_wire (l : list item) : list Z := concat (item_wire <$> l).

(** The value [v] in the memory of a host has the meaning [i]; more may be
    allocated than is stored. *)
Definition holds_item (big : bool) (v : rrr_type_value) (i : item) : Prop :=
  definition v = content_definition (i_content i) /\ flags v = i_flags i /\ tag v = i_tag i
  /\ element_count v = i_count i
  /\ total_stored_length v = Z.of_nat (length (content_host big (i_content i)))
  /\ (exists extra, data v = Some (content_host big (i_content i) ++ extra)
      \/ (content_host big (i_content i) = [] /\ extra = [] /\ data v = None)).

(** What the receiver makes of it: checksums of messages are cleared and their
    number is the count. *)
Definition received (i : item) : item :=
  match i_content i with
  | Messages ms =>
    mk_item (i_tag i) (i_flags i) (Z.of_nat (length ms)) (Messages (clear_crc <$> ms))
  | _ => i
  end.

Definition value_of (big : bool) (i : item) : rrr_type_value :=
  let d := content_host big (i_content i) in
  mk_value (content_definition (i_content i)) (i_flags i) (Z.of_nat (length d)) None
    (Z.of_nat (length d)) (i_count i) None (i_tag i)
    (match d with [] => None | _ => Some d end).

(** * Packing the content *)

Section words.
Context (big : bool).

Lemma bytes_at_take pre l n rest :
  length l = n ->
  bytes_at (Z.of_nat (length pre)) (Z.of_nat n) (pre ++ l ++ rest) = Ret l.
Proof. intros. by apply bytes_at_app. Qed.

Lemma convert_words conv (enc : Z -> list Z) vs pre rest :
  (forall v, length (enc v) = 8%nat) ->
  convert_64_loop big conv (length vs) (Z.of_nat (length pre)) (pre ++ concat (enc <$> vs) ++ rest)
  = Ret (concat ((fun v => host_enc big 8 (conv (host_dec big (enc v)))) <$> vs)).
Proof.
  intros Hl. revert pre. induction vs as [|v vs IH]; intros pre; [done|].
  rewrite !fmap_cons. cbn [concat length convert_64_loop]. rewrite <-app_assoc.
  rewrite (bytes_at_take pre (enc v) 8 _ (Hl v)), bind_ret.
  specialize (IH (pre ++ enc v)). rewrite length_app, Hl in IH.
  replace (Z.of_nat (length pre) + 8) with (Z.of_nat (length pre + 8)) by lia.
  rewrite <-!app_assoc in IH. by rewrite IH.
Qed.

Lemma length_words (enc : Z -> list Z) (vs : list Z) :
  (forall v, length (enc v) = 8%nat) -> length (concat (enc <$> vs)) = (8 * length vs)%nat.
Proof.
  intros Hl. induction vs as [|v vs IH]; [done|]. rewrite fmap_cons. cbn [concat length].
  rewrite length_app, Hl, IH. lia.
Qed.

Lemma words_ext (f g : Z -> list Z) vs :
  Forall (fun v => f v = g v) vs -> concat (f <$> vs) = concat (g <$> vs).
Proof. induction 1 as [|v vs H _ IH]; [done|]. rewrite !fmap_cons. cbn [concat]. by rewrite H, IH. Qed.

(** The two conversions of 64-bit integers. *)
Lemma words_to_wire vs rest :
  Forall word_ok vs ->
  convert_64_loop big (rrr_htobe64 big) (length vs) 0 (concat (host_enc big 8 <$> vs) ++ rest)
  = Ret (concat (be_enc 8 <$> vs)).
Proof.
  intros Hv. rewrite (convert_words _ (host_enc big 8) vs [] rest) by (intros; apply length_host_enc).
  f_equal. apply words_ext. eapply Forall_impl; [|exact Hv]. intros v Hv'. unfold word_ok in Hv'. unfold rrr_htobe64.
  rewrite host_dec_enc by width. apply host_enc_to_be.
Qed.

Lemma words_from_wire vs rest :
  Forall word_ok vs ->
  convert_64_loop big (rrr_be64toh big) (length vs) 0 (concat (be_enc 8 <$> vs) ++ rest)
  = Ret (concat (host_enc big 8 <$> vs)).
Proof.
  intros Hv. rewrite (convert_words _ (be_enc 8) vs [] rest) by (intros; apply length_be_enc).
  f_equal. apply words_ext. eapply Forall_impl; [|exact Hv]. intros v Hv'. unfold word_ok in Hv'. unfold rrr_be64toh.
  by rewrite to_be_host_dec by width.
Qed.

(** * Messages within a value *)

Lemma mm_sent_length m : mm_ok m -> Z.of_nat (length (mm_sent m)) = h_size (mm_head m).
Proof.
  intros Hm. rewrite (size_body m Hm). unfold mm_sent, wire_bytes.
  rewrite length_layout by fields. unfold sizeof_msg. lia.
Qed.

Lemma mm_bytes_length m : mm_ok m -> Z.of_nat (length (mm_bytes big m)) = h_size (mm_head m).
Proof.
  intros Hm. destruct (mm_bytes_head30 big m) as (head & Hl & ->).
  rewrite !length_app, Hl, (ok_size m Hm). unfold topic_len, data_len. lia.
Qed.

Lemma mm_size_range m : mm_ok m -> 30 <= h_size (mm_head m) < 2 ^ 32.
Proof.
  intros Hm. destruct (ok_head m Hm) as (_ & ? & _). rewrite (ok_size m Hm) in *.
  unfold topic_len, data_len in *. lia.
Qed.

(** An access to an object is one to the same object with more behind it. *)
Lemma bytes_at_more off n l bs rest :
  bytes_at off n l = Ret bs -> bytes_at off n (l ++ rest) = Ret bs.
Proof.
  unfold bytes_at. rewrite length_app. intros H.
  destruct (Z.leb_spec 0 off), (Z.leb_spec 0 n), (Z.leb_spec (off + n) (Z.of_nat (length l)));
    simpl in H; try done.
  rewrite (proj2 (Z.leb_le _ _)) by lia. simpl. rewrite <-H. f_equal.
  unfold slice. rewrite drop_app_le by lia. rewrite take_app_le by (rewrite length_drop; lia). done.
Qed.

Lemma get_more f l v rest : get big f l = Ret v -> get big f (l ++ rest) = Ret v.
Proof.
  unfold get. intros H. destruct (bytes_at _ _ l) eqn:E; try done.
  by rewrite (bytes_at_more _ _ _ _ _ E).
Qed.

Lemma set_more f v l l' rest : set big f v l = Ret l' -> set big f v (l ++ rest) = Ret (l' ++ rest).
Proof.
  unfold set. intros H. destruct (bytes_at _ _ l) eqn:E; try done. rewrite (bytes_at_more _ _ _ _ _ E).
  rewrite bind_ret in H |- *. injection H as <-. f_equal. unfold splice.
  unfold bytes_at in E. rewrite length_host_enc.
  destruct (Z.leb_spec 0 (Z.of_nat f.1)), (Z.leb_spec 0 (Z.of_nat f.2)),
    (Z.leb_spec (Z.of_nat f.1 + Z.of_nat f.2) (Z.of_nat (length l))); simpl in E; try done.
  rewrite take_app_le, drop_app_le, <-!app_assoc by lia. done.
Qed.

Lemma convert_more conv f l l' rest :
  convert big conv f l = Ret l' -> convert big conv f (l ++ rest) = Ret (l' ++ rest).
Proof.
  unfold convert. intros H. destruct (get big f l) eqn:E; try done.
  rewrite (get_more _ _ _ _ E), bind_ret. by apply set_more.
Qed.

(** Take the next access of a run on [l] and make it on [l ++ rest]. *)
Ltac more_with tac :=
  repeat lazymatch goal with
  | H : ?m ≫= _ = Ret _ |- _ =>
    let E := fresh "E" in
    destruct m eqn:E; [rewrite ?bind_ret in H|discriminate H|discriminate H];
    first [erewrite !(set_more _ _ _ _ _ E) | erewrite !(convert_more _ _ _ _ _ E)
      | erewrite !(get_more _ _ _ _ E) | erewrite !(bytes_at_more _ _ _ _ _ E) | tac E];
    rewrite ?bind_ret
  | H : (if ?b then _ else _) = Ret _ |- _ => destruct b
  end; simplify_eq/=; try done.
Ltac more := more_with ltac:(fun _ => fail).

Lemma head_validate_more l n r rest :
  rrr_msg_head_validate big l n = Ret r -> rrr_msg_head_validate big (l ++ rest) n = Ret r.
Proof. unfold rrr_msg_head_validate. intros H. more. Qed.

Lemma head_to_host_more l n r l' rest :
  rrr_msg_head_to_host_and_verify big l n = Ret (r, l') ->
  rrr_msg_head_to_host_and_verify big (l ++ rest) n = Ret (r, l' ++ rest).
Proof.
  unfold rrr_msg_head_to_host_and_verify. intros H.
  more_with ltac:(fun E => erewrite (head_validate_more _ _ _ _ E)).
Qed.

Lemma check_data_more l n r l' rest :
  rrr_msg_check_data_checksum_and_length big l n = Ret (r, l') ->
  rrr_msg_check_data_checksum_and_length big (l ++ rest) n = Ret (r, l' ++ rest).
Proof. unfold rrr_msg_check_data_checksum_and_length. intros H. more. Qed.

Lemma topic_bytes_more l t rest : topic_bytes big l = Ret t -> topic_bytes big (l ++ rest) = Ret t.
Proof.
  unfold topic_bytes, MSG_TOPIC_LENGTH. intros H. more. by apply bytes_at_more.
Qed.

Lemma class_more l v rest : MSG_CLASS big l = Ret v -> MSG_CLASS big (l ++ rest) = Ret v.
Proof. unfold MSG_CLASS. intros H. more. Qed.

Lemma type_more l v rest : MSG_TYPE big l = Ret v -> MSG_TYPE big (l ++ rest) = Ret v.
Proof. unfold MSG_TYPE. intros H. more. Qed.

Lemma validate_more l r rest :
  message_validate big l = Ret r -> message_validate big (l ++ rest) = Ret r.
Proof.
  unfold message_validate, MSG_TOTAL_SIZE. intros H.
  more_with ltac:(fun E => first [erewrite (class_more _ _ _ E) | erewrite (type_more _ _ _ E)
    | erewrite (topic_bytes_more _ _ _ E)]).
Qed.

Lemma msg_to_host_more l n r l' rest :
  rrr_msg_msg_to_host_and_verify big l n = Ret (r, l') ->
  rrr_msg_msg_to_host_and_verify big (l ++ rest) n = Ret (r, l' ++ rest).
Proof.
  unfold rrr_msg_msg_to_host_and_verify, MSG_TOTAL_SIZE. intros H.
  more_with ltac:(fun E => erewrite (validate_more _ _ _ E)).
Qed.

(** A message in network form becomes the one of the host, whatever follows it. *)
Lemma msg_to_host_single m rest n :
  message_ok m -> h_size (mm_head m) <= n ->
  rrr_type_msg_to_host_single big (mm_sent m ++ rest) n
  = Ret (0, mm_bytes big (clear_crc m) ++ rest).
Proof.
  intros (Hm & Htype & Hacc) Hn. unfold rrr_type_msg_to_host_single.
  pose proof (body_bytes m Hm) as Hb. pose proof (size_body m Hm) as Hs.
  pose proof (mm_size_range m Hm) as Hsz. destruct (Hm) as [Hh _ _ _ _ _ _ _].
  pose proof (sent_ok (mm_head m) (mm_body be_enc m) Hh Hb) as Hsent.
  assert (rrr_msg_get_target_size_and_check_checksum big 0 (mm_sent m ++ rest) n
    = Ret (0, h_size (mm_head m))) as ->.
  { unfold mm_sent, wire_bytes, layout. rewrite <-!app_assoc.
    apply get_target_size_spec; [done..|unfold sizeof_msg; lia]. }
  rewrite bind_ret. cbn [Z.eqb negb]. rewrite (proj2 (Z.ltb_ge _ _)) by lia.
  assert (rrr_msg_head_to_host_and_verify big (mm_sent m) (h_size (mm_head m))
    = Ret (0, msg_bytes big (with_crc (sent (mm_head m) (mm_body be_enc m)) 0) (mm_body be_enc m)))
    as H1.
  { unfold mm_sent. rewrite head_to_host_spec by done.
    change (h_size (sent (mm_head m) (mm_body be_enc m))) with (h_size (mm_head m)).
    change (h_type (sent (mm_head m) (mm_body be_enc m))) with (h_type (mm_head m)).
    by rewrite Z.eqb_refl, Htype. }
  rewrite (head_to_host_more _ _ _ _ rest H1), bind_ret. cbn [Z.eqb negb].
  assert (rrr_msg_check_data_checksum_and_length big
    (msg_bytes big (with_crc (sent (mm_head m) (mm_body be_enc m)) 0) (mm_body be_enc m))
    (h_size (mm_head m)) = Ret (0, mm_wire big (clear_crc m))) as H2.
  { rewrite check_data_spec; [|done| |done|done].
    - change (h_data_crc (with_crc (sent (mm_head m) (mm_body be_enc m)) 0))
        with (rrr_crc32buf (mm_body be_enc m)). by rewrite Z.eqb_refl.
    - destruct Hsent as (? & ? & ? & ? & ?). unfold msg_ok, with_crc. simpl. auto 10 with lia. }
  rewrite (check_data_more _ _ _ _ rest H2), bind_ret. cbn [Z.eqb negb].
  pose proof (to_host_and_verify_spec big (clear_crc m) (clear_crc_ok m Hm)) as H3.
  change (acceptable (clear_crc m)) with (acceptable m) in H3.
  change (h_size (mm_head (clear_crc m))) with (h_size (mm_head m)) in H3.
  rewrite Hacc in H3. by rewrite (msg_to_host_more _ _ _ _ rest H3), bind_ret.
Qed.

Lemma drop_length_app (l k : list Z) : drop (Z.to_nat (Z.of_nat (length l))) (l ++ k) = k.
Proof. by rewrite Nat2Z.id, drop_app_length. Qed.

Lemma splice_rest (pre old new : list Z) :
  length old = length new -> splice (Z.to_nat (Z.of_nat (length pre))) new (pre ++ old) = pre ++ new.
Proof.
  intros Hl. unfold splice. rewrite Nat2Z.id, take_app_length, drop_ge, app_nil_r; [done|].
  rewrite length_app. lia.
Qed.

Lemma unpack_messages ms fuel pre extra count :
  Forall message_ok ms -> (length ms < fuel)%nat -> 0 <= count ->
  count + Z.of_nat (length ms) < 2 ^ 32 ->
  Z.of_nat (length pre + length (concat (mm_sent <$> ms))) < 2 ^ 32 ->
  msg_unpack_loop big fuel (Z.of_nat (length pre)) count
    (Z.of_nat (length pre + length (concat (mm_sent <$> ms)))) (pre ++ concat (mm_sent <$> ms) ++ extra)
  = Ret (0, count + Z.of_nat (length ms),
         pre ++ concat (mm_bytes big <$> (clear_crc <$> ms)) ++ extra).
Proof.
  revert fuel pre count. induction ms as [|m ms IH]; intros fuel pre count Hms Hf Hc Hcm Hlen;
    (destruct fuel as [|fuel]; [simpl in Hf; lia|]); cbn [msg_unpack_loop].
  { rewrite (proj2 (Z.leb_le _ _)) by (simpl; lia). cbn [length]. by rewrite Z.add_0_r. }
  apply Forall_cons_1 in Hms as [Hm Hms]. destruct (Hm) as (Hok & _ & _).
  pose proof (mm_size_range m Hok) as Hsz. pose proof (mm_sent_length m Hok) as Hsl.
  pose proof (mm_bytes_length (clear_crc m) (clear_crc_ok m Hok)) as Hbl.
  change (h_size (mm_head (clear_crc m))) with (h_size (mm_head m)) in Hbl.
  rewrite !fmap_cons in *. cbn [concat length] in *. rewrite length_app in *.
  rewrite (proj2 (Z.leb_gt _ _)) by lia.
  rewrite drop_length_app, <-app_assoc, msg_to_host_single by (done || lia).
  rewrite bind_ret. cbn [Z.eqb negb]. rewrite splice_rest by (rewrite !length_app; lia).
  rewrite (get_more msg_size _ (h_size (mm_head m))), bind_ret
    by (apply (mm_get_size big (clear_crc m)), clear_crc_ok; done).
  rewrite !wrap_small by lia.
  specialize (IH fuel (pre ++ mm_bytes big (clear_crc m)) (count + 1) Hms).
  rewrite length_app, <-!app_assoc in IH.
  replace (Z.of_nat (length pre) + h_size (mm_head m))
    with (Z.of_nat (length pre + length (mm_bytes big (clear_crc m)))) by lia.
  replace (Z.of_nat (length pre + (length (mm_sent m) + length (concat (mm_sent <$> ms)))))
    with (Z.of_nat (length pre + length (mm_bytes big (clear_crc m))
                    + length (concat (mm_sent <$> ms)))) by lia.
  rewrite IH by lia. rewrite <-!app_assoc. do 3 f_equal. lia.
Qed.

Lemma to_network m :
  mm_ok m -> rrr_msg_checksum_and_to_network_endian big (mm_wire big m) = Ret (mm_sent m).
Proof.
  intros Hm. pose proof (send_spec m Hm big) as H.
  by rewrite prepare_for_network_spec, bind_ret in H.
Qed.

Lemma pack_messages ms fuel pre extra target :
  Forall message_ok ms -> (length ms < fuel)%nat ->
  Z.of_nat (length pre + length (concat (mm_bytes big <$> ms))) < 2 ^ 32 ->
  msg_pack_loop big fuel (Z.of_nat (length pre))
    (Z.of_nat (length pre + length (concat (mm_bytes big <$> ms))))
    (pre ++ concat (mm_bytes big <$> ms) ++ extra) target
  = Ret (0, Z.of_nat (length pre + length (concat (mm_bytes big <$> ms))),
         target ++ concat (mm_sent <$> ms)).
Proof.
  revert fuel pre target. induction ms as [|m ms IH]; intros fuel pre target Hms Hf Hlen;
    (destruct fuel as [|fuel]; [simpl in Hf; lia|]); cbn [msg_pack_loop].
  { rewrite (proj2 (Z.leb_le _ _)) by (simpl; lia). simpl. by rewrite app_nil_r, Nat.add_0_r. }
  apply Forall_cons_1 in Hms as [Hm Hms]. destruct (Hm) as (Hok & _ & _).
  pose proof (mm_size_range m Hok) as Hsz. pose proof (mm_bytes_length m Hok) as Hbl.
  rewrite !fmap_cons in *. cbn [concat length] in *. rewrite length_app in *.
  rewrite (proj2 (Z.leb_gt _ _)) by lia. rewrite drop_length_app, <-app_assoc.
  unfold MSG_TOTAL_SIZE. rewrite (get_more msg_size _ (h_size (mm_head m))), bind_ret
    by by apply mm_get_size.
  unfold sizeof_msg_msg. rewrite (proj2 (Z.ltb_ge _ _)), wrap_small by lia.
  rewrite (proj2 (Z.ltb_ge _ _)) by lia.
  rewrite <-Hbl, bytes_at_0_app, bind_ret, prepare_for_network_spec, bind_ret by done.
  rewrite to_network, bind_ret by done.
  specialize (IH fuel (pre ++ mm_bytes big m) (target ++ mm_sent m) Hms).
  rewrite length_app, <-!app_assoc in IH.
  replace (Z.of_nat (length pre) + Z.of_nat (length (mm_bytes big m)))
    with (Z.of_nat (length pre + length (mm_bytes big m))) by lia.
  rewrite Nat.add_assoc. rewrite IH by lia. done.
Qed.

(** * Values *)

Lemma concat_lengths {A} (f g : A -> list Z) l :
  Forall (fun x => length (f x) = length (g x)) l ->
  length (concat (f <$> l)) = length (concat (g <$> l)).
Proof.
  induction 1 as [|x l Hx _ IH]; [done|]. rewrite !fmap_cons. cbn [concat].
  by rewrite !length_app, Hx, IH.
Qed.

Lemma content_lengths c :
  content_ok c -> length (content_wire c) = length (content_host big c).
Proof.
  destruct c; simpl; try done; intros Hc.
  1, 2: transitivity (8 * length vs)%nat; [|symmetry]; apply length_words; intros;
    [apply length_be_enc|apply length_host_enc].
  apply concat_lengths. eapply Forall_impl; [|exact Hc]. intros m (Hm & _ & _).
  pose proof (mm_sent_length m Hm). pose proof (mm_bytes_length m Hm). lia.
Qed.

Lemma stored_holds v i : holds_item big v i -> stored v = Ret (content_host big (i_content i)).
Proof.
  intros (_ & _ & _ & _ & Ht & extra & Hd). unfold stored, data_at. rewrite Ht.
  destruct Hd as [Hd|(Hc & _ & Hd)]; rewrite Hd.
  - btest; [|by apply bytes_at_0_app].
    assert (content_host big (i_content i) = []) as -> by (apply length_zero_iff_nil; lia). done.
  - by rewrite Hc.
Qed.

Lemma data_holds v i :
  holds_item big v i -> exists extra, default [] (data v) = content_host big (i_content i) ++ extra.
Proof.
  intros (_ & _ & _ & _ & _ & extra & [Hd|(Hc & -> & Hd)]); rewrite Hd; exists extra || exists [];
    [done|by rewrite Hc].
Qed.

Lemma export_words v vs :
  (exists extra, default [] (data v) = concat (host_enc big 8 <$> vs) ++ extra) ->
  total_stored_length v = Z.of_nat (length (concat (host_enc big 8 <$> vs))) -> Forall word_ok vs ->
  rrr_type_64_export_or_pack big v = Ret (0, concat (be_enc 8 <$> vs)).
Proof.
  intros [extra Hd] Ht Hv. unfold rrr_type_64_export_or_pack.
  rewrite length_words in Ht by (intros; apply length_host_enc). rewrite Ht.
  rewrite (proj2 (Z.eqb_eq (_ mod 8) 0)) by zdiv. cbn [negb].
  replace (Z.to_nat (Z.of_nat (8 * length vs) / 8)) with (length vs) by zdiv.
  by rewrite Hd, words_to_wire, bind_ret.
Qed.

Lemma length_messages ms :
  Forall message_ok ms -> (30 * length ms <= length (concat (mm_bytes big <$> ms)))%nat.
Proof.
  induction 1 as [|m ms (Hm & _ & _) _ IH]; [simpl; lia|]. rewrite fmap_cons. cbn [concat length].
  rewrite length_app. pose proof (mm_size_range m Hm). pose proof (mm_bytes_length m Hm). lia.
Qed.

Lemma pack_msg v ms :
  (exists extra, default [] (data v) = concat (mm_bytes big <$> ms) ++ extra) ->
  total_stored_length v = Z.of_nat (length (concat (mm_bytes big <$> ms))) ->
  total_stored_length v < 2 ^ 32 -> Forall message_ok ms ->
  rrr_type_msg_pack big v = Ret (0, concat (mm_sent <$> ms), 9).
Proof.
  intros [extra Hd] Ht Hlen Hms. unfold rrr_type_msg_pack, rrr_type_msg_pack_or_export.
  pose proof (length_messages ms Hms) as Hl. rewrite Hd, Ht in *.
  pose proof (pack_messages ms (S (Z.to_nat (Z.of_nat (length (concat (mm_bytes big <$> ms))))))
    [] extra [] Hms) as Hp. cbn [length app Nat.add] in Hp.
  change (Z.of_nat 0) with 0 in Hp. rewrite Hp by lia. rewrite bind_ret, !Z.eqb_refl. done.
Qed.

Lemma blob_pack_correct v bs d :
  stored v = Ret bs -> bytes_ok bs /\ bs <> [] ->
  type (definition v) = d /\ total_stored_length v = Z.of_nat (length bs) ->
  rrr_type_blob_pack v = Ret (0, bs, d).
Proof.
  intros Hs [_ Hb] [<- Ht]. unfold rrr_type_blob_pack, rrr_type_blob_export_or_pack.
  rewrite Hs, Ht, (proj2 (Z.eqb_neq _ 0)) by (destruct bs; simpl; [done|lia]). done.
Qed.

Lemma pack_correct v i :
  holds_item big v i -> content_ok (i_content i) -> total_stored_length v < 2 ^ 32 ->
  exists f, pack big (definition v) = Some f
    /\ f v = Ret (0, content_wire (i_content i), wire_type (i_content i)).
Proof.
  intros Hv Hc Hlen. pose proof (stored_holds v i Hv) as Hst. pose proof (data_holds v i Hv) as Hdt.
  destruct (Hv) as (Hdef & _ & _ & _ & Ht & _). rewrite Hdef.
  destruct (i_content i) as [vs|vs|bs|bs|bs|bs|bs|bs|ms|] eqn:Hi; simpl in *;
    eexists; (split; [done|]).
  - unfold rrr_type_host_pack. by rewrite (export_words v vs).
  - unfold rrr_type_fixp_pack. by rewrite (export_words v vs).
  - apply blob_pack_correct; [done|done|]. by rewrite Hdef.
  - apply blob_pack_correct; [done|done|]. by rewrite Hdef.
  - apply blob_pack_correct; [done|done|]. by rewrite Hdef.
  - apply blob_pack_correct; [done|done|]. by rewrite Hdef.
  - apply blob_pack_correct; [done|done|]. by rewrite Hdef.
  - unfold rrr_type_str_pack, rrr_type_blob_export_or_pack. by rewrite Hst, !bind_ret, Hdef.
  - by apply pack_msg.
  - done.
Qed.

(** * Items in a buffer *)

Definition item_head (i : item) : list Z :=
  be_enc 1 (wire_type (i_content i)) ++ be_enc 1 (i_flags i) ++
  be_enc 4 (Z.of_nat (length (i_tag i))) ++ be_enc 4 (Z.of_nat (length (content_wire (i_content i)))) ++
  be_enc 4 (i_count i).

Lemma item_wire_split i : item_wire i = item_head i ++ i_tag i ++ content_wire (i_content i).
Proof. unfold item_wire, item_head. by rewrite <-!app_assoc. Qed.

Lemma length_item_head i : length (item_head i) = 14%nat.
Proof. done. Qed.

Lemma length_item_wire i :
  length (item_wire i) = (14 + length (i_tag i) + length (content_wire (i_content i)))%nat.
Proof. rewrite item_wire_split, !length_app, length_item_head. lia. Qed.

Lemma packed_head_correct i :
  packed_head big (wire_type (i_content i)) (i_flags i) (Z.of_nat (length (i_tag i)))
    (Z.of_nat (length (content_wire (i_content i)))) (i_count i) = item_head i.
Proof. unfold packed_head, rrr_htobe32. by rewrite !host_enc_to_be, !host_enc_1. Qed.

(** The value fits into the lengths of an array message. *)
Definition fits (v : rrr_type_value) : Prop := tag_length v + total_stored_length v < 2 ^ 32.

Lemma holds_lengths v i :
  holds_item big v i -> content_ok (i_content i) -> fits v ->
  Z.of_nat (length (i_tag i)) + Z.of_nat (length (content_wire (i_content i))) < 2 ^ 32
  /\ total_stored_length v = Z.of_nat (length (content_wire (i_content i)))
  /\ tag_length v = Z.of_nat (length (i_tag i)).
Proof.
  intros (_ & _ & Htag & _ & Ht & _) Hc Hf. unfold fits, tag_length in *.
  rewrite Htag, (content_lengths _ Hc), Ht in *. lia.
Qed.

Lemma put_app src t pre mid post :
  length mid = length src -> 0 <= t -> t + Z.of_nat (length src) < 2 ^ 64 ->
  put src (mk_pack t (Z.of_nat (length pre)) (pre ++ mid ++ post))
  = Ret (mk_pack (t + Z.of_nat (length src)) (Z.of_nat (length (pre ++ src))) (pre ++ src ++ post)).
Proof.
  intros Hl Ht Hmax. unfold put. cbn [write_pos target written_bytes_total].
  rewrite memcpy_app, bind_ret, wrap_small by (done || lia).
  rewrite length_app. do 2 f_equal. lia.
Qed.

(** Nothing is put for an empty tag. *)
Lemma put_tag src t pre mid post :
  length mid = length src -> 0 <= t -> t + Z.of_nat (length src) < 2 ^ 64 ->
  (if 0 <? Z.of_nat (length src) then put src (mk_pack t (Z.of_nat (length pre)) (pre ++ mid ++ post))
   else Ret (mk_pack t (Z.of_nat (length pre)) (pre ++ mid ++ post)))
  = Ret (mk_pack (t + Z.of_nat (length src)) (Z.of_nat (length (pre ++ src))) (pre ++ src ++ post)).
Proof.
  intros Hl Ht Hmax. btest; [by apply put_app|].
  assert (src = []) as -> by (apply length_zero_iff_nil; lia).
  assert (mid = []) as -> by by apply length_zero_iff_nil.
  by rewrite app_nil_r, Z.add_0_r.
Qed.

Lemma pack_item v i t pre mid post :
  holds_item big v i -> item_ok i -> fits v -> length mid = length (item_wire i) ->
  0 <= t -> t + Z.of_nat (length mid) < 2 ^ 64 ->
  rrr_array_array_pack_callback big v (mk_pack t (Z.of_nat (length pre)) (pre ++ mid ++ post))
  = Ret (0, mk_pack (t + Z.of_nat (length mid)) (Z.of_nat (length (pre ++ item_wire i)))
              (pre ++ item_wire i ++ post)).
Proof.
  intros Hv (_ & _ & _ & Hc) Hf Hm Ht Hmax.
  destruct (holds_lengths v i Hv Hc Hf) as (Hlen & Hstored & Htag).
  destruct (pack_correct v i Hv Hc) as (f & Hpack & Hfv); [lia|].
  destruct (Hv) as (_ & Hflags & Htags & Hcount & _).
  unfold rrr_array_array_pack_callback. rewrite Hpack.
  pose proof (length_item_wire i) as Hw. rewrite <-Hm in Hw.
  set (n := length (i_tag i)) in *. set (k := length (content_wire (i_content i))) in *.
  rewrite <-(take_drop 14 mid), <-(take_drop n (drop 14 mid)).
  set (m1 := take 14 mid). set (m2 := take n (drop 14 mid)). set (m3 := drop n (drop 14 mid)).
  assert (length m1 = 14%nat) as H1 by (subst m1; rewrite length_take; lia).
  assert (length m2 = n) as H2 by (subst m2; rewrite length_take, length_drop; lia).
  assert (length m3 = k) as H3 by (subst m3; rewrite !length_drop; lia).
  unfold skip, sizeof_packed. cbn [write_pos written_bytes_total target].
  rewrite wrap_small by lia. rewrite Htag, Htags.
  rewrite <-!app_assoc. rewrite (app_assoc pre m1).
  replace (Z.of_nat (length pre) + (15 - 1)) with (Z.of_nat (length (pre ++ m1)))
    by (rewrite length_app; lia).
  pose proof (put_tag (i_tag i) (t + (15 - 1)) (pre ++ m1) m2 (m3 ++ post)) as Hput.
  fold n in Hput. rewrite Hput by (done || lia). clear Hput.
  rewrite bind_ret, Hfv, bind_ret, (app_assoc (pre ++ m1)).
  rewrite put_app by (done || (fold k; lia)). rewrite bind_ret. fold k. cbn [Z.eqb negb].
  cbn [target]. rewrite Hflags, Hcount, packed_head_correct, <-!app_assoc.
  rewrite memcpy_app by (done || by rewrite H1, length_item_head). rewrite bind_ret.
  rewrite Hstored. fold k. rewrite Z.ltb_irrefl. cbn [written_bytes_total write_pos].
  rewrite item_wire_split, !length_app, H1, H2, H3, length_item_head. fold n k.
  rewrite <-!app_assoc. do 3 f_equal; lia.
Qed.

Lemma pack_items vs items t pre mid post found :
  Forall2 (holds_item big) vs items -> Forall item_ok items -> Forall fits vs ->
  length mid = length (items_wire items) -> 0 <= t -> t + Z.of_nat (length mid) < 2 ^ 64 ->
  rrr_array_array_iterate_chosen_tags (rrr_array_array_pack_callback big) found vs None
    (mk_pack t (Z.of_nat (length pre)) (pre ++ mid ++ post))
  = Ret (0, found + Z.of_nat (length vs),
         mk_pack (t + Z.of_nat (length mid)) (Z.of_nat (length (pre ++ items_wire items)))
           (pre ++ items_wire items ++ post)).
Proof.
  intros Hvs. revert t pre mid found. induction Hvs as [|v i vs items Hv Hvs IH];
    intros t pre mid found Hok Hfit Hm Ht Hmax.
  - apply length_zero_iff_nil in Hm as ->. simpl. by rewrite app_nil_r, !Z.add_0_r.
  - apply Forall_cons_1 in Hok as [Hi Hok], Hfit as [Hfv Hfit].
    unfold items_wire in *. rewrite fmap_cons in *. cbn [concat] in *. rewrite length_app in Hm.
    assert (exists m1 m2, mid = m1 ++ m2 /\ length m1 = length (item_wire i)) as (m1 & m2 & -> & H1).
    { exists (take (length (item_wire i)) mid), (drop (length (item_wire i)) mid).
      rewrite take_drop, length_take. split; [done|lia]. }
    rewrite length_app in *.
    cbn [rrr_array_array_iterate_chosen_tags chosen]. rewrite <-app_assoc.
    rewrite (pack_item v i) by (done || lia). rewrite bind_ret. cbn [Z.eqb negb].
    rewrite (app_assoc pre), IH by (done || lia).
    rewrite <-!app_assoc. cbn [length]. do 3 f_equal; lia.
Qed.

End words.

End ArrayMessage.
