(* ===== verification/ArrayDelivery.v ===== *)
(** Array messages from one host to another: an array that is made into a
    message and sent is read by the receiver as the values it holds, whatever
    the byte orders of the two hosts. *)
From S2P Require Import Prelude Types Crc32 Utf8 MsgHead MsgMsg MsgStats MsgDispatch TypeValue Array ArrayMessage.

Module ArrayDelivery.
Import Types Crc32 Utf8 MsgHead MsgMsg MsgDispatch TypeValue Array ArrayMessage.

(** * Making the message *)

Definition array_message (time : Z) (topic : list Z) (items : list item) : rrr_msg_msg :=
  mk_mm (mk_msg 0 (30 + Z.of_nat (length topic) + Z.of_nat (length (items_wire items)))
    RRR_MSG_TYPE_MESSAGE 0 0) time (MSG_TYPE_MSG + 16 * MSG_CLASS_ARRAY) RRR_ARRAY_VERSION topic
    (items_wire items).

Section Make.
Context (big : bool) (time : Z) (topic trest : list Z) (vs : list rrr_type_value)
  (items : list item).
Context (Hvs : Forall2 (holds_item big) vs items) (Hitems : Forall item_ok items)
  (Hfits : Forall fits vs).
Context (Htime : 0 <= time < 2 ^ 64) (Htlen : Z.of_nat (length topic) < 2 ^ 16)
  (Htopic : bytes_ok topic).

Lemma packed_length_items sum :
  0 <= sum -> sum + Z.of_nat (length (items_wire items)) < 2 ^ 64 ->
  packed_length_loop sum vs = (0, sum + Z.of_nat (length (items_wire items))).
Proof using Hvs Hitems Hfits.
  clear Htime Htlen Htopic. unfold items_wire. revert sum Hitems Hfits.
  induction Hvs as [|v i vs' items' Hv Hvs' IH]; intros sum Hok Hfit Hs Hmax; cbn [packed_length_loop].
  { by rewrite Z.add_0_r. }
  apply Forall_cons_1 in Hok as [Hi Hok], Hfit as [Hf Hfit]. destruct (Hi) as (_ & _ & _ & Hc).
  destruct (holds_lengths big v i Hv Hc Hf) as (Hlen & Hst & Htag).
  rewrite fmap_cons in *. cbn [concat] in *. rewrite length_app, length_item_wire in *.
  rewrite Hst, Htag. unfold sizeof_packed.
  rewrite (wrap_small 32) by lia. rewrite (wrap_small 64 (_ + 15 - 1)) by lia. rewrite !(wrap_small 64) by lia.
  rewrite !(proj2 (Z.ltb_ge _ _)) by lia. cbn [orb]. rewrite IH by (done || lia).
  f_equal. lia.
Qed.

Lemma set_array_version t d :
  set big version RRR_ARRAY_VERSION (mm_bytes big (new_message MSG_TYPE_MSG MSG_CLASS_ARRAY time t d))
  = Ret (mm_bytes big (mk_mm (mk_msg 0 (30 + Z.of_nat (length t) + Z.of_nat (length d))
      RRR_MSG_TYPE_MESSAGE 0 0) time (MSG_TYPE_MSG + 16 * MSG_CLASS_ARRAY) RRR_ARRAY_VERSION t d)).
Proof.
  unfold mm_bytes, mm_body, msg_bytes, new_message, topic_len.
  cbn [mm_head mm_timestamp mm_type_and_class mm_version mm_topic mm_data]. by run_message.
Qed.

Lemma array_message_head :
  exists head, length head = 30%nat /\
    forall t d, length t = length topic -> length d = length (items_wire items) ->
      mm_bytes big (mk_mm (mk_msg 0 (30 + Z.of_nat (length t) + Z.of_nat (length d))
        RRR_MSG_TYPE_MESSAGE 0 0) time (MSG_TYPE_MSG + 16 * MSG_CLASS_ARRAY) RRR_ARRAY_VERSION t d)
      = head ++ t ++ d.
Proof.
  destruct (payload_head big (array_message time topic items)) as (head & Hl & E).
  exists head. split; [done|]. intros t d Ht Hd. rewrite <-(E t d Ht Hd).
  unfold array_message, with_payload. simpl. by rewrite Ht, Hd.
Qed.

Lemma array_message_shape_ok t d :
  length t = length topic -> length d = length (items_wire items) -> bytes_ok t -> bytes_ok d ->
  30 + Z.of_nat (length topic) + Z.of_nat (length (items_wire items)) <= UINT32_MAX ->
  mm_ok (mk_mm (mk_msg 0 (30 + Z.of_nat (length t) + Z.of_nat (length d))
    RRR_MSG_TYPE_MESSAGE 0 0) time (MSG_TYPE_MSG + 16 * MSG_CLASS_ARRAY) RRR_ARRAY_VERSION t d).
Proof using Htime Htlen.
  unfold UINT32_MAX. intros Ht Hd ? ? ?.
  constructor; unfold topic_len, data_len, byte_ok; simpl; rewrite ?Ht, ?Hd; try done; try lia.
  unfold msg_ok. simpl. unfold RRR_MSG_TYPE_MESSAGE. lia.
Qed.

Lemma copy_topic head zeros post :
  length head = 30%nat -> length zeros = length topic ->
  (if 0 <? Z.of_nat (length topic) then
     src ← bytes_at 0 (Z.of_nat (length topic)) (topic ++ trest);
     memcpy_to DATA src (head ++ zeros ++ post)
   else Ret (head ++ zeros ++ post)) = Ret (head ++ topic ++ post).
Proof.
  intros Hl Hz. btest; [rewrite bytes_at_0_app, bind_ret; apply memcpy_app; [by rewrite Hl|done]|].
  assert (topic = []) as Ht by (apply length_zero_iff_nil; lia). rewrite Ht in Hz |- *.
  by apply length_zero_iff_nil in Hz as ->.
Qed.

(** Packing into the data of the message, which is all that is left of it. *)
Lemma pack_data pre ver :
  Z.of_nat (length (items_wire items)) < 2 ^ 32 ->
  exists found, rrr_array_array_pack_or_export
    (drop (length pre) (pre ++ replicate (length (items_wire items)) 0))
    (Z.of_nat (length (items_wire items))) (mk_array vs ver) None (rrr_array_array_pack_callback big)
  = Ret (0, items_wire items, found, Z.of_nat (length (items_wire items))).
Proof using Hvs Hitems Hfits.
  clear Htime Htlen Htopic. intros Hmax. rewrite drop_app_length. unfold rrr_array_array_pack_or_export. cbn [values].
  set (w := items_wire items) in *.
  pose proof (pack_items big vs items 0 [] (replicate (length w) 0) [] 0 Hvs Hitems Hfits) as Hp.
  rewrite length_replicate in Hp. fold w in Hp. cbn [length app] in Hp. rewrite !app_nil_r in Hp.
  change (Z.of_nat 0) with 0 in Hp. rewrite Hp by (done || lia). clear Hp. eexists.
  rewrite bind_ret. cbn [Z.eqb negb write_pos written_bytes_total target].
  by rewrite Z.ltb_irrefl, Z.add_0_l.
Qed.

Lemma new_message_from_array_spec alloc_ok ver :
  Z.of_nat (length (items_wire items)) < 2 ^ 64 ->
  rrr_array_new_message_from_array big alloc_ok (mk_array vs ver) time (topic ++ trest)
    (Z.of_nat (length topic))
  = if (30 + Z.of_nat (length topic) + Z.of_nat (length (items_wire items)) <=? UINT32_MAX)
       && alloc_ok
    then Ret (0, Some (mm_bytes big (array_message time topic items)))
    else Ret (RRR_ARRAY_SOFT_ERROR, None).
Proof using Hvs Hitems Hfits Htime Htlen Htopic.
  intros Hmax. unfold rrr_array_new_message_from_array, rrr_array_get_packed_length. cbn [values].
  rewrite packed_length_items by lia. rewrite Z.add_0_l. cbn [Z.eqb negb orb].
  set (w := items_wire items) in *. unfold RRR_LENGTH_MAX, UINT32_MAX.
  destruct (Z.ltb_spec 4294967295 (Z.of_nat (length w))) as [Hbig|Hsmall].
  { by rewrite (proj2 (Z.leb_gt _ _)) by lia. }
  rewrite (wrap_small 32) by lia. unfold rrr_msg_msg_new_array.
  pose proof (new_empty_spec big MSG_TYPE_MSG MSG_CLASS_ARRAY time topic w) as Hnew.
  rewrite Hnew by (done || unfold MSG_TYPE_MSG, MSG_CLASS_ARRAY; lia). clear Hnew.
  unfold UINT32_MAX.
  destruct (Z.leb_spec (30 + Z.of_nat (length topic) + Z.of_nat (length w)) 4294967295) as [Hle|],
    alloc_ok; cbn [andb]; rewrite !bind_ret; try done.
  cbn [Z.eqb negb]. rewrite bind_ret, set_array_version, bind_ret.
  destruct array_message_head as (head & Hl & E). fold w in E.
  rewrite E by apply length_replicate.
  rewrite copy_topic by (done || apply length_replicate).
  rewrite bind_ret. rewrite <-(E topic (replicate (length w) 0)) by (done || apply length_replicate).
  match goal with |- context [mm_bytes big ?x] => set (m := x); assert (mm_ok m) as Hm end.
  { apply array_message_shape_ok; fold w; unfold UINT32_MAX;
      [done|apply length_replicate|done|apply zeros_bytes|lia]. }
  rewrite mm_data_length, bind_ret by done. unfold MSG_TOPIC_LENGTH.
  rewrite mm_get_tl, bind_ret by done.
  change (topic_len m) with (Z.of_nat (length topic)).
  assert (data_len m = Z.of_nat (length w)) as ->
    by (unfold data_len, m; cbn [mm_data]; by rewrite length_replicate).
  subst m. rewrite E by (done || apply length_replicate).
  assert (Z.to_nat (DATA + Z.of_nat (length topic)) = length (head ++ topic)) as ->
    by (rewrite length_app, Hl; unfold DATA; lia).
  rewrite (app_assoc head), (wrap_small 32) by lia.
  destruct (pack_data (head ++ topic) ver) as [found Hp]; [fold w; lia|]. fold w in Hp.
  rewrite Hp, bind_ret. cbn [Z.eqb negb]. rewrite Z.eqb_refl. cbn [negb]. do 3 f_equal.
  assert (splice (length (head ++ topic)) w ((head ++ topic) ++ replicate (length w) 0)
    = (head ++ topic) ++ w) as ->.
  { rewrite <-(Nat2Z.id (length (head ++ topic))). apply splice_rest, length_replicate. }
  rewrite <-app_assoc. symmetry. by apply E.
Qed.

End Make.

(** * Reading it *)

Definition wire_definition (c : content) : rrr_type_definition :=
  match c with Words _ => definition_be | _ => content_definition c end.

Lemma wire_definition_id c : rrr_type_get_from_id (wire_type c) = Some (wire_definition c).
Proof. by destruct c. Qed.

Lemma wire_definition_unpack big c :
  exists f, unpack big (wire_definition c) = Some f.
Proof. destruct c; by eexists. Qed.

Section Read.
Context (big : bool) (fresh : Z -> list Z) (alloc : nat -> bool).
Context (Hfresh : forall n, length (fresh n) = Z.to_nat n) (Halloc : forall n, alloc n = true).

Definition object (d : list Z) : option (list Z) := match d with [] => None | _ => Some d end.

Lemma object_default d : default [] (object d) = d.
Proof. by destruct d. Qed.

Lemma object_splice d old :
  length d = length old ->
  match object old with Some o => Some (splice 0 d o) | None => None end = object d.
Proof.
  intros Hl. destruct old as [|b old]; [by destruct d|].
  cbn [object]. rewrite splice_all by done. by destruct d.
Qed.

Lemma object_same d old :
  length d = length old -> match object old with Some _ => Some d | None => None end = object d.
Proof. by destruct old, d. Qed.

(** The value before it is unpacked. *)
Definition raw_value (i : item) : rrr_type_value :=
  let d := content_wire (i_content i) in
  mk_value (wire_definition (i_content i)) (i_flags i) (Z.of_nat (length d)) None
    (Z.of_nat (length d)) (i_count i) None (i_tag i) (object d).

Lemma unpack_words (target : Z) d vs node :
  Forall word_ok vs -> data node = object (concat (be_enc 8 <$> vs)) ->
  rrr_type_get_from_id target = Some d ->
  total_stored_length node = Z.of_nat (length (concat (be_enc 8 <$> vs))) ->
  rrr_type_64_unpack big target node
  = Ret (0, set_definition d (set_stored (total_stored_length node)
      (object (concat (host_enc big 8 <$> vs))) node)).
Proof.
  intros Hvs Hd Hid Ht. unfold rrr_type_64_unpack. rewrite Hid, Hd, object_default, Ht.
  pose proof (length_words (be_enc 8) vs (fun _ => length_be_enc _ _)) as Hl.
  pose proof (length_words (host_enc big 8) vs (fun _ => length_host_enc _ _ _)) as Hl'. rewrite Hl.
  rewrite (proj2 (Z.eqb_eq (_ mod 8) 0)) by zdiv. cbn [negb].
  replace (Z.to_nat (Z.of_nat (8 * length vs) / 8)) with (length vs) by zdiv.
  rewrite <-(app_nil_r (concat (be_enc 8 <$> vs))) at 1.
  rewrite words_from_wire, bind_ret by done. by rewrite object_splice by lia.
Qed.

Lemma unpack_blob v bs :
  bytes_ok bs /\ bs <> [] -> total_stored_length v = Z.of_nat (length bs) ->
  rrr_type_blob_unpack v = Ret (0, v).
Proof.
  intros [_ Hb] Ht. unfold rrr_type_blob_unpack.
  by rewrite Ht, (proj2 (Z.eqb_neq _ 0)) by (destruct bs; simpl; [done|lia]).
Qed.

Lemma length_cleared ms :
  Forall message_ok ms ->
  length (concat (mm_bytes big <$> (clear_crc <$> ms))) = length (concat (mm_sent <$> ms)).
Proof.
  intros Hms. rewrite <-list_fmap_compose. apply concat_lengths. eapply Forall_impl; [|exact Hms].
  intros m (Hm & _ & _). pose proof (mm_sent_length m Hm).
  pose proof (mm_bytes_length big (clear_crc m) (clear_crc_ok m Hm)). unfold compose. simpl in *. lia.
Qed.

Lemma unpack_msgs v ms :
  Forall message_ok ms -> Z.of_nat (length (concat (mm_sent <$> ms))) < 2 ^ 32 ->
  data v = object (concat (mm_sent <$> ms)) ->
  total_stored_length v = Z.of_nat (length (concat (mm_sent <$> ms))) ->
  rrr_type_msg_unpack big v
  = Ret (0, set_element_count (Z.of_nat (length ms)) (set_stored (total_stored_length v)
      (object (concat (mm_bytes big <$> (clear_crc <$> ms)))) v)).
Proof.
  intros Hms Hlen Hd Ht. unfold rrr_type_msg_unpack. rewrite Hd, object_default, Ht.
  pose proof (length_messages big ms Hms) as Hn.
  pose proof (length_cleared ms Hms) as Hl.
  pose proof (content_lengths big (Messages ms) Hms) as Hl'. cbn [content_wire content_host] in Hl'.
  pose proof (unpack_messages big ms (S (Z.to_nat (Z.of_nat (length (concat (mm_sent <$> ms))))))
    [] [] 0 Hms) as Hu. cbn [length app Nat.add] in Hu.
  rewrite !app_nil_r in Hu. change (Z.of_nat 0) with 0 in Hu. rewrite Hu by lia.
  rewrite bind_ret. cbn [Z.eqb negb]. rewrite Z.add_0_l. by rewrite object_same.
Qed.

Lemma unpack_correct i :
  content_ok (i_content i) -> Z.of_nat (length (content_wire (i_content i))) < 2 ^ 32 ->
  exists f, unpack big (wire_definition (i_content i)) = Some f
    /\ f (raw_value i) = Ret (0, value_of big (received i)).
Proof.
  intros Hc Hlen. pose proof (content_lengths big _ Hc) as Hl. destruct i as [t fl n c].
  unfold value_of, received, raw_value. cbn [i_content i_tag i_flags i_count] in *.
  destruct c as [vs|vs|bs|bs|bs|bs|bs|bs|ms|]; cbn [wire_definition content_definition unpack];
    eexists; (split; [done|]); cbn [content_ok content_wire content_host i_content i_tag i_flags i_count] in *.
  - unfold rrr_type_be_unpack. rewrite (unpack_words _ definition_h vs) by done.
    unfold set_definition, set_stored. cbn. by rewrite Hl.
  - unfold rrr_type_fixp_unpack. rewrite (unpack_words _ definition_fixp vs) by done.
    unfold set_definition, set_stored. cbn. by rewrite Hl.
  - by eapply unpack_blob.
  - by eapply unpack_blob.
  - by eapply unpack_blob.
  - by eapply unpack_blob.
  - by eapply unpack_blob.
  - done.
  - rewrite (unpack_msgs _ ms) by done. unfold set_element_count, set_stored. cbn.
    by rewrite length_cleared.
  - done.
Qed.

Lemma memcpy_all (src buf : list Z) : length buf = length src -> memcpy_to 0 src buf = Ret src.
Proof.
  intros Hl. pose proof (memcpy_app [] buf [] src 0 eq_refl Hl) as H.
  cbn [app] in H. by rewrite !app_nil_r in H.
Qed.

Lemma value_new_spec d fl t rest il n c :
  0 <= n ->
  rrr_type_value_new fresh alloc d fl (Z.of_nat (length t)) (t ++ rest) il None c None n
  = Ret (0, Some (mk_value d fl il None n c None t (if 0 <? n then Some (fresh n) else None))).
Proof using Halloc.
  intros Hn. unfold rrr_type_value_new, new_ref. rewrite !Halloc. cbn [negb]. rewrite !andb_false_r.
  assert ((if 0 <? Z.of_nat (length t) then bytes_at 0 (Z.of_nat (length t)) (t ++ rest) else Ret [])
    = Ret t) as ->.
  { btest; [apply bytes_at_0_app|]. by assert (t = []) as -> by (apply length_zero_iff_nil; lia). }
  rewrite bind_ret. by destruct t.
Qed.

Lemma new_and_unpack_item i rest :
  item_ok i -> Z.of_nat (length (content_wire (i_content i))) < 2 ^ 32 ->
  rrr_type_value_new_and_unpack big fresh alloc (wire_definition (i_content i))
    (i_tag i ++ content_wire (i_content i) ++ rest) (i_flags i) (Z.of_nat (length (i_tag i)))
    (Z.of_nat (length (content_wire (i_content i)))) (i_count i)
  = Ret (0, Some (value_of big (received i))).
Proof using Hfresh Halloc.
  intros (_ & _ & _ & Hc) Hlen. unfold rrr_type_value_new_and_unpack.
  rewrite value_new_spec, bind_ret by lia. cbn [Z.eqb negb].
  destruct (unpack_correct i Hc Hlen) as (f & Hf & Hv). unfold raw_value in Hv.
  set (d := content_wire (i_content i)) in *.
  match goal with |- ?m ≫= _ = _ => assert (m = Ret (raw_value i)) as -> end.
  { unfold raw_value. fold d. btest.
    - rewrite bytes_at_app by done. rewrite bind_ret. cbn [data default from_option].
      rewrite memcpy_all, bind_ret by (unfold id; rewrite Hfresh; lia). by destruct d.
    - by assert (d = []) as -> by (apply length_zero_iff_nil; lia). }
  rewrite bind_ret. cbn [definition raw_value]. rewrite Hf. unfold raw_value. fold d.
  by rewrite Hv, bind_ret.
Qed.

Lemma get_packed i rest :
  let packed := item_wire i ++ rest in
  get big packed_type packed = Ret (host_dec big (be_enc 1 (wire_type (i_content i))))
  /\ get big packed_flags packed = Ret (host_dec big (be_enc 1 (i_flags i)))
  /\ get big packed_tag_length packed
     = Ret (host_dec big (be_enc 4 (Z.of_nat (length (i_tag i)))))
  /\ get big packed_total_length packed
     = Ret (host_dec big (be_enc 4 (Z.of_nat (length (content_wire (i_content i))))))
  /\ get big packed_elements packed = Ret (host_dec big (be_enc 4 (i_count i))).
Proof.
  cbv zeta.
  replace (item_wire i ++ rest) with (concat [be_enc 1 (wire_type (i_content i));
    be_enc 1 (i_flags i); be_enc 4 (Z.of_nat (length (i_tag i)));
    be_enc 4 (Z.of_nat (length (content_wire (i_content i)))); be_enc 4 (i_count i);
    i_tag i ++ content_wire (i_content i) ++ rest]).
  - repeat split; [eapply (get_concat _ _ 0) | eapply (get_concat _ _ 1) | eapply (get_concat _ _ 2)
      | eapply (get_concat _ _ 3) | eapply (get_concat _ _ 4)]; done.
  - unfold item_wire. cbn [concat]. by rewrite <-!app_assoc, app_nil_r.
Qed.

Lemma drop_to_payload i (front pre rest : list Z) :
  drop (Z.to_nat (Z.of_nat (length front) + (Z.of_nat (length pre) + (15 - 1))))
    (front ++ pre ++ item_wire i ++ rest)
  = i_tag i ++ content_wire (i_content i) ++ rest.
Proof.
  rewrite item_wire_split, <-!app_assoc, !app_assoc, <-(app_assoc _ (i_tag i)), <-!(app_assoc _ _ rest).
  rewrite drop_app_length'; [done|]. rewrite !length_app, length_item_head. lia.
Qed.

Section iterate.
Context {W : Type}
  (callback : list Z -> rrr_type_definition -> Z -> Z -> Z -> Z -> W -> outcome (Z * W))
  (step : item -> W -> W).
Context (Hcallback : forall i rest w, item_ok i ->
  Z.of_nat (length (content_wire (i_content i))) < 2 ^ 32 ->
  callback (i_tag i ++ content_wire (i_content i) ++ rest) (wire_definition (i_content i))
    (i_flags i) (Z.of_nat (length (i_tag i))) (Z.of_nat (length (content_wire (i_content i))))
    (i_count i) w = Ret (0, step i w)).

(** A callback that takes every item sees them all, in their order. *)
Lemma iterate_items items fuel front pre w :
  Forall item_ok items -> (length items < fuel)%nat ->
  Z.of_nat (length pre + length (items_wire items)) < 2 ^ 32 ->
  message_iterate_loop big callback fuel (front ++ pre ++ items_wire items)
    (Z.of_nat (length front)) (Z.of_nat (length pre))
    (Z.of_nat (length pre + length (items_wire items))) w
  = Ret (0, fold_left (fun w i => step i w) items w).
Proof using Hcallback.
  revert fuel pre w. induction items as [|i items IH]; intros fuel pre w Hok Hf Hlen;
    (destruct fuel as [|fuel]; [simpl in Hf; lia|]); cbn [message_iterate_loop].
  { by rewrite (proj2 (Z.leb_le _ _)) by (simpl; lia). }
  apply Forall_cons_1 in Hok as [Hi Hok]. unfold items_wire in *. rewrite fmap_cons in *.
  cbn [concat length fold_left] in *. rewrite length_app, length_item_wire in *.
  rewrite (proj2 (Z.leb_gt _ _)) by lia. unfold sizeof_packed.
  rewrite (proj2 (Z.ltb_ge _ _)) by lia.
  replace (drop (Z.to_nat (Z.of_nat (length front) + Z.of_nat (length pre)))
    (front ++ pre ++ item_wire i ++ concat (item_wire <$> items)))
    with (item_wire i ++ concat (item_wire <$> items))
    by (rewrite app_assoc, drop_app_length'; [done|rewrite length_app; lia]).
  destruct (get_packed i (concat (item_wire <$> items))) as (H1 & H2 & H3 & H4 & H5).
  rewrite H1, bind_ret, H2, bind_ret, H3, bind_ret, H4, bind_ret, H5, bind_ret.
  destruct (Hi) as (_ & [? ?] & ? & _). unfold u32_ok, rrr_be32toh in *.
  assert (0 <= wire_type (i_content i) < 256) by by destruct (i_content i).
  rewrite <-!(host_enc_1 big), !to_be_host_dec, !host_dec_enc by width.
  rewrite (proj2 (Z.ltb_ge _ _)) by lia. rewrite wire_definition_id.
  destruct (wire_definition_unpack big (i_content i)) as [f ->].
  rewrite drop_to_payload, Hcallback, bind_ret by (done || lia). cbn [Z.eqb negb].
  rewrite wrap_small by lia. specialize (IH fuel (pre ++ item_wire i) (step i w) Hok).
  rewrite length_app, length_item_wire, <-!app_assoc in IH.
  match goal with |- message_iterate_loop _ _ _ _ _ ?p ?e _ = _ =>
    replace p with (Z.of_nat (length pre + (14 + length (i_tag i) + length (content_wire (i_content i)))))
      by lia;
    replace e with (Z.of_nat (length pre + (14 + length (i_tag i) + length (content_wire (i_content i)))
      + length (concat (item_wire <$> items)))) by lia
  end.
  apply IH; lia.
Qed.

End iterate.

(** * The array *)

Definition append_item (i : item) (a : rrr_array) : rrr_array := append (value_of big (received i)) a.

Lemma append_items items a :
  fold_left (fun a i => append_item i a) items a
  = set_values (values a ++ ((fun i => value_of big (received i)) <$> items)) a.
Proof.
  revert a. induction items as [|i items IH]; intros a; simpl.
  - unfold set_values. rewrite app_nil_r. by destruct a.
  - rewrite IH. unfold set_values, append_item, append. simpl. by rewrite <-app_assoc.
Qed.

Lemma length_items_wire items : (14 * length items <= length (items_wire items))%nat.
Proof.
  induction items as [|i items IH]; [simpl; lia|]. unfold items_wire in *. rewrite fmap_cons.
  cbn [concat length]. rewrite length_app, length_item_wire. lia.
Qed.

Lemma array_class time topic items :
  mm_ok (array_message time topic items) ->
  MSG_CLASS big (mm_bytes big (array_message time topic items)) = Ret MSG_CLASS_ARRAY.
Proof. intros Hm. unfold MSG_CLASS. by rewrite mm_get_tc, bind_ret. Qed.

Lemma append_to_array_spec time topic items a :
  mm_ok (array_message time topic items) -> Forall item_ok items ->
  rrr_array_message_append_to_array big fresh alloc a (mm_bytes big (array_message time topic items))
  = Ret (0, Some RRR_ARRAY_VERSION,
         set_values (values a ++ ((fun i => value_of big (received i)) <$> items)) a).
Proof using Hfresh Halloc.
  intros Hm Hitems. unfold rrr_array_message_append_to_array, rrr_array_message_iterate.
  rewrite array_class, bind_ret, Z.eqb_refl by done. cbn [negb].
  rewrite mm_get_version, bind_ret by done. cbn [mm_version array_message].
  rewrite Z.eqb_refl. cbn [negb].
  unfold MSG_TOPIC_LENGTH. rewrite mm_get_tl, bind_ret, mm_data_length, bind_ret by done.
  change (data_len (array_message time topic items)) with (Z.of_nat (length (items_wire items))).
  change (topic_len (array_message time topic items)) with (Z.of_nat (length topic)).
  destruct (mm_bytes_head30 big (array_message time topic items)) as (head & Hl & E).
  cbn [mm_topic mm_data array_message] in E.
  pose proof (mm_size_range _ Hm) as Hs. cbn [mm_head h_size array_message] in Hs.
  pose proof (length_items_wire items) as Hn. rewrite Nat2Z.id.
  pose proof (iterate_items (rrr_array_message_append_to_array_callback big fresh alloc) append_item)
    as Hit.
  assert (Z.of_nat (length (head ++ topic)) = DATA + Z.of_nat (length topic)) as Hbase
    by (rewrite length_app, Hl; unfold DATA; lia).
  specialize (Hit) with (items := items) (front := head ++ topic) (pre := []) (w := empty_array)
    (fuel := S (length (items_wire items))).
  rewrite Hbase, <-app_assoc in Hit. cbn [length app Nat.add] in Hit. rewrite <-E in Hit.
  change (Z.of_nat 0) with 0 in Hit.
  rewrite Hit, bind_ret; [|intros i rest w Hi Hi'|done|lia..].
  - rewrite append_items. done.
  - unfold rrr_array_message_append_to_array_callback. by rewrite new_and_unpack_item.
Qed.

End Read.

(** * From one host to the other *)

Lemma content_wire_bytes c : content_ok c -> bytes_ok (content_wire c).
Proof.
  destruct c as [vs|vs|bs|bs|bs|bs|bs|bs|ms|]; simpl; try tauto; intros Hc; [| |idtac|constructor].
  1, 2: apply Forall_concat, Forall_fmap, Forall_true; intros; apply be_enc_bytes.
  apply Forall_concat, Forall_fmap. eapply Forall_impl; [|exact Hc]. intros m (Hm & _ & _).
  unfold compose, mm_sent, wire_bytes, layout. rewrite !Forall_app.
  auto 10 using be_enc_bytes, body_bytes.
Qed.

Lemma items_wire_bytes items : Forall item_ok items -> bytes_ok (items_wire items).
Proof.
  intros Hok. apply Forall_concat, Forall_fmap. eapply Forall_impl; [|exact Hok].
  intros i (? & _ & _ & Hc). unfold compose, item_wire. rewrite !Forall_app.
  auto 10 using be_enc_bytes, content_wire_bytes.
Qed.

(** The receiver of the messages, which appends what it reads. *)
Definition append_callbacks (big : bool) (fresh : Z -> list Z) (alloc : nat -> bool)
  : callbacks rrr_array :=
  mk_callbacks (Some (fun message a =>
    '(ret, _, a) ← rrr_array_message_append_to_array big fresh alloc a message; Ret (ret, a)))
    None None None None.

(** C3. Arrays between hosts.  An array of any values, messages included, that one
    host makes into a message and sends is appended by the receiver, whatever
    the byte orders of the two, as the same values in the same order with their
    tags, flags and element counts, each in the form of the receiving host; the
    checksums of nested messages are cleared and counted anew. *)
Theorem rrr_array_delivery big_sender big_receiver undefined fresh alloc vs ver items time
    topic trest target :
  (forall n, length (fresh n) = Z.to_nat n) -> (forall n, alloc n = true) ->
  Forall2 (holds_item big_sender) vs items -> Forall item_ok items -> Forall fits vs ->
  0 <= time < 2 ^ 64 -> bytes_ok topic -> rrr_utf8_validate topic = 0 ->
  Z.of_nat (length topic) < 2 ^ 16 ->
  30 + Z.of_nat (length topic) + Z.of_nat (length (items_wire items)) <= UINT32_MAX ->
  exists message,
    rrr_array_new_message_from_array big_sender true (mk_array vs ver) time (topic ++ trest)
      (Z.of_nat (length topic)) = Ret (0, Some message)
    /\ (m ← rrr_msg_msg_prepare_for_network big_sender message;
        wire ← rrr_msg_checksum_and_to_network_endian big_sender m;
        rrr_msg_to_host_and_verify_with_callback big_receiver undefined
          (append_callbacks big_receiver fresh alloc) wire (Z.of_nat (length wire)) target)
       = Ret (0, set_values (values target ++
           ((fun i => value_of big_receiver (received i)) <$> items)) target).
Proof.
  intros Hfresh Halloc Hvs Hitems Hfits Htime Htopic Hutf Htlen Hmax.
  pose proof (array_message_shape_ok time topic items Htime Htlen topic (items_wire items) eq_refl
    eq_refl Htopic (items_wire_bytes items Hitems) Hmax) as Hm.
  change (mk_mm _ _ _ _ _ _) with (array_message time topic items) in Hm.
  exists (mm_bytes big_sender (array_message time topic items)). split.
  { rewrite (new_message_from_array_spec _ _ _ _ _ items) by (done || unfold UINT32_MAX in *; lia).
    by rewrite (proj2 (Z.leb_le _ _)). }
  rewrite prepare_for_network_spec, bind_ret, to_network, bind_ret by done.
  rewrite mm_sent_length, receive_spec by done. cbn [callback_msg append_callbacks].
  assert (acceptable (array_message time topic items) = true) as ->
    by (unfold acceptable; cbn [mm_topic array_message]; by rewrite Hutf).
  change (clear_crc (array_message time topic items)) with (array_message time topic items).
  by rewrite append_to_array_spec, bind_ret.
Qed.

(** Two integers and a text with a quote from a little endian host to a big
    endian one. *)
Lemma rrr_array_delivery_witness :
  exists message,
    rrr_array_new_message_from_array false true
      (mk_array [mk_value definition_h 1 8 None 16 2 None [97; 98]
                   (Some ([254; 255; 255; 255; 255; 255; 255; 255] ++ [1; 2; 0; 0; 0; 0; 0; 0]));
                 mk_value definition_str 0 4 None 3 1 None [] (Some [104; 34; 105; 0])] 0)
      1000 [116; 47; 97; 0] 3 = Ret (0, Some message)
    /\ (m ← rrr_msg_msg_prepare_for_network false message;
        wire ← rrr_msg_checksum_and_to_network_endian false m;
        rrr_msg_to_host_and_verify_with_callback true MsgStats.MsgStats.zero_stats
          (append_callbacks true (fun n => replicate (Z.to_nat n) 170) (fun _ => true)) wire
          (Z.of_nat (length wire)) empty_array)
       = Ret (0, mk_array [mk_value definition_h 1 16 None 16 2 None [97; 98]
                   (Some ([255; 255; 255; 255; 255; 255; 255; 254] ++ [0; 0; 0; 0; 0; 0; 2; 1]));
                 mk_value definition_str 0 3 None 3 1 None [] (Some [104; 34; 105])] 0).
Proof.
  apply (rrr_array_delivery false true MsgStats.MsgStats.zero_stats (fun n => replicate (Z.to_nat n) 170)
    (fun _ => true) _ 0 [mk_item [97; 98] 1 2 (Words [0xfffffffffffffffe; 0x201]);
       mk_item [] 0 1 (Text [104; 34; 105])] 1000 [116; 47; 97] [0] empty_array).
  - intros. apply length_replicate.
  - done.
  - constructor; [|constructor; [|constructor]]; (repeat (split; [done|])); [exists []|exists [0]];
    by left.
  - repeat constructor; simpl; unfold byte_ok, u32_ok, word_ok; lia.
  - by repeat constructor.
  - lia.
  - repeat constructor; unfold byte_ok; lia.
  - reflexivity.
  - simpl. lia.
  - by vm_compute.
Defined.

End ArrayDelivery.
