(* ===== verification/TypeImport.v ===== *)
(** What importing text and integers from raw data means: the values that come
    out stand for the text or the numbers that went in, and exporting text is
    undone by importing it. *)
From S2P Require Import Prelude Types MsgHead MsgMsg MsgDispatch TypeValue Array ArrayMessage ArrayDelivery.

Module TypeImport.
Import Types MsgHead MsgMsg TypeValue Array ArrayMessage ArrayDelivery.

(** * Text *)

Definition escape (c : Z) : list Z := if needs_escape c then [92; c] else [c].
Definition escaped (text : list Z) : list Z := flat_map escape text.
Definition quoted (text : list Z) : list Z := [34] ++ escaped text ++ [34].

Lemma str_length_escaped text n rest :
  str_length_loop n false (escaped text ++ 34 :: rest) = Some (n + Z.of_nat (length (escaped text))).
Proof.
  revert n. induction text as [|c text IH]; intros n; cbn [escaped flat_map app length str_length_loop].
  { simpl. f_equal. lia. }
  fold (escaped text). unfold escape, needs_escape.
  destruct (Z.eqb_spec c 92) as [->|H92]; [|destruct (Z.eqb_spec c 34) as [->|H34]];
    cbn [orb app str_length_loop negb andb length]; rewrite ?(proj2 (Z.eqb_neq _ _)) by (done || lia);
    cbn [negb andb Z.eqb]; rewrite ?andb_false_r, ?(proj2 (Z.eqb_neq _ 92)) by done;
    cbn -[str_length_loop Z.of_nat Z.add]; rewrite IH; f_equal; lia.
Qed.

Lemma strip_escaped text : strip_escapes false (escaped text) = text.
Proof.
  induction text as [|c text IH]; [done|]. cbn [escaped flat_map]. fold (escaped text).
  unfold escape, needs_escape.
  destruct (Z.eqb_spec c 92) as [->|H92]; [|destruct (Z.eqb_spec c 34) as [->|H34]];
    cbn [orb app strip_escapes negb andb]; rewrite ?Z.eqb_refl, ?(proj2 (Z.eqb_neq c 92)) by done;
    cbn -[Z.eqb]; by rewrite IH.
Qed.

Lemma length_escaped text :
  length (escaped text) = (length text + length (filter (fun c => needs_escape c = true) text))%nat.
Proof.
  induction text as [|c text IH]; [done|]. cbn [escaped flat_map]. fold (escaped text).
  rewrite length_app, IH. unfold escape. rewrite filter_cons.
  destruct (needs_escape c) eqn:E; [rewrite decide_True by done|rewrite decide_False by congruence];
    cbn [length]; lia.
Qed.

(** A value that nothing has been imported into. *)
Definition blank (v : rrr_type_value) : Prop :=
  data v = None /\ element_count v = 1 /\ import_length v = 0.

Section Host.
Context (big : bool) (fresh : Z -> list Z).
Context (Hfresh : forall n, length (fresh n) = Z.to_nat n).

Lemma memcpy_part (src buf : list Z) :
  (length src <= length buf)%nat ->
  memcpy_to 0 src buf = Ret (src ++ drop (length src) buf).
Proof.
  intros Hl. rewrite <-(take_drop (length src) buf) at 1.
  apply (memcpy_app [] _ _ src 0); [done|rewrite length_take; lia].
Qed.

Lemma import_blob_spec node pb (bs rest : list Z) :
  data node = None -> u32 (import_length node * element_count node) = Z.of_nat (length bs) ->
  exists d, rrr_type_import_blob fresh true node pb (bs ++ rest)
    = Ret (0, set_stored (Z.of_nat (length bs)) (Some (bs ++ d)) node, Z.of_nat (length bs)).
Proof using Hfresh.
  intros Hd Hn. unfold rrr_type_import_blob. rewrite Hd, Hn, length_app.
  rewrite (proj2 (Z.ltb_ge _ _)) by lia. cbn [negb]. rewrite Nat2Z.id, take_app_length.
  rewrite memcpy_part by (rewrite Hfresh; btest; lia). eexists. done.
Qed.

Lemma import_str_spec node pb text rest :
  blank node -> definition node = definition_str -> Z.of_nat (length (quoted text)) < 2 ^ 32 ->
  exists v, rrr_type_import_str fresh true node pb (quoted text ++ rest)
    = Ret (0, v, Z.of_nat (length (quoted text)))
    /\ holds_item big v (mk_item (tag node) (flags node) 1 (Text text)).
Proof using Hfresh.
  intros (Hd & Hc & Hi) Hdef Hlen. unfold rrr_type_import_str. rewrite Hd, Hc, Hi. cbn [Z.eqb negb].
  assert (length (quoted text) = length (escaped text) + 2)%nat as Hq
    by (unfold quoted; rewrite !length_app; simpl; lia).
  assert (get_import_length_str (quoted text ++ rest) = (0, Z.of_nat (length (quoted text)))) as ->.
  { unfold quoted, get_import_length_str. cbn [app]. rewrite <-app_assoc. cbn [app Z.eqb negb].
    rewrite str_length_escaped, wrap_small by lia. unfold RRR_TYPE_PARSE_OK, RRR_READ_OK. f_equal.
    cbn [length]. rewrite length_app. simpl. lia. }
  cbn [Z.eqb negb]. rewrite wrap_small by lia.
  replace (drop 1 (quoted text ++ rest)) with (escaped text ++ 34 :: rest)
    by (unfold quoted; cbn [app drop]; by rewrite <-app_assoc).
  destruct (import_blob_spec (set_import_length (Z.of_nat (length (quoted text)) - 2) node) 0
    (escaped text) (34 :: rest)) as [d E]; [done| |].
  { cbn [import_length element_count set_import_length]. rewrite Hc, wrap_small; lia. }
  rewrite E, bind_ret. cbn [Z.eqb negb]. rewrite wrap_small by lia.
  rewrite (proj2 (Z.eqb_eq _ _)) by lia. cbn [negb].
  match goal with |- context [stored ?v] => assert (stored v = Ret (escaped text)) as -> end.
  { unfold stored, data_at. cbn [total_stored_length data set_import_length set_stored].
    btest; [by assert (escaped text = []) as -> by (apply length_zero_iff_nil; lia)|].
    apply bytes_at_0_app. }
  rewrite bind_ret, strip_escaped. cbn [data set_import_length set_stored default from_option].
  pose proof (length_escaped text) as Hle.
  rewrite memcpy_part, bind_ret by (unfold id; rewrite length_app; lia).
  replace (Z.of_nat (length (escaped text)) + 2) with (Z.of_nat (length (quoted text))) by lia.
  eexists. split; [reflexivity|]. repeat (split; [done|]). eexists. left. reflexivity.
Qed.

Lemma export_str_spec v i text :
  holds_item big v i -> i_content i = Text text -> Z.of_nat (length (quoted text)) < 2 ^ 32 ->
  rrr_type_str_export v = Ret (0, quoted text)
  /\ rrr_type_str_get_export_length v = Ret (0, Z.of_nat (length (quoted text))).
Proof.
  intros Hv Hi Hlen. pose proof (stored_holds big v i Hv) as Hs. destruct Hv as (_ & _ & _ & _ & Ht & _).
  rewrite Hi in Hs, Ht. cbn [content_host] in Hs, Ht.
  unfold rrr_type_str_export, rrr_type_str_get_export_length. rewrite Hs, !bind_ret, Ht.
  split; [done|]. pose proof (length_escaped text) as Hle.
  assert (length (quoted text) = length (escaped text) + 2)%nat as Hq
    by (unfold quoted; rewrite !length_app; simpl; lia).
  rewrite (wrap_small 32 (Z.of_nat _)) by lia. rewrite (wrap_small 64 (_ + 2)) by lia.
  rewrite wrap_small by lia. unfold RRR_LENGTH_MAX. rewrite (proj2 (Z.ltb_ge _ _)) by lia.
  rewrite wrap_small by lia. do 2 f_equal. lia.
Qed.

(** * Integers *)

(** The number that [n] bytes of value [v] stand for, as 64 bits. *)
Definition int_value (signed : bool) (n v : Z) : Z :=
  u64 (if signed && (2 ^ (8 * n - 1) <=? v) then v - 2 ^ (8 * n) else v).

Definition fill (negative : bool) : Z := if negative then 255 else 0.

Lemma expand_fill_bytes negative : expand_fill big negative = replicate 8 (fill negative).
Proof. by destruct big, negative. Qed.

Lemma load8_middle (pre post : list Z) b : load8 (pre ++ b :: post) (Z.of_nat (length pre)) = Ret b.
Proof.
  apply load8_Some. split; [lia|]. by rewrite Nat2Z.id, list_lookup_middle.
Qed.

Lemma store8_middle (pre post : list Z) b c :
  store8 (pre ++ b :: post) (Z.of_nat (length pre)) c = Ret (pre ++ c :: post).
Proof.
  unfold store8. rewrite length_app. cbn [length].
  rewrite (proj2 (Z.leb_le _ _)), (proj2 (Z.ltb_lt _ _)) by lia. cbn [andb]. rewrite Nat2Z.id.
  by rewrite insert_app_r_alt, Nat.sub_diag.
Qed.

(** The bytes, from the last one on, take the place of as many others. *)
Lemma expand_be_loop_spec src old pre post rest :
  src <> [] -> length old = length src -> (length pre + length src <= 8)%nat ->
  expand_be_loop (length src - 1) (Z.of_nat (length pre + length src - 1)) (src ++ rest)
    (pre ++ old ++ post) = Ret (pre ++ src ++ post).
Proof.
  revert old post rest. induction src as [|b src IH] using rev_ind; intros old post rest Hne Hl Hlen;
    [done|]. destruct old as [|c old] using rev_ind; [rewrite length_app in Hl; simpl in Hl; lia|].
  clear IHold. rewrite !length_app in *. cbn [length] in *.
  replace (length src + 1 - 1)%nat with (length src) by lia. rewrite <-!app_assoc. cbn [app].
  assert (forall t, expand_be_loop (length src) (Z.of_nat (length pre + (length src + 1) - 1))
    (src ++ b :: rest) t = (b0 ← load8 (src ++ b :: rest) (Z.of_nat (length src));
      t' ← store8 t (Z.of_nat (length pre + (length src + 1) - 1)) b0;
      match length src with
      | O => Ret t'
      | S rpos => expand_be_loop rpos (u32 (Z.of_nat (length pre + (length src + 1) - 1) - 1))
                    (src ++ b :: rest) t'
      end)) as -> by (intros t; by destruct (length src)).
  rewrite load8_middle, bind_ret, app_assoc.
  replace (Z.of_nat (length pre + (length src + 1) - 1)) with (Z.of_nat (length (pre ++ old)))
    by (rewrite length_app; lia).
  rewrite store8_middle, bind_ret, length_app.
  destruct src as [|b' src']; [destruct old; [by rewrite app_nil_r|simpl in Hl; lia]|].
  cbn [length]. rewrite <-app_assoc, wrap_small by (simpl in *; lia).
  specialize (IH old (b :: post) (b :: rest)). cbn [length] in IH, Hl, Hlen.
  replace (S (length src') - 1)%nat with (length src') in IH by lia.
  replace (Z.of_nat (length pre + length old) - 1)
    with (Z.of_nat (length pre + S (length src') - 1)) by lia.
  rewrite IH by (done || lia). done.
Qed.

Lemma expand_le_loop_spec src old pre pre' post rest :
  length old = length src -> length pre = length pre' ->
  expand_le_loop (length src) (Z.of_nat (length pre)) (pre' ++ src ++ rest) (pre ++ old ++ post)
  = Ret (pre ++ src ++ post).
Proof.
  revert old pre pre'. induction src as [|b src IH]; intros old pre pre' Hl Hp;
    destruct old as [|c old]; try discriminate; [done|].
  cbn [length expand_le_loop app]. rewrite Hp at 1. rewrite load8_middle, bind_ret.
  rewrite store8_middle, bind_ret.
  specialize (IH old (pre ++ [b]) (pre' ++ [b])). rewrite !length_app, <-!app_assoc in IH.
  cbn [length app] in IH, Hl. replace (Z.of_nat (length pre) + 1)
    with (Z.of_nat (length pre + 1)) by lia.
  apply IH; lia.
Qed.

Lemma le_dec_app l k : le_dec (l ++ k) = le_dec l + 2 ^ (8 * Z.of_nat (length l)) * le_dec k.
Proof.
  induction l as [|b l IH]; cbn [app le_dec length]; [change (2 ^ (8 * Z.of_nat 0)) with 1; lia|].
  rewrite IH. replace (8 * Z.of_nat (S (length l))) with (8 + 8 * Z.of_nat (length l)) by lia.
  rewrite Z.pow_add_r by lia. lia.
Qed.

Lemma le_dec_fill negative k :
  le_dec (replicate k (fill negative)) = if negative then 2 ^ (8 * Z.of_nat k) - 1 else 0.
Proof.
  induction k as [|k IH]; [by destruct negative|]. cbn [replicate le_dec]. rewrite IH.
  replace (8 * Z.of_nat (S k)) with (8 + 8 * Z.of_nat k) by lia.
  rewrite Z.pow_add_r by lia. destruct negative; simpl fill; lia.
Qed.

Lemma filled_value s negative :
  bytes_ok s -> (length s <= 8)%nat ->
  le_dec (s ++ replicate (8 - length s) (fill negative))
  = u64 (if negative then le_dec s - 2 ^ (8 * Z.of_nat (length s)) else le_dec s).
Proof.
  intros Hs Hl. rewrite le_dec_app, le_dec_fill. pose proof (le_dec_range s Hs) as Hr.
  assert (2 ^ (8 * Z.of_nat (length s)) * 2 ^ (8 * Z.of_nat (8 - length s)) = 2 ^ 64) as Hp
    by (rewrite <-Z.pow_add_r by lia; f_equal; lia).
  assert (0 < 2 ^ (8 * Z.of_nat (8 - length s))) by (apply Z.pow_pos_nonneg; lia).
  destruct negative; unfold u64, wrap.
  - apply Z.mod_unique with (-1); [left|]; nia.
  - rewrite Z.mul_0_r, Z.mod_small; nia.
Qed.

Lemma top_bit s b :
  bytes_ok (s ++ [b]) ->
  (2 ^ (8 * Z.of_nat (length (s ++ [b])) - 1) <=? le_dec (s ++ [b])) = (128 <=? b).
Proof.
  intros [Hs Hb]%Forall_app. apply Forall_cons_1 in Hb as [[Hb Hb'] _].
  pose proof (le_dec_range s Hs) as Hr. rewrite le_dec_app, length_app. cbn [le_dec length].
  replace (8 * Z.of_nat (length s + 1) - 1) with (8 * Z.of_nat (length s) + 7) by lia.
  rewrite Z.pow_add_r by lia. change (2 ^ 7) with 128.
  set (q := 2 ^ (8 * Z.of_nat (length s))) in *.
  destruct (Z.leb_spec 128 b); [apply Z.leb_le|apply Z.leb_gt]; nia.
Qed.

Lemma land_128 b : byte_ok b -> (0 <? b &&& 0x80) = (128 <=? b) /\ truth (b &&& 0x80) = (128 <=? b).
Proof.
  intros Hb. split; apply Bool.eqb_prop;
    [apply (all_bytes_spec (fun b => Bool.eqb (0 <? b &&& 0x80) (128 <=? b)))
    |apply (all_bytes_spec (fun b => Bool.eqb (truth (b &&& 0x80)) (128 <=? b)))]; done.
Qed.

Lemma be64_value l : bytes_ok l -> length l = 8%nat -> rrr_be64toh big (host_dec big l) = be_dec l.
Proof.
  intros Hl Hn. rewrite <-(be_enc_dec l Hl) at 1. rewrite Hn. apply to_be_host_dec.
  rewrite <-Hn. by apply be_dec_range.
Qed.

Lemma le64_value l : bytes_ok l -> length l = 8%nat -> rrr_le64toh big (host_dec big l) = le_dec l.
Proof.
  intros Hl Hn. unfold rrr_le64toh, host_dec, swap. destruct big; [|done].
  by rewrite <-Hn, be_enc_dec.
Qed.

Lemma fill_bytes negative k : bytes_ok (replicate k (fill negative)).
Proof. apply Forall_replicate. by destruct negative. Qed.

Lemma rev_replicate k (b : Z) : rev (replicate k b) = replicate k b.
Proof.
  induction k as [|k IH]; [done|]. cbn [replicate rev]. by rewrite IH, <-replicate_cons_app.
Qed.

(** The value of the bytes in the order of the expander. *)
Lemma expand_be_spec src rest flags :
  bytes_ok src -> (0 < length src <= 8)%nat ->
  rrr_type_expand_be big (Z.of_nat (length src)) (src ++ rest) flags
  = Ret (int_value (RRR_TYPE_FLAG_IS_SIGNED flags) (Z.of_nat (length src)) (be_dec src)).
Proof.
  intros Hs Hl. unfold rrr_type_expand_be. rewrite (proj2 (Z.eqb_neq _ 0)) by lia.
  assert ((if RRR_TYPE_FLAG_IS_SIGNED flags then b ← load8 (src ++ rest) 0; Ret (0 <? b &&& 0x80)
    else Ret false)
    = Ret (RRR_TYPE_FLAG_IS_SIGNED flags && (2 ^ (8 * Z.of_nat (length src) - 1) <=? be_dec src))) as ->.
  { destruct (RRR_TYPE_FLAG_IS_SIGNED flags); [|done]. cbn [andb].
    destruct src as [|b src]; [simpl in Hl; lia|]. unfold be_dec. cbn [rev].
    assert (length (b :: src) = length (rev src ++ [b])) as -> by (rewrite length_app, length_rev; simpl; lia).
    apply Forall_cons_1 in Hs as [Hb Hs]. rewrite top_bit by (apply Forall_app; auto using Forall_rev).
    by rewrite <-(proj1 (land_128 b Hb)). }
  rewrite bind_ret. set (negative := andb _ _). rewrite expand_fill_bytes.
  replace (replicate 8 (fill negative)) with (replicate (8 - length src) (fill negative) ++
    replicate (length src) (fill negative) ++ []) by (rewrite app_nil_r, <-replicate_add; f_equal; lia).
  replace (Z.to_nat (Z.of_nat (length src) - 1)) with (length src - 1)%nat by lia.
  pose proof (expand_be_loop_spec src (replicate (length src) (fill negative))
    (replicate (8 - length src) (fill negative)) [] rest) as Hloop.
  rewrite !length_replicate in Hloop. replace (8 - length src + length src - 1)%nat with 7%nat in Hloop by lia.
  change (Z.of_nat 7) with 7 in Hloop.
  rewrite Hloop, bind_ret by (lia || intros ->; simpl in Hl; lia). rewrite app_nil_r.
  rewrite be64_value by (rewrite ?Forall_app, ?length_app, ?length_replicate; auto using fill_bytes; lia).
  unfold be_dec, int_value. fold negative. rewrite rev_app_distr, rev_replicate, <-(length_rev src).
  rewrite filled_value by (rewrite ?length_rev; auto using Forall_rev; lia). by rewrite length_rev.
Qed.

Lemma expand_le_spec src rest flags :
  bytes_ok src -> (0 < length src <= 8)%nat ->
  rrr_type_expand_le big (Z.of_nat (length src)) (src ++ rest) flags
  = Ret (int_value (RRR_TYPE_FLAG_IS_SIGNED flags) (Z.of_nat (length src)) (le_dec src)).
Proof.
  intros Hs Hl. unfold rrr_type_expand_le.
  assert ((if RRR_TYPE_FLAG_IS_SIGNED flags then
      b ← load8 (src ++ rest) (Z.of_nat (length src) - 1); Ret (truth (b &&& 0x80)) else Ret false)
    = Ret (RRR_TYPE_FLAG_IS_SIGNED flags && (2 ^ (8 * Z.of_nat (length src) - 1) <=? le_dec src))) as ->.
  { destruct (RRR_TYPE_FLAG_IS_SIGNED flags); [|done]. cbn [andb].
    destruct src as [|b src _] using rev_ind; [simpl in Hl; lia|]. rewrite top_bit by done.
    apply Forall_app in Hs as [_ [Hb _]%Forall_cons_1]. rewrite <-(proj2 (land_128 b Hb)).
    rewrite length_app, <-app_assoc. cbn [length app].
    replace (Z.of_nat (length src + 1) - 1) with (Z.of_nat (length src)) by lia.
    by rewrite load8_middle. }
  rewrite bind_ret. set (negative := andb _ _). rewrite expand_fill_bytes.
  replace (replicate 8 (fill negative)) with (replicate (length src) (fill negative) ++
    replicate (8 - length src) (fill negative)) by (rewrite <-replicate_add; f_equal; lia).
  rewrite Nat2Z.id.
  pose proof (expand_le_loop_spec src (replicate (length src) (fill negative)) [] []
    (replicate (8 - length src) (fill negative)) rest) as Hloop.
  rewrite length_replicate in Hloop. cbn [length app] in Hloop. change (Z.of_nat 0) with 0 in Hloop.
  rewrite Hloop, bind_ret by done.
  rewrite le64_value by (rewrite ?Forall_app, ?length_app, ?length_replicate; auto using fill_bytes; lia).
  by rewrite filled_value by (done || lia).
Qed.

Section import_int.
Context (n : nat) (fl : Z) (dec : list Z -> Z) (expander : Z -> list Z -> Z -> outcome Z).
Let val (c : list Z) : Z := int_value (RRR_TYPE_FLAG_IS_SIGNED fl) (Z.of_nat n) (dec c).
Context (Hn : (0 < n <= 8)%nat).
Context (Hexp : forall c rest, bytes_ok c -> length c = n ->
  expander (Z.of_nat n) (c ++ rest) fl = Ret (val c)).

Lemma import_int_loop_spec chunks rest front mid :
  Forall (fun c => bytes_ok c /\ length c = n) chunks -> length mid = (8 * length chunks)%nat ->
  import_int_loop big expander (length chunks) (Z.of_nat n) fl (concat chunks ++ rest)
    (Z.of_nat (length front)) (front ++ mid)
  = Ret (front ++ concat (host_enc big 8 <$> (val <$> chunks))).
Proof using Hn Hexp.
  intros Hc. revert front mid. induction Hc as [|c chunks [Hb Hl] Hc IH]; intros front mid Hm.
  { apply length_zero_iff_nil in Hm as ->. done. }
  cbn [length import_int_loop concat] in *. rewrite <-app_assoc, Hexp, bind_ret by done.
  rewrite <-(take_drop 8 mid), memcpy_app, bind_ret; [|done|rewrite length_take, length_host_enc; lia].
  rewrite (app_assoc front). replace (Z.of_nat (length front) + 8)
    with (Z.of_nat (length (front ++ host_enc big 8 (val c)))) by (rewrite length_app, length_host_enc; lia).
  rewrite Nat2Z.id, (drop_app_length' c) by done. rewrite IH by (rewrite length_drop; lia).
  rewrite !fmap_cons. cbn [concat]. by rewrite <-app_assoc.
Qed.

Lemma length_concat_chunks chunks :
  Forall (fun c => bytes_ok c /\ length c = n) chunks ->
  length (concat chunks) = (n * length chunks)%nat.
Proof.
  clear Hn Hexp. induction 1 as [|c chunks [_ Hl] _ IH]; [simpl; lia|]. cbn [concat length].
  rewrite length_app, Hl, IH. lia.
Qed.

Lemma import_int_spec chunks rest node pb :
  Forall (fun c => bytes_ok c /\ length c = n) chunks -> 8 * Z.of_nat (length chunks) < 2 ^ 32 ->
  data node = None -> flags node = fl -> import_length node = Z.of_nat n ->
  element_count node = Z.of_nat (length chunks) ->
  exists v, rrr_type_import_int big fresh true expander node pb (concat chunks ++ rest)
    = Ret (0, v, Z.of_nat (n * length chunks))
  /\ holds_item big v (mk_item (tag node) (flags node) (Z.of_nat (length chunks))
       (Words (val <$> chunks))).
Proof using Hfresh Hn Hexp.
  intros Hc Hmax Hd Hf Hi He. pose proof (length_concat_chunks chunks Hc) as Hl.
  unfold rrr_type_import_int. rewrite Hd, Hi, He, Hf. rewrite (proj2 (Z.ltb_ge 8 _)) by lia.
  cbn [element_count import_length flags set_stored total_stored_length]. rewrite ?He, ?Hi, ?Hf.
  rewrite (wrap_small 32 (Z.of_nat (length chunks) * Z.of_nat n)) by nia.
  rewrite (proj2 (Z.ltb_ge _ _)) by (rewrite length_app; lia). cbn [negb].
  rewrite Nat2Z.id, !(wrap_small 32) by lia.
  pose proof (import_int_loop_spec chunks rest [] (fresh (Z.of_nat (length chunks) * 8)) Hc) as Hloop.
  cbn [length app] in Hloop. change (Z.of_nat 0) with 0 in Hloop.
  rewrite Hloop, bind_ret by (rewrite Hfresh; lia).
  replace (Z.of_nat (length chunks) * Z.of_nat n) with (Z.of_nat (n * length chunks)) by lia.
  eexists. split; [reflexivity|]. split; [done|]. split; [done|]. split; [done|]. split; [done|].
  split.
  - cbn [total_stored_length set_definition set_stored content_host i_content].
    rewrite length_words, length_fmap by (intros; apply length_host_enc). lia.
  - exists []. left. by rewrite app_nil_r.
Qed.

End import_int.

End Host.

(** The byte order of the three integer types. *)
Definition int_dec (big : bool) (d : rrr_type_definition) (c : list Z) : option Z :=
  match d with
  | definition_be => Some (be_dec c)
  | definition_le => Some (le_dec c)
  | definition_h => Some (host_dec big c)
  | _ => None
  end.

Lemma import_int_by_type big fresh str_to_fixp d n chunks rest node pb :
  (forall n, length (fresh n) = Z.to_nat n) -> is_Some (int_dec big d []) -> (0 < n <= 8)%nat ->
  Forall (fun c => bytes_ok c /\ length c = n) chunks -> 8 * Z.of_nat (length chunks) < 2 ^ 32 ->
  data node = None -> import_length node = Z.of_nat n ->
  element_count node = Z.of_nat (length chunks) ->
  exists v, do_import big fresh str_to_fixp d true node pb (concat chunks ++ rest)
    = Ret (0, v, Z.of_nat (n * length chunks))
  /\ holds_item big v (mk_item (tag node) (flags node) (Z.of_nat (length chunks))
       (Words ((fun c => int_value (RRR_TYPE_FLAG_IS_SIGNED (flags node)) (Z.of_nat n)
                           (default 0 (int_dec big d c))) <$> chunks))).
Proof.
  intros Hfresh [z Hd] Hn Hc Hmax Hdata Hi He.
  assert (forall c rest, bytes_ok c -> length c = n ->
    rrr_type_expand_be big (Z.of_nat n) (c ++ rest) (flags node)
    = Ret (int_value (RRR_TYPE_FLAG_IS_SIGNED (flags node)) (Z.of_nat n) (be_dec c))) as Hbe
    by (intros c r ? <-; by apply expand_be_spec).
  assert (forall c rest, bytes_ok c -> length c = n ->
    rrr_type_expand_le big (Z.of_nat n) (c ++ rest) (flags node)
    = Ret (int_value (RRR_TYPE_FLAG_IS_SIGNED (flags node)) (Z.of_nat n) (le_dec c))) as Hle
    by (intros c r ? <-; by apply expand_le_spec).
  destruct d; try discriminate; cbn [do_import int_dec default from_option].
  - by apply (import_int_spec _ _ Hfresh n (flags node) be_dec).
  - unfold rrr_type_import_host, RRR_TYPE_SYSTEM_ENDIAN_IS_LE, host_dec. destruct big; cbn [negb].
    + by apply (import_int_spec _ _ Hfresh n (flags node) be_dec).
    + by apply (import_int_spec _ _ Hfresh n (flags node) le_dec).
  - by apply (import_int_spec _ _ Hfresh n (flags node) le_dec).
Qed.

(** C4. Importing integers.  From data with as many integers of one to eight
    bytes as the definition says, in the byte order of its type, the import
    makes a value that stands for exactly those numbers, extended to 64 bits
    with their sign when the type is signed, and reports the bytes used; from
    less data it asks for more and leaves the value alone. *)
Theorem rrr_type_import_int_correct big fresh str_to_fixp d n chunks rest short node pb :
  (forall n, length (fresh n) = Z.to_nat n) -> is_Some (int_dec big d []) -> (0 < n <= 8)%nat ->
  Forall (fun c => bytes_ok c /\ length c = n) chunks -> 8 * Z.of_nat (length chunks) < 2 ^ 32 ->
  data node = None -> import_length node = Z.of_nat n ->
  element_count node = Z.of_nat (length chunks) -> (length short < length (concat chunks))%nat ->
  (exists v, do_import big fresh str_to_fixp d true node pb (concat chunks ++ rest)
     = Ret (0, v, Z.of_nat (n * length chunks))
   /\ holds_item big v (mk_item (tag node) (flags node) (Z.of_nat (length chunks))
        (Words ((fun c => int_value (RRR_TYPE_FLAG_IS_SIGNED (flags node)) (Z.of_nat n)
                            (default 0 (int_dec big d c))) <$> chunks))))
  /\ do_import big fresh str_to_fixp d true node pb short
     = Ret (RRR_TYPE_PARSE_INCOMPLETE, node, pb).
Proof.
  intros Hfresh Hd Hn Hc Hmax Hdata Hi He Hshort. split; [by apply import_int_by_type|].
  rewrite (length_concat_chunks n chunks Hc) in Hshort.
  assert (forall expander, rrr_type_import_int big fresh true expander node pb short
    = Ret (RRR_TYPE_PARSE_INCOMPLETE, node, pb)) as Hinc.
  { intros expander. unfold rrr_type_import_int. rewrite Hdata, Hi, He.
    rewrite (proj2 (Z.ltb_ge _ _)), wrap_small, (proj2 (Z.ltb_lt _ _)) by nia. done. }
  destruct Hd as [z Hd]. destruct d; try discriminate; cbn [do_import]; [apply Hinc| |apply Hinc].
  unfold rrr_type_import_host. destruct (RRR_TYPE_SYSTEM_ENDIAN_IS_LE big); apply Hinc.
Qed.

(** -2 and 258 in two bytes each, little endian, on a big endian host. *)
Lemma rrr_type_import_int_correct_witness :
  (exists v, do_import true (fun n => replicate (Z.to_nat n) 170) (fun _ => (1, 0, 0)) definition_le true
       (mk_value definition_le 1 2 None 0 2 None [] None) 0 [254; 255; 2; 1; 9] = Ret (0, v, 4)
   /\ holds_item true v (mk_item [] 1 2 (Words [0xfffffffffffffffe; 258])))
  /\ do_import true (fun n => replicate (Z.to_nat n) 170) (fun _ => (1, 0, 0)) definition_le true
       (mk_value definition_le 1 2 None 0 2 None [] None) 0 [254; 255; 2]
     = Ret (RRR_TYPE_PARSE_INCOMPLETE, mk_value definition_le 1 2 None 0 2 None [] None, 0).
Proof.
  apply (rrr_type_import_int_correct true (fun n => replicate (Z.to_nat n) 170) (fun _ => (1, 0, 0))
    definition_le 2 [[254; 255]; [2; 1]] [9] [254; 255; 2]); try done; try (simpl; lia).
  - intros. apply length_replicate.
  - repeat constructor; unfold byte_ok; lia.
Defined.

(** C5. Text round trip.  Exporting a text, in quotes and with quotes and
    backslashes escaped, writes as many bytes as it announced; importing what
    it wrote, whatever follows, makes a value with the same text and uses
    exactly those bytes. *)
Theorem rrr_type_str_roundtrip big big' fresh str_to_fixp v i text node pb rest :
  (forall n, length (fresh n) = Z.to_nat n) ->
  holds_item big v i -> i_content i = Text text -> Z.of_nat (length (quoted text)) < 2 ^ 32 ->
  blank node -> definition node = definition_str ->
  exists out v', do_export big (definition v) = Some rrr_type_str_export
    /\ rrr_type_str_export v = Ret (0, out)
    /\ rrr_type_value_get_export_length v = Ret (0, Z.of_nat (length out))
    /\ do_import big' fresh str_to_fixp (definition node) true node pb (out ++ rest)
       = Ret (0, v', Z.of_nat (length out))
    /\ holds_item big' v' (mk_item (tag node) (flags node) 1 (Text text)).
Proof.
  intros Hfresh Hv Hi Hlen Hb Hdef. destruct (export_str_spec big v i text Hv Hi Hlen) as [He Hg].
  destruct (import_str_spec big' fresh Hfresh node pb text rest Hb Hdef Hlen) as (v' & Him & Hv').
  assert (definition v = definition_str) as Hd by (destruct Hv as [-> _]; by rewrite Hi).
  exists (quoted text), v'. unfold rrr_type_value_get_export_length. rewrite Hdef, Hd. done.
Qed.

Lemma rrr_type_str_roundtrip_witness :
  exists out v', do_export false definition_str = Some rrr_type_str_export
    /\ rrr_type_str_export (mk_value definition_str 0 0 None 3 1 None [97] (Some [92; 34; 5])) = Ret (0, out)
    /\ rrr_type_value_get_export_length (mk_value definition_str 0 0 None 3 1 None [97] (Some [92; 34; 5]))
       = Ret (0, Z.of_nat (length out))
    /\ do_import true (fun n => replicate (Z.to_nat n) 170) (fun _ => (1, 0, 0)) definition_str true
         (mk_value definition_str 0 0 None 0 1 None [98] None) 0 (out ++ [34; 34])
       = Ret (0, v', Z.of_nat (length out))
    /\ holds_item true v' (mk_item [98] 0 1 (Text [92; 34; 5])).
Proof.
  apply (rrr_type_str_roundtrip false true (fun n => replicate (Z.to_nat n) 170) (fun _ => (1, 0, 0))
    (mk_value definition_str 0 0 None 3 1 None [97] (Some [92; 34; 5]))
    (mk_item [97] 0 1 (Text [92; 34; 5])) [92; 34; 5] (mk_value definition_str 0 0 None 0 1 None [98] None)
    0 [34; 34]); try done.
  - intros. apply length_replicate.
  - repeat (split; [done|]). exists []. by left.
Defined.

(** * Where the code falls short *)

(** The second of two 64-bit integers is looked for 64 bytes into the data. *)
Lemma second_integer_outside :
  rrr_array_get_value_unsigned_64_by_tag false
    (mk_array [mk_value definition_h 0 8 None 16 2 None [97] (Some (replicate 16 0))] 0) (Some [97]) 1
  = Oob.
Proof. reflexivity. Qed.

(** Two messages of which the second is the smaller one are all there, but the
    size of the first is counted twice and more data is asked for. *)
Lemma import_msg_counts_first_twice :
  let m1 := new_message MSG_TYPE_MSG MSG_CLASS_DATA 5 [] [1; 2] in
  let m2 := new_message MSG_TYPE_MSG MSG_CLASS_DATA 5 [] [] in
  let node := mk_value definition_msg 0 0 None 0 2 None [] None in
  rrr_type_import_msg false (fun n => replicate (Z.to_nat n) 170) true node 0
    (MsgDispatch.MsgDispatch.mm_sent m1 ++ MsgDispatch.MsgDispatch.mm_sent m2)
  = Ret (RRR_TYPE_PARSE_INCOMPLETE, node, 0).
Proof. vm_compute. reflexivity. Qed.

(** A message whose data is no array is said to have any tag. *)
Lemma malformed_has_tag :
  rrr_array_message_has_tag false (mm_bytes false (mk_mm (mk_msg 0 31 RRR_MSG_TYPE_MESSAGE 0 0) 5
    (MSG_TYPE_MSG + 16 * MSG_CLASS_ARRAY) RRR_ARRAY_VERSION [] [0])) [97] = Ret 1.
Proof. vm_compute. reflexivity. Qed.

End TypeImport.
