(* ===== verification/Read.v ===== *)
(** The read framework (src/src/lib/read.c): messages are cut out of what a socket, a
    device or a transport delivers in pieces of any size.

    A read session is a struct in memory; its buffers are objects of the size they were
    allocated with.  A collection is a list of sessions, each with its address.  The
    callbacks are functions on a state [W] of the program around; those that get the
    read session change it as well.  [bytes_read] is a result of the call.  The clock
    stands still during one call. *)
From S2P Require Import Prelude Types.
From stdpp Require Import strings.
Open Scope Z_scope.
Open Scope c_scope.

Module Read.
Import Types.

(** * Sessions *)

Definition RRR_READ_MESSAGE_FLUSH_OVERSHOOT : Z := 1 <<< 15.
Definition RRR_READ_RATELIMIT : Z := 32.
Definition RRR_READ_COMPLETE_METHOD_TARGET_LENGTH : Z := 0.
Definition RRR_READ_COMPLETE_METHOD_ZERO_BYTES_READ : Z := 11.
Definition RRR_READ_BUF_STACK_MAX_SIZE : Z := 8192.
Definition RRR_READ_COLLECTION_CLIENT_TIMEOUT_S : Z := 30.
Definition RRR_READ_BIGALLOC_TARGET_SIZE_THRESHOLD : Z := 2 * 1024 * 1024.
Definition RRR_READ_BIGALLOC_STEP : Z := 1 * 1024 * 1024.

Record rrr_read_session := mk_rs {
  last_read_time : Z;
  ratelimit_time : Z;
  ratelimit_bytes : Z;
  socket_options : Z;
  src_addr : list Z;
  read_complete_method : Z;
  target_size : Z;
  rx_buf_ptr : option (list Z);
  rx_buf_size : Z;
  rx_buf_wpos : Z;
  rx_buf_skip : Z;
  eof_ok_now : Z;
  rx_overshoot : option (list Z);
  rx_overshoot_size : Z;
  read_complete : Z
}.

Definition set_last_read (s : rrr_read_session) (v : Z) : rrr_read_session :=
  mk_rs v (ratelimit_time s) (ratelimit_bytes s) (socket_options s) (src_addr s)
    (read_complete_method s) (target_size s) (rx_buf_ptr s) (rx_buf_size s) (rx_buf_wpos s)
    (rx_buf_skip s) (eof_ok_now s) (rx_overshoot s) (rx_overshoot_size s) (read_complete s).
Definition set_ratelimit (s : rrr_read_session) (t b : Z) : rrr_read_session :=
  mk_rs (last_read_time s) t b (socket_options s) (src_addr s) (read_complete_method s)
    (target_size s) (rx_buf_ptr s) (rx_buf_size s) (rx_buf_wpos s) (rx_buf_skip s) (eof_ok_now s)
    (rx_overshoot s) (rx_overshoot_size s) (read_complete s).
Definition set_method (s : rrr_read_session) (v : Z) : rrr_read_session :=
  mk_rs (last_read_time s) (ratelimit_time s) (ratelimit_bytes s) (socket_options s) (src_addr s) v
    (target_size s) (rx_buf_ptr s) (rx_buf_size s) (rx_buf_wpos s) (rx_buf_skip s) (eof_ok_now s)
    (rx_overshoot s) (rx_overshoot_size s) (read_complete s).
Definition set_target (s : rrr_read_session) (v : Z) : rrr_read_session :=
  mk_rs (last_read_time s) (ratelimit_time s) (ratelimit_bytes s) (socket_options s) (src_addr s)
    (read_complete_method s) v (rx_buf_ptr s) (rx_buf_size s) (rx_buf_wpos s) (rx_buf_skip s)
    (eof_ok_now s) (rx_overshoot s) (rx_overshoot_size s) (read_complete s).
Definition set_buf (s : rrr_read_session) (p : option (list Z)) (n pos : Z) : rrr_read_session :=
  mk_rs (last_read_time s) (ratelimit_time s) (ratelimit_bytes s) (socket_options s) (src_addr s)
    (read_complete_method s) (target_size s) p n pos (rx_buf_skip s) (eof_ok_now s) (rx_overshoot s)
    (rx_overshoot_size s) (read_complete s).
Definition set_skip (s : rrr_read_session) (v : Z) : rrr_read_session :=
  mk_rs (last_read_time s) (ratelimit_time s) (ratelimit_bytes s) (socket_options s) (src_addr s)
    (read_complete_method s) (target_size s) (rx_buf_ptr s) (rx_buf_size s) (rx_buf_wpos s) v
    (eof_ok_now s) (rx_overshoot s) (rx_overshoot_size s) (read_complete s).
Definition set_eof_ok (s : rrr_read_session) (v : Z) : rrr_read_session :=
  mk_rs (last_read_time s) (ratelimit_time s) (ratelimit_bytes s) (socket_options s) (src_addr s)
    (read_complete_method s) (target_size s) (rx_buf_ptr s) (rx_buf_size s) (rx_buf_wpos s)
    (rx_buf_skip s) v (rx_overshoot s) (rx_overshoot_size s) (read_complete s).
Definition set_overshoot (s : rrr_read_session) (p : option (list Z)) (n : Z) : rrr_read_session :=
  mk_rs (last_read_time s) (ratelimit_time s) (ratelimit_bytes s) (socket_options s) (src_addr s)
    (read_complete_method s) (target_size s) (rx_buf_ptr s) (rx_buf_size s) (rx_buf_wpos s)
    (rx_buf_skip s) (eof_ok_now s) p n (read_complete s).
Definition set_complete (s : rrr_read_session) (v : Z) : rrr_read_session :=
  mk_rs (last_read_time s) (ratelimit_time s) (ratelimit_bytes s) (socket_options s) (src_addr s)
    (read_complete_method s) (target_size s) (rx_buf_ptr s) (rx_buf_size s) (rx_buf_wpos s)
    (rx_buf_skip s) (eof_ok_now s) (rx_overshoot s) (rx_overshoot_size s) v.

(** The bytes that have been received. *)
Definition received (s : rrr_read_session) : list Z :=
  take (Z.to_nat (rx_buf_wpos s)) (default [] (rx_buf_ptr s)).

Definition sizeof_sockaddr_storage : Z := 128.
Definition sizeof_rrr_read_session : Z := 328.

Section Collections.
Context (alloc_ok : Z -> bool) (now : Z).

Definition rrr_read_session_new (addr : list Z) : outcome (option rrr_read_session) :=
  if negb (alloc_ok sizeof_rrr_read_session) then Ret None
  else if sizeof_sockaddr_storage <? Z.of_nat (length addr) then Bug
  else Ret (Some (mk_rs now 0 0 0 addr 0 0 None 0 0 0 0 None 0 0)).

(** ** Collections *)

Definition rrr_read_session_collection : Type := list (Z * rrr_read_session).

Definition rrr_read_session_collection_get_session_with_overshoot (c : rrr_read_session_collection) : option Z :=
  fst <$> find (fun n => bool_decide (rx_overshoot n.2 <> None)) c.

Definition rrr_read_session_collection_has_unprocessed_data (c : rrr_read_session_collection) : Z :=
  if existsb (fun n => bool_decide (rx_overshoot n.2 <> None) ||
       ((0 <? rx_buf_wpos n.2) && bool_decide (rx_buf_ptr n.2 <> None))) c then 1 else 0.

(** The loop: the sessions that stay and the one with the address. *)
Fixpoint maintain_loop (limit : Z) (addr : list Z) (res : option Z) (c : rrr_read_session_collection)
  : outcome (option Z * rrr_read_session_collection) :=
  match c with
  | [] => Ret (res, [])
  | (p, node) :: c =>
    if last_read_time node <? limit then maintain_loop limit addr res c
    else
      res ← (if bool_decide (src_addr node = addr) then
               match res with Some _ => Bug | None => Ret (Some p) end
             else Ret res);
      '(res, c) ← maintain_loop limit addr res c;
      Ret (res, (p, node) :: c)
  end.

(** The address of a new session: one that no other has. *)
Definition new_address (c : rrr_read_session_collection) : Z := 1 + foldr Z.max 0 (fst <$> c).

(** The session, [is_new] and the collection. *)
Definition rrr_read_session_collection_maintain_and_find_or_create (c : rrr_read_session_collection)
    (addr : list Z) : outcome (option Z * Z * rrr_read_session_collection) :=
  let time_limit := u64 (now - RRR_READ_COLLECTION_CLIENT_TIMEOUT_S * 1000 * 1000) in
  '(res, c) ← maintain_loop time_limit addr None c;
  match res with
  | Some p => Ret (Some p, 0, c)
  | None =>
    s ← rrr_read_session_new addr;
    match s with
    | None => Ret (None, 0, c)
    | Some s => let p := new_address c in Ret (Some p, 1, (p, s) :: c)
    end
  end.

Fixpoint rrr_read_session_collection_remove_session (c : rrr_read_session_collection) (p : Z)
  : rrr_read_session_collection :=
  match c with
  | [] => []
  | (q, node) :: c => if q =? p then c else (q, node) :: rrr_read_session_collection_remove_session c p
  end.

(** [*p], and writing to it. *)
Definition session_at (c : rrr_read_session_collection) (p : Z) : outcome rrr_read_session :=
  match find (fun n => n.1 =? p) c with Some n => Ret n.2 | None => Oob end.

Definition put_session (c : rrr_read_session_collection) (p : Z) (s : rrr_read_session)
  : rrr_read_session_collection := (fun n => if n.1 =? p then (p, s) else n) <$> c.

End Collections.

(** * Reading *)

(** Writing to an object, which must be large enough, and reallocation. *)
Definition store_bytes (obj : list Z) (off : Z) (bs : list Z) : outcome (list Z) :=
  if (0 <=? off) && (off + Z.of_nat (length bs) <=? Z.of_nat (length obj))
  then Ret (splice (Z.to_nat off) bs obj) else Oob.

Definition allocated (n : Z) : list Z := replicate (Z.to_nat n) 0.

Definition reallocated (obj : list Z) (n : Z) : list Z :=
  take (Z.to_nat n) obj ++ replicate (Z.to_nat n - length obj) 0.

(** The [n] bytes at [off] of an object. *)
Definition load_bytes (obj : option (list Z)) (off n : Z) : outcome (list Z) :=
  match obj with
  | None => Oob
  | Some o => if (0 <=? off) && (0 <=? n) && (off + n <=? Z.of_nat (length o))
              then Ret (slice (Z.to_nat off) (Z.to_nat n) o) else Oob
  end.

Section World.
Context {W : Type}.

(** Code that changes the session and may go to [out] with a status. *)
Definition step (A : Type) : Type := rrr_read_session -> W -> outcome (rrr_read_session * W * (Z + A)).

#[export] Instance step_bind : MBind step := λ A B f m s w,
  match m s w with
  | Ret (s, w, inr a) => f a s w
  | Ret (s, w, inl ret) => Ret (s, w, inl ret)
  | Bug => Bug
  | Oob => Oob
  end.

Definition go {A} (a : A) : step A := λ s w, Ret (s, w, inr a).
Definition out {A} (ret : Z) : step A := λ s w, Ret (s, w, inl ret).
Definition the : step rrr_read_session := λ s w, Ret (s, w, inr s).
Definition change (f : rrr_read_session -> rrr_read_session) : step unit := λ s w, Ret (f s, w, inr tt).
Definition run {A} (m : outcome A) : step A := λ s w, a ← m; Ret (s, w, inr a).
Definition out_if (b : bool) (ret : Z) : step unit := if b then out ret else go tt.
Definition bug_if (b : bool) : step unit := if b then run Bug else go tt.
(** A callback that gets the session. *)
Definition callback (f : rrr_read_session -> W -> outcome (Z * rrr_read_session * W)) : step Z :=
  λ s w, '(ret, s, w) ← f s w; Ret (s, w, inr ret).

Context (alloc_ok : Z -> bool) (now : Z).
Context (function_get_target_size : option (rrr_read_session -> W -> outcome (Z * rrr_read_session * W))).
Context (function_get_target_size_error_callback : option (rrr_read_session -> bool -> W -> rrr_read_session * W)).
Context (function_complete_callback : option (rrr_read_session -> W -> outcome (Z * rrr_read_session * W))).
Context (read_step_initial read_step_max_size read_max_size : Z).

(** [process_overshoot:], the buffer; [bytes] are the bytes that have been read. *)
Definition begin_buffer (bytes : list Z) : step unit :=
  s ← the;
  _ ← match rx_buf_ptr s with
      | Some _ => go tt
      | None =>
        _ ← match rx_overshoot s with
            | Some o =>
              _ ← bug_if (rx_overshoot_size s <=? 0);
              change (fun s => set_overshoot
                (set_buf s (rx_overshoot s) (rx_overshoot_size s) (rx_overshoot_size s)) None 0)
            | None =>
              let n := Z.max (Z.of_nat (length bytes)) read_step_max_size in
              _ ← out_if (negb (alloc_ok n)) RRR_READ_HARD_ERROR;
              change (fun s => set_buf s (Some (allocated n)) read_step_max_size 0)
            end;
        change (fun s => set_target s 0)
      end;
  s ← the;
  bug_if (negb (read_complete s =? 0)).

(** The size of the buffer when the bytes do not fit. *)
Definition expanded_size (s : rrr_read_session) (n : Z) : Z :=
  let expansion_max :=
    if (RRR_READ_BIGALLOC_TARGET_SIZE_THRESHOLD <? target_size s) && (read_step_max_size <? RRR_READ_BIGALLOC_STEP)
    then RRR_READ_BIGALLOC_STEP else read_step_max_size in
  let expansion_max := if target_size s <? u64 (rx_buf_size s + expansion_max) then 0 else expansion_max in
  u64 (rx_buf_size s + Z.max n expansion_max).

(** "Check for expansion of buffer" for [n] more bytes. *)
Definition expand_buffer (n : Z) : step unit :=
  s ← the;
  if rx_buf_size s <? u64 (n + rx_buf_wpos s) then
    let new_size := expanded_size s n in
    _ ← out_if (negb (alloc_ok new_size)) RRR_READ_HARD_ERROR;
    match rx_buf_ptr s with
    | None => run Oob
    | Some o => change (fun s => set_buf s (Some (reallocated o new_size)) new_size (rx_buf_wpos s))
    end
  else go tt.

Definition store_read (bytes : list Z) : step unit :=
  let n := Z.of_nat (length bytes) in
  if n =? 0 then go tt
  else
    _ ← expand_buffer n;
    s ← the;
    match rx_buf_ptr s with
    | None => run Oob
    | Some o =>
      o ← run (store_bytes o (rx_buf_wpos s) bytes);
      change (fun s => set_last_read (set_buf s (Some o) (rx_buf_size s) (u64 (rx_buf_wpos s + n))) now)
    end.

(** Bytes that the target size function skips; [ret] when there are none. *)
Definition skip_bytes (ret : Z) : step Z :=
  s ← the;
  if rx_buf_skip s =? 0 then go ret
  else
    _ ← bug_if (rx_buf_wpos s <? rx_buf_skip s);
    let overshoot_size := rx_buf_wpos s - rx_buf_skip s in
    _ ← (if 0 <? overshoot_size then
           _ ← out_if (negb (alloc_ok (rx_buf_size s))) RRR_READ_HARD_ERROR;
           data ← run (load_bytes (rx_buf_ptr s) (rx_buf_skip s) overshoot_size);
           o ← run (store_bytes (allocated (rx_buf_size s)) 0 data);
           change (fun s => set_overshoot s (Some o) overshoot_size)
         else go tt);
    _ ← change (fun s => set_skip (set_buf s None (rx_buf_size s) (rx_buf_wpos s)) 0);
    go RRR_READ_INCOMPLETE.

Definition needs_target (s : rrr_read_session) : bool :=
  (target_size s =? 0) && (read_complete_method s =? RRR_READ_COMPLETE_METHOD_TARGET_LENGTH).

Definition find_target : step unit :=
  s ← the;
  match function_get_target_size with
  | None => change (fun s => set_target s read_step_initial)
  | Some get_target_size =>
    if needs_target s then
      _ ← change (fun s => set_skip s 0);
      ret ← callback get_target_size;
      _ ← (if negb (ret =? RRR_READ_OK) && negb (ret =? RRR_READ_INCOMPLETE) then
             _ ← match function_get_target_size_error_callback with
                 | Some f => callback (fun s w => let '(s, w) := f s (ret =? RRR_READ_HARD_ERROR) w in Ret (0, s, w))
                 | None => go 0
                 end;
             out ret
           else go tt);
      ret ← skip_bytes ret;
      _ ← out_if (negb (ret =? RRR_READ_OK)) ret;
      s ← the;
      bug_if (needs_target s)
    else go tt
  end.

(** What is behind the target size is kept for the next message. *)
Definition keep_overshoot : step unit :=
  s ← the;
  if (target_size s <? rx_buf_wpos s) &&
     negb (read_complete_method s =? RRR_READ_COMPLETE_METHOD_ZERO_BYTES_READ) then
    _ ← bug_if (bool_decide (rx_overshoot s <> None));
    let n := rx_buf_wpos s - target_size s in
    _ ← change (fun s => set_buf (set_overshoot s None n) (rx_buf_ptr s) (rx_buf_size s) (target_size s));
    _ ← out_if (negb (alloc_ok n)) RRR_READ_HARD_ERROR;
    data ← run (load_bytes (rx_buf_ptr s) (target_size s) n);
    change (fun s => set_overshoot s (Some data) n)
  else go tt.

Definition finish : step unit :=
  s ← the;
  if (rx_buf_wpos s =? target_size s) && (0 <? target_size s) then
    _ ← change (fun s => set_complete s 1);
    match function_complete_callback with
    | None => go tt
    | Some complete =>
      ret ← callback complete;
      _ ← out_if (negb (ret =? 0)) ret;
      change (fun s => set_method (set_target (set_complete (set_buf s None (rx_buf_size s) (rx_buf_wpos s)) 0) 0) 0)
    end
  else if (read_complete_method s =? RRR_READ_COMPLETE_METHOD_ZERO_BYTES_READ) ||
          (read_complete_method s =? RRR_READ_COMPLETE_METHOD_TARGET_LENGTH) then out RRR_READ_INCOMPLETE
  else run Bug.

(** "Check for EOF / connection close": whether to emit EOF at the end. *)
Definition check_closed (bytes : list Z) (ret_from_read : Z) : step bool :=
  s ← the;
  if (Z.of_nat (length bytes) =? 0) || negb (ret_from_read =? 0) then
    if read_complete_method s =? RRR_READ_COMPLETE_METHOD_ZERO_BYTES_READ then
      _ ← bug_if (0 <? target_size s);
      _ ← change (fun s => set_target s (rx_buf_wpos s));
      go true
    else if negb (ret_from_read &&& RRR_READ_EOF =? 0) then
      out (if negb (eof_ok_now s =? 0) && bool_decide (rx_buf_ptr s = None) && bool_decide (rx_overshoot s = None)
           then RRR_READ_EOF else RRR_READ_SOFT_ERROR)
    else if negb (ret_from_read =? 0) then out ret_from_read
    else out RRR_READ_INCOMPLETE
  else go false.

(** ** One message *)

(** The session callbacks are those of rrr_socket_read.c: sessions are found by the
    address the read callback has left in [W]. *)
Context (function_read : option (Z -> W -> outcome (Z * list Z * W))).
Context (src_addr_of : W -> list Z) (first_eof_ok : bool).
Context (function_get_socket_options : option (rrr_read_session -> W -> outcome (Z * rrr_read_session * W))).

(** [__rrr_socket_read_message_default_get_read_session] *)
Definition get_read_session (c : rrr_read_session_collection) (w : W)
  : outcome (option Z * rrr_read_session_collection) :=
  '(session, is_new, c) ← rrr_read_session_collection_maintain_and_find_or_create alloc_ok now c (src_addr_of w);
  match session with
  | Some p =>
    if negb (is_new =? 0) && first_eof_ok then
      s ← session_at c p; Ret (Some p, put_session c p (set_eof_ok s 1))
    else Ret (Some p, c)
  | None => Ret (None, c)
  end.

(** "Check ratelimit": whether reading is to be left out. *)
Definition check_ratelimit (interval max_bytes : Z) (s : rrr_read_session) : bool * rrr_read_session :=
  if 0 <? max_bytes then
    if interval <? u64 (now - ratelimit_time s) then (false, set_ratelimit s now 0)
    else (max_bytes <? ratelimit_bytes s, s)
  else (false, set_ratelimit s 0 0).

(** [out:] with a session. *)
Definition end_session (ret : Z) (c : rrr_read_session_collection) (p : Z) (s : rrr_read_session)
  : rrr_read_session_collection :=
  let c := put_session c p s in
  if negb (ret =? RRR_READ_OK) && negb (ret =? RRR_READ_INCOMPLETE)
  then rrr_read_session_collection_remove_session c p else c.

(** The status of a step; [bytes_read] is a result of its own. *)
Definition in_session {A} (c : rrr_read_session_collection) (p : Z) (w : W) (m : step A) (k : A -> step unit)
    (bytes_read : A -> option Z) (none : option Z)
  : outcome (Z * option Z * rrr_read_session_collection * W) :=
  s ← session_at c p;
  '(s, w, r) ← m s w;
  match r with
  | inl ret => Ret (ret, none, end_session ret c p s, w)
  | inr a =>
    '(s, w, r) ← k a s w;
    let ret := match r with inl ret => ret | inr _ => RRR_READ_OK end in
    Ret (ret, bytes_read a, end_session ret c p s, w)
  end.

(** What happens before the bytes go to the buffer: socket options, end of file, counters. *)
Definition begin_read (bytes : list Z) (ret_from_read : Z) : step bool :=
  s ← the;
  _ ← match function_get_socket_options with
      | Some f =>
        if socket_options s =? 0 then
          ret ← callback f; out_if (negb (ret =? 0)) ret
        else go tt
      | None => go tt
      end;
  do_emit_eof ← check_closed bytes ret_from_read;
  _ ← change (fun s => set_eof_ok
        (set_ratelimit s (ratelimit_time s) (u64 (ratelimit_bytes s + Z.of_nat (length bytes)))) 0);
  _ ← begin_buffer bytes;
  go do_emit_eof.

(** From the bytes in the buffer to the end. *)
Definition process_rest (bytes : list Z) (do_emit_eof : bool) : step unit :=
  _ ← store_read bytes;
  s ← the;
  _ ← out_if ((0 <? read_max_size) && (read_max_size <? rx_buf_wpos s)) RRR_READ_SOFT_ERROR;
  _ ← find_target;
  _ ← keep_overshoot;
  _ ← finish;
  out_if do_emit_eof RRR_READ_EOF.

(** [ratelimit] is [read_session_ratelimit].  The status, what is written to [*bytes_read],
    the collection and the state. *)
Definition read_message_using_callbacks (ratelimit : option Z) (interval max_bytes : Z)
    (c : rrr_read_session_collection) (w : W) : outcome (Z * option Z * rrr_read_session_collection * W) :=
  if (RRR_READ_BUF_STACK_MAX_SIZE <? read_step_max_size) && negb (alloc_ok read_step_max_size)
  then Ret (RRR_READ_HARD_ERROR, None, c, w)
  else
    match rrr_read_session_collection_get_session_with_overshoot c with
    | Some p => in_session c p w (begin_buffer []) (fun _ => process_rest [] false) (fun _ => None) None
    | None =>
      match function_read with
      | None => Ret (RRR_READ_INCOMPLETE, None, c, w)
      | Some read =>
        '(limited, c) ←
          match ratelimit with
          | None => Ret (false, c)
          | Some p =>
            s ← session_at c p;
            let '(limited, s) := check_ratelimit interval max_bytes s in
            Ret (limited, put_session c p s)
          end;
        if limited : bool then Ret (RRR_READ_RATELIMIT, Some 0, c, w)
        else
          '(ret_from_read, bytes, w) ← read read_step_max_size w;
          if Z.max read_step_max_size RRR_READ_BUF_STACK_MAX_SIZE <? Z.of_nat (length bytes) then Oob
          else if negb (ret_from_read &&& RRR_READ_HARD_ERROR =? 0) then Ret (RRR_READ_HARD_ERROR, Some 0, c, w)
          else if negb (ret_from_read &&& RRR_READ_INCOMPLETE =? 0) then Bug
          else if negb (ret_from_read &&& RRR_READ_EOF =? 0) && negb (Z.of_nat (length bytes) =? 0) then Bug
          else
            '(session, c) ← get_read_session c w;
            match session with
            | None => Ret (RRR_READ_HARD_ERROR, Some 0, c, w)
            | Some p =>
              in_session c p w (begin_read bytes ret_from_read) (process_rest bytes)
                (fun _ => Some (Z.of_nat (length bytes))) (Some 0)
            end
      end
    end.

End World.

Section Messages.
Context {W : Type} (alloc_ok : Z -> bool) (now : Z).
Context (function_get_target_size : option (rrr_read_session -> W -> outcome (Z * rrr_read_session * W))).
Context (function_get_target_size_error_callback : option (rrr_read_session -> bool -> W -> rrr_read_session * W)).
Context (function_complete_callback : option (rrr_read_session -> W -> outcome (Z * rrr_read_session * W))).
Context (read_step_initial read_step_max_size read_max_size : Z).
Context (src_addr_of : W -> list Z) (first_eof_ok : bool).
Context (function_get_socket_options : option (rrr_read_session -> W -> outcome (Z * rrr_read_session * W))).

Definition rrr_read_message_using_callbacks_flush (c : rrr_read_session_collection) (w : W)
  : outcome (Z * rrr_read_session_collection * W) :=
  '(ret, _, c, w) ← read_message_using_callbacks alloc_ok now function_get_target_size
     function_get_target_size_error_callback function_complete_callback read_step_initial read_step_max_size
     read_max_size None src_addr_of first_eof_ok None None 0 0 c w;
  Ret (ret, c, w).

(** [again:]; a round takes at least one byte of what is left over. *)
Fixpoint flush_loop (fuel : nat) (c : rrr_read_session_collection) (w : W)
  : outcome (Z * rrr_read_session_collection * W) :=
  match fuel with
  | O => Oob
  | S fuel =>
    '(ret, c, w) ← rrr_read_message_using_callbacks_flush c w;
    if ret =? 0 then flush_loop fuel c w else Ret (ret, c, w)
  end.

(** The bytes that are left over in a collection. *)
Definition left_over (c : rrr_read_session_collection) : Z :=
  foldr Z.add 0 ((fun n => if bool_decide (rx_overshoot n.2 <> None) then rx_overshoot_size n.2 else 0) <$> c).

Definition rrr_read_message_using_callbacks
    (function_read : option (Z -> W -> outcome (Z * list Z * W))) (flags : Z)
    (ratelimit : option Z) (interval max_bytes : Z) (c : rrr_read_session_collection) (w : W)
  : outcome (Z * option Z * rrr_read_session_collection * W) :=
  '(ret, bytes_read, c, w) ← read_message_using_callbacks alloc_ok now function_get_target_size
     function_get_target_size_error_callback function_complete_callback read_step_initial read_step_max_size
     read_max_size function_read src_addr_of first_eof_ok function_get_socket_options ratelimit interval
     max_bytes c w;
  if negb (ret =? 0) then Ret (ret, bytes_read, c, w)
  else
    '(ret, c, w) ←
      (if negb (flags &&& RRR_READ_MESSAGE_FLUSH_OVERSHOOT =? 0)
       then flush_loop (S (Z.to_nat (left_over c))) c w else Ret (ret, c, w));
    Ret (Z.ldiff ret RRR_READ_INCOMPLETE, bytes_read, c, w).

End Messages.

(** * Callbacks that do the same *)

Section Same.
Context {W : Type}.

Definition same_callback (f g : rrr_read_session -> W -> outcome (Z * rrr_read_session * W)) : Prop :=
  forall s w, f s w = g s w.

Definition same_step {A} (f g : step (W := W) A) : Prop := forall s w, f s w = g s w.

#[export] Instance same_step_equiv {A} : Equivalence (same_step (A := A)).
Proof.
  split; [by intros f s w|by intros f g H s w; symmetry; apply H|].
  intros f g h H1 H2 s w. by rewrite H1, H2.
Qed.

#[export] Instance bind_proper {A B} :
  Proper (pointwise_relation A same_step ==> same_step ==> same_step) (@mbind step step_bind A B).
Proof.
  intros f g Hf m n Hm s w. unfold mbind, step_bind. rewrite Hm. destruct (n s w) as [[[s' w'] [r|a]]| |]; try done.
  apply Hf.
Qed.

#[export] Instance callback_proper : Proper (same_callback ==> same_step) (callback (W := W)).
Proof. intros f g H s w. unfold callback. by rewrite H. Qed.

Context (alloc_ok : Z -> bool) (now : Z) (f g h k : rrr_read_session -> W -> outcome (Z * rrr_read_session * W)).
Context (error_callback : option (rrr_read_session -> bool -> W -> rrr_read_session * W)).
Context (initial step_max max : Z) (Hf : same_callback f g) (Hh : same_callback h k).

Lemma find_target_same : same_step (find_target alloc_ok (Some f) error_callback initial)
  (find_target alloc_ok (Some g) error_callback initial).
Proof using Hf.
  unfold find_target. apply bind_proper; [|done]. intros s. destruct (needs_target s); [|done].
  apply bind_proper; [|done]. intros []. apply bind_proper; [done|]. by apply callback_proper.
Qed.

Lemma finish_same : same_step (finish (Some h)) (finish (Some k)).
Proof using Hh.
  unfold finish. apply bind_proper; [|done]. intros s. destruct (_ && _); [|done].
  apply bind_proper; [|done]. intros []. apply bind_proper; [done|]. by apply callback_proper.
Qed.

Lemma process_rest_same bytes do_emit_eof :
  same_step (process_rest alloc_ok now (Some f) error_callback (Some h) initial step_max max bytes do_emit_eof)
    (process_rest alloc_ok now (Some g) error_callback (Some k) initial step_max max bytes do_emit_eof).
Proof using Hf Hh.
  unfold process_rest. apply bind_proper; [|done]. intros []. apply bind_proper; [|done]. intros s.
  apply bind_proper; [|done]. intros []. apply bind_proper; [|apply find_target_same]. intros [].
  apply bind_proper; [|done]. intros []. apply bind_proper; [done|apply finish_same].
Qed.

Lemma in_session_same {A} c p w (m : step (W := W) A) l n br none : (forall a, same_step (l a) (n a)) ->
  in_session c p w m l br none = in_session c p w m n br none.
Proof.
  intros H. unfold in_session. destruct (session_at c p) as [s| |]; [|done|done]. cbn [mbind outcome_bind].
  destruct (m s w) as [[[s1 w1] [r|a]]| |]; [done| |done|done]. cbn [mbind outcome_bind]. by rewrite H.
Qed.

Context (src_addr_of : W -> list Z) (first_eof : bool).

Lemma read_message_same read options ratelimit interval max_bytes c w :
  read_message_using_callbacks alloc_ok now (Some f) error_callback (Some h) initial step_max max read src_addr_of
    first_eof options ratelimit interval max_bytes c w =
  read_message_using_callbacks alloc_ok now (Some g) error_callback (Some k) initial step_max max read src_addr_of
    first_eof options ratelimit interval max_bytes c w.
Proof using Hf Hh.
  unfold read_message_using_callbacks. destruct (_ && _); [done|].
  destruct (rrr_read_session_collection_get_session_with_overshoot c).
  - apply in_session_same. intros _. apply process_rest_same.
  - destruct read as [read|]; [|done]. destruct (match ratelimit with Some _ => _ | None => _ end) as [[[|] c1]| |]; try done.
    cbn [mbind outcome_bind]. destruct (read step_max w) as [[[ret bytes] w1]| |]; try done. cbn [mbind outcome_bind].
    destruct (_ <? _); [done|]. destruct (negb _); [done|]. destruct (negb _); [done|]. destruct (_ && _); [done|].
    destruct (get_read_session _ _ _ _ _ _) as [[[p|] c2]| |]; try done. cbn [mbind outcome_bind].
    apply in_session_same. intros b. apply process_rest_same.
Qed.

Lemma flush_loop_same fuel c w :
  flush_loop alloc_ok now (Some f) error_callback (Some h) initial step_max max src_addr_of first_eof fuel c w =
  flush_loop alloc_ok now (Some g) error_callback (Some k) initial step_max max src_addr_of first_eof fuel c w.
Proof using Hf Hh.
  revert c w. induction fuel as [|fuel IH]; intros c w; [done|]. cbn [flush_loop].
  unfold rrr_read_message_using_callbacks_flush. rewrite read_message_same.
  destruct (read_message_using_callbacks _ _ _ _ _ _ _ _ _ _ _ _ _ _ _ _) as [[[[ret b] c1] w1]| |]; try done.
  cbn [mbind outcome_bind]. destruct (ret =? 0); [apply IH|done].
Qed.

Lemma rrr_read_message_same options read flags ratelimit interval max_bytes c w :
  rrr_read_message_using_callbacks alloc_ok now (Some f) error_callback (Some h) initial step_max max src_addr_of
    first_eof options read flags ratelimit interval max_bytes c w =
  rrr_read_message_using_callbacks alloc_ok now (Some g) error_callback (Some k) initial step_max max src_addr_of
    first_eof options read flags ratelimit interval max_bytes c w.
Proof using Hf Hh.
  unfold rrr_read_message_using_callbacks. rewrite read_message_same.
  destruct (read_message_using_callbacks _ _ _ _ _ _ _ _ _ _ _ _ _ _ _ _) as [[[[ret b] c1] w1]| |]; try done.
  cbn [mbind outcome_bind]. destruct (negb _); [done|]. destruct (negb _); [|done]. by rewrite flush_loop_same.
Qed.

End Same.

End Read.
