(* ===== verification/ReadFrames.v ===== *)
(** Messages in the stream of a connection: whatever the pieces are in which the read
    framework ([Read]) gets the bytes, the complete callback gets one message after the
    other.  What the framework needs to know of a protocol is the class [Framing]. *)
From S2P Require Import Prelude Types Read.
From stdpp Require Import strings.
Open Scope Z_scope.
Open Scope c_scope.

Module ReadFrames.
Import Types Read.

(** * What a protocol promises *)

(** [idle a done]: the protocol has received the frames [done] and knows nothing of the
    next.  [waiting a done f]: it has told the size of the next frame [f]. *)
Record protocol (A : Type) := mk_protocol {
  p_target_size : rrr_read_session -> A -> outcome (Z * rrr_read_session * A);
  p_complete : rrr_read_session -> A -> outcome (Z * rrr_read_session * A);
  frame_ok : list Z -> Prop;
  idle : A -> list (list Z) -> Prop;
  waiting : A -> list (list Z) -> list Z -> Prop
}.
Arguments mk_protocol {A}.
Arguments p_target_size {A}.
Arguments p_complete {A}.
Arguments frame_ok {A}.
Arguments idle {A}.
Arguments waiting {A}.

(** The buffer of a session that holds the bytes [rx] in one object. *)
Definition holds_bytes (rx : list Z) (s : rrr_read_session) : Prop :=
  exists o, rx_buf_ptr s = Some o /\ rx_buf_wpos s = Z.of_nat (length rx) /\ take (length rx) o = rx /\
    rx_buf_wpos s <= rx_buf_size s <= Z.of_nat (length o).

Class Framing {A} (P : protocol A) : Prop := {
  framing_nonempty f : frame_ok P f -> f <> [];
  framing_size f : frame_ok P f -> Z.of_nat (length f) < 2 ^ 32;
  framing_target a done f rest rx s :
    idle P a done -> frame_ok P f -> rx <> [] -> rx `prefix_of` f ++ rest ->
    Z.of_nat (length rx) < 2 ^ 32 ->
    holds_bytes rx s -> target_size s = 0 ->
    ((length rx < length f)%nat /\ exists a', p_target_size P s a = Ret (RRR_READ_INCOMPLETE, s, a') /\ idle P a' done) \/
    exists a', p_target_size P s a = Ret (RRR_READ_OK, set_target s (Z.of_nat (length f)), a') /\ waiting P a' done f;
  framing_complete a done f s :
    waiting P a done f -> holds_bytes f s ->
    exists a' o, p_complete P s a = Ret (0, set_buf s o (rx_buf_size s) (rx_buf_wpos s), a') /\ idle P a' (done ++ [f])
}.

(** * A transport that delivers pieces *)

(** The state: the pieces that are to come and the state of the protocol. *)
Definition stream (A : Type) : Type := list (list Z) * A.

Definition read_piece {A} (size : Z) (w : stream A) : outcome (Z * list Z * stream A) :=
  match w.1 with
  | [] => Ret (RRR_READ_OK, [], w)
  | b :: bs => Ret (RRR_READ_OK, b, (bs, w.2))
  end.

Definition on_stream {A} (f : rrr_read_session -> A -> outcome (Z * rrr_read_session * A))
    (s : rrr_read_session) (w : stream A) : outcome (Z * rrr_read_session * stream A) :=
  '(ret, s, a) ← f s w.2; Ret (ret, s, (w.1, a)).

Lemma frames_split (done done' fs fs' : list (list Z)) : done' ++ fs' = done ++ fs -> length done' = S (length done) ->
  exists f, fs = f :: fs' /\ done' = done ++ [f].
Proof.
  intros E Hl. assert (length (done ++ fs) = S (length done) + length fs')%nat as Hlen
    by (rewrite <- E, length_app; lia). rewrite length_app in Hlen. destruct fs as [|f fs]; [cbn in Hlen; lia|].
  exists f. change (f :: fs) with ([f] ++ fs) in E. rewrite app_assoc in E.
  apply app_inj_1 in E as [-> ->]; [done|]. rewrite length_app. cbn. lia.
Qed.

(** The clock at a call: nothing has wrapped around, and no session has been without new
    bytes for longer than [RRR_READ_COLLECTION_CLIENT_TIMEOUT_S]. *)
Definition timely (now : Z) (c : rrr_read_session_collection) : bool :=
  let timeout := RRR_READ_COLLECTION_CLIENT_TIMEOUT_S * 1000 * 1000 in
  (timeout <=? now) && (now <? 2 ^ 63) && forallb (fun n => now <=? last_read_time n.2 + timeout) c.

Lemma timely_time now c : timely now c = true -> 30000000 <= now < 2 ^ 63.
Proof. unfold timely, RRR_READ_COLLECTION_CLIENT_TIMEOUT_S. rewrite !andb_true_iff, Z.leb_le, Z.ltb_lt. lia. Qed.

Lemma timely_one now p s : timely now [(p, s)] = true -> now <= last_read_time s + 30000000.
Proof.
  unfold timely, RRR_READ_COLLECTION_CLIENT_TIMEOUT_S. cbn [forallb snd].
  rewrite !andb_true_iff, Z.leb_le. intros (_ & H & _). apply Z.leb_le in H. lia.
Qed.

Section Reassembly.
Context {A : Type} (P : protocol A) {HP : Framing P}.
Context (alloc_ok : Z -> bool) (Halloc : forall n, alloc_ok n = true).
Context (step_max : Z) (Hstep : 0 < step_max < 2 ^ 32).
Context (total : Z) (Htotal : 0 <= total < 2 ^ 32).

(** ** The blocks of the framework *)

(** A session with a buffer in the middle of a frame. *)
Record filled (rx : list Z) (s : rrr_read_session) : Prop := {
  filled_bytes : holds_bytes rx s;
  filled_size : rx_buf_size s <= total + step_max + rx_buf_wpos s;
  filled_over : rx_overshoot s = None;
  filled_method : read_complete_method s = 0;
  filled_complete : read_complete s = 0
}.

(** What the framework leaves alone. *)
Definition kept (now : Z) (s s' : rrr_read_session) : Prop :=
  src_addr s' = src_addr s /\ (last_read_time s' = last_read_time s \/ last_read_time s' = now).

Lemma kept_refl now s : kept now s s.
Proof. split; [done|by left]. Qed.

Lemma kept_trans now s1 s2 s3 : kept now s1 s2 -> kept now s2 s3 -> kept now s1 s3.
Proof. intros [E1 H1] [E2 H2]. split; [congruence|]. destruct H1, H2; [left|right..]; congruence. Qed.

Lemma length_reallocated o n : length (reallocated o n) = Z.to_nat n.
Proof. unfold reallocated. rewrite length_app, length_take, length_replicate. lia. Qed.

Lemma store_bytes_ok o rx bs : take (length rx) o = rx -> (length rx + length bs <= length o)%nat ->
  exists o', store_bytes o (Z.of_nat (length rx)) bs = Ret o' /\ length o' = length o /\
    take (length (rx ++ bs)) o' = rx ++ bs.
Proof.
  intros Hrx Hl. unfold store_bytes. rewrite (proj2 (Z.leb_le _ _)), (proj2 (Z.leb_le _ _)) by lia. cbn [andb].
  eexists. split; [done|]. unfold splice. rewrite Nat2Z.id, Hrx. split.
  - rewrite !length_app, length_drop. lia.
  - rewrite app_assoc. by rewrite take_app_length.
Qed.

Lemma step_then {B C} (m : step (W := stream A) B) (f : B -> step C) s w s' w' b :
  m s w = Ret (s', w', inr b) -> (m ≫= f) s w = f b s' w'.
Proof. intros H. unfold mbind, step_bind. by rewrite H. Qed.

Lemma step_out {B C} (m : step (W := stream A) B) (f : B -> step C) s w s' w' ret :
  m s w = Ret (s', w', inl ret) -> (m ≫= f) s w = Ret (s', w', inl ret).
Proof. intros H. unfold mbind, step_bind. by rewrite H. Qed.

Lemma step_the {C} (f : rrr_read_session -> step C) s (w : stream A) : (the ≫= f) s w = f s s w.
Proof. done. Qed.

(** The first part of a block goes through. *)
Tactic Notation "forward" "by" tactic3(tac) := erewrite step_then; [|tac]; cbv beta.

Lemma expand_buffer_ok (w : stream A) n rx s : filled rx s -> 0 <= n -> Z.of_nat (length rx) + n <= total ->
  target_size s <= total -> exists s', expand_buffer alloc_ok step_max n s w = Ret (s', w, inr tt) /\
    holds_bytes rx s' /\ Z.of_nat (length rx) + n <= rx_buf_size s' <= total + step_max + Z.of_nat (length rx) + n /\
    target_size s' = target_size s /\ rx_overshoot s' = None /\ read_complete_method s' = 0 /\ read_complete s' = 0 /\
    src_addr s' = src_addr s /\ last_read_time s' = last_read_time s.
Proof using Halloc Hstep Htotal.
  intros [(o & Eo & Ew & Hrx & Hsz) Hs Ho Hm Hc] Hn Hlen Ht. unfold expand_buffer. rewrite step_the.
  pose proof Hs as Hs'. rewrite Ew in Hs'.
  rewrite Ew, (wrap_small 64) by lia. destruct (Z.ltb_spec (rx_buf_size s) (n + Z.of_nat (length rx))) as [Hlt|Hge].
  2:{ exists s. split_and!; try done; [by exists o|lia..]. }
  rewrite Halloc. cbn [negb]. erewrite step_then by done. rewrite Eo. eexists. split; [done|].
  assert (rx_buf_size s + n <= expanded_size step_max s n <= total + step_max + Z.of_nat (length rx) + n) as Hx.
  { unfold expanded_size. set (e := if _ && _ then _ else _).
    assert (0 <= e < 2 ^ 33) as He by (subst e; destruct (_ && _); unfold RRR_READ_BIGALLOC_STEP; lia).
    rewrite (wrap_small 64 (rx_buf_size s + e)) by lia.
    destruct (Z.ltb_spec (target_size s) (rx_buf_size s + e)); rewrite wrap_small by lia; lia. }
  split_and!; cbn; try done; try lia. eexists. split; [done|]. split; [done|]. rewrite length_reallocated.
  split; [|cbn; rewrite Ew; lia]. unfold reallocated.
  rewrite take_app_le by (rewrite length_take; lia). rewrite take_take. by rewrite Nat.min_l by lia.
Qed.

Lemma store_read_ok now (w : stream A) bytes rx s : filled rx s -> Z.of_nat (length (rx ++ bytes)) <= total ->
  target_size s <= total -> exists s', store_read alloc_ok now step_max bytes s w = Ret (s', w, inr tt) /\
    filled (rx ++ bytes) s' /\ target_size s' = target_size s /\ kept now s s'.
Proof using Halloc Hstep Htotal.
  intros Hf Hlen Ht. unfold store_read. rewrite length_app in Hlen.
  destruct (Z.eqb_spec (Z.of_nat (length bytes)) 0) as [E|E].
  { destruct bytes; [|done]. rewrite app_nil_r. exists s. split; [done|]. split; [done|split; [done|apply kept_refl]]. }
  destruct (expand_buffer_ok w (Z.of_nat (length bytes)) rx s) as (s1 & E1 & (o & Eo & Ew & Hrx & Hsz)
    & Hroom & Et & Ho & Hm & Hc & Ea & El); [done|lia|lia|done|].
  rewrite (step_then _ _ _ _ _ _ _ E1), step_the, Eo, Ew.
  destruct (store_bytes_ok o rx bytes) as (o' & E2 & Hl & Htk); [done|lia|].
  rewrite E2. erewrite step_then by done. eexists. split; [done|].
  split; [|split; [done|split; [done|by right]]]. split; try done.
  - exists o'. cbn. rewrite Ew, (wrap_small 64) by lia. rewrite length_app, Hl.
    split; [done|]. split; [lia|]. split; [by rewrite <- length_app|lia].
  - cbn. rewrite Ew, wrap_small by lia. lia.
Qed.

(** A session between two calls, with bytes that have been read and not given away. *)
Inductive resting : list Z -> rrr_read_session -> Prop :=
| rest_filled rx s : filled rx s -> resting rx s
| rest_over rx s o : rx_buf_ptr s = None -> rx_overshoot s = Some o -> rx_overshoot_size s = Z.of_nat (length rx) ->
    rx <> [] -> take (length rx) o = rx -> (length rx <= length o)%nat -> Z.of_nat (length rx) <= total ->
    read_complete_method s = 0 -> read_complete s = 0 -> resting rx s
| rest_empty s : rx_buf_ptr s = None -> rx_overshoot s = None -> read_complete_method s = 0 -> read_complete s = 0 ->
    resting [] s.

Lemma begin_buffer_ok now (w : stream A) bytes rx s : resting rx s -> Z.of_nat (length bytes) <= step_max ->
  exists s', begin_buffer alloc_ok step_max bytes s w = Ret (s', w, inr tt) /\ filled rx s' /\ kept now s s' /\
    target_size s' = (if bool_decide (rx_buf_ptr s = None) then 0 else target_size s).
Proof using Halloc Hstep Htotal.
  intros Hr Hb. unfold begin_buffer. rewrite step_the. destruct Hr as [rx s Hf|rx s o E1 E2 E3 Hne Htk Hl Htot E4 E5|s E1 E2 E3 E4].
  - pose proof Hf as [(o & Eo & _) _ _ _ Hc]. rewrite Eo. erewrite step_then by done. rewrite step_the, Hc.
    rewrite bool_decide_false by done. exists s. split; [done|]. split; [done|split; [apply kept_refl|done]].
  - rewrite E1, E2, E3. assert (0 < Z.of_nat (length rx)) by (destruct rx; [done|cbn; lia]).
    rewrite (proj2 (Z.leb_gt _ 0)) by lia.
    do 1 erewrite step_then by (erewrite step_then; [done|]; erewrite step_then; [done|]; done).
    rewrite step_the. cbn [read_complete set_overshoot set_buf set_target]. rewrite E5.
    eexists. split; [done|]. split; [|split; [by split; [|left]|by rewrite bool_decide_true]].
    split; cbn; try done; try lia. exists o. cbn. rewrite E2, E3. split_and!; try done; lia.
  - rewrite E1, E2, Halloc. cbn [negb].
    erewrite step_then by (erewrite step_then; [done|]; erewrite step_then; [done|]; done).
    rewrite step_the. cbn [read_complete set_overshoot set_buf set_target]. rewrite E4.
    eexists. split; [done|]. split; [|split; [by split; [|left]|by rewrite bool_decide_true]].
    split; cbn; try done; try lia. eexists. cbn. split; [done|]. split; [done|]. split; [done|].
    unfold allocated. rewrite length_replicate. lia.
Qed.

(** ** One frame *)

(** What the protocol knows of the frame in the buffer. *)
Definition knows (a : A) (done fs : list (list Z)) (s : rrr_read_session) : Prop :=
  target_size s = 0 /\ idle P a done \/
  exists f fs', fs = f :: fs' /\ target_size s = Z.of_nat (length f) /\ waiting P a done f.

Lemma find_target_ok initial (cs : list (list Z)) a done f fs rx s rest : filled rx s -> knows a done (f :: fs) s ->
  frame_ok P f -> rx <> [] -> rx ++ rest = f ++ concat fs -> Z.of_nat (length rx) < 2 ^ 32 ->
  ((length rx < length f)%nat /\ exists s' a', find_target alloc_ok (Some (on_stream (p_target_size P))) None initial s (cs, a) =
      Ret (s', (cs, a'), inl RRR_READ_INCOMPLETE) /\ filled rx s' /\ target_size s' = 0 /\ idle P a' done /\
      src_addr s' = src_addr s /\ last_read_time s' = last_read_time s) \/
  exists s' a', find_target alloc_ok (Some (on_stream (p_target_size P))) None initial s (cs, a) = Ret (s', (cs, a'), inr tt) /\
    filled rx s' /\ target_size s' = Z.of_nat (length f) /\ waiting P a' done f /\
    src_addr s' = src_addr s /\ last_read_time s' = last_read_time s.
Proof using HP.
  intros Hf Hk Hok Hne Hcat Hl. unfold find_target. rewrite step_the.
  assert (0 < Z.of_nat (length f)) as Hpos by (pose proof (framing_nonempty f Hok); destruct f; [done|cbn; lia]).
  assert (filled rx (set_skip s 0)) as Hf0 by (destruct Hf as [? ? ? ? ?]; by split).
  destruct Hk as [[Et Hi]|(f' & fs' & [= <- <-] & Et & Hw)].
  - assert (needs_target s = true) as En by (unfold needs_target; by rewrite Et, (filled_method _ _ Hf)).
    rewrite En.
    destruct (framing_target a done f (concat fs) rx (set_skip s 0)) as [(Hlt & a' & E & Hi')|(a' & E & Hw')]; try done.
    { rewrite <- Hcat. apply prefix_app_r. done. }
    { apply Hf0. }
    + left. split; [done|]. exists (set_skip s 0), a'. split; [|by split_and!].
      forward by reflexivity. forward by (unfold callback, on_stream; cbn [snd fst]; rewrite E; reflexivity).
      forward by reflexivity. forward by (unfold skip_bytes; rewrite step_the; reflexivity).
      apply step_out. done.
    + right. exists (set_target (set_skip s 0) (Z.of_nat (length f))), a'.
      split; [|split; [by destruct Hf0; split|done]].
      forward by reflexivity. forward by (unfold callback, on_stream; cbn [snd fst]; rewrite E; reflexivity).
      forward by reflexivity. forward by (unfold skip_bytes; rewrite step_the; reflexivity).
      forward by reflexivity. rewrite step_the. unfold needs_target. cbn [target_size set_target].
      by rewrite (proj2 (Z.eqb_neq _ 0)) by lia.
  - right. exists s, a. split; [|by split_and!]. unfold needs_target. rewrite Et.
    by rewrite (proj2 (Z.eqb_neq _ 0)) by lia.
Qed.

Lemma keep_overshoot_ok (w : stream A) f extra s : filled (f ++ extra) s -> target_size s = Z.of_nat (length f) ->
  exists s', keep_overshoot alloc_ok s w = Ret (s', w, inr tt) /\ holds_bytes f s' /\
    target_size s' = Z.of_nat (length f) /\ rx_buf_wpos s' = Z.of_nat (length f) /\
    rx_overshoot s' = (if bool_decide (extra = []) then None else Some extra) /\
    (extra <> [] -> rx_overshoot_size s' = Z.of_nat (length extra)) /\
    read_complete_method s' = 0 /\ src_addr s' = src_addr s /\ last_read_time s' = last_read_time s.
Proof using Halloc.
  intros [(o & Eo & Ew & Htk & Hsz) _ Ho Hm Hc] Et. unfold keep_overshoot. rewrite step_the, Et, Ew, Hm.
  rewrite length_app in *. destruct extra as [|x extra].
  - rewrite (proj2 (Z.ltb_ge _ _)) by (cbn; lia). exists s. split; [done|]. rewrite app_nil_r in Htk.
    cbn [length] in *. rewrite Nat.add_0_r in *. split; [by exists o|]. by split_and!.
  - rewrite (proj2 (Z.ltb_lt _ _)) by (cbn; lia). cbn [andb]. change (negb (0 =? _)) with true. cbv iota.
    rewrite Ho, bool_decide_false by (intros H; by apply H). cbv zeta. do 2 forward by reflexivity.
    rewrite Halloc. forward by reflexivity. set (n := _ - _).
    assert (load_bytes (rx_buf_ptr s) (Z.of_nat (length f)) n = Ret (x :: extra)) as El.
    { unfold load_bytes. rewrite Eo. rewrite !(proj2 (Z.leb_le _ _)) by (subst n; cbn [length] in *; lia). cbn [andb].
      f_equal. unfold slice. rewrite Nat2Z.id. replace (Z.to_nat n) with (length (x :: extra)) by (subst n; cbn [length]; lia).
      rewrite <- (take_drop (length f + length (x :: extra)) o), Htk, <- app_assoc, drop_app_length. by rewrite take_app_length. }
    forward by (unfold run; rewrite El; reflexivity). eexists. split; [done|]. cbn. split_and!; try done.
    + exists o. cbn. split; [done|]. split; [done|]. split; [|cbn [length] in *; lia].
      rewrite <- (take_drop (length f + length (x :: extra)) o), Htk, <- app_assoc. by rewrite take_app_length.
    + intros _. subst n. cbn [length]. lia.
Qed.

Lemma finish_ok (cs : list (list Z)) a done f extra s : waiting P a done f -> f <> [] ->
  holds_bytes f s -> target_size s = Z.of_nat (length f) -> rx_overshoot s = (if bool_decide (extra = []) then None else Some extra) ->
  (extra <> [] -> rx_overshoot_size s = Z.of_nat (length extra)) -> Z.of_nat (length extra) <= total ->
  exists s' a', finish (Some (on_stream (p_complete P))) s (cs, a) = Ret (s', (cs, a'), inr tt) /\
    resting extra s' /\ rx_buf_ptr s' = None /\ idle P a' (done ++ [f]) /\
    src_addr s' = src_addr s /\ last_read_time s' = last_read_time s.
Proof using HP.
  intros Hw Hne Hb Et Ho Hos Htot. pose proof Hb as (o & _ & Ew & _). unfold finish. rewrite step_the, Et, Ew, Z.eqb_refl.
  rewrite (proj2 (Z.ltb_lt _ _)) by (destruct f; [done|cbn; lia]). cbn [andb]. forward by reflexivity.
  destruct (framing_complete a done f (set_complete s 1)) as (a' & o' & E & Hi); [done|exact Hb|].
  forward by (unfold callback, on_stream; cbn [fst snd]; rewrite E; reflexivity). forward by reflexivity.
  eexists _, a'. split; [done|]. split; [|by split_and!].
  case_bool_decide as Ee; subst; [by apply rest_empty|].
  apply (rest_over _ _ extra); cbn; try done; [by apply Hos|by rewrite take_ge].
Qed.

(** A session between two calls with what the protocol knows; [rx] are the bytes that
    have been read of the frames [fs]. *)
Definition session_inv (a : A) (done fs : list (list Z)) (rx : list Z) (s : rrr_read_session) : Prop :=
  resting rx s /\
  (rx_buf_ptr s = None /\ idle P a done \/
   rx_buf_ptr s <> None /\ knows a done fs s /\ exists f, head fs = Some f /\ (length rx < length f)%nat).

Lemma process_rest_ok now initial (cs : list (list Z)) a done fs rx bytes rest s :
  filled rx s -> knows a done fs s -> Forall (frame_ok P) fs -> rx ++ bytes <> [] ->
  (rx ++ bytes) ++ rest = concat fs -> Z.of_nat (length (concat fs)) <= total ->
  exists s' a' fs' r, process_rest alloc_ok now (Some (on_stream (p_target_size P))) None
      (Some (on_stream (p_complete P))) initial step_max 0 bytes false s (cs, a) = Ret (s', (cs, a'), r) /\ kept now s s' /\
    (r = inl RRR_READ_INCOMPLETE /\ fs' = fs /\ session_inv a' done fs (rx ++ bytes) s' /\ rx_overshoot s' = None \/
     r = inr tt /\ exists f extra, fs = f :: fs' /\ rx ++ bytes = f ++ extra /\ session_inv a' (done ++ [f]) fs' extra s').
Proof using HP Halloc Hstep Htotal.
  intros Hf Hk Hfs Hne Hcat Htot. destruct fs as [|f fs].
  { destruct (rx ++ bytes); done. }
  apply Forall_cons_1 in Hfs as [Hok _]. cbn [concat] in Hcat, Htot.
  assert (Z.of_nat (length (rx ++ bytes)) <= total /\ Z.of_nat (length f) <= total) as [Hl Hlf].
  { rewrite <- Hcat in Htot at 1. rewrite length_app in Htot. apply (f_equal length) in Hcat.
    rewrite !length_app in *. lia. }
  assert (target_size s <= total) as Ht.
  { destruct Hk as [[-> _]|(f' & fs' & [= <- <-] & -> & _)]; lia. }
  destruct (store_read_ok now (cs, a) bytes rx s Hf Hl Ht) as (s1 & E1 & Hf1 & Et1 & Hk1).
  unfold process_rest. rewrite (step_then _ _ _ _ _ _ _ E1), step_the. forward by reflexivity.
  assert (knows a done (f :: fs) s1) as Hkn by (unfold knows in *; by rewrite Et1).
  destruct (find_target_ok initial cs a done f fs (rx ++ bytes) s1 rest) as [(Hlt & s2 & a2 & E2 & Hf2 & Et2 & Hi & Ha & Hl2)
    |(s2 & a2 & E2 & Hf2 & Et2 & Hw & Ha & Hl2)]; try done; [lia|..].
  all: assert (kept now s s2) as Hk2 by (apply (kept_trans now s s1 s2 Hk1); split; [done|by left]).
  { pose proof Hf2 as [(o & Eo & _) _ _ _ _].
    exists s2, a2, (f :: fs). eexists. split; [by apply step_out|]. split; [done|]. left. split; [done|]. split; [done|].
    split; [|apply Hf2]. split; [by apply rest_filled|]. right. split; [by rewrite Eo|]. split; [by left|by exists f]. }
  rewrite (step_then _ _ _ _ _ _ _ E2). destruct (decide (length (rx ++ bytes) < length f)%nat) as [Hlt|Hge].
  - pose proof Hf2 as [(o & Eo & Ew & _) _ _ Hm _].
    exists s2, a2, (f :: fs), (inl RRR_READ_INCOMPLETE). split.
    { unfold keep_overshoot. erewrite step_then.
      2:{ rewrite step_the, Et2, Ew. rewrite (proj2 (Z.ltb_ge _ _)) by lia. reflexivity. }
      cbv beta. apply step_out. unfold finish. rewrite step_the, Ew, Et2, Hm.
      rewrite (proj2 (Z.eqb_neq _ _)) by lia. done. }
    split; [done|]. left. split; [done|]. split; [done|]. split; [|apply Hf2].
    split; [by apply rest_filled|]. right. split; [by rewrite Eo|]. split; [right; by exists f, fs|by exists f].
  - assert (exists extra, rx ++ bytes = f ++ extra) as [extra Eex].
    { exists (drop (length f) (rx ++ bytes)). rewrite <- (take_drop (length f) (rx ++ bytes)) at 1. f_equal.
      transitivity (take (length f) ((rx ++ bytes) ++ rest)); [symmetry; apply take_app_le; lia|].
      rewrite Hcat. by rewrite take_app_length. }
    rewrite Eex in *. destruct (keep_overshoot_ok (cs, a2) f extra s2 Hf2 Et2) as (s3 & E3 & Hb3 & Et3 & Ew3 & Ho3 & Hos3 & Hm3 & Ha3 & Hl3).
    rewrite (step_then _ _ _ _ _ _ _ E3).
    destruct (finish_ok cs a2 done f extra s3) as (s4 & a4 & E4 & Hr4 & Ep4 & Hi4 & Ha4 & Hl4); try done.
    { by apply (framing_nonempty f). }
    { rewrite length_app in Hl. lia. }
    rewrite (step_then _ _ _ _ _ _ _ E4). exists s4, a4, fs, (inr tt). split; [done|]. split.
    { apply (kept_trans now s s2 s4 Hk2). split; [congruence|left; congruence]. }
    right. split; [done|]. exists f, extra. split; [done|]. split; [done|]. split; [done|]. by left.
Qed.

(** ** One call *)

(** Fields that do not matter here. *)
Definition same_rx (s s' : rrr_read_session) : Prop :=
  rx_buf_ptr s' = rx_buf_ptr s /\ rx_buf_size s' = rx_buf_size s /\ rx_buf_wpos s' = rx_buf_wpos s /\
  rx_overshoot s' = rx_overshoot s /\ rx_overshoot_size s' = rx_overshoot_size s /\ target_size s' = target_size s /\
  read_complete_method s' = read_complete_method s /\ read_complete s' = read_complete s.

Lemma session_inv_same a done fs rx s s' : same_rx s s' -> session_inv a done fs rx s -> session_inv a done fs rx s'.
Proof.
  intros (E1 & E2 & E3 & E4 & E5 & E6 & E7 & E8) [Hr Hk]. unfold session_inv, knows in *. rewrite E1, E6. split; [|done].
  destruct Hr as [rx s [(o & F1 & F2 & F3 & F4) F5 F6 F7 F8]|rx s o|s].
  - apply rest_filled. split; try congruence. exists o. split_and!; congruence || lia.
  - apply (rest_over _ _ o); congruence.
  - apply rest_empty; congruence.
Qed.

Context (addr : list Z) (Haddr : Z.of_nat (length addr) <= 128).

(** The collection of a connection has at most the session of its peer. *)
Definition collection_inv (c : rrr_read_session_collection) (a : A) (done fs : list (list Z)) (rx : list Z) : Prop :=
  c = [] /\ rx = [] /\ idle P a done \/
  exists p s, c = [(p, s)] /\ src_addr s = addr /\ session_inv a done fs rx s.

Definition with_overshoot (c : rrr_read_session_collection) : bool :=
  bool_decide (rrr_read_session_collection_get_session_with_overshoot c <> None).

Lemma with_overshoot_one p s : with_overshoot [(p, s)] = bool_decide (rx_overshoot s <> None).
Proof.
  unfold with_overshoot, rrr_read_session_collection_get_session_with_overshoot. cbn [find snd].
  destruct (bool_decide (rx_overshoot s <> None)); [by apply bool_decide_eq_true_2|].
  apply bool_decide_eq_false_2. intros H. by apply H.
Qed.

Lemma get_read_session_ok now first_eof c a done fs rx (w : stream A) : collection_inv c a done fs rx ->
  timely now c = true -> exists p s,
  get_read_session alloc_ok now (fun _ => addr) first_eof c w = Ret (Some p, [(p, s)]) /\
  src_addr s = addr /\ session_inv a done fs rx s /\ with_overshoot [(p, s)] = with_overshoot c.
Proof using Halloc Haddr.
  intros Hc Htime. pose proof (timely_time _ _ Htime) as Hnow. unfold get_read_session, rrr_read_session_collection_maintain_and_find_or_create.
  rewrite (wrap_small 64) by (unfold RRR_READ_COLLECTION_CLIENT_TIMEOUT_S; lia).
  destruct Hc as [(-> & -> & Hi)|(p & s & -> & Ea & Hs)]; cbn [maintain_loop mbind outcome_bind].
  - unfold rrr_read_session_new. rewrite Halloc. cbn [negb]. unfold sizeof_sockaddr_storage.
    rewrite (proj2 (Z.ltb_ge _ _)) by lia. cbn [mbind outcome_bind new_address foldr fmap list_fmap fst].
    change (negb (1 =? 0)) with true. cbn [andb]. set (n := mk_rs _ _ _ _ _ _ _ _ _ _ _ _ _ _ _).
    assert (session_inv a done fs [] n) as Hn by (split; [by apply rest_empty|by left]).
    destruct first_eof.
    + unfold session_at, put_session. cbn [find fst snd mbind outcome_bind fmap list_fmap]. change (1 + 0 =? 1 + 0) with true.
      cbv iota. eexists _, _. split; [done|]. split; [done|].
      split; [by apply (session_inv_same _ _ _ _ n)|done].
    + eexists _, _. split; [done|]. split; [done|]. done.
  - pose proof (timely_one _ _ _ Htime) as Hl. unfold RRR_READ_COLLECTION_CLIENT_TIMEOUT_S. rewrite (proj2 (Z.ltb_ge _ _)) by lia.
    rewrite bool_decide_true by done. cbn [mbind outcome_bind]. change (negb (0 =? 0)) with false. cbn [andb].
    eexists _, _. by split.
Qed.

Lemma end_session_one ret p s s' : ret = RRR_READ_OK \/ ret = RRR_READ_INCOMPLETE ->
  end_session ret [(p, s)] p s' = [(p, s')].
Proof. intros H. unfold end_session, put_session. cbn. rewrite Z.eqb_refl. by destruct H as [-> | ->]. Qed.

Lemma in_session_out {B} p s (w w' : stream A) (m : step B) k br none s1 ret :
  m s w = Ret (s1, w', inl ret) -> ret = RRR_READ_OK \/ ret = RRR_READ_INCOMPLETE ->
  in_session [(p, s)] p w m k br none = Ret (ret, none, [(p, s1)], w').
Proof.
  intros E Hr. unfold in_session, session_at. cbn [find fst snd]. rewrite Z.eqb_refl. cbn [mbind outcome_bind snd].
  rewrite E. cbn [mbind outcome_bind]. by rewrite end_session_one.
Qed.

Lemma in_session_then {B} p s (w w1 w2 : stream A) (m : step B) k br none s1 b s2 r :
  m s w = Ret (s1, w1, inr b) -> k b s1 w1 = Ret (s2, w2, r) -> r = inl RRR_READ_INCOMPLETE \/ r = inr tt ->
  in_session [(p, s)] p w m k br none =
  Ret (match r with inl ret => ret | inr _ => RRR_READ_OK end, br b, [(p, s2)], w2).
Proof.
  intros E1 E2 Hr. unfold in_session, session_at. cbn [find fst snd]. rewrite Z.eqb_refl. cbn [mbind outcome_bind snd].
  rewrite E1. cbn [mbind outcome_bind]. rewrite E2. cbn [mbind outcome_bind].
  destruct Hr as [-> | ->]; rewrite end_session_one by auto; done.
Qed.

(** What one call makes of the state. *)
Definition advances (c' : rrr_read_session_collection) (cs cs' : list (list Z)) (a' : A)
    (done fs : list (list Z)) (ret : Z) : Prop :=
  exists done' fs' rx', collection_inv c' a' done' fs' rx' /\ rx' ++ concat cs' = concat fs' /\ done' ++ fs' = done ++ fs /\
    cs' `suffix_of` cs /\
    (ret = RRR_READ_OK /\ length done' = S (length done) \/ ret = RRR_READ_INCOMPLETE /\ done' = done /\ with_overshoot c' = false).

Lemma process_call now initial p (cs cs' : list (list Z)) a done fs rx bytes s1 :
  filled rx s1 -> knows a done fs s1 -> Forall (frame_ok P) fs -> rx ++ bytes <> [] ->
  (rx ++ bytes) ++ concat cs' = concat fs -> Z.of_nat (length (concat fs)) <= total ->
  src_addr s1 = addr -> cs' `suffix_of` cs ->
  exists s2 a' r, process_rest alloc_ok now (Some (on_stream (p_target_size P))) None (Some (on_stream (p_complete P)))
      initial step_max 0 bytes false s1 (cs', a) = Ret (s2, (cs', a'), r) /\
    (r = inl RRR_READ_INCOMPLETE \/ r = inr tt) /\
    advances [(p, s2)] cs cs' a' done fs (match r with inl ret => ret | inr _ => RRR_READ_OK end).
Proof using HP Halloc Hstep Htotal.
  intros Hf Hk Hfs Hne Hcat Htot Ha Hsuf.
  destruct (process_rest_ok now initial cs' a done fs rx bytes (concat cs') s1) as (s2 & a' & fs' & r & E & [K1 K2] & H); try done.
  exists s2, a', r. split; [done|].
  assert (src_addr s2 = addr) as Ha2 by congruence.
  destruct H as [(-> & -> & Hs & Ho)|(-> & f & extra & -> & Eex & Hs)].
  - split; [by left|]. exists done, fs, (rx ++ bytes). split; [right; by exists p, s2|]. split; [done|]. split; [done|].
    split; [done|]. right. split; [done|]. split; [done|]. rewrite with_overshoot_one, Ho. done.
  - split; [by right|]. exists (done ++ [f]), fs', extra. split; [right; by exists p, s2|].
    split; [rewrite Eex, <- app_assoc in Hcat; cbn in Hcat; by apply app_inv_head in Hcat|].
    split; [by rewrite <- app_assoc|]. split; [done|]. left. split; [done|]. rewrite length_app. cbn. lia.
Qed.

Abbreviation one_call := (fun initial first_eof options read ratelimit now c (w : stream A) =>
  read_message_using_callbacks alloc_ok now (Some (on_stream (p_target_size P))) None (Some (on_stream (p_complete P)))
    initial step_max 0 read (fun _ => addr) first_eof options ratelimit 0 0 c w).

Lemma stack_buffer_ok : (RRR_READ_BUF_STACK_MAX_SIZE <? step_max) && negb (alloc_ok step_max) = false.
Proof using Halloc. rewrite Halloc. apply andb_false_r. Qed.

Lemma with_overshoot_resting c a done fs rx : collection_inv c a done fs rx -> with_overshoot c = true ->
  exists p s, c = [(p, s)] /\ src_addr s = addr /\ resting rx s /\ rx_buf_ptr s = None /\
    rx <> [] /\ idle P a done /\ rrr_read_session_collection_get_session_with_overshoot c = Some p.
Proof.
  intros Hc Ho. apply bool_decide_eq_true in Ho. destruct Hc as [(-> & _)|(p & s & -> & Ea & Hr & Hk)]; [done|].
  unfold rrr_read_session_collection_get_session_with_overshoot in *. cbn in *.
  case_bool_decide as E; [|done]. exists p, s. split; [done|]. split; [done|]. split; [done|].
  destruct Hr as [rx s [? ? Hno]|rx s o Hp Hov|s]; [congruence| |congruence]. destruct Hk as [[_ Hi]|[? _]]; [|done]. done.
Qed.

(** A call that finds bytes left over does not read. *)
Lemma overshoot_call now initial first_eof options read ratelimit c (cs : list (list Z)) a done fs rx :
  collection_inv c a done fs rx -> with_overshoot c = true -> rx ++ concat cs = concat fs ->
  Forall (frame_ok P) fs -> Z.of_nat (length (concat fs)) <= total ->
  exists ret c' a', one_call initial first_eof options read ratelimit now c (cs, a) = Ret (ret, None, c', (cs, a')) /\
    advances c' cs cs a' done fs ret.
Proof using HP Halloc Hstep Htotal.
  intros Hc Ho Hcat Hfs Htot.
  destruct (with_overshoot_resting c a done fs rx Hc Ho) as (p & s & -> & Ea & Hr & Hp & Hne & Hi & Hget).
  unfold read_message_using_callbacks. rewrite stack_buffer_ok, Hget.
  destruct (begin_buffer_ok now (cs, a) [] rx s Hr) as (s1 & E1 & Hf & [K1 K2] & Et); [cbn; lia|].
  rewrite bool_decide_true in Et by done.
  destruct (process_call now initial p cs cs a done fs rx [] s1) as (s2 & a' & r & E2 & Hr2 & Hadv); try done;
    [by left|by rewrite app_nil_r|by rewrite app_nil_r|congruence|].
  eexists _, _, a'. split; [|exact Hadv]. by erewrite in_session_then.
Qed.

Definition pieces_ok (cs : list (list Z)) : Prop :=
  Forall (fun b => b <> [] /\ Z.of_nat (length b) <= step_max) cs.

(** Without a limit the counters are reset. *)
Lemma ratelimit_off now c a done fs rx : collection_inv c a done fs rx -> exists c',
  match fst <$> head c with
  | Some p => s ← session_at c p; (let '(limited, s) := check_ratelimit now 0 0 s in Ret (limited, put_session c p s))
  | None => Ret (false, c)
  end = Ret (false, c') /\ collection_inv c' a done fs rx /\ with_overshoot c' = with_overshoot c /\
  timely now c' = timely now c.
Proof.
  intros [(-> & Hrest)|(p & s & -> & Ea & Hs)].
  - exists []. split; [done|]. split; [by left|done].
  - exists [(p, set_ratelimit s 0 0)]. cbn [head fmap option_fmap option_map fst]. unfold session_at, put_session.
    cbn [find fst snd]. rewrite Z.eqb_refl. cbn [mbind outcome_bind snd].
    cbn [check_ratelimit Z.ltb Z.compare fmap list_fmap fst]. rewrite Z.eqb_refl. split; [done|].
    split; [|by rewrite !with_overshoot_one].
    right. eexists p, _. split; [done|]. split; [done|]. by apply (session_inv_same _ _ _ _ s).
Qed.

(** A call that reads the next piece. *)
Lemma piece_call now initial first_eof c b (cs : list (list Z)) a done fs rx :
  collection_inv c a done fs rx -> with_overshoot c = false -> rx ++ concat (b :: cs) = concat fs ->
  Forall (frame_ok P) fs -> Z.of_nat (length (concat fs)) <= total -> timely now c = true ->
  pieces_ok (b :: cs) ->
  exists ret n c' a', one_call initial first_eof None (Some read_piece) (fst <$> head c) now c (b :: cs, a) =
      Ret (ret, n, c', (cs, a')) /\ advances c' (b :: cs) cs a' done fs ret.
Proof using HP Halloc Hstep Htotal Haddr.
  intros Hc Ho Hcat Hfs Htot Hnow Hcs. apply Forall_cons_1 in Hcs as [[Hb Hbl] _].
  unfold read_message_using_callbacks. rewrite stack_buffer_ok. apply bool_decide_eq_false in Ho.
  destruct (rrr_read_session_collection_get_session_with_overshoot c); [by destruct Ho|]. clear Ho.
  destruct (ratelimit_off now c a done fs rx Hc) as (c1 & -> & Hc1 & _ & Htm). rewrite <- Htm in Hnow.
  cbn [mbind outcome_bind]. unfold read_piece at 1. cbn [fst snd mbind outcome_bind].
  rewrite (proj2 (Z.ltb_ge _ _)) by lia. change (negb (RRR_READ_OK &&& RRR_READ_HARD_ERROR =? 0)) with false.
  change (negb (RRR_READ_OK &&& RRR_READ_INCOMPLETE =? 0)) with false.
  change (negb (RRR_READ_OK &&& RRR_READ_EOF =? 0)) with false. cbn [andb]. cbv iota.
  destruct (get_read_session_ok now first_eof c1 a done fs rx (cs, a) Hc1 Hnow) as (p & s & -> & Ea & Hs & Hov').
  cbn [mbind outcome_bind]. set (s0 := set_eof_ok (set_ratelimit s (ratelimit_time s)
    (u64 (ratelimit_bytes s + Z.of_nat (length b)))) 0).
  assert (session_inv a done fs rx s0) as [Hr Hk] by (by apply (session_inv_same _ _ _ _ s)).
  destruct (begin_buffer_ok now (cs, a) b rx s0 Hr Hbl) as (s1 & E1 & Hf & [K1 K2] & Et).
  assert (begin_read alloc_ok step_max None b RRR_READ_OK s (cs, a) = Ret (s1, (cs, a), inr false)) as Eb.
  { unfold begin_read. rewrite step_the. forward by reflexivity.
    assert (Z.of_nat (length b) <> 0) by (destruct b; done || (cbn; lia)).
    forward by (unfold check_closed; rewrite step_the, (proj2 (Z.eqb_neq _ 0)) by done; reflexivity).
    forward by reflexivity. fold s0. rewrite (step_then _ _ _ _ _ _ _ E1). done. }
  destruct (process_call now initial p (b :: cs) cs a done fs rx b s1) as (s2 & a' & r & E2 & Hr2 & Hadv); try done.
  - destruct Hk as [[Hn Hi]|[Hn [Hkn _]]]; [left|].
    + rewrite bool_decide_true in Et by done. done.
    + rewrite bool_decide_false in Et by done. unfold knows in *. by rewrite Et.
  - intros E. apply app_eq_nil in E as [_ ?]. done.
  - cbn [concat] in Hcat. by rewrite <- app_assoc.
  - rewrite K1. exact Ea.
  - by exists [b].
  - eexists _, _, _, a'. split; [by apply (in_session_then p s _ _ _ _ _ _ _ _ _ _ _ Eb E2 Hr2)|].
    exact Hadv.
Qed.

(** A call when there is nothing to read. *)
Lemma nothing_call now initial first_eof c a done fs rx :
  collection_inv c a done fs rx -> with_overshoot c = false -> timely now c = true ->
  exists n c', one_call initial first_eof None (Some read_piece) (fst <$> head c) now c ([], a) =
      Ret (RRR_READ_INCOMPLETE, n, c', ([], a)) /\ collection_inv c' a done fs rx /\ with_overshoot c' = false.
Proof using Halloc Haddr Hstep.
  intros Hc Ho Hnow. unfold read_message_using_callbacks. rewrite stack_buffer_ok. pose proof Ho as Ho'.
  apply bool_decide_eq_false in Ho'.
  destruct (rrr_read_session_collection_get_session_with_overshoot c) eqn:Eg; [by destruct Ho'|]. clear Ho'.
  destruct (ratelimit_off now c a done fs rx Hc) as (c1 & -> & Hc1 & Hov & Htm). rewrite <- Htm in Hnow.
  cbn [mbind outcome_bind]. unfold read_piece at 1. cbn [fst snd mbind outcome_bind length Z.of_nat].
  rewrite (proj2 (Z.ltb_ge _ _)) by lia. cbn [negb andb]. change (negb (RRR_READ_OK &&& RRR_READ_HARD_ERROR =? 0)) with false.
  change (negb (RRR_READ_OK &&& RRR_READ_INCOMPLETE =? 0)) with false.
  change (negb (RRR_READ_OK &&& RRR_READ_EOF =? 0)) with false. cbn [andb]. cbv iota.
  destruct (get_read_session_ok now first_eof c1 a done fs rx ([], a) Hc1 Hnow) as (p & s & -> & Ea & Hs & Hov').
  cbn [mbind outcome_bind].
  assert (begin_read (W := stream A) alloc_ok step_max None [] RRR_READ_OK s ([], a) = Ret (s, ([], a), inl RRR_READ_INCOMPLETE)) as Eb.
  { unfold begin_read. rewrite step_the. forward by reflexivity. apply step_out. unfold check_closed. rewrite step_the.
    change ((_ =? 0) || _) with true. cbv iota. destruct Hs as [Hr _].
    assert (read_complete_method s = 0) as -> by (destruct Hr as [? ? []| |]; done). done. }
  rewrite (in_session_out p s _ _ _ _ _ _ _ _ Eb) by auto. eexists _, _. split; [done|]. split.
  { right. by exists p, s. }
  congruence.
Qed.

(** ** Many calls *)

(** The state between two calls: [done] has arrived, [fs] is to come. *)
Record reading (c : rrr_read_session_collection) (w : stream A) (done fs : list (list Z)) (rx : list Z) : Prop := {
  reading_inv : collection_inv c w.2 done fs rx;
  reading_bytes : rx ++ concat w.1 = concat fs;
  reading_frames : Forall (frame_ok P) fs;
  reading_pieces : pieces_ok w.1;
  reading_total : Z.of_nat (length (concat fs)) <= total
}.

(** What is left to do: pieces, frames and bytes that are left over. *)
Definition to_do (c : rrr_read_session_collection) (w : stream A) (fs : list (list Z)) : nat :=
  (2 * length w.1 + 2 * length fs + if with_overshoot c then 1 else 0)%nat.

(** After a call. *)
Lemma advances_reading c c' w cs' a' done fs ret rx : reading c w done fs rx -> advances c' w.1 cs' a' done fs ret ->
  exists done' fs' rx', reading c' (cs', a') done' fs' rx' /\ done' ++ fs' = done ++ fs /\
    (ret = RRR_READ_OK /\ (exists f, fs = f :: fs') \/ ret = RRR_READ_INCOMPLETE /\ fs' = fs /\ with_overshoot c' = false).
Proof.
  intros [Hi Hb Hf Hp Ht] (done' & fs' & rx' & Hi' & Hb' & Hd & [pre Hsuf] & Hr).
  exists done', fs', rx'. split; [|split; [done|]].
  - assert (exists pre', fs = pre' ++ fs') as [pre' Epre].
    { destruct Hr as [[_ Hl]|(_ & -> & _)]; [|exists []; by apply app_inv_head in Hd].
      destruct (frames_split _ _ _ _ Hd Hl) as (f & -> & _). by exists [f]. }
    split; try done; cbn [fst snd].
    + subst fs. by apply Forall_app in Hf as [_ ?].
    + unfold pieces_ok in *. rewrite Hsuf in Hp. by apply Forall_app in Hp as [_ ?].
    + subst fs. rewrite concat_app, length_app in Ht. lia.
  - destruct Hr as [[-> Hl]|(-> & -> & Ho)]; [left|right].
    + split; [done|]. destruct (frames_split _ _ _ _ Hd Hl) as (f & -> & _). by exists f.
    + split; [done|]. split; [by apply app_inv_head in Hd|done].
Qed.

(** Everything has been read: everything has arrived. *)
Lemma reading_nothing c w done fs rx : reading c w done fs rx -> w.1 = [] -> with_overshoot c = false -> fs = [].
Proof using HP.
  intros [Hi Hb Hf _ _] Ew Ho. rewrite Ew, app_nil_r in Hb. destruct fs as [|f fs]; [done|].
  assert (f <> []) by (apply Forall_cons_1 in Hf as [Hok _]; by apply framing_nonempty).
  destruct Hi as [(_ & -> & _)|(p & s & -> & _ & Hr & Hk)].
  - cbn [concat] in Hb. symmetry in Hb. by apply app_eq_nil in Hb as [? _].
  - rewrite with_overshoot_one in Ho. apply bool_decide_eq_false in Ho.
    destruct Hr as [rx s [(o & Eo & _) _ _ _ _]|rx s o Hn Hov|s Hn].
    + destruct Hk as [[? _]|(_ & _ & f' & [= <-] & Hl)]; [congruence|].
      apply (f_equal length) in Hb. cbn [concat] in Hb. rewrite length_app in Hb. lia.
    + destruct Ho. by rewrite Hov.
    + cbn [concat] in Hb. symmetry in Hb. by apply app_eq_nil in Hb as [? _].
Qed.

Lemma left_over_reading c w done fs rx : reading c w done fs rx -> with_overshoot c = true ->
  left_over c = Z.of_nat (length rx).
Proof.
  intros [Hi _ _ _ _] Ho. destruct Hi as [(-> & _)|(p & s & -> & _ & Hr & _)]; [done|].
  rewrite with_overshoot_one in Ho. unfold left_over. cbn [fmap list_fmap snd foldr]. rewrite Ho.
  apply bool_decide_eq_true in Ho. destruct Hr as [rx s [_ _ ? _ _]|rx s o _ _ ->|s]; [done|lia|done].
Qed.

(** The rest of what has been read is processed. *)
Lemma flush_loop_ok now initial first_eof fuel c w done fs rx : reading c w done fs rx ->
  (with_overshoot c = true -> (length rx < fuel)%nat) -> (0 < fuel)%nat ->
  exists c' a' done' fs' rx', flush_loop alloc_ok now (Some (on_stream (p_target_size P))) None
      (Some (on_stream (p_complete P))) initial step_max 0 (fun _ => addr) first_eof fuel c w =
      Ret (RRR_READ_INCOMPLETE, c', (w.1, a')) /\
    reading c' (w.1, a') done' fs' rx' /\ done' ++ fs' = done ++ fs /\ (length fs' <= length fs)%nat /\ with_overshoot c' = false.
Proof using HP Halloc Hstep Htotal.
  revert c w done fs rx. induction fuel as [|fuel IH]; intros c [cs a] done fs rx Hr Hfuel Hpos; [lia|].
  cbn [flush_loop]. unfold rrr_read_message_using_callbacks_flush. destruct (with_overshoot c) eqn:Ho.
  - pose proof Hr as [Hi Hb Hf _ Ht]. cbn [fst snd] in *.
    destruct (overshoot_call now initial first_eof None None None c cs a done fs rx) as (ret & c1 & a1 & E & Hadv); try done.
    rewrite E. cbn [mbind outcome_bind].
    destruct (advances_reading c c1 (cs, a) cs a1 done fs ret rx Hr Hadv) as (done1 & fs1 & rx1 & Hr1 & Hd1 & Hcase).
    destruct Hcase as [[-> [f ->]]|(-> & -> & Ho1)].
    + change (RRR_READ_OK =? 0) with true. cbv iota.
      assert (length rx1 < length rx)%nat as Hlt.
      { pose proof (reading_bytes _ _ _ _ _ Hr1) as Hb1. cbn [fst] in Hb1. cbn [concat] in Hb. rewrite <- Hb1 in Hb.
        apply Forall_cons_1 in Hf as [Hok _]. pose proof (framing_nonempty f Hok).
        apply (f_equal length) in Hb. rewrite !length_app in Hb. destruct f; [done|]. cbn [length] in Hb. lia. }
      specialize (Hfuel eq_refl).
      destruct (IH c1 (cs, a1) done1 fs1 rx1 Hr1) as (c' & a' & done' & fs' & rx' & E' & Hr' & Hd' & Hl & Ho'); try done; [lia..|].
      exists c', a', done', fs', rx'. split; [done|]. split; [done|]. split; [congruence|]. cbn [length]. split; [lia|done].
    + exists c1, a1, done1, fs, rx1. split; [done|]. split; [done|]. split; [done|]. split; [lia|done].
  - unfold read_message_using_callbacks. rewrite stack_buffer_ok. pose proof Ho as Ho'. apply bool_decide_eq_false in Ho'.
    destruct (rrr_read_session_collection_get_session_with_overshoot c) eqn:Eg; [by destruct Ho'|].
    cbn [mbind outcome_bind]. exists c, a, done, fs, rx. split; [done|]. split; [done|]. split; [done|]. split; [lia|done].
Qed.

(** One call of [rrr_read_message_using_callbacks]. *)
Definition read_call (initial : Z) (first_eof : bool) (flags now : Z) (c : rrr_read_session_collection) (w : stream A)
  : outcome (Z * option Z * rrr_read_session_collection * stream A) :=
  rrr_read_message_using_callbacks alloc_ok now (Some (on_stream (p_target_size P))) None
    (Some (on_stream (p_complete P))) initial step_max 0 (fun _ => addr) first_eof None (Some read_piece) flags
    (fst <$> head c) 0 0 c w.

Lemma first_call now initial first_eof c w done fs rx : reading c w done fs rx -> timely now c = true ->
  exists ret n c' cs' a' done' fs' rx',
    one_call initial first_eof None (Some read_piece) (fst <$> head c) now c w = Ret (ret, n, c', (cs', a')) /\
    reading c' (cs', a') done' fs' rx' /\ done' ++ fs' = done ++ fs /\ (ret = RRR_READ_OK \/ ret = RRR_READ_INCOMPLETE) /\
    ((to_do c' (cs', a') fs' < to_do c w fs)%nat \/ to_do c' (cs', a') fs' = 0%nat).
Proof using HP Halloc Hstep Htotal Haddr.
  intros Hr Hnow. destruct w as [cs a]. destruct (with_overshoot c) eqn:Ho.
  - pose proof Hr as [Hi Hb Hf Hp Ht]. cbn [fst snd] in *.
    destruct (overshoot_call now initial first_eof None (Some read_piece) (fst <$> head c) c cs a done fs rx)
      as (ret & c1 & a1 & E & Hadv); try done.
    destruct (advances_reading c c1 (cs, a) cs a1 done fs ret rx Hr Hadv) as (done1 & fs1 & rx1 & Hr1 & Hd1 & Hcase).
    exists ret, None, c1, cs, a1, done1, fs1, rx1. split; [exact E|]. split; [done|]. split; [done|].
    unfold to_do. rewrite Ho. destruct Hcase as [[-> [f ->]]|(-> & -> & ->)]; (split; [auto|]); left; cbn [fst length]; [|lia].
    destruct (with_overshoot c1); lia.
  - destruct cs as [|b cs].
    + assert (fs = []) as -> by (by apply (reading_nothing c ([], a) done fs rx)). pose proof Hr as [Hi Hb Hf Hp Ht].
      destruct (nothing_call now initial first_eof c a done [] rx) as (n & c1 & E & Hi1 & Ho1); try done.
      exists RRR_READ_INCOMPLETE, n, c1, [], a, done, [], rx. split; [exact E|]. split; [by split|]. split; [done|].
      split; [by right|]. right. unfold to_do. by rewrite Ho1.
    + pose proof Hr as [Hi Hb Hf Hp Ht]. cbn [fst snd] in *.
      destruct (piece_call now initial first_eof c b cs a done fs rx) as (ret & n & c1 & a1 & E & Hadv); try done.
      destruct (advances_reading c c1 (b :: cs, a) cs a1 done fs ret rx Hr Hadv) as (done1 & fs1 & rx1 & Hr1 & Hd1 & Hcase).
      exists ret, n, c1, cs, a1, done1, fs1, rx1. split; [exact E|]. split; [done|]. split; [done|].
      unfold to_do. rewrite Ho. destruct Hcase as [[-> [f ->]]|(-> & -> & ->)]; (split; [auto|]); left; cbn [fst length]; [|lia].
      destruct (with_overshoot c1); lia.
Qed.

Lemma read_call_ok now initial first_eof flags c w done fs rx : reading c w done fs rx -> timely now c = true ->
  exists ret n c' w' done' fs' rx', read_call initial first_eof flags now c w = Ret (ret, n, c', w') /\
    reading c' w' done' fs' rx' /\ done' ++ fs' = done ++ fs /\ (ret = RRR_READ_OK \/ ret = RRR_READ_INCOMPLETE) /\
    ((to_do c' w' fs' < to_do c w fs)%nat \/ to_do c' w' fs' = 0%nat).
Proof using HP Halloc Hstep Htotal Haddr.
  intros Hr Hnow. unfold read_call, rrr_read_message_using_callbacks.
  destruct (first_call now initial first_eof c w done fs rx Hr Hnow)
    as (ret & n & c1 & cs1 & a1 & done1 & fs1 & rx1 & -> & Hr1 & Hd1 & Hret & Hm). cbn [mbind outcome_bind].
  destruct Hret as [-> | ->].
  2:{ eexists _, n, c1, (cs1, a1), done1, fs1, rx1. split; [done|]. split; [done|]. split; [done|]. split; [by right|done]. }
  change (negb (RRR_READ_OK =? 0)) with false. cbv iota. destruct (negb (flags &&& _ =? 0)); cbn [mbind outcome_bind].
  2:{ eexists _, n, c1, (cs1, a1), done1, fs1, rx1. split; [done|]. split; [done|]. split; [done|]. split; [by left|done]. }
  destruct (flush_loop_ok now initial first_eof (S (Z.to_nat (left_over c1))) c1 (cs1, a1) done1 fs1 rx1 Hr1)
    as (c2 & a2 & done2 & fs2 & rx2 & E & Hr2 & Hd2 & Hl & Ho2); [|lia|].
  { intros Ho. rewrite (left_over_reading c1 (cs1, a1) done1 fs1 rx1 Hr1 Ho). lia. }
  rewrite E. cbn [mbind outcome_bind fst]. eexists _, n, c2, (cs1, a2), done2, fs2, rx2. split; [done|].
  split; [done|]. split; [congruence|]. split; [by left|].
  assert (to_do c2 (cs1, a2) fs2 <= to_do c1 (cs1, a1) fs1)%nat; [|lia]. unfold to_do. rewrite Ho2. cbn [fst].
  destruct (with_overshoot c1); lia.
Qed.

(** Calls at the given times; the statuses. *)
Fixpoint read_calls (initial : Z) (first_eof : bool) (flags : Z) (ts : list Z) (c : rrr_read_session_collection)
    (w : stream A) : outcome (list Z * rrr_read_session_collection * stream A) :=
  match ts with
  | [] => Ret ([], c, w)
  | t :: ts =>
    '(ret, _, c, w) ← read_call initial first_eof flags t c w;
    '(rets, c, w) ← read_calls initial first_eof flags ts c w;
    Ret (ret :: rets, c, w)
  end.

(** Every call of the run is timely. *)
Fixpoint timely_calls (initial : Z) (first_eof : bool) (flags : Z) (ts : list Z) (c : rrr_read_session_collection)
    (w : stream A) : bool :=
  match ts with
  | [] => true
  | t :: ts => timely t c &&
    match read_call initial first_eof flags t c w with
    | Ret (_, _, c, w) => timely_calls initial first_eof flags ts c w
    | _ => true
    end
  end.

Lemma read_calls_ok initial first_eof flags ts : forall c w done fs rx, reading c w done fs rx ->
  timely_calls initial first_eof flags ts c w = true ->
  exists rets c' w' done' fs' rx', read_calls initial first_eof flags ts c w = Ret (rets, c', w') /\
    reading c' w' done' fs' rx' /\ done' ++ fs' = done ++ fs /\
    Forall (fun r => r = RRR_READ_OK \/ r = RRR_READ_INCOMPLETE) rets /\
    ((to_do c w fs <= length ts)%nat -> to_do c' w' fs' = 0%nat).
Proof using HP Halloc Hstep Htotal Haddr.
  induction ts as [|t ts IH]; intros c w done fs rx Hr Hts; cbn [read_calls timely_calls] in *.
  - eexists [], c, w, done, fs, rx. split_and!; try done. cbn. lia.
  - apply andb_true_iff in Hts as [Ht Hts].
    destruct (read_call_ok t initial first_eof flags c w done fs rx Hr Ht) as (ret & n & c1 & w1 & done1 & fs1 & rx1 & E & Hr1 & Hd1 & Hret & Hm).
    rewrite E in *. cbn [mbind outcome_bind].
    destruct (IH c1 w1 done1 fs1 rx1 Hr1 Hts) as (rets & c2 & w2 & done2 & fs2 & rx2 & -> & Hr2 & Hd2 & Hrets & Hm2).
    cbn [mbind outcome_bind]. eexists (ret :: rets), c2, w2, done2, fs2, rx2. split; [done|]. split; [done|].
    split; [congruence|]. split; [by constructor|]. cbn [length]. intros Hl. apply Hm2. lia.
Qed.

End Reassembly.
End ReadFrames.
