(* ===== verification/ReadMessages.v ===== *)
(** Messages read from a socket: the target size function for messages (read.c), the
    functions of src/src/lib/socket/rrr_socket_read.c that read messages with callbacks,
    and the promise of the message format to the read framework ([ReadFrames]).  The
    system calls are the parameter [function_read]. *)
From S2P Require Import Prelude Types Crc32 MsgHead MsgMsg MsgLog MsgStats MsgDispatch Read ReadFrames.
From stdpp Require Import strings.
Open Scope Z_scope.
Open Scope c_scope.

Module ReadMessages.
Import Types Crc32 MsgHead MsgMsg MsgDispatch Read ReadFrames.

Section Host.
Context {W : Type} (big : bool).

(** [data] is the object at the pointer; the status and [*result].  A size that does not
    fit is reported, and truncated. *)
Definition rrr_read_common_get_session_target_length_from_message_and_checksum_raw (data : option (list Z))
    (data_size : Z) : outcome (Z * Z) :=
  match data with
  | None => Oob
  | Some o =>
    '(ret, target_size) ← rrr_msg_get_target_size_and_check_checksum big 0 o (u32 data_size);
    Ret (ret, if negb (ret =? 0) then 0 else target_size)
  end.

Definition rrr_read_common_get_session_target_length_from_message_and_checksum (s : rrr_read_session) (w : W)
  : outcome (Z * rrr_read_session * W) :=
  '(ret, result) ← rrr_read_common_get_session_target_length_from_message_and_checksum_raw (rx_buf_ptr s) (rx_buf_wpos s);
  Ret (ret, set_target s result, w).

(** The callbacks see the bytes of the message; that they may take the buffer over makes
    no difference, since it is freed otherwise. *)
Definition rrr_socket_read_message_split_callbacks_complete_callback (undefined : MsgStats.rrr_msg_stats)
    (cb : callbacks W) (s : rrr_read_session) (w : W) : outcome (Z * rrr_read_session * W) :=
  if RRR_LENGTH_MAX <? rx_buf_wpos s then Ret (RRR_READ_SOFT_ERROR, s, w)
  else
    '(ret, w) ← rrr_msg_to_host_and_verify_with_callback big undefined cb (received s) (rx_buf_wpos s) w;
    Ret (ret, s, w).

(** [rrr_socket_read_message_default] with its session callbacks (see [Read]). *)
Definition rrr_socket_read_message_default (alloc_ok : Z -> bool) (now read_step_initial read_step_max_size read_max : Z)
    (socket_read_flags interval max_bytes : Z)
    (get_target_size : rrr_read_session -> W -> outcome (Z * rrr_read_session * W))
    (get_target_size_error : option (rrr_read_session -> bool -> W -> rrr_read_session * W))
    (complete : rrr_read_session -> W -> outcome (Z * rrr_read_session * W))
    (function_read : Z -> W -> outcome (Z * list Z * W)) (src_addr_of : W -> list Z) (first_eof_ok : bool)
    (get_socket_options : option (rrr_read_session -> W -> outcome (Z * rrr_read_session * W)))
    (c : rrr_read_session_collection) (w : W) : outcome (Z * option Z * rrr_read_session_collection * W) :=
  rrr_read_message_using_callbacks alloc_ok now (Some get_target_size) get_target_size_error (Some complete)
    read_step_initial read_step_max_size read_max src_addr_of first_eof_ok get_socket_options (Some function_read)
    socket_read_flags (fst <$> head c) interval max_bytes c w.

End Host.

Definition rrr_socket_read_message_split_callbacks {W} (big : bool) (undefined : MsgStats.rrr_msg_stats)
    (alloc_ok : Z -> bool) (now flags interval max_bytes : Z) (cb : callbacks W)
    (function_read : Z -> W -> outcome (Z * list Z * W)) (src_addr_of : W -> list Z) (first_eof_ok : bool)
    (get_socket_options : option (rrr_read_session -> W -> outcome (Z * rrr_read_session * W)))
    (c : rrr_read_session_collection) (w : W) : outcome (Z * option Z * rrr_read_session_collection * W) :=
  rrr_socket_read_message_default alloc_ok now sizeof_msg (1 * 1024 * 1024) 0 flags interval max_bytes
    (rrr_read_common_get_session_target_length_from_message_and_checksum big) None
    (rrr_socket_read_message_split_callbacks_complete_callback big undefined cb) function_read src_addr_of
    first_eof_ok get_socket_options c w.

(** * Messages as frames *)

Definition sendable_message (m : rrr_msg_msg) : Prop :=
  mm_ok m /\ h_type (mm_head m) = RRR_MSG_TYPE_MESSAGE /\ acceptable m = true.

Lemma length_mm_sent m : mm_ok m -> Z.of_nat (length (mm_sent m)) = h_size (mm_head m).
Proof.
  intros Hm. unfold mm_sent, wire_bytes, layout. rewrite !length_app, !length_be_enc.
  rewrite (size_body m Hm). unfold sizeof_msg. lia.
Qed.

(** The bytes that are sent decide the message that arrives: it is computed from them. *)
Lemma sent_determines big m m' : sendable_message m -> sendable_message m' -> mm_sent m = mm_sent m' ->
  mm_bytes big (clear_crc m) = mm_bytes big (clear_crc m').
Proof.
  intros (Hm & Ht & Ha) (Hm' & Ht' & Ha') E.
  pose (cb := mk_callbacks (W := list Z) (Some (fun bytes _ => Ret (0, bytes))) None None None None).
  pose proof (receive_spec m Hm Ht big MsgStats.zero_stats cb []) as H.
  pose proof (receive_spec m' Hm' Ht' big MsgStats.zero_stats cb []) as H'.
  rewrite Ha in H. rewrite Ha' in H'. rewrite <- (length_mm_sent m Hm), E, (length_mm_sent m' Hm'), H' in H.
  cbn in H. by injection H.
Qed.


Section Frames.
Context {A : Type} (big : bool) (undefined : MsgStats.rrr_msg_stats) (cb : callbacks A).
Context (handle : list Z -> A -> A) (a0 : A).
Context (Hcb : callback_msg cb = Some (fun bytes a => Ret (0, handle bytes a))).

(** The state after the messages have been handled in order. *)
Definition handled (ms : list rrr_msg_msg) : A :=
  foldl (fun a m => handle (mm_bytes big (clear_crc m)) a) a0 ms.

Definition message_protocol : protocol A := {|
  p_target_size := rrr_read_common_get_session_target_length_from_message_and_checksum big;
  p_complete := rrr_socket_read_message_split_callbacks_complete_callback big undefined cb;
  frame_ok f := exists m, f = mm_sent m /\ sendable_message m;
  idle a done := exists ms, done = mm_sent <$> ms /\ Forall sendable_message ms /\ a = handled ms;
  waiting a done f := (exists ms, done = mm_sent <$> ms /\ Forall sendable_message ms /\ a = handled ms) /\
    exists m, f = mm_sent m /\ sendable_message m
|}.

Lemma wire_bytes_app h data : wire_bytes h data = wire_bytes h [] ++ data.
Proof. unfold wire_bytes, layout. by rewrite app_nil_r, <- !app_assoc. Qed.

Lemma length_wire_head h : length (wire_bytes h []) = Z.to_nat sizeof_msg.
Proof. unfold wire_bytes, layout. rewrite !length_app, !length_be_enc. done. Qed.

(** The header of a message decides, whatever is behind it. *)
Lemma target_of_message m o n : mm_ok m -> sizeof_msg <= n < 2 ^ 32 ->
  take (Z.to_nat sizeof_msg) o = take (Z.to_nat sizeof_msg) (mm_sent m) ->
  rrr_read_common_get_session_target_length_from_message_and_checksum_raw big (Some o) n =
  Ret (RRR_READ_OK, h_size (mm_head m)).
Proof.
  intros Hm Hn Ho. unfold rrr_read_common_get_session_target_length_from_message_and_checksum_raw.
  rewrite (wrap_small 32) by (unfold sizeof_msg in *; lia).
  assert (o = wire_bytes (sent (mm_head m) (mm_body be_enc m)) (drop (Z.to_nat sizeof_msg) o)) as ->.
  { rewrite <- (take_drop (Z.to_nat sizeof_msg) o) at 1. rewrite Ho. unfold mm_sent. rewrite wire_bytes_app.
    rewrite <- (length_wire_head (sent (mm_head m) (mm_body be_enc m))), take_app_length. by rewrite <- wire_bytes_app. }
  rewrite get_target_size_spec; [done|apply Hm|by apply body_bytes|lia].
Qed.

Lemma set_target_same s n : target_size s = n -> set_target s n = s.
Proof. intros <-. by destruct s. Qed.

Lemma set_buf_same s : set_buf s (rx_buf_ptr s) (rx_buf_size s) (rx_buf_wpos s) = s.
Proof. by destruct s. Qed.

#[export] Instance message_framing : Framing message_protocol.
Proof using Hcb.
  split.
  - intros f (m & -> & Hm & _) E. apply (f_equal length) in E. pose proof (length_mm_sent m Hm). rewrite E in H.
    pose proof (size_body m Hm). unfold sizeof_msg in *. cbn in H. lia.
  - intros f (m & -> & Hm & _). rewrite (length_mm_sent m Hm). destruct (ok_head m Hm) as (_ & ? & _). lia.
  - intros a done f rest rx s Hi (m & -> & Hm & Htype & Hacc) Hne Hpre Hlen (o & Eo & Ew & Htk & Hsz) Et.
    cbn [p_target_size message_protocol idle waiting].
    unfold rrr_read_common_get_session_target_length_from_message_and_checksum. rewrite Eo, Ew.
    pose proof (length_mm_sent m Hm) as Hlm. pose proof (size_body m Hm) as Hsb.
    destruct (decide (Z.of_nat (length rx) < sizeof_msg)) as [Hlt|Hge].
    + left. split; [unfold sizeof_msg in *; lia|]. exists a. split; [|done].
      unfold rrr_read_common_get_session_target_length_from_message_and_checksum_raw,
        rrr_msg_get_target_size_and_check_checksum.
      rewrite (wrap_small 32), (proj2 (Z.ltb_lt _ _)) by lia. cbn [mbind outcome_bind].
      change (negb (RRR_READ_INCOMPLETE =? 0)) with true. cbv iota. by rewrite set_target_same.
    + right. exists a. split; [|split; [done|by exists m]]. rewrite (target_of_message m).
      * cbn [mbind outcome_bind]. by rewrite Hlm.
      * done.
      * lia.
      * assert (forall l : list Z, (Z.to_nat sizeof_msg <= length rx)%nat -> take (length rx) l = rx ->
          take (Z.to_nat sizeof_msg) l = take (Z.to_nat sizeof_msg) rx) as Hsub.
        { intros l Hl E. rewrite <- E. rewrite take_take. by rewrite Nat.min_l by lia. }
        rewrite (Hsub o) by (done || lia). destruct Hpre as [k Hk].
        transitivity (take (Z.to_nat sizeof_msg) (mm_sent m ++ rest)).
        { rewrite Hk. symmetry. apply take_app_le. lia. }
        apply take_app_le. unfold sizeof_msg in *. lia.
  - intros a done f s [(ms & -> & Hms & ->) (m & -> & Hm & Htype & Hacc)] (o & Eo & Ew & Htk & Hsz).
    pose proof (length_mm_sent m Hm) as Hlm. destruct (ok_head m Hm) as (_ & Hrange & _).
    exists (handled (ms ++ [m])), (rx_buf_ptr s). rewrite set_buf_same.
    cbn [p_complete message_protocol idle]. split.
    + unfold rrr_socket_read_message_split_callbacks_complete_callback.
      rewrite (proj2 (Z.ltb_ge _ _)) by (unfold RRR_LENGTH_MAX; lia).
      assert (received s = mm_sent m) as -> by (unfold received; rewrite Eo, Ew, Nat2Z.id; exact Htk).
      rewrite Ew, Hlm, (receive_spec m Hm Htype), Hcb, Hacc. cbn [mbind outcome_bind].
      unfold handled. by rewrite foldl_app.
    + exists (ms ++ [m]). rewrite fmap_app. split; [done|]. split; [|done]. apply Forall_app.
      split; [done|]. by constructor.
Qed.

End Frames.

Lemma cons_split {X} (x y : X) l k : x :: l = y :: k -> x = y /\ l = k.
Proof. intros H. by injection H. Qed.

(** * Callbacks on a stream *)

Definition lift_callback {X A} (f : X -> A -> outcome (Z * A)) (x : X) (w : stream A) : outcome (Z * stream A) :=
  '(ret, a) ← f x w.2; Ret (ret, (w.1, a)).

Definition lift_callbacks {A} (cb : callbacks A) : callbacks (stream A) :=
  mk_callbacks (lift_callback <$> callback_msg cb) (lift_callback <$> callback_addr_msg cb)
    (lift_callback <$> callback_log_msg cb) (lift_callback <$> callback_ctrl_msg cb)
    (lift_callback <$> callback_stats_msg cb).

Lemma dispatch_lift {A} big undefined (cb : callbacks A) msg n (w : stream A) :
  rrr_msg_to_host_and_verify_with_callback big undefined (lift_callbacks cb) msg n w =
  lift_callback (fun m => rrr_msg_to_host_and_verify_with_callback big undefined cb m n) msg w.
Proof.
  destruct w as [cs a]. unfold rrr_msg_to_host_and_verify_with_callback, lift_callback. cbn [fst snd].
  destruct (rrr_msg_head_to_host_and_verify big msg n) as [[ret m1]| |]; try done. cbn [mbind outcome_bind].
  destruct (negb (ret =? 0)); [done|].
  destruct (rrr_msg_check_data_checksum_and_length big m1 n) as [[ret2 m2]| |]; try done. cbn [mbind outcome_bind].
  destruct (negb (ret2 =? 0)); [done|]. destruct (get big msg_type m2) as [type| |]; try done. cbn [mbind outcome_bind].
  destruct cb as [f1 f2 f3 f4 f5]. cbn.
  destruct (type =? RRR_MSG_TYPE_MESSAGE); [destruct f1; [|done]; cbn|].
  { destruct (rrr_msg_msg_to_host_and_verify big m2 n) as [[ret3 m3]| |]; try done. cbn. by destruct (negb _). }
  destruct (RRR_MSG_IS_CTRL type); [by destruct f4|].
  destruct (type =? RRR_MSG_TYPE_MESSAGE_ADDR); [destruct f2; [|done]; cbn|].
  { destruct (MsgLog.rrr_msg_addr_to_host big m2) as [ret3| |]; try done. cbn. by destruct (negb _). }
  destruct (type =? RRR_MSG_TYPE_MESSAGE_LOG); [destruct f3; [|done]; cbn|].
  { destruct (MsgLog.rrr_msg_msg_log_to_host big m2) as [[ret3 m3]| |]; try done. cbn. by destruct (negb _). }
  destruct (type =? RRR_MSG_TYPE_STATS); [destruct f5; [|done]; cbn|done].
  destruct (MsgStats.rrr_msg_stats_flip_and_unpack big undefined m2 n) as [[ret3 m3]| |]; try done. cbn. by destruct (negb _).
Qed.

Lemma target_lift {A} big : same_callback
  (rrr_read_common_get_session_target_length_from_message_and_checksum (W := stream A) big)
  (on_stream (rrr_read_common_get_session_target_length_from_message_and_checksum big)).
Proof.
  intros s [cs a]. unfold rrr_read_common_get_session_target_length_from_message_and_checksum, on_stream. cbn [fst snd].
  by destruct (rrr_read_common_get_session_target_length_from_message_and_checksum_raw _ _ _) as [[? ?]| |].
Qed.

Lemma complete_lift {A} big undefined (cb : callbacks A) : same_callback
  (rrr_socket_read_message_split_callbacks_complete_callback big undefined (lift_callbacks cb))
  (on_stream (rrr_socket_read_message_split_callbacks_complete_callback big undefined cb)).
Proof.
  intros s [cs a]. unfold rrr_socket_read_message_split_callbacks_complete_callback, on_stream. cbn [fst snd].
  destruct (_ <? _); [done|]. rewrite dispatch_lift. unfold lift_callback. cbn [fst snd].
  by destruct (rrr_msg_to_host_and_verify_with_callback _ _ _ _ _ _) as [[? ?]| |].
Qed.

(** Calls at the given times; the statuses. *)
Fixpoint socket_reads {A} (big : bool) (undefined : MsgStats.rrr_msg_stats) (alloc_ok : Z -> bool) (flags : Z)
    (cb : callbacks A) (addr : list Z) (first_eof : bool) (ts : list Z) (c : rrr_read_session_collection)
    (w : stream A) : outcome (list Z * rrr_read_session_collection * stream A) :=
  match ts with
  | [] => Ret ([], c, w)
  | t :: ts =>
    '(ret, _, c, w) ← rrr_socket_read_message_split_callbacks big undefined alloc_ok t flags 0 0 (lift_callbacks cb)
                        read_piece (fun _ => addr) first_eof None c w;
    '(rets, c, w) ← socket_reads big undefined alloc_ok flags cb addr first_eof ts c w;
    Ret (ret :: rets, c, w)
  end.

(** At every call the clock is in range and no session has been without new bytes for more
    than 30 seconds. *)
Fixpoint timely_reads {A} (big : bool) (undefined : MsgStats.rrr_msg_stats) (alloc_ok : Z -> bool) (flags : Z)
    (cb : callbacks A) (addr : list Z) (first_eof : bool) (ts : list Z) (c : rrr_read_session_collection)
    (w : stream A) : bool :=
  match ts with
  | [] => true
  | t :: ts => timely t c &&
    match rrr_socket_read_message_split_callbacks big undefined alloc_ok t flags 0 0 (lift_callbacks cb)
            read_piece (fun _ => addr) first_eof None c w with
    | Ret (_, _, c, w) => timely_reads big undefined alloc_ok flags cb addr first_eof ts c w
    | _ => true
    end
  end.

Lemma socket_read_call {A} big undefined alloc_ok t flags (cb : callbacks A) handle a0 addr first_eof c w :
  rrr_socket_read_message_split_callbacks big undefined alloc_ok t flags 0 0 (lift_callbacks cb) read_piece
    (fun _ => addr) first_eof None c w =
  read_call (message_protocol big undefined cb handle a0) alloc_ok (1 * 1024 * 1024) addr sizeof_msg first_eof flags t c w.
Proof.
  unfold rrr_socket_read_message_split_callbacks, rrr_socket_read_message_default, read_call.
  by rewrite (rrr_read_message_same alloc_ok t _ _ _ _ None sizeof_msg (1 * 1024 * 1024) 0 (target_lift big)
    (complete_lift big undefined cb)).
Qed.

Lemma socket_reads_calls {A} big undefined alloc_ok flags (cb : callbacks A) handle a0 addr first_eof ts c w :
  socket_reads big undefined alloc_ok flags cb addr first_eof ts c w =
  read_calls (message_protocol big undefined cb handle a0) alloc_ok (1 * 1024 * 1024) addr sizeof_msg first_eof flags ts c w.
Proof.
  revert c w. induction ts as [|t ts IH]; intros c w; [done|]. cbn [socket_reads read_calls].
  rewrite (socket_read_call _ _ _ _ _ _ handle a0).
  destruct (read_call _ _ _ _ _ _ _ _ _ _) as [[[[ret n] c1] w1]| |]; try done.
  cbn [mbind outcome_bind]. by rewrite IH.
Qed.

Lemma timely_reads_calls {A} big undefined alloc_ok flags (cb : callbacks A) handle a0 addr first_eof ts c w :
  timely_reads big undefined alloc_ok flags cb addr first_eof ts c w =
  timely_calls (message_protocol big undefined cb handle a0) alloc_ok (1 * 1024 * 1024) addr sizeof_msg first_eof flags ts c w.
Proof.
  revert c w. induction ts as [|t ts IH]; intros c w; [done|]. cbn [timely_reads timely_calls].
  rewrite (socket_read_call _ _ _ _ _ _ handle a0). f_equal.
  by destruct (read_call _ _ _ _ _ _ _ _ _ _) as [[[[ret n] c1] w1]| |].
Qed.



End ReadMessages.
