(* ===== verification/Websocket.v ===== *)
(** WebSocket framing (src/src/lib/websocket/websocket.c and websocket.h): the
    queue of outgoing frames and their wire form, and the state machine that
    parses, unmasks and reassembles incoming frames. *)
From S2P Require Import Prelude Types Crc32 MsgHead.

Module Websocket.
Import Types MsgHead.

Definition RRR_WEBSOCKET_OPCODE_CONTINUATION : Z := 0.
Definition RRR_WEBSOCKET_OPCODE_TEXT : Z := 1.
Definition RRR_WEBSOCKET_OPCODE_BINARY : Z := 2.
Definition RRR_WEBSOCKET_OPCODE_CONNECTION_CLOSE : Z := 8.
Definition RRR_WEBSOCKET_OPCODE_PING : Z := 9.
Definition RRR_WEBSOCKET_OPCODE_PONG : Z := 10.

Definition SSIZE_MAX : Z := 0x7fffffffffffffff.

Record rrr_websocket_header := mk_header {
  fin : Z;
  rsv1 : Z;
  rsv2 : Z;
  rsv3 : Z;
  opcode : Z;
  mask : Z;
  header_len : Z;
  payload_len : Z;
  masking_key : Z
}.

Definition zero_header : rrr_websocket_header := mk_header 0 0 0 0 0 0 0 0 0.

(** [payload] is [None] for a NULL pointer. *)
Record rrr_websocket_frame := mk_frame {
  header : rrr_websocket_header;
  payload : option (list Z)
}.

(** [receive_state] is its header and the fragment buffer ([None] for NULL);
    the key of client requests and the unused [last_enqueued_pcode] are left
    out.  The queue is in sending order. *)
Record rrr_websocket_state := mk_state {
  receive_header : rrr_websocket_header;
  fragment_buffer : option (list Z);
  last_receive_opcode : Z;
  last_receive_time : Z;
  last_ping_time : Z;
  waiting_for_pong : Z;
  do_mask_outgoing_frames : Z;
  send_queue : list rrr_websocket_frame
}.

Definition set_receive (st : rrr_websocket_state) (h : rrr_websocket_header)
    (buf : option (list Z)) : rrr_websocket_state :=
  mk_state h buf (last_receive_opcode st) (last_receive_time st) (last_ping_time st)
    (waiting_for_pong st) (do_mask_outgoing_frames st) (send_queue st).
Definition set_opcode (st : rrr_websocket_state) (op : Z) : rrr_websocket_state :=
  mk_state (receive_header st) (fragment_buffer st) op (last_receive_time st)
    (last_ping_time st) (waiting_for_pong st) (do_mask_outgoing_frames st) (send_queue st).
Definition set_receive_time (st : rrr_websocket_state) (t : Z) : rrr_websocket_state :=
  mk_state (receive_header st) (fragment_buffer st) (last_receive_opcode st) t
    (last_ping_time st) (waiting_for_pong st) (do_mask_outgoing_frames st) (send_queue st).
Definition set_ping (st : rrr_websocket_state) (t waiting : Z) : rrr_websocket_state :=
  mk_state (receive_header st) (fragment_buffer st) (last_receive_opcode st)
    (last_receive_time st) t waiting (do_mask_outgoing_frames st) (send_queue st).
Definition set_queue (st : rrr_websocket_state) (q : list rrr_websocket_frame)
  : rrr_websocket_state :=
  mk_state (receive_header st) (fragment_buffer st) (last_receive_opcode st)
    (last_receive_time st) (last_ping_time st) (waiting_for_pong st)
    (do_mask_outgoing_frames st) q.

Definition rrr_websocket_state_set_client_mode (st : rrr_websocket_state) : rrr_websocket_state :=
  mk_state (receive_header st) (fragment_buffer st) (last_receive_opcode st)
    (last_receive_time st) (last_ping_time st) (waiting_for_pong st) 1 (send_queue st).

Definition rrr_websocket_state_clear_receive (st : rrr_websocket_state) : rrr_websocket_state :=
  set_receive st zero_header None.

Definition rrr_websocket_state_clear_all (st : rrr_websocket_state) : rrr_websocket_state :=
  mk_state zero_header None 0 0 0 0 0 [].

(** [data] is [*payload]; it belongs to the frame after a success. *)
Definition rrr_websocket_frame_enqueue (alloc_ok : bool) (st : rrr_websocket_state) (op : Z)
    (data : option (list Z)) (len : Z) : Z * rrr_websocket_state :=
  if negb alloc_ok then (1, st)
  else
    let m := if truth (do_mask_outgoing_frames st) then 1 else 0 in
    let frame := mk_frame (mk_header 0 0 0 0 op m 0 len 0) data in
    (0, set_queue st (send_queue st ++ [frame])).

(** [now n] is the [n]th reading of the clock.  [timeout_s * 1000 * 1000] is an
    expression of 32 bits. *)
Definition rrr_websocket_check_timeout (now : nat -> Z) (st : rrr_websocket_state)
    (timeout_s : Z) : Z * rrr_websocket_state :=
  if timeout_s =? 0 then (0, st)
  else
    let st := if last_receive_time st =? 0 then set_receive_time st (now 0%nat) else st in
    let timeout_limit := u64 (now 1%nat - u32 (u32 (timeout_s * 1000) * 1000)) in
    if timeout_limit <? last_receive_time st then (0, st) else (1, st).

Definition rrr_websocket_enqueue_ping_if_needed (now : nat -> Z) (alloc_ok : bool)
    (st : rrr_websocket_state) (ping_interval_s : Z) : Z * rrr_websocket_state :=
  if ping_interval_s =? 0 then (0, st)
  else if last_ping_time st =? 0 then (0, set_ping st (now 0%nat) (waiting_for_pong st))
  else
    let ping_limit := u64 (now 0%nat - u32 (u32 (ping_interval_s * 1000) * 1000)) in
    if (ping_limit <? last_ping_time st) || truth (waiting_for_pong st) then (0, st)
    else
      let st := set_ping st (now 1%nat) 1 in
      rrr_websocket_frame_enqueue alloc_ok st RRR_WEBSOCKET_OPCODE_PING None 0.

Section Host.
Context (big : bool).

Definition rrr_websocket_payload_mask_unmask (bytes : list Z) (masking_key_h : Z) : list Z :=
  let key_8 := host_enc big 4 (rrr_htobe32 big masking_key_h) in
  imap (fun i b => b ^^^ nth (i mod 4) key_8 0) bytes.

(** The header built in [header[32]]. *)
Definition frame_header (h : rrr_websocket_header) (rand : Z) : list Z :=
  let mask_flag_shifted := if truth (mask h) then 0x80 else 0 in
  (opcode h ||| 0x80) ::
  (if payload_len h <? 126 then [u8 (mask_flag_shifted ||| payload_len h)]
   else if payload_len h <=? 65535 then
     (mask_flag_shifted ||| 126) :: host_enc big 2 (rrr_htobe16 big (u16 (payload_len h)))
   else (mask_flag_shifted ||| 127) :: host_enc big 8 (rrr_htobe64 big (payload_len h))) ++
  (if truth (mask h) then host_enc big 4 (rrr_htobe32 big rand) else []).

Definition with_key (h : rrr_websocket_header) (key : Z) : rrr_websocket_header :=
  mk_header (fin h) (rsv1 h) (rsv2 h) (rsv3 h) (opcode h) (mask h) (header_len h)
    (payload_len h) key.

(** [rand] is the 32 bits of [rrr_rand()]; push [n] of bytes to the transport
    returns [push n].  The status, the byte strings pushed, and the frame, in
    which the payload is masked in place. *)
Definition rrr_websocket_transport_ctx_frame_send (push : nat -> Z) (rand : Z)
    (frame : rrr_websocket_frame) : outcome (Z * list (list Z) * rrr_websocket_frame) :=
  let h := if truth (mask (header frame)) then with_key (header frame) rand else header frame in
  let frame := mk_frame h (payload frame) in
  let head := frame_header h rand in
  if 32 <? Z.of_nat (length head) then Bug
  else if negb (push 0%nat =? 0) then Ret (push 0%nat, [head], frame)
  else if 0 <? payload_len h then
    match payload frame with
    | None => Oob
    | Some bytes =>
      sent ← bytes_at 0 (payload_len h) bytes;
      let sent := if truth (mask h) then rrr_websocket_payload_mask_unmask sent rand else sent in
      Ret (push 1%nat, [head; sent], mk_frame h (Some (splice 0 sent bytes)))
    end
  else Ret (0, [head], frame).

(** [RRR_LL_ITERATE] over the queue; frame [n] uses [push n] and [rand n].  A
    frame is destroyed when it was sent; at an error the rest stays queued. *)
Fixpoint send_frames (n : nat) (push : nat -> nat -> Z) (rand : nat -> Z)
    (queue : list rrr_websocket_frame)
  : outcome (Z * list (list Z) * list rrr_websocket_frame) :=
  match queue with
  | [] => Ret (0, [], [])
  | frame :: rest =>
    '(ret, bytes, frame) ← rrr_websocket_transport_ctx_frame_send (push n) (rand n) frame;
    if negb (ret =? 0) then Ret (ret, bytes, frame :: rest)
    else
      '(ret, more, queue) ← send_frames (S n) push rand rest;
      Ret (ret, bytes ++ more, queue)
  end.

Definition rrr_websocket_transport_ctx_send_frames (push : nat -> nat -> Z) (rand : nat -> Z)
    (st : rrr_websocket_state) : outcome (Z * list (list Z) * rrr_websocket_state) :=
  '(ret, bytes, queue) ← send_frames 0 push rand (send_queue st);
  Ret (ret, bytes, set_queue st queue).

(** What [rrr_websocket_get_target_size] reports: the status, the state and
    the target size when it was set. *)
Definition get_target_result : Type := Z * rrr_websocket_state * option Z.

Definition CHECK_LENGTH (rx_buf : list Z) (len : Z) : bool := Z.of_nat (length rx_buf) <? len.

Definition rrr_websocket_get_target_size (now : Z) (st : rrr_websocket_state) (rx_buf : list Z)
  : outcome get_target_result :=
  let incomplete := Ret (RRR_READ_INCOMPLETE, st, None) in
  let len := 2 in
  if CHECK_LENGTH rx_buf len then incomplete
  else
    raw ← get big (0, 2)%nat rx_buf;
    let flags := rrr_be16toh big raw in
    let plen := flags &&& 0x7f in
    let flags := flags >>> 7 in let m := flags &&& 1 in
    let flags := flags >>> 1 in let op := flags &&& 0xf in
    let flags := flags >>> 4 in let r3 := flags &&& 1 in
    let flags := flags >>> 1 in let r2 := flags &&& 1 in
    let flags := flags >>> 1 in let r1 := flags &&& 1 in
    let flags := flags >>> 1 in let f := flags &&& 1 in
    let pos := len in
    let len := if plen =? 126 then len + 2 else if plen =? 127 then len + 8 else len in
    if CHECK_LENGTH rx_buf len then incomplete
    else
      size ← (if plen =? 126 then
                v ← get big (Z.to_nat pos, 2%nat) rx_buf; Ret (rrr_be16toh big v)
              else if plen =? 127 then
                v ← get big (Z.to_nat pos, 8%nat) rx_buf; Ret (rrr_be64toh big v)
              else Ret plen);
      let pos := len in
      let len := if truth m then len + 4 else len in
      if CHECK_LENGTH rx_buf len then incomplete
      else
        key ← (if truth m then
                 v ← get big (Z.to_nat pos, 4%nat) rx_buf; Ret (rrr_be32toh big v)
               else Ret 0);
        let target_len := u64 (len + size) in
        if SSIZE_MAX <? target_len then Ret (RRR_READ_SOFT_ERROR, st, None)
        else
          let h := mk_header f r1 r2 r3 op m len size key in
          let st := set_receive (set_receive_time st now) h (fragment_buffer st) in
          Ret (RRR_READ_OK, st, Some target_len).

End Host.

(** ** Reception

    [callback] is the final callback; a step returns the status, the state
    and what the callback was called with, if it was. *)
Section Receive.
Context (callback : Z -> list Z -> Z) (alloc : nat -> bool).

Definition receive_result : Type := Z * rrr_websocket_state * option (Z * list Z).

Definition rrr_websocket_receive_callback_final_step (st : rrr_websocket_state)
    (data : list Z) : receive_result :=
  let op := last_receive_opcode st in
  if op =? RRR_WEBSOCKET_OPCODE_CONNECTION_CLOSE then (RRR_READ_EOF, st, None)
  else if op =? RRR_WEBSOCKET_OPCODE_PING then
    let '(ret, st) := rrr_websocket_frame_enqueue (alloc 2%nat) st RRR_WEBSOCKET_OPCODE_PONG None 0 in
    (ret, st, None)
  else if op =? RRR_WEBSOCKET_OPCODE_PONG then (0, set_ping st (last_ping_time st) 0, None)
  else (callback op data, st, Some (op, data)).

Definition rrr_websocket_receive_callback_fragmentation_step (st : rrr_websocket_state)
    (f : Z) (data : list Z) : receive_result :=
  let out (r : receive_result) : receive_result :=
    let '(ret, st, d) := r in (ret, rrr_websocket_state_clear_receive st, d) in
  if negb (truth (last_receive_opcode st)) then out (RRR_READ_SOFT_ERROR, st, None)
  else
    match fragment_buffer st with
    | None =>
      if truth f then out (rrr_websocket_receive_callback_final_step st data)
      else if negb (alloc 0%nat) then out (1, st, None)
      else if negb (alloc 1%nat) then out (RRR_READ_SOFT_ERROR, st, None)
      else (0, set_receive st (receive_header st) (Some data), None)
    | Some buf =>
      if negb (alloc 1%nat) then out (RRR_READ_SOFT_ERROR, st, None)
      else
        let st := set_receive st (receive_header st) (Some (buf ++ data)) in
        if truth f then out (rrr_websocket_receive_callback_final_step st (buf ++ data))
        else (0, st, None)
    end.

(** The checks on the opcode [op] and flag [f] of a frame with the (unmasked)
    payload [data], and the next step. *)
Definition interpret_frame (st : rrr_websocket_state) (f op : Z) (data : list Z)
  : outcome receive_result :=
  let plen := Z.of_nat (length data) in
  let st := if truth op then rrr_websocket_state_clear_receive st else st in
  let control := (op =? RRR_WEBSOCKET_OPCODE_CONNECTION_CLOSE) ||
                 (op =? RRR_WEBSOCKET_OPCODE_PING) || (op =? RRR_WEBSOCKET_OPCODE_PONG) in
  let text_or_binary := (op =? RRR_WEBSOCKET_OPCODE_TEXT) ||
                        (op =? RRR_WEBSOCKET_OPCODE_BINARY) in
  if truth op && control && (125 <? plen) then Ret (RRR_READ_SOFT_ERROR, st, None)
  else if truth op && control && negb (truth f) then Ret (RRR_READ_SOFT_ERROR, st, None)
  else if truth op && negb control && negb text_or_binary then Ret (RRR_READ_SOFT_ERROR, st, None)
  else if truth op && negb (truth f) && negb text_or_binary then Ret (RRR_READ_SOFT_ERROR, st, None)
  else
    let st := if truth op then set_opcode st op else st in
    if RRR_LENGTH_MAX <? plen then Ret (RRR_READ_SOFT_ERROR, st, None)
    else
      _ ← rrr_length_from_biglength_bug_const plen;
      Ret (rrr_websocket_receive_callback_fragmentation_step st f data).

(** [rx_buf] holds the [rx_buf_wpos] bytes of the complete frame. *)
Definition rrr_websocket_receive_callback_interpret_step (big : bool) (st : rrr_websocket_state)
    (rx_buf : list Z) : outcome receive_result :=
  let h := receive_header st in
  let plen := u64 (Z.of_nat (length rx_buf) - header_len h) in
  data ← bytes_at (header_len h) plen rx_buf;
  let data := if truth (mask h) then rrr_websocket_payload_mask_unmask big data (masking_key h)
              else data in
  interpret_frame st (fin h) (opcode h) data.

End Receive.

(** * Masking *)

Lemma length_mask big l key : length (rrr_websocket_payload_mask_unmask big l key) = length l.
Proof. apply length_imap. Qed.

Lemma mask_involutive big1 big2 l key :
  rrr_websocket_payload_mask_unmask big2 (rrr_websocket_payload_mask_unmask big1 l key) key = l.
Proof.
  unfold rrr_websocket_payload_mask_unmask, rrr_htobe32. rewrite !host_enc_to_be.
  apply list_eq. intros i. rewrite !list_lookup_imap.
  destruct (l !! i) as [b|]; simpl; [|done].
  by rewrite Z.lxor_assoc, Z.lxor_nilpotent, Z.lxor_0_r.
Qed.

(** * The wire form of a header *)

Definition extended (n : Z) : list Z :=
  if n <? 126 then [] else if n <=? 65535 then be_enc 2 n else be_enc 8 n.
Definition short_len (n : Z) : Z := if n <? 126 then n else if n <=? 65535 then 126 else 127.

(** Header of a final frame: two bytes, the extended length, the key. *)
Definition wire_header (op m n key : Z) : list Z :=
  be_enc 2 ((128 + op) * 256 + (128 * m + short_len n)) ++ extended n ++
  (if truth m then be_enc 4 key else []).

Lemma be_enc_2 a b : byte_ok b -> byte_ok a -> be_enc 2 (a * 256 + b) = [a; b].
Proof.
  unfold byte_ok. intros. unfold be_enc. simpl.
  rewrite Z.div_add_l, Z.div_small, Z.add_0_r by lia.
  rewrite (Z.add_comm (a * 256)), Z.mod_add, !Z.mod_small by lia. done.
Qed.

Lemma frame_header_spec big h rand :
  0 <= opcode h < 16 -> mask h = 0 \/ mask h = 1 -> 0 <= payload_len h < 2 ^ 64 ->
  frame_header big h rand = wire_header (opcode h) (mask h) (payload_len h) rand.
Proof.
  intros Hop Hm Hn. unfold frame_header, wire_header, extended, short_len, rrr_htobe16, rrr_htobe64,
    rrr_htobe32. rewrite !host_enc_to_be.
  assert (opcode h ||| 0x80 = 128 + opcode h) as ->.
  { rewrite Z.lor_comm. apply (lor_shiftl_add 7 1); lia. }
  assert (forall x, 0 <= x < 128 -> (if truth (mask h) then 128 else 0) ||| x = 128 * mask h + x) as Hx.
  { intros x ?. destruct Hm as [-> | ->]; simpl truth; cbv iota; [apply Z.lor_0_l|].
    apply (lor_shiftl_add 7 1 x); lia. }
  destruct (Z.ltb_spec (payload_len h) 126); [|destruct (Z.leb_spec (payload_len h) 65535)].
  - rewrite Hx, wrap_small, be_enc_2 by (unfold byte_ok; lia). done.
  - rewrite Hx, (wrap_small 16), be_enc_2 by (unfold byte_ok; lia). done.
  - rewrite Hx, be_enc_2 by (unfold byte_ok; lia). done.
Qed.

Lemma short_len_range n : 0 <= n -> 0 <= short_len n < 128.
Proof. unfold short_len. btests. Qed.

Lemma extended_len n :
  Z.of_nat (length (extended n)) = if short_len n =? 126 then 2 else if short_len n =? 127 then 8 else 0.
Proof. unfold extended, short_len. btests; rewrite length_be_enc; done. Qed.

Section Parse.
Context (big : bool) (now : Z) (st : rrr_websocket_state) (op m n : Z).
Context (Hop : 0 <= op < 16) (Hm : m = 0 \/ m = 1) (Hn : 0 <= n < 2 ^ 64).

Let v := (128 + op) * 256 + (128 * m + short_len n).

Lemma flags_range : 0 <= v < 2 ^ 16.
Proof using Hop Hm Hn. unfold v. pose proof (short_len_range n). lia. Qed.

Lemma flags_fields :
  v &&& 0x7f = short_len n /\ (v >>> 7) &&& 1 = m /\ (v >>> 7 >>> 1) &&& 0xf = op /\
  (v >>> 7 >>> 1 >>> 4) &&& 1 = 0 /\ (v >>> 7 >>> 1 >>> 4 >>> 1) &&& 1 = 0 /\
  (v >>> 7 >>> 1 >>> 4 >>> 1 >>> 1) &&& 1 = 0 /\
  (v >>> 7 >>> 1 >>> 4 >>> 1 >>> 1 >>> 1) &&& 1 = 1.
Proof using Hop Hm Hn.
  pose proof (short_len_range n ltac:(lia)). rewrite !Z.shiftr_shiftr by lia.
  change (7 + 1 + 4 + 1 + 1 + 1) with 15. change (7 + 1 + 4 + 1 + 1) with 14.
  change (7 + 1 + 4 + 1) with 13. change (7 + 1 + 4) with 12. change (7 + 1) with 8.
  rewrite !Z.shiftr_div_pow2, !(land_low_bits 7 _ 0x7f), !(land_low_bits 1 _ 1),
    !(land_low_bits 4 _ 0xf) by (done || lia).
  change (2 ^ 7) with 128. change (2 ^ 8) with 256. change (2 ^ 12) with 4096.
  change (2 ^ 13) with 8192. change (2 ^ 14) with 16384. change (2 ^ 15) with 32768.
  change (2 ^ 1) with 2. change (2 ^ 4) with 16. unfold v. clear v. split_and!; zdiv.
Qed.

(** What is left to do once the first two bytes are read. *)
Lemma get_target_size_flags tail :
  rrr_websocket_get_target_size big now st (be_enc 2 v ++ tail)
  = let rx_buf := be_enc 2 v ++ tail in
    let incomplete := Ret (RRR_READ_INCOMPLETE, st, None) in
    let len := 2 + Z.of_nat (length (extended n)) in
    if CHECK_LENGTH rx_buf len then incomplete
    else
      size ← (if short_len n =? 126 then
                v ← get big (2, 2)%nat rx_buf; Ret (rrr_be16toh big v)
              else if short_len n =? 127 then
                v ← get big (2, 8)%nat rx_buf; Ret (rrr_be64toh big v)
              else Ret (short_len n));
      let pos := len in
      let len := if truth m then len + 4 else len in
      if CHECK_LENGTH rx_buf len then incomplete
      else
        key ← (if truth m then
                 v ← get big (Z.to_nat pos, 4%nat) rx_buf; Ret (rrr_be32toh big v)
               else Ret 0);
        let target_len := u64 (len + size) in
        if SSIZE_MAX <? target_len then Ret (RRR_READ_SOFT_ERROR, st, None)
        else
          let st' := set_receive (set_receive_time st now) (mk_header 1 0 0 0 op m len size key)
                       (fragment_buffer st) in
          Ret (RRR_READ_OK, st', Some target_len).
Proof using Hop Hm Hn.
  unfold rrr_websocket_get_target_size. unfold CHECK_LENGTH at 1.
  rewrite length_app, length_be_enc. rewrite (proj2 (Z.ltb_ge _ 2)) by lia.
  assert (get big (0, 2)%nat (be_enc 2 v ++ tail) = Ret (host_dec big (be_enc 2 v))) as ->
    by (by apply (get_app big [] (be_enc 2 v) tail)).
  assert (rrr_be16toh big (host_dec big (be_enc 2 v)) = v) as Hv
    by (apply to_be_host_dec, flags_range).
  rewrite bind_ret. cbv zeta. rewrite Hv.
  destruct flags_fields as (-> & -> & -> & -> & -> & -> & ->).
  rewrite extended_len.
  destruct (short_len n =? 126); [done|]. by destruct (short_len n =? 127).
Qed.

Lemma size_spec tail :
  (if short_len n =? 126 then
     v0 ← get big (2, 2)%nat (be_enc 2 v ++ extended n ++ tail); Ret (rrr_be16toh big v0)
   else if short_len n =? 127 then
     v0 ← get big (2, 8)%nat (be_enc 2 v ++ extended n ++ tail); Ret (rrr_be64toh big v0)
   else Ret (short_len n)) = Ret n.
Proof using Hn.
  clear Hop Hm. unfold short_len, extended.
  destruct (Z.ltb_spec n 126); [|destruct (Z.leb_spec n 65535)].
  - destruct (Z.eqb_spec n 126); [lia|]. destruct (Z.eqb_spec n 127); [lia|]. done.
  - cbn [Z.eqb Pos.eqb]. rewrite get_app by apply length_be_enc. rewrite bind_ret.
    unfold rrr_be16toh. by rewrite to_be_host_dec by width.
  - cbn [Z.eqb Pos.eqb]. rewrite get_app by apply length_be_enc. rewrite bind_ret.
    unfold rrr_be64toh. by rewrite to_be_host_dec by width.
Qed.

Context (key : Z) (Hkey : 0 <= key < 2 ^ 32).

Let W := wire_header op m n key.

Lemma length_wire_header :
  Z.of_nat (length W) = 2 + Z.of_nat (length (extended n)) + (if truth m then 4 else 0).
Proof.
  unfold W, wire_header. rewrite !length_app, length_be_enc.
  destruct (truth m); rewrite ?length_be_enc; simpl; lia.
Qed.

(** A complete header, with anything after it. *)
Lemma get_target_size_complete rest :
  Z.of_nat (length W) + n <= SSIZE_MAX ->
  rrr_websocket_get_target_size big now st (W ++ rest)
  = Ret (RRR_READ_OK,
      set_receive (set_receive_time st now)
        (mk_header 1 0 0 0 op m (Z.of_nat (length W)) n (if truth m then key else 0))
        (fragment_buffer st),
      Some (Z.of_nat (length W) + n)).
Proof using Hop Hm Hn Hkey.
  intros Hmax. pose proof length_wire_header as Hl.
  assert (W ++ rest = be_enc 2 v ++ extended n ++ (if truth m then be_enc 4 key else []) ++ rest) as ->
    by (unfold W, wire_header; by rewrite <- !app_assoc).
  rewrite get_target_size_flags. cbv zeta. unfold CHECK_LENGTH. rewrite !length_app, length_be_enc.
  rewrite (proj2 (Z.ltb_ge _ (2 + Z.of_nat (length (extended n))))) by lia.
  rewrite size_spec, bind_ret. unfold SSIZE_MAX in *.
  destruct (truth m); rewrite ?length_be_enc.
  - rewrite (proj2 (Z.ltb_ge _ _)) by lia.
    replace (Z.to_nat (2 + Z.of_nat (length (extended n))))
      with (length (be_enc 2 v ++ extended n)) by (rewrite length_app, length_be_enc; lia).
    rewrite app_assoc, get_app by (done || apply length_be_enc). rewrite bind_ret.
    unfold rrr_be32toh. rewrite to_be_host_dec, bind_ret by width.
    rewrite <- Hl, wrap_small, (proj2 (Z.ltb_ge _ _)) by lia. done.
  - rewrite Z.add_0_r in Hl. simpl length. rewrite (proj2 (Z.ltb_ge _ _)) by lia. rewrite bind_ret.
    rewrite <- Hl, wrap_small, (proj2 (Z.ltb_ge _ _)) by lia. done.
Qed.

(** A part of the header is asked to be read on. *)
Lemma get_target_size_incomplete (k : nat) :
  (k < length W)%nat ->
  rrr_websocket_get_target_size big now st (take k W) = Ret (RRR_READ_INCOMPLETE, st, None).
Proof using Hop Hm Hn.
  intros Hk. pose proof length_wire_header as Hl.
  destruct (decide (k < 2)%nat) as [H2|H2].
  { unfold rrr_websocket_get_target_size, CHECK_LENGTH. rewrite length_take.
    by rewrite (proj2 (Z.ltb_lt _ 2)) by lia. }
  assert (take k W = be_enc 2 v ++ take (k - 2) (extended n ++ (if truth m then be_enc 4 key else []))) as Et.
  { unfold W, wire_header. rewrite take_app_ge by (rewrite length_be_enc; lia). by rewrite length_be_enc. }
  rewrite Et, get_target_size_flags. cbv zeta. rewrite <- Et.
  assert (Z.of_nat (length (take k W)) = Z.of_nat k) as Elen by (rewrite length_take; lia).
  unfold CHECK_LENGTH. rewrite Elen.
  destruct (Z.ltb_spec (Z.of_nat k) (2 + Z.of_nat (length (extended n)))) as [He|He]; [done|].
  rewrite Et, take_app_ge by lia. rewrite size_spec, bind_ret.
  destruct (truth m); [|lia]. by rewrite (proj2 (Z.ltb_lt _ _)) by lia.
Qed.

End Parse.

(** * Round trip *)

Definition new_frame (op m : Z) (bytes : list Z) : rrr_websocket_frame :=
  mk_frame (mk_header 0 0 0 0 op m 0 (Z.of_nat (length bytes)) 0) (Some bytes).

Definition masked (big : bool) (m key : Z) (bytes : list Z) : list Z :=
  if truth m then rrr_websocket_payload_mask_unmask big bytes key else bytes.

Lemma length_masked big m key bytes : length (masked big m key bytes) = length bytes.
Proof. unfold masked. destruct (truth m); [apply length_mask|done]. Qed.

Lemma masked_masked big1 big2 m key bytes : masked big2 m key (masked big1 m key bytes) = bytes.
Proof. unfold masked. destruct (truth m); [apply mask_involutive|done]. Qed.

Lemma extended_len_le n : (length (extended n) <= 8)%nat.
Proof. unfold extended. btests; rewrite ?length_be_enc; simpl; lia. Qed.

Lemma frame_send_spec big op m key bytes :
  0 <= op < 16 -> m = 0 \/ m = 1 -> Z.of_nat (length bytes) < 2 ^ 64 ->
  exists pushed frame,
    rrr_websocket_transport_ctx_frame_send big (fun _ => 0) key (new_frame op m bytes)
    = Ret (0, pushed, frame) /\
    concat pushed = wire_header op m (Z.of_nat (length bytes)) key ++ masked big m key bytes.
Proof.
  intros Hop Hm Hn. unfold rrr_websocket_transport_ctx_frame_send, new_frame.
  cbn [header payload]. set (h := if truth _ then _ else _).
  assert (opcode h = op /\ mask h = m /\ payload_len h = Z.of_nat (length bytes)) as (E1 & E2 & E3)
    by (unfold h; destruct (truth _); done).
  rewrite frame_header_spec by (rewrite ?E1, ?E2, ?E3; (done || lia)). rewrite E1, E2, E3.
  pose proof (length_wire_header op m (Z.of_nat (length bytes)) key) as Hl.
  pose proof (extended_len_le (Z.of_nat (length bytes))).
  rewrite (proj2 (Z.ltb_ge 32 _)) by (rewrite Hl; destruct (truth m); lia). cbn [Z.eqb negb].
  destruct (Z.ltb_spec 0 (Z.of_nat (length bytes))) as [Hpos|Hz].
  - unfold bytes_at.
    rewrite (proj2 (Z.leb_le 0 0)), (proj2 (Z.leb_le 0 (Z.of_nat _))), (proj2 (Z.leb_le (0 + _) _)) by lia.
    cbn [andb]. rewrite bind_ret. do 2 eexists. split; [done|]. cbn [concat]. rewrite app_nil_r. f_equal.
    unfold masked, slice. rewrite drop_0, Nat2Z.id, firstn_all. done.
  - assert (bytes = []) as -> by (apply length_zero_iff_nil; lia).
    do 2 eexists. split; [done|]. cbn [concat]. f_equal. unfold masked. by destruct (truth m).
Qed.

(** C22. Frames round trip.  The bytes pushed for a frame, masked or not, are
    read back by any peer: as long as the header is incomplete the reader is
    told to read on and its state does not change; from then on it knows the
    length of the whole frame; and when all of it is there, the payload that is
    interpreted is the one that was sent, unmasked, as a final frame with the
    same opcode. *)
Theorem rrr_websocket_frame_roundtrip big_sender big_receiver callback alloc now st op m key bytes :
  0 <= op < 16 -> m = 0 \/ m = 1 -> 0 <= key < 2 ^ 32 ->
  14 + Z.of_nat (length bytes) <= SSIZE_MAX ->
  exists pushed frame st' hlen,
    rrr_websocket_transport_ctx_frame_send big_sender (fun _ => 0) key (new_frame op m bytes)
      = Ret (0, pushed, frame) /\
    let wire := concat pushed in
    (forall k, (k < hlen)%nat ->
       rrr_websocket_get_target_size big_receiver now st (take k wire)
       = Ret (RRR_READ_INCOMPLETE, st, None)) /\
    (forall k, (hlen <= k)%nat ->
       rrr_websocket_get_target_size big_receiver now st (take k wire)
       = Ret (RRR_READ_OK, st', Some (Z.of_nat (length wire)))) /\
    rrr_websocket_receive_callback_interpret_step callback alloc big_receiver st' wire
      = interpret_frame callback alloc st' 1 op bytes.
Proof.
  intros Hop Hm Hkey Hmax. unfold SSIZE_MAX in Hmax. set (n := Z.of_nat (length bytes)).
  destruct (frame_send_spec big_sender op m key bytes Hop Hm ltac:(lia)) as (pushed & frame & Es & Ew).
  fold n in Ew. set (W := wire_header op m n key) in *.
  assert (Z.of_nat (length W) <= 14) as HW.
  { unfold W. rewrite length_wire_header. pose proof (extended_len_le n). destruct (truth m); lia. }
  exists pushed, frame, (set_receive (set_receive_time st now)
    (mk_header 1 0 0 0 op m (Z.of_nat (length W)) n (if truth m then key else 0))
    (fragment_buffer st)), (length W).
  split; [done|]. cbv zeta. rewrite Ew. set (sent := masked big_sender m key bytes).
  assert (length sent = length bytes) as Hsent by apply length_masked. split_and!.
  - intros k Hk. rewrite take_app_le by lia.
    apply get_target_size_incomplete; fold n; fold W; (done || unfold n; lia).
  - intros k Hk. rewrite take_app_ge by lia. rewrite length_app, Nat2Z.inj_add, Hsent.
    apply get_target_size_complete; fold n; fold W; (done || unfold n, SSIZE_MAX in *; lia).
  - unfold rrr_websocket_receive_callback_interpret_step.
    cbn [receive_header set_receive header_len mask masking_key fin opcode].
    rewrite length_app, Hsent, wrap_small by lia.
    replace (Z.of_nat (length W + length bytes) - Z.of_nat (length W))
      with (Z.of_nat (length sent)) by lia.
    assert (bytes_at (Z.of_nat (length W)) (Z.of_nat (length sent)) (W ++ sent) = Ret sent) as ->
      by (rewrite <- (app_nil_r sent) at 2; by apply bytes_at_app).
    rewrite bind_ret. f_equal. transitivity (masked big_receiver m key sent); [|apply masked_masked].
    unfold masked at 1. by destruct (truth m).
Qed.

Lemma rrr_websocket_frame_roundtrip_witness :
  exists pushed frame st' hlen,
    rrr_websocket_transport_ctx_frame_send false (fun _ => 0) 0x12345678
      (new_frame RRR_WEBSOCKET_OPCODE_TEXT 1 [104; 105]) = Ret (0, pushed, frame) /\
    (forall k, (hlen <= k)%nat ->
       rrr_websocket_get_target_size true 5 (rrr_websocket_state_clear_all
         (mk_state zero_header None 0 0 0 0 0 [])) (take k (concat pushed))
       = Ret (RRR_READ_OK, st', Some (Z.of_nat (length (concat pushed))))).
Proof.
  destruct (rrr_websocket_frame_roundtrip false true (fun _ _ => 0) (fun _ => true) 5
    (rrr_websocket_state_clear_all (mk_state zero_header None 0 0 0 0 0 []))
    RRR_WEBSOCKET_OPCODE_TEXT 1 0x12345678 [104; 105])
    as (pushed & frame & st' & hlen & H1 & _ & H3 & _);
    [split; [discriminate|reflexivity]|auto|lia|vm_compute; discriminate|].
  exists pushed, frame, st', hlen. split; assumption.
Defined.

(** * Reassembly *)

Section Reassembly.
Context (callback : Z -> list Z -> Z) (alloc : nat -> bool).

(** Frames as they come in: [get_target_size] stores each header, and the
    payload is interpreted when it is complete.  The calls of the final callback
    are collected; reading stops at the first status that is not 0. *)
Fixpoint receive_frames (st : rrr_websocket_state) (frames : list (rrr_websocket_header * list Z))
  : outcome (Z * rrr_websocket_state * list (Z * list Z)) :=
  match frames with
  | [] => Ret (0, st, [])
  | (h, data) :: frames =>
    let st := set_receive st h (fragment_buffer st) in
    '(ret, st, delivered) ← interpret_frame callback alloc st (fin h) (opcode h) data;
    if negb (ret =? 0) then Ret (ret, st, option_list delivered)
    else
      '(ret, st, more) ← receive_frames st frames;
      Ret (ret, st, option_list delivered ++ more)
  end.

Definition fits (data : list Z) : Prop := Z.of_nat (length data) <= RRR_LENGTH_MAX.

(** Two states that differ at most in what [clear_receive] resets. *)
Definition same_rest (a b : rrr_websocket_state) : Prop :=
  rrr_websocket_state_clear_receive a = rrr_websocket_state_clear_receive b.

Context (Halloc : forall n, alloc n = true).

Lemma fits_length data : fits data ->
  (RRR_LENGTH_MAX <? Z.of_nat (length data)) = false /\
  rrr_length_from_biglength_bug_const (Z.of_nat (length data)) = Ret (Z.of_nat (length data)).
Proof.
  unfold fits. intros H. split; [by apply Z.ltb_ge|].
  rewrite length_from_biglength_spec by lia. apply exact_or_bug_small. lia.
Qed.

(** A continuation frame appends, and the last one delivers. *)
Lemma continuation_spec st h buf data op :
  opcode h = 0 -> fits data -> fragment_buffer st = Some buf ->
  last_receive_opcode st = op -> truth op = true ->
  interpret_frame callback alloc (set_receive st h (Some buf)) (fin h) (opcode h) data
  = Ret (if truth (fin h) then
           let '(ret, st', d) := rrr_websocket_receive_callback_final_step callback alloc
             (set_receive st h (Some (buf ++ data))) (buf ++ data) in
           (ret, rrr_websocket_state_clear_receive st', d)
         else (0, set_receive st h (Some (buf ++ data)), None)).
Proof using Halloc.
  intros Hop Hf Hb Hl Ht. destruct (fits_length data Hf) as [H1 H2]. unfold interpret_frame.
  rewrite Hop. cbn [truth Z.eqb negb andb]. rewrite H1, H2, bind_ret.
  unfold rrr_websocket_receive_callback_fragmentation_step.
  cbn [last_receive_opcode fragment_buffer set_receive receive_header]. rewrite Hl, Ht, Halloc.
  cbn [negb]. done.
Qed.

Lemma middle_frames st op buf mids rest :
  Forall (fun f : rrr_websocket_header * list Z => fin f.1 = 0 /\ opcode f.1 = 0 /\ fits f.2) mids ->
  fragment_buffer st = Some buf -> last_receive_opcode st = op -> truth op = true ->
  exists st', same_rest st' st /\ fragment_buffer st' = Some (buf ++ concat (snd <$> mids)) /\
    receive_frames st (mids ++ rest) = receive_frames st' rest.
Proof using Halloc.
  intros H. revert st buf. induction H as [|[h data] mids (Hfin & Hop & Hf) _ IH];
    intros st buf Hb Hl Ht; simpl in *.
  - exists st. split_and!; [done|by rewrite app_nil_r|done].
  - rewrite Hb, (continuation_spec st h buf data op) by done. rewrite bind_ret, Hfin.
    cbn [truth Z.eqb negb].
    destruct (IH (set_receive st h (Some (buf ++ data))) (buf ++ data)) as (st' & Hs & Hb' & Er);
      [done..|].
    exists st'. split_and!; [done|by rewrite Hb', app_assoc|]. rewrite Er.
    destruct (receive_frames st' rest) as [[[? ?] ?]| |]; done.
Qed.

End Reassembly.

(** C23. Fragmented messages.  A text or binary message sent as a first frame,
    any number of continuation frames and a final one, none of a payload too long
    for a length field and with every allocation succeeding, is handed to the
    application once, with the opcode of the first frame and the payloads joined
    in order; the status is that of the application.  Afterwards header and
    fragment buffer are clear; of the message only its opcode stays in the state,
    as the opcode of the last frame that was not a continuation. *)
Theorem rrr_websocket_reassembly callback alloc st h0 d0 mids hl dl op :
  (forall n, alloc n = true) ->
  op = RRR_WEBSOCKET_OPCODE_TEXT \/ op = RRR_WEBSOCKET_OPCODE_BINARY ->
  fin h0 = 0 -> opcode h0 = op -> fits d0 ->
  Forall (fun f : rrr_websocket_header * list Z => fin f.1 = 0 /\ opcode f.1 = 0 /\ fits f.2) mids ->
  fin hl = 1 -> opcode hl = 0 -> fits dl ->
  let message := d0 ++ concat (snd <$> mids) ++ dl in
  receive_frames callback alloc st ((h0, d0) :: mids ++ [(hl, dl)])
  = Ret (callback op message, rrr_websocket_state_clear_receive (set_opcode st op), [(op, message)]).
Proof.
  intros Ha Hop Hf0 Ho0 Hd0 Hmids Hfl Hol Hdl message.
  assert (truth op = true) as Ht by (by destruct Hop as [-> | ->]).
  cbn [receive_frames]. rewrite Ho0, Hf0.
  assert (interpret_frame callback alloc (set_receive st h0 (fragment_buffer st)) 0 op d0
    = Ret (0, set_receive (set_opcode st op) zero_header (Some d0), None)) as ->.
  { destruct (fits_length d0 Hd0) as [H1 H2]. unfold interpret_frame. rewrite Ht, H1, H2.
    destruct Hop as [-> | ->]; simpl; unfold rrr_websocket_receive_callback_fragmentation_step; simpl;
      by rewrite !Ha. }
  rewrite bind_ret. cbn [Z.eqb negb].
  destruct (middle_frames callback alloc Ha (set_receive (set_opcode st op) zero_header (Some d0))
    op d0 mids [(hl, dl)]) as (st' & Hs & Hb & ->); [done..|].
  cbn [receive_frames].
  assert (last_receive_opcode st' = op) as Hl
    by (by apply (f_equal last_receive_opcode) in Hs).
  rewrite Hb, (continuation_spec callback alloc Ha st' hl _ dl op) by done.
  rewrite bind_ret, Hfl. cbn [truth Z.eqb negb].
  unfold rrr_websocket_receive_callback_final_step. cbn [last_receive_opcode set_receive]. rewrite Hl.
  assert (rrr_websocket_state_clear_receive (set_receive st' hl (Some ((d0 ++ concat (snd <$> mids)) ++ dl)))
    = rrr_websocket_state_clear_receive (set_opcode st op)) as Hc by exact Hs.
  assert ((op =? RRR_WEBSOCKET_OPCODE_CONNECTION_CLOSE) = false /\
    (op =? RRR_WEBSOCKET_OPCODE_PING) = false /\ (op =? RRR_WEBSOCKET_OPCODE_PONG) = false)
    as (-> & -> & ->) by (by destruct Hop as [-> | ->]).
  cbv beta iota zeta. rewrite Hc, <- app_assoc. fold message. cbn [option_list].
  destruct (Z.eqb_spec (callback op message) 0) as [->|]; done.
Qed.

Definition idle : rrr_websocket_state := mk_state zero_header None 0 0 0 0 0 [].
Definition frame_of (f op : Z) : rrr_websocket_header := mk_header f 0 0 0 op 0 2 0 0.

Lemma rrr_websocket_reassembly_witness :
  receive_frames (fun _ _ => 0) (fun _ => true) idle
    ((frame_of 0 RRR_WEBSOCKET_OPCODE_TEXT, [97]) :: [(frame_of 0 0, [98])] ++ [(frame_of 1 0, [99])])
  = Ret (0, rrr_websocket_state_clear_receive (set_opcode idle 1), [(1, [97; 98; 99])]).
Proof.
  apply (rrr_websocket_reassembly (fun _ _ => 0) (fun _ => true) idle
    (frame_of 0 RRR_WEBSOCKET_OPCODE_TEXT) [97] [(frame_of 0 0, [98])] (frame_of 1 0) [99]
    RRR_WEBSOCKET_OPCODE_TEXT);
    [done|by left|done|done|by vm_compute|repeat constructor; by vm_compute|done|done|by vm_compute].
Defined.

(** * Control frames *)

(** The effect of an acceptable control frame on a state whose reception is
    cleared. *)
Definition control_effect (st : rrr_websocket_state) (op : Z) : Z * rrr_websocket_state :=
  if op =? RRR_WEBSOCKET_OPCODE_CONNECTION_CLOSE then (RRR_READ_EOF, st)
  else if op =? RRR_WEBSOCKET_OPCODE_PING then
    let m := if truth (do_mask_outgoing_frames st) then 1 else 0 in
    (0, set_queue st (send_queue st ++
      [mk_frame (mk_header 0 0 0 0 RRR_WEBSOCKET_OPCODE_PONG m 0 0 0) None]))
  else (0, set_ping st (last_ping_time st) 0).

(** Control frames.  A close, ping or pong frame is refused with a soft
    error when its payload is longer than 125 bytes or it is not final.
    Otherwise the application is not called: a close ends the reading, a ping
    queues one pong after everything queued before, and a pong ends the waiting
    for it. *)
Lemma rrr_websocket_control_frames callback alloc st h data op :
  (forall n, alloc n = true) ->
  op = RRR_WEBSOCKET_OPCODE_CONNECTION_CLOSE \/ op = RRR_WEBSOCKET_OPCODE_PING \/
  op = RRR_WEBSOCKET_OPCODE_PONG ->
  opcode h = op ->
  interpret_frame callback alloc (set_receive st h (fragment_buffer st)) (fin h) op data
  = let st := rrr_websocket_state_clear_receive st in
    if (Z.of_nat (length data) <=? 125) && truth (fin h) then
      let '(ret, st') := control_effect (set_opcode st op) op in Ret (ret, st', None)
    else Ret (RRR_READ_SOFT_ERROR, st, None).
Proof.
  intros Ha Hop _. cbv zeta. unfold interpret_frame.
  destruct (Z.leb_spec (Z.of_nat (length data)) 125) as [Hl|Hl].
  - rewrite (proj2 (Z.ltb_ge 125 _)) by done.
    destruct (fits_length data) as [H1 H2]; [unfold fits, RRR_LENGTH_MAX; lia|]. rewrite H1, H2.
    destruct (truth (fin h)) eqn:Ef; destruct Hop as [->|[->| ->]]; simpl; try done;
      unfold rrr_websocket_receive_callback_fragmentation_step; simpl; rewrite Ef;
      unfold rrr_websocket_receive_callback_final_step, rrr_websocket_frame_enqueue; simpl;
      rewrite ?Ha; done.
  - rewrite (proj2 (Z.ltb_lt 125 _)) by done. by destruct Hop as [->|[->| ->]].
Qed.

(** * Timeouts *)

(** The inactivity timeout, for timeouts below 4295 seconds: it reports a
    timeout exactly when the last frame was received at least that long ago,
    and a connection that has received nothing yet starts counting now. *)
Lemma rrr_websocket_check_timeout_correct now st timeout_s :
  0 < timeout_s < 4295 -> 0 <= last_receive_time st -> 0 < now 0%nat <= now 1%nat ->
  last_receive_time st <= now 1%nat -> timeout_s * 1000000 <= now 1%nat < 2 ^ 64 ->
  let start := if last_receive_time st =? 0 then now 0%nat else last_receive_time st in
  rrr_websocket_check_timeout now st timeout_s
  = (if timeout_s * 1000000 <=? now 1%nat - start then 1 else 0, set_receive_time st start).
Proof.
  intros Ht Hr Hnow Hlast Hmax start. unfold rrr_websocket_check_timeout.
  rewrite (proj2 (Z.eqb_neq timeout_s 0)), (wrap_small 32 (timeout_s * 1000)) by lia.
  rewrite (wrap_small 32) by lia. rewrite (wrap_small 64) by lia. unfold start.
  destruct (Z.eqb_spec (last_receive_time st) 0) as [E|E]; cbn [last_receive_time set_receive_time].
  - destruct (Z.ltb_spec (now 1%nat - timeout_s * 1000 * 1000) (now 0%nat)),
      (Z.leb_spec (timeout_s * 1000000) (now 1%nat - now 0%nat)); try lia; done.
  - destruct (Z.ltb_spec (now 1%nat - timeout_s * 1000 * 1000) (last_receive_time st)),
      (Z.leb_spec (timeout_s * 1000000) (now 1%nat - last_receive_time st)); try lia;
      by destruct st.
Qed.

(** * Behaviour at the edges *)

(** A timeout of 4295 seconds is one of 33 milliseconds. *)
Lemma rrr_websocket_check_timeout_wraps :
  rrr_websocket_check_timeout (fun _ => 10000000000) (set_receive_time idle 9999900000) 4295
  = (1, set_receive_time idle 9999900000).
Proof. vm_compute. reflexivity. Qed.

(** A ping between two fragments: the first fragment is dropped, the rest of
    the message is taken for a ping, and the application gets nothing. *)
Lemma rrr_websocket_ping_between_fragments :
  match receive_frames (fun _ _ => 0) (fun _ => true) idle
    [(frame_of 0 RRR_WEBSOCKET_OPCODE_TEXT, [97]); (frame_of 1 RRR_WEBSOCKET_OPCODE_PING, []);
     (frame_of 1 0, [98])] with
  | Ret (ret, st, delivered) => ret = 0 /\ delivered = [] /\ length (send_queue st) = 2%nat
  | _ => False
  end.
Proof. vm_compute. auto. Qed.

(** A continuation frame with no message to continue is a message of its own,
    with the opcode of the one before. *)
Lemma rrr_websocket_stray_continuation :
  receive_frames (fun _ _ => 0) (fun _ => true) idle
    [(frame_of 1 RRR_WEBSOCKET_OPCODE_TEXT, [97]); (frame_of 1 0, [98])]
  = Ret (0, set_opcode idle 1, [(1, [97]); (1, [98])]).
Proof. vm_compute. reflexivity. Qed.

(** The sum of header and payload length wraps: a frame that states 2^64 - 6
    bytes of payload is accepted with a target of 4 bytes, less than its
    header, and interpreting it reads outside of the buffer. *)
Lemma rrr_websocket_target_size_wraps :
  match rrr_websocket_get_target_size false 1 idle
    ([0x82; 127] ++ be_enc 8 (2 ^ 64 - 6)) with
  | Ret (ret, st, target) =>
    ret = RRR_READ_OK /\ target = Some 4 /\
    rrr_websocket_receive_callback_interpret_step (fun _ _ => 0) (fun _ => true) false st
      [0x82; 127; 255; 255] = Oob
  | _ => False
  end.
Proof. vm_compute. auto. Qed.

End Websocket.
