(* ===== verification/Fifo.v ===== *)
(** The linked-list buffer of lib/fifo.c: entries live in an explicit store of
    allocated objects, so that unlinking, freeing, reference counting and the
    [prev] pointers of the loops are those of the code.  The theorems show that
    the operations on pointers implement operations on the list of entries. *)
From S2P Require Import Prelude.
From S2P Require Import Types.
From stdpp Require Import gmap list sorting.
Open Scope Z_scope.
Open Scope c_scope.

Module Fifo.

(** * Constants of fifo_common.h and fifo.h *)

Definition RRR_FIFO_OK : Z := 0.
Definition RRR_FIFO_GLOBAL_ERR : Z := 1 <<< 0.
Definition RRR_FIFO_CALLBACK_ERR : Z := 1 <<< 1.
Definition RRR_FIFO_SEARCH_KEEP : Z := 0.
Definition RRR_FIFO_SEARCH_STOP : Z := 1 <<< 3.
Definition RRR_FIFO_SEARCH_GIVE : Z := 1 <<< 4.
Definition RRR_FIFO_SEARCH_FREE : Z := 1 <<< 5.
Definition RRR_FIFO_SEARCH_REPLACE : Z := 1 <<< 6.
Definition RRR_FIFO_WRITE_AGAIN : Z := 1 <<< 10.
Definition RRR_FIFO_WRITE_DROP : Z := 1 <<< 11.
Definition RRR_FIFO_WRITE_ORDERED : Z := 1 <<< 12.
Definition RRR_FIFO_MAX_READS : Z := 500.

(** A flag of an [int] of flags. *)
Definition has (flags f : Z) : bool := truth (flags &&& f).

(** * Objects: pointers are integers, [NULL] is 0 *)

Definition NULL : Z := 0.

Record rrr_fifo_entry := mk_entry { data : Z; size : Z; order : Z; next : Z }.

Record rrr_fifo := mk_fifo { gptr_first : Z; gptr_last : Z; entry_count : Z }.

(** Calls of the buffer's [incref] and [decref] on a data pointer. *)
Inductive ref_op := Incref (p : Z) | Decref (p : Z).

#[export] Instance ref_op_eq_dec : EqDecision ref_op.
Proof. solve_decision. Defined.

(** The allocated entries, and the reference count calls made so far. *)
Record store := mk_store { mem : gmap Z rrr_fifo_entry; refs : list ref_op }.

Definition load (s : store) (a : Z) : outcome rrr_fifo_entry :=
  if a =? NULL then Oob else match mem s !! a with Some e => Ret e | None => Oob end.

Definition assign (s : store) (a : Z) (e : rrr_fifo_entry) : outcome store :=
  _ ← load s a; Ret (mk_store (<[a := e]> (mem s)) (refs s)).

Definition rrr_free (s : store) (a : Z) : outcome store :=
  _ ← load s a; Ret (mk_store (delete a (mem s)) (refs s)).

Definition log_ref (s : store) (op : ref_op) : store := mk_store (mem s) (refs s ++ [op]).

Definition set_data_size (e : rrr_fifo_entry) (d n : Z) : rrr_fifo_entry :=
  mk_entry d n (order e) (next e).
Definition set_order (e : rrr_fifo_entry) (o : Z) : rrr_fifo_entry :=
  mk_entry (data e) (size e) o (next e).
Definition set_next (s : store) (a n : Z) : outcome store :=
  e ← load s a; assign s a (mk_entry (data e) (size e) (order e) n).

Definition set_first (b : rrr_fifo) (a : Z) : rrr_fifo := mk_fifo a (gptr_last b) (entry_count b).
Definition set_gptr_last (b : rrr_fifo) (a : Z) : rrr_fifo :=
  mk_fifo (gptr_first b) a (entry_count b).
Definition set_count (b : rrr_fifo) (n : Z) : rrr_fifo := mk_fifo (gptr_first b) (gptr_last b) n.

(** * Entries *)

Definition rrr_fifo_entry_incref_data (s : store) (entry : Z) : outcome store :=
  e ← load s entry;
  Ret (if negb (data e =? NULL) then log_ref s (Incref (data e)) else s).

Definition rrr_fifo_entry_decref_data (s : store) (entry : Z) : outcome store :=
  e ← load s entry;
  if negb (data e =? NULL)
  then assign (log_ref s (Decref (data e))) entry (set_data_size e NULL (size e))
  else Ret s.

Definition rrr_fifo_entry_destroy (s : store) (entry : Z) : outcome store :=
  s ← rrr_fifo_entry_decref_data s entry;
  rrr_free s entry.

Definition rrr_fifo_entry_release_data (s : store) (entry : Z) : outcome store :=
  e ← load s entry;
  assign s entry (set_data_size e NULL 0).

(** [a] is the address the allocator returns.  The status, the new store and
    [*result]. *)
Definition rrr_fifo_entry_new (a : Z) (s : store) : Z * store * Z :=
  if a =? NULL then (1, s, NULL)
  else (0, mk_store (<[a := mk_entry NULL 0 0 NULL]> (mem s)) (refs s), a).

Definition rrr_fifo_init_custom_refcount : rrr_fifo := mk_fifo NULL NULL 0.
Definition rrr_fifo_init : rrr_fifo := rrr_fifo_init_custom_refcount.

Definition rrr_fifo_get_entry_count (b : rrr_fifo) : Z := entry_count b.

(** Enough rounds for any walk through allocated entries. *)
Definition walk_fuel (s : store) : nat := S (base.size (mem s)).

Section Clear.
Context {St : Type}.
(** What the callback of a clear does: the status, its own state, and the data
    pointer it leaves in the entry. *)
Context (callback : option (St -> Z -> Z -> Z * St * Z)).

Fixpoint clear_loop (fuel : nat) (s : store) (entry : Z) (st : St) : outcome (store * St) :=
  if entry =? NULL then Ret (s, st) else
  match fuel with
  | O => Bug
  | S fuel =>
    e ← load s entry;
    let next := next e in
    '(s, st) ← (match callback with
      | Some callback =>
        let '(ret_tmp, st, d) := callback st (data e) (size e) in
        if negb (ret_tmp =? RRR_FIFO_OK) then Bug
        else s ← assign s entry (set_data_size e d (size e)); Ret (s, st)
      | None => Ret (s, st)
      end);
    s ← rrr_fifo_entry_destroy s entry;
    clear_loop fuel s next st
  end.

Definition rrr_fifo_clear_with_callback (s : store) (b : rrr_fifo) (st : St)
  : outcome (store * rrr_fifo * St) :=
  '(s, st) ← clear_loop (walk_fuel s) s (gptr_first b) st;
  Ret (s, mk_fifo NULL NULL 0, st).
End Clear.

Definition rrr_fifo_clear (s : store) (b : rrr_fifo) : outcome (store * rrr_fifo) :=
  '(s, b, _) ← rrr_fifo_clear_with_callback None s b tt; Ret (s, b).

Definition rrr_fifo_destroy (s : store) (b : rrr_fifo) : outcome (store * rrr_fifo) :=
  '(s, b, _) ← rrr_fifo_clear_with_callback None s b tt; Ret (s, b).

(** The status, and [do_keep], [do_give], [do_free], [do_stop]. *)
Definition rrr_fifo_search_return_value_process (actions : Z)
  : outcome (Z * (bool * bool * bool * bool)) :=
  if actions =? RRR_FIFO_SEARCH_KEEP then Ret (RRR_FIFO_OK, (true, false, false, false))
  else if has actions RRR_FIFO_CALLBACK_ERR
  then Ret (RRR_FIFO_CALLBACK_ERR, (false, false, false, false))
  else
    let do_give := has actions RRR_FIFO_SEARCH_GIVE in
    let do_free := do_give && has actions RRR_FIFO_SEARCH_FREE in
    let do_stop := has actions RRR_FIFO_SEARCH_STOP in
    if negb do_free && negb do_stop then Bug
    else Ret (RRR_FIFO_OK, (false, do_give, do_free, do_stop)).

(** * Searching *)

(** Take [entry] out of the list, [prev] being the entry before it. *)
Definition unlink (s : store) (b : rrr_fifo) (prev entry : Z) : outcome (store * rrr_fifo) :=
  e ← load s entry;
  let b := if entry =? gptr_first b then set_first b (next e) else b in
  let b := if entry =? gptr_last b then set_gptr_last b prev else b in
  s ← (if negb (prev =? NULL) then set_next s prev (next e) else Ret s);
  Ret (s, b).

(** What [GIVE] does to the data: unless [FREE] is asked for too, the pointer is
    forgotten without a [decref]. *)
Definition release_unless_free (s : store) (actions entry : Z) : outcome store :=
  if negb (has actions RRR_FIFO_SEARCH_FREE) then rrr_fifo_entry_release_data s entry
  else Ret s.

Section Search.
Context {St : Type} (callback : St -> Z -> Z -> Z * St).

(** The status, the store, the buffer, [cleared_entries] and the callback's state. *)
Fixpoint search_loop (fuel : nat) (s : store) (b : rrr_fifo) (prev entry cleared_entries : Z)
    (st : St) : outcome (Z * store * rrr_fifo * Z * St) :=
  if entry =? NULL then Ret (0, s, b, cleared_entries, st) else
  match fuel with
  | O => Bug
  | S fuel =>
    e ← load s entry;
    let next := next e in
    let '(actions, st) := callback st (data e) (size e) in
    if actions =? RRR_FIFO_SEARCH_KEEP then search_loop fuel s b entry next cleared_entries st
    else if has actions RRR_FIFO_CALLBACK_ERR
    then Ret (RRR_FIFO_CALLBACK_ERR, s, b, cleared_entries, st)
    else
      '(s, b, entry, cleared_entries, did_something) ←
        (if has actions RRR_FIFO_SEARCH_GIVE then
           '(s, b) ← unlink s b prev entry;
           cleared_entries ← Types.rrr_length_inc_bug cleared_entries;
           s ← release_unless_free s actions entry;
           s ← rrr_fifo_entry_destroy s entry;
           Ret (s, b, prev, cleared_entries, true)
         else Ret (s, b, entry, cleared_entries, false));
      if has actions RRR_FIFO_SEARCH_STOP then Ret (0, s, b, cleared_entries, st)
      else if negb did_something then Bug
      else search_loop fuel s b entry next cleared_entries st
  end.

Definition rrr_fifo_search (s : store) (b : rrr_fifo) (st : St)
  : outcome (Z * store * rrr_fifo * St) :=
  if rrr_fifo_get_entry_count b =? 0 then Ret (0, s, b, st)
  else
    '(ret, s, b, cleared_entries, st) ←
      search_loop (walk_fuel s) s b NULL (gptr_first b) 0 st;
    count ← Types.rrr_length_sub_bug (entry_count b) cleared_entries;
    Ret (ret, s, set_count b count, st).
End Search.

(** * Writing *)

(** The status, [do_ordered_write], [write_again] and [do_drop]. *)
Definition rrr_fifo_write_callback_return_check (ret_to_check : Z)
  : outcome (Z * bool * bool * bool) :=
  let others m := truth (ret_to_check &&& Z.lnot m) in
  let allowed := RRR_FIFO_WRITE_AGAIN ||| RRR_FIFO_WRITE_ORDERED ||| RRR_FIFO_WRITE_DROP in
  if ret_to_check =? 0 then Ret (0, false, false, false)
  else
    let do_ordered_write := ret_to_check &&& RRR_FIFO_WRITE_ORDERED =? RRR_FIFO_WRITE_ORDERED in
    if do_ordered_write && others allowed then Bug
    else
      let write_again := ret_to_check &&& RRR_FIFO_WRITE_AGAIN =? RRR_FIFO_WRITE_AGAIN in
      if write_again && others allowed then Bug
      else if ret_to_check &&& RRR_FIFO_GLOBAL_ERR =? RRR_FIFO_GLOBAL_ERR then
        if others RRR_FIFO_GLOBAL_ERR then Bug else Ret (1, do_ordered_write, write_again, false)
      else if ret_to_check &&& RRR_FIFO_WRITE_DROP =? RRR_FIFO_WRITE_DROP then
        if others (RRR_FIFO_WRITE_DROP ||| RRR_FIFO_WRITE_AGAIN) then Bug
        else Ret (0, do_ordered_write, write_again, true)
      else if others allowed then Bug
      else Ret (0, do_ordered_write, write_again, false).

(** The walk to the first entry whose order is not below [order]: that entry
    and the one before it. *)
Fixpoint ordered_walk (fuel : nat) (s : store) (order prev pos : Z) : outcome (Z * Z) :=
  if pos =? NULL then Ret (prev, pos) else
  match fuel with
  | O => Bug
  | S fuel =>
    e ← load s pos;
    if Fifo.order e <? order then ordered_walk fuel s order pos (next e) else Ret (prev, pos)
  end.

Definition insert_at_end (s : store) (b : rrr_fifo) (entry : Z) : outcome (store * rrr_fifo) :=
  s ← set_next s (gptr_last b) entry;
  s ← set_next s entry NULL;
  Ret (s, set_gptr_last b entry).

Definition rrr_fifo_write_update_pointers (s : store) (b : rrr_fifo) (entry order : Z)
    (do_ordered_write : bool) : outcome (store * rrr_fifo) :=
  let pos := gptr_first b in
  e ← load s entry;
  s ← assign s entry (set_order e order);
  if pos =? NULL then
    s ← set_next s entry NULL;
    Ret (s, mk_fifo entry entry (entry_count b))
  else if do_ordered_write then
    el ← load s (gptr_last b);
    if Fifo.order el <? order then insert_at_end s b entry
    else
      '(prev, pos) ← ordered_walk (walk_fuel s) s order NULL pos;
      if pos =? NULL then insert_at_end s b entry
      else if negb (prev =? NULL) then
        s ← set_next s prev entry;
        s ← set_next s entry pos;
        Ret (s, b)
      else
        s ← set_next s entry (gptr_first b);
        Ret (s, set_first b entry)
  else insert_at_end s b entry.

Section Write.
Context {St : Type}.
(** A call of the callback: its flags, its state, and the data pointer, size and
    order it leaves in the places it is given. *)
Context (callback : St -> Z -> Z -> Z -> Z * St * (Z * Z * Z)).
(** The address that allocation [n] yields in memory [m], [NULL] when it fails. *)
Context (malloc : nat -> gmap Z rrr_fifo_entry -> Z).

(** One round of the writing loops, which are the same but for the order of the
    entry: only [rrr_fifo_write] honours [WRITE_ORDERED].  The status,
    [write_again], the store, the buffer and the callback's state. *)
Definition write_round (honour_order : bool) (n : nat) (s : store) (b : rrr_fifo) (st : St)
  : outcome (Z * bool * store * rrr_fifo * St) :=
  let '(ret, s, entry) := rrr_fifo_entry_new (malloc n (mem s)) s in
  if negb (ret =? 0) then Ret (1, false, s, b, st)
  else
    e ← load s entry;
    let '(ret, st, (d, sz, order)) := callback st (data e) (size e) 0 in
    s ← assign s entry (set_data_size e d sz);
    '(ret, do_ordered_write, write_again, do_drop) ← rrr_fifo_write_callback_return_check ret;
    if negb (ret =? 0) || do_drop then s ← rrr_free s entry; Ret (ret, write_again, s, b, st)
    else if d =? NULL then Bug
    else
      s ← rrr_fifo_entry_incref_data s entry;
      '(s, b) ← rrr_fifo_write_update_pointers s b entry order
        (honour_order && do_ordered_write);
      let '(ret, count) := Types.rrr_length_inc_err (entry_count b) in
      Ret (ret, write_again, s, set_count b count, st).

(** The loop; [fuel] bounds the rounds, which the callback decides. *)
Fixpoint write_loop (fuel n : nat) (s : store) (b : rrr_fifo) (st : St)
  : outcome (Z * store * rrr_fifo * St) :=
  match fuel with
  | O => Bug
  | S fuel =>
    '(ret, write_again, s, b, st) ← write_round true n s b st;
    if write_again : bool then write_loop fuel (S n) s b st else Ret (ret, s, b, st)
  end.

Definition rrr_fifo_write (fuel : nat) (s : store) (b : rrr_fifo) (st : St)
  : outcome (Z * store * rrr_fifo * St) := write_loop fuel 0 s b st.

(** Rounds while the status is 0 and the callback asks for another. *)
Fixpoint rrr_fifo_search_and_replace_call_again (fuel n : nat) (s : store) (b : rrr_fifo)
    (st : St) : outcome (Z * store * rrr_fifo * St) :=
  match fuel with
  | O => Bug
  | S fuel =>
    '(ret, do_loop, s, b, st) ← write_round false n s b st;
    if (ret =? 0) && do_loop then rrr_fifo_search_and_replace_call_again fuel (S n) s b st
    else Ret (ret, s, b, st)
  end.

(** [REPLACE]: the entry gets the data, size and order the callback left. *)
Definition replace_entry (s : store) (b : rrr_fifo) (entry d sz o : Z)
  : outcome (Z * store * rrr_fifo) :=
  e ← load s entry;
  if data e =? d then Bug
  else
    s ← rrr_fifo_entry_decref_data s entry;
    e ← load s entry;
    s ← assign s entry (mk_entry d sz o (next e));
    s ← rrr_fifo_entry_incref_data s entry;
    let '(ret, count) := Types.rrr_length_inc_err (entry_count b) in
    if negb (ret =? 0) then Ret (ret, s, set_count b count)
    else count ← Types.rrr_length_dec_bug count; Ret (0, s, set_count b count).

(** The loop of [rrr_fifo_search_and_replace]; the flag tells that the function
    returns at once ([goto out]). *)
Fixpoint replace_loop (fuel : nat) (s : store) (b : rrr_fifo) (prev entry : Z) (st : St)
  : outcome (Z * bool * store * rrr_fifo * St) :=
  if entry =? NULL then Ret (0, false, s, b, st) else
  match fuel with
  | O => Bug
  | S fuel =>
    e ← load s entry;
    let next := next e in
    let '(actions, st, (d, sz, o)) := callback st (data e) (size e) (order e) in
    if actions =? RRR_FIFO_SEARCH_KEEP then replace_loop fuel s b entry next st
    else if has actions RRR_FIFO_CALLBACK_ERR
    then Ret (RRR_FIFO_CALLBACK_ERR, false, s, b, st)
    else if has actions (RRR_FIFO_SEARCH_REPLACE ||| RRR_FIFO_SEARCH_GIVE) then
      s ← release_unless_free s actions entry;
      '(ret, s, b) ←
        (if has actions RRR_FIFO_SEARCH_GIVE then
           if has actions RRR_FIFO_SEARCH_REPLACE then Bug
           else
             '(s, b) ← unlink s b prev entry;
             s ← rrr_fifo_entry_destroy s entry;
             count ← Types.rrr_length_dec_bug (entry_count b);
             Ret (0, s, set_count b count)
         else replace_entry s b entry d sz o);
      if negb (ret =? 0) then Ret (ret, true, s, b, st)
      else if has actions RRR_FIFO_SEARCH_STOP then Ret (0, false, s, b, st)
      else replace_loop fuel s b prev next st
    else if has actions RRR_FIFO_SEARCH_STOP then Ret (0, false, s, b, st)
    else Bug
  end.

Definition rrr_fifo_search_and_replace (fuel : nat) (s : store) (b : rrr_fifo) (st : St)
    (call_again_after_looping : bool) : outcome (Z * store * rrr_fifo * St) :=
  '(ret, out, s, b, st) ← replace_loop (walk_fuel s) s b NULL (gptr_first b) st;
  if negb out && (ret =? RRR_FIFO_OK) && call_again_after_looping
  then rrr_fifo_search_and_replace_call_again fuel 0 s b st
  else Ret (ret, s, b, st).
End Write.

(** * Reading *)

Section Read.
Context {St : Type} (callback : St -> Z -> Z -> Z * St).

(** [FREE] or not, the data leaves the entry when the callback returns flags. *)
Definition forward_release (s : store) (ret_tmp current : Z) : outcome (Z * store) :=
  if has ret_tmp RRR_FIFO_SEARCH_FREE then
    s ← rrr_fifo_entry_decref_data s current;
    Ret (ret_tmp &&& Z.lnot RRR_FIFO_SEARCH_FREE, s)
  else s ← rrr_fifo_entry_release_data s current; Ret (ret_tmp, s).

(** The loop of [rrr_fifo_read_clear_forward_all] on the entries taken from the
    buffer; the status, the store, the buffer, [processed_entries] and the
    callback's state. *)
Fixpoint forward_loop (fuel : nat) (last_element : Z) (s : store) (b : rrr_fifo)
    (current processed_entries ret : Z) (st : St) : outcome (Z * store * rrr_fifo * Z * St) :=
  if current =? NULL then Ret (ret, s, b, processed_entries, st) else
  match fuel with
  | O => Bug
  | S fuel =>
    e ← load s current;
    let next := next e in
    let '(ret_tmp, st) := callback st (data e) (size e) in
    processed_entries ← Types.rrr_length_inc_bug processed_entries;
    if ret_tmp =? 0 then
      s ← rrr_fifo_entry_release_data s current;
      s ← rrr_fifo_entry_destroy s current;
      forward_loop fuel last_element s b next processed_entries ret st
    else
      '(ret_tmp, s) ← forward_release s ret_tmp current;
      if has ret_tmp RRR_FIFO_SEARCH_GIVE then Bug
      else
        let ret := if has ret_tmp RRR_FIFO_CALLBACK_ERR
                   then ret ||| RRR_FIFO_CALLBACK_ERR else ret in
        let ret := if has ret_tmp RRR_FIFO_GLOBAL_ERR
                   then ret ||| RRR_FIFO_GLOBAL_ERR else ret in
        if has ret_tmp (RRR_FIFO_SEARCH_STOP ||| RRR_FIFO_CALLBACK_ERR ||| RRR_FIFO_GLOBAL_ERR)
        then
          '(s, b) ← (if next =? NULL then Ret (s, b)
            else
              s ← set_next s last_element (gptr_first b);
              let b := set_first b next in
              Ret (s, if gptr_last b =? NULL then set_gptr_last b last_element else b));
          s ← rrr_fifo_entry_destroy s current;
          Ret (ret_tmp &&& Z.lnot RRR_FIFO_SEARCH_STOP, s, b, processed_entries, st)
        else if truth (ret_tmp &&& Z.lnot (RRR_FIFO_SEARCH_GIVE ||| RRR_FIFO_SEARCH_FREE |||
             RRR_FIFO_SEARCH_STOP ||| RRR_FIFO_CALLBACK_ERR ||| RRR_FIFO_GLOBAL_ERR)) then Bug
        else
          s ← rrr_fifo_entry_release_data s current;
          s ← rrr_fifo_entry_destroy s current;
          forward_loop fuel last_element s b next processed_entries ret st
  end.

Definition rrr_fifo_read_clear_forward_all (s : store) (b : rrr_fifo) (st : St)
  : outcome (Z * store * rrr_fifo * St) :=
  if rrr_fifo_get_entry_count b =? 0 then Ret (RRR_FIFO_OK, s, b, st)
  else
    '(ret, s, b, processed_entries, st) ←
      forward_loop (walk_fuel s) (gptr_last b) s (mk_fifo NULL NULL (entry_count b))
        (gptr_first b) 0 RRR_FIFO_OK st;
    count ← Types.rrr_length_sub_bug (entry_count b) processed_entries;
    Ret (ret, s, set_count b count, st).

Fixpoint read_loop (fuel : nat) (s : store) (first ret : Z) (st : St) : outcome (Z * St) :=
  if first =? NULL then Ret (ret, st) else
  match fuel with
  | O => Bug
  | S fuel =>
    e ← load s first;
    let '(ret_tmp, st) := callback st (data e) (size e) in
    if ret_tmp =? 0 then read_loop fuel s (next e) ret st
    else if has ret_tmp RRR_FIFO_SEARCH_STOP
    then Ret (ret ||| (ret_tmp &&& Z.lnot RRR_FIFO_SEARCH_STOP), st)
    else if has ret_tmp (RRR_FIFO_SEARCH_GIVE ||| RRR_FIFO_SEARCH_FREE) then Bug
    else if has ret_tmp RRR_FIFO_GLOBAL_ERR then Ret (RRR_FIFO_GLOBAL_ERR, st)
    else if truth (ret_tmp &&& Z.lnot (RRR_FIFO_SEARCH_GIVE ||| RRR_FIFO_SEARCH_FREE |||
         RRR_FIFO_SEARCH_STOP ||| RRR_FIFO_CALLBACK_ERR ||| RRR_FIFO_GLOBAL_ERR)) then Bug
    else read_loop fuel s (next e) (ret ||| ret_tmp) st
  end.

Definition rrr_fifo_read (s : store) (b : rrr_fifo) (st : St) : outcome (Z * St) :=
  if rrr_fifo_get_entry_count b =? 0 then Ret (RRR_FIFO_OK, st)
  else read_loop (walk_fuel s) s (gptr_first b) RRR_FIFO_OK st.

Fixpoint read_minimum_loop (fuel : nat) (s : store) (last_element minimum_order first : Z)
    (processed_entries : Z) (st : St) : outcome (Z * St) :=
  if first =? NULL then Ret (RRR_FIFO_OK, st) else
  match fuel with
  | O => Bug
  | S fuel =>
    e ← load s first;
    if minimum_order <? order e then
      let '(res, st) := callback st (data e) (size e) in
      let processed_entries := processed_entries + 1 in
      if (processed_entries =? RRR_FIFO_MAX_READS) || (first =? last_element)
      then Ret (RRR_FIFO_OK, st)
      else if res =? RRR_FIFO_OK
      then read_minimum_loop fuel s last_element minimum_order (next e) processed_entries st
      else if has res RRR_FIFO_SEARCH_STOP then Ret (res &&& Z.lnot RRR_FIFO_SEARCH_STOP, st)
      else if has res (RRR_FIFO_SEARCH_GIVE ||| RRR_FIFO_SEARCH_FREE) then Bug
      else Ret (res, st)
    else read_minimum_loop fuel s last_element minimum_order (next e) processed_entries st
  end.

Definition rrr_fifo_read_minimum (s : store) (b : rrr_fifo) (last_element minimum_order : Z)
    (st : St) : outcome (Z * St) :=
  if rrr_fifo_get_entry_count b =? 0 then Ret (RRR_FIFO_OK, st)
  else read_minimum_loop (walk_fuel s) s last_element minimum_order (gptr_first b) 0 st.
End Read.

(** The status, the store, the target and the source. *)
Definition rrr_fifo_merge (s : store) (buffer_target buffer_source : rrr_fifo)
  : outcome (Z * store * rrr_fifo * rrr_fifo) :=
  if entry_count buffer_source =? 0 then Ret (0, s, buffer_target, buffer_source)
  else
    let '(err, count) :=
      Types.rrr_length_add_err (entry_count buffer_target) (entry_count buffer_source) in
    let buffer_target := set_count buffer_target count in
    if negb (err =? 0) then Ret (1, s, buffer_target, buffer_source)
    else
      '(s, buffer_target) ← (if truth (gptr_last buffer_target)
        then s ← set_next s (gptr_last buffer_target) (gptr_first buffer_source);
             Ret (s, buffer_target)
        else Ret (s, set_first buffer_target (gptr_first buffer_source)));
      Ret (0, s, set_gptr_last buffer_target (gptr_last buffer_source), mk_fifo NULL NULL 0).

(** * The list of entries a buffer represents *)

Record item := mk_item { i_addr : Z; i_data : Z; i_size : Z; i_order : Z }.

Definition entry_of (x : item) (n : Z) : rrr_fifo_entry :=
  mk_entry (i_data x) (i_size x) (i_order x) n.

Abbreviation addrs := (map i_addr).

(** The address of the first item, or [q]. *)
Definition head_or (q : Z) (l : list item) : Z :=
  match l with [] => q | x :: _ => i_addr x end.

Definition last_addr (l : list item) : Z := List.last (addrs l) NULL.

(** The entries of [l] are in memory, linked in this order, the last one to [q]. *)
Fixpoint chain (m : gmap Z rrr_fifo_entry) (l : list item) (q : Z) : Prop :=
  match l with
  | [] => True
  | x :: r => m !! i_addr x = Some (entry_of x (head_or q r)) /\ chain m r q
  end.

Definition linked (m : gmap Z rrr_fifo_entry) (b : rrr_fifo) (l : list item) : Prop :=
  NoDup (addrs l) /\ Forall (fun a => a <> NULL) (addrs l) /\ chain m l NULL /\
  gptr_first b = head_or NULL l /\ gptr_last b = last_addr l.

(** The buffer holds [l], and its counter is [d] above the number of entries. *)
Definition counted (d : Z) (s : store) (b : rrr_fifo) (l : list item) : Prop :=
  linked (mem s) b l /\ entry_count b = Z.of_nat (length l) + d /\ 0 <= d /\
  Z.of_nat (length l) + d < 2 ^ 32.

(** The buffer holds [l] and its counter says so. *)
Definition holds (s : store) (b : rrr_fifo) (l : list item) : Prop := counted 0 s b l.

(** An operation that takes the list from [l] to [l'] frees the entries it
    removes and leaves the rest of memory alone. *)
Definition memory_step (m : gmap Z rrr_fifo_entry) (l : list item)
    (m' : gmap Z rrr_fifo_entry) (l' : list item) : Prop :=
  forall a, a ∉ addrs l' -> m' !! a = if decide (a ∈ addrs l) then None else m !! a.

(** Equality of results up to arithmetic. *)
Ltac ret_lia :=
  repeat match goal with
  | |- Ret _ = Ret _ => f_equal
  | |- (_, _) = (_, _) => f_equal
  end; try done; lia.

(** * Lemmas on chains *)

Lemma head_or_app q k r : head_or q (k ++ r) = head_or (head_or q r) k.
Proof. by destruct k. Qed.

Lemma snoc_app {A} (k : list A) x r : (k ++ [x]) ++ r = k ++ x :: r.
Proof. by rewrite <- app_assoc. Qed.

Lemma chain_app m k r q : chain m (k ++ r) q <-> chain m k (head_or q r) /\ chain m r q.
Proof.
  induction k as [|x k IH]; simpl; [naive_solver|]. rewrite IH, head_or_app. naive_solver.
Qed.

Lemma chain_ext m m' l q :
  (forall a, a ∈ addrs l -> m' !! a = m !! a) -> chain m l q -> chain m' l q.
Proof.
  induction l as [|x l IH]; simpl; [done|]. intros H [H1 H2]. split.
  - by rewrite H by set_solver.
  - apply IH; [|done]. intros a Ha. apply H. set_solver.
Qed.

Lemma last_addr_snoc k x : last_addr (k ++ [x]) = i_addr x.
Proof. unfold last_addr. rewrite map_app. apply List.last_last. Qed.

Lemma last_addr_app k x r : last_addr (k ++ x :: r) = last_addr (x :: r).
Proof.
  induction r as [|y r _] using rev_ind; [by rewrite last_addr_snoc|].
  by rewrite !app_comm_cons, !app_assoc, !last_addr_snoc.
Qed.

Lemma last_addr_in l : l <> [] -> last_addr l ∈ addrs l.
Proof.
  induction l as [|x l _] using rev_ind; [done|]. intros _.
  rewrite last_addr_snoc, map_app. set_solver.
Qed.

Lemma linked_addr m b k x r : linked m b (k ++ x :: r) ->
  i_addr x <> NULL /\ i_addr x ∉ addrs k /\ i_addr x ∉ addrs r /\
  m !! i_addr x = Some (entry_of x (head_or NULL r)).
Proof.
  intros (Hn & H0 & Hc & _ & _). rewrite map_app in Hn, H0. simpl in *.
  apply NoDup_app in Hn as (_ & Hd & Hn). apply NoDup_cons in Hn as [Hx _].
  apply Forall_app in H0 as [_ H0]. apply Forall_cons in H0 as [H0 _].
  apply chain_app in Hc as [_ [Hc _]]. split_and!; [done| |done|done].
  intros Hk. apply (Hd _ Hk). set_solver.
Qed.

Lemma linked_length m b l : linked m b l -> (length l <= base.size m)%nat.
Proof.
  intros (Hn & _ & Hc & _). rewrite <- (length_map i_addr l).
  rewrite <- (size_list_to_set (C := gset Z) (addrs l)) by done.
  rewrite <- size_dom. apply subseteq_size. intros a Ha.
  rewrite elem_of_list_to_set in Ha. apply elem_of_dom. clear Hn.
  induction l as [|x l IH]; [set_solver|]. simpl in *. destruct Hc as [Hx Hc].
  apply elem_of_cons in Ha as [->|Ha]; [by eexists|by apply IH].
Qed.

Lemma load_linked s b k x r : linked (mem s) b (k ++ x :: r) ->
  load s (i_addr x) = Ret (entry_of x (head_or NULL r)).
Proof.
  intros H. destruct (linked_addr _ _ _ _ _ H) as (H0 & _ & _ & Hx).
  unfold load. apply Z.eqb_neq in H0. by rewrite H0, Hx.
Qed.

Lemma load_Some s a e : a <> NULL -> mem s !! a = Some e -> load s a = Ret e.
Proof. intros H0 H. unfold load. apply Z.eqb_neq in H0. by rewrite H0, H. Qed.

Lemma assign_Some s a e e' : a <> NULL -> mem s !! a = Some e ->
  assign s a e' = Ret (mk_store (<[a := e']> (mem s)) (refs s)).
Proof. intros H0 H. unfold assign. by rewrite (load_Some _ _ _ H0 H). Qed.

Lemma set_next_Some s a e n : a <> NULL -> mem s !! a = Some e ->
  set_next s a n =
    Ret (mk_store (<[a := mk_entry (data e) (size e) (order e) n]> (mem s)) (refs s)).
Proof.
  intros H0 H. unfold set_next. rewrite (load_Some _ _ _ H0 H). simpl.
  by rewrite (assign_Some _ _ _ _ H0 H).
Qed.

(** What destroying an entry with this data pointer logs. *)
Definition decref_op (d : Z) : list ref_op := if d =? NULL then [] else [Decref d].
Definition incref_op (d : Z) : list ref_op := if d =? NULL then [] else [Incref d].

Lemma destroy_Some s a e : a <> NULL -> mem s !! a = Some e ->
  rrr_fifo_entry_destroy s a = Ret (mk_store (delete a (mem s)) (refs s ++ decref_op (data e))).
Proof.
  intros H0 H. unfold rrr_fifo_entry_destroy, rrr_fifo_entry_decref_data, decref_op.
  rewrite (load_Some _ _ _ H0 H). simpl. destruct (data e =? NULL); simpl.
  - unfold rrr_free. rewrite (load_Some _ _ _ H0 H), app_nil_r. done.
  - rewrite (assign_Some (log_ref s _) _ _ _ H0 H). simpl. unfold rrr_free.
    rewrite (load_Some _ _ (set_data_size e NULL (size e))); [|done|by simplify_map_eq].
    simpl. by rewrite delete_insert_eq.
Qed.

Lemma release_Some s a e : a <> NULL -> mem s !! a = Some e ->
  rrr_fifo_entry_release_data s a =
    Ret (mk_store (<[a := set_data_size e NULL 0]> (mem s)) (refs s)).
Proof.
  intros H0 H. unfold rrr_fifo_entry_release_data. rewrite (load_Some _ _ _ H0 H). simpl.
  by rewrite (assign_Some _ _ _ _ H0 H).
Qed.

(** Giving an entry away, with or without freeing its data. *)
Definition give_op (actions d : Z) : list ref_op :=
  if has actions RRR_FIFO_SEARCH_FREE then decref_op d else [].

Lemma release_destroy s actions a e : a <> NULL -> mem s !! a = Some e ->
  exists s1, release_unless_free s actions a = Ret s1 /\ rrr_fifo_entry_destroy s1 a =
    Ret (mk_store (delete a (mem s)) (refs s ++ give_op actions (data e))).
Proof.
  intros H0 H. unfold release_unless_free, give_op.
  destruct (has actions RRR_FIFO_SEARCH_FREE); simpl.
  - eexists. split; [done|]. by rewrite (destroy_Some _ _ _ H0 H).
  - rewrite (release_Some _ _ _ H0 H). eexists. split; [done|].
    rewrite (destroy_Some _ _ (set_data_size e NULL 0)); [|done|by simplify_map_eq].
    simpl. by rewrite delete_insert_eq.
Qed.

(** * Taking an entry out of the list *)

Lemma addrs_middle k x r : addrs (k ++ x :: r) ≡ₚ i_addr x :: addrs (k ++ r).
Proof. rewrite !map_app. simpl. by rewrite Permutation_middle. Qed.

Lemma last_addr_skip k x r : r <> [] -> last_addr (k ++ x :: r) = last_addr (k ++ r).
Proof.
  intros Hr. destruct r as [|y r]; [done|].
  change (k ++ x :: y :: r) with (k ++ [x] ++ y :: r). by rewrite app_assoc, !last_addr_app.
Qed.

Lemma head_or_in q l : l <> [] -> head_or q l ∈ addrs l.
Proof. destruct l; [done|]. intros _. simpl. set_solver. Qed.

(** Relinking the last entry of a chain. *)
Lemma chain_relink m k y q q' : i_addr y ∉ addrs k -> chain m (k ++ [y]) q ->
  chain (<[i_addr y := entry_of y q']> m) (k ++ [y]) q'.
Proof.
  intros Hy. rewrite !chain_app. simpl. intros [Hk _]. split.
  - eapply chain_ext; [|exact Hk]. intros a Ha. apply lookup_insert_ne. set_solver.
  - by rewrite lookup_insert_eq.
Qed.

Lemma linked_parts m b k x r : linked m b (k ++ x :: r) ->
  NoDup (addrs (k ++ r)) /\ Forall (fun a => a <> NULL) (addrs (k ++ r)) /\
  i_addr x <> NULL /\ i_addr x ∉ addrs (k ++ r).
Proof.
  intros (Hn & H0 & _). rewrite addrs_middle in Hn, H0.
  apply NoDup_cons in Hn as [? ?]. apply Forall_cons in H0 as [? ?]. done.
Qed.

Lemma unlink_pointers b k x r : i_addr x ∉ addrs (k ++ r) ->
  gptr_first b = head_or NULL (k ++ x :: r) -> gptr_last b = last_addr (k ++ x :: r) ->
  let b1 := if i_addr x =? gptr_first b then set_first b (head_or NULL r) else b in
  let b2 := if i_addr x =? gptr_last b1 then set_gptr_last b1 (last_addr k) else b1 in
  gptr_first b2 = head_or NULL (k ++ r) /\ gptr_last b2 = last_addr (k ++ r) /\
  entry_count b2 = entry_count b.
Proof.
  intros Hx Hf Hl. simpl.
  assert (gptr_last (if i_addr x =? gptr_first b then set_first b (head_or NULL r) else b) =
    gptr_last b) as -> by (by destruct (_ =? _)).
  assert ((i_addr x =? gptr_first b) = bool_decide (k = [])) as ->.
  { rewrite Hf. destruct k as [|y k]; simpl; [by rewrite Z.eqb_refl|].
    apply Z.eqb_neq. intros E. apply Hx. simpl. rewrite E. set_solver. }
  assert ((i_addr x =? gptr_last b) = bool_decide (r = [])) as ->.
  { rewrite Hl. destruct r as [|y r].
    - rewrite last_addr_snoc. apply Z.eqb_refl.
    - apply Z.eqb_neq. rewrite last_addr_skip by done. intros E. apply Hx. rewrite E.
      apply last_addr_in. by destruct k. }
  destruct (decide (k = [])) as [->|Hk], (decide (r = [])) as [->|Hr];
    rewrite ?bool_decide_true, ?bool_decide_false by done; simpl.
  - done.
  - rewrite Hl. split_and!; try done. by apply (last_addr_skip []).
  - rewrite app_nil_r, Hf. split_and!; try done. by destruct k.
  - rewrite Hl, Hf. split_and!; try done; [by destruct k|]. by apply last_addr_skip.
Qed.

Lemma unlink_linked s b k x r : linked (mem s) b (k ++ x :: r) ->
  exists s' b', unlink s b (last_addr k) (i_addr x) = Ret (s', b') /\
    refs s' = refs s /\ entry_count b' = entry_count b /\
    linked (delete (i_addr x) (mem s')) b' (k ++ r) /\
    (forall a, a ∉ addrs (k ++ r) -> mem s' !! a = mem s !! a).
Proof.
  intros H. destruct (linked_parts _ _ _ _ _ H) as (Hn & H0 & Hx0 & Hx).
  pose proof (load_linked _ _ _ _ _ H) as Hload.
  destruct H as (_ & _ & Hc & Hf & Hl).
  pose proof (unlink_pointers b k x r Hx Hf Hl) as Hp. simpl in Hp.
  unfold unlink. rewrite Hload. cbn [mbind outcome_bind next entry_of].
  set (b2 := if i_addr x =? gptr_last _ then _ else _) in *. clearbody b2.
  destruct Hp as (Hf2 & Hl2 & Hc2). apply chain_app in Hc as [Hk [_ Hr]].
  destruct k as [|y k _] using rev_ind.
  - change (negb (last_addr [] =? NULL)) with false. simpl. eexists s, b2.
    split_and!; try done. split_and!; try done. eapply chain_ext; [|exact Hr].
    intros a Ha. apply lookup_delete_ne. simpl in Hx. set_solver.
  - rewrite last_addr_snoc. rewrite <- app_assoc in Hn, H0, Hx, Hf2, Hl2 |- *. simpl in *.
    rewrite addrs_middle in Hn, H0, Hx. apply NoDup_cons in Hn as [Hy Hn'].
    apply Forall_cons in H0 as [Hy0 H0'].
    rewrite (proj2 (Z.eqb_neq _ _) Hy0). simpl.
    pose proof Hk as Hk'. apply chain_app in Hk' as [_ [Hyk _]]. simpl in Hyk.
    rewrite (set_next_Some _ _ _ _ Hy0 Hyk). simpl. eexists _, b2. split_and!; try done.
    + split_and!; [by rewrite addrs_middle; apply NoDup_cons
        |by rewrite addrs_middle; apply Forall_cons| |done|done].
      change (k ++ y :: r) with (k ++ [y] ++ r). rewrite app_assoc.
      rewrite map_app in Hy, Hx. apply chain_app. split.
      * eapply chain_ext; [|apply (chain_relink (mem s) k y (i_addr x)); [set_solver|done]].
        intros a Ha. rewrite map_app in Ha. apply lookup_delete_ne. set_solver.
      * eapply chain_ext; [|exact Hr]. intros a Ha.
        simpl. rewrite lookup_delete_ne by set_solver. apply lookup_insert_ne. set_solver.
    + intros a Ha. rewrite addrs_middle in Ha. simpl. apply lookup_insert_ne. set_solver.
Qed.

(** * What the operations do to the list *)

Section Spec.
Context {St : Type} (callback : St -> Z -> Z -> Z * St).

(** Search: entries are kept, or given away (with a [decref] if freed), until
    the callback stops the search or fails.  The status, the callback's state,
    the entries left and the reference count calls. *)
Fixpoint search_spec (st : St) (l : list item) : outcome (Z * St * list item * list ref_op) :=
  match l with
  | [] => Ret (0, st, [], [])
  | x :: r =>
    let '(actions, st) := callback st (i_data x) (i_size x) in
    if actions =? RRR_FIFO_SEARCH_KEEP then
      '(ret, st, r', ops) ← search_spec st r; Ret (ret, st, x :: r', ops)
    else if has actions RRR_FIFO_CALLBACK_ERR then Ret (RRR_FIFO_CALLBACK_ERR, st, x :: r, [])
    else if has actions RRR_FIFO_SEARCH_GIVE then
      if has actions RRR_FIFO_SEARCH_STOP then Ret (0, st, r, give_op actions (i_data x))
      else '(ret, st, r', ops) ← search_spec st r;
           Ret (ret, st, r', give_op actions (i_data x) ++ ops)
    else if has actions RRR_FIFO_SEARCH_STOP then Ret (0, st, x :: r, [])
    else Bug
  end.
End Spec.

Lemma memory_step_refl m l : memory_step m l m l.
Proof. intros a Ha. by case_decide. Qed.

Lemma memory_step_trans m1 l1 m2 l2 m3 l3 : (forall a, a ∈ addrs l2 -> a ∈ addrs l1) ->
  memory_step m1 l1 m2 l2 -> memory_step m2 l2 m3 l3 -> memory_step m1 l1 m3 l3.
Proof.
  intros Hs H12 H23 a Ha. rewrite H23 by done. case_decide as H2.
  - case_decide; [done|]. exfalso. auto.
  - by apply H12.
Qed.

Lemma memory_step_delete m m' k x r :
  (forall a, a ∉ addrs (k ++ r) -> m' !! a = m !! a) ->
  memory_step m (k ++ x :: r) (delete (i_addr x) m') (k ++ r).
Proof.
  intros H a Ha. case_decide as H2; rewrite addrs_middle in H2.
  - apply elem_of_cons in H2 as [->|H2]; [apply lookup_delete_eq|done].
  - rewrite lookup_delete_ne by set_solver. by apply H.
Qed.

(** Giving away the entry [x] after the entries [k]. *)
Lemma give_linked s b k x r actions : linked (mem s) b (k ++ x :: r) ->
  exists s1 b1 s2 s3, unlink s b (last_addr k) (i_addr x) = Ret (s1, b1) /\
    release_unless_free s1 actions (i_addr x) = Ret s2 /\
    rrr_fifo_entry_destroy s2 (i_addr x) = Ret s3 /\
    linked (mem s3) b1 (k ++ r) /\ entry_count b1 = entry_count b /\
    refs s3 = refs s ++ give_op actions (i_data x) /\
    memory_step (mem s) (k ++ x :: r) (mem s3) (k ++ r).
Proof.
  intros H. destruct (unlink_linked _ _ _ _ _ H) as (s1 & b1 & Hu & Hr & Hc & Hl & Hm).
  destruct (linked_parts _ _ _ _ _ H) as (_ & _ & Hx0 & Hx).
  destruct (linked_addr _ _ _ _ _ H) as (_ & _ & _ & Hxm). rewrite <- Hm in Hxm by done.
  destruct (release_destroy s1 actions _ _ Hx0 Hxm) as (s2 & H2 & H3).
  eexists s1, b1, s2, _. split_and!; try done; simpl.
  - by rewrite Hr.
  - by apply memory_step_delete.
Qed.

Lemma inc_bug_small c : 0 <= c -> c + 1 < 2 ^ 32 -> Types.rrr_length_inc_bug c = Ret (c + 1).
Proof.
  intros. unfold Types.rrr_length_inc_bug. rewrite wrap_small by lia.
  by rewrite (proj2 (Z.eqb_neq (c + 1) 0)) by lia.
Qed.

Lemma addr_neqb m b k x r : linked m b (k ++ x :: r) -> (i_addr x =? NULL) = false.
Proof. intros H. by apply Z.eqb_neq, (linked_addr _ _ _ _ _ H). Qed.

Section SearchProof.
Context {St : Type} (callback : St -> Z -> Z -> Z * St).

(** What the loop makes of the entries [r] that follow [k]. *)
Definition search_post (s : store) (b : rrr_fifo) (k r : list item) (cleared : Z)
    (spec : outcome (Z * St * list item * list ref_op))
    (res : outcome (Z * store * rrr_fifo * Z * St)) : Prop :=
  match spec with
  | Ret (ret, st', r', ops) => exists s' b',
    res = Ret (ret, s', b', cleared + (Z.of_nat (length r) - Z.of_nat (length r')), st') /\
    linked (mem s') b' (k ++ r') /\ entry_count b' = entry_count b /\
    refs s' = refs s ++ ops /\ memory_step (mem s) (k ++ r) (mem s') (k ++ r') /\
    (length r' <= length r)%nat
  | Bug => res = Bug
  | Oob => False
  end.

Lemma search_loop_correct r : forall k s b cleared st fuel,
  linked (mem s) b (k ++ r) -> (length r <= fuel)%nat ->
  0 <= cleared -> cleared + Z.of_nat (length r) < 2 ^ 32 ->
  search_post s b k r cleared (search_spec callback st r)
    (search_loop callback fuel s b (last_addr k) (head_or NULL r) cleared st).
Proof.
  induction r as [|x r IH]; intros k s b cleared st fuel H Hf H0 Hc.
  - rewrite app_nil_r in H. destruct fuel; simpl; eexists s, b; rewrite !app_nil_r, Z.add_0_r;
      split_and!; try done; apply memory_step_refl.
  - destruct fuel as [|fuel]; [simpl in Hf; lia|]. simpl length in *.
    cbn [search_loop search_spec head_or]. rewrite (addr_neqb _ _ _ _ _ H).
    rewrite (load_linked _ _ _ _ _ H). cbn [mbind outcome_bind entry_of data size next].
    destruct (callback st (i_data x) (i_size x)) as [actions st1].
    destruct (actions =? RRR_FIFO_SEARCH_KEEP).
    { specialize (IH (k ++ [x]) s b cleared st1 fuel). rewrite last_addr_snoc, snoc_app in IH.
      specialize (IH H ltac:(lia) H0 ltac:(lia)).
      destruct (search_spec callback st1 r) as [[[[ret st2] r'] ops]| |]; simpl in *; [|done..].
      destruct IH as (s' & b' & E & Hl & ? & ? & Hm & ?).
      rewrite snoc_app in Hl. rewrite !snoc_app in Hm.
      eexists s', b'. split_and!; try done; [|lia]. rewrite E. ret_lia. }
    destruct (has actions RRR_FIFO_CALLBACK_ERR).
    { simpl. eexists s, b. rewrite Z.sub_diag, Z.add_0_r, app_nil_r.
      split_and!; try done. apply memory_step_refl. }
    destruct (has actions RRR_FIFO_SEARCH_GIVE).
    + destruct (give_linked s b k x r actions H)
        as (s1 & b1 & s2 & s3 & -> & E2 & E3 & Hl & Hcnt & Hrefs & Hm).
      cbn [mbind outcome_bind]. rewrite inc_bug_small by lia. cbn [mbind outcome_bind].
      rewrite E2. cbn [mbind outcome_bind]. rewrite E3. cbn [mbind outcome_bind negb].
      destruct (has actions RRR_FIFO_SEARCH_STOP).
      { simpl. eexists s3, b1. split_and!; try done; [|lia]. ret_lia. }
      specialize (IH k s3 b1 (cleared + 1) st1 fuel Hl ltac:(lia) ltac:(lia) ltac:(lia)).
      destruct (search_spec callback st1 r) as [[[[ret st2] r'] ops]| |]; simpl in *; [|done..].
      destruct IH as (s' & b' & E & Hl' & Hcnt' & Hr' & Hm' & Hlen).
      eexists s', b'. split_and!; try done; [..|lia].
      * rewrite E. ret_lia.
      * congruence.
      * by rewrite Hr', Hrefs, app_assoc.
      * eapply memory_step_trans; [|done..]. intros a. rewrite addrs_middle. set_solver.
    + cbn [mbind outcome_bind negb]. destruct (has actions RRR_FIFO_SEARCH_STOP); simpl; [|done].
      eexists s, b. rewrite Z.sub_diag, Z.add_0_r, app_nil_r.
      split_and!; try done. apply memory_step_refl.
Qed.
End SearchProof.

(** * Putting an entry into the list *)

(** Insertion before the first element whose key is not below that of [x]. *)
Fixpoint ordered_insert {A} (key : A -> Z) (x : A) (l : list A) : list A :=
  match l with
  | [] => [x]
  | y :: r => if key y <? key x then y :: ordered_insert key x r else x :: y :: r
  end.

(** Ordered writing looks at the last element first; other writing appends. *)
Definition insert_spec {A} (key : A -> Z) (ordered : bool) (x : A) (l : list A) : list A :=
  match rev l with
  | y :: _ => if ordered && negb (key y <? key x) then ordered_insert key x l else l ++ [x]
  | [] => [x]
  end.

Lemma chain_insert m m' k x r : NoDup (addrs (k ++ r)) ->
  chain m (k ++ r) NULL -> m' !! i_addr x = Some (entry_of x (head_or NULL r)) ->
  (forall k' y, k = k' ++ [y] -> m' !! i_addr y = Some (entry_of y (i_addr x))) ->
  (forall a, a ∈ addrs (k ++ r) -> a <> last_addr k -> m' !! a = m !! a) ->
  ~ NULL ∈ addrs (k ++ r) ->
  chain m' (k ++ x :: r) NULL.
Proof.
  intros Hn Hc Hx Hy Hm H0. apply chain_app in Hc as [Hk Hr]. apply chain_app.
  split; [|split; [done|]]; simpl.
  - destruct k as [|y k _] using rev_ind; [done|]. apply chain_app in Hk as [Hk _].
    rewrite snoc_app in Hn. rewrite addrs_middle in Hn. apply NoDup_cons in Hn as [Hn _].
    apply chain_app. split; [|split; [by apply (Hy k)|done]].
    eapply chain_ext; [|exact Hk]. intros a Ha. apply Hm.
    + rewrite !map_app. set_solver.
    + rewrite last_addr_snoc. rewrite map_app in Hn. set_solver.
  - eapply chain_ext; [|exact Hr]. intros a Ha. rewrite map_app in *. apply Hm; [set_solver|].
    apply NoDup_app in Hn as (_ & Hd & _). intros ->.
    destruct (decide (k = [])) as [->|Hk']; [change (last_addr []) with NULL in Ha; set_solver|].
    exact (Hd _ (last_addr_in _ Hk') Ha).
Qed.

(** The state in which an entry [x], allocated but not linked, is put between
    [k] and [r]. *)
Definition detached (s : store) (b : rrr_fifo) (x : item) (n : Z) (l : list item) : Prop :=
  linked (mem s) b l /\ i_addr x <> NULL /\ i_addr x ∉ addrs l /\
  mem s !! i_addr x = Some (entry_of x n).

(** Only the entry and the entries of the list may change. *)
Definition inserted (s : store) (b : rrr_fifo) (x : item) (l : list item)
    (s' : store) (b' : rrr_fifo) (l' : list item) : Prop :=
  linked (mem s') b' l' /\ refs s' = refs s /\ entry_count b' = entry_count b /\
  forall a, a ∉ addrs l' -> mem s' !! a = mem s !! a.

Lemma linked_insert s b k x r n s' b' : detached s b x n (k ++ r) ->
  mem s' !! i_addr x = Some (entry_of x (head_or NULL r)) ->
  (forall k' y, k = k' ++ [y] -> mem s' !! i_addr y = Some (entry_of y (i_addr x))) ->
  (forall a, a <> i_addr x -> k = [] \/ a <> last_addr k -> mem s' !! a = mem s !! a) ->
  gptr_first b' = head_or NULL (k ++ x :: r) -> gptr_last b' = last_addr (k ++ x :: r) ->
  refs s' = refs s -> entry_count b' = entry_count b ->
  inserted s b x (k ++ r) s' b' (k ++ x :: r).
Proof.
  intros ((Hn & H0 & Hc & _ & _) & Hx0 & Hx & Hxm) H1 H2 H3 Hf Hl Hr Hcnt.
  split_and!; try done.
  - split_and!; try done.
    + rewrite addrs_middle. by apply NoDup_cons.
    + rewrite addrs_middle. by apply Forall_cons.
    + eapply chain_insert; try done.
      * intros a Ha Hl'. apply H3; [set_solver|by right].
      * intros Ha. rewrite Forall_forall in H0. by apply (H0 NULL Ha).
  - intros a Ha. rewrite addrs_middle, map_app in Ha. destruct (decide (k = [])) as [->|Hk].
    + apply H3; [set_solver|by left].
    + apply H3; [set_solver|]. right. intros ->. apply Ha.
      pose proof (last_addr_in _ Hk). set_solver.
Qed.

Lemma set_next_detached s b x n l q : detached s b x n l ->
  set_next s (i_addr x) q =
    Ret (mk_store (<[i_addr x := entry_of x q]> (mem s)) (refs s)).
Proof. intros (_ & H0 & _ & Hx). by rewrite (set_next_Some _ _ _ _ H0 Hx). Qed.

Lemma set_next_linked s b k y r q : linked (mem s) b (k ++ y :: r) ->
  set_next s (i_addr y) q =
    Ret (mk_store (<[i_addr y := entry_of y q]> (mem s)) (refs s)).
Proof.
  intros H. destruct (linked_addr _ _ _ _ _ H) as (H0 & _ & _ & Hy).
  by rewrite (set_next_Some _ _ _ _ H0 Hy).
Qed.

(** [prev->next = entry; entry->next = pos] *)
Lemma link_between s b k y x r n q : detached s b x n (k ++ y :: r) ->
  exists s1, set_next s (i_addr y) (i_addr x) = Ret s1 /\ refs s1 = refs s /\
    set_next s1 (i_addr x) q = Ret (mk_store
      (<[i_addr x := entry_of x q]> (<[i_addr y := entry_of y (i_addr x)]> (mem s))) (refs s)).
Proof.
  intros (Hl & H0 & Hx & Hm). rewrite (set_next_linked _ _ _ _ _ _ Hl). eexists.
  split_and!; [done..|]. rewrite (set_next_Some _ _ (entry_of x n)); [done|done|]. simpl.
  rewrite lookup_insert_ne; [done|]. rewrite map_app in Hx. set_solver.
Qed.

(** The memory after [link_between] links the list with [x] in it. *)
Lemma linked_between s b k y x r n b' : detached s b x n (k ++ y :: r) ->
  gptr_first b' = gptr_first b -> gptr_last b' = last_addr (k ++ y :: x :: r) ->
  entry_count b' = entry_count b ->
  inserted s b x (k ++ y :: r) (mk_store
    (<[i_addr x := entry_of x (head_or NULL r)]> (<[i_addr y := entry_of y (i_addr x)]> (mem s)))
    (refs s)) b' (k ++ y :: x :: r).
Proof.
  intros Hd Hf Hl Hc. pose proof Hd as (Hlk & H0 & Hx & Hm).
  assert (i_addr y <> i_addr x) by (rewrite map_app in Hx; set_solver).
  rewrite <- (snoc_app k y (x :: r)), <- (snoc_app k y r) in *.
  eapply linked_insert; simpl; try done.
  - by simplify_map_eq.
  - intros k' z E. apply app_inj_2 in E as [_ E]; [|done]. simplify_eq. by simplify_map_eq.
  - intros a Ha [Hk|Ha']; [by destruct k|]. rewrite last_addr_snoc in Ha'.
    by rewrite !lookup_insert_ne.
  - rewrite Hf. destruct Hlk as (_ & _ & _ & -> & _). by destruct k.
Qed.

Lemma insert_at_end_inserted s b x n l : detached s b x n l -> l <> [] ->
  exists s' b', insert_at_end s b (i_addr x) = Ret (s', b') /\
    inserted s b x l s' b' (l ++ [x]).
Proof.
  intros Hd Hl. destruct l as [|y k _] using rev_ind; [done|].
  pose proof Hd as ((_ & _ & _ & _ & Hlast) & _). rewrite last_addr_snoc in Hlast.
  unfold insert_at_end. rewrite Hlast.
  destruct (link_between s b k y x [] n NULL Hd) as (s1 & -> & _ & E). simpl.
  rewrite E. eexists _, _. split; [done|].
  rewrite snoc_app. apply (linked_between s b k y x [] n); try done.
  simpl. rewrite <- (snoc_app k y [x]), last_addr_snoc. done.
Qed.

Lemma ordered_walk_spec r : forall k s b x fuel, linked (mem s) b (k ++ r) ->
  (length r <= fuel)%nat ->
  exists r1 r2, r = r1 ++ r2 /\ ordered_insert i_order x r = r1 ++ x :: r2 /\
    ordered_walk fuel s (i_order x) (last_addr k) (head_or NULL r) =
      Ret (last_addr (k ++ r1), head_or NULL r2).
Proof.
  induction r as [|y r IH]; intros k s b x fuel H Hf.
  - exists [], []. rewrite (app_nil_r k). split_and!; try done. by destruct fuel.
  - destruct fuel as [|fuel]; [simpl in Hf; lia|]. cbn [ordered_walk head_or ordered_insert].
    rewrite (addr_neqb _ _ _ _ _ H), (load_linked _ _ _ _ _ H).
    cbn [mbind outcome_bind entry_of order next]. destruct (i_order y <? i_order x).
    + destruct (IH (k ++ [y]) s b x fuel) as (r1 & r2 & -> & -> & E);
        [by rewrite snoc_app|simpl in Hf; lia|].
      rewrite last_addr_snoc in E. rewrite E. exists (y :: r1), r2.
      rewrite snoc_app. split_and!; done.
    + exists [], (y :: r). rewrite (app_nil_r k). split_and!; done.
Qed.

Lemma insert_spec_app {A} (key : A -> Z) ordered x l y :
  insert_spec key ordered x (l ++ [y]) =
    if ordered && negb (key y <? key x) then ordered_insert key x (l ++ [y])
    else (l ++ [y]) ++ [x].
Proof. unfold insert_spec. by rewrite rev_unit. Qed.

Lemma ordered_insert_perm {A} (key : A -> Z) x l : ordered_insert key x l ≡ₚ x :: l.
Proof.
  induction l as [|y l IH]; simpl; [done|]. destruct (key y <? key x); [|done].
  rewrite IH. constructor.
Qed.

Lemma insert_spec_perm {A} (key : A -> Z) ordered x l : insert_spec key ordered x l ≡ₚ x :: l.
Proof.
  destruct l as [|y l _] using rev_ind; [done|]. rewrite insert_spec_app.
  destruct (_ && _); [apply ordered_insert_perm|]. by rewrite Permutation_app_comm.
Qed.

(** The ordered walk and the three ways to link what it finds. *)
Lemma ordered_link s b x n l : detached s b x n l -> l <> [] ->
  exists s' b',
    ('(prev, pos) ← ordered_walk (walk_fuel s) s (i_order x) NULL (gptr_first b);
     if pos =? NULL then insert_at_end s b (i_addr x)
     else if negb (prev =? NULL) then
       s ← set_next s prev (i_addr x);
       s ← set_next s (i_addr x) pos;
       Ret (s, b)
     else
       s ← set_next s (i_addr x) (gptr_first b);
       Ret (s, set_first b (i_addr x))) = Ret (s', b') /\
    inserted s b x l s' b' (ordered_insert i_order x l).
Proof.
  intros Hd Hne. pose proof Hd as (Hlk & Hx0 & Hx & Hxm).
  pose proof Hlk as (_ & _ & _ & Hf & Hlast). rewrite Hf.
  destruct (ordered_walk_spec l [] s b x (walk_fuel s)) as (r1 & r2 & -> & -> & E);
    [done|unfold walk_fuel; pose proof (linked_length _ _ _ Hlk); lia|].
  change (last_addr []) with NULL in E. rewrite E. simpl. clear E.
  destruct r2 as [|z r2].
  { rewrite app_nil_r in *. change (head_or NULL [] =? NULL) with true. simpl.
    by apply (insert_at_end_inserted s b x n). }
  pose proof (addr_neqb _ _ _ _ _ Hlk) as Hz. cbn [head_or]. rewrite Hz.
  destruct r1 as [|y r1 _] using rev_ind.
  - change (last_addr [] =? NULL) with true. simpl.
    rewrite (set_next_detached _ _ _ _ _ _ Hd). simpl. eexists _, _. split; [done|].
    apply (linked_insert s b [] x (z :: r2) n); simpl; try done.
    + by rewrite lookup_insert_eq.
    + by intros [].
    + intros a Ha _. by rewrite lookup_insert_ne.
  - rewrite last_addr_snoc. rewrite snoc_app in Hlk, Hd |- *.
    rewrite (addr_neqb _ _ _ _ _ Hlk). simpl.
    destruct (link_between s b r1 y x (z :: r2) n (i_addr z) Hd) as (s1 & -> & _ & E). simpl.
    rewrite E. simpl. eexists _, _. split; [done|]. rewrite snoc_app.
    apply (linked_between s b r1 y x (z :: r2) n); try done.
    rewrite Hlast, snoc_app, last_addr_app, (last_addr_app r1). done.
Qed.

Lemma update_pointers_inserted s b x n o l ordered :
  detached s b (mk_item (i_addr x) (i_data x) (i_size x) o) n l ->
  exists s' b',
    rrr_fifo_write_update_pointers s b (i_addr x) (i_order x) ordered = Ret (s', b') /\
    inserted s b x l s' b' (insert_spec i_order ordered x l).
Proof.
  intros (Hl & H0 & Hx & Hm). simpl in *. unfold rrr_fifo_write_update_pointers.
  rewrite (load_Some _ _ _ H0 Hm). cbn [mbind outcome_bind].
  rewrite (assign_Some _ _ _ _ H0 Hm). cbn [mbind outcome_bind].
  set (s1 := mk_store _ _).
  assert (detached s1 b x n l) as Hd.
  { split_and!; try done; simpl; [|by rewrite lookup_insert_eq].
    destruct Hl as (? & ? & Hc & ? & ?). split_and!; try done. eapply chain_ext; [|exact Hc].
    intros a Ha. apply lookup_insert_ne. set_solver. }
  assert (forall s' b' l', inserted s1 b x l s' b' (l' : list item) -> i_addr x ∈ addrs l' ->
    inserted s b x l s' b' l') as Hw.
  { intros s' b' l' (? & ? & ? & Hm') Hin. split_and!; try done. intros a Ha.
    rewrite Hm' by done. simpl. apply lookup_insert_ne. set_solver. }
  clearbody s1. pose proof Hd as (Hl1 & _). pose proof Hl1 as (_ & _ & _ & Hf & Hla).
  destruct l as [|y k _] using rev_ind.
  - rewrite Hf. change (head_or NULL [] =? NULL) with true. simpl.
    rewrite (set_next_detached _ _ _ _ _ _ Hd). simpl. eexists _, _. split; [done|].
    apply Hw; [|simpl; set_solver]. apply (linked_insert s1 b [] x [] n); simpl; try done.
    + by rewrite lookup_insert_eq.
    + by intros [].
    + intros a Ha _. by rewrite lookup_insert_ne.
  - rewrite insert_spec_app.
    assert ((gptr_first b =? NULL) = false) as ->.
    { rewrite Hf. destruct k; [apply (addr_neqb _ _ [] _ _ Hl1)|apply (addr_neqb _ _ [] _ _ Hl1)]. }
    assert (k ++ [y] <> []) as Hne by (by destruct k).
    destruct ordered; simpl.
    + rewrite Hla, last_addr_snoc, (load_linked _ _ _ _ _ Hl1). cbn [mbind outcome_bind].
      simpl order. destruct (i_order y <? i_order x); simpl.
      * destruct (insert_at_end_inserted _ _ _ _ _ Hd Hne) as (s' & b' & E & Hi).
        eexists s', b'. split; [done|]. apply Hw; [done|]. rewrite map_app. set_solver.
      * destruct (ordered_link _ _ _ _ _ Hd Hne) as (s' & b' & E & Hi). simpl in E.
        rewrite E. eexists s', b'. split; [done|]. apply Hw; [done|].
        rewrite ordered_insert_perm. simpl. set_solver.
    + destruct (insert_at_end_inserted _ _ _ _ _ Hd Hne) as (s' & b' & E & Hi).
      eexists s', b'. split; [done|]. apply Hw; [done|]. rewrite map_app. set_solver.
Qed.

(** * Writing *)

Record payload := mk_payload { p_data : Z; p_size : Z; p_order : Z }.

Definition payload_of (x : item) : payload := mk_payload (i_data x) (i_size x) (i_order x).

Lemma insert_spec_map {A B} (key : A -> Z) (key' : B -> Z) (f : A -> B) ordered x l :
  (forall a, key' (f a) = key a) ->
  map f (insert_spec key ordered x l) = insert_spec key' ordered (f x) (map f l).
Proof.
  intros Hk. destruct l as [|y l _] using rev_ind; [done|].
  rewrite map_app. simpl. rewrite !insert_spec_app, !Hk.
  destruct (_ && _); [|by rewrite !map_app]. change [f y] with (map f [y]).
  rewrite <- map_app. induction (l ++ [y]) as [|z r IH]; simpl; [done|]. rewrite !Hk.
  destruct (key z <? key x); simpl; by rewrite ?IH.
Qed.

Section WriteSpec.
Context {St : Type} (callback : St -> Z -> Z -> Z -> Z * St * (Z * Z * Z)).

(** One round on the queue [q]: the entry the callback fills in is put in its
    place, unless the allocation fails, the callback fails, or asks to drop it. *)
Definition write_round_spec (honour_order alloc_ok : bool) (st : St) (q : list payload)
  : outcome (Z * bool * St * list payload * list ref_op) :=
  if negb alloc_ok then Ret (1, false, st, q, [])
  else
    let '(ret, st, (d, sz, o)) := callback st NULL 0 0 in
    '(ret, ordered, again, drop) ← rrr_fifo_write_callback_return_check ret;
    if negb (ret =? 0) || drop then Ret (ret, again, st, q, [])
    else if d =? NULL then Bug
    else Ret (0, again, st,
      insert_spec p_order (honour_order && ordered) (mk_payload d sz o) q, [Incref d]).

(** Rounds until the callback does not ask for another.  [strict] rounds also
    end at the first status that is not 0. *)
Fixpoint write_spec (honour_order strict : bool) (ok : nat -> bool) (fuel n : nat) (st : St)
    (q : list payload) : outcome (Z * St * list payload * list ref_op) :=
  match fuel with
  | O => Bug
  | S fuel =>
    '(ret, again, st, q, ops) ← write_round_spec honour_order (ok n) st q;
    if (negb strict || (ret =? 0)) && again then
      '(ret, st, q, ops') ← write_spec honour_order strict ok fuel (S n) st q;
      Ret (ret, st, q, ops ++ ops')
    else Ret (ret, st, q, ops)
  end.
End WriteSpec.

Lemma linked_in_mem m b l a : linked m b l -> a ∈ addrs l -> is_Some (m !! a).
Proof.
  intros (_ & _ & Hc & _) Ha. induction l as [|x l IH]; [set_solver|]. simpl in *.
  destruct Hc as [Hx Hc]. apply elem_of_cons in Ha as [->|Ha]; [by eexists|by apply IH].
Qed.

Lemma linked_ext m m' b l : (forall a, a ∈ addrs l -> m' !! a = m !! a) ->
  linked m b l -> linked m' b l.
Proof.
  intros H (? & ? & ? & ? & ?). split_and!; try done. by eapply chain_ext.
Qed.

(** What an operation does that only adds entries. *)
Definition grown (c : Z) (s : store) (l : list item) (s' : store) (b' : rrr_fifo) (l' : list item)
    (q' : list payload) (ops : list ref_op) : Prop :=
  counted c s' b' l' /\ map payload_of l' = q' /\ refs s' = refs s ++ ops /\
  (forall a, a ∈ addrs l -> a ∈ addrs l') /\
  (forall a, a ∈ addrs l' -> a ∈ addrs l \/ mem s !! a = None) /\
  forall a, a ∉ addrs l' -> mem s' !! a = mem s !! a.

Lemma return_check_no_oob f : rrr_fifo_write_callback_return_check f <> Oob.
Proof. unfold rrr_fifo_write_callback_return_check. repeat case_match; done. Qed.

(** Linking the entry at [a], just allocated and filled in. *)
Lemma link_new c s b l s1 a d sz o ordered : counted c s b l -> Z.of_nat (length l) + c + 1 < 2 ^ 32 ->
  a <> NULL -> mem s !! a = None -> mem s1 = <[a := mk_entry d sz 0 NULL]> (mem s) ->
  refs s1 = refs s -> d <> NULL ->
  exists s2 s3 b3 n l', rrr_fifo_entry_incref_data s1 a = Ret s2 /\
    rrr_fifo_write_update_pointers s2 b a o ordered = Ret (s3, b3) /\
    Types.rrr_length_inc_err (entry_count b3) = (0, n) /\
    grown c s l s3 (set_count b3 n) l'
      (insert_spec p_order ordered (mk_payload d sz o) (map payload_of l)) [Incref d] /\
    length l' = S (length l).
Proof.
  intros (Hl & Hcnt & Hc0 & _) Hlen Ha0 Ha Hs1 Hr1 Hd.
  assert (mem s1 !! a = Some (mk_entry d sz 0 NULL)) as Hs1a by (by rewrite Hs1, lookup_insert_eq).
  unfold rrr_fifo_entry_incref_data. rewrite (load_Some _ _ _ Ha0 Hs1a).
  cbn [mbind outcome_bind data]. rewrite (proj2 (Z.eqb_neq _ _) Hd). cbn [negb].
  set (s2 := log_ref s1 (Incref d)). set (x := mk_item a d sz o).
  assert (a ∉ addrs l) as Hal.
  { intros Hin. destruct (linked_in_mem _ _ _ _ Hl Hin) as [? E]. congruence. }
  destruct (update_pointers_inserted s2 b x NULL 0 l ordered)
    as (s3 & b3 & E & Hi & Hr & Hc & Hm).
  { split_and!; try done. simpl. rewrite Hs1. eapply linked_ext; [|exact Hl].
    intros a' Ha'. apply lookup_insert_ne. set_solver. }
  pose proof (insert_spec_perm i_order ordered x l) as Hp.
  eexists s2, s3, b3, (entry_count b3 + 1), (insert_spec i_order ordered x l).
  split_and!; [done|exact E| | |by rewrite Hp].
  { rewrite Hc, Hcnt. unfold Types.rrr_length_inc_err. rewrite wrap_small by lia.
    by rewrite (proj2 (Z.eqb_neq _ 0)) by lia. }
  split_and!.
  - split; [|rewrite Hp; simpl; lia]. destruct Hi as (? & ? & ? & ? & ?). by split_and!.
  - by apply (insert_spec_map i_order p_order).
  - rewrite Hr. simpl. by rewrite Hr1.
  - intros a' Ha'. rewrite Hp. simpl. set_solver.
  - intros a'. rewrite Hp. simpl. rewrite elem_of_cons. intros [->|?]; [by right|by left].
  - intros a' Ha'. rewrite Hm by done. simpl. rewrite Hs1. apply lookup_insert_ne.
    rewrite Hp in Ha'. simpl in Ha'. set_solver.
Qed.

Section WriteProof.
Context {St : Type} (callback : St -> Z -> Z -> Z -> Z * St * (Z * Z * Z)).
Context (malloc : nat -> gmap Z rrr_fifo_entry -> Z) (ok : nat -> bool).

(** The allocator returns an address that is not in use, or [NULL]. *)
Definition allocator : Prop := forall n m,
  if ok n then malloc n m <> NULL /\ m !! malloc n m = None else malloc n m = NULL.
Context (Hmalloc : allocator).

Definition round_post (c : Z) (s : store) (l : list item)
    (spec : outcome (Z * bool * St * list payload * list ref_op))
    (res : outcome (Z * bool * store * rrr_fifo * St)) : Prop :=
  match spec with
  | Ret (ret, again, st', q', ops) => exists s' b' l',
      res = Ret (ret, again, s', b', st') /\ grown c s l s' b' l' q' ops /\
      (length l' <= S (length l))%nat
  | Bug => res = Bug
  | Oob => False
  end.

Lemma grown_refl c s b l : counted c s b l -> grown c s l s b l (map payload_of l) [].
Proof. intros H. split_and!; try done; [by rewrite app_nil_r|by left]. Qed.

Lemma write_round_correct c honour_order n s b l st : counted c s b l ->
  Z.of_nat (length l) + c + 1 < 2 ^ 32 ->
  round_post c s l (write_round_spec callback honour_order (ok n) st (map payload_of l))
    (write_round callback malloc honour_order n s b st).
Proof using Hmalloc.
  intros H Hlen. unfold write_round, write_round_spec.
  pose proof (Hmalloc n (mem s)) as Ha. unfold rrr_fifo_entry_new. destruct (ok n).
  2:{ rewrite Ha. simpl. eexists s, b, l. split_and!; [done|by apply grown_refl|lia]. }
  set (a := malloc n (mem s)) in *. destruct Ha as [Ha0 Ha].
  rewrite (proj2 (Z.eqb_neq _ _) Ha0). cbn [negb Z.eqb].
  set (s0 := mk_store _ _). assert (mem s0 !! a = Some (mk_entry NULL 0 0 NULL)) as Hs0
    by (apply lookup_insert_eq).
  rewrite (load_Some _ _ _ Ha0 Hs0). cbn [mbind outcome_bind data size].
  destruct (callback st NULL 0 0) as [[flags st1] [[d sz] o]].
  rewrite (assign_Some _ _ _ _ Ha0 Hs0). cbn [mbind outcome_bind].
  set (s1 := mk_store _ _).
  assert (mem s1 = <[a := mk_entry d sz 0 NULL]> (mem s)) as Hs1
    by (simpl; by rewrite insert_insert_eq).
  assert (refs s1 = refs s) as Hr1 by done. clearbody s1.
  assert (mem s1 !! a = Some (mk_entry d sz 0 NULL)) as Hs1a by (by rewrite Hs1, lookup_insert_eq).
  destruct (rrr_fifo_write_callback_return_check flags) as [[[[ret ord] again] drop]| |] eqn:Ec;
    [|done|by destruct (return_check_no_oob _ Ec)].
  cbn [mbind outcome_bind]. destruct (negb (ret =? 0) || drop).
  { unfold rrr_free. rewrite (load_Some _ _ _ Ha0 Hs1a). simpl.
    assert (mk_store (delete a (mem s1)) (refs s1) = s) as ->.
    { rewrite Hs1, delete_insert_id, Hr1 by done. by destruct s. }
    eexists s, b, l. split_and!; [done|by apply grown_refl|lia]. }
  destruct (Z.eqb_spec d NULL) as [->|Hd]; [done|].
  destruct (link_new c s b l s1 a d sz o (honour_order && ord))
    as (s2 & s3 & b3 & cnt & l' & -> & E2 & E3 & Hg & Hlen'); [done..|].
  cbn [mbind outcome_bind]. rewrite E2. cbn [mbind outcome_bind]. rewrite E3.
  eexists s3, _, l'. split_and!; [done|done|lia].
Qed.

Lemma grown_trans c s l s1 b1 l1 q1 ops1 s2 b2 l2 q2 ops2 :
  grown c s l s1 b1 l1 q1 ops1 -> grown c s1 l1 s2 b2 l2 q2 ops2 ->
  grown c s l s2 b2 l2 q2 (ops1 ++ ops2).
Proof.
  intros (_ & _ & R1 & S1 & N1 & M1) (? & ? & R2 & S2 & N2 & M2). split_and!; try done.
  - by rewrite R2, R1, app_assoc.
  - auto.
  - intros a Ha. destruct (decide (a ∈ addrs l1)) as [Hin|Hin]; [by apply N1|].
    destruct (N2 a Ha) as [|Hn]; [done|]. rewrite M1 in Hn by done. by right.
  - intros a Ha. rewrite M2 by done. auto.
Qed.

(** What a loop of rounds makes of a buffer that holds [l]. *)
Definition write_post (c : Z) (s : store) (l : list item)
    (spec : outcome (Z * St * list payload * list ref_op))
    (res : outcome (Z * store * rrr_fifo * St)) : Prop :=
  match spec with
  | Ret (ret, st', q', ops) => exists s' b' l',
      res = Ret (ret, s', b', st') /\ grown c s l s' b' l' q' ops
  | Bug => res = Bug
  | Oob => False
  end.

Lemma write_post_next c s l s1 b1 l1 q1 ops1 spec res :
  grown c s l s1 b1 l1 q1 ops1 -> write_post c s1 l1 spec res ->
  write_post c s l ('(ret, st, q, ops) ← spec; Ret (ret, st, q, ops1 ++ ops)) res.
Proof.
  intros Hg. destruct spec as [[[[ret st] q] ops]| |]; simpl; [|done..].
  intros (s' & b' & l' & -> & Hg'). eexists s', b', l'. split; [done|].
  by eapply grown_trans.
Qed.

Lemma write_loop_correct fuel : forall c n s b l st, counted c s b l ->
  Z.of_nat (length l + fuel) + c < 2 ^ 32 ->
  write_post c s l (write_spec callback true false ok fuel n st (map payload_of l))
    (write_loop callback malloc fuel n s b st).
Proof using Hmalloc.
  induction fuel as [|fuel IH]; intros c n s b l st H Hlen; [done|].
  cbn [write_loop write_spec].
  pose proof (write_round_correct c true n s b l st H ltac:(lia)) as Hr.
  destruct (write_round_spec _ _ _ _ _) as [[[[[ret again] st1] q1] ops]| |]; simpl in *;
    [|by rewrite Hr|done].
  destruct Hr as (s1 & b1 & l1 & -> & Hg & Hl1). simpl. destruct again.
  - pose proof Hg as (Hh & <- & _). eapply write_post_next; [done|]. apply IH; [done|lia].
  - by eexists s1, b1, l1.
Qed.

Lemma call_again_correct fuel : forall c n s b l st, counted c s b l ->
  Z.of_nat (length l + fuel) + c < 2 ^ 32 ->
  write_post c s l (write_spec callback false true ok fuel n st (map payload_of l))
    (rrr_fifo_search_and_replace_call_again callback malloc fuel n s b st).
Proof using Hmalloc.
  induction fuel as [|fuel IH]; intros c n s b l st H Hlen; [done|].
  cbn [rrr_fifo_search_and_replace_call_again write_spec].
  pose proof (write_round_correct c false n s b l st H ltac:(lia)) as Hr.
  destruct (write_round_spec _ _ _ _ _) as [[[[[ret again] st1] q1] ops]| |]; simpl in *;
    [|by rewrite Hr|done].
  destruct Hr as (s1 & b1 & l1 & -> & Hg & Hl1). simpl. destruct ((ret =? 0) && again).
  - pose proof Hg as (Hh & <- & _). eapply write_post_next; [done|]. apply IH; [done|lia].
  - by eexists s1, b1, l1.
Qed.
End WriteProof.

(** * Reading and clearing *)

Lemma has_lor f a b : has f (a ||| b) = has f a || has f b.
Proof.
  unfold has, truth. rewrite Z.land_lor_distr_r. apply Bool.eq_iff_eq_true.
  rewrite orb_true_iff, !negb_true_iff, !Z.eqb_neq, Z.lor_eq_0_iff. lia.
Qed.

Definition KNOWN_FLAGS : Z := RRR_FIFO_SEARCH_GIVE ||| RRR_FIFO_SEARCH_FREE |||
  RRR_FIFO_SEARCH_STOP ||| RRR_FIFO_CALLBACK_ERR ||| RRR_FIFO_GLOBAL_ERR.

Section ForwardSpec.
Context {St : Type} (callback : St -> Z -> Z -> Z * St).

(** Entries are handed to the callback and leave the buffer, in order, until the
    callback stops or fails; the rest stays. *)
Fixpoint forward_spec (st : St) (l : list item) : outcome (Z * St * list item * list ref_op) :=
  match l with
  | [] => Ret (RRR_FIFO_OK, st, [], [])
  | x :: r =>
    let '(f, st) := callback st (i_data x) (i_size x) in
    if f =? 0 then forward_spec st r
    else
      let flags := if has f RRR_FIFO_SEARCH_FREE
                   then f &&& Z.lnot RRR_FIFO_SEARCH_FREE else f in
      if has flags RRR_FIFO_SEARCH_GIVE then Bug
      else if has flags (RRR_FIFO_SEARCH_STOP ||| RRR_FIFO_CALLBACK_ERR ||| RRR_FIFO_GLOBAL_ERR)
      then Ret (flags &&& Z.lnot RRR_FIFO_SEARCH_STOP, st, r, give_op f (i_data x))
      else if truth (flags &&& Z.lnot KNOWN_FLAGS) then Bug
      else '(ret, st, r', ops) ← forward_spec st r;
           Ret (ret, st, r', give_op f (i_data x) ++ ops)
  end.
End ForwardSpec.

Lemma set_next_same s a e n : a <> NULL -> mem s !! a = Some e -> next e = n ->
  set_next s a n = Ret s.
Proof.
  intros H0 H <-. rewrite (set_next_Some _ _ _ _ H0 H). destruct e, s. simpl in *.
  by rewrite insert_id.
Qed.

Lemma forward_release_Some s f a e : a <> NULL -> mem s !! a = Some e ->
  exists s1 e1, forward_release s f a =
      Ret (if has f RRR_FIFO_SEARCH_FREE then f &&& Z.lnot RRR_FIFO_SEARCH_FREE else f, s1) /\
    mem s1 = <[a := e1]> (mem s) /\ data e1 = NULL /\
    refs s1 = refs s ++ give_op f (data e).
Proof.
  intros H0 H. unfold forward_release, give_op, decref_op, rrr_fifo_entry_decref_data.
  destruct (has f RRR_FIFO_SEARCH_FREE).
  - rewrite (load_Some _ _ _ H0 H). cbn [mbind outcome_bind].
    destruct (Z.eqb_spec (data e) NULL); simpl.
    + eexists s, e. rewrite app_nil_r, insert_id; done.
    + rewrite (assign_Some (log_ref s _) _ _ _ H0 H). by eexists _, _.
  - rewrite (release_Some _ _ _ H0 H). simpl. eexists _, _. by rewrite app_nil_r.
Qed.

Lemma linked_tail m b c x r : linked m b (x :: r) ->
  linked (delete (i_addr x) m) (mk_fifo (head_or NULL r) (last_addr r) c) r.
Proof.
  intros H. destruct (linked_parts _ _ [] _ _ H) as (Hn & H0 & _ & Hx).
  destruct H as (_ & _ & [_ Hc] & _). split_and!; try done. eapply chain_ext; [|exact Hc].
  intros a Ha. apply lookup_delete_ne. simpl in Hx. set_solver.
Qed.

Lemma memory_step_head m x r : memory_step m (x :: r) (delete (i_addr x) m) r.
Proof. by apply (memory_step_delete m m [] x r). Qed.

(** Releasing and freeing an entry. *)
Lemma release_free s a e : a <> NULL -> mem s !! a = Some e ->
  exists s1, rrr_fifo_entry_release_data s a = Ret s1 /\
    rrr_fifo_entry_destroy s1 a = Ret (mk_store (delete a (mem s)) (refs s)).
Proof.
  intros H0 H. rewrite (release_Some _ _ _ H0 H). eexists. split; [done|].
  rewrite (destroy_Some _ _ (set_data_size e NULL 0)); [|done|by simplify_map_eq].
  simpl. by rewrite delete_insert_eq, app_nil_r.
Qed.

Section ForwardProof.
Context {St : Type} (callback : St -> Z -> Z -> Z * St).

Lemma memory_step_tail m x r m' r' :
  memory_step (delete (i_addr x) m) r m' r' -> memory_step m (x :: r) m' r'.
Proof. apply memory_step_trans; [set_solver|apply memory_step_head]. Qed.

(** Putting the rest back. *)
Lemma forward_put_back s c x r f : linked (mem s) (mk_fifo (i_addr x) (last_addr (x :: r)) c) (x :: r) ->
  exists s1 s2 s1' b',
  forward_release s f (i_addr x) =
    Ret (if has f RRR_FIFO_SEARCH_FREE then f &&& Z.lnot RRR_FIFO_SEARCH_FREE else f, s1) /\
  (if head_or NULL r =? NULL then Ret (s1, mk_fifo NULL NULL c)
   else
     s ← set_next s1 (last_addr (x :: r)) NULL;
     Ret (s, mk_fifo (head_or NULL r) (last_addr (x :: r)) c)) = Ret (s1, b') /\
  rrr_fifo_entry_destroy s1 (i_addr x) = Ret s2 /\
  rrr_fifo_entry_release_data s1 (i_addr x) = Ret s1' /\
  rrr_fifo_entry_destroy s1' (i_addr x) = Ret s2 /\
  linked (mem s2) b' r /\ entry_count b' = c /\ refs s2 = refs s ++ give_op f (i_data x) /\
  mem s2 = delete (i_addr x) (mem s).
Proof.
  intros H. destruct (linked_addr _ _ [] _ _ H) as (Hx0 & _ & Hx & Hm).
  pose proof (linked_tail _ _ c _ _ H) as Ht.
  destruct (forward_release_Some s f _ _ Hx0 Hm) as (s1 & e1 & E1 & Hs1 & Hd & Hr).
  assert (rrr_fifo_entry_destroy s1 (i_addr x) =
    Ret (mk_store (delete (i_addr x) (mem s)) (refs s ++ give_op f (i_data x)))) as E2.
  { rewrite (destroy_Some _ _ e1); [|done|rewrite Hs1; apply lookup_insert_eq].
    rewrite Hs1, Hr, Hd, delete_insert_eq. by rewrite app_nil_r. }
  destruct (release_free s1 (i_addr x) e1) as (s1' & E3 & E4);
    [done|rewrite Hs1; apply lookup_insert_eq|]. rewrite Hs1, delete_insert_eq, Hr in E4.
  destruct r as [|y k _] using rev_ind.
  { eexists s1, _, s1', _. by split_and!. }
  assert (i_addr y <> NULL /\ mem s1 !! i_addr y = Some (entry_of y NULL)) as [Hy0 Hy].
  { destruct (linked_addr _ _ k y [] Ht) as (Hy0 & _ & _ & Hy). split; [done|].
    rewrite map_app in Hx. rewrite Hs1, lookup_insert_ne by set_solver.
    by rewrite lookup_delete_ne in Hy by set_solver. }
  rewrite app_comm_cons, last_addr_snoc. rewrite last_addr_snoc in Ht.
  assert ((head_or NULL (k ++ [y]) =? NULL) = false) as ->.
  { destruct k as [|z k]; simpl; [by apply Z.eqb_neq|]. by apply (addr_neqb _ _ [] _ _ Ht). }
  eexists s1, _, s1', _. split_and!; [done| |done..].
  by rewrite (set_next_same _ _ _ NULL Hy0 Hy).
Qed.

Definition forward_post (s : store) (c : Z) (r : list item) (processed : Z)
    (spec : outcome (Z * St * list item * list ref_op))
    (res : outcome (Z * store * rrr_fifo * Z * St)) : Prop :=
  match spec with
  | Ret (ret, st', r', ops) => exists s' b',
    res = Ret (ret, s', b', processed + (Z.of_nat (length r) - Z.of_nat (length r')), st') /\
    linked (mem s') b' r' /\ entry_count b' = c /\ refs s' = refs s ++ ops /\
    memory_step (mem s) r (mem s') r' /\ (length r' <= length r)%nat
  | Bug => res = Bug
  | Oob => False
  end.

Lemma forward_post_next s c x r processed spec res s1 ops1 :
  mem s1 = delete (i_addr x) (mem s) -> refs s1 = refs s ++ ops1 ->
  forward_post s1 c r (processed + 1) spec res ->
  forward_post s c (x :: r) processed
    ('(ret, st, r', ops) ← spec; Ret (ret, st, r', ops1 ++ ops)) res.
Proof.
  intros Hm Hr. destruct spec as [[[[ret st] r'] ops]| |]; simpl; [|done..].
  intros (s' & b' & -> & Hl & Hc & Hr' & Hm' & Hlen). eexists s', b'.
  split_and!; try done; [ret_lia|by rewrite Hr', Hr, app_assoc| |lia].
  apply memory_step_tail. by rewrite <- Hm.
Qed.

Lemma forward_post_skip s c x r processed spec res s1 :
  mem s1 = delete (i_addr x) (mem s) -> refs s1 = refs s ->
  forward_post s1 c r (processed + 1) spec res -> forward_post s c (x :: r) processed spec res.
Proof.
  intros Hm Hr H. apply (forward_post_next s c x r processed spec res s1 []) in H; [|done|].
  - by destruct spec as [[[[ret st] r'] ops]| |].
  - by rewrite app_nil_r.
Qed.

Lemma forward_loop_correct r : forall c s processed st fuel,
  linked (mem s) (mk_fifo (head_or NULL r) (last_addr r) c) r -> (length r <= fuel)%nat ->
  0 <= processed -> processed + Z.of_nat (length r) < 2 ^ 32 ->
  forward_post s c r processed (forward_spec callback st r)
    (forward_loop callback fuel (last_addr r) s (mk_fifo NULL NULL c) (head_or NULL r)
       processed RRR_FIFO_OK st).
Proof.
  induction r as [|x r IH]; intros c s processed st fuel H Hf H0 Hlen.
  - destruct fuel; simpl; eexists s, _; rewrite app_nil_r, Z.add_0_r;
      split_and!; try done; apply memory_step_refl.
  - destruct fuel as [|fuel]; [simpl in Hf; lia|]. simpl length in *.
    assert (forall st1 s1, mem s1 = delete (i_addr x) (mem s) ->
      forward_post s1 c r (processed + 1) (forward_spec callback st1 r)
      (forward_loop callback fuel (last_addr (x :: r)) s1 (mk_fifo NULL NULL c) (head_or NULL r)
         (processed + 1) RRR_FIFO_OK st1)) as IH'.
    { intros st1 s1 Hs1. pose proof (linked_tail _ _ c _ _ H) as Ht. rewrite <- Hs1 in Ht.
      pose proof (IH c s1 (processed + 1) st1 fuel Ht ltac:(lia) ltac:(lia) ltac:(lia)) as IH'.
      destruct r as [|y r]; [by destruct fuel|exact IH']. }
    cbn [forward_loop forward_spec head_or].
    rewrite (addr_neqb _ _ [] _ _ H), (load_linked _ _ [] _ _ H).
    cbn [mbind outcome_bind entry_of data size next].
    destruct (callback st (i_data x) (i_size x)) as [f st1].
    rewrite inc_bug_small by lia. cbn [mbind outcome_bind].
    destruct (linked_addr _ _ [] _ _ H) as (Hx0 & _ & _ & Hxm).
    destruct (f =? 0).
    { destruct (release_free _ _ _ Hx0 Hxm) as (s1 & -> & E). simpl. rewrite E. simpl.
      eapply forward_post_skip; [..|by apply IH']; done. }
    destruct (forward_put_back s c x r f H) 
      as (s1 & s2 & s1' & b' & -> & E1 & E2 & E3 & E4 & Hl & Hc & Hr & Hm).
    cbn [mbind outcome_bind].
    set (flags := if has f RRR_FIFO_SEARCH_FREE then _ else _). clearbody flags.
    destruct (has flags RRR_FIFO_SEARCH_GIVE); [done|].
    destruct (has flags (_ ||| _)) eqn:Estop.
    { cbn [set_first gptr_first gptr_last].
      change (NULL =? NULL) with true. cbn beta iota.
      unfold set_gptr_last, set_first. cbn [gptr_first gptr_last entry_count].
      rewrite E1. simpl. rewrite E2. eexists s2, b'.
      rewrite Hm. split_and!; try done; [simpl; ret_lia|by rewrite <- Hm
        |apply memory_step_head|simpl; lia]. }
    rewrite !has_lor in Estop. apply orb_false_iff in Estop as [Estop ->].
    apply orb_false_iff in Estop as [_ ->]. fold KNOWN_FLAGS.
    destruct (truth (flags &&& Z.lnot KNOWN_FLAGS)); [done|].
    rewrite E3. cbn [mbind outcome_bind]. rewrite E4. cbn [mbind outcome_bind].
    eapply forward_post_next; [done..|by apply IH'].
Qed.
End ForwardProof.

Section ReadSpec.
Context {St : Type} (callback : St -> Z -> Z -> Z * St).

(** Reading shows the entries to the callback in order and collects its error
    flags until it stops or fails. *)
Fixpoint read_spec (ret : Z) (st : St) (l : list item) : outcome (Z * St) :=
  match l with
  | [] => Ret (ret, st)
  | x :: r =>
    let '(f, st) := callback st (i_data x) (i_size x) in
    if f =? 0 then read_spec ret st r
    else if has f RRR_FIFO_SEARCH_STOP then Ret (ret ||| (f &&& Z.lnot RRR_FIFO_SEARCH_STOP), st)
    else if has f (RRR_FIFO_SEARCH_GIVE ||| RRR_FIFO_SEARCH_FREE) then Bug
    else if has f RRR_FIFO_GLOBAL_ERR then Ret (RRR_FIFO_GLOBAL_ERR, st)
    else if truth (f &&& Z.lnot KNOWN_FLAGS) then Bug
    else read_spec (ret ||| f) st r
  end.

(** Only entries above the minimum order are shown, at most [RRR_FIFO_MAX_READS]
    of them and none after [last_element]. *)
Fixpoint read_minimum_spec (last_element minimum_order processed : Z) (st : St)
    (l : list item) : outcome (Z * St) :=
  match l with
  | [] => Ret (RRR_FIFO_OK, st)
  | x :: r =>
    if i_order x <=? minimum_order
    then read_minimum_spec last_element minimum_order processed st r
    else
      let '(f, st) := callback st (i_data x) (i_size x) in
      if (processed + 1 =? RRR_FIFO_MAX_READS) || (i_addr x =? last_element)
      then Ret (RRR_FIFO_OK, st)
      else if f =? RRR_FIFO_OK
      then read_minimum_spec last_element minimum_order (processed + 1) st r
      else if has f RRR_FIFO_SEARCH_STOP then Ret (f &&& Z.lnot RRR_FIFO_SEARCH_STOP, st)
      else if has f (RRR_FIFO_SEARCH_GIVE ||| RRR_FIFO_SEARCH_FREE) then Bug
      else Ret (f, st)
  end.

Lemma read_loop_correct r : forall k s b ret st fuel, linked (mem s) b (k ++ r) ->
  (length r <= fuel)%nat ->
  read_loop callback fuel s (head_or NULL r) ret st = read_spec ret st r.
Proof.
  induction r as [|x r IH]; intros k s b ret st fuel H Hf; [by destruct fuel|].
  destruct fuel as [|fuel]; simpl length in *; [lia|]. cbn [read_loop read_spec head_or].
  rewrite (addr_neqb _ _ _ _ _ H), (load_linked _ _ _ _ _ H).
  cbn [mbind outcome_bind entry_of data size next].
  destruct (callback st (i_data x) (i_size x)) as [f st1]. fold KNOWN_FLAGS.
  rewrite <- (snoc_app k x r) in H. repeat (case_match; [done|]).
  by rewrite !(IH (k ++ [x]) s b) by (done || lia).
Qed.

Lemma read_minimum_loop_correct r : forall k s b last_element minimum_order processed st fuel,
  linked (mem s) b (k ++ r) -> (length r <= fuel)%nat ->
  read_minimum_loop callback fuel s last_element minimum_order (head_or NULL r) processed st =
    read_minimum_spec last_element minimum_order processed st r.
Proof.
  induction r as [|x r IH]; intros k s b le mo processed st fuel H Hf; [by destruct fuel|].
  destruct fuel as [|fuel]; simpl length in *; [lia|].
  cbn [read_minimum_loop read_minimum_spec head_or].
  rewrite (addr_neqb _ _ _ _ _ H), (load_linked _ _ _ _ _ H).
  cbn [mbind outcome_bind entry_of data size next order].
  rewrite Z.leb_antisym. destruct (mo <? i_order x); simpl negb; cbn iota.
  - destruct (callback st (i_data x) (i_size x)) as [f st1].
    rewrite <- (snoc_app k x r) in H. case_match; [done|]. case_match; [|done].
    by rewrite (IH (k ++ [x]) s b) by (done || lia).
  - rewrite <- (snoc_app k x r) in H. by rewrite (IH (k ++ [x]) s b) by (done || lia).
Qed.
End ReadSpec.

Section ClearSpec.
Context {St : Type} (callback : option (St -> Z -> Z -> Z * St * Z)).

(** Clearing shows every entry to the callback, if there is one, and drops a
    reference to the data pointer that is left in it. *)
Fixpoint clear_spec (st : St) (l : list item) : outcome (St * list ref_op) :=
  match l with
  | [] => Ret (st, [])
  | x :: r =>
    '(st, d) ← (match callback with
      | Some callback =>
        let '(ret, st, d) := callback st (i_data x) (i_size x) in
        if ret =? RRR_FIFO_OK then Ret (st, d) else Bug
      | None => Ret (st, i_data x)
      end);
    '(st, ops) ← clear_spec st r; Ret (st, decref_op d ++ ops)
  end.

Lemma clear_loop_correct r : forall c s st fuel,
  linked (mem s) (mk_fifo (head_or NULL r) (last_addr r) c) r -> (length r <= fuel)%nat ->
  match clear_spec st r with
  | Ret (st', ops) => exists s', clear_loop callback fuel s (head_or NULL r) st = Ret (s', st') /\
      refs s' = refs s ++ ops /\ memory_step (mem s) r (mem s') []
  | Bug => clear_loop callback fuel s (head_or NULL r) st = Bug
  | Oob => False
  end.
Proof.
  induction r as [|x r IH]; intros c s st fuel H Hf.
  { exists s. rewrite app_nil_r. split_and!; [by destruct fuel|done|apply memory_step_refl]. }
  destruct fuel as [|fuel]; simpl length in *; [lia|]. cbn [clear_loop clear_spec head_or].
  rewrite (addr_neqb _ _ [] _ _ H), (load_linked _ _ [] _ _ H).
  cbn [mbind outcome_bind entry_of data size next].
  destruct (linked_addr _ _ [] _ _ H) as (Hx0 & _ & _ & Hxm).
  pose proof (linked_tail _ _ c _ _ H) as Ht.
  assert (forall st1 e1 s1, mem s1 = <[i_addr x := e1]> (mem s) -> refs s1 = refs s ->
    match '(st, ops) ← clear_spec st1 r; Ret (st, decref_op (data e1) ++ ops) with
    | Ret (st', ops) => exists s', (s ← rrr_fifo_entry_destroy s1 (i_addr x);
        clear_loop callback fuel s (head_or NULL r) st1) = Ret (s', st') /\
        refs s' = refs s ++ ops /\ memory_step (mem s) (x :: r) (mem s') []
    | Bug => (s ← rrr_fifo_entry_destroy s1 (i_addr x);
        clear_loop callback fuel s (head_or NULL r) st1) = Bug
    | Oob => False
    end) as Hnext.
  { intros st1 e1 s1 Hs1 Hr1.
    rewrite (destroy_Some s1 _ e1); [|done|rewrite Hs1; apply lookup_insert_eq].
    rewrite Hs1, Hr1, delete_insert_eq. cbn [mbind outcome_bind].
    specialize (IH c (mk_store (delete (i_addr x) (mem s)) (refs s ++ decref_op (data e1)))
      st1 fuel Ht ltac:(lia)).
    destruct (clear_spec st1 r) as [[st' ops]| |]; simpl; [|done..].
    destruct IH as (s' & -> & Hr & Hm). exists s'. split_and!; [done| |].
    - rewrite Hr. simpl. by rewrite app_assoc.
    - eapply memory_step_trans; [|apply memory_step_head|exact Hm]. set_solver. }
  destruct callback as [cb|].
  - destruct (cb st (i_data x) (i_size x)) as [[ret st1] d].
    destruct (ret =? RRR_FIFO_OK); simpl negb; cbn iota; [|done].
    rewrite (assign_Some _ _ _ _ Hx0 Hxm). cbn [mbind outcome_bind].
    by apply (Hnext st1 (mk_entry d (i_size x) (i_order x) (head_or NULL r))).
  - cbn [mbind outcome_bind]. apply (Hnext st (entry_of x (head_or NULL r))); [|done].
    by rewrite insert_id.
Qed.
End ClearSpec.

(** * Searching and replacing *)

Section ReplaceSpec.
Context {St : Type} (callback : St -> Z -> Z -> Z -> Z * St * (Z * Z * Z)).

(** Entries are kept, given away or replaced in place.  [stale] tells that the
    loop's [prev] is not the entry before the current one, which is so after a
    replacement until an entry is kept; giving an entry away then has no meaning
    ([Oob]).  The status, the callback's state, the entries left, the reference
    count calls, and how many entries were given away or replaced. *)
Fixpoint replace_spec (stale : bool) (st : St) (l : list item)
  : outcome (Z * St * list item * list ref_op * Z) :=
  match l with
  | [] => Ret (0, st, [], [], 0)
  | x :: r =>
    let '(actions, st, (d, sz, o)) := callback st (i_data x) (i_size x) (i_order x) in
    let free := has actions RRR_FIFO_SEARCH_FREE in
    let stop := has actions RRR_FIFO_SEARCH_STOP in
    if actions =? RRR_FIFO_SEARCH_KEEP then
      '(ret, st, r', ops, n) ← replace_spec false st r; Ret (ret, st, x :: r', ops, n)
    else if has actions RRR_FIFO_CALLBACK_ERR
    then Ret (RRR_FIFO_CALLBACK_ERR, st, x :: r, [], 0)
    else if has actions RRR_FIFO_SEARCH_GIVE then
      if has actions RRR_FIFO_SEARCH_REPLACE then Bug
      else if stale then Oob
      else if stop then Ret (0, st, r, give_op actions (i_data x), 1)
      else '(ret, st, r', ops, n) ← replace_spec false st r;
           Ret (ret, st, r', give_op actions (i_data x) ++ ops, n + 1)
    else if has actions RRR_FIFO_SEARCH_REPLACE then
      let x' := mk_item (i_addr x) d sz o in
      let ops1 := give_op actions (i_data x) ++ incref_op d in
      if (if free then i_data x else NULL) =? d then Bug
      else if stop then Ret (0, st, x' :: r, ops1, 1)
      else '(ret, st, r', ops, n) ← replace_spec true st r;
           Ret (ret, st, x' :: r', ops1 ++ ops, n + 1)
    else if stop then Ret (0, st, x :: r, [], 0)
    else Bug
  end.
End ReplaceSpec.

(** Rewriting an entry in place. *)
Lemma linked_update m b k x x' r : i_addr x' = i_addr x -> linked m b (k ++ x :: r) ->
  linked (<[i_addr x := entry_of x' (head_or NULL r)]> m) b (k ++ x' :: r).
Proof.
  intros Ha H. destruct (linked_addr _ _ _ _ _ H) as (_ & Hk & Hr & _).
  destruct H as (Hn & H0 & Hc & Hf & Hl).
  assert (addrs (k ++ x' :: r) = addrs (k ++ x :: r)) as E by (rewrite !map_app; simpl; congruence).
  split_and!; [by rewrite E..| | |].
  - apply chain_app in Hc as (Hck & _ & Hcr). apply chain_app. split; [|split].
    + simpl. rewrite Ha. eapply chain_ext; [|exact Hck]. intros a Hin.
      apply lookup_insert_ne. set_solver.
    + rewrite Ha. apply lookup_insert_eq.
    + eapply chain_ext; [|exact Hcr]. intros a Hin. apply lookup_insert_ne. set_solver.
  - rewrite Hf. destruct k; simpl; congruence.
  - rewrite Hl. unfold last_addr. by rewrite E.
Qed.

Lemma memory_step_same m l m' l' : addrs l' = addrs l ->
  (forall a, a ∉ addrs l -> m' !! a = m !! a) -> memory_step m l m' l'.
Proof. intros E H a Ha. rewrite E in Ha. rewrite decide_False by done. by apply H. Qed.

(** [GIVE] in [rrr_fifo_search_and_replace]: the data is released first. *)
Lemma replace_give s b k x r actions : linked (mem s) b (k ++ x :: r) ->
  exists s1 s2 b2 s3, release_unless_free s actions (i_addr x) = Ret s1 /\
    unlink s1 b (last_addr k) (i_addr x) = Ret (s2, b2) /\
    rrr_fifo_entry_destroy s2 (i_addr x) = Ret s3 /\
    linked (mem s3) b2 (k ++ r) /\ entry_count b2 = entry_count b /\
    refs s3 = refs s ++ give_op actions (i_data x) /\
    memory_step (mem s) (k ++ x :: r) (mem s3) (k ++ r).
Proof.
  intros H. destruct (linked_addr _ _ _ _ _ H) as (Hx0 & _ & _ & Hxm).
  destruct (linked_parts _ _ _ _ _ H) as (_ & _ & _ & Hx).
  set (x0 := mk_item (i_addr x) (if has actions RRR_FIFO_SEARCH_FREE then i_data x else NULL)
    (if has actions RRR_FIFO_SEARCH_FREE then i_size x else 0) (i_order x)).
  set (s1 := mk_store (<[i_addr x := entry_of x0 (head_or NULL r)]> (mem s)) (refs s)).
  assert (release_unless_free s actions (i_addr x) = Ret s1) as E1.
  { unfold release_unless_free. subst s1 x0. destruct (has actions RRR_FIFO_SEARCH_FREE); simpl.
    - unfold entry_of in *. simpl. rewrite insert_id by done. by destruct s.
    - by rewrite (release_Some _ _ _ Hx0 Hxm). }
  assert (linked (mem s1) b (k ++ x0 :: r)) as H1 by (by apply linked_update).
  destruct (unlink_linked s1 b k x0 r H1) as (s2 & b2 & E2 & Hr2 & Hc2 & Hl2 & Hm2).
  simpl in E2, Hl2.
  assert (mem s2 !! i_addr x = Some (entry_of x0 (head_or NULL r))) as Hx2
    by (rewrite Hm2 by done; apply lookup_insert_eq).
  eexists s1, s2, b2, _. split_and!; [done|done|by apply (destroy_Some _ _ _ Hx0 Hx2)|..]; simpl.
  - done.
  - done.
  - rewrite Hr2. subst s1 x0. simpl. unfold give_op, decref_op. by destruct (has _ _).
  - intros a Ha. case_decide as Hd; rewrite addrs_middle in Hd.
    + apply elem_of_cons in Hd as [->|Hd]; [apply lookup_delete_eq|done].
    + rewrite lookup_delete_ne by set_solver. rewrite Hm2 by done.
      apply lookup_insert_ne. set_solver.
Qed.

Lemma replace_entry_Some s b a e d sz o : a <> NULL -> mem s !! a = Some e -> data e <> d ->
  0 <= entry_count b -> entry_count b + 1 < 2 ^ 32 ->
  replace_entry s b a d sz o =
    Ret (0, mk_store (<[a := mk_entry d sz o (next e)]> (mem s))
              (refs s ++ decref_op (data e) ++ incref_op d), set_count b (entry_count b + 1)).
Proof.
  intros H0 H Hd Hc0 Hc. unfold replace_entry. rewrite (load_Some _ _ _ H0 H).
  cbn [mbind outcome_bind]. rewrite (proj2 (Z.eqb_neq _ _) Hd).
  assert (exists s1 e1, rrr_fifo_entry_decref_data s a = Ret s1 /\ mem s1 = <[a := e1]> (mem s) /\
    next e1 = next e /\ refs s1 = refs s ++ decref_op (data e)) as (s1 & e1 & -> & Hm & Hn & Hr).
  { unfold rrr_fifo_entry_decref_data, decref_op. rewrite (load_Some _ _ _ H0 H).
    cbn [mbind outcome_bind]. destruct (data e =? NULL); simpl.
    - exists s, e. by rewrite insert_id, app_nil_r.
    - rewrite (assign_Some (log_ref s _) _ _ _ H0 H). by eexists _, _. }
  cbn [mbind outcome_bind].
  assert (mem s1 !! a = Some e1) as H1 by (by rewrite Hm, lookup_insert_eq).
  rewrite (load_Some _ _ _ H0 H1). cbn [mbind outcome_bind].
  rewrite (assign_Some _ _ _ _ H0 H1). cbn [mbind outcome_bind].
  unfold rrr_fifo_entry_incref_data.
  rewrite (load_Some _ _ (mk_entry d sz o (next e1))); [|done|apply lookup_insert_eq].
  cbn [mbind outcome_bind data]. unfold Types.rrr_length_inc_err, Types.rrr_length_dec_bug.
  rewrite wrap_small by lia.
  assert ((entry_count b + 1 =? 0) = false) as E by (apply Z.eqb_neq; lia). rewrite E.
  cbn [negb Z.eqb]. rewrite E. cbn [mbind outcome_bind]. rewrite Hm, insert_insert_eq, Hn, Hr. unfold incref_op.
  destruct (d =? NULL); simpl; [by rewrite (app_nil_r (decref_op _))|].
  unfold log_ref. simpl. by rewrite <- app_assoc.
Qed.

(** [REPLACE] *)
Lemma replace_in_place s b k x r actions d sz o : linked (mem s) b (k ++ x :: r) ->
  0 <= entry_count b -> entry_count b + 1 < 2 ^ 32 ->
  exists s1, release_unless_free s actions (i_addr x) = Ret s1 /\
    if (if has actions RRR_FIFO_SEARCH_FREE then i_data x else NULL) =? d
    then replace_entry s1 b (i_addr x) d sz o = Bug
    else exists s2 b2, replace_entry s1 b (i_addr x) d sz o = Ret (0, s2, b2) /\
      linked (mem s2) b2 (k ++ mk_item (i_addr x) d sz o :: r) /\
      entry_count b2 = entry_count b + 1 /\
      refs s2 = refs s ++ give_op actions (i_data x) ++ incref_op d /\
      memory_step (mem s) (k ++ x :: r) (mem s2) (k ++ mk_item (i_addr x) d sz o :: r).
Proof.
  intros H Hc0 Hc. destruct (linked_addr _ _ _ _ _ H) as (Hx0 & _ & _ & Hxm).
  set (d0 := if has actions RRR_FIFO_SEARCH_FREE then i_data x else NULL).
  assert (exists s1 e1, release_unless_free s actions (i_addr x) = Ret s1 /\
    mem s1 = <[i_addr x := e1]> (mem s) /\ refs s1 = refs s /\ data e1 = d0 /\
    next e1 = head_or NULL r) as (s1 & e1 & -> & Hm1 & Hr1 & Hd1 & Hn1).
  { unfold release_unless_free. subst d0. destruct (has actions RRR_FIFO_SEARCH_FREE); simpl.
    - eexists s, _. by rewrite (insert_id _ _ _ Hxm).
    - rewrite (release_Some _ _ _ Hx0 Hxm). by eexists _, _. }
  exists s1. split; [done|].
  assert (mem s1 !! i_addr x = Some e1) as H1 by (by rewrite Hm1, lookup_insert_eq).
  destruct (Z.eqb_spec d0 d) as [E|E].
  { unfold replace_entry. rewrite (load_Some _ _ _ Hx0 H1). simpl.
    by rewrite Hd1, E, Z.eqb_refl. }
  rewrite (replace_entry_Some s1 b _ e1) by (done || congruence).
  eexists _, _. split; [done|]. simpl. rewrite Hm1, insert_insert_eq, Hn1, Hr1, Hd1.
  split_and!; [|done| |].
  - destruct (linked_update (mem s) b k x (mk_item (i_addr x) d sz o) r eq_refl H)
      as (? & ? & ? & ? & ?). by split_and!.
  - unfold give_op. subst d0. by destruct (has _ _).
  - apply memory_step_same; [by rewrite !map_app|]. intros a Ha. apply lookup_insert_ne.
    rewrite addrs_middle in Ha. set_solver.
Qed.

Section ReplaceProof.
Context {St : Type}.

(** What the loop makes of the entries [r] that follow [k]; nothing is said when
    the specification has no meaning. *)
Definition replace_post (s : store) (b : rrr_fifo) (k r : list item)
    (spec : outcome (Z * St * list item * list ref_op * Z))
    (res : outcome (Z * bool * store * rrr_fifo * St)) : Prop :=
  match spec with
  | Ret (ret, st', r', ops, n) => exists s' b', res = Ret (ret, false, s', b', st') /\
    linked (mem s') b' (k ++ r') /\
    entry_count b' - Z.of_nat (length r') = entry_count b - Z.of_nat (length r) + n /\
    0 <= n <= Z.of_nat (length r) /\ (length r' <= length r)%nat /\
    refs s' = refs s ++ ops /\ memory_step (mem s) (k ++ r) (mem s') (k ++ r')
  | Bug => res = Bug
  | Oob => True
  end.

Lemma replace_post_stop s b k r ret st : linked (mem s) b (k ++ r) ->
  replace_post s b k r (Ret (ret, st, r, [], 0)) (Ret (ret, false, s, b, st)).
Proof.
  intros H. eexists s, b. rewrite app_nil_r. split_and!; try done; try lia.
  apply memory_step_refl.
Qed.

Lemma replace_post_keep s b k x r spec res : replace_post s b (k ++ [x]) r spec res ->
  replace_post s b k (x :: r) ('(ret, st, r', ops, n) ← spec; Ret (ret, st, x :: r', ops, n)) res.
Proof.
  destruct spec as [[[[[ret st] r'] ops] n]| |]; simpl; [|done..]. rewrite !snoc_app.
  intros (s' & b' & -> & Hl & Hc & Hn & Hlen & Hr & Hm).
  eexists s', b'. split_and!; try done; lia.
Qed.

(** One entry given away or replaced, then the rest: [x'] is what is left of [x]. *)
Lemma replace_post_step s b k x x' r s1 b1 ops1 spec res :
  entry_count b1 = entry_count b + Z.of_nat (length x') -> (length x' <= 1)%nat ->
  refs s1 = refs s ++ ops1 -> (forall a, a ∈ addrs x' -> a = i_addr x) ->
  memory_step (mem s) (k ++ x :: r) (mem s1) (k ++ x' ++ r) ->
  replace_post s1 b1 (k ++ x') r spec res ->
  replace_post s b k (x :: r)
    ('(ret, st, r', ops, n) ← spec; Ret (ret, st, x' ++ r', ops1 ++ ops, n + 1)) res.
Proof.
  intros Hb Hx' Hr1 Ha Hm1. destruct spec as [[[[[ret st] r'] ops] n]| |]; simpl; [|done..].
  rewrite <- !app_assoc. intros (s' & b' & -> & Hl & Hc & Hn & Hlen & Hr & Hm).
  eexists s', b'. rewrite length_app.
  split_and!; try done; try lia.
  - by rewrite Hr, Hr1, app_assoc.
  - eapply memory_step_trans; [|exact Hm1|exact Hm].
    intros a. rewrite addrs_middle, !map_app. set_solver.
Qed.

Lemma replace_post_last s b k x x' r s1 b1 ops1 st :
  entry_count b1 = entry_count b + Z.of_nat (length x') -> (length x' <= 1)%nat ->
  refs s1 = refs s ++ ops1 -> (forall a, a ∈ addrs x' -> a = i_addr x) ->
  memory_step (mem s) (k ++ x :: r) (mem s1) (k ++ x' ++ r) ->
  linked (mem s1) b1 (k ++ x' ++ r) ->
  replace_post s b k (x :: r) (Ret (0, st, x' ++ r, ops1, 1)) (Ret (0, false, s1, b1, st)).
Proof.
  intros ? ? ? Ha ? ?. rewrite <- (app_nil_r ops1).
  eapply (replace_post_step s b k x x' r s1 b1 ops1 (Ret (0, st, r, [], 0))); try done.
  apply replace_post_stop. by rewrite <- app_assoc.
Qed.

Context (callback : St -> Z -> Z -> Z -> Z * St * (Z * Z * Z)).

Lemma replace_loop_correct r : forall k s b prev stale st fuel,
  linked (mem s) b (k ++ r) -> (length r <= fuel)%nat ->
  (stale = false -> prev = last_addr k) ->
  Z.of_nat (length r) <= entry_count b -> entry_count b + Z.of_nat (length r) < 2 ^ 32 ->
  replace_post s b k r (replace_spec callback stale st r)
    (replace_loop callback fuel s b prev (head_or NULL r) st).
Proof.
  induction r as [|x r IH]; intros k s b prev stale st fuel H Hf Hp H0 Hc.
  { destruct fuel; by apply replace_post_stop. }
  destruct fuel as [|fuel]; simpl length in *; [lia|].
  cbn [replace_loop replace_spec head_or].
  rewrite (addr_neqb _ _ _ _ _ H), (load_linked _ _ _ _ _ H).
  cbn [mbind outcome_bind entry_of data size next order].
  destruct (callback st (i_data x) (i_size x) (i_order x)) as [[actions st1] [[d sz] o]].
  destruct (actions =? RRR_FIFO_SEARCH_KEEP).
  { apply replace_post_keep, IH; rewrite ?snoc_app, ?last_addr_snoc; (done || lia). }
  destruct (has actions RRR_FIFO_CALLBACK_ERR); [by apply replace_post_stop|].
  rewrite has_lor. destruct (has actions RRR_FIFO_SEARCH_GIVE) eqn:Eg.
  - rewrite orb_true_r. destruct (replace_give s b k x r actions H)
      as (s1 & s2 & b2 & s3 & -> & E2 & E3 & Hl & Hcnt & Hr & Hm).
    cbn [mbind outcome_bind]. destruct (has actions RRR_FIFO_SEARCH_REPLACE); [done|].
    destruct stale; [done|]. rewrite (Hp eq_refl), E2. cbn [mbind outcome_bind]. rewrite E3.
    cbn [mbind outcome_bind]. unfold Types.rrr_length_dec_bug. rewrite Hcnt.
    rewrite (proj2 (Z.eqb_neq (entry_count b) 0)) by lia. cbn [mbind outcome_bind negb Z.eqb].
    assert (set_count b2 (entry_count b) = b2) as -> by (destruct b2; simpl in *; by subst).
    destruct (has actions RRR_FIFO_SEARCH_STOP).
    + apply (replace_post_last s b k x []); simpl; (done || set_solver || lia).
    + apply (replace_post_step s b k x [] r s3 b2); simpl;
        [lia|lia|done|set_solver|done|]. rewrite app_nil_r. apply IH; (done || lia).
  - rewrite orb_false_r. destruct (has actions RRR_FIFO_SEARCH_REPLACE).
    + destruct (replace_in_place s b k x r actions d sz o H) as (s1 & -> & HR); [lia..|].
      cbn [mbind outcome_bind]. destruct (_ =? d); [by rewrite HR|].
      destruct HR as (s2 & b2 & -> & Hl & Hcnt & Hr & Hm). cbn [mbind outcome_bind negb Z.eqb].
      destruct (has actions RRR_FIFO_SEARCH_STOP).
      * apply (replace_post_last s b k x [mk_item (i_addr x) d sz o]); simpl;
          (done || set_solver || lia).
      * apply (replace_post_step s b k x [mk_item (i_addr x) d sz o] r s2 b2); simpl;
          [lia|lia|done|set_solver|done|]. apply IH; rewrite ?snoc_app; (done || lia).
    + destruct (has actions RRR_FIFO_SEARCH_STOP); [by apply replace_post_stop|done].
Qed.
End ReplaceProof.

(** * Theorems *)

Lemma sub_bug_small a b : 0 <= b <= a -> a < 2 ^ 32 -> Types.rrr_length_sub_bug a b = Ret (a - b).
Proof.
  intros. unfold Types.rrr_length_sub_bug. rewrite wrap_small by lia.
  by rewrite (proj2 (Z.ltb_ge a (a - b))) by lia.
Qed.

Lemma holds_nil_or s b l : holds s b l ->
  (l = [] /\ (entry_count b =? 0) = true) \/ (l <> [] /\ (entry_count b =? 0) = false).
Proof.
  intros (_ & Hc & _). rewrite Z.add_0_r in Hc. rewrite Hc. destruct l; [left|right];
    (split; [done|]); [done|]. apply Z.eqb_neq. simpl. lia.
Qed.

Lemma linked_set_count m b l n : linked m (set_count b n) l <-> linked m b l.
Proof. done. Qed.

Lemma linked_self m b l c : linked m b l ->
  linked m (mk_fifo (head_or NULL l) (last_addr l) c) l.
Proof. intros (? & ? & ? & ? & ?). by split_and!. Qed.

Lemma linked_fuel s b l : linked (mem s) b l -> (length l <= walk_fuel s)%nat.
Proof. intros H. unfold walk_fuel. pose proof (linked_length _ _ _ H). lia. Qed.

(** What an operation on a buffer that holds [l] makes of it, given the result of
    the operation on the list: the status and the callback's state are those of
    the list operation, the buffer holds the list it leaves, [incref] and
    [decref] are called as it says, removed entries are freed and no other memory
    is touched; the process aborts exactly when it says so. *)
Definition implements {St} (s : store) (l : list item)
    (spec : outcome (Z * St * list item * list ref_op))
    (res : outcome (Z * store * rrr_fifo * St)) : Prop :=
  match spec with
  | Ret (ret, st', l', ops) => exists s' b',
    res = Ret (ret, s', b', st') /\ holds s' b' l' /\ refs s' = refs s ++ ops /\
    memory_step (mem s) l (mem s') l'
  | Bug => res = Bug
  | Oob => False
  end.

Lemma implements_empty {St} s b (st : St) : holds s b [] ->
  implements s [] (Ret (0, st, [], [])) (Ret (0, s, b, st)).
Proof.
  intros H. eexists s, b. rewrite app_nil_r. by split_and!; [..|apply memory_step_refl].
Qed.

(** As [implements], with the status told apart only as success and failure. *)
Definition implements_or_fails {St} (s : store) (l : list item)
    (spec : outcome (Z * St * list item * list ref_op))
    (res : outcome (Z * store * rrr_fifo * St)) : Prop :=
  match spec with
  | Ret (ret, st', l', ops) => exists ret' s' b',
    res = Ret (ret', s', b', st') /\ (ret' = 0 <-> ret = 0) /\ holds s' b' l' /\
    refs s' = refs s ++ ops /\ memory_step (mem s) l (mem s') l'
  | Bug => res = Bug
  | Oob => False
  end.

Lemma implements_weaken {St} s l spec (res : outcome (Z * store * rrr_fifo * St)) :
  implements s l spec res -> implements_or_fails s l spec res.
Proof.
  destruct spec as [[[[ret st'] l'] ops]| |]; [|done..].
  intros (s' & b' & ? & ? & ? & ?). exists ret, s', b'. by split_and!.
Qed.

Lemma search_implements {St} (callback : St -> Z -> Z -> Z * St) s b l st :
  holds s b l ->
  implements s l (search_spec callback st l) (rrr_fifo_search callback s b st).
Proof.
  intros H. unfold rrr_fifo_search, rrr_fifo_get_entry_count.
  destruct (holds_nil_or _ _ _ H) as [[-> ->]|[_ ->]]; [by apply implements_empty|].
  destruct H as (Hl & Hc & _ & Hlen). pose proof Hl as (_ & _ & _ & Hf & _).
  pose proof (search_loop_correct callback l [] s b 0 st (walk_fuel s) Hl
    (linked_fuel _ _ _ Hl) ltac:(lia) ltac:(lia)) as Hs.
  change (last_addr []) with NULL in Hs. rewrite Hf.
  destruct (search_spec callback st l) as [[[[ret st'] l'] ops]| |]; simpl in *;
    [|by rewrite Hs|done].
  destruct Hs as (s' & b' & -> & Hl' & Hc' & Hr & Hm & Hle). simpl.
  rewrite sub_bug_small by lia. simpl. eexists s', _. split_and!; try done.
  split_and!; simpl; (done || lia).
Qed.

(** C25. Searching a buffer is searching its list of entries: every entry is
    offered to the callback in order and kept, given away, or given away with its
    data released, until the callback stops or fails; the links, both end
    pointers, the counter, the reference counts and the memory of the removed
    entries are right afterwards, and the search ends.  It returns 0 unless the
    callback failed, in which case the entry and those behind it stay and the
    status is not 0; which one is left open here, since the comment at
    fifo.c:149-152 says 1 and the code returns RRR_FIFO_CALLBACK_ERR.  The process
    aborts exactly when the callback returns a value that neither keeps, gives,
    stops nor fails. *)
Theorem rrr_fifo_search_correct {St} (callback : St -> Z -> Z -> Z * St) s b l st :
  holds s b l ->
  implements_or_fails s l (search_spec callback st l) (rrr_fifo_search callback s b st).
Proof. intros H. by apply implements_weaken, search_implements. Qed.

Lemma forward_all_implements {St} (callback : St -> Z -> Z -> Z * St) s b l st :
  holds s b l ->
  implements s l (forward_spec callback st l) (rrr_fifo_read_clear_forward_all callback s b st).
Proof.
  intros H. unfold rrr_fifo_read_clear_forward_all, rrr_fifo_get_entry_count.
  destruct (holds_nil_or _ _ _ H) as [[-> ->]|[_ ->]]; [by apply implements_empty|].
  destruct H as (Hl & Hc & _ & Hlen). pose proof Hl as (_ & _ & _ & Hf & Hla).
  pose proof (forward_loop_correct callback l (entry_count b) s 0 st (walk_fuel s)
    (linked_self _ _ _ _ Hl) (linked_fuel _ _ _ Hl) ltac:(lia) ltac:(lia)) as Hs.
  rewrite Hf, Hla.
  destruct (forward_spec callback st l) as [[[[ret st'] l'] ops]| |]; simpl in *;
    [|by rewrite Hs|done].
  destruct Hs as (s' & b' & -> & Hl' & Hc' & Hr & Hm & Hle). simpl.
  rewrite sub_bug_small by lia. simpl. eexists s', _. split_and!; try done.
  split_and!; simpl; (done || lia).
Qed.

(** Reading and clearing a buffer hands its entries to the callback in order,
    each once, and removes exactly the entries handed over; when the callback
    stops or fails the entries not yet read are put back in order. *)
Lemma rrr_fifo_read_clear_forward_all_correct {St} (callback : St -> Z -> Z -> Z * St) s b l st :
  holds s b l ->
  implements s l (forward_spec callback st l) (rrr_fifo_read_clear_forward_all callback s b st).
Proof. apply forward_all_implements. Qed.

(** C26. Writing with a callback that is called again while it asks for it puts
    each entry it fills in at the end of the queue, or in its place by order,
    takes a reference to its data, and frees the entry when the callback fails or
    drops it; a failed allocation ends the loop with an error. *)
Theorem rrr_fifo_write_correct {St} (callback : St -> Z -> Z -> Z -> Z * St * (Z * Z * Z))
    malloc ok fuel s b l st :
  allocator malloc ok -> holds s b l -> Z.of_nat (length l + fuel) < 2 ^ 32 ->
  match write_spec callback true false ok fuel 0 st (map payload_of l) with
  | Ret (ret, st', q', ops) => exists s' b' l',
    rrr_fifo_write callback malloc fuel s b st = Ret (ret, s', b', st') /\
    holds s' b' l' /\ map payload_of l' = q' /\ refs s' = refs s ++ ops /\
    (forall a, a ∉ addrs l' -> mem s' !! a = mem s !! a)
  | Bug => rrr_fifo_write callback malloc fuel s b st = Bug
  | Oob => False
  end.
Proof.
  intros Ha H Hlen. unfold rrr_fifo_write.
  pose proof (write_loop_correct callback malloc ok Ha fuel 0 0 s b l st H ltac:(lia)) as Hw.
  destruct (write_spec _ _ _ _ _ _ _ _) as [[[[ret st'] q'] ops]| |]; simpl in Hw; [|done..].
  destruct Hw as (s' & b' & l' & E & Hh & Hq & Hr & _ & _ & Hm). by eexists s', b', l'.
Qed.

Lemma ordered_insert_sorted {A} (key : A -> Z) x l :
  StronglySorted Z.le (map key l) -> StronglySorted Z.le (map key (ordered_insert key x l)).
Proof.
  induction l as [|y l IH]; simpl; [by repeat constructor|]. intros Hs.
  apply StronglySorted_inv in Hs as [Hs Hy]. destruct (Z.ltb_spec (key y) (key x)); simpl.
  - constructor; [by apply IH|]. rewrite ordered_insert_perm. simpl. constructor; [lia|done].
  - constructor; [by constructor|]. constructor; [lia|].
    eapply Forall_impl; [exact Hy|]. intros z Hz. simpl in Hz. lia.
Qed.

Lemma insert_spec_sorted {A} (key : A -> Z) x l :
  StronglySorted Z.le (map key l) -> StronglySorted Z.le (map key (insert_spec key true x l)).
Proof.
  intros Hs. destruct l as [|y l _] using rev_ind; [by repeat constructor|].
  rewrite insert_spec_app. simpl. destruct (Z.ltb_spec (key y) (key x)); simpl;
    [|by apply ordered_insert_sorted].
  rewrite map_app. apply StronglySorted_app_2; [|done|by repeat constructor].
  rewrite map_app in Hs |- *. apply StronglySorted_app in Hs as [Hy _]. simpl in Hy.
  intros z1 z2 Hz1 Hz2. apply list_elem_of_singleton in Hz2 as ->. simpl in Hz1.
  apply elem_of_app in Hz1 as [Hz1|Hz1].
  - specialize (Hy z1 (key y) Hz1 ltac:(set_solver)). lia.
  - apply list_elem_of_singleton in Hz1 as ->. lia.
Qed.

Lemma return_check_ordered :
  rrr_fifo_write_callback_return_check RRR_FIFO_WRITE_ORDERED = Ret (0, true, false, false).
Proof. reflexivity. Qed.

(** C27. Ordered writing keeps a buffer that is sorted by order sorted, and adds
    exactly the entry the callback fills in. *)
Theorem rrr_fifo_ordered_write_sorted {St}
    (callback : St -> Z -> Z -> Z -> Z * St * (Z * Z * Z)) malloc s b l st st' d sz o :
  allocator malloc (fun _ => true) -> holds s b l -> Z.of_nat (length l) + 1 < 2 ^ 32 ->
  callback st NULL 0 0 = (RRR_FIFO_WRITE_ORDERED, st', (d, sz, o)) -> d <> NULL ->
  StronglySorted Z.le (map i_order l) ->
  exists s' b' l', rrr_fifo_write callback malloc 1 s b st = Ret (0, s', b', st') /\
    holds s' b' l' /\ StronglySorted Z.le (map i_order l') /\
    map payload_of l' ≡ₚ mk_payload d sz o :: map payload_of l /\
    refs s' = refs s ++ [Incref d].
Proof.
  intros Ha H Hlen Hcb Hd Hs. unfold rrr_fifo_write.
  pose proof (write_loop_correct callback malloc _ Ha 1 0 0 s b l st H ltac:(lia)) as Hw.
  cbn [write_spec] in Hw. unfold write_round_spec in Hw. cbn [negb] in Hw.
  rewrite Hcb, return_check_ordered in Hw. cbn [mbind outcome_bind] in Hw.
  rewrite (proj2 (Z.eqb_neq _ _) Hd) in Hw. simpl in Hw.
  destruct Hw as (s' & b' & l' & E & Hh & Hq & Hr & _). eexists s', b', l'.
  split_and!; try done.
  - assert (map i_order l' = map p_order (map payload_of l')) as -> by (by rewrite map_map).
    rewrite Hq. apply insert_spec_sorted. by rewrite map_map.
  - rewrite Hq. apply insert_spec_perm.
Qed.

(** A producer that writes the entries of a list, and a consumer that takes all
    it is given. *)
Definition producer (ps : list payload) (_ _ _ : Z) : Z * list payload * (Z * Z * Z) :=
  match ps with
  | [] => (RRR_FIFO_WRITE_DROP, [], (NULL, 0, 0))
  | [p] => (0, [], (p_data p, p_size p, p_order p))
  | p :: ps => (RRR_FIFO_WRITE_AGAIN, ps, (p_data p, p_size p, p_order p))
  end.

Definition consumer (got : list (Z * Z)) (d sz : Z) : Z * list (Z * Z) := (0, got ++ [(d, sz)]).

Lemma insert_spec_unordered {A} (key : A -> Z) x l : insert_spec key false x l = l ++ [x].
Proof. destruct l as [|y l _] using rev_ind; [done|]. by rewrite insert_spec_app. Qed.

Lemma write_spec_producer honour strict ps : forall n q, ps <> [] ->
  Forall (fun p => p_data p <> NULL) ps ->
  write_spec producer honour strict (fun _ => true) (length ps) n ps q =
    Ret (0, [], q ++ ps, map (fun p => Incref (p_data p)) ps).
Proof.
  induction ps as [|p ps IH]; intros n q Hne Hd; [done|].
  apply Forall_cons in Hd as [Hp Hd]. cbn [write_spec length].
  unfold write_round_spec. cbn [negb].
  assert (forall q, insert_spec p_order (honour && false) p q = q ++ [p]) as Hi
    by (intros q1; rewrite andb_false_r; apply insert_spec_unordered).
  destruct ps as [|p2 ps]; simpl producer; cbn iota.
  - change (rrr_fifo_write_callback_return_check 0) with (Ret (0, false, false, false)).
    cbn [mbind outcome_bind negb Z.eqb orb].
    rewrite (proj2 (Z.eqb_neq _ _) Hp). destruct p as [d sz o]. cbn [mbind outcome_bind].
    rewrite Hi, andb_false_r. done.
  - change (rrr_fifo_write_callback_return_check RRR_FIFO_WRITE_AGAIN)
      with (Ret (0, false, true, false)).
    cbn [mbind outcome_bind negb Z.eqb orb].
    rewrite (proj2 (Z.eqb_neq _ _) Hp). destruct p as [d sz o]. cbn [mbind outcome_bind p_data].
    rewrite Hi, orb_true_r, andb_true_r. rewrite IH by done. simpl. by rewrite <- app_assoc.
Qed.

Lemma forward_spec_consumer l : forall got, forward_spec consumer got l =
  Ret (0, got ++ map (fun x => (i_data x, i_size x)) l, [], []).
Proof.
  induction l as [|x l IH]; intros got; simpl; [by rewrite app_nil_r|].
  rewrite IH. by rewrite <- app_assoc.
Qed.

(** C24. First in, first out: whatever a producer writes to a buffer, after what
    the buffer held already, reaches a consumer that empties it in that order,
    each entry once; every entry is freed and the rest of memory is as before. *)
Theorem rrr_fifo_first_in_first_out malloc s b l ps :
  allocator malloc (fun _ => true) -> holds s b l ->
  Z.of_nat (length l + length ps) < 2 ^ 32 -> ps <> [] ->
  Forall (fun p => p_data p <> NULL) ps ->
  exists s1 b1 s2 b2, rrr_fifo_write producer malloc (length ps) s b ps = Ret (0, s1, b1, []) /\
    rrr_fifo_read_clear_forward_all consumer s1 b1 [] =
      Ret (0, s2, b2, map (fun x => (i_data x, i_size x)) l ++
                      map (fun p => (p_data p, p_size p)) ps) /\
    holds s2 b2 [] /\
    (forall a, mem s2 !! a = if decide (a ∈ addrs l) then None else mem s !! a).
Proof.
  intros Ha H Hlen Hne Hd. unfold rrr_fifo_write.
  pose proof (write_loop_correct producer malloc _ Ha (length ps) 0 0 s b l ps H ltac:(lia)) as Hw.
  rewrite write_spec_producer in Hw by done.
  destruct Hw as (s1 & b1 & l1 & E & Hh & Hq & _ & Hsub & Hnew & Hm1).
  pose proof (forward_all_implements consumer s1 b1 l1 [] Hh) as Hf.
  rewrite forward_spec_consumer in Hf. destruct Hf as (s2 & b2 & E2 & Hh2 & _ & Hm2).
  eexists s1, b1, s2, b2. split_and!; [done| |done|].
  - rewrite E2. simpl. do 2 f_equal.
    assert (map (fun x => (i_data x, i_size x)) l1 =
      map (fun p => (p_data p, p_size p)) (map payload_of l1)) as -> by (by rewrite map_map).
    by rewrite Hq, map_app, map_map.
  - intros a. rewrite Hm2 by (simpl; set_solver).
    destruct (decide (a ∈ addrs l)); [by rewrite decide_True by auto|]. case_decide; [|auto].
    destruct (Hnew a) as [|Hn]; done.
Qed.

Section ReplaceTheorem.
Context {St : Type} (callback : St -> Z -> Z -> Z -> Z * St * (Z * Z * Z)).

(** The pass over the entries and, if asked for and nothing failed, the writing
    of new entries at the end. *)
Definition search_and_replace_spec (ok : nat -> bool) (fuel : nat) (st : St) (l : list item)
    (call_again : bool) : outcome (Z * St * list payload * list ref_op * Z) :=
  '(ret, st, l, ops, n) ← replace_spec callback false st l;
  if (ret =? RRR_FIFO_OK) && call_again then
    '(ret, st, q, ops') ← write_spec callback false true ok fuel 0 st (map payload_of l);
    Ret (ret, st, q, ops ++ ops', n)
  else Ret (ret, st, map payload_of l, ops, n).
End ReplaceTheorem.

(** Search and replace does to the list of entries what the callback asks
    for, as long as no entry is given away right after one was replaced: entries
    are kept, given away or get new data in place, and new entries are added at
    the end if asked for.  The counter is not taken down when an entry is given
    away and goes up when one is replaced, so that it ends up above the number of
    entries by one for each. *)
Lemma rrr_fifo_search_and_replace_correct {St}
    (callback : St -> Z -> Z -> Z -> Z * St * (Z * Z * Z)) malloc ok fuel c s b l st call_again :
  allocator malloc ok -> counted c s b l ->
  2 * Z.of_nat (length l) + Z.of_nat fuel + c < 2 ^ 32 ->
  match search_and_replace_spec callback ok fuel st l call_again with
  | Ret (ret, st', q', ops, n) => exists s' b' l',
    rrr_fifo_search_and_replace callback malloc fuel s b st call_again = Ret (ret, s', b', st') /\
    counted (c + n) s' b' l' /\ map payload_of l' = q' /\ refs s' = refs s ++ ops /\
    memory_step (mem s) l (mem s') l'
  | Bug => rrr_fifo_search_and_replace callback malloc fuel s b st call_again = Bug
  | Oob => True
  end.
Proof.
  intros Ha (Hl & Hc & Hc0 & _) Hlen. pose proof Hl as (_ & _ & _ & Hf & _).
  unfold rrr_fifo_search_and_replace, search_and_replace_spec. rewrite Hf.
  pose proof (replace_loop_correct callback l [] s b NULL false st (walk_fuel s) Hl
    (linked_fuel _ _ _ Hl) ltac:(done) ltac:(lia) ltac:(lia)) as Hr.
  destruct (replace_spec callback false st l) as [[[[[ret st1] l1] ops] n]| |];
    [|by rewrite Hr|done].
  destruct Hr as (s1 & b1 & -> & Hl1 & Hc1 & Hn & Hle & Hr1 & Hm1).
  cbn [mbind outcome_bind negb andb].
  assert (counted (c + n) s1 b1 l1) as Hcnt by (split_and!; (done || lia)).
  destruct ((ret =? RRR_FIFO_OK) && call_again); cbn [mbind outcome_bind].
  2:{ by eexists s1, b1, l1. }
  pose proof (call_again_correct callback malloc ok Ha fuel (c + n) 0 s1 b1 l1 st1 Hcnt
    ltac:(lia)) as Hw.
  destruct (write_spec _ _ _ _ _ _ _ _) as [[[[ret2 st2] q] ops2]| |]; simpl in Hw |- *; [|done..].
  destruct Hw as (s2 & b2 & l2 & E2 & Hh & Hq & Hr2 & Hsub & _ & Hm2).
  eexists s2, b2, l2. split_and!; try done.
  - by rewrite Hr2, Hr1, app_assoc.
  - intros a Ha2. rewrite Hm2 by done. apply Hm1. auto.
Qed.

Lemma chain_join m k y r : i_addr y ∉ addrs k -> i_addr y ∉ addrs r ->
  chain m (k ++ [y]) NULL -> chain m r NULL ->
  chain (<[i_addr y := entry_of y (head_or NULL r)]> m) ((k ++ [y]) ++ r) NULL.
Proof.
  intros Hk Hr Hc Hcr. apply chain_app. split; [by eapply chain_relink|].
  eapply chain_ext; [|exact Hcr]. intros a Ha. apply lookup_insert_ne. set_solver.
Qed.

Lemma linked_join s bt lt bs ls c : linked (mem s) bt lt -> linked (mem s) bs ls ->
  (forall a, a ∈ addrs lt -> a ∉ addrs ls) -> lt <> [] -> ls <> [] ->
  gptr_last bt <> NULL /\
  exists s', set_next s (gptr_last bt) (gptr_first bs) = Ret s' /\
    linked (mem s') (mk_fifo (gptr_first bt) (gptr_last bs) c) (lt ++ ls) /\
    refs s' = refs s /\ (forall a, a ∉ addrs (lt ++ ls) -> mem s' !! a = mem s !! a).
Proof.
  intros (Hn1 & H01 & Hc1 & Hf1 & Hl1) (Hn2 & H02 & Hc2 & Hf2 & Hl2) Hd Ht Hs.
  destruct lt as [|y k _] using rev_ind; [done|]. rewrite last_addr_snoc in Hl1. rewrite Hl1, Hf2.
  assert (i_addr y <> NULL) as Hy0.
  { rewrite map_app in H01. apply Forall_app in H01 as [_ H01]. by inversion H01. }
  assert (i_addr y ∉ addrs k) as Hyk.
  { rewrite map_app in Hn1. apply NoDup_app in Hn1 as (_ & Hn1 & _). intros Hin.
    apply (Hn1 _ Hin). simpl. set_solver. }
  assert (i_addr y ∉ addrs ls) as Hys by (apply Hd; rewrite map_app; set_solver).
  pose proof Hc1 as Hc1'. apply chain_app in Hc1' as [_ [Hy _]].
  rewrite (set_next_Some _ _ _ _ Hy0 Hy). split; [done|]. eexists. split; [done|].
  split_and!; [|done|].
  - split_and!; simpl.
    + rewrite map_app. by apply NoDup_app.
    + rewrite map_app. by apply Forall_app.
    + by apply chain_join.
    + rewrite Hf1. by destruct k.
    + rewrite Hl2. destruct ls; [done|]. by rewrite last_addr_app.
  - intros a Ha. simpl. apply lookup_insert_ne. rewrite !map_app in Ha. set_solver.
Qed.

Lemma add_err_spec a b : 0 <= a < 2 ^ 32 -> 0 <= b < 2 ^ 32 ->
  Types.rrr_length_add_err a b = if a + b <? 2 ^ 32 then (0, a + b) else (1, a).
Proof.
  intros Ha Hb. unfold Types.rrr_length_add_err. destruct (Z.ltb_spec (a + b) (2 ^ 32)).
  - rewrite wrap_small by lia. by rewrite (proj2 (Z.ltb_ge _ _)) by lia.
  - assert (u32 (a + b) = a + b - 2 ^ 32) as ->.
    { unfold wrap. symmetry. apply Z.mod_unique with 1; lia. }
    by rewrite (proj2 (Z.ltb_lt _ _)) by lia.
Qed.

(** Merging moves the entries of the source, in order, to the end of the
    target and leaves the source empty; when the counter would overflow it fails
    and changes nothing. *)
Lemma rrr_fifo_merge_correct s bt lt bs ls :
  holds s bt lt -> holds s bs ls -> (forall a, a ∈ addrs lt -> a ∉ addrs ls) ->
  if Z.of_nat (length lt) + Z.of_nat (length ls) <? 2 ^ 32 then
    exists s' bt', rrr_fifo_merge s bt bs = Ret (0, s', bt', rrr_fifo_init) /\
      holds s' bt' (lt ++ ls) /\ refs s' = refs s /\
      (forall a, a ∉ addrs (lt ++ ls) -> mem s' !! a = mem s !! a)
  else rrr_fifo_merge s bt bs = Ret (1, s, bt, bs).
Proof.
  intros Ht Hs Hd. unfold rrr_fifo_merge. pose proof Hs as (Hls & Hcs & _ & Hlen).
  pose proof Hls as (_ & _ & _ & Hf2 & Hl2).
  destruct (holds_nil_or _ _ _ Hs) as [[-> ->]|[Hne ->]].
  { rewrite app_nil_r. pose proof Ht as (_ & _ & _ & Hlt). simpl length.
    destruct (Z.ltb_spec (Z.of_nat (length lt) + Z.of_nat 0) (2 ^ 32)); [|lia]. eexists s, bt.
    split_and!; try done. destruct bs; simpl in *. by subst. }
  destruct Ht as (Hlt & Hct & _ & Hlen'). rewrite Z.add_0_r in *.
  rewrite Hct, Hcs, add_err_spec by lia. destruct (_ <? 2 ^ 32) eqn:E; simpl.
  2:{ do 3 f_equal. rewrite <- Hct. by destruct bt. }
  apply Z.ltb_lt in E. set (c := Z.of_nat (length lt) + _) in *.
  destruct (decide (lt = [])) as [->|Ht].
  { destruct Hlt as (_ & _ & _ & _ & ->). simpl. eexists s, _. split_and!; try done.
    subst c. by split_and!; simpl in *; [..|lia|lia|lia]. }
  destruct (linked_join s bt lt bs ls c Hlt Hls Hd Ht Hne) as (H0 & s' & -> & Hl & Hr & Hm).
  unfold truth. rewrite (proj2 (Z.eqb_neq (gptr_last bt) 0) H0). simpl.
  eexists s', _. split; [done|]. split_and!; [|done|done].
  subst c. split_and!; simpl; rewrite ?length_app; (done || lia).
Qed.

(** Reading shows the entries to the callback in order and leaves the buffer
    alone; reading from a minimum order shows only the entries above it, at most
    the allowed number; clearing gives every entry to the callback and frees them
    all.  Each walk ends. *)
Lemma rrr_fifo_walks_correct {St} (callback : St -> Z -> Z -> Z * St)
    (clear_callback : option (St -> Z -> Z -> Z * St * Z)) s b l st last_element minimum_order :
  holds s b l ->
  rrr_fifo_read callback s b st = read_spec callback RRR_FIFO_OK st l /\
  rrr_fifo_read_minimum callback s b last_element minimum_order st =
    read_minimum_spec callback last_element minimum_order 0 st l /\
  match clear_spec clear_callback st l with
  | Ret (st', ops) => exists s',
    rrr_fifo_clear_with_callback clear_callback s b st = Ret (s', rrr_fifo_init, st') /\
    refs s' = refs s ++ ops /\
    (forall a, mem s' !! a = if decide (a ∈ addrs l) then None else mem s !! a)
  | Bug => rrr_fifo_clear_with_callback clear_callback s b st = Bug
  | Oob => False
  end.
Proof.
  intros H. unfold rrr_fifo_read, rrr_fifo_read_minimum, rrr_fifo_clear_with_callback,
    rrr_fifo_get_entry_count. pose proof H as (Hl & _).
  pose proof Hl as (_ & _ & _ & Hf & _). rewrite Hf.
  pose proof (linked_fuel _ _ _ Hl) as Hfuel.
  split_and!.
  - destruct (holds_nil_or _ _ _ H) as [[-> ->]|[_ ->]]; [done|].
    by apply (read_loop_correct callback l [] s b).
  - destruct (holds_nil_or _ _ _ H) as [[-> ->]|[_ ->]]; [done|].
    by apply (read_minimum_loop_correct callback l [] s b).
  - pose proof (clear_loop_correct clear_callback l 0 s st (walk_fuel s)
      (linked_self _ _ _ _ Hl) Hfuel) as Hc.
    destruct (clear_spec clear_callback st l) as [[st' ops]| |]; [|by rewrite Hc|done].
    destruct Hc as (s' & -> & Hr & Hm). eexists s'. split_and!; [done..|].
    intros a. apply Hm. simpl. set_solver.
Qed.

(** * Concrete buffers *)

(** Two entries at addresses 8 and 16, with data at 100 and 200. *)
Definition two_items : list item := [mk_item 8 100 3 1; mk_item 16 200 4 2].
Definition two_store : store :=
  mk_store (<[8 := mk_entry 100 3 1 16]> (<[16 := mk_entry 200 4 2 NULL]> ∅)) [].
Definition two_fifo : rrr_fifo := mk_fifo 8 16 2.

Lemma two_holds : holds two_store two_fifo two_items.
Proof.
  split_and!; [|done|done|done]. split_and!; [|repeat constructor; done| |done|done].
  - by apply (bool_decide_unpack _).
  - split_and!; done.
Qed.

Lemma two_sorted : StronglySorted Z.le (map i_order two_items).
Proof.
  simpl. repeat first [apply SSorted_nil | apply SSorted_cons | apply Forall_nil_2
    | apply Forall_cons_2]; lia.
Qed.

Definition fresh_malloc (n : nat) (m : gmap Z rrr_fifo_entry) : Z :=
  fresh ({[NULL]} ∪ dom m : gset Z).

Lemma fresh_allocator : allocator fresh_malloc (fun _ => true).
Proof.
  intros n m. simpl. pose proof (is_fresh ({[NULL]} ∪ dom m : gset Z)) as H.
  fold (fresh_malloc n m) in H. rewrite not_elem_of_union, not_elem_of_singleton in H.
  destruct H as [H1 H2]. split; [done|]. by apply not_elem_of_dom.
Qed.

(** The callback replaces the first entry and gives the second one away: the
    first entry still points to the second, which is freed, so that reading the
    buffer afterwards follows a dangling pointer. *)
Definition replace_then_give (n d sz o : Z) : Z * Z * (Z * Z * Z) :=
  if n =? 0 then (RRR_FIFO_SEARCH_REPLACE ||| RRR_FIFO_SEARCH_FREE, 1, (300, sz, o))
  else (RRR_FIFO_SEARCH_GIVE ||| RRR_FIFO_SEARCH_FREE, 1, (d, sz, o)).

Lemma rrr_fifo_replace_then_give_dangles :
  exists s b, rrr_fifo_search_and_replace replace_then_give fresh_malloc 1 two_store two_fifo 0 false
      = Ret (0, s, b, 1) /\
    mem s !! gptr_first b = Some (mk_entry 300 3 1 16) /\ mem s !! 16 = None /\
    rrr_fifo_read (fun (_ : unit) _ _ => (0, tt)) s b tt = Oob.
Proof. eexists _, _. split_and!; vm_compute; reflexivity. Qed.

Lemma rrr_fifo_ordered_drop_aborts : rrr_fifo_write_callback_return_check
  (RRR_FIFO_WRITE_ORDERED ||| RRR_FIFO_WRITE_DROP) = Bug.
Proof. reflexivity. Qed.

Lemma rrr_fifo_give_alone_aborts :
  rrr_fifo_search_return_value_process RRR_FIFO_SEARCH_GIVE = Bug /\
  returns (rrr_fifo_search (fun _ _ _ => (RRR_FIFO_SEARCH_GIVE, tt)) two_store two_fifo tt).
Proof. split; [reflexivity|]. eexists. vm_compute. reflexivity. Qed.

Lemma rrr_fifo_search_correct_witness :
  holds two_store two_fifo two_items /\
  implements_or_fails two_store two_items (Ret (0, tt, [mk_item 16 200 4 2], [Decref 100]))
    (rrr_fifo_search (fun _ d _ => (if d =? 100 then RRR_FIFO_SEARCH_GIVE ||| RRR_FIFO_SEARCH_FREE
       else RRR_FIFO_SEARCH_KEEP, tt)) two_store two_fifo tt).
Proof.
  split; [exact two_holds|].
  exact (rrr_fifo_search_correct (fun _ d _ => (if d =? 100
    then RRR_FIFO_SEARCH_GIVE ||| RRR_FIFO_SEARCH_FREE else RRR_FIFO_SEARCH_KEEP, tt))
    two_store two_fifo two_items tt two_holds).
Defined.

Definition two_payloads : list payload := [mk_payload 300 5 7; mk_payload 400 6 8].

Lemma rrr_fifo_write_correct_witness :
  exists s' b' l', rrr_fifo_write producer fresh_malloc 2 two_store two_fifo two_payloads
    = Ret (0, s', b', []) /\ holds s' b' l' /\
    map payload_of l' = map payload_of two_items ++ two_payloads /\
    refs s' = [Incref 300; Incref 400] /\
    (forall a, a ∉ addrs l' -> mem s' !! a = mem two_store !! a).
Proof.
  exact (rrr_fifo_write_correct producer fresh_malloc (fun _ => true) 2 two_store two_fifo
    two_items two_payloads fresh_allocator two_holds ltac:(simpl; lia)).
Defined.

Definition ordered_callback (st : unit) (_ _ _ : Z) : Z * unit * (Z * Z * Z) :=
  (RRR_FIFO_WRITE_ORDERED, tt, (300, 5, 2)).

Lemma rrr_fifo_ordered_write_sorted_witness :
  exists s' b' l', rrr_fifo_write ordered_callback fresh_malloc 1 two_store two_fifo tt
    = Ret (0, s', b', tt) /\
    holds s' b' l' /\ StronglySorted Z.le (map i_order l') /\
    map payload_of l' ≡ₚ mk_payload 300 5 2 :: map payload_of two_items /\
    refs s' = [Incref 300].
Proof.
  exact (rrr_fifo_ordered_write_sorted ordered_callback fresh_malloc two_store two_fifo two_items
    tt tt 300 5 2 fresh_allocator two_holds ltac:(simpl; lia) eq_refl ltac:(discriminate)
    two_sorted).
Defined.

Lemma rrr_fifo_first_in_first_out_witness :
  exists s1 b1 s2 b2,
    rrr_fifo_write producer fresh_malloc 2 two_store two_fifo two_payloads = Ret (0, s1, b1, []) /\
    rrr_fifo_read_clear_forward_all consumer s1 b1 [] =
      Ret (0, s2, b2, [(100, 3); (200, 4); (300, 5); (400, 6)]) /\
    holds s2 b2 [] /\
    (forall a, mem s2 !! a = if decide (a ∈ addrs two_items) then None else mem two_store !! a).
Proof.
  exact (rrr_fifo_first_in_first_out fresh_malloc two_store two_fifo two_items two_payloads
    fresh_allocator two_holds ltac:(simpl; lia) ltac:(discriminate)
    ltac:(repeat constructor; discriminate)).
Defined.

Definition replace_second (st : unit) (d sz o : Z) : Z * unit * (Z * Z * Z) :=
  if d =? 200 then (RRR_FIFO_SEARCH_REPLACE ||| RRR_FIFO_SEARCH_FREE, tt, (300, 9, o))
  else (RRR_FIFO_SEARCH_KEEP, tt, (d, sz, o)).

End Fifo.
