(* ===== verification/Mmap.v ===== *)
(** The heap allocator of lib/rrr_mmap.c, from which messages are allocated in
    memory shared between processes.  The heap holds its own administration:
    indexes of 64 block sizes and a map of used bits, each followed by the data
    of its blocks.  The theorems show that blocks in use never overlap each other
    or an index, and what is freed was in use. *)
From S2P Require Import Prelude.
From S2P Require Import Types.
From stdpp Require Import gmap list sorting.
Open Scope Z_scope.
Open Scope c_scope.

Module Mmap.

Definition RRR_MMAP_HEAP_CHUNK_MIN_SIZE : Z := 16.
Definition rrr_mmap_sentinel_template : Z := 0xa0a0a0a00a0a0a0a.
Definition sizeof_sentinel : Z := 8.
(** [struct rrr_mmap_heap_block_index]: the used map at 0, the sizes from 8. *)
Definition sizeof_index : Z := 520.
Definition block_sizes (j : Z) : Z := 8 + 8 * j.

(** A heap with its administration.  The heap is a map from offsets to 64-bit
    words; new memory is zero. *)
Record rrr_mmap := mk_mmap {
  heap : gmap Z Z;
  allocation_count : Z;
  heap_size : Z;
  prev_allocation_failure_req_size : Z;
  prev_allocation_index_pos : Z
}.

Definition word (m : rrr_mmap) (off : Z) : Z := default 0 (heap m !! off).

Definition inside (m : rrr_mmap) (off : Z) : bool := (0 <=? off) && (off + 8 <=? heap_size m).

Definition load (m : rrr_mmap) (off : Z) : outcome Z :=
  if inside m off then Ret (word m off) else Oob.

Definition with_heap (m : rrr_mmap) (h : gmap Z Z) : rrr_mmap :=
  mk_mmap h (allocation_count m) (heap_size m) (prev_allocation_failure_req_size m)
    (prev_allocation_index_pos m).

Definition store (m : rrr_mmap) (off v : Z) : outcome rrr_mmap :=
  if inside m off then Ret (with_heap m (<[off := v]> (heap m))) else Oob.

Definition set_failure (m : rrr_mmap) (n : Z) : rrr_mmap :=
  mk_mmap (heap m) (allocation_count m) (heap_size m) n (prev_allocation_index_pos m).
Definition set_index_pos (m : rrr_mmap) (p : Z) : rrr_mmap :=
  mk_mmap (heap m) (allocation_count m) (heap_size m) (prev_allocation_failure_req_size m) p.
Definition count_allocation (m : rrr_mmap) : rrr_mmap :=
  mk_mmap (heap m) (u64 (allocation_count m + 1)) (heap_size m)
    (prev_allocation_failure_req_size m) (prev_allocation_index_pos m).

(** Rounds for a walk over the indexes of a heap. *)
Definition walk_fuel (m : rrr_mmap) : nat := S (Z.to_nat (heap_size m)).

(** * Allocation *)

Inductive slot_result :=
| Found (pos : Z) (m : rrr_mmap)
| NoRoom
| NextIndex (block_pos : Z).

(** The merging loop: from slot [k], [n] slots are marked as used and empty. *)
Fixpoint merge_loop (n : nat) (k index : Z) (m : rrr_mmap) : outcome rrr_mmap :=
  match n with
  | O => Ret m
  | S n =>
    map ← load m index;
    m ← store m index (map ||| u64 (1 <<< k));
    m ← store m (index + block_sizes k) 0;
    merge_loop n (k + 1) index m
  end.

(** The [for] loop over the slots of the index at [index], from slot [j], with
    [n] slots left. *)
Fixpoint alloc_slots (n : nat) (j index block_pos merge_j merge_block_pos
    consecutive_unused_count consecutive_unused_size req_size_padded : Z) (m : rrr_mmap)
  : outcome slot_result :=
  match n with
  | O => Ret (NextIndex block_pos)
  | S n =>
    let used_mask := u64 (1 <<< j) in
    size ← load m (index + block_sizes j);
    map ← load m index;
    let used := map &&& used_mask =? used_mask in
    if size =? 0 then
      if used then
        alloc_slots n (j + 1) index block_pos merge_j merge_block_pos
          consecutive_unused_count consecutive_unused_size req_size_padded m
      else if heap_size m <? u64 (block_pos + req_size_padded) then Ret NoRoom
      else
        m ← store m (index + block_sizes j) req_size_padded;
        m ← store m index (map ||| used_mask);
        m ← store m (block_pos + req_size_padded - sizeof_sentinel) rrr_mmap_sentinel_template;
        Ret (Found block_pos m)
    else
      sentinel ← load m (block_pos + size - sizeof_sentinel);
      if negb (sentinel =? rrr_mmap_sentinel_template) then Bug
      else
        let next merge_j merge_block_pos count unused :=
          let block_pos := u64 (block_pos + size) in
          if heap_size m <? block_pos then Bug
          else alloc_slots n (j + 1) index block_pos merge_j merge_block_pos count unused
                 req_size_padded m in
        if negb used then
          let '(merge_j, merge_block_pos) :=
            if consecutive_unused_count =? 0 then (j, block_pos)
            else (merge_j, merge_block_pos) in
          let consecutive_unused_count := u64 (consecutive_unused_count + 1) in
          let consecutive_unused_size := u64 (consecutive_unused_size + size) in
          if req_size_padded <=? size then
            m ← store m index (map ||| used_mask);
            Ret (Found block_pos m)
          else if req_size_padded <=? consecutive_unused_size then
            m ← merge_loop (Z.to_nat (j - merge_j + 1)) merge_j index m;
            m ← store m (index + block_sizes merge_j) consecutive_unused_size;
            Ret (Found merge_block_pos m)
          else next merge_j merge_block_pos consecutive_unused_count consecutive_unused_size
        else next merge_j merge_block_pos 0 0
  end.

(** The result of the walk over the indexes: [None] for the end of the heap. *)
Fixpoint alloc_indexes (fuel : nat) (block_pos req_size_padded : Z) (m : rrr_mmap)
  : outcome (rrr_mmap * option (option Z)) :=
  if block_pos <? heap_size m then
    match fuel with
    | O => Oob
    | S fuel =>
      let m := set_index_pos m block_pos in
      let index := block_pos in
      let block_pos := u64 (block_pos + sizeof_index) in
      if heap_size m <? block_pos then Ret (m, Some None)
      else
        r ← alloc_slots 64 0 index block_pos 0 0 0 0 req_size_padded m;
        match r with
        | Found pos m => Ret (m, Some (Some pos))
        | NoRoom => Ret (m, Some None)
        | NextIndex block_pos => alloc_indexes fuel block_pos req_size_padded m
        end
    end
  else Ret (m, None).

(** The handle of the block, or [None] for [NULL]. *)
Definition rrr_mmap_allocate_with_handles (m : rrr_mmap) (req_size : Z)
  : outcome (option Z * rrr_mmap) :=
  if req_size =? 0 then Bug
  else
    let req_size := u64 (req_size + sizeof_sentinel) in
    let req_size_padded := u64 (u64 (req_size - req_size mod RRR_MMAP_HEAP_CHUNK_MIN_SIZE) +
                                RRR_MMAP_HEAP_CHUNK_MIN_SIZE) in
    let failed (m : rrr_mmap) := Ret (None, set_failure m req_size) in
    if truth (prev_allocation_failure_req_size m) &&
       (prev_allocation_failure_req_size m <=? req_size) then failed m
    else if u64 (heap_size m - sizeof_index) <? req_size then failed m
    else
      let block_pos := prev_allocation_index_pos m in
      '(m, r) ← alloc_indexes (walk_fuel m) block_pos req_size_padded m;
      '(m, r) ← (match r with
        | None => if 0 <? block_pos then alloc_indexes (walk_fuel m) 0 req_size_padded m
                  else Ret (m, None)
        | Some _ => Ret (m, r)
        end);
      match r with
      | Some (Some pos) => Ret (Some pos, count_allocation m)
      | _ => failed m
      end.

(** * Freeing *)

(** The [for] loop of [__rrr_mmap_free]: [inl] when the block was found. *)
Fixpoint free_slots (n : nat) (j index block_pos handle : Z) (m : rrr_mmap)
  : outcome (rrr_mmap + Z) :=
  match n with
  | O => Ret (inr block_pos)
  | S n =>
    let used_mask := u64 (1 <<< j) in
    size ← load m (index + block_sizes j);
    map ← load m index;
    if (size =? 0) && (map &&& used_mask =? used_mask)
    then free_slots n (j + 1) index block_pos handle m
    else if handle =? block_pos then
      if map &&& used_mask =? 0 then Bug
      else m ← store m index (map &&& u64 (Z.lnot used_mask)); Ret (inl m)
    else
      let block_pos := u64 (block_pos + size) in
      if heap_size m <? block_pos then Bug
      else free_slots n (j + 1) index block_pos handle m
  end.

Fixpoint free_indexes (fuel : nat) (block_pos handle : Z) (m : rrr_mmap) : outcome rrr_mmap :=
  if block_pos <? heap_size m then
    match fuel with
    | O => Oob
    | S fuel =>
      let index := block_pos in
      let block_pos := u64 (block_pos + sizeof_index) in
      if heap_size m <? block_pos then Bug
      else
        r ← free_slots 64 0 index block_pos handle m;
        match r with
        | inl m => Ret m
        | inr block_pos => free_indexes fuel block_pos handle m
        end
    end
  else Bug.

Definition rrr_mmap_free (m : rrr_mmap) (handle : Z) : outcome rrr_mmap :=
  m ← free_indexes (walk_fuel m) 0 handle m;
  Ret (set_failure m 0).

(** * Looking for blocks in use *)

Fixpoint any_used (n : nat) (j index map : Z) (m : rrr_mmap) : outcome bool :=
  match n with
  | O => Ret false
  | S n =>
    size ← load m (index + block_sizes j);
    if truth (map &&& u64 (1 <<< j)) && truth size then Ret true
    else any_used n (j + 1) index map m
  end.

Fixpoint skip_slots (n : nat) (j index block_pos : Z) (m : rrr_mmap) : outcome Z :=
  match n with
  | O => Ret block_pos
  | S n =>
    size ← load m (index + block_sizes j);
    let block_pos := u64 (block_pos + size) in
    if heap_size m <? block_pos then Bug else skip_slots n (j + 1) index block_pos m
  end.

Fixpoint empty_indexes (fuel : nat) (block_pos : Z) (m : rrr_mmap) : outcome Z :=
  if block_pos <? heap_size m then
    match fuel with
    | O => Oob
    | S fuel =>
      let index := block_pos in
      let block_pos := u64 (block_pos + sizeof_index) in
      if heap_size m <? block_pos then Ret 1
      else
        map ← load m index;
        used ← (if truth map then any_used 64 0 index map m else Ret false);
        if used : bool then Ret 0
        else block_pos ← skip_slots 64 0 index block_pos m; empty_indexes fuel block_pos m
    end
  else Ret 1.

(** Whether the heap is empty, and the number of allocations made. *)
Definition rrr_mmap_is_empty (m : rrr_mmap) : outcome (Z * Z) :=
  ret ← empty_indexes (walk_fuel m) 0 m; Ret (ret, allocation_count m).

(** * Dumping *)

(** The [for] loop of [rrr_mmap_dump_indexes], less the printing: the next position and the
    bytes found free. *)
Fixpoint dump_slots (n : nat) (j index block_pos free_bytes_in_block total_free_bytes : Z)
    (m : rrr_mmap) : outcome (Z * Z) :=
  match n with
  | O => Ret (block_pos, total_free_bytes)
  | S n =>
    let used_mask := u64 (1 <<< j) in
    map ← load m index;
    size ← load m (index + block_sizes j);
    let unused := map &&& used_mask =? 0 in
    let free_bytes_in_block :=
      if unused then u64 (free_bytes_in_block + size) else free_bytes_in_block in
    let block_pos := if (size =? 0) && unused then heap_size m else block_pos in
    dump_slots n (j + 1) index (u64 (block_pos + size)) free_bytes_in_block
      (u64 (total_free_bytes + free_bytes_in_block)) m
  end.

(** There is no check that an index ends inside the heap. *)
Fixpoint dump_indexes (fuel : nat) (block_pos total_free_bytes : Z) (m : rrr_mmap) : outcome Z :=
  if block_pos <? heap_size m then
    match fuel with
    | O => Oob
    | S fuel =>
      '(block_pos, total_free_bytes) ←
        dump_slots 64 0 block_pos (u64 (block_pos + sizeof_index)) 0 total_free_bytes m;
      dump_indexes fuel block_pos total_free_bytes m
    end
  else Ret total_free_bytes.

Definition rrr_mmap_dump_indexes (m : rrr_mmap) : outcome Z := dump_indexes (walk_fuel m) 0 0 m.

(** * Initialisation *)

(** The heap size for a request; [alloc_ok] tells whether memory was mapped. *)
Definition heap_size_padded (size : Z) : Z :=
  let size := u64 (size + sizeof_index) in
  let size := u64 (size + sizeof_sentinel) in
  u64 (size + u64 (4096 - size mod 4096)).

Definition rrr_mmap_init (alloc_ok : bool) (size : Z) : Z * rrr_mmap :=
  if alloc_ok then (0, mk_mmap ∅ 0 (heap_size_padded size) 0 0)
  else (1, mk_mmap ∅ 0 0 0 0).

(** * The layout of a heap *)

Record slot := mk_slot { ssize : Z; sused : bool }.

#[export] Instance slot_eq_dec : EqDecision slot.
Proof. solve_decision. Defined.

(** A slot never used, and a slot whose block became part of another one. *)
Definition virgin : slot := mk_slot 0 false.
Definition merged : slot := mk_slot 0 true.

Definition total (ss : list slot) : Z := fold_right (fun s n => ssize s + n) 0 ss.

(** The words of the index at [p]. *)
Definition header_at (m : rrr_mmap) (p : Z) (ss : list slot) : Prop :=
  0 <= word m p < 2 ^ 64 /\
  forall j s, ss !! j = Some s ->
    word m (p + block_sizes (Z.of_nat j)) = ssize s /\
    Z.testbit (word m p) (Z.of_nat j) = sused s.

(** The sentinels at the end of the blocks, the first of which is at [q]. *)
Fixpoint sentinels_at (m : rrr_mmap) (q : Z) (ss : list slot) : Prop :=
  match ss with
  | [] => True
  | s :: r =>
    (ssize s <> 0 -> word m (q + ssize s - sizeof_sentinel) = rrr_mmap_sentinel_template) /\
    sentinels_at m (q + ssize s) r
  end.

Definition size_ok (s : slot) : Prop :=
  0 <= ssize s /\ (ssize s <> 0 -> RRR_MMAP_HEAP_CHUNK_MIN_SIZE <= ssize s).

(** The blocks in use: their positions and sizes. *)
Fixpoint live_slots (q : Z) (ss : list slot) : list (Z * Z) :=
  match ss with
  | [] => []
  | s :: r =>
    (if sused s && negb (ssize s =? 0) then [(q, ssize s)] else []) ++ live_slots (q + ssize s) r
  end.

(** * Words *)

Lemma word_store m off v a : word (with_heap m (<[off := v]> (heap m))) a =
  if a =? off then v else word m a.
Proof.
  unfold word. simpl. destruct (Z.eqb_spec a off) as [->|].
  - by rewrite lookup_insert_eq.
  - by rewrite lookup_insert_ne.
Qed.

Lemma load_inside m off : 0 <= off -> off + 8 <= heap_size m -> load m off = Ret (word m off).
Proof.
  intros H0 H1. unfold load, inside. apply Z.leb_le in H0 as ->. by apply Z.leb_le in H1 as ->.
Qed.

Lemma store_inside m off v : 0 <= off -> off + 8 <= heap_size m ->
  store m off v = Ret (with_heap m (<[off := v]> (heap m))).
Proof.
  intros H0 H1. unfold store, inside. apply Z.leb_le in H0 as ->. by apply Z.leb_le in H1 as ->.
Qed.

Lemma mask_pow2 j : 0 <= j < 64 -> u64 (1 <<< j) = 2 ^ j.
Proof.
  intros Hj. rewrite Z.shiftl_mul_pow2, Z.mul_1_l by lia. apply wrap_small.
  split; [apply Z.pow_nonneg; lia|apply Z.pow_lt_mono_r; lia].
Qed.

Lemma land_pow2 w j : 0 <= j -> w &&& 2 ^ j = if Z.testbit w j then 2 ^ j else 0.
Proof.
  intros Hj. zbits. rewrite Z.pow2_bits_eqb by lia. destruct (Z.eqb_spec j i) as [->|].
  - rewrite andb_true_r. destruct (Z.testbit w i);
      rewrite ?Z.pow2_bits_true, ?Z.bits_0 by lia; done.
  - rewrite andb_false_r. destruct (Z.testbit w j);
      rewrite ?Z.pow2_bits_false, ?Z.bits_0 by lia; done.
Qed.

Lemma used_test w j : 0 <= j < 64 -> (w &&& u64 (1 <<< j) =? u64 (1 <<< j)) = Z.testbit w j.
Proof.
  intros Hj. rewrite mask_pow2, land_pow2 by lia. pose proof (Z.pow_pos_nonneg 2 j).
  destruct (Z.testbit w j); [apply Z.eqb_refl|apply Z.eqb_neq; lia].
Qed.

Lemma free_test w j : 0 <= j < 64 -> (w &&& u64 (1 <<< j) =? 0) = negb (Z.testbit w j).
Proof.
  intros Hj. rewrite mask_pow2, land_pow2 by lia. pose proof (Z.pow_pos_nonneg 2 j).
  destruct (Z.testbit w j); [apply Z.eqb_neq; lia|done].
Qed.

Lemma lor_mask_bits w j i : 0 <= j < 64 -> 0 <= i ->
  Z.testbit (w ||| u64 (1 <<< j)) i = Z.testbit w i || (i =? j).
Proof.
  intros Hj Hi. rewrite mask_pow2, Z.lor_spec, Z.pow2_bits_eqb by lia. by rewrite (Z.eqb_sym j).
Qed.

Lemma lor_range w a b : 0 <= w -> 0 <= a < 2 ^ w -> 0 <= b < 2 ^ w -> 0 <= a ||| b < 2 ^ w.
Proof.
  intros Hw Ha Hb. assert (0 <= a ||| b) by (apply Z.lor_nonneg; lia).
  split; [done|]. apply lt_pow2_bits; [lia..|]. intros i Hi.
  rewrite Z.lor_spec, (bits_above w a), (bits_above w b); done.
Qed.

Lemma lor_mask_range w j : 0 <= w < 2 ^ 64 -> 0 <= j < 64 -> 0 <= w ||| u64 (1 <<< j) < 2 ^ 64.
Proof. intros. apply lor_range; [lia|done|]. by apply wrap_range. Qed.

Lemma total_app a b : total (a ++ b) = total a + total b.
Proof. induction a; simpl; [done|]. rewrite IHa. lia. Qed.

Lemma total_nonneg ss : Forall size_ok ss -> 0 <= total ss.
Proof. induction 1 as [|s ss [Hs _] _ IH]; simpl; lia. Qed.

Lemma live_app q a b : live_slots q (a ++ b) = live_slots q a ++ live_slots (q + total a) b.
Proof.
  revert q. induction a as [|s a IH]; intros q; simpl; [by rewrite Z.add_0_r|].
  rewrite IH, <- app_assoc. do 3 f_equal. lia.
Qed.

Lemma sentinels_app m q a b :
  sentinels_at m q (a ++ b) <-> sentinels_at m q a /\ sentinels_at m (q + total a) b.
Proof.
  revert q. induction a as [|s a IH]; intros q; simpl; [rewrite Z.add_0_r; naive_solver|].
  rewrite IH. replace (q + ssize s + total a) with (q + (ssize s + total a)) by lia. naive_solver.
Qed.

Lemma sentinels_ext m m' q ss : Forall size_ok ss ->
  (forall off, q <= off < q + total ss -> word m' off = word m off) ->
  sentinels_at m q ss -> sentinels_at m' q ss.
Proof.
  intros Hs. revert q. induction Hs as [|s ss [H0 H1] Hs IH]; intros q Hw; simpl; [done|].
  pose proof (total_nonneg ss Hs). simpl in Hw. unfold RRR_MMAP_HEAP_CHUNK_MIN_SIZE in H1.
  intros [Hsen Hr]. split.
  - intros Hne. rewrite Hw; [by apply Hsen|]. unfold sizeof_sentinel. specialize (H1 Hne). lia.
  - apply IH; [|done]. intros off Ho. apply Hw. lia.
Qed.

Lemma header_ext m m' p ss : (length ss <= 64)%nat ->
  (forall off, p <= off < p + sizeof_index -> word m' off = word m off) ->
  header_at m p ss -> header_at m' p ss.
Proof.
  intros Hl Hw [Hr H]. unfold sizeof_index in Hw. rewrite <- (Hw p) in Hr by lia. split; [done|].
  intros j s Hj. pose proof (lookup_lt_Some _ _ _ Hj). unfold block_sizes in *.
  rewrite !Hw by lia. by apply H.
Qed.

(** * One index *)

(** A slot whose block is free, or part of another one. *)
Definition spare (s : slot) : Prop := s = merged \/ (ssize s <> 0 /\ sused s = false).

(** The slots after a block of [size] has been made of the slots [run]. *)
Definition taken (k run r : list slot) (size : Z) : list slot :=
  k ++ mk_slot size true :: replicate (length run - 1) merged ++ r.

Lemma header_taken m m' p k run r size : run <> [] -> header_at m p (k ++ run ++ r) ->
  0 <= word m' p < 2 ^ 64 ->
  word m' (p + block_sizes (Z.of_nat (length k))) = size ->
  (forall j, 0 <= j -> Z.testbit (word m' p) j =
     Z.testbit (word m p) j ||
     ((Z.of_nat (length k) <=? j) && (j <? Z.of_nat (length k + length run)))) ->
  (forall j, (length k < j < length k + length run)%nat ->
     word m' (p + block_sizes (Z.of_nat j)) = 0) ->
  (forall j, (j < length k \/ length k + length run <= j < length (k ++ run ++ r))%nat ->
     word m' (p + block_sizes (Z.of_nat j)) = word m (p + block_sizes (Z.of_nat j))) ->
  header_at m' p (taken k run r size).
Proof.
  intros Hne [_ H] Hr Hsize Hbits Hzero Hsame. split; [done|]. intros j s. unfold taken.
  assert (length run <> 0%nat) as Hlen by (destruct run; [done|simpl; lia]).
  rewrite Hbits by lia. destruct (decide (j < length k)%nat) as [H1|H1].
  - rewrite lookup_app_l by lia. intros Hj. rewrite Hsame by lia.
    rewrite (proj2 (Z.leb_gt _ _)), orb_false_r by lia.
    apply H. by rewrite lookup_app_l by lia.
  - rewrite lookup_app_r by lia. destruct (j - length k)%nat as [|i] eqn:Ei; simpl.
    + intros [= <-]. replace j with (length k) by lia. split; [done|]. simpl.
      rewrite Z.leb_refl, (proj2 (Z.ltb_lt _ _)) by lia. apply orb_true_r.
    + destruct (decide (i < length run - 1)%nat) as [H2|H2].
      * rewrite lookup_app_l by (rewrite length_replicate; lia).
        rewrite lookup_replicate. intros [-> _]. split; [apply Hzero; lia|]. simpl.
        rewrite (proj2 (Z.leb_le _ _)), (proj2 (Z.ltb_lt _ _)) by lia. apply orb_true_r.
      * rewrite lookup_app_r by (rewrite length_replicate; lia). rewrite length_replicate.
        intros Hj. pose proof (lookup_lt_Some _ _ _ Hj).
        rewrite Hsame by (rewrite !length_app; lia).
        rewrite (proj2 (Z.ltb_ge _ _)), andb_false_r, orb_false_r by lia. apply H.
        rewrite !lookup_app_r by lia. rewrite <- Hj. f_equal. lia.
Qed.

Lemma header_slot m p k s r : header_at m p (k ++ s :: r) ->
  word m (p + block_sizes (Z.of_nat (length k))) = ssize s /\
  Z.testbit (word m p) (Z.of_nat (length k)) = sused s.
Proof. intros [_ H]. apply H. by apply list_lookup_middle. Qed.

(** What a successful search of the slots [ss] of the index at [p] leaves. *)
Definition grabbed (m : rrr_mmap) (p : Z) (ss : list slot) (padded pos : Z) (m' : rrr_mmap)
  : Prop :=
  exists k run r size, ss = k ++ run ++ r /\ run <> [] /\ pos = p + sizeof_index + total k /\
    header_at m' p (taken k run r size) /\ (exists h, m' = with_heap m h) /\
    ((run = [virgin] /\ size = padded /\ pos + padded <= heap_size m /\
      Forall (fun s => s <> virgin) k /\
      word m' (pos + padded - sizeof_sentinel) = rrr_mmap_sentinel_template /\
      forall off, ~ p <= off < p + sizeof_index -> off <> pos + padded - sizeof_sentinel ->
        word m' off = word m off) \/
     (size = total run /\ padded <= size /\ Forall spare run /\
      forall off, ~ p <= off < p + sizeof_index -> word m' off = word m off)).

Lemma merge_loop_spec n : forall k p m, 0 <= k -> k + Z.of_nat n <= 64 -> 0 <= p ->
  p + sizeof_index <= heap_size m -> 0 <= word m p < 2 ^ 64 ->
  exists h, merge_loop n k p m = Ret (with_heap m h) /\
    0 <= word (with_heap m h) p < 2 ^ 64 /\
    (forall j, 0 <= j -> Z.testbit (word (with_heap m h) p) j =
       Z.testbit (word m p) j || ((k <=? j) && (j <? k + Z.of_nat n))) /\
    (forall j, k <= j < k + Z.of_nat n -> word (with_heap m h) (p + block_sizes j) = 0) /\
    (forall off, off <> p -> (forall j, k <= j < k + Z.of_nat n -> off <> p + block_sizes j) ->
       word (with_heap m h) off = word m off).
Proof.
  unfold sizeof_index. induction n as [|n IH]; intros k p m Hk Hn Hp Hs Hr.
  - exists (heap m). assert (with_heap m (heap m) = m) as -> by (by destruct m).
    split; [done|]. split; [done|]. split; [|split; [intros; lia|done]]. intros j Hj.
    destruct (Z.leb_spec k j), (Z.ltb_spec j (k + Z.of_nat 0)); try lia; by rewrite orb_false_r.
  - cbn [merge_loop]. unfold block_sizes in *. rewrite load_inside by lia. cbn [mbind outcome_bind].
    rewrite store_inside by lia. cbn [mbind outcome_bind].
    rewrite store_inside by (simpl; lia). cbn [mbind outcome_bind].
    set (m1 := with_heap _ _).
    assert (forall a, word m1 a = if a =? p + (8 + 8 * k) then 0 else
      if a =? p then word m p ||| u64 (1 <<< k) else word m a) as Hw.
    { intros a. subst m1. by rewrite !word_store. }
    assert (word m1 p = word m p ||| u64 (1 <<< k)) as Hwp.
    { rewrite Hw, Z.eqb_refl. by rewrite (proj2 (Z.eqb_neq _ _)) by lia. }
    destruct (IH (k + 1) p m1) as (h & E & H1 & H2 & H3 & H4); [lia..|simpl; lia| |].
    { rewrite Hwp. apply lor_mask_range; [done|lia]. }
    exists h. change (with_heap m1 h) with (with_heap m h) in *.
    split; [done|]. split; [done|]. split; [|split].
    + intros j Hj. rewrite H2, Hwp, lor_mask_bits by lia. rewrite <- orb_assoc. f_equal.
      btests; lia.
    + intros j Hj. destruct (decide (j = k)) as [->|]; [|apply H3; lia].
      rewrite H4 by lia. by rewrite Hw, Z.eqb_refl.
    + intros off Ho Hj. rewrite H4; [|done|intros j ?; apply Hj; lia]. rewrite Hw.
      rewrite (proj2 (Z.eqb_neq off (p + (8 + 8 * k)))) by (apply (Hj k); lia).
      by rewrite (proj2 (Z.eqb_neq off p)).
Qed.

Section Scan.
Context (p : Z).

(** The variables that track consecutive unused blocks, after the slots [k]. *)
Definition scan_state (k : list slot) (merge_j merge_pos count unused : Z) : Prop :=
  0 <= count <= Z.of_nat (length k) /\ (count = 0 -> unused = 0) /\
  (count <> 0 -> exists k1 run, k = k1 ++ run /\ Forall spare run /\
     merge_j = Z.of_nat (length k1) /\ merge_pos = p + sizeof_index + total k1 /\
     unused = total run).

Lemma scan_merged k mj mp c u : scan_state k mj mp c u -> scan_state (k ++ [merged]) mj mp c u.
Proof.
  intros (H1 & H2 & H3). split_and!; [lia|rewrite length_app; simpl; lia|done|].
  intros Hc. destruct (H3 Hc) as (k1 & run & -> & Hs & -> & -> & ->).
  exists k1, (run ++ [merged]). rewrite app_assoc, total_app. split_and!; try done.
  - apply Forall_app. split; [done|]. constructor; [by left|constructor].
  - simpl. lia.
Qed.

Lemma scan_free k s mj mp c u : ssize s <> 0 -> sused s = false -> scan_state k mj mp c u ->
  let '(mj', mp') := if c =? 0 then (Z.of_nat (length k), p + sizeof_index + total k)
                     else (mj, mp) in
  exists k1 run, k ++ [s] = k1 ++ run /\ run <> [] /\ Forall spare run /\
    mj' = Z.of_nat (length k1) /\ mp' = p + sizeof_index + total k1 /\
    u + ssize s = total run.
Proof.
  intros Hs Hu (H1 & H2 & H3). assert (spare s) as Hsp by (by right).
  destruct (Z.eqb_spec c 0) as [Hc|Hc].
  - exists k, [s]. rewrite (H2 Hc). split_and!; try done; [|simpl; lia].
    constructor; [done|constructor].
  - destruct (H3 Hc) as (k1 & run & -> & Hr & -> & -> & ->).
    exists k1, (run ++ [s]). rewrite app_assoc, total_app. split_and!; try done.
    + by destruct run.
    + apply Forall_app. split; [done|]. constructor; [done|constructor].
    + simpl. lia.
Qed.

End Scan.

(** Rewrite the goal with the result of a sequence of operations. *)
Ltac bind_eq E :=
  repeat match type of E with
  | ?x ≫= _ = Ret _ => destruct x; simpl in E |- *; [|discriminate E|discriminate E]
  end; rewrite E; simpl.

Section Slots.
Context (m : rrr_mmap) (p padded : Z) (ss : list slot).
Context (Hp : 0 <= p) (Hend : p + sizeof_index + total ss <= heap_size m).
Context (Hheap : heap_size m < 2 ^ 63) (Hpad : 16 <= padded < 2 ^ 63).
Context (Hlen : length ss = 64%nat) (Hok : Forall size_ok ss).
Context (Hh : header_at m p ss) (Hsen : sentinels_at m (p + sizeof_index) ss).

Lemma slot_facts k s r : ss = k ++ s :: r ->
  load m (p + block_sizes (Z.of_nat (length k))) = Ret (ssize s) /\
  load m p = Ret (word m p) /\ Z.testbit (word m p) (Z.of_nat (length k)) = sused s /\
  0 <= Z.of_nat (length k) < 64 /\ 0 <= total k /\ 0 <= ssize s /\ 0 <= total r /\
  p + sizeof_index + total k + ssize s + total r <= heap_size m /\
  (ssize s <> 0 -> 16 <= ssize s /\
     load m (p + sizeof_index + total k + ssize s - sizeof_sentinel) =
       Ret rrr_mmap_sentinel_template).
Proof using Hp Hend Hlen Hok Hh Hsen.
  intros ->. rewrite length_app in Hlen. simpl in Hlen. rewrite total_app in Hend. simpl in Hend.
  destruct (header_slot _ _ _ _ _ Hh) as [Hw Hb].
  apply Forall_app in Hok as [Hk Hr]. apply Forall_cons in Hr as [[Hs0 Hs1] Hr].
  pose proof (total_nonneg _ Hk). pose proof (total_nonneg _ Hr).
  apply sentinels_app in Hsen as [_ [Hsw _]].
  unfold sizeof_index, sizeof_sentinel, block_sizes, RRR_MMAP_HEAP_CHUNK_MIN_SIZE in *.
  split_and!; try lia; try done.
  - rewrite load_inside by lia. by rewrite Hw.
  - apply load_inside; lia.
  - intros Hne. specialize (Hs1 Hne). split; [lia|]. rewrite load_inside by lia.
    by rewrite Hsw.
Qed.

(** Taking a free block that is large enough. *)
Lemma reuse_grabbed k s r : ss = k ++ s :: r -> ssize s <> 0 -> sused s = false ->
  padded <= ssize s ->
  exists m', store m p (word m p ||| u64 (1 <<< Z.of_nat (length k))) = Ret m' /\
    grabbed m p ss padded (p + sizeof_index + total k) m'.
Proof using Hp Hend Hlen Hok Hh Hsen.
  intros E Hs Hu Hpd. destruct (slot_facts k s r E) as (_ & _ & _ & Hj & Hk & Hs0 & Hr0 & He & _).
  unfold sizeof_index in He. rewrite store_inside by lia. eexists. split; [done|].
  exists k, [s], r, (ssize s). pose proof Hh as [Hrange _]. rewrite E in Hh.
  assert (forall a, a <> p -> word (with_heap m (<[p := word m p ||| u64 (1 <<< Z.of_nat (length k))]>
    (heap m))) a = word m a) as Hw by (intros; rewrite word_store; by rewrite (proj2 (Z.eqb_neq _ _))).
  split_and!; try done; [|by eexists|].
  - destruct (header_slot _ _ _ _ _ Hh) as [Hsz _].
    apply (header_taken m); try done; rewrite ?word_store, ?Z.eqb_refl.
    + apply lor_mask_range; done || lia.
    + rewrite (proj2 (Z.eqb_neq _ _)) by (unfold block_sizes; lia). done.
    + intros j Hj0. rewrite lor_mask_bits by lia. f_equal. simpl length. btests; lia.
    + simpl length. lia.
    + intros j _. rewrite Hw by (unfold block_sizes; lia). done.
  - right. split_and!; try done; [simpl; lia| |].
    + constructor; [by right|constructor].
    + intros off Ho. apply Hw. unfold sizeof_index in Ho. lia.
Qed.

(** Merging free blocks. *)
Lemma merge_grabbed k1 run r : ss = k1 ++ run ++ r -> run <> [] -> Forall spare run ->
  padded <= total run ->
  exists m', (m ← merge_loop (length run) (Z.of_nat (length k1)) p m;
              store m (p + block_sizes (Z.of_nat (length k1))) (total run)) = Ret m' /\
    grabbed m p ss padded (p + sizeof_index + total k1) m'.
Proof using Hp Hend Hlen Hok Hh Hsen.
  intros E Hne Hsp Hpd. pose proof Hh as [Hrange _].
  assert (length run <> 0%nat) as Hrl by (destruct run; [done|simpl; lia]).
  pose proof Hlen as Hl. rewrite E, !length_app in Hl.
  pose proof (total_nonneg _ Hok) as Ht. unfold sizeof_index in *.
  destruct (merge_loop_spec (length run) (Z.of_nat (length k1)) p m)
    as (h & -> & H1 & H2 & H3 & H4); [unfold sizeof_index; lia..|done|].
  cbn [mbind outcome_bind]. rewrite store_inside by (unfold block_sizes; simpl; lia).
  eexists. split; [done|]. exists k1, run, r, (total run).
  set (m1 := with_heap m h) in *.
  assert (forall a, word (with_heap m1 (<[p + block_sizes (Z.of_nat (length k1)) := total run]>
    (heap m1))) a = if a =? p + block_sizes (Z.of_nat (length k1)) then total run else word m1 a)
    as Hw by (intros; apply word_store).
  split_and!; try done; [|by eexists|].
  - rewrite E in Hh. apply (header_taken m); try done; rewrite ?Hw.
    + by rewrite (proj2 (Z.eqb_neq p _)) by (unfold block_sizes; lia).
    + by rewrite Z.eqb_refl.
    + intros j Hj. rewrite (proj2 (Z.eqb_neq p _)) by (unfold block_sizes; lia).
      rewrite H2 by done. do 3 f_equal. lia.
    + intros j Hj. rewrite Hw, (proj2 (Z.eqb_neq _ _)) by (unfold block_sizes; lia).
      apply H3. lia.
    + intros j Hj. rewrite Hw, (proj2 (Z.eqb_neq _ _)) by (unfold block_sizes; lia).
      apply H4; unfold block_sizes; [lia|]. intros i Hi. lia.
  - right. split_and!; try done. intros off Ho. unfold sizeof_index, block_sizes in *.
    rewrite Hw, (proj2 (Z.eqb_neq _ _)) by lia. apply H4; [lia|]. intros j Hj. lia.
Qed.
(** A new block at the end of the data. *)
Lemma new_grabbed k r : ss = k ++ virgin :: r -> Forall (fun s => s <> virgin) k ->
  p + sizeof_index + total k + padded <= heap_size m ->
  exists m', (m1 ← store m (p + block_sizes (Z.of_nat (length k))) padded;
     m1 ← store m1 p (word m p ||| u64 (1 <<< Z.of_nat (length k)));
     store m1 (p + sizeof_index + total k + padded - sizeof_sentinel) rrr_mmap_sentinel_template)
    = Ret m' /\ grabbed m p ss padded (p + sizeof_index + total k) m'.
Proof using Hp Hend Hlen Hok Hh Hsen Hpad.
  intros E Hk Hfit. destruct (slot_facts k virgin r E) as (_ & _ & _ & Hj & Hk0 & _ & _ & He & _).
  pose proof Hh as [Hrange _]. unfold sizeof_index, sizeof_sentinel, block_sizes in *.
  rewrite store_inside by lia. cbn [mbind outcome_bind].
  rewrite store_inside by (simpl; lia). cbn [mbind outcome_bind].
  rewrite store_inside by (simpl; lia). eexists. split; [done|].
  exists k, [virgin], r, padded.
  set (m' := with_heap _ _). set (pos := p + 520 + total k) in *.
  assert (forall a, word m' a = if a =? pos + padded - 8 then rrr_mmap_sentinel_template
    else if a =? p then word m p ||| u64 (1 <<< Z.of_nat (length k))
    else if a =? p + (8 + 8 * Z.of_nat (length k)) then padded else word m a) as Hw
    by (intros; subst m'; by rewrite !word_store).
  assert (exists h, m' = with_heap m h) as Hex by (by eexists). clearbody m'.
  split_and!; try done.
  - rewrite E in Hh. apply (header_taken m); try done; unfold block_sizes; rewrite ?Hw.
    + rewrite (proj2 (Z.eqb_neq p _)), Z.eqb_refl by lia. apply lor_mask_range; done || lia.
    + rewrite (proj2 (Z.eqb_neq _ (pos + padded - 8))), (proj2 (Z.eqb_neq _ p)) by lia.
      by rewrite Z.eqb_refl.
    + intros j Hj0. rewrite (proj2 (Z.eqb_neq p _)), Z.eqb_refl by lia.
      rewrite lor_mask_bits by lia. f_equal. simpl length. btests; lia.
    + simpl length. lia.
    + intros j Hj0. change ([virgin] ++ r) with (virgin :: r) in Hj0. rewrite <- E, Hlen in Hj0.
      simpl length in Hj0. rewrite Hw. btests; lia.
  - left. split_and!; try done.
    + rewrite Hw. by rewrite Z.eqb_refl.
    + unfold sizeof_index, sizeof_sentinel. intros off Ho1 Ho2. rewrite Hw. btests.
Qed.
Lemma alloc_slots_correct r : forall k merge_j merge_pos count unused, ss = k ++ r ->
  Forall (fun s => s <> virgin) k -> scan_state p k merge_j merge_pos count unused ->
  match alloc_slots (length r) (Z.of_nat (length k)) p (p + sizeof_index + total k)
          merge_j merge_pos count unused padded m with
  | Ret (Found pos m') => grabbed m p ss padded pos m'
  | Ret NoRoom => True
  | Ret (NextIndex q) => q = p + sizeof_index + total ss /\ Forall (fun s => s <> virgin) ss
  | _ => False
  end.
Proof using Hp Hend Hlen Hok Hh Hsen Hpad Hheap.
  induction r as [|s r IH]; intros k mj mp c u E Hk Hscan.
  { rewrite app_nil_r in E. subst k. done. }
  destruct (slot_facts k s r E) as (L1 & L2 & Hbit & Hj & Hk0 & Hs0 & Hr0 & He & Hsl).
  assert (ss = (k ++ [s]) ++ r) as E' by (by rewrite <- app_assoc).
  assert (Z.of_nat (length (k ++ [s])) = Z.of_nat (length k) + 1) as Ej
    by (rewrite length_app; simpl; lia).
  assert (p + sizeof_index + total (k ++ [s]) = p + sizeof_index + total k + ssize s) as Eq
    by (rewrite total_app; simpl; lia).
  assert (forall mj mp c u, s <> virgin -> scan_state p (k ++ [s]) mj mp c u -> match
    alloc_slots (length r) (Z.of_nat (length k) + 1) p (p + sizeof_index + total k + ssize s)
      mj mp c u padded m with
    | Ret (Found pos m') => grabbed m p ss padded pos m'
    | Ret NoRoom => True
    | Ret (NextIndex q) => q = p + sizeof_index + total ss /\ Forall (fun s => s <> virgin) ss
    | _ => False end) as Hnext.
  { intros mj' mp' c' u' Hv Hs'. rewrite <- Ej, <- Eq. apply IH; [done| |done].
    apply Forall_app. split; [done|]. by constructor. }
  cbn [length alloc_slots]. rewrite L1, L2. cbn [mbind outcome_bind].
  rewrite used_test by done. rewrite Hbit.
  unfold sizeof_index, sizeof_sentinel in *.
  destruct (Z.eqb_spec (ssize s) 0) as [Hz|Hz].
  - destruct s as [sz []]; simpl in *; subst sz.
    + specialize (Hnext mj mp c u). rewrite Z.add_0_r in Hnext. apply Hnext; [done|].
      by apply scan_merged.
    + rewrite wrap_small by lia. destruct (Z.ltb_spec (heap_size m) (p + 520 + total k + padded));
        [done|]. destruct (new_grabbed k r E Hk) as (m' & Em & Hg); [unfold sizeof_index; lia|].
      unfold sizeof_index, sizeof_sentinel in Em. bind_eq Em. exact Hg.
  - destruct (Hsl Hz) as [Hs16 ->]. cbn [mbind outcome_bind]. rewrite Z.eqb_refl. cbn [negb].
    rewrite !(wrap_small 64 (p + 520 + total k + ssize s)) by lia.
    rewrite (proj2 (Z.ltb_ge (heap_size m) _)) by lia.
    assert (s <> virgin) as Hv by (by intros ->).
    destruct (sused s) eqn:Hu; cbn [negb].
    + apply Hnext; [done|]. split_and!; try done; lia.
    + pose proof (scan_free p k s mj mp c u Hz Hu Hscan) as Hf.
      pose proof Hscan as (Hc & _). unfold sizeof_index in Hf.
      destruct (if c =? 0 then _ else _) as [mj' mp'].
      destruct Hf as (k1 & run & Ek & Hne & Hsp & -> & -> & Hsum).
      assert (0 <= total run <= total k + ssize s) as Hrun.
      { assert (total (k ++ [s]) = total (k1 ++ run)) as Et by (by rewrite Ek).
        rewrite !total_app in Et. simpl in Et.
        rewrite E', Ek, <- app_assoc in Hok. apply Forall_app in Hok as [Hk1 Hr1].
        apply Forall_app in Hr1 as [Hr1 _].
        pose proof (total_nonneg _ Hk1). pose proof (total_nonneg _ Hr1). lia. }
      rewrite (wrap_small 64 (c + 1)), (wrap_small 64 (u + ssize s)) by lia.
      destruct (Z.leb_spec padded (ssize s)) as [Hps|Hps].
      { destruct (reuse_grabbed k s r E Hz Hu Hps) as (m' & -> & Hg). exact Hg. }
      rewrite Hsum. destruct (Z.leb_spec padded (total run)) as [Hpr|Hpr].
      { assert (length (k ++ [s]) = length (k1 ++ run)) as El by (by rewrite Ek).
        rewrite !length_app in El. simpl in El.
        replace (Z.to_nat (Z.of_nat (length k) - Z.of_nat (length k1) + 1))
          with (length run) by lia.
        destruct (merge_grabbed k1 run r) as (m' & Em & Hg); [|done..|].
        { by rewrite app_assoc, <- Ek. }
        bind_eq Em. exact Hg. }
      apply Hnext; [done|]. split_and!; [lia|rewrite length_app; simpl; lia|lia|].
      intros _. exists k1, run. by rewrite <- Ek.
Qed.
End Slots.

(** * The whole heap *)

Definition span (ixs : list (list slot)) : Z :=
  fold_right (fun ix n => sizeof_index + total ix + n) 0 ixs.

(** Indexes and their data follow each other from position [p]. *)
Fixpoint chain (m : rrr_mmap) (p : Z) (ixs : list (list slot)) : Prop :=
  match ixs with
  | [] => True
  | ix :: r =>
    (length ix = 64%nat /\ Forall size_ok ix /\ header_at m p ix /\
     sentinels_at m (p + sizeof_index) ix) /\
    chain m (p + (sizeof_index + total ix)) r
  end.

Fixpoint live (p : Z) (ixs : list (list slot)) : list (Z * Z) :=
  match ixs with
  | [] => []
  | ix :: r => live_slots (p + sizeof_index) ix ++ live (p + (sizeof_index + total ix)) r
  end.

(** The last index: slots in use, then virgin ones. *)
Definition last_index (pre : list slot) : list slot :=
  pre ++ replicate (64 - length pre) virgin.

Definition no_virgin (ss : list slot) : Prop := Forall (fun s => s <> virgin) ss.

(** Full indexes [full], then the last one.  When the last index is full, the
    next one is taken to be there, empty, even if there is no room for it. *)
Record layout (m : rrr_mmap) (full : list (list slot)) (pre : list slot) : Prop := {
  l_full : Forall no_virgin full;
  l_pre : no_virgin pre;
  l_room : (length pre < 64)%nat;
  l_chain : chain m 0 (full ++ [last_index pre]);
  l_span : span full <= heap_size m;
  l_fits : pre <> [] -> span full + sizeof_index + total pre <= heap_size m;
  l_zero : forall off, span full + sizeof_index + total pre <= off -> word m off = 0;
  l_size : heap_size m < 2 ^ 63;
  l_prev : exists k, (k <= length full)%nat /\ prev_allocation_index_pos m = span (take k full)
}.

(** The heap is well formed and the blocks in use are those of [L]. *)
Definition heap_ok (m : rrr_mmap) (L : list (Z * Z)) : Prop :=
  exists full pre, layout m full pre /\ L ≡ₚ live 0 (full ++ [last_index pre]).

Lemma heap_span_app a b : span (a ++ b) = span a + span b.
Proof. induction a; simpl; [done|]. rewrite IHa. lia. Qed.

Lemma heap_chain_app m a : forall p b, chain m p (a ++ b) <-> chain m p a /\ chain m (p + span a) b.
Proof.
  induction a as [|ix a IH]; intros p b; simpl; [rewrite Z.add_0_r; naive_solver|].
  rewrite IH. replace (p + (sizeof_index + total ix) + span a)
    with (p + (sizeof_index + total ix + span a)) by lia. naive_solver.
Qed.

Lemma live_app_ix a : forall p b, live p (a ++ b) = live p a ++ live (p + span a) b.
Proof.
  induction a as [|ix a IH]; intros p b; simpl; [by rewrite Z.add_0_r|].
  rewrite IH, app_assoc. do 2 f_equal. lia.
Qed.

Lemma chain_span m p ixs : chain m p ixs -> sizeof_index * Z.of_nat (length ixs) <= span ixs.
Proof.
  revert p. induction ixs as [|ix r IH]; intros p; simpl; [lia|].
  intros [(_ & Hs & _) Hr]. pose proof (total_nonneg _ Hs). specialize (IH _ Hr).
  unfold sizeof_index in *. lia.
Qed.

Lemma heap_chain_ext m m' ixs : forall p, 
  (forall off, p <= off < p + span ixs -> word m' off = word m off) ->
  chain m p ixs -> chain m' p ixs.
Proof.
  induction ixs as [|ix r IH]; intros p Hw; simpl; [done|]. intros [(Hl & Hs & Hh & Hsen) Hr].
  pose proof (total_nonneg _ Hs). pose proof (chain_span _ _ _ Hr).
  simpl in Hw. unfold sizeof_index in *. split.
  - split_and!; try done.
    + eapply header_ext; [lia| |done]. unfold sizeof_index. intros. apply Hw. lia.
    + eapply sentinels_ext; [done| |done]. intros. apply Hw. lia.
  - apply IH; [|done]. intros. apply Hw. lia.
Qed.

Lemma total_virgins n : total (replicate n virgin) = 0.
Proof. induction n; simpl; lia. Qed.

Lemma total_last pre : total (last_index pre) = total pre.
Proof. unfold last_index. rewrite total_app, total_virgins. lia. Qed.

Lemma length_last pre : (length pre <= 64)%nat -> length (last_index pre) = 64%nat.
Proof. intros. unfold last_index. rewrite length_app, length_replicate. lia. Qed.

Lemma size_ok_app_inv a b : Forall size_ok (a ++ b) -> Forall size_ok a /\ Forall size_ok b.
Proof. apply Forall_app. Qed.

(** Walking the indexes meets those of the layout, in order. *)
Lemma layout_index m full pre d ix r : layout m full pre ->
  full ++ [last_index pre] = d ++ ix :: r ->
  0 <= span d <= heap_size m /\ length ix = 64%nat /\ Forall size_ok ix /\
  header_at m (span d) ix /\ sentinels_at m (span d + sizeof_index) ix /\
  (span d + sizeof_index <= heap_size m -> span d + sizeof_index + total ix <= heap_size m) /\
  ((r = [] /\ d = full /\ ix = last_index pre) \/
   (exists r', r = r' ++ [last_index pre] /\ full = d ++ ix :: r' /\
      span d + sizeof_index <= heap_size m)).
Proof.
  intros H E. pose proof (l_chain _ _ _ H) as Hc. rewrite E in Hc. pose proof Hc as Hc'.
  apply heap_chain_app in Hc as [Hd [(Hl & Hs & Hh & Hsen) Hr]]. simpl in *.
  pose proof (chain_span _ _ _ Hd) as Hd0. pose proof (total_nonneg _ Hs).
  unfold sizeof_index in *. destruct r as [|x r _] using rev_ind.
  - apply app_inj_2 in E as [-> E]; [|done]. injection E as E.
    pose proof (l_span _ _ _ H). split_and!; try done; [lia| |by left].
    intros Hfit. rewrite <- E, total_last.
    destruct (decide (pre = [])) as [->|Hp]; [simpl; lia|]. by apply (l_fits _ _ _ H).
  - rewrite app_comm_cons, app_assoc in E. apply app_inj_2 in E as [E Ex]; [|done].
    injection Ex as <-. pose proof (l_span _ _ _ H) as Hsp.
    rewrite E, heap_span_app in Hsp. simpl in Hsp. unfold sizeof_index in Hsp.
    apply heap_chain_app in Hr as [Hr _]. pose proof (chain_span _ _ _ Hr).
    unfold sizeof_index in *. split_and!; try done; [lia..|].
    right. exists r. split_and!; [done..|lia].
Qed.

(** * The layout after an allocation *)

Lemma total_merged n : total (replicate n merged) = 0.
Proof. induction n; simpl; lia. Qed.

Lemma total_taken k run r size : total (taken k run r size) = total k + size + total r.
Proof. unfold taken. rewrite total_app. simpl. rewrite total_app, total_merged. lia. Qed.

Lemma length_taken k run r size : run <> [] ->
  length (taken k run r size) = length (k ++ run ++ r).
Proof.
  intros H. unfold taken. rewrite !length_app. simpl. rewrite length_app, length_replicate.
  destruct run; [done|]. simpl. lia.
Qed.

Lemma live_merged n : forall q, live_slots q (replicate n merged) = [].
Proof. induction n; intros q; simpl; auto. Qed.

Lemma live_taken q k run r size : size <> 0 ->
  live_slots q (taken k run r size) =
    live_slots q k ++ (q + total k, size) :: live_slots (q + total k + size) r.
Proof.
  intros Hs. unfold taken. rewrite live_app. simpl.
  rewrite (proj2 (Z.eqb_neq _ _) Hs). simpl. rewrite live_app, live_merged, total_merged. simpl.
  by rewrite Z.add_0_r.
Qed.

Lemma live_spare q run : Forall spare run -> live_slots q run = [].
Proof.
  intros H. revert q. induction H as [|s run [->|[_ Hu]] _ IH]; intros q; simpl; [done|apply IH|].
  rewrite Hu. simpl. apply IH.
Qed.

Lemma live_virgins q n : live_slots q (replicate n virgin) = [].
Proof. revert q. induction n; intros q; simpl; auto. Qed.

Lemma sentinel_end m q ss : Forall size_ok ss -> total ss <> 0 -> sentinels_at m q ss ->
  word m (q + total ss - sizeof_sentinel) = rrr_mmap_sentinel_template.
Proof.
  intros Hs. revert q. induction Hs as [|s ss _ Hss IH]; intros q; simpl; [done|].
  intros Ht [H1 H2]. destruct (decide (total ss = 0)) as [Hz|Hz].
  - rewrite Hz in *. rewrite Z.add_0_r in *. by apply H1.
  - replace (q + (ssize s + total ss)) with (q + ssize s + total ss) by lia. by apply IH.
Qed.

Lemma sentinels_merged m q n : sentinels_at m q (replicate n merged).
Proof. revert q. induction n; intros q; simpl; [done|]. split; [done|]. apply IHn. Qed.

Lemma size_ok_taken k run r size : Forall size_ok (k ++ run ++ r) -> 16 <= size ->
  Forall size_ok (taken k run r size).
Proof.
  intros H Hs. apply Forall_app in H as [Hk Hr]. apply Forall_app in Hr as [_ Hr].
  unfold taken, size_ok, RRR_MMAP_HEAP_CHUNK_MIN_SIZE in *. apply Forall_app. split; [done|].
  constructor; [simpl; lia|]. apply Forall_app. split; [|done].
  apply Forall_replicate. simpl. lia.
Qed.

Lemma no_virgin_taken k run r size : no_virgin k -> no_virgin r -> 
  no_virgin (taken k run r size).
Proof.
  unfold no_virgin, taken. intros Hk Hr. apply Forall_app. split; [done|].
  constructor; [done|]. apply Forall_app. split; [by apply Forall_replicate|done].
Qed.

(** One index is rewritten, its data stays in place. *)
Lemma chain_replace m m' d ix ix' rr : chain m 0 (d ++ ix :: rr) ->
  length ix' = 64%nat -> Forall size_ok ix' -> total ix' = total ix ->
  header_at m' (span d) ix' -> sentinels_at m' (span d + sizeof_index) ix' ->
  (forall off, ~ span d <= off < span d + sizeof_index -> word m' off = word m off) ->
  chain m' 0 (d ++ ix' :: rr).
Proof.
  intros Hc Hl Hs Ht Hh Hsen Hw. apply heap_chain_app in Hc as [Hd [(_ & Hs0 & _) Hr]].
  pose proof (total_nonneg _ Hs). pose proof (chain_span _ _ _ Hd). simpl in *.
  unfold sizeof_index in *. apply heap_chain_app. split; [|split; [done|]].
  - eapply heap_chain_ext; [|done]. intros off Ho. apply Hw. lia.
  - simpl. rewrite Ht. eapply heap_chain_ext; [|done]. unfold sizeof_index. intros off Ho. apply Hw. lia.
Qed.

Lemma sentinels_taken m m' p k run r : Forall size_ok (k ++ run ++ r) -> total run <> 0 ->
  sentinels_at m (p + sizeof_index) (k ++ run ++ r) ->
  (forall off, ~ p <= off < p + sizeof_index -> word m' off = word m off) ->
  sentinels_at m' (p + sizeof_index) (taken k run r (total run)).
Proof.
  intros Hok Ht Hs Hw. apply size_ok_app_inv in Hok as [Hk Hr].
  apply size_ok_app_inv in Hr as [Hrun Hr]. rewrite !sentinels_app in Hs.
  destruct Hs as (Hsk & Hsrun & Hsr). pose proof (sentinel_end _ _ _ Hrun Ht Hsrun) as Hend.
  pose proof (total_nonneg _ Hk). pose proof (total_nonneg _ Hrun).
  assert (8 <= total run) as H8.
  { clear -Hrun Ht. induction Hrun as [|s run [Hs0 Hs1] Hrun IH]; simpl in *; [done|].
    pose proof (total_nonneg _ Hrun). unfold RRR_MMAP_HEAP_CHUNK_MIN_SIZE in Hs1.
    destruct (decide (ssize s = 0)); [|lia]. lia. }
  assert (forall q ss, Forall size_ok ss -> p + sizeof_index <= q -> sentinels_at m q ss ->
    sentinels_at m' q ss) as Hext.
  { intros q ss Hss Hq. apply sentinels_ext; [done|]. intros off Ho. apply Hw. lia. }
  unfold taken. rewrite sentinels_app. simpl. rewrite sentinels_app, total_merged, Z.add_0_r.
  unfold sizeof_sentinel in *. split_and!.
  - by apply Hext.
  - intros _. rewrite Hw by lia. done.
  - apply sentinels_merged.
  - apply Hext; [done|lia|]. done.
Qed.

(** A run of slots in use in the last index is a run of [pre]. *)
Lemma last_run pre k run r : no_virgin pre -> last_index pre = k ++ run ++ r -> run <> [] ->
  no_virgin run ->
  exists r1, pre = k ++ run ++ r1 /\ r = r1 ++ replicate (64 - length pre) virgin.
Proof.
  intros Hp E Hne Hrun. unfold last_index in E.
  assert (length (k ++ run) <= length pre)%nat as Hle.
  { destruct (decide (length (k ++ run) <= length pre)%nat) as [|Hgt]; [done|]. exfalso.
    destruct run as [|s run _] using rev_ind; [done|].
    assert ((k ++ (run ++ [s]) ++ r) !! length (k ++ run) = Some s) as Hl.
    { rewrite <- app_assoc, app_assoc. apply (list_lookup_middle (k ++ run) r s). done. }
    rewrite !length_app in Hgt. simpl in Hgt. rewrite <- E in Hl.
    rewrite lookup_app_r in Hl by (rewrite length_app; lia).
    apply lookup_replicate in Hl as [-> _]. apply Forall_app in Hrun as [_ Hrun].
    by inversion Hrun. }
  exists (drop (length (k ++ run)) pre).
  assert (take (length (k ++ run)) pre = k ++ run) as Ht.
  { assert (take (length (k ++ run)) (pre ++ replicate (64 - length pre) virgin) = k ++ run) as Ht.
    { rewrite E, app_assoc. by apply take_app_length'. }
    by rewrite take_app_le in Ht by done. }
  split.
  - rewrite app_assoc, <- Ht at 1. by rewrite take_drop.
  - assert (drop (length (k ++ run)) (pre ++ replicate (64 - length pre) virgin) = r) as <-.
    { rewrite E, app_assoc. by apply drop_app_length'. }
    by rewrite drop_app_le by done.
Qed.

Lemma spare_no_virgin run : Forall spare run -> no_virgin run.
Proof.
  intros H. eapply Forall_impl; [exact H|]. intros s [->|[Hs _]]; [done|]. by intros ->.
Qed.

Lemma live_perm_taken p d ix ix' rr x : total ix' = total ix ->
  live_slots (p + span d + sizeof_index) ix' ≡ₚ x :: live_slots (p + span d + sizeof_index) ix ->
  live p (d ++ ix' :: rr) ≡ₚ x :: live p (d ++ ix :: rr).
Proof.
  intros Ht Hl. rewrite !live_app_ix. simpl. rewrite Hl, Ht. simpl.
  symmetry. apply Permutation_middle.
Qed.

Lemma layout_prefix m full pre d ix rr : layout m full pre ->
  full ++ [last_index pre] = d ++ ix :: rr ->
  exists k, (k <= length full)%nat /\ span d = span (take k full).
Proof.
  intros HL E. destruct (layout_index _ _ _ _ _ _ HL E) as (_ & _ & _ & _ & _ & _ & [Hc|Hc]).
  - destruct Hc as (_ & -> & _). exists (length full). by rewrite take_ge.
  - destruct Hc as (r' & _ & -> & _). exists (length d). rewrite take_app_length, length_app.
    split; [lia|done].
Qed.

(** * One run of slots of an index is rewritten, its data stays in place *)
Section Rewrite.
Context (m m' : rrr_mmap) (full : list (list slot)) (pre : list slot).
Context (d : list (list slot)) (ix : list slot) (rr : list (list slot)).
Context (k run run' r : list slot).
Context (HL : layout m full pre) (E : full ++ [last_index pre] = d ++ ix :: rr).
Context (Eix : ix = k ++ run ++ r) (Hne : run <> []) (Hv : no_virgin run) (Hv' : no_virgin run').
Context (Hlen : length run' = length run) (Htot : total run' = total run).
Context (Hsize : heap_size m' = heap_size m).
Context (Hprev : exists i, (i <= length full)%nat /\
  prev_allocation_index_pos m' = span (take i full)).
Context (Hc' : chain m' 0 (d ++ (k ++ run' ++ r) :: rr)).
Context (Hw : forall off, ~ span d <= off < span d + sizeof_index -> word m' off = word m off).

Lemma span_take_replace i a b c : total a = total b ->
  span (take i (d ++ a :: c)) = span (take i (d ++ b :: c)).
Proof using.
  clear -d. intros H. revert i. induction d as [|x e IH]; intros [|i]; simpl; try done.
  - by rewrite H.
  - by rewrite IH.
Qed.

Lemma rewrite_last : d = full -> ix = last_index pre -> rr = [] ->
  exists pre', layout m' full pre' /\ last_index pre' = k ++ run' ++ r.
Proof using HL E Eix Hne Hv Hv' Hlen Htot Hsize Hprev Hc' Hw.
  intros -> Elast ->.
  destruct (last_run pre k run r) as (r1 & Epre & ->);
    [apply HL|by rewrite <- Elast, <- Eix|done|done|].
  set (pre' := k ++ run' ++ r1).
  assert (length pre' = length pre) as Hlp by (subst pre'; rewrite Epre, !length_app; lia).
  assert (total pre' = total pre) as Htp by (subst pre'; rewrite Epre, !total_app; lia).
  assert (last_index pre' = k ++ run' ++ r1 ++ replicate (64 - length pre) virgin) as Elast'.
  { unfold last_index. rewrite Hlp. subst pre'. by rewrite <- !app_assoc. }
  pose proof (l_pre _ _ _ HL) as Hvp. rewrite Epre in Hvp. unfold no_virgin in Hvp.
  rewrite !Forall_app in Hvp. destruct Hvp as (Hv1 & _ & Hv2).
  exists pre'. split; [|done]. split; try done; rewrite ?Htp, ?Hlp, ?Hsize; try (apply HL).
  - unfold no_virgin, pre'. by rewrite !Forall_app.
  - by rewrite Elast'.
  - intros Hp'. apply (l_fits _ _ _ HL). intros ->. apply Hp'. by apply nil_length_inv.
  - intros off Ho. rewrite Hw; [by apply (l_zero _ _ _ HL)|].
    destruct (layout_index _ _ _ _ _ _ HL E) as (_ & _ & Hok & _).
    pose proof (total_nonneg _ Hok) as Hnn. rewrite Elast, total_last in Hnn. lia.
Qed.

Lemma rewrite_full r' : rr = r' ++ [last_index pre] -> full = d ++ ix :: r' ->
  layout m' (d ++ (k ++ run' ++ r) :: r') pre.
Proof using HL E Eix Hne Hv Hv' Hlen Htot Hsize Hprev Hc' Hw.
  intros -> Efull.
  assert (total (k ++ run' ++ r) = total ix) as Ht by (rewrite Eix, !total_app; lia).
  assert (span (d ++ (k ++ run' ++ r) :: r') = span full) as Hsf
    by (rewrite Efull, !heap_span_app; simpl; lia).
  pose proof (l_full _ _ _ HL) as Hvf. rewrite Efull in Hvf. apply Forall_app in Hvf as [Hv1 Hv2].
  apply Forall_cons in Hv2 as [Hv2 Hv3]. rewrite Eix in Hv2. unfold no_virgin in Hv2.
  rewrite !Forall_app in Hv2. destruct Hv2 as (? & _ & ?).
  split; rewrite ?Hsf, ?Hsize; try (apply HL).
  - apply Forall_app. split; [done|]. constructor; [|done]. unfold no_virgin.
    by rewrite !Forall_app.
  - rewrite <- app_assoc. exact Hc'.
  - intros off Ho. rewrite Hw; [by apply (l_zero _ _ _ HL)|].
    pose proof (l_chain _ _ _ HL) as HC. apply heap_chain_app in HC as [HC1 [(_ & Hs2 & _) _]].
    pose proof (total_nonneg _ Hs2) as Hs2'. rewrite total_last in Hs2'.
    rewrite Efull in HC1. apply heap_chain_app in HC1 as [_ [(_ & Hs1 & _) HC1]].
    pose proof (chain_span _ _ _ HC1). pose proof (total_nonneg _ Hs1).
    rewrite Efull, heap_span_app in Ho. simpl in Ho. unfold sizeof_index in *. lia.
  - destruct Hprev as (i & Hi & ->). exists i. rewrite Efull in Hi |- *.
    rewrite (span_take_replace i _ _ r' Ht). rewrite length_app in *. simpl in *. done.
Qed.

Lemma layout_rewrite : exists full' pre', layout m' full' pre' /\
  full' ++ [last_index pre'] = d ++ (k ++ run' ++ r) :: rr.
Proof using HL E Eix Hne Hv Hv' Hlen Htot Hsize Hprev Hc' Hw.
  destruct (layout_index _ _ _ _ _ _ HL E) as (_ & _ & _ & _ & _ & _ & [Hc|Hc]).
  - destruct Hc as (Er & Ed & El). destruct (rewrite_last Ed El Er) as (pre' & H & El').
    exists full, pre'. by rewrite El', Er, Ed.
  - destruct Hc as (r' & Er & Ef & _). exists (d ++ (k ++ run' ++ r) :: r'), pre.
    split; [by apply rewrite_full|]. by rewrite Er, <- app_assoc.
Qed.
End Rewrite.

Section Taken.
Context (m m' : rrr_mmap) (full : list (list slot)) (pre : list slot).
Context (d : list (list slot)) (ix : list slot) (rr : list (list slot)).
Context (k run r : list slot).
Context (HL : layout m full pre) (E : full ++ [last_index pre] = d ++ ix :: rr).
Context (Eix : ix = k ++ run ++ r) (Hne : run <> []).
Context (Hsize : heap_size m' = heap_size m).

Lemma layout_spare : prev_allocation_index_pos m' = span d -> Forall spare run ->
  16 <= total run ->
  header_at m' (span d) (taken k run r (total run)) ->
  (forall off, ~ span d <= off < span d + sizeof_index -> word m' off = word m off) ->
  exists full' pre', layout m' full' pre' /\
    live 0 (full' ++ [last_index pre']) ≡ₚ
      (span d + sizeof_index + total k, total run) :: live 0 (full ++ [last_index pre]).
Proof using HL E Eix Hne Hsize.
  intros Hprev Hsp H16 Hh Hw.
  destruct (layout_index _ _ _ _ _ _ HL E) as (Hd & Hlen & Hok & _ & Hsen & _ & _).
  pose proof (l_chain _ _ _ HL) as Hc. rewrite E in Hc.
  set (run' := mk_slot (total run) true :: replicate (length run - 1) merged).
  change (taken k run r (total run)) with (k ++ run' ++ r) in Hh.
  destruct (layout_rewrite m m' full pre d ix rr k run run' r) as (full' & pre' & HL' & E');
    try done.
  - by apply spare_no_virgin.
  - constructor; [done|]. by apply Forall_replicate.
  - subst run'. simpl. rewrite length_replicate. destruct run; [done|simpl; lia].
  - subst run'. simpl. rewrite total_merged. lia.
  - destruct (layout_prefix _ _ _ _ _ _ HL E) as (i & ? & ?). exists i. by rewrite Hprev.
  - eapply chain_replace; [exact Hc|..]; try done; change (k ++ run' ++ r) with
      (taken k run r (total run)); subst ix.
    + by rewrite length_taken.
    + by apply size_ok_taken.
    + rewrite total_taken, !total_app. lia.
    + eapply sentinels_taken; [done|lia|done|done].
  - exists full', pre'. split; [done|]. rewrite E', E. 
    change (k ++ run' ++ r) with (taken k run r (total run)). subst ix.
    apply live_perm_taken; [rewrite total_taken, !total_app; lia|].
    rewrite live_taken by lia. rewrite !live_app, (live_spare _ run Hsp). simpl.
    symmetry. apply Permutation_middle.
Qed.
End Taken.

(** The first virgin slot is the first of the last index. *)
Lemma first_virgin pre k r : no_virgin pre -> no_virgin k -> last_index pre = k ++ virgin :: r ->
  k = pre /\ virgin :: r = replicate (64 - length pre) virgin.
Proof.
  unfold last_index. intros Hp Hk E.
  assert (length k = length pre) as Hl.
  { destruct (Nat.lt_trichotomy (length k) (length pre)) as [Hlt|[|Hlt]]; [exfalso|done|exfalso].
    - assert ((k ++ virgin :: r) !! length k = Some virgin) as Hv by (by apply list_lookup_middle).
      rewrite <- E, lookup_app_l in Hv by done.
      unfold no_virgin in Hp. rewrite Forall_lookup in Hp. by apply (Hp _ _ Hv).
    - destruct (lookup_lt_is_Some_2 k (length pre) Hlt) as [s Hs].
      assert ((k ++ virgin :: r) !! length pre = Some s) as Hv by (by apply lookup_app_l_Some).
      rewrite <- E, lookup_app_r in Hv by lia. apply lookup_replicate in Hv as [-> _].
      unfold no_virgin in Hk. rewrite Forall_lookup in Hk. by apply (Hk _ _ Hs). }
  symmetry in E. by apply app_inj_1 in E as [-> <-].
Qed.

(** An index in zeroed memory is an empty one. *)
Lemma header_zero m p n : (forall off, p <= off -> word m off = 0) ->
  header_at m p (replicate n virgin).
Proof.
  intros Hz. split; [rewrite Hz; lia|]. intros j s Hj. apply lookup_replicate in Hj as [-> _].
  rewrite !Hz by (unfold block_sizes; lia). by rewrite Z.bits_0.
Qed.

Lemma sentinels_virgins m q n : sentinels_at m q (replicate n virgin).
Proof. revert q. induction n; intros q; simpl; [done|]. split; [done|]. apply IHn. Qed.

Lemma chain_fresh m p : (forall off, p <= off -> word m off = 0) -> chain m p [last_index []].
Proof.
  intros Hz. split; [|done]. split_and!.
  - done.
  - refine (Forall_replicate size_ok 64 virgin _). unfold size_ok. simpl. lia.
  - exact (header_zero m p 64 Hz).
  - exact (sentinels_virgins m _ 64).
Qed.

(** The last index with a new block. *)
Lemma chain_new m m' full pre padded : layout m full pre -> 16 <= padded ->
  let pos := span full + sizeof_index + total pre in
  let pre' := pre ++ [mk_slot padded true] in
  header_at m' (span full) (last_index pre') ->
  word m' (pos + padded - sizeof_sentinel) = rrr_mmap_sentinel_template ->
  (forall off, ~ span full <= off < span full + sizeof_index ->
     off <> pos + padded - sizeof_sentinel -> word m' off = word m off) ->
  chain m' 0 (full ++ [last_index pre']).
Proof.
  intros HL Hp pos pre' Hh Hsen Hw. pose proof (l_chain _ _ _ HL) as Hc.
  pose proof (l_room _ _ _ HL) as Hr.
  apply heap_chain_app in Hc as [Hf [(Hlen & Hok & _ & Hs) _]]. simpl in Hs.
  unfold last_index in Hok, Hs. apply Forall_app in Hok as [Hok _].
  apply sentinels_app in Hs as [Hs _].
  pose proof (total_nonneg _ Hok). pose proof (chain_span _ _ _ Hf).
  unfold sizeof_index, sizeof_sentinel in *. apply heap_chain_app. split.
  - eapply heap_chain_ext; [|done]. intros off Ho. apply Hw; lia.
  - split; [|done]. simpl. split_and!.
    + apply length_last. subst pre'. rewrite length_app. simpl. lia.
    + unfold last_index, pre', size_ok, RRR_MMAP_HEAP_CHUNK_MIN_SIZE.
      rewrite !Forall_app. split_and!; [done| |].
      * constructor; [simpl; lia|constructor].
      * apply Forall_replicate. simpl. lia.
    + done.
    + unfold last_index, pre'. rewrite !sentinels_app. split_and!.
      * eapply sentinels_ext; [done| |done]. unfold sizeof_index. intros off Ho. apply Hw; lia.
      * simpl. split; [|done]. intros _. unfold sizeof_index, sizeof_sentinel. rewrite <- Hsen.
        by f_equal.
      * apply sentinels_virgins.
Qed.

Lemma layout_new m m' full pre padded : layout m full pre -> 16 <= padded ->
  heap_size m' = heap_size m -> prev_allocation_index_pos m' = span full ->
  let pos := span full + sizeof_index + total pre in
  let pre' := pre ++ [mk_slot padded true] in
  pos + padded <= heap_size m ->
  header_at m' (span full) (last_index pre') ->
  word m' (pos + padded - sizeof_sentinel) = rrr_mmap_sentinel_template ->
  (forall off, ~ span full <= off < span full + sizeof_index ->
     off <> pos + padded - sizeof_sentinel -> word m' off = word m off) ->
  exists full2 pre2, layout m' full2 pre2 /\
    live 0 (full2 ++ [last_index pre2]) ≡ₚ (pos, padded) :: live 0 (full ++ [last_index pre]).
Proof.
  intros HL Hp Hsize Hprev pos pre' Hfit Hh Hsen Hw.
  pose proof (chain_new m m' full pre padded HL Hp Hh Hsen Hw) as Hc. fold pre' in Hc.
  pose proof (l_room _ _ _ HL) as Hr. pose proof (l_chain _ _ _ HL) as Hc0.
  apply heap_chain_app in Hc0 as [Hf [(_ & Hok & _) _]]. pose proof (total_nonneg _ Hok) as Hok0.
  rewrite total_last in Hok0. pose proof (chain_span _ _ _ Hf).
  assert (total pre' = total pre + padded) as Ht by (subst pre'; rewrite total_app; simpl; lia).
  assert (no_virgin pre') as Hv.
  { apply Forall_app. split; [apply HL|]. constructor; [done|constructor]. }
  assert (forall off, pos + padded <= off -> word m' off = 0) as Hz.
  { intros off Ho. unfold sizeof_index, sizeof_sentinel in *. rewrite Hw by lia.
    apply (l_zero _ _ _ HL). unfold sizeof_index. lia. }
  assert (live 0 (full ++ [last_index pre']) ≡ₚ
    (pos, padded) :: live 0 (full ++ [last_index pre])) as Hlive.
  { rewrite !live_app_ix. simpl. rewrite !app_nil_r. unfold last_index, pre'.
    rewrite !live_app, !live_virgins. simpl. rewrite (proj2 (Z.eqb_neq padded 0)) by lia. simpl.
    rewrite !app_nil_r, app_assoc. rewrite Permutation_app_comm. done. }
  assert (length pre' = S (length pre)) as Hlp by (subst pre'; rewrite length_app; simpl; lia).
  destruct (decide (length pre' < 64)%nat) as [Hlt|Hge].
  - exists full, pre'. split; [|done]. split; rewrite ?Hsize, ?Ht; try done; try (apply HL).
    + intros _. subst pos. lia.
    + intros off Ho. apply Hz. subst pos. lia.
    + exists (length full). by rewrite take_ge.
  - assert (last_index pre' = pre') as El.
    { unfold last_index. replace (64 - length pre')%nat with 0%nat by lia. apply app_nil_r. }
    rewrite El in *.
    assert (span (full ++ [pre']) = pos + padded) as Hspan.
    { rewrite heap_span_app. simpl. subst pos. lia. }
    exists (full ++ [pre']), []. split.
    + split; rewrite ?Hsize, ?Hspan; try done; try (apply HL).
      * apply Forall_app. split; [apply HL|]. constructor; [done|constructor].
      * constructor.
      * simpl. lia.
      * apply heap_chain_app. split; [done|]. rewrite Hspan. by apply chain_fresh.
      * intros off Ho. apply Hz. simpl in Ho. unfold sizeof_index in Ho. lia.
      * exists (length full). rewrite length_app. split; [lia|].
        by rewrite take_app_length.
    + rewrite live_app_ix, Hlive. assert (forall q, live q [last_index []] = []) as -> by done.
      by rewrite app_nil_r.
Qed.

(** * Blocks in use *)

Lemma live_slots_bounds q ss b : Forall size_ok ss -> b ∈ live_slots q ss ->
  q <= b.1 /\ b.1 + b.2 <= q + total ss /\ 16 <= b.2.
Proof.
  intros Hs. revert q. induction Hs as [|s ss [H0 H1] Hs IH]; intros q; simpl; [set_solver|].
  pose proof (total_nonneg _ Hs). unfold RRR_MMAP_HEAP_CHUNK_MIN_SIZE in H1. intros Hb.
  apply elem_of_app in Hb as [Hb|Hb].
  - destruct (sused s); simpl in Hb; [|set_solver].
    destruct (Z.eqb_spec (ssize s) 0); simpl in Hb; [set_solver|].
    apply list_elem_of_singleton in Hb as ->. simpl. lia.
  - specialize (IH _ Hb). lia.
Qed.

Lemma live_bounds m ixs b : forall p, chain m p ixs -> b ∈ live p ixs ->
  p + sizeof_index <= b.1 /\ b.1 + b.2 <= p + span ixs /\ 16 <= b.2.
Proof.
  induction ixs as [|ix r IH]; intros p; simpl; [set_solver|]. intros [(_ & Hs & _) Hr] Hb.
  pose proof (total_nonneg _ Hs). pose proof (chain_span _ _ _ Hr).
  unfold sizeof_index in *. apply elem_of_app in Hb as [Hb|Hb].
  - apply live_slots_bounds in Hb; [|done]. lia.
  - specialize (IH _ Hr Hb). lia.
Qed.

(** A block in use does not overlap an index. *)
Lemma live_off_header m d ix rr b : chain m 0 (d ++ ix :: rr) -> b ∈ live 0 (d ++ ix :: rr) ->
  b.1 + b.2 <= span d \/ span d + sizeof_index <= b.1.
Proof.
  intros Hc Hb. apply heap_chain_app in Hc as [Hd Hr]. rewrite live_app_ix in Hb.
  apply elem_of_app in Hb as [Hb|Hb].
  - apply (live_bounds _ _ _ _ Hd) in Hb. lia.
  - apply (live_bounds _ _ _ _ Hr) in Hb. lia.
Qed.

Definition before (a b : Z * Z) : Prop := a.1 + a.2 <= b.1.

Lemma live_slots_sorted q ss : Forall size_ok ss -> StronglySorted before (live_slots q ss).
Proof.
  intros Hs. revert q. induction Hs as [|s ss [H0 _] Hs IH]; intros q; simpl; [constructor|].
  destruct (_ && _); simpl; [|apply IH]. constructor; [apply IH|]. apply Forall_forall.
  intros b Hb. apply live_slots_bounds in Hb; [|done]. unfold before. simpl. lia.
Qed.

Lemma live_sorted m ixs : forall p, chain m p ixs -> StronglySorted before (live p ixs).
Proof.
  induction ixs as [|ix r IH]; intros p; simpl; [constructor|]. intros [(_ & Hs & _) Hr].
  apply StronglySorted_app_2; [|by apply live_slots_sorted|by apply IH].
  intros a b Ha Hb. apply live_slots_bounds in Ha; [|done].
  apply (live_bounds _ _ _ _ Hr) in Hb. unfold before, sizeof_index in *. lia.
Qed.

(** No two blocks overlap. *)
Definition disjoint_blocks (L : list (Z * Z)) : Prop :=
  forall a b L', L ≡ₚ a :: b :: L' -> before a b \/ before b a.

Lemma sorted_disjoint L : StronglySorted before L -> disjoint_blocks L.
Proof.
  intros Hs a b L' HP. destruct (Permutation_vs_cons_inv HP) as (x & y & ->). symmetry in HP.
  apply Permutation_cons_app_inv in HP.
  assert (b ∈ x ++ y) as Hb by (rewrite <- HP; set_solver).
  apply StronglySorted_app in Hs as (H1 & _ & H2). apply elem_of_app in Hb as [Hb|Hb].
  - right. apply H1; [done|set_solver].
  - left. apply StronglySorted_inv in H2 as [_ H2]. rewrite Forall_forall in H2. by apply H2.
Qed.

Lemma heap_ok_blocks m L : heap_ok m L ->
  disjoint_blocks L /\ Forall (fun b => 0 <= b.1 /\ b.1 + b.2 <= heap_size m /\ 16 <= b.2) L.
Proof.
  intros (full & pre & HL & HP). pose proof (l_chain _ _ _ HL) as Hc. split.
  - intros a b L' E. apply (sorted_disjoint _ (live_sorted _ _ _ Hc) a b L'). by rewrite <- HP.
  - rewrite HP. apply Forall_forall. intros b Hb.
    pose proof (live_bounds _ _ _ _ Hc Hb) as (H1 & H2 & H3).
    rewrite heap_span_app in H2. simpl in H2. rewrite total_last in H2.
    unfold sizeof_index in *. split_and!; [lia| |lia].
    pose proof (l_span _ _ _ HL) as Hsp. pose proof (l_fits _ _ _ HL) as Hfit.
    destruct (decide (pre = [])) as [->|Hne].
    + rewrite live_app_ix in Hb. assert (forall q, live q [last_index []] = []) as Hn by done.
      rewrite Hn, app_nil_r in Hb. apply heap_chain_app in Hc as [Hc _].
      apply (live_bounds _ _ _ _ Hc) in Hb. lia.
    + specialize (Hfit Hne). unfold sizeof_index in Hfit. lia.
Qed.

(** * Allocation *)

Lemma word_set_index_pos m p off : word (set_index_pos m p) off = word m off.
Proof. done. Qed.

(** The layout only depends on the words of the heap. *)
Lemma chain_words m m' p ixs : (forall off, word m' off = word m off) -> chain m p ixs ->
  chain m' p ixs.
Proof. intros Hw. apply heap_chain_ext. auto. Qed.

Lemma layout_set_index m full pre d ix rr : layout m full pre ->
  full ++ [last_index pre] = d ++ ix :: rr -> layout (set_index_pos m (span d)) full pre.
Proof.
  intros HL E. pose proof (layout_prefix _ _ _ _ _ _ HL E) as Hp.
  destruct HL. split; try done.
  by apply (chain_words m).
Qed.

Lemma alloc_indexes_correct padded full pre rest : 16 <= padded < 2 ^ 63 ->
  forall d m fuel, layout m full pre -> full ++ [last_index pre] = d ++ rest -> rest <> [] ->
  (length rest <= fuel)%nat ->
  match alloc_indexes fuel (span d) padded m with
  | Ret (m', Some (Some pos)) => exists d' ix rr, full ++ [last_index pre] = d' ++ ix :: rr /\
      grabbed (set_index_pos m (span d')) (span d') ix padded pos m'
  | Ret (m', _) => layout m' full pre /\ heap m' = heap m /\ heap_size m' = heap_size m
  | _ => False
  end.
Proof.
  intros Hpad. induction rest as [|ix rr IH]; intros d m fuel HL E Hne Hf; [done|].
  destruct fuel as [|fuel]; [simpl in Hf; lia|]. cbn [alloc_indexes].
  pose proof (layout_set_index _ _ _ _ _ _ HL E) as HL1.
  destruct (layout_index _ _ _ _ _ _ HL1 E) as (Hd & Hlen & Hok & Hh & Hsen & Hfit & Hcase).
  destruct (Z.ltb_spec (span d) (heap_size m)) as [Hlt|]; [|done].
  set (m1 := set_index_pos m (span d)) in *.
  change (heap_size m1) with (heap_size m).
  pose proof (l_size _ _ _ HL) as Hsz.
  rewrite wrap_small by (unfold sizeof_index; lia).
  destruct (Z.ltb_spec (heap_size m) (span d + sizeof_index)) as [|Hroom]; [done|].
  pose proof (alloc_slots_correct m1 (span d) padded ix ltac:(lia) (Hfit Hroom) Hsz Hpad Hlen Hok
    Hh Hsen ix [] 0 0 0 0 eq_refl (Forall_nil_2 _)) as Hs.
  rewrite Hlen in Hs. simpl total in Hs. rewrite Z.add_0_r in Hs.
  assert (scan_state (span d) [] 0 0 0 0) as Hscan by (split_and!; (done || lia)).
  specialize (Hs Hscan). simpl length in Hs. change (Z.of_nat 0) with 0 in Hs.
  destruct (alloc_slots 64 0 _ _ 0 0 0 0 padded m1) as [[pos m'| |q]| |]; cbn [mbind outcome_bind];
    [by exists d, ix, rr|done| |done..].
  destruct Hs as [-> Hv].
  destruct Hcase as [(-> & -> & ->)|(r' & -> & Efull & _)].
  { exfalso. pose proof (l_room _ _ _ HL) as Hr. unfold last_index in Hv.
    apply Forall_app in Hv as [_ Hv]. destruct (64 - length pre)%nat eqn:En; [lia|].
    simpl in Hv. by inversion Hv. }
  specialize (IH (d ++ [ix]) m1 fuel HL1). rewrite heap_span_app in IH. simpl span in IH.
  rewrite Z.add_0_r, Z.add_assoc in IH. rewrite <- app_assoc in IH.
  specialize (IH E ltac:(by destruct r') ltac:(simpl in Hf; lia)).
  destruct (alloc_indexes fuel _ padded m1) as [[m' [[pos|]|]]| |]; done.
Qed.

(** The words of the blocks [L] are the same in [m'] as in [m]. *)
Definition keeps (m m' : rrr_mmap) (L : list (Z * Z)) : Prop :=
  forall b off, b ∈ L -> b.1 <= off < b.1 + b.2 -> word m' off = word m off.

(** [m'] has one more block, and the contents of the others. *)
Definition extends (m : rrr_mmap) (L : list (Z * Z)) (padded pos : Z) (m' : rrr_mmap) : Prop :=
  exists size, padded <= size /\ heap_ok m' ((pos, size) :: L) /\ keeps m m' L.

Section Grabbed.
Context (m m' : rrr_mmap) (full : list (list slot)) (pre : list slot).
Context (d : list (list slot)) (ix : list slot) (rr : list (list slot)) (L : list (Z * Z)).
Context (HL : layout m full pre) (E : full ++ [last_index pre] = d ++ ix :: rr).
Context (HP : L ≡ₚ live 0 (full ++ [last_index pre])).
Context (padded : Z) (Hpad : 16 <= padded).
Context (Hprev : prev_allocation_index_pos m = span d).

(** A free block, or a run of free blocks, is taken. *)
Lemma grabbed_spare k run r h : ix = k ++ run ++ r -> run <> [] -> m' = with_heap m h ->
  header_at m' (span d) (taken k run r (total run)) -> padded <= total run ->
  Forall spare run ->
  (forall off, ~ span d <= off < span d + sizeof_index -> word m' off = word m off) ->
  extends m L padded (span d + sizeof_index + total k) m'.
Proof using HL E HP Hpad Hprev.
  intros Eix Hne Em Hh Hsz Hsp Hw. exists (total run). split; [done|].
  destruct (layout_spare m m' full pre d ix rr k run r) as (full' & pre' & HL' & Hlive);
    try (subst m'; done); [lia|].
  split; [exists full', pre'; by rewrite Hlive, HP|].
  intros b off Hb Ho. apply Hw. rewrite HP, E in Hb.
  pose proof (l_chain _ _ _ HL) as Hc. rewrite E in Hc.
  pose proof (live_off_header _ _ _ _ _ Hc Hb). lia.
Qed.

(** The slot of a new block is the first unused one of the last index. *)
Lemma grabbed_virgin k r : ix = k ++ [virgin] ++ r -> no_virgin k ->
  d = full /\ k = pre /\ ix = last_index pre /\ (forall size,
    taken k [virgin] r size = last_index (pre ++ [mk_slot size true])).
Proof using HL E Hprev.
  intros Eix Hk.
  destruct (layout_index _ _ _ _ _ _ HL E) as (_ & _ & _ & _ & _ & _ & [Hc|Hc]).
  - destruct Hc as (_ & -> & Elast). rewrite Elast in Eix.
    destruct (first_virgin _ _ _ (l_pre _ _ _ HL) Hk Eix) as [-> Er].
    split_and!; try done. intros size. unfold taken, last_index. simpl.
    rewrite <- app_assoc, length_app. simpl. do 2 f_equal.
    destruct (64 - length pre)%nat as [|n] eqn:En; [done|]. injection Er as ->.
    f_equal. lia.
  - destruct Hc as (r' & _ & Efull & _). exfalso. pose proof (l_full _ _ _ HL) as Hf.
    rewrite Efull in Hf. apply Forall_app in Hf as [_ Hf]. apply Forall_cons in Hf as [Hf _].
    unfold no_virgin in Hf. rewrite Eix in Hf. apply Forall_app in Hf as [_ Hf].
    by inversion Hf.
Qed.

Lemma grabbed_new k r h : ix = k ++ [virgin] ++ r -> m' = with_heap m h ->
  let pos := span d + sizeof_index + total k in
  header_at m' (span d) (taken k [virgin] r padded) -> pos + padded <= heap_size m ->
  no_virgin k -> word m' (pos + padded - sizeof_sentinel) = rrr_mmap_sentinel_template ->
  (forall off, ~ span d <= off < span d + sizeof_index -> off <> pos + padded - sizeof_sentinel ->
     word m' off = word m off) ->
  extends m L padded pos m'.
Proof using HL E HP Hpad Hprev.
  intros Eix Em pos Hh Hfit Hk Hsen Hw. exists padded. split; [done|].
  destruct (grabbed_virgin k r Eix Hk) as (Ed & Ek & _ & Et). rewrite Et in Hh.
  subst pos. rewrite Ed, Ek in *.
  destruct (layout_new m m' full pre padded HL Hpad) as (full' & pre' & HL' & Hlive);
    try (subst m'; done).
  split; [exists full', pre'; by rewrite Hlive, HP|].
  intros b off Hb Ho. rewrite HP in Hb. pose proof (l_chain _ _ _ HL) as Hc.
  pose proof (live_bounds _ _ _ _ Hc Hb) as (_ & Hend & _).
  rewrite heap_span_app in Hend. simpl in Hend. rewrite total_last in Hend.
  destruct (layout_index _ _ _ full _ [] HL eq_refl) as (Hs0 & _ & Hok & _).
  rewrite E in Hc, Hb. pose proof (live_off_header _ _ _ _ _ Hc Hb).
  unfold sizeof_sentinel in *. apply Hw; lia.
Qed.

Lemma grabbed_extends pos : grabbed m (span d) ix padded pos m' -> extends m L padded pos m'.
Proof using HL E HP Hpad Hprev.
  intros (k & run & r & size & Eix & Hne & -> & Hh & [h Em] & [Hnew|Hspare]).
  - destruct Hnew as (-> & -> & Hfit & Hk & Hsen & Hw). by eapply grabbed_new.
  - destruct Hspare as (-> & Hsz & Hsp & Hw). by eapply grabbed_spare.
Qed.
End Grabbed.

(** The block size for a request. *)
Definition padded_size (req_size : Z) : Z :=
  let size := req_size + sizeof_sentinel in
  size - size mod RRR_MMAP_HEAP_CHUNK_MIN_SIZE + RRR_MMAP_HEAP_CHUNK_MIN_SIZE.

Lemma padded_size_bounds req : 0 < req -> 16 <= padded_size req /\
  req + sizeof_sentinel < padded_size req <= req + 24 /\ padded_size req mod 16 = 0.
Proof.
  unfold padded_size, sizeof_sentinel, RRR_MMAP_HEAP_CHUNK_MIN_SIZE. intros H.
  pose proof (Z.mod_pos_bound (req + 8) 16). pose proof (Z.div_mod (req + 8) 16).
  split_and!; try lia.
  replace (req + 8 - (req + 8) mod 16 + 16) with (((req + 8) / 16 + 1) * 16) by lia.
  apply Z_mod_mult.
Qed.

Lemma walk_fuel_enough m full pre : layout m full pre ->
  (length (full ++ [last_index pre]) <= walk_fuel m)%nat.
Proof.
  intros HL. pose proof (l_chain _ _ _ HL) as Hc. apply heap_chain_app in Hc as [Hc _].
  pose proof (chain_span _ _ _ Hc). pose proof (l_span _ _ _ HL).
  unfold walk_fuel, sizeof_index in *. rewrite length_app. simpl. lia.
Qed.

(** The walk over all indexes from one of them. *)
Lemma alloc_walk padded full pre k m m0 L : 16 <= padded < 2 ^ 63 -> layout m full pre ->
  heap m = heap m0 -> heap_size m = heap_size m0 -> L ≡ₚ live 0 (full ++ [last_index pre]) ->
  match alloc_indexes (walk_fuel m) (span (take k full)) padded m with
  | Ret (m', Some (Some pos)) => heap_size m' = heap_size m0 /\ extends m0 L padded pos m'
  | Ret (m', _) => layout m' full pre /\ heap m' = heap m0 /\ heap_size m' = heap_size m0
  | _ => False
  end.
Proof.
  intros Hpad HL Em Es HP.
  pose proof (alloc_indexes_correct padded full pre (drop k full ++ [last_index pre]) Hpad
    (take k full) m (walk_fuel m) HL) as H.
  rewrite app_assoc, take_drop in H. specialize (H eq_refl ltac:(by destruct (drop k full))).
  pose proof (walk_fuel_enough m full pre HL) as Hf. rewrite length_app in Hf.
  rewrite length_app, length_drop in H. specialize (H ltac:(lia)).
  destruct (alloc_indexes _ _ padded m) as [[m' [[pos|]|]]| |];
    [|by rewrite <- Em, <- Es..|done|done].
  destruct H as (d & ix & rr & E & Hg). pose proof Hg as (? & ? & ? & ? & _ & _ & _ & _ & [h Eh] & _).
  split; [subst m'; exact Es|].
  pose proof (layout_set_index _ _ _ _ _ _ HL E) as HL1.
  destruct (grabbed_extends _ m' _ _ _ _ _ L HL1 E HP padded ltac:(lia) eq_refl pos Hg)
    as (size & H1 & H2 & H3).
  exists size. split_and!; [done..|]. intros b off Hb Ho. rewrite (H3 b off Hb Ho).
  unfold word. simpl. by rewrite Em.
Qed.

Lemma heap_ok_failure m L n : heap_ok m L -> heap_ok (set_failure m n) L.
Proof.
  intros (full & pre & HL & HP). exists full, pre. split; [|done]. destruct HL.
  split; try done. by apply (chain_words m).
Qed.

Lemma heap_ok_count m L : heap_ok m L -> heap_ok (count_allocation m) L.
Proof.
  intros (full & pre & HL & HP). exists full, pre. split; [|done]. destruct HL.
  split; try done. by apply (chain_words m).
Qed.

(** * Freeing *)

(** What freeing the block of a slot of the index at [p] leaves. *)
Definition released (m : rrr_mmap) (p : Z) (ss : list slot) (handle : Z) (m' : rrr_mmap) : Prop :=
  exists k s r, ss = k ++ s :: r /\ ssize s <> 0 /\ sused s = true /\
    handle = p + sizeof_index + total k /\ (exists h, m' = with_heap m h) /\
    header_at m' p (k ++ mk_slot (ssize s) false :: r) /\
    forall off, off <> p -> word m' off = word m off.

Lemma clear_mask_bits w j i : 0 <= j < 64 -> 0 <= i < 64 ->
  Z.testbit (w &&& u64 (Z.lnot (u64 (1 <<< j)))) i = Z.testbit w i && negb (i =? j).
Proof.
  intros Hj Hi. rewrite mask_pow2 by lia. unfold wrap.
  rewrite Z.land_spec, Z.mod_pow2_bits_low, Z.lnot_spec, Z.pow2_bits_eqb by lia.
  by rewrite (Z.eqb_sym j).
Qed.

Lemma land_range w a : 0 <= w < 2 ^ 64 -> 0 <= a -> 0 <= w &&& a < 2 ^ 64.
Proof.
  intros Hw Ha. assert (0 <= w &&& a) by (apply Z.land_nonneg; lia).
  split; [done|]. apply lt_pow2_bits; [lia..|]. intros i Hi.
  by rewrite Z.land_spec, (bits_above 64 w).
Qed.

Definition off_handle (handle : Z) (L : list (Z * Z)) : Prop := Forall (fun b => b.1 <> handle) L.

(** Slots after the first virgin one are virgin. *)
Definition virgin_tail (ss : list slot) : Prop :=
  forall k r, ss = k ++ virgin :: r -> forall q, live_slots q r = [].

Section FreeSlots.
Context (m : rrr_mmap) (p handle : Z) (ss : list slot).
Context (Hp : 0 <= p) (Hend : p + sizeof_index + total ss <= heap_size m).
Context (Hheap : heap_size m < 2 ^ 63).
Context (Hlen : length ss = 64%nat) (Hok : Forall size_ok ss) (Hvt : virgin_tail ss).
Context (Hh : header_at m p ss) (Hsen : sentinels_at m (p + sizeof_index) ss).

Lemma release_slot k s r : ss = k ++ s :: r -> ssize s <> 0 -> sused s = true ->
  exists m', store m p (word m p &&& u64 (Z.lnot (u64 (1 <<< Z.of_nat (length k))))) = Ret m' /\
    released m p ss (p + sizeof_index + total k) m'.
Proof using Hp Hend Hlen Hok Hh Hsen.
  intros E Hs Hu.
  destruct (slot_facts m p ss Hp Hend Hlen Hok Hh Hsen k s r E)
    as (_ & _ & _ & Hj & Hk & Hs0 & Hr0 & He & _).
  unfold sizeof_index in He. rewrite store_inside by lia. eexists. split; [done|].
  exists k, s, r. split_and!; try done; [by eexists| |].
  - pose proof Hh as [Hrange H]. rewrite E in H. split.
    + rewrite word_store, Z.eqb_refl. apply land_range; [done|]. by apply wrap_range.
    + intros j t Hjt. assert (j < 64)%nat as Hj64.
      { apply lookup_lt_Some in Hjt. rewrite length_app in Hjt. simpl in Hjt.
        rewrite E, length_app in Hlen. simpl in Hlen. lia. }
      rewrite !word_store, Z.eqb_refl, (proj2 (Z.eqb_neq _ _)) by (unfold block_sizes; lia).
      rewrite clear_mask_bits by lia.
      destruct (decide (j = length k)) as [->|Hne].
      * rewrite list_lookup_middle in Hjt by done. injection Hjt as <-.
        destruct (header_slot m p k s r) as [H1 _]; [by rewrite <- E|].
        by rewrite Z.eqb_refl, andb_false_r.
      * rewrite (proj2 (Z.eqb_neq _ _)), andb_true_r by lia. apply H. rewrite <- Hjt.
        rewrite !lookup_app. destruct (k !! j) eqn:Ek; [done|]. apply lookup_ge_None in Ek.
        destruct (j - length k)%nat eqn:Ej; [lia|done].
  - intros off Ho. by rewrite word_store, (proj2 (Z.eqb_neq _ _)).
Qed.

Lemma free_slots_correct r : forall k, ss = k ++ r ->
  match free_slots (length r) (Z.of_nat (length k)) p (p + sizeof_index + total k) handle m with
  | Ret (inl m') => released m p ss handle m'
  | Ret (inr q) => q = p + sizeof_index + total ss /\
      off_handle handle (live_slots (p + sizeof_index + total k) r)
  | Bug => off_handle handle (live_slots (p + sizeof_index + total k) r) /\
      handle <= p + sizeof_index + total ss
  | Oob => False
  end.
Proof using Hp Hend Hlen Hok Hh Hsen Hheap Hvt.
  induction r as [|s r IH]; intros k E.
  { rewrite app_nil_r in E. subst k. split; [done|]. constructor. }
  destruct (slot_facts m p ss Hp Hend Hlen Hok Hh Hsen k s r E)
    as (L1 & L2 & Hbit & Hj & Hk0 & Hs0 & Hr0 & He & Hsl).
  specialize (IH (k ++ [s])). rewrite <- app_assoc in IH. specialize (IH E).
  rewrite length_app, total_app in IH. simpl in IH.
  rewrite Z.add_0_r, Z.add_assoc, Nat2Z.inj_add in IH. simpl in IH.
  cbn [length free_slots]. rewrite L1, L2. cbn [mbind outcome_bind].
  rewrite used_test, free_test by done. rewrite Hbit. cbn [live_slots].
  assert (Forall size_ok r) as Hokr.
  { rewrite E in Hok. apply Forall_app in Hok as [_ H]. by apply Forall_cons in H as [_ H]. }
  destruct (Z.eqb_spec (ssize s) 0) as [Hz|Hz]; cbn [andb].
  - rewrite Hz, Z.add_0_r in *. rewrite andb_false_r. simpl.
    destruct (sused s) eqn:Hu; [exact IH|]. cbn [negb].
    destruct (Z.eqb_spec handle (p + sizeof_index + total k)) as [->|Hne].
    + assert (s = virgin) as -> by (destruct s; simpl in *; by subst).
      rewrite (Hvt k r E). split; [constructor|]. rewrite E, total_app. simpl. lia.
    + unfold sizeof_index in *. rewrite wrap_small by lia.
      by rewrite (proj2 (Z.ltb_ge (heap_size m) _)) by lia.
  - destruct (Z.eqb_spec handle (p + sizeof_index + total k)) as [->|Hne].
    + destruct (sused s) eqn:Hu; cbn [negb].
      * destruct (release_slot k s r E Hz Hu) as (m' & -> & Hr). exact Hr.
      * cbn [andb]. split; [|rewrite E, total_app; simpl; lia]. apply Forall_forall.
        intros b Hb. apply live_slots_bounds in Hb; [|done]. lia.
    + unfold sizeof_index in *. rewrite wrap_small by lia.
      rewrite (proj2 (Z.ltb_ge (heap_size m) _)) by lia.
      assert (forall l, off_handle handle ((if sused s && true then
        [(p + 520 + total k, ssize s)] else []) ++ l) <-> off_handle handle l) as Heq.
      { intros l. unfold off_handle. rewrite Forall_app. destruct (sused s); simpl; [|naive_solver].
        rewrite Forall_singleton. simpl. naive_solver. }
      destruct (free_slots (length r) _ p _ handle m) as [[m'|q]| |]; [done| | |done].
      * rewrite Heq. exact IH.
      * rewrite Heq. exact IH.
Qed.
End FreeSlots.

Lemma virgin_tail_none ss : no_virgin ss -> virgin_tail ss.
Proof.
  intros H k r ->. exfalso. apply Forall_app in H as [_ H]. by inversion H.
Qed.

Lemma virgin_tail_last pre : no_virgin pre -> virgin_tail (last_index pre).
Proof.
  intros Hp k r E q. unfold last_index in E.
  assert (length pre <= length k)%nat as Hl.
  { destruct (decide (length pre <= length k)%nat) as [|Hlt]; [done|]. exfalso.
    assert ((k ++ virgin :: r) !! length k = Some virgin) as Hv by (by apply list_lookup_middle).
    rewrite <- E, lookup_app_l in Hv by lia. unfold no_virgin in Hp. rewrite Forall_lookup in Hp.
    by apply (Hp _ _ Hv). }
  assert (r = drop (S (length k)) (k ++ virgin :: r)) as ->.
  { rewrite drop_app_ge by lia. by replace (S (length k) - length k)%nat with 1%nat by lia. }
  rewrite <- E, drop_app_ge by lia. rewrite drop_replicate. apply live_virgins.
Qed.

Lemma layout_virgin_tail m full pre d ix rr : layout m full pre ->
  full ++ [last_index pre] = d ++ ix :: rr -> virgin_tail ix.
Proof.
  intros HL E. destruct (layout_index _ _ _ _ _ _ HL E) as (_ & _ & _ & _ & _ & _ & [Hc|Hc]).
  - destruct Hc as (_ & _ & ->). apply virgin_tail_last, HL.
  - destruct Hc as (r' & _ & Ef & _). apply virgin_tail_none. pose proof (l_full _ _ _ HL) as Hf.
    rewrite Ef in Hf. apply Forall_app in Hf as [_ Hf]. by apply Forall_cons in Hf as [Hf _].
Qed.

(** In memory never used, the walk finds nothing. *)
Lemma free_zero_slots m p handle n : forall j, (forall off, p <= off -> word m off = 0) ->
  0 <= p -> p + sizeof_index <= heap_size m -> heap_size m < 2 ^ 63 ->
  0 <= j -> j + Z.of_nat n <= 64 ->
  free_slots n j p (p + sizeof_index) handle m =
    if (handle =? p + sizeof_index) && negb (Nat.eqb n 0) then Bug
    else Ret (inr (p + sizeof_index)).
Proof.
  induction n as [|n IH]; intros j Hz Hp Hs Hh Hj Hn; [by rewrite andb_false_r|].
  cbn [free_slots]. unfold sizeof_index in *.
  rewrite !load_inside by (unfold block_sizes; lia). cbn [mbind outcome_bind].
  rewrite !Hz by (unfold block_sizes; lia). rewrite used_test, free_test, Z.bits_0 by lia.
  rewrite andb_false_r, Z.add_0_r. simpl.
  destruct (Z.eqb_spec handle (p + 520)) as [|Hne]; [done|].
  rewrite wrap_small, (proj2 (Z.ltb_ge (heap_size m) _)) by lia.
  by rewrite IH by (done || lia).
Qed.

Lemma free_zero m handle : forall fuel p, (forall off, p <= off -> word m off = 0) -> 0 <= p ->
  heap_size m < 2 ^ 63 -> heap_size m - p < Z.of_nat fuel ->
  free_indexes fuel p handle m = Bug.
Proof.
  induction fuel as [|fuel IH]; intros p Hz Hp Hh Hf; cbn [free_indexes].
  { by rewrite (proj2 (Z.ltb_ge _ _)) by lia. }
  destruct (Z.ltb_spec p (heap_size m)); [|done].
  rewrite wrap_small by (unfold sizeof_index; lia).
  destruct (Z.ltb_spec (heap_size m) (p + sizeof_index)); [done|].
  rewrite free_zero_slots by (done || lia). unfold sizeof_index in *.
  destruct (_ && _); [done|]. cbn [mbind outcome_bind]. apply IH; try lia.
  intros off Ho. apply Hz. lia.
Qed.

Lemma free_indexes_correct handle full pre m rest : layout m full pre ->
  forall d fuel, full ++ [last_index pre] = d ++ rest -> off_handle handle (live 0 d) ->
  heap_size m - span d < Z.of_nat fuel ->
  match free_indexes fuel (span d) handle m with
  | Ret m' => exists d' ix rr, full ++ [last_index pre] = d' ++ ix :: rr /\
      released m (span d') ix handle m'
  | Bug => off_handle handle (live 0 (full ++ [last_index pre]))
  | Oob => False
  end.
Proof.
  intros HL. pose proof (l_size _ _ _ HL) as Hsz.
  pose proof (l_chain _ _ _ HL) as Hc. pose proof (chain_span _ _ _ Hc) as Hspan.
  induction rest as [|ix rr IH]; intros d fuel E Hoff Hf.
  { rewrite app_nil_r in E. subst d. rewrite free_zero; try done; unfold sizeof_index in *; try lia.
    intros off Ho. apply (l_zero _ _ _ HL). rewrite heap_span_app in Ho. simpl in Ho.
    rewrite total_last in Ho. unfold sizeof_index in *. lia. }
  destruct (layout_index _ _ _ _ _ _ HL E) as (Hd & Hlen & Hok & Hh & Hsen & Hfit & Hcase).
  rewrite E in Hc. pose proof Hc as Hc0. apply heap_chain_app in Hc0 as [_ [_ Hcr]].
  assert (off_handle handle (live_slots (span d + sizeof_index) ix) ->
    off_handle handle (live (span d + (sizeof_index + total ix)) rr) ->
    off_handle handle (live 0 (full ++ [last_index pre]))) as Hall.
  { intros H1 H2. rewrite E, live_app_ix. simpl. unfold off_handle. rewrite !Forall_app. done. }
  assert (heap_size m < span d + sizeof_index ->
    off_handle handle (live 0 (full ++ [last_index pre]))) as Hnone.
  { intros Hno. destruct Hcase as [(-> & -> & ->)|(r' & -> & Ef & ?)]; [|lia].
    apply Hall; [|constructor]. destruct (decide (pre = [])) as [->|Hne]; [constructor|].
    pose proof (l_fits _ _ _ HL Hne). apply Forall_app in Hok as [Hok _].
    pose proof (total_nonneg _ Hok). lia. }
  destruct fuel as [|fuel]; cbn [free_indexes].
  { rewrite (proj2 (Z.ltb_ge _ _)) by lia. apply Hnone. unfold sizeof_index. lia. }
  destruct (Z.ltb_spec (span d) (heap_size m)) as [Hlt|];
    [|apply Hnone; unfold sizeof_index; lia].
  rewrite wrap_small by (unfold sizeof_index; lia).
  destruct (Z.ltb_spec (heap_size m) (span d + sizeof_index)) as [|Hroom]; [by apply Hnone|].
  pose proof (free_slots_correct m (span d) handle ix ltac:(lia) (Hfit Hroom) Hsz Hlen Hok
    (layout_virgin_tail _ _ _ _ _ _ HL E) Hh Hsen ix [] eq_refl) as Hs.
  rewrite Hlen in Hs. simpl total in Hs. rewrite Z.add_0_r in Hs.
  simpl length in Hs. change (Z.of_nat 0) with 0 in Hs.
  pose proof (total_nonneg _ Hok).
  destruct (free_slots 64 0 _ _ handle m) as [[m'|q]| |]; cbn [mbind outcome_bind].
  - by exists d, ix, rr.
  - destruct Hs as [-> Hs]. specialize (IH (d ++ [ix]) fuel). rewrite heap_span_app in IH.
    simpl span in IH. rewrite Z.add_0_r, Z.add_assoc in IH. rewrite <- app_assoc in IH.
    apply IH; [done| |unfold sizeof_index in *; lia].
    rewrite live_app_ix. simpl. rewrite app_nil_r. by apply Forall_app.
  - destruct Hs as [Hs Hle]. apply Hall; [done|]. apply Forall_forall. intros b Hb.
    apply (live_bounds _ _ _ _ Hcr) in Hb. simpl in Hb. unfold sizeof_index in *. lia.
  - done.
Qed.

Lemma sentinels_sizes m q k s s' r : ssize s' = ssize s ->
  sentinels_at m q (k ++ s :: r) -> sentinels_at m q (k ++ s' :: r).
Proof. intros E. rewrite !sentinels_app. simpl. by rewrite E. Qed.

(** A block in use becomes a free one. *)
Lemma released_ok m m' full pre d ix rr handle : layout m full pre ->
  full ++ [last_index pre] = d ++ ix :: rr -> released m (span d) ix handle m' ->
  exists n L', live 0 (full ++ [last_index pre]) ≡ₚ (handle, n) :: L' /\ heap_ok m' L' /\
    keeps m m' L'.
Proof.
  intros HL E (k & s & r & Eix & Hs & Hu & -> & [h Em] & Hh & Hw).
  destruct (layout_index _ _ _ _ _ _ HL E) as (Hd & Hlen & Hok & _ & Hsen & _ & _).
  pose proof (l_chain _ _ _ HL) as Hc. rewrite E in Hc.
  set (s' := mk_slot (ssize s) false) in *. subst ix.
  assert (forall off, ~ span d <= off < span d + sizeof_index -> word m' off = word m off) as Hw'.
  { intros off Ho. apply Hw. unfold sizeof_index in Ho. lia. }
  assert (total (k ++ s' :: r) = total (k ++ s :: r)) as Ht by (rewrite !total_app; done).
  assert (chain m' 0 (d ++ (k ++ s' :: r) :: rr)) as Hc'.
  { eapply chain_replace; [exact Hc|..]; try done.
    - rewrite length_app in *. done.
    - apply Forall_app in Hok as [? Hok]. apply Forall_cons in Hok as [[? ?] ?].
      apply Forall_app. split; [done|]. by constructor.
    - apply (sentinels_sizes _ _ _ s); [done|]. eapply sentinels_ext; [done| |exact Hsen].
      intros off Ho. apply Hw'. lia. }
  destruct (layout_rewrite m m' full pre d (k ++ s :: r) rr k [s] [s'] r)
    as (full' & pre' & HL' & E'); try done; try (subst m'; done).
  - constructor; [by intros ->|constructor].
  - constructor; [|constructor]. intros [=]. done.
  - subst m'. apply HL.
  - exists (ssize s), (live 0 (d ++ (k ++ s' :: r) :: rr)). split_and!.
    + rewrite E. apply live_perm_taken; [done|]. rewrite !live_app. simpl.
      rewrite Hu, (proj2 (Z.eqb_neq _ _) Hs). simpl. symmetry. apply Permutation_middle.
    + exists full', pre'. by rewrite E'.
    + intros b off Hb Ho. apply Hw'. pose proof (live_off_header _ _ _ _ _ Hc' Hb). lia.
Qed.

(** The blocks other than one at [handle]. *)
Lemma off_handle_not_in L handle : off_handle handle L <-> forall n, (handle, n) ∉ L.
Proof.
  unfold off_handle. rewrite Forall_forall. split.
  - intros H n Hin. by apply (H _ Hin).
  - intros H [q n] Hin. simpl. intros ->. by apply (H n).
Qed.

Lemma rrr_mmap_free_cases m L handle : heap_ok m L ->
  match rrr_mmap_free m handle with
  | Ret m' => exists n L', L ≡ₚ (handle, n) :: L' /\ heap_ok m' L' /\ keeps m m' L' /\
      heap_size m' = heap_size m
  | Bug => forall n, (handle, n) ∉ L
  | Oob => False
  end.
Proof.
  intros (full & pre & HL & HP). unfold rrr_mmap_free.
  pose proof (free_indexes_correct handle full pre m (full ++ [last_index pre]) HL [] (walk_fuel m)
    eq_refl (Forall_nil_2 _)) as H. simpl span in H.
  specialize (H ltac:(unfold walk_fuel; destruct (layout_index _ _ _ full _ [] HL eq_refl); lia)).
  destruct (free_indexes _ 0 handle m) as [m1| |]; cbn [mbind outcome_bind]; [| |done].
  - destruct H as (d & ix & rr & E & Hr). 
    destruct (released_ok _ _ _ _ _ _ _ _ HL E Hr) as (n & L' & HP' & Hok & Hk).
    exists n, L'. rewrite HP. split_and!; [done| |done|].
    + by apply heap_ok_failure.
    + by destruct Hr as (? & ? & ? & _ & _ & _ & _ & [h ->] & _).
  - intros n. rewrite HP. by apply off_handle_not_in.
Qed.

(** * Looking for blocks in use *)

Definition in_use (s : slot) : bool := sused s && negb (ssize s =? 0).

Lemma live_slots_nil q ss : live_slots q ss = [] <-> existsb in_use ss = false.
Proof.
  revert q. induction ss as [|s ss IH]; intros q; simpl; [done|].
  rewrite orb_false_iff, <- (IH (q + ssize s)). unfold in_use.
  destruct (_ && _); simpl; naive_solver.
Qed.

Section Used.
Context (m : rrr_mmap) (p : Z) (ss : list slot).
Context (Hp : 0 <= p) (Hend : p + sizeof_index + total ss <= heap_size m).
Context (Hheap : heap_size m < 2 ^ 63).
Context (Hlen : length ss = 64%nat) (Hok : Forall size_ok ss).
Context (Hh : header_at m p ss) (Hsen : sentinels_at m (p + sizeof_index) ss).

Lemma any_used_correct r : forall k, ss = k ++ r ->
  any_used (length r) (Z.of_nat (length k)) p (word m p) m = Ret (existsb in_use r).
Proof using Hp Hend Hlen Hok Hh Hsen.
  induction r as [|s r IH]; intros k E; [done|].
  destruct (slot_facts m p ss Hp Hend Hlen Hok Hh Hsen k s r E) as (L1 & _ & Hbit & Hj & _).
  specialize (IH (k ++ [s])). rewrite <- app_assoc, length_app in IH. specialize (IH E).
  rewrite Nat2Z.inj_add in IH. cbn [length any_used existsb]. rewrite L1.
  cbn [mbind outcome_bind]. unfold truth. rewrite free_test, negb_involutive, Hbit by done.
  unfold in_use. destruct (_ && _); [done|]. exact IH.
Qed.

Lemma skip_slots_correct r : forall k, ss = k ++ r ->
  skip_slots (length r) (Z.of_nat (length k)) p (p + sizeof_index + total k) m =
    Ret (p + sizeof_index + total ss).
Proof using Hp Hend Hlen Hok Hh Hsen Hheap.
  induction r as [|s r IH]; intros k E; [by rewrite E, app_nil_r|].
  destruct (slot_facts m p ss Hp Hend Hlen Hok Hh Hsen k s r E)
    as (L1 & _ & _ & Hj & Hk0 & Hs0 & Hr0 & He & _).
  specialize (IH (k ++ [s])). rewrite <- app_assoc, length_app, total_app in IH. specialize (IH E).
  simpl in IH. rewrite Nat2Z.inj_add, Z.add_0_r, Z.add_assoc in IH. cbn [length skip_slots].
  rewrite L1. cbn [mbind outcome_bind]. unfold sizeof_index in *. rewrite wrap_small by lia.
  rewrite (proj2 (Z.ltb_ge _ _)) by lia. exact IH.
Qed.

Lemma no_used_map : word m p = 0 -> existsb in_use ss = false.
Proof using Hh.
  intros Hz. apply not_true_is_false. intros (s & Hs & Hu)%existsb_exists.
  apply list_elem_of_In, list_elem_of_lookup_1 in Hs as [j Hj]. destruct Hh as [_ H].
  destruct (H j s Hj) as [_ Hb]. rewrite Hz, Z.bits_0 in Hb. unfold in_use in Hu.
  by rewrite <- Hb in Hu.
Qed.
End Used.

(** Memory never used holds no block. *)
Lemma skip_zero m p n : forall j, (forall off, p <= off -> word m off = 0) -> 0 <= p ->
  p + sizeof_index <= heap_size m -> heap_size m < 2 ^ 63 -> 0 <= j -> j + Z.of_nat n <= 64 ->
  skip_slots n j p (p + sizeof_index) m = Ret (p + sizeof_index).
Proof.
  induction n as [|n IH]; intros j Hz Hp Hs Hh Hj Hn; [done|].
  cbn [skip_slots]. unfold sizeof_index in *.
  rewrite load_inside by (unfold block_sizes; lia). cbn [mbind outcome_bind].
  rewrite Hz by (unfold block_sizes; lia). rewrite Z.add_0_r, wrap_small by lia.
  rewrite (proj2 (Z.ltb_ge _ _)) by lia. apply IH; done || lia.
Qed.

Lemma empty_zero m : forall fuel p, (forall off, p <= off -> word m off = 0) -> 0 <= p ->
  heap_size m < 2 ^ 63 -> heap_size m - p < Z.of_nat fuel -> empty_indexes fuel p m = Ret 1.
Proof.
  induction fuel as [|fuel IH]; intros p Hz Hp Hh Hf; cbn [empty_indexes].
  { by rewrite (proj2 (Z.ltb_ge _ _)) by lia. }
  destruct (Z.ltb_spec p (heap_size m)); [|done].
  rewrite wrap_small by (unfold sizeof_index; lia).
  destruct (Z.ltb_spec (heap_size m) (p + sizeof_index)); [done|].
  rewrite load_inside by (unfold sizeof_index in *; lia). cbn [mbind outcome_bind].
  rewrite Hz by lia. simpl truth. cbn [mbind outcome_bind].
  rewrite skip_zero by (done || lia). cbn [mbind outcome_bind]. unfold sizeof_index in *.
  apply IH; try lia. intros off Ho. apply Hz. lia.
Qed.

Lemma empty_indexes_correct full pre m rest : layout m full pre ->
  forall d fuel, full ++ [last_index pre] = d ++ rest -> live 0 d = [] ->
  heap_size m - span d < Z.of_nat fuel ->
  empty_indexes fuel (span d) m =
    Ret (if decide (live 0 (full ++ [last_index pre]) = []) then 1 else 0).
Proof.
  intros HL. pose proof (l_size _ _ _ HL) as Hsz.
  pose proof (l_chain _ _ _ HL) as Hc. pose proof (chain_span _ _ _ Hc) as Hspan.
  induction rest as [|ix rr IH]; intros d fuel E Hoff Hf.
  { rewrite app_nil_r in E. subst d. rewrite decide_True by done.
    apply empty_zero; try done; unfold sizeof_index in *; try lia.
    intros off Ho. apply (l_zero _ _ _ HL). rewrite heap_span_app in Ho. simpl in Ho.
    rewrite total_last in Ho. unfold sizeof_index in *. lia. }
  destruct (layout_index _ _ _ _ _ _ HL E) as (Hd & Hlen & Hok & Hh & Hsen & Hfit & Hcase).
  assert (heap_size m < span d + sizeof_index -> live 0 (full ++ [last_index pre]) = []) as Hnone.
  { intros Hno. destruct Hcase as [(-> & -> & ->)|(r' & -> & Ef & ?)]; [|lia].
    rewrite live_app_ix, Hoff. destruct (decide (pre = [])) as [->|Hne]; [done|].
    pose proof (l_fits _ _ _ HL Hne). apply Forall_app in Hok as [Hok _].
    pose proof (total_nonneg _ Hok). lia. }
  destruct fuel as [|fuel]; cbn [empty_indexes].
  { rewrite (proj2 (Z.ltb_ge _ _)) by lia. rewrite decide_True; [done|]. apply Hnone.
    unfold sizeof_index. lia. }
  destruct (Z.ltb_spec (span d) (heap_size m)) as [Hlt|];
    [|rewrite decide_True; [done|apply Hnone; unfold sizeof_index; lia]].
  rewrite wrap_small by (unfold sizeof_index; lia).
  destruct (Z.ltb_spec (heap_size m) (span d + sizeof_index)) as [|Hroom];
    [by rewrite decide_True by (by apply Hnone)|].
  specialize (Hfit Hroom). pose proof (total_nonneg _ Hok).
  rewrite load_inside by (unfold sizeof_index in *; lia). cbn [mbind outcome_bind].
  pose proof (any_used_correct m (span d) ix ltac:(lia) Hfit Hlen Hok Hh Hsen ix [] eq_refl) as Hany.
  rewrite Hlen in Hany. simpl length in Hany. change (Z.of_nat 0) with 0 in Hany.
  assert ((if truth (word m (span d)) then any_used 64 0 (span d) (word m (span d)) m
    else Ret false) = Ret (existsb in_use ix)) as ->.
  { unfold truth. destruct (Z.eqb_spec (word m (span d)) 0) as [Hz|]; [|exact Hany].
    simpl. by rewrite (no_used_map m (span d) ix Hh Hz). }
  cbn [mbind outcome_bind]. destruct (existsb in_use ix) eqn:Hu.
  - rewrite decide_False; [done|]. rewrite E, live_app_ix. simpl. intros Hnil.
    apply app_eq_nil in Hnil as [_ Hnil]. apply app_eq_nil in Hnil as [Hnil _].
    apply live_slots_nil in Hnil. congruence.
  - pose proof (skip_slots_correct m (span d) ix ltac:(lia) Hfit Hsz Hlen Hok Hh Hsen ix []
      eq_refl) as Hskip. rewrite Hlen in Hskip. simpl total in Hskip. rewrite Z.add_0_r in Hskip.
    simpl length in Hskip. change (Z.of_nat 0) with 0 in Hskip.
    rewrite Hskip. cbn [mbind outcome_bind].
    specialize (IH (d ++ [ix]) fuel). rewrite heap_span_app in IH.
    simpl span in IH. rewrite Z.add_0_r, Z.add_assoc in IH. rewrite <- app_assoc in IH.
    apply IH; [done| |unfold sizeof_index in *; lia].
    rewrite live_app_ix, Hoff. simpl. rewrite app_nil_r. by apply live_slots_nil.
Qed.

(** * The dump of a heap *)

(** Every slot of every index is taken, and what is left of the heap is too small for another
    index. *)
Definition cut_off (m : rrr_mmap) : Prop :=
  exists full, layout m full [] /\ span full < heap_size m < span full + sizeof_index.

Lemma load_cases m off : load m off = Oob \/ load m off = Ret (word m off).
Proof. unfold load. destruct (inside m off); auto. Qed.

Lemma dump_slots_over m p n : forall j q f t, heap_size m < p + sizeof_index ->
  0 <= j -> j + Z.of_nat (S n) = 64 -> dump_slots (S n) j p q f t m = Oob.
Proof.
  induction n as [|n IH]; intros j q f t Hp Hj Hn.
  - cbn [dump_slots]. replace (load m (p + block_sizes j)) with (@Oob Z).
    + by destruct (load_cases m p) as [->| ->].
    + unfold load, inside. rewrite (proj2 (Z.leb_gt (_ + 8) (heap_size m))), andb_false_r; [done|].
      unfold block_sizes, sizeof_index in *. lia.
  - remember (S n) as k. cbn [dump_slots]. destruct (load_cases m p) as [->| ->]; [done|].
    destruct (load_cases m (p + block_sizes j)) as [->| ->]; [done|]. apply IH; lia.
Qed.

Section Dump.
Context (m : rrr_mmap) (p : Z) (ss : list slot).
Context (Hp : 0 <= p) (Hend : p + sizeof_index + total ss <= heap_size m).
Context (Hheap : heap_size m < 2 ^ 63).
Context (Hlen : length ss = 64%nat) (Hok : Forall size_ok ss).
Context (Hh : header_at m p ss) (Hsen : sentinels_at m (p + sizeof_index) ss).

Lemma dump_slots_taken a n : forall k r f t, ss = k ++ a ++ r -> no_virgin a -> exists f' t',
  dump_slots (length a + n) (Z.of_nat (length k)) p (p + sizeof_index + total k) f t m =
  dump_slots n (Z.of_nat (length k + length a)) p (p + sizeof_index + total (k ++ a)) f' t' m.
Proof using Hp Hend Hlen Hok Hh Hsen Hheap.
  induction a as [|s a IH]; intros k r f t E Ha.
  { exists f, t. by rewrite app_nil_r, Nat.add_0_r. }
  apply Forall_cons in Ha as [Hs Ha].
  destruct (slot_facts m p ss Hp Hend Hlen Hok Hh Hsen k s (a ++ r) E)
    as (L1 & L2 & Hbit & Hj & Hk0 & Hs0 & Hr0 & He & _).
  cbn [length Nat.add dump_slots]. rewrite L1, L2. cbn [mbind outcome_bind].
  rewrite free_test, Hbit by done. replace ((ssize s =? 0) && negb (sused s)) with false.
  2: { symmetry. destruct s as [n0 [|]]; [apply andb_false_r|]. cbn. rewrite andb_true_r.
       apply Z.eqb_neq. intros ->. by apply Hs. }
  rewrite wrap_small by (unfold sizeof_index in *; lia).
  edestruct (IH (k ++ [s]) r) as (f' & t' & Hd); [by rewrite E, <- app_assoc|done|].
  exists f', t'. rewrite <- app_assoc, length_app, total_app in Hd. cbn [app length total fold_right] in Hd.
  rewrite Z.add_0_r, Z.add_assoc, Nat2Z.inj_add in Hd. change (Z.of_nat 1) with 1 in Hd.
  rewrite Hd. by replace (length k + 1 + length a)%nat with (length k + S (length a))%nat by lia.
Qed.

Lemma dump_slots_virgins n : forall k q f t, ss = k ++ replicate n virgin ->
  (0 < n)%nat \/ q = heap_size m -> exists t',
  dump_slots n (Z.of_nat (length k)) p q f t m = Ret (heap_size m, t').
Proof using Hp Hend Hlen Hok Hh Hsen Hheap.
  induction n as [|n IH]; intros k q f t E Hn.
  { destruct Hn as [| ->]; [lia|]. by exists t. }
  destruct (slot_facts m p ss Hp Hend Hlen Hok Hh Hsen k virgin (replicate n virgin) E)
    as (L1 & L2 & Hbit & Hj & _). cbn [dump_slots]. rewrite L1, L2. cbn [mbind outcome_bind].
  rewrite free_test, Hbit by done. cbn [ssize sused virgin negb andb Z.eqb].
  pose proof (total_nonneg _ Hok).
  rewrite Z.add_0_r, (wrap_small 64 (heap_size m)) by (unfold sizeof_index in *; lia).
  replace (Z.of_nat (length k) + 1) with (Z.of_nat (length (k ++ [virgin]))) by (rewrite length_app; simpl; lia).
  apply IH; [|by right]. by rewrite <- app_assoc.
Qed.
End Dump.

Lemma dump_indexes_correct full pre m rest : layout m full pre ->
  forall d fuel t, full ++ [last_index pre] = d ++ rest -> rest <> [] ->
  heap_size m - span d < Z.of_nat fuel ->
  if decide (span full < heap_size m < span full + sizeof_index) then
    dump_indexes fuel (span d) t m = Oob
  else exists t', dump_indexes fuel (span d) t m = Ret t'.
Proof.
  intros HL. pose proof (l_size _ _ _ HL) as Hsz.
  induction rest as [|ix rr IH]; intros d fuel t E Hne Hf; [done|].
  destruct (layout_index _ _ _ _ _ _ HL E) as (Hd & Hlen & Hok & Hh & Hsen & Hfit & Hcase).
  pose proof (total_nonneg _ Hok) as Htot.
  destruct Hcase as [(-> & -> & ->)|(r' & -> & Ef & Hroom)].
  - destruct fuel as [|fuel]; cbn [dump_indexes].
    { rewrite decide_False by lia. rewrite (proj2 (Z.ltb_ge _ _)) by lia. by eexists. }
    destruct (Z.ltb_spec (span full) (heap_size m)) as [Hlt|];
      [|rewrite decide_False by lia; by eexists].
    destruct (decide _) as [Hno|Hroom]; [by rewrite dump_slots_over by lia|].
    specialize (Hfit ltac:(lia)). rewrite wrap_small by (unfold sizeof_index in *; lia).
    pose proof (l_room _ _ _ HL) as Hr.
    destruct (dump_slots_taken m (span full) _ ltac:(lia) Hfit Hsz Hlen Hok Hh Hsen pre
      (64 - length pre) [] _ 0 t eq_refl (l_pre _ _ _ HL)) as (f' & t' & H1).
    replace (length pre + (64 - length pre))%nat with 64%nat in H1 by lia.
    cbn [total fold_right length] in H1. rewrite Z.add_0_r in H1. change (Z.of_nat 0) with 0 in H1.
    rewrite H1. cbn [app Nat.add].
    destruct (dump_slots_virgins m (span full) _ ltac:(lia) Hfit Hsz Hlen Hok Hh Hsen
      (64 - length pre) pre (span full + sizeof_index + total pre) f' t' eq_refl) as (t2 & ->); [left; lia|].
    cbn [mbind outcome_bind]. exists t2. destruct fuel; cbn [dump_indexes]; by rewrite Z.ltb_irrefl.
  - destruct fuel as [|fuel]; [unfold sizeof_index in *; lia|]. cbn [dump_indexes].
    rewrite (proj2 (Z.ltb_lt _ _)) by (unfold sizeof_index in *; lia).
    specialize (Hfit Hroom). rewrite wrap_small by (unfold sizeof_index in *; lia).
    assert (no_virgin ix) as Hnv.
    { pose proof (l_full _ _ _ HL) as Hall. rewrite Ef in Hall. apply Forall_app in Hall as [_ Hall].
      by apply Forall_cons in Hall as [Hall _]. }
    destruct (dump_slots_taken m (span d) ix ltac:(lia) Hfit Hsz Hlen Hok Hh Hsen ix 0 [] [] 0 t
      ltac:(by rewrite app_nil_r) Hnv) as (f' & t' & H1).
    rewrite Nat.add_0_r, Hlen in H1. cbn [total fold_right length] in H1. rewrite Z.add_0_r in H1.
    change (Z.of_nat 0) with 0 in H1. rewrite H1. cbn [dump_slots mbind outcome_bind app].
    specialize (IH (d ++ [ix]) fuel t'). rewrite heap_span_app in IH. cbn [span fold_right] in IH.
    rewrite Z.add_0_r, Z.add_assoc, <- app_assoc in IH. apply IH; [done|by destruct r'|].
    unfold sizeof_index in *. lia.
Qed.

(** The dump reads past the end of the heaps that are cut off, and of no others. *)
Lemma rrr_mmap_dump_indexes_correct m L : heap_ok m L ->
  (cut_off m /\ rrr_mmap_dump_indexes m = Oob) \/
  (~ cut_off m /\ exists t, rrr_mmap_dump_indexes m = Ret t).
Proof.
  assert (forall full pre, layout m full pre -> heap_size m - span [] < Z.of_nat (walk_fuel m)) as Hfuel.
  { intros full pre HL. unfold walk_fuel. destruct (layout_index _ _ _ full _ [] HL eq_refl). simpl. lia. }
  assert (cut_off m -> rrr_mmap_dump_indexes m = Oob) as Hcut.
  { intros (full & HL & Hc). pose proof (dump_indexes_correct _ _ _ (full ++ [last_index []]) HL [] (walk_fuel m) 0
      eq_refl ltac:(by destruct full) (Hfuel _ _ HL)) as H. by rewrite decide_True in H by done. }
  intros (full & pre & HL & _). pose proof (dump_indexes_correct _ _ _ (full ++ [last_index pre]) HL []
    (walk_fuel m) 0 eq_refl ltac:(by destruct full) (Hfuel _ _ HL)) as H. destruct (decide _) as [Hc|Hc].
  - left. split; [|exact H]. exists full. split; [|done].
    destruct (decide (pre = [])) as [->|Hp]; [done|]. pose proof (l_fits _ _ _ HL Hp).
    destruct (layout_index _ _ _ full _ [] HL eq_refl) as (_ & _ & Hok & _).
    pose proof (total_nonneg _ Hok) as Ht. rewrite total_last in Ht. lia.
  - right. split; [|exact H]. intros Hcut'. specialize (Hcut Hcut'). destruct H as [t H].
    change (rrr_mmap_dump_indexes m = Ret t) in H. rewrite Hcut in H. discriminate.
Qed.

(** * Use of a block *)

Definition user_write (m : rrr_mmap) (off v : Z) : rrr_mmap :=
  with_heap m (<[off := v]> (heap m)).

(** [off] is a word of the block [b], not that of its sentinel. *)
Definition in_data (b : Z * Z) (off : Z) : Prop := b.1 <= off /\ off + 8 <= b.1 + b.2 - sizeof_sentinel.

Lemma sentinels_write m v off b ss : Forall size_ok ss -> in_data b off ->
  forall q, b ∈ live_slots q ss -> sentinels_at m q ss -> sentinels_at (user_write m off v) q ss.
Proof.
  intros Hs [Hb1 Hb2]. unfold user_write, sizeof_sentinel in *.
  induction Hs as [|s ss [H0 H1] Hs IH]; intros q Hb; simpl; [done|].
  unfold RRR_MMAP_HEAP_CHUNK_MIN_SIZE in H1. intros [Hsen Hr]. simpl in Hb.
  apply elem_of_app in Hb as [Hb|Hb].
  - destruct (sused s && negb (ssize s =? 0)); [|set_solver].
    apply list_elem_of_singleton in Hb as ->. simpl in *. split.
    + intros Hne. rewrite word_store, (proj2 (Z.eqb_neq _ _)); [by apply Hsen|].
      unfold sizeof_sentinel. lia.
    + eapply sentinels_ext; [done| |done]. intros o Ho.
      by rewrite word_store, (proj2 (Z.eqb_neq _ _)) by lia.
  - split; [|by apply IH]. intros Hne. apply live_slots_bounds in Hb as Hbb; [|done].
    rewrite word_store, (proj2 (Z.eqb_neq _ _)); [by apply Hsen|]. unfold sizeof_sentinel.
    specialize (H1 Hne). lia.
Qed.

Lemma chain_write m v off b ixs : in_data b off ->
  forall p, b ∈ live p ixs -> chain m p ixs -> chain (user_write m off v) p ixs.
Proof.
  intros Hb. induction ixs as [|ix r IH]; intros p Hin; simpl; [done|].
  intros [(Hl & Hs & Hh & Hsen) Hr]. pose proof Hb as [Hb1 Hb2]. unfold sizeof_sentinel in Hb2.
  assert (forall o, o <> off -> word (user_write m off v) o = word m o) as Hw.
  { intros o Ho. unfold user_write. by rewrite word_store, (proj2 (Z.eqb_neq _ _)). }
  simpl in Hin. apply elem_of_app in Hin as [Hin|Hin].
  - apply live_slots_bounds in Hin as Hbb; [|done]. split; [split_and!; try done|].
    + eapply header_ext; [lia| |done]. intros o Ho. apply Hw. lia.
    + by eapply sentinels_write.
    + eapply heap_chain_ext; [|done]. intros o Ho. apply Hw. lia.
  - pose proof (live_bounds _ _ _ _ Hr Hin) as Hbb. unfold sizeof_index in *.
    pose proof (total_nonneg _ Hs). split; [split_and!; try done|by apply IH].
    + eapply header_ext; [lia| |done]. unfold sizeof_index. intros o Ho. apply Hw. lia.
    + eapply sentinels_ext; [done| |done]. unfold sizeof_index. intros o Ho. apply Hw. lia.
Qed.

(** Writing the data of a block in use keeps the heap well formed. *)
Lemma heap_ok_write m L b off v : heap_ok m L -> b ∈ L -> in_data b off ->
  heap_ok (user_write m off v) L.
Proof.
  intros (full & pre & HL & HP) Hb Hin. exists full, pre. split; [|done]. rewrite HP in Hb.
  pose proof (l_chain _ _ _ HL) as Hc. pose proof (live_bounds _ _ _ _ Hc Hb) as Hbb.
  rewrite heap_span_app in Hbb. simpl in Hbb. rewrite total_last in Hbb.
  split; try (apply HL).
  - by eapply chain_write.
  - intros o Ho. unfold user_write. destruct Hin. unfold sizeof_sentinel in *.
    rewrite word_store, (proj2 (Z.eqb_neq _ _)) by lia. by apply (l_zero _ _ _ HL).
Qed.

(** * The operations *)

Lemma padding_computed req : 0 < req -> req + 24 < 2 ^ 63 ->
  u64 (u64 (u64 (req + sizeof_sentinel) - u64 (req + sizeof_sentinel) mod
    RRR_MMAP_HEAP_CHUNK_MIN_SIZE) + RRR_MMAP_HEAP_CHUNK_MIN_SIZE) = padded_size req.
Proof.
  unfold padded_size, sizeof_sentinel, RRR_MMAP_HEAP_CHUNK_MIN_SIZE. intros H0 H1.
  pose proof (Z.mod_pos_bound (req + 8) 16 eq_refl). pose proof (Z.mod_le (req + 8) 16).
  rewrite (wrap_small 64 (req + 8)) by lia.
  rewrite (wrap_small 64 (req + 8 - _)) by lia. by rewrite wrap_small by lia.
Qed.

Lemma rrr_mmap_allocate_cases m L req : heap_ok m L -> 0 < req -> req + 24 < 2 ^ 63 ->
  match rrr_mmap_allocate_with_handles m req with
  | Ret (None, m') => heap_ok m' L /\ heap m' = heap m /\ heap_size m' = heap_size m /\
      prev_allocation_failure_req_size m' = req + sizeof_sentinel
  | Ret (Some pos, m') => heap_size m' = heap_size m /\ extends m L (padded_size req) pos m'
  | _ => False
  end.
Proof.
  intros Hm Hr Hb. pose proof (padded_size_bounds req Hr) as (Hp1 & Hp2 & _).
  pose proof Hm as (full & pre & HL & HP).
  assert (forall m', layout m' full pre -> heap_ok m' L) as Hlay by (intros; by exists full, pre).
  unfold rrr_mmap_allocate_with_handles. rewrite (proj2 (Z.eqb_neq req 0)) by lia.
  rewrite padding_computed by done.
  rewrite !(wrap_small 64 (req + sizeof_sentinel)) by (unfold sizeof_sentinel; lia).
  destruct (_ && _); [by split; [apply heap_ok_failure|]|].
  destruct (_ <? _); [by split; [apply heap_ok_failure|]|].
  pose proof (l_prev _ _ _ HL) as (k & _ & ->).
  pose proof (alloc_walk (padded_size req) full pre k m m L ltac:(lia) HL eq_refl eq_refl HP) as H.
  destruct (alloc_indexes _ _ _ m) as [[m1 [[pos|]|]]| |]; cbn [mbind outcome_bind]; try done.
  - destruct H as [Hs (size & H1 & H2 & H3)]. split; [done|].
    exists size. split_and!; [done|by apply heap_ok_count|done].
  - destruct H as (H1 & H2 & H3). split; [by apply heap_ok_failure, Hlay|done].
  - destruct H as (H1 & H2 & H3). destruct (0 <? _); cbn [mbind outcome_bind].
    2: { split; [by apply heap_ok_failure, Hlay|done]. }
    pose proof (alloc_walk (padded_size req) full pre 0 m1 m L ltac:(lia) H1 H2 H3 HP) as H.
    change (span (take 0 full)) with 0 in H.
    destruct (alloc_indexes _ 0 _ m1) as [[m2 [[pos|]|]]| |]; cbn [mbind outcome_bind]; try done.
    + destruct H as [Hs (size & H4 & H5 & H6)]. split; [done|].
      exists size. split_and!; [done|by apply heap_ok_count|done].
    + destruct H as (H4 & H5 & H6). split; [by apply heap_ok_failure, Hlay|done].
    + destruct H as (H4 & H5 & H6). split; [by apply heap_ok_failure, Hlay|done].
Qed.

Lemma heap_ok_fresh size : 0 <= size < 2 ^ 63 -> heap_ok (mk_mmap ∅ 0 size 0 0) [].
Proof.
  intros Hs. exists [], []. split; [|done].
  assert (forall off, word (mk_mmap ∅ 0 size 0 0) off = 0) as Hz by done.
  split; simpl span; simpl heap_size; try lia; try constructor; try done.
  - simpl. lia.
  - apply (chain_fresh _ 0). intros; apply Hz.
  - by exists 0%nat.
Qed.

Lemma heap_size_padded_bounds size : 0 <= size -> size + 4624 < 2 ^ 63 ->
  size + 528 < heap_size_padded size <= size + 4624 /\ heap_size_padded size mod 4096 = 0.
Proof.
  intros H0 H1. unfold heap_size_padded, sizeof_index, sizeof_sentinel.
  rewrite (wrap_small 64 (size + 520)) by lia. rewrite (wrap_small 64 (size + 520 + 8)) by lia.
  pose proof (Z.mod_pos_bound (size + 520 + 8) 4096).
  rewrite (wrap_small 64 (4096 - _)) by lia. rewrite wrap_small by lia.
  pose proof (Z.div_mod (size + 520 + 8) 4096). split; [lia|].
  replace (_ + _) with (((size + 520 + 8) / 4096 + 1) * 4096) by lia. apply Z_mod_mult.
Qed.

Lemma heap_ok_init size : 0 <= size -> size + 4624 < 2 ^ 63 ->
  heap_ok (rrr_mmap_init true size).2 [].
Proof.
  intros H0 H1. destruct (heap_size_padded_bounds size H0 H1). apply heap_ok_fresh. lia.
Qed.

(** * A heap in use *)

(** A heap and the requests its user holds: the position of each block and the
    size that was asked for. *)
Definition client : Type := rrr_mmap * list (Z * Z).

Inductive step : client -> client -> Prop :=
| step_allocate m R req pos m' : 0 < req -> req + 24 < 2 ^ 63 ->
    rrr_mmap_allocate_with_handles m req = Ret (Some pos, m') -> step (m, R) (m', (pos, req) :: R)
| step_no_room m R req m' : 0 < req -> req + 24 < 2 ^ 63 ->
    rrr_mmap_allocate_with_handles m req = Ret (None, m') -> step (m, R) (m', R)
| step_free m R pos req R' m' : R ≡ₚ (pos, req) :: R' ->
    rrr_mmap_free m pos = Ret m' -> step (m, R) (m', R')
| step_write m R b off v : b ∈ R -> b.1 <= off -> off + 8 <= b.1 + b.2 ->
    step (m, R) (user_write m off v, R).

(** The block of a request has room for it and for the sentinel. *)
Definition serves (r b : Z * Z) : Prop := r.1 = b.1 /\ r.2 + sizeof_sentinel <= b.2.

Definition client_ok (s : client) : Prop :=
  exists L, heap_ok s.1 L /\ Forall2 serves s.2 L.

Lemma serves_perm R R' L : R ≡ₚ R' -> Forall2 serves R L ->
  exists L', L ≡ₚ L' /\ Forall2 serves R' L'.
Proof.
  intros HR. revert L. induction HR as [|x R R' _ IH|x y R|R R' R'' _ IH1 _ IH2]; intros L H.
  - inversion H. by exists [].
  - inversion H as [|? b ? L1 Hb H1]; subst. destruct (IH _ H1) as (L' & HP & H').
    exists (b :: L'). split; [by rewrite HP|by constructor].
  - inversion H as [|? b1 ? L1 Hb1 H1]; subst. inversion H1 as [|? b2 ? L2 Hb2 H2]; subst.
    exists (b2 :: b1 :: L2). split; [apply perm_swap|]. constructor; [done|]. by constructor.
  - destruct (IH1 _ H) as (L1 & HP1 & H1). destruct (IH2 _ H1) as (L2 & HP2 & H2).
    exists L2. split; [by rewrite HP1|done].
Qed.

Lemma heap_ok_perm m L L' : L ≡ₚ L' -> heap_ok m L -> heap_ok m L'.
Proof. intros HP (full & pre & HL & H). exists full, pre. by rewrite <- HP. Qed.

(** Two blocks in use are not at the same place. *)
Lemma heap_ok_same m L pos a b : heap_ok m L -> (pos, a) ∈ L -> (pos, b) ∈ L -> a = b.
Proof.
  intros Hm Ha Hb. destruct (heap_ok_blocks m L Hm) as [Hd Hall].
  rewrite Forall_forall in Hall. pose proof (Hall _ Ha) as (_ & _ & Ha16).
  pose proof (Hall _ Hb) as (_ & _ & Hb16). simpl in *.
  destruct (decide (a = b)) as [|Hne]; [done|]. exfalso.
  apply elem_of_Permutation in Ha as [L1 H1]. rewrite H1 in Hb.
  apply elem_of_cons in Hb as [[=]|Hb]; [done|]. apply elem_of_Permutation in Hb as [L2 H2].
  specialize (Hd (pos, a) (pos, b) L2). rewrite H1, H2 in Hd. unfold before in Hd. simpl in Hd.
  destruct (Hd (reflexivity _)); lia.
Qed.

Lemma client_ok_step s s' : client_ok s -> step s s' -> client_ok s'.
Proof.
  intros (L & Hm & HF) Hs. destruct Hs as [m R req pos m' H0 H1 E|m R req m' H0 H1 E
    |m R pos req R' m' HP E|m R b off v Hin H1 H2]; simpl in *.
  - pose proof (rrr_mmap_allocate_cases m L req Hm H0 H1) as H. rewrite E in H.
    destruct H as [_ (size & Hsz & Hok & _)]. pose proof (padded_size_bounds req H0).
    exists ((pos, size) :: L). split; [done|]. constructor; [|done]. split; simpl; [done|lia].
  - pose proof (rrr_mmap_allocate_cases m L req Hm H0 H1) as H. rewrite E in H.
    exists L. by destruct H as [? _].
  - pose proof (rrr_mmap_free_cases m L pos Hm) as H. rewrite E in H.
    destruct H as (n & L' & HL & Hok & _).
    destruct (serves_perm _ _ _ HP HF) as (L1 & HL1 & HF1).
    inversion HF1 as [|? [q n'] ? L2 [Hq _] HF2]; subst. simpl in Hq. subst q.
    assert (n' = n) as ->.
    { apply (heap_ok_same m L pos); [done| |]; [rewrite HL1|rewrite HL]; set_solver. }
    exists L2. split; [|done]. apply (heap_ok_perm _ L'); [|done].
    rewrite HL in HL1. by apply Permutation_cons_inv in HL1.
  - apply elem_of_Permutation in Hin as [R' HR]. destruct (serves_perm _ _ _ HR HF) as (L' & HL & H').
    inversion H' as [|? c ? L2 [Hq Hn] HF2]; subst. exists L. split; [|done].
    apply (heap_ok_write m L c); [done|rewrite HL; set_solver|].
    unfold in_data, sizeof_sentinel in *. lia.
Qed.

(** The states of a heap of the given size and its user. *)
Definition reachable (size : Z) (s : client) : Prop := rtc step ((rrr_mmap_init true size).2, []) s.

Lemma reachable_ok size s : 0 <= size -> size + 4624 < 2 ^ 63 -> reachable size s -> client_ok s.
Proof.
  intros H0 H1. unfold reachable. generalize (heap_ok_init size H0 H1).
  set (s0 := (_, _)). intros Hi Hr.
  assert (client_ok s0) as Hok by (exists []; split; [done|constructor]). clear Hi. clearbody s0.
  induction Hr; [done|]. by eapply IHHr, client_ok_step.
Qed.

(** C30. Allocation from a well formed heap with the blocks [L] in use always returns,
    without reading or writing outside the heap and without finding it corrupt.  It
    either leaves the heap as it was, remembering the size it could not serve, or
    returns a new block, larger than the request and its sentinel, next to those of
    [L], of which no word changes. *)
Theorem rrr_mmap_allocate_with_handles_correct m L req :
  heap_ok m L -> 0 < req -> req + 24 < 2 ^ 63 ->
  (exists m', rrr_mmap_allocate_with_handles m req = Ret (None, m') /\ heap_ok m' L /\
     heap m' = heap m /\ prev_allocation_failure_req_size m' = req + sizeof_sentinel) \/
  (exists pos size m', rrr_mmap_allocate_with_handles m req = Ret (Some pos, m') /\
     req + sizeof_sentinel < size /\ heap_ok m' ((pos, size) :: L) /\
     disjoint_blocks ((pos, size) :: L) /\ pos + size <= heap_size m /\
     forall b off, b ∈ L -> b.1 <= off < b.1 + b.2 -> word m' off = word m off).
Proof.
  intros Hm H0 H1. pose proof (rrr_mmap_allocate_cases m L req Hm H0 H1) as H.
  destruct (rrr_mmap_allocate_with_handles m req) as [[[pos|] m']| |]; try done.
  - right. destruct H as [Hs (size & Hsz & Hok & Hk)]. exists pos, size, m'.
    pose proof (padded_size_bounds req H0). destruct (heap_ok_blocks _ _ Hok) as [Hd Hall].
    apply Forall_cons in Hall as [(_ & Hin & _) _]. simpl in Hin. rewrite Hs in Hin.
    split_and!; try done. lia.
  - left. exists m'. naive_solver.
Qed.

Lemma rrr_mmap_allocate_with_handles_correct_witness :
  exists pos size m', rrr_mmap_allocate_with_handles (rrr_mmap_init true 1000).2 100
    = Ret (Some pos, m') /\ 108 < size /\ heap_ok m' [(pos, size)].
Proof.
  destruct (rrr_mmap_allocate_with_handles_correct (rrr_mmap_init true 1000).2 [] 100
    ltac:(by apply heap_ok_init) ltac:(lia) ltac:(lia)) as [(m' & E & _)|H].
  - exfalso. revert E. vm_compute. discriminate.
  - destruct H as (pos & size & m' & H1 & H2 & H3 & _). by exists pos, size, m'.
Defined.

(** C31. Freeing a block in use removes this block and no other, changes no word of
    the others, and lets sizes that failed before be tried again; freeing anything
    else, a block twice for instance, ends the program. *)
Theorem rrr_mmap_free_correct m L handle : heap_ok m L ->
  (forall n, (handle, n) ∈ L -> exists m' L', rrr_mmap_free m handle = Ret m' /\
     L ≡ₚ (handle, n) :: L' /\ heap_ok m' L' /\ prev_allocation_failure_req_size m' = 0 /\
     forall b off, b ∈ L' -> b.1 <= off < b.1 + b.2 -> word m' off = word m off) /\
  ((forall n, (handle, n) ∉ L) -> rrr_mmap_free m handle = Bug).
Proof.
  intros Hm. pose proof (rrr_mmap_free_cases m L handle Hm) as H.
  destruct (rrr_mmap_free m handle) as [m'| |] eqn:E; [| |done].
  - destruct H as (n & L' & HP & Hok & Hk & _). split.
    + intros n' Hn'. assert (n' = n) as ->.
      { apply (heap_ok_same m L handle); [done..|]. rewrite HP. set_solver. }
      exists m', L'. split_and!; try done. revert E. unfold rrr_mmap_free.
      destruct (free_indexes _ _ _ _); cbn [mbind outcome_bind]; [by intros [= <-]|done..].
    + intros Hn. exfalso. apply (Hn n). rewrite HP. set_solver.
  - split; [|done]. intros n Hn. by destruct (H n).
Qed.

Lemma rrr_mmap_free_correct_witness :
  exists m, rrr_mmap_allocate_with_handles (rrr_mmap_init true 1000).2 100 = Ret (Some 520, m) /\
    exists m', rrr_mmap_free m 520 = Ret m' /\ heap_ok m' [] /\ rrr_mmap_free m 521 = Bug.
Proof.
  assert (exists m, rrr_mmap_allocate_with_handles (rrr_mmap_init true 1000).2 100 =
    Ret (Some 520, m)) as [m E] by (eexists; vm_compute; reflexivity).
  pose proof (rrr_mmap_allocate_cases _ [] 100 ltac:(by apply (heap_ok_init 1000)) ltac:(lia)
    ltac:(lia)) as H. rewrite E in H. destruct H as [_ (size & _ & Hok & _)].
  exists m. split; [done|].
  destruct (rrr_mmap_free_correct m _ 520 Hok) as [Hf _].
  destruct (rrr_mmap_free_correct m _ 521 Hok) as [_ Hb].
  destruct (Hf size ltac:(set_solver)) as (m' & L' & E' & HP & Hok' & _). exists m'.
  apply Permutation_cons_inv, Permutation_nil in HP as ->.
  split_and!; [done..|]. apply Hb. intros n Hn. apply list_elem_of_singleton in Hn. by inversion Hn.
Defined.

(** The test for an empty heap is true exactly if no block is in use. *)
Lemma rrr_mmap_is_empty_spec m L : heap_ok m L ->
  rrr_mmap_is_empty m = Ret (if decide (L = []) then 1 else 0, allocation_count m).
Proof.
  intros (full & pre & HL & HP). unfold rrr_mmap_is_empty.
  pose proof (empty_indexes_correct full pre m (full ++ [last_index pre]) HL [] (walk_fuel m)
    eq_refl eq_refl) as H. simpl span in H.
  rewrite H by (unfold walk_fuel; destruct (layout_index _ _ _ full _ [] HL eq_refl); lia).
  cbn [mbind outcome_bind]. do 2 f_equal.
  destruct (decide (L = [])) as [->|Hne].
  - apply Permutation_nil in HP. by rewrite decide_True.
  - rewrite decide_False; [done|]. intros Hn. rewrite Hn in HP. apply Hne.
    by apply Permutation_nil_r in HP.
Qed.

(** C29. Whatever sequence of allocations, frees and writes a user makes who writes only
    inside its blocks and frees only what it holds: the blocks it holds lie inside the
    heap and never overlap, not even with the sentinel of one another, every request
    gets an answer, and every block held can be freed. *)
Theorem rrr_mmap_reachable_safe size m R :
  0 <= size -> size + 4624 < 2 ^ 63 -> reachable size (m, R) ->
  (forall a b R', R ≡ₚ a :: b :: R' ->
     a.1 + a.2 + sizeof_sentinel <= b.1 \/ b.1 + b.2 + sizeof_sentinel <= a.1) /\
  (forall r, r ∈ R -> 0 <= r.1 /\ r.1 + r.2 + sizeof_sentinel <= heap_size m) /\
  (forall req, 0 < req -> req + 24 < 2 ^ 63 ->
     exists r m', rrr_mmap_allocate_with_handles m req = Ret (r, m')) /\
  (forall handle, (exists m', rrr_mmap_free m handle = Ret m') <-> handle ∈ R.*1).
Proof.
  intros H0 H1 Hr. destruct (reachable_ok _ _ H0 H1 Hr) as (L & Hok & HF). simpl in *.
  destruct (heap_ok_blocks m L Hok) as [Hd Hall]. split_and!.
  - intros a b R' HR. destruct (serves_perm _ _ _ HR HF) as (L' & HL & HF').
    inversion HF' as [|? a' ? L1 [Ha1 Ha2] HF1]; subst.
    inversion HF1 as [|? b' ? L2 [Hb1 Hb2] _]; subst.
    specialize (Hd a' b' L2 HL). unfold before in Hd. lia.
  - intros r Hin. apply list_elem_of_lookup_1 in Hin as [i Hi].
    destruct (Forall2_lookup_l _ _ _ _ _ HF Hi) as (b & Hb & Hb1 & Hb2).
    rewrite Forall_lookup in Hall. destruct (Hall _ _ Hb) as (? & ? & _). lia.
  - intros req Hq Hq'. pose proof (rrr_mmap_allocate_cases m L req Hok Hq Hq') as H.
    destruct (rrr_mmap_allocate_with_handles m req) as [[r m']| |]; [by exists r, m'|done..].
  - intros handle. assert (R.*1 = L.*1) as ->.
    { clear -HF. induction HF as [|r b R L [? ?] _ IH]; csimpl; [done|]. by f_equal. }
    pose proof (rrr_mmap_free_cases m L handle Hok) as H.
    destruct (rrr_mmap_free m handle) as [m'| |]; [| |done].
    + split; [intros _|by eexists]. destruct H as (n & L' & HP & _).
      apply list_elem_of_fmap. exists (handle, n). split; [done|]. rewrite HP. set_solver.
    + split; [by intros [? ?]|]. intros Hin. apply list_elem_of_fmap in Hin as ([q n] & -> & Hin).
      by destruct (H n).
Qed.

Lemma rrr_mmap_reachable_safe_witness : exists m,
  rrr_mmap_allocate_with_handles (rrr_mmap_init true 1000).2 100 = Ret (Some 520, m) /\
  exists m', rrr_mmap_free m 520 = Ret m'.
Proof.
  assert (exists m, rrr_mmap_allocate_with_handles (rrr_mmap_init true 1000).2 100 =
    Ret (Some 520, m)) as [m E] by (eexists; vm_compute; reflexivity).
  exists m. split; [done|].
  destruct (rrr_mmap_reachable_safe 1000 m [(520, 100)]) as (_ & _ & _ & Hf); [lia..| |].
  - apply rtc_once. eapply step_allocate; [lia..|exact E].
  - apply Hf. set_solver.
Defined.

Lemma alloc_slots_virgin n j index block_pos mj mp c u padded m : 0 <= j < 64 ->
  load m (index + block_sizes j) = Ret 0 -> load m index = Ret 0 ->
  alloc_slots (S n) j index block_pos mj mp c u padded m =
    if heap_size m <? u64 (block_pos + padded) then Ret NoRoom
    else
      m ← store m (index + block_sizes j) padded;
      m ← store m index (0 ||| u64 (1 <<< j));
      m ← store m (block_pos + padded - sizeof_sentinel) rrr_mmap_sentinel_template;
      Ret (Found block_pos m).
Proof.
  intros Hj L1 L2. cbn [alloc_slots]. rewrite L1, L2. cbn [mbind outcome_bind].
  by rewrite used_test, Z.bits_0 by done.
Qed.

(** A heap never used serves a request if it has room for one index and the block. *)
Lemma allocate_fresh size req : 0 < req -> req + 24 < 2 ^ 63 -> size < 2 ^ 63 ->
  req + sizeof_sentinel <= size - sizeof_index ->
  (exists pos m', rrr_mmap_allocate_with_handles (mk_mmap ∅ 0 size 0 0) req = Ret (Some pos, m')) <->
  sizeof_index + padded_size req <= size.
Proof.
  intros H0 H1 Hs Hr. pose proof (padded_size_bounds req H0) as (Hp1 & Hp2 & _).
  unfold rrr_mmap_allocate_with_handles. rewrite (proj2 (Z.eqb_neq req 0)) by lia.
  rewrite padding_computed by done.
  rewrite !(wrap_small 64 (req + sizeof_sentinel)) by (unfold sizeof_sentinel; lia).
  cbn [prev_allocation_failure_req_size heap_size prev_allocation_index_pos truth Z.eqb negb andb].
  unfold sizeof_sentinel, sizeof_index in *. rewrite wrap_small by lia.
  rewrite (proj2 (Z.ltb_ge _ _)) by lia.
  set (m := mk_mmap ∅ 0 size 0 0).
  assert (alloc_indexes (walk_fuel m) 0 (padded_size req) m =
    (r ← alloc_slots 64 0 0 520 0 0 0 0 (padded_size req) m;
     match r with
     | Found pos m => Ret (m, Some (Some pos))
     | NoRoom => Ret (m, Some None)
     | NextIndex block_pos => alloc_indexes (Z.to_nat size) block_pos (padded_size req) m
     end)) as ->.
  { unfold walk_fuel. cbn [alloc_indexes]. change (set_index_pos m 0) with m.
    change (heap_size m) with size. unfold sizeof_index.
    rewrite (proj2 (Z.ltb_lt 0 size)) by lia.
    rewrite wrap_small, (proj2 (Z.ltb_ge size _)) by lia. done. }
  rewrite (alloc_slots_virgin 63) by (lia || (rewrite load_inside; [done|..];
    unfold block_sizes; simpl heap_size; lia)).
  subst m. cbn [heap_size]. rewrite (wrap_small 64 (520 + _)) by lia.
  destruct (Z.ltb_spec size (520 + padded_size req)).
  - cbn. split; [by intros (? & ? & [=])|lia].
  - rewrite store_inside by (unfold block_sizes; simpl heap_size; lia). cbn [mbind outcome_bind].
    rewrite store_inside by (simpl heap_size; lia). cbn [mbind outcome_bind].
    unfold sizeof_sentinel. rewrite store_inside by (simpl heap_size; lia).
    cbn [mbind outcome_bind]. split; [done|]. intros _. by eexists _, _.
Qed.

(** C32. The heap made for a request has room for this request exactly if the request
    with one index and one sentinel does not end in the last 8 bytes of a page: the
    size of the heap is computed without the padding of the block to 16 bytes. *)
Theorem rrr_mmap_init_fits_request bytes : 0 < bytes -> bytes + 4624 < 2 ^ 62 ->
  (exists pos m', rrr_mmap_allocate_with_handles (rrr_mmap_init true bytes).2 bytes =
     Ret (Some pos, m')) <-> (bytes + sizeof_index + sizeof_sentinel) mod 4096 < 4088.
Proof.
  intros H0 H1. destruct (heap_size_padded_bounds bytes) as [Hb _]; [lia..|].
  simpl. rewrite allocate_fresh; unfold sizeof_sentinel, sizeof_index; try lia.
  unfold heap_size_padded, padded_size, sizeof_index, sizeof_sentinel, RRR_MMAP_HEAP_CHUNK_MIN_SIZE.
  rewrite (wrap_small 64 (bytes + 520)) by lia. rewrite (wrap_small 64 (bytes + 520 + 8)) by lia.
  pose proof (Z.mod_pos_bound (bytes + 520 + 8) 4096).
  rewrite (wrap_small 64 (4096 - _)) by lia. rewrite wrap_small by lia.
  pose proof (Z.div_mod (bytes + 520 + 8) 4096). pose proof (Z.div_mod (bytes + 8) 16).
  pose proof (Z.mod_pos_bound (bytes + 8) 16). lia.
Qed.

Lemma rrr_mmap_init_fits_request_witness :
  ~ (exists pos m', rrr_mmap_allocate_with_handles (rrr_mmap_init true 3567).2 3567 =
     Ret (Some pos, m')) /\
  exists pos m', rrr_mmap_allocate_with_handles (rrr_mmap_init true 3568).2 3568 =
     Ret (Some pos, m').
Proof.
  split.
  - intros H. apply (rrr_mmap_init_fits_request 3567) in H; [|lia..]. revert H. vm_compute. done.
  - apply (rrr_mmap_init_fits_request 3568); [lia..|]. by vm_compute.
Defined.

(** Sizes near the top of the 64-bit range wrap around. *)
Lemma allocate_wraps : exists m,
  rrr_mmap_allocate_with_handles (rrr_mmap_init true 1000).2 (2 ^ 64 - 8) = Ret (Some 520, m) /\
  word m (block_sizes 0) = 16.
Proof. eexists. split; vm_compute; reflexivity. Qed.

End Mmap.
