(* ===== verification/MmapCollection.v ===== *)
(** Collections of heaps, lib/rrr_mmap.c: memory is taken from any of the heaps
    of a collection, heaps are mapped when needed and unmapped when they have been
    empty for a while, and a pointer to free is looked up in a private table of the
    address ranges of the heaps, which is made anew when the collection has another
    version.  The theorems show that no heap is unmapped with blocks in use, that
    blocks of a collection never overlap, and that a stale table is noticed. *)
From S2P Require Import Prelude.
From S2P Require Import Types.
From S2P Require Import Mmap.
From stdpp Require Import gmap list sorting.
Import Mmap.
Open Scope Z_scope.
Open Scope c_scope.

Module MmapCollection.

Definition RRR_MMAP_COLLECTION_MAX : nat := 128.
Definition RRR_MMAP_COLLECTION_MAINTENANCE_CLEANUP_STRIKES : Z := 10.
Definition RRR_MMAP_COLLECTION_ALLOCATION_LIMIT_MAX : Z := 8192.
Definition RRR_MMAP_COLLECTION_ALLOCATION_LIMIT_MIN : Z := 128.
Definition RRR_MMAP_COLLECTION_FLAG_BAD : Z := 1.

(** An element of [mmaps]: [e_heap] is the address of the heap in this process. *)
Record entry := mk_entry {
  e_map : rrr_mmap;
  e_heap : Z;
  maintenance_cleanup_strikes : Z;
  flags : Z
}.

Definition zero_entry : entry := mk_entry (mk_mmap ∅ 0 0 0 0) 0 0 0.

Definition e_size (e : entry) : Z := heap_size (e_map e).
Definition set_map (e : entry) (m : rrr_mmap) : entry :=
  mk_entry m (e_heap e) (maintenance_cleanup_strikes e) (flags e).
Definition set_strikes (e : entry) (n : Z) : entry := mk_entry (e_map e) (e_heap e) n (flags e).

Record rrr_mmap_collection := mk_collection {
  mmap_count : Z;
  version : Z;
  allocation_limit : Z;
  mmaps : list entry
}.

Record heap_index := mk_heap_index { heap_min : Z; heap_max : Z; mmap_idx : nat }.

Record private_data := mk_private { pd_version : Z; minmax : list heap_index }.

Record stats := mk_stats {
  mmap_total_count : Z;
  mmap_total_empty_count : Z;
  mmap_total_bad_count : Z;
  mmap_total_heap_size : Z
}.

Definition zero_stats : stats := mk_stats 0 0 0 0.

(** The counters of a collection, which change when a heap is unmapped or mapped. *)
Record counts := mk_counts { c_count : Z; c_version : Z }.

Definition counts_of (c : rrr_mmap_collection) : counts := mk_counts (mmap_count c) (version c).
Definition with_counts (c : rrr_mmap_collection) (n : counts) (es : list entry)
  : rrr_mmap_collection := mk_collection (c_count n) (c_version n) (allocation_limit c) es.

(** [__rrr_mmap_collection_mmap_cleanup]; the element is zeroed. *)
Definition mmap_cleanup (n : counts) : counts :=
  mk_counts (u64 (c_count n - 1)) (u32 (c_version n + 1)).

Definition mmap_added (n : counts) : counts :=
  mk_counts (u64 (c_count n + 1)) (u32 (c_version n + 1)).

(** * The table of address ranges *)

Fixpoint minmax_fill (i : nat) (wpos count : Z) (es : list entry) : list heap_index :=
  match es with
  | [] => []
  | e :: r =>
    let '(w, wpos) := if truth (e_size e)
      then ([mk_heap_index (e_heap e) (e_heap e + e_size e) i], wpos + 1) else ([], wpos) in
    w ++ (if wpos =? count then [] else minmax_fill (S i) wpos count r)
  end.

(** Elements past those written keep their contents. *)
Definition minmax_update_if_needed (pd : private_data) (c : rrr_mmap_collection) : private_data :=
  if pd_version pd =? version c then pd
  else
    let w := minmax_fill 0 0 (mmap_count c) (mmaps c) in
    mk_private (version c) (w ++ drop (length w) (minmax pd)).

Definition minmax_search (pd : private_data) (c : rrr_mmap_collection) (ptr : Z)
  : private_data * option nat :=
  let pd := minmax_update_if_needed pd c in
  (pd, x ← list_find (fun h => heap_min h <= ptr /\ ptr < heap_max h)
         (take (Z.to_nat (mmap_count c)) (minmax pd));
       Some (mmap_idx x.2)).

Definition rrr_mmap_collection_private_data_init (c : rrr_mmap_collection) : private_data :=
  mk_private (u32 (version c - 1))
    (replicate RRR_MMAP_COLLECTION_MAX (mk_heap_index 0 0 0)).

Definition collection_init : rrr_mmap_collection :=
  mk_collection 0 0 0 (replicate RRR_MMAP_COLLECTION_MAX zero_entry).

(** * Maintenance *)

(** One element; [None] when it was unmapped, otherwise its allocation count. *)
Definition maintain (limit : Z) (e : entry) (st : stats)
  : outcome (entry * option Z * stats) :=
  let st := mk_stats (u64 (mmap_total_count st + 1)) (mmap_total_empty_count st)
    (mmap_total_bad_count st) (u64 (mmap_total_heap_size st + e_size e)) in
  '(empty, allocation_count) ← rrr_mmap_is_empty (e_map e);
  if truth empty then
    let e := set_strikes e (maintenance_cleanup_strikes e + 1) in
    if RRR_MMAP_COLLECTION_MAINTENANCE_CLEANUP_STRIKES <=? maintenance_cleanup_strikes e
    then Ret (zero_entry, None, st)
    else Ret (e, Some allocation_count,
           mk_stats (mmap_total_count st) (u64 (mmap_total_empty_count st + 1))
             (mmap_total_bad_count st) (mmap_total_heap_size st))
  else if limit <? allocation_count then
    Ret (mk_entry (e_map e) (e_heap e) RRR_MMAP_COLLECTION_MAINTENANCE_CLEANUP_STRIKES
           (flags e ||| RRR_MMAP_COLLECTION_FLAG_BAD), Some allocation_count,
         mk_stats (mmap_total_count st) (mmap_total_empty_count st)
           (u64 (mmap_total_bad_count st + 1)) (mmap_total_heap_size st))
  else Ret (set_strikes e 0, Some allocation_count, st).

Fixpoint maintain_all (limit : Z) (es : list entry) (n : counts) (total entries : Z) (st : stats)
  : outcome (list entry * counts * Z * Z * stats) :=
  match es with
  | [] => Ret ([], n, total, entries, st)
  | e :: r =>
    '(e, n, total, entries, st) ← (
      if e_size e =? 0 then Ret (e, n, total, entries, st)
      else
        '(e, count, st) ← maintain limit e st;
        match count with
        | None => Ret (e, mmap_cleanup n, total, entries, st)
        | Some count => Ret (e, n, u64 (total + count), u32 (entries + 1), st)
        end);
    '(r, n, total, entries, st) ← maintain_all limit r n total entries st;
    Ret (e :: r, n, total, entries, st)
  end.

Definition limit_clamp (limit : Z) : Z :=
  let limit := if limit <? RRR_MMAP_COLLECTION_ALLOCATION_LIMIT_MIN
    then RRR_MMAP_COLLECTION_ALLOCATION_LIMIT_MIN else limit in
  if RRR_MMAP_COLLECTION_ALLOCATION_LIMIT_MAX <? limit
  then RRR_MMAP_COLLECTION_ALLOCATION_LIMIT_MAX else limit.

(** The loop body of [rrr_mmap_collections_maintenance]. *)
Definition collection_maintenance (c : rrr_mmap_collection) (st : stats)
  : outcome (rrr_mmap_collection * stats) :=
  if mmap_count c =? 0 then Ret (c, st)
  else
    '(es, n, total, entries, st) ← maintain_all (allocation_limit c) (mmaps c) (counts_of c) 0 0 st;
    let c := with_counts c n es in
    Ret (if 0 <? entries
         then mk_collection (mmap_count c) (version c) (limit_clamp (total / entries)) es
         else c, st).

Fixpoint maintenance_loop (cs : list rrr_mmap_collection) (st : stats)
  : outcome (list rrr_mmap_collection * stats) :=
  match cs with
  | [] => Ret ([], st)
  | c :: cs =>
    '(c, st) ← collection_maintenance c st;
    '(cs, st) ← maintenance_loop cs st;
    Ret (c :: cs, st)
  end.

Definition rrr_mmap_collections_maintenance (cs : list rrr_mmap_collection)
  : outcome (list rrr_mmap_collection * stats) := maintenance_loop cs zero_stats.

(** * Allocation *)

Fixpoint try_old_mmap (do_allow_bad : bool) (bytes : Z) (es : list entry)
  : outcome (option Z * list entry) :=
  match es with
  | [] => Ret (None, [])
  | e :: r =>
    let next (e : entry) := '(p, r) ← try_old_mmap do_allow_bad bytes r; Ret (p, e :: r) in
    if e_size e =? 0 then next e
    else if do_allow_bad || (flags e &&& RRR_MMAP_COLLECTION_FLAG_BAD =? 0) then
      '(pos, m) ← rrr_mmap_allocate_with_handles (e_map e) bytes;
      match pos with
      | Some pos => Ret (Some (e_heap e + pos), set_map e m :: r)
      | None => next (set_map e m)
      end
    else next e
  end.

Definition allocate_old (do_allow_bad : bool) (bytes : Z) (c : rrr_mmap_collection)
  : outcome (option Z * rrr_mmap_collection) :=
  if 0 <? mmap_count c then
    '(p, es) ← try_old_mmap do_allow_bad bytes (mmaps c); Ret (p, with_counts c (counts_of c) es)
  else Ret (None, c).

(** The address ranges mapped by a collection. *)
Definition place (e : entry) : option (Z * Z) :=
  if e_size e =? 0 then None else Some (e_heap e, e_size e).
Definition regions (es : list entry) : list (Z * Z) := omap place es.

Section Mapping.
(** [rrr_posix_mmap]: an address for a new mapping of a size, given the mappings
    there are, or [None]. *)
Context (posix_mmap : list (Z * Z) -> Z -> option Z).

Fixpoint try_new_mmap (bytes min_mmap_size : Z) (before es : list entry) (n : counts)
  : outcome (option Z * list entry * counts) :=
  match es with
  | [] => Ret (None, before, n)
  | e :: r =>
    '(e, n) ← (
      if 0 <? e_size e then
        '(empty, _) ← rrr_mmap_is_empty (e_map e);
        Ret (if truth empty then (zero_entry, mmap_cleanup n) else (e, n))
      else Ret (e, n));
    if e_size e =? 0 then
      let size := if min_mmap_size <? bytes then bytes else min_mmap_size in
      match posix_mmap (regions (before ++ zero_entry :: r)) (heap_size_padded size) with
      | None => Ret (None, before ++ zero_entry :: r, n)
      | Some heap =>
        let e := mk_entry (rrr_mmap_init true size).2 heap 0 0 in
        '(pos, m) ← rrr_mmap_allocate_with_handles (e_map e) bytes;
        Ret (option_map (Z.add heap) pos, before ++ set_map e m :: r, mmap_added n)
      end
    else try_new_mmap bytes min_mmap_size (before ++ [e]) r n
  end.

Definition allocate_new (bytes min_mmap_size : Z) (c : rrr_mmap_collection)
  : outcome (option Z * rrr_mmap_collection) :=
  '(p, es, n) ← try_new_mmap bytes min_mmap_size [] (mmaps c) (counts_of c);
  Ret (p, with_counts c n es).

(** The three tries of [__rrr_mmap_collection_allocate_with_handles]. *)
Definition try_allocate (c : rrr_mmap_collection) (bytes min_mmap_size : Z)
  : outcome (option Z * rrr_mmap_collection) :=
  '(p, c) ← allocate_old false bytes c;
  match p with
  | Some p => Ret (Some p, c)
  | None =>
    '(p, c) ← allocate_new bytes min_mmap_size c;
    match p with
    | Some p => Ret (Some p, c)
    | None => allocate_old true bytes c
    end
  end.

(** The indexes of all heaps, printed when a request cannot be met. *)
Fixpoint dump_all (es : list entry) : outcome Z :=
  match es with
  | [] => Ret 0
  | e :: es =>
    _ ← (if e_heap e =? 0 then Ret 0 else rrr_mmap_dump_indexes (e_map e));
    dump_all es
  end.

Definition rrr_mmap_collection_allocate (c : rrr_mmap_collection) (bytes min_mmap_size : Z)
  : outcome (option Z * rrr_mmap_collection) :=
  '(p, c) ← try_allocate c bytes min_mmap_size;
  match p with
  | Some p => Ret (Some p, c)
  | None => _ ← dump_all (mmaps c); Ret (None, c)
  end.

End Mapping.

(** * Freeing *)

(** The loop body of [rrr_mmap_collections_free]: the result 1 is an error. *)
Definition collection_free (pd : private_data) (c : rrr_mmap_collection) (ptr : Z)
  : outcome (Z * private_data * rrr_mmap_collection) :=
  if mmap_count c =? 0 then Ret (1, pd, c)
  else
    let '(pd, pos) := minmax_search pd c ptr in
    match pos with
    | None => Ret (1, pd, c)
    | Some pos =>
      match mmaps c !! pos with
      | None => Oob
      | Some e =>
        m ← rrr_mmap_free (e_map e) (u64 (ptr - e_heap e));
        Ret (0, pd, with_counts c (counts_of c) (<[pos := set_map e m]> (mmaps c)))
      end
    end.

Fixpoint rrr_mmap_collections_free (ds : list (private_data * rrr_mmap_collection)) (ptr : Z)
  : outcome (Z * list (private_data * rrr_mmap_collection)) :=
  match ds with
  | [] => Ret (1, [])
  | (pd, c) :: r =>
    '(ret, pd, c) ← collection_free pd c ptr;
    if ret =? 0 then Ret (0, (pd, c) :: r)
    else '(ret, r) ← rrr_mmap_collections_free r ptr; Ret (ret, (pd, c) :: r)
  end.

(** * Ranges that do not overlap *)

Definition apart (a b : Z * Z) : Prop := before a b \/ before b a.

Fixpoint pairwise (L : list (Z * Z)) : Prop :=
  match L with
  | [] => True
  | a :: r => Forall (apart a) r /\ pairwise r
  end.

Lemma apart_sym a b : apart a b -> apart b a.
Proof. unfold apart. tauto. Qed.

#[export] Instance pairwise_perm : Proper ((≡ₚ) ==> iff) pairwise.
Proof.
  assert (forall x y, x ≡ₚ y -> pairwise x -> pairwise y) as H.
  { induction 1 as [|a x y HP IH|a b x|x y z _ IH1 _ IH2]; simpl; auto.
    - intros [Ha Hx]. split; [by rewrite <- HP|auto].
    - intros [Ha [Hb Hx]]. apply Forall_cons in Ha as [Hab Ha].
      split; [constructor; [by apply apart_sym|done]|done]. }
  intros x y HP. split; apply H; [done|by symmetry].
Qed.

Lemma pairwise_app x y :
  pairwise (x ++ y) <-> pairwise x /\ pairwise y /\ Forall (fun a => Forall (apart a) y) x.
Proof.
  induction x as [|a x IH]; simpl; [naive_solver|]. rewrite IH, Forall_app, Forall_cons.
  naive_solver.
Qed.

Lemma pairwise_disjoint L : pairwise L <-> disjoint_blocks L.
Proof.
  split.
  - intros H a b L' HP. rewrite HP in H. destruct H as [H _]. by apply Forall_cons in H as [H _].
  - induction L as [|a L IH]; intros H; simpl; [done|]. split.
    + apply Forall_forall. intros b Hb. apply elem_of_Permutation in Hb as [L' HP].
      apply (H a b L'). by rewrite HP.
    + apply IH. intros b c L' HP. apply (H b c (a :: L')). rewrite HP.
      apply (Permutation_middle [b; c] L' a).
Qed.

(** * Elements *)

Definition entry_ok (e : entry) (L : list (Z * Z)) : Prop :=
  match place e with
  | None => L = []
  | Some (h, n) => heap_ok (e_map e) L /\ 0 < h /\ 0 < n /\ h + n < 2 ^ 64
  end.

(** The blocks in use of a collection, by their addresses. *)
Definition shift (h : Z) (L : list (Z * Z)) : list (Z * Z) := map (fun b => (h + b.1, b.2)) L.

Fixpoint blocks (es : list entry) (Ls : list (list (Z * Z))) : list (Z * Z) :=
  match es, Ls with
  | e :: es, L :: Ls => shift (e_heap e) L ++ blocks es Ls
  | _, _ => []
  end.

Lemma blocks_app es1 es2 Ls1 Ls2 : length es1 = length Ls1 ->
  blocks (es1 ++ es2) (Ls1 ++ Ls2) = blocks es1 Ls1 ++ blocks es2 Ls2.
Proof.
  revert Ls1. induction es1 as [|e es1 IH]; intros [|L Ls1] H; simpl in *; try done.
  by rewrite IH, app_assoc by congruence.
Qed.

Lemma shift_pairwise h L : pairwise L -> pairwise (shift h L).
Proof.
  induction L as [|a L IH]; simpl; [done|]. intros [Ha HL]. split; [|auto].
  unfold shift. apply Forall_map. eapply Forall_impl; [exact Ha|]. unfold apart, before. simpl. lia.
Qed.

(** Every block of an element lies in its address range. *)
Lemma entry_ok_range e L b : entry_ok e L -> b ∈ shift (e_heap e) L ->
  exists n, place e = Some (e_heap e, n) /\ e_heap e <= b.1 /\ b.1 + b.2 <= e_heap e + n /\ 16 <= b.2.
Proof.
  unfold entry_ok, place. destruct (e_size e =? 0) eqn:E; [intros ->; simpl; set_solver|].
  intros (Hok & _) Hb. exists (e_size e). split; [done|]. 
  apply list_elem_of_fmap in Hb as (x & -> & Hx). destruct (heap_ok_blocks _ _ Hok) as [_ H].
  rewrite Forall_forall in H. destruct (H _ Hx) as (? & ? & ?). unfold e_size. simpl. lia.
Qed.

Lemma blocks_range es Ls b : Forall2 entry_ok es Ls -> b ∈ blocks es Ls ->
  exists r, r ∈ regions es /\ r.1 <= b.1 /\ b.1 + b.2 <= r.1 + r.2.
Proof.
  induction 1 as [|e L es Ls He _ IH]; simpl; [set_solver|]. intros Hb.
  apply elem_of_app in Hb as [Hb|Hb].
  - destruct (entry_ok_range e L b He Hb) as (n & E & H1 & H2 & _).
    exists (e_heap e, n). unfold regions. simpl. rewrite E. split; [set_solver|done].
  - destruct (IH Hb) as (r & Hr & H). exists r. split; [|done]. unfold regions in *. simpl.
    destruct (place e); set_solver.
Qed.

Lemma blocks_pairwise es Ls : Forall2 entry_ok es Ls -> pairwise (regions es) ->
  pairwise (blocks es Ls).
Proof.
  induction 1 as [|e L es Ls He Hes IH]; simpl; [done|]. intros Hr.
  assert (pairwise (regions es)) as Hr'.
  { unfold regions in *. simpl in Hr. destruct (place e); [by destruct Hr|done]. }
  apply pairwise_app. split_and!; [|by apply IH|].
  - unfold entry_ok in He. destruct (place e) as [[h n]|]; [|by rewrite He].
    destruct He as [Hok _]. destruct (heap_ok_blocks _ _ Hok) as [Hd _].
    by apply shift_pairwise, pairwise_disjoint.
  - apply Forall_forall. intros a Ha. apply Forall_forall. intros b Hb.
    destruct (entry_ok_range e L a He Ha) as (n & E & H1 & H2 & _).
    destruct (blocks_range es Ls b Hes Hb) as (r & Hin & H3 & H4).
    unfold regions in Hr. simpl in Hr. rewrite E in Hr. destruct Hr as [Hr _].
    rewrite Forall_forall in Hr. specialize (Hr _ Hin). unfold apart, before in *. simpl in *. lia.
Qed.

Record coll_ok (c : rrr_mmap_collection) (Ls : list (list (Z * Z))) : Prop := {
  k_entries : Forall2 entry_ok (mmaps c) Ls;
  k_apart : pairwise (regions (mmaps c));
  k_count : mmap_count c = Z.of_nat (length (regions (mmaps c)));
  k_length : length (mmaps c) = RRR_MMAP_COLLECTION_MAX;
  k_version : 0 <= version c < 2 ^ 32
}.

Lemma coll_ok_blocks c Ls : coll_ok c Ls -> disjoint_blocks (blocks (mmaps c) Ls).
Proof. intros []. by apply pairwise_disjoint, blocks_pairwise. Qed.

Lemma regions_cons e es : regions (e :: es) = option_list (place e) ++ regions es.
Proof. unfold regions. simpl. by destruct (place e). Qed.

Lemma regions_length es : (length (regions es) <= length es)%nat.
Proof.
  induction es as [|e es IH]; [simpl; lia|]. rewrite regions_cons, length_app.
  destruct (place e); simpl; lia.
Qed.

#[local] Arguments regions : simpl never.

(** * Allocation from heaps that are there *)

(** An operation on the heap of an element leaves its address range. *)
Lemma place_set_map e m : heap_size m = e_size e -> place (set_map e m) = place e.
Proof. intros H. unfold place, e_size, set_map in *. simpl. by rewrite H. Qed.

Lemma entry_ok_set_map e m L L' n : place e = Some n -> heap_size m = e_size e ->
  entry_ok e L -> heap_ok m L' -> entry_ok (set_map e m) L'.
Proof.
  unfold entry_ok. intros Hp Hs He Hm. rewrite place_set_map by done. rewrite Hp in *.
  destruct n. naive_solver.
Qed.

Lemma place_used e : e_size e <> 0 -> place e = Some (e_heap e, e_size e).
Proof. unfold place. intros H. by rewrite (proj2 (Z.eqb_neq _ _) H). Qed.

Lemma place_unused e : e_size e = 0 -> place e = None.
Proof. unfold place. intros ->. done. Qed.

(** The blocks gained by an operation that returns the address [p]. *)
Definition gained (bytes : Z) (p : option Z) (B B' : list (Z * Z)) : Prop :=
  match p with
  | None => B' = B
  | Some p => exists size, bytes + sizeof_sentinel < size /\ B' ≡ₚ (p, size) :: B
  end.

Lemma gained_cons bytes p x B B' : gained bytes p B B' -> gained bytes p (x ++ B) (x ++ B').
Proof.
  destruct p as [p|]; simpl; [|by intros ->]. intros (size & H & HP). exists size.
  split; [done|]. rewrite HP. symmetry. apply Permutation_middle.
Qed.

Section Requests.
Context (bytes : Z) (Hb0 : 0 < bytes) (Hb1 : bytes + 24 < 2 ^ 63).

(** One heap asked for memory. *)
Lemma allocate_entry e L : e_size e <> 0 -> entry_ok e L ->
  exists pos m L', rrr_mmap_allocate_with_handles (e_map e) bytes = Ret (pos, m) /\
    heap_size m = e_size e /\ entry_ok (set_map e m) L' /\
    gained bytes (option_map (Z.add (e_heap e)) pos) (shift (e_heap e) L) (shift (e_heap e) L').
Proof using Hb0 Hb1.
  intros Hs He. pose proof (place_used e Hs) as Hp.
  pose proof He as Hok. unfold entry_ok in Hok. rewrite Hp in Hok. destruct Hok as [Hok _].
  pose proof (rrr_mmap_allocate_cases _ _ bytes Hok Hb0 Hb1) as H.
  destruct (rrr_mmap_allocate_with_handles (e_map e) bytes) as [[[pos|] m]| |]; try done.
  - destruct H as [Hsz (size & H1 & H2 & _)]. pose proof (padded_size_bounds bytes Hb0).
    exists (Some pos), m, ((pos, size) :: L). split_and!; try done.
    + by eapply entry_ok_set_map.
    + exists size. split; [lia|]. done.
  - destruct H as (H1 & _ & H2 & _). exists None, m, L. split_and!; try done.
    by eapply entry_ok_set_map.
Qed.

Lemma try_old_mmap_correct bad es Ls : Forall2 entry_ok es Ls ->
  exists p es' Ls', try_old_mmap bad bytes es = Ret (p, es') /\ Forall2 entry_ok es' Ls' /\
    map place es' = map place es /\ gained bytes p (blocks es Ls) (blocks es' Ls').
Proof using Hb0 Hb1.
  induction 1 as [|e L es Ls He Hes (p & es' & Ls' & E & H1 & H2 & H3)]; cbn [try_old_mmap].
  { exists None, [], []. by repeat constructor. }
  assert (forall e' L', entry_ok e' L' -> place e' = place e -> e_heap e' = e_heap e ->
    shift (e_heap e) L' = shift (e_heap e) L ->
    exists p es'0 Ls'0, ('(p, r) ← try_old_mmap bad bytes es; Ret (p, e' :: r)) = Ret (p, es'0) /\
      Forall2 entry_ok es'0 Ls'0 /\ map place es'0 = map place (e :: es) /\
      gained bytes p (blocks (e :: es) (L :: Ls)) (blocks es'0 Ls'0)) as Hnext.
  { intros e' L' He' Hp Hh Hsh. exists p, (e' :: es'), (L' :: Ls'). rewrite E. simpl.
    split_and!; [done|by constructor|by rewrite Hp, H2|]. rewrite Hh, Hsh. by apply gained_cons. }
  destruct (Z.eqb_spec (e_size e) 0) as [Hz|Hz]; [by apply (Hnext e L)|].
  destruct (_ || _); [|by apply (Hnext e L)].
  destruct (allocate_entry e L Hz He) as (pos & m & L' & -> & Hs & Hok & Hg).
  cbn [mbind outcome_bind]. destruct pos as [pos|].
  - exists (Some (e_heap e + pos)), (set_map e m :: es), (L' :: Ls). split_and!; try done.
    + by constructor.
    + simpl. by rewrite place_set_map.
    + destruct Hg as (size & Hsz & HP). exists size. split; [done|]. simpl. by rewrite HP.
  - apply (Hnext (set_map e m) L'); try done. by apply place_set_map.
Qed.

End Requests.

(** Facts that only depend on the address ranges. *)
Lemma regions_map es es' : map place es' = map place es -> regions es' = regions es.
Proof.
  unfold regions. revert es'. induction es as [|e es IH]; intros [|e' es'] H; try done.
  simpl in *. injection H as H1 H2. rewrite H1. destruct (place e); [f_equal|]; auto.
Qed.

Lemma map_place_length es es' : map place es' = map place es -> length es' = length es.
Proof. intros H. by rewrite <- (length_map place), H, length_map. Qed.

Lemma coll_ok_places c Ls es Ls' : coll_ok c Ls -> map place es = map place (mmaps c) ->
  Forall2 entry_ok es Ls' -> coll_ok (with_counts c (counts_of c) es) Ls'.
Proof.
  intros [] Hp Hes. split; simpl; rewrite ?(regions_map _ _ Hp); try done.
  by rewrite (map_place_length _ _ Hp).
Qed.

Lemma allocate_old_correct bad bytes c Ls : 0 < bytes -> bytes + 24 < 2 ^ 63 -> coll_ok c Ls ->
  exists p c' Ls', allocate_old bad bytes c = Ret (p, c') /\ coll_ok c' Ls' /\
    map place (mmaps c') = map place (mmaps c) /\ version c' = version c /\
    gained bytes p (blocks (mmaps c) Ls) (blocks (mmaps c') Ls').
Proof.
  intros H0 H1 Hc. unfold allocate_old. destruct (0 <? mmap_count c); [|by exists None, c, Ls].
  destruct (try_old_mmap_correct bytes H0 H1 bad _ _ (k_entries _ _ Hc))
    as (p & es' & Ls' & -> & H2 & H3 & H4).
  cbn [mbind outcome_bind]. eexists p, _, Ls'. split; [done|]. split_and!; try done.
  by apply (coll_ok_places c Ls).
Qed.

(** * Mapping and unmapping heaps *)

Lemma wrap_add_l w a b : wrap w (wrap w a + b) = wrap w (a + b).
Proof. apply Zplus_mod_idemp_l. Qed.

Lemma regions_middle b e r : regions (b ++ e :: r) ≡ₚ option_list (place e) ++ regions (b ++ r).
Proof.
  induction b as [|x b IH]; [simpl; by rewrite (regions_cons e)|].
  rewrite <- !app_comm_cons, !(regions_cons x), IH, !app_assoc.
  by rewrite (Permutation_app_comm (option_list (place x))).
Qed.

Lemma blocks_middle b e r Bs L Ls : length b = length Bs ->
  blocks (b ++ e :: r) (Bs ++ L :: Ls) ≡ₚ shift (e_heap e) L ++ blocks (b ++ r) (Bs ++ Ls).
Proof.
  intros H. rewrite !blocks_app by done. simpl. rewrite !app_assoc.
  by rewrite (Permutation_app_comm (blocks b Bs)).
Qed.

Definition as_collection (n : counts) (es : list entry) : rrr_mmap_collection :=
  mk_collection (c_count n) (c_version n) 0 es.

(** One element is replaced. *)
Lemma coll_ok_replace n n' b e e' r Bs L L' Ls :
  coll_ok (as_collection n (b ++ e :: r)) (Bs ++ L :: Ls) -> length b = length Bs ->
  entry_ok e' L' ->
  (forall h k, place e' = Some (h, k) -> Forall (apart (h, k)) (regions (b ++ r))) ->
  c_count n' = Z.of_nat (length (regions (b ++ e' :: r))) -> 0 <= c_version n' < 2 ^ 32 ->
  coll_ok (as_collection n' (b ++ e' :: r)) (Bs ++ L' :: Ls).
Proof.
  intros [He Ha Hc Hl Hv] Hlen He' Hap Hc' Hv'. simpl in *.
  apply Forall2_app_inv in He as [Hb Hr]; [|done]. apply Forall2_cons in Hr as [_ Hr].
  split; simpl; try done.
  - apply Forall2_app; [done|]. by constructor.
  - rewrite regions_middle in *. apply pairwise_app in Ha as (_ & Ha & _).
    destruct (place e') as [[h k]|]; simpl; [|done]. split; [|done]. by apply Hap.
  - rewrite length_app in *. done.
Qed.

(** The address ranges of a collection have changed [d] times, at most 2. *)
Definition moved (n n' : counts) (es es' : list entry) : Prop :=
  exists d, 0 <= d <= 2 /\ c_version n' = u32 (c_version n + d) /\
    (d = 0 -> map place es' = map place es).

Lemma regions_count_bound n es Ls : coll_ok (as_collection n es) Ls -> 0 <= c_count n <= 128.
Proof.
  intros [_ _ Hc Hl _]. simpl in *. pose proof (regions_length es).
  rewrite Hl in *. unfold RRR_MMAP_COLLECTION_MAX in *. lia.
Qed.

(** An empty heap is unmapped, or an element without one is zeroed. *)
Lemma coll_ok_cleanup n b e r Bs Ls : 
  coll_ok (as_collection n (b ++ e :: r)) (Bs ++ [] :: Ls) -> length b = length Bs ->
  e_size e <> 0 -> coll_ok (as_collection (mmap_cleanup n) (b ++ zero_entry :: r)) (Bs ++ [] :: Ls).
Proof.
  intros Hc Hlen Hs. pose proof (regions_count_bound _ _ _ Hc).
  apply (coll_ok_replace n _ b e zero_entry r Bs [] [] Ls); try done.
  - pose proof (k_count _ _ Hc) as Hk. simpl in *. rewrite regions_middle in *.
    rewrite (place_used e Hs) in Hk. simpl in *. rewrite wrap_small by lia. lia.
  - by apply wrap_range.
Qed.

Lemma coll_ok_zero n b e r Bs L Ls :
  coll_ok (as_collection n (b ++ e :: r)) (Bs ++ L :: Ls) -> length b = length Bs ->
  e_size e = 0 -> L = [] /\ coll_ok (as_collection n (b ++ zero_entry :: r)) (Bs ++ [] :: Ls).
Proof.
  intros Hc Hlen Hs. split.
  - destruct Hc as [He _ _ _ _]. simpl in He. apply Forall2_app_inv in He as [_ Hr]; [|done].
    apply Forall2_cons in Hr as [Hr _]. unfold entry_ok in Hr. by rewrite (place_unused e Hs) in Hr.
  - apply (coll_ok_replace n _ b e zero_entry r Bs L [] Ls); try done; [|apply Hc].
    pose proof (k_count _ _ Hc) as Hk. simpl in *. rewrite regions_middle in *.
    by rewrite (place_unused e Hs) in Hk.
Qed.

(** A heap of the collection is full, with a rest too small for an index. *)
Definition cut_short (c : rrr_mmap_collection) : Prop := Exists (fun e => cut_off (e_map e)) (mmaps c).

(** What a request is answered, given the result of the tries: that result, but when there is
    none and a heap is cut short, the dump reads past the end of that heap. *)
Definition answered posix_mmap (c : rrr_mmap_collection) (bytes min_mmap_size : Z) (p : option Z)
    (c' : rrr_mmap_collection) : Prop :=
  ((p = None /\ cut_short c') /\ rrr_mmap_collection_allocate posix_mmap c bytes min_mmap_size = Oob) \/
  (~ (p = None /\ cut_short c') /\
   rrr_mmap_collection_allocate posix_mmap c bytes min_mmap_size = Ret (p, c')).

Lemma cut_off_size m : cut_off m -> 0 < heap_size m.
Proof.
  intros (full & HL & Hc). destruct (layout_index _ _ _ full _ [] HL eq_refl) as (H & _). lia.
Qed.

Lemma dump_all_correct es Ls : Forall2 entry_ok es Ls ->
  (Exists (fun e => cut_off (e_map e)) es /\ dump_all es = Oob) \/
  (~ Exists (fun e => cut_off (e_map e)) es /\ exists t, dump_all es = Ret t).
Proof.
  induction 1 as [|e L es Ls He Hes IH]; cbn [dump_all].
  { right. split; [by intros ?%Exists_nil|by exists 0]. }
  rewrite Exists_cons. assert ((cut_off (e_map e) /\
    (if e_heap e =? 0 then Ret 0 else rrr_mmap_dump_indexes (e_map e)) = Oob) \/ (~ cut_off (e_map e) /\
    exists t, (if e_heap e =? 0 then Ret 0 else rrr_mmap_dump_indexes (e_map e)) = Ret t)) as [[Hc ->]|[Hc [t ->]]].
  - unfold entry_ok, place, e_size in He. destruct (Z.eqb_spec (heap_size (e_map e)) 0) as [Hz|Hz].
    + right. split; [intros ?%cut_off_size; lia|]. destruct (e_heap e =? 0); [by eexists|].
      exists 0. unfold rrr_mmap_dump_indexes, walk_fuel. cbn [dump_indexes]. by rewrite Hz.
    + destruct He as (Hok & Hh & _). rewrite (proj2 (Z.eqb_neq _ _)) by lia.
      by apply rrr_mmap_dump_indexes_correct with L.
  - left. split; [by left|done].
  - cbn [mbind outcome_bind]. destruct IH as [[H ->]|[H Ht]]; [left|right]; split; try done; naive_solver.
Qed.

Section MappingProofs.
Context (posix_mmap : list (Z * Z) -> Z -> option Z).
Context (posix_mmap_fresh : forall rs size h, posix_mmap rs size = Some h ->
  0 < h /\ h + size < 2 ^ 64 /\ Forall (apart (h, size)) rs).
Context (bytes : Z) (Hb0 : 0 < bytes) (Hb1 : bytes + 24 < 2 ^ 63).
Context (min_mmap_size : Z) (Hmin : 0 <= min_mmap_size).
Context (Hmax : Z.max bytes min_mmap_size + 4624 < 2 ^ 63).

(** A heap is mapped at an element without one. *)
Lemma map_new_correct n b r Bs Ls :
  coll_ok (as_collection n (b ++ zero_entry :: r)) (Bs ++ [] :: Ls) -> length b = length Bs ->
  let size := if min_mmap_size <? bytes then bytes else min_mmap_size in
  exists p es' n' Ls',
    (match posix_mmap (regions (b ++ zero_entry :: r)) (heap_size_padded size) with
     | None => Ret (None, b ++ zero_entry :: r, n)
     | Some heap =>
       let e := mk_entry (rrr_mmap_init true size).2 heap 0 0 in
       '(pos, m) ← rrr_mmap_allocate_with_handles (e_map e) bytes;
       Ret (option_map (Z.add heap) pos, b ++ set_map e m :: r, mmap_added n)
     end) = Ret (p, es', n') /\
    coll_ok (as_collection n' es') Ls' /\ 
    (exists d, 0 <= d <= 1 /\ c_version n' = u32 (c_version n + d) /\
       (d = 0 -> es' = b ++ zero_entry :: r)) /\
    gained bytes p (blocks (b ++ zero_entry :: r) (Bs ++ [] :: Ls)) (blocks es' Ls').
Proof using posix_mmap_fresh Hb0 Hb1 Hmin Hmax.
  intros Hc Hlen size. pose proof (regions_count_bound _ _ _ Hc) as Hbound.
  pose proof (k_version _ _ Hc) as Hv. simpl in Hv.
  assert (0 <= size /\ size + 4624 < 2 ^ 63) as [Hs0 Hs1].
  { subst size. destruct (Z.ltb_spec min_mmap_size bytes); lia. }
  destruct (posix_mmap _ _) as [h|] eqn:E.
  2: { exists None, (b ++ zero_entry :: r), n, (Bs ++ [] :: Ls). split_and!; try done.
       exists 0. rewrite Z.add_0_r, wrap_small by lia. done. }
  apply posix_mmap_fresh in E as (Hh0 & Hh1 & Hap). clearbody size.
  destruct (heap_size_padded_bounds size Hs0 Hs1) as [Hpad _].
  cbv zeta. set (e := mk_entry (rrr_mmap_init true size).2 h 0 0).
  assert (e_size e = heap_size_padded size) as Hes by done.
  assert (place e = Some (h, heap_size_padded size)) as Hpl by (apply (place_used e); lia).
  assert (entry_ok e []) as He.
  { unfold entry_ok. rewrite Hpl. split_and!; try lia. by apply heap_ok_init. }
  destruct (allocate_entry bytes Hb0 Hb1 e [] ltac:(lia) He) as (pos & m & L' & -> & Hm & He' & Hg).
  cbn [mbind outcome_bind]. eexists _, _, _, (Bs ++ L' :: Ls). split; [done|].
  assert (place (set_map e m) = Some (h, heap_size_padded size)) as Hpl'
    by (by rewrite place_set_map).
  rewrite regions_middle in Hap. simpl in Hap. split_and!.
  - apply (coll_ok_replace n _ b zero_entry _ r Bs [] L' Ls); try done.
    + rewrite Hpl'. by intros ? ? [= <- <-].
    + pose proof (k_count _ _ Hc) as Hk. simpl in *. rewrite regions_middle in *.
      rewrite Hpl'. simpl in *. rewrite wrap_small by lia. lia.
    + by apply wrap_range.
  - exists 1. split; [lia|]. split; [done|lia].
  - simpl in Hg. destruct pos as [pos|]; simpl in *.
    + destruct Hg as (k & Hk & HP). exists k. split; [done|].
      rewrite !blocks_middle by done. change (e_heap (set_map e m)) with h. by rewrite HP.
    + rewrite !blocks_app by done. simpl. by rewrite Hg.
Qed.

Lemma try_new_mmap_correct es : forall b n Bs Ls,
  coll_ok (as_collection n (b ++ es)) (Bs ++ Ls) -> length b = length Bs ->
  exists p es' n' Ls', try_new_mmap posix_mmap bytes min_mmap_size b es n = Ret (p, es', n') /\
    coll_ok (as_collection n' es') Ls' /\ moved n n' (b ++ es) es' /\
    gained bytes p (blocks (b ++ es) (Bs ++ Ls)) (blocks es' Ls').
Proof using posix_mmap_fresh Hb0 Hb1 Hmin Hmax.
  induction es as [|e r IH]; intros b n Bs Ls Hc Hlen; cbn [try_new_mmap];
    pose proof (k_version _ _ Hc) as Hv; simpl in Hv.
  { pose proof (Forall2_length _ _ _ (k_entries _ _ Hc)) as Hl. simpl in Hl.
    rewrite !length_app in Hl. simpl in Hl. destruct Ls; [|simpl in Hl; lia].
    rewrite !app_nil_r in *. exists None, b, n, Bs. split_and!; try done.
    exists 0. rewrite Z.add_0_r, wrap_small by lia. done. }
  assert (exists L Ls', Ls = L :: Ls' /\ entry_ok e L) as (L & Ls' & -> & He).
  { pose proof (k_entries _ _ Hc) as H. simpl in H. apply Forall2_app_inv in H as [_ H]; [|done].
    inversion H; subst. by eexists _, _. }
  destruct (Z.ltb_spec 0 (e_size e)) as [Hs|Hs].
  - pose proof He as Hok. unfold entry_ok in Hok. rewrite place_used in Hok by lia.
    rewrite (rrr_mmap_is_empty_spec _ L) by apply Hok. cbn [mbind outcome_bind].
    destruct (decide (L = [])) as [->|Hne]; cbn [truth Z.eqb negb].
    + cbn [mbind outcome_bind]. change (e_size zero_entry =? 0) with true. cbv iota.
      pose proof (coll_ok_cleanup n b e r Bs Ls' Hc Hlen ltac:(lia)) as Hc'.
      destruct (map_new_correct _ _ _ _ _ Hc' Hlen) as (p & es' & n' & LL & E & H1 & H2 & H3).
      exists p, es', n', LL. split_and!; [exact E|done| |].
      * destruct H2 as (d & Hd & Hver & _). exists (d + 1). split; [lia|]. split; [|lia].
        rewrite Hver. simpl. rewrite wrap_add_l. f_equal. lia.
      * rewrite !blocks_app in * by done. simpl in *. exact H3.
    + rewrite (proj2 (Z.eqb_neq (e_size e) 0)) by lia.
      destruct (IH (b ++ [e]) n (Bs ++ [L]) Ls') as (p & es' & n' & LL & H);
        [by rewrite <- !app_assoc|rewrite !length_app; simpl; lia|].
      rewrite <- !app_assoc in H. by exists p, es', n', LL.
  - assert (e_size e = 0) as Hz.
    { unfold entry_ok, place in He. destruct (Z.eqb_spec (e_size e) 0); [done|]. lia. }
    cbn [mbind outcome_bind]. rewrite (proj2 (Z.eqb_eq (e_size e) 0)) by done.
    destruct (coll_ok_zero _ _ _ _ _ _ _ Hc Hlen Hz) as [-> Hc'].
    destruct (map_new_correct _ _ _ _ _ Hc' Hlen) as (p & es' & n' & LL & E & H1 & H2 & H3).
    exists p, es', n', LL. split_and!; [exact E|done| |].
    + destruct H2 as (d & Hd & Hver & Hsame). exists d. split; [lia|]. split; [done|].
      intros H0. rewrite (Hsame H0), !map_app. simpl. by rewrite (place_unused e Hz).
    + rewrite !blocks_app in * by done. simpl in *. exact H3.
Qed.

Lemma allocate_new_correct c Ls : coll_ok c Ls ->
  exists p c' Ls', allocate_new posix_mmap bytes min_mmap_size c = Ret (p, c') /\ coll_ok c' Ls' /\
    moved (counts_of c) (counts_of c') (mmaps c) (mmaps c') /\
    gained bytes p (blocks (mmaps c) Ls) (blocks (mmaps c') Ls').
Proof using posix_mmap_fresh Hb0 Hb1 Hmin Hmax.
  intros Hc. unfold allocate_new.
  destruct (try_new_mmap_correct (mmaps c) [] (counts_of c) [] Ls)
    as (p & es' & n' & Ls' & -> & H1 & H2 & H3); [by destruct Hc; split|done|].
  cbn [mbind outcome_bind]. exists p, (with_counts c n' es'), Ls'. split_and!; try done.
  by destruct H1; split.
Qed.

(** The address ranges have changed [d] times. *)
Definition shifted (c c' : rrr_mmap_collection) (d : Z) : Prop :=
  0 <= d /\ version c' = u32 (version c + d) /\
  (d = 0 -> map place (mmaps c') = map place (mmaps c)).

Lemma try_allocate_cases c Ls : coll_ok c Ls ->
  exists p c' Ls', try_allocate posix_mmap c bytes min_mmap_size = Ret (p, c') /\
    coll_ok c' Ls' /\ (exists d, d <= 2 /\ shifted c c' d) /\
    gained bytes p (blocks (mmaps c) Ls) (blocks (mmaps c') Ls').
Proof using posix_mmap_fresh Hb0 Hb1 Hmin Hmax.
  intros Hc. unfold try_allocate. pose proof (k_version _ _ Hc) as Hv.
  destruct (allocate_old_correct false bytes c Ls Hb0 Hb1 Hc) as (p & c1 & L1 & -> & H1 & H2 & H3 & H4).
  cbn [mbind outcome_bind]. destruct p as [p|].
  { exists (Some p), c1, L1. split_and!; try done. exists 0. unfold shifted.
    rewrite H3, Z.add_0_r, wrap_small by lia. split_and!; try done. }
  destruct (allocate_new_correct c1 L1 H1) as (p & c2 & L2 & -> & H5 & (d & Hd & Hver & Hsame) & H6).
  simpl in H4, Hver. rewrite H4, H3 in *.
  cbn [mbind outcome_bind]. destruct p as [p|].
  { exists (Some p), c2, L2. split_and!; try done. exists d. split; [lia|]. split; [lia|].
    split; [done|]. intros H0. by rewrite (Hsame H0). }
  destruct (allocate_old_correct true bytes c2 L2 Hb0 Hb1 H5)
    as (p & c3 & L3 & -> & H7 & H8 & H9 & H10).
  simpl in H6. rewrite H6 in H10.
  exists p, c3, L3. split_and!; try done. exists d. split; [lia|]. split; [lia|].
  split; [by rewrite H9|]. intros H0. by rewrite H8, (Hsame H0).
Qed.

(** The whole function answers like the tries, but for the dump. *)
Lemma rrr_mmap_collection_allocate_cases c Ls : coll_ok c Ls ->
  exists p c' Ls', try_allocate posix_mmap c bytes min_mmap_size = Ret (p, c') /\
    answered posix_mmap c bytes min_mmap_size p c' /\
    coll_ok c' Ls' /\ (exists d, d <= 2 /\ shifted c c' d) /\
    gained bytes p (blocks (mmaps c) Ls) (blocks (mmaps c') Ls').
Proof using posix_mmap_fresh Hb0 Hb1 Hmin Hmax.
  intros Hc. destruct (try_allocate_cases c Ls Hc) as (p & c' & Ls' & E & Hc' & Hd & Hg).
  exists p, c', Ls'. split; [done|]. split; [|done]. unfold answered, rrr_mmap_collection_allocate.
  rewrite E. cbn [mbind outcome_bind]. destruct p as [p|]; [right; by split; [intros [? _]|]|].
  destruct (dump_all_correct _ _ (k_entries _ _ Hc')) as [[H ->]|[H [t ->]]]; [by left|right].
  split; [by intros [_ ?]|done].
Qed.

End MappingProofs.
(** * The table of address ranges *)

(** The table a collection should have. *)
Fixpoint table (i : nat) (es : list entry) : list heap_index :=
  match es with
  | [] => []
  | e :: r =>
    (if e_size e =? 0 then [] else [mk_heap_index (e_heap e) (e_heap e + e_size e) i]) ++
    table (S i) r
  end.

Lemma table_length es : forall i, length (table i es) = length (regions es).
Proof.
  induction es as [|e es IH]; intros i; [done|]. rewrite regions_cons. simpl.
  rewrite !length_app, IH. unfold place. by destruct (e_size e =? 0).
Qed.

Lemma table_places es es' : map place es' = map place es -> forall i, table i es' = table i es.
Proof.
  revert es'. induction es as [|e es IH]; intros [|e' es'] H i; try done.
  simpl in *. injection H as H1 H2. rewrite (IH es') by done. f_equal. unfold place in H1.
  destruct (e_size e' =? 0), (e_size e =? 0); try done. by injection H1 as -> ->.
Qed.

Lemma minmax_fill_correct es : forall i wpos,
  minmax_fill i wpos (wpos + Z.of_nat (length (regions es))) es = table i es.
Proof.
  assert (forall i r, length (regions r) = 0%nat -> table i r = []) as Hnil.
  { intros i r H. apply nil_length_inv. by rewrite table_length. }
  induction es as [|e es IH]; intros i wpos; [done|]. cbn [minmax_fill table].
  rewrite regions_cons, length_app. unfold place, truth.
  destruct (e_size e =? 0); simpl.
  - destruct (Z.eqb_spec wpos (wpos + Z.of_nat (length (regions es)))) as [H|]; [|apply IH].
    rewrite Hnil by lia. done.
  - f_equal. destruct (Z.eqb_spec (wpos + 1) (wpos + Z.of_nat (S (length (regions es)))))
      as [H|]; [rewrite Hnil by lia; done|]. rewrite <- (IH (S i) (wpos + 1)). f_equal. lia.
Qed.

(** The table of [pd] is that of [c] as it was [k] changes of version ago. *)
Definition behind (pd : private_data) (c : rrr_mmap_collection) (k : Z) : Prop :=
  0 <= k < 2 ^ 32 /\ 0 <= pd_version pd < 2 ^ 32 /\ version c = u32 (pd_version pd + k) /\
  (k = 0 -> take (Z.to_nat (mmap_count c)) (minmax pd) = table 0 (mmaps c)).

Lemma behind_version pd c k : behind pd c k -> pd_version pd = version c -> k = 0.
Proof.
  intros (Hk & Hp & Hv & _) E. rewrite Hv in E. unfold wrap in E.
  destruct (Z.lt_ge_cases (pd_version pd + k) (2 ^ 32)) as [H|H].
  - rewrite Z.mod_small in E by lia. lia.
  - rewrite <- (Z_mod_plus_full _ (-1)), Z.mod_small in E by lia. lia.
Qed.

(** A table that is behind by less than 2^32 changes is noticed to be. *)
Lemma minmax_update_correct pd c k Ls : coll_ok c Ls -> behind pd c k ->
  behind (minmax_update_if_needed pd c) c 0.
Proof.
  intros Hc Hb. unfold minmax_update_if_needed. pose proof (k_version _ _ Hc).
  destruct (Z.eqb_spec (pd_version pd) (version c)) as [E|E].
  - by rewrite (behind_version pd c k Hb E) in Hb.
  - split; [lia|]. simpl. split; [done|]. rewrite Z.add_0_r, wrap_small by lia. split; [done|].
    intros _. rewrite (k_count _ _ Hc) at 1 2.
    pose proof (minmax_fill_correct (mmaps c) 0 0) as Hf. rewrite Z.add_0_l in Hf.
    rewrite Hf, Nat2Z.id, <- (table_length _ 0). apply take_app_length.
Qed.

(** The search finds an element whose range has the address. *)
Definition inside_range (e : entry) (ptr : Z) : Prop :=
  e_size e <> 0 /\ e_heap e <= ptr < e_heap e + e_size e.

Lemma table_find es ptr : forall i,
  match list_find (fun h => heap_min h <= ptr /\ ptr < heap_max h) (table i es) with
  | Some (_, h) => exists j e, mmap_idx h = (i + j)%nat /\ es !! j = Some e /\ inside_range e ptr
  | None => Forall (fun e => ~ inside_range e ptr) es
  end.
Proof.
  unfold inside_range. induction es as [|e es IH]; intros i; simpl; [constructor|].
  specialize (IH (S i)).
  destruct (Z.eqb_spec (e_size e) 0) as [Hz|Hz]; cbn [app list_find].
  - destruct (list_find _ (table (S i) es)) as [[x h]|].
    + destruct IH as (j & e' & H1 & H2 & H3). exists (S j), e'. split; [lia|done].
    + constructor; [naive_solver|done].
  - destruct (decide _) as [Hd|Hd].
    + exists 0%nat, e. simpl in *. split; [lia|]. split; [done|]. lia.
    + simpl in Hd. destruct (list_find _ (table (S i) es)) as [[x h]|]; simpl.
      * destruct IH as (j & e' & H1 & H2 & H3). exists (S j), e'. split; [lia|done].
      * constructor; [|done]. lia.
Qed.

Lemma minmax_search_correct pd c k Ls ptr : coll_ok c Ls -> behind pd c k ->
  exists pd', behind pd' c 0 /\
    match (minmax_search pd c ptr).2 with
    | Some i => (minmax_search pd c ptr).1 = pd' /\
        exists e, mmaps c !! i = Some e /\ inside_range e ptr
    | None => (minmax_search pd c ptr).1 = pd' /\
        Forall (fun e => ~ inside_range e ptr) (mmaps c)
    end.
Proof.
  intros Hc Hb. exists (minmax_update_if_needed pd c).
  pose proof (minmax_update_correct pd c k Ls Hc Hb) as Hb'. split; [done|].
  unfold minmax_search. simpl. destruct Hb' as (_ & _ & _ & H). rewrite H by done.
  pose proof (table_find (mmaps c) ptr 0) as Hf.
  destruct (list_find _ _) as [[x h]|]; simpl.
  - split; [done|]. destruct Hf as (j & e & -> & He). by exists e.
  - done.
Qed.

(** An address is in the range of one element only. *)
Lemma inside_unique es i j a b ptr : pairwise (regions es) -> es !! i = Some a ->
  es !! j = Some b -> inside_range a ptr -> inside_range b ptr -> i = j.
Proof.
  assert (forall es j b, es !! j = Some b -> e_size b <> 0 ->
    (e_heap b, e_size b) ∈ regions es) as Hin.
  { clear. intros es j b Hj Hs. unfold regions. apply list_elem_of_omap. exists b.
    split; [by eapply list_elem_of_lookup_2|by apply place_used]. }
  assert (forall es j a b, pairwise (regions (a :: es)) -> es !! j = Some b ->
    inside_range a ptr -> inside_range b ptr -> False) as Hoff.
  { intros es' k x y Hp Hk [Hx1 Hx2] [Hy1 Hy2]. rewrite regions_cons, place_used in Hp by done.
    destruct Hp as [Hp _]. rewrite Forall_forall in Hp. specialize (Hp _ (Hin _ _ _ Hk Hy1)).
    unfold apart, before in Hp. simpl in Hp. lia. }
  revert i j. induction es as [|e es IH]; intros i j Hp Hi Hj Ha Hb; [done|].
  destruct i as [|i], j as [|j]; simpl in *; try done.
  - injection Hi as ->. exfalso. by eapply Hoff.
  - injection Hj as ->. exfalso. by eapply (Hoff es i b a).
  - f_equal. apply IH; try done. rewrite regions_cons in Hp.
    by apply pairwise_app in Hp as (_ & Hp & _).
Qed.

(** * Freeing *)

Lemma elem_of_blocks es Ls b : Forall2 entry_ok es Ls -> b ∈ blocks es Ls ->
  exists i e L x, es !! i = Some e /\ Ls !! i = Some L /\ x ∈ L /\
    b = (e_heap e + x.1, x.2) /\ inside_range e b.1 /\ 0 <= x.1.
Proof.
  induction 1 as [|e L es Ls He _ IH]; simpl; [set_solver|]. intros Hb.
  apply elem_of_app in Hb as [Hb|Hb].
  - destruct (entry_ok_range e L b He Hb) as (n & Hp & H1 & H2 & H3).
    apply list_elem_of_fmap in Hb as (x & -> & Hx). exists 0%nat, e, L, x. simpl in *.
    unfold inside_range. unfold place in Hp. destruct (Z.eqb_spec (e_size e) 0); [done|].
    injection Hp as Hp. split_and!; try done; lia.
  - destruct (IH Hb) as (i & ?). by exists (S i).
Qed.

(** The heap of one element is changed. *)
Lemma coll_ok_insert c Ls i e L m L' : coll_ok c Ls -> mmaps c !! i = Some e ->
  Ls !! i = Some L -> e_size e <> 0 -> heap_size m = e_size e -> heap_ok m L' ->
  coll_ok (with_counts c (counts_of c) (<[i := set_map e m]> (mmaps c))) (<[i := L']> Ls) /\
  map place (<[i := set_map e m]> (mmaps c)) = map place (mmaps c).
Proof.
  intros Hc Hi HL Hs Hm Hok.
  assert (map place (<[i := set_map e m]> (mmaps c)) = map place (mmaps c)) as Hp.
  { rewrite insert_take_drop by (by eapply lookup_lt_Some).
    rewrite <- (take_drop_middle _ _ _ Hi) at 3. rewrite !map_app. simpl.
    by rewrite place_set_map. }
  split; [|done]. apply (coll_ok_places c Ls); [done..|]. pose proof (k_entries _ _ Hc) as He.
  apply Forall2_insert; [done|]. pose proof (Forall2_lookup_lr _ _ _ _ _ _ He Hi HL) as HeL.
  eapply entry_ok_set_map; [by apply place_used|done..].
Qed.

Lemma blocks_insert es Ls i e L m L' x : length es = length Ls -> es !! i = Some e ->
  Ls !! i = Some L -> L ≡ₚ x :: L' ->
  blocks es Ls ≡ₚ (e_heap e + x.1, x.2) :: blocks (<[i := set_map e m]> es) (<[i := L']> Ls).
Proof.
  intros Hlen Hi HL HP. rewrite !insert_take_drop by (by eapply lookup_lt_Some).
  rewrite <- (take_drop_middle _ _ _ Hi) at 1. rewrite <- (take_drop_middle _ _ _ HL) at 1.
  rewrite !blocks_middle by (rewrite !length_take; lia). unfold shift. simpl. by rewrite HP.
Qed.

Lemma collection_free_live pd c k Ls ptr n : coll_ok c Ls -> behind pd c k ->
  (ptr, n) ∈ blocks (mmaps c) Ls ->
  exists pd' c' Ls', collection_free pd c ptr = Ret (0, pd', c') /\ coll_ok c' Ls' /\
    behind pd' c' 0 /\ blocks (mmaps c) Ls ≡ₚ (ptr, n) :: blocks (mmaps c') Ls'.
Proof.
  intros Hc Hb Hin. pose proof (k_entries _ _ Hc) as He.
  destruct (elem_of_blocks _ _ _ He Hin) as (i & e & L & x & Hi & HL & Hx & E & Hr & Hx0).
  injection E as -> ->. simpl in Hr. unfold collection_free.
  assert (mmap_count c <> 0) as Hn.
  { destruct (blocks_range _ _ _ He Hin) as (r & Hreg & _). rewrite (k_count _ _ Hc).
    destruct (regions (mmaps c)); [set_solver|]. simpl. lia. }
  rewrite (proj2 (Z.eqb_neq _ _) Hn).
  destruct (minmax_search_correct pd c k Ls (e_heap e + x.1) Hc Hb) as (pd' & Hb' & Hs).
  destruct (minmax_search pd c (e_heap e + x.1)) as [pd1 [j|]]; simpl in Hs.
  2: { exfalso. destruct Hs as [_ Hs]. rewrite Forall_lookup in Hs. by apply (Hs _ _ Hi). }
  destruct Hs as [-> (e' & Hj & Hr')].
  assert (j = i) as -> by (by eapply inside_unique; [apply Hc|..]).
  rewrite Hi. pose proof (Forall2_lookup_lr _ _ _ _ _ _ He Hi HL) as HeL.
  pose proof HeL as Hok. unfold entry_ok in Hok. destruct Hr as [Hs0 Hr].
  rewrite place_used in Hok by done. destruct Hok as (Hok & Hh0 & Hh1 & Hh2).
  replace (u64 (e_heap e + x.1 - e_heap e)) with x.1 by (rewrite wrap_small; lia).
  pose proof (rrr_mmap_free_cases _ _ x.1 Hok) as Hf.
  destruct (rrr_mmap_free (e_map e) x.1) as [m| |]; [| |done].
  2: { exfalso. apply (Hf x.2). by destruct x. }
  destruct Hf as (n & L' & HP & Hok' & _ & Hm). cbn [mbind outcome_bind].
  assert (n = x.2) as ->.
  { apply (heap_ok_same (e_map e) L x.1); [done|rewrite HP; set_solver|by destruct x]. }
  destruct (coll_ok_insert c Ls i e L m L' Hc Hi HL Hs0 Hm Hok') as [Hc' Hp].
  eexists pd', _, (<[i := L']> Ls). split; [done|]. split_and!; [done| |].
  - destruct Hb' as (H1 & H2 & H3 & H4). split_and!; try done; try lia. simpl. intros _.
    rewrite H4 by done. symmetry. by apply table_places.
  - simpl. apply (blocks_insert _ _ _ _ L _ L' (x.1, x.2)); try done. by eapply Forall2_length.
Qed.

Lemma collection_free_foreign pd c k Ls ptr : coll_ok c Ls -> behind pd c k ->
  Forall (fun e => ~ inside_range e ptr) (mmaps c) ->
  exists pd' k', collection_free pd c ptr = Ret (1, pd', c) /\ behind pd' c k'.
Proof.
  intros Hc Hb Hout. unfold collection_free. destruct (mmap_count c =? 0); [by exists pd, k|].
  destruct (minmax_search_correct pd c k Ls ptr Hc Hb) as (pd' & Hb' & Hs).
  destruct (minmax_search pd c ptr) as [pd1 [j|]]; simpl in Hs.
  - destruct Hs as [_ (e & Hj & Hr)]. rewrite Forall_lookup in Hout. by destruct (Hout _ _ Hj).
  - exists pd', 0. by destruct Hs as [-> _].
Qed.

(** * Maintenance *)

(** An element after maintenance, given its blocks in use. *)
Definition maintained (limit : Z) (e : entry) (L : list (Z * Z)) : entry :=
  if e_size e =? 0 then e
  else if decide (L = []) then
    if 9 <=? maintenance_cleanup_strikes e then zero_entry
    else set_strikes e (maintenance_cleanup_strikes e + 1)
  else if limit <? allocation_count (e_map e) then
    mk_entry (e_map e) (e_heap e) 10 (flags e ||| RRR_MMAP_COLLECTION_FLAG_BAD)
  else set_strikes e 0.

Lemma maintain_correct limit e L st : e_size e <> 0 -> entry_ok e L ->
  exists count st', maintain limit e st = Ret (maintained limit e L, count, st') /\
    match count with
    | None => maintained limit e L = zero_entry /\ L = []
    | Some _ => e_map (maintained limit e L) = e_map e /\ e_heap (maintained limit e L) = e_heap e
    end.
Proof.
  intros Hs He. unfold maintain, maintained, RRR_MMAP_COLLECTION_MAINTENANCE_CLEANUP_STRIKES.
  pose proof He as Hok. unfold entry_ok in Hok. rewrite place_used in Hok by done.
  rewrite (rrr_mmap_is_empty_spec _ L) by apply Hok. cbn [mbind outcome_bind].
  rewrite (proj2 (Z.eqb_neq _ _) Hs). destruct (decide (L = [])) as [->|Hne]; cbn [truth Z.eqb negb].
  - simpl maintenance_cleanup_strikes.
    destruct (Z.leb_spec 10 (maintenance_cleanup_strikes e + 1)),
      (Z.leb_spec 9 (maintenance_cleanup_strikes e)); try lia; by eexists _, _.
  - destruct (limit <? allocation_count (e_map e)); by eexists _, _.
Qed.

Lemma maintain_all_correct limit es : forall b n Bs Ls total entries st,
  coll_ok (as_collection n (b ++ es)) (Bs ++ Ls) -> length b = length Bs ->
  exists n' total' entries' st',
    let es' := zip_with (maintained limit) es Ls in
    maintain_all limit es n total entries st = Ret (es', n', total', entries', st') /\
    coll_ok (as_collection n' (b ++ es')) (Bs ++ Ls) /\ blocks es' Ls = blocks es Ls /\
    exists d, 0 <= d <= Z.of_nat (length es) /\ c_version n' = u32 (c_version n + d) /\
      (d = 0 -> map place es' = map place es).
Proof.
  induction es as [|e es IH]; intros b n Bs Ls total entries st Hc Hlen; cbn [maintain_all];
    pose proof (k_version _ _ Hc) as Hv; simpl in Hv.
  { exists n, total, entries, st. split_and!; try done. exists 0.
    rewrite Z.add_0_r, wrap_small by lia. split_and!; done || (simpl; lia). }
  assert (exists L Ls', Ls = L :: Ls' /\ entry_ok e L) as (L & Ls' & -> & He).
  { pose proof (k_entries _ _ Hc) as H. simpl in H. apply Forall2_app_inv in H as [_ H]; [|done].
    inversion H; subst. by eexists _, _. }
  cbn [zip_with]. set (e' := maintained limit e L).
  assert (exists n1 t1 k1 st1, (if e_size e =? 0 then Ret (e, n, total, entries, st)
      else '(e, count, st) ← maintain limit e st;
        match count with
        | None => Ret (e, mmap_cleanup n, total, entries, st)
        | Some count => Ret (e, n, u64 (total + count), u32 (entries + 1), st)
        end) = Ret (e', n1, t1, k1, st1) /\
    coll_ok (as_collection n1 (b ++ e' :: es)) (Bs ++ L :: Ls') /\
    shift (e_heap e') L = shift (e_heap e) L /\
    exists d, 0 <= d <= 1 /\ c_version n1 = u32 (c_version n + d) /\ (d = 0 -> place e' = place e))
    as (n1 & t1 & k1 & st1 & -> & Hc1 & Hsh & d1 & Hd1 & Hv1 & Hs1).
  { destruct (Z.eqb_spec (e_size e) 0) as [Hz|Hz].
    { exists n, total, entries, st. subst e'. unfold maintained. rewrite Hz, Z.eqb_refl.
      split_and!; try done. exists 0. rewrite Z.add_0_r, wrap_small by lia. done. }
    destruct (maintain_correct limit e L st Hz He) as (count & st1 & -> & Hcount).
    fold e' in Hcount |- *. cbn [mbind outcome_bind]. destruct count as [count|].
    - destruct Hcount as [Hm Hh]. eexists n, _, _, st1. split; [done|].
      assert (place e' = place e) as Hp by (unfold place, e_size; by rewrite Hm, Hh).
      split_and!; [|by rewrite Hh|].
      + apply (coll_ok_places (as_collection n (b ++ e :: es)) (Bs ++ L :: Ls')); [done| |].
        * simpl. rewrite !map_app. simpl. by rewrite Hp.
        * pose proof (k_entries _ _ Hc) as H. simpl in H.
          apply Forall2_app_inv in H as [H1 H2]; [|done]. apply Forall2_cons in H2 as [_ H2].
          apply Forall2_app; [done|]. constructor; [|done]. unfold entry_ok in *. by rewrite Hp, Hm.
      + exists 0. rewrite Z.add_0_r, wrap_small by lia. done.
    - destruct Hcount as [-> ->]. eexists _, _, _, st1. split; [done|]. split_and!; try done.
      + by apply (coll_ok_cleanup n b e).
      + exists 1. split_and!; try done; lia. }
  cbn [mbind outcome_bind].
  destruct (IH (b ++ [e']) n1 (Bs ++ [L]) Ls' t1 k1 st1)
    as (n2 & t2 & k2 & st2 & -> & Hc2 & Hb2 & d2 & Hd2 & Hv2 & Hs2);
    [by rewrite <- !app_assoc|rewrite !length_app; simpl; lia|].
  cbn [mbind outcome_bind]. exists n2, t2, k2, st2. rewrite <- !app_assoc in Hc2. split_and!; try done.
  - cbn [blocks]. by rewrite Hsh, Hb2.
  - exists (d1 + d2). cbn [length]. split; [lia|]. split.
    + rewrite Hv2, Hv1, wrap_add_l. f_equal. lia.
    + intros H0. simpl. rewrite Hs1, Hs2 by lia. done.
Qed.

Lemma limit_clamp_range n : RRR_MMAP_COLLECTION_ALLOCATION_LIMIT_MIN <= limit_clamp n <=
  RRR_MMAP_COLLECTION_ALLOCATION_LIMIT_MAX.
Proof.
  unfold limit_clamp, RRR_MMAP_COLLECTION_ALLOCATION_LIMIT_MIN,
    RRR_MMAP_COLLECTION_ALLOCATION_LIMIT_MAX. btests.
Qed.

Lemma collection_maintenance_cases c Ls st : coll_ok c Ls ->
  exists c' st', collection_maintenance c st = Ret (c', st') /\ coll_ok c' Ls /\
    mmaps c' = zip_with (maintained (allocation_limit c)) (mmaps c) Ls /\
    blocks (mmaps c') Ls = blocks (mmaps c) Ls /\
    (allocation_limit c' = allocation_limit c \/
     RRR_MMAP_COLLECTION_ALLOCATION_LIMIT_MIN <= allocation_limit c' <=
       RRR_MMAP_COLLECTION_ALLOCATION_LIMIT_MAX) /\
    exists d, d <= 128 /\ shifted c c' d.
Proof.
  intros Hc. pose proof (k_version _ _ Hc) as Hv. unfold collection_maintenance.
  destruct (Z.eqb_spec (mmap_count c) 0) as [Hz|Hz].
  { exists c, st. split_and!; try done; [|by left|].
    - rewrite (k_count _ _ Hc) in Hz. pose proof (k_entries _ _ Hc) as He.
      assert (length (regions (mmaps c)) = 0%nat) as Hl by lia. clear -He Hl.
      induction He as [|e L es Ls _ _ IH]; [done|]. rewrite regions_cons, length_app in Hl.
      cbn [zip_with]. rewrite <- IH by lia. f_equal. unfold maintained, place in *.
      destruct (e_size e =? 0); [done|simpl in Hl; lia].
    - exists 0. unfold shifted. rewrite Z.add_0_r, wrap_small by lia. split_and!; done || lia. }
  destruct (maintain_all_correct (allocation_limit c) (mmaps c) [] (counts_of c) [] Ls 0 0 st)
    as (n & t & k & st' & -> & H1 & H2 & d & Hd & H3 & H4); [by destruct Hc; split|done|].
  cbn [mbind outcome_bind]. eexists _, st'. split; [done|].
  rewrite (k_length _ _ Hc) in Hd. change (Z.of_nat RRR_MMAP_COLLECTION_MAX) with 128 in Hd.
  destruct (0 <? k); split_and!; simpl; try done; try (by destruct H1; split).
  - right. apply limit_clamp_range.
  - exists d. split; [lia|]. split; [lia|done].
  - by left.
  - exists d. split; [lia|]. split; [lia|done].
Qed.

(** * A collection in use *)

Lemma behind_shifted pd c c' k d : behind pd c k -> shifted c c' d -> k + d < 2 ^ 32 ->
  (forall Ls Ls', coll_ok c Ls -> coll_ok c' Ls' -> behind pd c' (k + d)).
Proof.
  intros (Hk & Hp & Hv & Ht) (Hd & Hv' & Hs) Hlt Ls Ls' Hc Hc'. split; [lia|]. split; [done|]. split.
  - rewrite Hv', Hv, wrap_add_l. f_equal. lia.
  - intros H0. assert (k = 0) as -> by lia. assert (d = 0) as -> by lia.
    rewrite (table_places _ _ (Hs eq_refl)), <- Ht by done. f_equal.
    by rewrite (k_count _ _ Hc), (k_count _ _ Hc'), (regions_map _ _ (Hs eq_refl)).
Qed.

Section Use.
Context (posix_mmap : list (Z * Z) -> Z -> option Z).

(** A collection, the table of a process that uses it, and the requests it holds. *)
Definition user : Type := rrr_mmap_collection * private_data * list (Z * Z).

Inductive user_step : user -> user -> Prop :=
| user_allocate c pd R bytes min p c' :
    0 < bytes -> 0 <= min -> Z.max bytes min + 4624 < 2 ^ 63 ->
    rrr_mmap_collection_allocate posix_mmap c bytes min = Ret (Some p, c') ->
    user_step (c, pd, R) (c', pd, (p, bytes) :: R)
| user_no_memory c pd R bytes min c' :
    0 < bytes -> 0 <= min -> Z.max bytes min + 4624 < 2 ^ 63 ->
    rrr_mmap_collection_allocate posix_mmap c bytes min = Ret (None, c') ->
    user_step (c, pd, R) (c', pd, R)
| user_maintenance c pd R c' st :
    rrr_mmap_collections_maintenance [c] = Ret ([c'], st) ->
    user_step (c, pd, R) (c', pd, R)
| user_free c pd R p bytes R' c' pd' ret : R ≡ₚ (p, bytes) :: R' ->
    rrr_mmap_collections_free [(pd, c)] p = Ret (ret, [(pd', c')]) ->
    user_step (c, pd, R) (c', pd', R').

(** The state after [n] operations on a new collection. *)
Definition used (n : nat) (s : user) : Prop :=
  nsteps user_step n
    (collection_init, rrr_mmap_collection_private_data_init collection_init, []) s.

Definition user_ok (n : nat) (s : user) : Prop :=
  exists Ls L k, coll_ok s.1.1 Ls /\ behind s.1.2 s.1.1 k /\ k <= 1 + 128 * Z.of_nat n /\
    blocks (mmaps s.1.1) Ls ≡ₚ L /\ Forall2 serves s.2 L.

Lemma coll_ok_init : coll_ok collection_init (replicate RRR_MMAP_COLLECTION_MAX []) /\
  blocks (mmaps collection_init) (replicate RRR_MMAP_COLLECTION_MAX []) = [].
Proof using.
  split; [|done]. assert (regions (mmaps collection_init) = []) as Hr by done.
  split; rewrite ?Hr; try done. apply (Forall2_replicate entry_ok 128 zero_entry []). done.
Qed.

Lemma user_ok_init :
  user_ok 0 (collection_init, rrr_mmap_collection_private_data_init collection_init, []).
Proof using.
  destruct coll_ok_init as [Hc Hb]. eexists _, [], 1. split; [exact Hc|].
  cbn [fst snd]. split; [|split; [lia|split; [by rewrite Hb|constructor]]].
  split; [lia|]. split; [by apply wrap_range|]. split; [done|lia].
Qed.

Context (posix_mmap_fresh : forall rs size h, posix_mmap rs size = Some h ->
  0 < h /\ h + size < 2 ^ 64 /\ Forall (apart (h, size)) rs).

Lemma user_allocate_ok n c pd R bytes min p c' : 128 * (Z.of_nat n + 1) < 2 ^ 32 - 1 ->
  user_ok n (c, pd, R) -> 0 < bytes -> 0 <= min -> Z.max bytes min + 4624 < 2 ^ 63 ->
  rrr_mmap_collection_allocate posix_mmap c bytes min = Ret (p, c') ->
  user_ok (S n) (c', pd, match p with Some p => (p, bytes) :: R | None => R end).
Proof using posix_mmap_fresh.
  intros Hn (Ls & L & k & Hc & Hb & Hk & HP & HF) H0 H1 H2 E. simpl in *.
  destruct (rrr_mmap_collection_allocate_cases posix_mmap posix_mmap_fresh bytes H0 ltac:(lia)
    min H1 H2 c Ls Hc) as (p0 & c0 & Ls' & _ & [[_ E0]|[_ E0]] & Hc' & (d & Hd & Hs) & Hg);
    rewrite E in E0; [done|]. injection E0 as <- <-.
  assert (behind pd c' (k + d)) as Hb' by (eapply behind_shifted; try done; lia).
  destruct p as [p|].
  - destruct Hg as (size & Hsz & HP'). exists Ls', ((p, size) :: L), (k + d).
    split_and!; try done; simpl; [lia|by rewrite HP', HP|].
    constructor; [split; simpl; [done|lia]|done].
  - simpl in Hg. exists Ls', L, (k + d). split_and!; try done; simpl; [lia|by rewrite Hg].
Qed.

Lemma user_free_ok n c pd R p bytes R' c' pd' ret : user_ok n (c, pd, R) ->
  R ≡ₚ (p, bytes) :: R' -> rrr_mmap_collections_free [(pd, c)] p = Ret (ret, [(pd', c')]) ->
  ret = 0 /\ user_ok (S n) (c', pd', R').
Proof using.
  intros (Ls & L & k & Hc & Hb & Hk & HP & HF) HR E. simpl in *.
  destruct (serves_perm _ _ _ HR HF) as (L1 & HL1 & HF1).
  inversion HF1 as [|? [q size] ? L2 [Hq _] HF2]; subst. simpl in Hq. subst q.
  destruct (collection_free_live pd c k Ls p size Hc Hb) as (pd1 & c1 & Ls' & E1 & Hc' & Hb' & HP').
  { rewrite HP, HL1. constructor. }
  rewrite E1 in E. simpl in E. injection E as <- <- <-. split; [done|].
  exists Ls', L2, 0. rewrite HP', HL1 in HP. apply Permutation_cons_inv in HP.
  by split_and!.
Qed.

Lemma user_ok_step n s s' : 128 * (Z.of_nat n + 1) < 2 ^ 32 - 1 ->
  user_ok n s -> user_step s s' -> user_ok (S n) s'.
Proof using posix_mmap_fresh.
  intros Hn Hs Hst. destruct Hst as [c pd R bytes min p c' H0 H1 H2 E|c pd R bytes min c' H0 H1 H2 E
    |c pd R c' st E|c pd R p bytes R' c' pd' ret HR E].
  - by apply (user_allocate_ok n c pd R bytes min (Some p)).
  - by apply (user_allocate_ok n c pd R bytes min None).
  - destruct Hs as (Ls & L & k & Hc & Hb & Hk & HP & HF). simpl in *.
    destruct (collection_maintenance_cases c Ls zero_stats Hc)
      as (c1 & st1 & E1 & Hc' & _ & Hbl & _ & d & Hd & Hsh).
    unfold rrr_mmap_collections_maintenance in E. simpl in E. rewrite E1 in E. simpl in E.
    injection E as <- <-. exists Ls, L, (k + d).
    split_and!; try done; simpl; [eapply behind_shifted; try done; lia|lia|by rewrite Hbl].
  - by eapply user_free_ok.
Qed.

Lemma used_ok n s : 128 * Z.of_nat n < 2 ^ 32 - 1 -> used n s -> user_ok n s.
Proof using posix_mmap_fresh.
  unfold used. pose proof user_ok_init as Hi. set (s0 := (_, _, _)) in *. clearbody s0.
  revert s. induction n as [|n IH]; intros s Hn Hu.
  - by inversion Hu; subst.
  - apply nsteps_inv_r in Hu as (s1 & H1 & H2). eapply user_ok_step; [lia|apply IH; [lia|done]|done].
Qed.

(** Blocks in use do not overlap. *)
Lemma used_apart n c pd R :
  128 * (Z.of_nat n + 1) < 2 ^ 32 - 1 -> used n (c, pd, R) ->
  forall a b R', R ≡ₚ a :: b :: R' -> a.1 + a.2 < b.1 \/ b.1 + b.2 < a.1.
Proof using posix_mmap_fresh.
  intros Hn Hu a b R' HR. destruct (used_ok n _ ltac:(lia) Hu) as (Ls & L & k & Hc & Hb & Hk & HP & HF).
  simpl in *. destruct (serves_perm _ _ _ HR HF) as (L' & HL & HF').
  inversion HF' as [|? a' ? L1 [Ha1 Ha2] HF1]; subst.
  inversion HF1 as [|? b' ? L2 [Hb1 Hb2] _]; subst.
  pose proof (coll_ok_blocks c Ls Hc a' b' L2) as Hd. rewrite HP, HL in Hd.
  specialize (Hd (reflexivity _)). unfold before, sizeof_sentinel in *. lia.
Qed.

Lemma used_allocates n c pd R bytes min :
  128 * (Z.of_nat n + 1) < 2 ^ 32 - 1 -> used n (c, pd, R) ->
  0 < bytes -> 0 <= min -> Z.max bytes min + 4624 < 2 ^ 63 ->
  exists p c', try_allocate posix_mmap c bytes min = Ret (p, c') /\ answered posix_mmap c bytes min p c'.
Proof using posix_mmap_fresh.
  intros Hn Hu H0 H1 H2. destruct (used_ok n _ ltac:(lia) Hu) as (Ls & L & k & Hc & _).
  destruct (rrr_mmap_collection_allocate_cases posix_mmap posix_mmap_fresh bytes H0 ltac:(lia)
    min H1 H2 c Ls Hc) as (p & c' & _ & E & Ha & _). by exists p, c'.
Qed.

Lemma used_frees n c pd R p bytes R' :
  128 * (Z.of_nat n + 1) < 2 ^ 32 - 1 -> used n (c, pd, R) -> R ≡ₚ (p, bytes) :: R' ->
  exists c' pd', rrr_mmap_collections_free [(pd, c)] p = Ret (0, [(pd', c')]) /\ used (S n) (c', pd', R').
Proof using posix_mmap_fresh.
  intros Hn Hu HR. destruct (used_ok n _ ltac:(lia) Hu) as (Ls & L & k & Hc & Hb & Hk & HP & HF).
  simpl in *. destruct (serves_perm _ _ _ HR HF) as (L1 & HL1 & HF1).
  inversion HF1 as [|? [q size] ? L2 [Hq _] HF2]; subst. simpl in Hq. subst q.
  destruct (collection_free_live pd c k Ls p size Hc Hb) as (pd1 & c1 & Ls' & E1 & _).
  { rewrite HP, HL1. constructor. }
  assert (rrr_mmap_collections_free [(pd, c)] p = Ret (0, [(pd1, c1)])) as E
    by (simpl; by rewrite E1).
  exists c1, pd1. split; [done|]. eapply nsteps_r; [exact Hu|]. by eapply user_free.
Qed.

Lemma used_maintains n c pd R :
  128 * (Z.of_nat n + 1) < 2 ^ 32 - 1 -> used n (c, pd, R) ->
  exists c' st, rrr_mmap_collections_maintenance [c] = Ret ([c'], st) /\ used (S n) (c', pd, R).
Proof using posix_mmap_fresh.
  intros Hn Hu. destruct (used_ok n _ ltac:(lia) Hu) as (Ls & L & k & Hc & _).
  destruct (collection_maintenance_cases c Ls zero_stats Hc) as (c1 & st1 & E1 & _).
  assert (rrr_mmap_collections_maintenance [c] = Ret ([c1], st1)) as E
    by (unfold rrr_mmap_collections_maintenance; simpl; by rewrite E1).
  exists c1, st1. split; [done|]. eapply nsteps_r; [exact Hu|]. by eapply user_maintenance.
Qed.

(** C28. A process that starts with a new collection and allocates, frees what it holds
    and runs maintenance, in any order, for up to 33 million operations: the blocks it
    holds never overlap, maintenance never unmaps a block in use, and every block held is
    found by its address, in a table of address ranges that may be out of date, and freed.
    A request for at least one byte and less than 2^63 - 4624 always gets the answer of the
    three tries, with one exception: when they find no memory and one of the heaps is full
    with a rest too small for another index, the dump of the indexes that follows reads past
    the end of that heap, and what happens then is undefined.  [posix_mmap] stands for the
    system's mapping of memory: new mappings do not overlap those there are. *)
Theorem rrr_mmap_collection_use_safe n c pd R :
  128 * (Z.of_nat n + 1) < 2 ^ 32 - 1 -> used n (c, pd, R) ->
  (forall a b R', R ≡ₚ a :: b :: R' -> a.1 + a.2 < b.1 \/ b.1 + b.2 < a.1) /\
  (forall bytes min, 0 < bytes -> 0 <= min -> Z.max bytes min + 4624 < 2 ^ 63 ->
     exists p c', try_allocate posix_mmap c bytes min = Ret (p, c') /\
       (((p = None /\ cut_short c') /\ rrr_mmap_collection_allocate posix_mmap c bytes min = Oob) \/
        (~ (p = None /\ cut_short c') /\
         rrr_mmap_collection_allocate posix_mmap c bytes min = Ret (p, c')))) /\
  (forall p bytes R', R ≡ₚ (p, bytes) :: R' -> exists c' pd',
     rrr_mmap_collections_free [(pd, c)] p = Ret (0, [(pd', c')]) /\ used (S n) (c', pd', R')) /\
  (exists c' st, rrr_mmap_collections_maintenance [c] = Ret ([c'], st) /\
     used (S n) (c', pd, R)).
Proof using posix_mmap_fresh.
  intros Hn Hu. split_and!.
  - by eapply used_apart.
  - intros bytes min H0 H1 H2. by eapply used_allocates.
  - intros p bytes R' HR. by eapply used_frees.
  - by eapply used_maintains.
Qed.

End Use.

(** A mapping after all others. *)
Definition map_above (rs : list (Z * Z)) (size : Z) : option Z :=
  let h := fold_right (fun r n => Z.max (r.1 + r.2) n) 4096 rs in
  if (0 <=? size) && (h + size <? 2 ^ 64) then Some h else None.

Lemma map_above_fresh rs size h : map_above rs size = Some h ->
  0 < h /\ h + size < 2 ^ 64 /\ Forall (apart (h, size)) rs.
Proof.
  unfold map_above. destruct (Z.leb_spec 0 size); [|done]. set (g := fold_right _ _ _).
  destruct (Z.ltb_spec (g + size) (2 ^ 64)); [|done]. intros [= <-].
  assert (4096 <= g /\ Forall (fun r => r.1 + r.2 <= g) rs) as [Hg Hall].
  { subst g. clear. induction rs as [|r rs [H1 H2]]; simpl; [split; [lia|constructor]|].
    split; [lia|]. constructor; [lia|]. eapply Forall_impl; [exact H2|]. simpl. lia. }
  split_and!; try lia. eapply Forall_impl; [exact Hall|]. unfold apart, before. simpl. lia.
Qed.

Lemma rrr_mmap_collection_use_safe_witness : exists p c pd c',
  rrr_mmap_collection_allocate map_above collection_init 100 65536 = Ret (Some p, c) /\
  rrr_mmap_collections_free [(rrr_mmap_collection_private_data_init collection_init, c)] p =
    Ret (0, [(pd, c')]).
Proof.
  assert (exists p c, rrr_mmap_collection_allocate map_above collection_init 100 65536 =
    Ret (Some p, c)) as (p & c & E) by (eexists _, _; vm_compute; reflexivity).
  destruct (rrr_mmap_collection_use_safe map_above map_above_fresh 1 c
    (rrr_mmap_collection_private_data_init collection_init) [(p, 100)]) as (_ & _ & Hf & _).
  - lia.
  - apply nsteps_once. eapply user_allocate; [..|exact E]; lia.
  - destruct (Hf p 100 [] ltac:(done)) as (c' & pd' & E' & _). by exists p, c, pd', c'.
Defined.

(** Only one mapping can be had. *)
Definition map_once (rs : list (Z * Z)) (size : Z) : option Z :=
  match rs with [] => map_above rs size | _ => None end.

Fixpoint allocate_many (n : nat) (bytes : Z) (c : rrr_mmap_collection) : outcome rrr_mmap_collection :=
  match n with
  | O => Ret c
  | S n => '(_, c) ← rrr_mmap_collection_allocate map_once c bytes 1000; allocate_many n bytes c
  end.

(** A heap of one page holds 64 blocks of 32 bytes and 504 bytes more.  The next request cannot
    be met, and the dump takes the 504 bytes for an index of 520. *)
Lemma dump_reads_past_heap :
  exists c, allocate_many 64 32 collection_init = Ret c /\
    (exists c', try_allocate map_once c 32 1000 = Ret (None, c')) /\
    rrr_mmap_collection_allocate map_once c 32 1000 = Oob.
Proof. eexists. split; [vm_compute; reflexivity|]. split; [eexists|]; vm_compute; reflexivity. Qed.

(** Maintenance of a collection never fails; it unmaps exactly the heaps that are
    empty for the tenth time in a row (or have been marked as bad before and are empty
    now), marks as bad the heaps with blocks in use and more allocations than the limit,
    moves no block and loses none, and keeps the limit between 128 and 8192. *)
Lemma collection_maintenance_correct c Ls st : coll_ok c Ls ->
  exists c' st', collection_maintenance c st = Ret (c', st') /\ coll_ok c' Ls /\
    mmaps c' = zip_with (maintained (allocation_limit c)) (mmaps c) Ls /\
    blocks (mmaps c') Ls = blocks (mmaps c) Ls /\
    (allocation_limit c' = allocation_limit c \/ 128 <= allocation_limit c' <= 8192).
Proof.
  intros Hc. destruct (collection_maintenance_cases c Ls st Hc)
    as (c' & st' & H1 & H2 & H3 & H4 & H5 & _). by exists c', st'.
Qed.

End MmapCollection.
