(* ===== verification/MmapChannel.v ===== *)
(** Channels in shared memory, lib/mmap_channel.c, with the mutexes of
    util/posix.c: a ring of blocks between one process that writes and one that
    reads.

    The operations are programs of a process ([proc]): trees of atomic actions on
    the channel, between which the other process may run.  What is done under the
    lock of the index is one action, everything else that is shared one action per
    access of the code; what remains of the lock of the index is whether a holder of it
    died.  Small messages are kept in a collection of heaps, seen through the class
    [SharedHeap]; large ones in segments of System V shared memory, whose system
    calls are modelled after their documentation: each of them may fail, as
    [system] says. *)
From S2P Require Import Prelude.
From stdpp Require Import gmap list.
Open Scope Z_scope.

Module MmapChannel.

Definition RRR_MMAP_CHANNEL_SLOTS : Z := 1024.
Definition RRR_MMAP_CHANNEL_MMAP_SIZE : Z := 1 * 1024 * 1024.
Definition RRR_MMAP_CHANNEL_OK : Z := RRR_READ_OK.
Definition RRR_MMAP_CHANNEL_FULL : Z := RRR_READ_SOFT_ERROR.
Definition RRR_MMAP_CHANNEL_EMPTY : Z := RRR_READ_SOFT_ERROR.
Definition RRR_MMAP_CHANNEL_SHM_LIMIT : Z := 8192.
Definition RRR_MMAP_CHANNEL_SHM_MIN_REUSE_SIZE : Z := 4096.
Definition RRR_MMAP_CHANNEL_MAX_PERSISTENT_SIZE : Z := RRR_MMAP_CHANNEL_SHM_LIMIT + 1024.

Definition RRR_READ_BUSY : Z := 4.
Definition RRR_POSIX_MUTEX_ROBUST_OK : Z := RRR_READ_OK.
Definition RRR_POSIX_MUTEX_ROBUST_BUSY : Z := RRR_READ_BUSY.
Definition RRR_POSIX_MUTEX_ROBUST_ERROR : Z := RRR_READ_HARD_ERROR.

(** * Mutexes *)

Inductive process := Writer | Reader.
#[export] Instance process_eq_dec : EqDecision process.
Proof. solve_decision. Defined.

Inductive mutex := Unlocked | Locked (p : process) | OwnerDied.

(** A mutex whose owner has died is made consistent and stays locked. *)
Definition rrr_posix_mutex_robust_trylock (p : process) (m : mutex) : Z * mutex :=
  match m with
  | Unlocked => (RRR_POSIX_MUTEX_ROBUST_OK, Locked p)
  | Locked _ => (RRR_POSIX_MUTEX_ROBUST_BUSY, m)
  | OwnerDied => (RRR_POSIX_MUTEX_ROBUST_ERROR, Locked p)
  end.

(** * Memory *)

(** [Invalid] is what [shmat] returns when it fails. *)
Inductive pointer := Null | Invalid | InSegment (shmid : Z) | InHeap (p : Z).
#[export] Instance pointer_eq_dec : EqDecision pointer.
Proof. solve_decision. Defined.

(** A segment is destroyed when it has been removed and nobody is attached. *)
Record segment := mk_segment {
  shm_nattch : Z;
  shm_removed : bool;
  shm_bytes : list Z
}.

(** A heap that both processes use.  [heap_ok n h R] says that after [n] calls
    the blocks [R], with their address in the process that allocated them, their
    size and their two handles, are in use in [h]; there is a limit to the number
    of calls.  [heap_cut_short bytes h] says that there is no memory for a request of
    [bytes] in [h], and that the report about it leaves the memory of the heaps. *)
Class SharedHeap (H : Type) := {
  rrr_mmap_collection_allocate_with_handles : Z -> Z -> H -> outcome (option (Z * (Z * Z)) * H);
  rrr_mmap_collection_free : Z -> H -> outcome (Z * H);
  rrr_mmap_collection_resolve : Z * Z -> H -> outcome Z;
  rrr_mmap_collection_maintenance : H -> outcome H;
  heap_limit : Z;
  heap_ok : Z -> H -> list (Z * Z * (Z * Z)) -> Prop;
  heap_cut_short : Z -> H -> Prop;
  heap_perm n h R R' : heap_ok n h R -> R ≡ₚ R' -> heap_ok n h R';
  heap_distinct n h R : n < heap_limit -> heap_ok n h R -> NoDup ((fun x => x.1.1) <$> R);
  heap_resolves n h R p bytes hd : heap_ok n h R -> (p, bytes, hd) ∈ R ->
    rrr_mmap_collection_resolve hd h = Ret p;
  heap_allocates n h R bytes : n < heap_limit -> heap_ok n h R ->
    0 < bytes <= RRR_MMAP_CHANNEL_SHM_LIMIT ->
    (heap_cut_short bytes h /\
     rrr_mmap_collection_allocate_with_handles bytes RRR_MMAP_CHANNEL_MMAP_SIZE h = Oob) \/
    exists a h', rrr_mmap_collection_allocate_with_handles bytes RRR_MMAP_CHANNEL_MMAP_SIZE h
      = Ret (a, h') /\
    match a with
    | Some (p, hd) => heap_ok (n + 1) h' ((p, bytes, hd) :: R)
    | None => heap_ok (n + 1) h' R
    end;
  heap_frees n h R p bytes hd : n < heap_limit -> heap_ok n h ((p, bytes, hd) :: R) ->
    exists h', rrr_mmap_collection_free p h = Ret (0, h') /\ heap_ok (n + 1) h' R;
  heap_maintains n h R : n < heap_limit -> heap_ok n h R ->
    exists h', rrr_mmap_collection_maintenance h = Ret h' /\ heap_ok (n + 1) h' R
}.

(** * State *)

(** The two handles of a block are one field. *)
Record rrr_mmap_channel_block := mk_block {
  block_lock : mutex;
  size_capacity : Z;
  size_data : Z;
  shmid : Z;
  ptr_shm_or_mmap_writer : pointer;
  block_cleanup_needed : bool;
  handles : Z * Z
}.

Definition zero_block : rrr_mmap_channel_block := mk_block Unlocked 0 0 0 Null false (0, 0).

Definition set_lock (m : mutex) (b : rrr_mmap_channel_block) :=
  mk_block m (size_capacity b) (size_data b) (shmid b) (ptr_shm_or_mmap_writer b)
    (block_cleanup_needed b) (handles b).
Definition set_data (cleanup : bool) (size : Z) (b : rrr_mmap_channel_block) :=
  mk_block (block_lock b) (size_capacity b) size (shmid b) (ptr_shm_or_mmap_writer b)
    cleanup (handles b).
(** Capacity, segment, pointer and handles. *)
Definition set_place (capacity id : Z) (p : pointer) (hd : Z * Z) (b : rrr_mmap_channel_block) :=
  mk_block (block_lock b) capacity (size_data b) id p (block_cleanup_needed b) hd.

Record rrr_mmap_channel (H : Type) := mk_channel {
  index_owner_died : bool;
  mmaps : H;
  entry_count : Z;
  wpos : Z;
  rpos : Z;
  blocks : list rrr_mmap_channel_block;
  cleanup_needed : bool;
  name : list Z;
  write_full_counter : Z;
  (** The segments of the system, what the blocks of the heaps hold, and the
      number of calls of the system and of the heaps made. *)
  segments : gmap Z segment;
  heap_bytes : gmap Z (list Z);
  calls : nat
}.
Arguments mk_channel {H}.
Arguments index_owner_died {H}.
Arguments mmaps {H}.
Arguments entry_count {H}.
Arguments wpos {H}.
Arguments rpos {H}.
Arguments blocks {H}.
Arguments cleanup_needed {H}.
Arguments name {H}.
Arguments write_full_counter {H}.
Arguments segments {H}.
Arguments heap_bytes {H}.
Arguments calls {H}.

Section channel.
Context {H : Type} `{SharedHeap H}.
Abbreviation channel := (rrr_mmap_channel H).

Definition set_index_died (d : bool) (c : channel) : channel :=
  mk_channel d (mmaps c) (entry_count c) (wpos c) (rpos c) (blocks c) (cleanup_needed c) (name c)
    (write_full_counter c) (segments c) (heap_bytes c) (calls c).
Definition set_index (n w r : Z) (cleanup : bool) (full : Z) (c : channel) : channel :=
  mk_channel (index_owner_died c) (mmaps c) n w r (blocks c) cleanup (name c) full
    (segments c) (heap_bytes c) (calls c).
Definition set_blocks (bs : list rrr_mmap_channel_block) (c : channel) : channel :=
  mk_channel (index_owner_died c) (mmaps c) (entry_count c) (wpos c) (rpos c) bs (cleanup_needed c)
    (name c) (write_full_counter c) (segments c) (heap_bytes c) (calls c).
Definition set_memory (h : H) (segs : gmap Z segment) (hb : gmap Z (list Z)) (n : nat) (c : channel)
  : channel :=
  mk_channel (index_owner_died c) h (entry_count c) (wpos c) (rpos c) (blocks c) (cleanup_needed c)
    (name c) (write_full_counter c) segs hb n.

(** * Programs of a process *)

Inductive proc (A : Type) : Type :=
| Done (a : A)
| Step {B : Type} (action : channel -> outcome (B * channel)) (k : B -> proc A).
Arguments Done {A} a.
Arguments Step {A B} action k.

Fixpoint proc_bind {A B} (p : proc A) (f : A -> proc B) : proc B :=
  match p with
  | Done a => f a
  | Step action k => Step action (fun b => proc_bind (k b) f)
  end.

(** A process that runs alone. *)
Fixpoint run {A} (p : proc A) (c : channel) : outcome (A * channel) :=
  match p with
  | Done a => Ret (a, c)
  | Step action k => '(b, c) ← action c; run (k b) c
  end.

End channel.
Arguments Done {H A} a.
Arguments Step {H A B} action k.

Notation "x ⇐ p ; k" := (proc_bind p (fun x => k))
  (at level 20, p at level 100, k at level 200, only parsing).
Notation "' x ⇐ p ; k" := (proc_bind p (fun x => k))
  (at level 20, x pattern, p at level 100, k at level 200, only parsing).

Section operations.
Context {H : Type} `{SharedHeap H}.
Abbreviation channel := (rrr_mmap_channel H).
Abbreviation block := rrr_mmap_channel_block.

(** * System calls *)

Inductive syscall := SHMAT | SHMDT | IPC_STAT | IPC_RMID.

(** Whether a call succeeds, given the number of calls before it; the loop over
    [shmget] with random keys, which ends with the id of a new segment or an
    error; and what the memory at an address held before. *)
Context (system : syscall -> nat -> bool).
Context (shmget : gmap Z segment -> Z -> option Z).
Context (old : Z -> Z).

Definition count_call (c : channel) : channel :=
  set_memory (mmaps c) (segments c) (heap_bytes c) (S (calls c)) c.
Definition set_segments (segs : gmap Z segment) (c : channel) : channel :=
  set_memory (mmaps c) segs (heap_bytes c) (calls c) c.
Definition set_heap (h : H) (hb : gmap Z (list Z)) (c : channel) : channel :=
  set_memory h (segments c) hb (calls c) c.

Definition put_segment (id : Z) (s : segment) (segs : gmap Z segment) : gmap Z segment :=
  if shm_removed s && (shm_nattch s =? 0) then delete id segs else <[id := s]> segs.

Definition shmat (id : Z) (c : channel) : pointer * channel :=
  match segments c !! id with
  | Some s =>
    if system SHMAT (calls c) then
      (InSegment id, count_call (set_segments
        (<[id := mk_segment (shm_nattch s + 1) (shm_removed s) (shm_bytes s)]> (segments c)) c))
    else (Invalid, count_call c)
  | None => (Invalid, count_call c)
  end.

Definition shmdt (p : pointer) (c : channel) : Z * channel :=
  match p with
  | InSegment id =>
    match segments c !! id with
    | Some s =>
      if system SHMDT (calls c) then
        (0, count_call (set_segments
          (put_segment id (mk_segment (shm_nattch s - 1) (shm_removed s) (shm_bytes s)) (segments c)) c))
      else (-1, count_call c)
    | None => (-1, count_call c)
    end
  | _ => (-1, count_call c)
  end.

Definition shmctl_IPC_RMID (id : Z) (c : channel) : Z * channel :=
  match segments c !! id with
  | Some s =>
    if system IPC_RMID (calls c) then
      (0, count_call (set_segments
        (put_segment id (mk_segment (shm_nattch s) true (shm_bytes s)) (segments c)) c))
    else (-1, count_call c)
  | None => (-1, count_call c)
  end.

(** Result and the number of processes attached. *)
Definition shmctl_IPC_STAT (id : Z) (c : channel) : Z * Z * channel :=
  match segments c !! id with
  | Some s => if system IPC_STAT (calls c) then (0, shm_nattch s, count_call c) else (-1, 0, count_call c)
  | None => (-1, 0, count_call c)
  end.

(** The object behind a pointer. *)
Definition object (p : pointer) (c : channel) : option (list Z) :=
  match p with
  | InSegment id => shm_bytes <$> segments c !! id
  | InHeap p => heap_bytes c !! p
  | Null | Invalid => None
  end.

Definition load (p : pointer) (n : Z) (c : channel) : outcome (list Z) :=
  match object p c with
  | Some l => if Z.of_nat (length l) <? n then Oob else Ret (take (Z.to_nat n) l)
  | None => Oob
  end.

Definition store (p : pointer) (bs : list Z) (c : channel) : outcome channel :=
  match object p c with
  | Some l =>
    if (length l <? length bs)%nat then Oob else
    let l := splice 0 bs l in
    match p with
    | InSegment id =>
      match segments c !! id with
      | Some s => Ret (set_segments
          (<[id := mk_segment (shm_nattch s) (shm_removed s) l]> (segments c)) c)
      | None => Oob
      end
    | InHeap p => Ret (set_heap (mmaps c) (<[p := l]> (heap_bytes c)) c)
    | Null | Invalid => Oob
    end
  | None => match bs with [] => Ret c | _ => Oob end
  end.

(** * Blocks *)

(** Status, the block and the channel. *)
Definition rrr_mmap_channel_block_free (b : block) (c : channel) : outcome (Z * block * channel) :=
  let freed c := Ret (0, set_data (block_cleanup_needed b) 0 (set_place 0 0 Null (0, 0) b), c) in
  if negb (shmid b =? 0) then
    if decide (ptr_shm_or_mmap_writer b = Null) then
      let '(ret, nattch, c) := shmctl_IPC_STAT (shmid b) c in
      if negb (ret =? shmid b) then freed c
      else if 0 <? nattch then Bug else
      let '(ret, c) := shmctl_IPC_RMID (shmid b) c in
      if negb (ret =? 0) then Ret (1, b, c) else freed c
    else
      let '(ret, c) := shmdt (ptr_shm_or_mmap_writer b) c in
      if negb (ret =? 0) then Ret (1, b, c) else freed c
  else match ptr_shm_or_mmap_writer b with
  | Null => freed c
  | InHeap p =>
    '(ret, h) ← rrr_mmap_collection_free p (mmaps c);
    if negb (ret =? 0) then Bug else freed (count_call (set_heap h (delete p (heap_bytes c)) c))
  | Invalid | InSegment _ => Bug
  end.

Definition rrr_mmap_channel_allocate (b : block) (data_size : Z) (c : channel)
  : outcome (Z * block * channel) :=
  let reuse :=
    if negb (shmid b =? 0) && negb (bool_decide (ptr_shm_or_mmap_writer b = Null))
    then (RRR_MMAP_CHANNEL_SHM_MIN_REUSE_SIZE <=? data_size) && (data_size <=? size_capacity b)
    else data_size <=? size_capacity b in
  if reuse then Ret (0, b, c) else
  '(ret, b, c) ← rrr_mmap_channel_block_free b c;
  if negb (ret =? 0) then Ret (ret, b, c) else
  if RRR_MMAP_CHANNEL_SHM_LIMIT <? data_size then
    let data_size := u64 (data_size - data_size mod RRR_MMAP_CHANNEL_SHM_MIN_REUSE_SIZE
                          + RRR_MMAP_CHANNEL_SHM_MIN_REUSE_SIZE) in
    match shmget (segments c) data_size with
    | None => Ret (1, b, c)
    | Some id =>
      let c := set_segments (<[id := mk_segment 0 false (replicate (Z.to_nat data_size) 0)]>
                               (segments c)) c in
      let '(p, c) := shmat id c in
      let b := set_place data_size id p (handles b) b in
      if decide (p = Null) then Ret (1, b, c) else
      let '(ret, c) := shmctl_IPC_RMID id c in
      if negb (ret =? 0) then Ret (1, b, c) else Ret (0, b, c)
    end
  else
    '(a, h) ← rrr_mmap_collection_allocate_with_handles data_size RRR_MMAP_CHANNEL_MMAP_SIZE (mmaps c);
    match a with
    | None => Ret (1, b, count_call (set_heap h (heap_bytes c) c))
    | Some (p, hd) =>
      Ret (0, set_place data_size 0 (InHeap p) hd b,
           count_call (set_heap h (<[p := old <$> seqZ p data_size]> (heap_bytes c)) c))
    end.

(** * Actions *)

Definition act {B} (f : channel -> outcome (B * channel)) : proc B := Step f Done.

(** What is done between [INDEX_LOCK] and [INDEX_UNLOCK]; an error of the lock
    otherwise, after which it is free again. *)
Definition with_index {B} (f : channel -> B * channel) : proc (Z + B) :=
  act (fun c =>
    if index_owner_died c then Ret (inl RRR_POSIX_MUTEX_ROBUST_ERROR, set_index_died false c)
    else let '(x, c) := f c in Ret (inr x, c)).

(** An access to block [i]. *)
Definition with_block {B} (i : Z) (f : block -> channel -> outcome (B * block * channel)) : proc B :=
  act (fun c =>
    if i <? 0 then Oob else
    match blocks c !! Z.to_nat i with
    | None => Oob
    | Some b =>
      '(x, b, c) ← f b c;
      Ret (x, set_blocks (<[Z.to_nat i := b]> (blocks c)) c)
    end).

Definition trylock (p : process) (i : Z) : proc Z :=
  with_block i (fun b c =>
    let '(ret, m) := rrr_posix_mutex_robust_trylock p (block_lock b) in Ret (ret, set_lock m b, c)).

Definition unlock (i : Z) : proc unit :=
  with_block i (fun b c => Ret (tt, set_lock Unlocked b, c)).

(** * Writing *)

(** The loop over the last [n] blocks. *)
Fixpoint cleanup_loop (n : nat) : proc Z :=
  match n with
  | O => Done 0
  | S n' =>
    let i := RRR_MMAP_CHANNEL_SLOTS - Z.of_nat n in
    ret ⇐ trylock Writer i;
    if negb (ret =? RRR_POSIX_MUTEX_ROBUST_OK) then
      if negb (ret =? RRR_POSIX_MUTEX_ROBUST_BUSY) then Done ret else cleanup_loop n'
    else
    ret ⇐ with_block i (fun b c =>
      if block_cleanup_needed b then rrr_mmap_channel_block_free (set_data false (size_data b) b) c
      else Ret (0, b, c));
    _ ⇐ unlock i;
    if negb (ret =? 0) then Done ret else cleanup_loop n'
  end.

Definition rrr_mmap_channel_cleanup : proc Z := cleanup_loop (Z.to_nat RRR_MMAP_CHANNEL_SLOTS).

Definition next_pos (pos : Z) : Z :=
  if pos + 1 =? RRR_MMAP_CHANNEL_SLOTS then 0 else pos + 1.

(** The part behind the block lock.  [callback] is the status of the callback and
    the bytes that it writes; [notify] the result of [rrr_event_pass], when there
    is a queue to notify. *)
Definition write_block (notify : option Z) (data_size : Z) (callback : Z * list Z) (i : Z) : proc Z :=
  size ⇐ with_block i (fun b c => Ret (size_data b, b, c));
  if negb (size =? 0) then _ ⇐ unlock i; Done RRR_MMAP_CHANNEL_FULL else
  ret ⇐ with_block i (fun b c => rrr_mmap_channel_allocate b data_size c);
  if negb (ret =? 0) then _ ⇐ unlock i; Done 1 else
  ret ⇐ with_block i (fun b c =>
    c ← store (ptr_shm_or_mmap_writer b) callback.2 c; Ret (callback.1, b, c));
  if negb (ret =? 0) then _ ⇐ unlock i; Done 1 else
  _ ⇐ with_block i (fun b c => Ret (tt, set_data false data_size b, c));
  _ ⇐ unlock i;
  r ⇐ with_index (fun c => (tt, set_index (entry_count c + 1) (next_pos (wpos c)) (rpos c)
                                  (cleanup_needed c) (write_full_counter c) c));
  Done (match r with inl ret => ret | inr _ => default 0 notify end).

Definition rrr_mmap_channel_write_using_callback (notify : option Z) (data_size : Z)
    (callback : Z * list Z) : proc Z :=
  r ⇐ with_index (fun c => ((cleanup_needed c, wpos c),
        set_index (entry_count c) (wpos c) (rpos c) false (write_full_counter c) c));
  match r with
  | inl ret => Done ret
  | inr (cleanup, i) =>
    ret ⇐ (if cleanup : bool then rrr_mmap_channel_cleanup else Done 0);
    if negb (ret =? 0) then Done ret else
    ret ⇐ trylock Writer i;
    if negb (ret =? RRR_POSIX_MUTEX_ROBUST_OK) then
      if ret =? RRR_POSIX_MUTEX_ROBUST_BUSY then
        r ⇐ with_index (fun c => (tt, set_index (entry_count c) (wpos c) (rpos c)
                                        (cleanup_needed c) (u64 (write_full_counter c + 1)) c));
        Done (match r with inl ret => ret | inr _ => RRR_MMAP_CHANNEL_FULL end)
      else Done ret
    else write_block notify data_size callback i
  end.

Definition rrr_mmap_channel_write (notify : option Z) (data : list Z) : proc Z :=
  rrr_mmap_channel_write_using_callback notify (Z.of_nat (length data)) (0, data).

(** * Reading *)

Section reading.
Context {W : Type} (callback : list Z -> W -> Z * W).

Definition call (p : pointer) (size : Z) (w : W) : proc (Z * W) :=
  act (fun c => data ← load p size c; Ret (callback data w, c)).

(** From [out_rpos_increment] on. *)
Definition read_done (i : Z) (do_rpos_increment : bool) (ret : Z) (w : W) : proc (Z * Z * W) :=
  if do_rpos_increment then
    cleanup ⇐ with_block i (fun b c =>
      let cleanup := RRR_MMAP_CHANNEL_MAX_PERSISTENT_SIZE <? size_capacity b in
      Ret (cleanup, set_data cleanup 0 b, c));
    _ ⇐ unlock i;
    r ⇐ with_index (fun c => (tt, set_index (entry_count c - 1) (wpos c) (next_pos (rpos c))
                                    (cleanup_needed c || cleanup) (write_full_counter c) c));
    Done (match r with inl ret => ret | inr _ => 0 end, 1, w)
  else _ ⇐ unlock i; Done (ret, 0, w).

(** Status, [*read_count] and the state of the callback. *)
Definition rrr_mmap_channel_read_with_callback (w : W) : proc (Z * Z * W) :=
  r ⇐ with_index (fun c => ((rpos c, entry_count c), c));
  match r with
  | inl ret => Done (ret, 0, w)
  | inr (i, count) =>
    if count =? 0 then Done (0, 0, w) else
    ret ⇐ trylock Reader i;
    if negb (ret =? RRR_POSIX_MUTEX_ROBUST_OK) then
      Done (if ret =? RRR_POSIX_MUTEX_ROBUST_BUSY then RRR_MMAP_CHANNEL_EMPTY else ret, 0, w)
    else
    b ⇐ with_block i (fun b c => Ret (b, b, c));
    if size_data b =? 0 then _ ⇐ unlock i; Done (RRR_MMAP_CHANNEL_EMPTY, 0, w) else
    if negb (shmid b =? 0) then
      p ⇐ act (fun c => Ret (shmat (shmid b) c));
      if decide (p = Null) then _ ⇐ unlock i; Done (1, 0, w) else
      '(ret, w) ⇐ call p (size_data b) w;
      d ⇐ act (fun c => Ret (shmdt p c));
      read_done i (ret =? 0) (if negb (ret =? 0) || negb (d =? 0) then 1 else 0) w
    else
      p ⇐ act (fun c => p ← rrr_mmap_collection_resolve (handles b) (mmaps c); Ret (InHeap p, c));
      '(ret, w) ⇐ call p (size_data b) w;
      read_done i (ret =? 0) (if negb (ret =? 0) then 1 else 0) w
  end.

End reading.

(** * The rest *)

Definition rrr_mmap_channel_count : proc (Z * Z) :=
  r ⇐ with_index (fun c => (entry_count c, c));
  Done (match r with inl ret => (ret, 0) | inr n => (0, n) end).

(** The loop, which does not look at the result of freeing a block. *)
Fixpoint free_blocks_loop (done todo : list block) (c : channel) : outcome (list block * channel) :=
  match todo with
  | [] => Ret (done, c)
  | b :: todo =>
    '(_, b, c) ← rrr_mmap_channel_block_free b c;
    free_blocks_loop (done ++ [b]) todo c
  end.

(** One action: it is used when the other process is gone. *)
Definition rrr_mmap_channel_writer_free_blocks : proc unit :=
  act (fun c =>
    if index_owner_died c then Bug else
    '(bs, c) ← free_blocks_loop [] (blocks c) c;
    Ret (tt, set_index (entry_count c) 0 0 (cleanup_needed c) (write_full_counter c) (set_blocks bs c))).

Definition rrr_mmap_channel_maintenance : proc unit :=
  act (fun c => h ← rrr_mmap_collection_maintenance (mmaps c); Ret (tt, count_call (set_heap h (heap_bytes c) c))).

(** Without the failures of the mutexes. *)
Definition rrr_mmap_channel_new (h : H) (n : list Z) : channel :=
  mk_channel false h 0 0 0 (replicate (Z.to_nat RRR_MMAP_CHANNEL_SLOTS) zero_block) false
    (take 63 n) 0 ∅ ∅ 0.

(** The two counters. *)
Definition rrr_mmap_channel_get_counters_and_reset : proc (Z * Z) :=
  act (fun c =>
    if index_owner_died c then Bug else
    Ret ((u64 (entry_count c), write_full_counter c),
         set_index (entry_count c) (wpos c) (rpos c) (cleanup_needed c) 0 c)).

End operations.
End MmapChannel.
