(* ===== verification/MmapChannelCorrect.v ===== *)
(** Channels in shared memory are queues: whatever the order in which the actions
    of the two processes are done, the reader is given the messages of the writer,
    each once, whole and in order, and neither process leaves the memory of the
    channel or stops, with two exceptions that the theorems state: messages of more than
    8192 bytes where [shmat] fails, and the report of the heaps about memory that is not
    there.

    The proof keeps what a process knows in a ghost state of its own, which the
    other process never changes, and one invariant over the channel and both ghost
    states ([inv]); [wp] steps through the program of a process while the other
    may do anything that keeps the invariant. *)
From S2P Require Import Prelude.
From S2P Require Import Mmap.
From S2P Require Import MmapCollection.
From S2P Require Import MmapChannel.
From stdpp Require Import gmap list.
Import MmapChannel.
Open Scope Z_scope.

Module MmapChannelCorrect.

Section memory.
Context {H : Type} `{SharedHeap H}.
Abbreviation channel := (rrr_mmap_channel H).
Abbreviation block := rrr_mmap_channel_block.
Context (system : syscall -> nat -> bool) (shmget : gmap Z segment -> Z -> option Z) (old : Z -> Z).
Context (shmget_new : forall segs size id, shmget segs size = Some id -> 0 < id /\ segs !! id = None).

(** Segments can always be attached. *)
Definition attaches : Prop := forall n, system SHMAT n = true.

(** * Memory *)

Definition block_place (b : block) : option (Z * Z * (Z * Z)) :=
  match ptr_shm_or_mmap_writer b with
  | InHeap p => Some (p, size_capacity b, handles b)
  | _ => None
  end.

Definition block_segment (b : block) : option Z :=
  match ptr_shm_or_mmap_writer b with InSegment id => Some id | _ => None end.

Definition block_ok (c : channel) (b : block) : Prop :=
  0 <= size_data b <= size_capacity b /\
  (block_cleanup_needed b = true -> size_data b = 0) /\
  match ptr_shm_or_mmap_writer b with
  | Null => shmid b = 0 /\ size_capacity b = 0
  | Invalid => False
  | InHeap p => shmid b = 0 /\
    exists l, heap_bytes c !! p = Some l /\ Z.of_nat (length l) = size_capacity b
  | InSegment id => shmid b = id /\ (0 < id /\ attaches) /\
    exists s, segments c !! id = Some s /\ 1 <= shm_nattch s /\
      Z.of_nat (length (shm_bytes s)) = size_capacity b
  end.

(** The memory of the blocks, in whatever order. *)
Definition memory_ok (n : Z) (c : channel) (bs : list block) : Prop :=
  Forall (block_ok c) bs /\ heap_ok n (mmaps c) (omap block_place bs) /\
  NoDup (omap block_segment bs).

(** What a pointer refers to is the same in two states. *)
Definition same_place (c c' : channel) (p : pointer) : Prop :=
  match p with
  | InHeap p => heap_bytes c' !! p = heap_bytes c !! p
  | InSegment id => segments c' !! id = segments c !! id
  | Null | Invalid => True
  end.

Definition frame (c c' : channel) (bs : list block) : Prop :=
  Forall (fun b => same_place c c' (ptr_shm_or_mmap_writer b)) bs.

(** Only the memory is another. *)
Definition same_ring (c c' : channel) : Prop :=
  index_owner_died c' = index_owner_died c /\ entry_count c' = entry_count c /\ wpos c' = wpos c /\
  rpos c' = rpos c /\ blocks c' = blocks c /\ (calls c <= calls c')%nat.

Lemma memory_perm n c bs bs' : memory_ok n c bs -> bs ≡ₚ bs' -> memory_ok n c bs'.
Proof.
  intros (Hb & Hh & Hs) HP. split; [by rewrite <-HP|]. split; [|by rewrite <-HP].
  eapply heap_perm; [exact Hh|]. by rewrite HP.
Qed.

Lemma block_ok_same c c' b : same_place c c' (ptr_shm_or_mmap_writer b) -> block_ok c b -> block_ok c' b.
Proof.
  intros Hs (Hsize & Hcl & Hp). split; [done|]. split; [done|].
  destruct (ptr_shm_or_mmap_writer b); simpl in *; rewrite ?Hs; done.
Qed.

Lemma blocks_ok_frame c c' bs : frame c c' bs -> Forall (block_ok c) bs -> Forall (block_ok c') bs.
Proof.
  intros Hf Hb. apply Forall_forall. intros b Hin.
  eapply block_ok_same; [|by eapply (proj1 (Forall_forall _ _)); [exact Hb|]].
  by eapply (proj1 (Forall_forall _ _)) in Hf.
Qed.

Lemma frame_refl c bs : frame c c bs.
Proof. apply Forall_forall. intros b _. unfold same_place. by destruct (ptr_shm_or_mmap_writer b). Qed.

Lemma frame_trans c1 c2 c3 bs : frame c1 c2 bs -> frame c2 c3 bs -> frame c1 c3 bs.
Proof.
  unfold frame. rewrite !Forall_forall. intros H1 H2 b Hb. specialize (H1 b Hb). specialize (H2 b Hb).
  unfold same_place in *. destruct (ptr_shm_or_mmap_writer b); congruence.
Qed.

Lemma frame_calls c c' bs :
  segments c' = segments c -> heap_bytes c' = heap_bytes c -> frame c c' bs.
Proof.
  intros Hs Hh. apply Forall_forall. intros b _. unfold same_place.
  destruct (ptr_shm_or_mmap_writer b); by rewrite ?Hs, ?Hh.
Qed.

Lemma frame_segment c c' b rest id :
  ptr_shm_or_mmap_writer b = InSegment id -> NoDup (omap block_segment (b :: rest)) ->
  (forall id', id' <> id -> segments c' !! id' = segments c !! id') -> heap_bytes c' = heap_bytes c ->
  frame c c' rest.
Proof.
  intros Hp Hnd Hs Hh. cbn in Hnd. unfold block_segment at 1 in Hnd. rewrite Hp in Hnd.
  apply NoDup_cons in Hnd as [Hnd _]. apply Forall_forall. intros b' Hb'. unfold same_place.
  destruct (ptr_shm_or_mmap_writer b') as [| |id'|p] eqn:Hp'; [done..| |by rewrite Hh].
  apply Hs. intros ->. apply Hnd, list_elem_of_omap. exists b'. split; [done|].
  unfold block_segment. by rewrite Hp'.
Qed.

Lemma frame_heap n c c' b rest p :
  ptr_shm_or_mmap_writer b = InHeap p -> n < heap_limit ->
  heap_ok n (mmaps c) (omap block_place (b :: rest)) ->
  (forall q, q <> p -> heap_bytes c' !! q = heap_bytes c !! q) -> segments c' = segments c ->
  frame c c' rest.
Proof.
  intros Hp Hn Hok Hh Hs. apply heap_distinct in Hok; [|done]. cbn in Hok.
  unfold block_place at 1 in Hok. rewrite Hp in Hok. cbn in Hok.
  apply NoDup_cons in Hok as [Hok _]. apply Forall_forall. intros b' Hb'. unfold same_place.
  destruct (ptr_shm_or_mmap_writer b') as [| |id'|q] eqn:Hp'; [done..|by rewrite Hs|].
  apply Hh. intros ->. apply Hok, list_elem_of_fmap.
  exists (p, size_capacity b', handles b'). split; [done|]. apply list_elem_of_omap. exists b'.
  split; [done|]. unfold block_place. by rewrite Hp'.
Qed.

(** What an operation on the memory of one block does to the rest. *)
Definition memory_step (n : Z) (c : channel) (rest : list block) (most : nat) (b' : block) (c' : channel)
  : Prop :=
  exists n', n <= n' /\ n' + Z.of_nat (calls c) <= n + Z.of_nat (calls c') /\
    memory_ok n' c' (b' :: rest) /\ frame c c' rest /\ same_ring c c' /\ (calls c' <= calls c + most)%nat.

Definition cleared (b : block) : block :=
  set_data (block_cleanup_needed b) 0 (set_place 0 0 Null (0, 0) b).

Lemma cleared_ok n c b rest :
  memory_ok n c rest -> memory_ok n c (cleared b :: rest).
Proof.
  intros (Hb & Hh & Hs). split; [|split]; [|done..].
  constructor; [|done]. split; [simpl; lia|]. by split.
Qed.

Lemma memory_tail n c b rest :
  memory_ok n c (b :: rest) -> block_place b = None -> memory_ok n c rest.
Proof.
  intros (Hb & Hh & Hs) Hp. apply Forall_cons in Hb as [_ Hb]. cbn in Hh, Hs. rewrite Hp in Hh.
  split; [done|]. split; [done|]. destruct (block_segment b); [|done]. by apply NoDup_cons in Hs as [_ Hs].
Qed.

Lemma memory_frame n c c' rest :
  memory_ok n c rest -> frame c c' rest -> mmaps c' = mmaps c -> memory_ok n c' rest.
Proof.
  intros (Hb & Hh & Hs) Hf Hm. split; [by eapply blocks_ok_frame|]. by rewrite Hm.
Qed.

Lemma put_segment_other id s segs id' : id' <> id -> put_segment id s segs !! id' = segs !! id'.
Proof.
  intros Hne. unfold put_segment.
  destruct (_ && _); [by apply lookup_delete_ne|by apply lookup_insert_ne].
Qed.

(** The heaps, with at most one block less. *)
Definition freed_from (c : channel) (h : H) : Prop :=
  h = mmaps c \/ exists p, rrr_mmap_collection_free p (mmaps c) = Ret (0, h).

(** There is no memory for [size] bytes once the block is freed, and the report about it
    leaves the memory of the heaps. *)
Definition unanswered (size : Z) (c : channel) : Prop :=
  0 < size <= RRR_MMAP_CHANNEL_SHM_LIMIT /\ exists h, freed_from c h /\ heap_cut_short size h.

Lemma block_free_ok n c b rest :
  memory_ok n c (b :: rest) -> size_data b = 0 -> n < heap_limit ->
  exists ret b' c', rrr_mmap_channel_block_free system b c = Ret (ret, b', c') /\
    memory_step n c rest 1 b' c' /\ (ret = 0 /\ b' = cleared b \/ ret = 1 /\ b' = b) /\
    freed_from c (mmaps c').
Proof.
  intros Hm Hsize Hn. pose proof Hm as (Hb & Hh & Hs). apply Forall_cons in Hb as [Hb Hrest].
  destruct Hb as (_ & _ & Hp). unfold rrr_mmap_channel_block_free.
  destruct (ptr_shm_or_mmap_writer b) as [| |id|p] eqn:Ep.
  - destruct Hp as [-> _]. cbn [negb Z.eqb]. eexists _, _, _. split; [done|]. split; [|split; [by left|by left]].
    exists n. split; [lia|]. split; [lia|]. split; [apply cleared_ok; eapply memory_tail; [exact Hm|]|].
    { unfold block_place. by rewrite Ep. }
    split; [apply frame_refl|]. split; [|lia]. by repeat split.
  - done.
  - destruct Hp as (Hid & Hpos & s & Hseg & Hatt & Hlen). rewrite Hid.
    rewrite (proj2 (Z.eqb_neq id 0)) by lia. cbn [negb]. rewrite decide_False by done.
    unfold shmdt. rewrite Hseg.
    assert (block_place b = None) as Hbp by (unfold block_place; by rewrite Ep).
    destruct (system SHMDT (calls c)); cbn [Z.eqb negb].
    + eexists _, _, _. split; [done|]. split; [|split; [by left|by left]]. set (c' := count_call _).
      assert (frame c c' rest) as Hf.
      { eapply frame_segment; [exact Ep|exact Hs| |done]. intros id' Hne. by apply put_segment_other. }
      exists n. split; [lia|]. split; [simpl; lia|].
      split; [apply cleared_ok; eapply memory_frame; [by eapply memory_tail|done..]|].
      split; [done|]. split; [|simpl; lia]. repeat split; simpl; lia.
    + eexists _, _, _. split; [done|]. split; [|split; [by right|by left]]. exists n. split; [lia|].
      split; [simpl; lia|]. split; [eapply memory_frame; [exact Hm|by apply frame_calls|done]|].
      split; [by apply frame_calls|]. split; [|simpl; lia]. repeat split; simpl; lia.
  - destruct Hp as (-> & l & Hl & Hlen). cbn [negb Z.eqb].
    assert (block_place b = Some (p, size_capacity b, handles b)) as Hbp
      by (unfold block_place; by rewrite Ep).
    pose proof Hh as Hh'. cbn in Hh'. rewrite Hbp in Hh'.
    destruct (heap_frees n (mmaps c) _ p _ _ Hn Hh') as (h' & Efree & Hh''). rewrite Efree, bind_ret.
    cbn [negb Z.eqb]. eexists _, _, _. split; [done|]. split; [|split; [by left|right; by exists p]]. set (c' := count_call _).
    assert (frame c c' rest) as Hf.
    { eapply frame_heap; [exact Ep|exact Hn|exact Hh| |done]. intros q Hq. by apply lookup_delete_ne. }
    exists (n + 1). split; [lia|]. split; [simpl; lia|].
    split; [apply cleared_ok; split; [by eapply blocks_ok_frame|split; [done|]]|].
    { cbn in Hs. unfold block_segment at 1 in Hs. by rewrite Ep in Hs. }
    split; [done|]. split; [|simpl; lia]. repeat split; simpl; lia.
Qed.

Lemma memory_stays n c b rest most : memory_ok n c (b :: rest) -> memory_step n c rest most b c.
Proof.
  intros Hm. exists n. split; [lia|]. split; [lia|]. split; [done|]. split; [apply frame_refl|].
  split; [|lia]. by repeat split.
Qed.

Lemma same_ring_trans c1 c2 c3 : same_ring c1 c2 -> same_ring c2 c3 -> same_ring c1 c3.
Proof.
  intros (? & ? & ? & ? & ? & ?) (? & ? & ? & ? & ? & ?). repeat split; try congruence. lia.
Qed.

(** A step [n1], [c1] in between. *)
Lemma memory_then n c rest m1 b1 c1 :
  memory_step n c rest m1 b1 c1 ->
  exists n1, n <= n1 /\ n1 + Z.of_nat (calls c) <= n + Z.of_nat (calls c1) /\
    (calls c1 <= calls c + m1)%nat /\ memory_ok n1 c1 (b1 :: rest) /\
    forall m2 b2 c2, memory_step n1 c1 rest m2 b2 c2 -> memory_step n c rest (m1 + m2) b2 c2.
Proof.
  intros (n1 & Hn1 & Hc1 & Hm1 & Hf1 & Hr1 & Hk1). exists n1. do 4 (split; [done|]).
  intros m2 b2 c2 (n2 & Hn2 & Hc2 & Hm2 & Hf2 & Hr2 & Hk2).
  exists n2. split; [lia|]. split; [lia|]. split; [done|]. split; [by eapply frame_trans|].
  split; [by eapply same_ring_trans|lia].
Qed.

Lemma memory_step_weaken n c rest m m' b c' :
  memory_step n c rest m b c' -> (m <= m')%nat -> memory_step n c rest m' b c'.
Proof. intros (n' & ? & ? & ? & ? & ? & ?) Hle. exists n'. do 5 (split; [done|]). lia. Qed.

(** A new block of a heap. *)
Lemma heap_block_ok n c b rest size p hd h' :
  memory_ok n c (b :: rest) -> size_data b = 0 -> block_place b = None -> block_segment b = None ->
  0 <= size -> n + 1 < heap_limit -> heap_ok (n + 1) h' ((p, size, hd) :: omap block_place rest) ->
  memory_step n c rest 1 (set_place size 0 (InHeap p) hd b)
    (count_call (set_heap h' (<[p := old <$> seqZ p size]> (heap_bytes c)) c)).
Proof.
  intros Hm Hsize Hp Hs Hpos Hn Hh. set (b' := set_place _ _ _ _ b). set (c' := count_call _).
  destruct (memory_tail _ _ _ _ Hm Hp) as (Hrest & _ & Hnd).
  assert (frame c c' rest) as Hf.
  { apply Forall_forall. intros b1 Hb1. unfold same_place.
    destruct (ptr_shm_or_mmap_writer b1) as [| |id|q] eqn:Ep; [done..|]. cbn. apply lookup_insert_ne.
    intros ->. apply heap_distinct in Hh; [|lia]. cbn in Hh. apply NoDup_cons in Hh as [Hh _].
    apply Hh, list_elem_of_fmap. exists (q, size_capacity b1, handles b1). split; [done|].
    apply list_elem_of_omap. exists b1. split; [done|]. unfold block_place. by rewrite Ep. }
  exists (n + 1). split; [lia|]. split; [simpl; lia|]. split; [|split; [done|split; [|simpl; lia]]].
  2: repeat split; simpl; lia.
  split; [|split; [exact Hh|exact Hnd]]. constructor; [|by eapply blocks_ok_frame].
  split; [simpl; lia|]. split; [by intros _|]. split; [done|].
  exists (old <$> seqZ p size). cbn. split; [by apply lookup_insert_eq|].
  rewrite length_fmap, length_seqZ. lia.
Qed.

Lemma segments_of_rest c rest id :
  Forall (block_ok c) rest -> segments c !! id = None -> id ∉ omap block_segment rest.
Proof.
  intros Hrest Hid (b' & Hb' & Hs)%list_elem_of_omap. unfold block_segment in Hs.
  destruct (ptr_shm_or_mmap_writer b') as [| |id'|] eqn:Ep; simplify_eq.
  eapply (proj1 (Forall_forall _ _)) in Hrest; [|exact Hb']. destruct Hrest as (_ & _ & Hrest).
  rewrite Ep in Hrest. destruct Hrest as (_ & _ & s & Hs & _). congruence.
Qed.

(** A new segment. *)
Lemma segment_block_ok n c b rest size id :
  memory_ok n c (b :: rest) -> size_data b = 0 -> block_place b = None -> block_segment b = None ->
  0 <= size -> 0 < id -> attaches -> segments c !! id = None ->
  exists c1 ret c2,
    shmat system id (set_segments (<[id := mk_segment 0 false (replicate (Z.to_nat size) 0)]>
                       (segments c)) c) = (InSegment id, c1) /\
    shmctl_IPC_RMID system id c1 = (ret, c2) /\
    memory_step n c rest 2 (set_place size id (InSegment id) (handles b) b) c2.
Proof.
  intros Hm Hsize Hp Hs Hpos Hid Hworks Hnew. destruct (memory_tail _ _ _ _ Hm Hp) as (Hrest & Hh & Hnd).
  set (c0 := set_segments _ c).
  set (c1 := count_call (set_segments (<[id := mk_segment (0 + 1) false (replicate (Z.to_nat size) 0)]>
    (segments c0)) c0)).
  exists c1, (shmctl_IPC_RMID system id c1).1, (shmctl_IPC_RMID system id c1).2.
  split; [unfold shmat; cbn; by rewrite lookup_insert_eq, Hworks|].
  split; [by destruct (shmctl_IPC_RMID system id c1)|].
  unfold shmctl_IPC_RMID. cbn. rewrite lookup_insert_eq.
  assert (forall c2 s, (forall id', id' <> id -> segments c2 !! id' = segments c !! id') ->
    segments c2 !! id = Some s -> 1 <= shm_nattch s -> shm_bytes s = replicate (Z.to_nat size) 0 ->
    heap_bytes c2 = heap_bytes c -> mmaps c2 = mmaps c -> same_ring c c2 -> (calls c2 <= calls c + 2)%nat ->
    memory_step n c rest 2 (set_place size id (InSegment id) (handles b) b) c2) as Hgo.
  { intros c2 s Ho Hid2 Hatt Hb Hhb Hmm Hr Hcalls.
    assert (frame c c2 rest) as Hf.
    { apply Forall_forall. intros b1 Hb1. unfold same_place.
      destruct (ptr_shm_or_mmap_writer b1) as [| |id'|q] eqn:Ep; [done..| |by rewrite Hhb].
      apply Ho. intros ->. apply (segments_of_rest c rest id Hrest Hnew).
      apply list_elem_of_omap. exists b1. split; [done|]. unfold block_segment. by rewrite Ep. }
    exists n. split; [lia|]. split; [destruct Hr as (_ & _ & _ & _ & _ & ?); lia|].
    split; [|split; [done|split; [done|lia]]].
    split; [|split; [cbn; by rewrite Hmm|]].
    - constructor; [|by eapply blocks_ok_frame]. split; [simpl; lia|]. split; [by intros _|].
      split; [done|]. split; [done|]. exists s. split; [done|]. split; [done|].
      rewrite Hb, length_replicate. simpl. lia.
    - cbn. apply NoDup_cons. split; [|done]. by apply (segments_of_rest c). }
  destruct (system IPC_RMID _); cbn [snd].
  - eapply (Hgo _ (mk_segment 1 true (replicate (Z.to_nat size) 0))); try done;
      [|by apply lookup_insert_eq|repeat split; simpl; lia|simpl; lia].
    intros id' Hne. cbn [segments count_call set_segments set_memory].
    rewrite put_segment_other by done. cbn. by rewrite !lookup_insert_ne.
  - eapply (Hgo _ (mk_segment 1 false (replicate (Z.to_nat size) 0))); try done;
      [|by apply lookup_insert_eq|repeat split; simpl; lia|simpl; lia].
    intros id' Hne. cbn. by rewrite !lookup_insert_ne.
Qed.

Lemma rounded_up size :
  0 < size -> size + 4096 < 2 ^ 64 ->
  size <= u64 (size - size mod RRR_MMAP_CHANNEL_SHM_MIN_REUSE_SIZE + RRR_MMAP_CHANNEL_SHM_MIN_REUSE_SIZE).
Proof.
  intros Hpos Hmax. unfold RRR_MMAP_CHANNEL_SHM_MIN_REUSE_SIZE.
  pose proof (Z.mod_pos_bound size 4096 ltac:(lia)). rewrite wrap_small by lia. lia.
Qed.

(** Messages that are kept in the heaps, or others where segments can always be attached. *)
Definition storable (size : Z) : Prop := size <= RRR_MMAP_CHANNEL_SHM_LIMIT \/ attaches.

(** Either there is room for the data in the block, or there is an error. *)
Lemma allocate_ok n c b rest size :
  memory_ok n c (b :: rest) -> size_data b = 0 -> 0 < size -> size + 4096 < 2 ^ 64 ->
  storable size -> n + 2 < heap_limit ->
  (unanswered size c /\ rrr_mmap_channel_allocate system shmget old b size c = Oob) \/
  exists ret b' c', rrr_mmap_channel_allocate system shmget old b size c = Ret (ret, b', c') /\
    memory_step n c rest 3 b' c' /\ size_data b' = 0 /\ block_lock b' = block_lock b /\
    (ret = 0 -> size <= size_capacity b').
Proof using shmget_new.
  intros Hm Hsize Hpos Hmax Hsto Hn. unfold rrr_mmap_channel_allocate.
  match goal with |- context [if ?r then Ret (0, b, c) else _] => destruct r eqn:Ereuse end.
  { right. eexists _, _, _. split; [done|]. split; [by apply memory_stays|]. split; [done|]. split; [done|].
    intros _. destruct (_ && _) in Ereuse; [apply andb_true_iff in Ereuse as [_ Ereuse]|]; lia. }
  destruct (block_free_ok n c b rest Hm Hsize) as (ret & b1 & c1 & -> & Hstep & Hret & Hfrom); [lia|].
  rewrite bind_ret. assert (size_data b1 = 0 /\ block_lock b1 = block_lock b) as [Hs1 Hl1]
    by (destruct Hret as [[_ ->]|[_ ->]]; done).
  destruct Hret as [[-> ->]|[-> ->]]; cbn [negb Z.eqb].
  2: { right. eexists _, _, _. split; [done|]. split; [|split; [done|split; [done|lia]]].
       destruct Hstep as (n1 & ? & ? & ? & ? & ? & ?). exists n1. do 5 (split; [done|]). lia. }
  destruct (Z.ltb_spec RRR_MMAP_CHANNEL_SHM_LIMIT size) as [Hbig|Hsmall].
  - right. destruct Hsto as [?|Hsto]; [lia|]. set (up := u64 _). pose proof (rounded_up size Hpos Hmax) as Hup. fold up in Hup.
    destruct (shmget (segments c1) up) as [id|] eqn:Eget.
    2: { eexists _, _, _. split; [done|]. split; [by eapply memory_step_weaken; [exact Hstep|lia]|].
         split; [done|]. split; [done|lia]. }
    destruct (shmget_new _ _ _ Eget) as [Hid Hnew].
    destruct (memory_then n c rest 1 (cleared b) c1) as (n1 & _ & _ & _ & Hm1 & Hgo); [exact Hstep|].
    destruct (segment_block_ok n1 c1 (cleared b) rest up id) as (c2 & ret & c3 & -> & E3 & Hst);
      [done..|lia|done|done|done|].
    rewrite decide_False, E3 by done. exists (if ret =? 0 then 0 else 1).
    eexists _, c3. split; [by destruct (ret =? 0)|]. split; [by apply (Hgo 2%nat)|]. by split.
  - destruct (memory_then n c rest 1 (cleared b) c1) as (n1 & ? & ? & ? & Hm1 & Hgo); [exact Hstep|].
    destruct (heap_allocates n1 (mmaps c1) (omap block_place rest) size)
      as [[Hcut ->]|(a & h' & -> & Ha)]; [lia|apply Hm1|done| |].
    { left. split; [|done]. split; [done|]. by exists (mmaps c1). }
    right. rewrite bind_ret. destruct a as [[p hd]|].
    + eexists _, _, _. split; [done|]. split; [|by split].
      eapply memory_step_weaken; [apply (Hgo 1%nat)|lia]. apply heap_block_ok; try done; lia.
    + eexists _, _, _. split; [done|]. split; [|by split].
      eapply memory_step_weaken; [apply (Hgo 1%nat)|lia]. exists (n1 + 1). split; [lia|]. split; [simpl; lia|].
      set (c2 := count_call _). assert (frame c1 c2 (cleared b :: rest)) as Hf by by apply frame_calls.
      split; [|split; [by apply Forall_cons in Hf as [_ Hf]|split; [|simpl; lia]]].
      * destruct Hm1 as (Hb & _ & Hnd). split; [by eapply blocks_ok_frame|]. split; [exact Ha|done].
      * repeat split; simpl; lia.
Qed.

Lemma splice_0 (bs l : list Z) : splice 0 bs l = bs ++ drop (length bs) l.
Proof. done. Qed.

(** Writing to the memory of a block. *)
Lemma store_ok n c b rest bs :
  memory_ok n c (b :: rest) -> n < heap_limit -> bs <> [] -> Z.of_nat (length bs) <= size_capacity b ->
  exists c' l, store (ptr_shm_or_mmap_writer b) bs c = Ret c' /\ memory_step n c rest 0 b c' /\
    object (ptr_shm_or_mmap_writer b) c' = Some l /\ take (length bs) l = bs.
Proof.
  intros Hm Hn Hne Hlen. pose proof Hm as (Hb & Hh & Hs). apply Forall_cons in Hb as [Hb Hrest].
  pose proof Hb as (Hsize & Hcl & Hp). unfold store.
  destruct (ptr_shm_or_mmap_writer b) as [| |id|p] eqn:Ep.
  - destruct bs; [done|]. simpl in Hlen. lia.
  - done.
  - destruct Hp as (Hid & Hpos & s & Hseg & Hatt & Hl). cbn [object]. rewrite Hseg. cbn [fmap option_fmap option_map].
    rewrite (proj2 (Nat.ltb_ge _ _)) by lia.
    set (c' := set_segments _ c). exists c', (splice 0 bs (shm_bytes s)).
    split; [done|]. cbn [object]. subst c'. cbn [segments set_segments set_memory].
    rewrite lookup_insert_eq. split; [|split; [done|by rewrite splice_0, take_app_length]].
    set (c' := set_segments _ c).
    assert (frame c c' rest) as Hf.
    { eapply frame_segment; [exact Ep|exact Hs| |done]. intros id' Hne'. by apply lookup_insert_ne. }
    exists n. split; [lia|]. split; [simpl; lia|]. split; [|split; [done|split; [by repeat split|simpl; lia]]].
    split; [|by split]. constructor; [|by eapply blocks_ok_frame].
    split; [done|]. split; [done|]. rewrite Ep. split; [done|]. split; [done|]. eexists.
    split; [by apply lookup_insert_eq|]. split; [done|]. cbn. rewrite length_splice by lia. done.
  - destruct Hp as (Hid & l & Hl & Hcap). cbn [object]. rewrite Hl.
    rewrite (proj2 (Nat.ltb_ge _ _)) by lia.
    set (c' := set_heap _ _ c). exists c', (splice 0 bs l).
    split; [done|]. subst c'. cbn [object heap_bytes set_heap set_memory].
    rewrite lookup_insert_eq. split; [|split; [done|by rewrite splice_0, take_app_length]].
    set (c' := set_heap _ _ c).
    assert (frame c c' rest) as Hf.
    { eapply frame_heap; [exact Ep|exact Hn|exact Hh| |done]. intros q Hq. by apply lookup_insert_ne. }
    exists n. split; [lia|]. split; [simpl; lia|]. split; [|split; [done|split; [by repeat split|simpl; lia]]].
    split; [|by split]. constructor; [|by eapply blocks_ok_frame].
    split; [done|]. split; [done|]. rewrite Ep. split; [done|]. eexists.
    split; [by apply lookup_insert_eq|]. rewrite length_splice by lia. done.
Qed.

(** Attaching to the segment of a block, and detaching again. *)
Lemma shmat_ok n c b rest id :
  memory_ok n c (b :: rest) -> ptr_shm_or_mmap_writer b = InSegment id ->
  exists c' s, shmat system id c = (InSegment id, c') /\ memory_step n c rest 1 b c' /\
    object (ptr_shm_or_mmap_writer b) c' = object (ptr_shm_or_mmap_writer b) c /\
    segments c' !! id = Some s /\ 2 <= shm_nattch s.
Proof.
  intros Hm Ep. pose proof Hm as (Hb & Hh & Hs). apply Forall_cons in Hb as [Hb Hrest].
  pose proof Hb as (Hsize & Hcl & Hp). rewrite Ep in Hp. destruct Hp as (Hid & Hpos & s & Hseg & Hatt & Hl).
  unfold shmat. rewrite Hseg, (proj2 Hpos). set (c' := count_call _).
  assert (segments c' !! id = Some (mk_segment (shm_nattch s + 1) (shm_removed s) (shm_bytes s))) as Hseg'
    by by apply lookup_insert_eq.
  exists c'. eexists. split; [done|]. rewrite Ep. cbn [object]. rewrite Hseg', Hseg.
  split; [|split; [done|split; [done|simpl; lia]]].
  assert (frame c c' rest) as Hf.
  { eapply frame_segment; [exact Ep|exact Hs| |done]. intros id' Hne'. by apply lookup_insert_ne. }
  exists n. split; [lia|]. split; [simpl; lia|].
  split; [|split; [done|split; [repeat split; simpl; lia|simpl; lia]]].
  split; [|by split]. constructor; [|by eapply blocks_ok_frame].
  split; [done|]. split; [done|]. rewrite Ep. split; [done|]. split; [done|]. eexists.
  split; [exact Hseg'|]. split; [simpl; lia|done].
Qed.

Lemma shmdt_ok n c b rest id s :
  memory_ok n c (b :: rest) -> ptr_shm_or_mmap_writer b = InSegment id ->
  segments c !! id = Some s -> 2 <= shm_nattch s ->
  exists d c', shmdt system (InSegment id) c = (d, c') /\ memory_step n c rest 1 b c' /\
    object (ptr_shm_or_mmap_writer b) c' = object (ptr_shm_or_mmap_writer b) c.
Proof.
  intros Hm Ep Hseg Hatt. pose proof Hm as (Hb & Hh & Hs). apply Forall_cons in Hb as [Hb Hrest].
  pose proof Hb as (Hsize & Hcl & Hp). rewrite Ep in Hp. destruct Hp as (Hid & Hpos & s' & Hseg2 & _ & Hl).
  rewrite Hseg in Hseg2. injection Hseg2 as <-. rewrite Ep. unfold shmdt. rewrite Hseg. destruct (system SHMDT _).
  - set (c' := count_call _). exists 0, c'. split; [done|].
    assert (segments c' !! id = Some (mk_segment (shm_nattch s - 1) (shm_removed s) (shm_bytes s)))
      as Hseg'.
    { cbn. unfold put_segment. cbn. rewrite (proj2 (Z.eqb_neq _ 0)) by lia. rewrite andb_false_r.
      by apply lookup_insert_eq. }
    cbn [object]. rewrite Hseg', Hseg. split; [|done].
    assert (frame c c' rest) as Hf.
    { eapply frame_segment; [exact Ep|exact Hs| |done]. intros id' Hne'. by apply put_segment_other. }
    exists n. split; [lia|]. split; [simpl; lia|].
    split; [|split; [done|split; [repeat split; simpl; lia|simpl; lia]]].
    split; [|by split]. constructor; [|by eapply blocks_ok_frame].
    split; [done|]. split; [done|]. rewrite Ep. split; [done|]. split; [done|]. eexists.
    split; [exact Hseg'|]. split; [simpl; lia|done].
  - exists (-1), (count_call c). split; [done|]. split; [|done]. exists n. split; [lia|].
    split; [simpl; lia|]. split; [eapply memory_frame; [exact Hm|by apply frame_calls|done]|].
    split; [by apply frame_calls|]. split; [|simpl; lia]. repeat split; simpl; lia.
Qed.

(** * The invariant *)

Lemma delete_insert_same {A} (l : list A) i x : delete i (<[i := x]> l) = delete i l.
Proof. revert i. induction l as [|y l IH]; intros [|i]; [done..|]. cbn. f_equal. apply IH. Qed.

Lemma elem_of_delete {A} (l : list A) i j x : l !! j = Some x -> j <> i -> x ∈ delete i l.
Proof.
  revert i j. induction l as [|y l IH]; intros i j Hj Hne; [done|].
  destruct i as [|i], j as [|j]; cbn in Hj |- *; [done| | |].
  - by eapply list_elem_of_lookup_2.
  - injection Hj as ->. by left.
  - right. eapply IH; [done|lia].
Qed.

(** What the writer knows: the messages it has put into the channel, the block
    whose lock it holds with what it has written to the memory of it, and whether
    it still has to move its position. *)
Record wghost := mk_w {
  sent : list (list Z);
  w_held : option (nat * block * option (list Z));
  w_filled : bool
}.

(** What the reader knows: the messages it has taken out of the channel, the block
    whose lock it holds, the segment it is attached to, the message it has just
    been given, whether it still has to move its position, and whether it has seen
    that there is a message. *)
Record rghost := mk_r {
  got : list (list Z);
  r_held : option (nat * block);
  r_at : option Z;
  r_data : option (list Z);
  r_late : bool;
  r_seen : bool
}.

Definition w_index (w : wghost) : option nat := (fun x => x.1.1) <$> w_held w.
Definition r_index (r : rghost) : option nat := fst <$> r_held r.

Definition count (l : list (list Z)) : Z := Z.of_nat (length l).

Definition slot (k : Z) : nat := Z.to_nat (k mod RRR_MMAP_CHANNEL_SLOTS).

Definition written (c : channel) (b : block) (m : list Z) : Prop :=
  exists l, object (ptr_shm_or_mmap_writer b) c = Some l /\ take (length m) l = m.

Definition holds (c : channel) (b : block) (m : list Z) : Prop :=
  size_data b <> 0 /\ size_data b = Z.of_nat (length m) /\ written c b m.

(** The messages [q] are in the slots from [e] on, and the other slots are free. *)
Definition queue_ok (c : channel) (e : Z) (q : list (list Z)) : Prop :=
  (forall k m, q !! k = Some m -> exists b, blocks c !! slot (e + Z.of_nat k) = Some b /\ holds c b m) /\
  (forall k, count q <= k < RRR_MMAP_CHANNEL_SLOTS ->
     exists b, blocks c !! slot (e + k) = Some b /\ size_data b = 0).

Definition ring_ok (c : channel) (w : wghost) (r : rghost) : Prop :=
  let f := count (sent w) - Z.b2z (w_filled w) in
  let e := count (got r) - Z.b2z (r_late r) in
  wpos c = f mod RRR_MMAP_CHANNEL_SLOTS /\ rpos c = e mod RRR_MMAP_CHANNEL_SLOTS /\
  entry_count c = f - e /\ 0 <= e /\ count (got r) + Z.b2z (r_seen r) <= f /\
  count (sent w) <= count (got r) + RRR_MMAP_CHANNEL_SLOTS.

Definition locks_ok (bs : list block) (wi ri : option nat) : Prop :=
  (forall i, wi = Some i -> ri <> Some i) /\
  forall j b, bs !! j = Some b ->
    block_lock b = (if decide (wi = Some j) then Locked Writer
                    else if decide (ri = Some j) then Locked Reader else Unlocked).

Definition know_w (c : channel) (w : wghost) : Prop :=
  forall i b d, w_held w = Some (i, b, d) ->
    blocks c !! i = Some b /\ forall m, d = Some m -> written c b m.

Definition know_r (c : channel) (r : rghost) : Prop :=
  (forall i b, r_held r = Some (i, b) -> blocks c !! i = Some b) /\
  (forall id, r_at r = Some id -> exists i b s, r_held r = Some (i, b) /\
     ptr_shm_or_mmap_writer b = InSegment id /\ segments c !! id = Some s /\ 2 <= shm_nattch s).

Definition know_data (w : wghost) (r : rghost) : Prop :=
  forall d, r_data r = Some d -> exists q, sent w = got r ++ d :: q.

Record inv (c : channel) (w : wghost) (r : rghost) : Prop := {
  inv_alive : index_owner_died c = false;
  inv_length : length (blocks c) = Z.to_nat RRR_MMAP_CHANNEL_SLOTS;
  inv_ring : ring_ok c w r;
  inv_queue : exists q, sent w = got r ++ q /\ queue_ok c (count (got r)) q;
  inv_memory : exists n, n <= Z.of_nat (calls c) /\ memory_ok n c (blocks c);
  inv_locks : locks_ok (blocks c) (w_index w) (r_index r);
  inv_know_w : know_w c w;
  inv_know_r : know_r c r;
  inv_data : know_data w r
}.

Lemma object_at_same c c' p : same_place c c' p -> object p c' = object p c.
Proof. intros Hs. destruct p; cbn in *; by rewrite ?Hs. Qed.

(** The queue does not change when every block has the same data or none. *)
Definition keeps_data (c c' : channel) (b b' : block) : Prop :=
  size_data b = 0 /\ size_data b' = 0 \/
  size_data b' = size_data b /\
  object (ptr_shm_or_mmap_writer b') c' = object (ptr_shm_or_mmap_writer b) c.

Lemma keeps_holds c c' b b' m : keeps_data c c' b b' -> holds c b m -> holds c' b' m.
Proof.
  intros [[H1 H2]|[H1 H2]] (Hne & Hs & Hw); [done|]. unfold holds, written. by rewrite H1, H2.
Qed.

Lemma queue_keeps c c' e q :
  queue_ok c e q ->
  (forall j b, blocks c !! j = Some b -> exists b', blocks c' !! j = Some b' /\ keeps_data c c' b b') ->
  queue_ok c' e q.
Proof.
  intros [Hq Hfree] Hk. split.
  - intros k m Hm. destruct (Hq k m Hm) as (b & Hb & Hh). destruct (Hk _ b Hb) as (b' & Hb' & Hkeep).
    exists b'. split; [done|]. by eapply keeps_holds.
  - intros k Hlt. destruct (Hfree k Hlt) as (b & Hb & Hz). destruct (Hk _ b Hb) as (b' & Hb' & Hkeep).
    exists b'. split; [done|]. destruct Hkeep as [[_ ?]|[? _]]; lia.
Qed.

(** Block [i] becomes [b'] and the memory another, as far as it belongs to it. *)
Definition with_new (i : nat) (b' : block) (c1 : channel) : channel :=
  set_blocks (<[i := b']> (blocks c1)) c1.

Lemma know_w_frame i c b' c1 w :
  know_w c w -> w_index w <> Some i -> frame c c1 (delete i (blocks c)) -> blocks c1 = blocks c ->
  know_w (with_new i b' c1) w.
Proof.
  intros Hw Hi Hf Hb j b d Hj. destruct (Hw j b d Hj) as [Hjb Hd].
  assert (j <> i) as Hne by (intros ->; apply Hi; unfold w_index; by rewrite Hj).
  cbn. rewrite Hb, list_lookup_insert_ne by done. split; [done|].
  intros m Hm. destruct (Hd m Hm) as (l & Hl & Ht). exists l. split; [|done]. rewrite <-Hl.
  change (object (ptr_shm_or_mmap_writer b) (with_new i b' c1))
    with (object (ptr_shm_or_mmap_writer b) c1).
  apply object_at_same. unfold frame in Hf. rewrite Forall_forall in Hf. apply Hf.
  by eapply elem_of_delete.
Qed.

Lemma know_r_frame i c b' c1 r :
  know_r c r -> r_index r <> Some i -> frame c c1 (delete i (blocks c)) -> blocks c1 = blocks c ->
  know_r (with_new i b' c1) r.
Proof.
  intros [Hr Hat] Hi Hf Hb.
  assert (forall j b, r_held r = Some (j, b) -> j <> i) as Hne
    by (intros j b Hj ->; apply Hi; unfold r_index; by rewrite Hj).
  split.
  - intros j b Hj. cbn. rewrite Hb, list_lookup_insert_ne; [by apply Hr|]. by apply not_eq_sym, (Hne j b).
  - intros id Hid. destruct (Hat id Hid) as (j & b & s & Hj & Hp & Hs & Hn).
    exists j, b, s. split; [done|]. split; [done|]. split; [|done]. rewrite <-Hs.
    unfold frame in Hf. rewrite Forall_forall in Hf.
    specialize (Hf b (elem_of_delete _ i j b (Hr j b Hj) (Hne j b Hj))). unfold same_place in Hf.
    by rewrite Hp in Hf.
Qed.

(** A step on block [i] that changes neither what is in the channel nor the
    positions. *)
Lemma inv_block c w r i b b' c1 w' r' most :
  inv c w r -> blocks c !! i = Some b ->
  (forall n, n <= Z.of_nat (calls c) -> memory_ok n c (b :: delete i (blocks c)) ->
     memory_step n c (delete i (blocks c)) most b' c1) ->
  keeps_data c c1 b b' ->
  sent w' = sent w -> w_filled w' = w_filled w ->
  got r' = got r -> r_late r' = r_late r -> r_seen r' = r_seen r ->
  locks_ok (<[i := b']> (blocks c)) (w_index w') (r_index r') ->
  know_w (with_new i b' c1) w' -> know_r (with_new i b' c1) r' -> know_data w' r' ->
  inv (with_new i b' c1) w' r' /\ (calls c1 <= calls c + most)%nat.
Proof.
  intros [Halive Hlen Hring Hqueue Hmem Hlocks Hkw Hkr Hdata] Hb Hstep Hkeep Es Ef Eg El Ee Hlocks' Hkw' Hkr' Hdata'.
  destruct Hmem as (n & Hn & Hm).
  assert (memory_ok n c (b :: delete i (blocks c))) as Hm'
    by (eapply memory_perm; [exact Hm|by apply delete_Permutation]).
  destruct (Hstep n Hn Hm') as (n1 & Hn1 & Hc1 & Hm1 & Hf1 & Hr1 & Hk1).
  destruct Hr1 as (Ra & Rc & Rw & Rr & Rb & Rk). split; [|done].
  split; try done.
  - cbn. congruence.
  - cbn. by rewrite length_insert, Rb.
  - unfold ring_ok in *. cbn. by rewrite Es, Ef, Eg, El, Ee, Rc, Rw, Rr.
  - destruct Hqueue as (q & Hq & Hqok). exists q. rewrite Es, Eg. split; [done|].
    eapply queue_keeps; [exact Hqok|]. intros j bj Hj. cbn. rewrite Rb.
    destruct (decide (j = i)) as [->|Hne].
    + exists b'. rewrite list_lookup_insert_eq by (by eapply lookup_lt_Some). split; [done|].
      rewrite Hb in Hj. by injection Hj as <-.
    + exists bj. rewrite list_lookup_insert_ne by done. split; [done|]. right. split; [done|].
      change (object (ptr_shm_or_mmap_writer bj) c1 = object (ptr_shm_or_mmap_writer bj) c).
      apply object_at_same. unfold frame in Hf1. rewrite Forall_forall in Hf1.
      apply Hf1. by eapply elem_of_delete.
  - exists n1. split; [cbn; lia|]. cbn. rewrite Rb.
    assert (<[i := b']> (blocks c) ≡ₚ b' :: delete i (blocks c)) as HP.
    { rewrite <-(delete_insert_same (blocks c) i b'). apply delete_Permutation.
      apply list_lookup_insert_eq. by eapply lookup_lt_Some. }
    eapply memory_perm; [|symmetry; exact HP]. exact Hm1.
  - cbn. by rewrite Rb.
Qed.

Lemma set_lock_same b m : block_lock b = m -> set_lock m b = b.
Proof. intros <-. by destruct b. Qed.

(** Taking and releasing locks. *)
Lemma locks_insert bs i b wi ri wi' ri' :
  locks_ok bs wi ri -> (forall j, wi' = Some j -> ri' <> Some j) ->
  (forall j, j <> i -> (wi' = Some j <-> wi = Some j) /\ (ri' = Some j <-> ri = Some j)) ->
  block_lock b = (if decide (wi' = Some i) then Locked Writer
                  else if decide (ri' = Some i) then Locked Reader else Unlocked) ->
  locks_ok (<[i := b]> bs) wi' ri'.
Proof.
  intros [_ Hl] Hne Hother Hb. split; [done|]. intros j bj Hj.
  destruct (decide (j = i)) as [->|Hji].
  - rewrite list_lookup_insert_eq in Hj by (eapply lookup_lt_Some in Hj; by rewrite length_insert in Hj).
    by injection Hj as <-.
  - rewrite list_lookup_insert_ne in Hj by done. rewrite (Hl j bj Hj). destruct (Hother j Hji).
    repeat case_decide; tauto.
Qed.

Lemma locks_same bs i b b' wi ri :
  locks_ok bs wi ri -> bs !! i = Some b -> block_lock b' = block_lock b ->
  locks_ok (<[i := b']> bs) wi ri.
Proof.
  intros Hl Hb Hb'. pose proof Hl as [Hne Hlb]. eapply locks_insert; [exact Hl|done|done|].
  rewrite Hb'. by apply Hlb.
Qed.

Lemma locks_apart bs wi ri i : locks_ok bs wi ri -> wi = Some i -> ri = Some i -> False.
Proof. intros [Hne _] Hw Hr. by apply (Hne i). Qed.

Lemma w_index_None w : w_held w = None -> w_index w = None.
Proof. unfold w_index. by intros ->. Qed.

Lemma w_index_Some w i b d : w_held w = Some (i, b, d) -> w_index w = Some i.
Proof. unfold w_index. by intros ->. Qed.

(** The positions in the ring. *)
Lemma slot_inj a b : slot a = slot b -> - RRR_MMAP_CHANNEL_SLOTS < a - b < RRR_MMAP_CHANNEL_SLOTS -> a = b.
Proof.
  unfold slot, RRR_MMAP_CHANNEL_SLOTS. intros Hs Hab.
  pose proof (Z.mod_pos_bound a 1024 ltac:(lia)). pose proof (Z.mod_pos_bound b 1024 ltac:(lia)).
  apply Z2Nat.inj in Hs; [|lia..].
  pose proof (Z.div_mod a 1024 ltac:(lia)). pose proof (Z.div_mod b 1024 ltac:(lia)). lia.
Qed.

Lemma slot_turn a : slot (a + RRR_MMAP_CHANNEL_SLOTS) = slot a.
Proof. unfold slot, RRR_MMAP_CHANNEL_SLOTS. f_equal. rewrite <-(Z.mul_1_l 1024) at 1. apply Z_mod_plus_full. Qed.

Lemma slot_lt a : (slot a < Z.to_nat RRR_MMAP_CHANNEL_SLOTS)%nat.
Proof.
  unfold slot, RRR_MMAP_CHANNEL_SLOTS. pose proof (Z.mod_pos_bound a 1024 ltac:(lia)). lia.
Qed.

Lemma slot_pos a : Z.of_nat (slot a) = a mod RRR_MMAP_CHANNEL_SLOTS.
Proof.
  unfold slot, RRR_MMAP_CHANNEL_SLOTS. pose proof (Z.mod_pos_bound a 1024 ltac:(lia)). lia.
Qed.

Lemma next_pos_mod a : next_pos (a mod RRR_MMAP_CHANNEL_SLOTS) = (a + 1) mod RRR_MMAP_CHANNEL_SLOTS.
Proof.
  unfold next_pos, RRR_MMAP_CHANNEL_SLOTS. pose proof (Z.mod_pos_bound a 1024 ltac:(lia)).
  rewrite <-(Z.add_mod_idemp_l a) by lia. destruct (Z.eqb_spec (a mod 1024 + 1) 1024) as [->|]; [done|].
  by rewrite (Z.mod_small (a mod 1024 + 1)) by lia.
Qed.

Lemma count_app l k : count (l ++ k) = count l + count k.
Proof. unfold count. rewrite length_app. lia. Qed.

(** A step on the index. *)
Lemma inv_index c w r n wp rp cl full w' r' :
  inv c w r -> ring_ok (set_index n wp rp cl full c) w' r' ->
  sent w' = sent w -> w_held w' = w_held w -> got r' = got r -> r_held r' = r_held r ->
  r_at r' = r_at r -> r_data r' = r_data r ->
  inv (set_index n wp rp cl full c) w' r'.
Proof.
  intros [Halive Hlen Hring Hqueue Hmem Hlocks Hkw Hkr Hdata] Hr Es Eh Eg Ehr Ea Ed.
  split; try done.
  - rewrite Es, Eg. exact Hqueue.
  - unfold w_index, r_index. by rewrite Eh, Ehr.
  - unfold know_w. rewrite Eh. exact Hkw.
  - unfold know_r. rewrite Ehr, Ea. exact Hkr.
  - unfold know_data. by rewrite Es, Eg, Ed.
Qed.

Lemma inv_ghost c w r w' r' :
  inv c w r -> ring_ok c w' r' ->
  sent w' = sent w -> w_held w' = w_held w -> got r' = got r -> r_held r' = r_held r ->
  r_at r' = r_at r -> r_data r' = r_data r -> inv c w' r'.
Proof.
  intros HI Hr. replace c with (set_index (entry_count c) (wpos c) (rpos c) (cleanup_needed c)
    (write_full_counter c) c) in Hr |- * by (by destruct c). by apply inv_index.
Qed.

(** Block [i] gets the message that was written to its memory. *)
Lemma inv_fill c w r b data :
  inv c w r -> w_held w = Some (slot (count (sent w)), b, Some data) -> w_filled w = false ->
  size_data b = 0 -> data <> [] -> Z.of_nat (length data) <= size_capacity b ->
  let b' := set_data false (Z.of_nat (length data)) b in
  inv (with_new (slot (count (sent w))) b' c)
    (mk_w (sent w ++ [data]) (Some (slot (count (sent w)), b', None)) true) r.
Proof.
  intros HI Hw Hf Hz Hne Hcap b'. set (i := slot (count (sent w))) in *.
  destruct (inv_know_w _ _ _ HI i b _ Hw) as [Hb Hwr]. specialize (Hwr data eq_refl).
  pose proof (inv_locks _ _ _ HI) as Hlocks. pose proof (w_index_Some _ _ _ _ Hw) as Hwi.
  destruct (inv_queue _ _ _ HI) as (q & Hq & Hqok & Hfree).
  destruct (inv_ring _ _ _ HI) as (Hwp & Hrp & Hec & He & Havail & Hroom).
  rewrite Hf in *. cbn [Z.b2z] in *. rewrite Z.sub_0_r in Hwp.
  assert (count (sent w) = count (got r) + count q) as Hcount by (by rewrite Hq, count_app).
  assert (length data <> 0%nat) as Hlen0 by (by destruct data).
  assert (count q < RRR_MMAP_CHANNEL_SLOTS) as Hlt.
  { destruct (decide (count q < RRR_MMAP_CHANNEL_SLOTS)) as [|Hge]; [done|exfalso].
    destruct (lookup_lt_is_Some_2 q 0) as [m Hm].
    { unfold count, RRR_MMAP_CHANNEL_SLOTS in *. lia. }
    destruct (Hqok 0%nat m Hm) as (b0 & Hb0 & Hh & _).
    assert (slot (count (got r) + Z.of_nat 0) = i) as E.
    { subst i. rewrite Z.add_0_r, <-slot_turn. f_equal. lia. }
    rewrite E, Hb in Hb0. congruence. }
  assert (blocks (with_new i b' c) = <[i := b']> (blocks c)) as Ebs by done.
  assert (i < length (blocks c))%nat as Hilen by (by eapply lookup_lt_Some).
  assert (forall k, 0 <= k < RRR_MMAP_CHANNEL_SLOTS -> k <> count q -> slot (count (got r) + k) <> i)
    as Hother.
  { intros k Hk Hkq E. subst i. apply slot_inj in E; [lia|]. unfold count in *. lia. }
  split; try apply HI.
  - cbn. rewrite length_insert. apply HI.
  - unfold ring_ok. cbn. rewrite count_app. change (count [data]) with 1. rewrite Z.add_simpl_r.
    repeat split; try done; lia.
  - exists (q ++ [data]). split; [cbn; by rewrite Hq, app_assoc|]. split.
    + intros k m [Hm|[Hk Hm]]%lookup_app_Some.
      * destruct (Hqok k m Hm) as (bk & Hbk & Hh). exists bk. rewrite Ebs, list_lookup_insert_ne; [by split|].
        apply lookup_lt_Some in Hm. apply not_eq_sym, Hother; unfold count in *; lia.
      * apply list_lookup_singleton_Some in Hm as [Hk0 <-].
        assert (slot (count (got r) + Z.of_nat k) = i) as -> by (subst i; f_equal; unfold count in *; lia).
        exists b'. rewrite Ebs, list_lookup_insert_eq by done. split; [done|].
        split; [cbn; lia|]. by split.
    + intros k Hk. rewrite count_app in Hk. change (count [data]) with 1 in Hk.
      destruct (Hfree k) as (bk & Hbk & Hzk); [lia|]. exists bk.
      rewrite Ebs, list_lookup_insert_ne; [by split|]. apply not_eq_sym, Hother; unfold count in *; lia.
  - destruct (inv_memory _ _ _ HI) as (n & Hn & Hm). exists n. split; [done|].
    assert (<[i := b']> (blocks c) ≡ₚ b' :: delete i (blocks c)) as HP.
    { rewrite <-(delete_insert_same (blocks c) i b'). apply delete_Permutation.
      by apply list_lookup_insert_eq. }
    eapply memory_perm; [|symmetry; exact HP].
    assert (memory_ok n c (b :: delete i (blocks c))) as (Hall & Hh & Hs)
      by (eapply memory_perm; [exact Hm|by apply delete_Permutation]).
    apply Forall_cons in Hall as [(_ & _ & Hp) Hrest]. split; [|by split].
    constructor; [|exact Hrest]. split; [cbn; lia|]. by split.
  - cbn. rewrite <-Hwi. by eapply locks_same.
  - intros j bj dj [= <- <- <-]. split; [|done]. rewrite Ebs. by apply list_lookup_insert_eq.
  - eapply know_r_frame; [apply HI| |apply frame_refl|done]. intros Hr. by eapply locks_apart.
  - intros d Hd. destruct (inv_data _ _ _ HI d Hd) as (q0 & Hq0). exists (q0 ++ [data]). cbn.
    by rewrite Hq0, <-app_assoc.
Qed.

(** * Stepping through a program

    [J] is the invariant, with the ghost state of this process and of the other,
    about which [R] is known; [m] is the number of calls the program may make, and [E]
    the states in which its next action may be undefined. *)

(** The process, when it runs alone, comes to the state [c1], in which its next action leaves
    the memory. *)
Fixpoint stops_at {A} (p : proc A) (c c1 : channel) : Prop :=
  match p with
  | Done _ => False
  | Step action k =>
    (action c = Oob /\ c1 = c) \/ exists b c', action c = Ret (b, c') /\ stops_at (k b) c' c1
  end.

Section wp.
Context {G O : Type} (J : channel -> G -> O -> Prop) (R : O -> Prop)
  (E : channel -> G -> Prop).

Fixpoint wp {A} (m : Z) (p : proc A) (Q : A -> G -> Prop) (g : G) : Prop :=
  match p with
  | Done a => Q a g
  | Step action k => forall c o, R o -> Z.of_nat (calls c) + m < heap_limit -> J c g o ->
    (E c g /\ action c = Oob) \/
    exists b c' g' m', action c = Ret (b, c') /\ 0 <= m' <= m /\
      Z.of_nat (calls c') + m' <= Z.of_nat (calls c) + m /\ J c' g' o /\ wp m' (k b) Q g'
  end.

Lemma wp_mono {A} m m' (p : proc A) (Q Q' : A -> G -> Prop) g :
  wp m p Q g -> m <= m' -> (forall a g, Q a g -> Q' a g) -> wp m' p Q' g.
Proof.
  revert m m' g. induction p as [a|B action k IH]; intros m m' g Hwp Hm HQ; [by apply HQ|].
  cbn in *. intros c o HR Hlim HJ.
  destruct (Hwp c o HR) as [?|(b & c' & g' & m1 & Ha & Hm1 & Hle & HJ' & Hk)]; [lia|done|by left|].
  right. exists b, c', g', m1. split; [done|]. do 2 (split; [lia|]). split; [done|]. by eapply IH; [exact Hk|lia|].
Qed.

Lemma wp_bind {A B} m m2 (p : proc A) (f : A -> proc B) (Q : A -> G -> Prop) (Q2 : B -> G -> Prop) g :
  0 <= m -> 0 <= m2 -> wp m p Q g -> (forall a g, Q a g -> wp m2 (f a) Q2 g) ->
  wp (m + m2) (proc_bind p f) Q2 g.
Proof.
  intros Hm Hm2 Hwp Hf. revert m g Hm Hwp. induction p as [a|C action k IH]; intros m g Hm Hwp; cbn in *.
  - eapply wp_mono; [by apply Hf|lia|done].
  - intros c o HR Hlim HJ.
    destruct (Hwp c o HR) as [?|(b & c' & g' & m1 & Ha & Hm1 & Hle & HJ' & Hk)]; [lia|done|by left|].
    right. exists b, c', g', (m1 + m2). split; [done|]. split; [lia|]. split; [lia|]. split; [done|]. apply IH; [lia|done].
Qed.

Lemma wp_bind0 {A B} m (p : proc A) (f : A -> proc B) (Q : A -> G -> Prop) (Q2 : B -> G -> Prop) g :
  0 <= m -> wp 0 p Q g -> (forall a g, Q a g -> wp m (f a) Q2 g) -> wp m (proc_bind p f) Q2 g.
Proof. intros Hm Hp Hf. rewrite <-(Z.add_0_l m). by eapply wp_bind. Qed.

(** A process that runs alone. *)
Lemma wp_run {A} m (p : proc A) Q g c o :
  wp m p Q g -> R o -> Z.of_nat (calls c) + m < heap_limit -> J c g o ->
  exists c' g', J c' g' o /\ (0 <= m -> Z.of_nat (calls c') <= Z.of_nat (calls c) + m) /\
    ((exists a, run p c = Ret (a, c') /\ Q a g') \/ (run p c = Oob /\ stops_at p c c' /\ E c' g')).
Proof.
  revert m g c. induction p as [a|B action k IH]; intros m g c Hwp HR Hlim HJ; cbn in *.
  - exists c, g. split; [done|]. split; [lia|]. left. by exists a.
  - destruct (Hwp c o HR Hlim HJ) as [[HE Ha]|(b & c' & g' & m1 & Ha & Hm1 & Hle & HJ' & Hk)].
    { exists c, g. split; [done|]. split; [lia|]. right. rewrite Ha. split; [done|]. split; [by left|done]. }
    destruct (IH b m1 g' c' Hk HR ltac:(lia) HJ') as (c2 & g2 & HJ2 & Hc & Hres).
    exists c2, g2. split; [done|]. split; [intros _; specialize (Hc ltac:(lia)); lia|]. rewrite Ha, bind_ret.
    destruct Hres as [?|(? & ? & ?)]; [by left|right]. split; [done|]. split; [right; by exists b, c'|done].
Qed.

End wp.

(** Without any change to memory. *)
Lemma relock_step n c rest b m :
  memory_ok n c (b :: rest) -> memory_step n c rest 0 (set_lock m b) c.
Proof.
  intros (Hb & Hh & Hs). apply memory_stays. apply Forall_cons in Hb as [Hb Hrest].
  split; [by constructor|by split].
Qed.

(** * The writer *)

Section writer.
Context (R : rghost -> Prop) (U : channel -> wghost -> Prop).
Abbreviation wpw := (wp inv R U).
Abbreviation holding w i b d := (mk_w (sent w) (Some (i, b, d)) (w_filled w)).
Abbreviation released w := (mk_w (sent w) None (w_filled w)).

Lemma wp_with_index {B} (f : channel -> B * channel) (Q : Z + B -> wghost -> Prop) w :
  (forall c r, R r -> inv c w r -> exists w', inv (f c).2 w' r /\ Q (inr (f c).1) w' /\
     calls (f c).2 = calls c) ->
  wpw 0 (with_index f) Q w.
Proof.
  intros Hf. cbn. intros c r HR Hlim HI. rewrite (inv_alive _ _ _ HI).
  destruct (Hf c r HR HI) as (w' & HI' & HQ & Hc). destruct (f c) as [x c'].
  right. exists (inr x), c', w', 0. split; [done|]. split; [done|]. cbn in Hc. split; [lia|]. by split.
Qed.

Lemma wp_block_or {B} m i (f : block -> channel -> outcome (B * block * channel)) (Q : B -> wghost -> Prop) w :
  (i < Z.to_nat RRR_MMAP_CHANNEL_SLOTS)%nat ->
  (forall c r b, R r -> Z.of_nat (calls c) + Z.of_nat m < heap_limit -> inv c w r -> blocks c !! i = Some b ->
     (U c w /\ f b c = Oob) \/
     exists x b' c1 w', f b c = Ret (x, b', c1) /\ inv (with_new i b' c1) w' r /\ Q x w' /\
       (calls c1 <= calls c + m)%nat) ->
  wpw (Z.of_nat m) (with_block (Z.of_nat i) f) Q w.
Proof.
  intros Hi Hf. cbn. intros c r HR Hlim HI.
  destruct (lookup_lt_is_Some_2 (blocks c) i) as [b Hb]; [by rewrite (inv_length _ _ _ HI)|].
  rewrite (proj2 (Z.ltb_ge _ 0)), Nat2Z.id, Hb by lia.
  destruct (Hf c r b HR Hlim HI Hb) as [[HE ->]|(x & b' & c1 & w' & Hx & HI' & HQ & Hc)]; [by left|right].
  rewrite Hx, bind_ret.
  eexists _, _, w', 0. split; [done|]. split; [lia|]. split; [|by split]. cbn. lia.
Qed.

Lemma wp_block {B} m i (f : block -> channel -> outcome (B * block * channel)) (Q : B -> wghost -> Prop) w :
  (i < Z.to_nat RRR_MMAP_CHANNEL_SLOTS)%nat ->
  (forall c r b, R r -> Z.of_nat (calls c) + Z.of_nat m < heap_limit -> inv c w r -> blocks c !! i = Some b ->
     exists x b' c1 w', f b c = Ret (x, b', c1) /\ inv (with_new i b' c1) w' r /\ Q x w' /\
       (calls c1 <= calls c + m)%nat) ->
  wpw (Z.of_nat m) (with_block (Z.of_nat i) f) Q w.
Proof. intros Hi Hf. apply wp_block_or; [done|]. intros. right. by eapply Hf. Qed.

Lemma wp_trylock w i :
  w_held w = None -> (i < Z.to_nat RRR_MMAP_CHANNEL_SLOTS)%nat ->
  wpw 0 (trylock Writer (Z.of_nat i)) (fun ret w' =>
    (ret = RRR_POSIX_MUTEX_ROBUST_OK /\ exists b, w' = holding w i b None) \/
    (ret = RRR_POSIX_MUTEX_ROBUST_BUSY /\ w' = w /\ exists r, R r /\ r_index r = Some i)) w.
Proof.
  intros Hw%w_index_None Hi. apply (wp_block 0); [done|]. intros c r b HR Hlim HI Hb.
  pose proof (inv_locks _ _ _ HI) as Hlocks. pose proof Hlocks as [Hne Hl].
  pose proof (Hl i b Hb) as Hlb. rewrite Hw, decide_False in Hlb by done.
  destruct (decide (r_index r = Some i)) as [Hr|Hr]; rewrite Hlb; cbn [rrr_posix_mutex_robust_trylock].
  - exists RRR_POSIX_MUTEX_ROBUST_BUSY, b, c, w. rewrite set_lock_same by done.
    split; [done|]. split; [|split; [right; by eauto|lia]].
    unfold with_new. rewrite list_insert_id by done. by destruct c.
  - exists RRR_POSIX_MUTEX_ROBUST_OK, (set_lock (Locked Writer) b), c,
      (holding w i (set_lock (Locked Writer) b) None).
    split; [done|].
    assert (inv (with_new i (set_lock (Locked Writer) b) c) (holding w i (set_lock (Locked Writer) b) None) r
      /\ (calls c <= calls c + 0)%nat) as [HI' Hc]; [|split; [done|split; [left; by eauto|done]]].
    eapply (inv_block _ w r i b); try done; [by intros n _; apply relock_step|by right|..].
    + eapply locks_insert; [exact Hlocks|by intros j [= <-]| |by rewrite decide_True].
      intros j Hj. rewrite Hw. split; [|done]. split; [by intros [= ->]|done].
    + intros j bj d [= <- <- <-]. split; [|done]. apply list_lookup_insert_eq. by eapply lookup_lt_Some.
    + eapply know_r_frame; [apply HI|done|apply frame_refl|done].
    + apply HI.
Qed.

(** The frame of a memory step on block [i]. *)
Lemma step_frame c w r i b b' c1 most :
  inv c w r -> blocks c !! i = Some b ->
  (forall n, n <= Z.of_nat (calls c) -> memory_ok n c (b :: delete i (blocks c)) ->
     memory_step n c (delete i (blocks c)) most b' c1) ->
  frame c c1 (delete i (blocks c)) /\ blocks c1 = blocks c.
Proof.
  intros HI Hb Hstep. destruct (inv_memory _ _ _ HI) as (n & Hn & Hm).
  destruct (Hstep n Hn) as (n1 & _ & _ & _ & Hf & Hr & _).
  { eapply memory_perm; [exact Hm|by apply delete_Permutation]. }
  split; [done|]. apply Hr.
Qed.

(** The writer changes the block that it holds and that is free. *)
Lemma inv_held c w r i b d b' c1 d' most :
  inv c w r -> w_held w = Some (i, b, d) -> size_data b = 0 -> size_data b' = 0 ->
  block_lock b' = block_lock b ->
  (forall n, n <= Z.of_nat (calls c) -> memory_ok n c (b :: delete i (blocks c)) ->
     memory_step n c (delete i (blocks c)) most b' c1) ->
  (forall m, d' = Some m -> written c1 b' m) ->
  inv (with_new i b' c1) (holding w i b' d') r /\ (calls c1 <= calls c + most)%nat.
Proof.
  intros HI Hw Hb0 Hb0' Hl Hstep Hd'. destruct (inv_know_w _ _ _ HI i b d Hw) as [Hb _].
  destruct (step_frame c w r i b b' c1 most HI Hb Hstep) as [Hf Hbs].
  pose proof (inv_locks _ _ _ HI) as Hlocks. pose proof (w_index_Some _ _ _ _ Hw) as Hwi.
  eapply (inv_block _ w r i b); try done; [by left|..].
  - cbn. rewrite <-Hwi. by eapply locks_same.
  - intros j bj dj [= <- <- <-]. split; [|exact Hd'].
    cbn. rewrite Hbs. apply list_lookup_insert_eq. by eapply lookup_lt_Some.
  - eapply know_r_frame; [apply HI| |exact Hf|exact Hbs]. intros Hr. by eapply locks_apart.
  - apply HI.
Qed.

Lemma wp_size w i b d :
  (i < Z.to_nat RRR_MMAP_CHANNEL_SLOTS)%nat -> w_held w = Some (i, b, d) ->
  wpw 0 (with_block (Z.of_nat i) (fun b c => Ret (size_data b, b, c))) (fun size w' =>
    size = size_data b /\ w' = w /\
    (size <> 0 -> w_filled w = false -> i = slot (count (sent w)) -> exists r, R r /\
       count (sent w) = count (got r) + RRR_MMAP_CHANNEL_SLOTS)) w.
Proof.
  intros Hi Hw. apply (wp_block 0); [done|]. intros c r b1 HR Hlim HI Hb1.
  destruct (inv_know_w _ _ _ HI i b d Hw) as [Hb _]. rewrite Hb in Hb1. injection Hb1 as <-.
  exists (size_data b), b, c, w. split; [done|]. split; [|split; [|lia]].
  { unfold with_new. rewrite list_insert_id by done. by destruct c. }
  split; [done|]. split; [done|]. intros Hne Hf Hslot. exists r. split; [done|].
  destruct (inv_ring _ _ _ HI) as (_ & _ & _ & _ & Havail & Hroom). rewrite Hf in Havail. cbn in Havail.
  destruct (inv_queue _ _ _ HI) as (q & Hq & _ & Hfree). rewrite Hq in *. unfold count in *.
  rewrite length_app in *. destruct (decide (Z.of_nat (length q) < RRR_MMAP_CHANNEL_SLOTS)) as [Hlt|]; [|lia].
  destruct (Hfree (Z.of_nat (length q))) as (b2 & Hb2 & H2); [lia|].
  rewrite <-Nat2Z.inj_add, <-Hslot, Hb in Hb2. congruence.
Qed.

(** [__rrr_mmap_channel_cleanup] at one block. *)
Lemma wp_clean w i b d :
  (i < Z.to_nat RRR_MMAP_CHANNEL_SLOTS)%nat -> w_held w = Some (i, b, d) ->
  wpw 1 (with_block (Z.of_nat i) (fun b c =>
      if block_cleanup_needed b then rrr_mmap_channel_block_free system (set_data false (size_data b) b) c
      else Ret (0, b, c)))
    (fun ret w' => (ret = 0 \/ ret = 1) /\ exists b' d', w' = holding w i b' d') w.
Proof.
  intros Hi Hw. apply (wp_block 1); [done|]. intros c r b1 HR Hlim HI Hb1.
  destruct (inv_know_w _ _ _ HI i b d Hw) as [Hb _]. rewrite Hb in Hb1. injection Hb1 as <-.
  destruct (block_cleanup_needed b) eqn:Ecl.
  - destruct (inv_memory _ _ _ HI) as (n & Hn & Hm).
    assert (memory_ok n c (b :: delete i (blocks c))) as Hm'
      by (eapply memory_perm; [exact Hm|by apply delete_Permutation]).
    assert (size_data b = 0) as Hz.
    { destruct Hm' as (Hall & _). apply Forall_cons in Hall as [(_ & Hcl & _) _]. by apply Hcl. }
    assert (forall n, memory_ok n c (b :: delete i (blocks c)) ->
      memory_ok n c (set_data false (size_data b) b :: delete i (blocks c))) as Hset.
    { intros n0 (Hall & Hh & Hs). split; [|by split]. apply Forall_cons in Hall as [(Hsz & _ & Hp) Hrest].
      constructor; [|done]. by split. }
    destruct (block_free_ok n c (set_data false (size_data b) b) (delete i (blocks c)))
      as (ret & b' & c' & Ef & Hstep & Hret & _); [by apply Hset|done|lia|].
    exists ret, b', c', (holding w i b' None). split; [done|].
    assert (size_data b' = 0 /\ block_lock b' = block_lock b) as [Hz' Hl']
      by (destruct Hret as [[_ ->]|[_ ->]]; done).
    destruct (inv_held c w r i b d b' c' None 1) as [HI' Hc]; try done.
    { intros n0 Hn0 Hm0. destruct (block_free_ok n0 c (set_data false (size_data b) b) (delete i (blocks c)))
        as (ret0 & b0 & c0 & E0 & Hstep0 & _); [by apply Hset|done|lia|].
      rewrite Ef in E0. by injection E0 as <- <- <-. }
    split; [done|]. split; [|done]. split; [|by eauto]. destruct Hret as [[-> _]|[-> _]]; auto.
  - exists 0, b, c, (holding w i b d). split; [done|]. split; [|split; [by eauto|lia]].
    unfold with_new. rewrite list_insert_id by done. by destruct c, w; cbn in *; subst.
Qed.

Lemma wp_allocate w i b d size :
  (i < Z.to_nat RRR_MMAP_CHANNEL_SLOTS)%nat -> w_held w = Some (i, b, d) -> size_data b = 0 ->
  0 < size -> size + 4096 < 2 ^ 64 -> storable size -> (forall c, unanswered size c -> U c w) ->
  wpw 3 (with_block (Z.of_nat i) (fun b c => rrr_mmap_channel_allocate system shmget old b size c))
    (fun ret w' => exists b', w' = holding w i b' None /\ size_data b' = 0 /\
       (ret = 0 -> size <= size_capacity b')) w.
Proof using shmget_new.
  intros Hi Hw Hz Hpos Hmax Hst HE. apply (wp_block_or 3); [done|]. intros c r b1 HR Hlim HI Hb1.
  destruct (inv_know_w _ _ _ HI i b d Hw) as [Hb _]. rewrite Hb in Hb1. injection Hb1 as <-.
  destruct (inv_memory _ _ _ HI) as (n & Hn & Hm).
  assert (memory_ok n c (b :: delete i (blocks c))) as Hm'
    by (eapply memory_perm; [exact Hm|by apply delete_Permutation]).
  destruct (allocate_ok n c b (delete i (blocks c)) size)
    as [[Hun Hoob]|(ret & b' & c' & Ea & _ & Hz' & Hl' & Hcap)]; [done..|lia|left; by auto|right].
  exists ret, b', c', (holding w i b' None). split; [done|].
  destruct (inv_held c w r i b d b' c' None 3) as [HI' Hc]; try done.
  { intros n0 Hn0 Hm0. destruct (allocate_ok n0 c b (delete i (blocks c)) size)
      as [[_ Hoob]|(ret0 & b0 & c0 & E0 & Hstep0 & _)]; [done..|lia|by rewrite Ea in Hoob|].
    rewrite Ea in E0. by injection E0 as <- <- <-. }
  split; [done|]. split; [by eauto|done].
Qed.

Lemma wp_store w i b d (ret : Z) (data : list Z) :
  (i < Z.to_nat RRR_MMAP_CHANNEL_SLOTS)%nat -> w_held w = Some (i, b, d) -> size_data b = 0 ->
  data <> [] -> Z.of_nat (length data) <= size_capacity b ->
  wpw 0 (with_block (Z.of_nat i) (fun b c =>
      c ← store (ptr_shm_or_mmap_writer b) (ret, data).2 c; Ret ((ret, data).1, b, c)))
    (fun ret' w' => ret' = ret /\ w' = holding w i b (Some data)) w.
Proof.
  intros Hi Hw Hz Hne Hcap. apply (wp_block 0); [done|]. intros c r b1 HR Hlim HI Hb1.
  destruct (inv_know_w _ _ _ HI i b d Hw) as [Hb _]. rewrite Hb in Hb1. injection Hb1 as <-.
  destruct (inv_memory _ _ _ HI) as (n & Hn & Hm).
  assert (memory_ok n c (b :: delete i (blocks c))) as Hm'
    by (eapply memory_perm; [exact Hm|by apply delete_Permutation]).
  destruct (store_ok n c b (delete i (blocks c)) data) as (c' & l & E & _ & Hl & Ht); [done|lia|done..|].
  exists ret, b, c', (holding w i b (Some data)). cbn [fst snd]. rewrite E, bind_ret. split; [done|].
  destruct (inv_held c w r i b d b c' (Some data) 0) as [HI' Hc]; try done.
  { intros n0 Hn0 Hm0. destruct (store_ok n0 c b (delete i (blocks c)) data)
      as (c0 & l0 & E0 & Hstep0 & _); [done|lia|done..|].
    rewrite E in E0. by injection E0 as <-. }
  { intros m [= <-]. by exists l. }
Qed.

Lemma wp_unlock w i b d :
  (i < Z.to_nat RRR_MMAP_CHANNEL_SLOTS)%nat -> w_held w = Some (i, b, d) ->
  wpw 0 (unlock (Z.of_nat i)) (fun _ w' => w' = released w) w.
Proof.
  intros Hi Hw. apply (wp_block 0); [done|]. intros c r b1 HR Hlim HI Hb1.
  destruct (inv_know_w _ _ _ HI i b d Hw) as [Hb _]. rewrite Hb in Hb1. injection Hb1 as <-.
  exists tt, (set_lock Unlocked b), c, (released w). split; [done|].
  pose proof (inv_locks _ _ _ HI) as Hlocks. pose proof (w_index_Some _ _ _ _ Hw) as Hwi.
  assert (r_index r <> Some i) as Hri by (intros Hr; by eapply locks_apart).
  assert (inv (with_new i (set_lock Unlocked b) c) (released w) r /\ (calls c <= calls c + 0)%nat)
    as [HI' Hc]; [|by split].
  eapply (inv_block _ w r i b); try done; [by intros n _; apply relock_step|by right|..].
  - eapply locks_insert; [exact Hlocks|done| |by rewrite !decide_False].
    intros j Hj. rewrite Hwi. split; [|done]. split; [done|]. by intros [= <-].
  - eapply know_r_frame; [apply HI|done|apply frame_refl|done].
  - apply HI.
Qed.

Lemma wp_commit w b data :
  w_held w = Some (slot (count (sent w)), b, Some data) -> w_filled w = false ->
  size_data b = 0 -> data <> [] -> Z.of_nat (length data) <= size_capacity b ->
  wpw 0 (with_block (Z.of_nat (slot (count (sent w)))) (fun b c =>
      Ret (tt, set_data false (Z.of_nat (length data)) b, c)))
    (fun _ w' => exists b', w' = mk_w (sent w ++ [data]) (Some (slot (count (sent w)), b', None)) true) w.
Proof.
  intros Hw Hf Hz Hne Hcap. apply (wp_block 0); [apply slot_lt|]. intros c r b1 HR Hlim HI Hb1.
  destruct (inv_know_w _ _ _ HI _ b _ Hw) as [Hb _]. rewrite Hb in Hb1. injection Hb1 as <-.
  eexists tt, _, c, _. split; [done|]. split; [by apply inv_fill|]. split; [by eauto|lia].
Qed.

Lemma wp_advance w :
  w_held w = None -> w_filled w = true ->
  wpw 0 (with_index (fun c => (tt, set_index (entry_count c + 1) (next_pos (wpos c)) (rpos c)
                                  (cleanup_needed c) (write_full_counter c) c)))
    (fun x w' => x = inr tt /\ w' = mk_w (sent w) None false) w.
Proof.
  intros Hw Hf. apply wp_with_index. intros c r HR HI. exists (mk_w (sent w) None false). cbn.
  split; [|by split]. eapply inv_index; try done.
  destruct (inv_ring _ _ _ HI) as (Hwp & Hrp & Hec & He & Havail & Hroom). rewrite Hf in *. cbn in *.
  unfold ring_ok. cbn. rewrite Hwp, next_pos_mod, Z.sub_0_r.
  replace (count (sent w) - 1 + 1) with (count (sent w)) by lia. repeat split; try done; lia.
Qed.

(** A step on the index that moves nothing. *)
Lemma wp_look {B} (x : channel -> B) (cl : channel -> bool) (full : channel -> Z) w :
  wpw 0 (with_index (fun c => (x c, set_index (entry_count c) (wpos c) (rpos c) (cl c) (full c) c)))
    (fun y w' => w' = w /\ exists c r, R r /\ inv c w r /\ y = inr (x c)) w.
Proof.
  apply wp_with_index. intros c r HR HI. exists w. cbn. split; [|split; [by eauto 10|done]].
  eapply inv_index; try done. apply HI.
Qed.

Lemma wp_cleanup_loop n w :
  (n <= Z.to_nat RRR_MMAP_CHANNEL_SLOTS)%nat -> w_held w = None ->
  wpw (Z.of_nat n) (cleanup_loop system n) (fun ret w' => (ret = 0 \/ ret = 1) /\ w' = w) w.
Proof.
  intros Hn Hw. induction n as [|n IH]; [by cbn; auto|].
  cbn [cleanup_loop]. set (i := (Z.to_nat RRR_MMAP_CHANNEL_SLOTS - S n)%nat).
  replace (RRR_MMAP_CHANNEL_SLOTS - Z.of_nat (S n)) with (Z.of_nat i)
    by (subst i; unfold RRR_MMAP_CHANNEL_SLOTS in *; lia).
  assert (i < Z.to_nat RRR_MMAP_CHANNEL_SLOTS)%nat as Hi by (subst i; lia).
  assert (wpw (Z.of_nat n) (cleanup_loop system n) (fun ret w' => (ret = 0 \/ ret = 1) /\ w' = w) w) as IHn
    by (apply IH; lia).
  rewrite <-(Z.add_0_l (Z.of_nat (S n))).
  eapply wp_bind; [lia|lia|by apply wp_trylock|].
  intros ret w1 [[-> [b ->]]|[-> [-> _]]]; cbn [Z.eqb negb RRR_POSIX_MUTEX_ROBUST_OK RRR_READ_OK].
  - replace (Z.of_nat (S n)) with (1 + (0 + Z.of_nat n)) by lia.
    eapply wp_bind; [lia|lia|by eapply wp_clean|]. intros ret w2 [Hret (b' & d' & ->)].
    eapply wp_bind; [lia|lia|by eapply wp_unlock|]. intros _ w3 ->. cbn.
    replace (mk_w (sent w) None (w_filled w)) with w by (destruct w; cbn in *; by subst).
    by destruct (ret =? 0); cbn.
  - eapply wp_mono; [exact IHn|lia|done].
Qed.

(** What a write comes to: the message is in the channel, or nothing is changed and
    there was an error or the channel was full, or in use by the reader. *)
Definition write_result (w : wghost) (notify : option Z) (callback : Z * list Z) (ret : Z) (w' : wghost)
  : Prop :=
  (callback.1 = 0 /\ ret = default 0 notify /\ w' = mk_w (sent w ++ [callback.2]) None false) \/
  (w' = w /\ (ret = 1 \/ ret = RRR_MMAP_CHANNEL_FULL /\ exists r, R r /\
     (r_index r <> None \/ count (sent w) = count (got r) + RRR_MMAP_CHANNEL_SLOTS))).

Lemma wp_write_block w b notify st data :
  w_held w = Some (slot (count (sent w)), b, None) -> w_filled w = false -> data <> [] ->
  Z.of_nat (length data) + 4096 < 2 ^ 64 -> storable (Z.of_nat (length data)) ->
  (forall c, unanswered (Z.of_nat (length data)) c -> U c w) ->
  wpw 3 (write_block system shmget old notify (Z.of_nat (length data)) (st, data)
           (Z.of_nat (slot (count (sent w)))))
    (write_result (released w) notify (st, data)) w.
Proof using shmget_new.
  intros Hw Hf Hne Hmax Hst HE. set (i := slot (count (sent w))) in *.
  assert (i < Z.to_nat RRR_MMAP_CHANNEL_SLOTS)%nat as Hi by apply slot_lt.
  unfold write_block. eapply wp_bind0; [lia|by eapply wp_size|]. intros size w1 (Hsize & -> & Hfull).
  destruct (size =? 0) eqn:E0; cbn [negb].
  2: { apply (wp_mono inv R U 0 3) with (Q := write_result (released w) notify (st, data)); [|lia|done].
       eapply wp_bind0; [lia|by eapply wp_unlock|]. intros _ w2 ->. cbn.
       right. split; [done|]. right. split; [done|]. destruct Hfull as (r & HR & Hr); [lia|done|done|].
       exists r. split; [done|]. by right. }
  assert (size_data b = 0) as Hz by lia. change 3 with (3 + 0). 
  eapply wp_bind; [lia|lia|eapply (wp_allocate w i b None (Z.of_nat (length data))); try done|].
  { destruct data; [done|]. simpl. lia. }
  intros ret w2 (b2 & -> & Hz2 & Hcap). destruct (ret =? 0) eqn:Eret; cbn [negb].
  2: { eapply wp_bind0; [lia|by eapply wp_unlock|]. intros _ w3 ->. cbn.
       right. split; [done|]. by left. }
  eapply wp_bind0; [lia| |].
  { eapply (wp_store _ i b2 None st data); [done|done|done|done|]. apply Hcap. lia. }
  intros ret' w3 [-> ->]. destruct (st =? 0) eqn:Est; cbn [negb].
  2: { eapply wp_bind0; [lia|by eapply wp_unlock|]. intros _ w4 ->. cbn.
       right. split; [done|]. by left. }
  eapply wp_bind0; [lia| |].
  { eapply (wp_commit (mk_w (sent w) (Some (i, b2, Some data)) (w_filled w)) b2 data); try done.
    apply Hcap. lia. }
  intros _ w4 (b4 & ->). eapply wp_bind0; [lia|by eapply wp_unlock|]. intros _ w5 ->. cbn [sent w_filled].
  eapply wp_bind0; [lia|by apply wp_advance|]. intros x w6 [-> ->].
  cbn. left. split; [by apply Z.eqb_eq|]. done.
Qed.

Lemma wp_write w notify st data :
  w_held w = None -> w_filled w = false -> data <> [] -> Z.of_nat (length data) + 4096 < 2 ^ 64 ->
  storable (Z.of_nat (length data)) ->
  (forall c w', unanswered (Z.of_nat (length data)) c -> sent w' = sent w -> U c w') ->
  wpw (RRR_MMAP_CHANNEL_SLOTS + 3)
    (rrr_mmap_channel_write_using_callback system shmget old notify (Z.of_nat (length data)) (st, data))
    (write_result w notify (st, data)) w.
Proof using shmget_new.
  intros Hw Hf Hne Hmax Hst HE. unfold rrr_mmap_channel_write_using_callback.
  assert (released w = w) as Hrel by (destruct w; cbn in *; by subst).
  eapply wp_bind0; [unfold RRR_MMAP_CHANNEL_SLOTS; lia| |].
  { eapply (wp_look (fun c => (cleanup_needed c, wpos c)) (fun _ => false) write_full_counter). }
  intros y w1 (-> & c & r & HR & HI & ->). cbv beta iota.
  assert (wpos c = Z.of_nat (slot (count (sent w)))) as ->.
  { destruct (inv_ring _ _ _ HI) as (-> & _). rewrite slot_pos, Hf. cbn. by rewrite Z.sub_0_r. }
  eapply wp_bind; [unfold RRR_MMAP_CHANNEL_SLOTS; lia|lia| |].
  { instantiate (1 := fun ret w' => (ret = 0 \/ ret = 1) /\ w' = w).
    destruct (cleanup_needed c); [|by cbn; auto].
    by apply (wp_cleanup_loop (Z.to_nat RRR_MMAP_CHANNEL_SLOTS)). }
  intros ret w2 [Hret ->]. destruct (ret =? 0) eqn:Eret; cbn [negb].
  2: { cbn. right. split; [done|]. left. lia. }
  eapply wp_bind0; [lia|apply wp_trylock; [done|apply slot_lt]|].
  intros ret' w3 [[-> [b ->]]|[-> [-> (r' & HR' & Hr')]]].
  - cbn [Z.eqb negb RRR_POSIX_MUTEX_ROBUST_OK RRR_READ_OK]. rewrite <-Hrel at 2.
    apply (wp_write_block (holding w (slot (count (sent w))) b None) b); auto.
  - change (negb (RRR_POSIX_MUTEX_ROBUST_BUSY =? RRR_POSIX_MUTEX_ROBUST_OK)) with true. cbv iota.
    rewrite Z.eqb_refl. eapply (wp_mono inv R U 0); [|lia|done]. eapply wp_bind0; [lia| |].
    { eapply (wp_look (fun _ => tt) cleanup_needed (fun c => u64 (write_full_counter c + 1))). }
    intros y w4 (-> & c' & r2 & _ & _ & ->). cbn. right. split; [done|]. right. split; [done|].
    exists r'. split; [done|]. left. by rewrite Hr'.
Qed.

End writer.
Lemma r_index_None r : r_held r = None -> r_index r = None.
Proof. unfold r_index. by intros ->. Qed.

Lemma r_index_Some r i b : r_held r = Some (i, b) -> r_index r = Some i.
Proof. unfold r_index. by intros ->. Qed.

(** The reader takes the message out of the block that it holds. *)
Lemma inv_take c w r b m cl :
  inv c w r -> r_held r = Some (slot (count (got r)), b) -> r_late r = false -> r_seen r = true ->
  r_data r = Some m ->
  let b' := set_data cl 0 b in
  inv (with_new (slot (count (got r))) b' c) w
    (mk_r (got r ++ [m]) (Some (slot (count (got r)), b')) None None true false).
Proof.
  intros HI Hr Hl Hs Hd b'. set (i := slot (count (got r))) in *.
  destruct (inv_know_r _ _ _ HI) as [Hkr _]. pose proof (Hkr i b Hr) as Hb.
  pose proof (inv_locks _ _ _ HI) as Hlocks. pose proof (r_index_Some _ _ _ Hr) as Hri.
  destruct (inv_data _ _ _ HI m Hd) as (q & Hq).
  destruct (inv_queue _ _ _ HI) as (q0 & Hq0 & Hqok & Hfree).
  rewrite Hq in Hq0. apply app_inv_head in Hq0 as <-.
  destruct (inv_ring _ _ _ HI) as (Hwp & Hrp & Hec & He & Havail & Hroom).
  rewrite Hl, Hs in *. cbn [Z.b2z] in *. rewrite Z.sub_0_r in Hrp.
  assert (count (sent w) = count (got r) + 1 + count q) as Hcount.
  { rewrite Hq, count_app. unfold count. simpl. lia. }
  assert (count (m :: q) = 1 + count q) as Hcq by (unfold count; simpl; lia).
  assert (blocks (with_new i b' c) = <[i := b']> (blocks c)) as Ebs by done.
  assert (i < length (blocks c))%nat as Hilen by (by eapply lookup_lt_Some).
  assert (forall k, 0 < k < RRR_MMAP_CHANNEL_SLOTS -> slot (count (got r) + k) <> i) as Hother.
  { intros k Hk E. subst i. apply slot_inj in E; lia. }
  assert (count q < RRR_MMAP_CHANNEL_SLOTS) as Hlt by lia.
  split; try apply HI.
  - cbn. rewrite length_insert. apply HI.
  - unfold ring_ok. cbn [got sent w_filled r_late r_seen with_new Z.b2z]. rewrite count_app.
    change (count [m]) with 1. rewrite Z.add_simpl_r. cbn. repeat split; try done; lia.
  - exists q. split; [cbn; by rewrite Hq, <-app_assoc|]. cbn [got]. rewrite count_app.
    change (count [m]) with 1. split.
    + intros k m' Hm'. destruct (Hqok (S k) m' Hm') as (bk & Hbk & Hh). exists bk.
      replace (count (got r) + 1 + Z.of_nat k) with (count (got r) + Z.of_nat (S k)) by lia.
      apply lookup_lt_Some in Hm'. unfold count in Hlt.
      rewrite Ebs, list_lookup_insert_ne by (apply not_eq_sym, Hother; lia). by split.
    + intros k Hk. destruct (decide (k = RRR_MMAP_CHANNEL_SLOTS - 1)) as [->|Hne].
      * replace (count (got r) + 1 + (RRR_MMAP_CHANNEL_SLOTS - 1))
          with (count (got r) + RRR_MMAP_CHANNEL_SLOTS) by lia.
        rewrite slot_turn. fold i. exists b'. by rewrite Ebs, list_lookup_insert_eq.
      * destruct (Hfree (k + 1)) as (bk & Hbk & Hz); [lia|]. exists bk.
        replace (count (got r) + 1 + k) with (count (got r) + (k + 1)) by lia.
        rewrite Ebs, list_lookup_insert_ne; [by split|].
        apply not_eq_sym, Hother. unfold count in *. lia.
  - destruct (inv_memory _ _ _ HI) as (n & Hn & Hm). exists n. split; [done|].
    assert (<[i := b']> (blocks c) ≡ₚ b' :: delete i (blocks c)) as HP.
    { rewrite <-(delete_insert_same (blocks c) i b'). apply delete_Permutation.
      by apply list_lookup_insert_eq. }
    eapply memory_perm; [|symmetry; exact HP].
    assert (memory_ok n c (b :: delete i (blocks c))) as (Hall & Hh & Hsg)
      by (eapply memory_perm; [exact Hm|by apply delete_Permutation]).
    apply Forall_cons in Hall as [(Hsz & _ & Hp) Hrest]. split; [|by split].
    constructor; [|exact Hrest]. split; [cbn; lia|]. by split.
  - cbn. rewrite <-Hri. by eapply locks_same.
  - eapply know_w_frame; [apply HI| |apply frame_refl|done]. intros Hwi. by eapply locks_apart.
  - split; [|done]. intros j bj [= <- <-]. rewrite Ebs. by apply list_lookup_insert_eq.
  - done.
Qed.

(** The block at the position of the reader, when there is a message. *)
Lemma inv_first c w r :
  inv c w r -> r_seen r = true ->
  exists b m q, blocks c !! slot (count (got r)) = Some b /\ holds c b m /\ sent w = got r ++ m :: q.
Proof.
  intros HI Hs. destruct (inv_ring _ _ _ HI) as (_ & _ & _ & _ & Havail & _). rewrite Hs in Havail.
  destruct (inv_queue _ _ _ HI) as (q & Hq & Hqok & _).
  assert (0 < count q) as Hpos.
  { rewrite Hq, count_app in Havail. destruct (w_filled w); cbn in Havail; lia. }
  destruct q as [|m q]; [done|]. destruct (Hqok 0%nat m eq_refl) as (b & Hb & Hh).
  rewrite Z.add_0_r in Hb. by exists b, m, q.
Qed.

(** The pointer of a block with a message. *)
Lemma block_pointer c w r i b :
  inv c w r -> blocks c !! i = Some b -> size_data b <> 0 ->
  if shmid b =? 0 then exists p, ptr_shm_or_mmap_writer b = InHeap p
  else ptr_shm_or_mmap_writer b = InSegment (shmid b).
Proof.
  intros HI Hb Hne. destruct (inv_memory _ _ _ HI) as (n & _ & Hall & _).
  eapply (Forall_lookup_1 _ _ i b) in Hall; [|done]. destruct Hall as (Hsz & _ & Hp).
  destruct (ptr_shm_or_mmap_writer b) as [| |id|p].
  - destruct Hp. lia.
  - done.
  - destruct Hp as (-> & Hid & _). by rewrite (proj2 (Z.eqb_neq id 0)) by lia.
  - destruct Hp as (-> & _). by exists p.
Qed.

(** * The reader *)

Section reader.
Context (R : wghost -> Prop).
Abbreviation wpr := (wp (fun c r w => inv c w r) R (fun _ _ => False)).
Abbreviation resting g := (mk_r g None None None false false).
Abbreviation looking g i b at_ d := (mk_r g (Some (i, b)) at_ d false true).

Lemma wpr_with_index {B} (f : channel -> B * channel) (Q : Z + B -> rghost -> Prop) r :
  (forall c w, R w -> inv c w r -> exists r', inv (f c).2 w r' /\ Q (inr (f c).1) r' /\
     calls (f c).2 = calls c) ->
  wpr 0 (with_index f) Q r.
Proof.
  intros Hf. cbn. intros c w HR Hlim HI. rewrite (inv_alive _ _ _ HI).
  destruct (Hf c w HR HI) as (r' & HI' & HQ & Hc). destruct (f c) as [x c'].
  right. exists (inr x), c', r', 0. split; [done|]. split; [done|]. cbn in Hc. split; [lia|]. by split.
Qed.

Lemma wpr_act {B} m (f : channel -> outcome (B * channel)) (Q : B -> rghost -> Prop) r :
  (forall c w, R w -> Z.of_nat (calls c) + Z.of_nat m < heap_limit -> inv c w r ->
     exists x c1 r', f c = Ret (x, c1) /\ inv c1 w r' /\ Q x r' /\ (calls c1 <= calls c + m)%nat) ->
  wpr (Z.of_nat m) (act f) Q r.
Proof.
  intros Hf. cbn. intros c w HR Hlim HI. destruct (Hf c w HR Hlim HI) as (x & c1 & r' & Hx & HI' & HQ & Hc).
  right. exists x, c1, r', 0. split; [done|]. split; [lia|]. split; [lia|]. by split.
Qed.

Lemma wpr_block {B} i (f : block -> channel -> outcome (B * block * channel)) (Q : B -> rghost -> Prop) r :
  (i < Z.to_nat RRR_MMAP_CHANNEL_SLOTS)%nat ->
  (forall c w b, R w -> inv c w r -> blocks c !! i = Some b ->
     exists x b' r', f b c = Ret (x, b', c) /\ inv (with_new i b' c) w r' /\ Q x r') ->
  wpr 0 (with_block (Z.of_nat i) f) Q r.
Proof.
  intros Hi Hf. apply (wpr_act 0). intros c w HR Hlim HI.
  destruct (lookup_lt_is_Some_2 (blocks c) i) as [b Hb]; [by rewrite (inv_length _ _ _ HI)|].
  rewrite (proj2 (Z.ltb_ge _ 0)), Nat2Z.id, Hb by lia.
  destruct (Hf c w b HR HI Hb) as (x & b' & r' & Hx & HI' & HQ). rewrite Hx, bind_ret.
  eexists _, _, r'. split; [done|]. split; [done|]. split; [done|]. cbn. lia.
Qed.

Lemma wpr_look g :
  wpr 0 (with_index (fun c => ((rpos c, entry_count c), c))) (fun y r' => exists n,
      y = inr (Z.of_nat (slot (count g)), n) /\
      if n =? 0 then r' = resting g /\ exists w, R w /\ count (sent w) - Z.b2z (w_filled w) = count g
      else r' = mk_r g None None None false true) (resting g).
Proof.
  apply wpr_with_index. intros c w HR HI. cbn.
  destruct (inv_ring _ _ _ HI) as (Hwp & Hrp & Hec & He & Havail & Hroom). cbn in *.
  rewrite Z.sub_0_r in *.
  exists (if entry_count c =? 0 then resting g else mk_r g None None None false true).
  split; [|split; [|done]].
  - destruct (Z.eqb_spec (entry_count c) 0) as [Hz|Hnz]; [done|].
    eapply (inv_ghost _ w (resting g)); try done. unfold ring_ok in *. cbn in *.
    rewrite Z.sub_0_r. repeat split; try done; lia.
  - exists (entry_count c). rewrite slot_pos, Hrp. split; [done|].
    destruct (Z.eqb_spec (entry_count c) 0) as [Hz|Hnz]; [|done]. split; [done|]. exists w.
    split; [done|]. lia.
Qed.

Lemma wpr_trylock g :
  wpr 0 (trylock Reader (Z.of_nat (slot (count g)))) (fun ret r' =>
    (ret = RRR_POSIX_MUTEX_ROBUST_OK /\ exists b, r' = looking g (slot (count g)) b None None) \/
    (ret = RRR_POSIX_MUTEX_ROBUST_BUSY /\ r' = resting g /\
       exists w, R w /\ w_index w = Some (slot (count g)))) (mk_r g None None None false true).
Proof.
  apply wpr_block; [apply slot_lt|]. intros c w b HR HI Hb. set (i := slot (count g)) in *.
  pose proof (inv_locks _ _ _ HI) as Hlocks. pose proof Hlocks as [Hne Hl]. pose proof (Hl i b Hb) as Hlb.
  cbn in Hlb. destruct (decide (w_index w = Some i)) as [Hw|Hw]; rewrite Hlb; cbn [rrr_posix_mutex_robust_trylock].
  - eexists _, b, (resting g). rewrite set_lock_same by done. split; [done|].
    split; [|right; by eauto]. unfold with_new. rewrite list_insert_id by done.
    replace (set_blocks (blocks c) c) with c by (by destruct c).
    eapply (inv_ghost _ w (mk_r g None None None false true)); try done.
    destruct (inv_ring _ _ _ HI) as (Hwp & Hrp & Hec & He & Havail & Hroom). unfold ring_ok. cbn in *.
    repeat split; try done; lia.
  - eexists _, (set_lock (Locked Reader) b), (looking g i (set_lock (Locked Reader) b) None None).
    rewrite decide_False by done. split; [done|].
    assert (inv (with_new i (set_lock (Locked Reader) b) c) w
      (looking g i (set_lock (Locked Reader) b) None None) /\ (calls c <= calls c + 0)%nat) as [HI' Hc];
      [|split; [done|left; by eauto]].
    eapply (inv_block _ w (mk_r g None None None false true) i b); try done;
      [by intros n _; apply relock_step|by right|..].
    + eapply locks_insert; [exact Hlocks|intros j Hj [= <-]; done| |by rewrite decide_False, decide_True].
      intros j Hj. split; [done|]. cbn. split; [by intros [= ->]|done].
    + eapply know_w_frame; [apply HI|done|apply frame_refl|done].
    + split; [|done]. intros j bj [= <- <-]. apply list_lookup_insert_eq. by eapply lookup_lt_Some.
Qed.

Lemma inv_held_r c w r i b : inv c w r -> r_held r = Some (i, b) -> blocks c !! i = Some b.
Proof. intros HI. apply (inv_know_r _ _ _ HI). Qed.

Lemma wpr_read g b :
  wpr 0 (with_block (Z.of_nat (slot (count g))) (fun b c => Ret (b, b, c))) (fun b' r' =>
    b' = b /\ r' = looking g (slot (count g)) b None None /\ size_data b <> 0 /\
    if shmid b =? 0 then exists p, ptr_shm_or_mmap_writer b = InHeap p
    else ptr_shm_or_mmap_writer b = InSegment (shmid b)) (looking g (slot (count g)) b None None).
Proof.
  apply wpr_block; [apply slot_lt|]. intros c w b1 HR HI Hb1.
  rewrite (inv_held_r _ _ _ _ b HI) in Hb1 by done. injection Hb1 as <-.
  pose proof (inv_held_r _ _ _ _ b HI eq_refl) as Hb.
  destruct (inv_first _ _ _ HI eq_refl) as (b0 & m & q & Hb0 & (Hne & _) & _). cbn in Hb0.
  rewrite Hb in Hb0. injection Hb0 as <-.
  eexists b, b, _. split; [done|]. split; [|split; [done|split; [done|split; [done|]]]].
  - unfold with_new. rewrite list_insert_id by done. by destruct c.
  - by eapply block_pointer.
Qed.

(** The reader uses the segment of its block. *)
Lemma inv_segment c w g b at_ d c1 at' :
  let i := slot (count g) in
  inv c w (looking g i b at_ d) ->
  (forall n, n <= Z.of_nat (calls c) -> memory_ok n c (b :: delete i (blocks c)) ->
     memory_step n c (delete i (blocks c)) 1 b c1) ->
  object (ptr_shm_or_mmap_writer b) c1 = object (ptr_shm_or_mmap_writer b) c ->
  (forall id, at' = Some id -> exists s, ptr_shm_or_mmap_writer b = InSegment id /\
     segments c1 !! id = Some s /\ 2 <= shm_nattch s) ->
  inv c1 w (looking g i b at' d) /\ (calls c1 <= calls c + 1)%nat.
Proof.
  intros i HI Hstep Hobj Hat. pose proof (inv_held_r _ _ _ _ b HI eq_refl) as Hb.
  destruct (step_frame c w _ i b b c1 1 HI Hb Hstep) as [Hf Hbs].
  assert (with_new i b c1 = c1) as Hsame.
  { unfold with_new. rewrite Hbs, list_insert_id by done. rewrite <-Hbs. by destruct c1. }
  rewrite <-Hsame. change (calls (with_new i b c1)) with (calls c1).
  pose proof (inv_locks _ _ _ HI) as Hlocks.
  eapply (inv_block _ w (looking g i b at_ d) i b); try done; [by right|..].
  - rewrite list_insert_id by done. apply HI.
  - eapply know_w_frame; [apply HI| |exact Hf|exact Hbs]. intros Hw. by eapply locks_apart.
  - split.
    + intros j bj [= <- <-]. rewrite Hsame, Hbs. done.
    + intros id Hid. destruct (Hat id Hid) as (s & Hp & Hs & Hn). by exists i, b, s.
  - apply HI.
Qed.

Lemma wpr_shmat g b :
  let i := slot (count g) in
  ptr_shm_or_mmap_writer b = InSegment (shmid b) ->
  wpr 1 (act (fun c => Ret (shmat system (shmid b) c))) (fun p r' =>
    p = InSegment (shmid b) /\ r' = looking g i b (Some (shmid b)) None) (looking g i b None None).
Proof.
  intros i Hp. apply (wpr_act 1). intros c w HR Hlim HI.
  pose proof (inv_held_r _ _ _ _ b HI eq_refl) as Hb. destruct (inv_memory _ _ _ HI) as (n & Hn & Hm).
  destruct (shmat_ok n c b (delete i (blocks c)) (shmid b)) as (c' & s & E & _ & Hobj & Hs & Hatt); [|done|].
  { eapply memory_perm; [exact Hm|by apply delete_Permutation]. }
  exists (InSegment (shmid b)), c'. eexists. rewrite E. split; [done|].
  destruct (inv_segment c w g b None None c' (Some (shmid b))) as [HI' Hc]; [done| |done| |].
  - intros n0 Hn0 Hm0. destruct (shmat_ok n0 c b (delete i (blocks c)) (shmid b))
      as (c0 & s0 & E0 & Hstep & _); [done..|]. rewrite E in E0. by injection E0 as <-.
  - intros id [= <-]. by exists s.
  - split; [exact HI'|]. by split.
Qed.

Lemma wpr_shmdt g b d :
  let i := slot (count g) in
  wpr 1 (act (fun c => Ret (shmdt system (InSegment (shmid b)) c))) (fun _ r' =>
    r' = looking g i b None d) (looking g i b (Some (shmid b)) d).
Proof.
  intros i. apply (wpr_act 1). intros c w HR Hlim HI.
  pose proof (inv_held_r _ _ _ _ b HI eq_refl) as Hb. destruct (inv_memory _ _ _ HI) as (n & Hn & Hm).
  destruct (inv_know_r _ _ _ HI) as [_ Hat].
  destruct (Hat (shmid b) eq_refl) as (j & b0 & s & [= <- <-] & Hp & Hs & Hatt).
  destruct (shmdt_ok n c b (delete i (blocks c)) (shmid b) s) as (ret & c' & E & _ & Hobj); [|done..|].
  { eapply memory_perm; [exact Hm|by apply delete_Permutation]. }
  exists ret, c'. eexists. rewrite E. split; [done|].
  destruct (inv_segment c w g b (Some (shmid b)) d c' None) as [HI' Hc]; [done| |done|done|].
  - intros n0 Hn0 Hm0. destruct (shmdt_ok n0 c b (delete i (blocks c)) (shmid b) s)
      as (ret0 & c0 & E0 & Hstep & _); [done..|]. rewrite E in E0. by injection E0 as <- <-.
  - split; [exact HI'|]. by split.
Qed.

Lemma wpr_resolve g b p :
  let i := slot (count g) in
  ptr_shm_or_mmap_writer b = InHeap p ->
  wpr 0 (act (fun c => p ← rrr_mmap_collection_resolve (handles b) (mmaps c); Ret (InHeap p, c)))
    (fun p' r' => p' = InHeap p /\ r' = looking g i b None None) (looking g i b None None).
Proof.
  intros i Hp. apply (wpr_act 0). intros c w HR Hlim HI.
  pose proof (inv_held_r _ _ _ _ b HI eq_refl) as Hb.
  destruct (inv_memory _ _ _ HI) as (n & Hn & _ & Hh & _).
  rewrite (heap_resolves n (mmaps c) _ p (size_capacity b) (handles b) Hh).
  - rewrite bind_ret. eexists _, c, _. split; [done|]. split; [exact HI|]. split; [done|lia].
  - apply list_elem_of_omap. exists b. split; [by eapply list_elem_of_lookup_2|].
    unfold block_place. by rewrite Hp.
Qed.

Section callback.
Context {W : Type} (callback : list Z -> W -> Z * W).

(** A message that is in the channel for the reader to take. *)
Definition next_message (g : list (list Z)) (m : list Z) : Prop :=
  exists w q, R w /\ sent w = g ++ m :: q.

Lemma wpr_call g b at_ (x : W) :
  let i := slot (count g) in
  wpr 0 (call callback (ptr_shm_or_mmap_writer b) (size_data b) x) (fun y r' => exists m,
    next_message g m /\ y = callback m x /\ r' = looking g i b at_ (Some m)) (looking g i b at_ None).
Proof.
  intros i. apply (wpr_act 0). intros c w HR Hlim HI.
  pose proof (inv_held_r _ _ _ _ b HI eq_refl) as Hb.
  destruct (inv_first _ _ _ HI eq_refl) as (b0 & m & q & Hb0 & Hh & Hq). cbn in Hb0, Hq. fold i in Hb0.
  rewrite Hb in Hb0. injection Hb0 as <-. destruct Hh as (Hne & Hsize & l & Hl & Ht).
  unfold load. rewrite Hl.
  assert (length m <= length l)%nat as Hlen by (rewrite <-Ht, length_take; lia).
  rewrite (proj2 (Z.ltb_ge _ _)), Hsize, Nat2Z.id, Ht, bind_ret by lia.
  eexists _, c, (looking g i b at_ (Some m)). split; [done|]. split; [|split; [|lia]].
  - destruct HI as [Halive Hlenb Hring Hqueue Hmem Hlocks Hkw Hkr Hdata]. split; try done.
    intros d [= <-]. by exists q.
  - exists m. split; [by exists w, q|]. done.
Qed.

Lemma wpr_take g b m :
  let i := slot (count g) in
  wpr 0 (with_block (Z.of_nat i) (fun b c =>
      let cleanup := RRR_MMAP_CHANNEL_MAX_PERSISTENT_SIZE <? size_capacity b in
      Ret (cleanup, set_data cleanup 0 b, c))) (fun _ r' => exists b',
    r' = mk_r (g ++ [m]) (Some (i, b')) None None true false) (looking g i b None (Some m)).
Proof.
  intros i. apply wpr_block; [apply slot_lt|]. intros c w b1 HR HI Hb1.
  rewrite (inv_held_r _ _ _ _ b HI) in Hb1 by done. injection Hb1 as <-.
  eexists _, _, _. split; [done|]. split; [|by eauto].
  apply (inv_take c w (looking g i b None (Some m)) b m); done.
Qed.

Lemma wpr_unlock r i b :
  (i < Z.to_nat RRR_MMAP_CHANNEL_SLOTS)%nat -> r_held r = Some (i, b) -> r_at r = None ->
  wpr 0 (unlock (Z.of_nat i)) (fun _ r' => r' = mk_r (got r) None None None (r_late r) false) r.
Proof.
  intros Hi Hr Hat. apply wpr_block; [done|]. intros c w b1 HR HI Hb1.
  rewrite (inv_held_r _ _ _ _ b HI) in Hb1 by done. injection Hb1 as <-.
  pose proof (inv_held_r _ _ _ _ b HI Hr) as Hb.
  eexists tt, (set_lock Unlocked b), _. split; [done|]. split; [|done].
  pose proof (inv_locks _ _ _ HI) as Hlocks. pose proof (r_index_Some _ _ _ Hr) as Hri.
  assert (w_index w <> Some i) as Hwi by (intros Hw; by eapply locks_apart).
  assert (inv (with_new i (set_lock Unlocked b) c) w
    (mk_r (got r) None None None (r_late r) (r_seen r)) /\ (calls c <= calls c + 0)%nat) as [HI' _].
  { eapply (inv_block _ w r i b); try done; [by intros n _; apply relock_step|by right|..].
    - eapply locks_insert; [exact Hlocks|done| |by rewrite !decide_False].
      intros j Hj. rewrite Hri. split; [done|]. split; [done|]. by intros [= <-].
    - eapply know_w_frame; [apply HI|done|apply frame_refl|done]. }
  eapply inv_ghost; [exact HI'|..]; try done.
  destruct (inv_ring _ _ _ HI') as (Hwp & Hrp & Hec & He & Havail & Hroom). unfold ring_ok. cbn in *.
  repeat split; try done. destruct (r_seen r); cbn in *; lia.
Qed.

Lemma wpr_advance g m cleanup :
  wpr 0 (with_index (fun c => (tt, set_index (entry_count c - 1) (wpos c) (next_pos (rpos c))
                                    (cleanup_needed c || cleanup) (write_full_counter c) c)))
    (fun x r' => x = inr tt /\ r' = resting (g ++ [m])) (mk_r (g ++ [m]) None None None true false).
Proof.
  apply wpr_with_index. intros c w HR HI. exists (resting (g ++ [m])). cbn.
  split; [|by split]. eapply inv_index; [exact HI|..]; try done.
  destruct (inv_ring _ _ _ HI) as (Hwp & Hrp & Hec & He & Havail & Hroom). cbn in *.
  unfold ring_ok. cbn. rewrite Hrp, next_pos_mod, Z.sub_0_r.
  replace (count (g ++ [m]) - 1 + 1) with (count (g ++ [m])) by lia. repeat split; try done; lia.
Qed.

(** What a read comes to: nothing was there, or the channel is in use by the
    writer, or the callback was given the next message, which is taken when it
    returns 0. *)
Definition read_result (g : list (list Z)) (x : W) (y : Z * Z * W) (r' : rghost) : Prop :=
  let '(ret, n, x') := y in
  (r' = resting g /\ x' = x /\ n = 0 /\
    (ret = 0 /\ (exists w, R w /\ count (sent w) - Z.b2z (w_filled w) = count g) \/
     ret = RRR_MMAP_CHANNEL_EMPTY /\ exists w, R w /\ w_index w <> None)) \/
  exists m, next_message g m /\ x' = (callback m x).2 /\
    if (callback m x).1 =? 0 then ret = 0 /\ n = 1 /\ r' = resting (g ++ [m])
    else ret = 1 /\ n = 0 /\ r' = resting g.

Lemma wpr_read_done g b m ret st (x : W) :
  next_message g m -> st = (callback m x).1 -> (st <> 0 -> ret = 1) ->
  wpr 0 (read_done (Z.of_nat (slot (count g))) (st =? 0) ret (callback m x).2) (read_result g x)
    (looking g (slot (count g)) b None (Some m)).
Proof.
  intros Hm Hst Hret. pose proof (slot_lt (count g)) as Hi. unfold read_done.
  destruct (st =? 0) eqn:E.
  - eapply wp_bind0; [lia|by apply wpr_take|]. intros cl r1 (b' & ->).
    eapply wp_bind0; [lia|by eapply wpr_unlock|]. intros _ r2 ->. cbn [got r_late].
    eapply wp_bind0; [lia|by apply wpr_advance|]. intros y r3 [-> ->].
    right. exists m. rewrite <-Hst, E. by repeat split.
  - eapply wp_bind0; [lia|by eapply wpr_unlock|]. intros _ r2 ->. cbn.
    right. exists m. rewrite <-Hst, E. repeat split; try done. apply Hret. lia.
Qed.

Lemma wpr_read_with_callback g (x : W) :
  wpr 2 (rrr_mmap_channel_read_with_callback system callback x) (read_result g x) (resting g).
Proof.
  unfold rrr_mmap_channel_read_with_callback. pose proof (slot_lt (count g)) as Hi.
  eapply wp_bind0; [lia|apply wpr_look|]. intros y r1 (n & -> & Hn). cbv beta iota.
  destruct (n =? 0) eqn:E0.
  { destruct Hn as [-> Hw]. cbn. left. do 3 (split; [done|]). by left. }
  subst r1. eapply wp_bind0; [lia|apply wpr_trylock|].
  intros ret r2 [[-> [b ->]]|[-> [-> (w & HR & Hw)]]].
  2: { cbn. left. do 3 (split; [done|]). right. split; [done|]. exists w. split; [done|]. by rewrite Hw. }
  cbn [Z.eqb negb RRR_POSIX_MUTEX_ROBUST_OK RRR_READ_OK].
  eapply wp_bind0; [lia|apply wpr_read|]. intros b' r3 (-> & -> & Hne & Hp).
  rewrite (proj2 (Z.eqb_neq _ _)) by done. destruct (shmid b =? 0) eqn:Es; cbn [negb].
  - destruct Hp as [p Hp]. eapply (wp_mono _ _ _ 0); [|lia|done].
    eapply wp_bind0; [lia|by apply (wpr_resolve g b p)|]. intros p' r4 [-> ->]. rewrite <-Hp.
    eapply wp_bind0; [lia|apply wpr_call|]. intros [st x'] r5 (m & Hm & Hy & ->).
    replace x' with (callback m x).2 by (by rewrite <-Hy).
    apply wpr_read_done; [done|by rewrite <-Hy|]. intros Hst. by rewrite (proj2 (Z.eqb_neq _ _)).
  - change 2 with (1 + 1). eapply wp_bind; [lia|lia|by apply wpr_shmat|]. intros p' r4 [-> ->].
    rewrite decide_False by done. rewrite <-Hp at 1.
    eapply wp_bind0; [lia|apply wpr_call|]. intros [st x'] r5 (m & Hm & Hy & ->).
    replace x' with (callback m x).2 by (by rewrite <-Hy). change 1 with (1 + 0) at 1.
    eapply wp_bind; [lia|lia|apply wpr_shmdt|]. intros d r6 ->.
    apply wpr_read_done; [done|by rewrite <-Hy|]. intros Hst. by rewrite (proj2 (Z.eqb_neq _ _)).
Qed.

End callback.
End reader.

(** * The queue *)

(** The message of a block. *)
Definition block_message (c : channel) (b : block) : list Z :=
  match object (ptr_shm_or_mmap_writer b) c with
  | Some l => take (Z.to_nat (size_data b)) l
  | None => []
  end.

(** The messages from the position of the reader on. *)
Definition queued (c : channel) : list (list Z) :=
  omap (fun k => block_message c <$> blocks c !! slot (rpos c + k)) (seqZ 0 (entry_count c)).

(** No process is in an operation, and the channel holds the messages [q]. *)
Definition at_rest (c : channel) (q : list (list Z)) : Prop :=
  exists g, inv c (mk_w (g ++ q) None false) (mk_r g None None None false false).

Lemma holds_message c b m : holds c b m -> block_message c b = m.
Proof.
  intros (_ & Hs & l & Hl & Ht). unfold block_message. by rewrite Hl, Hs, Nat2Z.id.
Qed.

Lemma omap_seqZ {A} (f : Z -> option A) (q : list A) a :
  (forall k x, q !! k = Some x -> f (a + Z.of_nat k) = Some x) ->
  omap f (seqZ a (Z.of_nat (length q))) = q.
Proof.
  revert a. induction q as [|x q IH]; intros a Hf; [done|].
  cbn [length]. rewrite seqZ_cons by lia. cbn [omap list_omap].
  assert (f a = Some x) as -> by (rewrite <-(Hf 0%nat x eq_refl); f_equal; lia). f_equal.
  replace (Z.pred (Z.of_nat (S (length q)))) with (Z.of_nat (length q)) by lia.
  apply IH. intros k y Hk. replace (Z.succ a + Z.of_nat k) with (a + Z.of_nat (S k)) by lia. by apply Hf.
Qed.

Lemma at_rest_queued c q : at_rest c q -> queued c = q.
Proof.
  intros [g HI]. destruct (inv_ring _ _ _ HI) as (_ & Hrp & Hec & _). cbn in *.
  destruct (inv_queue _ _ _ HI) as (q0 & Hq0 & Hqok & _). cbn in Hq0. apply app_inv_head in Hq0 as <-.
  rewrite !Z.sub_0_r, count_app in *. unfold queued. rewrite Hec.
  replace (count g + count q - count g) with (Z.of_nat (length q)) by (unfold count; lia).
  apply omap_seqZ. intros k m Hm. destruct (Hqok k m Hm) as (b & Hb & Hh). cbn in Hb.
  replace (slot (rpos c + (0 + Z.of_nat k))) with (slot (count g + Z.of_nat k)).
  - rewrite Hb. cbn. by rewrite (holds_message c b m Hh).
  - unfold slot. f_equal. rewrite Hrp, Z.add_0_l. by rewrite Zplus_mod_idemp_l.
Qed.

Lemma inv_new h n :
  heap_ok 0 h [] ->
  inv (rrr_mmap_channel_new h n) (mk_w [] None false) (mk_r [] None None None false false).
Proof.
  intros Hh. split; try done.
  - exists []. split; [done|]. split; [done|]. intros k Hk. exists zero_block. split; [|done].
    cbn. apply lookup_replicate_2, slot_lt.
  - exists 0. split; [done|]. split; [apply Forall_replicate; by repeat split|].
    change (blocks (rrr_mmap_channel_new h n)) with (replicate (Z.to_nat RRR_MMAP_CHANNEL_SLOTS) zero_block).
    split.
    + by replace (omap _ _) with (@nil (Z * Z * (Z * Z))) by done.
    + replace (omap _ _) with (@nil Z) by done. constructor.
  - split; [done|]. intros j b Hj. cbn in Hj. apply lookup_replicate_1 in Hj as [-> _]. by rewrite !decide_False.
Qed.

(** Maintenance of the heaps. *)
Lemma maintenance_ok c w r :
  inv c w r -> Z.of_nat (calls c) + 1 < heap_limit ->
  exists c', run rrr_mmap_channel_maintenance c = Ret (tt, c') /\ inv c' w r /\ calls c' = S (calls c).
Proof.
  intros [Halive Hlen Hring Hqueue (n & Hn & Hb & Hh & Hs) Hlocks Hkw Hkr Hdata] Hlim.
  destruct (heap_maintains n (mmaps c) (omap block_place (blocks c))) as (h' & E & Hh'); [lia|done|].
  cbn. rewrite E, !bind_ret. eexists. split; [done|]. split; [|done].
  split; try done. exists (n + 1). split; [cbn; lia|].
  split; [eapply blocks_ok_frame; [by apply frame_calls|exact Hb]|]. by split.
Qed.


(** C7. A channel is a bounded queue: an operation that runs without the other
    process in between returns.  A write of a message that is not empty puts
    it at the end, or leaves the channel as it is, with the status for a full
    channel exactly when all slots are taken, or the one for errors.  A read gives
    the first message to the callback and takes it out when the callback returns 0;
    there is nothing to read only when the channel is empty.
    The one way in which a write does not return: it comes to a state in which the heaps
    have no memory for the message, and the dump of the heaps that follows reads past the
    end of one of them.  Messages have fewer than 2^64 - 4096 bytes, and those of more than
    8192 bytes, which are kept in segments, are only written where [shmat] never fails (the
    code does not notice when it does).  The calls of the heaps and the system, all told, stay
    below [heap_limit], which is 2^25 - 2 for the collections of heaps. *)
Theorem rrr_mmap_channel_is_queue c q :
  at_rest c q -> Z.of_nat (calls c) + RRR_MMAP_CHANNEL_SLOTS + 3 < heap_limit ->
  (forall notify st data, data <> [] -> Z.of_nat (length data) + 4096 < 2 ^ 64 ->
     Z.of_nat (length data) <= RRR_MMAP_CHANNEL_SHM_LIMIT \/ (forall n, system SHMAT n = true) ->
     let write := rrr_mmap_channel_write_using_callback system shmget old notify
                    (Z.of_nat (length data)) (st, data) in
     (run write c = Oob /\ exists c1, stops_at write c c1 /\ unanswered (Z.of_nat (length data)) c1) \/
     exists ret c', run write c = Ret (ret, c') /\ at_rest c' (queued c') /\
       (st = 0 /\ ret = default 0 notify /\ queued c' = q ++ [data] /\ count q < RRR_MMAP_CHANNEL_SLOTS \/
        queued c' = q /\ (ret = 1 \/ ret = RRR_MMAP_CHANNEL_FULL /\ count q = RRR_MMAP_CHANNEL_SLOTS))) /\
  (forall (W : Type) (callback : list Z -> W -> Z * W) x,
     exists ret n x' c',
       run (rrr_mmap_channel_read_with_callback system callback x) c = Ret ((ret, n, x'), c') /\
       at_rest c' (queued c') /\
       match q with
       | [] => ret = 0 /\ n = 0 /\ x' = x /\ queued c' = []
       | m :: rest => x' = (callback m x).2 /\
         if (callback m x).1 =? 0 then ret = 0 /\ n = 1 /\ queued c' = rest
         else ret = 1 /\ n = 0 /\ queued c' = q
       end).
Proof using shmget_new.
  intros [g HI] Hlim. split.
  - intros notify st data Hne Hmax Hsto write.
    pose proof (wp_write (eq (mk_r g None None None false false))
      (fun c _ => unanswered (Z.of_nat (length data)) c) (mk_w (g ++ q) None false)
      notify st data eq_refl eq_refl Hne Hmax Hsto ltac:(done)) as Hwp.
    destruct (wp_run _ _ _ _ _ _ _ c _ Hwp eq_refl ltac:(lia) HI)
      as (c' & w' & HI' & _ & [(ret & Hrun & Hres)|(Hrun & Hstop & Hun)]).
    2: { left. split; [exact Hrun|]. by exists c'. }
    right. exists ret, c'. split; [done|]. destruct Hres as [(Hst & Hret & ->)|(-> & Hret)].
    + cbn in HI'. rewrite <-app_assoc in HI'.
      assert (at_rest c' (q ++ [data])) as Hq by by exists g. rewrite (at_rest_queued _ _ Hq).
      split; [done|]. left. do 3 (split; [done|]).
      destruct (inv_ring _ _ _ HI') as (_ & _ & _ & _ & _ & Hroom). cbn in Hroom.
      rewrite !count_app in Hroom. change (count [data]) with 1 in Hroom. lia.
    + assert (at_rest c' q) as Hq by by exists g. rewrite (at_rest_queued _ _ Hq).
      split; [done|]. right. split; [done|]. destruct Hret as [?|(? & r & <- & Hr)]; [by left|right].
      split; [done|]. cbn in Hr. rewrite count_app in Hr. destruct Hr; [done|lia].
  - intros W callback x.
    pose proof (wpr_read_with_callback (eq (mk_w (g ++ q) None false)) callback g x) as Hwp.
    destruct (wp_run (fun c r w => inv c w r) _ _ _ _ _ _ c _ Hwp eq_refl
      ltac:(unfold RRR_MMAP_CHANNEL_SLOTS in *; lia) HI)
      as (c' & r' & HI' & _ & [([[ret n] x'] & Hrun & Hres)|(_ & _ & [])]).
    exists ret, n, x', c'. split; [done|].
    destruct Hres as [(-> & -> & -> & Hret)|(m & (w & q' & <- & Hq) & -> & Hres)].
    + assert (at_rest c' q) as Hq by by exists g. rewrite (at_rest_queued _ _ Hq). split; [done|].
      destruct Hret as [(-> & w & <- & Hw)|(_ & w & <- & Hw)]; [|done].
      cbn in Hw. rewrite count_app in Hw. destruct q; [done|]. unfold count in Hw. simpl in Hw. lia.
    + cbn in Hq. apply app_inv_head in Hq as ->. destruct ((callback m x).1 =? 0).
      * destruct Hres as (-> & -> & ->).
        assert (at_rest c' q') as Hq by (exists (g ++ [m]); by rewrite <-app_assoc).
        by rewrite (at_rest_queued _ _ Hq).
      * destruct Hres as (-> & -> & ->).
        assert (at_rest c' (m :: q')) as Hq by by exists g. by rewrite (at_rest_queued _ _ Hq).
Qed.

(** * Two processes *)

Abbreviation program := (proc (H := H)).

(** The messages accepted by the channel and the operation of the writer, with its
    message; the messages received and the operation of the reader.  The callback
    of the reader accepts messages as it likes and keeps them. *)
Record pair := mk_pair {
  ch : channel;
  accepted : list (list Z);
  writing : option (list Z * program Z);
  received : list (list Z);
  reading : option (program (Z * Z * list (list Z)))
}.

Section processes.
Context (accepts : list Z -> list (list Z) -> bool).

Definition keep (m : list Z) (log : list (list Z)) : Z * list (list Z) :=
  if accepts m log then (0, log ++ [m]) else (1, log).

(** An operation is only begun when there are calls left for it. *)
Definition calls_left (c : channel) : Prop :=
  Z.of_nat (calls c) + RRR_MMAP_CHANNEL_SLOTS + 6 < heap_limit.

Inductive step : pair -> pair -> Prop :=
| write_begins c acc rec rd notify st data :
    data <> [] -> Z.of_nat (length data) + 4096 < 2 ^ 64 ->
    Z.of_nat (length data) <= RRR_MMAP_CHANNEL_SHM_LIMIT \/ (forall n, system SHMAT n = true) ->
    default 0 notify = 0 -> calls_left c ->
    step (mk_pair c acc None rec rd)
      (mk_pair c acc (Some (data, rrr_mmap_channel_write_using_callback system shmget old notify
        (Z.of_nat (length data)) (st, data))) rec rd)
| write_acts c acc data B action (k : B -> program Z) rec rd b c' :
    action c = Ret (b, c') ->
    step (mk_pair c acc (Some (data, Step action k)) rec rd) (mk_pair c' acc (Some (data, k b)) rec rd)
| write_ends c acc data ret rec rd :
    step (mk_pair c acc (Some (data, Done ret)) rec rd)
      (mk_pair c (if ret =? 0 then acc ++ [data] else acc) None rec rd)
| read_begins c acc wr rec :
    calls_left c ->
    step (mk_pair c acc wr rec None)
      (mk_pair c acc wr rec (Some (rrr_mmap_channel_read_with_callback system keep rec)))
| read_acts c acc wr rec B action (k : B -> program (Z * Z * list (list Z))) b c' :
    action c = Ret (b, c') ->
    step (mk_pair c acc wr rec (Some (Step action k))) (mk_pair c' acc wr rec (Some (k b)))
| read_ends c acc wr rec ret n log :
    step (mk_pair c acc wr rec (Some (Done (ret, n, log)))) (mk_pair c acc wr log None)
| maintenance c acc wr rec rd c' :
    calls_left c -> run rrr_mmap_channel_maintenance c = Ret (tt, c') ->
    step (mk_pair c acc wr rec rd) (mk_pair c' acc wr rec rd).

Definition anyone {A} (_ : A) : Prop := True.

Definition writer_ok (m : Z) (acc : list (list Z)) (wr : option (list Z * program Z)) (w : wghost) : Prop :=
  match wr with
  | None => w = mk_w acc None false
  | Some (data, p) => wp inv anyone
      (fun c w' => unanswered (Z.of_nat (length data)) c /\ sent w' = acc) m p (fun ret w' =>
      w' = mk_w (if ret =? 0 then acc ++ [data] else acc) None false) w
  end.

Definition reader_ok (m : Z) (rec : list (list Z)) (rd : option (program (Z * Z * list (list Z)))) (r : rghost)
  : Prop :=
  match rd with
  | None => r = mk_r rec None None None false false
  | Some p => wp (fun c r w => inv c w r) anyone (fun _ _ => False) m p (fun y r' =>
      r' = mk_r y.2 None None None false false /\ rec `prefix_of` y.2) r
  end.

Definition pair_ok (s : pair) : Prop :=
  exists w r mw mr, inv (ch s) w r /\ 0 <= mw <= RRR_MMAP_CHANNEL_SLOTS + 3 /\ 0 <= mr <= 2 /\
    Z.of_nat (calls (ch s)) + mw + mr < heap_limit /\
    writer_ok mw (accepted s) (writing s) w /\ reader_ok mr (received s) (reading s) r.


Lemma write_post acc notify st data ret w' :
  default 0 notify = 0 ->
  write_result anyone (mk_w acc None false) notify (st, data) ret w' ->
  w' = mk_w (if ret =? 0 then acc ++ [data] else acc) None false.
Proof.
  intros Hn [(_ & -> & ->)|(-> & [->|(-> & _)])]; [|done..]. by rewrite Hn.
Qed.

Lemma read_post rec y r' :
  read_result anyone keep rec rec y r' ->
  r' = mk_r y.2 None None None false false /\ rec `prefix_of` y.2.
Proof.
  destruct y as [[ret n] log]. intros [(-> & -> & _)|(m & _ & -> & Hres)]; [done|].
  unfold keep in *. destruct (accepts m rec); cbn in *; destruct Hres as (_ & _ & ->); [|done].
  split; [done|]. by apply prefix_app_r.
Qed.

Lemma pair_step_ok s s' : pair_ok s -> step s s' -> pair_ok s'.
Proof using shmget_new.
  intros (w & r & mw & mr & HI & Hmw & Hmr & Hlim & Hw & Hr) Hstep.
  inversion Hstep as [c acc rec rd notify st data Hne Hmax Hst Hnot Hleft|c acc data B action k rec rd b c' Hact
    |c acc data ret rec rd|c acc wr rec Hleft|c acc wr rec B action k b c' Hact|c acc wr rec ret n log
    |c acc wr rec rd c' Hleft Hrun]; subst; clear Hstep; unfold pair_ok, calls_left in *;
    cbn [ch accepted writing received reading writer_ok reader_ok] in *.
  - subst w. exists (mk_w acc None false), r, (RRR_MMAP_CHANNEL_SLOTS + 3), mr.
    do 4 (split; [done || (unfold RRR_MMAP_CHANNEL_SLOTS in *; lia)|]). split; [|done].
    eapply wp_mono; [by apply wp_write|lia|]. intros ret w'. by apply write_post.
  - destruct (Hw c r I) as [[_ Hoob]|(b0 & c0 & w' & m' & Hact0 & Hm' & Hcalls & HI' & Hk)];
      [lia|done|by rewrite Hact in Hoob|].
    rewrite Hact in Hact0. injection Hact0 as <- <-. exists w', r, m', mr.
    do 4 (split; [done || lia|]). by split.
  - cbn in Hw. subst w. exists (mk_w (if ret =? 0 then acc ++ [data] else acc) None false), r, mw, mr.
    do 4 (split; [done|]). by split.
  - subst r. exists w, (mk_r rec None None None false false), mw, 2.
    do 4 (split; [done || (unfold RRR_MMAP_CHANNEL_SLOTS in *; lia)|]). split; [done|].
    eapply wp_mono; [apply wpr_read_with_callback|lia|]. intros y r'. apply read_post.
  - destruct (Hr c w I) as [[[] _]|(b0 & c0 & r' & m' & Hact0 & Hm' & Hcalls & HI' & Hk)]; [lia|done|].
    rewrite Hact in Hact0. injection Hact0 as <- <-. exists w, r', mw, m'.
    do 4 (split; [done || lia|]). by split.
  - cbn in Hr. destruct Hr as [-> _]. exists w, (mk_r log None None None false false), mw, mr.
    do 4 (split; [done|]). by split.
  - destruct (maintenance_ok c w r HI) as (c0 & Hrun0 & HI' & Hcalls);
      [unfold RRR_MMAP_CHANNEL_SLOTS in *; lia|].
    rewrite Hrun in Hrun0. injection Hrun0 as <-. exists w, r, mw, mr.
    do 4 (split; [done || (unfold RRR_MMAP_CHANNEL_SLOTS in *; lia)|]). by split.
Qed.

Lemma pair_steps_ok s s' : rtc step s s' -> pair_ok s -> pair_ok s'.
Proof using shmget_new. induction 1; [done|]. eauto using pair_step_ok. Qed.

(** What has been received, and what would have been received if both processes
    went on alone from here. *)
Lemma pair_prefix s :
  pair_ok s -> received s `prefix_of` accepted s ++ match writing s with Some (data, _) => [data] | None => [] end.
Proof.
  destruct s as [c acc wr rec rd]. intros (w & r & mw & mr & HI & Hmw & Hmr & Hlim & Hw & Hr). cbn in *.
  assert (exists c' w', inv c' w' r /\ Z.of_nat (calls c') + mr < heap_limit /\
    sent w' `prefix_of` acc ++ match wr with Some (data, _) => [data] | None => [] end) as (c' & w' & HI' & Hc' & Hpre).
  { destruct wr as [[data p]|]; cbn in Hw.
    - destruct (wp_run _ _ _ _ _ _ _ c r Hw I ltac:(lia) HI) as (c' & w' & HI' & Hc & Hres).
      exists c', w'. split; [exact HI'|]. specialize (Hc ltac:(lia)). split; [lia|].
      destruct Hres as [(ret & _ & ->)|(_ & _ & _ & ->)]; [cbn; destruct (ret =? 0); [done|]|];
        by apply prefix_app_r.
    - subst w. eexists c, _. split; [exact HI|]. split; [lia|]. by rewrite app_nil_r. }
  assert (exists c2 r2, inv c2 w' r2 /\ rec `prefix_of` got r2) as (c2 & r2 & HI2 & Hrec).
  { destruct rd as [p|]; cbn in Hr.
    - destruct (wp_run (fun c r w => inv c w r) _ _ _ _ _ _ c' w' Hr I Hc' HI')
        as (c2 & r2 & HI2 & _ & [(y & _ & -> & Hy)|(_ & _ & [])]). by eexists c2, _.
    - subst r. by eexists c', _. }
  destruct (inv_queue _ _ _ HI2) as (q & Hq & _). etrans; [exact Hrec|]. etrans; [|exact Hpre].
  rewrite Hq. by apply prefix_app_r.
Qed.

(** C6. A channel between two processes: whatever the order in which the actions of
    the operations of a writer and a reader are done, with maintenance of the heaps
    in between, the messages that
    the reader was given are the first ones of those the channel has accepted,
    followed by the one that is being written, each once, whole and in order; and
    when no operation is going on, the messages accepted are the ones received
    followed by the ones in the channel.  Every next action of the reader is defined, and
    every next action of the writer but one: when the heaps have no memory for the message,
    the dump of the heaps that follows may read past the end of one of them.
    Messages are not empty and have fewer than 2^64 - 4096 bytes; those of more than 8192
    bytes, which are kept in segments, are only written where [shmat] never fails (the code
    does not notice when it does).  Notifying the reader succeeds.  An operation is only
    begun while the calls of the heaps and the system, all told, stay below [heap_limit],
    which is 2^25 - 2 for the collections of heaps. *)
Theorem rrr_mmap_channel_delivers h n s :
  heap_ok 0 h [] -> RRR_MMAP_CHANNEL_SLOTS + 6 < heap_limit ->
  rtc step (mk_pair (rrr_mmap_channel_new h n) [] None [] None) s ->
  received s `prefix_of` accepted s ++ match writing s with Some (data, _) => [data] | None => [] end /\
  (writing s = None -> reading s = None -> accepted s = received s ++ queued (ch s)) /\
  (forall data B action (k : B -> program Z), writing s = Some (data, Step action k) ->
     returns (action (ch s)) \/ (action (ch s) = Oob /\ unanswered (Z.of_nat (length data)) (ch s))) /\
  (forall B action (k : B -> program (Z * Z * list (list Z))), reading s = Some (Step action k) ->
     returns (action (ch s))).
Proof using shmget_new.
  intros Hh Hlimit Hsteps.
  assert (pair_ok s) as Hok.
  { apply (pair_steps_ok _ _ Hsteps).
    eexists _, _, 0, 0. split; [by apply inv_new|]. cbn. unfold RRR_MMAP_CHANNEL_SLOTS in *.
    do 3 (split; [lia|]). done. }
  split; [by apply pair_prefix|]. destruct s as [c acc wr rec rd].
  destruct Hok as (w & r & mw & mr & HI & Hmw & Hmr & Hlim & Hw & Hr). cbn in *. split_and!.
  - intros -> ->. cbn in *. subst w r. destruct (inv_queue _ _ _ HI) as (q & Hq & _). cbn in Hq. subst acc.
    f_equal. symmetry. apply at_rest_queued. by exists rec.
  - intros data B action k ->. destruct (Hw c r I) as [[[Hun _] Hoob]|(b & c' & _ & _ & -> & _)];
      [lia|done|by right|left; by eexists].
  - intros B action k ->. destruct (Hr c w I) as [[[] _]|(b & c' & _ & _ & -> & _)]; [lia|done|]. by eexists.
Qed.

(** A process that runs alone takes its steps. *)
Lemma run_writes c acc data p rec rd ret c' :
  run p c = Ret (ret, c') ->
  rtc step (mk_pair c acc (Some (data, p)) rec rd)
    (mk_pair c' (if ret =? 0 then acc ++ [data] else acc) None rec rd).
Proof.
  revert c. induction p as [a|B action k IH]; intros c Hrun; cbn in Hrun.
  - injection Hrun as <- <-. apply rtc_once. constructor.
  - destruct (action c) as [[b c1]| |] eqn:E; [|done..]. cbn in Hrun.
    eapply rtc_l; [by apply write_acts, E|]. by apply IH.
Qed.

Lemma run_reads c acc wr rec p ret n log c' :
  run p c = Ret ((ret, n, log), c') ->
  rtc step (mk_pair c acc wr rec (Some p)) (mk_pair c' acc wr log None).
Proof.
  revert c. induction p as [a|B action k IH]; intros c Hrun; cbn in Hrun.
  - injection Hrun as -> ->. apply rtc_once. constructor.
  - destruct (action c) as [[b c1]| |] eqn:E; [|done..]. cbn in Hrun.
    eapply rtc_l; [by apply read_acts, E|]. by apply IH.
Qed.

End processes.

End memory.

(** * The heaps of a collection

    The collections of heaps of [MmapCollection] are shared heaps.  The handle of a
    heap is its address here: a block is found by the heap it is in and its place
    there.  After 2^25 calls the version of the collection may have come round. *)
Section collection.
Import MmapCollection.
Context (posix_mmap : list (Z * Z) -> Z -> option Z).
Context (posix_mmap_fresh : forall rs size h, posix_mmap rs size = Some h ->
  0 < h /\ h + size < 2 ^ 64 /\ Forall (apart (h, size)) rs).

Definition heap_of (c : rrr_mmap_collection) (p : Z) : Z :=
  match List.find (fun e => (e_heap e <=? p) && (p <? e_heap e + e_size e)) (MmapCollection.mmaps c) with
  | Some e => e_heap e
  | None => 0
  end.

Definition collection_allocate (bytes min : Z) (h : rrr_mmap_collection * private_data)
  : outcome (option (Z * (Z * Z)) * (rrr_mmap_collection * private_data)) :=
  '(p, c) ← rrr_mmap_collection_allocate posix_mmap h.1 bytes min;
  match p with
  | Some p => Ret (Some (p, (heap_of c p, p - heap_of c p)), (c, h.2))
  | None => Ret (None, (c, h.2))
  end.

Definition collection_free_one (p : Z) (h : rrr_mmap_collection * private_data)
  : outcome (Z * (rrr_mmap_collection * private_data)) :=
  '(ret, ds) ← rrr_mmap_collections_free [(h.2, h.1)] p;
  match ds with [(pd, c)] => Ret (ret, (c, pd)) | _ => Oob end.

Definition collection_maintain (h : rrr_mmap_collection * private_data)
  : outcome (rrr_mmap_collection * private_data) :=
  '(cs, _) ← rrr_mmap_collections_maintenance [h.1];
  match cs with [c] => Ret (c, h.2) | _ => Oob end.

Definition collection_limit : Z := 2 ^ 25 - 2.

Definition collection_uses (n : Z) (h : rrr_mmap_collection * private_data) (R : list (Z * Z * (Z * Z)))
  : Prop :=
  0 <= n /\ (exists R0, used posix_mmap (Z.to_nat n) (h.1, h.2, R0) /\ R0 ≡ₚ R.*1) /\
  Forall (fun x => 0 < x.1.2 /\ x.2.1 + x.2.2 = x.1.1) R.

Definition collection_cut_short (bytes : Z) (h : rrr_mmap_collection * private_data) : Prop :=
  exists c, try_allocate posix_mmap h.1 bytes RRR_MMAP_CHANNEL_MMAP_SIZE = Ret (None, c) /\ cut_short c.

Lemma distinct_NoDup (R : list (Z * Z)) :
  (forall a b R', R ≡ₚ a :: b :: R' -> a.1 <> b.1) -> NoDup R.*1.
Proof.
  induction R as [|x R IH]; intros Hd; cbn; constructor.
  - intros (y & Hxy & Hy)%list_elem_of_fmap. apply list_elem_of_split in Hy as (l1 & l2 & ->).
    apply (Hd x y (l1 ++ l2)); [|done]. by rewrite <-Permutation_middle.
  - apply IH. intros a b R' HR. apply (Hd a b (x :: R')). rewrite HR. by rewrite !(Permutation_swap x).
Qed.

Lemma collection_limit_ok n : 0 <= n < collection_limit -> 128 * (Z.of_nat (Z.to_nat n) + 1) < 2 ^ 32 - 1.
Proof. unfold collection_limit. lia. Qed.

Lemma collection_distinct n h R :
  n < collection_limit -> collection_uses n h R -> NoDup ((fun x => x.1.1) <$> R).
Proof using posix_mmap_fresh.
  intros Hn (Hn0 & (R0 & Hu & HP) & HF). change (NoDup ((fst ∘ fst) <$> R)). rewrite list_fmap_compose.
  rewrite <-HP. apply distinct_NoDup. intros a b R' HR Hab.
  assert (forall x, x ∈ R0 -> 0 < x.2) as Hpos.
  { intros x Hx. rewrite HP in Hx. apply list_elem_of_fmap in Hx as (y & -> & Hy).
    rewrite Forall_forall in HF. by destruct (HF y Hy). }
  pose proof (used_apart posix_mmap posix_mmap_fresh _ _ _ _ (collection_limit_ok n ltac:(lia)) Hu a b R' HR).
  assert (0 < a.2) by (apply Hpos; rewrite HR; left).
  assert (0 < b.2) by (apply Hpos; rewrite HR; right; left). lia.
Qed.

Lemma collection_allocates n h R bytes :
  n < collection_limit -> collection_uses n h R -> 0 < bytes <= RRR_MMAP_CHANNEL_SHM_LIMIT ->
  (collection_cut_short bytes h /\ collection_allocate bytes RRR_MMAP_CHANNEL_MMAP_SIZE h = Oob) \/
  exists a h', collection_allocate bytes RRR_MMAP_CHANNEL_MMAP_SIZE h = Ret (a, h') /\
    match a with
    | Some (p, hd) => collection_uses (n + 1) h' ((p, bytes, hd) :: R)
    | None => collection_uses (n + 1) h' R
    end.
Proof using posix_mmap_fresh.
  intros Hn (Hn0 & (R0 & Hu & HP) & HF) Hb. unfold RRR_MMAP_CHANNEL_SHM_LIMIT in Hb.
  assert (0 <= RRR_MMAP_CHANNEL_MMAP_SIZE) as Hmin by done.
  assert (Z.max bytes RRR_MMAP_CHANNEL_MMAP_SIZE + 4624 < 2 ^ 63) as Hmax
    by (unfold RRR_MMAP_CHANNEL_MMAP_SIZE; lia).
  destruct (used_allocates posix_mmap posix_mmap_fresh _ _ _ _ bytes RRR_MMAP_CHANNEL_MMAP_SIZE
    (collection_limit_ok n ltac:(lia)) Hu) as (p & c' & Et & Ha); [lia|done..|].
  unfold collection_allocate. destruct Ha as [[[-> Hcut] ->]|[_ E]]; [left; split; [by exists c'|done]|right].
  rewrite E, bind_ret.
  assert (Z.to_nat (n + 1) = S (Z.to_nat n)) as En by lia.
  destruct p as [p|]; eexists _, _; (split; [done|]); (split; [lia|]); cbn [fst snd]; rewrite En.
  - split.
    + exists ((p, bytes) :: R0). split; [|cbn; by rewrite HP]. eapply nsteps_r; [exact Hu|].
      eapply user_allocate; [lia|exact Hmin|exact Hmax|exact E].
    + constructor; [split; cbn [fst snd]; lia|done].
  - split; [|done]. exists R0. split; [|done]. eapply nsteps_r; [exact Hu|].
    eapply (user_no_memory _ _ _ _ bytes RRR_MMAP_CHANNEL_MMAP_SIZE); [lia|done..].
Qed.

Lemma collection_frees n h R p bytes hd :
  n < collection_limit -> collection_uses n h ((p, bytes, hd) :: R) ->
  exists h', collection_free_one p h = Ret (0, h') /\ collection_uses (n + 1) h' R.
Proof using posix_mmap_fresh.
  intros Hn (Hn0 & (R0 & Hu & HP) & HF). apply Forall_cons in HF as [_ HF].
  destruct (used_frees posix_mmap posix_mmap_fresh _ _ _ _ p bytes R.*1
    (collection_limit_ok n ltac:(lia)) Hu HP) as (c' & pd' & E & Hu').
  unfold collection_free_one. rewrite E, bind_ret. eexists. split; [done|]. split; [lia|].
  split; [|done]. exists R.*1. replace (Z.to_nat (n + 1)) with (S (Z.to_nat n)) by lia. by split.
Qed.

Lemma collection_maintains n h R :
  n < collection_limit -> collection_uses n h R ->
  exists h', collection_maintain h = Ret h' /\ collection_uses (n + 1) h' R.
Proof using posix_mmap_fresh.
  intros Hn (Hn0 & (R0 & Hu & HP) & HF).
  destruct (used_maintains posix_mmap posix_mmap_fresh _ _ _ _
    (collection_limit_ok n ltac:(lia)) Hu) as (c' & st & E & Hu').
  unfold collection_maintain. rewrite E, bind_ret. eexists. split; [done|]. split; [lia|].
  split; [|done]. exists R0. replace (Z.to_nat (n + 1)) with (S (Z.to_nat n)) by lia. by split.
Qed.

Lemma collection_perm n h R R' : collection_uses n h R -> R ≡ₚ R' -> collection_uses n h R'.
Proof.
  intros (Hn & (R0 & Hu & HP) & HF) HR. split; [done|]. split; [|by rewrite <-HR].
  exists R0. split; [done|]. by rewrite <-HR.
Qed.

Lemma collection_resolves n h R p bytes hd :
  collection_uses n h R -> (p, bytes, hd) ∈ R -> Ret (hd.1 + hd.2) = Ret p.
Proof.
  intros (_ & _ & HF) Hin. rewrite Forall_forall in HF. destruct (HF _ Hin) as [_ Hp].
  cbn in Hp. by rewrite Hp.
Qed.

#[local] Instance collection_heap : SharedHeap (rrr_mmap_collection * private_data) := {
  rrr_mmap_collection_allocate_with_handles := collection_allocate;
  rrr_mmap_collection_free := collection_free_one;
  rrr_mmap_collection_resolve := fun hd _ => Ret (hd.1 + hd.2);
  rrr_mmap_collection_maintenance := collection_maintain;
  heap_limit := collection_limit;
  heap_ok := collection_uses;
  heap_cut_short := collection_cut_short;
  heap_perm := collection_perm;
  heap_distinct := collection_distinct;
  heap_resolves := collection_resolves;
  heap_allocates := collection_allocates;
  heap_frees := collection_frees;
  heap_maintains := collection_maintains
}.

End collection.

(** * Concrete channels *)

(** One more than the largest id. *)
Definition new_id (segs : gmap Z segment) (size : Z) : option Z :=
  Some (1 + foldr Z.max 0 (map_to_list segs).*1).

Lemma foldr_max_le (l : list Z) x : x ∈ l -> x <= foldr Z.max 0 l.
Proof. induction l as [|y l IH]; [by intros ?%not_elem_of_nil|]. intros [->|Hx]%elem_of_cons; cbn; [lia|]. specialize (IH Hx). lia. Qed.

Lemma new_id_fresh segs size id : new_id segs size = Some id -> 0 < id /\ segs !! id = None.
Proof.
  intros [= <-]. assert (0 <= foldr Z.max 0 (map_to_list segs).*1) as Hpos.
  { induction (map_to_list segs).*1; cbn; lia. }
  split; [lia|]. destruct (segs !! _) as [s|] eqn:E; [|done]. apply elem_of_map_to_list in E.
  assert (1 + foldr Z.max 0 (map_to_list segs).*1 <= foldr Z.max 0 (map_to_list segs).*1); [|lia].
  apply foldr_max_le, list_elem_of_fmap. by eexists (_, s).
Qed.

Definition all_works (_ : syscall) (_ : nat) : bool := true.
Definition new_heap : MmapCollection.rrr_mmap_collection * MmapCollection.private_data :=
  (MmapCollection.collection_init,
   MmapCollection.rrr_mmap_collection_private_data_init MmapCollection.collection_init).

Definition example_heap := collection_heap MmapCollection.map_above MmapCollection.map_above_fresh.
#[local] Existing Instance example_heap.

Lemma new_heap_ok : heap_ok 0 new_heap [].
Proof. split; [done|]. split; [|done]. exists []. split; [|done]. constructor. Qed.

Lemma rrr_mmap_channel_is_queue_witness :
  let c := rrr_mmap_channel_new new_heap [] in
  (exists ret c', run (rrr_mmap_channel_write all_works new_id (fun _ => 0) None [1; 2; 3]) c = Ret (ret, c') /\
     ret = 0 /\ queued c' = [[1; 2; 3]]) /\
  (exists c', run (rrr_mmap_channel_read_with_callback all_works (fun m (l : list (list Z)) => (0, m :: l)) []) c
     = Ret ((0, 0, []), c') /\ queued c' = []).
Proof.
  intros c.
  destruct (rrr_mmap_channel_is_queue all_works new_id (fun _ => 0) new_id_fresh c [])
    as [Hw Hr].
  - exists []. apply inv_new, new_heap_ok.
  - done.
  - split.
    + assert (('(ret, _) ← run (rrr_mmap_channel_write all_works new_id (fun _ => 0) None [1; 2; 3]) c; Ret ret)
        = Ret 0) as Erun by (vm_compute; reflexivity).
      destruct (Hw None 0 [1; 2; 3] ltac:(done) ltac:(simpl; lia) (or_intror (fun _ => eq_refl)))
        as [[E _]|(ret & c' & E & _ & Hres)]; change (run _ c) with
        (run (rrr_mmap_channel_write all_works new_id (fun _ => 0) None [1; 2; 3]) c) in E;
        rewrite E in Erun; [discriminate|]. rewrite bind_ret in Erun. injection Erun as ->.
      exists 0, c'. split; [exact E|].
      destruct Hres as [(_ & _ & -> & _)|(_ & [?|[? _]])]; [done|discriminate..].
    + destruct (Hr _ (fun m (l : list (list Z)) => (0, m :: l)) []) as (ret & n & x & c' & E & _ & -> & -> & -> & Hq).
      by exists c'.
Defined.


Definition example_write := rrr_mmap_channel_write all_works new_id (fun _ => 0) None [1; 2; 3].
Definition example_read :=
  rrr_mmap_channel_read_with_callback all_works (keep (fun _ _ => true)) [].

Lemma two_runs {A B C} (m : outcome (A * C)) (f : C -> outcome (B * C)) a b :
  ('(x, c) ← m; '(y, _) ← f c; Ret (x, y)) = Ret (a, b) ->
  exists c1 c2, m = Ret (a, c1) /\ f c1 = Ret (b, c2).
Proof.
  destruct m as [[x c]| |]; [|done..]. rewrite bind_ret. destruct (f c) as [[y c2]| |] eqn:E; [|done..].
  intros [= -> ->]. by exists c, c2.
Qed.

(** One after the other. *)
Lemma example_run :
  ('(ret, c) ← run example_write (rrr_mmap_channel_new new_heap []);
   '(y, _) ← run example_read c; Ret (ret, y)) = Ret (0, (0, 1, [[1; 2; 3]])).
Proof. vm_compute. reflexivity. Qed.

Definition example_runs := two_runs _ _ _ _ example_run.

Abbreviation example_step := (step all_works new_id (fun _ => 0) (fun _ _ => true)).

(** Both operations are begun, and then the writer and the reader go on. *)
Lemma example_steps : exists c,
  rtc example_step (mk_pair (rrr_mmap_channel_new new_heap []) [] None [] None)
    (mk_pair c [[1; 2; 3]] None [[1; 2; 3]] None).
Proof.
  destruct example_runs as (c1 & c2 & Ew & Er). exists c2.
  eapply rtc_l; [apply (write_begins _ _ _ _ _ _ _ _ None 0 [1; 2; 3]); done || by left|].
  eapply rtc_l; [by apply read_begins|].
  etrans; [eapply run_writes; exact Ew|]. eapply run_reads. exact Er.
Qed.

Lemma rrr_mmap_channel_delivers_witness : exists c,
  rtc example_step (mk_pair (rrr_mmap_channel_new new_heap []) [] None [] None)
    (mk_pair c [[1; 2; 3]] None [[1; 2; 3]] None) /\ queued c = [].
Proof.
  destruct example_steps as [c Hsteps]. exists c. split; [exact Hsteps|].
  destruct (rrr_mmap_channel_delivers all_works new_id (fun _ => 0) new_id_fresh
    (fun _ _ => true) new_heap [] _ new_heap_ok eq_refl Hsteps) as (_ & Hall & _).
  specialize (Hall eq_refl eq_refl). cbn [accepted received ch app] in Hall.
  injection Hall as Hq. by rewrite <-Hq.
Defined.


(** * What is not as one would expect *)

Abbreviation write_one works data := (rrr_mmap_channel_write works new_id (fun _ => 0) None data).

Definition dead_owner : rrr_mmap_channel _ :=
  let c := rrr_mmap_channel_new new_heap [] in
  set_blocks (<[0%nat := set_lock OwnerDied zero_block]> (blocks c)) c.

(** A block whose lock was held by a process that died: the next to lock it gets an
    error and keeps it locked, after which the channel is full for ever. *)
Lemma dead_owner_keeps_block_locked :
  ('(r1, c) ← run (write_one all_works [1]) dead_owner; '(r2, c) ← run (write_one all_works [1]) c;
   Ret (r1, r2, block_lock <$> blocks c !! 0%nat, entry_count c))
  = Ret (1, RRR_MMAP_CHANNEL_FULL, Some (Locked Writer), 0).
Proof. vm_compute. reflexivity. Qed.

(** An empty message is written like any other, but its block counts as free: the
    reader does not get past it, and the message behind it is not read. *)
Lemma empty_message_stops_reader :
  ('(r1, c) ← run (write_one all_works []) (rrr_mmap_channel_new new_heap []);
   '(r2, c) ← run (write_one all_works [1]) c; '(r3, c) ← run example_read c; '(r4, c) ← run example_read c;
   Ret (r1, r2, r3, r4))
  = Ret (0, 0, (RRR_MMAP_CHANNEL_EMPTY, 0, []), (RRR_MMAP_CHANNEL_EMPTY, 0, [])).
Proof. vm_compute. reflexivity. Qed.

(** When no address space is left for a segment, the message is written to the
    pointer that says so. *)
Lemma shmat_failure_written :
  run (write_one (fun s _ => match s with SHMAT => false | _ => true end) (replicate 8193 1))
    (rrr_mmap_channel_new new_heap []) = Oob.
Proof. vm_compute. reflexivity. Qed.

(** Freeing the blocks leaves the number of messages. *)
Lemma free_blocks_leaves_count :
  ('(_, c) ← run (write_one all_works [1]) (rrr_mmap_channel_new new_heap []);
   '(_, c) ← run (rrr_mmap_channel_writer_free_blocks all_works) c;
   Ret (entry_count c, rpos c, size_data <$> blocks c !! 0%nat)) = Ret (1, 0, Some 0).
Proof. vm_compute. reflexivity. Qed.

(** When the reader could not be notified the message is in the channel all the
    same, although the status is an error. *)
Lemma notify_failure_keeps_message :
  ('(r, c) ← run (rrr_mmap_channel_write all_works new_id (fun _ => 0) (Some 1) [1])
     (rrr_mmap_channel_new new_heap []); Ret (r, queued c)) = Ret (1, [[1]]).
Proof. vm_compute. reflexivity. Qed.

End MmapChannelCorrect.
