(* ===== verification/Modbus.v ===== *)
(** The Modbus/TCP client (src/src/lib/modbus/rrr_modbus.c): a ring of 32
    transactions which are pushed, transmitted in order and consumed by the
    responses, and the parsing of these.

    Structures that go over the wire are lists of bytes as they lie in memory;
    [struct rrr_modbus_req] and [struct rrr_modbus_res] both have 252 of them.  A
    pointer to private data is an integer, 0 being NULL.  The callbacks thread a
    state [W]; a callback that is not set is [None], and calling it without the
    test the code makes elsewhere is [Oob]. *)
From stdpp Require Import gmap sets.
From S2P Require Import Prelude Types.

Module Modbus.
Import Types.

Definition RRR_MODBUS_OK : Z := RRR_READ_OK.
Definition RRR_MODBUS_SOFT_ERROR : Z := RRR_READ_SOFT_ERROR.
Definition RRR_MODBUS_BUSY : Z := 4.
Definition RRR_MODBUS_DONE : Z := RRR_READ_EOF.
Definition RRR_MODBUS_INCOMPLETE : Z := RRR_READ_INCOMPLETE.

Definition RRR_MODBUS_FUNCTION_CODE_01_READ_COILS : Z := 1.
Definition RRR_MODBUS_FUNCTION_CODE_02_READ_DISCRETE_INPUTS : Z := 2.
Definition RRR_MODBUS_FUNCTION_CODE_03_READ_HOLDING_REGISTERS : Z := 3.
Definition RRR_MODBUS_FUNCTION_CODE_04_READ_INPUT_REGISTERS : Z := 4.
Definition RRR_MODBUS_FUNCTION_CODE_06_WRITE_SINGLE_REGISTER : Z := 6.
Definition RRR_MODBUS_FUNCTION_CODE_16_WRITE_MULTIPLE_REGISTERS : Z := 0x10.

Definition RRR_MODBUS_CLIENT_TRANSACTION_MAX : Z := 32.
Definition RRR_MODBUS_CLIENT_TRANSACTION_TIMEOUT_S : Z := 1.

(** Sizes of the packed structures and of the members of the union in
    [struct rrr_modbus_res]. *)
Definition sizeof_mbap : Z := 7.
Definition sizeof_req : Z := 252.
Definition sizeof_res : Z := 252.
Definition sizeof_res_error : Z := 1.
Definition sizeof_read_res : Z := 251.
Definition sizeof_write_single_register_res : Z := 4.
Definition sizeof_write_multiple_registers_res : Z := 4.

Definition RRR_MODBUS_READ_REQ_SIZE : Z := 4 + 1.
Definition RRR_MODBUS_WRITE_SINGLE_REGISTER_REQ_SIZE : Z := 4 + 1.
Definition RRR_MODBUS_WRITE_MULTIPLE_REGISTERS_REQ_SIZE (contents_size : Z) : Z :=
  2 + 2 + 1 + contents_size + 1.

(** The header of a frame, its integers in host byte order. *)
Record rrr_modbus_mbap := mk_mbap {
  transaction_identifier : Z;
  protocol_identifier : Z;
  mbap_length : Z;
  unit_identifier : Z
}.

Record rrr_modbus_frame := mk_frame {
  mbap : rrr_modbus_mbap;
  res : list Z
}.

Record rrr_modbus_client_transaction := mk_transaction {
  transaction_id : Z;
  req : list Z;
  req_size : Z;
  transmit_time : Z;
  transaction_private_data : Z
}.

(** What [memset] to zero leaves. *)
Definition zero_req : list Z := replicate (Z.to_nat sizeof_req) 0.
Definition zero_transaction : rrr_modbus_client_transaction :=
  mk_transaction 0 zero_req 0 0 0.

Section with_world.
Context {W : Type}.

Record rrr_modbus_client_callbacks := mk_callbacks {
  (** argument, then status and result *)
  cb_req_transaction_private_data_create : option (Z -> W -> Z * Z * W);
  cb_req_transaction_private_data_destroy : option (Z -> W -> W);
  (** transaction id, function code, error code, private data *)
  cb_res_error : option (Z -> Z -> Z -> Z -> W -> Z * W);
  (** function code, transaction id, byte count, bytes, private data *)
  cb_res_01_read_coils : option (Z -> Z -> Z -> list Z -> Z -> W -> Z * W);
  cb_res_02_read_discrete_inputs : option (Z -> Z -> Z -> list Z -> Z -> W -> Z * W);
  cb_res_03_read_holding_registers : option (Z -> Z -> Z -> list Z -> Z -> W -> Z * W);
  cb_res_04_read_input_registers : option (Z -> Z -> Z -> list Z -> Z -> W -> Z * W);
  (** function code, transaction id, starting address, value, private data *)
  cb_res_06_write_single_register : option (Z -> Z -> Z -> list Z -> Z -> W -> Z * W);
  (** function code, transaction id, starting address, quantity, private data *)
  cb_res_16_write_multiple_registers : option (Z -> Z -> Z -> Z -> Z -> W -> Z * W)
}.

Record rrr_modbus_client := mk_client {
  transaction_id_pos : Z;
  transactions : list rrr_modbus_client_transaction;
  transaction_write_pos : Z;
  transaction_transmit_pos : Z;
  callbacks : rrr_modbus_client_callbacks
}.

Definition set_transactions (c : rrr_modbus_client) ts : rrr_modbus_client :=
  mk_client (transaction_id_pos c) ts (transaction_write_pos c) (transaction_transmit_pos c)
    (callbacks c).

Definition rrr_modbus_req_init (function_code : Z) : list Z := <[0%nat := function_code]> zero_req.

Definition rrr_modbus_client_transaction_migrate (source : rrr_modbus_client_transaction)
  : rrr_modbus_client_transaction * rrr_modbus_client_transaction :=
  (source, zero_transaction).

Definition rrr_modbus_client_transaction_reset (c : rrr_modbus_client)
    (t : rrr_modbus_client_transaction) (w : W) : outcome (rrr_modbus_client_transaction * W) :=
  if transaction_private_data t =? 0 then Ret (t, w) else
  match cb_req_transaction_private_data_destroy (callbacks c) with
  | None => Oob
  | Some destroy => Ret (zero_transaction, destroy (transaction_private_data t) w)
  end.

Definition no_callbacks : rrr_modbus_client_callbacks :=
  mk_callbacks None None None None None None None None None.

Definition rrr_modbus_client_new (alloc_ok : bool) : Z * option rrr_modbus_client :=
  if alloc_ok then
    (0, Some (mk_client 0 (replicate (Z.to_nat RRR_MODBUS_CLIENT_TRANSACTION_MAX) zero_transaction)
                0 0 no_callbacks))
  else (1, None).

Fixpoint destroy_loop (c : rrr_modbus_client) (ts : list rrr_modbus_client_transaction) (w : W)
  : outcome W :=
  match ts with
  | [] => Ret w
  | t :: ts => '(_, w) ← rrr_modbus_client_transaction_reset c t w; destroy_loop c ts w
  end.

Definition rrr_modbus_client_destroy (c : rrr_modbus_client) (w : W) : outcome W :=
  destroy_loop c (transactions c) w.

Definition rrr_modbus_client_callbacks_set (c : rrr_modbus_client)
    (cbs : rrr_modbus_client_callbacks) : rrr_modbus_client :=
  mk_client (transaction_id_pos c) (transactions c) (transaction_write_pos c)
    (transaction_transmit_pos c) cbs.

(** The loop over the transactions: the one found and those left. *)
Fixpoint find_loop (ts : list rrr_modbus_client_transaction) (id : Z)
  : option (rrr_modbus_client_transaction * list rrr_modbus_client_transaction) :=
  match ts with
  | [] => None
  | t :: ts =>
    if negb (transmit_time t =? 0) && (id =? transaction_id t) then
      let '(target, source) := rrr_modbus_client_transaction_migrate t in
      Some (target, source :: ts)
    else
      match find_loop ts id with
      | Some (target, ts) => Some (target, t :: ts)
      | None => None
      end
  end.

Definition rrr_modbus_client_transaction_find_and_consume (c : rrr_modbus_client) (id : Z)
  : Z * rrr_modbus_client_transaction * rrr_modbus_client :=
  match find_loop (transactions c) id with
  | Some (t, ts) => (0, t, set_transactions c ts)
  | None => (1, zero_transaction, c)
  end.

(** The 16-bit big endian field at [off], and the bytes of an array member. *)
Definition field16 (off : nat) (l : list Z) : Z := be_dec (slice off 2 l).

Definition rrr_modbus_client_receive_byte_count_and_status (function_code : Z)
    (is_register : bool) (t : rrr_modbus_client_transaction) (pdu : list Z) (pdu_size : Z)
    (callback : option (Z -> Z -> Z -> list Z -> Z -> W -> Z * W)) (w : W) : outcome (Z * W) :=
  byte_count ← load8 pdu 1;
  if byte_count =? 0 then Ret (RRR_MODBUS_SOFT_ERROR, w) else
  if negb (byte_count =? pdu_size - 2) then Ret (RRR_MODBUS_SOFT_ERROR, w) else
  let expected_amount := field16 3 (req t) in
  let expected_bytes := u16 (if is_register then expected_amount * 2
                             else (expected_amount + 7) / 8) in
  if negb (byte_count =? expected_bytes) then Ret (RRR_MODBUS_SOFT_ERROR, w) else
  match callback with
  | None => Bug
  | Some callback =>
    Ret (callback function_code (transaction_id t) byte_count (slice 2 250 pdu)
           (transaction_private_data t) w)
  end.

Definition rrr_modbus_client_receive_starting_address_and_register_value (function_code : Z)
    (t : rrr_modbus_client_transaction) (pdu : list Z) (pdu_size : Z)
    (callback : option (Z -> Z -> Z -> list Z -> Z -> W -> Z * W)) (w : W) : outcome (Z * W) :=
  if negb (pdu_size =? 5) then Ret (RRR_MODBUS_SOFT_ERROR, w) else
  match callback with
  | None => Bug
  | Some callback =>
    Ret (callback function_code (transaction_id t) (field16 1 pdu) (slice 3 2 pdu)
           (transaction_private_data t) w)
  end.

Definition rrr_modbus_client_receive_starting_address_and_quantity (function_code : Z)
    (t : rrr_modbus_client_transaction) (pdu : list Z) (pdu_size : Z)
    (callback : option (Z -> Z -> Z -> Z -> Z -> W -> Z * W)) (w : W) : outcome (Z * W) :=
  if negb (pdu_size =? 5) then Ret (RRR_MODBUS_SOFT_ERROR, w) else
  match callback with
  | None => Bug
  | Some callback =>
    Ret (callback function_code (transaction_id t) (field16 1 pdu) (field16 3 pdu)
           (transaction_private_data t) w)
  end.

Definition rrr_modbus_client_receive_01_read_coils (c : rrr_modbus_client) t pdu pdu_size w :=
  rrr_modbus_client_receive_byte_count_and_status RRR_MODBUS_FUNCTION_CODE_01_READ_COILS false
    t pdu pdu_size (cb_res_01_read_coils (callbacks c)) w.

Definition rrr_modbus_client_receive_02_read_discrete_inputs (c : rrr_modbus_client)
    t pdu pdu_size w :=
  rrr_modbus_client_receive_byte_count_and_status
    RRR_MODBUS_FUNCTION_CODE_02_READ_DISCRETE_INPUTS false
    t pdu pdu_size (cb_res_02_read_discrete_inputs (callbacks c)) w.

Definition rrr_modbus_client_receive_03_read_holding_registers (c : rrr_modbus_client)
    t pdu pdu_size w :=
  rrr_modbus_client_receive_byte_count_and_status
    RRR_MODBUS_FUNCTION_CODE_03_READ_HOLDING_REGISTERS true
    t pdu pdu_size (cb_res_03_read_holding_registers (callbacks c)) w.

Definition rrr_modbus_client_receive_04_read_input_registers (c : rrr_modbus_client)
    t pdu pdu_size w :=
  rrr_modbus_client_receive_byte_count_and_status
    RRR_MODBUS_FUNCTION_CODE_04_READ_INPUT_REGISTERS true
    t pdu pdu_size (cb_res_04_read_input_registers (callbacks c)) w.

Definition rrr_modbus_client_receive_06_write_single_register (c : rrr_modbus_client)
    t pdu pdu_size w :=
  rrr_modbus_client_receive_starting_address_and_register_value
    RRR_MODBUS_FUNCTION_CODE_06_WRITE_SINGLE_REGISTER
    t pdu pdu_size (cb_res_06_write_single_register (callbacks c)) w.

Definition rrr_modbus_client_receive_16_write_multiple_registers (c : rrr_modbus_client)
    t pdu pdu_size w :=
  rrr_modbus_client_receive_starting_address_and_quantity
    RRR_MODBUS_FUNCTION_CODE_16_WRITE_MULTIPLE_REGISTERS
    t pdu pdu_size (cb_res_16_write_multiple_registers (callbacks c)) w.

(** [VALIDATE_FRAME_SIZE(type)] and [VALIDATE_TRANSACTION_FUNCTION_CODE(code)]
    succeed; where they do not, the function returns at once. *)
Definition VALIDATE_FRAME_SIZE (frame_size sizeof_type : Z) : bool :=
  negb (sizeof_mbap + sizeof_type + 1 <? frame_size).

Definition VALIDATE_TRANSACTION_FUNCTION_CODE (t : rrr_modbus_client_transaction) (code : Z)
  : outcome bool :=
  function_code ← load8 (req t) 0; Ret (code =? function_code).

(** The [switch] of [__rrr_modbus_client_receive]; [None] is the early return. *)
Definition receive_switch (c : rrr_modbus_client) (t : rrr_modbus_client_transaction)
    (function_code : Z) (pdu : list Z) (frame_size pdu_size : Z) (w : W)
  : outcome (option (Z * W)) :=
  let valid sizeof_type (receive : outcome (Z * W)) :=
    if VALIDATE_FRAME_SIZE frame_size sizeof_type then r ← receive; Ret (Some r) else Ret None in
  let size := u16 pdu_size in
  if function_code =? RRR_MODBUS_FUNCTION_CODE_01_READ_COILS then
    valid sizeof_read_res (rrr_modbus_client_receive_01_read_coils c t pdu size w)
  else if function_code =? RRR_MODBUS_FUNCTION_CODE_02_READ_DISCRETE_INPUTS then
    valid sizeof_read_res (rrr_modbus_client_receive_02_read_discrete_inputs c t pdu size w)
  else if function_code =? RRR_MODBUS_FUNCTION_CODE_03_READ_HOLDING_REGISTERS then
    valid sizeof_read_res (rrr_modbus_client_receive_03_read_holding_registers c t pdu size w)
  else if function_code =? RRR_MODBUS_FUNCTION_CODE_04_READ_INPUT_REGISTERS then
    valid sizeof_read_res (rrr_modbus_client_receive_04_read_input_registers c t pdu size w)
  else if function_code =? RRR_MODBUS_FUNCTION_CODE_06_WRITE_SINGLE_REGISTER then
    valid sizeof_write_single_register_res
      (rrr_modbus_client_receive_06_write_single_register c t pdu size w)
  else if function_code =? RRR_MODBUS_FUNCTION_CODE_16_WRITE_MULTIPLE_REGISTERS then
    valid sizeof_write_multiple_registers_res
      (rrr_modbus_client_receive_16_write_multiple_registers c t pdu size w)
  else Bug.

(** The error response. *)
Definition receive_error (c : rrr_modbus_client) (t : rrr_modbus_client_transaction)
    (function_code : Z) (pdu : list Z) (frame_size : Z) (w : W) : outcome (option (Z * W)) :=
  if negb (VALIDATE_FRAME_SIZE frame_size sizeof_res_error) then Ret None else
  match_code ← VALIDATE_TRANSACTION_FUNCTION_CODE t (function_code - 0x80);
  if negb match_code then Ret None else
  match cb_res_error (callbacks c) with
  | None => Bug
  | Some callback =>
    exception_code ← load8 pdu 1;
    Ret (Some (callback (transaction_id t) (function_code - 0x80) exception_code
                 (transaction_private_data t) w))
  end.

Definition rrr_modbus_client_receive (c : rrr_modbus_client) (frame : rrr_modbus_frame)
    (frame_size : Z) (w : W) : outcome (Z * rrr_modbus_client * W) :=
  let '(err, t, c) :=
    rrr_modbus_client_transaction_find_and_consume c (transaction_identifier (mbap frame)) in
  if negb (err =? 0) then
    '(_, w) ← rrr_modbus_client_transaction_reset c t w; Ret (RRR_MODBUS_SOFT_ERROR, c, w)
  else
    function_code ← load8 (res frame) 0;
    r ← (if 0x80 <? function_code then receive_error c t function_code (res frame) frame_size w
         else
           match_code ← VALIDATE_TRANSACTION_FUNCTION_CODE t function_code;
           if negb match_code then Ret None else
           let pdu_size := u32 (frame_size - sizeof_mbap) in
           if 0xfffe <? pdu_size then Bug else
           receive_switch c t function_code (res frame) frame_size pdu_size w);
    match r with
    | None => Ret (RRR_MODBUS_SOFT_ERROR, c, w)
    | Some (ret, w) =>
      '(_, w) ← rrr_modbus_client_transaction_reset c t w; Ret (ret, c, w)
    end.

(** [memcpy] of [n] bytes from offset [off] of [data]. *)
Definition copy_from (data : list Z) (off n : Z) : outcome (list Z) :=
  if off + n <=? Z.of_nat (length data) then Ret (slice (Z.to_nat off) (Z.to_nat n) data) else Oob.

(** [stack] is what the uninitialised [frame.res] holds when the function is
    entered.  Status, new [*data_size], client and state of the callbacks. *)
Definition rrr_modbus_client_read (stack : list Z) (c : rrr_modbus_client) (data : list Z)
    (data_size : Z) (w : W) : outcome (Z * Z * rrr_modbus_client * W) :=
  if data_size <? sizeof_mbap then Ret (RRR_MODBUS_INCOMPLETE, data_size, c, w) else
  head ← copy_from data 0 sizeof_mbap;
  let h := mk_mbap (field16 0 head) (field16 2 head) (field16 4 head) (be_dec (slice 6 1 head)) in
  let data_pos := 6 in
  let frame_size := u32 (data_pos + mbap_length h) in
  if mbap_length h <? 1 then Ret (RRR_MODBUS_SOFT_ERROR, data_size, c, w) else
  if data_size <? frame_size then Ret (RRR_MODBUS_INCOMPLETE, data_size, c, w) else
  let data_pos := data_pos + 1 in
  let pdu_size := u32 (frame_size - data_pos) in
  if pdu_size <? 1 then Ret (RRR_MODBUS_SOFT_ERROR, data_size, c, w) else
  if sizeof_res <? pdu_size then Ret (RRR_MODBUS_SOFT_ERROR, data_size, c, w) else
  pdu ← copy_from data data_pos pdu_size;
  '(ret, c, w) ← rrr_modbus_client_receive c (mk_frame h (splice 0 pdu stack)) frame_size w;
  if negb (ret =? RRR_MODBUS_OK) then Ret (ret, data_size, c, w) else
  let data_pos := data_pos + pdu_size in
  if negb (frame_size =? data_pos) then Bug else
  Ret (ret, data_pos, c, w).

(** The transaction at a position of the ring. *)
Definition transaction_at (c : rrr_modbus_client) (pos : Z)
  : outcome rrr_modbus_client_transaction :=
  match transactions c !! Z.to_nat pos with Some t => Ret t | None => Oob end.

Definition next_pos (pos : Z) : Z :=
  let pos := u16 (pos + 1) in if pos =? RRR_MODBUS_CLIENT_TRANSACTION_MAX then 0 else pos.

Definition set_transmit_time (t : rrr_modbus_client_transaction) (now : Z) :=
  mk_transaction (transaction_id t) (req t) (req_size t) now (transaction_private_data t).

(** Status, the buffer, the new [*data_size] and the client. *)
Definition rrr_modbus_client_write (now : Z) (c : rrr_modbus_client) (data : list Z)
    (data_size : Z) : outcome (Z * list Z * Z * rrr_modbus_client) :=
  t ← transaction_at c (transaction_transmit_pos c);
  if (req_size t =? 0) || negb (transmit_time t =? 0) then Ret (RRR_MODBUS_DONE, data, data_size, c)
  else
    let frame_mbap_length := u64 (req_size t + 1) in
    if negb ((frame_mbap_length <=? 0xffff) && (1 <? frame_mbap_length)) then Bug else
    let head := be_enc 2 (transaction_id t) ++ be_enc 2 0 ++ be_enc 2 (u16 frame_mbap_length)
                  ++ [0xff] in
    let size_total := u64 (sizeof_mbap + req_size t) in
    if data_size <? size_total then Bug else
    pdu ← copy_from (req t) 0 (req_size t);
    if Z.of_nat (length data) <? size_total then Oob else
    let data := splice 0 (head ++ pdu) data in
    Ret (RRR_MODBUS_OK, data, u32 size_total,
         mk_client (transaction_id_pos c)
           (<[Z.to_nat (transaction_transmit_pos c) := set_transmit_time t now]> (transactions c))
           (transaction_write_pos c) (next_pos (transaction_transmit_pos c)) (callbacks c)).

(** Status, position and client. *)
Definition rrr_modbus_client_transaction_reserve (now : Z) (c : rrr_modbus_client)
  : outcome (Z * Z * rrr_modbus_client) :=
  t ← transaction_at c (transaction_write_pos c);
  if 0 <? req_size t then
    if (0 <? transmit_time t)
       && (transmit_time t <? u64 (now - RRR_MODBUS_CLIENT_TRANSACTION_TIMEOUT_S * 1000 * 1000))
    then Ret (RRR_MODBUS_SOFT_ERROR, 0, c)
    else Ret (RRR_MODBUS_BUSY, 0, c)
  else
    Ret (0, transaction_write_pos c,
         mk_client (transaction_id_pos c) (transactions c) (next_pos (transaction_write_pos c))
           (transaction_transmit_pos c) (callbacks c)).

Definition rrr_modbus_client_req_push (now : Z) (c : rrr_modbus_client) (req : list Z)
    (req_size private_data_arg : Z) (w : W) : outcome (Z * rrr_modbus_client * W) :=
  match cb_req_transaction_private_data_create (callbacks c) with
  | None => Oob
  | Some create =>
    let '(ret, private_data, w) := create private_data_arg w in
    if negb (ret =? 0) then Ret (ret, c, w) else
    '(ret, pos, c) ← rrr_modbus_client_transaction_reserve now c;
    if negb (ret =? 0) then
      match cb_req_transaction_private_data_destroy (callbacks c) with
      | None => Oob
      | Some destroy => Ret (ret, c, destroy private_data w)
      end
    else
      _ ← transaction_at c pos;
      let t := mk_transaction (transaction_id_pos c) req req_size 0 private_data in
      Ret (0, mk_client (u16 (transaction_id_pos c + 1))
                (<[Z.to_nat pos := t]> (transactions c)) (transaction_write_pos c)
                (transaction_transmit_pos c) (callbacks c), w)
  end.

Definition rrr_modbus_client_read_req (now : Z) (c : rrr_modbus_client)
    (function_code starting_address amount private_data_arg : Z) (w : W) :=
  let req := rrr_modbus_req_init function_code in
  let req := splice 1 (be_enc 2 starting_address) req in
  let req := splice 3 (be_enc 2 amount) req in
  rrr_modbus_client_req_push now c req RRR_MODBUS_READ_REQ_SIZE private_data_arg w.

Definition rrr_modbus_client_write_single_reg_req (now : Z) (c : rrr_modbus_client)
    (starting_address : Z) (contents : list Z) (private_data_arg : Z) (w : W) :=
  let req := rrr_modbus_req_init RRR_MODBUS_FUNCTION_CODE_06_WRITE_SINGLE_REGISTER in
  let req := splice 1 (be_enc 2 starting_address) req in
  contents ← copy_from contents 0 2;
  let req := splice 3 contents req in
  rrr_modbus_client_req_push now c req RRR_MODBUS_WRITE_SINGLE_REGISTER_REQ_SIZE
    private_data_arg w.

Definition rrr_modbus_client_write_multiple_regs_req (now : Z) (c : rrr_modbus_client)
    (starting_address amount : Z) (contents : list Z) (private_data_arg : Z) (w : W) :=
  let req := rrr_modbus_req_init RRR_MODBUS_FUNCTION_CODE_16_WRITE_MULTIPLE_REGISTERS in
  let byte_count := u8 (amount * 2) in
  let req := splice 1 (be_enc 2 starting_address) req in
  let req := splice 3 (be_enc 2 amount) req in
  let req := splice 5 [byte_count] req in
  contents ← copy_from contents 0 byte_count;
  if 246 <? byte_count then Oob else
  let req := splice 6 contents req in
  rrr_modbus_client_req_push now c req
    (RRR_MODBUS_WRITE_MULTIPLE_REGISTERS_REQ_SIZE byte_count) private_data_arg w.

Definition rrr_modbus_client_req_01_read_coils now c starting_address quantity_of_coils arg w :=
  if in_range 1 2000 quantity_of_coils then
    rrr_modbus_client_read_req now c RRR_MODBUS_FUNCTION_CODE_01_READ_COILS
      starting_address quantity_of_coils arg w
  else Bug.

Definition rrr_modbus_client_req_02_read_discrete_inputs now c starting_address
    quantity_of_coils arg w :=
  if in_range 1 2000 quantity_of_coils then
    rrr_modbus_client_read_req now c RRR_MODBUS_FUNCTION_CODE_02_READ_DISCRETE_INPUTS
      starting_address quantity_of_coils arg w
  else Bug.

Definition rrr_modbus_client_req_03_read_holding_registers now c starting_address
    quantity_of_registers arg w :=
  if in_range 1 125 quantity_of_registers then
    rrr_modbus_client_read_req now c RRR_MODBUS_FUNCTION_CODE_03_READ_HOLDING_REGISTERS
      starting_address quantity_of_registers arg w
  else Bug.

Definition rrr_modbus_client_req_04_read_input_registers now c starting_address
    quantity_of_registers arg w :=
  if in_range 1 125 quantity_of_registers then
    rrr_modbus_client_read_req now c RRR_MODBUS_FUNCTION_CODE_04_READ_INPUT_REGISTERS
      starting_address quantity_of_registers arg w
  else Bug.

(** [None] is a NULL pointer. *)
Definition rrr_modbus_client_req_06_write_single_register now c starting_address
    (contents : option (list Z)) arg w :=
  match contents with
  | None => Bug
  | Some contents => rrr_modbus_client_write_single_reg_req now c starting_address contents arg w
  end.

Definition rrr_modbus_client_req_16_write_multiple_registers now c starting_address
    quantity_of_registers (contents : option (list Z)) arg w :=
  match contents with
  | None => Bug
  | Some contents =>
    if in_range 1 123 quantity_of_registers then
      rrr_modbus_client_write_multiple_regs_req now c starting_address quantity_of_registers
        contents arg w
    else Bug
  end.

End with_world.
Arguments rrr_modbus_client_callbacks W : clear implicits.
Arguments rrr_modbus_client W : clear implicits.

End Modbus.
