(* ===== verification/ModbusClient.v ===== *)
(** What the Modbus/TCP client of [Modbus] promises: its ring of transactions is
    a window over the requests pushed last, frames go out in the order of the
    requests and hold what the Modbus standard asks for, and every response is
    handed to the callback of its function together with the private data of the
    request it answers. *)
From stdpp Require Import gmap sets.
From S2P Require Import Prelude Types Modbus.

Module ModbusClient.
Import Types Modbus.

(** * Requests and responses of the standard *)

Inductive read_kind := Coils | Discrete_inputs | Holding_registers | Input_registers.

Inductive request :=
| Read_request (k : read_kind) (address amount : Z)
| Write_register (address : Z) (value : list Z)
| Write_registers (address amount : Z) (values : list Z).

Inductive response :=
| Exception_response (code : Z)
| Read_response (bytes : list Z)
| Write_register_response (address : Z) (value : list Z)
| Write_registers_response (address amount : Z).

Definition kind_code (k : read_kind) : Z :=
  match k with Coils => 1 | Discrete_inputs => 2 | Holding_registers => 3 | Input_registers => 4 end.

Definition kind_registers (k : read_kind) : bool :=
  match k with Coils | Discrete_inputs => false | _ => true end.

Definition function_of (rq : request) : Z :=
  match rq with Read_request k _ _ => kind_code k | Write_register _ _ => 6
  | Write_registers _ _ _ => 16 end.

Definition word_ok (v : Z) : Prop := 0 <= v < 65536.

Definition request_ok (rq : request) : Prop :=
  match rq with
  | Read_request k address amount =>
    word_ok address /\ 1 <= amount <= (if kind_registers k then 125 else 2000)
  | Write_register address value => word_ok address /\ length value = 2%nat /\ bytes_ok value
  | Write_registers address amount values =>
    word_ok address /\ 1 <= amount <= 123 /\ Z.of_nat (length values) = 2 * amount
    /\ bytes_ok values
  end.

(** Protocol data units, and the frame around one. *)
Definition request_pdu (rq : request) : list Z :=
  match rq with
  | Read_request k address amount => kind_code k :: be_enc 2 address ++ be_enc 2 amount
  | Write_register address value => 6 :: be_enc 2 address ++ value
  | Write_registers address amount values =>
    16 :: be_enc 2 address ++ be_enc 2 amount ++ (2 * amount) :: values
  end.

Definition response_pdu (function_code : Z) (r : response) : list Z :=
  match r with
  | Exception_response code => [function_code + 0x80; code]
  | Read_response bytes => function_code :: Z.of_nat (length bytes) :: bytes
  | Write_register_response address value => function_code :: be_enc 2 address ++ value
  | Write_registers_response address amount =>
    function_code :: be_enc 2 address ++ be_enc 2 amount
  end.

Definition adu (id protocol unit : Z) (pdu : list Z) : list Z :=
  be_enc 2 id ++ be_enc 2 protocol ++ be_enc 2 (Z.of_nat (length pdu) + 1) ++ unit :: pdu.

(** The data bytes a read request asks for. *)
Definition data_bytes (k : read_kind) (amount : Z) : Z :=
  if kind_registers k then amount * 2 else (amount + 7) / 8.

(** [r] is a response to [rq]. *)
Definition answers (rq : request) (r : response) : Prop :=
  match rq, r with
  | _, Exception_response code => byte_ok code
  | Read_request k _ amount, Read_response bytes =>
    bytes_ok bytes /\ Z.of_nat (length bytes) = data_bytes k amount
  | Write_register _ _, Write_register_response address value =>
    word_ok address /\ length value = 2%nat /\ bytes_ok value
  | Write_registers _ _ _, Write_registers_response address amount =>
    word_ok address /\ word_ok amount
  | _, _ => False
  end.

(** * The window of requests *)

Record entry := mk_entry {
  e_id : Z;
  e_request : request;
  e_private : Z;
  (** 0 until the request is transmitted *)
  e_time : Z
}.

Definition unsent (e : entry) : Prop := e_time e = 0.

(** The requests pushed last, oldest first: those transmitted, of which the
    ones answered are gone, then those waiting to be transmitted. *)
Record window := mk_window {
  next_id : Z;
  handled : list (option entry);
  waiting : list entry
}.

Definition slots (s : window) : list (option entry) := handled s ++ (Some <$> waiting s).

(** A transaction as it lies in the ring. *)
Definition padded (pdu : list Z) : list Z := splice 0 pdu zero_req.
Definition transaction_of (e : entry) : rrr_modbus_client_transaction :=
  mk_transaction (e_id e) (padded (request_pdu (e_request e)))
    (Z.of_nat (length (request_pdu (e_request e)))) (e_time e) (e_private e).
Definition slot (o : option entry) : rrr_modbus_client_transaction :=
  match o with Some e => transaction_of e | None => zero_transaction end.

Definition entry_ok (e : entry) : Prop := request_ok (e_request e) /\ 0 <= e_time e < 2 ^ 64.

Record window_ok (s : window) : Prop := {
  wo_length : length (slots s) = 32%nat;
  wo_next : word_ok (next_id s);
  wo_entry i e : slots s !! i = Some (Some e) ->
    entry_ok e /\ e_id e = (next_id s - 32 + Z.of_nat i) mod 65536;
  wo_handled e : Some e ∈ handled s -> ~ unsent e;
  wo_waiting : Forall unsent (waiting s)
}.

Record represents {W} (c : rrr_modbus_client W) (s : window) : Prop := {
  re_window : window_ok s;
  re_id : transaction_id_pos c = next_id s;
  re_write : 0 <= transaction_write_pos c < 32;
  re_transmit : transaction_transmit_pos c
    = (transaction_write_pos c + Z.of_nat (length (handled s))) mod 32;
  re_ring : rotate (Z.to_nat (transaction_write_pos c)) (transactions c) = slot <$> slots s
}.

(** * What the operations do to the window *)

Section with_handlers.
Context {W : Type}.

(** Callbacks that are all set. *)
Record handlers := mk_handlers {
  h_create : Z -> W -> Z * Z * W;
  h_destroy : Z -> W -> W;
  h_error : Z -> Z -> Z -> Z -> W -> Z * W;
  h_read : read_kind -> Z -> Z -> Z -> list Z -> Z -> W -> Z * W;
  h_write_register : Z -> Z -> Z -> list Z -> Z -> W -> Z * W;
  h_write_registers : Z -> Z -> Z -> Z -> Z -> W -> Z * W
}.

Definition all_set (h : handlers) : rrr_modbus_client_callbacks W :=
  mk_callbacks (Some (h_create h)) (Some (h_destroy h)) (Some (h_error h))
    (Some (h_read h Coils)) (Some (h_read h Discrete_inputs)) (Some (h_read h Holding_registers))
    (Some (h_read h Input_registers)) (Some (h_write_register h)) (Some (h_write_registers h)).

Variable h : handlers.

(** The client with these callbacks represents the window. *)
Definition client_is (c : rrr_modbus_client W) (s : window) : Prop :=
  represents c s /\ callbacks c = all_set h.

(** The call that makes a request. *)
Definition do_request (now : Z) (c : rrr_modbus_client W) (rq : request) (arg : Z) (w : W)
  : outcome (Z * rrr_modbus_client W * W) :=
  match rq with
  | Read_request Coils address amount =>
    rrr_modbus_client_req_01_read_coils now c address amount arg w
  | Read_request Discrete_inputs address amount =>
    rrr_modbus_client_req_02_read_discrete_inputs now c address amount arg w
  | Read_request Holding_registers address amount =>
    rrr_modbus_client_req_03_read_holding_registers now c address amount arg w
  | Read_request Input_registers address amount =>
    rrr_modbus_client_req_04_read_input_registers now c address amount arg w
  | Write_register address value =>
    rrr_modbus_client_req_06_write_single_register now c address (Some value) arg w
  | Write_registers address amount values =>
    rrr_modbus_client_req_16_write_multiple_registers now c address amount (Some values) arg w
  end.

(** The oldest request has waited for its response for too long. *)
Definition expired (now : Z) (e : entry) : bool :=
  (0 <? e_time e) && (e_time e <? u64 (now - 1000000)).

Definition push_spec (now : Z) (s : window) (rq : request) (arg : Z) (w : W) : Z * window * W :=
  let '(ret, p, w) := h_create h arg w in
  if negb (ret =? 0) then (ret, s, w) else
  match slots s with
  | Some e :: _ =>
    (if expired now e then RRR_MODBUS_SOFT_ERROR else RRR_MODBUS_BUSY, s, h_destroy h p w)
  | _ =>
    (0, mk_window ((next_id s + 1) mod 65536) (tail (handled s))
          (waiting s ++ [mk_entry (next_id s) rq p 0]), w)
  end.

Definition sent (now : Z) (e : entry) : entry :=
  mk_entry (e_id e) (e_request e) (e_private e) now.

Definition write_spec (now : Z) (s : window) : option (list Z * window) :=
  match waiting s with
  | [] => None
  | e :: rest =>
    Some (adu (e_id e) 0 0xff (request_pdu (e_request e)),
          mk_window (next_id s) (handled s ++ [Some (sent now e)]) rest)
  end.

(** The callback for a response; an array is passed as a pointer, behind the
    bytes of the response lies what was on the stack. *)
Definition deliver (stack : list Z) (e : entry) (r : response) (w : W) : Z * W :=
  match r, e_request e with
  | Exception_response code, rq => h_error h (e_id e) (function_of rq) code (e_private e) w
  | Read_response bytes, Read_request k _ _ =>
    h_read h k (kind_code k) (e_id e) (Z.of_nat (length bytes))
      (bytes ++ drop (2 + length bytes) stack) (e_private e) w
  | Write_register_response address value, _ =>
    h_write_register h 6 (e_id e) address value (e_private e) w
  | Write_registers_response address amount, _ =>
    h_write_registers h 16 (e_id e) address amount (e_private e) w
  | _, _ => (0, w)
  end.

Definition dispose (p : Z) (w : W) : W := if p =? 0 then w else h_destroy h p w.

(** The window once the request in slot [i] is answered. *)
Definition forget (i : nat) (s : window) : window :=
  mk_window (next_id s) (<[i := None]> (handled s)) (waiting s).

End with_handlers.
Arguments handlers W : clear implicits.

(** * The ring *)

Section ring.
Context {A : Type}.
Implicit Types (l : list A).

Lemma rotate_head n l x rest y :
  (n < length l)%nat -> rotate n l = x :: rest ->
  rotate (if decide (S n = length l) then O else S n) (<[n := y]> l) = rest ++ [y].
Proof.
  intros Hn Hr. unfold rotate in *. rewrite Nat.mod_small in Hr by done.
  destruct (drop n l) as [|x' b] eqn:Hd.
  { apply (f_equal length) in Hd. rewrite length_drop in Hd. simpl in Hd. lia. }
  simplify_eq/=. rewrite length_insert.
  assert (l = take n l ++ x :: b) as Hl by (by rewrite <-Hd, take_drop).
  assert (length (take n l) = n) as Ha by (rewrite length_take; lia).
  revert Hl Ha. generalize (take n l) as a. intros a -> <-.
  rewrite length_app in *. simpl in *.
  rewrite insert_app_r_alt, Nat.sub_diag by lia. simpl. case_decide as Hlast.
  - destruct b; [|simpl in *; lia]. by rewrite Nat.Div0.mod_0_l, drop_0, take_0, app_nil_r.
  - rewrite Nat.mod_small by lia.
    replace (S (length a)) with (length (a ++ [y])) by (rewrite length_app; simpl; lia).
    rewrite (cons_middle y a b), !app_assoc, drop_app_length, take_app_length.
    by rewrite app_assoc.
Qed.

End ring.

Section proofs.
Context {W : Type}.
Implicit Types (c : rrr_modbus_client W) (s : window).

Lemma slots_small s i e : window_ok s -> slots s !! i = Some e -> (i < 32)%nat.
Proof. intros Hw Hi. apply lookup_lt_Some in Hi. by rewrite (wo_length s Hw) in Hi. Qed.

Lemma ring_length c s : represents c s -> length (transactions c) = 32%nat.
Proof.
  intros Hr. rewrite <-(length_rotate _ (Z.to_nat (transaction_write_pos c))), (re_ring c s Hr).
  rewrite length_fmap. apply wo_length, Hr.
Qed.

(** The position in the ring of slot [i]. *)
Lemma ring_pos c s i :
  represents c s ->
  Z.to_nat ((transaction_write_pos c + Z.of_nat i) mod 32)
  = rotate_nat_add (Z.to_nat (transaction_write_pos c)) i (length (transactions c)).
Proof.
  intros Hr. unfold rotate_nat_add. rewrite (ring_length c s Hr).
  pose proof (re_write c s Hr). by rewrite Z2Nat.id by lia.
Qed.

Lemma ring_at c s i o :
  represents c s -> slots s !! i = Some o ->
  transaction_at c ((transaction_write_pos c + Z.of_nat i) mod 32) = Ret (slot o).
Proof.
  intros Hr Hi. unfold transaction_at. rewrite (ring_pos c s) by done.
  rewrite <-lookup_rotate_r.
  - by rewrite (re_ring c s Hr), list_lookup_fmap, Hi.
  - rewrite (ring_length c s Hr). eapply slots_small; [apply Hr|done].
Qed.

Lemma ring_set c s i o :
  represents c s -> (i < 32)%nat ->
  rotate (Z.to_nat (transaction_write_pos c))
    (<[Z.to_nat ((transaction_write_pos c + Z.of_nat i) mod 32) := slot o]> (transactions c))
  = slot <$> <[i := o]> (slots s).
Proof.
  intros Hr Hi. rewrite (ring_pos c s), rotate_insert_l by (done || by rewrite (ring_length c s)).
  by rewrite (re_ring c s Hr), list_fmap_insert.
Qed.

Lemma window_head s : window_ok s -> exists o rest, slots s = o :: rest.
Proof. intros Hw. destruct (slots s) eqn:E; [|by eauto]. by pose proof (wo_length s Hw) as H; rewrite E in H. Qed.

Lemma reserve_correct now c s :
  represents c s ->
  match slots s with
  | Some e :: _ => rrr_modbus_client_transaction_reserve now c
      = Ret (if expired now e then RRR_MODBUS_SOFT_ERROR else RRR_MODBUS_BUSY, 0, c)
  | _ => rrr_modbus_client_transaction_reserve now c
      = Ret (0, transaction_write_pos c,
          mk_client (transaction_id_pos c) (transactions c) (next_pos (transaction_write_pos c))
            (transaction_transmit_pos c) (callbacks c))
  end.
Proof.
  intros Hr. destruct (window_head s) as (o & rest & Hs); [apply Hr|].
  assert (transaction_at c (transaction_write_pos c) = Ret (slot o)) as Hat.
  { rewrite <-(ring_at c s 0 o Hr) by by rewrite Hs.
    pose proof (re_write c s Hr). by rewrite Z.add_0_r, Z.mod_small by lia. }
  unfold rrr_modbus_client_transaction_reserve. rewrite Hat, Hs. simpl.
  destruct o as [e|]; [|done]. simpl.
  assert (0 < Z.of_nat (length (request_pdu (e_request e)))) as Hl.
  { destruct (e_request e); simpl; lia. }
  apply Z.ltb_lt in Hl. rewrite Hl. unfold expired.
  by destruct ((0 <? e_time e) && _).
Qed.

Lemma next_pos_correct p : 0 <= p < 32 -> next_pos p = (p + 1) mod 32.
Proof.
  intros Hp. unfold next_pos, RRR_MODBUS_CLIENT_TRANSACTION_MAX.
  rewrite wrap_small by lia. btest; [subst|]; zdiv.
Qed.

(** The window after a push whose slot was free. *)
Definition pushed s rq p : window :=
  mk_window ((next_id s + 1) mod 65536) (tail (handled s))
    (waiting s ++ [mk_entry (next_id s) rq p 0]).

Lemma free_head s rest :
  window_ok s -> slots s = None :: rest ->
  exists hs, handled s = None :: hs /\ rest = hs ++ (Some <$> waiting s).
Proof.
  intros Hw Hs. unfold slots in Hs. destruct (handled s) as [|o hs].
  - destruct (waiting s); by inversion Hs.
  - simpl in Hs. simplify_eq. by exists hs.
Qed.

Lemma pushed_slots s rest rq p :
  window_ok s -> slots s = None :: rest ->
  slots (pushed s rq p) = rest ++ [Some (mk_entry (next_id s) rq p 0)].
Proof.
  intros Hw Hs. destruct (free_head s rest Hw Hs) as (hs & Hh & ->).
  unfold slots, pushed. simpl. by rewrite Hh, fmap_app, app_assoc.
Qed.

Lemma pushed_ok s rest rq p :
  window_ok s -> slots s = None :: rest -> request_ok rq -> window_ok (pushed s rq p).
Proof.
  intros Hw Hs Hrq. pose proof (pushed_slots s rest rq p Hw Hs) as Hps.
  pose proof (wo_length s Hw) as Hl. rewrite Hs in Hl. simpl in Hl.
  pose proof (wo_next s Hw) as Hn. unfold word_ok in Hn.
  split.
  - rewrite Hps, length_app. simpl. lia.
  - unfold word_ok, pushed. simpl. apply Z.mod_pos_bound. lia.
  - intros i e. rewrite Hps. intros [Hi|[Hi He]]%lookup_app_Some.
    + destruct (wo_entry s Hw (S i) e) as [Hok Hid]; [by rewrite Hs|].
      split; [done|]. rewrite Hid. unfold pushed. simpl.
      zdiv.
    + assert (i = 31%nat) as -> by (apply lookup_lt_Some in He; simpl in *; lia).
      replace (31 - length rest)%nat with 0%nat in He by lia. simplify_eq/=.
      split; [split; simpl; [done|lia]|]. unfold pushed. simpl. zdiv.
  - intros e He. apply (wo_handled s Hw). unfold pushed in He. simpl in He.
    destruct (handled s); [done|]. by apply elem_of_cons; right.
  - unfold pushed. simpl. apply Forall_app. split; [apply Hw|].
    by repeat constructor.
Qed.

Variable h : handlers W.

Lemma push_represents c s rest rq p :
  represents c s -> slots s = None :: rest -> request_ok rq ->
  represents
    (mk_client (u16 (transaction_id_pos c + 1))
       (<[Z.to_nat (transaction_write_pos c) := transaction_of (mk_entry (next_id s) rq p 0)]>
          (transactions c))
       (next_pos (transaction_write_pos c)) (transaction_transmit_pos c) (callbacks c))
    (pushed s rq p).
Proof.
  intros Hr Hs Hrq. pose proof (re_write c s Hr) as Hp. pose proof (re_window c s Hr) as Hw.
  destruct (free_head s rest Hw Hs) as (hs & Hh & Hrest).
  split; simpl.
  - by eapply pushed_ok.
  - by rewrite (re_id c s Hr).
  - rewrite next_pos_correct by done. apply Z.mod_pos_bound. lia.
  - rewrite (re_transmit c s Hr), next_pos_correct, Hh by done. simpl. zdiv.
  - rewrite (pushed_slots s rest), fmap_app by done. simpl.
    pose proof (ring_length c s Hr) as Hl.
    pose proof (re_ring c s Hr) as Hring. rewrite Hs in Hring. simpl in Hring.
    assert (Z.to_nat (transaction_write_pos c) < length (transactions c))%nat as Hlt by lia.
    rewrite <-(rotate_head _ _ _ _ _ Hlt Hring), Hl. f_equal.
    rewrite next_pos_correct by done. case_decide.
    + by replace (transaction_write_pos c) with 31 by lia.
    + rewrite Z.mod_small by lia. lia.
Qed.

Lemma req_push_correct now c s rq arg w :
  client_is h c s -> request_ok rq ->
  let '(ret, s', w') := push_spec h now s rq arg w in
  exists c', rrr_modbus_client_req_push now c (padded (request_pdu rq))
               (Z.of_nat (length (request_pdu rq))) arg w = Ret (ret, c', w')
    /\ client_is h c' s'.
Proof.
  intros [Hr Hcb] Hrq. unfold push_spec, rrr_modbus_client_req_push. rewrite Hcb. simpl.
  destruct (h_create h arg w) as [[ret p] w1]. btest; simpl; [|by exists c].
  pose proof (reserve_correct now c s Hr) as Hres.
  destruct (window_head s) as (o & rest & Hs); [apply Hr|]. rewrite Hs in *.
  destruct o as [e0|].
  - rewrite Hres. simpl. exists c. rewrite Hcb. by destruct (expired now e0).
  - rewrite Hres. simpl. unfold transaction_at. simpl.
    assert (slots s !! 0%nat = Some None) as H0 by by rewrite Hs.
    pose proof (ring_at c s 0 None Hr H0) as Hat. pose proof (re_write c s Hr).
    rewrite Z.add_0_r, Z.mod_small in Hat by lia. unfold transaction_at in Hat.
    destruct (transactions c !! _); [|done]. simpl. eexists. split; [done|].
    split; [|done]. rewrite (re_id c s Hr). fold (pushed s rq p).
    pose proof (push_represents c s rest rq p Hr Hs Hrq) as Hp.
    rewrite (re_id c s Hr) in Hp. apply Hp.
Qed.

(** The requests are laid out as the standard asks for. *)
Lemma enc2_cases v : exists x y, be_enc 2 v = [x; y].
Proof. by eexists _, _. Qed.

Lemma do_request_correct now c s rq arg w :
  client_is h c s -> request_ok rq ->
  let '(ret, s', w') := push_spec h now s rq arg w in
  exists c', do_request now c rq arg w = Ret (ret, c', w') /\ client_is h c' s'.
Proof.
  intros Hc Hrq. pose proof (req_push_correct now c s rq arg w Hc Hrq) as Hp.
  destruct (push_spec h now s rq arg w) as [[ret s'] w'].
  destruct Hp as (c' & Hp & Hc'). exists c'. split; [|done]. rewrite <-Hp. clear Hp.
  destruct rq as [k a n|a v|a n v]; simpl in Hrq.
  - destruct Hrq as [_ Hn].
    destruct (enc2_cases a) as (x & y & Ha), (enc2_cases n) as (x' & y' & Hn').
    destruct k; simpl in Hn; cbn [do_request request_pdu]; unfold
      rrr_modbus_client_req_01_read_coils, rrr_modbus_client_req_02_read_discrete_inputs,
      rrr_modbus_client_req_03_read_holding_registers,
      rrr_modbus_client_req_04_read_input_registers, in_range;
    rewrite (proj2 (Z.leb_le _ _)), (proj2 (Z.leb_le _ _)) by lia; cbn [andb];
    unfold rrr_modbus_client_read_req; rewrite Ha, Hn'; reflexivity.
  - destruct Hrq as (_ & Hl & _). by destruct v as [|v0 [|v1 [|]]].
  - destruct Hrq as (_ & Hn & Hl & _).
    destruct (enc2_cases a) as (x & y & Ha), (enc2_cases n) as (x' & y' & Hn').
    cbn [do_request request_pdu].
    unfold rrr_modbus_client_req_16_write_multiple_registers, in_range.
    rewrite (proj2 (Z.leb_le 1 _)), (proj2 (Z.leb_le _ 123)) by lia. cbn [andb].
    unfold rrr_modbus_client_write_multiple_regs_req. rewrite Ha, Hn', wrap_small by lia.
    unfold copy_from. rewrite (proj2 (Z.leb_le _ _)) by lia. rewrite bind_ret.
    rewrite (proj2 (Z.ltb_ge 246 _)) by lia.
    replace (Z.to_nat (n * 2)) with (length v) by lia.
    unfold slice. rewrite drop_0, firstn_all. f_equal.
    + rewrite (Z.mul_comm n 2). done.
    + unfold RRR_MODBUS_WRITE_MULTIPLE_REGISTERS_REQ_SIZE. simpl. lia.
Qed.

(** * Transmitting *)

Lemma request_pdu_size rq :
  request_ok rq -> (1 <= length (request_pdu rq) <= 252)%nat.
Proof.
  destruct rq; simpl; intros Hrq; rewrite ?length_app, ?length_be_enc; simpl;
    [| |destruct Hrq as (_ & ? & ? & _)]; lia.
Qed.

Lemma length_adu id protocol unit pdu : length (adu id protocol unit pdu) = (7 + length pdu)%nat.
Proof. unfold adu. rewrite !length_app, !length_be_enc. simpl. lia. Qed.

Lemma length_zero_req : length zero_req = 252%nat.
Proof. apply length_replicate. Qed.

Lemma take_padded pdu : (length pdu <= 252)%nat -> slice 0 (length pdu) (padded pdu) = pdu.
Proof. intros. apply slice_splice_same. rewrite length_zero_req. lia. Qed.

Lemma length_padded pdu : (length pdu <= 252)%nat -> length (padded pdu) = 252%nat.
Proof.
  intros. unfold padded. rewrite length_splice; rewrite length_zero_req; lia.
Qed.

Lemma window_cons s e rest :
  window_ok s -> waiting s = e :: rest -> slots s !! length (handled s) = Some (Some e).
Proof.
  intros Hw Hs. unfold slots. rewrite lookup_app_r, Nat.sub_diag, Hs by lia. done.
Qed.

Definition transmitted now s e rest : window :=
  mk_window (next_id s) (handled s ++ [Some (sent now e)]) rest.

Lemma transmitted_slots now s e rest :
  waiting s = e :: rest ->
  slots (transmitted now s e rest) = <[length (handled s) := Some (sent now e)]> (slots s).
Proof.
  intros Hs. unfold slots, transmitted. rewrite Hs. simpl.
  by rewrite <-app_assoc, insert_app_r_alt, Nat.sub_diag by lia.
Qed.

Lemma transmitted_ok now s e rest :
  window_ok s -> waiting s = e :: rest -> 0 < now < 2 ^ 64 ->
  window_ok (transmitted now s e rest).
Proof.
  intros Hw Hs Hnow. pose proof (transmitted_slots now s e rest Hs) as Hts.
  pose proof (window_cons s e rest Hw Hs) as He. split.
  - rewrite Hts, length_insert. apply Hw.
  - apply Hw.
  - intros i e'. rewrite Hts. intros Hi.
    apply list_lookup_insert_Some in Hi as [(<- & Heq & _)|[_ Hi]]; [|by apply (wo_entry s Hw)].
    simplify_eq. destruct (wo_entry s Hw _ _ He) as [[Hrq _] Hid].
    split; [split; simpl; [done|lia]|done].
  - intros e' [He'|He']%elem_of_app; [by apply (wo_handled s Hw)|].
    apply list_elem_of_singleton in He'. simplify_eq. unfold unsent. simpl. lia.
  - pose proof (wo_waiting s Hw) as Hwt. rewrite Hs in Hwt. by apply Forall_cons_1 in Hwt as [_ ?].
Qed.

Lemma write_nothing now c s data data_size :
  client_is h c s -> waiting s = [] ->
  rrr_modbus_client_write now c data data_size = Ret (RRR_MODBUS_DONE, data, data_size, c).
Proof.
  intros [Hr _] Hs. unfold rrr_modbus_client_write. pose proof (re_window c s Hr) as Hw.
  destruct (window_head s Hw) as (o & rest & Hsl).
  assert (length (handled s) = 32%nat) as Hl.
  { pose proof (wo_length s Hw) as H. unfold slots in H. by rewrite Hs, app_nil_r in H. }
  assert (transaction_at c (transaction_transmit_pos c) = Ret (slot o)) as Hat.
  { rewrite <-(ring_at c s 0 o Hr) by by rewrite Hsl. rewrite (re_transmit c s Hr), Hl.
    f_equal. zdiv. }
  rewrite Hat. simpl. destruct o as [e|]; [|done].
  assert (~ unsent e) as Hun.
  { apply (wo_handled s Hw). unfold slots in Hsl. rewrite Hs, app_nil_r in Hsl. rewrite Hsl.
    apply elem_of_cons. by left. }
  unfold unsent in Hun. simpl. rewrite (proj2 (Z.eqb_neq (e_time e) 0)) by done.
  by rewrite orb_true_r.
Qed.

Lemma write_next now c s e rest data data_size :
  client_is h c s -> waiting s = e :: rest -> 0 < now < 2 ^ 64 ->
  data_size = Z.of_nat (length data) -> 259 <= data_size < 2 ^ 32 ->
  exists c', rrr_modbus_client_write now c data data_size
      = Ret (RRR_MODBUS_OK, splice 0 (adu (e_id e) 0 0xff (request_pdu (e_request e))) data,
             Z.of_nat (7 + length (request_pdu (e_request e))), c')
    /\ client_is h c' (transmitted now s e rest).
Proof.
  intros [Hr Hcb] Hs Hnow Hd Hsize. pose proof (re_window c s Hr) as Hw.
  pose proof (window_cons s e rest Hw Hs) as He.
  pose proof (ring_at c s _ _ Hr He) as Hat. rewrite <-(re_transmit c s Hr) in Hat.
  destruct (wo_entry s Hw _ _ He) as [[Hrq _] Hid].
  pose proof (request_pdu_size _ Hrq) as Hlen.
  assert (unsent e) as Hun.
  { pose proof (wo_waiting s Hw) as H. rewrite Hs in H. by apply Forall_cons_1 in H as [? _]. }
  unfold rrr_modbus_client_write. rewrite Hat. rewrite bind_ret. cbn [slot transaction_of req_size
    transmit_time req transaction_id].
  rewrite (proj2 (Z.eqb_neq (Z.of_nat _) 0)), Hun by lia. cbn [orb negb Z.eqb].
  unfold sizeof_mbap. rewrite !wrap_small by lia.
  rewrite (proj2 (Z.leb_le _ _)), (proj2 (Z.ltb_lt _ _)) by lia. cbn [andb negb].
  rewrite (proj2 (Z.ltb_ge data_size _)) by lia. unfold copy_from.
  rewrite length_padded, (proj2 (Z.leb_le _ _)) by lia. rewrite bind_ret, Nat2Z.id.
  rewrite (proj2 (Z.ltb_ge _ _)), take_padded by lia. eexists. split.
  - unfold adu. rewrite <-!app_assoc. repeat f_equal. lia.
  - split; [|done]. split; cbn [transaction_id_pos transaction_write_pos
      transaction_transmit_pos transactions].
    + by apply transmitted_ok.
    + apply Hr.
    + apply Hr.
    + rewrite next_pos_correct, (re_transmit c s Hr).
      * unfold transmitted. simpl. rewrite length_app. simpl. zdiv.
      * rewrite (re_transmit c s Hr). apply Z.mod_pos_bound. lia.
    + rewrite (transmitted_slots _ _ _ _ Hs), <-(ring_set c s).
      * by rewrite (re_transmit c s Hr).
      * done.
      * by eapply slots_small.
Qed.

(** * Finding the request of a response *)

Definition hit (id : Z) (t : rrr_modbus_client_transaction) : Prop :=
  transmit_time t <> 0 /\ transaction_id t = id.

Lemma hit_test id t :
  negb (transmit_time t =? 0) && (id =? transaction_id t) = bool_decide (hit id t).
Proof.
  destruct (decide (hit id t)) as [[]|Hn]; [rewrite bool_decide_eq_true_2 by done|
    rewrite bool_decide_eq_false_2 by done]; btests. by destruct Hn.
Qed.

Lemma find_loop_hit ts k t id :
  ts !! k = Some t -> hit id t ->
  (forall j t', ts !! j = Some t' -> hit id t' -> j = k) ->
  find_loop ts id = Some (t, <[k := zero_transaction]> ts).
Proof.
  revert k. induction ts as [|t0 ts IH]; intros k Hk Ht Hu; [done|]. simpl. rewrite hit_test.
  destruct (decide (hit id t0)) as [H0|H0].
  - rewrite bool_decide_eq_true_2 by done. specialize (Hu O t0 eq_refl H0) as <-.
    simpl in Hk. by simplify_eq.
  - rewrite bool_decide_eq_false_2 by done. destruct k as [|k]; simpl in Hk; [by simplify_eq|].
    rewrite (IH k); [done..|]. intros j t' Hj Ht'. specialize (Hu (S j) t' Hj Ht'). lia.
Qed.

Lemma find_loop_miss ts id :
  (forall t, t ∈ ts -> ~ hit id t) -> find_loop ts id = None.
Proof.
  induction ts as [|t ts IH]; intros Hn; [done|]. simpl.
  rewrite hit_test, bool_decide_eq_false_2 by (apply Hn, elem_of_cons; by left).
  rewrite IH; [done|]. intros t' Ht'. apply Hn, elem_of_cons. by right.
Qed.

Lemma ring_lookup_inv c s p t :
  represents c s -> transactions c !! p = Some t ->
  exists i o, slots s !! i = Some o /\ t = slot o /\ (i < 32)%nat
    /\ p = Z.to_nat ((transaction_write_pos c + Z.of_nat i) mod 32).
Proof.
  intros Hr Hp. pose proof (ring_length c s Hr) as Hl.
  pose proof (lookup_lt_Some _ _ _ Hp) as Hlt.
  set (i := rotate_nat_sub (Z.to_nat (transaction_write_pos c)) p (length (transactions c))).
  pose proof (lookup_rotate_l (transactions c) (Z.to_nat (transaction_write_pos c)) p Hlt) as Hi.
  fold i in Hi. rewrite Hp, (re_ring c s Hr), list_lookup_fmap in Hi.
  apply fmap_Some in Hi as (o & Hi & ->). exists i, o. split; [done|]. split; [done|]. split.
  - rewrite <-Hl. apply rotate_nat_sub_lt. lia.
  - rewrite (ring_pos c s i Hr). subst i. by rewrite rotate_nat_add_sub by lia.
Qed.

Lemma hit_handled s i o id :
  window_ok s -> slots s !! i = Some o -> hit id (slot o) ->
  exists e, handled s !! i = Some (Some e) /\ e_id e = id.
Proof.
  intros Hw Hi [Ht Hid]. destruct o as [e|]; [|done]. exists e. split; [|done].
  unfold slots in Hi. apply lookup_app_Some in Hi as [Hi|[_ Hi]]; [done|].
  apply list_lookup_fmap_Some in Hi as (e' & [= ->] & He').
  by destruct Ht; apply (Forall_lookup_1 _ _ _ _ (wo_waiting s Hw) He').
Qed.

Lemma slots_handled s i o : handled s !! i = Some o -> slots s !! i = Some o.
Proof. apply lookup_app_l_Some. Qed.

(** No two requests in the window have the same identifier. *)
Lemma ids_distinct s i j e e' :
  window_ok s -> slots s !! i = Some (Some e) -> slots s !! j = Some (Some e') ->
  e_id e = e_id e' -> i = j.
Proof.
  intros Hw Hi Hj. rewrite (proj2 (wo_entry s Hw i e Hi)), (proj2 (wo_entry s Hw j e' Hj)).
  pose proof (slots_small _ _ _ Hw Hi). pose proof (slots_small _ _ _ Hw Hj). zdiv.
Qed.

Lemma forget_slots i s :
  (i < length (handled s))%nat -> slots (forget i s) = <[i := None]> (slots s).
Proof. intros Hi. unfold slots, forget. simpl. by rewrite insert_app_l. Qed.

Lemma forget_ok i s : window_ok s -> (i < length (handled s))%nat -> window_ok (forget i s).
Proof.
  intros Hw Hi. split.
  - rewrite forget_slots, length_insert by done. apply Hw.
  - apply Hw.
  - intros j e. rewrite forget_slots by done. intros Hj.
    apply list_lookup_insert_Some in Hj as [(_ & ? & _)|[_ Hj]]; [done|]. by apply (wo_entry s Hw).
  - intros e He. apply (wo_handled s Hw). apply list_elem_of_lookup in He as [j Hj].
    apply list_lookup_insert_Some in Hj as [(_ & ? & _)|[_ Hj]]; [done|].
    by eapply list_elem_of_lookup_2.
  - apply Hw.
Qed.

Lemma consume_hit c s i e :
  client_is h c s -> handled s !! i = Some (Some e) ->
  exists c', rrr_modbus_client_transaction_find_and_consume c (e_id e)
      = (0, transaction_of e, c') /\ client_is h c' (forget i s).
Proof.
  intros [Hr Hcb] Hi. pose proof (re_window c s Hr) as Hw.
  pose proof (slots_handled _ _ _ Hi) as Hsi.
  pose proof (lookup_lt_Some _ _ _ Hi) as Hlt. pose proof (slots_small _ _ _ Hw Hsi) as H32.
  pose proof (ring_at c s i _ Hr Hsi) as Hat. unfold transaction_at in Hat.
  set (p := Z.to_nat ((transaction_write_pos c + Z.of_nat i) mod 32)) in *.
  destruct (transactions c !! p) as [t|] eqn:Hp; [|done]. injection Hat as ->.
  unfold rrr_modbus_client_transaction_find_and_consume.
  rewrite (find_loop_hit _ p (transaction_of e) (e_id e) Hp).
  - eexists. split; [done|]. split; [|done]. split; simpl; try apply Hr.
    + by apply forget_ok.
    + rewrite length_insert. apply Hr.
    + rewrite forget_slots by done. by rewrite <-(ring_set c s i None Hr H32).
  - split; [|done]. apply (wo_handled s Hw). by eapply list_elem_of_lookup_2.
  - intros j t Hj Hh. destruct (ring_lookup_inv c s j t Hr Hj) as (i' & o & Hi' & -> & _ & ->).
    destruct (hit_handled s i' o _ Hw Hi' Hh) as (e' & He' & Hid).
    by rewrite (ids_distinct s i' i e' e Hw (slots_handled _ _ _ He') Hsi Hid).
Qed.

Lemma consume_cases c s id :
  client_is h c s ->
  (exists i e, handled s !! i = Some (Some e) /\ e_id e = id)
  \/ rrr_modbus_client_transaction_find_and_consume c id = (1, zero_transaction, c).
Proof.
  intros [Hr _].
  destruct (decide (Exists (fun o => e_id <$> o = Some id) (handled s))) as [H|H].
  - left. apply Exists_exists in H as (o & Ho & (e & -> & He)%fmap_Some).
    apply list_elem_of_In, list_elem_of_lookup in Ho as [i Hi]. by exists i, e.
  - right. unfold rrr_modbus_client_transaction_find_and_consume.
    rewrite find_loop_miss; [done|]. intros t Ht Hh. apply H, Exists_exists.
    apply list_elem_of_lookup in Ht as [p Hp].
    destruct (ring_lookup_inv c s p t Hr Hp) as (i & o & Hi & -> & _ & _).
    destruct (hit_handled s i o _ (re_window c s Hr) Hi Hh) as (e & He & Hid).
    exists (Some e). split; [by eapply list_elem_of_In, list_elem_of_lookup_2|]. simpl. by rewrite Hid.
Qed.

(** * Receiving *)

(** Take the branch of a known function code to its callback. *)
Ltac branch Hcb :=
  cbn [function_of kind_code];
  unfold RRR_MODBUS_FUNCTION_CODE_01_READ_COILS, RRR_MODBUS_FUNCTION_CODE_02_READ_DISCRETE_INPUTS,
    RRR_MODBUS_FUNCTION_CODE_03_READ_HOLDING_REGISTERS,
    RRR_MODBUS_FUNCTION_CODE_04_READ_INPUT_REGISTERS,
    RRR_MODBUS_FUNCTION_CODE_06_WRITE_SINGLE_REGISTER,
    RRR_MODBUS_FUNCTION_CODE_16_WRITE_MULTIPLE_REGISTERS; cbn [Z.eqb Pos.eqb];
  unfold rrr_modbus_client_receive_01_read_coils, rrr_modbus_client_receive_02_read_discrete_inputs,
    rrr_modbus_client_receive_03_read_holding_registers,
    rrr_modbus_client_receive_04_read_input_registers,
    rrr_modbus_client_receive_06_write_single_register,
    rrr_modbus_client_receive_16_write_multiple_registers,
    RRR_MODBUS_FUNCTION_CODE_01_READ_COILS, RRR_MODBUS_FUNCTION_CODE_02_READ_DISCRETE_INPUTS,
    RRR_MODBUS_FUNCTION_CODE_03_READ_HOLDING_REGISTERS,
    RRR_MODBUS_FUNCTION_CODE_04_READ_INPUT_REGISTERS,
    RRR_MODBUS_FUNCTION_CODE_06_WRITE_SINGLE_REGISTER,
    RRR_MODBUS_FUNCTION_CODE_16_WRITE_MULTIPLE_REGISTERS; rewrite Hcb;
  cbn [all_set cb_res_01_read_coils cb_res_02_read_discrete_inputs
    cb_res_03_read_holding_registers cb_res_04_read_input_registers
    cb_res_06_write_single_register cb_res_16_write_multiple_registers].

Lemma reset_correct c s t w :
  client_is h c s ->
  exists t', rrr_modbus_client_transaction_reset c t w
    = Ret (t', dispose h (transaction_private_data t) w).
Proof.
  intros [_ Hcb]. unfold rrr_modbus_client_transaction_reset, dispose. rewrite Hcb. simpl.
  case_match; by eexists.
Qed.

Lemma request_code e : load8 (req (transaction_of e)) 0 = Ret (function_of (e_request e)).
Proof. unfold transaction_of. by destruct (e_request e). Qed.

Lemma request_amount e k a n :
  e_request e = Read_request k a n -> word_ok n -> field16 3 (req (transaction_of e)) = n.
Proof.
  intros He Hn. unfold transaction_of. rewrite He. cbn [req request_pdu]. unfold field16.
  transitivity (be_dec (be_enc 2 n)); [|rewrite be_dec_enc; apply Z.mod_small, Hn].
  f_equal.
Qed.

Lemma load8_0 x l : load8 (x :: l) 0 = Ret x.
Proof. done. Qed.

Lemma load8_1 x y l : load8 (x :: y :: l) 1 = Ret y.
Proof. done. Qed.

Lemma load8_res l i : length l = 252%nat -> 0 <= i < 252 -> exists b, load8 l i = Ret b.
Proof. intros Hl Hi. apply load8_inside. lia. Qed.

Lemma bytes_and_status_returns fc reg t pdu size cb (w : W) :
  length pdu = 252%nat ->
  exists r, rrr_modbus_client_receive_byte_count_and_status fc reg t pdu size (Some cb) w = Ret r.
Proof.
  intros Hl. unfold rrr_modbus_client_receive_byte_count_and_status.
  destruct (load8_res pdu 1) as [b ->]; [done|lia|]. rewrite bind_ret.
  repeat (case_match; try by eexists).
Qed.

Lemma switch_returns c s t rq pdu frame_size pdu_size w :
  client_is h c s -> length pdu = 252%nat ->
  exists r, receive_switch c t (function_of rq) pdu frame_size pdu_size w = Ret r.
Proof.
  intros [_ Hcb] Hl. unfold receive_switch.
  destruct rq as [[]| |]; branch Hcb; (destruct (VALIDATE_FRAME_SIZE _ _); [|by eexists]).
  1-4: edestruct bytes_and_status_returns as [r ->]; [done|]; by eexists.
  - unfold rrr_modbus_client_receive_starting_address_and_register_value.
    case_match; by eexists.
  - unfold rrr_modbus_client_receive_starting_address_and_quantity. case_match; by eexists.
Qed.

Lemma receive_returns c s frame frame_size w :
  client_is h c s -> length (res frame) = 252%nat -> 8 <= frame_size <= 259 ->
  exists ret c' w', rrr_modbus_client_receive c frame frame_size w = Ret (ret, c', w')
    /\ ((c' = c /\ ret = RRR_MODBUS_SOFT_ERROR)
        \/ exists i e, handled s !! i = Some (Some e)
             /\ e_id e = transaction_identifier (mbap frame) /\ client_is h c' (forget i s)).
Proof.
  intros Hc Hl Hsz. unfold rrr_modbus_client_receive.
  destruct (consume_cases c s (transaction_identifier (mbap frame)) Hc) as [(i & e & Hi & Hid)| ->].
  - rewrite <-Hid. destruct (consume_hit c s i e Hc Hi) as (c' & -> & Hc'). cbn [Z.eqb negb].
    destruct (load8_res (res frame) 0) as [fc ->]; [done|lia|]. rewrite bind_ret.
    match goal with |- exists ret c' w', ?m ≫= _ = _ /\ _ =>
      assert (exists r, m = Ret r) as [r ->] end.
    { case_match.
      - unfold receive_error. case_match; [by eexists|].
        unfold VALIDATE_TRANSACTION_FUNCTION_CODE. rewrite request_code. rewrite !bind_ret.
        case_match; [by eexists|]. rewrite (proj2 Hc'). cbn [all_set cb_res_error].
        destruct (load8_res (res frame) 1) as [x ->]; [done|lia|]. by eexists.
      - unfold VALIDATE_TRANSACTION_FUNCTION_CODE. rewrite request_code. rewrite !bind_ret.
        btest; cbn [negb]; [|by eexists]. subst fc.
        unfold sizeof_mbap. rewrite wrap_small, (proj2 (Z.ltb_ge _ _)) by lia.
        by eapply switch_returns. }
    rewrite bind_ret. destruct r as [[ret w1]|].
    + destruct (reset_correct c' _ (transaction_of e) w1 Hc') as [t' ->]. rewrite bind_ret.
      do 3 eexists. split; [done|]. right. by exists i, e.
    + do 3 eexists. split; [done|]. right. by exists i, e.
  - cbn [Z.eqb negb]. destruct (reset_correct c s zero_transaction w Hc) as [t' ->].
    rewrite bind_ret. do 3 eexists. split; [done|]. by left.
Qed.

Lemma copy_from_inside data off n :
  off + n <= Z.of_nat (length data) ->
  copy_from data off n = Ret (slice (Z.to_nat off) (Z.to_nat n) data).
Proof. intros. unfold copy_from. by rewrite (proj2 (Z.leb_le _ _)) by lia. Qed.

(** What reading leaves, whatever the bytes. *)
Lemma read_returns stack c s data data_size w :
  client_is h c s -> length stack = 252%nat -> bytes_ok data ->
  data_size = Z.of_nat (length data) -> data_size < 2 ^ 32 ->
  exists ret size c' w', rrr_modbus_client_read stack c data data_size w = Ret (ret, size, c', w')
    /\ (ret = RRR_MODBUS_OK -> 8 <= size <= Z.min 259 data_size)
    /\ (c' = c
        \/ exists i e, handled s !! i = Some (Some e) /\ e_id e = field16 0 data
             /\ client_is h c' (forget i s)).
Proof.
  intros Hc Hst Hb Hd Hmax. unfold rrr_modbus_client_read, sizeof_mbap.
  destruct (Z.ltb_spec data_size 7); [by do 4 eexists; split; [done|]; split; [done|left]|].
  rewrite copy_from_inside by lia. rewrite bind_ret.
  cbn [mbap_length]. set (head := slice _ _ data).
  assert (length head = 7%nat) as Hh by (apply length_slice; lia).
  assert (0 <= field16 4 head < 65536) as Hf.
  { unfold field16. pose proof (be_dec_range (slice 4 2 head)) as Hr.
    rewrite length_slice in Hr by lia. apply Hr. by do 2 apply slice_bytes. }
  rewrite (wrap_small 32 (6 + field16 4 head)) by lia.
  destruct (Z.ltb_spec (field16 4 head) 1); [by do 4 eexists; split; [done|]; split; [done|left]|].
  rewrite (wrap_small 32 (_ - _)) by lia.
  repeat (case_match; [by do 4 eexists; split; [done|]; split; [done|left]|]).
  rewrite ?Z.ltb_ge in *. unfold sizeof_res in *.
  rewrite copy_from_inside by lia. rewrite bind_ret.
  set (pdu := slice _ _ data).
  assert (length pdu = Z.to_nat (6 + field16 4 head - (6 + 1))) as Hp by (apply length_slice; lia).
  destruct (receive_returns c s (mk_frame (mk_mbap (field16 0 head) (field16 2 head)
    (field16 4 head) (be_dec (slice 6 1 head))) (splice 0 pdu stack)) (6 + field16 4 head) w Hc)
    as (ret & c' & w' & -> & Hcase).
  { cbn [res]. rewrite length_splice; lia. }
  { lia. }
  rewrite bind_ret.
  assert (field16 0 head = field16 0 data) as Hid.
  { unfold field16, head, slice. by rewrite !drop_0, take_take. }
  cbn [mbap transaction_identifier] in Hcase. rewrite Hid in Hcase.
  assert (c' = c \/ exists i e, handled s !! i = Some (Some e) /\ e_id e = field16 0 data
             /\ client_is h c' (forget i s)) as Hc' by naive_solver.
  destruct (Z.eqb_spec ret RRR_MODBUS_OK); cbn [negb];
    [|by do 4 eexists; split; [done|]; split].
  rewrite (proj2 (Z.eqb_eq (6 + field16 4 head) _)) by lia. cbn [negb].
  do 4 eexists. split; [done|]. split; [lia|done].
Qed.

(** * Delivery of responses *)

Lemma data_bytes_range k a n : request_ok (Read_request k a n) -> 1 <= data_bytes k n <= 250.
Proof. intros [_ Hn]. unfold data_bytes. destruct (kind_registers k); [lia|zdiv]. Qed.

Lemma response_pdu_size rq r fc :
  request_ok rq -> answers rq r -> (2 <= length (response_pdu fc r) <= 252)%nat.
Proof.
  intros Hrq Ha. destruct r; simpl; rewrite ?length_app, ?length_be_enc; simpl; [lia|..].
  - destruct rq as [k a n| |]; simpl in Ha; [|done..].
    pose proof (data_bytes_range k a n Hrq). lia.
  - destruct rq; simpl in Ha; [done| |done]. lia.
  - lia.
Qed.

(** The value of a 16-bit field written into a list. *)
Lemma field16_app l v l' :
  word_ok v -> field16 (length l) (l ++ be_enc 2 v ++ l') = v.
Proof.
  intros Hv. unfold field16, slice. rewrite drop_app_length.
  rewrite take_app_le, take_ge, be_dec_enc by (rewrite length_be_enc; lia).
  apply Z.mod_small, Hv.
Qed.

Lemma write_pdu fc a l rest :
  word_ok a -> length l = 2%nat ->
  length (fc :: be_enc 2 a ++ l) = 5%nat /\ field16 1 ((fc :: be_enc 2 a ++ l) ++ rest) = a
  /\ slice 3 2 ((fc :: be_enc 2 a ++ l) ++ rest) = l.
Proof.
  intros Ha Hl. split; [|split].
  - cbn [length]. by rewrite length_app, length_be_enc, Hl.
  - change ((fc :: be_enc 2 a ++ l) ++ rest) with ([fc] ++ (be_enc 2 a ++ l) ++ rest).
    rewrite <-app_assoc. by apply (field16_app [fc]).
  - by destruct l as [|x [|y [|]]].
Qed.

Lemma status_delivers (reg : bool) k t e a n bytes rest size (w : W) :
  e_request e = Read_request k a n -> t = transaction_of e -> word_ok n ->
  bytes_ok bytes -> Z.of_nat (length bytes) = data_bytes k n -> 1 <= data_bytes k n <= 250 ->
  reg = kind_registers k -> size = Z.of_nat (length bytes) + 2 ->
  length rest = (250 - length bytes)%nat ->
  rrr_modbus_client_receive_byte_count_and_status (kind_code k) reg t
    (kind_code k :: Z.of_nat (length bytes) :: bytes ++ rest) size (Some (h_read h k)) w
  = Ret (h_read h k (kind_code k) (e_id e) (Z.of_nat (length bytes)) (bytes ++ rest)
           (e_private e) w).
Proof.
  intros He -> Hn Hb Hlen Hrange -> -> Hrest.
  unfold rrr_modbus_client_receive_byte_count_and_status.
  rewrite load8_1, bind_ret, (request_amount e k a n He Hn). fold (data_bytes k n). rewrite Hlen.
  rewrite wrap_small by lia.
  rewrite (proj2 (Z.eqb_neq _ 0)), (proj2 (Z.eqb_eq _ (_ - 2))), (proj2 (Z.eqb_eq _ _)) by lia.
  cbn [negb]. do 2 f_equal. unfold slice. cbn [drop]. apply take_ge. rewrite length_app. lia.
Qed.

Lemma switch_delivers c s stack e r w :
  client_is h c s -> length stack = 252%nat -> request_ok (e_request e) ->
  answers (e_request e) r -> (forall code, r <> Exception_response code) ->
  let pdu := response_pdu (function_of (e_request e)) r in
  receive_switch c (transaction_of e) (function_of (e_request e))
    (pdu ++ drop (length pdu) stack) (Z.of_nat (7 + length pdu)) (Z.of_nat (length pdu)) w
  = Ret (Some (deliver h stack e r w)).
Proof.
  intros [_ Hcb] Hst Hrq Ha Hne pdu.
  pose proof (response_pdu_size _ r (function_of (e_request e)) Hrq Ha) as Hsz. fold pdu in Hsz.
  unfold receive_switch, deliver. rewrite (wrap_small 16) by lia.
  destruct (e_request e) as [k a n|a v|a n v] eqn:He; destruct r as [code|bytes|a' v'|a' n'];
    try done; simpl in Ha.
  1, 3, 5: by destruct (Hne code).
  - destruct Ha as [Hb Hlen]. pose proof (data_bytes_range k a n Hrq) as Hdb.
    assert (pdu ++ drop (length pdu) stack
      = kind_code k :: Z.of_nat (length bytes) :: bytes ++ drop (2 + length bytes) stack) as ->
      by done.
    assert (Z.of_nat (length pdu) = Z.of_nat (length bytes) + 2) as Hpl by (simpl; lia).
    assert (VALIDATE_FRAME_SIZE (Z.of_nat (7 + length pdu)) sizeof_read_res = true) as Hv.
    { unfold VALIDATE_FRAME_SIZE, sizeof_mbap, sizeof_read_res. apply negb_true_iff, Z.ltb_ge. lia. }
    assert (word_ok n) as Hn by (destruct Hrq; unfold word_ok; destruct (kind_registers k); lia).
    assert (length (drop (2 + length bytes) stack) = (250 - length bytes)%nat) as Hd
      by (rewrite length_drop; lia).
    pose proof (status_delivers _ k _ e a n bytes (drop (2 + length bytes) stack)
      (Z.of_nat (length pdu)) w He eq_refl Hn Hb Hlen Hdb eq_refl Hpl Hd) as Hdel.
    destruct k; branch Hcb; rewrite Hv; cbn [kind_code kind_registers] in Hdel; by rewrite Hdel.
  - destruct Ha as (Hw & Hl & _). branch Hcb.
    destruct (write_pdu 6 a' v' (drop (length pdu) stack) Hw Hl) as (Hpl & Hf & Hs).
    unfold rrr_modbus_client_receive_starting_address_and_register_value.
    subst pdu. cbn [response_pdu function_of] in *. by rewrite Hf, Hs, Hpl.
  - destruct Ha as (Hw & Hn). branch Hcb.
    destruct (write_pdu 16 a' (be_enc 2 n') (drop (length pdu) stack) Hw) as (Hpl & Hf & Hs);
      [apply length_be_enc|].
    unfold rrr_modbus_client_receive_starting_address_and_quantity.
    subst pdu. cbn [response_pdu function_of] in *.
    assert (field16 3 ((16 :: be_enc 2 a' ++ be_enc 2 n') ++
      drop (length (16 :: be_enc 2 a' ++ be_enc 2 n')) stack) = n') as Hf3.
    { unfold field16. rewrite Hs, be_dec_enc. apply Z.mod_small, Hn. }
    by rewrite Hf, Hf3, Hpl.
Qed.

Lemma receive_delivers c s i e stack r hd w :
  client_is h c s -> length stack = 252%nat -> handled s !! i = Some (Some e) ->
  answers (e_request e) r -> transaction_identifier hd = e_id e ->
  let pdu := response_pdu (function_of (e_request e)) r in
  let '(ret, w') := deliver h stack e r w in
  exists c', rrr_modbus_client_receive c (mk_frame hd (pdu ++ drop (length pdu) stack))
      (Z.of_nat (7 + length pdu)) w = Ret (ret, c', dispose h (e_private e) w')
    /\ client_is h c' (forget i s).
Proof.
  intros Hc Hst Hi Ha Hid pdu. destruct (deliver h stack e r w) as [ret w1] eqn:Hdel.
  destruct (wo_entry s (re_window _ _ (proj1 Hc)) i e (slots_handled _ _ _ Hi)) as [[Hrq _] _].
  pose proof (response_pdu_size _ r (function_of (e_request e)) Hrq Ha) as Hsz. fold pdu in Hsz.
  destruct (consume_hit c s i e Hc Hi) as (c' & Hcons & Hc').
  exists c'. split; [|done]. unfold rrr_modbus_client_receive. cbn [mbap res].
  rewrite Hid, Hcons. cbn [Z.eqb negb].
  destruct (reset_correct c' _ (transaction_of e) w1 Hc') as [t' Hreset].
  cbn [transaction_of transaction_private_data] in Hreset.
  assert ((exists code, r = Exception_response code)
    \/ forall code, r <> Exception_response code) as [[code ->]|Hne].
  { destruct r; [left; by eexists|by right..]. }
  - assert (0 < function_of (e_request e) < 0x80) as Hfc.
    { destruct (e_request e) as [[]| |]; simpl; lia. }
    subst pdu. cbn [response_pdu app]. rewrite load8_0. rewrite bind_ret, (proj2 (Z.ltb_lt _ _)) by lia.
    unfold receive_error. cbn [length].
    replace (negb (VALIDATE_FRAME_SIZE _ _)) with false by done.
    unfold VALIDATE_TRANSACTION_FUNCTION_CODE. rewrite request_code, bind_ret.
    replace (function_of (e_request e) + 128 - 128) with (function_of (e_request e)) by lia.
    rewrite Z.eqb_refl, bind_ret. cbn [negb]. rewrite (proj2 Hc'). cbn [all_set cb_res_error].
    rewrite load8_1, !bind_ret. unfold deliver in Hdel.
    cbn [transaction_of transaction_id transaction_private_data].
    unfold dispose in *. simpl in Hreset. by rewrite Hdel, Hreset.
  - assert (exists l, pdu = function_of (e_request e) :: l) as [l Hl].
    { destruct r; [by destruct (Hne code)|by eexists..]. }
    assert (load8 (pdu ++ drop (length pdu) stack) 0 = Ret (function_of (e_request e))) as ->
      by by rewrite Hl.
    rewrite bind_ret, (proj2 (Z.ltb_ge _ _)) by (destruct (e_request e) as [[]| |]; simpl; lia).
    unfold VALIDATE_TRANSACTION_FUNCTION_CODE. rewrite request_code, !bind_ret, Z.eqb_refl.
    cbn [negb]. unfold sizeof_mbap. rewrite wrap_small, (proj2 (Z.ltb_ge _ _)) by lia.
    replace (Z.of_nat (7 + length pdu) - 7) with (Z.of_nat (length pdu)) by lia.
    pose proof (switch_delivers c' _ stack e r w Hc' Hst Hrq Ha Hne) as Hsw. fold pdu in Hsw.
    rewrite Hsw, bind_ret, Hdel. by rewrite Hreset.
Qed.

Lemma head_fields id protocol len unit :
  word_ok id -> word_ok len ->
  let head := be_enc 2 id ++ be_enc 2 protocol ++ be_enc 2 len ++ [unit] in
  mk_mbap (field16 0 head) (field16 2 head) (field16 4 head) (be_dec (slice 6 1 head))
  = mk_mbap id (u16 protocol) len (be_dec [unit]).
Proof.
  intros Hid Hlen head. f_equal.
  - by apply (field16_app []).
  - transitivity (be_dec (be_enc 2 protocol)); [done|]. by rewrite be_dec_enc.
  - transitivity (be_dec (be_enc 2 len)); [done|]. rewrite be_dec_enc. by apply Z.mod_small.
Qed.

(** A response that arrives in a buffer, with whatever comes behind it. *)
Lemma read_delivers stack c s i e protocol unit r rest data_size w :
  client_is h c s -> length stack = 252%nat -> handled s !! i = Some (Some e) ->
  answers (e_request e) r ->
  let frame := adu (e_id e) protocol unit (response_pdu (function_of (e_request e)) r) in
  data_size = Z.of_nat (length (frame ++ rest)) -> data_size < 2 ^ 32 ->
  let '(ret, w') := deliver h stack e r w in
  exists c', rrr_modbus_client_read stack c (frame ++ rest) data_size w
      = Ret (ret, if ret =? RRR_MODBUS_OK then Z.of_nat (length frame) else data_size, c',
             dispose h (e_private e) w')
    /\ client_is h c' (forget i s).
Proof.
  intros Hc Hst Hi Ha frame Hd Hmax.
  destruct (wo_entry s (re_window _ _ (proj1 Hc)) i e (slots_handled _ _ _ Hi)) as [[Hrq _] Hid].
  pose proof (response_pdu_size _ r (function_of (e_request e)) Hrq Ha) as Hsz.
  subst frame. set (pdu := response_pdu _ r) in *. pose proof (length_adu (e_id e) protocol unit pdu).
  set (hd := mk_mbap (e_id e) (u16 protocol) (Z.of_nat (length pdu) + 1) (be_dec [unit])).
  pose proof (receive_delivers c s i e stack r hd w Hc Hst Hi Ha eq_refl) as Hrec.
  fold pdu in Hrec. destruct (deliver h stack e r w) as [ret w1].
  destruct Hrec as (c' & Hrec & Hc'). exists c'. split; [|done].
  rewrite length_app in Hd. unfold rrr_modbus_client_read, sizeof_mbap, sizeof_res.
  rewrite (proj2 (Z.ltb_ge _ _)), copy_from_inside by (rewrite ?length_app; lia).
  rewrite bind_ret.
  replace (slice (Z.to_nat 0) (Z.to_nat 7) (adu (e_id e) protocol unit pdu ++ rest))
    with (be_enc 2 (e_id e) ++ be_enc 2 protocol ++ be_enc 2 (Z.of_nat (length pdu) + 1) ++ [unit])
    by done.
  rewrite head_fields by (unfold word_ok; lia || rewrite Hid; apply Z.mod_pos_bound; lia).
  cbn [mbap_length]. rewrite (wrap_small 32 (6 + _)) by lia.
  replace (6 + (Z.of_nat (length pdu) + 1)) with (Z.of_nat (7 + length pdu)) by lia.
  rewrite (wrap_small 32) by lia. rewrite !(proj2 (Z.ltb_ge _ _)) by lia.
  rewrite copy_from_inside by (rewrite ?length_app; lia). rewrite bind_ret.
  replace (slice (Z.to_nat (6 + 1)) (Z.to_nat (Z.of_nat (7 + length pdu) - (6 + 1)))
    (adu (e_id e) protocol unit pdu ++ rest)) with pdu.
  2: { replace (Z.to_nat (Z.of_nat (7 + length pdu) - (6 + 1))) with (length pdu) by lia.
       symmetry. apply (take_app_length pdu rest). }
  change (splice 0 pdu stack) with (pdu ++ drop (length pdu) stack).
  fold hd. rewrite Hrec, bind_ret. btest; cbn [negb]; [|done].
  rewrite (proj2 (Z.eqb_eq _ _)) by lia. cbn [negb]. do 4 f_equal. lia.
Qed.

(** * Histories *)

Inductive op :=
| Push (now : Z) (rq : request) (arg : Z)
| Transmit (now : Z) (buffer : list Z)
| Receive (stack data : list Z).

Definition buffer_ok (buffer : list Z) : Prop := 259 <= Z.of_nat (length buffer) < 2 ^ 32.

Definition op_ok (o : op) : Prop :=
  match o with
  | Push _ rq _ => request_ok rq
  | Transmit now buffer => 0 < now < 2 ^ 64 /\ buffer_ok buffer
  | Receive stack data =>
    length stack = 252%nat /\ bytes_ok data /\ Z.of_nat (length data) < 2 ^ 32
  end.

Definition step (o : op) (cw : rrr_modbus_client W * W) : outcome (rrr_modbus_client W * W) :=
  let '(c, w) := cw in
  match o with
  | Push now rq arg => '(_, c, w) ← do_request now c rq arg w; Ret (c, w)
  | Transmit now buffer =>
    '(_, _, _, c) ← rrr_modbus_client_write now c buffer (Z.of_nat (length buffer)); Ret (c, w)
  | Receive stack data =>
    '(_, _, c, w) ← rrr_modbus_client_read stack c data (Z.of_nat (length data)) w; Ret (c, w)
  end.

Fixpoint run (os : list op) (cw : rrr_modbus_client W * W) : outcome (rrr_modbus_client W * W) :=
  match os with
  | [] => Ret cw
  | o :: os => cw ← step o cw; run os cw
  end.

Lemma step_ok o c s w :
  client_is h c s -> op_ok o ->
  exists c' w' s', step o (c, w) = Ret (c', w') /\ client_is h c' s'.
Proof.
  intros Hc Ho. destruct o as [now rq arg|now buffer|stack data]; simpl in *.
  - pose proof (do_request_correct now c s rq arg w Hc Ho) as H.
    destruct (push_spec h now s rq arg w) as [[ret s'] w'].
    destruct H as (c' & -> & Hc'). by do 3 eexists.
  - destruct Ho as [Hnow Hb]. destruct (waiting s) as [|e rest] eqn:Hs.
    + rewrite (write_nothing now c s) by done. by do 3 eexists.
    + destruct (write_next now c s e rest buffer (Z.of_nat (length buffer)) Hc Hs Hnow eq_refl Hb)
        as (c' & -> & Hc'). by do 3 eexists.
  - destruct Ho as (Hst & Hb & Hl).
    destruct (read_returns stack c s data _ w Hc Hst Hb eq_refl Hl)
      as (ret & size & c' & w' & -> & _ & Hcase).
    destruct Hcase as [->|(i & e & _ & _ & Hc')]; by do 3 eexists.
Qed.

Lemma run_ok os c s w :
  client_is h c s -> Forall op_ok os ->
  exists c' w' s', run os (c, w) = Ret (c', w') /\ client_is h c' s'.
Proof.
  revert c s w. induction os as [|o os IH]; intros c s w Hc Hos; cbn [run].
  - by exists c, w, s.
  - apply Forall_cons_1 in Hos as [Ho Hos].
    destruct (step_ok o c s w Hc Ho) as (c1 & w1 & s1 & -> & Hc1). rewrite bind_ret.
    by apply (IH c1 s1).
Qed.

Definition new_client : rrr_modbus_client W :=
  rrr_modbus_client_callbacks_set (default (mk_client 0 [] 0 0 no_callbacks)
    (rrr_modbus_client_new true).2) (all_set h).

Definition empty_window : window := mk_window 0 (replicate 32 None) [].

Lemma new_client_ok : client_is h new_client empty_window.
Proof.
  split; [|done]. split; [|done|done|done|done]. split; try done.
  - intros i e. unfold slots, empty_window. cbn [handled waiting fmap list_fmap].
    rewrite app_nil_r. intros [H _]%lookup_replicate_1. done.
  - intros e [H _]%elem_of_replicate. done.
Qed.

(** * Transmitting all *)

(** [n] frames as they are put into the buffer. *)
Fixpoint transmit (now : Z) (buffer : list Z) (n : nat) (c : rrr_modbus_client W)
  : outcome (list (list Z) * rrr_modbus_client W) :=
  match n with
  | O => Ret ([], c)
  | S n =>
    '(ret, data, size, c) ←
      rrr_modbus_client_write now c buffer (Z.of_nat (length buffer));
    if negb (ret =? RRR_MODBUS_OK) then Ret ([], c) else
    '(frames, c) ← transmit now buffer n c; Ret (take (Z.to_nat size) data :: frames, c)
  end.

Definition frame_of (e : entry) : list Z := adu (e_id e) 0 0xff (request_pdu (e_request e)).

Definition all_transmitted now s : window :=
  mk_window (next_id s) (handled s ++ ((fun e => Some (sent now e)) <$> waiting s)) [].

Lemma transmit_all now buffer c s :
  client_is h c s -> 0 < now < 2 ^ 64 -> buffer_ok buffer ->
  exists c', transmit now buffer (length (waiting s)) c = Ret (frame_of <$> waiting s, c')
    /\ client_is h c' (all_transmitted now s).
Proof.
  intros Hc Hnow Hb. remember (waiting s) as ws eqn:Hs. revert c s Hc Hs.
  induction ws as [|e ws IH]; intros c s Hc Hs; simpl.
  - exists c. split; [done|]. unfold all_transmitted. rewrite <-Hs, app_nil_r, Hs. by destruct s.
  - destruct (write_next now c s e ws buffer _ Hc (eq_sym Hs) Hnow eq_refl Hb) as (c1 & -> & Hc1).
    rewrite bind_ret. cbn [Z.eqb RRR_MODBUS_OK RRR_READ_OK negb].
    destruct (IH c1 (transmitted now s e ws) Hc1 eq_refl) as (c2 & -> & Hc2). rewrite bind_ret.
    exists c2. split.
    + do 2 f_equal. f_equal. rewrite Nat2Z.id. rewrite <-(length_adu (e_id e) 0 0xff).
      apply (take_app_length (frame_of e)).
    + revert Hc2. unfold all_transmitted, transmitted. simpl.
      by rewrite <-Hs, <-app_assoc.
Qed.

Lemma in_use_distinct c s i j t t' :
  represents c s -> transactions c !! i = Some t -> transactions c !! j = Some t' ->
  0 < req_size t -> 0 < req_size t' -> transaction_id t = transaction_id t' -> i = j.
Proof.
  intros Hr Hi Hj Ht Ht' Hid.
  destruct (ring_lookup_inv c s i t Hr Hi) as (k & [e|] & Hk & -> & _ & ->); [|done].
  destruct (ring_lookup_inv c s j t' Hr Hj) as (k' & [e'|] & Hk' & -> & _ & ->); [|done].
  by rewrite (ids_distinct s k k' e e' (re_window c s Hr) Hk Hk' Hid).
Qed.

(** * Where responses are not handled well *)

(** A response with another function code than the request uses the request up
    without the private data being destroyed. *)
Lemma mismatch_leaks c s i e frame frame_size fc w :
  client_is h c s -> handled s !! i = Some (Some e) ->
  transaction_identifier (mbap frame) = e_id e -> load8 (res frame) 0 = Ret fc ->
  fc <= 0x80 -> fc <> function_of (e_request e) ->
  exists c', rrr_modbus_client_receive c frame frame_size w = Ret (RRR_MODBUS_SOFT_ERROR, c', w)
    /\ client_is h c' (forget i s).
Proof.
  intros Hc Hi Hid Hfc Hle Hne. destruct (consume_hit c s i e Hc Hi) as (c' & Hcons & Hc').
  exists c'. split; [|done]. unfold rrr_modbus_client_receive.
  rewrite Hid, Hcons, Hfc. cbn [Z.eqb negb]. rewrite bind_ret, (proj2 (Z.ltb_ge _ _)) by done.
  unfold VALIDATE_TRANSACTION_FUNCTION_CODE. rewrite request_code, !bind_ret.
  by rewrite (proj2 (Z.eqb_neq _ _)) by done.
Qed.

(** An error response without an exception code: the callback is given what was
    on the stack. *)
Lemma short_exception_reads_stack c s i e hd x y stack w :
  client_is h c s -> handled s !! i = Some (Some e) -> transaction_identifier hd = e_id e ->
  let fc := function_of (e_request e) in
  let '(ret, w') := h_error h (e_id e) fc y (e_private e) w in
  exists c', rrr_modbus_client_receive c
      (mk_frame hd (splice 0 [fc + 0x80] (x :: y :: stack))) 8 w
    = Ret (ret, c', dispose h (e_private e) w') /\ client_is h c' (forget i s).
Proof.
  intros Hc Hi Hid fc. destruct (h_error h (e_id e) fc y (e_private e) w) as [ret w'] eqn:He.
  destruct (consume_hit c s i e Hc Hi) as (c' & Hcons & Hc'). exists c'. split; [|done].
  unfold rrr_modbus_client_receive, splice. cbn [mbap res take drop app length Nat.add].
  rewrite Hid, Hcons. cbn [Z.eqb negb].
  assert (0 < fc < 0x80) as Hfc by (subst fc; destruct (e_request e) as [[]| |]; simpl; lia).
  rewrite load8_0, bind_ret, (proj2 (Z.ltb_lt _ _)) by lia. unfold receive_error.
  unfold VALIDATE_TRANSACTION_FUNCTION_CODE. rewrite request_code, bind_ret.
  replace (fc + 128 - 128) with fc by lia. fold fc. rewrite Z.eqb_refl, bind_ret.
  cbn [negb VALIDATE_FRAME_SIZE]. rewrite (proj2 Hc'). cbn [all_set cb_res_error].
  rewrite load8_1, !bind_ret.
  destruct (reset_correct c' _ (transaction_of e) w' Hc') as [t' Hreset].
  change (transaction_id (transaction_of e)) with (e_id e).
  change (transaction_private_data (transaction_of e)) with (e_private e) in *.
  rewrite He. change (VALIDATE_FRAME_SIZE 8 sizeof_res_error) with true.
  cbn [negb]. rewrite bind_ret. by rewrite Hreset.
Qed.

End proofs.

(** * Theorems *)

(** C34.  Whatever requests are pushed, frames transmitted and bytes received, in
    any order and starting from a new client, no call aborts or leaves its
    objects, the ring is a window over the last 32 requests, and no two
    transactions in use have the same identifier, although identifiers wrap. *)
Theorem rrr_modbus_client_history_ok {W} (h : handlers W) os w :
  Forall op_ok os ->
  exists c w', run os (new_client h, w) = Ret (c, w')
    /\ (exists s, client_is h c s)
    /\ forall i j t t', transactions c !! i = Some t -> transactions c !! j = Some t' ->
         0 < req_size t -> 0 < req_size t' -> transaction_id t = transaction_id t' -> i = j.
Proof.
  intros Hos. destruct (run_ok h os _ _ w (new_client_ok h) Hos) as (c & w' & s & Hrun & Hc).
  exists c, w'. split; [done|]. split; [by exists s|].
  intros i j t t'. eapply in_use_distinct, Hc.
Qed.

(** C33.  A request that the client takes is transmitted after those that were
    waiting, in the form of the standard and under an identifier of its own; its
    response, whatever is received behind it, is passed to the callback of the
    function with what it says and with the private data of the request, which
    is destroyed afterwards. *)
Theorem rrr_modbus_client_exchange {W} (h : handlers W) now now' c s rest rq arg p w w1 buffer :
  client_is h c s -> slots s = None :: rest -> request_ok rq ->
  h_create h arg w = (0, p, w1) -> 0 < now' < 2 ^ 64 -> buffer_ok buffer ->
  let e := mk_entry (next_id s) rq p now' in
  exists c1 c2,
    do_request now c rq arg w = Ret (0, c1, w1)
    /\ transmit now' buffer (S (length (waiting s))) c1
       = Ret ((frame_of <$> waiting s) ++ [adu (next_id s) 0 0xff (request_pdu rq)], c2)
    /\ forall r protocol unit behind stack w2,
         answers rq r -> length stack = 252%nat ->
         let frame := adu (next_id s) protocol unit (response_pdu (function_of rq) r) in
         let size := Z.of_nat (length (frame ++ behind)) in
         size < 2 ^ 32 ->
         let '(ret, w3) := deliver h stack e r w2 in
         exists c3, rrr_modbus_client_read stack c2 (frame ++ behind) size w2
           = Ret (ret, if ret =? RRR_MODBUS_OK then Z.of_nat (length frame) else size, c3,
                  dispose h p w3)
           /\ exists s3 hs, client_is h c3 s3 /\ handled s3 = hs ++ [None].
Proof.
  intros Hc Hs Hrq Hcr Hnow Hb e. pose proof (do_request_correct h now c s rq arg w Hc Hrq) as Hp.
  unfold push_spec in Hp. rewrite Hcr, Hs in Hp. cbn [negb Z.eqb] in Hp.
  destruct Hp as (c1 & Hp & Hc1). fold (pushed s rq p) in Hc1.
  destruct (transmit_all h now' buffer c1 _ Hc1 Hnow Hb) as (c2 & Ht & Hc2).
  exists c1, c2. split; [done|]. split.
  { revert Ht. unfold pushed. cbn [waiting]. rewrite length_app, fmap_app. simpl length.
    by rewrite Nat.add_1_r. }
  intros r protocol unit behind stack w2 Ha Hst frame size Hsize.
  set (s2 := all_transmitted now' (pushed s rq p)) in *.
  assert (exists l, handled s2 = l ++ [Some e]) as [l Hl].
  { unfold s2, all_transmitted, pushed. simpl. rewrite fmap_app, app_assoc. by eexists. }
  assert (handled s2 !! length l = Some (Some e)) as Hi by (rewrite Hl; apply list_lookup_middle; lia).
  pose proof (read_delivers h stack c2 s2 _ e protocol unit r behind size w2 Hc2 Hst Hi Ha eq_refl
    Hsize) as Hread.
  destruct (deliver h stack e r w2) as [ret w3]. destruct Hread as (c3 & Hread & Hc3).
  exists c3. split; [done|]. eexists _, l. split; [done|]. unfold forget. cbn [handled].
  by rewrite Hl, insert_app_r_alt, Nat.sub_diag by lia.
Qed.

(** Callbacks that log what they are given. *)
Definition log_handlers : handlers (list (list Z)) :=
  mk_handlers (fun arg w => (0, arg, w)) (fun p w => w ++ [[p]])
    (fun id fc code p w => (0, w ++ [[id; fc; code; p]]))
    (fun k fc id n bytes p w => (0, w ++ [[fc; id; n; p] ++ take (Z.to_nat n) bytes]))
    (fun fc id a v p w => (0, w ++ [[fc; id; a; p] ++ v]))
    (fun fc id a n p w => (0, w ++ [[fc; id; a; n; p]])).

Definition a_stack : list Z := replicate 252 170.
Definition a_buffer : list Z := replicate 300 0.

Lemma rrr_modbus_client_history_ok_witness :
  exists c w', run [Push 1 (Read_request Coils 5 9) 77; Transmit 2 a_buffer;
                    Receive a_stack [0; 0; 0; 0; 0; 5; 1; 1; 2; 3; 1]] (new_client log_handlers, [])
    = Ret (c, w') /\ (exists s, client_is log_handlers c s)
    /\ forall i j t t', transactions c !! i = Some t -> transactions c !! j = Some t' ->
         0 < req_size t -> 0 < req_size t' -> transaction_id t = transaction_id t' -> i = j.
Proof.
  apply (rrr_modbus_client_history_ok log_handlers). repeat constructor; try done.
Defined.

Lemma rrr_modbus_client_exchange_witness :
  exists c1 c2,
    do_request 1 (new_client log_handlers) (Write_register 3 [4; 5]) 77 [] = Ret (0, c1, [])
    /\ transmit 2 a_buffer 1 c1 = Ret ([[0; 0; 0; 0; 0; 6; 255; 6; 0; 3; 4; 5]], c2)
    /\ exists c3, rrr_modbus_client_read a_stack c2 [0; 0; 0; 0; 0; 6; 1; 6; 0; 3; 4; 5; 9] 13 []
       = Ret (0, 12, c3, [[6; 0; 3; 77; 4; 5]; [77]]).
Proof.
  destruct (rrr_modbus_client_exchange log_handlers 1 2 (new_client log_handlers) empty_window
    (replicate 31 None) (Write_register 3 [4; 5]) 77 77 [] [] a_buffer) as (c1 & c2 & H1 & H2 & H3);
    try done.
  - apply new_client_ok.
  - by repeat constructor.
  - exists c1, c2. split; [done|]. split; [exact H2|].
    destruct (H3 (Write_register_response 3 [4; 5]) 0 1 [9] a_stack []) as (c3 & Hr & _);
      [by repeat constructor|done..|]. by exists c3.
Defined.

End ModbusClient.
