(* ===== verification/MqttPayloadBuf.v ===== *)
(** The growing buffer in which MQTT packets are assembled
    (src/src/lib/mqtt/mqtt_payload_buf.c), and the variable length integers of
    MQTT as they are written there and for the fixed header
    (mqtt_connection.c).  Pointers into the buffer are offsets; a write past the
    end of the allocated memory is [Oob].  [alloc_ok n] tells whether an
    allocation of [n] bytes succeeds. *)
From S2P Require Import Prelude.
From S2P Require Import Types.

Module MqttPayloadBuf.
Import Types.

Definition RRR_MQTT_PAYLOAD_BUF_INCREMENT_SIZE : Z := 64.
Definition RRR_MQTT_PAYLOAD_BUF_OK : Z := 0.
Definition RRR_MQTT_PAYLOAD_BUF_ERR : Z := 1.

Record rrr_mqtt_payload_buf_session := mk_buf {
  buf : list Z;
  wpos : Z;
  wpos_max : Z;
  buf_size : Z
}.

Section Buf.
Context (alloc_ok : Z -> bool).

Definition rrr_mqtt_payload_buf_init : Z * rrr_mqtt_payload_buf_session :=
  if alloc_ok RRR_MQTT_PAYLOAD_BUF_INCREMENT_SIZE then
    (RRR_MQTT_PAYLOAD_BUF_OK,
     mk_buf (replicate (Z.to_nat RRR_MQTT_PAYLOAD_BUF_INCREMENT_SIZE) 0) 0 0
       RRR_MQTT_PAYLOAD_BUF_INCREMENT_SIZE)
  else (RRR_MQTT_PAYLOAD_BUF_ERR, mk_buf [] 0 0 0).

Definition rrr_mqtt_payload_buf_ensure (s : rrr_mqtt_payload_buf_session) (size : Z)
  : outcome (Z * rrr_mqtt_payload_buf_session) :=
  if size <=? 0 then Bug
  else if wpos s + size <=? buf_size s then Ret (RRR_MQTT_PAYLOAD_BUF_OK, s)
  else
    old_wpos_max ← rrr_length_from_ptr_sub_bug_const (wpos_max s) 0;
    old_wpos ← rrr_length_from_ptr_sub_bug_const (wpos s) 0;
    new_size ← rrr_length_from_ptr_sub_bug_const (wpos s + size) 0;
    size_diff ← rrr_length_sub_bug_const new_size (buf_size s);
    if size_diff =? 0 then Bug
    else
      let '(size_diff, new_size) :=
        if size_diff <? RRR_MQTT_PAYLOAD_BUF_INCREMENT_SIZE
        then (RRR_MQTT_PAYLOAD_BUF_INCREMENT_SIZE,
              u32 (RRR_MQTT_PAYLOAD_BUF_INCREMENT_SIZE + buf_size s))
        else (size_diff, new_size) in
      if alloc_ok new_size then
        (* The memory beyond the old size is zeroed. *)
        if new_size <? buf_size s + size_diff then Oob
        else Ret (RRR_MQTT_PAYLOAD_BUF_OK,
               mk_buf (buf s ++ replicate (Z.to_nat size_diff) 0) old_wpos old_wpos_max new_size)
      else Ret (RRR_MQTT_PAYLOAD_BUF_ERR, s).

(** [memcpy] to the position and advancing it. *)
Definition write_at (s : rrr_mqtt_payload_buf_session) (data : list Z)
  : outcome rrr_mqtt_payload_buf_session :=
  if (0 <=? wpos s) && (wpos s + Z.of_nat (length data) <=? Z.of_nat (length (buf s))) then
    let pos := wpos s + Z.of_nat (length data) in
    Ret (mk_buf (splice (Z.to_nat (wpos s)) data (buf s)) pos
           (if wpos_max s <? pos then pos else wpos_max s) (buf_size s))
  else Oob.

Definition rrr_mqtt_payload_buf_put_raw (s : rrr_mqtt_payload_buf_session) (data : list Z)
  : outcome (Z * rrr_mqtt_payload_buf_session) :=
  '(ret, s) ← rrr_mqtt_payload_buf_ensure s (u32 (Z.of_nat (length data)));
  if negb (ret =? RRR_MQTT_PAYLOAD_BUF_OK) then Ret (RRR_MQTT_PAYLOAD_BUF_ERR, s)
  else s ← write_at s data; Ret (RRR_MQTT_PAYLOAD_BUF_OK, s).

(** The callback of [rrr_mqtt_payload_buf_put_nullsafe] with the bytes of the string. *)
Definition rrr_mqtt_payload_buf_put_nullsafe (s : rrr_mqtt_payload_buf_session) (data : list Z)
  : outcome (Z * rrr_mqtt_payload_buf_session) :=
  let '(ret, length) := rrr_length_from_biglength_err 0 (Z.of_nat (length data)) in
  if negb (ret =? 0) then Ret (RRR_MQTT_PAYLOAD_BUF_ERR, s)
  else
    '(ret, s) ← rrr_mqtt_payload_buf_ensure s length;
    if negb (ret =? RRR_MQTT_PAYLOAD_BUF_OK) then Ret (RRR_MQTT_PAYLOAD_BUF_ERR, s)
    else s ← write_at s data; Ret (0, s).

Definition rrr_mqtt_payload_buf_put_raw_at_offset (s : rrr_mqtt_payload_buf_session)
    (data : list Z) (offset : Z) : outcome (Z * rrr_mqtt_payload_buf_session) :=
  let old_wpos := wpos s in
  '(ret, s) ← rrr_mqtt_payload_buf_put_raw (mk_buf (buf s) offset (wpos_max s) (buf_size s)) data;
  Ret (ret, mk_buf (buf s) old_wpos (wpos_max s) (buf_size s)).

(** The loop of [rrr_mqtt_payload_buf_put_variable_int], with [n] rounds left. *)
Fixpoint variable_int_chunks (n : nat) (value : Z) : list Z :=
  match n with
  | O => []
  | S n =>
    let chunk := value &&& 0x7f in
    let value := value >>> 7 in
    if value =? 0 then [chunk] else (chunk ||| (1 <<< 7)) :: variable_int_chunks n value
  end.

Definition rrr_mqtt_payload_buf_put_variable_int (s : rrr_mqtt_payload_buf_session) (value : Z)
  : outcome (Z * rrr_mqtt_payload_buf_session) :=
  if 0xfffffff <? value then Bug
  else rrr_mqtt_payload_buf_put_raw s (variable_int_chunks 4 value).

End Buf.

Definition rrr_mqtt_payload_buf_get_touched_size (s : rrr_mqtt_payload_buf_session) : outcome Z :=
  rrr_length_from_ptr_sub_bug_const (wpos_max s) 0.

Definition rrr_mqtt_payload_buf_extract_buffer (s : rrr_mqtt_payload_buf_session) : list Z := buf s.

(** ** The fixed header, mqtt_connection.c *)

Definition RRR_MQTT_OK : Z := RRR_READ_OK.
Definition RRR_MQTT_INTERNAL_ERROR : Z := RRR_READ_HARD_ERROR.
Definition RRR_MQTT_SOFT_ERROR : Z := RRR_READ_SOFT_ERROR.
Definition RRR_MQTT_INCOMPLETE : Z := RRR_READ_INCOMPLETE.

(** The loop that fills [target], with [n] rounds left. *)
Fixpoint create_variable_int_loop (n : nat) (value length : Z) : list Z * Z :=
  match n with
  | O => ([], length)
  | S n =>
    let b := value &&& 0x7F in
    let value := value >>> 7 in
    let '(b, length) := if 0 <? value then (b ||| (1 <<< 7), u32 (length + 1)) else (b, length) in
    let '(target, length) := create_variable_int_loop n value length in
    (b :: target, length)
  end.

(** Status, the four bytes of [target] and how many of them count. *)
Definition rrr_mqtt_connection_create_variable_int (value : Z) : Z * list Z * Z :=
  if 0xfffffff <? value then (RRR_MQTT_INTERNAL_ERROR, [], 1)
  else let '(target, length) := create_variable_int_loop 4 value 1 in (RRR_MQTT_OK, target, length).

(** * Variable length integers *)

(** The encoding of the MQTT specification: groups of 7 bits, the lowest first. *)
Fixpoint vint_enc (n : nat) (v : Z) : list Z :=
  match n with
  | O => []
  | S n => if v <? 128 then [v] else (v mod 128 + 128) :: vint_enc n (v / 128)
  end.

Definition vint (v : Z) : list Z := vint_enc 4 v.

Lemma chunk_low v : v &&& 0x7f = v mod 128.
Proof. change 0x7f with (Z.ones 7). by rewrite Z.land_ones by lia. Qed.

Lemma chunk_high v : v >>> 7 = v / 128.
Proof. by rewrite Z.shiftr_div_pow2 by lia. Qed.

Lemma chunk_carry v : 0 <= v < 128 -> v ||| (1 <<< 7) = v + 128.
Proof.
  intros Hv. rewrite Z.lor_comm. rewrite lor_shiftl_add by (simpl; lia). lia.
Qed.

Lemma chunks_vint n v : 0 <= v -> variable_int_chunks n v = vint_enc n v.
Proof.
  revert v. induction n as [|n IH]; intros v Hv; [done|]. cbn [variable_int_chunks vint_enc].
  rewrite chunk_low, chunk_high. pose proof (Z.mod_pos_bound v 128 eq_refl).
  rewrite chunk_carry by lia. destruct (Z.ltb_spec v 128).
  - by rewrite Z.div_small, Z.eqb_refl, Z.mod_small by lia.
  - rewrite (proj2 (Z.eqb_neq _ _)) by (assert (0 < v / 128) by zdiv; lia). f_equal.
    apply IH. apply Z.div_pos; lia.
Qed.

Lemma vint_bytes n v : 0 <= v -> bytes_ok (vint_enc n v).
Proof.
  revert v. induction n as [|n IH]; intros v Hv; [constructor|]. cbn [vint_enc].
  pose proof (Z.mod_pos_bound v 128 eq_refl).
  destruct (Z.ltb_spec v 128); repeat constructor; unfold byte_ok; try lia.
  apply IH. apply Z.div_pos; lia.
Qed.

Lemma vint_length n v : (0 < n)%nat -> (0 < length (vint_enc n v) <= n)%nat.
Proof.
  revert v. induction n as [|n IH]; intros v Hn; [lia|]. cbn [vint_enc].
  destruct (v <? 128); simpl; [lia|]. destruct n; [simpl; lia|].
  specialize (IH (v / 128)). lia.
Qed.

(** Both places write the same bytes. *)
Lemma create_variable_int_spec n v len : 0 <= v -> 0 <= len -> len + Z.of_nat n < 2 ^ 32 ->
  v < 128 ^ Z.of_nat n -> (0 < n)%nat ->
  exists rest, create_variable_int_loop n v len =
    (vint_enc n v ++ rest, len + Z.of_nat (length (vint_enc n v)) - 1).
Proof.
  revert v len. induction n as [|n IH]; intros v len Hv Hl Hlen Hn H0; [lia|].
  cbn [create_variable_int_loop vint_enc]. rewrite chunk_low, chunk_high.
  pose proof (Z.mod_pos_bound v 128 eq_refl). rewrite chunk_carry by lia.
  assert (0 <= v / 128) by (apply Z.div_pos; lia). destruct (Z.ltb_spec v 128).
  - rewrite Z.div_small, Z.mod_small by lia.
    assert (forall m len, exists r, create_variable_int_loop m 0 len = (r, len)) as Hz.
    { clear. induction m as [|m IHm]; intros len; [by eexists|].
      cbn [create_variable_int_loop]. rewrite chunk_low, chunk_high.
      change (0 / 128) with 0. change (0 <? 0) with false. cbv iota.
      destruct (IHm len) as [r ->]. by eexists. }
    destruct (Hz n len) as [r Hr]. change (0 <? 0) with false. cbv iota. rewrite Hr.
    exists r. simpl. f_equal. lia.
  - rewrite (proj2 (Z.ltb_lt 0 _)) by zdiv. destruct n as [|n].
    { simpl in Hn. change (128 ^ 1) with 128 in Hn. lia. }
    rewrite wrap_small by lia.
    assert (v / 128 < 128 ^ Z.of_nat (S n)) as Hdiv.
    { apply Z.div_lt_upper_bound; [lia|]. rewrite <- Z.pow_succ_r by lia.
      by replace (Z.succ (Z.of_nat (S n))) with (Z.of_nat (S (S n))) by lia. }
    destruct (IH (v / 128) (len + 1)) as [rest Hrest]; [lia..|done|lia|]. rewrite Hrest.
    exists rest. simpl length. f_equal. lia.
Qed.

(** * What is in the buffer *)

Definition buf_ok (s : rrr_mqtt_payload_buf_session) (content : list Z) : Prop :=
  Z.of_nat (length (buf s)) = buf_size s /\ wpos s = Z.of_nat (length content) /\
  wpos_max s = wpos s /\ wpos s <= buf_size s < 2 ^ 31 /\
  take (length content) (buf s) = content.

Lemma ptr_length x : 0 <= x < 2 ^ 31 -> rrr_length_from_ptr_sub_bug_const x 0 = Ret x.
Proof.
  intros Hx. rewrite length_from_ptr_sub_spec by lia. unfold exact_or_bug, RRR_LENGTH_MAX.
  rewrite Z.sub_0_r, (proj2 (Z.leb_le 0 x)), (proj2 (Z.leb_le x _)) by lia. done.
Qed.

(** [s'] was made of [s] without more memory, if the [content] has room in [s]. *)
Definition same_size (s s' : rrr_mqtt_payload_buf_session) (content : list Z) : Prop :=
  Z.of_nat (length content) <= buf_size s -> buf_size s' = buf_size s.

(** Outcome of adding [data] to [s0]: it is appended, or memory was refused and the
    content is as before. *)
Definition put_result (alloc_ok : Z -> bool) (s0 : rrr_mqtt_payload_buf_session) (content data : list Z)
    (r : outcome (Z * rrr_mqtt_payload_buf_session)) : Prop :=
  exists ret s, r = Ret (ret, s) /\
    ((ret = 0 /\ buf_ok s (content ++ data) /\ same_size s0 s (content ++ data)) \/
     (ret = 1 /\ buf_ok s content /\ exists n, alloc_ok n = false)).

Section Correct.
Context (alloc_ok : Z -> bool).

Lemma ensure_ok s content size : buf_ok s content -> 0 < size -> wpos s + size + 64 < 2 ^ 31 ->
  exists ret s', rrr_mqtt_payload_buf_ensure alloc_ok s size = Ret (ret, s') /\
    buf_ok s' content /\ (wpos s + size <= buf_size s -> buf_size s' = buf_size s) /\
    ((ret = 0 /\ wpos s + size <= buf_size s') \/ (ret = 1 /\ exists n, alloc_ok n = false)).
Proof.
  intros (Hl & Hw & Hm & Hb & Hc) Hs Hlim. unfold rrr_mqtt_payload_buf_ensure.
  rewrite (proj2 (Z.leb_gt size 0)) by lia.
  destruct (Z.leb_spec (wpos s + size) (buf_size s)) as [Hfit|Hgrow].
  { exists 0, s. unfold buf_ok. split_and!; try done; [lia..|]. left. lia. }
  rewrite !ptr_length by lia. cbn [mbind outcome_bind].
  unfold rrr_length_sub_bug_const. rewrite (wrap_small 32 (wpos s + size - buf_size s)) by lia.
  rewrite (proj2 (Z.ltb_ge (wpos s + size) _)) by lia. cbn [mbind outcome_bind].
  rewrite (proj2 (Z.eqb_neq _ 0)) by lia. unfold RRR_MQTT_PAYLOAD_BUF_INCREMENT_SIZE.
  assert (forall n m, 0 < n -> buf_size s + n = m -> wpos s + size <= m < 2 ^ 31 ->
    exists ret s', (if alloc_ok m then if m <? buf_size s + n then Oob
      else Ret (RRR_MQTT_PAYLOAD_BUF_OK, mk_buf (buf s ++ replicate (Z.to_nat n) 0)
        (wpos s) (wpos_max s) m) else Ret (RRR_MQTT_PAYLOAD_BUF_ERR, s)) = Ret (ret, s') /\
    buf_ok s' content /\ (wpos s + size <= buf_size s -> buf_size s' = buf_size s) /\
    ((ret = 0 /\ wpos s + size <= buf_size s') \/ (ret = 1 /\ exists n, alloc_ok n = false)))
    as Hgoal.
  { intros n m Hn Hnm Hm'. destruct (alloc_ok m) eqn:Ha.
    - rewrite (proj2 (Z.ltb_ge _ _)) by lia. eexists _, _. split; [done|].
      unfold buf_ok. cbn [buf wpos wpos_max buf_size].
      rewrite length_app, length_replicate, take_app_le by lia.
      split_and!; try done; try lia. left. split; [done|lia].
    - eexists _, _. split; [done|]. split; [done|]. split; [done|]. right. split; [done|]. by exists m. }
  destruct (Z.ltb_spec (wpos s + size - buf_size s) 64) as [Hsmall|Hlarge].
  - rewrite wrap_small by lia. apply Hgoal; lia.
  - apply Hgoal; lia.
Qed.

Lemma write_at_ok s content data : buf_ok s content ->
  wpos s + Z.of_nat (length data) <= buf_size s ->
  exists s', write_at s data = Ret s' /\ buf_ok s' (content ++ data) /\ buf_size s' = buf_size s.
Proof.
  intros (Hl & Hw & Hm & Hb & Hc) Hfit. unfold write_at.
  rewrite (proj2 (Z.leb_le 0 _)), (proj2 (Z.leb_le (wpos s + _) _)) by lia. simpl.
  eexists. split; [done|]. unfold buf_ok. simpl.
  rewrite length_splice by lia. rewrite length_app.
  destruct (Z.ltb_spec (wpos_max s) (wpos s + Z.of_nat (length data))); split_and!; try lia.
  all: unfold splice; rewrite Hw, Nat2Z.id, Hc, app_assoc; apply take_app_length';
    rewrite length_app; lia.
Qed.

(** What is put is appended. *)
Lemma put_raw_ok s content data : buf_ok s content ->
  data <> [] -> Z.of_nat (length content + length data) + 64 < 2 ^ 31 ->
  put_result alloc_ok s content data (rrr_mqtt_payload_buf_put_raw alloc_ok s data).
Proof.
  intros Hs Hd Hlim. unfold rrr_mqtt_payload_buf_put_raw.
  assert (length data <> 0%nat) by (by destruct data). pose proof Hs as (_ & Hw & _).
  rewrite wrap_small by lia.
  destruct (ensure_ok s content (Z.of_nat (length data)) Hs)
    as (ret & s1 & -> & H1 & Hz & [[-> H2]|[-> Ha]]); [lia..| |]; cbn [mbind outcome_bind].
  - pose proof H1 as (_ & Hw1 & _).
    destruct (write_at_ok s1 content data H1) as (s2 & -> & H3 & Hz2); [lia|].
    exists 0, s2. split; [done|]. left. split_and!; try done. unfold same_size. rewrite length_app, Hz2.
    intros. apply Hz. lia.
  - exists 1, s1. split; [done|]. right. done.
Qed.

Lemma put_nullsafe_ok s content data : buf_ok s content ->
  data <> [] -> Z.of_nat (length content + length data) + 64 < 2 ^ 31 ->
  put_result alloc_ok s content data (rrr_mqtt_payload_buf_put_nullsafe alloc_ok s data).
Proof.
  intros Hs Hd Hlim. unfold rrr_mqtt_payload_buf_put_nullsafe, rrr_length_from_biglength_err.
  unfold RRR_LENGTH_MAX. rewrite (proj2 (Z.ltb_ge _ _)) by lia. cbn [Z.eqb negb].
  by apply put_raw_ok.
Qed.

Lemma vint_not_empty v : vint v <> [].
Proof. intros E. pose proof (vint_length 4 v). unfold vint in E. rewrite E in *. simpl in *. lia. Qed.

Lemma put_variable_int_ok s content v : buf_ok s content ->
  0 <= v <= 0xfffffff -> Z.of_nat (length content) + 100 < 2 ^ 31 ->
  put_result alloc_ok s content (vint v) (rrr_mqtt_payload_buf_put_variable_int alloc_ok s v).
Proof.
  intros Hs Hv Hlim. unfold rrr_mqtt_payload_buf_put_variable_int.
  rewrite (proj2 (Z.ltb_ge _ _)) by lia. rewrite chunks_vint by lia.
  pose proof (vint_length 4 v ltac:(lia)). apply put_raw_ok; [done|apply vint_not_empty|lia].
Qed.

Lemma init_ok : exists ret s, rrr_mqtt_payload_buf_init alloc_ok = (ret, s) /\
  ((ret = 0 /\ buf_ok s [] /\ buf_size s = RRR_MQTT_PAYLOAD_BUF_INCREMENT_SIZE) \/
   (ret = 1 /\ buf_ok s [] /\ alloc_ok RRR_MQTT_PAYLOAD_BUF_INCREMENT_SIZE = false)).
Proof.
  unfold rrr_mqtt_payload_buf_init. destruct (alloc_ok _) eqn:Ha; eexists _, _; split; try done.
  - left. split; [done|]. unfold buf_ok. simpl. split_and!; try done; lia.
  - right. split; [done|]. split; [|done]. unfold buf_ok. simpl. split_and!; try done; lia.
Qed.

End Correct.

(** The bytes a session has assembled. *)
Lemma extract_ok s content : buf_ok s content ->
  rrr_mqtt_payload_buf_get_touched_size s = Ret (Z.of_nat (length content)) /\
  take (length content) (rrr_mqtt_payload_buf_extract_buffer s) = content.
Proof.
  intros (Hl & Hw & Hm & Hb & Hc). split; [|done].
  unfold rrr_mqtt_payload_buf_get_touched_size. rewrite ptr_length by lia. by rewrite Hm, Hw.
Qed.

(** Nothing can be put: an empty string ends the program. *)
Lemma put_raw_empty alloc_ok s : rrr_mqtt_payload_buf_put_raw alloc_ok s [] = Bug.
Proof. done. Qed.

End MqttPayloadBuf.
