(* ===== verification/MqttProperty.v ===== *)
(** Properties of MQTT 5 packets (src/src/lib/mqtt/mqtt_property.c): the table of
    definitions, single properties with their values, and collections in the
    order of the packet.  The memory behind [data] is a list of bytes, [None] is
    the NULL pointer and an access outside is [Oob].  Integers are held in the
    byte order of the host ([big]).  [alloc_ok n] tells whether an allocation of
    [n] bytes succeeds. *)
From S2P Require Import Prelude Types MsgHead MqttPayloadBuf.
From stdpp Require Import strings.
Open Scope Z_scope.
Open Scope c_scope.

Module MqttProperty.
Import Types MsgHead MqttPayloadBuf.

Definition RRR_MQTT_PROPERTY_DATA_TYPE_ONE : Z := 1.
Definition RRR_MQTT_PROPERTY_DATA_TYPE_TWO : Z := 2.
Definition RRR_MQTT_PROPERTY_DATA_TYPE_FOUR : Z := 4.
Definition RRR_MQTT_PROPERTY_DATA_TYPE_VINT : Z := 5.
Definition RRR_MQTT_PROPERTY_DATA_TYPE_BLOB : Z := 6.
Definition RRR_MQTT_PROPERTY_DATA_TYPE_UTF8 : Z := 7.
Definition RRR_MQTT_PROPERTY_DATA_TYPE_2UTF8 : Z := 8.

Definition RRR_MQTT_PROPERTY_DATA_TYPE_INTERNAL_UINT32 : Z := 1.
Definition RRR_MQTT_PROPERTY_DATA_TYPE_INTERNAL_BLOB : Z := 2.

Record rrr_mqtt_property_definition := mk_def {
  def_data_type : Z;
  identifier : Z;
  def_name : string
}.

Definition property_definitions : list rrr_mqtt_property_definition :=
  [mk_def RRR_MQTT_PROPERTY_DATA_TYPE_ONE 0x01 "Payload format indicator";
   mk_def RRR_MQTT_PROPERTY_DATA_TYPE_FOUR 0x02 "Message expiry interval";
   mk_def RRR_MQTT_PROPERTY_DATA_TYPE_UTF8 0x03 "Content type";
   mk_def RRR_MQTT_PROPERTY_DATA_TYPE_UTF8 0x08 "Response topic";
   mk_def RRR_MQTT_PROPERTY_DATA_TYPE_BLOB 0x09 "Correlation data";
   mk_def RRR_MQTT_PROPERTY_DATA_TYPE_VINT 0x0B "Subscription identifier";
   mk_def RRR_MQTT_PROPERTY_DATA_TYPE_FOUR 0x11 "Session expiry interval";
   mk_def RRR_MQTT_PROPERTY_DATA_TYPE_UTF8 0x12 "Assigned client identifier";
   mk_def RRR_MQTT_PROPERTY_DATA_TYPE_TWO 0x13 "Server keep-alive";
   mk_def RRR_MQTT_PROPERTY_DATA_TYPE_UTF8 0x15 "Authentication method";
   mk_def RRR_MQTT_PROPERTY_DATA_TYPE_BLOB 0x16 "Authentication data";
   mk_def RRR_MQTT_PROPERTY_DATA_TYPE_ONE 0x17 "Request problem information";
   mk_def RRR_MQTT_PROPERTY_DATA_TYPE_FOUR 0x18 "Will delay interval";
   mk_def RRR_MQTT_PROPERTY_DATA_TYPE_ONE 0x19 "Request response information";
   mk_def RRR_MQTT_PROPERTY_DATA_TYPE_UTF8 0x1A "Response information";
   mk_def RRR_MQTT_PROPERTY_DATA_TYPE_UTF8 0x1C "Server reference";
   mk_def RRR_MQTT_PROPERTY_DATA_TYPE_UTF8 0x1F "Reason string";
   mk_def RRR_MQTT_PROPERTY_DATA_TYPE_TWO 0x21 "Receive maximum";
   mk_def RRR_MQTT_PROPERTY_DATA_TYPE_TWO 0x22 "Topic alias maximum";
   mk_def RRR_MQTT_PROPERTY_DATA_TYPE_TWO 0x23 "Topic alias";
   mk_def RRR_MQTT_PROPERTY_DATA_TYPE_ONE 0x24 "Maximum QoS";
   mk_def RRR_MQTT_PROPERTY_DATA_TYPE_ONE 0x25 "Retain available";
   mk_def RRR_MQTT_PROPERTY_DATA_TYPE_2UTF8 0x26 "User property";
   mk_def RRR_MQTT_PROPERTY_DATA_TYPE_FOUR 0x27 "Maximum packet size";
   mk_def RRR_MQTT_PROPERTY_DATA_TYPE_ONE 0x28 "Wildcard subscription available";
   mk_def RRR_MQTT_PROPERTY_DATA_TYPE_ONE 0x29 "Subscription identifier available";
   mk_def RRR_MQTT_PROPERTY_DATA_TYPE_ONE 0x2A "Shared subscription available";
   mk_def 0 0 ""].

(** The loop of [rrr_mqtt_property_get_definition], which stops at the type 0. *)
Fixpoint get_definition_loop (defs : list rrr_mqtt_property_definition) (id : Z)
  : option rrr_mqtt_property_definition :=
  match defs with
  | [] => None
  | d :: defs =>
    if def_data_type d =? 0 then None
    else if identifier d =? id then Some d else get_definition_loop defs id
  end.

Definition rrr_mqtt_property_get_definition (id : Z) : option rrr_mqtt_property_definition :=
  get_definition_loop property_definitions id.
#[global] Arguments rrr_mqtt_property_get_definition : simpl never.

(** The list node is the position in the collection. *)
Inductive rrr_mqtt_property := mk_property {
  order : Z;
  sibling : option rrr_mqtt_property;
  definition : rrr_mqtt_property_definition;
  internal_data_type : Z;
  p_length : Z;
  length_orig : Z;
  data : option (list Z)
}.

Definition sizeof_rrr_mqtt_property : Z := 64.

Record rrr_mqtt_property_collection := mk_collection {
  nodes : list rrr_mqtt_property;
  order_count : Z
}.

(** [n] bytes read through a pointer. *)
Definition read_data (d : option (list Z)) (n : Z) : outcome (list Z) :=
  match d with
  | Some d => bytes_at 0 n d
  | None => if n =? 0 then Ret [] else Oob
  end.
#[global] Arguments read_data : simpl never.

Section Property.
Context (big : bool) (alloc_ok : Z -> bool).

Definition rrr_mqtt_property_new (def : rrr_mqtt_property_definition)
  : Z * option rrr_mqtt_property :=
  if alloc_ok sizeof_rrr_mqtt_property then (0, Some (mk_property 0 None def 0 0 0 None))
  else (1, None).

Fixpoint clone_from (source : rrr_mqtt_property) : outcome (Z * option rrr_mqtt_property) :=
  if negb (alloc_ok sizeof_rrr_mqtt_property) then Ret (1, None)
  else if p_length source <=? 0 then Bug
  else if negb (alloc_ok (p_length source)) then Ret (1, None)
  else
    d ← read_data (data source) (p_length source);
    let result sib := mk_property 0 sib (definition source) (internal_data_type source)
                        (p_length source) (length_orig source) (Some d) in
    match sibling source with
    | None => Ret (0, Some (result None))
    | Some s =>
      '(ret, sib) ← clone_from s;
      if negb (ret =? 0) then Ret (1, None) else Ret (0, Some (result sib))
    end.

(** The status and [*target] afterwards. *)
Definition rrr_mqtt_property_clone (target source : option rrr_mqtt_property)
  : outcome (Z * option rrr_mqtt_property) :=
  match target, source with
  | Some _, _ => Bug
  | None, None => Ret (0, None)
  | None, Some source => clone_from source
  end.

(** [value] is the memory from the pointer on. *)
Definition rrr_mqtt_property_save_blob (target : rrr_mqtt_property) (value : list Z) (size : Z)
    (add_zero_if_needed : bool) : outcome (Z * rrr_mqtt_property) :=
  size_padded ←
    (if add_zero_if_needed then
       last ← load8 value (size - 1);
       Ret (if negb (last =? 0) then size + 1 else size)
     else Ret size);
  if negb (alloc_ok size_padded) then Ret (1, target)
  else
    bs ← bytes_at 0 size value;
    Ret (0, mk_property (order target) (sibling target) (definition target)
              RRR_MQTT_PROPERTY_DATA_TYPE_INTERNAL_BLOB size (length_orig target)
              (Some (bs ++ replicate (Z.to_nat (size_padded - size)) 0))).

Definition rrr_mqtt_property_save_uint32 (target : rrr_mqtt_property) (value : Z)
  : Z * rrr_mqtt_property :=
  if negb (alloc_ok 4) then
    (1, mk_property (order target) (sibling target) (definition target)
          (internal_data_type target) (p_length target) (length_orig target) None)
  else
    (0, mk_property (order target) (sibling target) (definition target)
          RRR_MQTT_PROPERTY_DATA_TYPE_INTERNAL_UINT32 4 (length_orig target)
          (Some (host_enc big 4 value))).

Definition rrr_mqtt_property_get_uint32 (property : rrr_mqtt_property) : outcome Z :=
  if negb (internal_data_type property =? RRR_MQTT_PROPERTY_DATA_TYPE_INTERNAL_UINT32) then Bug
  else if p_length property <? 4 then Bug
  else bs ← read_data (data property) 4; Ret (host_dec big bs).

(** The pointer and the length. *)
Definition rrr_mqtt_property_get_blob (property : rrr_mqtt_property)
  : outcome (option (list Z) * Z) :=
  if negb (internal_data_type property =? RRR_MQTT_PROPERTY_DATA_TYPE_INTERNAL_BLOB) then Bug
  else if p_length property <? 1 then Bug
  else Ret (data property, p_length property).

Definition rrr_mqtt_property_get_blob_as_str (property : rrr_mqtt_property)
  : outcome (Z * option (list Z)) :=
  '(d, length) ← rrr_mqtt_property_get_blob property;
  if negb (alloc_ok (u32 (length + 1))) then Ret (1, None)
  else
    bs ← read_data d length;
    Ret (0, Some (bs ++ [0])).

(** [__rrr_mqtt_property_clone], which allows empty values. *)
Fixpoint static_rrr_mqtt_property_clone (source : rrr_mqtt_property)
  : outcome (Z * option rrr_mqtt_property) :=
  let '(ret, result) := rrr_mqtt_property_new (definition source) in
  match result with
  | None => Ret (ret, None)
  | Some result =>
    let finish sib :=
      if 0 <? p_length source then
        if negb (alloc_ok (p_length source)) then Ret (1, None)
        else
          d ← read_data (data source) (p_length source);
          Ret (0, Some (mk_property (order source) sib (definition result)
                          (internal_data_type source) (p_length source) (length_orig result)
                          (Some d)))
      else Ret (0, Some (mk_property (order source) sib (definition result)
                           (internal_data_type source) (p_length result) (length_orig result)
                           (data result))) in
    match sibling source with
    | None => finish (sibling result)
    | Some s =>
      '(ret, sib) ← static_rrr_mqtt_property_clone s;
      if negb (ret =? 0) then Ret (ret, None) else finish sib
    end
  end.

Definition set_order (property : rrr_mqtt_property) (n : Z) : rrr_mqtt_property :=
  mk_property n (sibling property) (definition property) (internal_data_type property)
    (p_length property) (length_orig property) (data property).

Definition rrr_mqtt_property_collection_add (collection : rrr_mqtt_property_collection)
    (property : rrr_mqtt_property) : rrr_mqtt_property_collection :=
  mk_collection (nodes collection ++ [set_order property (order_count collection + 1)])
    (order_count collection + 1).

(** The largest value a property of a numeric type holds, [None] for the others. *)
Definition max_value (data_type : Z) : option Z :=
  if data_type =? RRR_MQTT_PROPERTY_DATA_TYPE_ONE then Some 0xff
  else if data_type =? RRR_MQTT_PROPERTY_DATA_TYPE_TWO then Some 0xffff
  else if data_type =? RRR_MQTT_PROPERTY_DATA_TYPE_FOUR then Some 0xffffffff
  else if data_type =? RRR_MQTT_PROPERTY_DATA_TYPE_VINT then Some 0xfffffff
  else None.

Definition rrr_mqtt_property_collection_add_uint32 (collection : rrr_mqtt_property_collection)
    (id value : Z) : outcome (Z * rrr_mqtt_property_collection) :=
  match rrr_mqtt_property_get_definition id with
  | None => Bug
  | Some def =>
    match max_value (def_data_type def) with
    | None => Bug
    | Some max =>
      if max <? value then Ret (0, collection)
      else
        match rrr_mqtt_property_new def with
        | (ret, None) => Ret (ret, collection)
        | (_, Some property) =>
          let '(ret, property) := rrr_mqtt_property_save_uint32 property value in
          if negb (ret =? 0) then Ret (ret, collection)
          else Ret (0, rrr_mqtt_property_collection_add collection property)
        end
    end
  end.

Definition rrr_mqtt_property_collection_add_blob_or_utf8
    (collection : rrr_mqtt_property_collection) (id : Z) (value : list Z) (size : Z)
  : outcome (Z * rrr_mqtt_property_collection) :=
  match rrr_mqtt_property_get_definition id with
  | None => Bug
  | Some def =>
    let t := def_data_type def in
    if (t =? RRR_MQTT_PROPERTY_DATA_TYPE_ONE) || (t =? RRR_MQTT_PROPERTY_DATA_TYPE_TWO) ||
       (t =? RRR_MQTT_PROPERTY_DATA_TYPE_FOUR) || (t =? RRR_MQTT_PROPERTY_DATA_TYPE_VINT) ||
       (t =? RRR_MQTT_PROPERTY_DATA_TYPE_BLOB) || (t =? RRR_MQTT_PROPERTY_DATA_TYPE_UTF8)
    then
      match rrr_mqtt_property_new def with
      | (ret, None) => Ret (ret, collection)
      | (_, Some property) =>
        '(ret, property) ← rrr_mqtt_property_save_blob property value size
                             (t =? RRR_MQTT_PROPERTY_DATA_TYPE_UTF8);
        if negb (ret =? 0) then Ret (ret, collection)
        else Ret (0, rrr_mqtt_property_collection_add collection property)
      end
    else Bug
  end.

Definition rrr_mqtt_property_collection_add_cloned (collection : rrr_mqtt_property_collection)
    (property : option rrr_mqtt_property) : outcome (Z * rrr_mqtt_property_collection) :=
  match property with
  | None => Bug
  | Some _ =>
    '(ret, new_property) ← rrr_mqtt_property_clone None property;
    if negb (ret =? 0) then Ret (ret, collection)
    else
      match new_property with
      | None => Oob
      | Some new_property => Ret (ret, rrr_mqtt_property_collection_add collection new_property)
      end
  end.

End Property.

Section Iterate.
Context {St : Type} (callback : rrr_mqtt_property -> St -> outcome (Z * St)).

(** The node that follows a failed callback is not visited. *)
Fixpoint property_iterate (l : list rrr_mqtt_property) (st : St) : outcome (Z * St) :=
  match l with
  | [] => Ret (0, st)
  | node :: l =>
    '(ret, st) ← callback node st;
    if negb (ret =? 0) then Ret (ret, st) else property_iterate l st
  end.

Definition rrr_mqtt_property_collection_iterate (collection : rrr_mqtt_property_collection)
    (callback_arg : St) : outcome (Z * St) :=
  property_iterate (nodes collection) callback_arg.
End Iterate.

(** [self] is the position of a node of the collection. *)
Fixpoint count_duplicates_loop (l : list rrr_mqtt_property) (i self : nat) (id : Z) : Z :=
  match l with
  | [] => 0
  | node :: l =>
    (if (identifier (definition node) =? id) && negb (Nat.eqb i self) then 1 else 0) +
    count_duplicates_loop l (S i) self id
  end.

Definition rrr_mqtt_property_collection_count_duplicates
    (collection : rrr_mqtt_property_collection) (self : nat) : outcome Z :=
  match nodes collection !! self with
  | None => Oob
  | Some p => Ret (u32 (count_duplicates_loop (nodes collection) 0 self (identifier (definition p))))
  end.

Fixpoint get_property_loop (l : list rrr_mqtt_property) (id index match_count : Z)
  : option rrr_mqtt_property :=
  match l with
  | [] => None
  | node :: l =>
    if identifier (definition node) =? id then
      if match_count =? index then Some node
      else get_property_loop l id index (u32 (match_count + 1))
    else get_property_loop l id index match_count
  end.

Definition rrr_mqtt_property_collection_get_property (collection : rrr_mqtt_property_collection)
    (id index : Z) : option rrr_mqtt_property :=
  get_property_loop (nodes collection) id index 0.

(** The [do] loop that counts the bytes of a variable length integer, which has
    28 bits at most. *)
Fixpoint vint_size_loop (fuel : nat) (tmp : Z) : outcome Z :=
  match fuel with
  | O => Oob
  | S fuel =>
    let tmp := tmp >>> 7 in
    if tmp =? 0 then Ret 1 else n ← vint_size_loop fuel tmp; Ret (1 + n)
  end.

(** What a property adds to [result].  [2 + node->length] is computed in 32 bits. *)
Definition property_size (big : bool) (node : rrr_mqtt_property) : outcome Z :=
  let t := def_data_type (definition node) in
  if t =? RRR_MQTT_PROPERTY_DATA_TYPE_ONE then Ret 1
  else if t =? RRR_MQTT_PROPERTY_DATA_TYPE_TWO then Ret 2
  else if t =? RRR_MQTT_PROPERTY_DATA_TYPE_FOUR then Ret 4
  else if t =? RRR_MQTT_PROPERTY_DATA_TYPE_VINT then
    bs ← read_data (data node) 4;
    let tmp := host_dec big bs in
    if negb ((tmp &&& u32 (Z.lnot 0xfffffff)) =? 0) then Bug else vint_size_loop 5 tmp
  else if (t =? RRR_MQTT_PROPERTY_DATA_TYPE_BLOB) || (t =? RRR_MQTT_PROPERTY_DATA_TYPE_UTF8) then
    Ret (u32 (2 + p_length node))
  else if t =? RRR_MQTT_PROPERTY_DATA_TYPE_2UTF8 then
    match sibling node with
    | None => Bug
    | Some s => Ret (u32 (2 + p_length node) + u32 (2 + p_length s))
    end
  else Bug.

Fixpoint calculate_size_loop (big : bool) (l : list rrr_mqtt_property) (result result_count : Z)
  : outcome (Z * Z) :=
  match l with
  | [] => Ret (result, result_count)
  | node :: l =>
    n ← property_size big node;
    let result := result + n in
    if (result <? 0) || (RRR_LENGTH_MAX <? result) then Bug
    else calculate_size_loop big l result (u32 (result_count + 1))
  end.

(** Status, size and count. *)
Definition rrr_mqtt_property_collection_calculate_size (big : bool)
    (collection : rrr_mqtt_property_collection) : outcome (Z * Z * Z) :=
  '(result, result_count) ← calculate_size_loop big (nodes collection) 0 0;
  Ret (0, u32 result, result_count).

Definition rrr_mqtt_property_collection_clear_by_id (collection : rrr_mqtt_property_collection)
    (id : Z) : rrr_mqtt_property_collection :=
  mk_collection (filter (fun node => identifier (definition node) <> id) (nodes collection))
    (order_count collection).

Definition rrr_mqtt_property_collection_clear (collection : rrr_mqtt_property_collection)
  : rrr_mqtt_property_collection := mk_collection [] (order_count collection).

Section Select.
Context (alloc_ok : Z -> bool).

Definition selected (identifiers : list Z) (node : rrr_mqtt_property) : bool :=
  if 0 <? Z.of_nat (length identifiers)
  then existsb (fun id => identifier (definition node) =? id) identifiers else true.

Fixpoint add_selected_loop (identifiers : list Z) (l : list rrr_mqtt_property)
    (target : rrr_mqtt_property_collection) : outcome (Z * rrr_mqtt_property_collection) :=
  match l with
  | [] => Ret (0, target)
  | node :: l =>
    if selected identifiers node then
      '(ret, new_node) ← static_rrr_mqtt_property_clone alloc_ok node;
      if negb (ret =? 0) then Ret (ret, rrr_mqtt_property_collection_clear target)
      else
        match new_node with
        | None => Oob
        | Some new_node =>
          add_selected_loop identifiers l (rrr_mqtt_property_collection_add target new_node)
        end
    else add_selected_loop identifiers l target
  end.

Definition rrr_mqtt_property_collection_add_selected_from_collection
    (target source : rrr_mqtt_property_collection) (identifiers : list Z)
  : outcome (Z * rrr_mqtt_property_collection) :=
  add_selected_loop identifiers (nodes source) target.

Definition rrr_mqtt_property_collection_add_from_collection
    (target source : rrr_mqtt_property_collection) : outcome (Z * rrr_mqtt_property_collection) :=
  rrr_mqtt_property_collection_add_selected_from_collection target source [].
End Select.

(** * What a property stands for *)

Inductive value :=
| Number (v : Z)
| Text (bs : list Z)
| Pair (k v : list Z).

#[export] Instance value_eq_dec : EqDecision value.
Proof. solve_decision. Defined.

(** A string that fits its 16-bit length; empty ones are not held. *)
Definition text_ok (bs : list Z) : Prop :=
  bs <> [] /\ Z.of_nat (length bs) <= 0xffff /\ bytes_ok bs.

Definition value_ok (data_type : Z) (v : value) : Prop :=
  match v with
  | Number n => exists max, max_value data_type = Some max /\ 0 <= n <= max
  | Text bs => (data_type = RRR_MQTT_PROPERTY_DATA_TYPE_BLOB \/
                data_type = RRR_MQTT_PROPERTY_DATA_TYPE_UTF8) /\ text_ok bs
  | Pair a b => data_type = RRR_MQTT_PROPERTY_DATA_TYPE_2UTF8 /\ text_ok a /\ text_ok b
  end.

(** The bytes of a value in a packet. *)
Definition value_wire (data_type : Z) (v : value) : list Z :=
  match v with
  | Number n =>
    if data_type =? RRR_MQTT_PROPERTY_DATA_TYPE_ONE then be_enc 1 n
    else if data_type =? RRR_MQTT_PROPERTY_DATA_TYPE_TWO then be_enc 2 n
    else if data_type =? RRR_MQTT_PROPERTY_DATA_TYPE_FOUR then be_enc 4 n
    else vint n
  | Text bs => be_enc 2 (Z.of_nat (length bs)) ++ bs
  | Pair a b => be_enc 2 (Z.of_nat (length a)) ++ a ++ be_enc 2 (Z.of_nat (length b)) ++ b
  end.

(** An identifier with a value of its type. *)
Definition item : Type := Z * value.

Definition item_type (it : item) : Z :=
  match rrr_mqtt_property_get_definition it.1 with Some d => def_data_type d | None => 0 end.

Definition item_ok (it : item) : Prop := byte_ok it.1 /\ value_ok (item_type it) it.2.
Definition item_wire (it : item) : list Z := it.1 :: value_wire (item_type it) it.2.
Definition items_wire (l : list item) : list Z := flat_map item_wire l.

Definition holds_number (big : bool) (p : rrr_mqtt_property) (n : Z) : Prop :=
  internal_data_type p = RRR_MQTT_PROPERTY_DATA_TYPE_INTERNAL_UINT32 /\ p_length p = 4 /\
  data p = Some (host_enc big 4 n) /\ sibling p = None.

Definition holds_text (p : rrr_mqtt_property) (bs : list Z) : Prop :=
  internal_data_type p = RRR_MQTT_PROPERTY_DATA_TYPE_INTERNAL_BLOB /\
  p_length p = Z.of_nat (length bs) /\ exists rest, data p = Some (bs ++ rest).

(** A property of the program that stands for an item. *)
Definition stands_for (big : bool) (p : rrr_mqtt_property) (it : item) : Prop :=
  item_ok it /\ rrr_mqtt_property_get_definition it.1 = Some (definition p) /\
  match it.2 with
  | Number n => holds_number big p n
  | Text bs => holds_text p bs /\ sibling p = None
  | Pair a b => holds_text p a /\ exists s, sibling p = Some s /\ holds_text s b /\ sibling s = None
  end.

Definition collection_holds (big : bool) (c : rrr_mqtt_property_collection) (l : list item) : Prop :=
  Forall2 (stands_for big) (nodes c) l.

Lemma get_definition_id id d :
  rrr_mqtt_property_get_definition id = Some d -> identifier d = id.
Proof.
  unfold rrr_mqtt_property_get_definition. induction property_definitions as [|e l IH]; [done|].
  simpl. destruct (def_data_type e =? 0); [done|].
  destruct (Z.eqb_spec (identifier e) id); [intros; by simplify_eq|done].
Qed.

(** ** Reading the value back *)

Lemma read_data_app bs rest : read_data (Some (bs ++ rest)) (Z.of_nat (length bs)) = Ret bs.
Proof.
  unfold read_data, bytes_at. rewrite length_app.
  rewrite (proj2 (Z.leb_le 0 (Z.of_nat (length bs)))), (proj2 (Z.leb_le (0 + _) _)) by lia.
  simpl. unfold slice. rewrite drop_0, Nat2Z.id. f_equal. apply take_app_length.
Qed.

Lemma read_number big n rest : read_data (Some (host_enc big 4 n ++ rest)) 4 = Ret (host_enc big 4 n).
Proof.
  pose proof (read_data_app (host_enc big 4 n) rest) as H. by rewrite length_host_enc in H.
Qed.

Lemma read_number_exact big n : read_data (Some (host_enc big 4 n)) 4 = Ret (host_enc big 4 n).
Proof. pose proof (read_number big n []) as H. by rewrite app_nil_r in H. Qed.

Section Values.
Context (big : bool).

Lemma max_value_bound t max : max_value t = Some max -> max < 2 ^ 32.
Proof. unfold max_value. repeat case_match; intros; simplify_eq; lia. Qed.

Lemma number_range t n : value_ok t (Number n) -> 0 <= n < 2 ^ 32.
Proof. intros (max & Hmax & Hn). apply max_value_bound in Hmax. lia. Qed.

Lemma get_uint32_holds p n : holds_number big p n -> 0 <= n < 2 ^ 32 ->
  rrr_mqtt_property_get_uint32 big p = Ret n.
Proof.
  intros (Ht & Hl & Hd & _) Hn. unfold rrr_mqtt_property_get_uint32. rewrite Ht, Hl, Hd.
  simpl. rewrite read_number_exact. simpl. by rewrite host_dec_enc.
Qed.

Lemma get_blob_as_str_holds alloc_ok p bs : holds_text p bs -> text_ok bs ->
  rrr_mqtt_property_get_blob_as_str alloc_ok p =
    Ret (if alloc_ok (Z.of_nat (length bs) + 1) then (0, Some (bs ++ [0])) else (1, None)).
Proof.
  intros (Ht & Hl & rest & Hd) (Hne & Hlen & _).
  assert (length bs <> 0%nat) by (by destruct bs).
  unfold rrr_mqtt_property_get_blob_as_str, rrr_mqtt_property_get_blob. rewrite Ht, Hl. simpl.
  rewrite (proj2 (Z.ltb_ge _ 1)) by lia. cbn [mbind outcome_bind]. rewrite wrap_small by lia.
  destruct (alloc_ok _); [|done]. simpl. rewrite Hd. by rewrite read_data_app.
Qed.

(** ** Sizes *)

Lemma vint_step n v : 0 <= v < 128 ^ Z.of_nat (S n) -> 0 <= v / 128 < 128 ^ Z.of_nat n.
Proof.
  intros Hv. split; [apply Z.div_pos; lia|]. apply Z.div_lt_upper_bound; [lia|].
  rewrite <- Z.pow_succ_r by lia. rewrite <- Nat2Z.inj_succ. apply Hv.
Qed.

Lemma vint_size n v : 0 <= v < 128 ^ Z.of_nat n -> (0 < n)%nat ->
  vint_size_loop n v = Ret (Z.of_nat (length (vint_enc n v))).
Proof.
  revert v. induction n as [|n IH]; intros v Hv Hn; [lia|]. cbn [vint_size_loop vint_enc].
  rewrite chunk_high. destruct (Z.ltb_spec v 128).
  - by rewrite Z.div_small, Z.eqb_refl by lia.
  - rewrite (proj2 (Z.eqb_neq _ _)) by (assert (0 < v / 128) by zdiv; lia).
    destruct n as [|n]; [change (128 ^ Z.of_nat 1) with 128 in Hv; lia|].
    rewrite IH by (try apply vint_step; try done; lia).
    cbn [mbind outcome_bind length]. f_equal. lia.
Qed.

Lemma vint_enc_enough n v : 0 <= v < 128 ^ Z.of_nat n -> (0 < n)%nat ->
  vint_enc (S n) v = vint_enc n v.
Proof.
  revert v. induction n as [|n IH]; intros v Hv Hn; [lia|].
  change (vint_enc (S (S n)) v) with
    (if v <? 128 then [v] else (v mod 128 + 128) :: vint_enc (S n) (v / 128)).
  change (vint_enc (S n) v) with
    (if v <? 128 then [v] else (v mod 128 + 128) :: vint_enc n (v / 128)).
  destruct (Z.ltb_spec v 128); [done|].
  destruct n as [|n]; [change (128 ^ Z.of_nat 1) with 128 in Hv; lia|]. f_equal.
  apply IH; [by apply vint_step|lia].
Qed.

Lemma vint_mask v : 0 <= v <= 0xfffffff -> v &&& u32 (Z.lnot 0xfffffff) = 0.
Proof.
  intros Hv. change (u32 (Z.lnot 0xfffffff)) with (15 <<< 28). zbits.
  destruct (Z.lt_ge_cases i 28).
  - rewrite (Z.testbit_neg_r 15) by lia. apply andb_false_r.
  - by rewrite (bits_above 28 v) by lia.
Qed.

(** The types, with the table's rows left out. *)
Lemma number_type t n : value_ok t (Number n) ->
  (t = 1 /\ n <= 0xff) \/ (t = 2 /\ n <= 0xffff) \/ t = 4 \/ (t = 5 /\ n <= 0xfffffff).
Proof.
  intros (max & Hmax & Hn). unfold max_value in Hmax.
  unfold RRR_MQTT_PROPERTY_DATA_TYPE_ONE, RRR_MQTT_PROPERTY_DATA_TYPE_TWO,
    RRR_MQTT_PROPERTY_DATA_TYPE_FOUR, RRR_MQTT_PROPERTY_DATA_TYPE_VINT in *.
  repeat (btest; [simplify_eq; lia|]). done.
Qed.

Lemma stands_for_type p it : stands_for big p it -> def_data_type (definition p) = item_type it.
Proof. intros (_ & Hd & _). unfold item_type. by rewrite Hd. Qed.

Lemma property_size_spec p it : stands_for big p it ->
  property_size big p = Ret (Z.of_nat (length (value_wire (item_type it) it.2))).
Proof.
  intros Hs. pose proof (stands_for_type p it Hs) as Ht. destruct Hs as ((_ & Hv) & _ & Hp).
  unfold property_size. rewrite Ht. destruct it as [id [n|bs|a b]]; cbn [snd] in *.
  - pose proof (number_range _ _ Hv) as Hr. destruct Hp as (_ & _ & Hd & _).
    destruct (number_type _ _ Hv) as [[E Hb]|[[E Hb]|[E|[E Hb]]]]; unfold value_wire; rewrite E;
      cbn -[vint_size_loop vint_enc Z.land]; try done.
    rewrite Hd. rewrite read_number_exact. cbn [mbind outcome_bind]. rewrite host_dec_enc by done.
    rewrite vint_mask by lia. cbn [Z.eqb negb]. rewrite (vint_size 5) by (simpl; lia).
    rewrite vint_enc_enough by (simpl; lia). done.
  - destruct Hv as (E & _ & Hl & _), Hp as ((_ & Hlen & _) & _). rewrite Hlen.
    unfold value_wire. autorewrite with rrr_len.
    destruct E as [-> | ->]; cbn -[Z.of_nat]; rewrite wrap_small by lia; f_equal; lia.
  - destruct Hv as (-> & (_ & Ha & _) & (_ & Hb & _)).
    destruct Hp as ((_ & Hla & _) & s & -> & (_ & Hlb & _) & _). rewrite Hla, Hlb.
    unfold value_wire. autorewrite with rrr_len.
    cbn -[Z.of_nat]; rewrite !wrap_small by lia; f_equal; lia.
Qed.

(** Bytes of the values, without the identifiers. *)
Definition values_size (l : list item) : Z :=
  foldr (fun it n => Z.of_nat (length (value_wire (item_type it) it.2)) + n) 0 l.

Lemma values_size_nonneg l : 0 <= values_size l.
Proof. unfold values_size. induction l; simpl; lia. Qed.

Lemma items_wire_length l :
  Z.of_nat (length (items_wire l)) = values_size l + Z.of_nat (length l).
Proof.
  induction l as [|it l IH]; [done|]. unfold items_wire in *. simpl. rewrite length_app. lia.
Qed.

Lemma calculate_size_loop_spec ps l r c : Forall2 (stands_for big) ps l ->
  0 <= r -> 0 <= c -> r + values_size l <= RRR_LENGTH_MAX ->
  c + Z.of_nat (length l) <= RRR_LENGTH_MAX ->
  calculate_size_loop big ps r c = Ret (r + values_size l, c + Z.of_nat (length l)).
Proof.
  unfold RRR_LENGTH_MAX. intros H. revert r c.
  induction H as [|p it ps l Hp _ IH]; intros r c Hr Hc Hmax Hcnt; cbn [calculate_size_loop].
  - simpl. f_equal. f_equal; lia.
  - rewrite (property_size_spec p it Hp). cbn [mbind outcome_bind].
    pose proof (values_size_nonneg l). simpl in *. unfold RRR_LENGTH_MAX.
    rewrite (proj2 (Z.ltb_ge _ 0)), (proj2 (Z.ltb_ge _ _)) by lia. simpl.
    rewrite wrap_small by lia. rewrite IH by lia. f_equal. f_equal; lia.
Qed.

Lemma calculate_size_spec c l : collection_holds big c l ->
  values_size l + Z.of_nat (length l) <= RRR_LENGTH_MAX ->
  rrr_mqtt_property_collection_calculate_size big c = Ret (0, values_size l, Z.of_nat (length l)).
Proof.
  intros H Hmax. pose proof (values_size_nonneg l). unfold RRR_LENGTH_MAX in *.
  unfold rrr_mqtt_property_collection_calculate_size.
  rewrite (calculate_size_loop_spec (nodes c) l) by (unfold RRR_LENGTH_MAX; try done; lia).
  cbn [mbind outcome_bind]. by rewrite wrap_small by lia.
Qed.

End Values.

(** * Copies *)

Section Copy.
Context (big : bool) (alloc_ok : Z -> bool).

(** Outcome of copying a property: a copy of its value, or memory was refused. *)
Definition copied (it : item) (r : outcome (Z * option rrr_mqtt_property)) : Prop :=
  (exists q, r = Ret (0, Some q) /\ stands_for big q it) \/
  (r = Ret (1, None) /\ exists n, alloc_ok n = false).

(** The bytes that copying reads. *)
Definition bytes_of (p : rrr_mqtt_property) (bs : list Z) : Prop :=
  0 < p_length p /\ p_length p = Z.of_nat (length bs) /\ read_data (data p) (p_length p) = Ret bs.

Lemma text_bytes p bs : holds_text p bs -> text_ok bs -> bytes_of p bs.
Proof.
  intros (_ & Hl & rest & Hd) (Hne & _). assert (length bs <> 0%nat) by (by destruct bs).
  split_and!; [lia|done|]. rewrite Hl, Hd. apply read_data_app.
Qed.

Lemma number_bytes p n : holds_number big p n -> bytes_of p (host_enc big 4 n).
Proof.
  intros (_ & Hl & Hd & _). split_and!; [lia|by rewrite length_host_enc|].
  rewrite Hl, Hd. apply read_number_exact.
Qed.

(** A property without sibling, copied by either function. *)
Lemma clone_single p bs : bytes_of p bs -> sibling p = None ->
  (exists q, clone_from alloc_ok p = Ret (0, Some q) /\ sibling q = None /\
     definition q = definition p /\ internal_data_type q = internal_data_type p /\
     p_length q = p_length p /\ data q = Some bs) \/
  (clone_from alloc_ok p = Ret (1, None) /\ exists n, alloc_ok n = false).
Proof.
  intros (Hpos & Hl & Hr) Hs. destruct p as [o s d t l lo dat]. cbn in *. subst s.
  destruct (alloc_ok sizeof_rrr_mqtt_property) eqn:H1; [|right; split; [done|by eexists]].
  rewrite (proj2 (Z.leb_gt _ _)) by lia. cbn.
  destruct (alloc_ok l) eqn:H2; [|right; split; [done|by eexists]].
  cbn. rewrite Hr. cbn. left. by eexists.
Qed.

Lemma static_clone_single p bs : bytes_of p bs -> sibling p = None ->
  (exists q, static_rrr_mqtt_property_clone alloc_ok p = Ret (0, Some q) /\ sibling q = None /\
     definition q = definition p /\ internal_data_type q = internal_data_type p /\
     p_length q = p_length p /\ data q = Some bs) \/
  (static_rrr_mqtt_property_clone alloc_ok p = Ret (1, None) /\ exists n, alloc_ok n = false).
Proof.
  intros (Hpos & Hl & Hr) Hs. destruct p as [o s d t l lo dat]. cbn in *. subst s.
  unfold rrr_mqtt_property_new.
  destruct (alloc_ok sizeof_rrr_mqtt_property) eqn:H1; [|right; split; [done|by eexists]].
  rewrite (proj2 (Z.ltb_lt _ _)) by lia.
  destruct (alloc_ok l) eqn:H2; [|right; split; [done|by eexists]].
  cbn. rewrite Hr. cbn. left. by eexists.
Qed.

Lemma copy_stands p q it bs : stands_for big p it -> bytes_of p bs -> sibling p = None ->
  sibling q = None -> definition q = definition p -> internal_data_type q = internal_data_type p ->
  p_length q = p_length p -> data q = Some bs -> stands_for big q it.
Proof.
  intros (Hok & Hd & Hp) (_ & Hl & Hr) Hsp Hsq Edef Et El Ed. split; [done|]. rewrite Edef.
  split; [done|]. destruct (it.2) as [n|t|a b].
  - destruct Hp as (Ht & Hl4 & Hdat & _). rewrite Hl4, Hdat, read_number_exact in Hr.
    injection Hr as <-. unfold holds_number. by rewrite Et, El, Ed.
  - destruct Hp as ((Ht & Hlt & rest & Hdat) & _). rewrite Hlt, Hdat, read_data_app in Hr.
    injection Hr as <-. split; [|done]. split_and!; [by rewrite Et|lia|]. exists [].
    by rewrite app_nil_r.
  - by destruct Hp as (_ & s & ? & _); simplify_eq.
Qed.

Lemma copy_text p q bs : holds_text p bs -> internal_data_type q = internal_data_type p ->
  p_length q = p_length p -> data q = Some bs -> holds_text q bs.
Proof.
  intros (Ht & Hl & _) Et El Ed. split_and!; [by rewrite Et|lia|]. exists []. by rewrite app_nil_r.
Qed.

(** The value of an item without sibling. *)
Lemma single_bytes p it : stands_for big p it -> sibling p = None ->
  exists bs, bytes_of p bs.
Proof.
  intros ((_ & Hv) & _ & Hp) Hs. destruct (it.2) as [n|t|a b].
  - eexists. by apply number_bytes.
  - exists t. apply text_bytes; [apply Hp|apply Hv].
  - by destruct Hp as (_ & s & ? & _); simplify_eq.
Qed.

Lemma pair_bytes p s it : stands_for big p it -> sibling p = Some s ->
  exists id a b, it = (id, Pair a b) /\ holds_text p a /\ holds_text s b /\ sibling s = None /\
    bytes_of p a /\ bytes_of s b.
Proof.
  intros ((_ & Hv) & _ & Hp) Hs. destruct it as [id [n|t|a b]]; cbn [fst snd] in *.
  - destruct Hp as (_ & _ & _ & ?). congruence.
  - destruct Hp as (_ & ?). congruence.
  - destruct Hp as (Ha & s' & Es & Hb & Hsn), Hv as (_ & Hta & Htb). simplify_eq.
    exists id, a, b. split_and!; try done; by apply text_bytes.
Qed.

Lemma clone_spec p it : stands_for big p it -> copied it (clone_from alloc_ok p).
Proof.
  intros Hs. destruct (sibling p) as [s|] eqn:Esib.
  - destruct (pair_bytes p s it Hs Esib)
      as (id & a & b & -> & Ha & Hb & Hsn & (Hpos & Hl & Hr) & Hbs).
    destruct Hs as (Hok & Hd & _).
    destruct p as [o sib d t l lo dat]. cbn in *. subst sib.
    destruct (alloc_ok sizeof_rrr_mqtt_property) eqn:H1; [|right; split; [done|by eexists]].
    rewrite (proj2 (Z.leb_gt _ _)) by lia. cbn.
    destruct (alloc_ok l) eqn:H2; [|right; split; [done|by eexists]]. cbn. rewrite Hr. cbn.
    destruct (clone_single s b Hbs Hsn) as [(q & -> & Hq0 & Hq1 & Hq2 & Hq3 & Hq4)|(-> & Hno)].
    + left. cbn. eexists. split; [done|]. split; [done|]. split; [done|]. cbn. split.
      * by apply (copy_text (mk_property o (Some s) d t l lo dat)).
      * exists q. split_and!; [done|by apply (copy_text s)|done].
    + by right.
  - destruct (single_bytes p it Hs Esib) as [bs Hbs].
    destruct (clone_single p bs Hbs Esib) as [(q & -> & Hq0 & Hq1 & Hq2 & Hq3 & Hq4)|(-> & Hno)];
      [left|by right]. exists q. split; [done|]. by apply (copy_stands p q it bs).
Qed.

Lemma static_clone_spec p it : stands_for big p it ->
  copied it (static_rrr_mqtt_property_clone alloc_ok p).
Proof.
  intros Hs. destruct (sibling p) as [s|] eqn:Esib.
  - destruct (pair_bytes p s it Hs Esib)
      as (id & a & b & -> & Ha & Hb & Hsn & (Hpos & Hl & Hr) & Hbs).
    destruct Hs as (Hok & Hd & _).
    destruct p as [o sib d t l lo dat]. cbn in *. subst sib. unfold rrr_mqtt_property_new.
    destruct (alloc_ok sizeof_rrr_mqtt_property) eqn:H1; [|right; split; [done|by eexists]].
    destruct (static_clone_single s b Hbs Hsn)
      as [(q & -> & Hq0 & Hq1 & Hq2 & Hq3 & Hq4)|(-> & Hno)]; [|by right]. cbn.
    rewrite (proj2 (Z.ltb_lt _ _)) by lia.
    destruct (alloc_ok l) eqn:H2; [|right; split; [done|by eexists]]. cbn. rewrite Hr. cbn.
    left. eexists. split; [done|]. split; [done|]. split; [done|]. cbn. split.
    + by apply (copy_text (mk_property o (Some s) d t l lo dat)).
    + exists q. split_and!; [done|by apply (copy_text s)|done].
  - destruct (single_bytes p it Hs Esib) as [bs Hbs].
    destruct (static_clone_single p bs Hbs Esib)
      as [(q & -> & Hq0 & Hq1 & Hq2 & Hq3 & Hq4)|(-> & Hno)];
      [left|by right]. exists q. split; [done|]. by apply (copy_stands p q it bs).
Qed.

(** ** Collections *)

Lemma set_order_stands p it n : stands_for big p it -> stands_for big (set_order p n) it.
Proof. destruct p. done. Qed.

Lemma collection_add_holds c p l it : collection_holds big c l -> stands_for big p it ->
  collection_holds big (rrr_mqtt_property_collection_add c p) (l ++ [it]).
Proof.
  intros Hc Hp. apply Forall2_app; [done|]. constructor; [by apply set_order_stands|constructor].
Qed.

(** A number that fits is added; one that does not is left out without an error. *)
Lemma collection_add_uint32_spec c l id def v : collection_holds big c l -> byte_ok id ->
  rrr_mqtt_property_get_definition id = Some def -> 0 <= v ->
  match max_value (def_data_type def) with
  | None => rrr_mqtt_property_collection_add_uint32 big alloc_ok c id v = Bug
  | Some max =>
    if v <=? max then
      exists ret c', rrr_mqtt_property_collection_add_uint32 big alloc_ok c id v = Ret (ret, c') /\
        ((ret = 0 /\ collection_holds big c' (l ++ [(id, Number v)])) \/
         (ret = 1 /\ c' = c /\ exists n, alloc_ok n = false))
    else rrr_mqtt_property_collection_add_uint32 big alloc_ok c id v = Ret (0, c)
  end.
Proof.
  intros Hc Hid Hdef Hv. unfold rrr_mqtt_property_collection_add_uint32. rewrite Hdef.
  destruct (max_value _) as [max|] eqn:Hmax; [|done].
  destruct (Z.leb_spec v max) as [Hle|Hgt]; [|by rewrite (proj2 (Z.ltb_lt _ _)) by lia].
  rewrite (proj2 (Z.ltb_ge _ _)) by lia. unfold rrr_mqtt_property_new, rrr_mqtt_property_save_uint32.
  destruct (alloc_ok sizeof_rrr_mqtt_property) eqn:H1;
    [|eexists _, _; split; [done|]; right; split_and!; try done; by eexists].
  cbn. destruct (alloc_ok 4) eqn:H2;
    [|eexists _, _; split; [done|]; right; split_and!; try done; by eexists].
  eexists _, _. split; [done|]. left. split; [done|]. apply collection_add_holds; [done|].
  split; [|by split]. split; [done|]. unfold item_type. cbn. rewrite Hdef. by exists max.
Qed.

(** The text is copied, whatever the copy is padded with. *)
Lemma collection_add_blob_or_utf8_spec c l id def bs rest : collection_holds big c l -> byte_ok id ->
  rrr_mqtt_property_get_definition id = Some def -> text_ok bs ->
  def_data_type def = RRR_MQTT_PROPERTY_DATA_TYPE_BLOB \/
  def_data_type def = RRR_MQTT_PROPERTY_DATA_TYPE_UTF8 ->
  exists ret c', rrr_mqtt_property_collection_add_blob_or_utf8 alloc_ok c id (bs ++ rest)
      (Z.of_nat (length bs)) = Ret (ret, c') /\
    ((ret = 0 /\ collection_holds big c' (l ++ [(id, Text bs)])) \/
     (ret = 1 /\ c' = c /\ exists n, alloc_ok n = false)).
Proof.
  intros Hc Hid Hdef Htext Ht. unfold rrr_mqtt_property_collection_add_blob_or_utf8. rewrite Hdef.
  set (t := def_data_type def) in *. cbv zeta.
  replace (_ || _) with true by (by destruct Ht as [-> | ->]).
  unfold rrr_mqtt_property_new, rrr_mqtt_property_save_blob.
  destruct (alloc_ok sizeof_rrr_mqtt_property) eqn:H1;
    [|eexists _, _; split; [done|]; right; split_and!; try done; by eexists].
  assert (length bs <> 0%nat) as Hne by (destruct Htext; by destruct bs).
  assert (exists pad, (if t =? RRR_MQTT_PROPERTY_DATA_TYPE_UTF8 then
      last ← load8 (bs ++ rest) (Z.of_nat (length bs) - 1);
      Ret (if negb (last =? 0) then Z.of_nat (length bs) + 1 else Z.of_nat (length bs))
    else Ret (Z.of_nat (length bs))) = Ret pad) as [pad ->].
  { destruct (t =? _); [|by eexists].
    destruct (load8_inside (bs ++ rest) (Z.of_nat (length bs) - 1)) as [b ->]; [|by eexists].
    rewrite length_app. lia. }
  cbn [mbind outcome_bind]. destruct (alloc_ok pad) eqn:H2;
    [|eexists _, _; split; [done|]; right; split_and!; try done; by eexists].
  pose proof (read_data_app bs rest) as Hread. unfold read_data in Hread. cbn [negb].
  rewrite Hread. cbn. eexists _, _. split; [done|]. left. split; [done|].
  apply collection_add_holds; [done|]. split; [split; [done|]|].
  - unfold item_type. cbn. rewrite Hdef. by split.
  - split; [done|]. split; [|done]. split; [done|]. split; [done|]. by eexists.
Qed.

(** Copies of the chosen items are added in their order; if one cannot be made,
    the target is emptied. *)
Lemma add_selected_spec ids ps m c l : Forall2 (stands_for big) ps m -> collection_holds big c l ->
  exists ret c', add_selected_loop alloc_ok ids ps c = Ret (ret, c') /\
    ((ret = 0 /\ collection_holds big c'
        (l ++ filter (fun it => ids = [] \/ it.1 ∈ ids) m)) \/
     (ret = 1 /\ nodes c' = [] /\ exists n, alloc_ok n = false)).
Proof.
  intros H. revert c l. induction H as [|p it ps m Hp _ IH]; intros c l Hc; cbn [add_selected_loop].
  - exists 0, c. split; [done|]. left. by rewrite filter_nil, app_nil_r.
  - assert (selected ids p = bool_decide (ids = [] \/ it.1 ∈ ids)) as Hsel.
    { destruct Hp as (_ & Hd & _). apply get_definition_id in Hd. unfold selected. rewrite Hd.
      destruct ids as [|i ids]; [done|]. cbn [length]. rewrite (proj2 (Z.ltb_lt _ _)) by lia.
      apply eq_true_iff_eq. rewrite existsb_exists, bool_decide_eq_true. split.
      - intros (x & Hx & E). apply Z.eqb_eq in E. subst x. right. by apply list_elem_of_In.
      - intros [?|Hin]; [done|]. exists it.1. split; [by apply list_elem_of_In|apply Z.eqb_refl]. }
    rewrite Hsel. case_bool_decide as Hin.
    + rewrite filter_cons_True by done. destruct (static_clone_spec p it Hp) as [(q & -> & Hq)|(-> & Hno)].
      * cbn. destruct (IH (rrr_mqtt_property_collection_add c q) (l ++ [it])) as (ret & c' & Heq & Hr);
          [by apply collection_add_holds|]. exists ret, c'. split; [done|]. by rewrite <- app_assoc in Hr.
      * cbn. eexists _, _. split; [done|]. by right.
    + rewrite filter_cons_False by done. by apply IH.
Qed.

(** Removing by identifier. *)
Lemma clear_by_id_holds c l id : collection_holds big c l ->
  collection_holds big (rrr_mqtt_property_collection_clear_by_id c id)
    (filter (fun it => it.1 <> id) l).
Proof.
  unfold collection_holds. cbn [nodes rrr_mqtt_property_collection_clear_by_id].
  induction 1 as [|p it ps m Hp _ IH]; [constructor|].
  pose proof Hp as (_ & Hd & _). apply get_definition_id in Hd.
  destruct (decide (it.1 = id)) as [E|E].
  - rewrite !filter_cons_False by (rewrite ?Hd; naive_solver). done.
  - rewrite !filter_cons_True by (rewrite ?Hd; naive_solver). by constructor.
Qed.

(** The property asked for is the item of that rank among those with the identifier. *)
Lemma get_property_holds c l id index : collection_holds big c l ->
  0 <= index -> Z.of_nat (length l) < 2 ^ 32 ->
  match rrr_mqtt_property_collection_get_property c id index,
        filter (fun it => it.1 = id) l !! Z.to_nat index with
  | Some p, Some it => stands_for big p it
  | None, None => True
  | _, _ => False
  end.
Proof.
  unfold rrr_mqtt_property_collection_get_property, collection_holds. intros H Hi Hl.
  cut (forall k, 0 <= k <= index -> k + Z.of_nat (length l) < 2 ^ 32 ->
    match get_property_loop (nodes c) id index k,
      filter (fun it => it.1 = id) l !! Z.to_nat (index - k) with
    | Some p, Some it => stands_for big p it | None, None => True | _, _ => False end).
  { intros Hcut. specialize (Hcut 0). rewrite Z.sub_0_r in Hcut. apply Hcut; lia. }
  clear Hl. induction H as [|p it ps m Hp _ IH]; intros k Hk Hl; [done|].
  pose proof Hp as (_ & Hd & _). apply get_definition_id in Hd. cbn [get_property_loop].
  simpl in Hl. rewrite Hd. destruct (Z.eqb_spec it.1 id) as [E|E].
  - rewrite filter_cons_True by done. destruct (Z.eqb_spec k index) as [->|Hne].
    + by rewrite Z.sub_diag.
    + replace (Z.to_nat (index - k)) with (S (Z.to_nat (index - (k + 1)))) by lia.
      cbn [lookup list_lookup]. rewrite wrap_small by lia. apply IH; lia.
  - rewrite filter_cons_False by done. apply IH; lia.
Qed.

End Copy.

(** A number that does not fit is dropped, and the caller is told that it was
    added. *)
Lemma add_uint32_too_large :
  rrr_mqtt_property_collection_add_uint32 false (fun _ => true) (mk_collection [] 0) 0x24 256 =
    Ret (0, mk_collection [] 0).
Proof. vm_compute. reflexivity. Qed.

End MqttProperty.
