(* ===== verification/MqttSubscription.v ===== *)
(** Subscriptions and collections of them (src/src/lib/mqtt/mqtt_subscription.c).
    A linked list is the list of its nodes, in order; a subscription that is
    handed over by pointer is an [option], [None] once the callee has taken it.
    Topic filters are C strings, given by their bytes without the terminator.
    [alloc_ok n] tells whether an allocation of [n] bytes succeeds, [alloc_token]
    the same for the tokens of a filter. *)
From S2P Require Import Prelude Types Utf8 Parse MqttTopic MqttPayloadBuf.
From stdpp Require Import gmap list.
Open Scope Z_scope.
Open Scope c_scope.

Module MqttSubscription.
Import Types MqttTopic MqttPayloadBuf.

Definition RRR_MQTT_SUBSCRIPTION_OK : Z := RRR_MQTT_OK.
Definition RRR_MQTT_SUBSCRIPTION_MATCH : Z := RRR_MQTT_OK.
Definition RRR_MQTT_SUBSCRIPTION_INTERNAL_ERROR : Z := RRR_MQTT_INTERNAL_ERROR.
Definition RRR_MQTT_SUBSCRIPTION_REPLACED : Z := 16.
Definition RRR_MQTT_SUBSCRIPTION_MISMATCH : Z := RRR_READ_INCOMPLETE.
Definition RRR_MQTT_SUBSCRIPTION_REFUSED : Z := RRR_READ_INCOMPLETE.

Definition RRR_MQTT_SUBSCRIPTION_ITERATE_OK : Z := 0.
Definition RRR_MQTT_SUBSCRIPTION_ITERATE_INTERNAL_ERROR : Z := 1 <<< 0.
Definition RRR_MQTT_SUBSCRIPTION_ITERATE_DESTROY : Z := 1 <<< 1.
Definition RRR_MQTT_SUBSCRIPTION_ITERATE_STOP : Z := 1 <<< 2.

Definition RRR_MQTT_SUBSCRIPTION_COLLECTION_MAX : Z := 65536.

Definition RRR_MQTT_P_5_REASON_OK : Z := 0x00.
Definition RRR_MQTT_P_5_REASON_NO_SUBSCRIPTION_EXISTED : Z := 0x11.
Definition RRR_MQTT_P_5_REASON_TOPIC_FILTER_INVALID : Z := 0x8F.

(** The bits of the options byte of a SUBSCRIBE packet. *)
Definition RRR_MQTT_SUBSCRIPTION_GET_FLAG_RAW_QOS (flags : Z) : Z :=
  flags &&& ((1 <<< 0) ||| (1 <<< 1)).
Definition RRR_MQTT_SUBSCRIPTION_GET_FLAG_RAW_NL (flags : Z) : Z := (flags &&& (1 <<< 2)) >>> 2.
Definition RRR_MQTT_SUBSCRIPTION_GET_FLAG_RAW_RAP (flags : Z) : Z := (flags &&& (1 <<< 3)) >>> 3.
Definition RRR_MQTT_SUBSCRIPTION_GET_FLAG_RAW_RETAIN (flags : Z) : Z :=
  (flags &&& ((1 <<< 4) ||| (1 <<< 5))) >>> 4.
Definition RRR_MQTT_SUBSCRIPTION_GET_FLAG_RAW_RESERVED (flags : Z) : Z :=
  (flags &&& ((1 <<< 6) ||| (1 <<< 7))) >>> 6.

Record rrr_mqtt_subscription := mk_sub {
  topic_filter : list Z;
  token_tree : list (list Z);
  retain_handling : Z;
  rap : Z;
  nl : Z;
  qos_or_reason_v5 : Z
}.

#[export] Instance subscription_eq_dec : EqDecision rrr_mqtt_subscription.
Proof. solve_decision. Defined.

Abbreviation rrr_mqtt_subscription_collection := (list rrr_mqtt_subscription).

Definition sizeof_rrr_mqtt_subscription : Z := 40.
Definition sizeof_rrr_mqtt_subscription_collection : Z := 24.

Definition set_reason (s : rrr_mqtt_subscription) (reason : Z) : rrr_mqtt_subscription :=
  mk_sub (topic_filter s) (token_tree s) (retain_handling s) (rap s) (nl s) reason.

Section Alloc.
Context (alloc_ok : Z -> bool) (alloc_token : nat -> bool).

(** The status and [*target]. *)
Definition rrr_mqtt_subscription_new (filter : list Z) (retain_handling rap nl qos : Z)
  : outcome (Z * option rrr_mqtt_subscription) :=
  if (0 <? nl) || (0 <? rap) || (2 <? retain_handling) then Bug
  else
    invalid ← rrr_mqtt_topic_filter_validate_name filter;
    if negb (invalid =? 0) then Bug
    else if negb (alloc_ok sizeof_rrr_mqtt_subscription) then Ret (1, None)
    else if first_char filter =? 0 then Bug
    else if negb (alloc_ok (Z.of_nat (length filter) + 1)) then
      (* [sub] is tested again in place of [sub->topic_filter], which is copied to. *)
      Oob
    else
      let '(ret, tokens) := rrr_mqtt_topic_tokenize alloc_token filter in
      if negb (ret =? 0) then Ret (1, None)
      else Ret (0, Some (mk_sub filter tokens retain_handling rap nl qos)).

Definition rrr_mqtt_subscription_clone (source : rrr_mqtt_subscription)
  : outcome (Z * option rrr_mqtt_subscription) :=
  rrr_mqtt_subscription_new (topic_filter source) (retain_handling source) (rap source)
    (nl source) (qos_or_reason_v5 source).

(** [target] gets the contents of [*source], which is destroyed. *)
Definition rrr_mqtt_subscription_replace_and_destroy (target source : rrr_mqtt_subscription)
  : rrr_mqtt_subscription * option rrr_mqtt_subscription := (source, None).

Definition rrr_mqtt_subscription_match_publish (subscription : rrr_mqtt_subscription)
    (topic : list Z) (publish_tokens : list (list Z)) : outcome Z :=
  invalid ← rrr_mqtt_topic_validate_name (Some topic);
  if negb (invalid =? 0) then Bug
  else rrr_mqtt_topic_match_tokens_recursively (token_tree subscription) publish_tokens.

Section Match.
Context {St : Type} (match_callback : rrr_mqtt_subscription -> St -> outcome (Z * St)).
Context (topic : list Z) (publish_tokens : list (list Z)).

(** Status, count of matches and the state of the callback. *)
Fixpoint match_publish_with_callback_loop (l : rrr_mqtt_subscription_collection) (ret count : Z)
    (st : St) : outcome (Z * Z * St) :=
  match l with
  | [] => Ret (ret, count, st)
  | node :: l =>
    m ← rrr_mqtt_subscription_match_publish node topic publish_tokens;
    if m =? RRR_MQTT_TOKEN_MATCH then
      '(ret, st) ← match_callback node st;
      count ← rrr_length_inc_bug count;
      if negb (ret =? 0) then Ret (RRR_MQTT_SUBSCRIPTION_INTERNAL_ERROR, count, st)
      else match_publish_with_callback_loop l ret count st
    else if negb (m =? RRR_MQTT_TOKEN_MISMATCH) then
      Ret (RRR_MQTT_SUBSCRIPTION_INTERNAL_ERROR, count, st)
    else match_publish_with_callback_loop l RRR_MQTT_SUBSCRIPTION_OK count st
  end.

Definition rrr_mqtt_subscription_collection_match_publish_with_callback
    (subscriptions : rrr_mqtt_subscription_collection) (callback_arg : St) : outcome (Z * Z * St) :=
  match_publish_with_callback_loop subscriptions RRR_MQTT_SUBSCRIPTION_OK 0 callback_arg.
End Match.

Fixpoint match_publish_loop (topic : list Z) (publish_tokens : list (list Z))
    (l : rrr_mqtt_subscription_collection) (ret : Z) : outcome Z :=
  match l with
  | [] => Ret ret
  | node :: l =>
    ret ← rrr_mqtt_subscription_match_publish node topic publish_tokens;
    if ret =? RRR_MQTT_TOKEN_MATCH then Ret ret
    else if negb (ret =? RRR_MQTT_TOKEN_MISMATCH) then Ret RRR_MQTT_SUBSCRIPTION_INTERNAL_ERROR
    else match_publish_loop topic publish_tokens l ret
  end.

Definition rrr_mqtt_subscription_collection_match_publish
    (subscriptions : rrr_mqtt_subscription_collection) (topic : list Z)
    (publish_tokens : list (list Z)) : outcome Z :=
  match_publish_loop topic publish_tokens subscriptions RRR_MQTT_TOKEN_MISMATCH.

Definition rrr_mqtt_subscription_collection_count (target : rrr_mqtt_subscription_collection)
  : outcome Z := rrr_length_from_slength_bug_const (Z.of_nat (length target)).

Definition rrr_mqtt_subscription_collection_clear (target : rrr_mqtt_subscription_collection)
  : rrr_mqtt_subscription_collection := [].

Definition rrr_mqtt_subscription_collection_new
  : Z * option rrr_mqtt_subscription_collection :=
  if negb (alloc_ok sizeof_rrr_mqtt_subscription_collection)
  then (RRR_MQTT_SUBSCRIPTION_INTERNAL_ERROR, None) else (RRR_MQTT_SUBSCRIPTION_OK, Some []).

Definition rrr_mqtt_subscription_collection_append_unchecked_clone
    (target : rrr_mqtt_subscription_collection) (old : rrr_mqtt_subscription)
  : outcome (Z * rrr_mqtt_subscription_collection) :=
  '(ret, new) ← rrr_mqtt_subscription_clone old;
  match new with
  | Some new => if ret =? RRR_MQTT_SUBSCRIPTION_OK then Ret (ret, target ++ [new]) else Ret (ret, target)
  | None => if ret =? RRR_MQTT_SUBSCRIPTION_OK then Oob else Ret (ret, target)
  end.

Fixpoint collection_clone_loop (res l : rrr_mqtt_subscription_collection)
  : outcome (Z * option rrr_mqtt_subscription_collection) :=
  match l with
  | [] => Ret (RRR_MQTT_SUBSCRIPTION_OK, Some res)
  | node :: l =>
    '(ret, res) ← rrr_mqtt_subscription_collection_append_unchecked_clone res node;
    if negb (ret =? RRR_MQTT_SUBSCRIPTION_OK) then Ret (ret, None) else collection_clone_loop res l
  end.

Definition rrr_mqtt_subscription_collection_clone (source : rrr_mqtt_subscription_collection)
  : outcome (Z * option rrr_mqtt_subscription_collection) :=
  match rrr_mqtt_subscription_collection_new with
  | (ret, None) => Ret (ret, None)
  | (_, Some res) => collection_clone_loop res source
  end.

Definition rrr_mqtt_subscription_collection_check_full
    (collection : rrr_mqtt_subscription_collection) : Z :=
  if RRR_MQTT_SUBSCRIPTION_COLLECTION_MAX <=? Z.of_nat (length collection)
  then RRR_MQTT_SUBSCRIPTION_REFUSED else RRR_MQTT_SUBSCRIPTION_OK.

(** The callback may change the node.  A node to be destroyed is kept when the
    iteration is to stop as well. *)
Section Iterate.
Context {St : Type}.
Context (callback : rrr_mqtt_subscription -> St -> outcome (Z * rrr_mqtt_subscription * St)).

Fixpoint rrr_mqtt_subscription_collection_iterate (collection : rrr_mqtt_subscription_collection)
    (callback_arg : St) : outcome (Z * rrr_mqtt_subscription_collection * St) :=
  match collection with
  | [] => Ret (RRR_MQTT_SUBSCRIPTION_OK, [], callback_arg)
  | node :: next =>
    '(ret_tmp, node, st) ← callback node callback_arg;
    if negb ((ret_tmp &&& RRR_MQTT_SUBSCRIPTION_ITERATE_INTERNAL_ERROR) =? 0) then
      Ret (RRR_MQTT_SUBSCRIPTION_INTERNAL_ERROR, node :: next, st)
    else if negb ((ret_tmp &&& RRR_MQTT_SUBSCRIPTION_ITERATE_STOP) =? 0) then
      Ret (RRR_MQTT_SUBSCRIPTION_OK, node :: next, st)
    else
      '(ret, next, st) ← rrr_mqtt_subscription_collection_iterate next st;
      if negb ((ret_tmp &&& RRR_MQTT_SUBSCRIPTION_ITERATE_DESTROY) =? 0)
      then Ret (ret, next, st) else Ret (ret, node :: next, st)
  end.
End Iterate.

(** The state is [*callback_data->subscription]. *)
Definition rrr_mqtt_subscription_collection_push_unique_callback (subscription : rrr_mqtt_subscription)
    (arg : option rrr_mqtt_subscription)
  : outcome (Z * rrr_mqtt_subscription * option rrr_mqtt_subscription) :=
  match arg with
  | None => Oob
  | Some new =>
    if strcmp_eq (topic_filter subscription) (topic_filter new) then
      let '(subscription, arg) := rrr_mqtt_subscription_replace_and_destroy subscription new in
      Ret (RRR_MQTT_SUBSCRIPTION_ITERATE_OK ||| RRR_MQTT_SUBSCRIPTION_ITERATE_STOP, subscription, arg)
    else Ret (RRR_MQTT_SUBSCRIPTION_ITERATE_OK, subscription, arg)
  end.

(** Status, the collection and what is left in [*subscription]. *)
Definition rrr_mqtt_subscription_collection_add_unique (target : rrr_mqtt_subscription_collection)
    (subscription : rrr_mqtt_subscription) (put_at_end : bool)
  : outcome (Z * rrr_mqtt_subscription_collection * option rrr_mqtt_subscription) :=
  match target with
  | [] => Ret (RRR_MQTT_SUBSCRIPTION_OK, [subscription], None)
  | _ =>
    '(ret, target, rest) ← rrr_mqtt_subscription_collection_iterate
                             rrr_mqtt_subscription_collection_push_unique_callback
                             target (Some subscription);
    if negb (ret =? RRR_MQTT_SUBSCRIPTION_OK)
    then Ret (RRR_MQTT_SUBSCRIPTION_INTERNAL_ERROR, target, rest)
    else
      match rest with
      | None => Ret (RRR_MQTT_SUBSCRIPTION_REPLACED, target, None)
      | Some s =>
        let ret := rrr_mqtt_subscription_collection_check_full target in
        if negb (ret =? 0) then Ret (ret, target, Some s)
        else if put_at_end then Ret (ret, target ++ [s], None)
        else Ret (ret, s :: target, None)
      end
  end.

Definition rrr_mqtt_subscription_collection_get_subscription_by_idx
    (target : rrr_mqtt_subscription_collection) (idx : Z)
  : outcome (option rrr_mqtt_subscription) :=
  if Z.of_nat (length target) - 1 <? idx then Bug else Ret (target !! Z.to_nat idx).

(** The kept nodes and how many were destroyed. *)
Fixpoint remove_topic_loop (l : rrr_mqtt_subscription_collection) (topic : list Z)
  : rrr_mqtt_subscription_collection * Z :=
  match l with
  | [] => ([], 0)
  | node :: l =>
    let '(kept, n) := remove_topic_loop l topic in
    if strcmp_eq (topic_filter node) topic then (kept, n + 1) else (node :: kept, n)
  end.

(** Status, [*did_remove] and the collection. *)
Definition rrr_mqtt_subscription_collection_remove_topic (target : rrr_mqtt_subscription_collection)
    (topic : list Z) : outcome (Z * Z * rrr_mqtt_subscription_collection) :=
  let '(target, did_destroy) := remove_topic_loop target topic in
  if 1 <? did_destroy then Bug else Ret (0, did_destroy, target).

Definition rrr_mqtt_subscription_collection_push_unique_str
    (target : rrr_mqtt_subscription_collection) (topic : list Z) (retain_handling rap nl qos : Z)
  : outcome (Z * rrr_mqtt_subscription_collection) :=
  '(ret, subscription) ← rrr_mqtt_subscription_new topic retain_handling rap nl qos;
  if negb (ret =? 0) then Ret (1, target)
  else
    match subscription with
    | None => Oob
    | Some subscription =>
      if negb (qos_or_reason_v5 subscription =? qos) then
        if qos_or_reason_v5 subscription =? RRR_MQTT_P_5_REASON_TOPIC_FILTER_INVALID
        then Ret (1, target) else Bug
      else
        '(ret, target, _) ← rrr_mqtt_subscription_collection_add_unique target subscription false;
        if ret =? RRR_MQTT_SUBSCRIPTION_OK then Ret (ret, target)
        else if ret =? RRR_MQTT_SUBSCRIPTION_REPLACED then Ret (RRR_MQTT_SUBSCRIPTION_OK, target)
        else if ret =? RRR_MQTT_SUBSCRIPTION_REFUSED then Ret (ret, target)
        else Ret (1, target)
    end.

Section Append.
Context {St : Type} (new_subscription_callback : option (rrr_mqtt_subscription -> St -> outcome (Z * St))).

Fixpoint append_unique_copy_loop (target l : rrr_mqtt_subscription_collection)
    (include_invalid_entries : bool) (st : St)
  : outcome (Z * rrr_mqtt_subscription_collection * St) :=
  match l with
  | [] => Ret (RRR_MQTT_SUBSCRIPTION_OK, target, st)
  | node :: l =>
    if negb include_invalid_entries && (2 <? qos_or_reason_v5 node)
    then append_unique_copy_loop target l include_invalid_entries st
    else
      '(ret, subscription_tmp) ← rrr_mqtt_subscription_clone node;
      if negb (ret =? 0) then Ret (RRR_MQTT_SUBSCRIPTION_INTERNAL_ERROR, target, st)
      else
        match subscription_tmp with
        | None => Oob
        | Some s =>
          '(ret, target, _) ← rrr_mqtt_subscription_collection_add_unique target s true;
          '(ret, st) ←
            (if (ret &&& RRR_MQTT_SUBSCRIPTION_REPLACED) =? 0 then
               match new_subscription_callback with
               | None => Ret (ret, st)
               | Some callback => callback node st
               end
             else Ret (ret &&& Z.lnot RRR_MQTT_SUBSCRIPTION_REPLACED, st));
          if negb (ret =? 0) then Ret (RRR_MQTT_SUBSCRIPTION_INTERNAL_ERROR, target, st)
          else append_unique_copy_loop target l include_invalid_entries st
        end
  end.

Definition rrr_mqtt_subscription_collection_append_unique_copy_from_collection
    (target source : rrr_mqtt_subscription_collection) (include_invalid_entries : bool) (st : St)
  : outcome (Z * rrr_mqtt_subscription_collection * St) :=
  append_unique_copy_loop target source include_invalid_entries st.
End Append.

(** Status, [target], the nodes of [source] with their reasons, and the count. *)
Fixpoint remove_topics_matching_loop (target l : rrr_mqtt_subscription_collection) (removed_count : Z)
  : outcome (Z * rrr_mqtt_subscription_collection * rrr_mqtt_subscription_collection * Z) :=
  match l with
  | [] => Ret (RRR_MQTT_SUBSCRIPTION_OK, target, [], removed_count)
  | node :: l =>
    if negb (qos_or_reason_v5 node =? RRR_MQTT_P_5_REASON_OK) then
      '(ret, target, l, removed_count) ← remove_topics_matching_loop target l removed_count;
      Ret (ret, target, node :: l, removed_count)
    else
      '(_, did_remove, target) ←
        rrr_mqtt_subscription_collection_remove_topic target (topic_filter node);
      '(node, removed_count) ←
        (if did_remove =? 0
         then Ret (set_reason node RRR_MQTT_P_5_REASON_NO_SUBSCRIPTION_EXISTED, removed_count)
         else
           removed_count ← rrr_length_inc_bug removed_count;
           Ret (set_reason node RRR_MQTT_P_5_REASON_OK, removed_count));
      '(ret, target, l, removed_count) ← remove_topics_matching_loop target l removed_count;
      Ret (ret, target, node :: l, removed_count)
  end.

Definition rrr_mqtt_subscription_collection_remove_topics_matching_and_set_reason
    (target source : rrr_mqtt_subscription_collection)
  : outcome (Z * rrr_mqtt_subscription_collection * rrr_mqtt_subscription_collection * Z) :=
  remove_topics_matching_loop target source 0.

End Alloc.

(** * Collections as maps from filters to subscriptions *)

Definition filter_ok (f : list Z) : Prop :=
  bytes_ok f /\ (0 ∉ f) /\ f <> [] /\ rrr_mqtt_topic_filter_validate_name f = Ret 0.

(** What [rrr_mqtt_subscription_new] makes. *)
Definition sub_ok (s : rrr_mqtt_subscription) : Prop :=
  filter_ok (topic_filter s) /\ token_tree s = levels (topic_filter s) /\
  nl s = 0 /\ rap s = 0 /\ 0 <= retain_handling s <= 2.

(** One subscription for a filter, and no more of them than allowed. *)
Definition collection_ok (c : rrr_mqtt_subscription_collection) : Prop :=
  Forall sub_ok c /\ NoDup (topic_filter <$> c) /\
  Z.of_nat (length c) <= RRR_MQTT_SUBSCRIPTION_COLLECTION_MAX.

Definition view (c : rrr_mqtt_subscription_collection) : gmap (list Z) rrr_mqtt_subscription :=
  list_to_map ((fun s => (topic_filter s, s)) <$> c).

#[global] Arguments view : simpl never.

Lemma view_keys (c : rrr_mqtt_subscription_collection) :
  ((fun s => (topic_filter s, s)) <$> c).*1 = topic_filter <$> c.
Proof. induction c as [|s c IH]; [done|]. cbn. by rewrite IH. Qed.

Lemma view_lookup_None c f : view c !! f = None <-> f ∉ (topic_filter <$> c).
Proof. unfold view. rewrite <- view_keys. symmetry. apply not_elem_of_list_to_map. Qed.

Lemma view_lookup_Some c f : is_Some (view c !! f) <-> f ∈ (topic_filter <$> c).
Proof.
  destruct (decide (f ∈ (topic_filter <$> c))) as [Hin|Hin].
  - split; [done|]. intros _. destruct (view c !! f) eqn:E; [by eexists|].
    by apply view_lookup_None in E.
  - split; [|done]. apply view_lookup_None in Hin. rewrite Hin. by intros [].
Qed.

Lemma view_cons s c : view (s :: c) = <[topic_filter s := s]> (view c).
Proof. done. Qed.

Lemma view_snoc s c : topic_filter s ∉ (topic_filter <$> c) ->
  view (c ++ [s]) = <[topic_filter s := s]> (view c).
Proof.
  intros Hn. induction c as [|x c IH]; [done|]. cbn [app]. rewrite !view_cons.
  cbn in Hn. apply not_elem_of_cons in Hn as [Hne Hn].
  rewrite IH by done. by rewrite insert_insert_ne.
Qed.

(** ** New subscriptions *)

Lemma validated_not_empty f : filter_ok f -> (first_char f =? 0) = false.
Proof.
  intros (_ & Hz & Hne & _). destruct f as [|b f]; [done|]. apply Z.eqb_neq. intros E. cbn in E.
  subst b. apply Hz. by left.
Qed.

Lemma subscription_new_spec alloc_ok alloc_token f retain qos :
  filter_ok f -> 0 <= retain <= 2 ->
  rrr_mqtt_subscription_new alloc_ok alloc_token f retain 0 0 qos =
    if negb (alloc_ok sizeof_rrr_mqtt_subscription) then Ret (1, None)
    else if negb (alloc_ok (Z.of_nat (length f) + 1)) then Oob
    else if allocs alloc_token 0 (length (levels f)) then
      Ret (0, Some (mk_sub f (levels f) retain 0 0 qos))
    else Ret (1, None).
Proof.
  intros Hf Hr. pose proof (validated_not_empty f Hf) as Hne.
  destruct Hf as (Hb & Hz & Hn & Hv). unfold rrr_mqtt_subscription_new.
  rewrite (proj2 (Z.ltb_ge 2 retain)) by lia. cbn [orb Z.ltb Z.compare]. rewrite Hv, bind_ret.
  cbn [Z.eqb negb]. rewrite Hne. unfold rrr_mqtt_topic_tokenize. rewrite tokenize_spec by done.
  destruct (alloc_ok sizeof_rrr_mqtt_subscription); [|done].
  destruct (alloc_ok (Z.of_nat (length f) + 1)); [|done]. by destruct (allocs _ _ _).
Qed.

(** ** Adding *)

(** What replaces the subscription with the same filter. *)
Definition replace_sub (s : rrr_mqtt_subscription) (c : rrr_mqtt_subscription_collection)
  : rrr_mqtt_subscription_collection :=
  (fun x => if strcmp_eq (topic_filter x) (topic_filter s) then s else x) <$> c.

Lemma replace_sub_cons s x c : replace_sub s (x :: c) =
  (if strcmp_eq (topic_filter x) (topic_filter s) then s else x) :: replace_sub s c.
Proof. done. Qed.

Lemma replace_sub_absent s c : topic_filter s ∉ (topic_filter <$> c) -> replace_sub s c = c.
Proof.
  intros Hn. induction c as [|x c IH]; [done|]. cbn in Hn. apply not_elem_of_cons in Hn as [Hne Hn].
  rewrite replace_sub_cons, strcmp_eq_ne by done. f_equal. by apply IH.
Qed.

Lemma replace_sub_filters s c : topic_filter <$> replace_sub s c = topic_filter <$> c.
Proof.
  unfold replace_sub. rewrite <- list_fmap_compose. apply list_fmap_ext. intros i x _.
  unfold compose, strcmp_eq. by case_bool_decide.
Qed.

Lemma view_replace s c : NoDup (topic_filter <$> c) -> topic_filter s ∈ (topic_filter <$> c) ->
  view (replace_sub s c) = <[topic_filter s := s]> (view c).
Proof.
  induction c as [|x c IH]; intros Hnd Hin; cbn in Hnd, Hin; [by apply elem_of_nil in Hin|].
  apply NoDup_cons in Hnd as [Hx Hnd]. rewrite replace_sub_cons, !view_cons.
  unfold strcmp_eq. case_bool_decide as E.
  - rewrite E in Hx. rewrite replace_sub_absent by done. rewrite E. by rewrite insert_insert_eq.
  - apply elem_of_cons in Hin as [Hin|Hin]; [congruence|]. rewrite IH by done.
    by rewrite insert_insert_ne.
Qed.

Lemma push_unique_callback_spec x s :
  rrr_mqtt_subscription_collection_push_unique_callback x (Some s) =
    Ret (if strcmp_eq (topic_filter x) (topic_filter s) then (4, s, None) else (0, x, Some s)).
Proof. cbn. by destruct (strcmp_eq _ _). Qed.

Lemma push_unique_iterate c s : NoDup (topic_filter <$> c) ->
  rrr_mqtt_subscription_collection_iterate rrr_mqtt_subscription_collection_push_unique_callback
    c (Some s) =
  Ret (0, replace_sub s c, if bool_decide (topic_filter s ∈ (topic_filter <$> c)) then None else Some s).
Proof.
  induction c as [|x c IH]; intros Hnd; [done|].
  cbn [rrr_mqtt_subscription_collection_iterate]. cbn in Hnd. apply NoDup_cons in Hnd as [Hx Hnd].
  rewrite push_unique_callback_spec, replace_sub_cons.
  destruct (decide (topic_filter x = topic_filter s)) as [E|E].
  - rewrite E, strcmp_eq_refl. cbn. rewrite E.
    rewrite bool_decide_eq_true_2 by (apply elem_of_cons; by left). rewrite E in Hx. by rewrite replace_sub_absent by done.
  - rewrite strcmp_eq_ne by done. cbn [mbind outcome_bind]. rewrite IH by done. cbn.
    rewrite (bool_decide_ext (topic_filter s ∈ topic_filter x :: (topic_filter <$> c))
      (topic_filter s ∈ (topic_filter <$> c))); [done|]. rewrite elem_of_cons. intuition congruence.
Qed.

Lemma replace_sub_ok s c : sub_ok s -> Forall sub_ok c -> Forall sub_ok (replace_sub s c).
Proof.
  intros Hs Hc. apply Forall_fmap. eapply Forall_impl; [exact Hc|]. intros x Hx. cbn.
  by destruct (strcmp_eq _ _).
Qed.

Lemma add_unique_cases c s (put_at_end : bool) : NoDup (topic_filter <$> c) ->
  rrr_mqtt_subscription_collection_add_unique c s put_at_end =
    Ret (if decide (topic_filter s ∈ (topic_filter <$> c)) then
           (RRR_MQTT_SUBSCRIPTION_REPLACED, replace_sub s c, None)
         else if RRR_MQTT_SUBSCRIPTION_COLLECTION_MAX <=? Z.of_nat (length c) then
           (RRR_MQTT_SUBSCRIPTION_REFUSED, c, Some s)
         else (RRR_MQTT_SUBSCRIPTION_OK, if put_at_end then c ++ [s] else s :: c, None)).
Proof.
  intros Hnd. unfold rrr_mqtt_subscription_collection_add_unique. destruct c as [|x c].
  { destruct (decide _) as [Hin|_]; [by apply elem_of_nil in Hin|]. by destruct put_at_end. }
  rewrite push_unique_iterate by done. cbn [mbind outcome_bind Z.eqb negb].
  change (negb (0 =? RRR_MQTT_SUBSCRIPTION_OK)) with false. cbv iota.
  destruct (decide (topic_filter s ∈ (topic_filter <$> x :: c))) as [Hin|Hin].
  - by rewrite bool_decide_true.
  - rewrite bool_decide_false by done. rewrite replace_sub_absent by done.
    unfold rrr_mqtt_subscription_collection_check_full.
    destruct (_ <=? _); [done|]. by destruct put_at_end.
Qed.

Lemma add_unique_keeps_ok c s (put_at_end : bool) ret c' rest :
  collection_ok c -> sub_ok s ->
  rrr_mqtt_subscription_collection_add_unique c s put_at_end = Ret (ret, c', rest) ->
  collection_ok c'.
Proof.
  intros (Hall & Hnd & Hlen) Hs. rewrite add_unique_cases by done. intros [= E].
  destruct (decide _) as [Hin|Hin].
  - simplify_eq. split_and!; [by apply replace_sub_ok|by rewrite replace_sub_filters|].
    unfold replace_sub. by rewrite length_fmap.
  - destruct (Z.leb_spec RRR_MQTT_SUBSCRIPTION_COLLECTION_MAX (Z.of_nat (length c))).
    { by simplify_eq. }
    destruct put_at_end; simplify_eq.
    + split_and!; [by apply Forall_app; auto| |rewrite length_app; simpl; lia].
      rewrite fmap_app. apply NoDup_app. split_and!; [done| |by apply NoDup_singleton].
      intros f Hf ->%list_elem_of_singleton. done.
    + split_and!; [by constructor| |simpl; lia]. cbn. by apply NoDup_cons.
Qed.

(** C35. Adding a subscription to a collection is an insertion into the map from
    filters to subscriptions: a filter that is there gets the new subscription in
    its place, another is put at the end or the beginning, and only a full
    collection refuses it and is left as it was.  The collection keeps one
    subscription per filter and its limit. *)
Theorem rrr_mqtt_subscription_collection_add_unique_correct c s put_at_end :
  collection_ok c -> sub_ok s ->
  exists ret c' rest,
    rrr_mqtt_subscription_collection_add_unique c s put_at_end = Ret (ret, c', rest) /\
    collection_ok c' /\
    ((ret = RRR_MQTT_SUBSCRIPTION_REFUSED /\ c' = c /\ rest = Some s /\
      view c !! topic_filter s = None /\
      Z.of_nat (length c) = RRR_MQTT_SUBSCRIPTION_COLLECTION_MAX) \/
     (rest = None /\ view c' = <[topic_filter s := s]> (view c) /\
      ((ret = RRR_MQTT_SUBSCRIPTION_REPLACED /\ is_Some (view c !! topic_filter s) /\
        topic_filter <$> c' = topic_filter <$> c) \/
       (ret = RRR_MQTT_SUBSCRIPTION_OK /\ view c !! topic_filter s = None /\
        c' = if put_at_end then c ++ [s] else s :: c)))).
Proof.
  intros Hc Hs. pose proof Hc as (Hall & Hnd & Hlen).
  destruct (rrr_mqtt_subscription_collection_add_unique c s put_at_end) as [[[ret c'] rest]| |] eqn:E;
    [|by rewrite add_unique_cases in E..].
  exists ret, c', rest. split; [done|]. split; [by eapply add_unique_keeps_ok|].
  rewrite add_unique_cases in E by done. rewrite view_lookup_None, view_lookup_Some.
  destruct (decide _) as [Hin|Hin].
  - simplify_eq. right. split; [done|]. split; [by apply view_replace|]. left.
    by rewrite replace_sub_filters.
  - destruct (Z.leb_spec RRR_MQTT_SUBSCRIPTION_COLLECTION_MAX (Z.of_nat (length c))); simplify_eq.
    + left. split_and!; try done. lia.
    + right. split; [done|]. split; [|by right].
      destruct put_at_end; [by apply view_snoc|done].
Qed.

(** ** Removing *)

Lemma remove_topic_loop_spec c f : NoDup (topic_filter <$> c) ->
  remove_topic_loop c f =
    (filter (fun s => topic_filter s <> f) c, if decide (f ∈ (topic_filter <$> c)) then 1 else 0).
Proof.
  induction c as [|x c IH]; intros Hnd; cbn [remove_topic_loop].
  { rewrite filter_nil. by destruct (decide _) as [Hin|_]; [apply elem_of_nil in Hin|]. }
  cbn in Hnd. apply NoDup_cons in Hnd as [Hx Hnd]. rewrite IH by done. cbn [fmap list_fmap].
  destruct (decide (topic_filter x = f)) as [<-|Hne].
  - rewrite strcmp_eq_refl, filter_cons_False by naive_solver.
    destruct (decide (topic_filter x ∈ (topic_filter <$> c))) as [|_]; [done|].
    destruct (decide _) as [|Hn]; [done|]. exfalso. apply Hn, elem_of_cons. by left.
  - rewrite strcmp_eq_ne, filter_cons_True by done. f_equal.
    destruct (decide (f ∈ (topic_filter <$> c))) as [Hin|Hin], (decide _) as [Hin'|Hin'];
      try done; exfalso; rewrite elem_of_cons in Hin'; naive_solver.
Qed.

Lemma view_filter c f : NoDup (topic_filter <$> c) ->
  view (filter (fun s => topic_filter s <> f) c) = delete f (view c).
Proof.
  induction c as [|x c IH]; intros Hnd; [by rewrite filter_nil|].
  cbn in Hnd. apply NoDup_cons in Hnd as [Hx Hnd].
  destruct (decide (topic_filter x = f)) as [<-|Hne].
  - rewrite filter_cons_False by naive_solver. rewrite IH, view_cons, delete_insert_eq by done.
    done.
  - rewrite filter_cons_True by done. rewrite !view_cons, IH by done. by rewrite delete_insert_ne.
Qed.

Lemma filter_filters (c : rrr_mqtt_subscription_collection) f : topic_filter <$> filter (fun s => topic_filter s <> f) c =
  filter (fun g => g <> f) (topic_filter <$> c).
Proof.
  induction c as [|x c IH]; [done|]. cbn [fmap list_fmap].
  destruct (decide (topic_filter x = f)) as [E|E].
  - rewrite !filter_cons_False by naive_solver. done.
  - rewrite !filter_cons_True by done. cbn. by rewrite IH.
Qed.

Lemma collection_ok_filter c f : collection_ok c ->
  collection_ok (filter (fun s => topic_filter s <> f) c).
Proof.
  intros (Hall & Hnd & Hlen). split_and!.
  - apply Forall_forall. intros s Hs. rewrite Forall_forall in Hall. apply Hall.
    by apply list_elem_of_filter in Hs as [_ ?].
  - rewrite filter_filters. by apply NoDup_filter.
  - pose proof (length_filter (fun s => topic_filter s <> f) c). lia.
Qed.

Lemma remove_topic_spec c f : collection_ok c ->
  exists c', rrr_mqtt_subscription_collection_remove_topic c f =
    Ret (0, if decide (f ∈ (topic_filter <$> c)) then 1 else 0, c') /\
    collection_ok c' /\ view c' = delete f (view c).
Proof.
  intros Hc. pose proof Hc as (_ & Hnd & _). eexists.
  unfold rrr_mqtt_subscription_collection_remove_topic. rewrite remove_topic_loop_spec by done.
  split; [by destruct (decide _)|]. split; [by apply collection_ok_filter|by apply view_filter].
Qed.

Lemma inc_count n : 0 <= n < 2 ^ 32 - 1 -> rrr_length_inc_bug n = Ret (n + 1).
Proof.
  intros Hn. unfold rrr_length_inc_bug. rewrite wrap_small, (proj2 (Z.eqb_neq _ _)) by lia. done.
Qed.

(** The subscriptions that are left after an UNSUBSCRIBE packet. *)
Fixpoint unsubscribed (m : gmap (list Z) rrr_mqtt_subscription) (l : rrr_mqtt_subscription_collection)
  : gmap (list Z) rrr_mqtt_subscription :=
  match l with
  | [] => m
  | s :: l => unsubscribed (if qos_or_reason_v5 s =? 0 then delete (topic_filter s) m else m) l
  end.

(** The reasons reported: 0 for a filter that was subscribed to, 0x11 for one
    that was not; an entry that has a reason already keeps it. *)
Fixpoint unsubscribe_reasons (m : gmap (list Z) rrr_mqtt_subscription)
    (l : rrr_mqtt_subscription_collection) : list Z :=
  match l with
  | [] => []
  | s :: l =>
    if qos_or_reason_v5 s =? 0 then
      (match m !! topic_filter s with Some _ => 0 | None => 0x11 end) :: unsubscribe_reasons (delete (topic_filter s) m) l
    else qos_or_reason_v5 s :: unsubscribe_reasons m l
  end.

(** Removing the filters of an UNSUBSCRIBE packet deletes exactly the
    subscriptions with these filters, reports for every entry whether there was
    one, and counts those that were removed; entries with an error are skipped.
    It never finds a filter twice and never aborts. *)
Lemma rrr_mqtt_subscription_collection_remove_topics_correct target source :
  collection_ok target -> Z.of_nat (length source) <= RRR_MQTT_SUBSCRIPTION_COLLECTION_MAX ->
  exists target' source' count,
    rrr_mqtt_subscription_collection_remove_topics_matching_and_set_reason target source =
      Ret (0, target', source', count) /\
    collection_ok target' /\ view target' = unsubscribed (view target) source /\
    topic_filter <$> source' = topic_filter <$> source /\
    qos_or_reason_v5 <$> source' = unsubscribe_reasons (view target) source /\
    count + Z.of_nat (size (view target')) = Z.of_nat (size (view target)).
Proof.
  unfold rrr_mqtt_subscription_collection_remove_topics_matching_and_set_reason,
    RRR_MQTT_SUBSCRIPTION_COLLECTION_MAX.
  intros Hc Hlen. cut (forall n, 0 <= n -> n + Z.of_nat (length source) < 2 ^ 32 - 1 ->
    exists target' source' count, remove_topics_matching_loop target source n =
      Ret (0, target', source', count) /\
    collection_ok target' /\ view target' = unsubscribed (view target) source /\
    topic_filter <$> source' = topic_filter <$> source /\
    qos_or_reason_v5 <$> source' = unsubscribe_reasons (view target) source /\
    count + Z.of_nat (size (view target')) = n + Z.of_nat (size (view target))).
  { intros Hcut. apply (Hcut 0); lia. }
  clear Hlen. revert target Hc. induction source as [|s source IH]; intros target Hc n Hn Hlen.
  { exists target, [], n. done. }
  cbn [remove_topics_matching_loop unsubscribed unsubscribe_reasons]. simpl in Hlen.
  unfold RRR_MQTT_P_5_REASON_OK. destruct (qos_or_reason_v5 s =? 0) eqn:Eq; cbn [negb].
  - destruct (remove_topic_spec target (topic_filter s) Hc) as (t1 & -> & Hc1 & Hv1).
    cbn [mbind outcome_bind].
    destruct (decide (topic_filter s ∈ (topic_filter <$> target))) as [Hin|Hin].
    + cbn [Z.eqb]. rewrite inc_count by lia. cbn [mbind outcome_bind].
      destruct (IH t1 Hc1 (n + 1)) as (t' & s' & cnt & -> & H1 & H2 & H3 & H4 & H5); [lia..|].
      cbn. eexists _, _, _. split; [done|]. rewrite Hv1 in *.
      apply view_lookup_Some in Hin. destruct Hin as [x Hx].
      split_and!; [done|done|cbn; by f_equal|cbn; by rewrite H4, Hx|].
      rewrite H5. assert (is_Some (view target !! topic_filter s)) as Hs by (by exists x).
      pose proof (map_size_delete (topic_filter s) (view target)) as Hsz. rewrite Hx in Hsz.
      assert (size (view target) <> 0%nat).
      { intros E0. apply map_size_empty_inv in E0. by rewrite E0, lookup_empty in Hx. }
      lia.
    + cbn [Z.eqb mbind outcome_bind].
      destruct (IH t1 Hc1 n) as (t' & s' & cnt & -> & H1 & H2 & H3 & H4 & H5); [lia..|].
      cbn. eexists _, _, _. split; [done|]. rewrite Hv1 in *.
      apply view_lookup_None in Hin. rewrite delete_id in * by done.
      split_and!; [done|done|cbn; by f_equal|cbn; by rewrite H4, Hin|done].
  - destruct (IH target Hc n) as (t' & s' & cnt & -> & H1 & H2 & H3 & H4 & H5); [lia..|].
    cbn. eexists _, _, _. split; [done|]. split_and!; [done|done|cbn; by f_equal|cbn; by f_equal|done].
Qed.

(** ** Matching *)

Definition name_ok (t : list Z) : Prop :=
  bytes_ok t /\ (0 ∉ t) /\ rrr_mqtt_topic_validate_name (Some t) = Ret 0.

Lemma match_publish_one s t : sub_ok s -> name_ok t ->
  rrr_mqtt_subscription_match_publish s t (levels t) =
    match_result (filter_matches (levels (topic_filter s)) (levels t)).
Proof.
  intros ((Hb & Hz & Hne & Hv) & Htok & _) (_ & _ & Hname).
  unfold rrr_mqtt_subscription_match_publish. rewrite Hname, Htok. cbn.
  apply match_tokens_spec; [by apply filter_validate_spec|]. unfold levels.
  by destruct (Parse.Parse.split_on_cons SLASH (topic_filter s)) as (h & tl & ->).
Qed.

(** C36. A PUBLISH packet matches a collection exactly when the filter of one of
    its subscriptions matches the topic. *)
Theorem rrr_mqtt_subscription_collection_match_publish_correct c t :
  collection_ok c -> name_ok t ->
  rrr_mqtt_subscription_collection_match_publish c t (levels t) =
    match_result (existsb (fun s => filter_matches (levels (topic_filter s)) (levels t)) c).
Proof.
  intros (Hall & _) Ht. unfold rrr_mqtt_subscription_collection_match_publish.
  induction Hall as [|s c Hs _ IH]; [done|]. cbn [match_publish_loop existsb].
  rewrite match_publish_one by done. cbn.
  destruct (filter_matches (levels (topic_filter s)) (levels t)); [done|]. cbn. apply IH.
Qed.

(** The callback is called once for every matching subscription, in order, until
    it fails. *)
Lemma match_publish_with_callback_spec {St} (cb : rrr_mqtt_subscription -> St -> outcome (Z * St))
    (step : rrr_mqtt_subscription -> St -> St) c t st n :
  Forall sub_ok c -> name_ok t -> (forall s st, cb s st = Ret (0, step s st)) ->
  0 <= n -> n + Z.of_nat (length c) < 2 ^ 32 - 1 ->
  let m := filter (fun s => filter_matches (levels (topic_filter s)) (levels t) = true) c in
  match_publish_with_callback_loop cb t (levels t) c 0 n st =
    Ret (0, n + Z.of_nat (length m), foldl (fun st s => step s st) st m).
Proof.
  intros Hall Ht Hcb. revert n st. induction Hall as [|s c Hs _ IH]; intros n st Hn Hlen m.
  { cbn. f_equal. f_equal. f_equal. lia. }
  subst m. cbn [match_publish_with_callback_loop]. simpl in Hlen.
  rewrite match_publish_one by done.
  destruct (filter_matches (levels (topic_filter s)) (levels t)) eqn:E.
  - rewrite filter_cons_True by done. cbn. rewrite Hcb. cbn [mbind outcome_bind].
    rewrite inc_count by lia. cbn. rewrite IH by lia. f_equal. f_equal. f_equal. lia.
  - rewrite filter_cons_False by (by rewrite E). cbn. apply IH; lia.
Qed.

(** * Witnesses *)

(** Subscriptions to a and to b. *)
Definition sub_a : rrr_mqtt_subscription := mk_sub [97] [[97]] 0 0 0 1.
Definition sub_b : rrr_mqtt_subscription := mk_sub [98] [[98]] 1 0 0 2.

Lemma sub_a_ok : sub_ok sub_a.
Proof.
  unfold sub_ok, filter_ok, sub_a. cbn. split_and!; try done.
  - repeat constructor; unfold byte_ok; lia.
  - by apply (bool_decide_unpack _).
Qed.

Lemma sub_b_ok : sub_ok sub_b.
Proof.
  unfold sub_ok, filter_ok, sub_b. cbn. split_and!; try done.
  - repeat constructor; unfold byte_ok; lia.
  - by apply (bool_decide_unpack _).
Qed.

Lemma collection_a_ok : collection_ok [sub_a].
Proof.
  split_and!; [|by apply (bool_decide_unpack _)|by vm_compute]. constructor; [apply sub_a_ok|constructor].
Qed.

Lemma rrr_mqtt_subscription_collection_add_unique_correct_witness :
  exists ret c' rest,
    rrr_mqtt_subscription_collection_add_unique [sub_a] sub_b true = Ret (ret, c', rest) /\
    collection_ok c'.
Proof.
  destruct (rrr_mqtt_subscription_collection_add_unique_correct [sub_a] sub_b true
    collection_a_ok sub_b_ok) as (ret & c' & rest & H1 & H2 & _).
  exists ret, c', rest. split; [exact H1|exact H2].
Defined.

Lemma rrr_mqtt_subscription_collection_match_publish_correct_witness :
  rrr_mqtt_subscription_collection_match_publish [sub_a] [97] (levels [97]) =
    Ret RRR_MQTT_TOKEN_MATCH.
Proof.
  rewrite (rrr_mqtt_subscription_collection_match_publish_correct [sub_a] [97] collection_a_ok).
  - vm_compute. reflexivity.
  - split_and!; [repeat constructor; unfold byte_ok; lia|by apply (bool_decide_unpack _)|].
    vm_compute. reflexivity.
Defined.

(** * Where the code does not do what it should *)

(** A subscription with the No Local option ends the program, although the
    option is part of MQTT 5 and is accepted from the packet. *)
Lemma subscription_new_no_local :
  rrr_mqtt_subscription_new (fun _ => true) (fun _ => true) [97] 0 0 1 0 = Bug.
Proof. vm_compute. reflexivity. Qed.

(** When there is no memory for the filter it is copied to the NULL pointer. *)
Lemma subscription_new_no_memory :
  rrr_mqtt_subscription_new (fun n => negb (n =? 2)) (fun _ => true) [97] 0 0 0 0 = Oob.
Proof. vm_compute. reflexivity. Qed.

(** A subscription that a full collection refuses is reported as new, and the
    caller is told that all is well. *)
Lemma append_refused_reported c : collection_ok c ->
  Z.of_nat (length c) = RRR_MQTT_SUBSCRIPTION_COLLECTION_MAX ->
  topic_filter sub_a ∉ (topic_filter <$> c) ->
  rrr_mqtt_subscription_collection_append_unique_copy_from_collection (fun _ => true) (fun _ => true)
    (Some (fun s reported => Ret (0, s :: reported))) c [sub_a] false [] = Ret (0, c, [sub_a]).
Proof.
  intros (_ & Hnd & _) Hlen Hin. unfold rrr_mqtt_subscription_collection_append_unique_copy_from_collection.
  cbn [append_unique_copy_loop]. unfold rrr_mqtt_subscription_clone.
  rewrite subscription_new_spec by (apply sub_a_ok || (cbn; lia)).
  cbn [negb andb Z.ltb Z.compare qos_or_reason_v5 sub_a].
  change (allocs (fun _ => true) 0 (length (levels (topic_filter sub_a)))) with true. cbv iota.
  rewrite bind_ret. cbn [Z.eqb negb].
  change (mk_sub _ _ _ _ _ _) with sub_a. rewrite add_unique_cases by done.
  destruct (decide _) as [|_]; [done|]. rewrite Hlen, Z.leb_refl. reflexivity.
Qed.

End MqttSubscription.
