(* ===== verification/MqttPacket.v ===== *)
(** MQTT packets (src/src/lib/mqtt/mqtt_packet.c, mqtt_packet.h): protocol
    versions, the table of packet types, reason codes of MQTT 3.1 and 5, the
    packet structures, and the creation and cloning of packets.

    The structures, which share their first fields, are one record with a body
    for each type; fields that only sessions use are left out, and the count of
    users, since a packet here has one.  A [char *] is the memory behind it up to
    its end, with the terminator, and [None] when it is NULL. *)
From S2P Require Import Prelude Types Utf8 Parse MqttTopic MsgHead MqttPayloadBuf MqttProperty.
From S2P Require Import MqttSubscription.
From stdpp Require Import strings.
Open Scope Z_scope.
Open Scope c_scope.

Module MqttPacket.
Import Types Parse MqttTopic MsgHead MqttPayloadBuf MqttProperty MqttSubscription.

(** ** C strings *)

(** The bytes up to the terminator, which must be inside the object. *)
Definition c_string (obj : list Z) : outcome (list Z) :=
  if bool_decide (0 ∈ obj) then Ret (cstr obj) else Oob.

(** ** Protocol versions *)

Definition RRR_MQTT_VERSION_3_1 : Z := 3.
Definition RRR_MQTT_VERSION_3_1_1 : Z := 4.
Definition RRR_MQTT_VERSION_5 : Z := 5.

(** [None] is the NULL name that ends the table. *)
Record rrr_mqtt_p_protocol_version := mk_version { v_id : Z; v_name : option (list Z) }.

(** "MQISDP" and "MQTT" *)
Definition name_mqisdp : list Z := [77; 81; 73; 83; 68; 80].
Definition name_mqtt : list Z := [77; 81; 84; 84].

Definition protocol_versions : list rrr_mqtt_p_protocol_version :=
  [mk_version RRR_MQTT_VERSION_3_1 (Some name_mqisdp);
   mk_version RRR_MQTT_VERSION_3_1_1 (Some name_mqtt);
   mk_version RRR_MQTT_VERSION_5 (Some name_mqtt);
   mk_version 0 None].

Fixpoint protocol_version_loop (l : list rrr_mqtt_p_protocol_version) (id : Z)
  : option rrr_mqtt_p_protocol_version :=
  match l with
  | [] => None
  | v :: l =>
    match v_name v with
    | None => None
    | Some _ => if v_id v =? id then Some v else protocol_version_loop l id
    end
  end.

Definition rrr_mqtt_p_get_protocol_version (id : Z) : option rrr_mqtt_p_protocol_version :=
  protocol_version_loop protocol_versions id.

(** ** Packet types *)

Definition RRR_MQTT_P_TYPE_CONNECT : Z := 1.
Definition RRR_MQTT_P_TYPE_CONNACK : Z := 2.
Definition RRR_MQTT_P_TYPE_PUBLISH : Z := 3.
Definition RRR_MQTT_P_TYPE_PUBACK : Z := 4.
Definition RRR_MQTT_P_TYPE_PUBREC : Z := 5.
Definition RRR_MQTT_P_TYPE_PUBREL : Z := 6.
Definition RRR_MQTT_P_TYPE_PUBCOMP : Z := 7.
Definition RRR_MQTT_P_TYPE_SUBSCRIBE : Z := 8.
Definition RRR_MQTT_P_TYPE_SUBACK : Z := 9.
Definition RRR_MQTT_P_TYPE_UNSUBSCRIBE : Z := 10.
Definition RRR_MQTT_P_TYPE_UNSUBACK : Z := 11.
Definition RRR_MQTT_P_TYPE_PINGREQ : Z := 12.
Definition RRR_MQTT_P_TYPE_PINGRESP : Z := 13.
Definition RRR_MQTT_P_TYPE_DISCONNECT : Z := 14.
Definition RRR_MQTT_P_TYPE_AUTH : Z := 15.

(** The functions of a type are chosen by its number where they are called. *)
Record rrr_mqtt_p_type_properties := mk_type {
  type_id : Z;
  is_ack : Z;
  t_name : string;
  has_reserved_flags : Z;
  t_flags : Z
}.

Definition type_properties_table : list rrr_mqtt_p_type_properties :=
  [mk_type 0 0 "RESERVED" 1 0;
   mk_type 1 0 "CONNECT" 1 0;
   mk_type 2 1 "CONNACK" 1 0;
   mk_type 3 0 "PUBLISH" 0 0;
   mk_type 4 1 "PUBACK" 1 0;
   mk_type 5 1 "PUBREC" 1 0;
   mk_type 6 1 "PUBREL" 1 2;
   mk_type 7 1 "PUBCOMP" 1 0;
   mk_type 8 0 "SUBSCRIBE" 1 2;
   mk_type 9 1 "SUBACK" 1 0;
   mk_type 10 0 "UNSUBSCRIBE" 1 2;
   mk_type 11 1 "UNSUBACK" 1 0;
   mk_type 12 0 "PINGREQ" 1 0;
   mk_type 13 1 "PINGRESP" 1 0;
   mk_type 14 0 "DISCONNECT" 1 0;
   mk_type 15 0 "AUTH" 1 0].

Definition rrr_mqtt_p_get_type_properties (id : Z) : outcome rrr_mqtt_p_type_properties :=
  if (15 <? id) || (id =? 0) then Bug
  else match type_properties_table !! Z.to_nat id with Some t => Ret t | None => Oob end.

(** ** Reasons *)

Definition RRR_MQTT_P_31_REASON_OK : Z := 0.
Definition RRR_MQTT_P_31_REASON_BAD_PROTOCOL_VERSION : Z := 1.
Definition RRR_MQTT_P_31_REASON_CLIENT_ID_REJECTED : Z := 2.
Definition RRR_MQTT_P_31_REASON_SERVER_UNAVAILABLE : Z := 3.
Definition RRR_MQTT_P_31_REASON_BAD_CREDENTIALS : Z := 4.
Definition RRR_MQTT_P_31_REASON_NOT_AUTHORIZED : Z := 5.
Definition RRR_MQTT_P_31_REASON_MAX : Z := 5.
Definition RRR_MQTT_P_31_REASON_NO_CONNACK : Z := 254.
Definition RRR_MQTT_P_31_REASON_NA : Z := 255.

Record rrr_mqtt_p_reason := mk_reason {
  v5_reason : Z;
  v31_reason : Z;
  for_connack : Z;
  for_disconnect : Z;
  for_puback_pubrec : Z;
  for_pubrel_pubcomp : Z;
  for_suback : Z;
  for_unsuback : Z;
  description : option string
}.

Definition rrr_mqtt_p_reason_map : list rrr_mqtt_p_reason :=
  [mk_reason 0x00 RRR_MQTT_P_31_REASON_OK 1 1 1 1 1 1 (Some "Success");
   mk_reason 0x84 RRR_MQTT_P_31_REASON_BAD_PROTOCOL_VERSION 1 0 0 0 0 0 (Some "Refused/unsupported protocol version");
   mk_reason 0x85 RRR_MQTT_P_31_REASON_CLIENT_ID_REJECTED 1 0 0 0 0 0 (Some "Client identifier not valid/rejected");
   mk_reason 0x86 RRR_MQTT_P_31_REASON_BAD_CREDENTIALS 1 0 0 0 0 0 (Some "Bad user name or password");
   mk_reason 0x87 RRR_MQTT_P_31_REASON_NOT_AUTHORIZED 1 0 1 0 1 1 (Some "Not authorized");
   mk_reason 0x88 RRR_MQTT_P_31_REASON_SERVER_UNAVAILABLE 1 0 0 0 0 0 (Some "Server unavailable");
   mk_reason 0x01 RRR_MQTT_P_31_REASON_OK 0 0 0 0 1 0 (Some "Success with QoS 1");
   mk_reason 0x02 RRR_MQTT_P_31_REASON_OK 0 0 0 0 1 0 (Some "Success with QoS 2");
   mk_reason 0x04 RRR_MQTT_P_31_REASON_NA 0 1 0 0 0 0 (Some "Disconnect with Will Message");
   mk_reason 0x10 RRR_MQTT_P_31_REASON_NA 0 0 1 0 0 0 (Some "No matching subscribers");
   mk_reason 0x11 RRR_MQTT_P_31_REASON_NA 0 0 0 0 0 1 (Some "No subscriptions existed");
   mk_reason 0x80 RRR_MQTT_P_31_REASON_NO_CONNACK 1 1 1 0 1 1 (Some "Unspecified error");
   mk_reason 0x81 RRR_MQTT_P_31_REASON_NO_CONNACK 1 1 0 0 0 0 (Some "Malformed packet");
   mk_reason 0x82 RRR_MQTT_P_31_REASON_NO_CONNACK 1 1 0 0 0 0 (Some "Protocol error");
   mk_reason 0x83 RRR_MQTT_P_31_REASON_NO_CONNACK 1 1 1 0 1 1 (Some "Implementation specific error");
   mk_reason 0x89 RRR_MQTT_P_31_REASON_SERVER_UNAVAILABLE 1 1 0 0 0 0 (Some "Server busy");
   mk_reason 0x8A RRR_MQTT_P_31_REASON_NO_CONNACK 1 0 0 0 0 0 (Some "Banned");
   mk_reason 0x8B RRR_MQTT_P_31_REASON_NA 0 1 0 0 0 0 (Some "Server shutting down");
   mk_reason 0x8C RRR_MQTT_P_31_REASON_NO_CONNACK 1 0 0 0 0 0 (Some "Bad authentication method");
   mk_reason 0x8D RRR_MQTT_P_31_REASON_NA 0 1 0 0 0 0 (Some "Keep alive timeout");
   mk_reason 0x8E RRR_MQTT_P_31_REASON_NA 0 1 0 0 0 0 (Some "Session taken over");
   mk_reason 0x8F RRR_MQTT_P_31_REASON_NA 0 1 0 0 1 1 (Some "Topic filter invalid");
   mk_reason 0x90 RRR_MQTT_P_31_REASON_NO_CONNACK 1 0 1 0 0 0 (Some "Topic Name invalid");
   mk_reason 0x91 RRR_MQTT_P_31_REASON_NA 0 0 1 0 1 1 (Some "Packet identifier in use");
   mk_reason 0x92 RRR_MQTT_P_31_REASON_NA 0 0 1 1 0 0 (Some "Packet identifier not found");
   mk_reason 0x93 RRR_MQTT_P_31_REASON_NA 0 1 0 0 0 0 (Some "Receive maximum exceeded");
   mk_reason 0x94 RRR_MQTT_P_31_REASON_NA 0 1 0 0 0 0 (Some "Topic alias invalid");
   mk_reason 0x95 RRR_MQTT_P_31_REASON_NO_CONNACK 1 0 0 0 0 0 (Some "Packet too large");
   mk_reason 0x96 RRR_MQTT_P_31_REASON_NA 0 1 0 0 0 0 (Some "Messsage rate too large");
   mk_reason 0x97 RRR_MQTT_P_31_REASON_NO_CONNACK 1 0 1 0 1 0 (Some "Quota exceeded");
   mk_reason 0x98 RRR_MQTT_P_31_REASON_NA 0 1 0 0 0 0 (Some "Administrative action");
   mk_reason 0x99 RRR_MQTT_P_31_REASON_NO_CONNACK 1 0 1 0 0 0 (Some "Payload format invalid");
   mk_reason 0x9A RRR_MQTT_P_31_REASON_NO_CONNACK 1 0 0 0 0 0 (Some "Retain not supported");
   mk_reason 0x9B RRR_MQTT_P_31_REASON_NO_CONNACK 1 0 0 0 0 0 (Some "QoS not supported");
   mk_reason 0x9C RRR_MQTT_P_31_REASON_SERVER_UNAVAILABLE 1 0 0 0 0 0 (Some "Use another server");
   mk_reason 0x9D RRR_MQTT_P_31_REASON_SERVER_UNAVAILABLE 1 0 0 0 0 0 (Some "Server moved");
   mk_reason 0x9E RRR_MQTT_P_31_REASON_NA 0 0 0 0 1 0 (Some "Shared subscriptions not supported");
   mk_reason 0x9F RRR_MQTT_P_31_REASON_SERVER_UNAVAILABLE 1 0 0 0 0 0 (Some "Connection rate exceeded");
   mk_reason 0xA0 RRR_MQTT_P_31_REASON_NA 0 1 0 0 0 0 (Some "Maximum connect time");
   mk_reason 0xA1 RRR_MQTT_P_31_REASON_NA 0 1 0 0 1 0 (Some "Subscription Identifiers not supported");
   mk_reason 0xA2 RRR_MQTT_P_31_REASON_NA 0 1 0 0 1 0 (Some "Wildcard Subscriptions not supported");
   mk_reason 0 0 0 0 0 0 0 0 None].

(** The loops look at the first entry twice: [test] is the current entry, [l]
    the entries from the index on. *)
Fixpoint reason_get_v5_loop (test : rrr_mqtt_p_reason) (l : list rrr_mqtt_p_reason) (reason_v5 : Z)
  : option rrr_mqtt_p_reason :=
  match description test with
  | None => None
  | Some _ =>
    if v5_reason test =? reason_v5 then Some test
    else match l with [] => None | t :: l => reason_get_v5_loop t l reason_v5 end
  end.

Definition rrr_mqtt_p_reason_get_v5 (reason_v5 : Z) : option rrr_mqtt_p_reason :=
  match rrr_mqtt_p_reason_map with
  | [] => None
  | t :: _ => reason_get_v5_loop t rrr_mqtt_p_reason_map reason_v5
  end.

Fixpoint reason_get_v31_loop (test : rrr_mqtt_p_reason) (l : list rrr_mqtt_p_reason) (reason_v31 : Z)
  : option rrr_mqtt_p_reason :=
  if v31_reason test <=? RRR_MQTT_P_31_REASON_MAX then
    if v31_reason test =? reason_v31 then Some test
    else match l with [] => None | t :: l => reason_get_v31_loop t l reason_v31 end
  else None.

Definition rrr_mqtt_p_reason_get_v31 (reason_v31 : Z) : option rrr_mqtt_p_reason :=
  match rrr_mqtt_p_reason_map with
  | [] => None
  | t :: _ => reason_get_v31_loop t rrr_mqtt_p_reason_map reason_v31
  end.

Fixpoint translate_loop (key value : rrr_mqtt_p_reason -> Z) (l : list rrr_mqtt_p_reason) (reason : Z)
  : outcome Z :=
  match l with
  | [] => Oob
  | test :: l =>
    match description test with
    | None => Bug
    | Some _ => if key test =? reason then Ret (value test) else translate_loop key value l reason
    end
  end.

Definition rrr_mqtt_p_translate_reason_from_v5 (reason : Z) : outcome Z :=
  translate_loop v5_reason v31_reason rrr_mqtt_p_reason_map reason.

Definition rrr_mqtt_p_translate_reason_from_v31 (reason : Z) : outcome Z :=
  if RRR_MQTT_P_31_REASON_MAX <? reason then Bug
  else translate_loop v31_reason v5_reason rrr_mqtt_p_reason_map reason.

(** ** Packets *)

Definition no_properties : rrr_mqtt_property_collection := mk_collection [] 0.

Record rrr_mqtt_p_connect := mk_connect {
  connect_flags : Z;
  keep_alive : Z;
  client_identifier : option (list Z);
  connect_properties : rrr_mqtt_property_collection;
  will_properties : rrr_mqtt_property_collection;
  will_topic : option (list Z);
  will_message : option (list Z);
  username : option (list Z);
  password : option (list Z)
}.

Definition RRR_MQTT_P_CONNECT_GET_FLAG_RESERVED (p : rrr_mqtt_p_connect) : Z :=
  (1 <<< 0) &&& connect_flags p.
Definition RRR_MQTT_P_CONNECT_GET_FLAG_WILL (p : rrr_mqtt_p_connect) : Z :=
  ((1 <<< 2) &&& connect_flags p) >>> 2.
Definition RRR_MQTT_P_CONNECT_GET_FLAG_WILL_QOS (p : rrr_mqtt_p_connect) : Z :=
  (((1 <<< 4) ||| (1 <<< 3)) &&& connect_flags p) >>> 3.
Definition RRR_MQTT_P_CONNECT_GET_FLAG_WILL_RETAIN (p : rrr_mqtt_p_connect) : Z :=
  ((1 <<< 5) &&& connect_flags p) >>> 5.
Definition RRR_MQTT_P_CONNECT_GET_FLAG_PASSWORD (p : rrr_mqtt_p_connect) : Z :=
  ((1 <<< 6) &&& connect_flags p) >>> 6.
Definition RRR_MQTT_P_CONNECT_GET_FLAG_USER_NAME (p : rrr_mqtt_p_connect) : Z :=
  ((1 <<< 7) &&& connect_flags p) >>> 7.

Record rrr_mqtt_p_connack := mk_connack {
  ack_flags : Z;
  session_present : Z;
  connack_properties : rrr_mqtt_property_collection
}.

Definition RRR_MQTT_P_CONNACK_GET_FLAG_SESSION_PRESENT (p : rrr_mqtt_p_connack) : Z :=
  (1 <<< 0) &&& ack_flags p.
Definition RRR_MQTT_P_CONNACK_GET_FLAG_RESERVED (p : rrr_mqtt_p_connack) : Z :=
  (0x7f <<< 1) &&& ack_flags p.

(** The pointers into [publish_properties] are copies of what they point to. *)
Record rrr_mqtt_p_publish := mk_publish {
  topic : option (list Z);
  token_tree_ : list (list Z);
  publish_properties : rrr_mqtt_property_collection;
  create_time : Z;
  message_expiry_interval : Z;
  payload_format_indicator : Z;
  topic_alias : Z;
  response_topic : option rrr_mqtt_property;
  correlation_data : option rrr_mqtt_property;
  content_type : option rrr_mqtt_property
}.

Record rrr_mqtt_p_sub_usub := mk_sub_usub {
  data_tmp : option (list Z);
  sub_properties : rrr_mqtt_property_collection;
  subscriptions : rrr_mqtt_subscription_collection
}.

(** [acknowledgements] is the offset in the buffer of the session that parses. *)
Record rrr_mqtt_p_suback_unsuback := mk_suback {
  suback_properties : rrr_mqtt_property_collection;
  subscriptions_ : rrr_mqtt_subscription_collection;
  dummy : Z;
  acknowledgements : option Z;
  acknowledgements_size : Z
}.

Inductive packet_body :=
| Connect (p : rrr_mqtt_p_connect)
| Connack (p : rrr_mqtt_p_connack)
| Publish (p : rrr_mqtt_p_publish)
| Def_puback (properties : rrr_mqtt_property_collection)
| Sub_usub (p : rrr_mqtt_p_sub_usub)
| Suback_unsuback (p : rrr_mqtt_p_suback_unsuback)
| Disconnect (properties : rrr_mqtt_property_collection)
| Plain.

Record rrr_mqtt_p := mk_packet {
  type_properties : rrr_mqtt_p_type_properties;
  protocol_version : rrr_mqtt_p_protocol_version;
  type_flags : Z;
  is_outbound : Z;
  packet_identifier : Z;
  reason_v5 : Z;
  reason : option rrr_mqtt_p_reason;
  received_size : Z;
  payload : option (list Z);
  body : packet_body
}.

Definition RRR_MQTT_P_GET_TYPE (p : rrr_mqtt_p) : Z := type_id (type_properties p).
Definition RRR_MQTT_P_IS_V5 (p : rrr_mqtt_p) : bool := v_id (protocol_version p) =? 5.
Definition RRR_MQTT_P_GET_TYPE_AND_FLAGS (p : rrr_mqtt_p) : Z :=
  (RRR_MQTT_P_GET_TYPE p <<< 4) ||| type_flags p.
Definition RRR_MQTT_P_PUBLISH_GET_FLAG_RETAIN (p : rrr_mqtt_p) : Z := type_flags p &&& 1.
Definition RRR_MQTT_P_PUBLISH_GET_FLAG_QOS (p : rrr_mqtt_p) : Z :=
  (type_flags p &&& (3 <<< 1)) >>> 1.
Definition RRR_MQTT_P_PUBLISH_GET_FLAG_DUP (p : rrr_mqtt_p) : Z :=
  (type_flags p &&& (1 <<< 3)) >>> 3.

(** A packet with a new [type_flags], and so on. *)
Definition set_type_flags (p : rrr_mqtt_p) (v : Z) : rrr_mqtt_p :=
  mk_packet (type_properties p) (protocol_version p) v (is_outbound p) (packet_identifier p)
    (reason_v5 p) (reason p) (received_size p) (payload p) (body p).
Definition set_packet_identifier (p : rrr_mqtt_p) (v : Z) : rrr_mqtt_p :=
  mk_packet (type_properties p) (protocol_version p) (type_flags p) (is_outbound p) v
    (reason_v5 p) (reason p) (received_size p) (payload p) (body p).
Definition set_reason_v5 (p : rrr_mqtt_p) (v : Z) (r : option rrr_mqtt_p_reason) : rrr_mqtt_p :=
  mk_packet (type_properties p) (protocol_version p) (type_flags p) (is_outbound p)
    (packet_identifier p) v r (received_size p) (payload p) (body p).
Definition set_received_size (p : rrr_mqtt_p) (v : Z) : rrr_mqtt_p :=
  mk_packet (type_properties p) (protocol_version p) (type_flags p) (is_outbound p)
    (packet_identifier p) (reason_v5 p) (reason p) v (payload p) (body p).
Definition set_payload (p : rrr_mqtt_p) (v : option (list Z)) : rrr_mqtt_p :=
  mk_packet (type_properties p) (protocol_version p) (type_flags p) (is_outbound p)
    (packet_identifier p) (reason_v5 p) (reason p) (received_size p) v (body p).
Definition set_body (p : rrr_mqtt_p) (b : packet_body) : rrr_mqtt_p :=
  mk_packet (type_properties p) (protocol_version p) (type_flags p) (is_outbound p)
    (packet_identifier p) (reason_v5 p) (reason p) (received_size p) (payload p) b.
Definition set_is_outbound (p : rrr_mqtt_p) (v : Z) : rrr_mqtt_p :=
  mk_packet (type_properties p) (protocol_version p) (type_flags p) v
    (packet_identifier p) (reason_v5 p) (reason p) (received_size p) (payload p) (body p).

Definition RRR_MQTT_P_PUBLISH_SET_FLAG_DUP (p : rrr_mqtt_p) (new_dup : Z) : rrr_mqtt_p :=
  set_type_flags p (u8 (((type_flags p &&& 1) ||| (((type_flags p &&& (3 <<< 1)) >>> 1) <<< 1)) |||
                        (new_dup <<< 3))).

(** The structure of a type with all its fields zero. *)
Definition zero_body (id : Z) : packet_body :=
  if id =? RRR_MQTT_P_TYPE_CONNECT then
    Connect (mk_connect 0 0 None no_properties no_properties None None None None)
  else if id =? RRR_MQTT_P_TYPE_CONNACK then Connack (mk_connack 0 0 no_properties)
  else if id =? RRR_MQTT_P_TYPE_PUBLISH then
    Publish (mk_publish None [] no_properties 0 0 0 0 None None None)
  else if (RRR_MQTT_P_TYPE_PUBACK <=? id) && (id <=? RRR_MQTT_P_TYPE_PUBCOMP) then
    Def_puback no_properties
  else if (id =? RRR_MQTT_P_TYPE_SUBSCRIBE) || (id =? RRR_MQTT_P_TYPE_UNSUBSCRIBE) then
    Sub_usub (mk_sub_usub None no_properties [])
  else if (id =? RRR_MQTT_P_TYPE_SUBACK) || (id =? RRR_MQTT_P_TYPE_UNSUBACK) then
    Suback_unsuback (mk_suback no_properties [] 0 None 0)
  else if id =? RRR_MQTT_P_TYPE_DISCONNECT then Disconnect no_properties
  else Plain.

(** [alloc_packet id] tells whether there is memory for a packet of the type;
    [now] is the time. *)
Section Allocate.
Context (alloc_ok : Z -> bool) (alloc_packet : Z -> bool) (now : Z).

Definition rrr_mqtt_p_allocate_raw (t : rrr_mqtt_p_type_properties) (v : rrr_mqtt_p_protocol_version)
  : option rrr_mqtt_p :=
  if negb (alloc_packet (type_id t)) then None
  else Some (mk_packet t v (if negb (has_reserved_flags t =? 0) then t_flags t else 0)
               0 0 0 None 0 None (zero_body (type_id t))).

Definition rrr_mqtt_p_allocate_publish (t : rrr_mqtt_p_type_properties)
    (v : rrr_mqtt_p_protocol_version) : outcome (option rrr_mqtt_p) :=
  match rrr_mqtt_p_allocate_raw t v with
  | None => Ret None
  | Some p =>
    match body p with
    | Publish b => Ret (Some (set_body p (Publish (mk_publish (topic b) (token_tree_ b)
        (publish_properties b) now (message_expiry_interval b) (payload_format_indicator b)
        (topic_alias b) (response_topic b) (correlation_data b) (content_type b)))))
    | _ => Oob
    end
  end.

(** A packet that is freed since there is no memory for its collection is
    returned all the same: the caller goes on with it. *)
Definition rrr_mqtt_p_allocate_sub_usub (t : rrr_mqtt_p_type_properties)
    (v : rrr_mqtt_p_protocol_version) : outcome (option rrr_mqtt_p) :=
  match rrr_mqtt_p_allocate_raw t v with
  | None => Ret None
  | Some p =>
    match rrr_mqtt_subscription_collection_new alloc_ok, body p with
    | (_, None), _ => Oob
    | (_, Some c), Sub_usub b =>
      Ret (Some (set_body p (Sub_usub (mk_sub_usub (data_tmp b) (sub_properties b) c))))
    | _, _ => Oob
    end
  end.

(** [type_properties->allocate] *)
Definition type_allocate (t : rrr_mqtt_p_type_properties) (v : rrr_mqtt_p_protocol_version)
  : outcome (option rrr_mqtt_p) :=
  if type_id t =? RRR_MQTT_P_TYPE_PUBLISH then rrr_mqtt_p_allocate_publish t v
  else if (type_id t =? RRR_MQTT_P_TYPE_SUBSCRIBE) || (type_id t =? RRR_MQTT_P_TYPE_UNSUBSCRIBE)
  then rrr_mqtt_p_allocate_sub_usub t v
  else Ret (rrr_mqtt_p_allocate_raw t v).

Definition rrr_mqtt_p_allocate (id : Z) (v : rrr_mqtt_p_protocol_version)
  : outcome (option rrr_mqtt_p) :=
  t ← rrr_mqtt_p_get_type_properties id; type_allocate t v.

Definition sizeof_rrr_mqtt_p_payload : Z := 40.

Context (alloc_token : nat -> bool).

(** [topic] is a C string, [None] when NULL; the status and [*result]. *)
Definition rrr_mqtt_p_new_publish (topic : option (list Z)) (data : list Z) (data_size : Z)
    (v : rrr_mqtt_p_protocol_version) : outcome (Z * option rrr_mqtt_p) :=
  publish ← rrr_mqtt_p_allocate RRR_MQTT_P_TYPE_PUBLISH v;
  match publish with
  | None => Ret (1, None)
  | Some p =>
    match topic with
    | None | Some [] => Bug
    | Some t =>
      '(ret, p) ←
        (if 0 <? data_size then
           if negb (alloc_ok sizeof_rrr_mqtt_p_payload) || negb (alloc_ok data_size) then Ret (1, p)
           else bs ← bytes_at 0 data_size data; Ret (0, set_payload p (Some bs))
         else Ret (0, p));
      if negb (ret =? 0) then Ret (1, None)
      else if negb (alloc_ok (Z.of_nat (length t) + 1)) then Ret (1, None)
      else
        let '(ret, tokens) := rrr_mqtt_topic_tokenize alloc_token t in
        if negb (ret =? 0) then Ret (1, None)
        else
          match body p with
          | Publish b => Ret (0, Some (set_body p (Publish (mk_publish (Some (t ++ [0])) tokens
              (publish_properties b) (create_time b) (message_expiry_interval b)
              (payload_format_indicator b) (topic_alias b) (response_topic b) (correlation_data b)
              (content_type b)))))
          | _ => Oob
          end
    end
  end.

(** The payload is shared with the source. *)
Definition rrr_mqtt_p_clone_publish_raw (publish : rrr_mqtt_p) : outcome (option rrr_mqtt_p) :=
  result ← rrr_mqtt_p_allocate_publish (type_properties publish) (protocol_version publish);
  match result, body publish with
  | None, _ => Ret None
  | Some r, Publish b =>
    match body r with
    | Publish rb =>
      '(ret, props) ← rrr_mqtt_property_collection_add_from_collection alloc_ok
                        (publish_properties rb) (publish_properties b);
      if negb (ret =? 0) then Ret None
      else
        '(ret, t) ←
          (match topic b with
           | None => Ret (0, None)
           | Some obj =>
             s ← c_string obj;
             if negb (alloc_ok (Z.of_nat (length s) + 1)) then Ret (1, None)
             else Ret (0, Some (s ++ [0]))
           end);
        if negb (ret =? 0) then Ret None
        else
          let '(ret, tokens) := rrr_mqtt_topic_tokens_clone alloc_token (token_tree_ b) in
          if negb (ret =? 0) then Ret None
          else
            Ret (Some (set_payload (set_body r (Publish (mk_publish t tokens props (create_time rb)
              (message_expiry_interval rb) (payload_format_indicator rb) (topic_alias rb)
              (response_topic rb) (correlation_data rb) (content_type rb)))) (payload publish)))
    | _ => Oob
    end
  | _, _ => Oob
  end.

Definition RRR_MQTT_PROPERTY_CONTENT_TYPE : Z := 0x03.
Definition RRR_MQTT_PROPERTY_RESPONSE_TOPIC : Z := 0x08.
Definition RRR_MQTT_PROPERTY_CORRELATION_DATA : Z := 0x09.

Definition rrr_mqtt_p_clone_publish (source : rrr_mqtt_p)
    (do_preserve_type_flags do_preserve_dup do_preserve_reason : bool)
  : outcome (option rrr_mqtt_p) :=
  if negb (RRR_MQTT_P_GET_TYPE source =? RRR_MQTT_P_TYPE_PUBLISH) then Bug
  else
    result ← rrr_mqtt_p_clone_publish_raw source;
    match result, body source with
    | None, _ => Ret None
    | Some r, Publish b =>
      match body r with
      | Publish rb =>
        let get id := rrr_mqtt_property_collection_get_property (publish_properties rb) id 0 in
        let r := set_is_outbound r (is_outbound source) in
        let r := set_body r (Publish (mk_publish (topic rb) (token_tree_ rb) (publish_properties rb)
          (create_time b) (message_expiry_interval b) (payload_format_indicator b) (topic_alias b)
          (get RRR_MQTT_PROPERTY_RESPONSE_TOPIC) (get RRR_MQTT_PROPERTY_CORRELATION_DATA)
          (get RRR_MQTT_PROPERTY_CONTENT_TYPE))) in
        let r := if do_preserve_type_flags then set_type_flags r (type_flags source) else r in
        let r := if do_preserve_dup
                 then RRR_MQTT_P_PUBLISH_SET_FLAG_DUP r (RRR_MQTT_P_PUBLISH_GET_FLAG_DUP source)
                 else r in
        let r := if do_preserve_reason then set_reason_v5 r (reason_v5 source) (reason r) else r in
        Ret (Some r)
      | _ => Oob
      end
    | _, _ => Oob
    end.

End Allocate.

(** * Reasons *)

(** The codes of MQTT 3.1 are translated to MQTT 5 and back without loss. *)
Lemma translate_reason_roundtrip r : 0 <= r <= RRR_MQTT_P_31_REASON_MAX ->
  exists r5, rrr_mqtt_p_translate_reason_from_v31 r = Ret r5 /\
    rrr_mqtt_p_translate_reason_from_v5 r5 = Ret r.
Proof.
  unfold RRR_MQTT_P_31_REASON_MAX. intros Hr.
  assert (r = 0 \/ r = 1 \/ r = 2 \/ r = 3 \/ r = 4 \/ r = 5) as H by lia.
  destruct H as [->|[->|[->|[->|[->| ->]]]]]; eexists; split; vm_compute; reflexivity.
Qed.

(** A reason that is found is the entry asked for. *)
Lemma reason_get_v5_sound r e : rrr_mqtt_p_reason_get_v5 r = Some e ->
  v5_reason e = r /\ e ∈ rrr_mqtt_p_reason_map.
Proof.
  assert (forall l test, reason_get_v5_loop test l r = Some e ->
    v5_reason e = r /\ (e = test \/ e ∈ l)) as Hloop.
  { induction l as [|t l IH]; intros test; cbn [reason_get_v5_loop].
    - destruct (description test); [|done]. destruct (Z.eqb_spec (v5_reason test) r); [|done].
      intros [= <-]. auto.
    - destruct (description test); [|done]. destruct (Z.eqb_spec (v5_reason test) r).
      + intros [= <-]. auto.
      + intros H. apply IH in H as [? [->|?]]; (split; [done|]); right; apply elem_of_cons; auto. }
  intros H. unfold rrr_mqtt_p_reason_get_v5 in H.
  destruct rrr_mqtt_p_reason_map as [|t l] eqn:E; [done|]. rewrite <- E in *.
  apply Hloop in H as [? [->|?]]; (split; [done|]); [|done]. rewrite E. apply elem_of_cons. by left.
Qed.

Lemma reason_get_v5_v5 r e : rrr_mqtt_p_reason_get_v5 r = Some e -> v5_reason e = r.
Proof. intros H. by apply reason_get_v5_sound in H as [? _]. Qed.

(** Every type has its own number. *)
Lemma type_properties_id id t : rrr_mqtt_p_get_type_properties id = Ret t -> 0 <= id -> type_id t = id.
Proof.
  unfold rrr_mqtt_p_get_type_properties. intros H Hid.
  destruct (Z.ltb_spec 15 id); [done|]. destruct (Z.eqb_spec id 0); [done|]. simpl in H.
  assert (Z.to_nat id < 16)%nat as Hlt by lia. rewrite <- (Z2Nat.id id) by lia.
  revert H. generalize (Z.to_nat id), Hlt. intros k Hk.
  do 16 (destruct k as [|k]; [intros H; vm_compute in H; injection H as <-; reflexivity|]). lia.
Qed.

End MqttPacket.
