(* ===== verification/MqttParse.v ===== *)
(** The parser of MQTT packets (src/src/lib/mqtt/mqtt_parse.c).

    A session holds the bytes received so far; when they are not enough the
    parser says so and is called again with more, and goes on from where the
    header or the payload was left.  Pointers into the buffer are offsets.  The
    buffer is exactly the [buf_wpos] bytes that were received: reading beyond
    them is [Oob].

    The macros of the parse functions return from the function they are used in.
    A [parser] changes the session and gives a value or returns early with a
    status.  [goto]s become a header part, which ends at an offset, and a payload
    part, which starts at the checkpoint.

    [alloc_ok] tells which allocations succeed; [alloc_sub] those of
    subscriptions and [alloc_packet] those of packets. *)
From S2P Require Import Prelude Types Utf8 Parse MqttTopic MsgHead MqttPayloadBuf MqttProperty.
From S2P Require Import MqttSubscription MqttPacket.
From stdpp Require Import strings.
Open Scope Z_scope.
Open Scope c_scope.

Module MqttParse.
Import Types Utf8 Parse MqttTopic MsgHead MqttPayloadBuf MqttProperty MqttSubscription MqttPacket.

Definition RRR_MQTT_PARSE_STATUS_NONE : Z := 0.
Definition RRR_MQTT_PARSE_STATUS_FIXED_HEADER_DONE : Z := 1 <<< 0.
Definition RRR_MQTT_PARSE_STATUS_VARIABLE_HEADER_DONE : Z := 1 <<< 1.
Definition RRR_MQTT_PARSE_STATUS_PAYLOAD_DONE : Z := 1 <<< 2.
Definition RRR_MQTT_PARSE_STATUS_COMPLETE : Z := 1 <<< 3.
Definition RRR_MQTT_PARSE_STATUS_MOVE_PAYLOAD_TO_PACKET : Z := 1 <<< 4.
Definition RRR_MQTT_PARSE_STATUS_ERR : Z := 1 <<< 15.

Record rrr_mqtt_parse_session := mk_session {
  status : Z;
  buf : option (list Z);
  header_parse_attempts : Z;
  s_type_properties : option rrr_mqtt_p_type_properties;
  s_protocol_version : option rrr_mqtt_p_protocol_version;
  packet : option rrr_mqtt_p;
  variable_header_pos : Z;
  payload_pos : Z;
  payload_checkpoint : Z;
  buf_wpos : Z;
  target_size : Z;
  s_type : Z;
  s_type_flags : Z
}.

Definition status_is (s : rrr_mqtt_parse_session) (f : Z) : bool := negb ((status s &&& f) =? 0).
Definition RRR_MQTT_PARSE_FIXED_HEADER_IS_DONE (s : rrr_mqtt_parse_session) : bool :=
  status_is s RRR_MQTT_PARSE_STATUS_FIXED_HEADER_DONE.
Definition RRR_MQTT_PARSE_VARIABLE_HEADER_IS_DONE (s : rrr_mqtt_parse_session) : bool :=
  status_is s RRR_MQTT_PARSE_STATUS_VARIABLE_HEADER_DONE.
Definition RRR_MQTT_PARSE_STATUS_PAYLOAD_IS_DONE (s : rrr_mqtt_parse_session) : bool :=
  status_is s RRR_MQTT_PARSE_STATUS_PAYLOAD_DONE.
Definition RRR_MQTT_PARSE_IS_COMPLETE (s : rrr_mqtt_parse_session) : bool :=
  status_is s RRR_MQTT_PARSE_STATUS_COMPLETE.
Definition RRR_MQTT_PARSE_IS_ERR (s : rrr_mqtt_parse_session) : bool :=
  status_is s RRR_MQTT_PARSE_STATUS_ERR.

Definition RRR_MQTT_PARSE_STATUS_SET (s : rrr_mqtt_parse_session) (f : Z) : rrr_mqtt_parse_session :=
  mk_session (status s ||| f) (buf s) (header_parse_attempts s) (s_type_properties s)
    (s_protocol_version s) (packet s) (variable_header_pos s) (payload_pos s) (payload_checkpoint s)
    (buf_wpos s) (target_size s) (s_type s) (s_type_flags s).
Definition set_packet (s : rrr_mqtt_parse_session) (p : option rrr_mqtt_p) : rrr_mqtt_parse_session :=
  mk_session (status s) (buf s) (header_parse_attempts s) (s_type_properties s)
    (s_protocol_version s) p (variable_header_pos s) (payload_pos s) (payload_checkpoint s)
    (buf_wpos s) (target_size s) (s_type s) (s_type_flags s).
Definition set_version (s : rrr_mqtt_parse_session) (v : option rrr_mqtt_p_protocol_version)
  : rrr_mqtt_parse_session :=
  mk_session (status s) (buf s) (header_parse_attempts s) (s_type_properties s)
    v (packet s) (variable_header_pos s) (payload_pos s) (payload_checkpoint s)
    (buf_wpos s) (target_size s) (s_type s) (s_type_flags s).
Definition set_checkpoint (s : rrr_mqtt_parse_session) (pos checkpoint : Z) : rrr_mqtt_parse_session :=
  mk_session (status s) (buf s) (header_parse_attempts s) (s_type_properties s)
    (s_protocol_version s) (packet s) (variable_header_pos s) pos checkpoint
    (buf_wpos s) (target_size s) (s_type s) (s_type_flags s).
Definition set_attempts (s : rrr_mqtt_parse_session) (n : Z) : rrr_mqtt_parse_session :=
  mk_session (status s) (buf s) n (s_type_properties s)
    (s_protocol_version s) (packet s) (variable_header_pos s) (payload_pos s) (payload_checkpoint s)
    (buf_wpos s) (target_size s) (s_type s) (s_type_flags s).

Definition rrr_mqtt_parse_session_init : rrr_mqtt_parse_session :=
  mk_session 0 None 0 None None None 0 0 0 0 0 0 0.

(** [bytes] are the [buf_wpos] bytes at [buf]. *)
Definition rrr_mqtt_parse_session_update (s : rrr_mqtt_parse_session) (bytes : list Z)
    (v : option rrr_mqtt_p_protocol_version) : rrr_mqtt_parse_session :=
  mk_session (status s) (Some bytes) (header_parse_attempts s) (s_type_properties s)
    v (packet s) (variable_header_pos s) (payload_pos s) (payload_checkpoint s)
    (Z.of_nat (length bytes)) (target_size s) (s_type s) (s_type_flags s).

(** [rrr_mqtt_parse_session_destroy]: the packet is given up. *)
Definition rrr_mqtt_parse_session_destroy (s : rrr_mqtt_parse_session) : rrr_mqtt_parse_session :=
  match buf s with None => s | Some _ => set_packet s None end.

(** ** Reading the buffer *)

Definition read_bytes (s : rrr_mqtt_parse_session) (pos n : Z) : outcome (list Z) :=
  match buf s with Some b => bytes_at pos n b | None => Oob end.

Definition read_u8 (s : rrr_mqtt_parse_session) (pos : Z) : outcome Z :=
  match buf s with Some b => load8 b pos | None => Oob end.

(** [PARSE_CHECK_END_RAW] *)
Definition beyond (end_ final_end : Z) : bool := final_end <? end_.

Section Parse.
Context (big : bool) (alloc_ok alloc_sub alloc_packet : Z -> bool) (alloc_token : nat -> bool).
Context (now : Z).

(** A 16-bit integer in network order. *)
Definition read_u16 (s : rrr_mqtt_parse_session) (pos : Z) : outcome Z :=
  bs ← read_bytes s pos 2; Ret (rrr_be16toh big (host_dec big bs)).

(** Status, value and the number of bytes; [pos] counts to 4. *)
Fixpoint variable_int_loop (fuel : nat) (s : rrr_mqtt_parse_session)
    (start final_end pos result exponent : Z) : outcome (Z * Z * Z) :=
  match fuel with
  | O => Oob
  | S fuel =>
    if 3 <? pos then Ret (RRR_MQTT_SOFT_ERROR, 0, 0)
    else if beyond (start + pos + 1) final_end then Ret (RRR_MQTT_INCOMPLETE, 0, 0)
    else
      current ← read_u8 s (start + pos);
      let value := current &&& 0x7f in
      let carry := current &&& 0x80 in
      let result := u32 (result + u32 (value * exponent)) in
      let exponent := u32 (exponent * 128) in
      let pos := pos + 1 in
      if carry =? 0 then Ret (RRR_MQTT_OK, result, pos)
      else variable_int_loop fuel s start final_end pos result exponent
  end.

Definition rrr_mqtt_parse_variable_int (s : rrr_mqtt_parse_session) (start final_end : Z)
  : outcome (Z * Z * Z) :=
  variable_int_loop 5 s start final_end 0 0 1.

(** Status, the new [*target], [*bytes_parsed] and [*blob_length].  Of memory that
    is left without data only the first byte is written. *)
Definition rrr_mqtt_parse_blob (s : rrr_mqtt_parse_session) (start target_end buffer_end : Z)
  : outcome (Z * option (list Z) * Z * Z) :=
  let end_ := start + 2 in
  if beyond end_ buffer_end then Ret (RRR_MQTT_INCOMPLETE, None, 2, 0)
  else
    blob_length ← read_u16 s start;
    if negb (alloc_ok (blob_length + 1)) then Ret (RRR_MQTT_INTERNAL_ERROR, None, 2, blob_length)
    else
      let empty := replicate (Z.to_nat (blob_length + 1)) 0 in
      let start := end_ in
      let end_ := start + blob_length in
      if beyond end_ target_end then Ret (RRR_MQTT_SOFT_ERROR, Some empty, 2, blob_length)
      else if beyond end_ buffer_end then Ret (RRR_MQTT_INCOMPLETE, Some empty, 2, blob_length)
      else
        bs ← read_bytes s start blob_length;
        Ret (RRR_MQTT_OK, Some (bs ++ [0]), 2 + blob_length, blob_length).

Definition sizeof_rrr_nullsafe_str : Z := 16.

(** [rrr_nullsafe_str_new_or_replace_raw] on a NULL target. *)
Definition rrr_nullsafe_str_new (bs : list Z) : Z * option (list Z) :=
  if negb (alloc_ok sizeof_rrr_nullsafe_str) then (1, None)
  else if negb (Z.of_nat (length bs) =? 0) && negb (alloc_ok (Z.of_nat (length bs))) then (1, None)
  else (0, Some bs).

Definition rrr_mqtt_parse_blob_nullsafe (s : rrr_mqtt_parse_session)
    (start target_end buffer_end : Z) : outcome (Z * option (list Z) * Z * Z) :=
  let end_ := start + 2 in
  if beyond end_ buffer_end then Ret (RRR_MQTT_INCOMPLETE, None, 2, 0)
  else
    blob_length ← read_u16 s start;
    let start := end_ in
    let end_ := start + blob_length in
    if beyond end_ target_end then Ret (RRR_MQTT_SOFT_ERROR, None, 2, blob_length)
    else if beyond end_ buffer_end then Ret (RRR_MQTT_INCOMPLETE, None, 2, blob_length)
    else
      bs ← read_bytes s start blob_length;
      let '(ret, target) := rrr_nullsafe_str_new bs in
      if negb (ret =? 0) then Ret (RRR_MQTT_INTERNAL_ERROR, target, 2, blob_length)
      else Ret (RRR_MQTT_OK, target, 2 + blob_length, blob_length).

(** [struct parse_utf8_validate_callback_data] is only used for messages. *)
Definition rrr_mqtt_parse_utf8_validate_callback (character : Z) (arg : unit) : Z * unit :=
  if (character =? 0) || in_range 0xD800 0xDFFF character then (1, arg) else (0, arg).

Definition rrr_mqtt_parse_utf8_validate (data : option (list Z)) (utf8_length minimum_length : Z)
  : outcome Z :=
  if utf8_length <? minimum_length then Ret RRR_MQTT_SOFT_ERROR
  else
    bs ← read_data data utf8_length;
    if negb (fst (rrr_utf8_validate_and_iterate rrr_mqtt_parse_utf8_validate_callback bs tt) =? 0)
    then Ret RRR_MQTT_SOFT_ERROR else Ret RRR_MQTT_OK.

Definition rrr_mqtt_parse_utf8 (s : rrr_mqtt_parse_session)
    (start target_end buffer_end minimum_length : Z) : outcome (Z * option (list Z) * Z * Z) :=
  '(ret, target, bytes_parsed, utf8_length) ← rrr_mqtt_parse_blob s start target_end buffer_end;
  if negb (ret =? RRR_MQTT_OK) then Ret (ret, target, bytes_parsed, utf8_length)
  else
    ret ← rrr_mqtt_parse_utf8_validate target utf8_length minimum_length;
    Ret (ret, target, bytes_parsed, utf8_length).

(** ** Properties *)

Definition set_data (p : rrr_mqtt_property) (type len len_orig : Z) (d : option (list Z))
  : rrr_mqtt_property := mk_property (order p) (sibling p) (definition p) type len len_orig d.

(** The bytes are placed at the end of four zero bytes. *)
Definition rrr_mqtt_parse_property_integer (s : rrr_mqtt_parse_session) (target : rrr_mqtt_property)
    (start len : Z) : outcome (Z * rrr_mqtt_property) :=
  if 4 <? len then Bug
  else
    bs ← read_bytes s start len;
    let result := rrr_be32toh big (host_dec big (replicate (Z.to_nat (4 - len)) 0 ++ bs)) in
    let '(ret, target) := rrr_mqtt_property_save_uint32 big alloc_ok target result in
    if negb (ret =? 0) then Ret (ret, target)
    else Ret (ret, set_data target (internal_data_type target) (p_length target) len (data target)).

(** Status, the property and [*bytes_parsed_final]. *)
Definition parse_property_bytes (n : Z) (s : rrr_mqtt_parse_session) (target : rrr_mqtt_property)
    (start : Z) : outcome (Z * rrr_mqtt_property * Z) :=
  if beyond (start + n) (buf_wpos s) then Ret (RRR_MQTT_INCOMPLETE, target, 0)
  else
    '(ret, target) ← rrr_mqtt_parse_property_integer s target start n;
    if negb (ret =? RRR_MQTT_OK) then Ret (ret, target, 0) else Ret (ret, target, n).

Definition rrr_mqtt_parse_property_one := parse_property_bytes 1.
Definition rrr_mqtt_parse_property_two := parse_property_bytes 2.
Definition rrr_mqtt_parse_property_four := parse_property_bytes 4.

Definition rrr_mqtt_parse_property_vint (s : rrr_mqtt_parse_session) (target : rrr_mqtt_property)
    (start : Z) : outcome (Z * rrr_mqtt_property * Z) :=
  '(ret, result, bytes_parsed) ← rrr_mqtt_parse_variable_int s start (buf_wpos s);
  if negb (ret =? RRR_MQTT_OK) then Ret (ret, target, bytes_parsed)
  else
    let '(ret, target) := rrr_mqtt_property_save_uint32 big alloc_ok target result in
    Ret (ret, target, bytes_parsed).

(** The length is counted twice. *)
Definition rrr_mqtt_parse_property_blob (s : rrr_mqtt_parse_session) (target : rrr_mqtt_property)
    (start : Z) : outcome (Z * rrr_mqtt_property * Z) :=
  '(ret, d, bytes_parsed, blob_length) ← rrr_mqtt_parse_blob s start (target_size s) (buf_wpos s);
  if negb (ret =? 0) then
    Ret (ret, set_data target (internal_data_type target) (p_length target) (length_orig target) d, 0)
  else
    Ret (ret, set_data target RRR_MQTT_PROPERTY_DATA_TYPE_INTERNAL_BLOB blob_length blob_length d,
         bytes_parsed + blob_length).

Definition rrr_mqtt_parse_property_utf8 (s : rrr_mqtt_parse_session) (target : rrr_mqtt_property)
    (start : Z) : outcome (Z * rrr_mqtt_property * Z) :=
  '(ret, d, bytes_parsed, _) ← rrr_mqtt_parse_utf8 s start (target_size s) (buf_wpos s) 0;
  len ← rrr_length_from_biglength_sub_bug_const bytes_parsed 2;
  Ret (ret, set_data target RRR_MQTT_PROPERTY_DATA_TYPE_INTERNAL_BLOB len len d, bytes_parsed).

Definition set_sibling (p : rrr_mqtt_property) (sib : option rrr_mqtt_property) : rrr_mqtt_property :=
  mk_property (order p) sib (definition p) (internal_data_type p) (p_length p) (length_orig p) (data p).

Definition rrr_mqtt_parse_property_2utf8 (s : rrr_mqtt_parse_session) (target : rrr_mqtt_property)
    (start : Z) : outcome (Z * rrr_mqtt_property * Z) :=
  match rrr_mqtt_property_new alloc_ok (definition target) with
  | (ret, None) => Ret (ret, set_sibling target None, 0)
  | (_, Some sib) =>
    '(ret, target, bytes_parsed) ←
      rrr_mqtt_parse_property_utf8 s (set_sibling target (Some sib)) start;
    if negb (ret =? 0) then Ret (ret, target, 0)
    else
      let final := bytes_parsed in
      '(ret, sib, bytes_parsed) ← rrr_mqtt_parse_property_utf8 s sib (start + bytes_parsed);
      let target := set_sibling target (Some sib) in
      if negb (ret =? 0) then Ret (ret, target, final)
      else Ret (ret, target, final + bytes_parsed)
  end.

(** The table of parsers; a NULL entry is called. *)
Definition property_parsers (data_type : Z)
  : rrr_mqtt_parse_session -> rrr_mqtt_property -> Z -> outcome (Z * rrr_mqtt_property * Z) :=
  if data_type =? RRR_MQTT_PROPERTY_DATA_TYPE_ONE then rrr_mqtt_parse_property_one
  else if data_type =? RRR_MQTT_PROPERTY_DATA_TYPE_TWO then rrr_mqtt_parse_property_two
  else if data_type =? RRR_MQTT_PROPERTY_DATA_TYPE_FOUR then rrr_mqtt_parse_property_four
  else if data_type =? RRR_MQTT_PROPERTY_DATA_TYPE_VINT then rrr_mqtt_parse_property_vint
  else if data_type =? RRR_MQTT_PROPERTY_DATA_TYPE_BLOB then rrr_mqtt_parse_property_blob
  else if data_type =? RRR_MQTT_PROPERTY_DATA_TYPE_UTF8 then rrr_mqtt_parse_property_utf8
  else if data_type =? RRR_MQTT_PROPERTY_DATA_TYPE_2UTF8 then rrr_mqtt_parse_property_2utf8
  else fun _ _ _ => Oob.

(** The loop over the properties, from offset [end_] to [body_end].  Every round
    reads at least the type, so that the bytes received bound the rounds. *)
Fixpoint parse_properties_loop (fuel : nat) (s : rrr_mqtt_parse_session)
    (target : rrr_mqtt_property_collection) (end_ body_end : Z)
  : outcome (Z * rrr_mqtt_property_collection * Z) :=
  match fuel with
  | O => Oob
  | S fuel =>
    if negb (end_ <? body_end) then Ret (RRR_MQTT_OK, target, end_)
    else
      let start := end_ in
      let end_ := start + 1 in
      if beyond end_ (buf_wpos s) then Ret (RRR_MQTT_INCOMPLETE, target, 0)
      else
        type ← read_u8 s start;
        match rrr_mqtt_property_get_definition type with
        | None => Ret (RRR_MQTT_SOFT_ERROR, target, 0)
        | Some def =>
          match rrr_mqtt_property_new alloc_ok def with
          | (_, None) => Ret (RRR_MQTT_INTERNAL_ERROR, target, 0)
          | (_, Some property_tmp) =>
            let start := end_ in
            '(ret, property_tmp, bytes_parsed) ←
              property_parsers (def_data_type def) s property_tmp start;
            if negb (ret =? 0) then Ret (ret, target, 0)
            else
              parse_properties_loop fuel s (rrr_mqtt_property_collection_add target property_tmp)
                (start + bytes_parsed) body_end
          end
        end
  end.

(** The rounds that are enough for a loop over the buffer. *)
Definition rounds (s : rrr_mqtt_parse_session) : nat := S (S (Z.to_nat (buf_wpos s))).

(** Status, the collection and [*bytes_parsed_final]. *)
Definition rrr_mqtt_parse_properties (target : rrr_mqtt_property_collection)
    (s : rrr_mqtt_parse_session) (start : Z) : outcome (Z * rrr_mqtt_property_collection * Z) :=
  let target := rrr_mqtt_property_collection_clear target in
  '(ret, property_length, bytes_parsed) ← rrr_mqtt_parse_variable_int s start (buf_wpos s);
  if negb (ret =? 0) then Ret (ret, target, 0)
  else
    let end_ := start + bytes_parsed in
    '(ret, target, end_) ← parse_properties_loop (rounds s) s target end_ (end_ + property_length);
    if negb (ret =? 0) then Ret (ret, target, 0)
    else
      bytes_parsed_final ← rrr_biglength_from_ptr_sub_bug_const end_ start;
      Ret (ret, target, bytes_parsed_final).

End Parse.

(** * What is in the buffer *)

(** The buffer holds the bytes that were received, fewer than 2^31. *)
Definition buffer_ok (s : rrr_mqtt_parse_session) : Prop :=
  exists b, buf s = Some b /\ buf_wpos s = Z.of_nat (length b) /\ bytes_ok b /\ buf_wpos s < 2 ^ 31.

(** [bs] is at offset [pos]. *)
Definition bytes_here (s : rrr_mqtt_parse_session) (pos : Z) (bs : list Z) : Prop :=
  exists pre post, buf s = Some (pre ++ bs ++ post) /\ pos = Z.of_nat (length pre).

Lemma bytes_here_app s pos a b : bytes_here s pos (a ++ b) ->
  bytes_here s pos a /\ bytes_here s (pos + Z.of_nat (length a)) b.
Proof.
  intros (pre & post & Hb & ->). split.
  - exists pre, (b ++ post). by rewrite Hb, <- !app_assoc.
  - exists (pre ++ a), post. rewrite Hb, length_app, <- !app_assoc. split; [done|lia].
Qed.

Lemma bytes_here_cons s pos x b : bytes_here s pos (x :: b) ->
  bytes_here s pos [x] /\ bytes_here s (pos + 1) b.
Proof. intros H. by apply (bytes_here_app s pos [x] b). Qed.

Lemma bytes_here_end s pos bs : buffer_ok s -> bytes_here s pos bs ->
  0 <= pos /\ pos + Z.of_nat (length bs) <= buf_wpos s.
Proof.
  intros (b & Hb & Hw & _) (pre & post & Hp & ->). rewrite Hb in Hp. injection Hp as ->.
  rewrite Hw, !length_app. lia.
Qed.

Lemma bytes_at_middle pre bs post :
  bytes_at (Z.of_nat (length pre)) (Z.of_nat (length bs)) (pre ++ bs ++ post) = Ret bs.
Proof.
  unfold bytes_at. rewrite !length_app.
  rewrite !(proj2 (Z.leb_le _ _)) by lia. simpl. unfold slice. rewrite !Nat2Z.id.
  rewrite drop_app_length. f_equal. apply take_app_length.
Qed.

Lemma read_bytes_here s pos bs : bytes_here s pos bs ->
  read_bytes s pos (Z.of_nat (length bs)) = Ret bs.
Proof. intros (pre & post & Hb & ->). unfold read_bytes. rewrite Hb. apply bytes_at_middle. Qed.

Lemma read_u8_here s pos x : bytes_here s pos [x] -> read_u8 s pos = Ret x.
Proof.
  intros (pre & post & Hb & ->). unfold read_u8. rewrite Hb. apply load8_Some.
  split; [lia|]. rewrite Nat2Z.id. by apply list_lookup_middle.
Qed.

Lemma read_u16_here big s pos v : 0 <= v < 2 ^ 16 -> bytes_here s pos (be_enc 2 v) ->
  read_u16 big s pos = Ret v.
Proof.
  intros Hv H. unfold read_u16. apply read_bytes_here in H. rewrite length_be_enc in H.
  change (Z.of_nat 2) with 2 in H. rewrite H. cbn [mbind outcome_bind].
  unfold rrr_be16toh. rewrite (to_be_host_dec big 2 v) by lia. done.
Qed.

(** Reads inside the buffer succeed. *)
Lemma read_bytes_inside s pos n : buffer_ok s -> 0 <= pos -> 0 <= n -> pos + n <= buf_wpos s ->
  exists bs, read_bytes s pos n = Ret bs /\ Z.of_nat (length bs) = n /\ bytes_ok bs.
Proof.
  intros (b & Hb & Hw & Hbs & _) Hp Hn Hend. unfold read_bytes, bytes_at. rewrite Hb.
  rewrite !(proj2 (Z.leb_le _ _)) by lia. simpl. eexists. split; [done|].
  rewrite length_slice by lia. split; [lia|]. by apply slice_bytes.
Qed.

Lemma read_u8_inside s pos : buffer_ok s -> 0 <= pos < buf_wpos s ->
  exists x, read_u8 s pos = Ret x /\ byte_ok x.
Proof.
  intros (b & Hb & Hw & Hbs & _) Hp. unfold read_u8. rewrite Hb.
  destruct (load8_inside b pos) as [x Hx]; [lia|]. exists x. split; [done|].
  apply load8_Some in Hx as [_ Hx]. by eapply Forall_lookup_1 in Hbs.
Qed.

Lemma read_u16_inside big s pos : buffer_ok s -> 0 <= pos -> pos + 2 <= buf_wpos s ->
  exists v, read_u16 big s pos = Ret v /\ 0 <= v < 2 ^ 16.
Proof.
  intros Hs Hp Hend. destruct (read_bytes_inside s pos 2) as (bs & Hr & Hl & Hb); [done|lia..|].
  unfold read_u16. rewrite Hr. cbn [mbind outcome_bind]. eexists. split; [done|].
  assert (length bs = 2%nat) as Hl2 by lia. rewrite <- (be_enc_dec bs Hb), Hl2.
  pose proof (be_dec_range bs Hb) as Hrange. rewrite Hl2 in Hrange.
  unfold rrr_be16toh. rewrite to_be_host_dec by done. simpl in Hrange. lia.
Qed.

(** * Variable length integers *)

Lemma carry_low x : byte_ok x -> x &&& 0x7f = x mod 128 /\ ((x &&& 0x80) =? 0) = (x <? 128).
Proof.
  intros Hx. split; [apply chunk_low|].
  apply (all_bytes_spec (fun x => Bool.eqb ((x &&& 0x80) =? 0) (x <? 128))) in Hx;
    [by apply Bool.eqb_prop|vm_compute; reflexivity].
Qed.

(** The loop adds the value of the bytes that follow, scaled. *)
Lemma variable_int_loop_here k s start final_end pos result v :
  (k <= 4)%nat -> (0 < k)%nat -> pos = 4 - Z.of_nat k ->
  0 <= v < 128 ^ Z.of_nat k -> bytes_here s (start + pos) (vint_enc k v) ->
  start + pos + Z.of_nat (length (vint_enc k v)) <= final_end ->
  0 <= result < 128 ^ pos ->
  variable_int_loop (S k) s start final_end pos result (128 ^ pos) =
    Ret (RRR_MQTT_OK, result + v * 128 ^ pos, pos + Z.of_nat (length (vint_enc k v))).
Proof.
  revert pos result v. induction k as [|k IH]; intros pos result v Hk H0 Hpos Hv Hb Hend Hres; [lia|].
  assert (0 < 128 ^ pos) as Hpow by (apply Z.pow_pos_nonneg; lia).
  assert (128 ^ pos * 128 ^ Z.of_nat (S k) = 2 ^ 28) as Hpw.
  { rewrite <- Z.pow_add_r by lia. replace (pos + Z.of_nat (S k)) with 4 by lia. done. }
  assert (128 ^ Z.of_nat (S k) = 128 * 128 ^ Z.of_nat k) as Hsucc.
  { rewrite Nat2Z.inj_succ, Z.pow_succ_r by lia. done. }
  pose proof (vint_length (S k) v ltac:(lia)) as Hlen.
  change (variable_int_loop (S (S k)) s start final_end pos result (128 ^ pos)) with
    (if 3 <? pos then Ret (RRR_MQTT_SOFT_ERROR, 0, 0)
     else if beyond (start + pos + 1) final_end then Ret (RRR_MQTT_INCOMPLETE, 0, 0)
     else
       current ← read_u8 s (start + pos);
       let value := current &&& 0x7f in
       let carry := current &&& 0x80 in
       let result := u32 (result + u32 (value * 128 ^ pos)) in
       let exponent := u32 (128 ^ pos * 128) in
       let pos := pos + 1 in
       if carry =? 0 then Ret (RRR_MQTT_OK, result, pos)
       else variable_int_loop (S k) s start final_end pos result exponent).
  rewrite (proj2 (Z.ltb_ge 3 pos)) by lia. unfold beyond.
  rewrite (proj2 (Z.ltb_ge final_end _)) by lia. clear Hlen. cbn [vint_enc] in *.
  destruct (Z.ltb_spec v 128) as [Hs|Hl].
  - rewrite (read_u8_here s (start + pos) v Hb). cbn [mbind outcome_bind]. cbv zeta.
    destruct (carry_low v) as [-> ->]; [unfold byte_ok; lia|].
    rewrite (proj2 (Z.ltb_lt v 128)) by lia. rewrite Z.mod_small by lia.
    rewrite (wrap_small 32 (v * 128 ^ pos)) by nia. rewrite wrap_small by nia. done.
  - pose proof (Z.mod_pos_bound v 128 eq_refl) as Hm. pose proof (Z.div_mod v 128) as Hdm.
    assert (0 <= v / 128 < 128 ^ Z.of_nat k) as Hd by (apply vint_step; lia).
    destruct k as [|k]; [change (128 ^ Z.of_nat 0) with 1 in Hd; lia|].
    apply bytes_here_cons in Hb as [Hb1 Hb2].
    rewrite (read_u8_here s (start + pos) _ Hb1). cbn [mbind outcome_bind]. cbv zeta.
    destruct (carry_low (v mod 128 + 128)) as [-> ->]; [unfold byte_ok; lia|].
    rewrite (proj2 (Z.ltb_ge _ 128)) by lia.
    replace ((v mod 128 + 128) mod 128) with (v mod 128) by zdiv.
    assert (128 ^ Z.of_nat (S k) >= 128) as Hge.
    { rewrite Nat2Z.inj_succ, Z.pow_succ_r by lia.
      assert (0 < 128 ^ Z.of_nat k) by (apply Z.pow_pos_nonneg; lia). lia. }
    rewrite (wrap_small 32 (v mod 128 * 128 ^ pos)) by nia.
    rewrite (wrap_small 32 (result + _)) by nia. rewrite (wrap_small 32 (128 ^ pos * 128)) by nia.
    assert (128 ^ pos * 128 = 128 ^ (pos + 1)) as Hnext by (rewrite Z.pow_add_r by lia; lia).
    rewrite Hnext. cbn [length] in Hend.
    rewrite (IH (pos + 1) _ (v / 128)); [|lia|lia|lia|done|by rewrite Z.add_assoc|rewrite ?Z.add_assoc in *; lia|rewrite <- Hnext; nia].
    cbn [length]. rewrite <- Hnext. do 2 f_equal; [f_equal|lia]. nia.
Qed.

(** An encoded integer is read back. *)
Lemma variable_int_here s start final_end v :
  0 <= v <= 0xfffffff -> bytes_here s start (vint v) ->
  start + Z.of_nat (length (vint v)) <= final_end ->
  rrr_mqtt_parse_variable_int s start final_end = Ret (RRR_MQTT_OK, v, Z.of_nat (length (vint v))).
Proof.
  intros Hv Hb Hend. unfold rrr_mqtt_parse_variable_int, vint in *.
  change 1 with (128 ^ 0) at 1. rewrite (variable_int_loop_here 4 s start final_end 0 0 v).
  - repeat f_equal; lia.
  - lia.
  - lia.
  - lia.
  - simpl. lia.
  - by rewrite Z.add_0_r.
  - lia.
  - simpl. lia.
Qed.

(** On any bytes: the integer ends inside the buffer, or an error is returned. *)
Definition vint_result (s : rrr_mqtt_parse_session) (start : Z) (r : outcome (Z * Z * Z)) : Prop :=
  exists ret v n, r = Ret (ret, v, n) /\
    ((ret = RRR_MQTT_OK /\ 0 <= v < 2 ^ 28 /\ 1 <= n <= 4 /\ start + n <= buf_wpos s) \/
     ((ret = RRR_MQTT_SOFT_ERROR \/ ret = RRR_MQTT_INCOMPLETE) /\ v = 0 /\ n = 0)).

Lemma variable_int_loop_safe k s start pos result : buffer_ok s -> 0 <= start ->
  (k <= 4)%nat -> pos = 4 - Z.of_nat k -> 0 <= result < 128 ^ pos ->
  vint_result s start (variable_int_loop (S k) s start (buf_wpos s) pos result (128 ^ pos)).
Proof.
  intros Hs Hst. revert pos result. induction k as [|k IH]; intros pos result Hk Hpos Hres.
  { subst pos. eexists _, _, _. split; [done|]. right. auto. }
  change (variable_int_loop (S (S k)) s start (buf_wpos s) pos result (128 ^ pos)) with
    (if 3 <? pos then Ret (RRR_MQTT_SOFT_ERROR, 0, 0)
     else if beyond (start + pos + 1) (buf_wpos s) then Ret (RRR_MQTT_INCOMPLETE, 0, 0)
     else
       current ← read_u8 s (start + pos);
       let value := current &&& 0x7f in
       let carry := current &&& 0x80 in
       let result := u32 (result + u32 (value * 128 ^ pos)) in
       let exponent := u32 (128 ^ pos * 128) in
       let pos := pos + 1 in
       if carry =? 0 then Ret (RRR_MQTT_OK, result, pos)
       else variable_int_loop (S k) s start (buf_wpos s) pos result exponent).
  rewrite (proj2 (Z.ltb_ge 3 pos)) by lia. unfold beyond.
  destruct (Z.ltb_spec (buf_wpos s) (start + pos + 1)).
  { eexists _, _, _. split; [done|]. right. auto. }
  destruct (read_u8_inside s (start + pos)) as (x & -> & Hx); [done|lia|]. cbn [mbind outcome_bind].
  cbv zeta. destruct (carry_low x Hx) as [-> ->]. pose proof (Z.mod_pos_bound x 128 eq_refl).
  assert (0 < 128 ^ pos) as Hpow by (apply Z.pow_pos_nonneg; lia).
  assert (128 ^ pos * 128 = 128 ^ (pos + 1)) as Hnext by (rewrite Z.pow_add_r by lia; lia).
  assert (128 ^ (pos + 1) <= 2 ^ 28) as Hmax.
  { change (2 ^ 28) with (128 ^ 4). apply Z.pow_le_mono_r; lia. }
  rewrite (wrap_small 32 (x mod 128 * 128 ^ pos)) by nia.
  rewrite (wrap_small 32 (result + _)) by nia. rewrite (wrap_small 32 (128 ^ pos * 128)) by nia.
  destruct (x <? 128).
  - eexists _, _, _. split; [done|]. left. split_and!; try done; nia.
  - rewrite Hnext. apply IH; [lia|lia|]. rewrite <- Hnext. nia.
Qed.

Lemma variable_int_safe s start : buffer_ok s -> 0 <= start ->
  vint_result s start (rrr_mqtt_parse_variable_int s start (buf_wpos s)).
Proof. intros Hs Hst. apply (variable_int_loop_safe 4 s start 0 0); try done; simpl; lia. Qed.

(** * Strings *)

Definition utf8_text (bs : list Z) : Prop := exists cps, text cps /\ bs = utf8_encode_all cps.

(** A string with its length, as in packets. *)
Definition str_wire (bs : list Z) : list Z := be_enc 2 (Z.of_nat (length bs)) ++ bs.

Lemma str_wire_length bs : Z.of_nat (length (str_wire bs)) = 2 + Z.of_nat (length bs).
Proof. unfold str_wire. rewrite length_app, length_be_enc. lia. Qed.

Lemma validate_text cps st : text cps ->
  run_callback rrr_mqtt_parse_utf8_validate_callback cps st = (0, st).
Proof.
  induction 1 as [|cp cps [Hcp H0] _ IH]; [done|]. cbn [run_callback].
  unfold rrr_mqtt_parse_utf8_validate_callback at 1. rewrite (proj2 (Z.eqb_neq _ _)) by done.
  unfold in_range. replace ((0xD800 <=? cp) && (cp <=? 0xDFFF)) with false; [done|].
  symmetry. apply andb_false_iff. rewrite !Z.leb_gt. unfold scalar in Hcp. lia.
Qed.

Lemma utf8_validate_text bs rest min : utf8_text bs -> min <= Z.of_nat (length bs) ->
  rrr_mqtt_parse_utf8_validate (Some (bs ++ rest)) (Z.of_nat (length bs)) min = Ret RRR_MQTT_OK.
Proof.
  intros (cps & Ht & ->) Hmin. unfold rrr_mqtt_parse_utf8_validate.
  rewrite (proj2 (Z.ltb_ge _ _)) by lia. rewrite read_data_app. cbn [mbind outcome_bind].
  rewrite <- (app_nil_r (utf8_encode_all cps)), iterate_text by (done || by left).
  by rewrite validate_text.
Qed.

Section Strings.
Context (big : bool) (alloc_ok : Z -> bool).

Lemma blob_here s start target_end bs :
  buffer_ok s -> bytes_here s start (str_wire bs) -> Z.of_nat (length bs) <= 0xffff ->
  start + 2 + Z.of_nat (length bs) <= target_end ->
  rrr_mqtt_parse_blob big alloc_ok s start target_end (buf_wpos s) =
    Ret (if alloc_ok (Z.of_nat (length bs) + 1)
         then (RRR_MQTT_OK, Some (bs ++ [0]), 2 + Z.of_nat (length bs), Z.of_nat (length bs))
         else (RRR_MQTT_INTERNAL_ERROR, None, 2, Z.of_nat (length bs))).
Proof.
  intros Hs Hb Hl Hend. pose proof (bytes_here_end _ _ _ Hs Hb) as [Hpos Hin].
  rewrite str_wire_length in Hin. apply bytes_here_app in Hb as [Hb1 Hb2].
  rewrite length_be_enc in Hb2. unfold rrr_mqtt_parse_blob, beyond.
  rewrite (proj2 (Z.ltb_ge _ (start + 2))) by lia. rewrite (read_u16_here big s start (Z.of_nat (length bs))) by (done || lia).
  cbn [mbind outcome_bind]. destruct (alloc_ok _); [|done]. cbn [negb].
  rewrite !(proj2 (Z.ltb_ge _ (start + 2 + Z.of_nat (length bs)))) by lia.
  change (Z.of_nat 2) with 2 in Hb2. rewrite (read_bytes_here s (start + 2) bs Hb2). done.
Qed.

Lemma utf8_here s start target_end bs min :
  buffer_ok s -> bytes_here s start (str_wire bs) -> Z.of_nat (length bs) <= 0xffff ->
  start + 2 + Z.of_nat (length bs) <= target_end -> utf8_text bs -> min <= Z.of_nat (length bs) ->
  alloc_ok (Z.of_nat (length bs) + 1) = true ->
  rrr_mqtt_parse_utf8 big alloc_ok s start target_end (buf_wpos s) min =
    Ret (RRR_MQTT_OK, Some (bs ++ [0]), 2 + Z.of_nat (length bs), Z.of_nat (length bs)).
Proof.
  intros Hs Hb Hl Hend Ht Hmin Ha. unfold rrr_mqtt_parse_utf8.
  rewrite (blob_here s start target_end bs), Ha by done. cbn [mbind outcome_bind Z.eqb negb].
  change (negb (RRR_MQTT_OK =? RRR_MQTT_OK)) with false. cbv iota.
  by rewrite utf8_validate_text.
Qed.

(** On any bytes: a string lies inside the packet and the buffer. *)
Definition blob_result (s : rrr_mqtt_parse_session) (start target_end : Z)
    (r : outcome (Z * option (list Z) * Z * Z)) : Prop :=
  exists ret t n l, r = Ret (ret, t, n, l) /\
    ((ret = RRR_MQTT_OK /\ n = 2 + l /\ start + n <= target_end /\ start + n <= buf_wpos s /\
      exists bs, t = Some (bs ++ [0]) /\ Z.of_nat (length bs) = l /\ bytes_ok bs /\ l < 2 ^ 16) \/
     (ret <> RRR_MQTT_OK /\ 2 <= n < 2 ^ 17)).

Lemma blob_safe s start target_end : buffer_ok s -> 0 <= start ->
  blob_result s start target_end (rrr_mqtt_parse_blob big alloc_ok s start target_end (buf_wpos s)).
Proof.
  intros Hs Hst. unfold rrr_mqtt_parse_blob, beyond.
  destruct (Z.ltb_spec (buf_wpos s) (start + 2)).
  { eexists _, _, _, _. split; [done|]. right. split; [done|lia]. }
  destruct (read_u16_inside big s start) as (l & -> & Hl); [done|lia..|]. cbn [mbind outcome_bind].
  destruct (alloc_ok (l + 1)); [|eexists _, _, _, _; split; [done|]; right; split; [done|lia]].
  cbn [negb]. destruct (Z.ltb_spec target_end (start + 2 + l)).
  { eexists _, _, _, _. split; [done|]. right. split; [done|lia]. }
  destruct (Z.ltb_spec (buf_wpos s) (start + 2 + l)).
  { eexists _, _, _, _. split; [done|]. right. split; [done|lia]. }
  destruct (read_bytes_inside s (start + 2) l) as (bs & -> & Hlen & Hbs); [done|lia..|].
  cbn [mbind outcome_bind]. eexists _, _, _, _. split; [done|]. left. split_and!; try done; try lia.
  exists bs. split_and!; try done. lia.
Qed.

Lemma utf8_validate_returns bs l min : Z.of_nat (length bs) = l ->
  exists ret, rrr_mqtt_parse_utf8_validate (Some (bs ++ [0])) l min = Ret ret /\
    (ret = RRR_MQTT_OK -> min <= l).
Proof.
  intros <-. unfold rrr_mqtt_parse_utf8_validate.
  destruct (Z.ltb_spec (Z.of_nat (length bs)) min); [by eexists|].
  rewrite read_data_app. cbn [mbind outcome_bind]. destruct (negb _); by eexists.
Qed.

Lemma utf8_safe s start target_end min : buffer_ok s -> 0 <= start ->
  exists ret t n l,
    rrr_mqtt_parse_utf8 big alloc_ok s start target_end (buf_wpos s) min = Ret (ret, t, n, l) /\
    2 <= n < 2 ^ 17 /\
    (ret = RRR_MQTT_OK -> n = 2 + l /\ min <= l /\ start + n <= target_end /\
      start + n <= buf_wpos s /\
      exists bs, t = Some (bs ++ [0]) /\ Z.of_nat (length bs) = l /\ bytes_ok bs).
Proof.
  intros Hs Hst. unfold rrr_mqtt_parse_utf8.
  destruct (blob_safe s start target_end Hs Hst) as (ret & t & n & l & -> & H).
  cbn [mbind outcome_bind]. destruct (Z.eqb_spec ret RRR_MQTT_OK) as [->|Hne]; cbn [negb].
  - destruct H as [(_ & Hn & H1 & H2 & bs & -> & Hl & Hbs & Hmax)|[? _]]; [|done].
    destruct (utf8_validate_returns bs l min Hl) as (ret & -> & Hret). cbn [mbind outcome_bind].
    exists ret, (Some (bs ++ [0])), n, l. split; [done|]. split; [lia|]. intros ->.
    split_and!; auto. by exists bs.
  - exists ret, t, n, l. split; [done|]. destruct H as [(-> & _)|[_ Hn]]; [done|]. split; [done|].
    intros ->. done.
Qed.

End Strings.

(** * Properties *)

(** Items the parser reads back: texts are UTF-8.  Values of type BLOB are not
    among them. *)
Definition item_clean (it : item) : Prop :=
  item_ok it /\
  match it.2 with
  | Number _ => True
  | Text bs => item_type it = RRR_MQTT_PROPERTY_DATA_TYPE_UTF8 /\ utf8_text bs
  | Pair a b => utf8_text a /\ utf8_text b
  end.

Section Properties.
Context (big : bool) (alloc_ok : Z -> bool).

(** Zero bytes in front do not change a number. *)
Lemma be_dec_padded k bs : be_dec (replicate k 0 ++ bs) = be_dec bs.
Proof.
  unfold be_dec. rewrite rev_app_distr.
  assert (Forall (fun b => b = 0) (rev (replicate k 0))) as Hz
    by (apply Forall_rev, Forall_replicate; done).
  induction (rev bs) as [|b l IH]; simpl; [|by rewrite IH].
  induction Hz as [|z l -> _ IH]; cbn; [done|]. by rewrite IH.
Qed.

Lemma be_enc_padded k (n : nat) v : 0 <= v < 2 ^ (8 * Z.of_nat n) ->
  be_enc (k + n) v = replicate k 0 ++ be_enc n v.
Proof.
  intros Hv. rewrite <- (be_enc_dec (replicate k 0 ++ be_enc n v)).
  - rewrite length_app, length_replicate, length_be_enc, be_dec_padded, be_dec_enc.
    by rewrite Z.mod_small.
  - apply Forall_app. split; [|apply be_enc_bytes]. apply Forall_replicate. unfold byte_ok. lia.
Qed.

(** A fresh property of the definition of an item. *)
Definition fresh (def : rrr_mqtt_property_definition) : rrr_mqtt_property :=
  mk_property 0 None def 0 0 0 None.

Lemma property_bytes_here s it def start (n : nat) v : buffer_ok s ->
  (forall m, alloc_ok m = true) ->
  item_ok it -> rrr_mqtt_property_get_definition it.1 = Some def -> it.2 = Number v ->
  (n <= 4)%nat -> 0 <= v < 2 ^ (8 * Z.of_nat n) -> bytes_here s start (be_enc n v) ->
  exists p, parse_property_bytes big alloc_ok (Z.of_nat n) s (fresh def) start =
    Ret (RRR_MQTT_OK, p, Z.of_nat n) /\ stands_for big p it.
Proof.
  intros Hs Ha Hok Hdef Hit Hn Hv Hb. pose proof (bytes_here_end _ _ _ Hs Hb) as [_ Hend].
  rewrite length_be_enc in Hend. unfold parse_property_bytes, beyond.
  rewrite (proj2 (Z.ltb_ge _ _)) by lia. unfold rrr_mqtt_parse_property_integer.
  rewrite (proj2 (Z.ltb_ge 4 _)) by lia. apply read_bytes_here in Hb. rewrite length_be_enc in Hb.
  rewrite Hb. cbn [mbind outcome_bind]. replace (Z.to_nat (4 - Z.of_nat n)) with (4 - n)%nat by lia.
  rewrite <- be_enc_padded by done. replace (4 - n + n)%nat with 4%nat by lia.
  assert (0 <= v < 2 ^ 32) as Hv32.
  { split; [lia|]. apply Z.lt_le_trans with (2 ^ (8 * Z.of_nat n)); [lia|].
    apply Z.pow_le_mono_r; lia. }
  unfold rrr_be32toh. rewrite (to_be_host_dec big 4 v) by done.
  unfold rrr_mqtt_property_save_uint32. rewrite Ha. cbn. eexists. split; [done|].
  split; [done|]. split; [done|]. rewrite Hit. done.
Qed.

Lemma property_vint_here s it def start v : buffer_ok s -> (forall m, alloc_ok m = true) ->
  item_ok it -> rrr_mqtt_property_get_definition it.1 = Some def -> it.2 = Number v ->
  0 <= v <= 0xfffffff -> bytes_here s start (vint v) ->
  exists p, rrr_mqtt_parse_property_vint big alloc_ok s (fresh def) start =
    Ret (RRR_MQTT_OK, p, Z.of_nat (length (vint v))) /\ stands_for big p it.
Proof.
  intros Hs Ha Hok Hdef Hit Hv Hb. pose proof (bytes_here_end _ _ _ Hs Hb) as [_ Hend].
  unfold rrr_mqtt_parse_property_vint. rewrite (variable_int_here s start _ v) by done.
  cbn [mbind outcome_bind]. unfold rrr_mqtt_property_save_uint32. rewrite Ha. cbn.
  eexists. split; [done|]. split; [done|]. split; [done|]. by rewrite Hit.
Qed.

(** A text is stored with a terminator after it. *)
Lemma property_utf8_here s p start bs : buffer_ok s -> (forall m, alloc_ok m = true) ->
  text_ok bs -> utf8_text bs -> bytes_here s start (str_wire bs) ->
  start + 2 + Z.of_nat (length bs) <= target_size s ->
  rrr_mqtt_parse_property_utf8 big alloc_ok s p start =
    Ret (RRR_MQTT_OK,
         set_data p RRR_MQTT_PROPERTY_DATA_TYPE_INTERNAL_BLOB (Z.of_nat (length bs))
           (Z.of_nat (length bs)) (Some (bs ++ [0])), 2 + Z.of_nat (length bs)).
Proof.
  intros Hs Ha (Hne & Hl & Hbs) Ht Hb Hend. unfold rrr_mqtt_parse_property_utf8.
  rewrite (utf8_here big alloc_ok s start (target_size s) bs 0) by (done || lia).
  cbn [mbind outcome_bind]. unfold rrr_length_from_biglength_sub_bug_const, RRR_LENGTH_MAX.
  rewrite (proj2 (Z.ltb_ge _ 2)) by lia.
  replace (2 + Z.of_nat (length bs) - 2) with (Z.of_nat (length bs)) by lia.
  rewrite (wrap_small 64) by lia. rewrite (proj2 (Z.ltb_ge _ _)) by lia.
  rewrite wrap_small by lia. done.
Qed.

Lemma property_2utf8_here s it def start a b : buffer_ok s -> (forall m, alloc_ok m = true) ->
  item_ok it -> rrr_mqtt_property_get_definition it.1 = Some def -> it.2 = Pair a b ->
  text_ok a -> text_ok b -> utf8_text a -> utf8_text b ->
  bytes_here s start (str_wire a ++ str_wire b) ->
  start + 4 + Z.of_nat (length a + length b) <= target_size s ->
  exists p, rrr_mqtt_parse_property_2utf8 big alloc_ok s (fresh def) start =
    Ret (RRR_MQTT_OK, p, 4 + Z.of_nat (length a + length b)) /\ stands_for big p it.
Proof.
  intros Hs Ha Hok Hdef Hit Hoa Hob Hta Htb Hb Hend. unfold rrr_mqtt_parse_property_2utf8.
  apply bytes_here_app in Hb as [Hb1 Hb2]. rewrite str_wire_length in Hb2.
  unfold rrr_mqtt_property_new. rewrite Ha.
  rewrite (property_utf8_here s _ start a) by (done || lia). cbn [mbind outcome_bind Z.eqb negb].
  change (negb (RRR_MQTT_OK =? 0)) with false. cbv iota.
  rewrite (property_utf8_here s _ (start + (2 + Z.of_nat (length a))) b) by (done || lia).
  cbn [mbind outcome_bind]. eexists. split; [cbn; do 2 f_equal; lia|].
  split; [done|]. split; [done|]. rewrite Hit. split.
  - split_and!; [done|done|by exists [0]].
  - eexists. split; [done|]. split; [|done]. split_and!; [done|done|by exists [0]].
Qed.

Lemma property_parsers_here s it def start : buffer_ok s -> (forall m, alloc_ok m = true) ->
  item_clean it -> rrr_mqtt_property_get_definition it.1 = Some def ->
  bytes_here s start (value_wire (item_type it) it.2) ->
  start + Z.of_nat (length (value_wire (item_type it) it.2)) <= target_size s ->
  exists p, property_parsers big alloc_ok (def_data_type def) s (fresh def) start =
    Ret (RRR_MQTT_OK, p, Z.of_nat (length (value_wire (item_type it) it.2))) /\ stands_for big p it.
Proof.
  intros Hs Ha [Hok Hclean] Hdef Hb Hend. pose proof Hok as [_ Hv].
  assert (def_data_type def = item_type it) as -> by (unfold item_type; by rewrite Hdef).
  destruct (it.2) as [n|bs|a b] eqn:Eit.
  - pose proof (number_range _ _ Hv) as Hr.
    destruct (number_type _ _ Hv) as [[E Hn]|[[E Hn]|[E|[E Hn]]]]; unfold value_wire in *;
      rewrite E in *; cbn -[be_enc vint] in *.
    + rewrite length_be_enc. apply (property_bytes_here s it def start 1 n); auto; lia.
    + rewrite length_be_enc. apply (property_bytes_here s it def start 2 n); auto; lia.
    + rewrite length_be_enc. apply (property_bytes_here s it def start 4 n); auto; lia.
    + apply property_vint_here; auto. lia.
  - destruct Hclean as [E Ht], Hv as [_ Htext]. rewrite E in *.
    change (value_wire RRR_MQTT_PROPERTY_DATA_TYPE_UTF8 (Text bs)) with (str_wire bs) in *.
    rewrite str_wire_length in *. cbn -[Z.add]. rewrite (property_utf8_here s _ start bs) by (done || lia).
    eexists. split; [done|]. split; [done|]. split; [done|]. rewrite Eit. split; [|done].
    split_and!; [done|done|by exists [0]].
  - destruct Hclean as [Hta Htb], Hv as (E & Hoa & Hob). rewrite E in *.
    assert (value_wire RRR_MQTT_PROPERTY_DATA_TYPE_2UTF8 (Pair a b) = str_wire a ++ str_wire b) as Ew
      by (unfold value_wire, str_wire; by rewrite <- !app_assoc).
    rewrite Ew in *. assert (Z.of_nat (length (str_wire a ++ str_wire b)) =
      4 + Z.of_nat (length a + length b)) as El.
    { rewrite length_app, Nat2Z.inj_add, !str_wire_length. lia. }
    rewrite El in *. cbn -[Z.add]. apply (property_2utf8_here s it def start a b); auto; lia.
Qed.

(** ** Property lists *)

(** A list of properties with its length. *)
Definition props_wire (l : list item) : list Z :=
  vint (Z.of_nat (length (items_wire l))) ++ items_wire l.

Lemma item_definition it : item_ok it -> exists def, rrr_mqtt_property_get_definition it.1 = Some def.
Proof.
  intros [_ Hv]. unfold item_type in Hv.
  destruct (rrr_mqtt_property_get_definition it.1) as [def|]; [by eexists|].
  destruct (it.2) as [n|bs|a b]; cbn in Hv.
  - by destruct Hv as (max & ? & _).
  - by destruct Hv as ([?|?] & _).
  - by destruct Hv as (? & _).
Qed.

Lemma properties_loop_here s l fuel c m pos : buffer_ok s -> (forall n, alloc_ok n = true) ->
  Forall item_clean l -> bytes_here s pos (items_wire l) ->
  pos + Z.of_nat (length (items_wire l)) <= target_size s -> (length l < fuel)%nat ->
  collection_holds big c m ->
  exists c', parse_properties_loop big alloc_ok fuel s c pos (pos + Z.of_nat (length (items_wire l))) =
    Ret (RRR_MQTT_OK, c', pos + Z.of_nat (length (items_wire l))) /\ collection_holds big c' (m ++ l).
Proof.
  intros Hs Ha Hl. revert fuel c m pos.
  induction Hl as [|it l Hit _ IH]; intros fuel c m pos Hb Hend Hf Hc; (destruct fuel as [|fuel]; [lia|]).
  - exists c. cbn [parse_properties_loop]. rewrite (proj2 (Z.ltb_ge _ _)) by (simpl; lia).
    rewrite app_nil_r. split; [|done]. simpl. by rewrite Z.add_0_r.
  - cbn [parse_properties_loop]. pose proof Hit as [Hok _].
    destruct (item_definition it Hok) as [def Hdef].
    assert (items_wire (it :: l) = it.1 :: value_wire (item_type it) it.2 ++ items_wire l) as Ew
      by (unfold items_wire; cbn; done).
    rewrite Ew in *. pose proof (bytes_here_end _ _ _ Hs Hb) as [Hpos Hin].
    apply bytes_here_cons in Hb as [Hb1 Hb]. apply bytes_here_app in Hb as [Hb2 Hb3].
    cbn [length] in *. rewrite length_app in *.
    rewrite (proj2 (Z.ltb_lt _ _)) by lia. cbn [negb]. unfold beyond.
    rewrite (proj2 (Z.ltb_ge _ _)) by lia. rewrite (read_u8_here s pos _ Hb1). cbn [mbind outcome_bind].
    rewrite Hdef. unfold rrr_mqtt_property_new. rewrite Ha.
    destruct (property_parsers_here s it def (pos + 1)) as (p & Hp & Hstands); [done..|lia|].
    unfold fresh in Hp. rewrite Hp. cbn [mbind outcome_bind Z.eqb negb].
    change (negb (RRR_MQTT_OK =? 0)) with false. cbv iota.
    destruct (IH fuel (rrr_mqtt_property_collection_add c p) (m ++ [it])
      (pos + 1 + Z.of_nat (length (value_wire (item_type it) it.2)))) as (c' & Hc' & Hh);
      [done|lia|lia|by apply collection_add_holds|].
    exists c'. rewrite <- app_assoc in Hh. split; [|done].
    replace (pos + Z.of_nat (S (length (value_wire (item_type it) it.2) + length (items_wire l)))) with
      (pos + 1 + Z.of_nat (length (value_wire (item_type it) it.2)) +
       Z.of_nat (length (items_wire l))) by lia. done.
Qed.

Lemma items_count l : (length l <= length (items_wire l))%nat.
Proof. induction l as [|it l IH]; [done|]. unfold items_wire in *. simpl. rewrite length_app. lia. Qed.

(** A list of properties is read back, in order. *)
Lemma properties_here s l c pos : buffer_ok s -> (forall n, alloc_ok n = true) ->
  Forall item_clean l -> Z.of_nat (length (items_wire l)) <= 0xfffffff ->
  bytes_here s pos (props_wire l) -> pos + Z.of_nat (length (props_wire l)) <= target_size s ->
  exists c', rrr_mqtt_parse_properties big alloc_ok c s pos =
    Ret (RRR_MQTT_OK, c', Z.of_nat (length (props_wire l))) /\ collection_holds big c' l.
Proof.
  intros Hs Ha Hl Hmax Hb Hend. unfold rrr_mqtt_parse_properties.
  pose proof (bytes_here_end _ _ _ Hs Hb) as [Hpos Hin]. unfold props_wire in *.
  rewrite length_app in *. apply bytes_here_app in Hb as [Hb1 Hb2].
  rewrite (variable_int_here s pos _ (Z.of_nat (length (items_wire l)))) by (done || lia).
  cbn [mbind outcome_bind Z.eqb negb]. change (negb (RRR_MQTT_OK =? 0)) with false. cbv iota.
  pose proof (items_count l).
  destruct (properties_loop_here s l (rounds s) (rrr_mqtt_property_collection_clear c) []
    (pos + Z.of_nat (length (vint (Z.of_nat (length (items_wire l))))))) as (c' & -> & Hh);
    [done..|lia|unfold rounds; lia|constructor|].
  cbn [mbind outcome_bind]. change (negb (RRR_MQTT_OK =? 0)) with false. cbv iota.
  exists c'. split; [|done]. unfold rrr_biglength_from_ptr_sub_bug_const.
  rewrite (proj2 (Z.ltb_ge _ _)) by lia. destruct Hs as (b & _ & Hw & _ & Hlim).
  rewrite (wrap_small 64) by lia. rewrite wrap_small by lia. cbn [mbind outcome_bind].
  do 2 f_equal. lia.
Qed.

(** ** Any bytes *)

Lemma definition_type id def : rrr_mqtt_property_get_definition id = Some def ->
  def_data_type def ∈ [1; 2; 4; 5; 6; 7; 8].
Proof.
  unfold rrr_mqtt_property_get_definition.
  assert (Forall (fun d => def_data_type d = 0 \/ def_data_type d ∈ [1; 2; 4; 5; 6; 7; 8])
    property_definitions) as H by (apply (bool_decide_unpack _); vm_compute; done).
  induction H as [|d l Hd _ IH]; [done|]. cbn [get_definition_loop].
  destruct (Z.eqb_spec (def_data_type d) 0); [done|].
  destruct (identifier d =? id); [|done]. intros [= <-]. by destruct Hd.
Qed.

(** A parsed value ends in the buffer, or as far behind it as a BLOB is long. *)
Definition value_end (s : rrr_mqtt_parse_session) (start : Z)
    (r : outcome (Z * rrr_mqtt_property * Z)) : Prop :=
  exists ret p n, r = Ret (ret, p, n) /\
    (ret = RRR_MQTT_OK -> 0 <= n /\ start + n <= buf_wpos s + 2 ^ 16).

Lemma property_bytes_safe s p start n : buffer_ok s -> 0 <= start -> 0 <= n <= 4 ->
  value_end s start (parse_property_bytes big alloc_ok n s p start).
Proof.
  intros Hs Hst Hn. unfold parse_property_bytes, beyond.
  destruct (Z.ltb_spec (buf_wpos s) (start + n)); [by eexists _, _, _|].
  unfold rrr_mqtt_parse_property_integer. rewrite (proj2 (Z.ltb_ge 4 n)) by lia.
  destruct (read_bytes_inside s start n) as (bs & -> & _); [done|lia..|]. cbn [mbind outcome_bind].
  unfold rrr_mqtt_property_save_uint32. destruct (alloc_ok 4); cbn; [|by eexists _, _, _].
  eexists _, _, _. split; [done|]. lia.
Qed.

Lemma property_vint_safe s p start : buffer_ok s -> 0 <= start ->
  value_end s start (rrr_mqtt_parse_property_vint big alloc_ok s p start).
Proof.
  intros Hs Hst. unfold rrr_mqtt_parse_property_vint.
  destruct (variable_int_safe s start Hs Hst) as (ret & v & n & -> & H). cbn [mbind outcome_bind].
  destruct (Z.eqb_spec ret RRR_MQTT_OK) as [->|Hne]; cbn [negb]; [|by eexists _, _, _].
  destruct H as [(_ & _ & Hn & Hend)|[[?|?] _]]; [|done..].
  unfold rrr_mqtt_property_save_uint32. destruct (alloc_ok 4); cbn; eexists _, _, _; split; try done. lia.
Qed.

Lemma property_blob_safe s p start : buffer_ok s -> 0 <= start ->
  value_end s start (rrr_mqtt_parse_property_blob big alloc_ok s p start).
Proof.
  intros Hs Hst. unfold rrr_mqtt_parse_property_blob.
  destruct (blob_safe big alloc_ok s start (target_size s) Hs Hst) as (ret & t & n & l & -> & H).
  cbn [mbind outcome_bind]. destruct (Z.eqb_spec ret 0) as [->|Hne]; cbn [negb].
  - destruct H as [(_ & Hn & _ & Hend & bs & _ & Hl & _ & Hmax)|[? _]]; [|done].
    eexists _, _, _. split; [done|]. lia.
  - eexists _, _, _. split; [done|]. done.
Qed.

Lemma property_utf8_safe s p start : buffer_ok s -> 0 <= start ->
  exists ret q n, rrr_mqtt_parse_property_utf8 big alloc_ok s p start = Ret (ret, q, n) /\
    (ret = RRR_MQTT_OK -> 0 <= n /\ start + n <= buf_wpos s).
Proof.
  intros Hs Hst. unfold rrr_mqtt_parse_property_utf8.
  destruct (utf8_safe big alloc_ok s start (target_size s) 0 Hs Hst) as (ret & t & n & l & -> & Hn & H).
  cbn [mbind outcome_bind]. unfold rrr_length_from_biglength_sub_bug_const, RRR_LENGTH_MAX.
  rewrite (proj2 (Z.ltb_ge n 2)) by lia. rewrite (wrap_small 64) by lia.
  rewrite (proj2 (Z.ltb_ge _ (n - 2))) by lia. cbn [mbind outcome_bind].
  eexists _, _, _. split; [done|]. intros ->. destruct H as (_ & _ & _ & Hend & _); [done|]. lia.
Qed.

Lemma property_2utf8_safe s p start : buffer_ok s -> 0 <= start ->
  value_end s start (rrr_mqtt_parse_property_2utf8 big alloc_ok s p start).
Proof.
  intros Hs Hst. unfold rrr_mqtt_parse_property_2utf8, rrr_mqtt_property_new.
  destruct (alloc_ok sizeof_rrr_mqtt_property); [|by eexists _, _, _].
  destruct (property_utf8_safe s (set_sibling p (Some (mk_property 0 None (definition p) 0 0 0 None)))
    start Hs Hst) as (ret & q & n & -> & H). cbn [mbind outcome_bind].
  destruct (Z.eqb_spec ret 0) as [->|Hne]; cbn [negb]; [|by eexists _, _, _].
  destruct H as [Hn Hend]; [done|].
  destruct (property_utf8_safe s (mk_property 0 None (definition p) 0 0 0 None) (start + n))
    as (ret & q2 & n2 & -> & H2); [done|lia|]. cbn [mbind outcome_bind].
  destruct (Z.eqb_spec ret 0) as [->|Hne]; cbn [negb]; eexists _, _, _; (split; [done|]); [|done].
  intros _. destruct H2 as [Hn2 Hend2]; [done|]. lia.
Qed.

Lemma property_parsers_safe s id def p start : buffer_ok s -> 0 <= start ->
  rrr_mqtt_property_get_definition id = Some def ->
  value_end s start (property_parsers big alloc_ok (def_data_type def) s p start).
Proof.
  intros Hs Hst Hdef. apply definition_type in Hdef. unfold property_parsers.
  rewrite !elem_of_cons in Hdef.
  destruct Hdef as [->|[->|[->|[->|[->|[->|[->|Hnil]]]]]]]; cbn -[Z.add];
    [apply property_bytes_safe; (done || lia)..|by apply property_vint_safe|by apply property_blob_safe
    | |by apply property_2utf8_safe|by apply elem_of_nil in Hnil].
  destruct (property_utf8_safe s p start Hs Hst) as (ret & q & n & -> & H).
  eexists _, _, _. split; [done|]. intros Hret. apply H in Hret. lia.
Qed.

Lemma properties_loop_safe s fuel c pos body_end : buffer_ok s -> 0 <= pos ->
  pos <= buf_wpos s + 2 ^ 16 -> (Z.to_nat (buf_wpos s - pos) + 1 < fuel)%nat ->
  exists ret c' e, parse_properties_loop big alloc_ok fuel s c pos body_end = Ret (ret, c', e) /\
    (ret = RRR_MQTT_OK -> pos <= e <= buf_wpos s + 2 ^ 16).
Proof.
  intros Hs. revert c pos. induction fuel as [|fuel IH]; intros c pos Hpos Hend Hf; [lia|].
  cbn [parse_properties_loop]. destruct (Z.ltb_spec pos body_end); cbn [negb];
    [|eexists _, _, _; split; [done|]; lia].
  unfold beyond. destruct (Z.ltb_spec (buf_wpos s) (pos + 1)); [by eexists _, _, _|].
  destruct (read_u8_inside s pos) as (x & -> & Hx); [done|lia|]. cbn [mbind outcome_bind].
  destruct (rrr_mqtt_property_get_definition x) as [def|] eqn:Hdef; [|by eexists _, _, _].
  destruct (rrr_mqtt_property_new alloc_ok def) as [r [p|]]; [|by eexists _, _, _].
  destruct (property_parsers_safe s x def p (pos + 1) Hs ltac:(lia) Hdef) as (ret & q & n & -> & H2).
  cbn [mbind outcome_bind]. destruct (Z.eqb_spec ret 0) as [->|Hne]; cbn [negb]; [|by eexists _, _, _].
  destruct H2 as [Hn He]; [done|].
  destruct (IH (rrr_mqtt_property_collection_add c q) (pos + 1 + n)) as (ret & c' & e & -> & H3);
    [lia..|]. eexists _, _, _. split; [done|]. intros Hr. apply H3 in Hr. lia.
Qed.

Lemma properties_safe s c pos : buffer_ok s -> 0 <= pos ->
  exists ret c' n, rrr_mqtt_parse_properties big alloc_ok c s pos = Ret (ret, c', n) /\
    (ret = RRR_MQTT_OK -> 0 <= n /\ pos + n <= buf_wpos s + 2 ^ 16).
Proof.
  intros Hs Hpos. unfold rrr_mqtt_parse_properties.
  destruct (variable_int_safe s pos Hs Hpos) as (ret & v & n & -> & H). cbn [mbind outcome_bind].
  destruct (Z.eqb_spec ret 0) as [->|Hne]; cbn [negb]; [|by eexists _, _, _].
  destruct H as [(_ & Hv & Hn & Hend)|[[?|?] _]]; [|done..].
  destruct (properties_loop_safe s (rounds s) (rrr_mqtt_property_collection_clear c) (pos + n)
    (pos + n + v)) as (ret & c' & e & -> & H2); [done|lia|lia|unfold rounds; lia|].
  cbn [mbind outcome_bind]. destruct (Z.eqb_spec ret 0) as [->|Hne]; cbn [negb]; [|by eexists _, _, _].
  specialize (H2 eq_refl). unfold rrr_biglength_from_ptr_sub_bug_const.
  destruct Hs as (b & _ & Hw & _ & Hlim). rewrite (proj2 (Z.ltb_ge _ _)) by lia.
  rewrite (wrap_small 64), wrap_small by lia. cbn [mbind outcome_bind].
  eexists _, _, _. split; [done|]. lia.
Qed.

End Properties.

End MqttParse.
