(* ===== verification/MqttParsePacket.v ===== *)
(** The parse functions of the packet types and the parser of whole packets (the
    rest of src/src/lib/mqtt/mqtt_parse.c; see [MqttParse]).  A [parser] changes
    the session and gives a value, or returns early with a status. *)
From S2P Require Import Prelude Types Utf8 Parse MqttTopic MsgHead MqttPayloadBuf MqttProperty.
From S2P Require Import MqttSubscription MqttPacket MqttParse.
From stdpp Require Import strings.
Open Scope Z_scope.
Open Scope c_scope.

Module MqttParsePacket.
Import Types Utf8 Parse MqttTopic MsgHead MqttPayloadBuf MqttProperty MqttSubscription MqttPacket.
Import MqttParse.

(** ** Code with early returns *)

Definition parser (A : Type) : Type :=
  rrr_mqtt_parse_session -> outcome (rrr_mqtt_parse_session * (Z + A)).

#[export] Instance parser_ret : MRet parser := λ A a s, Ret (s, inr a).
#[export] Instance parser_bind : MBind parser := λ A B f m s,
  match m s with
  | Ret (s, inr a) => f a s
  | Ret (s, inl status) => Ret (s, inl status)
  | Bug => Bug
  | Oob => Oob
  end.

(** [return status] *)
Definition stop {A} (status : Z) : parser A := λ s, Ret (s, inl status).
Definition give {A} (a : A) : parser A := λ s, Ret (s, inr a).
Definition bug {A} : parser A := λ _, Bug.
Definition oob {A} : parser A := λ _, Oob.
Definition ask : parser rrr_mqtt_parse_session := λ s, Ret (s, inr s).
Definition modify (f : rrr_mqtt_parse_session -> rrr_mqtt_parse_session) : parser unit :=
  λ s, Ret (f s, inr tt).
(** Something computed from the session. *)
Definition call {A} (f : rrr_mqtt_parse_session -> outcome A) : parser A :=
  λ s, a ← f s; Ret (s, inr a).
(** [if (b) return status;] *)
Definition stop_if (b : bool) (status : Z) : parser unit := if b then stop status else give tt.

(** The packet of the session, which must be there. *)
Definition get_packet : parser rrr_mqtt_p :=
  s ← ask; match packet s with Some p => give p | None => oob end.
Definition put_packet (p : rrr_mqtt_p) : parser unit := modify (fun s => set_packet s (Some p)).
Definition put_body (b : packet_body) : parser unit := p ← get_packet; put_packet (set_body p b).

(** The packet as one of its type. *)
Definition get_connect : parser rrr_mqtt_p_connect :=
  p ← get_packet; match body p with Connect b => give b | _ => oob end.
Definition get_connack : parser rrr_mqtt_p_connack :=
  p ← get_packet; match body p with Connack b => give b | _ => oob end.
Definition get_publish : parser rrr_mqtt_p_publish :=
  p ← get_packet; match body p with Publish b => give b | _ => oob end.
Definition get_def_puback : parser rrr_mqtt_property_collection :=
  p ← get_packet; match body p with Def_puback b => give b | _ => oob end.
Definition get_sub_usub : parser rrr_mqtt_p_sub_usub :=
  p ← get_packet; match body p with Sub_usub b => give b | _ => oob end.
Definition get_suback : parser rrr_mqtt_p_suback_unsuback :=
  p ← get_packet; match body p with Suback_unsuback b => give b | _ => oob end.
Definition get_disconnect : parser rrr_mqtt_property_collection :=
  p ← get_packet; match body p with Disconnect b => give b | _ => oob end.

Section Parse.
Context (big : bool) (alloc_ok alloc_sub alloc_packet : Z -> bool) (alloc_token : nat -> bool).
Context (now : Z).

(** ** The macros *)

(** [PARSE_PREPARE_RAW]: the start and the new end. *)
Definition prepare (end_ bytes : Z) : parser (Z * Z) :=
  s ← ask;
  _ ← stop_if (beyond (end_ + bytes) (buf_wpos s)) RRR_MQTT_INCOMPLETE;
  give (end_, end_ + bytes).

(** [PARSE_U8_RAW], [PARSE_U16_RAW]: the value and the new end. *)
Definition parse_u8 (end_ : Z) : parser (Z * Z) :=
  '(start, end_) ← prepare end_ 1;
  v ← call (fun s => read_u8 s start);
  give (v, end_).
Definition parse_u16 (end_ : Z) : parser (Z * Z) :=
  '(start, end_) ← prepare end_ 2;
  v ← call (fun s => read_u16 big s start);
  give (v, end_).

(** [PARSE_REQUIRE_PROTOCOL_VERSION] *)
Definition require_protocol_version : parser unit :=
  s ← ask; match s_protocol_version s with None => stop RRR_MQTT_INCOMPLETE | Some _ => give tt end.

(** [PARSE_ALLOCATE] *)
Definition parse_allocate : parser unit :=
  s ← ask;
  match packet s with
  | Some _ => give tt
  | None =>
    match s_type_properties s, s_protocol_version s with
    | Some t, Some v =>
      p ← call (fun _ => type_allocate alloc_sub alloc_packet now t v);
      match p with
      | None => stop RRR_MQTT_INTERNAL_ERROR
      | Some p => put_packet p
      end
    | _, _ => oob
    end
  end.

(** [PARSE_PACKET_ID] *)
Definition parse_packet_id (end_ : Z) : parser Z :=
  '(id, end_) ← parse_u16 end_;
  p ← get_packet;
  _ ← put_packet (set_packet_identifier p id);
  _ ← stop_if (id =? 0) RRR_MQTT_SOFT_ERROR;
  give end_.

(** [PARSE_CHECK_V5] *)
Definition check_v5 : parser bool :=
  p ← get_packet; give (RRR_MQTT_VERSION_5 <=? v_id (protocol_version p)).

Definition rrr_mqtt_parse_save_and_check_reason (reason_v31_or_v5 : Z) : parser Z :=
  p ← get_packet;
  let found := if RRR_MQTT_VERSION_5 <=? v_id (protocol_version p)
               then rrr_mqtt_p_reason_get_v5 reason_v31_or_v5
               else rrr_mqtt_p_reason_get_v31 reason_v31_or_v5 in
  match found with
  | None => give RRR_MQTT_SOFT_ERROR
  | Some r => _ ← put_packet (set_reason_v5 p (v5_reason r) (Some r)); give RRR_MQTT_OK
  end.

(** [PARSE_SAVE_AND_CHECK_REASON_STRUCT], with the field [for_] of the reason. *)
Definition save_and_check_reason_struct (for_ : rrr_mqtt_p_reason -> Z) (reason_v31_or_v5 : Z)
  : parser unit :=
  ret ← rrr_mqtt_parse_save_and_check_reason reason_v31_or_v5;
  _ ← stop_if (negb (ret =? RRR_MQTT_OK)) RRR_MQTT_SOFT_ERROR;
  p ← get_packet;
  match reason p with
  | None => oob
  | Some r => stop_if (for_ r =? 0) RRR_MQTT_SOFT_ERROR
  end.

(** [PARSE_PROPERTIES_IF_V5]: [get] and [put] are the field the properties go to. *)
Definition properties_if_v5 (get : parser rrr_mqtt_property_collection)
    (put : rrr_mqtt_property_collection -> parser unit) (end_ : Z) : parser Z :=
  v5 ← check_v5;
  if v5 : bool then
    c ← get;
    '(ret, c, bytes_parsed) ← call (fun s => rrr_mqtt_parse_properties big alloc_ok c s end_);
    _ ← put c;
    _ ← stop_if (negb (ret =? 0)) ret;
    give (end_ + bytes_parsed)
  else give end_.

(** [PARSE_UTF8_WITH_LENGTH]: the length, the bytes parsed and the new end. *)
Definition utf8_with_length (put : option (list Z) -> parser unit) (min_length end_ : Z)
  : parser (Z * Z * Z) :=
  '(ret, target, bytes_parsed, len) ←
    call (fun s => rrr_mqtt_parse_utf8 big alloc_ok s end_ (target_size s) (buf_wpos s) min_length);
  _ ← put target;
  _ ← stop_if (negb (ret =? 0)) ret;
  give (len, bytes_parsed, end_ + bytes_parsed).

(** [PARSE_UTF8] *)
Definition parse_utf8 (put : option (list Z) -> parser unit) (min_length end_ : Z) : parser Z :=
  '(_, _, end_) ← utf8_with_length put min_length end_; give end_.

(** [PARSE_BLOB_NULLSAFE] *)
Definition blob_nullsafe (put : option (list Z) -> parser unit) (end_ : Z) : parser Z :=
  '(ret, target, bytes_parsed, _) ←
    call (fun s => rrr_mqtt_parse_blob_nullsafe big alloc_ok s end_ (target_size s) (buf_wpos s));
  _ ← put target;
  _ ← stop_if (negb (ret =? 0)) ret;
  give (end_ + bytes_parsed).

(** [PARSE_CHECK_TARGET_END] *)
Definition check_target_end (end_ : Z) : parser bool :=
  s ← ask; give (beyond (end_ + 1) (target_size s)).

(** [PARSE_VERIFY_NO_PAYLOAD] and [PARSE_VERIFY_PAYLOAD_END] *)
Definition verify_at_end (end_ : Z) : parser unit :=
  at_end ← check_target_end end_; stop_if (negb at_end) RRR_MQTT_SOFT_ERROR.

(** [PARSE_PAYLOAD_SAVE_CHECKPOINT] *)
Definition save_checkpoint (end_ : Z) : parser unit :=
  pos ← call (fun _ => rrr_length_from_ptr_sub_bug_const end_ 0);
  modify (fun s => set_checkpoint s (payload_pos s) pos).

(** [header_complete] *)
Definition end_header (end_ : Z) : parser unit :=
  _ ← modify (fun s => RRR_MQTT_PARSE_STATUS_SET s RRR_MQTT_PARSE_STATUS_VARIABLE_HEADER_DONE);
  _ ← save_checkpoint end_;
  pos ← call (fun _ => rrr_length_from_ptr_sub_bug_const end_ 0);
  modify (fun s => set_checkpoint s pos (payload_checkpoint s)).

(** [parse_payload]: where the payload is parsed from. *)
Definition begin_payload : parser Z :=
  s ← ask;
  _ ← stop_if (target_size s <? payload_pos s) RRR_MQTT_SOFT_ERROR;
  give (payload_checkpoint s).

(** [parse_done] *)
Definition parse_done : parser unit :=
  modify (fun s => RRR_MQTT_PARSE_STATUS_SET
    (RRR_MQTT_PARSE_STATUS_SET s RRR_MQTT_PARSE_STATUS_PAYLOAD_DONE)
    RRR_MQTT_PARSE_STATUS_VARIABLE_HEADER_DONE).

(** [PARSE_BEGIN], a header that gives its end, or goes to [parse_done] ([None]),
    and a payload. *)
Definition header_and_payload (header : Z -> parser (option Z)) (parse_payload : Z -> parser unit)
  : parser unit :=
  s ← ask;
  if RRR_MQTT_PARSE_STATUS_PAYLOAD_IS_DONE s then bug
  else if RRR_MQTT_PARSE_VARIABLE_HEADER_IS_DONE s then
    end_ ← begin_payload; parse_payload end_
  else
    e ← header (variable_header_pos s);
    match e with
    | None => parse_done
    | Some end_ =>
      _ ← end_header end_;
      end_ ← begin_payload;
      parse_payload end_
    end.

Definition get_payload_size : parser Z :=
  call (fun s => rrr_length_from_biglength_sub_bug_const (target_size s) (payload_pos s)).

(** ** CONNECT *)

Definition toupper (c : Z) : Z := if in_range 97 122 c then c - 32 else c.

(** [name] is a C string. *)
Definition rrr_mqtt_parse_protocol_version_validate_name (v : rrr_mqtt_p_protocol_version)
    (name : list Z) : outcome Z :=
  if 16 <? Z.of_nat (length name) then Bug
  else
    match v_name v with
    | None => Oob
    | Some n => Ret (if strcmp_eq n (toupper <$> name) then 0 else 1)
    end.

Definition set_client_identifier (c : rrr_mqtt_p_connect) (v : option (list Z)) : rrr_mqtt_p_connect :=
  mk_connect (connect_flags c) (keep_alive c) v (connect_properties c) (will_properties c)
    (will_topic c) (will_message c) (username c) (password c).
Definition set_connect_flags (c : rrr_mqtt_p_connect) (v : Z) : rrr_mqtt_p_connect :=
  mk_connect v (keep_alive c) (client_identifier c) (connect_properties c) (will_properties c)
    (will_topic c) (will_message c) (username c) (password c).
Definition set_keep_alive (c : rrr_mqtt_p_connect) (v : Z) : rrr_mqtt_p_connect :=
  mk_connect (connect_flags c) v (client_identifier c) (connect_properties c) (will_properties c)
    (will_topic c) (will_message c) (username c) (password c).
Definition set_connect_properties (c : rrr_mqtt_p_connect) (v : rrr_mqtt_property_collection)
  : rrr_mqtt_p_connect :=
  mk_connect (connect_flags c) (keep_alive c) (client_identifier c) v (will_properties c)
    (will_topic c) (will_message c) (username c) (password c).
Definition set_will_properties (c : rrr_mqtt_p_connect) (v : rrr_mqtt_property_collection)
  : rrr_mqtt_p_connect :=
  mk_connect (connect_flags c) (keep_alive c) (client_identifier c) (connect_properties c) v
    (will_topic c) (will_message c) (username c) (password c).
Definition set_will_topic (c : rrr_mqtt_p_connect) (v : option (list Z)) : rrr_mqtt_p_connect :=
  mk_connect (connect_flags c) (keep_alive c) (client_identifier c) (connect_properties c)
    (will_properties c) v (will_message c) (username c) (password c).
Definition set_will_message (c : rrr_mqtt_p_connect) (v : option (list Z)) : rrr_mqtt_p_connect :=
  mk_connect (connect_flags c) (keep_alive c) (client_identifier c) (connect_properties c)
    (will_properties c) (will_topic c) v (username c) (password c).
Definition set_username (c : rrr_mqtt_p_connect) (v : option (list Z)) : rrr_mqtt_p_connect :=
  mk_connect (connect_flags c) (keep_alive c) (client_identifier c) (connect_properties c)
    (will_properties c) (will_topic c) (will_message c) v (password c).
Definition set_password (c : rrr_mqtt_p_connect) (v : option (list Z)) : rrr_mqtt_p_connect :=
  mk_connect (connect_flags c) (keep_alive c) (client_identifier c) (connect_properties c)
    (will_properties c) (will_topic c) (will_message c) (username c) v.

(** [connect->field = v] *)
Definition put_connect {A} (set : rrr_mqtt_p_connect -> A -> rrr_mqtt_p_connect) (v : A) : parser unit :=
  c ← get_connect; put_body (Connect (set c v)).

Definition connect_header (end_ : Z) : parser (option Z) :=
  '(protocol_name_length, end_) ← parse_u16 end_;
  _ ← stop_if (6 <? protocol_name_length) RRR_MQTT_SOFT_ERROR;
  '(start, end_) ← prepare end_ protocol_name_length;
  name ← call (fun s => read_bytes s start protocol_name_length);
  let name_buf := cstr name in
  '(protocol_version_id, end_) ← parse_u8 end_;
  match rrr_mqtt_p_get_protocol_version protocol_version_id with
  | None => stop RRR_MQTT_SOFT_ERROR
  | Some v =>
    ret ← call (fun _ => rrr_mqtt_parse_protocol_version_validate_name v name_buf);
    _ ← stop_if (negb (ret =? 0)) RRR_MQTT_SOFT_ERROR;
    _ ← modify (fun s => set_version s (Some v));
    _ ← parse_allocate;
    '(flags, end_) ← parse_u8 end_;
    _ ← put_connect set_connect_flags flags;
    c ← get_connect;
    _ ← stop_if (negb (RRR_MQTT_P_CONNECT_GET_FLAG_RESERVED c =? 0)) RRR_MQTT_SOFT_ERROR;
    _ ← stop_if ((RRR_MQTT_P_CONNECT_GET_FLAG_WILL c =? 0) &&
                 (negb (RRR_MQTT_P_CONNECT_GET_FLAG_WILL_QOS c =? 0) ||
                  negb (RRR_MQTT_P_CONNECT_GET_FLAG_WILL_RETAIN c =? 0))) RRR_MQTT_SOFT_ERROR;
    p ← get_packet;
    _ ← stop_if ((v_id (protocol_version p) <? RRR_MQTT_VERSION_5) &&
                 ((RRR_MQTT_P_CONNECT_GET_FLAG_PASSWORD c =? 1) &&
                  (RRR_MQTT_P_CONNECT_GET_FLAG_USER_NAME c =? 0))) RRR_MQTT_SOFT_ERROR;
    _ ← stop_if (2 <? RRR_MQTT_P_CONNECT_GET_FLAG_WILL_QOS c) RRR_MQTT_SOFT_ERROR;
    '(ka, end_) ← parse_u16 end_;
    _ ← put_connect set_keep_alive ka;
    end_ ← properties_if_v5 (c ← get_connect; give (connect_properties c))
             (put_connect set_connect_properties) end_;
    give (Some end_)
  end.

(** A field that the flags announce must be there. *)
Definition connect_field (set : rrr_mqtt_p_connect -> option (list Z) -> rrr_mqtt_p_connect) (end_ : Z)
  : parser Z :=
  at_end ← check_target_end end_;
  _ ← stop_if at_end RRR_MQTT_SOFT_ERROR;
  parse_utf8 (put_connect set) 1 end_.

Definition connect_will (end_ : Z) : parser Z :=
  end_ ← properties_if_v5 (c ← get_connect; give (will_properties c))
           (put_connect set_will_properties) end_;
  end_ ← parse_utf8 (put_connect set_will_topic) 1 end_;
  c ← get_connect;
  invalid ← call (fun _ =>
    match will_topic c with
    | None => rrr_mqtt_topic_validate_name None
    | Some obj => t ← c_string obj; rrr_mqtt_topic_validate_name (Some t)
    end);
  _ ← stop_if (negb (invalid =? 0)) RRR_MQTT_SOFT_ERROR;
  blob_nullsafe (put_connect set_will_message) end_.

Definition connect_payload (end_ : Z) : parser unit :=
  end_ ← parse_utf8 (put_connect set_client_identifier) 0 end_;
  c ← get_connect;
  end_ ← (if negb (RRR_MQTT_P_CONNECT_GET_FLAG_WILL c =? 0) then connect_will end_ else give end_);
  end_ ← (if negb (RRR_MQTT_P_CONNECT_GET_FLAG_USER_NAME c =? 0)
          then connect_field set_username end_ else give end_);
  end_ ← (if negb (RRR_MQTT_P_CONNECT_GET_FLAG_PASSWORD c =? 0)
          then connect_field set_password end_ else give end_);
  _ ← verify_at_end end_;
  parse_done.

Definition rrr_mqtt_parse_connect : parser unit := header_and_payload connect_header connect_payload.

(** ** CONNACK *)

Definition connack_header (end_ : Z) : parser (option Z) :=
  _ ← require_protocol_version;
  _ ← parse_allocate;
  '(flags, end_) ← parse_u8 end_;
  c ← get_connack;
  let c := mk_connack flags (session_present c) (connack_properties c) in
  let c := mk_connack (ack_flags c) (u8 (RRR_MQTT_P_CONNACK_GET_FLAG_SESSION_PRESENT c))
             (connack_properties c) in
  _ ← put_body (Connack c);
  _ ← stop_if (negb (RRR_MQTT_P_CONNACK_GET_FLAG_RESERVED c =? 0)) RRR_MQTT_SOFT_ERROR;
  '(reason_tmp, end_) ← parse_u8 end_;
  _ ← save_and_check_reason_struct for_connack reason_tmp;
  end_ ← properties_if_v5 (c ← get_connack; give (connack_properties c))
           (fun v => c ← get_connack; put_body (Connack (mk_connack (ack_flags c) (session_present c) v)))
           end_;
  give (Some end_).

Definition verify_no_payload (end_ : Z) : parser unit := _ ← verify_at_end end_; parse_done.

Definition rrr_mqtt_parse_connack : parser unit := header_and_payload connack_header verify_no_payload.

(** ** PUBLISH *)

Definition set_topic (b : rrr_mqtt_p_publish) (v : option (list Z)) : rrr_mqtt_p_publish :=
  mk_publish v (token_tree_ b) (publish_properties b) (create_time b) (message_expiry_interval b)
    (payload_format_indicator b) (topic_alias b) (response_topic b) (correlation_data b) (content_type b).
Definition set_tokens (b : rrr_mqtt_p_publish) (v : list (list Z)) : rrr_mqtt_p_publish :=
  mk_publish (topic b) v (publish_properties b) (create_time b) (message_expiry_interval b)
    (payload_format_indicator b) (topic_alias b) (response_topic b) (correlation_data b) (content_type b).
Definition set_publish_properties (b : rrr_mqtt_p_publish) (v : rrr_mqtt_property_collection)
  : rrr_mqtt_p_publish :=
  mk_publish (topic b) (token_tree_ b) v (create_time b) (message_expiry_interval b)
    (payload_format_indicator b) (topic_alias b) (response_topic b) (correlation_data b) (content_type b).

Definition put_publish {A} (set : rrr_mqtt_p_publish -> A -> rrr_mqtt_p_publish) (v : A) : parser unit :=
  b ← get_publish; put_body (Publish (set b v)).

Definition publish_header (end_ : Z) : parser (option Z) :=
  _ ← require_protocol_version;
  _ ← parse_allocate;
  s ← ask;
  p ← get_packet;
  _ ← put_packet (set_type_flags p (s_type_flags s));
  p ← get_packet;
  _ ← stop_if (2 <? RRR_MQTT_P_PUBLISH_GET_FLAG_QOS p) RRR_MQTT_SOFT_ERROR;
  _ ← stop_if ((RRR_MQTT_P_PUBLISH_GET_FLAG_QOS p =? 0) &&
               negb (RRR_MQTT_P_PUBLISH_GET_FLAG_DUP p =? 0)) RRR_MQTT_SOFT_ERROR;
  end_ ← parse_utf8 (put_publish set_topic) 1 end_;
  b ← get_publish;
  t ← call (fun _ => match topic b with None => Oob | Some obj => c_string obj end);
  invalid ← call (fun _ => rrr_mqtt_topic_validate_name (Some t));
  _ ← stop_if (negb (invalid =? 0)) RRR_MQTT_SOFT_ERROR;
  let '(ret, tokens) := rrr_mqtt_topic_tokenize alloc_token t in
  _ ← put_publish set_tokens tokens;
  _ ← stop_if (negb (ret =? 0)) RRR_MQTT_INTERNAL_ERROR;
  end_ ← (if 0 <? RRR_MQTT_P_PUBLISH_GET_FLAG_QOS p then parse_packet_id end_ else give end_);
  end_ ← properties_if_v5 (b ← get_publish; give (publish_properties b))
           (put_publish set_publish_properties) end_;
  give (Some end_).

Definition publish_payload (end_ : Z) : parser unit :=
  payload_length ← get_payload_size;
  if payload_length =? 0 then parse_done
  else
    s ← ask;
    if target_size s <=? buf_wpos s then
      _ ← modify (fun s => RRR_MQTT_PARSE_STATUS_SET s RRR_MQTT_PARSE_STATUS_MOVE_PAYLOAD_TO_PACKET);
      parse_done
    else stop RRR_MQTT_INCOMPLETE.

Definition rrr_mqtt_parse_publish : parser unit := header_and_payload publish_header publish_payload.

(** ** PUBACK, PUBREC, PUBREL, PUBCOMP *)

Definition puback_v5 (end_ : Z) : parser Z :=
  '(r, end_) ← parse_u8 end_;
  p ← get_packet;
  _ ← put_packet (set_reason_v5 p r (reason p));
  let t := RRR_MQTT_P_GET_TYPE p in
  _ ← (if (t =? RRR_MQTT_P_TYPE_PUBACK) || (t =? RRR_MQTT_P_TYPE_PUBREC)
       then save_and_check_reason_struct for_puback_pubrec r
       else if (t =? RRR_MQTT_P_TYPE_PUBREL) || (t =? RRR_MQTT_P_TYPE_PUBCOMP)
       then save_and_check_reason_struct for_pubrel_pubcomp r
       else bug);
  properties_if_v5 get_def_puback (fun v => _ ← get_def_puback; put_body (Def_puback v)) end_.

Definition def_puback_header (end_ : Z) : parser (option Z) :=
  _ ← require_protocol_version;
  _ ← parse_allocate;
  end_ ← parse_packet_id end_;
  at_end ← check_target_end end_;
  if at_end : bool then give (Some end_)
  else
    v5 ← check_v5;
    end_ ← (if v5 : bool then puback_v5 end_ else give end_);
    _ ← verify_at_end end_;
    give (Some end_).

Definition rrr_mqtt_parse_def_puback : parser unit :=
  header_and_payload def_puback_header verify_no_payload.

(** ** SUBSCRIBE and UNSUBSCRIBE *)

Definition set_data_tmp (b : rrr_mqtt_p_sub_usub) (v : option (list Z)) : rrr_mqtt_p_sub_usub :=
  mk_sub_usub v (sub_properties b) (subscriptions b).
Definition set_sub_properties (b : rrr_mqtt_p_sub_usub) (v : rrr_mqtt_property_collection)
  : rrr_mqtt_p_sub_usub := mk_sub_usub (data_tmp b) v (subscriptions b).
Definition set_subscriptions (b : rrr_mqtt_p_sub_usub) (v : rrr_mqtt_subscription_collection)
  : rrr_mqtt_p_sub_usub := mk_sub_usub (data_tmp b) (sub_properties b) v.
Definition put_sub_usub {A} (set : rrr_mqtt_p_sub_usub -> A -> rrr_mqtt_p_sub_usub) (v : A)
  : parser unit := b ← get_sub_usub; put_body (Sub_usub (set b v)).

Definition sub_usub_header (end_ : Z) : parser (option Z) :=
  end_ ← parse_packet_id end_;
  end_ ← properties_if_v5 (b ← get_sub_usub; give (sub_properties b))
           (put_sub_usub set_sub_properties) end_;
  give (Some end_).

(** The options byte: retain handling, retain as published, no local and QoS. *)
Definition topic_options (end_ : Z) : parser (Z * Z * Z * Z * Z) :=
  '(flags, end_) ← parse_u8 end_;
  let reserved := RRR_MQTT_SUBSCRIPTION_GET_FLAG_RAW_RESERVED flags in
  let retain := RRR_MQTT_SUBSCRIPTION_GET_FLAG_RAW_RETAIN flags in
  let rap := RRR_MQTT_SUBSCRIPTION_GET_FLAG_RAW_RAP flags in
  let nl := RRR_MQTT_SUBSCRIPTION_GET_FLAG_RAW_NL flags in
  let qos := RRR_MQTT_SUBSCRIPTION_GET_FLAG_RAW_QOS flags in
  _ ← stop_if (2 <? qos) RRR_MQTT_SOFT_ERROR;
  _ ← stop_if (negb (reserved =? 0)) RRR_MQTT_SOFT_ERROR;
  v5 ← check_v5;
  _ ← (if v5 : bool then stop_if (2 <? retain) RRR_MQTT_SOFT_ERROR
       else
         _ ← stop_if (negb (retain =? 0)) RRR_MQTT_SOFT_ERROR;
         _ ← stop_if (negb (rap =? 0)) RRR_MQTT_SOFT_ERROR;
         stop_if (negb (nl =? 0)) RRR_MQTT_SOFT_ERROR);
  give (retain, rap, nl, qos, end_).

(** One topic filter; the new end. *)
Definition parse_subscription (has_topic_options : bool) (end_ : Z) : parser Z :=
  '(utf8_length, bytes_parsed, end_) ← utf8_with_length (put_sub_usub set_data_tmp) 1 end_;
  _ ← stop_if (bytes_parsed =? 0) RRR_MQTT_SOFT_ERROR;
  b ← get_sub_usub;
  prefix ← call (fun _ => read_data (data_tmp b) utf8_length);
  _ ← stop_if (negb (Z.of_nat (length (cstr prefix)) =? utf8_length)) RRR_MQTT_SOFT_ERROR;
  '(retain, rap, nl, qos, end_) ←
    (if has_topic_options then topic_options end_ else give (0, 0, 0, 0, end_));
  filter ← call (fun _ => match data_tmp b with None => Oob | Some obj => c_string obj end);
  invalid ← call (fun _ => rrr_mqtt_topic_filter_validate_name filter);
  _ ← stop_if (negb (invalid =? 0)) RRR_MQTT_SOFT_ERROR;
  '(ret, subscription) ←
    call (fun _ => rrr_mqtt_subscription_new alloc_sub alloc_token filter retain rap nl qos);
  _ ← stop_if (negb (ret =? 0)) RRR_MQTT_INTERNAL_ERROR;
  match subscription with
  | None => oob
  | Some subscription =>
    '(ret_tmp, c, _) ←
      call (fun _ => rrr_mqtt_subscription_collection_add_unique (subscriptions b) subscription true);
    _ ← put_sub_usub set_subscriptions c;
    _ ← stop_if (negb (ret_tmp =? RRR_MQTT_SUBSCRIPTION_REPLACED) &&
                 negb (ret_tmp =? RRR_MQTT_SUBSCRIPTION_OK)) RRR_MQTT_INTERNAL_ERROR;
    _ ← save_checkpoint end_;
    give end_
  end.

(** The loop over the filters; every round reads at least three bytes. *)
Fixpoint sub_usub_loop (fuel : nat) (has_topic_options : bool) (end_ : Z) : parser Z :=
  match fuel with
  | O => oob
  | S fuel =>
    at_end ← check_target_end end_;
    if at_end : bool then give end_
    else
      end_ ← parse_subscription has_topic_options end_;
      sub_usub_loop fuel has_topic_options end_
  end.

Definition sub_usub_payload (has_topic_options : bool) (end_ : Z) : parser unit :=
  at_end ← check_target_end end_;
  _ ← stop_if at_end RRR_MQTT_SOFT_ERROR;
  s ← ask;
  end_ ← sub_usub_loop (rounds s) has_topic_options end_;
  _ ← verify_at_end end_;
  parse_done.

Definition rrr_mqtt_parse_subscribe_unsubscribe (has_topic_options : bool) : parser unit :=
  header_and_payload sub_usub_header (sub_usub_payload has_topic_options).

Definition rrr_mqtt_parse_subscribe : parser unit :=
  _ ← require_protocol_version;
  _ ← parse_allocate;
  rrr_mqtt_parse_subscribe_unsubscribe true.

Definition rrr_mqtt_parse_unsubscribe : parser unit :=
  _ ← require_protocol_version;
  _ ← parse_allocate;
  rrr_mqtt_parse_subscribe_unsubscribe false.

(** ** SUBACK and UNSUBACK *)

Definition set_suback_properties (b : rrr_mqtt_p_suback_unsuback) (v : rrr_mqtt_property_collection)
  : rrr_mqtt_p_suback_unsuback :=
  mk_suback v (subscriptions_ b) (dummy b) (acknowledgements b) (acknowledgements_size b).
Definition set_dummy (b : rrr_mqtt_p_suback_unsuback) (v : Z) : rrr_mqtt_p_suback_unsuback :=
  mk_suback (suback_properties b) (subscriptions_ b) v (acknowledgements b) (acknowledgements_size b).
Definition set_acknowledgements (b : rrr_mqtt_p_suback_unsuback) (v : Z * Z)
  : rrr_mqtt_p_suback_unsuback :=
  mk_suback (suback_properties b) (subscriptions_ b) (dummy b) (Some v.1) v.2.
Definition put_suback {A} (set : rrr_mqtt_p_suback_unsuback -> A -> rrr_mqtt_p_suback_unsuback) (v : A)
  : parser unit := b ← get_suback; put_body (Suback_unsuback (set b v)).

Definition suback_header (no_payload : bool) (end_ : Z) : parser (option Z) :=
  end_ ← parse_packet_id end_;
  end_ ← (if no_payload then give end_
          else properties_if_v5 (b ← get_suback; give (suback_properties b))
                 (put_suback set_suback_properties) end_);
  give (Some end_).

(** The reason an acknowledgement byte stands for. *)
Definition suback_reason (v5 : bool) (flags : Z) : parser (option rrr_mqtt_p_reason) :=
  if v5 then
    match rrr_mqtt_p_reason_get_v5 flags with
    | None => stop RRR_MQTT_SOFT_ERROR
    | Some r => give (Some r)
    end
  else
    let qos := 0x3 &&& flags in
    let reason := ((0x3f <<< 2) &&& flags) >>> 7 in
    let reserved := ((0x1f <<< 2) &&& flags) >>> 2 in
    _ ← stop_if (negb (reserved =? 0)) RRR_MQTT_SOFT_ERROR;
    _ ← stop_if ((reason =? 1) && negb (qos =? 0)) RRR_MQTT_SOFT_ERROR;
    _ ← stop_if (2 <? qos) RRR_MQTT_SOFT_ERROR;
    give (if negb (reason =? 0) then rrr_mqtt_p_reason_get_v5 0x80 else rrr_mqtt_p_reason_get_v5 qos).

(** Acknowledgements [i] and following, [n] of them left. *)
Fixpoint suback_loop (n : nat) (acks i end_ : Z) : parser Z :=
  match n with
  | O => give end_
  | S n =>
    '(d, end_) ← parse_u8 end_;
    _ ← put_suback set_dummy d;
    v5 ← check_v5;
    flags ← call (fun s => read_u8 s (acks + i));
    r ← suback_reason v5 flags;
    p ← get_packet;
    match r with
    | None => oob
    | Some r =>
      _ ← stop_if (((RRR_MQTT_P_GET_TYPE p =? RRR_MQTT_P_TYPE_SUBACK) && (for_suback r =? 0)) ||
                   ((RRR_MQTT_P_GET_TYPE p =? RRR_MQTT_P_TYPE_UNSUBACK) && (for_unsuback r =? 0)))
            RRR_MQTT_SOFT_ERROR;
      suback_loop n acks (i + 1) end_
    end
  end.

Definition suback_payload (no_payload : bool) (end_ : Z) : parser unit :=
  if no_payload then verify_no_payload end_
  else
    payload_length ← get_payload_size;
    _ ← stop_if (payload_length =? 0) RRR_MQTT_SOFT_ERROR;
    s ← ask;
    _ ← stop_if (negb (target_size s <=? buf_wpos s)) RRR_MQTT_INCOMPLETE;
    _ ← modify (fun s => RRR_MQTT_PARSE_STATUS_SET s RRR_MQTT_PARSE_STATUS_MOVE_PAYLOAD_TO_PACKET);
    _ ← put_suback set_acknowledgements (payload_pos s, payload_length);
    _ ← stop_if (payload_length =? 0) RRR_MQTT_SOFT_ERROR;
    end_ ← suback_loop (Z.to_nat payload_length) (payload_pos s) 0 end_;
    _ ← verify_at_end end_;
    parse_done.

Definition rrr_mqtt_parse_suback_unsuback (no_payload : bool) : parser unit :=
  header_and_payload (suback_header no_payload) (suback_payload no_payload).

Definition rrr_mqtt_parse_suback : parser unit :=
  _ ← require_protocol_version;
  _ ← parse_allocate;
  rrr_mqtt_parse_suback_unsuback false.

Definition rrr_mqtt_parse_unsuback : parser unit :=
  _ ← require_protocol_version;
  _ ← parse_allocate;
  v5 ← check_v5;
  rrr_mqtt_parse_suback_unsuback (negb v5).

(** ** PINGREQ, PINGRESP, DISCONNECT, AUTH *)

Definition ping_header (end_ : Z) : parser (option Z) :=
  _ ← require_protocol_version;
  _ ← parse_allocate;
  _ ← verify_at_end end_;
  give (Some end_).

Definition rrr_mqtt_parse_pingreq : parser unit := header_and_payload ping_header (fun _ => parse_done).
Definition rrr_mqtt_parse_pingresp : parser unit := header_and_payload ping_header (fun _ => parse_done).

Definition disconnect_header (end_ : Z) : parser (option Z) :=
  _ ← require_protocol_version;
  _ ← parse_allocate;
  s ← ask;
  match s_protocol_version s with
  | None => oob
  | Some v =>
    let remaining := u64 (target_size s - variable_header_pos s) in
    if v_id v <? 5 then
      _ ← stop_if (negb (remaining =? 0)) RRR_MQTT_SOFT_ERROR;
      give None
    else if remaining =? 0 then give None
    else
      '(r, end_) ← parse_u8 end_;
      p ← get_packet;
      _ ← put_packet (set_reason_v5 p r (reason p));
      if remaining =? 1 then give None
      else
        end_ ← properties_if_v5 get_disconnect
                 (fun v => _ ← get_disconnect; put_body (Disconnect v)) end_;
        give (Some end_)
  end.

Definition rrr_mqtt_parse_disconnect : parser unit :=
  header_and_payload disconnect_header verify_no_payload.

Definition rrr_mqtt_parse_auth : parser unit := stop RRR_MQTT_SOFT_ERROR.

(** [type_properties->parse] *)
Definition type_parse (t : rrr_mqtt_p_type_properties) : parser unit :=
  let id := type_id t in
  if id =? RRR_MQTT_P_TYPE_CONNECT then rrr_mqtt_parse_connect
  else if id =? RRR_MQTT_P_TYPE_CONNACK then rrr_mqtt_parse_connack
  else if id =? RRR_MQTT_P_TYPE_PUBLISH then rrr_mqtt_parse_publish
  else if (RRR_MQTT_P_TYPE_PUBACK <=? id) && (id <=? RRR_MQTT_P_TYPE_PUBCOMP) then
    rrr_mqtt_parse_def_puback
  else if id =? RRR_MQTT_P_TYPE_SUBSCRIBE then rrr_mqtt_parse_subscribe
  else if id =? RRR_MQTT_P_TYPE_SUBACK then rrr_mqtt_parse_suback
  else if id =? RRR_MQTT_P_TYPE_UNSUBSCRIBE then rrr_mqtt_parse_unsubscribe
  else if id =? RRR_MQTT_P_TYPE_UNSUBACK then rrr_mqtt_parse_unsuback
  else if id =? RRR_MQTT_P_TYPE_PINGREQ then rrr_mqtt_parse_pingreq
  else if id =? RRR_MQTT_P_TYPE_PINGRESP then rrr_mqtt_parse_pingresp
  else if id =? RRR_MQTT_P_TYPE_DISCONNECT then rrr_mqtt_parse_disconnect
  else rrr_mqtt_parse_auth.

(** ** Whole packets *)

Definition set_fixed_header (s : rrr_mqtt_parse_session) (t : rrr_mqtt_p_type_properties)
    (pos size type flags : Z) : rrr_mqtt_parse_session :=
  mk_session (status s) (buf s) (header_parse_attempts s) (Some t) (s_protocol_version s)
    (packet s) pos (payload_pos s) (payload_checkpoint s) (buf_wpos s) size type flags.

Definition SET_ERR (s : rrr_mqtt_parse_session) : rrr_mqtt_parse_session :=
  RRR_MQTT_PARSE_STATUS_SET s RRR_MQTT_PARSE_STATUS_ERR.

(** The fixed header; whether to go on. *)
Definition parse_fixed_header (s : rrr_mqtt_parse_session) : outcome (bool * rrr_mqtt_parse_session) :=
  b ← read_u8 s 0;
  let type := (b &&& u8 (0xF <<< 4)) >>> 4 in
  let flags := b &&& 0xF in
  if type =? 0 then Ret (false, SET_ERR s)
  else
    t ← rrr_mqtt_p_get_type_properties type;
    if negb (has_reserved_flags t =? 0) && negb (flags =? t_flags t) then Ret (false, SET_ERR s)
    else
      '(ret_tmp, remaining_length, bytes_parsed) ← rrr_mqtt_parse_variable_int s 1 (buf_wpos s);
      if negb (ret_tmp =? 0) then
        if ret_tmp =? RRR_MQTT_INCOMPLETE then Ret (false, s) else Ret (false, SET_ERR s)
      else
        pos ← rrr_length_from_biglength_bug_const (1 + bytes_parsed);
        let size := u64 (1 + bytes_parsed + remaining_length) in
        let s := set_fixed_header s t pos size type flags in
        if size <=? 0 then Ret (false, SET_ERR s)
        else Ret (true, RRR_MQTT_PARSE_STATUS_SET s RRR_MQTT_PARSE_STATUS_FIXED_HEADER_DONE).

Definition rrr_mqtt_packet_parse (s : rrr_mqtt_parse_session) : outcome rrr_mqtt_parse_session :=
  match buf s with
  | None => Bug
  | Some _ =>
    if RRR_MQTT_PARSE_IS_ERR s then Bug
    else if RRR_MQTT_PARSE_IS_COMPLETE s then Bug
    else if buf_wpos s <? 2 then Ret s
    else
      '(go_on, s) ←
        (if negb (RRR_MQTT_PARSE_FIXED_HEADER_IS_DONE s) then parse_fixed_header s else Ret (true, s));
      if negb go_on then Ret s
      else
        let s := if negb (RRR_MQTT_PARSE_VARIABLE_HEADER_IS_DONE s)
                 then set_attempts s (header_parse_attempts s + 1) else s in
        if negb (RRR_MQTT_PARSE_VARIABLE_HEADER_IS_DONE s) && (10 <? header_parse_attempts s)
        then Ret (SET_ERR s)
        else
          match s_type_properties s with
          | None => Oob
          | Some t =>
            '(s, r) ← type_parse t s;
            let ret_tmp := match r with inr _ => RRR_MQTT_OK | inl ret => ret end in
            if negb (ret_tmp =? RRR_MQTT_OK) then
              if ret_tmp =? RRR_MQTT_INCOMPLETE then Ret s else Ret (SET_ERR s)
            else if RRR_MQTT_PARSE_STATUS_PAYLOAD_IS_DONE s then
              match packet s with
              | None => Oob
              | Some p =>
                n ← rrr_length_from_biglength_bug_const (target_size s);
                Ret (RRR_MQTT_PARSE_STATUS_SET (set_packet s (Some (set_received_size p n)))
                       RRR_MQTT_PARSE_STATUS_COMPLETE)
              end
            else Ret s
          end
  end.

End Parse.

Definition rrr_mqtt_packet_parse_session_extract_packet (s : rrr_mqtt_parse_session)
  : outcome (rrr_mqtt_p * rrr_mqtt_parse_session) :=
  match packet s with
  | None => Bug
  | Some p =>
    if negb (RRR_MQTT_PARSE_STATUS_PAYLOAD_IS_DONE s) then Bug
    else Ret (set_type_flags p (s_type_flags s), set_packet s None)
  end.

End MqttParsePacket.
