(* ===== verification/MqttParseSafe.v ===== *)
(** The MQTT parser on arbitrary input: whatever bytes have been received, and in
    whatever pieces, it ends and leaves a session that can be continued, is complete or
    has failed.  There are two exceptions, both stated with the theorem: SUBSCRIBE packets of
    MQTT 5 may end the program, and SUBSCRIBE and UNSUBSCRIBE packets use memory that was
    refused.  The proofs use a logic of triples for
    the parsers of [MqttParsePacket]. *)
From S2P Require Import Prelude Types Utf8 Parse MqttTopic MsgHead MqttPayloadBuf MqttProperty.
From S2P Require Import MqttSubscription MqttPacket MqttParse MqttParsePacket.
From stdpp Require Import strings.
Open Scope Z_scope.
Open Scope c_scope.

Module MqttParseSafe.
Import Types Utf8 Parse MqttTopic MsgHead MqttPayloadBuf MqttProperty MqttSubscription MqttPacket.
Import MqttParse MqttParsePacket.

(** * Status flags *)

Lemma status_is_set s f g :
  status_is (RRR_MQTT_PARSE_STATUS_SET s f) g = status_is s g || negb ((f &&& g) =? 0).
Proof.
  unfold status_is, RRR_MQTT_PARSE_STATUS_SET. cbn [status].
  rewrite Z.land_lor_distr_l. rewrite <- negb_andb. f_equal. apply eq_true_iff_eq.
  rewrite andb_true_iff, !Z.eqb_eq, Z.lor_eq_0_iff. done.
Qed.

Lemma status_is_packet s p g : status_is (set_packet s p) g = status_is s g.
Proof. done. Qed.

(** * Sessions between two calls *)

Definition is_v5 (v : rrr_mqtt_p_protocol_version) : Prop := RRR_MQTT_VERSION_5 <= v_id v.

(** The structure of a packet is that of its type. *)
Definition kind_ok (id : Z) (b : packet_body) : Prop :=
  match b with
  | Connect _ => id = RRR_MQTT_P_TYPE_CONNECT
  | Connack _ => id = RRR_MQTT_P_TYPE_CONNACK
  | Publish _ => id = RRR_MQTT_P_TYPE_PUBLISH
  | Def_puback _ => RRR_MQTT_P_TYPE_PUBACK <= id <= RRR_MQTT_P_TYPE_PUBCOMP
  | Sub_usub p => (id = RRR_MQTT_P_TYPE_SUBSCRIBE \/ id = RRR_MQTT_P_TYPE_UNSUBSCRIBE) /\
                  collection_ok (subscriptions p)
  | Suback_unsuback _ => id = RRR_MQTT_P_TYPE_SUBACK \/ id = RRR_MQTT_P_TYPE_UNSUBACK
  | Disconnect _ => id = RRR_MQTT_P_TYPE_DISCONNECT
  | Plain => id = RRR_MQTT_P_TYPE_PINGREQ \/ id = RRR_MQTT_P_TYPE_PINGRESP \/
             id = RRR_MQTT_P_TYPE_AUTH
  end.

Definition packet_ok (t : rrr_mqtt_p_type_properties) (p : rrr_mqtt_p) : Prop :=
  type_properties p = t /\ kind_ok (type_id t) (body p).

Definition unfinished (s : rrr_mqtt_parse_session) : Prop :=
  RRR_MQTT_PARSE_IS_ERR s = false /\ RRR_MQTT_PARSE_IS_COMPLETE s = false /\
  RRR_MQTT_PARSE_STATUS_PAYLOAD_IS_DONE s = false.

(** A session whose fixed header has been parsed. *)
Definition frame_ok (t : rrr_mqtt_p_type_properties) (s : rrr_mqtt_parse_session) : Prop :=
  RRR_MQTT_PARSE_FIXED_HEADER_IS_DONE s = true /\
  s_type_properties s = Some t /\ 1 <= type_id t <= 15 /\
  0 <= variable_header_pos s <= target_size s /\ target_size s < 2 ^ 29 /\
  0 <= payload_pos s < 2 ^ 32 /\ 0 <= payload_checkpoint s < 2 ^ 32 /\
  (forall p, packet s = Some p -> packet_ok t p) /\
  (RRR_MQTT_PARSE_VARIABLE_HEADER_IS_DONE s = true -> packet s <> None).

(** A session that waits for more bytes, or for the first ones. *)
Definition session_ok (s : rrr_mqtt_parse_session) : Prop :=
  unfinished s /\
  ((RRR_MQTT_PARSE_FIXED_HEADER_IS_DONE s = false /\ packet s = None /\
    RRR_MQTT_PARSE_VARIABLE_HEADER_IS_DONE s = false /\ payload_pos s = 0 /\ payload_checkpoint s = 0) \/
   exists t, frame_ok t s).

(** * Triples *)

(** [B] and [O] are what the end of the program and an access out of bounds are excused by. *)
Definition wp {A} (B O : Prop) (m : parser A) (s : rrr_mqtt_parse_session)
    (Q : A -> rrr_mqtt_parse_session -> Prop) (E : Z -> rrr_mqtt_parse_session -> Prop) : Prop :=
  match m s with
  | Ret (s', inr a) => Q a s'
  | Ret (s', inl c) => E c s'
  | Bug => B
  | Oob => O
  end.

Section Safe.
(** [B] is the one case in which the program is ended, [O] that of memory that is used although
    it was refused. *)
Context (B O : Prop) (t : rrr_mqtt_p_type_properties) (bytes : list Z) (size : Z).

(** What holds all the time while a packet of type [t] is parsed. *)
Definition running (s : rrr_mqtt_parse_session) : Prop :=
  buf s = Some bytes /\ buf_wpos s = Z.of_nat (length bytes) /\ bytes_ok bytes /\
  buf_wpos s < 2 ^ 31 /\ target_size s = size /\ unfinished s /\ frame_ok t s /\
  (type_id t = RRR_MQTT_P_TYPE_SUBSCRIBE ->
   match packet s with
   | Some p => is_v5 (protocol_version p) -> B
   | None => forall v, s_protocol_version s = Some v -> is_v5 v -> B
   end).

(** The packet has been allocated. *)
Definition allocated (s : rrr_mqtt_parse_session) : Prop := running s /\ packet s <> None.

Definition failed (c : Z) (s : rrr_mqtt_parse_session) : Prop := running s /\ c <> RRR_MQTT_OK.

Definition triple {A} (P : rrr_mqtt_parse_session -> Prop) (m : parser A)
    (Q : A -> rrr_mqtt_parse_session -> Prop) : Prop :=
  forall s, P s -> wp B O m s Q failed.

(** Offsets in the packet: they may lie behind what has been received. *)
Definition pos_ok (e : Z) : Prop := 0 <= e < 2 ^ 32.

Lemma running_buffer s : running s -> buffer_ok s.
Proof. intros (Hb & Hw & Hbs & Hlim & _). exists bytes. done. Qed.

Lemma running_wpos s : running s -> buf_wpos s = Z.of_nat (length bytes) /\ buf_wpos s < 2 ^ 31.
Proof. intros (Hb & Hw & Hbs & Hlim & _). done. Qed.

Lemma allocated_running s : allocated s -> running s.
Proof. by intros []. Qed.

(** ** Rules *)

Lemma triple_bind {A C} P (m : parser A) (f : A -> parser C) Q R :
  triple P m Q -> (forall a, triple (Q a) (f a) R) -> triple P (a ← m; f a) R.
Proof.
  intros Hm Hf s Hs. specialize (Hm s Hs). unfold wp, mbind, parser_bind in *.
  destruct (m s) as [[s' [c|a]]| |]; [done| |done|done]. by apply Hf.
Qed.

(** The form used most: the invariant is kept and something is learned. *)
Lemma triple_step {A C} (P P' : rrr_mqtt_parse_session -> Prop) (m : parser A) (f : A -> parser C)
    (F : A -> Prop) R :
  triple P m (fun a s => P' s /\ F a) -> (forall a, F a -> triple P' (f a) R) ->
  triple P (a ← m; f a) R.
Proof.
  intros Hm Hf. apply (triple_bind _ _ _ _ _ Hm). intros a s [Hs Ha]. by apply (Hf a Ha).
Qed.

Lemma triple_conseq {A} P (m : parser A) (Q Q' : A -> rrr_mqtt_parse_session -> Prop) :
  triple P m Q -> (forall a s, Q a s -> Q' a s) -> triple P m Q'.
Proof.
  intros Hm HQ s Hs. specialize (Hm s Hs). unfold wp in *.
  destruct (m s) as [[s' [c|a]]| |]; try done. by apply HQ.
Qed.

Lemma triple_give {A} P (a : A) (Q : A -> rrr_mqtt_parse_session -> Prop) :
  (forall s, P s -> Q a s) -> triple P (give a) Q.
Proof. intros H s Hs. by apply H. Qed.

Lemma triple_stop {A} (P : rrr_mqtt_parse_session -> Prop) c (Q : A -> rrr_mqtt_parse_session -> Prop) :
  (forall s, P s -> running s) -> c <> RRR_MQTT_OK -> triple P (stop c) Q.
Proof. intros H Hc s Hs. split; [by apply H|done]. Qed.

Lemma triple_stop_if P b c : (forall s, P s -> running s) -> (b = true -> c <> RRR_MQTT_OK) ->
  triple P (stop_if b c) (fun _ s => P s /\ b = false).
Proof. intros H Hc. unfold stop_if. destruct b; [apply triple_stop; auto|by apply triple_give]. Qed.

Lemma triple_ask (P : rrr_mqtt_parse_session -> Prop) : triple P ask (fun a s => P s /\ a = s).
Proof. by intros s Hs. Qed.

Lemma triple_ask_bind {C} (P : rrr_mqtt_parse_session -> Prop) (f : rrr_mqtt_parse_session -> parser C) Q :
  (forall s, P s -> wp B O (f s) s Q failed) -> triple P (s ← ask; f s) Q.
Proof. intros H s Hs. by apply H. Qed.

Lemma triple_call {A} P (f : rrr_mqtt_parse_session -> outcome A) (F : A -> Prop) :
  (forall s, P s -> exists a, f s = Ret a /\ F a) -> triple P (call f) (fun a s => P s /\ F a).
Proof.
  intros H s Hs. destruct (H s Hs) as (a & Ha & HF). unfold wp, call. by rewrite Ha.
Qed.

(** A packet that may be in the session. *)
Definition packet_good (p : rrr_mqtt_p) : Prop :=
  packet_ok t p /\ (type_id t = RRR_MQTT_P_TYPE_SUBSCRIBE -> is_v5 (protocol_version p) -> B).

Lemma running_packet s p : running s -> packet s = Some p -> packet_good p.
Proof.
  intros (_ & _ & _ & _ & _ & _ & (_ & _ & _ & _ & _ & _ & _ & Hok & _) & HB) Hp.
  split; [by apply Hok|]. by rewrite Hp in HB.
Qed.

Lemma set_packet_allocated s p : running s -> packet_good p -> allocated (set_packet s (Some p)).
Proof.
  intros (H1 & H2 & H3 & H4 & H5 & H6 & (F1 & F2 & F3 & F4 & F5 & F6 & F7 & F8 & F9) & H7) (Hok & HB).
  split; [|done]. unfold running. split_and!; try done; try apply H6.
  unfold frame_ok. split_and!; try done; try apply F3; try apply F4; try apply F6; try apply F7.
  cbn. by intros q [= <-].
Qed.

Lemma triple_get_packet : triple allocated get_packet (fun p s => allocated s /\ packet_good p).
Proof.
  intros s Hs. unfold wp, get_packet, mbind, parser_bind, ask. pose proof Hs as [Hr Hp].
  destruct (packet s) as [p|] eqn:E; [|done]. split; [done|]. by apply (running_packet s).
Qed.

Lemma triple_put_packet p : packet_good p ->
  triple allocated (put_packet p) (fun _ s => allocated s /\ True).
Proof. intros Hp s [Hs _]. split; [|done]. by apply set_packet_allocated. Qed.

Lemma triple_put_body b : kind_ok (type_id t) b ->
  triple allocated (put_body b) (fun _ s => allocated s /\ True).
Proof.
  intros Hb. apply (triple_step allocated allocated _ _ packet_good); [apply triple_get_packet|].
  intros p [[Hp Hk] HB]. apply triple_put_packet. done.
Qed.

(** ** Operations that only read, under any assertion *)

Section Read.
Context (big : bool) (P : rrr_mqtt_parse_session -> Prop) (HP : forall s, P s -> running s).

Lemma triple_prepare e n : pos_ok e -> 0 <= n ->
  triple P (prepare e n) (fun r s => P s /\ (r = (e, e + n) /\ e + n <= Z.of_nat (length bytes) /\ pos_ok (e + n))).
Proof using Type HP.
  intros He Hn s Hs. destruct (running_wpos s (HP s Hs)) as [Hw Hlim].
  unfold wp, prepare, mbind, parser_bind, ask, stop_if, beyond.
  destruct (Z.ltb_spec (buf_wpos s) (e + n)); cbn.
  - split; [by apply HP|done].
  - split; [done|]. split; [done|]. unfold pos_ok in *. lia.
Qed.

Lemma triple_parse_u8 e : pos_ok e ->
  triple P (parse_u8 e) (fun r s => P s /\ (byte_ok r.1 /\ r.2 = e + 1 /\ pos_ok r.2)).
Proof using Type HP.
  intros He. apply (triple_step P P _ _ _ _ (triple_prepare e 1 He ltac:(lia))).
  intros [a b] ([= -> ->] & Hend & Hpos). apply (triple_step P P _ _ byte_ok).
  - apply triple_call. intros s Hs. destruct (running_wpos s (HP s Hs)) as [Hw Hlim].
    apply read_u8_inside; [by apply running_buffer, HP|]. unfold pos_ok in He. lia.
  - intros v Hv. apply triple_give. intros s Hs. split; [done|]. cbn. split_and!; [done..|].
    destruct (running_wpos s (HP s Hs)) as [Hw Hlim]. unfold pos_ok in *. lia.
Qed.

Lemma triple_parse_u16 e : pos_ok e ->
  triple P (parse_u16 big e) (fun r s => P s /\ (0 <= r.1 < 2 ^ 16 /\ pos_ok r.2)).
Proof using Type HP.
  intros He. apply (triple_step P P _ _ _ _ (triple_prepare e 2 He ltac:(lia))).
  intros [a b] ([= -> ->] & Hend & Hpos). apply (triple_step P P _ _ (fun v => 0 <= v < 2 ^ 16)).
  - apply triple_call. intros s Hs. destruct (running_wpos s (HP s Hs)) as [Hw Hlim].
    apply read_u16_inside; [by apply running_buffer, HP|unfold pos_ok in He; lia..].
  - intros v Hv. apply triple_give. intros s Hs. split; [done|]. cbn. split; [done|].
    destruct (running_wpos s (HP s Hs)) as [Hw Hlim]. unfold pos_ok in *. lia.
Qed.

Lemma triple_check_target_end e :
  triple P (check_target_end e) (fun r s => P s /\ r = beyond (e + 1) size).
Proof using Type HP.
  intros s Hs. unfold wp, check_target_end, mbind, parser_bind, ask. cbn. split; [done|].
  destruct (HP s Hs) as (_ & _ & _ & _ & -> & _). done.
Qed.

Lemma triple_verify_at_end e :
  triple P (verify_at_end e) (fun _ s => P s /\ size < e + 1).
Proof using Type HP.
  apply (triple_step P P _ _ _ _ (triple_check_target_end e)). intros at_end ->.
  eapply triple_conseq; [by apply (triple_stop_if _ _ _ HP)|]. intros ? s [Hs Hb]. split; [done|]. apply negb_false_iff in Hb. unfold beyond in Hb. lia.
Qed.

Lemma triple_require_version :
  triple P require_protocol_version (fun _ s => P s /\ s_protocol_version s <> None).
Proof using Type HP.
  intros s Hs. unfold wp, require_protocol_version, mbind, parser_bind, ask.
  destruct (s_protocol_version s) as [v|] eqn:E; cbn; [by rewrite E|]. split; [by apply HP|done].
Qed.

End Read.

Lemma running_id s : running s -> running s.
Proof. done. Qed.

(** ** The packet *)

Lemma zero_body_kind id : 1 <= id <= 15 -> kind_ok id (zero_body id).
Proof.
  intros Hid.
  assert (id ∈ seqZ 1 15) as Hin by (apply elem_of_seqZ; lia). revert Hin. clear Hid.
  change (seqZ 1 15) with [1; 2; 3; 4; 5; 6; 7; 8; 9; 10; 11; 12; 13; 14; 15].
  rewrite !elem_of_cons. intros Hin. repeat (destruct Hin as [->|Hin]; [
    cbn; unfold RRR_MQTT_P_TYPE_PUBACK, RRR_MQTT_P_TYPE_PUBCOMP, RRR_MQTT_P_TYPE_SUBACK,
      RRR_MQTT_P_TYPE_UNSUBACK, RRR_MQTT_P_TYPE_SUBSCRIBE, RRR_MQTT_P_TYPE_UNSUBSCRIBE,
      RRR_MQTT_P_TYPE_PINGREQ, RRR_MQTT_P_TYPE_PINGRESP, RRR_MQTT_P_TYPE_AUTH;
    first [done|lia|split; [lia|by split_and!; try constructor]]|]).
  by apply elem_of_nil in Hin.
Qed.

Section Packet.
Context (big : bool) (alloc_ok alloc_sub alloc_packet : Z -> bool) (alloc_token : nat -> bool).
Context (now : Z).
Context (Hsub : type_id t = RRR_MQTT_P_TYPE_SUBSCRIBE \/ type_id t = RRR_MQTT_P_TYPE_UNSUBSCRIBE ->
  (exists n, alloc_sub n = false) -> O).

Lemma type_allocate_good v : 1 <= type_id t <= 15 ->
  type_allocate alloc_sub alloc_packet now t v = Oob /\ O \/
  exists r, type_allocate alloc_sub alloc_packet now t v = Ret r /\
    forall p, r = Some p -> packet_ok t p /\ protocol_version p = v.
Proof using Type Hsub.
  intros Ht. pose proof (zero_body_kind _ Ht) as Hk. unfold type_allocate.
  destruct (Z.eqb_spec (type_id t) RRR_MQTT_P_TYPE_PUBLISH) as [E|E].
  - unfold rrr_mqtt_p_allocate_publish, rrr_mqtt_p_allocate_raw. rewrite E.
    right. destruct (alloc_packet _); cbn; eexists; (split; [done|]); [|done].
    intros p [= <-]. split; [|done]. split; [done|]. by rewrite E.
  - destruct (_ || _) eqn:Es.
    + unfold rrr_mqtt_p_allocate_sub_usub, rrr_mqtt_p_allocate_raw.
      destruct (alloc_packet _); cbn; [|right; by eexists].
      apply orb_true_iff in Es. rewrite !Z.eqb_eq in Es.
      unfold rrr_mqtt_subscription_collection_new. destruct (alloc_sub _) eqn:Ea; cbn.
      2:{ left. split; [done|]. apply Hsub; [done|by eexists]. }
      right. destruct (zero_body (type_id t)) eqn:Ez;
        try (by destruct Es as [Es|Es]; rewrite Es in Ez).
      eexists. split; [done|]. intros q [= <-]. split; [|done]. split; [done|]. cbn.
      split; [by destruct Es; auto|]. by split_and!; try constructor.
    + right. unfold rrr_mqtt_p_allocate_raw. destruct (alloc_packet _); cbn; eexists; (split; [done|]); [|done].
      by intros p [= <-].
Qed.

Lemma triple_allocate P : (forall s, P s -> running s) ->
  (forall s, P s -> s_protocol_version s <> None) ->
  triple P (parse_allocate alloc_sub alloc_packet now) (fun _ s => allocated s /\ True).
Proof using Type Hsub.
  intros HP HV s Hs. pose proof (HP s Hs) as Hr. unfold wp, parse_allocate, mbind, parser_bind, ask.
  destruct (packet s) as [p|] eqn:Ep; cbn.
  { split; [|done]. split; [done|]. by rewrite Ep. }
  pose proof Hr as (_ & _ & _ & _ & _ & _ & (_ & Ft & Fid & _) & HB). rewrite Ft. rewrite Ep in HB.
  destruct (s_protocol_version s) as [v|] eqn:Ev; [|by apply HV in Ev].
  unfold call. destruct (type_allocate_good v Fid) as [[-> HO]|(r & Hra & Hgood)]; [done|]. rewrite Hra. cbn.
  destruct r as [p|]; cbn; [|split; [done|done]].
  destruct (Hgood p eq_refl) as [Hok Hpv]. split; [|done]. apply set_packet_allocated; [done|].
  split; [done|]. intros Htid. rewrite Hpv. by apply HB.
Qed.

(** The header parsers begin with these two. *)
Lemma triple_require_allocate {C} (f : parser C) R : triple allocated f R ->
  triple running (_ ← require_protocol_version; _ ← parse_allocate alloc_sub alloc_packet now; f) R.
Proof using Type Hsub.
  intros Hf. apply (triple_bind _ _ _ _ _ (triple_require_version running running_id)). intros _.
  apply (triple_step _ allocated _ _ (fun _ => True)); [|by intros _ _].
  apply triple_allocate; by intros s [].
Qed.

(** ** Fields of the packet *)

Ltac getter :=
  intros Hid; apply (triple_step allocated allocated _ _ packet_good); [apply triple_get_packet|];
  intros ?p [[_ Hk] _]; destruct (body p); cbn in Hk;
  first [by apply triple_give
        |exfalso; repeat (unfold RRR_MQTT_P_TYPE_CONNECT, RRR_MQTT_P_TYPE_CONNACK,
           RRR_MQTT_P_TYPE_PUBLISH, RRR_MQTT_P_TYPE_PUBACK, RRR_MQTT_P_TYPE_PUBCOMP,
           RRR_MQTT_P_TYPE_SUBSCRIBE, RRR_MQTT_P_TYPE_UNSUBSCRIBE, RRR_MQTT_P_TYPE_SUBACK,
           RRR_MQTT_P_TYPE_UNSUBACK, RRR_MQTT_P_TYPE_PINGREQ, RRR_MQTT_P_TYPE_PINGRESP,
           RRR_MQTT_P_TYPE_DISCONNECT, RRR_MQTT_P_TYPE_AUTH in Hk); lia].

Lemma triple_get_connect : type_id t = 1 ->
  triple allocated get_connect (fun _ s => allocated s /\ True).
Proof. getter. Qed.
Lemma triple_get_connack : type_id t = 2 ->
  triple allocated get_connack (fun _ s => allocated s /\ True).
Proof. getter. Qed.
Lemma triple_get_publish : type_id t = 3 ->
  triple allocated get_publish (fun _ s => allocated s /\ True).
Proof. getter. Qed.
Lemma triple_get_def_puback : 4 <= type_id t <= 7 ->
  triple allocated get_def_puback (fun _ s => allocated s /\ True).
Proof. getter. Qed.
Lemma triple_get_suback : type_id t = 9 \/ type_id t = 11 ->
  triple allocated get_suback (fun _ s => allocated s /\ True).
Proof. getter. Qed.
Lemma triple_get_disconnect : type_id t = 14 ->
  triple allocated get_disconnect (fun _ s => allocated s /\ True).
Proof. getter. Qed.
Lemma triple_get_sub_usub : type_id t = 8 \/ type_id t = 10 ->
  triple allocated get_sub_usub (fun b s => allocated s /\ collection_ok (subscriptions b)).
Proof.
  intros Hid; apply (triple_step allocated allocated _ _ packet_good); [apply triple_get_packet|].
  intros p [[_ Hk] _]. destruct (body p); cbn in Hk; try (exfalso;
    unfold RRR_MQTT_P_TYPE_CONNECT, RRR_MQTT_P_TYPE_CONNACK, RRR_MQTT_P_TYPE_PUBLISH,
      RRR_MQTT_P_TYPE_PUBACK, RRR_MQTT_P_TYPE_PUBCOMP, RRR_MQTT_P_TYPE_SUBACK,
      RRR_MQTT_P_TYPE_UNSUBACK, RRR_MQTT_P_TYPE_PINGREQ, RRR_MQTT_P_TYPE_PINGRESP,
      RRR_MQTT_P_TYPE_DISCONNECT, RRR_MQTT_P_TYPE_AUTH in Hk; lia).
  apply triple_give. intros s Hs. split; [done|apply Hk].
Qed.

(** Writing a field. *)
Definition writes {A} (put : A -> parser unit) : Prop :=
  forall v, triple allocated (put v) (fun _ s => allocated s /\ True).

Lemma put_connect_writes {A} (set : rrr_mqtt_p_connect -> A -> rrr_mqtt_p_connect) :
  type_id t = 1 -> writes (put_connect set).
Proof.
  intros Hid v. apply (triple_step allocated allocated _ _ (fun _ => True)).
  - by apply triple_get_connect.
  - intros b _. by apply triple_put_body.
Qed.

Lemma put_publish_writes {A} (set : rrr_mqtt_p_publish -> A -> rrr_mqtt_p_publish) :
  type_id t = 3 -> writes (put_publish set).
Proof.
  intros Hid v. apply (triple_step allocated allocated _ _ (fun _ => True)).
  - by apply triple_get_publish.
  - intros b _. by apply triple_put_body.
Qed.

Lemma put_suback_writes {A} (set : rrr_mqtt_p_suback_unsuback -> A -> rrr_mqtt_p_suback_unsuback) :
  type_id t = 9 \/ type_id t = 11 -> writes (put_suback set).
Proof.
  intros Hid v. apply (triple_step allocated allocated _ _ (fun _ => True)).
  - by apply triple_get_suback.
  - intros b _. by apply triple_put_body.
Qed.

Lemma put_sub_usub_triple {A} (set : rrr_mqtt_p_sub_usub -> A -> rrr_mqtt_p_sub_usub) v :
  type_id t = 8 \/ type_id t = 10 ->
  (forall b, collection_ok (subscriptions b) -> collection_ok (subscriptions (set b v))) ->
  triple allocated (put_sub_usub set v) (fun _ s => allocated s /\ True).
Proof.
  intros Hid Hset. apply (triple_step allocated allocated _ _ (fun b => collection_ok (subscriptions b))).
  - by apply triple_get_sub_usub.
  - intros b Hb. apply triple_put_body. cbn. split; [done|by apply Hset].
Qed.

(** ** The macros *)

Lemma nonzero_status ret : negb (ret =? 0) = true -> ret <> RRR_MQTT_OK.
Proof. intros H ->. done. Qed.

Lemma triple_packet_id e : pos_ok e ->
  triple allocated (parse_packet_id big e) (fun r s => allocated s /\ pos_ok r).
Proof.
  intros He. eapply triple_step; [apply (triple_parse_u16 big allocated allocated_running e He)|].
  intros [id e'] [_ He']. eapply triple_step; [apply triple_get_packet|]. intros p [[Hp Hk] HB].
  eapply triple_step; [by apply triple_put_packet|]. intros _ _.
  eapply triple_step; [apply (triple_stop_if _ _ _ allocated_running); done|]. intros _ _.
  by apply triple_give.
Qed.

Lemma triple_check_v5 : triple allocated check_v5 (fun r s => allocated s /\
  (type_id t = RRR_MQTT_P_TYPE_SUBSCRIBE -> r = true -> B)).
Proof.
  eapply triple_step; [apply triple_get_packet|]. intros p [[Hp Hk] HB]. apply triple_give.
  intros s Hs. split; [done|]. intros Ht Hv. apply HB; [done|]. by apply Z.leb_le in Hv.
Qed.

Lemma triple_save_reason r : triple allocated (rrr_mqtt_parse_save_and_check_reason r)
  (fun ret s => allocated s /\ (ret = RRR_MQTT_OK -> exists p, packet s = Some p /\ reason p <> None)).
Proof.
  eapply triple_step; [apply triple_get_packet|]. intros p [[Hp Hk] HB].
  destruct (if RRR_MQTT_VERSION_5 <=? _ then _ else _) as [e|]; [|by apply triple_give].
  intros s [Hs _]. unfold wp, mbind, parser_bind, put_packet, modify, give.
  assert (packet_good (set_reason_v5 p (v5_reason e) (Some e))) as Hg by done.
  split; [by apply set_packet_allocated|]. intros _. by eexists.
Qed.

Lemma triple_reason_struct for_ r :
  triple allocated (save_and_check_reason_struct for_ r) (fun _ s => allocated s /\ True).
Proof.
  eapply triple_bind; [apply triple_save_reason|]. intros ret s [Hs Hr].
  unfold wp, get_packet, mbind, parser_bind, stop_if, ask.
  destruct (Z.eqb_spec ret RRR_MQTT_OK) as [E|E]; cbn.
  - destruct (Hr E) as (p & Hp & Hreason). rewrite Hp. cbn. unfold give. cbn.
    destruct (reason p) as [e|]; [|done]. destruct (for_ e =? 0); cbn; [|done].
    split; [by apply Hs|done].
  - split; [by apply Hs|done].
Qed.

Lemma triple_properties get put e : pos_ok e ->
  triple allocated get (fun _ s => allocated s /\ True) -> writes put ->
  triple allocated (properties_if_v5 big alloc_ok get put e) (fun r s => allocated s /\ pos_ok r).
Proof.
  intros He Hget Hput. eapply triple_step; [apply triple_check_v5|]. intros v5 _.
  destruct v5; [|by apply triple_give]. eapply triple_step; [exact Hget|]. intros c _.
  apply (triple_step allocated allocated _ _ (fun r => r.1.1 = RRR_MQTT_OK -> pos_ok (e + r.2))).
  - apply triple_call. intros s [Hs _]. destruct (running_wpos s Hs) as [Hw Hlim].
    destruct (properties_safe big alloc_ok s c e (running_buffer s Hs)) as (ret & c' & n & Hr & Hok);
      [apply He|]. exists (ret, c', n). split; [done|]. cbn. intros ->. unfold pos_ok in *.
    specialize (Hok eq_refl). lia.
  - intros [[ret c'] n] Hn. cbn in Hn. eapply triple_step; [apply Hput|]. intros _ _.
    eapply triple_step; [apply (triple_stop_if _ _ _ allocated_running)|].
    + apply nonzero_status.
    + intros ? Hb. apply triple_give. intros s Hs. split; [done|]. apply Hn.
      by apply negb_false_iff, Z.eqb_eq in Hb.
Qed.

(** The strings that are accepted. *)
Definition string_at (min l : Z) (obj : option (list Z)) : Prop :=
  exists bs, obj = Some (bs ++ [0]) /\ Z.of_nat (length bs) = l /\ bytes_ok bs /\ min <= l < 2 ^ 17.

Lemma triple_utf8_call e min : pos_ok e ->
  triple allocated
    (call (fun s => rrr_mqtt_parse_utf8 big alloc_ok s e (target_size s) (buf_wpos s) min))
    (fun r s => allocated s /\ (r.1.1.1 = RRR_MQTT_OK ->
       pos_ok (e + r.1.2) /\ string_at min r.2 r.1.1.2 /\ e + 2 + min <= e + r.1.2 <= size /\
       e + r.1.2 <= Z.of_nat (length bytes))).
Proof.
  intros He. apply triple_call. intros s [Hs _]. destruct (running_wpos s Hs) as [Hw Hlim].
  destruct (utf8_safe big alloc_ok s e (target_size s) min (running_buffer s Hs))
    as (ret & obj & n & l & Hr & Hn & Hok); [apply He|].
  exists (ret, obj, n, l). split; [done|]. cbn. intros ->.
  destruct (Hok eq_refl) as (Hnl & Hml & H1 & H2 & bs & Hobj & Hl & Hbs).
  assert (target_size s = size) as Hts by apply Hs.
  split; [unfold pos_ok in *; lia|]. split; [exists bs; split_and!; (done || lia)|]. lia.
Qed.

(** The string that was parsed is where it was put: [G] says so. *)
Lemma triple_utf8_with_length put (G : option (list Z) -> rrr_mqtt_parse_session -> Prop) min e :
  pos_ok e -> (forall v, triple allocated (put v) (fun _ s => allocated s /\ G v s)) ->
  triple allocated (utf8_with_length big alloc_ok put min e)
    (fun r s => (allocated s /\ exists obj, string_at min r.1.1 obj /\ G obj s) /\
       (pos_ok r.2 /\ e + 2 + min <= r.2 <= size /\ r.2 = e + r.1.2 /\
        r.2 <= Z.of_nat (length bytes))).
Proof.
  intros He Hput. eapply triple_step; [by apply triple_utf8_call|].
  intros [[[ret obj] n] l] Hok. cbn in Hok. eapply triple_bind; [apply Hput|]. intros ?.
  eapply triple_step; [apply triple_stop_if; [by intros s [[? _] _]|apply nonzero_status]|].
  intros ? Hb. apply triple_give. intros s [Hs HG].
  apply negb_false_iff, Z.eqb_eq in Hb. destruct (Hok Hb) as (H1 & H2 & H3). cbn.
  split_and!; try done; try apply H1; try lia. by exists obj.
Qed.

Lemma triple_utf8 put min e : pos_ok e -> writes put ->
  triple allocated (parse_utf8 big alloc_ok put min e) (fun r s => allocated s /\ pos_ok r).
Proof.
  intros He Hput. eapply triple_bind.
  - apply (triple_utf8_with_length put (fun _ _ => True) min e He). intros v s Hs.
    specialize (Hput v s Hs). done.
  - intros [[l n] e'] s [[Hs _] [He' _]]. done.
Qed.

Lemma triple_blob_nullsafe put e : pos_ok e -> writes put ->
  triple allocated (blob_nullsafe big alloc_ok put e) (fun r s => allocated s /\ pos_ok r).
Proof.
  intros He Hput. apply (triple_step allocated allocated _ _
    (fun r => r.1.1.1 = RRR_MQTT_OK -> pos_ok (e + r.1.2))).
  - apply triple_call. intros s [Hs _]. destruct (running_wpos s Hs) as [Hw Hlim].
    pose proof (running_buffer s Hs) as Hb. unfold rrr_mqtt_parse_blob_nullsafe, beyond.
    destruct (Z.ltb_spec (buf_wpos s) (e + 2)); [by eexists|]. unfold pos_ok in He.
    destruct (read_u16_inside big s e) as (l & -> & Hl); [done|lia..|]. cbn [mbind outcome_bind].
    destruct (Z.ltb_spec (target_size s) (e + 2 + l)); [by eexists|].
    destruct (Z.ltb_spec (buf_wpos s) (e + 2 + l)); [by eexists|].
    destruct (read_bytes_inside s (e + 2) l) as (bs & -> & _); [done|lia..|]. cbn [mbind outcome_bind].
    destruct (rrr_nullsafe_str_new alloc_ok bs) as [ret obj].
    destruct (negb (ret =? 0)); eexists; (split; [done|]); cbn; [done|]. unfold pos_ok. lia.
  - intros [[[ret obj] n] l] Hn. cbn in Hn. eapply triple_step; [apply Hput|]. intros _ _.
    eapply triple_step; [apply (triple_stop_if _ _ _ allocated_running)|].
    + apply nonzero_status.
    + intros ? Hb. apply triple_give. intros s Hs. split; [done|]. apply Hn.
      by apply negb_false_iff, Z.eqb_eq in Hb.
Qed.

(** ** Headers and payloads *)

(** The session after [parse_done]. *)
Definition done_session (s : rrr_mqtt_parse_session) : rrr_mqtt_parse_session :=
  RRR_MQTT_PARSE_STATUS_SET (RRR_MQTT_PARSE_STATUS_SET s RRR_MQTT_PARSE_STATUS_PAYLOAD_DONE)
    RRR_MQTT_PARSE_STATUS_VARIABLE_HEADER_DONE.

Definition finished (_ : unit) (s : rrr_mqtt_parse_session) : Prop :=
  exists s0, allocated s0 /\ s = done_session s0.

Lemma triple_parse_done P : (forall s, P s -> allocated s) -> triple P parse_done finished.
Proof. intros HP s Hs. exists s. split; [by apply HP|done]. Qed.

(** Flags that may be set on the way. *)
Lemma set_flag_allocated s f : allocated s ->
  f = RRR_MQTT_PARSE_STATUS_VARIABLE_HEADER_DONE \/ f = RRR_MQTT_PARSE_STATUS_MOVE_PAYLOAD_TO_PACKET ->
  allocated (RRR_MQTT_PARSE_STATUS_SET s f).
Proof.
  intros [(H1 & H2 & H3 & H4 & H5 & (U1 & U2 & U3) & (F1 & F2 & F3 & F4 & F5 & F6 & F7 & F8 & F9) & H7) Hp]
    Hf.
  assert (forall g b, status_is s g = b -> ((f &&& g) =? 0) = true \/ b = true ->
    status_is (RRR_MQTT_PARSE_STATUS_SET s f) g = b) as Hset.
  { intros g b E Hfg. rewrite status_is_set, E. destruct Hfg as [-> | ->]; [by destruct b|done]. }
  split; [|done]. unfold running. split_and!; try done.
  - unfold unfinished. split_and!; apply Hset; try done; left; by destruct Hf as [-> | ->].
  - unfold frame_ok. split_and!; try done; try apply F3; try apply F4; try apply F6; try apply F7.
    apply Hset; [done|by right].
Qed.

Lemma set_checkpoint_allocated s a b : allocated s -> pos_ok a -> pos_ok b ->
  allocated (set_checkpoint s a b).
Proof.
  intros [(H1 & H2 & H3 & H4 & H5 & H6 & (F1 & F2 & F3 & F4 & F5 & F6 & F7 & F8 & F9) & H7) Hp] Ha Hb.
  split; [|done]. unfold running. split_and!; try done; try apply H6.
Qed.

Lemma length_of_pos e : pos_ok e -> rrr_length_from_ptr_sub_bug_const e 0 = Ret e.
Proof.
  unfold pos_ok. intros He. rewrite length_from_ptr_sub_spec by lia.
  rewrite Z.sub_0_r, exact_or_bug_small; [done|]. unfold RRR_LENGTH_MAX. lia.
Qed.

Lemma triple_save_checkpoint e : pos_ok e ->
  triple allocated (save_checkpoint e) (fun _ s => allocated s /\ True).
Proof.
  intros He s Hs. unfold wp, save_checkpoint, mbind, parser_bind, call, modify.
  rewrite length_of_pos by done. cbn. split; [|done]. apply set_checkpoint_allocated; [done| |done].
  destruct Hs as [(_ & _ & _ & _ & _ & _ & (_ & _ & _ & _ & _ & F6 & _) & _) _]. done.
Qed.

Lemma triple_end_header e : pos_ok e ->
  triple allocated (end_header e) (fun _ s => allocated s /\ True).
Proof.
  intros He. apply (triple_step allocated allocated _ _ (fun _ => True)).
  - intros s Hs. split; [apply set_flag_allocated; [exact Hs|by left]|exact I].
  - intros _ _. eapply triple_step; [by apply triple_save_checkpoint|]. intros _ _.
    intros s Hs. unfold wp, mbind, parser_bind, call, modify. rewrite length_of_pos by done. cbn.
    split; [|done]. apply set_checkpoint_allocated; [done|done|].
    destruct Hs as [(_ & _ & _ & _ & _ & _ & (_ & _ & _ & _ & _ & _ & F7 & _) & _) _]. done.
Qed.

(** The payload begins inside the packet. *)
Definition in_payload (s : rrr_mqtt_parse_session) : Prop := allocated s /\ payload_pos s <= size.

Lemma in_payload_running s : in_payload s -> running s.
Proof. by intros [[]]. Qed.

Lemma triple_begin_payload : triple allocated begin_payload (fun e s => in_payload s /\ pos_ok e).
Proof.
  intros s Hs. unfold wp, begin_payload, mbind, parser_bind, ask, stop_if.
  pose proof Hs as [(_ & _ & _ & _ & H5 & _ & (_ & _ & _ & _ & _ & _ & F7 & _) & _) _].
  destruct (Z.ltb_spec (target_size s) (payload_pos s)); cbn.
  - split; [by apply Hs|done].
  - split; [|done]. split; [done|]. lia.
Qed.

Lemma triple_header_payload_from P header payload : (forall s, P s -> running s) ->
  (forall e, pos_ok e -> triple P (header e)
     (fun r s => allocated s /\ match r with Some e => pos_ok e | None => True end)) ->
  (forall e, pos_ok e -> triple in_payload (payload e) finished) ->
  triple P (header_and_payload header payload) finished.
Proof.
  intros HP Hh Hp. apply triple_ask_bind. intros s HPs. pose proof (HP s HPs) as Hs.
  pose proof Hs as (_ & _ & _ & _ & H5 & (_ & _ & U3) & (_ & _ & _ & F4 & F5 & _ & _ & _ & F9) & _).
  rewrite U3. destruct (RRR_MQTT_PARSE_VARIABLE_HEADER_IS_DONE s) eqn:Ev.
  - apply (triple_step allocated in_payload _ _ pos_ok finished triple_begin_payload Hp).
    split; [done|by apply F9].
  - assert (pos_ok (variable_header_pos s)) as Hpos by (unfold pos_ok; lia).
    apply (triple_step P allocated _ _ _ finished (Hh _ Hpos)); [|done].
    intros [e|] He; [|by apply triple_parse_done].
    eapply triple_step; [by apply triple_end_header|]. intros _ _.
    apply (triple_step allocated in_payload _ _ pos_ok finished triple_begin_payload Hp).
Qed.

Lemma triple_header_payload header payload :
  (forall e, pos_ok e -> triple running (header e)
     (fun r s => allocated s /\ match r with Some e => pos_ok e | None => True end)) ->
  (forall e, pos_ok e -> triple in_payload (payload e) finished) ->
  triple running (header_and_payload header payload) finished.
Proof. by apply triple_header_payload_from. Qed.

Lemma triple_no_payload e : triple in_payload (verify_no_payload e) finished.
Proof.
  apply (triple_step in_payload in_payload _ _ _ _ (triple_verify_at_end _ in_payload_running e)).
  intros _ _. apply triple_parse_done. by intros s [].
Qed.

(** ** CONNECT *)

Ltac stop_step :=
  eapply triple_step; [apply (triple_stop_if _ _ _ allocated_running); done|intros ? ?].

(** The string a field holds. *)
Definition topic_string (obj : option (list Z)) : Prop := exists bs, obj = Some (bs ++ [0]) /\
  bytes_ok bs /\ Z.of_nat (length bs) < 2 ^ 17.

Lemma c_string_terminated bs : c_string (bs ++ [0]) = Ret (cstr (bs ++ [0])).
Proof.
  unfold c_string. rewrite bool_decide_true; [done|]. apply elem_of_app. right.
  by apply list_elem_of_singleton.
Qed.

Lemma cstr_terminated bs : length (cstr (bs ++ [0])) = length (cstr bs).
Proof. induction bs as [|b bs IH]; [done|]. cbn. destruct (b =? 0); [done|]. cbn. by rewrite IH. Qed.

Lemma cstr_shorter bs : (length (cstr bs) <= length bs)%nat.
Proof. induction bs as [|b bs IH]; cbn; [lia|]. destruct (b =? 0); cbn; lia. Qed.

Lemma validate_name_returns x : Z.of_nat (length x) < 2 ^ 17 ->
  exists r, rrr_mqtt_topic_validate_name (Some x) = Ret r.
Proof.
  intros Hl. unfold rrr_mqtt_topic_validate_name. destruct x as [|b x]; [by eexists|].
  unfold rrr_mqtt_topic_validate_name_with_end.
  rewrite length_from_ptr_sub_spec, exact_or_bug_small by (unfold RRR_LENGTH_MAX; lia).
  cbn [mbind outcome_bind]. by eexists.
Qed.

Lemma validate_topic_safe bs : Z.of_nat (length bs) < 2 ^ 17 ->
  exists r, rrr_mqtt_topic_validate_name (Some (cstr (bs ++ [0]))) = Ret r.
Proof.
  intros Hl. apply validate_name_returns. rewrite cstr_terminated. pose proof (cstr_shorter bs). lia.
Qed.

(** ** CONNECT *)

Section Connect.
Context (Hid : type_id t = RRR_MQTT_P_TYPE_CONNECT).

Lemma triple_set_version v : triple running (modify (fun s => set_version s (Some v)))
  (fun _ s => running s /\ s_protocol_version s <> None).
Proof using Hid.
  intros s (H1 & H2 & H3 & H4 & H5 & H6 & (F1 & F2 & F3 & F4 & F5 & F6 & F7 & F8 & F9) & H7).
  split; [|done]. unfold running. split_and!; try done; try apply H6.
  rewrite Hid. done.
Qed.

Lemma protocol_version_name id v : rrr_mqtt_p_get_protocol_version id = Some v -> exists n, v_name v = Some n.
Proof.
  unfold rrr_mqtt_p_get_protocol_version. induction protocol_versions as [|x l IH]; [done|]. cbn.
  destruct (v_name x) eqn:E; [|done]. destruct (v_id x =? id); [intros [= <-]; by eexists|done].
Qed.

Lemma triple_connect_flags e : pos_ok e ->
  triple allocated
    ('(flags, end_) ← parse_u8 e;
     _ ← put_connect set_connect_flags flags;
     c ← get_connect;
     _ ← stop_if (negb (RRR_MQTT_P_CONNECT_GET_FLAG_RESERVED c =? 0)) RRR_MQTT_SOFT_ERROR;
     _ ← stop_if ((RRR_MQTT_P_CONNECT_GET_FLAG_WILL c =? 0) &&
                  (negb (RRR_MQTT_P_CONNECT_GET_FLAG_WILL_QOS c =? 0) ||
                   negb (RRR_MQTT_P_CONNECT_GET_FLAG_WILL_RETAIN c =? 0))) RRR_MQTT_SOFT_ERROR;
     p ← get_packet;
     _ ← stop_if ((v_id (protocol_version p) <? RRR_MQTT_VERSION_5) &&
                  ((RRR_MQTT_P_CONNECT_GET_FLAG_PASSWORD c =? 1) &&
                   (RRR_MQTT_P_CONNECT_GET_FLAG_USER_NAME c =? 0))) RRR_MQTT_SOFT_ERROR;
     _ ← stop_if (2 <? RRR_MQTT_P_CONNECT_GET_FLAG_WILL_QOS c) RRR_MQTT_SOFT_ERROR;
     '(ka, end_) ← parse_u16 big end_;
     _ ← put_connect set_keep_alive ka;
     end_ ← properties_if_v5 big alloc_ok (c ← get_connect; give (connect_properties c))
              (put_connect set_connect_properties) end_;
     give (Some end_))
    (fun r s => allocated s /\ match r with Some e => pos_ok e | None => True end).
Proof using Hid.
  intros He. eapply triple_step; [apply (triple_parse_u8 allocated allocated_running e He)|].
  intros [flags e1] (_ & _ & He1). cbn in He1.
  eapply triple_step; [by apply put_connect_writes|]. intros ? _.
  eapply triple_step; [by apply triple_get_connect|]. intros c _. stop_step. stop_step.
  eapply triple_step; [apply triple_get_packet|]. intros p _. stop_step. stop_step.
  eapply triple_step; [apply (triple_parse_u16 big allocated allocated_running e1 He1)|].
  intros [ka e2] [_ He2]. cbn in He2.
  eapply triple_step; [by apply put_connect_writes|]. intros ? _.
  eapply triple_step; [apply triple_properties; [done| |by apply put_connect_writes]|].
  - eapply triple_step; [by apply triple_get_connect|]. intros c' _. by apply triple_give.
  - intros e3 He3. by apply triple_give.
Qed.

Lemma triple_connect_header e : pos_ok e ->
  triple running (connect_header big alloc_ok alloc_sub alloc_packet now e)
    (fun r s => allocated s /\ match r with Some e => pos_ok e | None => True end).
Proof using Hsub Hid.
  intros He. eapply triple_step; [apply (triple_parse_u16 big running running_id e He)|].
  intros [n e1] [Hn He1]. cbn in Hn, He1.
  eapply triple_step; [apply (triple_stop_if _ _ _ running_id); done|]. intros ? Hn6.
  apply Z.ltb_ge in Hn6.
  eapply triple_step; [apply (triple_prepare running running_id e1 n He1); lia|].
  intros [? ?] ([= -> ->] & Hend & He2).
  apply (triple_step running running _ _ (fun bs => Z.of_nat (length bs) = n)).
  { apply triple_call. intros s Hs. destruct (running_wpos s Hs) as [Hw Hlim].
    destruct (read_bytes_inside s e1 n (running_buffer s Hs)) as (bs & Hr & Hl & _);
      [apply He1|lia|lia|]. by exists bs. }
  intros name Hname.
  eapply triple_step; [apply (triple_parse_u8 running running_id _ He2)|].
  intros [vid e3] (_ & _ & He3). cbn in He3.
  destruct (rrr_mqtt_p_get_protocol_version vid) as [v|] eqn:Ev; [|by apply triple_stop].
  apply (triple_step running running _ _ (fun _ => True)).
  { apply triple_call. intros s Hs. destruct (protocol_version_name vid v Ev) as [vn Hvn].
    unfold rrr_mqtt_parse_protocol_version_validate_name. pose proof (cstr_shorter name).
    rewrite (proj2 (Z.ltb_ge _ _)) by lia. rewrite Hvn. by eexists. }
  intros ret _. eapply triple_step; [apply (triple_stop_if _ _ _ running_id); done|]. intros ? _.
  eapply triple_bind; [apply triple_set_version|]. intros ?.
  apply (triple_step _ allocated _ _ (fun _ => True)).
  { apply triple_allocate; by intros s []. }
  intros ? _. by apply triple_connect_flags.
Qed.

(** A topic that was just parsed. *)
Definition will_topic_is (obj : option (list Z)) (s : rrr_mqtt_parse_session) : Prop :=
  exists p c, packet s = Some p /\ body p = Connect c /\ will_topic c = obj.

Lemma put_will_topic v : triple allocated (put_connect set_will_topic v)
  (fun _ s => allocated s /\ will_topic_is v s).
Proof using Hid.
  eapply triple_step; [by apply triple_get_connect|]. intros c _.
  eapply triple_step; [apply triple_get_packet|]. intros p [[Hp Hk] HB].
  intros s [Hs _]. unfold wp, put_packet, modify. split.
  - apply set_packet_allocated; [done|]. by split.
  - by eexists _, _.
Qed.

Lemma get_will_topic obj : triple (fun s => allocated s /\ will_topic_is obj s) get_connect
  (fun c s => allocated s /\ will_topic c = obj).
Proof.
  intros s [Hs (p & c & Hp & Hb & Hw)]. unfold wp, get_connect, get_packet, mbind, parser_bind, ask.
  rewrite Hp. cbn. unfold give. cbn. rewrite Hb. cbn. done.
Qed.

Lemma triple_connect_will e : pos_ok e ->
  triple allocated (connect_will big alloc_ok e) (fun r s => allocated s /\ pos_ok r).
Proof using Hid.
  intros He. eapply triple_step; [apply triple_properties; [done| |by apply put_connect_writes]|].
  { eapply triple_step; [by apply triple_get_connect|]. intros c' _. by apply triple_give. }
  intros e1 He1. unfold parse_utf8.
  apply (triple_bind allocated _ _ (fun r s => exists obj, (allocated s /\ will_topic_is obj s) /\
    exists l, string_at 1 l obj /\ pos_ok r)).
  { eapply triple_bind; [apply (triple_utf8_with_length _ will_topic_is 1 e1 He1 put_will_topic)|].
    intros [[l n] e2] s [[Hs (obj & Hstr & HG)] (He2 & _)]. exists obj. split; [done|]. by exists l. }
  intros e2 s (obj & Hs & l & (bs & -> & Hl & _ & _ & Hmax) & He2).
  refine ((_ : triple (fun s => allocated s /\ will_topic_is (Some (bs ++ [0])) s) _ _) s Hs).
  eapply triple_step; [apply get_will_topic|]. intros c Hc. rewrite Hc.
  apply (triple_step allocated allocated _ _ (fun _ => True)).
  { apply triple_call. intros s' _. rewrite c_string_terminated. cbn [mbind outcome_bind].
    destruct (validate_topic_safe bs) as [r ->]; [lia|]. by exists r. }
  intros invalid _. stop_step. by apply triple_blob_nullsafe; [|apply put_connect_writes].
Qed.

Lemma triple_connect_field set e : pos_ok e ->
  triple allocated (connect_field big alloc_ok set e) (fun r s => allocated s /\ pos_ok r).
Proof using Hid.
  intros He. eapply triple_step; [apply (triple_check_target_end allocated allocated_running e)|].
  intros at_end _. stop_step. by apply triple_utf8; [|apply put_connect_writes].
Qed.

Lemma triple_when {A} (b : bool) (m : Z -> parser A) (k : Z -> A) (F : A -> Prop) e : pos_ok e ->
  (forall e, pos_ok e -> triple allocated (m e) (fun r s => allocated s /\ F r)) -> F (k e) ->
  triple allocated (if b then m e else give (k e)) (fun r s => allocated s /\ F r).
Proof. intros He Hm Hk. destruct b; [by apply Hm|by apply triple_give]. Qed.

Lemma triple_connect_payload e : pos_ok e ->
  triple in_payload (connect_payload big alloc_ok e) finished.
Proof using Hid.
  intros He s [Hs _]. revert s Hs. change (triple allocated (connect_payload big alloc_ok e) finished).
  eapply triple_step; [apply triple_utf8; [done|by apply put_connect_writes]|]. intros e1 He1.
  eapply triple_step; [by apply triple_get_connect|]. intros c _.
  eapply triple_step; [apply (triple_when _ _ (fun e => e)); [done|apply triple_connect_will|done]|].
  intros e2 He2.
  eapply triple_step; [apply (triple_when _ _ (fun e => e)); [done|apply triple_connect_field|done]|].
  intros e3 He3.
  eapply triple_step; [apply (triple_when _ _ (fun e => e)); [done|apply triple_connect_field|done]|].
  intros e4 He4.
  eapply triple_step; [apply (triple_verify_at_end allocated allocated_running)|]. intros ? _.
  by apply triple_parse_done.
Qed.

Lemma connect_safe :
  triple running (rrr_mqtt_parse_connect big alloc_ok alloc_sub alloc_packet now) finished.
Proof using Hid Hsub.
  apply triple_header_payload; [apply triple_connect_header|apply triple_connect_payload].
Qed.

End Connect.

(** ** CONNACK *)

Lemma connack_safe : type_id t = RRR_MQTT_P_TYPE_CONNACK ->
  triple running (rrr_mqtt_parse_connack big alloc_ok alloc_sub alloc_packet now) finished.
Proof using Hsub.
  intros Hid. apply triple_header_payload; [|intros e _; apply triple_no_payload].
  intros e He. apply triple_require_allocate.
  eapply triple_step; [apply (triple_parse_u8 allocated allocated_running e He)|].
  intros [flags e1] (_ & _ & He1). cbn in He1.
  eapply triple_step; [by apply triple_get_connack|]. intros c _.
  eapply triple_step; [by apply triple_put_body|]. intros ? _. stop_step.
  eapply triple_step; [apply (triple_parse_u8 allocated allocated_running e1 He1)|].
  intros [r e2] (_ & _ & He2). cbn in He2.
  eapply triple_step; [apply triple_reason_struct|]. intros ? _.
  eapply triple_step; [apply triple_properties; [done| |]|].
  - eapply triple_step; [by apply triple_get_connack|]. intros c' _. by apply triple_give.
  - intros v. eapply triple_step; [by apply triple_get_connack|]. intros c' _. by apply triple_put_body.
  - intros e3 He3. by apply triple_give.
Qed.

(** ** PUBLISH *)

Section Publish.
Context (Hid : type_id t = RRR_MQTT_P_TYPE_PUBLISH).

Definition topic_is (obj : option (list Z)) (s : rrr_mqtt_parse_session) : Prop :=
  exists p b, packet s = Some p /\ body p = Publish b /\ topic b = obj.

Lemma put_topic v : triple allocated (put_publish set_topic v)
  (fun _ s => allocated s /\ topic_is v s).
Proof using Hid.
  eapply triple_step; [by apply triple_get_publish|]. intros b _.
  eapply triple_step; [apply triple_get_packet|]. intros p [[Hp Hk] HB].
  intros s [Hs _]. unfold wp, put_packet, modify. split.
  - apply set_packet_allocated; [done|]. by split.
  - by eexists _, _.
Qed.

Lemma get_topic obj : triple (fun s => allocated s /\ topic_is obj s) get_publish
  (fun b s => allocated s /\ topic b = obj).
Proof.
  intros s [Hs (p & b & Hp & Hb & Hw)]. unfold wp, get_publish, get_packet, mbind, parser_bind, ask.
  rewrite Hp. cbn. unfold give. cbn. rewrite Hb. cbn. done.
Qed.

Lemma publish_header_safe e : pos_ok e ->
  triple running (publish_header big alloc_ok alloc_sub alloc_packet alloc_token now e)
    (fun r s => allocated s /\ match r with Some e => pos_ok e | None => True end).
Proof using Hsub Hid.
  intros He. apply triple_require_allocate. apply triple_ask_bind. intros s0 Hs0.
  refine ((_ : triple allocated _ _) s0 Hs0). clear Hs0.
  eapply triple_step; [apply triple_get_packet|]. intros p0 [[Hp0 Hk0] HB0].
  eapply triple_step; [by apply triple_put_packet|]. intros ? _.
  eapply triple_step; [apply triple_get_packet|]. intros p _. stop_step. stop_step.
  unfold parse_utf8.
  apply (triple_bind allocated _ _ (fun r s => exists obj, (allocated s /\ topic_is obj s) /\
    exists l, string_at 1 l obj /\ pos_ok r)).
  { eapply triple_bind; [apply (triple_utf8_with_length _ topic_is 1 e He put_topic)|].
    intros [[l n] e2] s [[Hs (obj & Hstr & HG)] (He2 & _)]. exists obj. split; [done|]. by exists l. }
  intros e2 s (obj & Hs & l & (bs & -> & Hl & _ & _ & Hmax) & He2).
  refine ((_ : triple (fun s => allocated s /\ topic_is (Some (bs ++ [0])) s) _ _) s Hs).
  eapply triple_step; [apply get_topic|]. intros b Hb. rewrite Hb.
  apply (triple_step allocated allocated _ _ (fun x => x = cstr (bs ++ [0]))).
  { apply triple_call. intros s' _. rewrite c_string_terminated. by eexists. }
  intros x ->. apply (triple_step allocated allocated _ _ (fun _ => True)).
  { apply triple_call. intros s' _. destruct (validate_topic_safe bs) as [r ->]; [lia|]. by exists r. }
  intros invalid _. stop_step.
  destruct (rrr_mqtt_topic_tokenize alloc_token (cstr (bs ++ [0]))) as [ret tokens].
  eapply triple_step; [by apply put_publish_writes|]. intros ? _. stop_step.
  eapply triple_step; [apply (triple_when _ _ (fun e => e)); [done|apply triple_packet_id|done]|].
  intros e3 He3.
  eapply triple_step; [apply triple_properties; [done| |by apply put_publish_writes]|].
  - eapply triple_step; [by apply triple_get_publish|]. intros b' _. by apply triple_give.
  - intros e4 He4. by apply triple_give.
Qed.

Lemma set_move_allocated s : allocated s ->
  allocated (RRR_MQTT_PARSE_STATUS_SET s RRR_MQTT_PARSE_STATUS_MOVE_PAYLOAD_TO_PACKET).
Proof. intros Hs. apply set_flag_allocated; [done|by right]. Qed.

Lemma triple_payload_size : triple in_payload get_payload_size
  (fun n s => in_payload s /\ n = size - payload_pos s).
Proof.
  intros s Hs. pose proof Hs as [[(_ & _ & _ & _ & H5 & _ & (_ & _ & _ & _ & F5 & F6 & _) & _) _] Hp].
  unfold wp, get_payload_size, call, rrr_length_from_biglength_sub_bug_const, RRR_LENGTH_MAX.
  rewrite H5 in *. rewrite (proj2 (Z.ltb_ge _ _)) by lia. rewrite (wrap_small 64) by lia.
  rewrite (proj2 (Z.ltb_ge _ (size - _))) by lia. rewrite wrap_small by lia. done.
Qed.

Lemma publish_safe :
  triple running (rrr_mqtt_parse_publish big alloc_ok alloc_sub alloc_packet alloc_token now) finished.
Proof using Hsub Hid.
  apply triple_header_payload; [apply publish_header_safe|]. intros e He.
  eapply triple_bind; [apply triple_payload_size|]. intros n.
  destruct (n =? 0); [apply triple_parse_done; by intros s [[]]|].
  apply triple_ask_bind. intros s [[Hs _] _].
  refine ((_ : triple allocated _ _) s Hs). destruct (target_size s <=? buf_wpos s).
  - apply (triple_step allocated allocated _ _ (fun _ => True)).
    + intros s' Hs'. split; [by apply set_move_allocated|done].
    + intros ? _. by apply triple_parse_done.
  - by apply triple_stop; [apply allocated_running|].
Qed.

End Publish.

(** ** PUBACK, PUBREC, PUBREL, PUBCOMP *)

Lemma puback_v5_safe e : 4 <= type_id t <= 7 -> pos_ok e ->
  triple allocated (puback_v5 big alloc_ok e) (fun r s => allocated s /\ pos_ok r).
Proof.
  intros Hid He. eapply triple_step; [apply (triple_parse_u8 allocated allocated_running e He)|].
  intros [r e1] (_ & _ & He1). cbn in He1.
  eapply triple_step; [apply triple_get_packet|]. intros p [[Hp Hk] HB].
  eapply triple_step; [by apply triple_put_packet|]. intros ? _.
  assert (RRR_MQTT_P_GET_TYPE p = type_id t) as Ht by (unfold RRR_MQTT_P_GET_TYPE; by rewrite Hp).
  rewrite Ht. eapply triple_step.
  - instantiate (1 := fun _ => True).
    unfold RRR_MQTT_P_TYPE_PUBACK, RRR_MQTT_P_TYPE_PUBREC, RRR_MQTT_P_TYPE_PUBREL, RRR_MQTT_P_TYPE_PUBCOMP.
    destruct (Z.eqb_spec (type_id t) 4), (Z.eqb_spec (type_id t) 5); cbn [orb];
      [apply triple_reason_struct..|].
    destruct (Z.eqb_spec (type_id t) 6), (Z.eqb_spec (type_id t) 7); cbn [orb];
      [apply triple_reason_struct..|lia].
  - intros ? _. apply triple_properties; [done|by apply triple_get_def_puback|].
    intros v. eapply triple_step; [by apply triple_get_def_puback|]. intros ? _. by apply triple_put_body.
Qed.

Lemma def_puback_safe : 4 <= type_id t <= 7 ->
  triple running (rrr_mqtt_parse_def_puback big alloc_ok alloc_sub alloc_packet now) finished.
Proof using Hsub.
  intros Hid. apply triple_header_payload; [|intros e _; apply triple_no_payload].
  intros e He. apply triple_require_allocate.
  eapply triple_step; [by apply triple_packet_id|]. intros e1 He1.
  eapply triple_step; [apply (triple_check_target_end allocated allocated_running e1)|].
  intros at_end _. destruct at_end; [by apply triple_give|].
  eapply triple_step; [apply triple_check_v5|]. intros v5 _.
  eapply triple_step.
  { apply (triple_when v5 (puback_v5 big alloc_ok) (fun e => e) pos_ok); [done| |done].
    intros e' He'. by apply puback_v5_safe. }
  intros e2 He2. eapply triple_step; [apply (triple_verify_at_end allocated allocated_running)|].
  intros ? _. by apply triple_give.
Qed.

(** ** PINGREQ, PINGRESP, DISCONNECT *)

Lemma ping_safe :
  triple running (header_and_payload (ping_header alloc_sub alloc_packet now) (fun _ => parse_done))
    finished.
Proof using Hsub.
  apply triple_header_payload; [|intros e _; apply triple_parse_done; by intros s []].
  intros e He. apply triple_require_allocate.
  eapply triple_step; [apply (triple_verify_at_end allocated allocated_running)|].
  intros ? _. by apply triple_give.
Qed.

Lemma disconnect_safe : type_id t = RRR_MQTT_P_TYPE_DISCONNECT ->
  triple running (rrr_mqtt_parse_disconnect big alloc_ok alloc_sub alloc_packet now) finished.
Proof using Hsub.
  intros Hid. apply triple_header_payload; [|intros e _; apply triple_no_payload]. intros e He.
  eapply triple_bind; [apply (triple_require_version running running_id)|]. intros ?.
  intros s [Hs Hv].
  assert (triple (fun s' => running s' /\ s_protocol_version s' = s_protocol_version s)
    (parse_allocate alloc_sub alloc_packet now)
    (fun _ s' => allocated s' /\ s_protocol_version s' = s_protocol_version s)) as Halloc.
  { intros s' [Hs' Ev]. pose proof (triple_allocate
      (fun x => running x /\ s_protocol_version x = s_protocol_version s)) as H.
    specialize (H ltac:(by intros x []) ltac:(by intros x [_ ->]) s' (conj Hs' Ev)).
    unfold wp in *. revert H. unfold parse_allocate, mbind, parser_bind, ask, call.
    destruct (packet s'); [by intros [? _]|]. destruct (s_type_properties s'); [|done].
    destruct (s_protocol_version s') eqn:Ev'; [|done].
    destruct (type_allocate _ _ _ _ _) as [[q|]| |]; cbn; try done.
    intros [? _]. split; [done|]. cbn. congruence. }
  refine ((_ : triple (fun s' => running s' /\ s_protocol_version s' = s_protocol_version s) _ _)
    s (conj Hs eq_refl)).
  eapply triple_bind; [exact Halloc|]. intros ?. apply triple_ask_bind. intros s1 [Hs1 Ev1].
  rewrite Ev1. destruct (s_protocol_version s) as [v|]; [|done].
  refine ((_ : triple allocated _ _) s1 Hs1). cbv zeta.
  set (remaining := u64 (target_size s1 - variable_header_pos s1)).
  destruct (v_id v <? 5); [stop_step; by apply triple_give|].
  destruct (remaining =? 0); [by apply triple_give|].
  eapply triple_step; [apply (triple_parse_u8 allocated allocated_running e He)|].
  intros [r e1] (_ & _ & He1). cbn in He1.
  eapply triple_step; [apply triple_get_packet|]. intros p [[Hp Hk] HB].
  eapply triple_step; [by apply triple_put_packet|]. intros ? _.
  destruct (remaining =? 1); [by apply triple_give|].
  eapply triple_step; [apply triple_properties; [done|by apply triple_get_disconnect|]|].
  - intros c. eapply triple_step; [by apply triple_get_disconnect|]. intros ? _. by apply triple_put_body.
  - intros e2 He2. by apply triple_give.
Qed.

(** ** SUBSCRIBE and UNSUBSCRIBE *)

Lemma flag_nonneg flags m k : byte_ok flags -> 0 <= (flags &&& m) >>> k.
Proof. intros Hf. apply Z.shiftr_nonneg, Z.land_nonneg. left. apply Hf. Qed.

Lemma topic_options_safe e : type_id t = RRR_MQTT_P_TYPE_SUBSCRIBE -> pos_ok e ->
  triple allocated (topic_options e) (fun '(retain, rap, nl, _, e') s => allocated s /\
    (0 <= retain <= 2 /\ 0 <= rap /\ 0 <= nl /\ (B \/ rap = 0 /\ nl = 0) /\ pos_ok e' /\ e <= e')).
Proof.
  intros Hid He. eapply triple_step; [apply (triple_parse_u8 allocated allocated_running e He)|].
  intros [flags e1] (Hf & Hee & He1). cbn in Hf, Hee, He1. cbv zeta.
  pose proof (flag_nonneg flags ((1 <<< 4) ||| (1 <<< 5)) 4 Hf) as Hret.
  pose proof (flag_nonneg flags (1 <<< 3) 3 Hf) as Hrap.
  pose proof (flag_nonneg flags (1 <<< 2) 2 Hf) as Hnl.
  fold (RRR_MQTT_SUBSCRIPTION_GET_FLAG_RAW_RETAIN flags) in Hret.
  fold (RRR_MQTT_SUBSCRIPTION_GET_FLAG_RAW_RAP flags) in Hrap.
  fold (RRR_MQTT_SUBSCRIPTION_GET_FLAG_RAW_NL flags) in Hnl.
  stop_step. stop_step. eapply triple_step; [apply triple_check_v5|]. intros v5 HB. destruct v5.
  - eapply triple_step; [apply (triple_stop_if _ _ _ allocated_running); done|]. intros ? Hr. cbn beta in Hr.
    apply triple_give. intros s Hs. cbv beta iota. split; [done|]. split_and!; try done; try lia.
    left. by apply HB.
  - eapply triple_step.
    { eapply triple_step; [apply (triple_stop_if _ _ _ allocated_running); done|]. intros ? H1.
      eapply triple_step; [apply (triple_stop_if _ _ _ allocated_running); done|]. intros ? H2.
      eapply triple_conseq; [apply (triple_stop_if _ _ _ allocated_running); done|].
      intros ? s [Hs H3]. split; [exact Hs|].
      instantiate (1 := fun _ => RRR_MQTT_SUBSCRIPTION_GET_FLAG_RAW_RETAIN flags = 0 /\
        RRR_MQTT_SUBSCRIPTION_GET_FLAG_RAW_RAP flags = 0 /\
        RRR_MQTT_SUBSCRIPTION_GET_FLAG_RAW_NL flags = 0).
      cbn beta. apply negb_false_iff, Z.eqb_eq in H1, H2, H3. done. }
    intros ? (H1 & H2 & H3). apply triple_give. intros s Hs. cbv beta iota. split; [done|].
    rewrite H1, H2, H3. split_and!; try done; try lia.
Qed.

Lemma filter_validate_returns x : exists r, rrr_mqtt_topic_filter_validate_name x = Ret r.
Proof.
  unfold rrr_mqtt_topic_filter_validate_name.
  destruct (Z.ltb_spec 0xffff (Z.of_nat (length x))); [by eexists|].
  rewrite length_from_size_t_spec, exact_or_bug_small by (unfold RRR_LENGTH_MAX; lia).
  cbn [mbind outcome_bind]. by eexists.
Qed.

Lemma subscription_new_safe f retain rap nl qos : filter_ok f ->
  type_id t = RRR_MQTT_P_TYPE_SUBSCRIBE \/ type_id t = RRR_MQTT_P_TYPE_UNSUBSCRIBE ->
  0 <= retain <= 2 -> 0 <= rap -> 0 <= nl -> B \/ rap = 0 /\ nl = 0 ->
  triple allocated
    (call (fun _ => rrr_mqtt_subscription_new alloc_sub alloc_token f retain rap nl qos))
    (fun r s => allocated s /\ (r.1 = 0 -> exists sub, r.2 = Some sub /\ sub_ok sub)).
Proof using Hsub.
  intros Hf Hty Hr Hrap Hnl HB s Hs. unfold wp, call, mbind, outcome_bind.
  assert (rap = 0 /\ nl = 0 \/ (0 <? nl) || (0 <? rap) = true) as [[-> ->]|E] by lia.
  - rewrite subscription_new_spec by done. destruct (alloc_sub sizeof_rrr_mqtt_subscription); cbn [negb]; [|done].
    destruct (alloc_sub (_ + 1)) eqn:Ea; cbn [negb]; [|apply Hsub; [done|by eexists]].
    destruct (allocs _ _ _); cbn; [|done]. split; [done|]. intros _. eexists. split; [done|].
    unfold sub_ok. cbn. split_and!; (done || lia).
  - unfold rrr_mqtt_subscription_new. rewrite E. cbn [orb]. destruct HB as [HB|[-> ->]]; [done|].
    done.
Qed.

Lemma cstr_whole bs : length (cstr bs) = length bs -> 0 ∉ bs.
Proof.
  induction bs as [|b bs IH]; cbn; [intros _; apply not_elem_of_nil|].
  destruct (Z.eqb_spec b 0) as [->|Hb]; cbn; [done|]. intros [= E].
  rewrite not_elem_of_cons. split; [done|by apply IH].
Qed.

Section Subscribe.
Context (Hid : type_id t = RRR_MQTT_P_TYPE_SUBSCRIBE \/ type_id t = RRR_MQTT_P_TYPE_UNSUBSCRIBE).

Definition data_tmp_is (obj : option (list Z)) (s : rrr_mqtt_parse_session) : Prop :=
  exists p b, packet s = Some p /\ body p = Sub_usub b /\ data_tmp b = obj.

Lemma put_data_tmp v : triple allocated (put_sub_usub set_data_tmp v)
  (fun _ s => allocated s /\ data_tmp_is v s).
Proof using Hid.
  eapply triple_step; [by apply triple_get_sub_usub|]. intros b Hb.
  eapply triple_step; [apply triple_get_packet|]. intros p [[Hp Hk] HB].
  intros s [Hs _]. unfold wp, put_packet, modify. split.
  - apply set_packet_allocated; [done|]. by split.
  - by eexists _, _.
Qed.

Lemma get_data_tmp obj : triple (fun s => allocated s /\ data_tmp_is obj s) get_sub_usub
  (fun b s => allocated s /\ (data_tmp b = obj /\ collection_ok (subscriptions b))).
Proof.
  intros s [Hs (p & b & Hp & Hb & Hw)]. unfold wp, get_sub_usub, get_packet, mbind, parser_bind, ask.
  rewrite Hp. cbn. unfold give. cbn. rewrite Hb. cbn. split; [done|]. split; [done|].
  destruct (running_packet s p (allocated_running s Hs) Hp) as [[_ Hk] _]. rewrite Hb in Hk. apply Hk.
Qed.

(** The filter has been read and the options known: the subscription is added. *)
Lemma add_subscription_safe b f retain rap nl qos e : collection_ok (subscriptions b) ->
  bytes_ok f -> 0 ∉ f -> f <> [] -> 0 <= retain <= 2 -> 0 <= rap -> 0 <= nl ->
  B \/ rap = 0 /\ nl = 0 -> pos_ok e ->
  triple allocated
    (invalid ← call (fun _ => rrr_mqtt_topic_filter_validate_name f);
     _ ← stop_if (negb (invalid =? 0)) RRR_MQTT_SOFT_ERROR;
     '(ret, subscription) ←
       call (fun _ => rrr_mqtt_subscription_new alloc_sub alloc_token f retain rap nl qos);
     _ ← stop_if (negb (ret =? 0)) RRR_MQTT_INTERNAL_ERROR;
     match subscription with
     | None => oob
     | Some subscription =>
       '(ret_tmp, c, _) ←
         call (fun _ => rrr_mqtt_subscription_collection_add_unique (subscriptions b) subscription true);
       _ ← put_sub_usub set_subscriptions c;
       _ ← stop_if (negb (ret_tmp =? RRR_MQTT_SUBSCRIPTION_REPLACED) &&
                    negb (ret_tmp =? RRR_MQTT_SUBSCRIPTION_OK)) RRR_MQTT_INTERNAL_ERROR;
       _ ← save_checkpoint e;
       give e
     end) (fun r s => allocated s /\ r = e).
Proof using Hsub Hid.
  intros Hc Hb Hz Hne Hr Hrap Hnl HB He.
  apply (triple_step allocated allocated _ _ (fun r => rrr_mqtt_topic_filter_validate_name f = Ret r)).
  { apply triple_call. intros s _. destruct (filter_validate_returns f) as [r Hv]. by exists r. }
  intros r Hv. eapply triple_step; [apply (triple_stop_if _ _ _ allocated_running); done|].
  intros ? Hr0. apply negb_false_iff, Z.eqb_eq in Hr0. subst r.
  eapply triple_step; [by apply subscription_new_safe|]. intros [ret sub] Hret. cbn in Hret.
  eapply triple_step; [apply (triple_stop_if _ _ _ allocated_running); done|].
  intros ? Hr0. apply negb_false_iff, Z.eqb_eq in Hr0.
  destruct (Hret Hr0) as (sub' & -> & Hsok).
  apply (triple_step allocated allocated _ _ (fun r => collection_ok r.1.2)).
  { apply triple_call. intros s _. eexists. split; [apply add_unique_cases, Hc|].
    match goal with |- collection_ok (?x.1.2) => destruct x as [[r c'] rest] eqn:E end.
    apply (add_unique_keeps_ok _ sub' true r c' rest Hc Hsok). by rewrite add_unique_cases, E by apply Hc. }
  intros [[ret_tmp c'] rest] Hc'. cbn in Hc'.
  eapply triple_step; [by apply put_sub_usub_triple|]. intros ? _. stop_step.
  eapply triple_step; [by apply triple_save_checkpoint|]. intros ? _. by apply triple_give.
Qed.

Lemma parse_subscription_safe opts e : pos_ok e ->
  (opts = true -> type_id t = RRR_MQTT_P_TYPE_SUBSCRIBE) ->
  triple allocated (parse_subscription big alloc_ok alloc_sub alloc_token opts e)
    (fun r s => allocated s /\ (pos_ok r /\ e + 3 <= Z.of_nat (length bytes) /\ e + 3 <= r)).
Proof using Hsub Hid.
  intros He Hopts. eapply triple_bind.
  { apply (triple_utf8_with_length _ data_tmp_is 1 e He put_data_tmp). }
  intros [[l n] e1] s [[Hs (obj & (bs & -> & Hl & Hbs & Hmin & Hmax) & HG)] (He1 & Hend & _ & Hwpos)].
  cbn in He1, Hend, Hwpos, Hl, Hmin, Hmax.
  refine ((_ : triple (fun s => allocated s /\ data_tmp_is (Some (bs ++ [0])) s) _ _) s (conj Hs HG)).
  eapply triple_step.
  { apply triple_stop_if; [by intros s' [[]]|done]. }
  intros ? _. eapply triple_step; [apply get_data_tmp|]. intros b [Hdata Hc]. rewrite Hdata.
  apply (triple_step allocated allocated _ _ (fun x => x = bs)).
  { apply triple_call. intros s' _. exists bs. split; [|done]. unfold read_data.
    rewrite <- Hl. by apply (bytes_at_app [] bs [0] 0). }
  intros x ->. eapply triple_step; [apply (triple_stop_if _ _ _ allocated_running); done|].
  intros ? Hlen. apply negb_false_iff, Z.eqb_eq in Hlen.
  assert (0 ∉ bs) as Hz by (apply cstr_whole; lia).
  assert (bs <> []) as Hne by (intros ->; cbn in Hl; lia).
  eapply (triple_bind _ _ _ (fun '(retain, rap, nl, _, e') s => allocated s /\
    (0 <= retain <= 2 /\ 0 <= rap /\ 0 <= nl /\ (B \/ rap = 0 /\ nl = 0) /\ pos_ok e' /\ e1 <= e'))).
  { destruct opts; [by apply topic_options_safe; [apply Hopts|]|]. apply triple_give.
    intros s' Hs'. cbv beta iota. split; [done|]. split_and!; try done; try lia; by right. }
  intros [[[[retain rap] nl] qos] e2] s2 [Hs2 (Hr & Hrap & Hnl & HB & He2 & He12)].
  refine ((_ : triple allocated _ _) s2 Hs2).
  apply (triple_step allocated allocated _ _ (fun x => x = bs)).
  { apply triple_call. intros s' _. rewrite c_string_terminated. eexists. split; [done|].
    by apply cstr_app. }
  intros x ->. eapply triple_conseq; [by apply (add_subscription_safe b bs)|].
  intros r s' [Hs' ->]. split; [done|]. split_and!; try apply He2; lia.
Qed.

Lemma sub_usub_loop_safe opts : (opts = true -> type_id t = RRR_MQTT_P_TYPE_SUBSCRIBE) ->
  forall fuel e, pos_ok e -> Z.of_nat (length bytes) - e + 1 < Z.of_nat fuel -> (0 < fuel)%nat ->
  triple allocated (sub_usub_loop big alloc_ok alloc_sub alloc_token fuel opts e)
    (fun r s => allocated s /\ pos_ok r).
Proof using Hsub Hid.
  intros Hopts. induction fuel as [|fuel IH]; intros e He Hfuel Hpos; [lia|].
  cbn [sub_usub_loop].
  eapply triple_step; [apply (triple_check_target_end allocated allocated_running e)|].
  intros at_end _. destruct at_end; [by apply triple_give|].
  eapply triple_step; [by apply parse_subscription_safe|]. intros e1 (He1 & Hlen & Hstep).
  apply IH; [done|lia..].
Qed.

Lemma sub_usub_safe opts : (opts = true -> type_id t = RRR_MQTT_P_TYPE_SUBSCRIBE) ->
  triple running
    (_ ← require_protocol_version;
     _ ← parse_allocate alloc_sub alloc_packet now;
     rrr_mqtt_parse_subscribe_unsubscribe big alloc_ok alloc_sub alloc_token opts) finished.
Proof using Hsub Hid.
  intros Hopts. apply triple_require_allocate.
  apply triple_header_payload_from; [apply allocated_running| |].
  - intros e He. eapply triple_step; [by apply triple_packet_id|]. intros e1 He1.
    eapply triple_step; [apply triple_properties; [done| |]|].
    + eapply triple_step; [by apply triple_get_sub_usub|]. intros b _. by apply triple_give.
    + intros v. by apply put_sub_usub_triple.
    + intros e2 He2. by apply triple_give.
  - intros e He s [Hs _]. revert s Hs.
    change (triple allocated (sub_usub_payload big alloc_ok alloc_sub alloc_token opts e) finished).
    eapply triple_step; [apply (triple_check_target_end allocated allocated_running e)|].
    intros at_end _. stop_step. apply triple_ask_bind. intros s Hs.
    refine ((_ : triple allocated _ _) s Hs). destruct (running_wpos s (allocated_running s Hs)) as [Hw _].
    eapply triple_step.
    { apply sub_usub_loop_safe; [done|done|unfold rounds, pos_ok in *; lia|unfold rounds; lia]. }
    intros e1 He1. eapply triple_step; [apply (triple_verify_at_end allocated allocated_running)|].
    intros ? _. by apply triple_parse_done.
Qed.

End Subscribe.

(** ** SUBACK and UNSUBACK *)

Lemma suback_reason_safe v5 flags : byte_ok flags ->
  triple allocated (suback_reason v5 flags) (fun r s => allocated s /\ r <> None).
Proof.
  intros Hf. unfold suback_reason. destruct v5.
  { destruct (rrr_mqtt_p_reason_get_v5 flags); [by apply triple_give|].
    by apply triple_stop; [apply allocated_running|]. }
  stop_step. stop_step.
  eapply triple_step; [apply (triple_stop_if _ _ _ allocated_running); done|]. intros ? Hq. cbn beta in Hq.
  apply triple_give. intros s Hs. split; [done|]. case_match; [by vm_compute|].
  assert (0 <= (0x3 &&& flags)) by (apply Z.land_nonneg; by left).
  assert ((0x3 &&& flags) = 0 \/ (0x3 &&& flags) = 1 \/ (0x3 &&& flags) = 2) as [-> |[-> | ->]] by lia; by vm_compute.
Qed.

Section Suback.
Context (Hid : type_id t = RRR_MQTT_P_TYPE_SUBACK \/ type_id t = RRR_MQTT_P_TYPE_UNSUBACK).

Lemma suback_loop_safe n acks : 0 <= acks -> forall i e, pos_ok e -> 0 <= i ->
  acks + i + Z.of_nat n <= Z.of_nat (length bytes) ->
  triple allocated (suback_loop n acks i e) (fun r s => allocated s /\ pos_ok r).
Proof using Hid.
  intros Hacks. induction n as [|n IH]; intros i e He Hi Hlen; [by apply triple_give|].
  cbn [suback_loop].
  eapply triple_step; [apply (triple_parse_u8 allocated allocated_running e He)|].
  intros [d e1] (_ & _ & He1). cbn in He1.
  eapply triple_step; [by apply put_suback_writes|]. intros ? _.
  eapply triple_step; [apply triple_check_v5|]. intros v5 _.
  apply (triple_step allocated allocated _ _ byte_ok).
  { apply triple_call. intros s [Hs _]. destruct (running_wpos s Hs) as [Hw _].
    apply read_u8_inside; [by apply running_buffer|lia]. }
  intros flags Hf. eapply triple_step; [by apply suback_reason_safe|]. intros r Hr.
  eapply triple_step; [apply triple_get_packet|]. intros p _. destruct r as [r|]; [|done].
  stop_step. apply IH; (done || lia).
Qed.

Lemma suback_payload_safe no_payload e : pos_ok e ->
  triple in_payload (suback_payload no_payload e) finished.
Proof using Hid.
  intros He. unfold suback_payload. destruct no_payload; [apply triple_no_payload|].
  eapply triple_bind; [apply triple_payload_size|]. intros n.
  eapply (triple_step _ _ _ _ (fun _ => True)).
  { eapply triple_conseq; [apply triple_stop_if; [by intros s [[[]]]|done]|].
    intros ? s [Hs _]. split; [exact Hs|done]. }
  intros ? _. apply triple_ask_bind. intros s [[Hs Hpos] Hn].
  refine ((_ : triple allocated _ _) s Hs). destruct (running_wpos s (allocated_running s Hs)) as [Hw _].
  pose proof Hs as [(_ & _ & _ & _ & Hsz & _ & (_ & _ & _ & _ & _ & Hpp & _) & _) _].
  eapply triple_step; [apply (triple_stop_if _ _ _ allocated_running); done|]. intros ? Hall. cbn beta in Hall.
  apply (triple_step allocated allocated _ _ (fun _ => True)).
  { intros s' Hs'. split; [by apply set_move_allocated|done]. }
  intros ? _. eapply triple_step; [by apply put_suback_writes|]. intros ? _. stop_step.
  eapply triple_step; [apply suback_loop_safe; [|done|..]; lia|]. intros e1 He1.
  eapply triple_step; [apply (triple_verify_at_end allocated allocated_running)|].
  intros ? _. by apply triple_parse_done.
Qed.

Lemma suback_unsuback_safe no_payload :
  triple allocated (rrr_mqtt_parse_suback_unsuback big alloc_ok no_payload) finished.
Proof using Hid.
  apply triple_header_payload_from; [apply allocated_running| |apply suback_payload_safe].
  intros e He. eapply triple_step; [by apply triple_packet_id|]. intros e1 He1.
  eapply triple_step.
  { instantiate (1 := pos_ok). destruct no_payload; [by apply triple_give|].
    apply triple_properties; [done| |by apply put_suback_writes].
    eapply triple_step; [by apply triple_get_suback|]. intros b _. by apply triple_give. }
  intros e2 He2. by apply triple_give.
Qed.

End Suback.

(** ** Any type *)

Lemma type_parse_safe : 1 <= type_id t <= 15 ->
  triple running (type_parse big alloc_ok alloc_sub alloc_packet alloc_token now t) finished.
Proof using Hsub.
  intros Ht. unfold type_parse.
  destruct (Z.eqb_spec (type_id t) RRR_MQTT_P_TYPE_CONNECT); [by apply connect_safe|].
  destruct (Z.eqb_spec (type_id t) RRR_MQTT_P_TYPE_CONNACK); [by apply connack_safe|].
  destruct (Z.eqb_spec (type_id t) RRR_MQTT_P_TYPE_PUBLISH); [by apply publish_safe|].
  destruct (_ && _) eqn:E.
  { apply def_puback_safe. unfold RRR_MQTT_P_TYPE_PUBACK, RRR_MQTT_P_TYPE_PUBCOMP in E. lia. }
  destruct (Z.eqb_spec (type_id t) RRR_MQTT_P_TYPE_SUBSCRIBE); [apply sub_usub_safe; auto|].
  destruct (Z.eqb_spec (type_id t) RRR_MQTT_P_TYPE_SUBACK).
  { apply triple_require_allocate, suback_unsuback_safe. auto. }
  destruct (Z.eqb_spec (type_id t) RRR_MQTT_P_TYPE_UNSUBSCRIBE); [apply sub_usub_safe; [auto|done]|].
  destruct (Z.eqb_spec (type_id t) RRR_MQTT_P_TYPE_UNSUBACK).
  { apply triple_require_allocate. eapply triple_step; [apply triple_check_v5|]. intros v5 _.
    apply suback_unsuback_safe. auto. }
  destruct (_ =? RRR_MQTT_P_TYPE_PINGREQ); [apply ping_safe|].
  destruct (_ =? RRR_MQTT_P_TYPE_PINGRESP); [apply ping_safe|].
  destruct (Z.eqb_spec (type_id t) RRR_MQTT_P_TYPE_DISCONNECT); [by apply disconnect_safe|].
  by apply triple_stop; [apply running_id|].
Qed.

End Packet.

End Safe.

(** * Whole packets *)

(** The type of the packet that is parsed, of its first byte or known already. *)
Definition packet_type (s : rrr_mqtt_parse_session) : Z :=
  if RRR_MQTT_PARSE_FIXED_HEADER_IS_DONE s
  then match s_type_properties s with Some t => type_id t | None => 0 end
  else match buf s with Some (b :: _) => b >>> 4 | _ => 0 end.

Definition version_in_use (s : rrr_mqtt_parse_session) : option rrr_mqtt_p_protocol_version :=
  match packet s with Some p => Some (protocol_version p) | None => s_protocol_version s end.

(** A SUBSCRIBE packet of MQTT 5, which may ask for options that are not there. *)
Definition subscribe_v5 (s : rrr_mqtt_parse_session) : Prop :=
  packet_type s = RRR_MQTT_P_TYPE_SUBSCRIBE /\ exists v, version_in_use s = Some v /\ is_v5 v.

Definition readable (s : rrr_mqtt_parse_session) (bytes : list Z) : Prop :=
  buf s = Some bytes /\ buf_wpos s = Z.of_nat (length bytes) /\ bytes_ok bytes /\ buf_wpos s < 2 ^ 31.

Lemma session_running (B : Prop) s t bytes : readable s bytes -> unfinished s -> frame_ok t s ->
  (subscribe_v5 s -> B) -> running B t bytes (target_size s) s.
Proof.
  intros (H1 & H2 & H3 & H4) Hu Hf HB. unfold running. split_and!; try done; try apply Hu.
  intros Hid. assert (packet_type s = RRR_MQTT_P_TYPE_SUBSCRIBE) as Ht.
  { unfold packet_type. destruct Hf as (-> & -> & _). done. }
  destruct (packet s) as [p|] eqn:Ep.
  - intros Hv. apply HB. split; [done|]. exists (protocol_version p). unfold version_in_use. by rewrite Ep.
  - intros v Ev Hv. apply HB. split; [done|]. exists v. unfold version_in_use. by rewrite Ep.
Qed.

Lemma running_session_ok B t bytes size s : running B t bytes size s -> session_ok s.
Proof. intros (_ & _ & _ & _ & _ & Hu & Hf & _). split; [done|]. right. by exists t. Qed.

Lemma set_err s : RRR_MQTT_PARSE_IS_ERR (SET_ERR s) = true.
Proof. unfold RRR_MQTT_PARSE_IS_ERR, SET_ERR. rewrite status_is_set. apply orb_true_r. Qed.

Definition fresh (s : rrr_mqtt_parse_session) : Prop :=
  RRR_MQTT_PARSE_FIXED_HEADER_IS_DONE s = false /\ packet s = None /\
  RRR_MQTT_PARSE_VARIABLE_HEADER_IS_DONE s = false /\ payload_pos s = 0 /\ payload_checkpoint s = 0.

Lemma biglength_small a : 0 <= a <= RRR_LENGTH_MAX -> rrr_length_from_biglength_bug_const a = Ret a.
Proof. intros Ha. by rewrite length_from_biglength_spec, exact_or_bug_small by lia. Qed.

(** The high nibble of a byte. *)
Lemma type_nibble b : byte_ok b -> (b &&& u8 (0xF <<< 4)) >>> 4 = b >>> 4 /\ 0 <= b >>> 4 <= 15.
Proof.
  intros Hb. change (u8 (0xF <<< 4)) with (Z.shiftl (Z.ones 4) 4).
  assert (b >>> 4 = b / 16) as Ed by (by rewrite Z.shiftr_div_pow2).
  assert (0 <= b / 16 < 16) by (unfold byte_ok in Hb; split; [apply Z.div_pos|apply Z.div_lt_upper_bound]; lia).
  rewrite Z.shiftr_land, Z.shiftr_shiftl_l by lia. cbn [Z.sub Z.pos_sub Z.opp Z.add]. rewrite Z.shiftl_0_r.
  rewrite Z.land_ones, Ed, Z.mod_small by lia. lia.
Qed.

Lemma fixed_header_safe s bytes : readable s bytes -> 2 <= buf_wpos s -> unfinished s -> fresh s ->
  exists go_on s', parse_fixed_header s = Ret (go_on, s') /\
    if go_on : bool then readable s' bytes /\ unfinished s' /\ (exists t, frame_ok t s') /\
      packet_type s' = packet_type s /\ version_in_use s' = version_in_use s
    else s' = s \/ RRR_MQTT_PARSE_IS_ERR s' = true.
Proof.
  intros (H1 & H2 & H3 & H4) Hwpos (U1 & U2 & U3) (F1 & F2 & F3 & F4 & F5). unfold parse_fixed_header.
  destruct bytes as [|b bytes]; [cbn in H2; lia|]. apply Forall_cons_1 in H3 as [Hb Hbs].
  unfold read_u8. rewrite H1. change (load8 (b :: bytes) 0) with (Ret b). cbn [mbind outcome_bind].
  destruct (type_nibble b Hb) as [-> Hty].
  destruct (Z.eqb_spec (b >>> 4) 0); [eexists _, _; split; [done|right; apply set_err]|].
  assert (exists t, rrr_mqtt_p_get_type_properties (b >>> 4) = Ret t) as [t Ht].
  { unfold rrr_mqtt_p_get_type_properties. rewrite (proj2 (Z.ltb_ge _ _)), (proj2 (Z.eqb_neq _ _)) by lia.
    cbn [orb]. destruct (lookup_lt_is_Some_2 type_properties_table (Z.to_nat (b >>> 4))) as [t ->]; [|by eexists].
    change (length type_properties_table) with 16%nat. lia. }
  rewrite Ht. cbn [mbind outcome_bind]. pose proof (type_properties_id _ _ Ht ltac:(lia)) as Hid.
  destruct (_ && _); [eexists _, _; split; [done|right; apply set_err]|].
  assert (buffer_ok s) as Hbuf by (exists (b :: bytes); split_and!; try done; by constructor).
  destruct (variable_int_safe s 1 Hbuf ltac:(lia)) as (ret & v & len & -> & [(-> & Hv & Hn & Hend)|(Hret & _)]);
    cbn [mbind outcome_bind].
  2:{ destruct Hret as [-> | ->]; eexists _, _; (split; [done|]); [right; apply set_err|by left]. }
  cbn [Z.eqb negb]. change (negb (RRR_MQTT_OK =? 0)) with false. cbv iota.
  rewrite biglength_small by (unfold RRR_LENGTH_MAX; lia).
  cbn [mbind outcome_bind]. rewrite (wrap_small 64) by lia. rewrite (proj2 (Z.leb_gt _ 0)) by lia.
  eexists _, _. split; [done|]. split_and!.
  - split_and!; try done. by constructor.
  - unfold unfinished, RRR_MQTT_PARSE_IS_ERR, RRR_MQTT_PARSE_IS_COMPLETE,
      RRR_MQTT_PARSE_STATUS_PAYLOAD_IS_DONE. rewrite !status_is_set. cbn.
    by rewrite !orb_false_r.
  - exists t. unfold frame_ok, RRR_MQTT_PARSE_FIXED_HEADER_IS_DONE, RRR_MQTT_PARSE_VARIABLE_HEADER_IS_DONE.
    rewrite !status_is_set. cbn. rewrite orb_true_r, orb_false_r, F2, F4, F5. split_and!; try done; try lia.
    change (status_is _ _) with (RRR_MQTT_PARSE_VARIABLE_HEADER_IS_DONE s). by rewrite F3.
  - unfold packet_type. rewrite F1, H1. cbn. rewrite <- Hid. unfold RRR_MQTT_PARSE_FIXED_HEADER_IS_DONE.
    rewrite status_is_set. cbn. by rewrite orb_true_r.
  - done.
Qed.

(** What a session is afterwards. *)
Definition parsed (s : rrr_mqtt_parse_session) : Prop :=
  session_ok s \/ RRR_MQTT_PARSE_IS_ERR s = true \/
  (RRR_MQTT_PARSE_IS_ERR s = false /\ RRR_MQTT_PARSE_IS_COMPLETE s = true /\
   exists t p s', s_type_properties s = Some t /\
     rrr_mqtt_packet_parse_session_extract_packet s = Ret (p, s') /\ packet_ok t p /\
     received_size p = target_size s).

Lemma update_keeps s bytes v : session_ok s ->
  unfinished (rrr_mqtt_parse_session_update s bytes v) /\
  (fresh (rrr_mqtt_parse_session_update s bytes v) \/
   exists t, frame_ok t (rrr_mqtt_parse_session_update s bytes v)).
Proof. by intros [Hu Hs]. Qed.

Lemma set_attempts_running B t bytes size s n : running B t bytes size s ->
  running B t bytes size (set_attempts s n).
Proof. done. Qed.

(** The end of the packet: the session is complete and the packet can be taken. *)
Lemma finished_parsed B t bytes size s : finished B t bytes size tt s ->
  RRR_MQTT_PARSE_STATUS_PAYLOAD_IS_DONE s = true /\
  exists p, packet s = Some p /\ rrr_length_from_biglength_bug_const (target_size s) = Ret (target_size s) /\
    parsed (RRR_MQTT_PARSE_STATUS_SET (set_packet s (Some (set_received_size p (target_size s))))
              RRR_MQTT_PARSE_STATUS_COMPLETE).
Proof.
  intros (s0 & [Hr Hp] & ->). unfold RRR_MQTT_PARSE_STATUS_PAYLOAD_IS_DONE, done_session.
  rewrite !status_is_set. split; [cbn; by rewrite orb_true_r|].
  pose proof Hr as (_ & _ & _ & _ & _ & (U1 & _) & (_ & F2 & _ & F4 & F5 & _ & _ & F8 & _) & _).
  destruct (packet s0) as [p|] eqn:Ep; [|done]. exists p. cbn. split; [done|].
  split; [apply biglength_small; unfold RRR_LENGTH_MAX; lia|]. right. right.
  unfold RRR_MQTT_PARSE_IS_ERR, RRR_MQTT_PARSE_IS_COMPLETE,
    rrr_mqtt_packet_parse_session_extract_packet, RRR_MQTT_PARSE_STATUS_PAYLOAD_IS_DONE.
  rewrite !status_is_set, !status_is_packet, !status_is_set.
  assert (status_is s0 RRR_MQTT_PARSE_STATUS_ERR = false) as -> by exact U1.
  split; [done|]. split; [apply orb_true_r|]. rewrite orb_true_r. cbn [orb negb].
  exists t. eexists _, _. split; [done|]. split; [done|]. split; [|done]. exact (F8 p eq_refl).
Qed.

(** The packet that is parsed is SUBSCRIBE or UNSUBSCRIBE. *)
Definition subscribe_or_not (s : rrr_mqtt_parse_session) : Prop :=
  packet_type s = RRR_MQTT_P_TYPE_SUBSCRIBE \/ packet_type s = RRR_MQTT_P_TYPE_UNSUBSCRIBE.

(** C16. Whatever bytes have been received (less than 2^31), in whatever pieces, whatever state
    earlier calls left the session in, and whatever allocations fail: [rrr_mqtt_packet_parse] ends,
    and the session then waits for more bytes, has failed, or is complete and holds a packet of
    the type its first byte announced.  It reads nothing outside the buffer, with two
    exceptions.  The program is ended only for a SUBSCRIBE packet of MQTT 5
    ([subscribe_no_local_bug]).  Memory that was refused is used only for SUBSCRIBE and
    UNSUBSCRIBE packets when there is none for the list of subscriptions or for a filter
    (mqtt_packet.c:145, mqtt_subscription.c:88). *)
Theorem rrr_mqtt_packet_parse_safe big alloc_ok alloc_sub alloc_packet alloc_token now s bytes v :
  session_ok s -> bytes_ok bytes -> Z.of_nat (length bytes) < 2 ^ 31 ->
  let s1 := rrr_mqtt_parse_session_update s bytes v in
  match rrr_mqtt_packet_parse big alloc_ok alloc_sub alloc_packet alloc_token now s1 with
  | Ret s' => parsed s'
  | Bug => subscribe_v5 s1
  | Oob => subscribe_or_not s1 /\ exists n, alloc_sub n = false
  end.
Proof.
  intros Hs Hb Hlen s1. destruct (update_keeps s bytes v Hs) as [Hu Hcase].
  assert (readable s1 bytes) as Hr by done. fold s1 in Hu, Hcase. clearbody s1.
  unfold rrr_mqtt_packet_parse. destruct Hr as (H1 & Hr'). rewrite H1. pose proof (conj H1 Hr') as Hr.
  pose proof Hu as (-> & -> & _). destruct (Z.ltb_spec (buf_wpos s1) 2) as [|Hwpos].
  { left. split; [done|]. destruct Hcase as [?|[t ?]]; [by left|right; by exists t]. }
  set (header := if negb _ then _ else _).
  assert (exists go_on s', header = Ret (go_on, s') /\
    if go_on : bool then readable s' bytes /\ unfinished s' /\ (exists t, frame_ok t s') /\
      packet_type s' = packet_type s1 /\ version_in_use s' = version_in_use s1
    else parsed s') as (go_on & s2 & -> & Hgo).
  { subst header. destruct Hcase as [Hf|[t Ht]].
    - pose proof Hf as (-> & _). destruct (fixed_header_safe s1 bytes Hr Hwpos Hu Hf) as (go & s2 & E & Hgo).
      exists go, s2. split; [done|]. destruct go; [done|]. destruct Hgo as [->|Hgo].
      + left. split; [done|]. by left.
      + right. by left.
    - pose proof Ht as (-> & _). exists true, s1. split; [done|]. split_and!; eauto; apply Hu. }
  cbn [mbind outcome_bind]. destruct go_on; [|done]. cbn [negb].
  destruct Hgo as (Hr2 & Hu2 & [t Ht] & Hpt & Hver).
  assert (subscribe_v5 s2 -> subscribe_v5 s1) as HB by (unfold subscribe_v5; by rewrite Hpt, Hver).
  assert (packet_type s2 = type_id t) as Hpt2 by (unfold packet_type; by destruct Ht as (-> & -> & _)).
  pose proof (session_running _ _ _ _ Hr2 Hu2 Ht HB) as Hrun.
  set (s3 := if negb (RRR_MQTT_PARSE_VARIABLE_HEADER_IS_DONE s2) then _ else _).
  assert (running (subscribe_v5 s1) t bytes (target_size s2) s3) as Hrun3 by (subst s3; by destruct (negb _)).
  clearbody s3. destruct (_ && _); [right; left; apply set_err|].
  pose proof Hrun3 as (_ & _ & _ & _ & _ & _ & (_ & Et & Hid & _) & _). rewrite Et.
  assert (type_id t = RRR_MQTT_P_TYPE_SUBSCRIBE \/ type_id t = RRR_MQTT_P_TYPE_UNSUBSCRIBE ->
    (exists n, alloc_sub n = false) -> subscribe_or_not s1 /\ exists n, alloc_sub n = false) as Hsub
    by (unfold subscribe_or_not; by rewrite <- Hpt, Hpt2).
  pose proof (type_parse_safe _ _ _ _ _ big alloc_ok alloc_sub alloc_packet alloc_token now Hsub Hid s3 Hrun3) as Hty.
  unfold wp in Hty. destruct (type_parse _ _ _ _ _ _ _ s3) as [[s4 [c|[]]]| |]; cbn [mbind outcome_bind].
  - destruct Hty as [Hrun4 Hc]. rewrite (proj2 (Z.eqb_neq _ _) Hc). cbn [negb].
    destruct (c =? RRR_MQTT_INCOMPLETE); [left; by eapply running_session_ok|right; left; apply set_err].
  - destruct (finished_parsed _ _ _ _ _ Hty) as (-> & p & -> & -> & Hp). exact Hp.
  - exact Hty.
  - exact Hty.
Qed.

Lemma session_init_ok : session_ok rrr_mqtt_parse_session_init.
Proof. split; [done|]. by left. Qed.

(** A PUBLISH packet to [a/b], whose payload is one byte. *)
Definition publish_example : list Z := [0x30; 6; 0; 3; 97; 47; 98; 33].

Lemma rrr_mqtt_packet_parse_safe_witness :
  exists s', rrr_mqtt_packet_parse false (fun _ => true) (fun _ => true) (fun _ => true) (fun _ => true) 0
    (rrr_mqtt_parse_session_update rrr_mqtt_parse_session_init publish_example
       (rrr_mqtt_p_get_protocol_version RRR_MQTT_VERSION_3_1_1)) = Ret s' /\
    RRR_MQTT_PARSE_IS_COMPLETE s' = true /\ parsed s'.
Proof.
  pose proof (rrr_mqtt_packet_parse_safe false (fun _ => true) (fun _ => true) (fun _ => true)
    (fun _ => true) 0 rrr_mqtt_parse_session_init publish_example
    (rrr_mqtt_p_get_protocol_version RRR_MQTT_VERSION_3_1_1) session_init_ok
    ltac:(repeat constructor; unfold byte_ok; lia) ltac:(reflexivity)) as H.
  cbv zeta in H. revert H.
  destruct (rrr_mqtt_packet_parse _ _ _ _ _ _ _) as [s'| |] eqn:E; vm_compute in E; [|done|done].
  intros H. exists s'. split; [done|]. split; [|exact H]. injection E as <-. reflexivity.
Defined.

(** A SUBSCRIBE packet for which there is no memory for the list of subscriptions, and one
    for which there is none for the filter. *)
Lemma subscribe_no_memory :
  let bytes := [0x82; 12; 0; 1; 0; 7; 97; 47; 98; 47; 99; 47; 100; 0] in
  let parse alloc := rrr_mqtt_packet_parse false (fun _ => true) alloc (fun _ => true) (fun _ => true) 0
    (rrr_mqtt_parse_session_update rrr_mqtt_parse_session_init bytes
       (rrr_mqtt_p_get_protocol_version RRR_MQTT_VERSION_3_1_1)) in
  parse (fun n => negb (n =? sizeof_rrr_mqtt_subscription_collection)) = Oob /\
  parse (fun n => negb (n =? 8)) = Oob.
Proof. split; vm_compute; reflexivity. Qed.

(** A SUBSCRIBE packet of MQTT 5 that asks for the No Local option ends the program. *)
Lemma subscribe_no_local_bug :
  rrr_mqtt_packet_parse false (fun _ => true) (fun _ => true) (fun _ => true) (fun _ => true) 0
    (rrr_mqtt_parse_session_update rrr_mqtt_parse_session_init [0x82; 7; 0; 1; 0; 0; 1; 97; 4]
       (rrr_mqtt_p_get_protocol_version RRR_MQTT_VERSION_5)) = Bug.
Proof. vm_compute. reflexivity. Qed.

(** The options byte of the last subscription is taken from behind the packet. *)
Lemma subscribe_options_overrun :
  exists s', rrr_mqtt_packet_parse false (fun _ => true) (fun _ => true) (fun _ => true) (fun _ => true) 0
    (rrr_mqtt_parse_session_update rrr_mqtt_parse_session_init [0x82; 5; 0; 1; 0; 1; 97; 1]
       (rrr_mqtt_p_get_protocol_version RRR_MQTT_VERSION_3_1_1)) = Ret s' /\
    RRR_MQTT_PARSE_IS_COMPLETE s' = true /\ target_size s' = 7 /\
    exists p b sub, packet s' = Some p /\ body p = Sub_usub b /\ subscriptions b = [sub] /\
      qos_or_reason_v5 sub = 1.
Proof. eexists. split; [vm_compute; reflexivity|]. split; [done|]. split; [done|]. by eexists _, _, _. Qed.

End MqttParseSafe.
