(* ===== verification/MqttAssemble.v ===== *)
(** Assembling MQTT packets (src/src/lib/mqtt/mqtt_assemble.c): the variable header
    and the payload of every type are written to a growing buffer; what is written
    are the bytes of the MQTT specification.  Extending the buffer may move it:
    [moved old new] is by how much its address changes when it grows from [old] to
    [new] bytes, 0 when it stays in place. *)
From S2P Require Import Prelude Types Parse MqttTopic MsgHead MqttPayloadBuf MqttProperty.
From S2P Require Import MqttSubscription MqttPacket MqttParse.
From stdpp Require Import strings.
Open Scope Z_scope.
Open Scope c_scope.

Module MqttAssemble.
Import Types Parse MqttTopic MsgHead MqttProperty MqttSubscription MqttPacket MqttParse MqttPayloadBuf.

Definition RRR_MQTT_ASSEMBLE_OK : Z := 0.
Definition RRR_MQTT_ASSEMBLE_INTERNAL_ERR : Z := 1.

(** Code that adds to the buffer and gives a status; it is left with [goto out]
    when the status is not zero. *)
Definition writer : Type :=
  rrr_mqtt_payload_buf_session -> outcome (Z * rrr_mqtt_payload_buf_session).

Definition then_ (a b : writer) : writer := λ s,
  '(ret, s) ← a s; if negb (ret =? 0) then Ret (ret, s) else b s.

Definition nothing : writer := λ s, Ret (RRR_MQTT_ASSEMBLE_OK, s).
Definition fails : writer := λ _, Bug.
(** Something read before writing goes on. *)
Definition reading {A} (m : outcome A) (w : A -> writer) : writer := λ s, a ← m; w a s.
(** [if (b) { RRR_BUG(...); }] *)
Definition bug_if (b : bool) : writer := if b then fails else nothing.
Definition when (b : bool) (w : writer) : writer := if b then w else nothing.

Section Assemble.
Context (big : bool) (alloc_ok : Z -> bool) (moved : Z -> Z -> Z).

(** ** The macros *)

(** The status of a put that did not succeed. *)
Definition checked (w : writer) : writer := λ s,
  '(ret, s) ← w s;
  Ret (if negb (ret =? RRR_MQTT_PAYLOAD_BUF_OK) then RRR_MQTT_ASSEMBLE_INTERNAL_ERR
       else RRR_MQTT_ASSEMBLE_OK, s).

Definition PUT_RAW (data : list Z) : writer :=
  checked (fun s => rrr_mqtt_payload_buf_put_raw alloc_ok s data).
Definition PUT_U8 (byte : Z) : writer := PUT_RAW [u8 byte].
Definition PUT_U16 (v : Z) : writer := PUT_RAW (host_enc big 2 (rrr_htobe16 big (u16 v))).
Definition PUT_U32 (v : Z) : writer := PUT_RAW (host_enc big 4 (rrr_htobe32 big (u32 v))).
Definition PUT_VARIABLE_INT (v : Z) : writer :=
  checked (fun s => rrr_mqtt_payload_buf_put_variable_int alloc_ok s v).

(** The [size] bytes at [data]. *)
Definition PUT_RAW_WITH_LENGTH (data : option (list Z)) (size : Z) : writer :=
  then_ (PUT_U16 size) (reading (read_data data size) PUT_RAW).

Definition PUT_AND_VERIFY_RAW_WITH_LENGTH (data : option (list Z)) : writer :=
  match data with
  | None => fails
  | Some obj =>
    reading (c_string obj) (fun str =>
      let size := Z.of_nat (length str) in
      then_ (bug_if ((first_char str =? 0) && (0 <? size)))
        (then_ (bug_if (0xffff <? size)) (PUT_RAW_WITH_LENGTH data (u16 size))))
  end.

(** The bytes of a [struct rrr_nullsafe_str]; NULL has none. *)
Definition PUT_AND_VERIFY_NULLSAFE_WITH_LENGTH (data : option (list Z)) : writer :=
  let bytes := default [] data in
  reading (rrr_u16_from_biglength_bug_const (Z.of_nat (length bytes))) (fun len =>
    then_ (PUT_U16 len)
      (checked (fun s => rrr_mqtt_payload_buf_put_nullsafe alloc_ok s bytes))).

(** ** Properties *)

(** An integer of [n] bytes at the start of the data of a property. *)
Definition data_uint (n : nat) (property : rrr_mqtt_property) : outcome Z :=
  bs ← read_data (data property) (Z.of_nat n); Ret (host_dec big bs).

Definition put_text (property : rrr_mqtt_property) : writer :=
  PUT_RAW_WITH_LENGTH (data property) (u16 (p_length property)).

Definition rrr_mqtt_assemble_put_properties_callback (property : rrr_mqtt_property) : writer :=
  let t := def_data_type (definition property) in
  then_ (bug_if (match data property with None => true | Some _ => false end ||
                 (p_length property =? 0)))
  (then_ (PUT_U8 (identifier (definition property)))
    (if t =? RRR_MQTT_PROPERTY_DATA_TYPE_ONE then reading (data_uint 1 property) PUT_U8
     else if t =? RRR_MQTT_PROPERTY_DATA_TYPE_TWO then reading (data_uint 2 property) PUT_U16
     else if t =? RRR_MQTT_PROPERTY_DATA_TYPE_FOUR then reading (data_uint 4 property) PUT_U32
     else if t =? RRR_MQTT_PROPERTY_DATA_TYPE_VINT then
       reading (data_uint 4 property) (fun v => then_ (bug_if (0xfffffff <? v)) (PUT_VARIABLE_INT v))
     else if (t =? RRR_MQTT_PROPERTY_DATA_TYPE_BLOB) || (t =? RRR_MQTT_PROPERTY_DATA_TYPE_UTF8) then
       then_ (bug_if (0xffff <? p_length property)) (put_text property)
     else if t =? RRR_MQTT_PROPERTY_DATA_TYPE_2UTF8 then
       match sibling property with
       | None => fails
       | Some sib =>
         match sibling sib with
         | Some _ => fails
         | None =>
           then_ (bug_if ((0xffff <? p_length property) || (0xffff <? p_length sib)))
             (then_ (put_text property) (put_text sib))
         end
       end
     else fails)).

(** [begin] is kept over the loop, in which the buffer may move. *)
Definition rrr_mqtt_assemble_put_properties (properties : rrr_mqtt_property_collection) : writer :=
  reading (rrr_mqtt_property_collection_calculate_size big properties) (fun '(ret, total_size, count) =>
    if negb (ret =? 0) then (fun s => Ret (RRR_MQTT_ASSEMBLE_INTERNAL_ERR, s))
    else
      let total_size := u32 (total_size + count) in
      then_ (bug_if (0xfffffff <? u32 (total_size + count)))
      (then_ (PUT_VARIABLE_INT total_size) (fun s =>
        '(ret, s') ← rrr_mqtt_property_collection_iterate
                       rrr_mqtt_assemble_put_properties_callback properties s;
        if negb (ret =? 0) then Ret (RRR_MQTT_ASSEMBLE_INTERNAL_ERR, s')
        else if negb (u32 (wpos s' - wpos s + moved (buf_size s) (buf_size s')) =? total_size)
        then Bug
        else Ret (RRR_MQTT_ASSEMBLE_OK, s')))).

Definition PUT_PROPERTIES (properties : rrr_mqtt_property_collection) : writer :=
  checked (rrr_mqtt_assemble_put_properties properties).

(** ** [BUF_INIT] and [BUF_DESTROY_AND_RETURN]

    The status, [*target] and [*size].  A buffer that cannot be allocated at first
    does not end the function; [ret] may be [overwritten] later. *)
Definition with_buffer (overwritten : bool) (w : writer) : outcome (Z * option (list Z) * Z) :=
  let '(ret, s) := rrr_mqtt_payload_buf_init alloc_ok in
  let ret := if negb (ret =? RRR_MQTT_PAYLOAD_BUF_OK) then RRR_MQTT_ASSEMBLE_INTERNAL_ERR
             else RRR_MQTT_ASSEMBLE_OK in
  '(ret_w, s) ← w s;
  size ← rrr_mqtt_payload_buf_get_touched_size s;
  Ret (if overwritten || negb (ret_w =? 0) then ret_w else ret,
       if buf_size s =? 0 then None else Some (rrr_mqtt_payload_buf_extract_buffer s), size).

(** ** Packets *)

Definition rrr_mqtt_assemble_connect (packet : rrr_mqtt_p) (connect : rrr_mqtt_p_connect)
  : outcome (Z * option (list Z) * Z) :=
  with_buffer false
    match v_name (protocol_version packet) with
    | None => (fun _ => Oob)
    | Some name =>
      let len := Z.of_nat (length name) in
      then_ (bug_if (0xffff <? len))
      (then_ (PUT_RAW_WITH_LENGTH (Some name) (u16 len))
      (then_ (PUT_U8 (v_id (protocol_version packet)))
      (then_ (PUT_U8 (connect_flags connect))
      (then_ (PUT_U16 (keep_alive connect))
      (then_ (when (RRR_MQTT_P_IS_V5 packet) (PUT_PROPERTIES (connect_properties connect)))
      (then_ (match client_identifier connect with
              | Some id => PUT_AND_VERIFY_RAW_WITH_LENGTH (Some id)
              | None => PUT_U16 0
              end)
      (then_ (when (negb (RRR_MQTT_P_CONNECT_GET_FLAG_WILL connect =? 0))
               (then_ (when (RRR_MQTT_P_IS_V5 packet) (PUT_PROPERTIES (will_properties connect)))
               (then_ (PUT_AND_VERIFY_RAW_WITH_LENGTH (will_topic connect))
                      (PUT_AND_VERIFY_NULLSAFE_WITH_LENGTH (will_message connect)))))
      (then_ (when (negb (RRR_MQTT_P_CONNECT_GET_FLAG_USER_NAME connect =? 0))
               (PUT_AND_VERIFY_RAW_WITH_LENGTH (username connect)))
             (when (negb (RRR_MQTT_P_CONNECT_GET_FLAG_PASSWORD connect =? 0))
               (PUT_AND_VERIFY_RAW_WITH_LENGTH (password connect)))))))))))
    end.

Definition rrr_mqtt_assemble_connack (packet : rrr_mqtt_p) (connack : rrr_mqtt_p_connack)
  : outcome (Z * option (list Z) * Z) :=
  with_buffer false
    (if RRR_MQTT_P_IS_V5 packet then
       then_ (PUT_U8 (ack_flags connack))
       (then_ (PUT_U8 (reason_v5 packet)) (PUT_PROPERTIES (connack_properties connack)))
     else
       reading (rrr_mqtt_p_translate_reason_from_v5 (reason_v5 packet)) (fun reason_v31 =>
         then_ (bug_if (5 <? reason_v31))
         (then_ (PUT_U8 (ack_flags connack)) (PUT_U8 reason_v31)))).

(** A C string of at most 65535 bytes with its length. *)
Definition put_string (data : option (list Z)) : writer :=
  match data with
  | None => (fun _ => Oob)
  | Some obj =>
    reading (c_string obj) (fun str =>
      then_ (bug_if (0xffff <? Z.of_nat (length str)))
            (PUT_RAW_WITH_LENGTH data (u16 (Z.of_nat (length str)))))
  end.

Definition rrr_mqtt_assemble_publish (packet : rrr_mqtt_p) (publish : rrr_mqtt_p_publish)
  : outcome (Z * option (list Z) * Z) :=
  with_buffer false
    (then_ (put_string (topic publish))
    (then_ (when (0 <? RRR_MQTT_P_PUBLISH_GET_FLAG_QOS packet) (PUT_U16 (packet_identifier packet)))
           (when (RRR_MQTT_P_IS_V5 packet) (PUT_PROPERTIES (publish_properties publish))))).

Definition rrr_mqtt_assemble_def_puback (packet : rrr_mqtt_p)
    (properties : rrr_mqtt_property_collection) : outcome (Z * option (list Z) * Z) :=
  with_buffer false
    (then_ (PUT_U16 (packet_identifier packet))
      (when (RRR_MQTT_P_IS_V5 packet)
        (then_ (PUT_U8 (reason_v5 packet))
               (when (RRR_MQTT_P_IS_V5 packet) (PUT_PROPERTIES properties))))).

(** The string of a subscription is kept without its terminator. *)
Definition rrr_mqtt_assemble_sub_usub_callback (is_v5 has_topic_options : bool)
    (sub : rrr_mqtt_subscription) : writer :=
  let flags := u8 (qos_or_reason_v5 sub) in
  let flags := if is_v5 then u8 (flags ||| u8 (nl sub <<< 2) ||| u8 (rap sub <<< 3) |||
                                 u8 (retain_handling sub <<< 4)) else flags in
  let len := Z.of_nat (length (topic_filter sub)) in
  then_ (bug_if ((0 <? nl sub) || (0 <? rap sub) || (2 <? retain_handling sub) ||
                 (2 <? qos_or_reason_v5 sub)))
  (then_ (bug_if (0xffff <? len))
  (then_ (PUT_RAW_WITH_LENGTH (Some (topic_filter sub)) (u16 len))
         (when has_topic_options (PUT_U8 flags)))).

(** The loop over the subscriptions, which are left as they are. *)
Definition over_subscriptions (callback : rrr_mqtt_subscription -> writer)
    (c : rrr_mqtt_subscription_collection) : writer := λ s,
  '(ret, _, s) ← rrr_mqtt_subscription_collection_iterate
    (fun sub s => '(ret, s) ← callback sub s; Ret (ret, sub, s)) c s;
  Ret (ret, s).

Definition rrr_mqtt_assemble_sub_usub (packet : rrr_mqtt_p) (sub_usub : rrr_mqtt_p_sub_usub)
    (has_topic_options : bool) : outcome (Z * option (list Z) * Z) :=
  with_buffer true
    (then_ (PUT_U16 (packet_identifier packet))
    (then_ (when (RRR_MQTT_P_IS_V5 packet) (PUT_PROPERTIES (sub_properties sub_usub)))
    (then_ (reading (rrr_mqtt_subscription_collection_count (subscriptions sub_usub))
             (fun n => bug_if (n <=? 0)))
      (over_subscriptions (rrr_mqtt_assemble_sub_usub_callback (RRR_MQTT_P_IS_V5 packet) has_topic_options)
         (subscriptions sub_usub))))).

Definition rrr_mqtt_assemble_subscribe (packet : rrr_mqtt_p) (sub_usub : rrr_mqtt_p_sub_usub)
  : outcome (Z * option (list Z) * Z) := rrr_mqtt_assemble_sub_usub packet sub_usub true.
Definition rrr_mqtt_assemble_unsubscribe (packet : rrr_mqtt_p) (sub_usub : rrr_mqtt_p_sub_usub)
  : outcome (Z * option (list Z) * Z) := rrr_mqtt_assemble_sub_usub packet sub_usub false.

Definition rrr_mqtt_assemble_suback_callback (is_v5 : bool) (sub : rrr_mqtt_subscription) : writer :=
  let reason := u8 (qos_or_reason_v5 sub) in
  PUT_U8 (if negb is_v5 && (2 <? reason) then 0x80 else reason).

Definition put_acknowledgements (packet : rrr_mqtt_p) (suback : rrr_mqtt_p_suback_unsuback) : writer :=
  then_ (reading (rrr_mqtt_subscription_collection_count (subscriptions_ suback))
          (fun n => bug_if (n <=? 0)))
    (over_subscriptions (rrr_mqtt_assemble_suback_callback (RRR_MQTT_P_IS_V5 packet))
       (subscriptions_ suback)).

Definition rrr_mqtt_assemble_suback (packet : rrr_mqtt_p) (suback : rrr_mqtt_p_suback_unsuback)
  : outcome (Z * option (list Z) * Z) :=
  with_buffer true
    (then_ (PUT_U16 (packet_identifier packet))
    (then_ (when (RRR_MQTT_P_IS_V5 packet) (PUT_PROPERTIES (suback_properties suback)))
           (put_acknowledgements packet suback))).

Definition rrr_mqtt_assemble_unsuback (packet : rrr_mqtt_p) (suback : rrr_mqtt_p_suback_unsuback)
  : outcome (Z * option (list Z) * Z) :=
  with_buffer (RRR_MQTT_P_IS_V5 packet)
    (then_ (PUT_U16 (packet_identifier packet))
      (when (RRR_MQTT_P_IS_V5 packet)
        (then_ (PUT_PROPERTIES (suback_properties suback)) (put_acknowledgements packet suback)))).

Definition rrr_mqtt_assemble_pingreq : outcome (Z * option (list Z) * Z) := with_buffer false nothing.
Definition rrr_mqtt_assemble_pingresp : outcome (Z * option (list Z) * Z) := with_buffer false nothing.

Definition rrr_mqtt_assemble_disconnect (packet : rrr_mqtt_p) : outcome (Z * option (list Z) * Z) :=
  with_buffer false
    (when (RRR_MQTT_P_IS_V5 packet) (then_ (PUT_U8 (reason_v5 packet)) (PUT_U8 0))).

(** [type_properties->assemble], which AUTH does not have. *)
Definition RRR_MQTT_P_GET_ASSEMBLER (packet : rrr_mqtt_p) : outcome (Z * option (list Z) * Z) :=
  match body packet with
  | Connect b => rrr_mqtt_assemble_connect packet b
  | Connack b => rrr_mqtt_assemble_connack packet b
  | Publish b => rrr_mqtt_assemble_publish packet b
  | Def_puback b => rrr_mqtt_assemble_def_puback packet b
  | Sub_usub b =>
    if RRR_MQTT_P_GET_TYPE packet =? RRR_MQTT_P_TYPE_SUBSCRIBE
    then rrr_mqtt_assemble_subscribe packet b else rrr_mqtt_assemble_unsubscribe packet b
  | Suback_unsuback b =>
    if RRR_MQTT_P_GET_TYPE packet =? RRR_MQTT_P_TYPE_SUBACK
    then rrr_mqtt_assemble_suback packet b else rrr_mqtt_assemble_unsuback packet b
  | Disconnect _ => rrr_mqtt_assemble_disconnect packet
  | Plain =>
    if RRR_MQTT_P_GET_TYPE packet =? RRR_MQTT_P_TYPE_PINGREQ then rrr_mqtt_assemble_pingreq
    else if RRR_MQTT_P_GET_TYPE packet =? RRR_MQTT_P_TYPE_PINGRESP then rrr_mqtt_assemble_pingresp
    else Bug
  end.

End Assemble.

(** * What is written *)

(** When [calm] holds, the buffer does not move while properties are written. *)
Section Appends.
Context (calm : Prop) (big : bool) (alloc_ok : Z -> bool) (moved : Z -> Z -> Z).

(** What a writer of [data] may come to: it is appended, memory is refused, or the program
    is ended, which is only possible without [calm] and when the buffer has to grow. *)
Definition appended (s : rrr_mqtt_payload_buf_session) (content data : list Z)
    (r : outcome (Z * rrr_mqtt_payload_buf_session)) : Prop :=
  (exists s', r = Ret (0, s') /\ buf_ok s' (content ++ data) /\ same_size s s' (content ++ data)) \/
  (exists s', r = Ret (1, s') /\ (exists rest, buf_ok s' rest) /\ exists n, alloc_ok n = false) \/
  (r = Bug /\ ~ calm /\ buf_size s < Z.of_nat (length (content ++ data))).

Definition appends (w : writer) (data : list Z) : Prop :=
  forall s content, buf_ok s content -> Z.of_nat (length content + length data) + 100 < 2 ^ 31 ->
  appended s content data (w s).

Lemma appends_nothing : appends nothing [].
Proof. intros s content Hs _. left. exists s. rewrite app_nil_r. by split_and!. Qed.

Lemma appends_then a b da db : appends a da -> appends b db -> appends (then_ a b) (da ++ db).
Proof.
  intros Ha Hb s content Hs Hlim. rewrite length_app in Hlim. unfold then_, appended.
  destruct (Ha s content Hs) as [(s1 & -> & H1 & Z1)|[(s1 & -> & H1 & Hn)|(-> & Hc & Hg)]]; [lia|..];
    cbn [mbind outcome_bind Z.eqb negb].
  - destruct (Hb s1 (content ++ da) H1) as [(s2 & -> & H2 & Z2)|[H2|(-> & Hc & Hg)]]; [rewrite length_app; lia|..].
    + left. exists s2. rewrite app_assoc. split_and!; try done. unfold same_size in *. intros Hfit.
      rewrite length_app in Hfit. rewrite Z2, Z1; [done|lia|]. rewrite Z1, length_app; lia.
    + by right; left.
    + right; right. split_and!; try done. rewrite app_assoc. apply Z.nle_gt. intros Hfit. unfold same_size in Z1.
      rewrite length_app in Hfit. rewrite Z1 in Hg by lia. rewrite length_app in Hg. lia.
  - right; left. by exists s1.
  - right; right. split_and!; try done. rewrite app_assoc, length_app. lia.
Qed.

Lemma appends_reading {A} (m : outcome A) (w : A -> writer) a data :
  m = Ret a -> appends (w a) data -> appends (reading m w) data.
Proof. intros -> H. exact H. Qed.

Lemma appends_bug_if b : b = false -> appends (bug_if b) [].
Proof. intros ->. apply appends_nothing. Qed.

Lemma appends_guard b w data : b = false -> appends w data -> appends (then_ (bug_if b) w) data.
Proof. intros Hb Hw. apply (appends_then _ _ [] data); [by apply appends_bug_if|done]. Qed.

Lemma appends_when (b : bool) w data : (b = true -> appends w data) ->
  appends (when b w) (if b then data else []).
Proof. intros Hw. destruct b; [by apply Hw|apply appends_nothing]. Qed.

Lemma appends_checked w data :
  (forall s content, buf_ok s content -> Z.of_nat (length content + length data) + 100 < 2 ^ 31 ->
     put_result alloc_ok s content data (w s)) -> appends (checked w) data.
Proof.
  intros Hw s content Hs Hlim. unfold checked.
  destruct (Hw s content Hs Hlim) as (ret & s' & -> & [[-> H]|(-> & H & Hn)]).
  - left. by exists s'.
  - right; left. exists s'. split; [done|]. split; [by exists content|done].
Qed.

Lemma appends_raw data : data <> [] -> appends (PUT_RAW alloc_ok data) data.
Proof. intros Hd. apply appends_checked. intros s content Hs Hlim. apply put_raw_ok; [done|done|lia]. Qed.

Lemma appends_u8 b : byte_ok b -> appends (PUT_U8 alloc_ok b) [b].
Proof.
  intros Hb. unfold PUT_U8. rewrite wrap_small by (unfold byte_ok in Hb; lia). by apply appends_raw.
Qed.

Lemma appends_u16 v : 0 <= v < 2 ^ 16 -> appends (PUT_U16 big alloc_ok v) (be_enc 2 v).
Proof.
  intros Hv. unfold PUT_U16, rrr_htobe16. rewrite wrap_small, host_enc_to_be by lia. by apply appends_raw.
Qed.

Lemma appends_u32 v : 0 <= v < 2 ^ 32 -> appends (PUT_U32 big alloc_ok v) (be_enc 4 v).
Proof.
  intros Hv. unfold PUT_U32, rrr_htobe32. rewrite wrap_small, host_enc_to_be by lia. by apply appends_raw.
Qed.

Lemma appends_vint v : 0 <= v <= 0xfffffff -> appends (PUT_VARIABLE_INT alloc_ok v) (vint v).
Proof.
  intros Hv. apply appends_checked. intros s content Hs Hlim. apply put_variable_int_ok; [done..|].
  pose proof (vint_length 4 v ltac:(lia)). unfold vint in Hlim. lia.
Qed.

Lemma appends_text data bs rest : data = Some (bs ++ rest) -> bs <> [] ->
  Z.of_nat (length bs) <= 0xffff ->
  appends (PUT_RAW_WITH_LENGTH big alloc_ok data (u16 (Z.of_nat (length bs)))) (str_wire bs).
Proof.
  intros -> Hne Hl. rewrite wrap_small by lia. unfold PUT_RAW_WITH_LENGTH, str_wire.
  apply appends_then; [apply appends_u16; lia|].
  eapply appends_reading; [apply read_data_app|by apply appends_raw].
Qed.

(** ** Properties *)

Lemma le_enc_split k m v : le_enc (k + m) v = le_enc k v ++ le_enc m (v / 256 ^ Z.of_nat k).
Proof.
  revert v. induction k as [|k IH]; intros v; cbn [le_enc Nat.add app].
  - by rewrite Z.div_1_r.
  - rewrite IH. do 3 f_equal. rewrite Z.div_div by (try apply Z.pow_pos_nonneg; lia).
    f_equal. rewrite Nat2Z.inj_succ, Z.pow_succ_r by lia. lia.
Qed.

(** The first bytes of an integer on a little endian host. *)
Lemma data_uint_low (k m : nat) p n : big = false -> (k + m = 4)%nat ->
  data p = Some (host_enc big 4 n) -> 0 <= n < 2 ^ (8 * Z.of_nat k) -> data_uint big k p = Ret n.
Proof.
  intros -> Hk Hd Hn. unfold data_uint, host_enc in *. rewrite Hd, <- Hk, le_enc_split.
  pose proof (read_data_app (le_enc k n) (le_enc m (n / 256 ^ Z.of_nat k))) as H.
  rewrite length_le_enc in H. rewrite H. cbn [mbind outcome_bind host_dec]. f_equal.
  rewrite le_dec_enc. by apply Z.mod_small.
Qed.

(** Integers of four bytes do not depend on the host. *)
Lemma data_uint_all p n : data p = Some (host_enc big 4 n) -> 0 <= n < 2 ^ 32 -> data_uint big 4 p = Ret n.
Proof.
  intros Hd Hn. unfold data_uint. rewrite Hd, <- (app_nil_r (host_enc big 4 n)).
  pose proof (read_data_app (host_enc big 4 n) []) as H. rewrite length_host_enc in H. rewrite H.
  cbn [mbind outcome_bind]. f_equal. by apply host_dec_enc.
Qed.

(** The property is not an integer of one or two bytes. *)
Definition wide (it : item) : Prop :=
  item_type it <> RRR_MQTT_PROPERTY_DATA_TYPE_ONE /\ item_type it <> RRR_MQTT_PROPERTY_DATA_TYPE_TWO.

Lemma appends_stored p bs : holds_text p bs -> text_ok bs -> appends (put_text big alloc_ok p) (str_wire bs).
Proof.
  intros (_ & Hl & rest & Hd) (Hne & Hmax & _). unfold put_text. rewrite Hl. by eapply appends_text.
Qed.

Lemma holds_text_there p bs : holds_text p bs -> text_ok bs ->
  match data p with None => true | Some _ => false end || (p_length p =? 0) = false /\
  (0xffff <? p_length p) = false.
Proof.
  intros (_ & -> & rest & ->) (Hne & Hmax & _). assert (length bs <> 0%nat) by (by destruct bs).
  cbn [orb]. rewrite (proj2 (Z.eqb_neq _ _)), (proj2 (Z.ltb_ge _ _)) by lia. done.
Qed.

Lemma appends_property p it : big = false \/ wide it -> stands_for big p it ->
  appends (rrr_mqtt_assemble_put_properties_callback big alloc_ok p) (item_wire it).
Proof.
  intros Hbig Hs. pose proof (stands_for_type _ _ _ Hs) as Ht. pose proof Hs as ((Hid & Hv) & Hdef & Hp).
  pose proof (get_definition_id _ _ Hdef) as Eid. destruct it as [id v]. cbn [fst snd] in *.
  unfold rrr_mqtt_assemble_put_properties_callback, item_wire. cbn [fst snd]. rewrite Ht, Eid.
  change (id :: value_wire (item_type (id, v)) v) with ([id] ++ value_wire (item_type (id, v)) v).
  destruct v as [n|bs|a b]; cbn [snd] in *.
  - destruct Hp as (_ & Hl & Hd & _). pose proof (number_range _ _ Hv) as Hr.
    apply appends_guard; [by rewrite Hd, Hl|]. apply appends_then; [by apply appends_u8|].
    destruct (number_type _ _ Hv) as [[E Hb]|[[E Hb]|[E|[E Hb]]]]; cbn [snd] in *;
      unfold value_wire; rewrite E; cbn -[be_enc vint].
    + destruct Hbig as [Hbig|[Hw _]]; [|done]. eapply appends_reading; [apply (data_uint_low 1 3 p n); [done..|lia]|].
      cbn. rewrite Z.mod_small by lia. apply appends_u8. unfold byte_ok. lia.
    + destruct Hbig as [Hbig|[_ Hw]]; [|done]. eapply appends_reading; [apply (data_uint_low 2 2 p n); [done..|lia]|].
      apply appends_u16. lia.
    + eapply appends_reading; [apply (data_uint_all p n); [done|lia]|].
      apply appends_u32. lia.
    + eapply appends_reading; [apply (data_uint_all p n); [done|lia]|].
      apply appends_guard; [lia|]. apply appends_vint. lia.
  - destruct Hv as (E & Hok), Hp as (Hh & _).
    destruct (holds_text_there p bs Hh Hok) as [-> Hlen]. apply appends_guard; [done|].
    apply appends_then; [by apply appends_u8|]. change (value_wire _ (Text bs)) with (str_wire bs).
    assert (appends (then_ (bug_if (0xffff <? p_length p)) (put_text big alloc_ok p)) (str_wire bs)) as H
      by (apply appends_guard; [done|by apply appends_stored]).
    by destruct E as [-> | ->].
  - destruct Hv as (-> & Ha & Hb), Hp as (Hh & sib & Hsib & Hhb & Hend).
    destruct (holds_text_there p a Hh Ha) as [-> Hla], (holds_text_there sib b Hhb Hb) as [_ Hlb].
    apply appends_guard; [done|]. apply appends_then; [by apply appends_u8|].
    assert (value_wire RRR_MQTT_PROPERTY_DATA_TYPE_2UTF8 (Pair a b) = str_wire a ++ str_wire b) as ->
      by (unfold value_wire, str_wire; by rewrite <- !app_assoc).
    cbn -[str_wire]. rewrite Hsib, Hend. apply appends_guard; [by rewrite Hla, Hlb|].
    apply appends_then; by apply appends_stored.
Qed.

Lemma appends_iterate ps l : big = false \/ Forall wide l -> Forall2 (stands_for big) ps l ->
  appends (property_iterate (rrr_mqtt_assemble_put_properties_callback big alloc_ok) ps) (items_wire l).
Proof.
  intros Hbig H. induction H as [|p it ps l Hp _ IH]; [apply appends_nothing|].
  assert (big = false \/ wide it) as Hb1 by (destruct Hbig as [?|Hw]; [by left|right; by apply Forall_cons_1 in Hw as [? _]]).
  assert (big = false \/ Forall wide l) as Hb2 by (destruct Hbig as [?|Hw]; [by left|right; by apply Forall_cons_1 in Hw as [_ ?]]).
  specialize (IH Hb2).
  intros s content Hs Hlim. unfold items_wire in Hlim |- *. cbn [flat_map] in *.
  apply (appends_then _ _ _ _ (appends_property p it Hb1 Hp) IH s content Hs Hlim).
Qed.

(** Properties that can be written: the integers of one and two bytes are taken from
    the first bytes of the stored ones, and when [calm] the buffer stays where it is. *)
Definition props_ready (c : rrr_mqtt_property_collection) (l : list item) : Prop :=
  collection_holds big c l /\ Z.of_nat (length (items_wire l) + length l) <= 0xfffffff /\
  (big = false \/ Forall wide l) /\ (calm -> l = [] \/ forall a b, moved a b = 0).

Lemma appends_properties c l : (forall a, moved a a = 0) -> props_ready c l ->
  appends (PUT_PROPERTIES big alloc_ok moved c) (props_wire l).
Proof.
  intros Hsame (Hc & Hmax & Hbig & Hcalm). pose proof (items_wire_length l) as Hlen.
  assert (appends (rrr_mqtt_assemble_put_properties big alloc_ok moved c) (props_wire l)) as H.
  { unfold rrr_mqtt_assemble_put_properties. pose proof (values_size_nonneg l).
    eapply appends_reading; [apply calculate_size_spec; [done|unfold RRR_LENGTH_MAX; lia]|].
    cbn [Z.eqb negb]. cbv zeta. rewrite (wrap_small 32 (values_size l + _)) by lia.
    rewrite wrap_small by lia. apply appends_guard; [lia|]. rewrite <- Hlen.
    apply appends_then; [apply appends_vint; lia|]. intros s content Hs Hlim.
    unfold rrr_mqtt_property_collection_iterate.
    assert (appends (property_iterate (rrr_mqtt_assemble_put_properties_callback big alloc_ok) (nodes c))
      (items_wire l)) as Hit.
    { by apply appends_iterate. }
    destruct (Hit s content Hs Hlim) as [(s' & Er & Hs' & Hz)|[(s' & Er & Hs')|(Er & Hs')]]; rewrite Er;
      cbn [mbind outcome_bind Z.eqb negb].
    - pose proof Hs as (_ & Hw & _). pose proof Hs' as (_ & Hw' & _). rewrite Hw, Hw', length_app.
      destruct (Z.eqb_spec (moved (buf_size s) (buf_size s')) 0) as [->|Hm].
      + left. exists s'. rewrite wrap_small by lia. by rewrite (proj2 (Z.eqb_eq _ _)) by lia.
      + destruct (negb _); [|left; by exists s']. right; right. split; [done|]. split.
        * intros Hc'. destruct (Hcalm Hc') as [->|Hz']; [|by rewrite Hz' in Hm]. apply Forall2_nil_inv_r in Hc.
          rewrite Hc in Er. injection Er as <-. by rewrite Hsame in Hm.
        * apply Z.nle_gt. intros Hfit. by rewrite Hz, Hsame in Hm.
    - right; left. by exists s'.
    - by right; right. }
  intros s content Hs Hlim. unfold PUT_PROPERTIES, checked.
  destruct (H s content Hs Hlim) as [(s' & -> & Hs')|[(s' & -> & Hs')|(-> & Hs')]].
  - left. by exists s'.
  - right; left. by exists s'.
  - by right; right.
Qed.

(** ** Whole packets *)

(** The assembled bytes, or memory was refused, or without [calm] the end of the program,
    which is only possible when the first buffer was not enough. *)
Definition assembled (r : outcome (Z * option (list Z) * Z)) (wire : list Z) : Prop :=
  (exists b, r = Ret (0, Some b, Z.of_nat (length wire)) /\ take (length wire) b = wire) \/
  (exists target size, r = Ret (1, target, size) /\ exists n, alloc_ok n = false) \/
  (r = Bug /\ ~ calm /\ (alloc_ok RRR_MQTT_PAYLOAD_BUF_INCREMENT_SIZE = true ->
     RRR_MQTT_PAYLOAD_BUF_INCREMENT_SIZE < Z.of_nat (length wire))).

Lemma assembled_buffer overwritten w wire : appends w wire ->
  Z.of_nat (length wire) + 100 < 2 ^ 31 -> wire <> [] ->
  assembled (with_buffer alloc_ok overwritten w) wire.
Proof.
  intros Hw Hlim Hne. unfold with_buffer.
  destruct (init_ok alloc_ok) as (ret & s & -> & Hinit).
  assert (buf_ok s []) as Hs by (by destruct Hinit as [(_ & ? & _)|(_ & ? & _)]).
  unfold assembled.
  destruct (Hw s [] Hs) as [(s' & Er & Hs' & _)|[(s' & Er & [rest Hs'] & Hn)|(Er & Hc & Hg)]]; [simpl; lia|..];
    rewrite Er; cbn [mbind outcome_bind].
  - cbn [app] in Hs'. destruct (extract_ok s' wire Hs') as [-> Hx]. cbn [mbind outcome_bind].
    cbn [Z.eqb negb]. rewrite orb_false_r.
    pose proof Hs' as (_ & Hpos & _ & Hfit & _). assert (length wire <> 0%nat) by (by destruct wire).
    rewrite (proj2 (Z.eqb_neq (buf_size s') 0)) by lia.
    destruct overwritten; [left; by eexists|].
    destruct Hinit as [[-> _]|(-> & _ & Hn)]; [left; by eexists|right; left; eexists _, _; split; [done|by eexists]].
  - destruct (extract_ok s' rest Hs') as [-> Hx]. cbn [mbind outcome_bind].
    right; left. eexists _, _. cbn [Z.eqb negb]. rewrite orb_true_r. done.
  - right; right. split; [done|]. split; [done|]. intros Ha. cbn [app] in Hg.
    destruct Hinit as [(_ & _ & E)|(_ & _ & E)]; [by rewrite E in Hg|congruence].
Qed.

(** A packet without a variable header. *)
Lemma assembled_nothing : assembled (with_buffer alloc_ok false nothing) [].
Proof.
  unfold with_buffer, rrr_mqtt_payload_buf_init. destruct (alloc_ok _) eqn:E.
  - left. by eexists.
  - right; left. eexists _, _. split; [done|by eexists].
Qed.

End Appends.

End MqttAssemble.
