(* ===== verification/MqttWire.v ===== *)
(** MQTT packets as bytes.  A [message] is what a packet says; [message_wire] is its
    variable header and payload as the MQTT specification has them.  The assemble
    functions write these bytes ([MqttAssemble]) and the parser reads them back
    ([MqttParsePacket]). *)
From S2P Require Import Prelude Types Utf8 Parse MqttTopic MsgHead MqttPayloadBuf MqttProperty.
From S2P Require Import MqttSubscription MqttPacket MqttParse MqttParsePacket MqttAssemble.
From stdpp Require Import strings.
Open Scope Z_scope.
Open Scope c_scope.

Module MqttWire.
Import Types Utf8 Parse MqttTopic MsgHead MqttProperty MqttSubscription MqttPacket.
Import MqttPayloadBuf MqttParse MqttParsePacket MqttAssemble.

(** * Messages *)

(** The acknowledgements of PUBLISH, of SUBSCRIBE and UNSUBSCRIBE, and the two pings,
    carry the type of the packet.  A subscription has a filter and its options. *)
Inductive message :=
| M_connect (flags keep_alive : Z) (props : list item) (client_id : list Z)
    (will_props : list item) (will_topic will_message user pass : list Z)
| M_connack (flags reason : Z) (props : list item)
| M_publish (flags : Z) (topic : list Z) (id : Z) (props : list item)
| M_ack (type id reason : Z) (props : list item)
| M_subscribe (id : Z) (props : list item) (subs : list (list Z * Z))
| M_unsubscribe (id : Z) (props : list item) (filters : list (list Z))
| M_suback (type id : Z) (props : list item) (reasons : list Z)
| M_ping (type : Z)
| M_disconnect (reason : Z).

Definition message_type (m : message) : Z :=
  match m with
  | M_connect _ _ _ _ _ _ _ _ _ => RRR_MQTT_P_TYPE_CONNECT
  | M_connack _ _ _ => RRR_MQTT_P_TYPE_CONNACK
  | M_publish _ _ _ _ => RRR_MQTT_P_TYPE_PUBLISH
  | M_ack type _ _ _ => type
  | M_subscribe _ _ _ => RRR_MQTT_P_TYPE_SUBSCRIBE
  | M_unsubscribe _ _ _ => RRR_MQTT_P_TYPE_UNSUBSCRIBE
  | M_suback type _ _ _ => type
  | M_ping type => type
  | M_disconnect _ => RRR_MQTT_P_TYPE_DISCONNECT
  end.

(** Bits of the flags of CONNECT, and the QoS of PUBLISH. *)
Definition has_will (flags : Z) : bool := Z.testbit flags 2.
Definition has_user (flags : Z) : bool := Z.testbit flags 7.
Definition has_pass (flags : Z) : bool := Z.testbit flags 6.
Definition qos_of (flags : Z) : Z := (flags / 2) mod 4.

Definition is_five (v : rrr_mqtt_p_protocol_version) : bool := v_id v =? 5.

(** The reason code of MQTT 3.1 for one of MQTT 5. *)
Definition reason_v31 (r : Z) : Z :=
  match rrr_mqtt_p_translate_reason_from_v5 r with Ret x => x | _ => 0 end.

Definition message_wire (v : rrr_mqtt_p_protocol_version) (m : message) : list Z :=
  let props l := if is_five v then props_wire l else [] in
  match m with
  | M_connect flags keep ps id wps wt wm user pass =>
    str_wire (default [] (v_name v)) ++ [v_id v] ++ [flags] ++ be_enc 2 keep ++ props ps ++
    str_wire id ++ (if has_will flags then props wps ++ str_wire wt ++ str_wire wm else []) ++
    (if has_user flags then str_wire user else []) ++ (if has_pass flags then str_wire pass else [])
  | M_connack flags reason ps =>
    if is_five v then [flags] ++ [reason] ++ props_wire ps else [flags] ++ [reason_v31 reason]
  | M_publish flags topic id ps =>
    str_wire topic ++ (if 0 <? qos_of flags then be_enc 2 id else []) ++ props ps
  | M_ack _ id reason ps => be_enc 2 id ++ (if is_five v then [reason] ++ props_wire ps else [])
  | M_subscribe id ps subs =>
    be_enc 2 id ++ props ps ++ flat_map (fun s => str_wire s.1 ++ [s.2]) subs
  | M_unsubscribe id ps filters => be_enc 2 id ++ props ps ++ flat_map str_wire filters
  | M_suback type id ps reasons =>
    be_enc 2 id ++ props ps ++
    (if is_five v || (type =? RRR_MQTT_P_TYPE_SUBACK) then reasons else [])
  | M_ping _ => []
  | M_disconnect reason => if is_five v then [reason; 0] else []
  end.

(** ** Messages that have bytes *)

Definition u16_ok (x : Z) : Prop := 0 <= x < 2 ^ 16.
Definition id_ok (x : Z) : Prop := 0 < x < 2 ^ 16.

(** A string that can be sent: it is not empty and has no NUL. *)
Definition str_ok (bs : list Z) : Prop := bs <> [] /\ (0 ∉ bs) /\ Z.of_nat (length bs) <= 0xffff /\ bytes_ok bs.

Definition props_ok (l : list item) : Prop :=
  Forall item_ok l /\ Z.of_nat (length (items_wire l) + length l) <= 0xfffffff.

(** The options byte of a subscription. *)
Definition options (v : rrr_mqtt_p_protocol_version) (retain qos : Z) : Z :=
  if is_five v then 16 * retain + qos else qos.

Definition message_ok (v : rrr_mqtt_p_protocol_version) (m : message) : Prop :=
  match m with
  | M_connect flags keep ps id wps wt wm user pass =>
    byte_ok flags /\ u16_ok keep /\ props_ok ps /\ (id = [] \/ str_ok id) /\
    (exists name, v_name v = Some name /\ str_ok name) /\ byte_ok (v_id v) /\
    (has_will flags = true -> props_ok wps /\ str_ok wt /\
       wm <> [] /\ Z.of_nat (length wm) <= 0xffff /\ bytes_ok wm) /\
    (has_user flags = true -> str_ok user) /\ (has_pass flags = true -> str_ok pass)
  | M_connack flags reason ps =>
    byte_ok flags /\ byte_ok reason /\ props_ok ps /\
    (is_five v = false -> exists r, rrr_mqtt_p_translate_reason_from_v5 reason = Ret r /\ 0 <= r <= 5)
  | M_publish flags topic id ps =>
    0 <= flags < 16 /\ str_ok topic /\ u16_ok id /\ props_ok ps
  | M_ack type id reason ps =>
    RRR_MQTT_P_TYPE_PUBACK <= type <= RRR_MQTT_P_TYPE_PUBCOMP /\ u16_ok id /\ byte_ok reason /\
    props_ok ps
  | M_subscribe id ps subs =>
    u16_ok id /\ props_ok ps /\ subs <> [] /\ Z.of_nat (length subs) < 2 ^ 31 /\
    Forall (fun s => str_ok s.1 /\ exists retain qos, 0 <= retain <= 2 /\ 0 <= qos <= 2 /\
      s.2 = options v retain qos) subs
  | M_unsubscribe id ps filters =>
    u16_ok id /\ props_ok ps /\ filters <> [] /\ Z.of_nat (length filters) < 2 ^ 31 /\
    Forall str_ok filters
  | M_suback type id ps reasons =>
    (type = RRR_MQTT_P_TYPE_SUBACK \/ type = RRR_MQTT_P_TYPE_UNSUBACK) /\ u16_ok id /\ props_ok ps /\
    reasons <> [] /\ Z.of_nat (length reasons) < 2 ^ 31 /\ bytes_ok reasons
  | M_ping type => type = RRR_MQTT_P_TYPE_PINGREQ \/ type = RRR_MQTT_P_TYPE_PINGRESP
  | M_disconnect reason => byte_ok reason
  end.

(** * Packets of the program that say a message *)

Section Represents.
Context (big : bool).

(** A C string in memory. *)
Definition obj_is (o : option (list Z)) (bs : list Z) : Prop :=
  exists rest, o = Some (bs ++ 0 :: rest) /\ 0 ∉ bs.

(** The options of MQTT 5 are in the fields of the subscription. *)
Definition sub_is (v : rrr_mqtt_p_protocol_version) (s : rrr_mqtt_subscription) (x : list Z * Z) : Prop :=
  topic_filter s = x.1 /\ nl s = 0 /\ rap s = 0 /\ 0 <= retain_handling s <= 2 /\
  0 <= qos_or_reason_v5 s <= 2 /\ x.2 = options v (retain_handling s) (qos_or_reason_v5 s).

(** What an acknowledgement says: without MQTT 5 there is one code for all errors. *)
Definition ack_code (v : rrr_mqtt_p_protocol_version) (r : Z) : Z :=
  if negb (is_five v) && (2 <? r) then 0x80 else r.

Definition represents (p : rrr_mqtt_p) (m : message) : Prop :=
  RRR_MQTT_P_GET_TYPE p = message_type m /\
  let v := protocol_version p in
  let props c l := is_five v = true -> collection_holds big c l in
  match m, body p with
  | M_connect flags keep ps id wps wt wm user pass, Connect b =>
    connect_flags b = flags /\ MqttPacket.keep_alive b = keep /\ props (connect_properties b) ps /\
    (client_identifier b = None /\ id = [] \/ obj_is (client_identifier b) id) /\
    (has_will flags = true -> props (MqttPacket.will_properties b) wps /\
       obj_is (MqttPacket.will_topic b) wt /\ MqttPacket.will_message b = Some wm) /\
    (has_user flags = true -> obj_is (username b) user) /\
    (has_pass flags = true -> obj_is (password b) pass)
  | M_connack flags reason ps, Connack b =>
    ack_flags b = flags /\ reason_v5 p = reason /\ props (connack_properties b) ps
  | M_publish flags t id ps, Publish b =>
    type_flags p = flags /\ obj_is (topic b) t /\
    (0 < qos_of flags -> packet_identifier p = id) /\ props (publish_properties b) ps
  | M_ack _ id reason ps, Def_puback c =>
    packet_identifier p = id /\ (is_five v = true -> reason_v5 p = reason) /\ props c ps
  | M_subscribe id ps subs, Sub_usub b =>
    packet_identifier p = id /\ props (sub_properties b) ps /\ Forall2 (sub_is v) (subscriptions b) subs
  | M_unsubscribe id ps filters, Sub_usub b =>
    packet_identifier p = id /\ props (sub_properties b) ps /\
    Forall2 (fun s f => exists o, sub_is v s (f, o)) (subscriptions b) filters
  | M_suback type id ps reasons, Suback_unsuback b =>
    packet_identifier p = id /\ props (suback_properties b) ps /\
    Forall (fun s => byte_ok (qos_or_reason_v5 s)) (subscriptions_ b) /\
    reasons = (fun s => ack_code v (qos_or_reason_v5 s)) <$> subscriptions_ b
  | M_ping _, Plain => True
  | M_disconnect reason, Disconnect _ => is_five v = true -> reason_v5 p = reason
  | _, _ => False
  end.

End Represents.

(** * Assembling *)

Definition message_props (m : message) : list (list item) :=
  match m with
  | M_connect _ _ ps _ wps _ _ _ _ => [ps; wps]
  | M_connack _ _ ps | M_publish _ _ _ ps | M_ack _ _ _ ps => [ps]
  | M_subscribe _ ps _ | M_unsubscribe _ ps _ | M_suback _ _ ps _ => [ps]
  | M_ping _ | M_disconnect _ => []
  end.

(** An empty client identifier is the NULL pointer. *)
Definition sendable (p : rrr_mqtt_p) (m : message) : Prop :=
  match m, body p with
  | M_connect _ _ _ id _ _ _ _ _, Connect b => id = [] -> client_identifier b = None
  | _, _ => True
  end.

(** The masks of the macros are the bits. *)
Lemma connect_flag_bits b f : connect_flags b = f -> byte_ok f ->
  negb (RRR_MQTT_P_CONNECT_GET_FLAG_WILL b =? 0) = has_will f /\
  negb (RRR_MQTT_P_CONNECT_GET_FLAG_USER_NAME b =? 0) = has_user f /\
  negb (RRR_MQTT_P_CONNECT_GET_FLAG_PASSWORD b =? 0) = has_pass f.
Proof.
  unfold RRR_MQTT_P_CONNECT_GET_FLAG_WILL, RRR_MQTT_P_CONNECT_GET_FLAG_USER_NAME,
    RRR_MQTT_P_CONNECT_GET_FLAG_PASSWORD. intros -> Hf.
  apply (all_bytes_spec (fun f =>
    Bool.eqb (negb ((((1 <<< 2) &&& f) >>> 2) =? 0)) (has_will f) &&
    Bool.eqb (negb ((((1 <<< 7) &&& f) >>> 7) =? 0)) (has_user f) &&
    Bool.eqb (negb ((((1 <<< 6) &&& f) >>> 6) =? 0)) (has_pass f))) in Hf; [|vm_compute; reflexivity].
  apply andb_true_iff in Hf as [Hf H3]. apply andb_true_iff in Hf as [H1 H2].
  split_and!; by apply Bool.eqb_prop.
Qed.

Lemma publish_qos p f : type_flags p = f -> 0 <= f < 16 -> RRR_MQTT_P_PUBLISH_GET_FLAG_QOS p = qos_of f.
Proof.
  unfold RRR_MQTT_P_PUBLISH_GET_FLAG_QOS. intros -> Hf.
  assert (byte_ok f) as Hb by (unfold byte_ok; lia).
  apply (all_bytes_spec (fun f => ((f &&& (3 <<< 1)) >>> 1) =? qos_of f)) in Hb; [by apply Z.eqb_eq|vm_compute; reflexivity].
Qed.

Lemma Forall2_with {A B} (R : A -> B -> Prop) (P : B -> Prop) xs ys :
  Forall2 R xs ys -> Forall P ys -> Forall2 (fun x y => R x y /\ P y) xs ys.
Proof. intros H HP. induction H; inversion HP; constructor; auto. Qed.

Section Wire.
Context (calm : Prop) (big : bool) (alloc_ok : Z -> bool) (moved : Z -> Z -> Z).
Context (Hsame : forall a, moved a a = 0).

Abbreviation appends := (appends calm alloc_ok).

Lemma obj_string o bs : obj_is o bs -> str_ok bs ->
  exists obj, o = Some obj /\ c_string obj = Ret bs /\
    appends (PUT_RAW_WITH_LENGTH big alloc_ok o (u16 (Z.of_nat (length bs)))) (str_wire bs).
Proof.
  intros (rest & -> & Hz) (Hne & _ & Hl & _). eexists. split; [done|]. split.
  - unfold c_string. rewrite bool_decide_true by (apply elem_of_app; right; constructor).
    by rewrite cstr_app.
  - by eapply appends_text.
Qed.

Lemma first_char_str bs : str_ok bs -> (first_char bs =? 0) = false.
Proof.
  intros (Hne & Hz & _). destruct bs as [|b bs]; [done|]. cbn. apply Z.eqb_neq. intros ->.
  apply Hz. constructor.
Qed.

Lemma appends_verified o bs : obj_is o bs -> str_ok bs ->
  appends (PUT_AND_VERIFY_RAW_WITH_LENGTH big alloc_ok o) (str_wire bs).
Proof.
  intros Ho Hok. destruct (obj_string o bs Ho Hok) as (obj & -> & Hs & Happ).
  unfold PUT_AND_VERIFY_RAW_WITH_LENGTH. eapply appends_reading; [exact Hs|].
  apply appends_guard; [by rewrite first_char_str|]. apply appends_guard; [|done].
  destruct Hok as (_ & _ & Hl & _). lia.
Qed.

Lemma appends_string o bs : obj_is o bs -> str_ok bs -> appends (put_string big alloc_ok o) (str_wire bs).
Proof.
  intros Ho Hok. destruct (obj_string o bs Ho Hok) as (obj & -> & Hs & Happ).
  unfold put_string. eapply appends_reading; [exact Hs|]. apply appends_guard; [|done].
  destruct Hok as (_ & _ & Hl & _). lia.
Qed.

Lemma appends_nullsafe bs : bs <> [] -> Z.of_nat (length bs) <= 0xffff ->
  appends (PUT_AND_VERIFY_NULLSAFE_WITH_LENGTH big alloc_ok (Some bs)) (str_wire bs).
Proof.
  intros Hne Hl. unfold PUT_AND_VERIFY_NULLSAFE_WITH_LENGTH, rrr_u16_from_biglength_bug_const, str_wire.
  change (default [] (Some bs)) with bs. unfold UINT16_MAX. rewrite (proj2 (Z.ltb_ge _ _)) by lia.
  eapply appends_reading; [done|]. rewrite wrap_small by lia. apply appends_then.
  - apply appends_u16. lia.
  - apply appends_checked. intros s content Hs Hlim. apply put_nullsafe_ok; [done|done|lia].
Qed.

(** What writing a property list needs of host and memory. *)
Definition props_written (v : rrr_mqtt_p_protocol_version) (l : list item) : Prop :=
  (big = false \/ Forall wide l) /\ (is_five v = true -> calm -> l = [] \/ forall a b, moved a b = 0).

(** Property lists are written when the version is 5. *)
Definition stored (v : rrr_mqtt_p_protocol_version) (c : rrr_mqtt_property_collection) (l : list item)
  : Prop :=
  (is_five v = true -> collection_holds big c l) /\ props_ok l /\ props_written v l.

Lemma appends_props v c l : stored v c l ->
  appends (when (is_five v) (PUT_PROPERTIES big alloc_ok moved c)) (if is_five v then props_wire l else []).
Proof using Hsame.
  intros (Hc & Hok & Hbig & Hr). apply appends_when. intros Hv. apply appends_properties; [done|].
  split; [by apply Hc|]. split; [apply Hok|]. split; [done|auto].
Qed.

Lemma appends_each {A B} (R : A -> B -> Prop) (w : A -> writer) (enc : B -> list Z) xs ys :
  Forall2 R xs ys -> (forall x y, R x y -> appends (w x) (enc y)) ->
  appends (foldr (fun x k => then_ (w x) k) nothing xs) (flat_map enc ys).
Proof.
  intros H Hw. induction H as [|x y xs ys Hxy _ IH]; [apply appends_nothing|].
  cbn [foldr flat_map]. apply appends_then; [by apply Hw|done].
Qed.

(** The loop over the subscriptions is the sequence of the writers. *)
Lemma over_subscriptions_each callback c (data : list Z) :
  appends (foldr (fun x k => then_ (callback x) k) nothing c) data ->
  appends (over_subscriptions callback c) data.
Proof.
  intros Hc s content Hs Hlim. specialize (Hc s content Hs Hlim).
  set (rs := foldr _ nothing c s) in Hc.
  assert (rs = Bug \/ exists ret s', rs = Ret (ret, s') /\ (ret = 0 \/ ret = 1)) as Hret.
  { destruct Hc as [(s' & -> & _)|[(s' & -> & _)|[-> _]]]; [right; eexists _, _; auto..|by left]. }
  enough (over_subscriptions callback c s = rs) as -> by done.
  assert (foldr (fun x k => then_ (callback x) k) nothing c s = rs) as Er by done. clearbody rs.
  clear Hlim Hs Hc. unfold over_subscriptions. revert s Er.
  induction c as [|x c IH]; intros s Er.
  - cbn in *. unfold nothing, RRR_MQTT_ASSEMBLE_OK in Er. by simplify_eq.
  - cbn [foldr] in Er. unfold then_ in Er. cbn [rrr_mqtt_subscription_collection_iterate].
    destruct (callback x s) as [[r s1]| |]; cbn [mbind outcome_bind] in *; try done.
    destruct (Z.eqb_spec r 0) as [->|Hr]; cbn [negb] in Er.
    + change (negb ((0 &&& _) =? 0)) with false. cbv iota. specialize (IH s1 Er).
      destruct (rrr_mqtt_subscription_collection_iterate _ c s1) as [[[r2 c2] s2]| |];
        cbn [mbind outcome_bind] in *; done.
    + simplify_eq. destruct Hret as [?|(r' & s' & [= -> ->] & [->| ->])]; done.
Qed.

Lemma options_byte v s x : sub_is v s x ->
  u8 (if is_five v
      then u8 (u8 (qos_or_reason_v5 s) ||| u8 (nl s <<< 2) ||| u8 (rap s <<< 3) |||
               u8 (retain_handling s <<< 4))
      else u8 (qos_or_reason_v5 s)) = x.2 /\ byte_ok x.2.
Proof.
  intros (_ & -> & -> & Hr & Hq & ->). unfold options, byte_ok.
  assert (retain_handling s = 0 \/ retain_handling s = 1 \/ retain_handling s = 2) as Er by lia.
  assert (qos_or_reason_v5 s = 0 \/ qos_or_reason_v5 s = 1 \/ qos_or_reason_v5 s = 2) as Eq by lia.
  destruct (is_five v), Er as [Er|[Er|Er]], Eq as [Eq|[Eq|Eq]]; rewrite ?Er, ?Eq;
    (split; [vm_compute; reflexivity|lia]).
Qed.

Lemma appends_subscription v (opts : bool) s x : sub_is v s x -> str_ok x.1 ->
  appends (rrr_mqtt_assemble_sub_usub_callback big alloc_ok (is_five v) opts s)
    (str_wire x.1 ++ if opts then [x.2] else []).
Proof.
  intros Hs Hok. destruct (options_byte v s x Hs) as [Hb Hbyte].
  pose proof Hs as (Hf & Hnl & Hrap & Hr & Hq & _). pose proof Hok as (Hne & _ & Hl & _).
  unfold rrr_mqtt_assemble_sub_usub_callback. rewrite Hf, Hnl, Hrap in *.
  apply appends_guard; [lia|]. apply appends_guard; [lia|]. apply appends_then.
  - apply (appends_text calm big alloc_ok _ x.1 []); [by rewrite app_nil_r|done..].
  - apply appends_when. intros _. unfold PUT_U8. rewrite Hb. by apply appends_raw.
Qed.

Lemma appends_ack v s : byte_ok (qos_or_reason_v5 s) ->
  appends (rrr_mqtt_assemble_suback_callback alloc_ok (is_five v) s) [ack_code v (qos_or_reason_v5 s)].
Proof.
  intros Hb. unfold rrr_mqtt_assemble_suback_callback, ack_code.
  rewrite (wrap_small 8) by (unfold byte_ok in Hb; lia). apply appends_u8.
  destruct (_ && _); [unfold byte_ok; lia|done].
Qed.

Lemma appends_some_subscriptions {A} callback c (ys : list A) data : length c = length ys ->
  ys <> [] -> Z.of_nat (length ys) < 2 ^ 31 -> appends (over_subscriptions callback c) data ->
  appends (then_ (reading (rrr_mqtt_subscription_collection_count c) (fun n => bug_if (n <=? 0)))
             (over_subscriptions callback c)) data.
Proof.
  intros Hlen Hne Hmax H. apply (appends_then _ _ _ _ [] data); [|done].
  assert (length ys <> 0%nat) by (by destruct ys).
  eapply appends_reading.
  - unfold rrr_mqtt_subscription_collection_count, rrr_length_from_slength_bug_const, RRR_LENGTH_MAX.
    rewrite (proj2 (Z.ltb_ge _ 0)), (proj2 (Z.ltb_ge _ _)), wrap_small by lia. done.
  - apply appends_bug_if. lia.
Qed.

(** ** The types *)

Abbreviation asm := (RRR_MQTT_P_GET_ASSEMBLER big alloc_ok moved).
Abbreviation sent p m :=
  (Z.of_nat (length (message_wire (protocol_version p) m)) + 100 < 2 ^ 31 ->
   Forall (props_written (protocol_version p)) (message_props m) -> represents big p m -> message_ok (protocol_version p) m -> sendable p m ->
   assembled calm alloc_ok (asm p) (message_wire (protocol_version p) m)).

Lemma be_enc2_not_empty v l : be_enc 2 v ++ l <> [].
Proof. intros E. apply (f_equal length) in E. rewrite length_app, length_be_enc in E. done. Qed.

Lemma str_wire_not_empty bs l : str_wire bs ++ l <> [].
Proof. unfold str_wire. rewrite <- app_assoc. apply be_enc2_not_empty. Qed.

Lemma connect_assembled p flags keep ps id wps wt wm user pass :
  sent p (M_connect flags keep ps id wps wt wm user pass).
Proof using Hsame.
  intros Hlim Hplain (_ & Hb) Hok Hsend. unfold sendable in Hsend. cbn in Hplain.
  rewrite !Forall_cons in Hplain. destruct Hplain as (Hp1 & Hp2 & _).
  destruct (body p) as [b| | | | | | |] eqn:Eb; try done.
  destruct Hb as (Ef & Ek & Hps & Hid & Hwill & Huser & Hpass).
  destruct Hok as (Of & Ok & Ops & Oid & (name & Ev & Oname) & Ovid & Owill & Ouser & Opass).
  unfold asm. rewrite Eb. unfold rrr_mqtt_assemble_connect. rewrite Ev.
  destruct (connect_flag_bits b flags Ef Of) as (-> & -> & ->). rewrite Ef, Ek.
  apply assembled_buffer; [|done|apply str_wire_not_empty]. cbn [message_wire]. rewrite Ev. cbn [default].
  pose proof Oname as (Nne & _ & Nl & _). apply appends_guard; [lia|].
  apply appends_then; [apply (appends_text calm big alloc_ok _ name []); [by rewrite app_nil_r|done..]|].
  apply appends_then; [by apply appends_u8|]. apply appends_then; [by apply appends_u8|].
  apply appends_then; [by apply appends_u16|].
  apply appends_then; [by apply appends_props|]. apply appends_then.
  { assert (appends (PUT_U16 big alloc_ok 0) (str_wire [])) as H0 by (apply (appends_u16 calm big alloc_ok 0); lia).
    destruct Hid as [[-> ->]|Hid]; [done|]. destruct Oid as [->|Oid].
    - by rewrite Hsend by done.
    - pose proof (appends_verified _ _ Hid Oid) as H. destruct Hid as (rest & E & _). by rewrite E in H |- *. }
  apply appends_then.
  { apply appends_when. intros W. destruct (Hwill W) as (Hwps & Hwt & ->), (Owill W) as (Owps & Owt & Om & Ol & _).
    apply appends_then; [by apply appends_props|].
    apply appends_then; [by apply appends_verified|by apply appends_nullsafe]. }
  apply appends_then; apply appends_when; intros W; apply appends_verified; auto.
Qed.

Lemma connack_assembled p flags reason ps : sent p (M_connack flags reason ps).
Proof using Hsame.
  intros Hlim Hplain (_ & Hb) Hok _. cbn in Hplain. rewrite Forall_singleton in Hplain.
  destruct (body p) as [|b| | | | | |] eqn:Eb; try done. destruct Hb as (Ef & Er & Hps).
  destruct Hok as (Of & Or & Ops & Ov31). unfold asm. rewrite Eb. unfold rrr_mqtt_assemble_connack.
  rewrite Ef, Er. change (RRR_MQTT_P_IS_V5 p) with (is_five (protocol_version p)).
  apply assembled_buffer; [|done|cbn; by destruct (is_five _)]. cbn [message_wire].
  destruct (is_five (protocol_version p)) eqn:Ev.
  - apply appends_then; [by apply appends_u8|]. apply appends_then; [by apply appends_u8|].
    pose proof (appends_props (protocol_version p) (connack_properties b) ps) as H. rewrite Ev in H.
    apply H. by split_and!; [rewrite Ev|..].
  - destruct (Ov31 eq_refl) as (r & Etr & Hr). unfold reason_v31. rewrite Etr.
    eapply appends_reading; [done|]. apply appends_guard; [lia|].
    apply appends_then; apply appends_u8; [done|unfold byte_ok; lia].
Qed.

Lemma publish_assembled p flags t id ps : sent p (M_publish flags t id ps).
Proof using Hsame.
  intros Hlim Hplain (_ & Hb) Hok _. cbn in Hplain. rewrite Forall_singleton in Hplain.
  destruct (body p) as [| |b| | | | |] eqn:Eb; try done. destruct Hb as (Ef & Ht & Hid & Hps).
  destruct Hok as (Of & Ot & Oid & Ops). unfold asm. rewrite Eb. unfold rrr_mqtt_assemble_publish.
  rewrite (publish_qos p flags Ef Of).
  apply assembled_buffer; [|done|apply str_wire_not_empty]. cbn [message_wire].
  apply appends_then; [by apply appends_string|]. apply appends_then; [|by apply appends_props].
  apply appends_when. intros Hq. rewrite Hid by lia. by apply appends_u16.
Qed.

Lemma ack_assembled p type id reason ps : sent p (M_ack type id reason ps).
Proof using Hsame.
  intros Hlim Hplain (_ & Hb) Hok _. cbn in Hplain. rewrite Forall_singleton in Hplain.
  destruct (body p) as [| | |c| | | |] eqn:Eb; try done. destruct Hb as (Eid & Er & Hps).
  destruct Hok as (Oty & Oid & Or & Ops). unfold asm. rewrite Eb. unfold rrr_mqtt_assemble_def_puback.
  rewrite Eid. apply assembled_buffer; [|done|apply be_enc2_not_empty]. cbn [message_wire].
  apply appends_then; [by apply appends_u16|].
  apply appends_when. intros Hv. apply appends_then; [rewrite Er by done; by apply appends_u8|].
  pose proof (appends_props (protocol_version p) c ps (conj Hps (conj Ops Hplain))) as H.
  change (RRR_MQTT_P_IS_V5 p) with (is_five (protocol_version p)) in *. by rewrite Hv in H |- *.
Qed.

Lemma subscribe_assembled p id ps subs : sent p (M_subscribe id ps subs).
Proof using Hsame.
  intros Hlim Hplain (Hty & Hb) Hok _. cbn in Hplain. rewrite Forall_singleton in Hplain.
  destruct (body p) as [| | | |b| | |] eqn:Eb; try done. destruct Hb as (Eid & Hps & Hsubs).
  destruct Hok as (Oid & Ops & Hne & Hmax & Osubs). unfold asm. rewrite Eb, Hty.
  unfold rrr_mqtt_assemble_subscribe, rrr_mqtt_assemble_sub_usub. cbn [message_type Z.eqb].
  rewrite Z.eqb_refl, Eid. apply assembled_buffer; [|done|apply be_enc2_not_empty]. cbn [message_wire].
  apply appends_then; [by apply appends_u16|]. apply appends_then; [by apply appends_props|].
  apply (appends_some_subscriptions _ _ subs); [by eapply Forall2_length|done..|].
  apply over_subscriptions_each.
  eapply (appends_each (fun s x => sub_is (protocol_version p) s x /\ str_ok x.1)); [|].
  - apply Forall2_with; [exact Hsubs|]. eapply Forall_impl; [exact Osubs|]. by intros x [Hx _].
  - intros s x [Hs Hx]. by apply (appends_subscription _ true).
Qed.

Lemma unsubscribe_assembled p id ps filters : sent p (M_unsubscribe id ps filters).
Proof using Hsame.
  intros Hlim Hplain (Hty & Hb) Hok _. cbn in Hplain. rewrite Forall_singleton in Hplain.
  destruct (body p) as [| | | |b| | |] eqn:Eb; try done. destruct Hb as (Eid & Hps & Hsubs).
  destruct Hok as (Oid & Ops & Hne & Hmax & Osubs). unfold asm. rewrite Eb, Hty.
  unfold rrr_mqtt_assemble_unsubscribe, rrr_mqtt_assemble_sub_usub. cbn [message_type].
  change (RRR_MQTT_P_TYPE_UNSUBSCRIBE =? RRR_MQTT_P_TYPE_SUBSCRIBE) with false. cbv iota.
  rewrite Eid. apply assembled_buffer; [|done|apply be_enc2_not_empty]. cbn [message_wire].
  apply appends_then; [by apply appends_u16|]. apply appends_then; [by apply appends_props|].
  apply (appends_some_subscriptions _ _ filters); [by eapply Forall2_length|done..|].
  apply over_subscriptions_each.
  eapply (appends_each (fun s f => (exists o, sub_is (protocol_version p) s (f, o)) /\ str_ok f)); [|].
  - by apply Forall2_with.
  - intros s f [[o Hs] Hf]. rewrite <- (app_nil_r (str_wire f)).
    by apply (appends_subscription _ false s (f, o)).
Qed.

Lemma acks_assembled p b ps reasons : stored (protocol_version p) (suback_properties b) ps ->
  Forall (fun s => byte_ok (qos_or_reason_v5 s)) (subscriptions_ b) ->
  reasons = (fun s => ack_code (protocol_version p) (qos_or_reason_v5 s)) <$> subscriptions_ b ->
  reasons <> [] -> Z.of_nat (length reasons) < 2 ^ 31 ->
  appends (put_acknowledgements alloc_ok p b) reasons.
Proof.
  intros Hps Hbytes Er Hne Hmax. unfold put_acknowledgements.
  apply (appends_some_subscriptions _ _ reasons); [by rewrite Er, length_fmap|done..|].
  apply over_subscriptions_each. rewrite Er.
  assert (forall c, Forall (fun s => byte_ok (qos_or_reason_v5 s)) c ->
    appends (foldr (fun x k => then_ (rrr_mqtt_assemble_suback_callback alloc_ok
      (is_five (protocol_version p)) x) k) nothing c)
      ((fun s => ack_code (protocol_version p) (qos_or_reason_v5 s)) <$> c)) as H; [|by apply H].
  intros c Hc. induction Hc as [|s c Hs _ IH]; [apply appends_nothing|].
  apply (appends_then _ _ _ _ [_]); [by apply appends_ack|done].
Qed.

Lemma suback_assembled p type id ps reasons : sent p (M_suback type id ps reasons).
Proof using Hsame.
  intros Hlim Hplain (Hty & Hb) Hok _. cbn in Hplain. rewrite Forall_singleton in Hplain.
  destruct (body p) as [| | | | |b| |] eqn:Eb; try done. destruct Hb as (Eid & Hps & Hbytes & Er).
  destruct Hok as (Oty & Oid & Ops & Hne & Hmax & _). unfold asm. rewrite Eb, Hty. cbn [message_type].
  pose proof (acks_assembled p b ps reasons ltac:(done) Hbytes Er Hne Hmax) as Hacks.
  pose proof (appends_props (protocol_version p) (suback_properties b) ps ltac:(done)) as Hp.
  destruct Oty as [->| ->].
  - rewrite Z.eqb_refl. unfold rrr_mqtt_assemble_suback. rewrite Eid.
    apply assembled_buffer; [|done|apply be_enc2_not_empty]. cbn [message_wire].
    rewrite Z.eqb_refl, orb_true_r.
    apply appends_then; [by apply appends_u16|]. by apply appends_then.
  - change (RRR_MQTT_P_TYPE_UNSUBACK =? RRR_MQTT_P_TYPE_SUBACK) with false. cbv iota.
    unfold rrr_mqtt_assemble_unsuback. rewrite Eid.
    apply assembled_buffer; [|done|apply be_enc2_not_empty]. cbn [message_wire].
    change (RRR_MQTT_P_TYPE_UNSUBACK =? RRR_MQTT_P_TYPE_SUBACK) with false. rewrite orb_false_r.
    apply appends_then; [by apply appends_u16|].
    change (RRR_MQTT_P_IS_V5 p) with (is_five (protocol_version p)).
    destruct (is_five (protocol_version p)); [|apply appends_nothing]. by apply appends_then.
Qed.

Lemma assemble_wire p m : sent p m.
Proof using Hsame.
  destruct m as [flags keep ps id wps wt wm user pass|flags reason ps|flags t id ps|type id reason ps
    |id ps subs|id ps filters|type id ps reasons|type|reason].
  - apply connect_assembled.
  - apply connack_assembled.
  - apply publish_assembled.
  - apply ack_assembled.
  - apply subscribe_assembled.
  - apply unsubscribe_assembled.
  - apply suback_assembled.
  - intros _ _ (Hty & Hb) Hok _. destruct (body p) eqn:Eb; try done. unfold asm. rewrite Eb, Hty.
    cbn [message_type message_wire]. destruct Hok as [->| ->]; apply assembled_nothing.
  - intros Hlim _ (Hty & Hb) Hok _. destruct (body p) eqn:Eb; try done. unfold asm. rewrite Eb.
    unfold rrr_mqtt_assemble_disconnect. change (RRR_MQTT_P_IS_V5 p) with (is_five (protocol_version p)).
    cbn [message_wire] in *. destruct (is_five (protocol_version p)); [|apply assembled_nothing].
    rewrite (Hb eq_refl). apply assembled_buffer; [|done|done].
    apply (appends_then _ _ _ _ [reason] [0]); by apply appends_u8.
Qed.

End Wire.

(** ** The bytes are bytes *)

Lemma str_wire_bytes bs : bytes_ok bs -> bytes_ok (str_wire bs).
Proof. intros H. apply Forall_app. split; [apply be_enc_bytes|done]. Qed.

Lemma item_wire_bytes it : item_ok it -> bytes_ok (item_wire it).
Proof.
  destruct it as [id [n|bs|a b]]; intros [Hid Hv]; constructor; try done; cbn [snd value_wire] in *.
  - destruct Hv as (max & Hmax & Hn).
    destruct (_ =? _); [apply be_enc_bytes|]. destruct (_ =? _); [apply be_enc_bytes|].
    destruct (_ =? _); [apply be_enc_bytes|]. apply vint_bytes. lia.
  - apply str_wire_bytes. by destruct Hv as (_ & _ & _ & ?).
  - destruct Hv as (_ & (_ & _ & Ha) & (_ & _ & Hb)). rewrite app_assoc.
    apply Forall_app. split; by apply str_wire_bytes.
Qed.

Lemma props_wire_bytes l : props_ok l -> bytes_ok (props_wire l).
Proof.
  intros [H _]. apply Forall_app. split; [apply vint_bytes; lia|].
  apply Forall_flat_map. eapply Forall_impl; [exact H|]. apply item_wire_bytes.
Qed.

Ltac split_bytes := repeat match goal with |- Forall _ (_ ++ _) => apply Forall_app; split end.

Lemma opt_bytes (b : bool) l : (b = true -> bytes_ok l) -> bytes_ok (if b then l else []).
Proof. destruct b; [auto|constructor]. Qed.

Lemma message_wire_bytes v m : message_ok v m -> bytes_ok (message_wire v m).
Proof.
  pose proof (fun l H => opt_bytes (is_five v) (props_wire l) (fun _ => props_wire_bytes l H)) as Hprops.
  assert (forall bs, str_ok bs -> bytes_ok (str_wire bs)) as Hstr
    by (intros bs (_ & _ & _ & ?); by apply str_wire_bytes).
  destruct m as [f keep ps id wps wt wm user pass|cf reason ps|f tp id ps|type id reason ps
    |id ps subs|id ps filters|type id ps reasons|type|reason]; cbn [message_ok message_wire].
  - intros (Hf & _ & Hps & Hid & (name & -> & Hname) & Hv & Hwill & Huser & Hpass).
    split_bytes; try (by repeat constructor); try apply be_enc_bytes; auto.
    + destruct Hid as [->|]; [by apply str_wire_bytes|auto].
    + apply opt_bytes. intros W. destruct (Hwill W) as (? & ? & _ & _ & ?).
      split_bytes; auto using str_wire_bytes.
    + apply opt_bytes. auto.
    + apply opt_bytes. auto.
  - intros (Hf & Hr & Hps & H31). destruct (is_five v).
    + do 2 (constructor; [done|]). by apply props_wire_bytes.
    + constructor; [done|]. constructor; [|constructor]. unfold reason_v31.
      destruct (H31 eq_refl) as (r & -> & ?). unfold byte_ok. lia.
  - intros (_ & Htp & _ & Hps). split_bytes; auto.
    apply opt_bytes. intros _. apply be_enc_bytes.
  - intros (_ & _ & Hr & Hps). apply Forall_app. split; [apply be_enc_bytes|].
    apply opt_bytes. intros _. constructor; [done|]. by apply props_wire_bytes.
  - intros (_ & Hps & _ & _ & Hsubs). split_bytes; auto using be_enc_bytes.
    apply Forall_flat_map. eapply Forall_impl; [exact Hsubs|].
    intros s (Hs & retain & qos & Hr & Hq & ->). apply Forall_app. split; [auto|]. constructor; [|constructor].
    unfold options, byte_ok. destruct (is_five v); lia.
  - intros (_ & Hps & _ & _ & Hfs). split_bytes; auto using be_enc_bytes.
    apply Forall_flat_map. eapply Forall_impl; [exact Hfs|]. auto.
  - intros (_ & _ & Hps & _ & _ & Hr). split_bytes; auto using be_enc_bytes.
    apply opt_bytes. done.
  - done.
  - intros Hr. apply opt_bytes. intros _. by do 2 (constructor; [done|]).
Qed.

(** ** The assembler *)

(** The properties of the message can be read from the packet: the assembler takes integers of
    one and two bytes from the start of the stored ones, which are of four. *)
Definition props_readable (big : bool) (m : message) : Prop :=
  big = false \/ Forall (Forall wide) (message_props m).

(** The buffer certainly stays where it is while properties are written: there are none, the
    message has room in the first buffer, or memory that grows does not move. *)
Definition buffer_stays (alloc_ok : Z -> bool) (moved : Z -> Z -> Z) (v : rrr_mqtt_p_protocol_version) (m : message) : Prop :=
  is_five v = false \/ Forall (eq []) (message_props m) \/
  (alloc_ok RRR_MQTT_PAYLOAD_BUF_INCREMENT_SIZE = true /\
   Z.of_nat (length (message_wire v m)) <= RRR_MQTT_PAYLOAD_BUF_INCREMENT_SIZE) \/
  forall a b, moved a b = 0.

Lemma assemble_stays big alloc_ok moved p m : (forall a, moved a a = 0) -> props_readable big m ->
  Z.of_nat (length (message_wire (protocol_version p) m)) + 100 < 2 ^ 31 ->
  represents big p m -> message_ok (protocol_version p) m -> sendable p m ->
  assembled (buffer_stays alloc_ok moved (protocol_version p) m) alloc_ok (RRR_MQTT_P_GET_ASSEMBLER big alloc_ok moved p)
    (message_wire (protocol_version p) m).
Proof.
  intros Hsame Hread Hlen Hsays Hok Hsend. set (v := protocol_version p) in *.
  destruct (assemble_wire (is_five v = false \/ Forall (eq []) (message_props m) \/ forall a b, moved a b = 0)
    big alloc_ok moved Hsame p m) as [H|[H|(E & Hc & Hg)]]; try done.
  - apply Forall_forall. intros l Hl. split.
    + destruct Hread as [?|H]; [by left|right]. rewrite Forall_forall in H. auto.
    + fold v. intros E5 [E|[H|H]]; [congruence| |by right]. rewrite Forall_forall in H. left. symmetry. auto.
  - by left.
  - by right; left.
  - right; right. split; [done|]. split; [|done]. intros [H|[H|[[Ha Hl]|H]]]; [tauto..| |tauto].
    specialize (Hg Ha). fold v in Hg. lia.
Qed.

(** C17. The assemble function of the type of a packet that says a message returns the variable
    header and payload that MQTT has for the message, or the error code when memory was refused.
    The message is one that has bytes in MQTT (strings that are neither empty nor have NUL,
    except that an empty client identifier is a NULL pointer; numbers in their ranges; at least
    one subscription, filter or reason in a list of them; no subscription with No Local or
    Retain As Published; DISCONNECT without properties; less than 2^31 - 100 bytes); on a big endian host none of its
    properties is an integer of one or two bytes, which the code reads from the wrong end
    (mqtt_assemble.c:145).  The one other outcome is that the program is ended at
    mqtt_assemble.c:214, where a pointer from before the properties were written is used
    behind them: this needs a message of MQTT 5 with properties for which the first buffer of 64
    bytes was not enough or not to be had, and a reallocation that moves the buffer (one that
    does not grow does not move). *)
Theorem rrr_mqtt_assemble_correct (big : bool) (alloc_ok : Z -> bool) (moved : Z -> Z -> Z) (p : rrr_mqtt_p)
    (m : message) (Hsame : forall a, moved a a = 0) (Hread : props_readable big m)
    (Hlen : Z.of_nat (length (message_wire (protocol_version p) m)) + 100 < 2 ^ 31)
    (Hsays : represents big p m) (Hok : message_ok (protocol_version p) m) (Hsend : sendable p m) :
  match RRR_MQTT_P_GET_ASSEMBLER big alloc_ok moved p with
  | Ret (ret, target, size) =>
    ret = RRR_MQTT_ASSEMBLE_OK /\ size = Z.of_nat (length (message_wire (protocol_version p) m)) /\
      (exists b, target = Some b /\ take (Z.to_nat size) b = message_wire (protocol_version p) m) \/
    ret = RRR_MQTT_ASSEMBLE_INTERNAL_ERR /\ exists n, alloc_ok n = false
  | Bug => ~ buffer_stays alloc_ok moved (protocol_version p) m
  | Oob => False
  end.
Proof.
  destruct (assemble_stays big alloc_ok moved p m) as [(b & -> & Hb)|[(target & size & -> & Hn)|(-> & Hc & _)]]; try done.
  - left. split; [done|]. split; [done|]. exists b. by rewrite Nat2Z.id.
  - by right.
Qed.

(** PUBLISH on [a/b] with QoS 1, packet identifier 7 and a message expiry interval. *)
Definition publish_message : message := M_publish 2 [97; 47; 98] 7 [(0x02, Number 60)].

Definition publish_expiry : rrr_mqtt_property :=
  mk_property 1 None (mk_def RRR_MQTT_PROPERTY_DATA_TYPE_FOUR 0x02 "Message expiry interval")
    RRR_MQTT_PROPERTY_DATA_TYPE_INTERNAL_UINT32 4 4 (Some [60; 0; 0; 0]).

Definition publish_packet : rrr_mqtt_p :=
  mk_packet (mk_type RRR_MQTT_P_TYPE_PUBLISH 0 "PUBLISH" 0 0) (mk_version RRR_MQTT_VERSION_5 (Some name_mqtt))
    2 1 7 0 None 0 None
    (Publish (mk_publish (Some [97; 47; 98; 0]) [] (mk_collection [publish_expiry] 1) 0 0 0 0 None None None)).

Lemma publish_message_ok v : message_ok v publish_message.
Proof.
  split; [lia|]. split; [|split; [unfold u16_ok; lia|split; [|vm_compute; discriminate]]].
  - split; [done|]. split; [|split; [cbn; lia|repeat constructor; unfold byte_ok; lia]].
    intros H. repeat (apply elem_of_cons in H as [H|H]; [lia|]). by apply elem_of_nil in H.
  - constructor; [|constructor]. split; [unfold byte_ok; cbn; lia|]. exists 0xffffffff. split; [done|lia].
Qed.

Lemma publish_packet_says : represents false publish_packet publish_message.
Proof.
  split; [done|]. cbn. split; [done|]. split.
  { exists []. split; [done|]. apply (publish_message_ok (mk_version 5 None)). }
  split; [done|]. intros _. constructor; [|constructor]. split; [|done].
  pose proof (publish_message_ok (mk_version 5 None)) as (_ & _ & _ & H & _).
  by apply Forall_cons_1 in H as [? _].
Qed.

(** Even where a reallocation would move the buffer. *)
Lemma rrr_mqtt_assemble_correct_witness :
  RRR_MQTT_P_GET_ASSEMBLER false (fun _ => true) (fun a b => b - a) publish_packet =
    Ret (0, Some ([0; 3; 97; 47; 98; 0; 7; 5; 2; 0; 0; 0; 60] ++ replicate 51 0), 13) /\
  buffer_stays (fun _ => true) (fun a b => b - a) (protocol_version publish_packet) publish_message /\
  13 = Z.of_nat (length (message_wire (protocol_version publish_packet) publish_message)).
Proof.
  pose proof (rrr_mqtt_assemble_correct false (fun _ => true) (fun a b => b - a) publish_packet publish_message) as H.
  assert (RRR_MQTT_P_GET_ASSEMBLER false (fun _ => true) (fun a b => b - a) publish_packet =
    Ret (0, Some ([0; 3; 97; 47; 98; 0; 7; 5; 2; 0; 0; 0; 60] ++ replicate 51 0), 13)) as E by (vm_compute; reflexivity).
  rewrite E in H |- *. split; [done|]. split; [right; right; left; by vm_compute|].
  destruct H as [(_ & Hs & _)|[_ [n ?]]]; [..|exact Hs|done].
  - intros a. lia.
  - by left.
  - vm_compute. reflexivity.
  - apply publish_packet_says.
  - apply publish_message_ok.
  - done.
Defined.

(** The start of the property list is a pointer into the buffer.  A list that makes the
    buffer grow to another address ends the program. *)
Lemma assemble_properties_moved :
  let text := mk_property 1 None (mk_def RRR_MQTT_PROPERTY_DATA_TYPE_UTF8 0x03 "Content type")
    RRR_MQTT_PROPERTY_DATA_TYPE_INTERNAL_BLOB 80 80 (Some (replicate 80 65 ++ [0])) in
  let p := mk_packet (type_properties publish_packet) (protocol_version publish_packet) 2 1 7 0 None 0 None
    (Publish (mk_publish (Some [97; 0]) [] (mk_collection [text] 1) 0 0 0 0 None None None)) in
  RRR_MQTT_P_GET_ASSEMBLER false (fun _ => true) (fun old new => if old =? new then 0 else 4096) p = Bug.
Proof. vm_compute. reflexivity. Qed.

End MqttWire.
