(* ===== verification/MqttRoundtrip.v ===== *)
(** The parser reads the bytes of [MqttWire] back: from the fixed header, the variable
    header and the payload of a message it makes a packet that says the same.  The
    proofs follow the parsers with triples that also say that they succeed. *)
From S2P Require Import Prelude Types Utf8 Parse MqttTopic MsgHead MqttPayloadBuf MqttProperty.
From S2P Require Import MqttSubscription MqttPacket MqttParse MqttParsePacket MqttParseSafe.
From S2P Require Import MqttAssemble MqttWire.
From stdpp Require Import strings.
Open Scope Z_scope.
Open Scope c_scope.

Module MqttRoundtrip.
Import Types Utf8 Parse MqttTopic MsgHead MqttProperty MqttSubscription MqttPacket.
Import MqttPayloadBuf MqttParse MqttParsePacket MqttParseSafe MqttWire.

(** * Triples of parsers that succeed *)

Definition goes {A} (P : rrr_mqtt_parse_session -> Prop) (m : parser A)
    (Q : A -> rrr_mqtt_parse_session -> Prop) : Prop :=
  forall s, P s -> exists a s', m s = Ret (s', inr a) /\ Q a s'.

Lemma goes_bind {A B} P (m : parser A) (f : A -> parser B) Q R :
  goes P m Q -> (forall a, goes (Q a) (f a) R) -> goes P (a ← m; f a) R.
Proof.
  intros Hm Hf s Hs. destruct (Hm s Hs) as (a & s' & E & HQ). destruct (Hf a s' HQ) as (b & s2 & E2 & HR).
  exists b, s2. split; [|done]. unfold mbind, parser_bind. by rewrite E.
Qed.

(** The value is known. *)
Lemma goes_step {A B} P P' (m : parser A) (f : A -> parser B) v R :
  goes P m (fun a s => a = v /\ P' s) -> goes P' (f v) R -> goes P (a ← m; f a) R.
Proof.
  intros Hm Hf. apply (goes_bind _ _ _ _ _ Hm). intros a s [-> Hs]. by apply Hf.
Qed.

Lemma goes_give {A} P (a : A) (Q : A -> rrr_mqtt_parse_session -> Prop) :
  (forall s, P s -> Q a s) -> goes P (give a) Q.
Proof. intros H s Hs. exists a, s. split; [done|by apply H]. Qed.

Lemma goes_conseq {A} P (m : parser A) (Q Q' : A -> rrr_mqtt_parse_session -> Prop) :
  goes P m Q -> (forall a s, Q a s -> Q' a s) -> goes P m Q'.
Proof. intros Hm HQ s Hs. destruct (Hm s Hs) as (a & s' & E & H). exists a, s'. auto. Qed.

Lemma goes_stop_if {B} P b c (f : unit -> parser B) R : b = false -> goes P (f tt) R ->
  goes P (x ← stop_if b c; f x) R.
Proof. intros -> H. exact H. Qed.

Lemma goes_call {A B} P (f : rrr_mqtt_parse_session -> outcome A) (k : A -> parser B) v R :
  (forall s, P s -> f s = Ret v) -> goes P (k v) R -> goes P (a ← call f; k a) R.
Proof.
  intros Hf Hk s Hs. destruct (Hk s Hs) as (b & s' & E & HR). exists b, s'. split; [|done].
  unfold mbind, parser_bind, call. by rewrite (Hf s Hs).
Qed.

Lemma goes_eta {A} P (m : parser A) Q : goes P (x ← m; give x) Q -> goes P m Q.
Proof.
  intros H s Hs. destruct (H s Hs) as (a & s' & E & HQ). exists a, s'. split; [|done].
  rewrite <- E. unfold mbind, parser_bind. by destruct (m s) as [[? [?|?]]| |].
Qed.

(** ** Sessions that hold the bytes of a packet *)

(** [bs] is at offset [pos]. *)
Definition has (bytes : list Z) (pos : Z) (bs : list Z) : Prop :=
  exists pre post, bytes = pre ++ bs ++ post /\ pos = Z.of_nat (length pre).

Lemma has_app bytes pos a b : has bytes pos (a ++ b) ->
  has bytes pos a /\ has bytes (pos + Z.of_nat (length a)) b.
Proof.
  intros (pre & post & -> & ->). split.
  - exists pre, (b ++ post). by rewrite <- !app_assoc.
  - exists (pre ++ a), post. rewrite length_app, <- !app_assoc. split; [done|lia].
Qed.

Lemma has_bounds bytes pos bs : has bytes pos bs ->
  0 <= pos /\ pos + Z.of_nat (length bs) <= Z.of_nat (length bytes).
Proof. intros (pre & post & -> & ->). rewrite !length_app. lia. Qed.

Section Goes.
Context (bytes : list Z) (size flags pp : Z).

(** The session while packet [p] is filled in; [pp] is the payload position. *)
Definition holding (p : option rrr_mqtt_p) (s : rrr_mqtt_parse_session) : Prop :=
  readable s bytes /\ target_size s = size /\ packet s = p /\ s_type_flags s = flags /\
  RRR_MQTT_PARSE_IS_ERR s = false /\ payload_pos s = pp.

Abbreviation at_ p := (holding (Some p)).

Lemma holding_buffer p s : holding p s -> buffer_ok s.
Proof. intros (Hr & _). by exists bytes. Qed.

Lemma holding_here p s pos bs : holding p s -> has bytes pos bs -> bytes_here s pos bs.
Proof. intros ((Hb & _) & _) (pre & post & E & ->). exists pre, post. by rewrite Hb, E. Qed.

Lemma holding_wpos p s : holding p s -> buf_wpos s = Z.of_nat (length bytes) /\ target_size s = size.
Proof. intros ((_ & Hw & _) & Hs & _). done. Qed.

Lemma goes_u8_from {B} P e x (k : Z * Z -> parser B) R : (forall s, P s -> exists p, holding p s) ->
  has bytes e [x] -> goes P (k (x, e + 1)) R -> goes P (r ← parse_u8 e; k r) R.
Proof.
  intros HP Hx Hk s HPs. destruct (Hk s HPs) as (b & s' & E & HR). exists b, s'. split; [|done].
  destruct (HP s HPs) as [p Hs].
  pose proof (has_bounds _ _ _ Hx) as [_ Hend]. cbn in Hend. destruct (holding_wpos p s Hs) as [Hw _].
  unfold parse_u8, prepare, mbind, parser_bind, ask, stop_if, beyond.
  rewrite (proj2 (Z.ltb_ge _ _)) by lia. unfold give, call.
  rewrite (read_u8_here s e x) by (by eapply holding_here). done.
Qed.

Lemma goes_u16_from {B} big P e x (k : Z * Z -> parser B) R : (forall s, P s -> exists p, holding p s) ->
  0 <= x < 2 ^ 16 -> has bytes e (be_enc 2 x) ->
  goes P (k (x, e + 2)) R -> goes P (r ← parse_u16 big e; k r) R.
Proof.
  intros HP Hv Hx Hk s HPs. destruct (Hk s HPs) as (b & s' & E & HR). exists b, s'. split; [|done].
  destruct (HP s HPs) as [p Hs].
  pose proof (has_bounds _ _ _ Hx) as [_ Hend]. rewrite length_be_enc in Hend.
  destruct (holding_wpos p s Hs) as [Hw _].
  unfold parse_u16, prepare, mbind, parser_bind, ask, stop_if, beyond.
  rewrite (proj2 (Z.ltb_ge _ _)) by lia. unfold give, call.
  rewrite (read_u16_here big s e x) by (done || by eapply holding_here). done.
Qed.

Lemma goes_u8 {B} p e x (k : Z * Z -> parser B) R : has bytes e [x] ->
  goes (holding p) (k (x, e + 1)) R -> goes (holding p) (r ← parse_u8 e; k r) R.
Proof. apply (goes_u8_from (holding p)). intros s Hs. by exists p. Qed.

Lemma goes_u16 {B} big p e x (k : Z * Z -> parser B) R : 0 <= x < 2 ^ 16 -> has bytes e (be_enc 2 x) ->
  goes (holding p) (k (x, e + 2)) R -> goes (holding p) (r ← parse_u16 big e; k r) R.
Proof. apply (goes_u16_from big (holding p)). intros s Hs. by exists p. Qed.

Lemma goes_prepare {B} P e n (k : Z * Z -> parser B) R : (forall s, P s -> exists p, holding p s) ->
  e + n <= Z.of_nat (length bytes) -> goes P (k (e, e + n)) R -> goes P (r ← prepare e n; k r) R.
Proof.
  intros HP Hend Hk s HPs. destruct (Hk s HPs) as (b & s' & E & HR). exists b, s'. split; [|done].
  destruct (HP s HPs) as [p Hs]. destruct (holding_wpos p s Hs) as [Hw _]. unfold prepare, mbind, parser_bind, ask, stop_if, beyond.
  by rewrite (proj2 (Z.ltb_ge _ _)) by lia.
Qed.

Lemma holding_set p q s : holding p s -> holding q (set_packet s q).
Proof. intros (H1 & H2 & _ & H4 & H5 & H6). done. Qed.

Lemma goes_get_packet {B} p (k : rrr_mqtt_p -> parser B) R :
  goes (at_ p) (k p) R -> goes (at_ p) (q ← get_packet; k q) R.
Proof.
  intros Hk s Hs. destruct (Hk s Hs) as (b & s' & E & HR). exists b, s'. split; [|done].
  unfold mbind, parser_bind, get_packet, ask. destruct Hs as (_ & _ & Hp & _). unfold parser_bind.
  unfold mbind, parser_bind. rewrite Hp. exact E.
Qed.

Lemma goes_put_packet {B} p q (k : unit -> parser B) R :
  goes (at_ q) (k tt) R -> goes (at_ p) (x ← put_packet q; k x) R.
Proof. intros Hk s Hs. apply (Hk (set_packet s (Some q))). by eapply holding_set. Qed.

Lemma goes_put_body {B} p b (k : unit -> parser B) R :
  goes (at_ (set_body p b)) (k tt) R -> goes (at_ p) (x ← put_body b; k x) R.
Proof.
  intros Hk s Hs. destruct (goes_get_packet p (fun q => put_packet (set_body q b)) (fun _ => at_ (set_body p b)))
    with (s := s) as (a & s' & E & Hs'); [|done|].
  - intros s1 Hs1. exists tt, (set_packet s1 (Some (set_body p b))). split; [done|]. by eapply holding_set.
  - destruct a. destruct (Hk s' Hs') as (c & s2 & E2 & HR). exists c, s2. split; [|done].
    unfold put_body. unfold mbind at 1, parser_bind at 1. by rewrite E.
Qed.

Lemma goes_ask {B} P (k : rrr_mqtt_parse_session -> parser B) R :
  (forall s, P s -> goes (fun s' => P s' /\ s' = s) (k s) R) -> goes P (s ← ask; k s) R.
Proof. intros Hk s Hs. by apply (Hk s Hs s). Qed.

(** ** Fields *)

Ltac getter :=
  let s := fresh in let Hs := fresh in let Hp := fresh in
  intros Hb Hk s Hs; destruct (Hk s Hs) as (?b & ?s' & E & HR); eexists _, _; split; [|exact HR];
  pose proof Hs as (_ & _ & Hp & _);
  unfold mbind, parser_bind, get_packet, ask, mbind, parser_bind; rewrite Hp; cbn; unfold give; cbn;
  rewrite Hb; exact E.

Lemma goes_get_connect {B} p b (k : rrr_mqtt_p_connect -> parser B) R : body p = Connect b ->
  goes (at_ p) (k b) R -> goes (at_ p) (x ← get_connect; k x) R.
Proof. unfold get_connect. getter. Qed.
Lemma goes_get_connack {B} p b (k : rrr_mqtt_p_connack -> parser B) R : body p = Connack b ->
  goes (at_ p) (k b) R -> goes (at_ p) (x ← get_connack; k x) R.
Proof. unfold get_connack. getter. Qed.
Lemma goes_get_publish {B} p b (k : rrr_mqtt_p_publish -> parser B) R : body p = Publish b ->
  goes (at_ p) (k b) R -> goes (at_ p) (x ← get_publish; k x) R.
Proof. unfold get_publish. getter. Qed.
Lemma goes_get_def_puback {B} p b (k : rrr_mqtt_property_collection -> parser B) R : body p = Def_puback b ->
  goes (at_ p) (k b) R -> goes (at_ p) (x ← get_def_puback; k x) R.
Proof. unfold get_def_puback. getter. Qed.
Lemma goes_get_sub_usub {B} p b (k : rrr_mqtt_p_sub_usub -> parser B) R : body p = Sub_usub b ->
  goes (at_ p) (k b) R -> goes (at_ p) (x ← get_sub_usub; k x) R.
Proof. unfold get_sub_usub. getter. Qed.

(** [put] changes the packet from [p] to [q]. *)
Abbreviation changes p m q := (goes (at_ p) m (fun a s => a = tt /\ at_ q s)).

Lemma changes_body p b : changes p (put_body b) (set_body p b).
Proof. apply goes_eta, goes_put_body. by apply goes_give. Qed.

Lemma changes_connect {A} p b (set : rrr_mqtt_p_connect -> A -> rrr_mqtt_p_connect) x :
  body p = Connect b -> changes p (put_connect set x) (set_body p (Connect (set b x))).
Proof. intros Hb. eapply goes_get_connect; [done|apply changes_body]. Qed.
Lemma changes_publish {A} p b (set : rrr_mqtt_p_publish -> A -> rrr_mqtt_p_publish) x :
  body p = Publish b -> changes p (put_publish set x) (set_body p (Publish (set b x))).
Proof. intros Hb. eapply goes_get_publish; [done|apply changes_body]. Qed.
Lemma changes_sub_usub {A} p b (set : rrr_mqtt_p_sub_usub -> A -> rrr_mqtt_p_sub_usub) x :
  body p = Sub_usub b -> changes p (put_sub_usub set x) (set_body p (Sub_usub (set b x))).
Proof. intros Hb. eapply goes_get_sub_usub; [done|apply changes_body]. Qed.

(** ** The macros *)

Section Alloc.
Context (big : bool) (alloc_ok : Z -> bool) (Halloc : forall n, alloc_ok n = true).

Lemma goes_utf8_with_length put p q min e bs : has bytes e (str_wire bs) -> utf8_text bs ->
  Z.of_nat (length bs) <= 0xffff -> min <= Z.of_nat (length bs) ->
  e + 2 + Z.of_nat (length bs) <= size -> changes p (put (Some (bs ++ [0]))) q ->
  goes (at_ p) (utf8_with_length big alloc_ok put min e) (fun r s =>
    r = (Z.of_nat (length bs), 2 + Z.of_nat (length bs), e + (2 + Z.of_nat (length bs))) /\ at_ q s).
Proof using Type Halloc.
  intros Hb Ht Hl Hmin Hend Hput. unfold utf8_with_length. eapply goes_call.
  - intros s Hs. destruct (holding_wpos _ _ Hs) as [_ Hts].
    apply utf8_here; try done; [by eapply holding_buffer|by eapply holding_here|lia].
  - eapply goes_step; [exact Hput|]. apply goes_stop_if; [done|]. by apply goes_give.
Qed.

Lemma goes_utf8 put p q min e bs : has bytes e (str_wire bs) -> utf8_text bs ->
  Z.of_nat (length bs) <= 0xffff -> min <= Z.of_nat (length bs) ->
  e + 2 + Z.of_nat (length bs) <= size -> changes p (put (Some (bs ++ [0]))) q ->
  goes (at_ p) (parse_utf8 big alloc_ok put min e) (fun r s =>
    r = e + Z.of_nat (length (str_wire bs)) /\ at_ q s).
Proof using Type Halloc.
  intros. unfold parse_utf8. eapply goes_step; [by apply goes_utf8_with_length|]. apply goes_give.
  intros s Hs. split; [|done]. rewrite str_wire_length. lia.
Qed.

Lemma goes_packet_id p e id : 0 < id < 2 ^ 16 -> has bytes e (be_enc 2 id) ->
  goes (at_ p) (parse_packet_id big e) (fun r s => r = e + 2 /\ at_ (set_packet_identifier p id) s).
Proof.
  intros Hid Hb. eapply goes_u16; [|exact Hb|]; [lia|]. apply goes_get_packet. apply goes_put_packet.
  apply goes_stop_if; [lia|]. by apply goes_give.
Qed.

Lemma goes_check_v5 {B} p (k : bool -> parser B) R : v_id (protocol_version p) <= 5 ->
  goes (at_ p) (k (is_five (protocol_version p))) R -> goes (at_ p) (r ← check_v5; k r) R.
Proof.
  intros Hv Hk. assert ((RRR_MQTT_VERSION_5 <=? v_id (protocol_version p)) = is_five (protocol_version p)) as E.
  { unfold is_five, RRR_MQTT_VERSION_5. lia. }
  intros s Hs. destruct (Hk s Hs) as (b & s' & Er & HR). exists b, s'. split; [|done].
  unfold check_v5, get_packet, mbind, parser_bind, ask. pose proof Hs as (_ & _ & Hp & _). rewrite Hp.
  unfold give. by rewrite E.
Qed.

(** The bytes of the properties and the packet that has them. *)
Definition opt_props (l : list item) (w : rrr_mqtt_p_protocol_version) : list Z :=
  if is_five w then props_wire l else [].

Lemma goes_properties get put p upd l e : v_id (protocol_version p) <= 5 ->
  (exists c, goes (at_ p) get (fun a s => a = c /\ at_ p s)) ->
  (forall c, changes p (put c) (upd c)) ->
  Forall item_clean l -> props_ok l -> has bytes e (opt_props l (protocol_version p)) ->
  e + Z.of_nat (length (opt_props l (protocol_version p))) <= size ->
  goes (at_ p) (properties_if_v5 big alloc_ok get put e) (fun r s =>
    r = e + Z.of_nat (length (opt_props l (protocol_version p))) /\
    exists q, at_ q s /\
      (is_five (protocol_version p) = true /\ (exists c, q = upd c /\ collection_holds big c l) \/
       is_five (protocol_version p) = false /\ q = p)).
Proof using Type Halloc.
  intros Hv [c Hget] Hput Hclean [Hok Hmax] Hb Hend. unfold properties_if_v5, opt_props in *.
  apply goes_check_v5; [done|]. destruct (is_five (protocol_version p)) eqn:Ev.
  - eapply goes_step; [exact Hget|]. intros s Hs. destruct (holding_wpos _ _ Hs) as [_ Hts].
    destruct (properties_here big alloc_ok s l c e) as (c' & Hp & Hh); [by eapply holding_buffer|done|done|lia| |lia|].
    { by eapply holding_here. }
    destruct (Hput c' s Hs) as (a & s' & E & -> & Hs').
    eexists _, s'. split; [|split; [reflexivity|]].
    + unfold mbind, parser_bind, call. rewrite Hp. cbn. rewrite E. done.
    + exists (upd c'). split; [done|]. left. split; [done|]. by exists c'.
  - apply goes_give. intros s Hs. split; [cbn; lia|]. exists p. split; [done|]. by right.
Qed.

Lemma holding_status p s f : holding p s -> (f &&& RRR_MQTT_PARSE_STATUS_ERR) = 0 ->
  holding p (RRR_MQTT_PARSE_STATUS_SET s f).
Proof.
  intros (H1 & H2 & H3 & H4 & H5 & H6) Hf. split_and!; try done; try apply H1.
  unfold RRR_MQTT_PARSE_IS_ERR in *. by rewrite status_is_set, H5, Hf.
Qed.

Lemma holding_size p s : holding p s -> target_size s = size.
Proof. by intros (_ & ? & _). Qed.

End Alloc.

End Goes.

#[global] Arguments holding_wpos {bytes size flags pp} p s _.
#[global] Arguments holding_status {bytes size flags pp} p s f _ _.
#[global] Arguments goes_utf8 {bytes size flags pp big alloc_ok} Halloc put p q min e bs.
#[global] Arguments goes_utf8_with_length {bytes size flags pp big alloc_ok} Halloc put p q min e bs.
#[global] Arguments goes_properties {bytes size flags pp big alloc_ok} Halloc get put p upd l e.

Section Packets.
Context (bytes : list Z) (size flags : Z) (v : rrr_mqtt_p_protocol_version).
Context (big : bool) (alloc_ok : Z -> bool) (Halloc : forall n, alloc_ok n = true).

(** While the header is read, and afterwards. *)
Abbreviation at_ p := (holding bytes size flags 0 (Some p)).
Abbreviation payload_at p e := (holding bytes size flags e (Some p)).
Abbreviation changes p m q := (goes (at_ p) m (fun a s => a = tt /\ at_ q s)).

(** ** Headers and payloads *)

(** A packet as it is allocated. *)
Definition new_packet (t : rrr_mqtt_p_type_properties) (p : rrr_mqtt_p) : Prop :=
  type_properties p = t /\ protocol_version p = v /\ payload p = None /\
  (body p = zero_body (type_id t) \/ type_id t = RRR_MQTT_P_TYPE_PUBLISH /\ exists b, body p = Publish b).

(** The session when the fixed header has been read; an earlier attempt may have
    allocated the packet. *)
Definition starting (w : option rrr_mqtt_p_protocol_version) (t : rrr_mqtt_p_type_properties)
    (s : rrr_mqtt_parse_session) : Prop :=
  exists o, holding bytes size flags 0 o s /\ (forall p, o = Some p -> new_packet t p) /\
    s_protocol_version s = w /\ s_type_properties s = Some t.

Lemma goes_allocate {B} alloc_sub alloc_packet now t (k : parser B) R s o :
  (exists p, type_allocate alloc_sub alloc_packet now t v = Ret (Some p) /\ new_packet t p) ->
  (forall p s, new_packet t p -> at_ p s -> exists b s', k s = Ret (s', inr b) /\ R b s') ->
  holding bytes size flags 0 o s -> (forall p, o = Some p -> new_packet t p) ->
  s_protocol_version s = Some v -> s_type_properties s = Some t ->
  exists b s', (_ ← parse_allocate alloc_sub alloc_packet now; k) s = Ret (s', inr b) /\ R b s'.
Proof.
  intros (p & Ha & Hp) Hk Hs Ho Hw Ht. pose proof Hs as (_ & _ & Ep & _).
  unfold parse_allocate, mbind, parser_bind, ask. rewrite Ep. destruct o as [q|].
  - destruct (Hk q s (Ho q eq_refl) Hs) as (b & s' & E & HR). exists b, s'. split; [|done]. exact E.
  - destruct (Hk p (set_packet s (Some p)) Hp) as (b & s' & E & HR); [by eapply holding_set|].
    exists b, s'. split; [|done]. rewrite Ht, Hw. unfold call. by rewrite Ha.
Qed.

Lemma goes_begin {B} alloc_sub alloc_packet now t (k : parser B) R :
  (exists p, type_allocate alloc_sub alloc_packet now t v = Ret (Some p) /\ new_packet t p) ->
  (forall p, new_packet t p -> goes (at_ p) k R) ->
  goes (starting (Some v) t) (_ ← require_protocol_version; _ ← parse_allocate alloc_sub alloc_packet now; k) R.
Proof.
  intros Ha Hk s (o & Hs & Ho & Hw & Ht).
  destruct (goes_allocate alloc_sub alloc_packet now t k R s o Ha) as (b & s' & E & HR); try done.
  { intros p s0 Hp Hs0. by apply (Hk p Hp s0). }
  exists b, s'. split; [|done]. unfold require_protocol_version, mbind, parser_bind, ask. rewrite Hw. exact E.
Qed.

(** The rest of the bytes is to be moved to the packet. *)
Definition moves (s : rrr_mqtt_parse_session) : bool :=
  status_is s RRR_MQTT_PARSE_STATUS_MOVE_PAYLOAD_TO_PACKET.

Definition complete (F : rrr_mqtt_p -> bool -> Prop) (e : Z) (s : rrr_mqtt_parse_session) : Prop :=
  exists q, F q (moves s) /\ payload_at q e s /\ RRR_MQTT_PARSE_STATUS_PAYLOAD_IS_DONE s = true.

Lemma goes_parse_done (F : rrr_mqtt_p -> bool -> Prop) p e :
  goes (fun s => payload_at p e s /\ F p (moves s)) parse_done (fun _ => complete F e).
Proof.
  intros s [Hs HF]. eexists _, _. split; [done|]. exists p. split; [|split].
  - unfold moves. by rewrite !status_is_set, !orb_false_r.
  - apply holding_status; [|done]. by apply holding_status.
  - unfold RRR_MQTT_PARSE_STATUS_PAYLOAD_IS_DONE. rewrite !status_is_set. cbn. by rewrite !orb_true_r.
Qed.

Definition unread (start : rrr_mqtt_parse_session -> Prop) (pos : Z) (s : rrr_mqtt_parse_session) : Prop :=
  start s /\ variable_header_pos s = pos /\
  RRR_MQTT_PARSE_STATUS_PAYLOAD_IS_DONE s = false /\ RRR_MQTT_PARSE_VARIABLE_HEADER_IS_DONE s = false.

Lemma goes_begin_unread {B} alloc_sub alloc_packet now t pos (k : parser B) R :
  (exists p, type_allocate alloc_sub alloc_packet now t v = Ret (Some p) /\ new_packet t p) ->
  (forall p, new_packet t p -> goes (unread (at_ p) pos) k R) ->
  goes (unread (starting (Some v) t) pos)
    (_ ← require_protocol_version; _ ← parse_allocate alloc_sub alloc_packet now; k) R.
Proof.
  intros (p & Ha & Hp) Hk s ((o & Hs & Ho & Hw & Ht) & Hrest). pose proof Hs as (_ & _ & Ep & _).
  unfold require_protocol_version, parse_allocate, mbind, parser_bind, ask. rewrite Hw. unfold give. rewrite Ep.
  destruct o as [q|].
  - destruct (Hk q (Ho q eq_refl) s) as (b & s' & E & HR); [by split|]. exists b, s'. done.
  - destruct (Hk p Hp (set_packet s (Some p))) as (b & s' & E & HR); [by split; [eapply holding_set|]|].
    exists b, s'. split; [|done]. rewrite Ht, Hw. unfold call. by rewrite Ha.
Qed.

Lemma goes_header_payload start header payload pos e (G : rrr_mqtt_p -> Prop)
    (F : rrr_mqtt_p -> bool -> Prop) :
  0 <= e < 2 ^ 32 -> e <= size ->
  goes start (header pos) (fun r s => r = Some e /\ exists p, G p /\ at_ p s) ->
  (forall p, G p -> goes (payload_at p e) (payload e) (fun _ => complete F e)) ->
  goes (unread start pos)
    (header_and_payload header payload) (fun _ => complete F e).
Proof.
  intros He Hsize Hh Hp s (Hs & Hpos & Hd & Hv).
  destruct (Hh s Hs) as (r & s1 & E & -> & p & HG & Hs1).
  set (s2 := set_checkpoint (set_checkpoint
    (RRR_MQTT_PARSE_STATUS_SET s1 RRR_MQTT_PARSE_STATUS_VARIABLE_HEADER_DONE) (payload_pos s1) e) e e).
  assert (payload_at p e s2) as Hs2.
  { destruct (holding_status _ s1 RRR_MQTT_PARSE_STATUS_VARIABLE_HEADER_DONE Hs1 eq_refl)
      as (H1 & H2 & H3 & H4 & H5 & _). by split_and!. }
  destruct (Hp p HG s2 Hs2) as (a & s3 & E3 & H3). exists a, s3. split; [|done].
  unfold header_and_payload. unfold mbind at 1, parser_bind at 1, ask at 1. rewrite Hd, Hv, Hpos.
  unfold mbind at 1, parser_bind at 1. rewrite E.
  unfold end_header, save_checkpoint, modify, call, mbind, parser_bind, outcome_bind.
  rewrite !length_of_pos by done. unfold begin_payload, mbind, parser_bind, ask, stop_if. cbn [payload_pos].
  pose proof Hs1 as (_ & Hts & _). cbn. rewrite Hts, (proj2 (Z.ltb_ge _ _)) by lia. exact E3.
Qed.

(** Nothing may follow the header. *)
Lemma goes_verify_at_end {B} P e (k : unit -> parser B) R : (forall s, P s -> target_size s = size) ->
  e = size -> goes P (k tt) R -> goes P (x ← verify_at_end e; k x) R.
Proof.
  intros HP -> Hk s Hs. destruct (Hk s Hs) as (b & s' & E & HR). exists b, s'. split; [|done].
  unfold verify_at_end, check_target_end, mbind, parser_bind, ask, beyond, give. rewrite (HP s Hs).
  by rewrite (proj2 (Z.ltb_lt _ _)) by lia.
Qed.

Lemma goes_no_payload (F : rrr_mqtt_p -> bool -> Prop) p e : (forall b, F p b) -> e = size ->
  goes (payload_at p e) (verify_no_payload e) (fun _ => complete F e).
Proof.
  intros HF He. apply goes_verify_at_end; [by intros s (_ & ? & _)|done|].
  intros s Hs. by apply (goes_parse_done F p e s).
Qed.

(** ** The types *)

Section Types.
Context (alloc_sub alloc_packet : Z -> bool) (alloc_token : nat -> bool) (now : Z).
Context (Hsub : forall n, alloc_sub n = true) (Hpacket : forall n, alloc_packet n = true).
Context (Htoken : forall n, alloc_token n = true) (Hv : v_id v <= 5).

Lemma allocate_spec t : 1 <= type_id t <= 15 ->
  exists p, type_allocate alloc_sub alloc_packet now t v = Ret (Some p) /\
    new_packet t p.
Proof using Type Hsub Hpacket.
  intros Ht. unfold type_allocate. destruct (Z.eqb_spec (type_id t) RRR_MQTT_P_TYPE_PUBLISH) as [E|E].
  - unfold rrr_mqtt_p_allocate_publish, rrr_mqtt_p_allocate_raw. rewrite Hpacket, E. cbn.
    eexists. split; [done|]. split_and!; [done..|]. right. split; [done|]. by eexists.
  - destruct (_ || _) eqn:Es.
    + unfold rrr_mqtt_p_allocate_sub_usub, rrr_mqtt_p_allocate_raw. rewrite Hpacket. cbn.
      unfold rrr_mqtt_subscription_collection_new. rewrite Hsub. cbn.
      apply orb_true_iff in Es. rewrite !Z.eqb_eq in Es. eexists.
      split; [by destruct Es as [-> | ->]|]. split_and!; [done..|]. left. by destruct Es as [-> | ->].
    + unfold rrr_mqtt_p_allocate_raw. rewrite Hpacket. cbn. eexists. split; [done|]. split_and!; auto.
Qed.

(** A packet of the type and version that says the message. *)
Definition says (t : rrr_mqtt_p_type_properties) (m : message) (p : rrr_mqtt_p) : Prop :=
  represents big p m /\ type_properties p = t /\ protocol_version p = v /\ payload p = None.

(** *** PUBLISH *)

Lemma tokenize_all t : t <> [] -> 0 ∉ t -> rrr_mqtt_topic_tokenize alloc_token t = (0, levels t).
Proof using Type Htoken.
  intros Hne Hz. unfold rrr_mqtt_topic_tokenize. rewrite tokenize_spec by done.
  replace (allocs alloc_token 0 (length (levels t))) with true; [done|]. symmetry.
  unfold allocs. apply forallb_forall. intros k _. apply Htoken.
Qed.

Lemma publish_dup p f : type_flags p = f -> 0 <= f < 16 -> (qos_of f = 0 -> f < 8) ->
  (RRR_MQTT_P_PUBLISH_GET_FLAG_QOS p =? 0) && negb (RRR_MQTT_P_PUBLISH_GET_FLAG_DUP p =? 0) = false.
Proof.
  intros Ef Hf Hd. rewrite (publish_qos p f) by done. unfold RRR_MQTT_P_PUBLISH_GET_FLAG_DUP. rewrite Ef.
  destruct (Z.eqb_spec (qos_of f) 0) as [E|]; [|done]. specialize (Hd E).
  assert (byte_ok f) as Hb by (unfold byte_ok; lia).
  apply (all_bytes_spec (fun f => (8 <=? f) || (((f &&& (1 <<< 3)) >>> 3) =? 0))) in Hb;
    [|vm_compute; reflexivity]. cbn beta in Hb. rewrite (proj2 (Z.leb_gt 8 f)) in Hb by lia. cbn [orb] in Hb. by rewrite Hb.
Qed.

Lemma publish_header_goes t pos topic_ id ps :
  type_id t = RRR_MQTT_P_TYPE_PUBLISH -> 0 <= flags < 16 -> qos_of flags <= 2 ->
  (qos_of flags = 0 -> flags < 8) -> str_ok topic_ -> utf8_text topic_ ->
  rrr_mqtt_topic_validate_name (Some topic_) = Ret 0 -> id_ok id -> props_ok ps -> Forall item_clean ps ->
  has bytes pos (message_wire v (M_publish flags topic_ id ps)) ->
  pos + Z.of_nat (length (message_wire v (M_publish flags topic_ id ps))) <= size ->
  goes (starting (Some v) t) (publish_header big alloc_ok alloc_sub alloc_packet alloc_token now pos)
    (fun r s => r = Some (pos + Z.of_nat (length (message_wire v (M_publish flags topic_ id ps)))) /\
       exists p, says t (M_publish flags topic_ id ps) p /\ at_ p s).
Proof using Type Halloc Hsub Hpacket Htoken Hv.
  intros Ht Hf Hq Hdup (Hne & Hz & Hl & Hbs) Htext Hvalid Hid Hps Hclean Hwire Hend.
  pose proof (allocate_spec t ltac:(rewrite Ht; by unfold RRR_MQTT_P_TYPE_PUBLISH)) as Ha.
  cbn [message_wire] in *. fold (opt_props ps v) in *.
  apply has_app in Hwire as [Hw1 Hw]. apply has_app in Hw as [Hw2 Hw3]. rewrite !length_app in *.
  pose proof (str_wire_length topic_) as Hsl. assert (length topic_ <> 0%nat) by (by destruct topic_).
  apply goes_begin; [exact Ha|]. intros p (Ept & Epv & Epay & Hbody).
  assert (exists b, body p = Publish b) as [b Hb].
  { destruct Hbody as [Hb|[_ Hb]]; [|done]. rewrite Hb, Ht. by eexists. }
  apply goes_ask. intros s0 (_ & _ & _ & Hfl & _). rewrite Hfl.
  intros s [Hs _]. refine ((_ : goes (at_ p) _ _) s Hs). clear s Hs s0 Hfl.
  apply goes_get_packet. apply goes_put_packet. apply goes_get_packet.
  set (p1 := set_type_flags p flags).
  rewrite (publish_dup p1 flags eq_refl Hf Hdup), (publish_qos p1 flags eq_refl Hf).
  apply goes_stop_if; [lia|]. apply goes_stop_if; [done|].
  eapply goes_step; [eapply (goes_utf8 Halloc); [exact Hw1|done..|lia|lia|]|].
  { eapply changes_publish. exact Hb. }
  eapply goes_get_publish; [done|]. apply (goes_call _ _ _ topic_).
  { intros s _. cbn. rewrite c_string_terminated. f_equal. by apply cstr_app. }
  apply (goes_call _ _ _ 0); [done|]. apply goes_stop_if; [done|]. rewrite tokenize_all by done.
  eapply goes_step; [by eapply changes_publish|]. apply goes_stop_if; [done|].
  set (p2 := set_body _ _).
  apply (goes_step _ (at_ (if 0 <? qos_of flags then set_packet_identifier p2 id else p2)) _ _
    (pos + Z.of_nat (length (str_wire topic_)) + Z.of_nat (length (if 0 <? qos_of flags then be_enc 2 id else [])))).
  { destruct (0 <? qos_of flags); [by apply goes_packet_id|]. apply goes_give. intros s Hs. split; [cbn; lia|done]. }
  set (p3 := if 0 <? qos_of flags then _ else _).
  assert (exists b3, body p3 = Publish b3 /\ topic b3 = Some (topic_ ++ [0])) as (b3 & Hb3 & Et3).
  { subst p3. destruct (0 <? qos_of flags); by eexists. }
  assert (protocol_version p3 = v /\ type_properties p3 = t /\ type_flags p3 = flags /\
    (0 < qos_of flags -> packet_identifier p3 = id) /\ payload p3 = None) as (Epv3 & Ept3 & Ef3 & Eid3 & Epay3).
  { subst p3. destruct (Z.ltb_spec 0 (qos_of flags)); split_and!; try done; lia. }
  clearbody p3. eapply goes_bind.
  { eapply (goes_properties Halloc _ _ p3 (fun c => set_body p3 (Publish (set_publish_properties b3 c))) ps).
    - by rewrite Epv3.
    - exists (publish_properties b3). eapply goes_get_publish; [exact Hb3|]. by apply goes_give.
    - intros c. by apply changes_publish.
    - done.
    - done.
    - by rewrite Epv3.
    - rewrite Epv3. lia. }
  intros r s [-> (q & Hq3 & Hcase)]. eexists _, s. split; [done|]. split.
  { f_equal. rewrite Epv3. lia. }
  exists q. split; [|done]. rewrite Epv3 in Hcase. unfold says, represents, RRR_MQTT_P_GET_TYPE.
  destruct Hcase as [[Efive (c & -> & Hc)]|[Efive ->]].
  - cbn. rewrite Ept3, Epv3. split_and!; try done. exists []. by rewrite Et3.
  - rewrite Hb3, Ept3, Epv3, Ef3. split_and!; try done; [|by rewrite Efive]. exists []. by rewrite Et3.
Qed.

Lemma publish_payload_goes t m p e : says t m p -> 0 <= e <= size -> size <= Z.of_nat (length bytes) ->
  Z.of_nat (length bytes) < 2 ^ 31 ->
  goes (payload_at p e) (publish_payload e)
    (fun _ => complete (fun q b => says t m q /\ (e < size -> b = true)) e).
Proof.
  intros Hm He Hsize Hlim s Hs. destruct (holding_wpos _ _ Hs) as [Hw Hts].
  pose proof Hs as (_ & _ & _ & _ & _ & Hpos).
  unfold publish_payload, get_payload_size, call, mbind, parser_bind, outcome_bind.
  rewrite Hts, Hpos. unfold rrr_length_from_biglength_sub_bug_const, RRR_LENGTH_MAX.
  rewrite (proj2 (Z.ltb_ge size e)), (wrap_small 64), (proj2 (Z.ltb_ge _ (size - e))), wrap_small by lia.
  destruct (Z.eqb_spec (size - e) 0).
  - apply (goes_parse_done (fun q b => says t m q /\ (e < size -> b = true)) p e s).
    split; [done|]. split; [done|lia].
  - unfold ask. rewrite Hts, Hw, (proj2 (Z.leb_le _ _)) by lia.
    apply (goes_parse_done (fun q b => says t m q /\ (e < size -> b = true)) p e).
    split; [by apply holding_status|]. split; [done|]. intros _. unfold moves.
    rewrite status_is_set. cbn. apply orb_true_r.
Qed.

(** *** Whole packets *)

(** What the caller finds when a packet is complete. *)
Definition received (F : rrr_mqtt_p -> bool -> Prop) (e : Z) (s : rrr_mqtt_parse_session) : Prop :=
  RRR_MQTT_PARSE_IS_ERR s = false /\ RRR_MQTT_PARSE_IS_COMPLETE s = true /\
  target_size s = size /\ payload_pos s = e /\
  exists q s', rrr_mqtt_packet_parse_session_extract_packet s =
      Ret (set_type_flags (set_received_size q size) flags, s') /\ F q (moves s).

Lemma finish_received F e s : complete F e s -> 0 <= size < 2 ^ 32 ->
  RRR_MQTT_PARSE_STATUS_PAYLOAD_IS_DONE s = true /\
  exists q, packet s = Some q /\
    received F e (RRR_MQTT_PARSE_STATUS_SET (set_packet s (Some (set_received_size q size)))
                    RRR_MQTT_PARSE_STATUS_COMPLETE).
Proof.
  intros (q & HF & (Hr & Hts & Hp & Hfl & He & Hpos) & Hd) Hsize. split; [done|]. exists q. split; [done|].
  unfold received, RRR_MQTT_PARSE_IS_ERR, RRR_MQTT_PARSE_IS_COMPLETE, moves,
    rrr_mqtt_packet_parse_session_extract_packet, RRR_MQTT_PARSE_STATUS_PAYLOAD_IS_DONE in *.
  rewrite !status_is_set, !status_is_packet, He, Hd, orb_true_r, orb_false_r. cbn [orb negb].
  split_and!; try done. exists q, (set_packet (RRR_MQTT_PARSE_STATUS_SET (set_packet s
    (Some (set_received_size q size))) RRR_MQTT_PARSE_STATUS_COMPLETE) None).
  split; [by cbn; rewrite Hfl|].
  replace (_ || _) with (status_is s RRR_MQTT_PARSE_STATUS_MOVE_PAYLOAD_TO_PACKET); [done|].
  symmetry. apply orb_false_r.
Qed.

(** The fixed header, whatever follows it. *)
Lemma parse_fixed_header_here s t n rest :
  0 <= flags < 16 -> rrr_mqtt_p_get_type_properties (type_id t) = Ret t -> 1 <= type_id t <= 15 ->
  (has_reserved_flags t <> 0 -> flags = t_flags t) -> 0 <= n <= 0xfffffff ->
  buf s = Some ((16 * type_id t + flags) :: vint n ++ rest) ->
  buf_wpos s = Z.of_nat (length ((16 * type_id t + flags) :: vint n ++ rest)) ->
  size = 1 + Z.of_nat (length (vint n)) + n ->
  parse_fixed_header s = Ret (true, RRR_MQTT_PARSE_STATUS_SET
    (set_fixed_header s t (1 + Z.of_nat (length (vint n))) size (type_id t) flags)
    RRR_MQTT_PARSE_STATUS_FIXED_HEADER_DONE).
Proof.
  intros Hf Ht Hid Hres Hn Eb Ew Esize.
  pose proof (vint_length 4 n ltac:(lia)) as Hvl. fold (vint n) in Hvl.
  assert (byte_ok (16 * type_id t + flags)) as Hb by (unfold byte_ok; lia).
  unfold parse_fixed_header, read_u8. rewrite Eb.
  change (load8 (16 * type_id t + flags :: vint n ++ rest) 0) with (Ret (16 * type_id t + flags)).
  cbn [mbind outcome_bind]. destruct (type_nibble _ Hb) as [-> _].
  assert (((16 * type_id t + flags) >>> 4) = type_id t) as ->.
  { rewrite Z.shiftr_div_pow2 by lia. change (2 ^ 4) with 16. zdiv. }
  assert (((16 * type_id t + flags) &&& 0xF) = flags) as ->.
  { change 0xF with (Z.ones 4). rewrite Z.land_ones by lia. change (2 ^ 4) with 16. zdiv. }
  rewrite (proj2 (Z.eqb_neq _ 0)) by lia. rewrite Ht. cbn [mbind outcome_bind].
  replace (negb (has_reserved_flags t =? 0) && negb (flags =? t_flags t)) with false.
  2:{ destruct (Z.eqb_spec (has_reserved_flags t) 0) as [|Hr]; [done|]. rewrite (Hres Hr), Z.eqb_refl. done. }
  rewrite (variable_int_here s 1 (buf_wpos s) n).
  - cbn [mbind outcome_bind Z.eqb negb]. change (negb (RRR_MQTT_OK =? 0)) with false. cbv iota.
    rewrite biglength_small by (unfold RRR_LENGTH_MAX; lia). cbn [mbind outcome_bind].
    rewrite (wrap_small 64) by lia. rewrite <- Esize. by rewrite (proj2 (Z.leb_gt _ _)) by lia.
  - done.
  - exists [16 * type_id t + flags], rest. split; [by cbn; rewrite Eb|done].
  - rewrite Ew. cbn [length]. rewrite length_app. lia.
Qed.

(** The rest of a packet, in the first attempt or a later one. *)
Lemma parse_packet_body w t s pos F e :
  2 <= Z.of_nat (length bytes) -> 0 <= size < 2 ^ 32 ->
  RRR_MQTT_PARSE_IS_COMPLETE s = false -> header_parse_attempts s < 10 ->
  unread (starting w t) pos s ->
  goes (unread (starting w t) pos)
    (type_parse big alloc_ok alloc_sub alloc_packet alloc_token now t) (fun _ => complete F e) ->
  exists s', (let s1 := if negb (RRR_MQTT_PARSE_VARIABLE_HEADER_IS_DONE s)
                 then set_attempts s (header_parse_attempts s + 1) else s in
        if negb (RRR_MQTT_PARSE_VARIABLE_HEADER_IS_DONE s1) && (10 <? header_parse_attempts s1)
        then Ret (SET_ERR s1)
        else
          match s_type_properties s1 with
          | None => Oob
          | Some t =>
            '(s, r) ← type_parse big alloc_ok alloc_sub alloc_packet alloc_token now t s1;
            let ret_tmp := match r with inr _ => RRR_MQTT_OK | inl ret => ret end in
            if negb (ret_tmp =? RRR_MQTT_OK) then
              if ret_tmp =? RRR_MQTT_INCOMPLETE then Ret s else Ret (SET_ERR s)
            else if RRR_MQTT_PARSE_STATUS_PAYLOAD_IS_DONE s then
              match packet s with
              | None => Oob
              | Some p =>
                n ← rrr_length_from_biglength_bug_const (target_size s);
                Ret (RRR_MQTT_PARSE_STATUS_SET (set_packet s (Some (set_received_size p n)))
                       RRR_MQTT_PARSE_STATUS_COMPLETE)
              end
            else Ret s
          end) = Ret s' /\ received F e s'.
Proof.
  intros Hlen Hsize Hc Hatt Hs Hgoes. pose proof Hs as ((o & _ & _ & _ & Ht) & _ & _ & Hvh).
  rewrite Hvh. cbn [negb]. cbv zeta. set (s3 := set_attempts s _).
  change (RRR_MQTT_PARSE_VARIABLE_HEADER_IS_DONE s3) with (RRR_MQTT_PARSE_VARIABLE_HEADER_IS_DONE s). rewrite Hvh.
  change (header_parse_attempts s3) with (header_parse_attempts s + 1).
  rewrite (proj2 (Z.ltb_ge 10 _)) by lia. cbn [negb andb]. change (s_type_properties s3) with (s_type_properties s).
  rewrite Ht. destruct (Hgoes s3) as ([] & s4 & -> & Hd); [exact Hs|].
  cbn [mbind outcome_bind]. change (negb (RRR_MQTT_OK =? RRR_MQTT_OK)) with false. cbv iota.
  destruct (finish_received F e s4 Hd Hsize) as (-> & q & -> & Hrec).
  pose proof Hd as (_ & _ & (_ & Hts & _) & _). rewrite Hts.
  rewrite biglength_small by (unfold RRR_LENGTH_MAX; lia). cbn [mbind outcome_bind]. by eexists.
Qed.

Lemma parse_message w t n rest F e :
  0 <= flags < 16 -> rrr_mqtt_p_get_type_properties (type_id t) = Ret t -> 1 <= type_id t <= 15 ->
  (has_reserved_flags t <> 0 -> flags = t_flags t) ->
  0 <= n <= 0xfffffff -> n <= Z.of_nat (length rest) ->
  bytes = (16 * type_id t + flags) :: vint n ++ rest -> bytes_ok bytes ->
  Z.of_nat (length bytes) < 2 ^ 31 -> size = 1 + Z.of_nat (length (vint n)) + n ->
  goes (unread (starting w t) (1 + Z.of_nat (length (vint n))))
    (type_parse big alloc_ok alloc_sub alloc_packet alloc_token now t) (fun _ => complete F e) ->
  exists s, rrr_mqtt_packet_parse big alloc_ok alloc_sub alloc_packet alloc_token now
      (rrr_mqtt_parse_session_update rrr_mqtt_parse_session_init bytes w) = Ret s /\ received F e s.
Proof.
  intros Hf Ht Hid Hres Hn Hrest Eb Hbs Hlim Esize Hgoes.
  pose proof (vint_length 4 n ltac:(lia)) as Hvl. fold (vint n) in Hvl.
  assert (Z.of_nat (length bytes) = 1 + Z.of_nat (length (vint n)) + Z.of_nat (length rest)) as Elen.
  { rewrite Eb. cbn [length]. rewrite length_app. lia. }
  set (s0 := rrr_mqtt_parse_session_update rrr_mqtt_parse_session_init bytes w).
  assert (parse_fixed_header s0 = Ret (true, RRR_MQTT_PARSE_STATUS_SET
    (set_fixed_header s0 t (1 + Z.of_nat (length (vint n))) size (type_id t) flags)
    RRR_MQTT_PARSE_STATUS_FIXED_HEADER_DONE)) as Eh.
  { apply (parse_fixed_header_here s0 t n rest); try done; [by cbn; rewrite Eb|by cbn [buf_wpos s0 rrr_mqtt_parse_session_update]; rewrite Eb]. }
  unfold rrr_mqtt_packet_parse. cbn [buf s0 rrr_mqtt_parse_session_update]. fold s0.
  change (RRR_MQTT_PARSE_IS_ERR s0) with false. change (RRR_MQTT_PARSE_IS_COMPLETE s0) with false.
  rewrite (proj2 (Z.ltb_ge (buf_wpos s0) 2)) by (change (buf_wpos s0) with (Z.of_nat (length bytes)); lia).
  change (negb (RRR_MQTT_PARSE_FIXED_HEADER_IS_DONE s0)) with true. cbv iota. rewrite Eh.
  cbn [mbind outcome_bind negb]. set (s2 := RRR_MQTT_PARSE_STATUS_SET _ _).
  apply (parse_packet_body w t s2 (1 + Z.of_nat (length (vint n)))); [lia|lia|done|done| |done].
  split; [|done]. exists None. by split_and!.
Qed.

(** *** PUBACK, PUBREC, PUBREL, PUBCOMP *)

Lemma goes_check_end {B} P e (k : bool -> parser B) R : (forall s, P s -> target_size s = size) ->
  goes P (k (size <? e + 1)) R -> goes P (x ← check_target_end e; k x) R.
Proof.
  intros HP Hk s Hs. destruct (Hk s Hs) as (b & s' & E & HR). exists b, s'. split; [|done].
  unfold check_target_end, mbind, parser_bind, ask, beyond, give. by rewrite (HP s Hs).
Qed.

Lemma goes_reason_struct {B} p for_ reason r (k : unit -> parser B) R : v_id (protocol_version p) <= 5 ->
  (if is_five (protocol_version p) then rrr_mqtt_p_reason_get_v5 reason
   else rrr_mqtt_p_reason_get_v31 reason) = Some r -> for_ r <> 0 ->
  goes (at_ (set_reason_v5 p (v5_reason r) (Some r))) (k tt) R ->
  goes (at_ p) (x ← save_and_check_reason_struct for_ reason; k x) R.
Proof.
  intros Hv5 Hr Hfor Hk s Hs.
  destruct (Hk (set_packet s (Some (set_reason_v5 p (v5_reason r) (Some r))))) as (b & s' & E & HR).
  { by eapply holding_set. }
  exists b, s'. split; [|done]. pose proof Hs as (_ & _ & Hp & _).
  assert ((RRR_MQTT_VERSION_5 <=? v_id (protocol_version p)) = is_five (protocol_version p)) as Ev.
  { unfold is_five, RRR_MQTT_VERSION_5. lia. }
  unfold save_and_check_reason_struct, rrr_mqtt_parse_save_and_check_reason, get_packet, put_packet, modify,
    mbind, parser_bind, ask, stop_if. rewrite Hp. unfold give. rewrite Ev, Hr. cbn.
  by rewrite (proj2 (Z.eqb_neq _ _) Hfor).
Qed.

(** The column of the table of reasons that a type uses. *)
Definition reason_allowed (type : Z) (r : rrr_mqtt_p_reason) : Prop :=
  if (type =? RRR_MQTT_P_TYPE_PUBACK) || (type =? RRR_MQTT_P_TYPE_PUBREC)
  then for_puback_pubrec r <> 0 else for_pubrel_pubcomp r <> 0.

Lemma puback_v5_goes p e reason r ps : body p = Def_puback no_properties ->
  protocol_version p = v -> is_five v = true ->
  RRR_MQTT_P_TYPE_PUBACK <= RRR_MQTT_P_GET_TYPE p <= RRR_MQTT_P_TYPE_PUBCOMP ->
  rrr_mqtt_p_reason_get_v5 reason = Some r -> v5_reason r = reason ->
  reason_allowed (RRR_MQTT_P_GET_TYPE p) r -> props_ok ps -> Forall item_clean ps ->
  has bytes e [reason] -> has bytes (e + 1) (props_wire ps) ->
  e + 1 + Z.of_nat (length (props_wire ps)) <= size ->
  goes (at_ p) (puback_v5 big alloc_ok e) (fun a s =>
    a = e + 1 + Z.of_nat (length (props_wire ps)) /\
    exists c, at_ (set_body (set_reason_v5 p reason (Some r)) (Def_puback c)) s /\ collection_holds big c ps).
Proof using Type Halloc Hv.
  intros Hb Epv Hfive Hty Hr Er Hallowed Hps Hclean Hw1 Hw2 Hend.
  eapply goes_u8; [exact Hw1|]. apply goes_get_packet. apply goes_put_packet.
  set (p1 := set_reason_v5 p reason (Some r)).
  assert (goes (at_ p1)
    (properties_if_v5 big alloc_ok get_def_puback (fun c => _ ← get_def_puback; put_body (Def_puback c)) (e + 1))
    (fun a s => a = e + 1 + Z.of_nat (length (props_wire ps)) /\
      exists c, at_ (set_body p1 (Def_puback c)) s /\ collection_holds big c ps)) as Hprops.
  { pose proof (goes_properties (bytes:=bytes) (size:=size) (flags:=flags) (pp:=0) (big:=big) Halloc get_def_puback (fun c => _ ← get_def_puback; put_body (Def_puback c)) p1
      (fun c => set_body p1 (Def_puback c)) ps (e + 1)) as H.
    change (protocol_version p1) with (protocol_version p) in H. unfold opt_props in H.
    rewrite Epv, Hfive in H. eapply goes_conseq; [apply H; try done|].
    - exists no_properties. apply goes_eta. eapply goes_get_def_puback; [exact Hb|]. by apply goes_give.
    - intros c. eapply goes_get_def_puback; [exact Hb|]. apply changes_body.
    - intros a s [-> (q & Hq & [[_ (c & -> & Hc)]|[? _]])]; [|done]. split; [done|]. by exists c. }
  assert (forall for_, for_ r <> 0 -> goes (at_ (set_reason_v5 p reason (MqttPacket.reason p)))
    (_ ← save_and_check_reason_struct for_ reason;
     properties_if_v5 big alloc_ok get_def_puback (fun c => _ ← get_def_puback; put_body (Def_puback c)) (e + 1))
    (fun a s => a = e + 1 + Z.of_nat (length (props_wire ps)) /\
      exists c, at_ (set_body p1 (Def_puback c)) s /\ collection_holds big c ps)) as Hstruct.
  { intros for_ Hfor. eapply goes_reason_struct; [cbn; by rewrite Epv|cbn; by rewrite Epv, Hfive|done|].
    rewrite Er. exact Hprops. }
  unfold reason_allowed in Hallowed. destruct (_ || _) eqn:E1; [by apply Hstruct|].
  destruct ((_ =? RRR_MQTT_P_TYPE_PUBREL) || _) eqn:E2; [by apply Hstruct|]. exfalso.
  unfold RRR_MQTT_P_TYPE_PUBACK, RRR_MQTT_P_TYPE_PUBREC, RRR_MQTT_P_TYPE_PUBREL, RRR_MQTT_P_TYPE_PUBCOMP in *.
  lia.
Qed.

Lemma ack_goes t pos id reason ps : RRR_MQTT_P_TYPE_PUBACK <= type_id t <= RRR_MQTT_P_TYPE_PUBCOMP ->
  id_ok id -> props_ok ps -> Forall item_clean ps ->
  (is_five v = true -> exists r, rrr_mqtt_p_reason_get_v5 reason = Some r /\ v5_reason r = reason /\
     reason_allowed (type_id t) r) ->
  has bytes pos (message_wire v (M_ack (type_id t) id reason ps)) ->
  size = pos + Z.of_nat (length (message_wire v (M_ack (type_id t) id reason ps))) -> 0 <= size < 2 ^ 32 ->
  goes (unread (starting (Some v) t) pos) (rrr_mqtt_parse_def_puback big alloc_ok alloc_sub alloc_packet now)
    (fun _ => complete (fun q _ => says t (M_ack (type_id t) id reason ps) q) size).
Proof using Type Halloc Hsub Hpacket Hv.
  intros Ht Hid Hps Hclean Hreason Hwire Esize Hsz. pose proof (has_bounds _ _ _ Hwire) as [Hpos _].
  cbn [message_wire] in *.
  pose proof (allocate_spec t ltac:(unfold RRR_MQTT_P_TYPE_PUBACK, RRR_MQTT_P_TYPE_PUBCOMP in *; lia)) as Ha.
  apply has_app in Hwire as [Hw1 Hw2]. rewrite length_app, length_be_enc in *.
  apply (goes_header_payload _ _ _ _ size (says t (M_ack (type_id t) id reason ps))); [lia|lia| |].
  2:{ intros q Hq. by apply goes_no_payload. }
  apply goes_begin; [exact Ha|]. intros p (Ept & Epv & Epay & Hbody).
  assert (body p = Def_puback no_properties) as Hb.
  { destruct Hbody as [->|[E _]]; [|rewrite E in Ht; unfold RRR_MQTT_P_TYPE_PUBACK, RRR_MQTT_P_TYPE_PUBLISH in *; lia].
    unfold zero_body, RRR_MQTT_P_TYPE_PUBACK, RRR_MQTT_P_TYPE_PUBCOMP in *.
    rewrite !(proj2 (Z.eqb_neq _ _)) by (unfold RRR_MQTT_P_TYPE_CONNECT, RRR_MQTT_P_TYPE_CONNACK,
      RRR_MQTT_P_TYPE_PUBLISH; lia). by rewrite !(proj2 (Z.leb_le _ _)) by lia. }
  eapply goes_step; [by apply goes_packet_id|].
  set (p1 := set_packet_identifier p id). apply goes_check_end; [apply holding_size|].
  destruct (is_five v) eqn:Hfive.
  - destruct (Hreason eq_refl) as (r & Hr & Er & Hallowed). apply has_app in Hw2 as [Hw2 Hw3].
    rewrite length_app in Esize. change (length [reason]) with 1%nat in *.
    change (Z.of_nat 2) with 2 in *. change (Z.of_nat 1) with 1 in *.
    rewrite (proj2 (Z.ltb_ge _ _)) by lia. apply goes_check_v5; [cbn; by rewrite Epv|].
    cbn [protocol_version p1 set_packet_identifier]. rewrite Epv, Hfive. eapply goes_bind.
    + apply (puback_v5_goes p1 (pos + 2) reason r ps); try done; unfold RRR_MQTT_P_GET_TYPE;
        try (cbn; by rewrite Ept). lia.
    + intros a s [-> (c & Hs & Hc)]. refine ((_ : goes (at_ _) _ _) s Hs).
      apply goes_verify_at_end; [apply holding_size|lia|]. apply goes_give. intros s' Hs'.
      split; [f_equal; lia|]. eexists. split; [|exact Hs']. split; [|by cbn].
      split; [unfold RRR_MQTT_P_GET_TYPE; cbn; by rewrite Ept|]. cbn. rewrite Epv. auto.
  - rewrite (proj2 (Z.ltb_lt _ _)) by (cbn in Esize; lia). apply goes_give. intros s Hs.
    split; [f_equal; cbn in Esize; lia|]. eexists. split; [|exact Hs]. split; [|by cbn].
    split; [unfold RRR_MQTT_P_GET_TYPE; cbn; by rewrite Ept|]. cbn. rewrite Hb, Epv, Hfive. done.
Qed.

(** *** SUBSCRIBE and UNSUBSCRIBE *)

(** The subscription a filter and its options stand for. *)
Definition sub_of (retain qos : Z) (f : list Z) : rrr_mqtt_subscription := mk_sub f (levels f) retain 0 0 qos.

Lemma topic_options_goes pp p e retain qos : protocol_version p = v ->
  0 <= retain <= 2 -> 0 <= qos <= 2 -> has bytes e [options v retain qos] ->
  goes (holding bytes size flags pp (Some p)) (topic_options e) (fun r s =>
    r = (if is_five v then retain else 0, 0, 0, qos, e + 1) /\ holding bytes size flags pp (Some p) s).
Proof using Type Hv.
  intros Epv Hr Hq Hw. eapply goes_u8; [exact Hw|]. unfold options.
  assert (retain = 0 \/ retain = 1 \/ retain = 2) as Er by lia.
  assert (qos = 0 \/ qos = 1 \/ qos = 2) as Eq by lia.
  destruct (is_five v) eqn:Hfive, Er as [->|[->| ->]], Eq as [->|[->| ->]]; cbv zeta;
    (apply goes_stop_if; [reflexivity|]; apply goes_stop_if; [reflexivity|];
     apply goes_check_v5; [by rewrite Epv|]; rewrite Epv, Hfive; cbv iota;
     repeat (apply goes_stop_if; [reflexivity|]); by apply goes_give).
Qed.

(** A filter that is accepted. *)
Definition filter_accepted (f : list Z) : Prop :=
  filter_ok f /\ utf8_text f /\ Z.of_nat (length f) <= 0xffff.

Lemma subscription_new_goes f retain qos : filter_ok f -> 0 <= retain <= 2 ->
  rrr_mqtt_subscription_new alloc_sub alloc_token f retain 0 0 qos = Ret (0, Some (sub_of retain qos f)).
Proof using Type Hsub Htoken.
  intros Hf Hr. rewrite subscription_new_spec by done. rewrite !Hsub. cbn [negb].
  replace (allocs alloc_token 0 (length (levels f))) with true; [done|]. symmetry.
  unfold allocs. apply forallb_forall. intros k _. apply Htoken.
Qed.

Lemma add_unique_new c s : NoDup (topic_filter <$> c) -> topic_filter s ∉ topic_filter <$> c ->
  Z.of_nat (length c) < RRR_MQTT_SUBSCRIPTION_COLLECTION_MAX ->
  rrr_mqtt_subscription_collection_add_unique c s true = Ret (RRR_MQTT_SUBSCRIPTION_OK, c ++ [s], None).
Proof.
  intros Hnd Hin Hlen. rewrite add_unique_cases by done. destruct (decide _); [done|].
  by rewrite (proj2 (Z.leb_gt _ _)) by lia.
Qed.

(** One round of the loop: the packet's subscriptions get one more. *)
Lemma parse_subscription_goes pp p b opts e f retain qos : body p = Sub_usub b -> protocol_version p = v ->
  filter_accepted f -> 0 <= retain <= 2 -> 0 <= qos <= 2 ->
  has bytes e (str_wire f ++ if opts : bool then [options v retain qos] else []) ->
  e + Z.of_nat (length (str_wire f)) <= size -> 0 <= size < 2 ^ 31 ->
  NoDup (topic_filter <$> subscriptions b) -> (f ∉ topic_filter <$> subscriptions b) ->
  Z.of_nat (length (subscriptions b)) < RRR_MQTT_SUBSCRIPTION_COLLECTION_MAX ->
  goes (holding bytes size flags pp (Some p))
    (parse_subscription big alloc_ok alloc_sub alloc_token opts e) (fun r s =>
      r = e + Z.of_nat (length (str_wire f ++ if opts : bool then [options v retain qos] else [])) /\
      holding bytes size flags pp (Some (set_body p (Sub_usub (mk_sub_usub (Some (f ++ [0])) (sub_properties b)
        (subscriptions b ++ [sub_of (if opts then if is_five v then retain else 0 else 0)
                                    (if opts then qos else 0) f]))))) s).
Proof using Type Halloc Hsub Htoken Hv.
  intros Hb Epv (Hfok & Htext & Hl) Hr Hq Hw Hend Hsz Hnd Hin Hlen.
  pose proof Hfok as (Hbytes & Hz & Hne & Hvalid). assert (length f <> 0%nat) by (by destruct f).
  pose proof (str_wire_length f) as Hsl. apply has_app in Hw as [Hw1 Hw2].
  pose proof (has_bounds _ _ _ Hw1) as [He _].
  eapply goes_step.
  { eapply (goes_utf8_with_length Halloc _ _ _ 1 e f Hw1 Htext Hl); [lia|lia|].
    by eapply changes_sub_usub. }
  set (p1 := set_body p _). apply goes_stop_if; [lia|]. eapply goes_get_sub_usub; [done|].
  apply (goes_call _ _ _ f).
  { intros s _. cbn [data_tmp set_data_tmp]. apply read_data_app. }
  apply goes_stop_if; [rewrite cstr_id by done; lia|].
  apply (goes_step _ (holding bytes size flags pp (Some p1)) _ _
    (if opts then if is_five v then retain else 0 else 0, 0, 0, if opts then qos else 0,
     e + Z.of_nat (length (str_wire f ++ if opts : bool then [options v retain qos] else [])))).
  { rewrite length_app. destruct opts.
    - eapply goes_conseq; [apply (topic_options_goes pp p1 _ retain qos); [done|lia|lia|]|].
      + replace (e + (2 + Z.of_nat (length f))) with (e + Z.of_nat (length (str_wire f))) by lia. exact Hw2.
      + intros r s [-> Hs]. split; [|done]. f_equal. change (length [options v retain qos]) with 1%nat. lia.
    - apply goes_give. intros s Hs. split; [|done]. f_equal. cbn [length]. lia. }
  apply (goes_call _ _ _ f).
  { intros s _. cbn [data_tmp set_data_tmp]. rewrite c_string_terminated. f_equal. by apply cstr_app. }
  apply (goes_call _ _ _ 0); [done|]. apply goes_stop_if; [done|].
  eapply goes_call; [intros s _; apply subscription_new_goes; [done|destruct opts, (is_five v); lia]|].
  apply goes_stop_if; [done|]. eapply goes_call.
  { intros s _. cbn [subscriptions set_data_tmp]. by apply add_unique_new. }
  eapply goes_step.
  { by eapply changes_sub_usub. }
  apply goes_stop_if; [done|]. intros s Hs. eexists _, _. split; [|split; [reflexivity|]].
  - unfold save_checkpoint, call, modify, mbind, parser_bind, outcome_bind, give.
    rewrite length_of_pos; [done|]. unfold pos_ok.
    pose proof (has_bounds _ _ _ Hw2) as [_ Hb2]. destruct (holding_wpos _ _ Hs) as [Hwp _].
    pose proof Hs as ((_ & _ & _ & Hlim) & _). rewrite length_app, Nat2Z.inj_add. lia.
  - destruct Hs as (H1 & H2 & H3 & H4 & H5 & H6). by split_and!.
Qed.

(** Filters with their retain handling and QoS. *)
Definition entry : Type := list Z * Z * Z.
Definition entry_wire (opts : bool) (x : entry) : list Z :=
  str_wire x.1.1 ++ if opts then [options v x.1.2 x.2] else [].
Definition entry_ok (x : entry) : Prop :=
  filter_accepted x.1.1 /\ 0 <= x.1.2 <= 2 /\ 0 <= x.2 <= 2.
Definition entry_sub (opts : bool) (x : entry) : rrr_mqtt_subscription :=
  sub_of (if opts then if is_five v then x.1.2 else 0 else 0) (if opts then x.2 else 0) x.1.1.

(** The packet [q] is [p] with other subscriptions. *)
Definition with_subs (p q : rrr_mqtt_p) (b : rrr_mqtt_p_sub_usub) (c : rrr_mqtt_subscription_collection) : Prop :=
  type_properties q = type_properties p /\ protocol_version q = protocol_version p /\ payload q = payload p /\
  packet_identifier q = packet_identifier p /\
  exists b', body q = Sub_usub b' /\ sub_properties b' = sub_properties b /\ subscriptions b' = c.

Lemma sub_usub_loop_goes pp opts xs : forall fuel p b e, body p = Sub_usub b -> protocol_version p = v ->
  Forall entry_ok xs -> NoDup ((topic_filter <$> subscriptions b) ++ ((fun x => x.1.1) <$> xs)) ->
  Z.of_nat (length (subscriptions b) + length xs) <= RRR_MQTT_SUBSCRIPTION_COLLECTION_MAX ->
  has bytes e (flat_map (entry_wire opts) xs) ->
  size = e + Z.of_nat (length (flat_map (entry_wire opts) xs)) -> 0 <= size < 2 ^ 31 ->
  (length xs < fuel)%nat ->
  goes (payload_at p pp) (sub_usub_loop big alloc_ok alloc_sub alloc_token fuel opts e) (fun r s =>
    r = size /\ exists q, with_subs p q b (subscriptions b ++ (entry_sub opts <$> xs)) /\ payload_at q pp s).
Proof using Type Halloc Hsub Htoken Hv.
  induction xs as [|x xs IH]; intros fuel p b e Hb Epv Hok Hnd Hmax Hw Esize Hsz Hfuel;
    (destruct fuel as [|fuel]; [cbn in Hfuel; lia|]); cbn [sub_usub_loop flat_map] in *.
  - apply goes_check_end; [apply holding_size|]. rewrite (proj2 (Z.ltb_lt _ _)) by (cbn in Esize; lia).
    apply goes_give. intros s Hs. split; [cbn in Esize; lia|]. exists p. split; [|done].
    split_and!; try done. exists b. split_and!; try done. cbn. by rewrite app_nil_r.
  - apply Forall_cons_1 in Hok as [Hx Hxs]. destruct x as [[f retain] qos]. destruct Hx as (Hf & Hr & Hq).
    cbn [fst snd] in *. apply has_app in Hw as [Hw1 Hw2]. rewrite length_app, Nat2Z.inj_add in Esize.
    assert (Z.of_nat (length (str_wire f)) <= Z.of_nat (length (entry_wire opts (f, retain, qos)))) as Hle.
    { unfold entry_wire. rewrite length_app. cbn [fst]. lia. }
    pose proof (str_wire_length f) as Hsl.
    apply goes_check_end; [apply holding_size|]. rewrite (proj2 (Z.ltb_ge _ _)) by lia.
    cbn [fmap list_fmap] in Hnd. cbn [length] in *.
    assert (f ∉ topic_filter <$> subscriptions b) as Hin.
    { intros H. apply NoDup_app in Hnd as (_ & Hnd & _). apply (Hnd f H). constructor. }
    eapply goes_step.
    { eapply parse_subscription_goes; [exact Hb|done|exact Hf|exact Hr|exact Hq|exact Hw1|lia|done| |done|lia].
      by apply NoDup_app in Hnd as [? _]. }
    set (b1 := mk_sub_usub _ _ _). set (p1 := set_body p _).
    eapply goes_conseq; [apply (IH fuel p1 b1); try done|].
    + subst b1. cbn [subscriptions]. rewrite fmap_app, <- app_assoc. exact Hnd.
    + subst b1. cbn [subscriptions]. rewrite length_app. cbn [length]. lia.
    + unfold entry_wire in *. cbn [fst snd] in *. lia.
    + lia.
    + intros r s [-> (q & (H1 & H2 & H2' & H3 & b' & H4 & H5 & H6) & Hs)]. split; [done|]. exists q. split; [|done].
      split_and!; try done. exists b'. split_and!; try done. rewrite H6. subst b1. cbn [subscriptions].
      by rewrite <- app_assoc.
Qed.

(** What is in the packet, with and without the subscriptions. *)
Definition sub_packet (t : rrr_mqtt_p_type_properties) (id : Z) (ps : list item)
    (c : rrr_mqtt_subscription_collection) (q : rrr_mqtt_p) : Prop :=
  type_properties q = t /\ protocol_version q = v /\ payload q = None /\ packet_identifier q = id /\
  exists b, body q = Sub_usub b /\ subscriptions b = c /\
    (is_five v = true -> collection_holds big (sub_properties b) ps).

Lemma sub_usub_header_goes t p pos id ps : type_properties p = t -> protocol_version p = v ->
  payload p = None ->
  body p = Sub_usub (mk_sub_usub None no_properties []) -> id_ok id -> props_ok ps -> Forall item_clean ps ->
  has bytes pos (be_enc 2 id) -> has bytes (pos + 2) (opt_props ps v) ->
  pos + 2 + Z.of_nat (length (opt_props ps v)) <= size ->
  goes (at_ p) (sub_usub_header big alloc_ok pos) (fun r s =>
    r = Some (pos + 2 + Z.of_nat (length (opt_props ps v))) /\ exists q, sub_packet t id ps [] q /\ at_ q s).
Proof using Type Halloc Hv.
  intros Ept Epv Epay Hb Hid Hps Hclean Hw1 Hw2 Hend. unfold sub_usub_header.
  eapply goes_step; [by apply goes_packet_id|]. set (p1 := set_packet_identifier p id).
  assert (protocol_version p1 = v) as Epv1 by done.
  eapply goes_bind.
  { apply (goes_properties Halloc _ _ p1
      (fun c => set_body p1 (Sub_usub (mk_sub_usub None c []))) ps (pos + 2)); try done.
    - by rewrite Epv1.
    - exists no_properties. apply (goes_get_sub_usub _ _ _ _ p1 _ _ _ Hb). by apply goes_give.
    - intros c. by apply (changes_sub_usub _ _ _ _ p1 (mk_sub_usub None no_properties []) set_sub_properties c Hb).
    - by rewrite Epv1.
    - by rewrite Epv1. }
  intros r s [-> (q & Hq & Hcase)]. rewrite Epv1 in *. eexists _, s. split; [done|]. split; [done|].
  exists q. split; [|done]. destruct Hcase as [[Hfive (c & -> & Hc)]|[Hfive ->]].
  - split_and!; try done. eexists. split; [done|]. done.
  - split_and!; try done. eexists. split; [exact Hb|]. split; [done|]. by rewrite Hfive.
Qed.

Lemma entries_count opts xs : (length xs <= length (flat_map (entry_wire opts) xs))%nat.
Proof.
  induction xs as [|x xs IH]; [done|]. cbn [flat_map length]. unfold entry_wire at 1. rewrite !length_app.
  pose proof (str_wire_length x.1.1). lia.
Qed.

Lemma sub_usub_goes (opts : bool) t pos id ps xs :
  type_id t = (if opts then RRR_MQTT_P_TYPE_SUBSCRIBE else RRR_MQTT_P_TYPE_UNSUBSCRIBE) ->
  id_ok id -> props_ok ps -> Forall item_clean ps -> xs <> [] -> Forall entry_ok xs ->
  NoDup ((fun x => x.1.1) <$> xs) -> Z.of_nat (length xs) <= RRR_MQTT_SUBSCRIPTION_COLLECTION_MAX ->
  let wire := be_enc 2 id ++ opt_props ps v ++ flat_map (entry_wire opts) xs in
  has bytes pos wire -> size = pos + Z.of_nat (length wire) -> 0 <= size < 2 ^ 31 ->
  goes (unread (starting (Some v) t) pos)
    (_ ← require_protocol_version; _ ← parse_allocate alloc_sub alloc_packet now;
     rrr_mqtt_parse_subscribe_unsubscribe big alloc_ok alloc_sub alloc_token opts)
    (fun _ => complete (fun q _ => sub_packet t id ps (entry_sub opts <$> xs) q)
                (pos + 2 + Z.of_nat (length (opt_props ps v)))).
Proof using Type Halloc Hsub Hpacket Htoken Hv.
  intros Ht Hid Hps Hclean Hne Hok Hnd Hmax wire Hw Esize Hsz. subst wire.
  pose proof (allocate_spec t ltac:(rewrite Ht; unfold RRR_MQTT_P_TYPE_SUBSCRIBE, RRR_MQTT_P_TYPE_UNSUBSCRIBE;
    destruct opts; lia)) as Ha.
  pose proof (has_bounds _ _ _ Hw) as [Hpos Hlen].
  apply has_app in Hw as [Hw1 Hw]. apply has_app in Hw as [Hw2 Hw3]. rewrite !length_app, length_be_enc in *.
  change (Z.of_nat 2) with 2 in *. rewrite !Nat2Z.inj_add in *. change (Z.of_nat 2) with 2 in *.
  apply goes_begin_unread; [exact Ha|]. intros p (Ept & Epv & Epay & Hbody).
  assert (body p = Sub_usub (mk_sub_usub None no_properties [])) as Hb.
  { destruct Hbody as [->|[E _]]; [rewrite Ht; by destruct opts|].
    rewrite Ht in E. by destruct opts. }
  apply (goes_header_payload _ _ _ _ _ (sub_packet t id ps [])); [lia|lia| |].
  { apply sub_usub_header_goes; try done. lia. }
  intros q (Eq1 & Eq2 & Eq2' & Eq3 & b & Eb & Ec & Hprops). unfold sub_usub_payload.
  apply goes_check_end; [apply holding_size|].
  assert (0 < Z.of_nat (length (flat_map (entry_wire opts) xs))) as Hpos2.
  { destruct xs as [|x xs]; [done|]. cbn [flat_map]. unfold entry_wire at 1. rewrite !length_app.
    pose proof (str_wire_length x.1.1). lia. }
  apply goes_stop_if; [lia|]. apply goes_ask. intros s0 Hs0. destruct (holding_wpos _ _ Hs0) as [Hwp _].
  intros s [Hs _]. refine ((_ : goes (payload_at q (pos + 2 + Z.of_nat (length (opt_props ps v)))) _ _) s Hs).
  clear s Hs Hs0. eapply goes_bind.
  { apply (sub_usub_loop_goes _ opts xs _ q b); try done; rewrite ?Ec; cbn [fmap list_fmap app]; try done.
    - lia.
    - unfold rounds. pose proof (entries_count opts xs). lia. }
  intros r s [-> (q' & (H1 & H2 & H2' & H3 & b' & H4 & H5 & H6) & Hs)].
  refine ((_ : goes (payload_at q' _) _ _) s Hs).
  apply goes_verify_at_end; [apply holding_size|done|]. intros s' Hs'. apply (goes_parse_done (fun q _ => sub_packet t id ps (entry_sub opts <$> xs) q) q').
  split; [done|]. split_and!; try congruence. exists b'. split_and!; try done.
  - by rewrite H6, Ec.
  - by rewrite H5.
Qed.

(** *** CONNACK *)

Lemma connack_goes t pos cf reason ps r : type_id t = RRR_MQTT_P_TYPE_CONNACK -> cf = 0 \/ cf = 1 ->
  props_ok ps -> Forall item_clean ps ->
  (if is_five v then rrr_mqtt_p_reason_get_v5 reason
   else rrr_mqtt_p_reason_get_v31 (reason_v31 reason)) = Some r ->
  v5_reason r = reason -> for_connack r <> 0 ->
  has bytes pos (message_wire v (M_connack cf reason ps)) ->
  size = pos + Z.of_nat (length (message_wire v (M_connack cf reason ps))) -> 0 <= size < 2 ^ 32 ->
  goes (unread (starting (Some v) t) pos) (rrr_mqtt_parse_connack big alloc_ok alloc_sub alloc_packet now)
    (fun _ => complete (fun q _ => says t (M_connack cf reason ps) q) size).
Proof using Type Halloc Hsub Hpacket Hv.
  intros Ht Hcf Hps Hclean Hr Er Hfor Hwire Esize Hsz. pose proof (has_bounds _ _ _ Hwire) as [Hpos _].
  pose proof (allocate_spec t ltac:(rewrite Ht; by unfold RRR_MQTT_P_TYPE_CONNACK)) as Ha.
  assert (message_wire v (M_connack cf reason ps) =
    [cf] ++ [if is_five v then reason else reason_v31 reason] ++ opt_props ps v) as Ew.
  { unfold opt_props. cbn. by destruct (is_five v). }
  rewrite Ew in *. apply has_app in Hwire as [Hw1 Hw]. apply has_app in Hw as [Hw2 Hw3].
  rewrite !length_app, !Nat2Z.inj_add in *. cbn [length] in *. change (Z.of_nat 1) with 1 in *.
  apply (goes_header_payload _ _ _ _ size (says t (M_connack cf reason ps))); [lia|lia| |].
  2:{ intros q Hq. by apply goes_no_payload. }
  apply goes_begin; [exact Ha|]. intros p (Ept & Epv & Epay & Hbody).
  assert (body p = Connack (mk_connack 0 0 no_properties)) as Hb.
  { destruct Hbody as [->|[E _]]; [by rewrite Ht|]. by rewrite Ht in E. }
  eapply goes_u8; [exact Hw1|].
  eapply goes_get_connack; [exact Hb|]. cbv zeta.
  eapply goes_step; [apply changes_body|]. cbn [session_present connack_properties ack_flags].
  set (b1 := mk_connack _ _ _). set (p1 := set_body p _).
  apply goes_stop_if; [subst b1; by destruct Hcf as [->| ->]|].
  eapply goes_u8; [exact Hw2|].
  eapply goes_reason_struct; [change (protocol_version p1) with (protocol_version p); by rewrite Epv| |exact Hfor|].
  { change (protocol_version p1) with (protocol_version p). rewrite Epv. rewrite <- Hr. by destruct (is_five v). }
  rewrite Er. set (p2 := set_reason_v5 p1 reason (Some r)).
  assert (protocol_version p2 = v) as Epv2 by done. eapply goes_bind.
  { apply (goes_properties Halloc _ _ p2
      (fun c => set_body p2 (Connack (mk_connack cf (session_present b1) c))) ps (pos + 1 + 1)); try done.
    - by rewrite Epv2.
    - exists no_properties. apply (goes_get_connack _ _ _ _ p2 b1); [done|]. by apply goes_give.
    - intros c. apply (goes_get_connack _ _ _ _ p2 b1); [done|]. apply changes_body.
    - by rewrite Epv2.
    - rewrite Epv2. lia. }
  intros a s [-> (q & Hq & Hcase)]. rewrite Epv2 in *. eexists _, s. split; [done|].
  split; [f_equal; lia|]. exists q. split; [|done].
  destruct Hcase as [[Hfive (c & -> & Hc)]|[Hfive ->]]; unfold says, represents, RRR_MQTT_P_GET_TYPE; cbn.
  - rewrite Ept, Ht, Epv. by split_and!.
  - rewrite Ept, Ht, Epv, Hfive. by split_and!.
Qed.

(** *** PINGREQ, PINGRESP and DISCONNECT *)

Lemma ping_goes t pos : type_id t = RRR_MQTT_P_TYPE_PINGREQ \/ type_id t = RRR_MQTT_P_TYPE_PINGRESP ->
  size = pos -> 0 <= size < 2 ^ 32 ->
  goes (unread (starting (Some v) t) pos)
    (header_and_payload (ping_header alloc_sub alloc_packet now) (fun _ => parse_done))
    (fun _ => complete (fun q _ => says t (M_ping (type_id t)) q) size).
Proof using Type Hsub Hpacket.
  intros Ht Esize Hsz.
  pose proof (allocate_spec t ltac:(unfold RRR_MQTT_P_TYPE_PINGREQ, RRR_MQTT_P_TYPE_PINGRESP in Ht; lia)) as Ha.
  apply (goes_header_payload _ _ _ _ size (says t (M_ping (type_id t)))); [lia|lia| |].
  - apply goes_begin; [exact Ha|]. intros p (Ept & Epv & Epay & Hbody).
    assert (body p = Plain) as Hb.
    { destruct Hbody as [->|[E _]]; [by destruct Ht as [->| ->]|]. rewrite E in Ht. by destruct Ht. }
    assert (says t (M_ping (type_id t)) p) as Hp.
    { unfold says, represents, RRR_MQTT_P_GET_TYPE. by rewrite Hb, Ept. }
    apply goes_verify_at_end; [apply holding_size|done|].
    apply goes_give. intros s Hs. subst pos. split; [done|]. by exists p.
  - intros q Hq s Hs. by apply (goes_parse_done (fun q _ => says t (M_ping (type_id t)) q) q).
Qed.

(** *** CONNECT *)

Lemma goes_version_allocate {B} w t (k : parser B) R :
  (exists p, type_allocate alloc_sub alloc_packet now t v = Ret (Some p) /\ new_packet t p) ->
  (forall p, new_packet t p -> goes (at_ p) k R) ->
  goes (starting w t) (_ ← modify (fun s => set_version s (Some v));
                       _ ← parse_allocate alloc_sub alloc_packet now; k) R.
Proof.
  intros Ha Hk s (o & Hs & Ho & Hw & Ht).
  apply (goes_allocate alloc_sub alloc_packet now t k R (set_version s (Some v)) o Ha); try done.
  intros p s0 Hp Hs0. by apply (Hk p Hp s0).
Qed.

(** The flags that are accepted. *)
Definition connect_flags_accepted (f : Z) : Prop :=
  byte_ok f /\ Z.testbit f 0 = false /\
  (has_will f = false -> Z.testbit f 3 = false /\ Z.testbit f 4 = false /\ Z.testbit f 5 = false) /\
  (Z.testbit f 3 && Z.testbit f 4 = false) /\
  (is_five v = false -> has_pass f = true -> has_user f = true).

Lemma connect_flags_pass b f : connect_flags b = f -> connect_flags_accepted f ->
  negb (RRR_MQTT_P_CONNECT_GET_FLAG_RESERVED b =? 0) = false /\
  (RRR_MQTT_P_CONNECT_GET_FLAG_WILL b =? 0) &&
    (negb (RRR_MQTT_P_CONNECT_GET_FLAG_WILL_QOS b =? 0) ||
     negb (RRR_MQTT_P_CONNECT_GET_FLAG_WILL_RETAIN b =? 0)) = false /\
  (v_id v <? RRR_MQTT_VERSION_5) && ((RRR_MQTT_P_CONNECT_GET_FLAG_PASSWORD b =? 1) &&
    (RRR_MQTT_P_CONNECT_GET_FLAG_USER_NAME b =? 0)) = false /\
  (2 <? RRR_MQTT_P_CONNECT_GET_FLAG_WILL_QOS b) = false.
Proof using Type Hv.
  unfold RRR_MQTT_P_CONNECT_GET_FLAG_WILL, RRR_MQTT_P_CONNECT_GET_FLAG_USER_NAME,
    RRR_MQTT_P_CONNECT_GET_FLAG_PASSWORD, RRR_MQTT_P_CONNECT_GET_FLAG_RESERVED,
    RRR_MQTT_P_CONNECT_GET_FLAG_WILL_QOS, RRR_MQTT_P_CONNECT_GET_FLAG_WILL_RETAIN.
  intros -> (Hb & H0 & Hw & Hq & Hp). unfold has_will, has_pass, has_user in *.
  apply (all_bytes_spec (fun f => implb (negb (Z.testbit f 0) &&
      implb (negb (Z.testbit f 2)) (negb (Z.testbit f 3 || Z.testbit f 4 || Z.testbit f 5)) &&
      negb (Z.testbit f 3 && Z.testbit f 4))
    ((((1 <<< 0) &&& f) =? 0) &&
     negb (((((1 <<< 2) &&& f) >>> 2) =? 0) &&
       (negb (((((1 <<< 4) ||| (1 <<< 3)) &&& f) >>> 3) =? 0) || negb ((((1 <<< 5) &&& f) >>> 5) =? 0))) &&
     negb (2 <? ((((1 <<< 4) ||| (1 <<< 3)) &&& f) >>> 3)) &&
     Bool.eqb ((((1 <<< 6) &&& f) >>> 6) =? 1) (Z.testbit f 6) &&
     Bool.eqb ((((1 <<< 7) &&& f) >>> 7) =? 0) (negb (Z.testbit f 7))))) in Hb; [|vm_compute; reflexivity].
  cbn beta in Hb. rewrite H0, Hq in Hb. cbn [negb andb] in Hb.
  destruct (implb (negb (Z.testbit f 2)) _) eqn:Ei.
  2:{ destruct (Z.testbit f 2); [done|]. destruct Hw as (E3 & E4 & E5); [done|]. by rewrite E3, E4, E5 in Ei. }
  cbn [andb implb] in Hb. rewrite !andb_true_iff, !negb_true_iff in Hb. destruct Hb as ((((-> & ->) & ->) & Eu) & Ep).
  apply Bool.eqb_prop in Eu, Ep. rewrite Eu, Ep. split_and!; try done.
  unfold is_five, RRR_MQTT_VERSION_5 in *. destruct (Z.ltb_spec (v_id v) 5); [|done]. cbn [andb].
  rewrite (proj2 (Z.eqb_neq _ _)) in Hp by lia. destruct (Z.testbit f 6); [|done]. by rewrite Hp.
Qed.

(** A packet and its body while the fields are filled in. *)
Definition connecting (t : rrr_mqtt_p_type_properties) (p : rrr_mqtt_p) (b : rrr_mqtt_p_connect) : Prop :=
  type_properties p = t /\ protocol_version p = v /\ payload p = None /\ body p = Connect b.

Lemma connecting_set t p b b' : connecting t p b -> connecting t (set_body p (Connect b')) b'.
Proof. by intros (? & ? & ? & ?). Qed.

(** The header up to the keep alive time. *)
Lemma connect_header_goes w t pos name f keep ps : type_id t = RRR_MQTT_P_TYPE_CONNECT ->
  rrr_mqtt_p_get_protocol_version (v_id v) = Some v -> v_name v = Some name ->
  Z.of_nat (length name) <= 6 -> (0 ∉ name) -> toupper <$> name = name -> byte_ok (v_id v) ->
  connect_flags_accepted f -> u16_ok keep -> props_ok ps -> Forall item_clean ps ->
  let wire := str_wire name ++ [v_id v] ++ [f] ++ be_enc 2 keep ++ opt_props ps v in
  has bytes pos wire -> pos + Z.of_nat (length wire) <= size ->
  goes (starting w t) (connect_header big alloc_ok alloc_sub alloc_packet now pos) (fun r s =>
    r = Some (pos + Z.of_nat (length wire)) /\ exists p,
      (exists b, connecting t p b /\ connect_flags b = f /\ keep_alive b = keep /\
         (is_five v = true -> collection_holds big (connect_properties b) ps)) /\ at_ p s).
Proof using Type Halloc Hsub Hpacket Hv.
  intros Ht Hget Ename Hlen Hz Hup Hvb Hf Hk Hps Hclean wire Hw Hend. subst wire.
  pose proof (allocate_spec t ltac:(rewrite Ht; by unfold RRR_MQTT_P_TYPE_CONNECT)) as Ha.
  unfold str_wire in *. rewrite <- !app_assoc in Hw. do 5 (apply has_app in Hw as [? Hw]).
  repeat rewrite length_app in *. rewrite !length_be_enc in *. cbn [length] in *.
  change (Z.of_nat 2) with 2 in *. change (Z.of_nat 1) with 1 in *. rewrite !Nat2Z.inj_add in *.
  change (Z.of_nat 2) with 2 in *. change (Z.of_nat 1) with 1 in *.
  assert (forall s, starting w t s -> exists o, holding bytes size flags 0 o s) as Hst by (intros s (o & ? & _); by exists o).
  unfold connect_header. eapply goes_u16_from; [exact Hst| |eassumption|]; [lia|].
  apply goes_stop_if; [lia|]. pose proof (has_bounds _ _ _ H0) as [_ Hin].
  eapply goes_prepare; [exact Hst|done|]. apply (goes_call _ _ _ name).
  { intros s Hs. apply read_bytes_here. destruct (Hst s Hs) as [o Ho]. by eapply holding_here. }
  eapply goes_u8_from; [exact Hst|eassumption|]. rewrite Hget. apply (goes_call _ _ _ 0).
  { intros s _. unfold rrr_mqtt_parse_protocol_version_validate_name. rewrite cstr_id, Ename by done.
    rewrite (proj2 (Z.ltb_ge _ _)) by lia. rewrite Hup. unfold strcmp_eq. by rewrite bool_decide_true. }
  apply goes_stop_if; [done|]. apply goes_version_allocate; [exact Ha|]. intros p (Ept & Epv & Epay & Hbody).
  assert (exists b, body p = Connect b) as [b Hb].
  { destruct Hbody as [->|[E _]]; [rewrite Ht; by eexists|]. by rewrite Ht in E. }
  eapply goes_u8; [eassumption|]. eapply goes_step; [by eapply changes_connect|].
  set (b1 := set_connect_flags b f). set (p1 := set_body p _). eapply goes_get_connect; [done|].
  destruct (connect_flags_pass b1 f eq_refl Hf) as (E1 & E2 & E3 & E4).
  apply goes_stop_if; [done|]. apply goes_stop_if; [done|]. apply goes_get_packet.
  apply goes_stop_if; [change (protocol_version p1) with (protocol_version p); by rewrite Epv|].
  apply goes_stop_if; [done|]. eapply goes_u16; [|eassumption|]; [done|].
  eapply goes_step; [by eapply changes_connect|]. set (b2 := set_keep_alive b1 keep). set (p2 := set_body p1 _).
  assert (protocol_version p2 = v) as Epv2 by done. eapply goes_bind.
  { apply (goes_properties Halloc _ _ p2 (fun c => set_body p2 (Connect (set_connect_properties b2 c))) ps); try done.
    - by rewrite Epv2.
    - exists (connect_properties b2). apply (goes_get_connect _ _ _ _ p2 b2); [done|]. by apply goes_give.
    - intros c. by apply changes_connect.
    - by rewrite Epv2.
    - rewrite Epv2. lia. }
  intros r s [-> (q & Hq & Hcase)]. rewrite Epv2 in *. eexists _, s. split; [done|].
  split; [f_equal; lia|]. exists q. split; [|done].
  destruct Hcase as [[Hfive (c & -> & Hc)]|[Hfive ->]].
  - exists (set_connect_properties b2 c). by split_and!.
  - exists b2. split_and!; try done. by rewrite Hfive.
Qed.

Lemma goes_nullsafe pp put p q e bs : has bytes e (str_wire bs) -> Z.of_nat (length bs) <= 0xffff ->
  e + 2 + Z.of_nat (length bs) <= size ->
  goes (payload_at p pp) (put (Some bs)) (fun a s => a = tt /\ payload_at q pp s) ->
  goes (payload_at p pp) (blob_nullsafe big alloc_ok put e) (fun r s =>
    r = e + Z.of_nat (length (str_wire bs)) /\ payload_at q pp s).
Proof using Type Halloc.
  intros Hw Hl Hend Hput. unfold blob_nullsafe. pose proof (str_wire_length bs) as Hsl.
  eapply (goes_call _ _ _ (RRR_MQTT_OK, Some bs, 2 + Z.of_nat (length bs), Z.of_nat (length bs))).
  - intros s Hs. destruct (holding_wpos _ _ Hs) as [Hwp Hts]. pose proof (has_bounds _ _ _ Hw) as [_ Hin].
    pose proof (holding_here _ _ _ _ _ _ _ _ Hs Hw) as Hh. unfold str_wire in Hh.
    apply bytes_here_app in Hh as [Hh1 Hh2]. rewrite length_be_enc in Hh2. change (Z.of_nat 2) with 2 in Hh2.
    unfold rrr_mqtt_parse_blob_nullsafe, beyond. rewrite (proj2 (Z.ltb_ge _ _)) by lia.
    rewrite (read_u16_here big s e (Z.of_nat (length bs))) by (done || lia). cbn [mbind outcome_bind].
    rewrite !(proj2 (Z.ltb_ge _ _)) by lia. rewrite (read_bytes_here s _ bs) by done. cbn [mbind outcome_bind].
    unfold rrr_nullsafe_str_new. rewrite !Halloc. cbn [negb andb]. by rewrite andb_false_r.
  - eapply goes_step; [exact Hput|]. apply goes_stop_if; [done|]. apply goes_give.
    intros s Hs. split; [lia|done].
Qed.

(** A string of the payload that goes to a field. *)
Lemma goes_connect_utf8 pp t p b set min e bs : connecting t p b -> has bytes e (str_wire bs) ->
  utf8_text bs -> Z.of_nat (length bs) <= 0xffff -> min <= Z.of_nat (length bs) ->
  e + Z.of_nat (length (str_wire bs)) <= size ->
  goes (payload_at p pp) (parse_utf8 big alloc_ok (put_connect set) min e) (fun r s =>
    r = e + Z.of_nat (length (str_wire bs)) /\
    payload_at (set_body p (Connect (set b (Some (bs ++ [0]))))) pp s).
Proof using Type Halloc.
  intros (_ & _ & _ & Hb) Hw Ht Hl Hmin Hend. pose proof (str_wire_length bs).
  eapply (goes_utf8 Halloc); [done..|lia|]. by eapply changes_connect.
Qed.

(** Fields other than those of the will are kept. *)
Definition same_but_will (b b' : rrr_mqtt_p_connect) : Prop :=
  connect_flags b' = connect_flags b /\ keep_alive b' = keep_alive b /\
  connect_properties b' = connect_properties b /\ client_identifier b' = client_identifier b /\
  username b' = username b /\ password b' = password b.

Lemma connect_will_goes pp t p b e wps wt wm : connecting t p b -> props_ok wps -> Forall item_clean wps ->
  str_ok wt -> utf8_text wt -> rrr_mqtt_topic_validate_name (Some wt) = Ret 0 ->
  Z.of_nat (length wm) <= 0xffff ->
  let wire := opt_props wps v ++ str_wire wt ++ str_wire wm in
  has bytes e wire -> e + Z.of_nat (length wire) <= size ->
  goes (payload_at p pp) (connect_will big alloc_ok e) (fun r s =>
    r = e + Z.of_nat (length wire) /\ exists q b', payload_at q pp s /\ connecting t q b' /\
      same_but_will b b' /\ (is_five v = true -> collection_holds big (will_properties b') wps) /\
      will_topic b' = Some (wt ++ [0]) /\ will_message b' = Some wm).
Proof using Type Halloc Hv.
  intros Hc Hps Hclean (Hne & Hz & Hl & _) Htext Hvalid Hlm wire Hw Hend. subst wire.
  apply has_app in Hw as [Hw1 Hw]. apply has_app in Hw as [Hw2 Hw3]. rewrite !length_app, !Nat2Z.inj_add in *.
  pose proof (str_wire_length wt). pose proof (str_wire_length wm).
  assert (length wt <> 0%nat) by (by destruct wt). pose proof Hc as (Ept & Epv & Epay & Hb).
  unfold connect_will. eapply goes_bind.
  { apply (goes_properties Halloc _ _ p (fun c => set_body p (Connect (set_will_properties b c))) wps e); try done.
    - by rewrite Epv.
    - exists (will_properties b). apply (goes_get_connect _ _ _ _ p b); [done|]. by apply goes_give.
    - intros c. by apply changes_connect.
    - by rewrite Epv.
    - rewrite Epv. lia. }
  intros r s [-> (q & Hq & Hcase)]. rewrite Epv in *.
  assert (exists b', connecting t q b' /\ same_but_will b b' /\
    (is_five v = true -> collection_holds big (will_properties b') wps)) as (b' & Hc' & Hsame & Hprops).
  { destruct Hcase as [[Hfive (c & -> & Hc')]|[Hfive ->]].
    - exists (set_will_properties b c). split; [by eapply connecting_set|]. done.
    - exists b. split; [done|]. split; [done|]. by rewrite Hfive. }
  refine ((_ : goes (payload_at q pp) _ _) s Hq). clear s Hq Hcase.
  eapply goes_step; [apply (goes_connect_utf8 pp t q b'); try done; lia|].
  set (b2 := set_will_topic b' _). set (q2 := set_body q _). eapply goes_get_connect; [done|].
  apply (goes_call _ _ _ 0).
  { intros s _. cbn [will_topic b2 set_will_topic]. rewrite c_string_terminated. cbn [mbind outcome_bind].
    rewrite cstr_app by done. exact Hvalid. }
  apply goes_stop_if; [done|]. eapply goes_conseq; [apply (goes_nullsafe pp _ q2 (set_body q2 (Connect
    (set_will_message b2 (Some wm)))) _ wm); [done|done|lia|by apply changes_connect]|].
  intros r s [-> Hs]. split; [lia|]. exists (set_body q2 (Connect (set_will_message b2 (Some wm)))), (set_will_message b2 (Some wm)).
  split; [done|]. split; [by eapply connecting_set, connecting_set|]. split; [exact Hsame|]. done.
Qed.

Lemma connect_field_goes pp t p b set e bs : connecting t p b -> str_ok bs -> utf8_text bs ->
  has bytes e (str_wire bs) -> e + Z.of_nat (length (str_wire bs)) <= size ->
  goes (payload_at p pp) (connect_field big alloc_ok set e) (fun r s =>
    r = e + Z.of_nat (length (str_wire bs)) /\
    payload_at (set_body p (Connect (set b (Some (bs ++ [0]))))) pp s).
Proof using Type Halloc.
  intros Hc (Hne & _ & Hl & _) Ht Hw Hend. pose proof (str_wire_length bs).
  assert (length bs <> 0%nat) by (by destruct bs).
  unfold connect_field. apply goes_check_end; [apply holding_size|]. apply goes_stop_if; [lia|].
  apply (goes_connect_utf8 pp t p b); try done. lia.
Qed.

(** The strings that are read, and where the flags ask for them. *)
Lemma connect_payload_goes t p b e f id wps wt wm user pass (F : rrr_mqtt_p -> bool -> Prop) :
  connecting t p b -> connect_flags b = f -> byte_ok f ->
  (id = [] \/ str_ok id) -> utf8_text id ->
  (has_will f = true -> props_ok wps /\ Forall item_clean wps /\ str_ok wt /\ utf8_text wt /\
     rrr_mqtt_topic_validate_name (Some wt) = Ret 0 /\ Z.of_nat (length wm) <= 0xffff) ->
  (has_user f = true -> str_ok user /\ utf8_text user) ->
  (has_pass f = true -> str_ok pass /\ utf8_text pass) ->
  let wire := str_wire id ++
    (if has_will f then opt_props wps v ++ str_wire wt ++ str_wire wm else []) ++
    (if has_user f then str_wire user else []) ++ (if has_pass f then str_wire pass else []) in
  has bytes e wire -> size = e + Z.of_nat (length wire) ->
  (forall q b' m, connecting t q b' -> connect_flags b' = f -> keep_alive b' = keep_alive b ->
     connect_properties b' = connect_properties b -> client_identifier b' = Some (id ++ [0]) ->
     (has_will f = true -> (is_five v = true -> collection_holds big (will_properties b') wps) /\
        will_topic b' = Some (wt ++ [0]) /\ will_message b' = Some wm) ->
     (has_user f = true -> username b' = Some (user ++ [0])) ->
     (has_pass f = true -> password b' = Some (pass ++ [0])) -> F q m) ->
  goes (payload_at p e) (connect_payload big alloc_ok e) (fun _ => complete F e).
Proof using Type Halloc Hv.
  intros Hc Ef Hbyte Hid Htid Hwill Huser Hpass wire Hw Esize HF. subst wire.
  apply has_app in Hw as [Hw1 Hw]. apply has_app in Hw as [Hw2 Hw]. apply has_app in Hw as [Hw3 Hw4].
  rewrite !length_app, !Nat2Z.inj_add in Esize.
  assert (Z.of_nat (length id) <= 0xffff) as Hlid by (destruct Hid as [->|(_ & _ & ? & _)]; [cbn; lia|done]).
  unfold connect_payload. eapply goes_step; [apply (goes_connect_utf8 e t p b); try done; lia|].
  set (b1 := set_client_identifier b _). set (p1 := set_body p _).
  assert (connecting t p1 b1) as Hc1 by (by eapply connecting_set).
  eapply goes_get_connect; [done|]. destruct (connect_flag_bits b1 f Ef Hbyte) as (-> & -> & ->).
  eapply (goes_bind _ _ _ (fun r s => r = e + Z.of_nat (length (str_wire id)) + Z.of_nat (length
      (if has_will f then opt_props wps v ++ str_wire wt ++ str_wire wm else [])) /\
    exists q b', payload_at q e s /\ connecting t q b' /\ same_but_will b1 b' /\
      (has_will f = true -> (is_five v = true -> collection_holds big (will_properties b') wps) /\
        will_topic b' = Some (wt ++ [0]) /\ will_message b' = Some wm))).
  { destruct (has_will f).
    - destruct (Hwill eq_refl) as (W1 & W2 & W3 & W4 & W5 & W6).
      eapply goes_conseq; [apply (connect_will_goes e t p1 b1); try done|].
      + rewrite !length_app, !Nat2Z.inj_add in *. lia.
      + intros r s [-> (q & b' & H1 & H2 & H3 & H4)]. split; [done|]. exists q, b'. done.
    - apply goes_give. intros s Hs. split; [cbn [length]; lia|]. by exists p1, b1. }
  intros r s [-> (q & b2 & Hs & Hc2 & (S1 & S2 & S3 & S4 & S5 & S6) & Hw2')].
  refine ((_ : goes (payload_at q e) _ _) s Hs). clear s Hs.
  apply (goes_step _ (payload_at (if has_user f then set_body q (Connect (set_username b2 (Some (user ++ [0])))) else q) e)
    _ _ (e + Z.of_nat (length (str_wire id)) + Z.of_nat (length
      (if has_will f then opt_props wps v ++ str_wire wt ++ str_wire wm else [])) +
      Z.of_nat (length (if has_user f then str_wire user else [])))).
  { destruct (has_user f).
    - destruct (Huser eq_refl). apply (connect_field_goes e t q b2); try done. lia.
    - apply goes_give. intros s Hs. split; [cbn [length]; lia|done]. }
  set (q3 := if has_user f then _ else _). set (b3 := if has_user f then set_username b2 (Some (user ++ [0])) else b2).
  assert (connecting t q3 b3) as Hc3.
  { subst q3 b3. destruct (has_user f); [by eapply connecting_set|done]. }
  apply (goes_step _ (payload_at (if has_pass f then set_body q3 (Connect (set_password b3 (Some (pass ++ [0])))) else q3) e)
    _ _ size).
  { destruct (has_pass f).
    - destruct (Hpass eq_refl). eapply goes_conseq; [apply (connect_field_goes e t q3 b3); try done; lia|].
      intros r s [-> Hs]. split; [lia|done].
    - apply goes_give. intros s Hs. split; [cbn [length] in Esize; lia|done]. }
  apply goes_verify_at_end; [apply holding_size|done|]. set (q4 := if has_pass f then _ else _).
  set (b4 := if has_pass f then set_password b3 (Some (pass ++ [0])) else b3).
  assert (connecting t q4 b4) as Hc4.
  { subst q4 b4. destruct (has_pass f); [by eapply connecting_set|done]. }
  intros s Hs. apply (goes_parse_done F q4). split; [done|]. apply (HF q4 b4); [done|..].
  all: subst b4 b3; cbn in S1, S2, S3, S4; destruct (has_user f), (has_pass f); cbn; congruence || auto.
Qed.

(** What is asked of the bytes of CONNECT. *)
Definition connect_accepted (f : Z) (ps : list item) (id : list Z) (wps : list item)
    (wt wm user pass : list Z) : Prop :=
  rrr_mqtt_p_get_protocol_version (v_id v) = Some v /\ connect_flags_accepted f /\
  Forall item_clean ps /\ utf8_text id /\
  (has_will f = true -> Forall item_clean wps /\ utf8_text wt /\ rrr_mqtt_topic_validate_name (Some wt) = Ret 0) /\
  (has_user f = true -> utf8_text user) /\ (has_pass f = true -> utf8_text pass).

Lemma version_name : rrr_mqtt_p_get_protocol_version (v_id v) = Some v ->
  exists name, v_name v = Some name /\ Z.of_nat (length name) <= 6 /\ (0 ∉ name) /\ toupper <$> name = name /\
    byte_ok (v_id v).
Proof.
  clear Hv. generalize (v_id v) at 1. intros id. unfold rrr_mqtt_p_get_protocol_version, protocol_versions.
  cbn [protocol_version_loop v_name v_id]. unfold byte_ok.
  repeat case_match; intros [= E]; rewrite <- E; (eexists; split; [done|]; split; [cbn; lia|]; split;
    [by apply (bool_decide_unpack _)|]; split; [reflexivity|];
    cbn; unfold RRR_MQTT_VERSION_3_1, RRR_MQTT_VERSION_3_1_1, RRR_MQTT_VERSION_5; lia).
Qed.

Lemma connect_goes w t pos f keep ps id wps wt wm user pass :
  let m := M_connect f keep ps id wps wt wm user pass in
  type_id t = RRR_MQTT_P_TYPE_CONNECT -> message_ok v m -> connect_accepted f ps id wps wt wm user pass ->
  has bytes pos (message_wire v m) -> size = pos + Z.of_nat (length (message_wire v m)) ->
  0 <= size < 2 ^ 32 ->
  exists e, goes (unread (starting w t) pos) (rrr_mqtt_parse_connect big alloc_ok alloc_sub alloc_packet now)
    (fun _ => complete (fun q _ => says t m q) e).
Proof using Type Halloc Hsub Hpacket Hv.
  intros m Ht (Of & Ok & Ops & Oid & _ & _ & Owill & Ouser & Opass) (Av & Af & Aps & Aid & Awill & Auser & Apass)
    Hw Esize Hsz. subst m. destruct (version_name Av) as (name & Ename & Hlen & Hz & Hup & Hvb).
  pose proof (has_bounds _ _ _ Hw) as [Hpos _].
  set (header := str_wire name ++ [v_id v] ++ [f] ++ be_enc 2 keep ++ opt_props ps v).
  set (payload := str_wire id ++
    (if has_will f then opt_props wps v ++ str_wire wt ++ str_wire wm else []) ++
    (if has_user f then str_wire user else []) ++ (if has_pass f then str_wire pass else [])).
  assert (message_wire v (M_connect f keep ps id wps wt wm user pass) = header ++ payload) as Ew.
  { subst header payload. cbn [message_wire]. rewrite Ename. cbn [default]. unfold opt_props.
    rewrite <- !app_assoc. done. }
  rewrite Ew in *. apply has_app in Hw as [Hw1 Hw2]. rewrite length_app, Nat2Z.inj_add in *.
  exists (pos + Z.of_nat (length header)).
  eapply goes_header_payload; [lia|lia|apply (connect_header_goes w t pos name f keep ps); try done; fold header; lia|].
  intros p (b & Hc & Ef & Ek & Hprops).
  apply (connect_payload_goes t p b _ f id wps wt wm user pass); try done.
  - intros W. destruct (Owill W) as (? & ? & _ & ? & _), (Awill W) as (? & ? & ?). by split_and!.
  - auto.
  - auto.
  - fold payload. lia.
  - intros q b' m (H1 & H2 & H2' & H3) Ef' Ek' Ep Eid Ew' Eu Epw. split; [|done].
    split; [unfold RRR_MQTT_P_GET_TYPE; by rewrite H1|]. rewrite H2, H3. rewrite Ef', Ek', Ep, Eid.
    assert (forall o bs, o = Some (bs ++ [0]) -> (0 ∉ bs) -> obj_is o bs) as Hobj by (intros o bs -> ?; by exists []).
    split_and!; try done.
    + right. apply Hobj; [done|]. by destruct Oid as [->|(_ & ? & _)]; [apply not_elem_of_nil|].
    + intros W. destruct (Ew' W) as (? & ? & ?), (Owill W) as (_ & (_ & ? & _) & _). split_and!; auto.
    + intros W. destruct (Ouser W) as (_ & ? & _). auto.
    + intros W. destruct (Opass W) as (_ & ? & _). auto.
Qed.

End Types.

End Packets.

(** * Messages that are read back *)

(** What the parser asks of a message.  SUBACK and UNSUBACK, whose reasons stay in the buffer, and
    DISCONNECT, whose header may be absent, are left out, as are properties of binary data
    ([item_clean]). *)
Definition accepted (v : rrr_mqtt_p_protocol_version) (m : message) : Prop :=
  match m with
  | M_connect f keep ps id wps wt wm user pass => connect_accepted v f ps id wps wt wm user pass
  | M_connack cf reason ps =>
    (cf = 0 \/ cf = 1) /\ Forall item_clean ps /\
    exists r, (if is_five v then rrr_mqtt_p_reason_get_v5 reason
               else rrr_mqtt_p_reason_get_v31 (reason_v31 reason)) = Some r /\
      v5_reason r = reason /\ for_connack r <> 0
  | M_publish f t id ps =>
    qos_of f <= 2 /\ (qos_of f = 0 -> f < 8) /\ utf8_text t /\
    rrr_mqtt_topic_validate_name (Some t) = Ret 0 /\ id_ok id /\ Forall item_clean ps
  | M_ack type id reason ps =>
    id_ok id /\ Forall item_clean ps /\
    (is_five v = true -> exists r, rrr_mqtt_p_reason_get_v5 reason = Some r /\ v5_reason r = reason /\
       reason_allowed type r)
  | M_subscribe id ps subs =>
    id_ok id /\ Forall item_clean ps /\ NoDup subs.*1 /\
    Z.of_nat (length subs) <= RRR_MQTT_SUBSCRIPTION_COLLECTION_MAX /\
    Forall (fun s => filter_accepted s.1) subs
  | M_unsubscribe id ps filters =>
    id_ok id /\ Forall item_clean ps /\ NoDup filters /\
    Z.of_nat (length filters) <= RRR_MQTT_SUBSCRIPTION_COLLECTION_MAX /\ Forall filter_accepted filters
  | M_ping _ => True
  | M_suback _ _ _ _ | M_disconnect _ => False
  end.

(** The low half of the first byte. *)
Definition message_flags (t : rrr_mqtt_p_type_properties) (m : message) : Z :=
  match m with M_publish f _ _ _ => f | _ => t_flags t end.

(** A message with a payload as it is sent. *)
Definition frame (t : rrr_mqtt_p_type_properties) (v : rrr_mqtt_p_protocol_version) (m : message)
    (payload : list Z) : list Z :=
  (16 * message_type m + message_flags t m) ::
  vint (Z.of_nat (length (message_wire v m ++ payload))) ++ message_wire v m ++ payload.

Lemma frame_length t v m payload :
  let n := Z.of_nat (length (message_wire v m ++ payload)) in
  Z.of_nat (length (frame t v m payload)) = 1 + Z.of_nat (length (vint n)) + n.
Proof. cbn. rewrite length_app. lia. Qed.

(** SUBSCRIBE as the loop sees it. *)
Lemma subs_entries v subs :
  Forall (fun s => str_ok s.1 /\ exists retain qos, 0 <= retain <= 2 /\ 0 <= qos <= 2 /\
    s.2 = options v retain qos) subs -> Forall (fun s => filter_accepted s.1) subs ->
  exists xs, Forall entry_ok xs /\ (fun x => x.1.1) <$> xs = subs.*1 /\
    flat_map (entry_wire v true) xs = flat_map (fun s => str_wire s.1 ++ [s.2]) subs /\
    Forall2 (sub_is v) (entry_sub v true <$> xs) subs.
Proof.
  induction subs as [|[f o] subs IH]; intros H1 H2.
  - exists []. by split_and!.
  - apply Forall_cons_1 in H1 as [(_ & retain & qos & Hr & Hq & Eo) H1].
    apply Forall_cons_1 in H2 as [Hf H2]. destruct (IH H1 H2) as (xs & E1 & E2 & E3 & E4).
    cbn [fst snd] in *. subst o. exists ((f, retain, qos) :: xs). split_and!.
    + constructor; [|done]. done.
    + cbn. by rewrite E2.
    + cbn [flat_map]. by rewrite E3.
    + cbn [fmap list_fmap]. constructor; [|done]. unfold sub_is, entry_sub, sub_of, options. cbn.
      destruct (is_five v); split_and!; try done; lia.
Qed.

Lemma filters_entries v filters : Forall filter_accepted filters ->
  exists xs, Forall entry_ok xs /\ (fun x => x.1.1) <$> xs = filters /\
    flat_map (entry_wire v false) xs = flat_map str_wire filters /\
    Forall2 (fun s f => exists o, sub_is v s (f, o)) (entry_sub v false <$> xs) filters.
Proof.
  induction filters as [|f filters IH]; intros H.
  - exists []. by split_and!.
  - apply Forall_cons_1 in H as [Hf H]. destruct (IH H) as (xs & E1 & E2 & E3 & E4).
    exists ((f, 0, 0) :: xs). split_and!.
    + constructor; [|done]. split; [done|]. cbn. lia.
    + cbn. by rewrite E2.
    + cbn [flat_map]. unfold entry_wire at 1. cbn [fst]. by rewrite app_nil_r, E3.
    + cbn [fmap list_fmap]. constructor; [|done]. exists (options v 0 0). unfold sub_is. cbn.
      split_and!; try done; lia.
Qed.

Lemma goes_complete {bytes size flags} P m (F F' : rrr_mqtt_p -> bool -> Prop) e :
  goes P m (fun _ : unit => complete bytes size flags F e) -> (forall q b, F q b -> F' q b) ->
  goes P m (fun _ => complete bytes size flags F' e).
Proof.
  intros H HF. eapply goes_conseq; [exact H|]. intros [] s (q & Hq & Hrest). exists q. auto.
Qed.

Section Back.
Context (big : bool) (alloc_ok alloc_sub alloc_packet : Z -> bool) (alloc_token : nat -> bool) (now : Z).
Context (Halloc : forall n, alloc_ok n = true) (Hsub : forall n, alloc_sub n = true).
Context (Hpacket : forall n, alloc_packet n = true) (Htoken : forall n, alloc_token n = true).

Lemma type_parse_subscribe t : type_id t = RRR_MQTT_P_TYPE_SUBSCRIBE ->
  type_parse big alloc_ok alloc_sub alloc_packet alloc_token now t =
  rrr_mqtt_parse_subscribe big alloc_ok alloc_sub alloc_packet alloc_token now.
Proof. intros E. unfold type_parse. by rewrite E. Qed.

Lemma type_parse_unsubscribe t : type_id t = RRR_MQTT_P_TYPE_UNSUBSCRIBE ->
  type_parse big alloc_ok alloc_sub alloc_packet alloc_token now t =
  rrr_mqtt_parse_unsubscribe big alloc_ok alloc_sub alloc_packet alloc_token now.
Proof. intros E. unfold type_parse. by rewrite E. Qed.

Lemma type_parse_ping t : type_id t = RRR_MQTT_P_TYPE_PINGREQ \/ type_id t = RRR_MQTT_P_TYPE_PINGRESP ->
  type_parse big alloc_ok alloc_sub alloc_packet alloc_token now t =
  header_and_payload (ping_header alloc_sub alloc_packet now) (fun _ => parse_done).
Proof. intros [E|E]; unfold type_parse; by rewrite E. Qed.

Lemma type_parse_goes bytes size v w t m payload pos :
  type_id t = message_type m -> message_ok v m -> accepted v m -> v_id v <= 5 ->
  (w = Some v \/ message_type m = RRR_MQTT_P_TYPE_CONNECT) ->
  (payload = [] \/ message_type m = RRR_MQTT_P_TYPE_PUBLISH) ->
  has bytes pos (message_wire v m ++ payload) ->
  size = pos + Z.of_nat (length (message_wire v m ++ payload)) -> size <= Z.of_nat (length bytes) ->
  Z.of_nat (length bytes) < 2 ^ 31 ->
  exists e, goes (unread (starting bytes size (message_flags t m) v w t) pos)
    (type_parse big alloc_ok alloc_sub alloc_packet alloc_token now t)
    (fun _ => complete bytes size (message_flags t m) (fun q b => says v big t m q /\
       (payload <> [] -> b = true) /\
       (message_type m = RRR_MQTT_P_TYPE_PUBLISH -> e = pos + Z.of_nat (length (message_wire v m)))) e).
Proof using Halloc Hsub Hpacket Htoken.
  intros Ht Hok Hacc Hv Hw Hpay Hb Esize Hin Hlim. pose proof (has_bounds _ _ _ Hb) as [Hpos _].
  assert (payload = [] -> message_wire v m ++ payload = message_wire v m) as Hnil
    by (intros ->; apply app_nil_r).
  destruct m as [f keep ps id wps wt wm user pass|cf reason ps|f tp id ps|type id reason ps
    |id ps subs|id ps filters|type id ps reasons|type|reason]; cbn [message_type] in *;
    try (destruct Hw as [->|?]; [|done || (destruct Hok as [Hok _]; exfalso;
      unfold RRR_MQTT_P_TYPE_PUBACK, RRR_MQTT_P_TYPE_PUBCOMP, RRR_MQTT_P_TYPE_CONNECT in *; lia)]);
    try done.
  - destruct Hpay as [->|?]; [|done]. rewrite app_nil_r in *.
    destruct (connect_goes bytes size (t_flags t) v big alloc_ok Halloc alloc_sub alloc_packet now Hsub Hpacket
      Hv w t pos f keep ps id wps wt wm user pass) as [e He]; try done; [lia|].
    exists e. unfold type_parse. rewrite Ht. by apply (goes_complete _ _ _ _ _ He).
  - destruct Hpay as [->|?]; [|done]. rewrite app_nil_r in *. destruct Hok as (_ & _ & Hps & _).
    unfold type_parse. rewrite Ht.
    destruct Hacc as (Hcf & Hclean & r & Hr & Er & Hfor). exists size.
    eapply goes_complete; [eapply connack_goes; try done; lia|]. done.
  - exists (pos + Z.of_nat (length (message_wire v (M_publish f tp id ps)))).
    destruct Hok as (Hf & Htp & _ & Hps). destruct Hacc as (A1 & A2 & A3 & A4 & A5 & A6).
    apply has_app in Hb as [Hb1 Hb2]. rewrite length_app, Nat2Z.inj_add in Esize.
    cbn [message_flags]. unfold type_parse. rewrite Ht. change (RRR_MQTT_P_TYPE_PUBLISH =? RRR_MQTT_P_TYPE_CONNECT) with false.
    change (RRR_MQTT_P_TYPE_PUBLISH =? RRR_MQTT_P_TYPE_CONNACK) with false. rewrite Z.eqb_refl. cbv iota.
    eapply goes_header_payload; [lia|lia| |].
    + apply publish_header_goes; try done; lia.
    + intros p Hp. eapply goes_complete; [apply (publish_payload_goes bytes size f v big t
        (M_publish f tp id ps) p); try done; lia|]. intros q b [H1 H2]. split; [done|]. split; [|done].
      intros Hne. apply H2. assert (length payload <> 0%nat) by (by destruct payload). lia.
  - destruct Hpay as [->|?]; [|destruct Hok as [Hok _]; exfalso;
      unfold RRR_MQTT_P_TYPE_PUBACK, RRR_MQTT_P_TYPE_PUBCOMP, RRR_MQTT_P_TYPE_PUBLISH in *; lia].
    rewrite app_nil_r in *. destruct Hok as (Hty & _ & _ & Hps). destruct Hacc as (Hid & Hclean & Hreason).
    exists size. unfold type_parse. rewrite Ht. unfold RRR_MQTT_P_TYPE_PUBACK, RRR_MQTT_P_TYPE_PUBCOMP in *.
    rewrite !(proj2 (Z.eqb_neq type _)) by (unfold RRR_MQTT_P_TYPE_CONNECT, RRR_MQTT_P_TYPE_CONNACK,
      RRR_MQTT_P_TYPE_PUBLISH; lia). rewrite !(proj2 (Z.leb_le _ _)) by lia. cbn [andb]. subst type.
    eapply goes_complete; [apply ack_goes; try done; lia|]. intros q b Hq. split; [done|]. split; [done|].
    unfold RRR_MQTT_P_TYPE_PUBLISH. cbn [message_type]. lia.
  - destruct Hpay as [->|?]; [|done]. rewrite app_nil_r in *. destruct Hok as (_ & Hps & Hne & _ & Osubs).
    destruct Hacc as (Hid & Hclean & Hnd & Hmax & Hf).
    destruct (subs_entries v subs Osubs Hf) as (xs & X1 & X2 & X3 & X4). eexists.
    assert (length xs = length subs) as Xl by (apply (f_equal length) in X2; by rewrite !length_fmap in X2).
    cbn [message_wire] in *. rewrite <- X3 in *. fold (opt_props ps v) in *.
    rewrite type_parse_subscribe by done. unfold rrr_mqtt_parse_subscribe.
    eapply goes_complete.
    + eapply (sub_usub_goes bytes size (t_flags t) v big alloc_ok Halloc alloc_sub alloc_packet alloc_token now
        Hsub Hpacket Htoken Hv true t pos id ps xs); [done|done|done|done| |done|by rewrite X2|lia|done|done|lia].
      intros E. rewrite E in Xl. by destruct subs.
    + intros q mv (H1 & H2 & H2' & H3 & b & H4 & H5 & H6). split; [|done]. split; [|done].
      split; [unfold RRR_MQTT_P_GET_TYPE; by rewrite H1|]. rewrite H2, H4, H5. done.
  - destruct Hpay as [->|?]; [|done]. rewrite app_nil_r in *. destruct Hok as (_ & Hps & Hne & _ & Osubs).
    destruct Hacc as (Hid & Hclean & Hnd & Hmax & Hf).
    destruct (filters_entries v filters Hf) as (xs & X1 & X2 & X3 & X4). eexists.
    assert (length xs = length filters) as Xl by (apply (f_equal length) in X2; by rewrite length_fmap in X2).
    cbn [message_wire] in *. rewrite <- X3 in *. fold (opt_props ps v) in *.
    rewrite type_parse_unsubscribe by done. unfold rrr_mqtt_parse_unsubscribe.
    eapply goes_complete.
    + eapply (sub_usub_goes bytes size (t_flags t) v big alloc_ok Halloc alloc_sub alloc_packet alloc_token now
        Hsub Hpacket Htoken Hv false t pos id ps xs); [done|done|done|done| |done|by rewrite X2|lia|done|done|lia].
      intros E. rewrite E in Xl. by destruct filters.
    + intros q mv (H1 & H2 & H2' & H3 & b & H4 & H5 & H6). split; [|done]. split; [|done].
      split; [unfold RRR_MQTT_P_GET_TYPE; by rewrite H1|]. rewrite H2, H4, H5. done.
  - destruct Hpay as [->|?]; [|by destruct Hok as [-> | ->]]. rewrite app_nil_r in *. exists size.
    cbn in Esize. subst type. rewrite type_parse_ping by done.
    destruct Hw as [->|E]; [|rewrite E in Hok; by destruct Hok].
    eapply goes_complete; [apply (ping_goes bytes size (t_flags t) v big alloc_sub alloc_packet now Hsub
      Hpacket t pos); [done|lia|lia]|]. intros q b Hq. split; [done|]. split; [done|].
    cbn [message_type]. intros E. rewrite E in Hok. by destruct Hok.
Qed.

End Back.

(** ** Whole packets *)

Lemma type_table id t : rrr_mqtt_p_get_type_properties id = Ret t -> 1 <= id <= 15 ->
  type_id t = id /\ 0 <= t_flags t < 16 /\ (id = RRR_MQTT_P_TYPE_PUBLISH -> has_reserved_flags t = 0).
Proof.
  intros H Hid. destruct (Z.to_nat id) as [|n] eqn:En; [lia|].
  assert (id = Z.of_nat (S n)) as -> by lia. assert (n < 15)%nat as Hn by lia. clear En Hid.
  do 15 (destruct n as [|n]; [vm_compute in H; injection H as <-; split_and!; done|]). lia.
Qed.

Lemma message_type_range v m : message_ok v m -> 1 <= message_type m <= 15.
Proof.
  destruct m; cbn [message_type message_ok]; unfold RRR_MQTT_P_TYPE_CONNECT, RRR_MQTT_P_TYPE_CONNACK,
    RRR_MQTT_P_TYPE_PUBLISH, RRR_MQTT_P_TYPE_PUBACK, RRR_MQTT_P_TYPE_PUBCOMP, RRR_MQTT_P_TYPE_SUBSCRIBE,
    RRR_MQTT_P_TYPE_UNSUBSCRIBE, RRR_MQTT_P_TYPE_SUBACK, RRR_MQTT_P_TYPE_UNSUBACK, RRR_MQTT_P_TYPE_PINGREQ,
    RRR_MQTT_P_TYPE_PINGRESP, RRR_MQTT_P_TYPE_DISCONNECT; lia.
Qed.

Lemma has_slice bytes pos bs : has bytes pos bs -> slice (Z.to_nat pos) (length bs) bytes = bs.
Proof.
  intros (pre & post & -> & ->). unfold slice. rewrite Nat2Z.id, drop_app_length, take_app_length. done.
Qed.

Lemma frame_bytes t v m payload : message_ok v m -> 0 <= message_flags t m < 16 -> bytes_ok payload ->
  bytes_ok (frame t v m payload).
Proof.
  intros Hok Hf Hb. pose proof (message_type_range v m Hok).
  constructor; [unfold byte_ok; lia|]. apply Forall_app. split; [apply vint_bytes; lia|].
  apply Forall_app. split; [by apply message_wire_bytes|done].
Qed.

(** The fields that are set when the packet is taken out. *)
Lemma represents_out big q m t size : represents big q m ->
  represents big (set_type_flags (set_received_size q size) (message_flags t m)) m.
Proof.
  intros [H1 H2]. split; [done|]. destruct m; cbn [body protocol_version set_type_flags set_received_size] in *;
    destruct (body q); try done. by destruct H2 as (_ & ? & ? & ?).
Qed.

(** The session and the packet in it when the frame of a message is there. *)
Lemma parse_frame big alloc_ok alloc_sub alloc_packet alloc_token now v w t m payload rest :
  (forall n, alloc_ok n = true) -> (forall n, alloc_sub n = true) -> (forall n, alloc_packet n = true) ->
  (forall n, alloc_token n = true) -> rrr_mqtt_p_get_type_properties (message_type m) = Ret t ->
  message_ok v m -> accepted v m -> v_id v <= 5 -> (w = Some v \/ message_type m = RRR_MQTT_P_TYPE_CONNECT) ->
  (payload = [] \/ message_type m = RRR_MQTT_P_TYPE_PUBLISH) -> bytes_ok (payload ++ rest) ->
  Z.of_nat (length (message_wire v m ++ payload)) <= 0xfffffff ->
  Z.of_nat (length (frame t v m payload ++ rest)) < 2 ^ 31 ->
  exists s e, rrr_mqtt_packet_parse big alloc_ok alloc_sub alloc_packet alloc_token now
      (rrr_mqtt_parse_session_update rrr_mqtt_parse_session_init (frame t v m payload ++ rest) w) = Ret s /\
    received (Z.of_nat (length (frame t v m payload))) (message_flags t m) (fun q b => says v big t m q /\
      (payload <> [] -> b = true) /\ (message_type m = RRR_MQTT_P_TYPE_PUBLISH ->
         e = Z.of_nat (length (frame t v m payload)) - Z.of_nat (length payload))) e s.
Proof.
  intros Halloc Hsub Hpacket Htoken Ht Hok Hacc Hv Hw Hpay Hbytes Hlen Hlim.
  destruct (type_table _ _ Ht (message_type_range v m Hok)) as (Hid & Hflags & Hres).
  set (n := Z.of_nat (length (message_wire v m ++ payload))) in *.
  set (bytes := frame t v m payload ++ rest) in *. set (size := 1 + Z.of_nat (length (vint n)) + n).
  assert (Z.of_nat (length (frame t v m payload)) = size) as Esize by apply frame_length. rewrite Esize.
  set (pos := 1 + Z.of_nat (length (vint n))).
  assert (0 <= message_flags t m < 16) as Hmf
    by (destruct m; try exact Hflags; by destruct Hok as [? _]).
  assert (has bytes pos (message_wire v m ++ payload)) as Hhas.
  { exists ((16 * message_type m + message_flags t m) :: vint n), rest. subst bytes pos. unfold frame. fold n.
    cbn [app length]. rewrite <- !app_assoc. split; [done|lia]. }
  destruct (type_parse_goes big alloc_ok alloc_sub alloc_packet alloc_token now Halloc Hsub Hpacket Htoken
    bytes size v w t m payload pos) as [e Hgoes]; try done.
  { subst bytes. rewrite length_app. lia. }
  assert (pos + Z.of_nat (length (message_wire v m)) = size - Z.of_nat (length payload)) as Epos.
  { subst size pos n. rewrite length_app. lia. }
  rewrite Epos in Hgoes.
  epose proof (parse_message bytes size (message_flags t m) v big alloc_ok alloc_sub alloc_packet alloc_token now w t n
    ((message_wire v m ++ payload) ++ rest) _ e Hmf) as Hp.
  rewrite Hid in Hp. edestruct Hp as (s & Es & Hr);
    [done|by apply (message_type_range v)| |lia| | | |done|done|exact Hgoes|by exists s, e].
  - intros Hr. destruct m; try done. by destruct Hr; apply Hres.
  - rewrite length_app. lia.
  - subst bytes. unfold frame. fold n. cbn [app]. by rewrite <- !app_assoc.
  - apply Forall_app in Hbytes as [B1 B2]. apply Forall_app. split; [by apply frame_bytes|done].
Qed.


Lemma publish_message_accepted v : accepted v publish_message.
Proof.
  pose proof (publish_message_ok v) as (_ & _ & _ & Hps & _).
  split; [done|]. split; [done|]. split.
  { exists [97; 47; 98]. split; [|reflexivity]. repeat constructor; unfold scalar; lia. }
  split; [vm_compute; reflexivity|]. split; [unfold id_ok; lia|].
  constructor; [|constructor]. split; [by apply Forall_cons_1 in Hps as [? _]|done].
Qed.


End MqttRoundtrip.
