(* ===== verification/MqttConnection.v ===== *)
(** MQTT connections (mqtt_connection.c): the protocol state of a connection, its
    keep-alive and close-wait timers, sending of packets and the callbacks of the read
    framework.  The rest of the program is a state [W]: [send_push] and
    [send_push_urgent] are the send queue of the transport, [event_handler] is the
    function of the broker or client that connections tell about disconnects and
    packets, which may take the session away from the connection.  [now] is the clock;
    it stands still during one call. *)
From S2P Require Import Prelude Types MsgHead MqttPayloadBuf MqttProperty MqttSubscription.
From S2P Require Import MqttPacket MqttParse MqttParsePacket MqttParseSafe MqttAssemble MqttWire.
From S2P Require Import MqttRoundtrip.
From stdpp Require Import strings.
Open Scope Z_scope.
Open Scope c_scope.

Module MqttConnection.
Import Types MsgHead MqttProperty MqttSubscription MqttPacket MqttPayloadBuf MqttParse.
Import MqttParsePacket MqttAssemble.

(** * Constants and macros *)

Definition RRR_MQTT_CONN_STATE_NEW : Z := 0.
Definition RRR_MQTT_CONN_STATE_SEND_CONNACK_ALLOWED : Z := 1 <<< 0.
Definition RRR_MQTT_CONN_STATE_RECEIVE_CONNACK_ALLOWED : Z := 1 <<< 1.
Definition RRR_MQTT_CONN_STATE_SEND_ANY_ALLOWED : Z := 1 <<< 2.
Definition RRR_MQTT_CONN_STATE_RECEIVE_ANY_ALLOWED : Z := 1 <<< 3.
Definition RRR_MQTT_CONN_STATE_CLOSE_WAIT : Z := 1 <<< 5.
Definition RRR_MQTT_CONN_STATE_CLOSED : Z := 1 <<< 6.

Definition RRR_MQTT_CONN_EVENT_DISCONNECT : Z := 1.
Definition RRR_MQTT_CONN_EVENT_PACKET_PARSED : Z := 2.

Definition RRR_MQTT_CONN_UPDATE_STATE_DIRECTION_IN : Z := 1.
Definition RRR_MQTT_CONN_UPDATE_STATE_DIRECTION_OUT : Z := 2.

Definition RRR_MQTT_P_5_REASON_DISCONNECT_WITH_WILL : Z := 0x04.
Definition RRR_MQTT_P_5_REASON_UNSPECIFIED_ERROR : Z := 0x80.
Definition RRR_MQTT_P_5_REASON_MALFORMED_PACKET : Z := 0x81.
Definition RRR_MQTT_P_5_REASON_PROTOCOL_ERROR : Z := 0x82.
Definition RRR_MQTT_P_5_REASON_KEEP_ALIVE_TIMEOUT : Z := 0x8D.

(** The event handler is set or NULL; sessions are addresses.  The remote address and
    the receive buffer, which nothing is put into, are left out. *)
Record rrr_mqtt_conn := mk_conn {
  has_event_handler : bool;
  connect_time : Z;
  last_read_time : Z;
  last_write_time : Z;
  client_id : option (list Z);
  session : option Z;
  c_protocol_version : option rrr_mqtt_p_protocol_version;
  c_keep_alive : Z;
  c_username : option (list Z);
  state_flags : Z;
  disconnect_reason_v5_ : Z;
  last_event : Z;
  parse_session : rrr_mqtt_parse_session;
  close_wait_time_usec : Z;
  close_wait_start : Z
}.

Definition set_has_event_handler (c : rrr_mqtt_conn) (v : bool) : rrr_mqtt_conn :=
  mk_conn v (connect_time c) (last_read_time c) (last_write_time c) (client_id c) (session c)
    (c_protocol_version c) (c_keep_alive c) (c_username c) (state_flags c) (disconnect_reason_v5_ c)
    (last_event c) (parse_session c) (close_wait_time_usec c) (close_wait_start c).
Definition set_last_read_time (c : rrr_mqtt_conn) (v : Z) : rrr_mqtt_conn :=
  mk_conn (has_event_handler c) (connect_time c) v (last_write_time c) (client_id c) (session c)
    (c_protocol_version c) (c_keep_alive c) (c_username c) (state_flags c) (disconnect_reason_v5_ c)
    (last_event c) (parse_session c) (close_wait_time_usec c) (close_wait_start c).
Definition set_last_write_time (c : rrr_mqtt_conn) (v : Z) : rrr_mqtt_conn :=
  mk_conn (has_event_handler c) (connect_time c) (last_read_time c) v (client_id c) (session c)
    (c_protocol_version c) (c_keep_alive c) (c_username c) (state_flags c) (disconnect_reason_v5_ c)
    (last_event c) (parse_session c) (close_wait_time_usec c) (close_wait_start c).
Definition set_client_id (c : rrr_mqtt_conn) (v : option (list Z)) : rrr_mqtt_conn :=
  mk_conn (has_event_handler c) (connect_time c) (last_read_time c) (last_write_time c) v (session c)
    (c_protocol_version c) (c_keep_alive c) (c_username c) (state_flags c) (disconnect_reason_v5_ c)
    (last_event c) (parse_session c) (close_wait_time_usec c) (close_wait_start c).
Definition set_login (c : rrr_mqtt_conn) (s : option Z) (v : option rrr_mqtt_p_protocol_version)
    (k : Z) (u : option (list Z)) : rrr_mqtt_conn :=
  mk_conn (has_event_handler c) (connect_time c) (last_read_time c) (last_write_time c) (client_id c) s
    v k u (state_flags c) (disconnect_reason_v5_ c)
    (last_event c) (parse_session c) (close_wait_time_usec c) (close_wait_start c).
Definition RRR_MQTT_CONN_STATE_SET (c : rrr_mqtt_conn) (v : Z) : rrr_mqtt_conn :=
  mk_conn (has_event_handler c) (connect_time c) (last_read_time c) (last_write_time c) (client_id c)
    (session c) (c_protocol_version c) (c_keep_alive c) (c_username c) v (disconnect_reason_v5_ c)
    (last_event c) (parse_session c) (close_wait_time_usec c) (close_wait_start c).
Definition set_disconnect_reason (c : rrr_mqtt_conn) (v : Z) : rrr_mqtt_conn :=
  mk_conn (has_event_handler c) (connect_time c) (last_read_time c) (last_write_time c) (client_id c)
    (session c) (c_protocol_version c) (c_keep_alive c) (c_username c) (state_flags c) v
    (last_event c) (parse_session c) (close_wait_time_usec c) (close_wait_start c).
Definition set_event (c : rrr_mqtt_conn) (s : option Z) (event : Z) : rrr_mqtt_conn :=
  mk_conn (has_event_handler c) (connect_time c) (last_read_time c) (last_write_time c) (client_id c)
    s (c_protocol_version c) (c_keep_alive c) (c_username c) (state_flags c) (disconnect_reason_v5_ c)
    event (parse_session c) (close_wait_time_usec c) (close_wait_start c).
Definition set_parse_session (c : rrr_mqtt_conn) (v : rrr_mqtt_parse_session) : rrr_mqtt_conn :=
  mk_conn (has_event_handler c) (connect_time c) (last_read_time c) (last_write_time c) (client_id c)
    (session c) (c_protocol_version c) (c_keep_alive c) (c_username c) (state_flags c)
    (disconnect_reason_v5_ c) (last_event c) v (close_wait_time_usec c) (close_wait_start c).
Definition set_close_wait_start (c : rrr_mqtt_conn) (v : Z) : rrr_mqtt_conn :=
  mk_conn (has_event_handler c) (connect_time c) (last_read_time c) (last_write_time c) (client_id c)
    (session c) (c_protocol_version c) (c_keep_alive c) (c_username c) (state_flags c)
    (disconnect_reason_v5_ c) (last_event c) (parse_session c) (close_wait_time_usec c) v.

Definition flag_set (c : rrr_mqtt_conn) (f : Z) : bool := negb (state_flags c &&& f =? 0).

Definition RRR_MQTT_CONN_STATE_CONNECT_ALLOWED (c : rrr_mqtt_conn) : bool :=
  state_flags c =? RRR_MQTT_CONN_STATE_NEW.
Definition RRR_MQTT_CONN_STATE_RECEIVE_CONNECT_IS_ALLOWED (c : rrr_mqtt_conn) : bool :=
  state_flags c =? RRR_MQTT_CONN_STATE_NEW.
Definition RRR_MQTT_CONN_STATE_SEND_IS_BUSY_CLIENT_ID (c : rrr_mqtt_conn) : bool :=
  flag_set c (RRR_MQTT_CONN_STATE_SEND_CONNACK_ALLOWED ||| RRR_MQTT_CONN_STATE_RECEIVE_CONNACK_ALLOWED |||
    RRR_MQTT_CONN_STATE_SEND_ANY_ALLOWED ||| RRR_MQTT_CONN_STATE_RECEIVE_ANY_ALLOWED).
Definition RRR_MQTT_CONN_STATE_SEND_ANY_IS_ALLOWED (c : rrr_mqtt_conn) : bool :=
  flag_set c RRR_MQTT_CONN_STATE_SEND_ANY_ALLOWED.
Definition RRR_MQTT_CONN_STATE_RECEIVE_ANY_IS_ALLOWED (c : rrr_mqtt_conn) : bool :=
  flag_set c RRR_MQTT_CONN_STATE_RECEIVE_ANY_ALLOWED.
Definition RRR_MQTT_CONN_STATE_SEND_CONNACK_IS_ALLOWED (c : rrr_mqtt_conn) : bool :=
  flag_set c RRR_MQTT_CONN_STATE_SEND_CONNACK_ALLOWED.
Definition RRR_MQTT_CONN_STATE_RECEIVE_CONNACK_IS_ALLOWED (c : rrr_mqtt_conn) : bool :=
  flag_set c RRR_MQTT_CONN_STATE_RECEIVE_CONNACK_ALLOWED.
Definition RRR_MQTT_CONN_STATE_IS_CLOSE_WAIT (c : rrr_mqtt_conn) : bool :=
  flag_set c RRR_MQTT_CONN_STATE_CLOSE_WAIT.
Definition RRR_MQTT_CONN_STATE_IS_CLOSED_OR_CLOSE_WAIT (c : rrr_mqtt_conn) : bool :=
  flag_set c (RRR_MQTT_CONN_STATE_CLOSED ||| RRR_MQTT_CONN_STATE_CLOSE_WAIT).
Definition RRR_MQTT_CONN_STATE_IS_CLOSED (c : rrr_mqtt_conn) : bool :=
  flag_set c RRR_MQTT_CONN_STATE_CLOSED.

Definition RRR_MQTT_CONN_SET_DISCONNECT_REASON_IF_ZERO (c : rrr_mqtt_conn) (reason : Z) : rrr_mqtt_conn :=
  if disconnect_reason_v5_ c =? 0 then set_disconnect_reason c reason else c.

(** * Protocol state *)

Definition rrr_mqtt_conn_update_state (connection : rrr_mqtt_conn) (packet : rrr_mqtt_p) (direction : Z)
  : outcome (Z * rrr_mqtt_conn) :=
  let packet_type := RRR_MQTT_P_GET_TYPE packet in
  if (RRR_MQTT_P_TYPE_CONNACK <? packet_type) && (packet_type <? RRR_MQTT_P_TYPE_DISCONNECT)
  then Ret (RRR_MQTT_OK, connection)
  else if packet_type =? RRR_MQTT_P_TYPE_CONNECT then
    if negb (RRR_MQTT_CONN_STATE_CONNECT_ALLOWED connection) then
      if direction =? RRR_MQTT_CONN_UPDATE_STATE_DIRECTION_OUT then Bug
      else Ret (RRR_MQTT_SOFT_ERROR, connection)
    else
      Ret (RRR_MQTT_OK, RRR_MQTT_CONN_STATE_SET connection
        (if direction =? RRR_MQTT_CONN_UPDATE_STATE_DIRECTION_OUT
         then RRR_MQTT_CONN_STATE_RECEIVE_CONNACK_ALLOWED else RRR_MQTT_CONN_STATE_SEND_CONNACK_ALLOWED))
  else if packet_type =? RRR_MQTT_P_TYPE_CONNACK then
    let done := Ret (RRR_MQTT_OK, RRR_MQTT_CONN_STATE_SET connection
      (if reason_v5 packet =? RRR_MQTT_P_5_REASON_OK
       then RRR_MQTT_CONN_STATE_SEND_ANY_ALLOWED ||| RRR_MQTT_CONN_STATE_RECEIVE_ANY_ALLOWED
       else RRR_MQTT_CONN_STATE_CLOSE_WAIT)) in
    if direction =? RRR_MQTT_CONN_UPDATE_STATE_DIRECTION_OUT then
      if negb (RRR_MQTT_CONN_STATE_SEND_CONNACK_IS_ALLOWED connection) then Bug else done
    else if negb (RRR_MQTT_CONN_STATE_RECEIVE_CONNACK_IS_ALLOWED connection)
    then Ret (RRR_MQTT_SOFT_ERROR, connection)
    else done
  else if packet_type =? RRR_MQTT_P_TYPE_DISCONNECT then
    let done := Ret (RRR_MQTT_OK, RRR_MQTT_CONN_STATE_SET connection RRR_MQTT_CONN_STATE_CLOSE_WAIT) in
    if direction =? RRR_MQTT_CONN_UPDATE_STATE_DIRECTION_OUT then
      if negb (RRR_MQTT_CONN_STATE_SEND_ANY_IS_ALLOWED connection) then Bug else done
    else if negb (RRR_MQTT_CONN_STATE_RECEIVE_ANY_IS_ALLOWED connection)
    then Ret (RRR_MQTT_SOFT_ERROR, connection)
    else done
  else Bug.

Definition rrr_mqtt_connection_close (c : rrr_mqtt_conn) : rrr_mqtt_conn :=
  RRR_MQTT_CONN_STATE_SET c RRR_MQTT_CONN_STATE_CLOSED.

(** The checks that most functions of connections begin with. *)
Definition conn_check {A} (c : rrr_mqtt_conn) (early : A) (f : A) : A :=
  if RRR_MQTT_CONN_STATE_IS_CLOSED_OR_CLOSE_WAIT c || RRR_MQTT_CONN_STATE_IS_CLOSED c then early else f.

Definition rrr_mqtt_conn_iterator_ctx_set_disconnect_reason (c : rrr_mqtt_conn) (reason_v5 : Z)
  : Z * rrr_mqtt_conn :=
  conn_check c (RRR_MQTT_SOFT_ERROR, c)
    (RRR_MQTT_OK, RRR_MQTT_CONN_SET_DISCONNECT_REASON_IF_ZERO c reason_v5).

(** The three results are [*alive], [*send_allowed] and [*close_wait], which keep their
    values when the connection is closed. *)
Definition rrr_mqtt_conn_iterator_ctx_check_alive (c : rrr_mqtt_conn) (alive send_allowed close_wait : Z)
  : Z * (Z * Z * Z) :=
  conn_check c (RRR_MQTT_SOFT_ERROR, (alive, send_allowed, close_wait))
    (RRR_MQTT_OK,
     ((if RRR_MQTT_CONN_STATE_IS_CLOSED_OR_CLOSE_WAIT c || RRR_MQTT_CONN_STATE_IS_CLOSED c ||
          bool_decide (session c = None) then 0 else 1),
      (if RRR_MQTT_CONN_STATE_SEND_ANY_IS_ALLOWED c then 1 else 0),
      (if RRR_MQTT_CONN_STATE_IS_CLOSE_WAIT c then 1 else 0))).

(** ** Timers *)

(** Whether the keep-alive interval was reached, and exceeded; [* 1.5] in double
    precision is exact for 16-bit values. *)
Definition rrr_mqtt_conn_timeouts_check (c : rrr_mqtt_conn) (now : Z) : bool * bool :=
  let limit_ping := u64 (c_keep_alive c * 1000000) in
  let limit := u64 (c_keep_alive c * 3 / 2 * 1000000) in
  ((u64 (last_read_time c + limit_ping) <? now) || (u64 (last_write_time c + limit_ping) <? now),
   u64 (last_read_time c + limit) <? now).

(** ** Creation *)

Definition AF_INET : Z := 2.
Definition AF_INET6 : Z := 10.
Definition sizeof_rrr_mqtt_conn : Z := 512.

Definition rrr_mqtt_conn_new (alloc_ok : Z -> bool) (sa_family close_wait now : Z) (has_handler : bool)
  : outcome (Z * option rrr_mqtt_conn) :=
  if negb (alloc_ok sizeof_rrr_mqtt_conn) then Ret (RRR_MQTT_INTERNAL_ERROR, None)
  else if (sa_family =? AF_INET) || (sa_family =? AF_INET6) then
    Ret (RRR_MQTT_OK, Some (mk_conn has_handler now now now None None None 0 None RRR_MQTT_CONN_STATE_NEW 0 0
                              rrr_mqtt_parse_session_init close_wait 0))
  else Bug.

(** The connection is bound to the handle of the transport. *)
Definition rrr_mqtt_conn_accept_and_connect_callback (alloc_ok : Z -> bool) (sa_family close_wait now : Z)
    (has_handler : bool) : outcome (option rrr_mqtt_conn) :=
  '(ret, c) ← rrr_mqtt_conn_new alloc_ok sa_family close_wait now has_handler;
  Ret (if negb (ret =? RRR_MQTT_OK) then None else c).

(** [strdup]; [id] is the string without its NUL. *)
Definition rrr_mqtt_conn_set_client_id (alloc_ok : Z -> bool) (c : rrr_mqtt_conn) (id : list Z)
  : Z * rrr_mqtt_conn :=
  if alloc_ok (Z.of_nat (length id) + 1) then (0, set_client_id c (Some id)) else (1, set_client_id c None).

Definition rrr_mqtt_conn_set_data_from_connect_and_connack (alloc_ok : Z -> bool) (c : rrr_mqtt_conn)
    (keep_alive : Z) (v : option rrr_mqtt_p_protocol_version) (s : option Z) (username : option (list Z))
  : Z * rrr_mqtt_conn :=
  match username with
  | None | Some [] => (RRR_MQTT_OK, set_login c s v keep_alive (c_username c))
  | Some u =>
    if alloc_ok (Z.of_nat (length u) + 1) then (RRR_MQTT_OK, set_login c s v keep_alive (Some u))
    else (RRR_MQTT_INTERNAL_ERROR, set_login c s v keep_alive None)
  end.

(** * The program around a connection *)

(** A packet to be sent with what is kept of earlier attempts. *)
Record outbound := mk_out {
  o_packet : rrr_mqtt_p;
  assembled_data : option (list Z);
  assembled_data_size : Z;
  last_attempt : Z
}.

Definition set_protocol_version (p : rrr_mqtt_p) (v : rrr_mqtt_p_protocol_version) : rrr_mqtt_p :=
  mk_packet (type_properties p) v (type_flags p) (is_outbound p) (packet_identifier p) (reason_v5 p)
    (reason p) (received_size p) (payload p) (body p).

#[export] Instance version_eq_dec : EqDecision rrr_mqtt_p_protocol_version.
Proof. solve_decision. Defined.

Section World.
Context {W : Type}.
Context (send_push send_push_urgent : W -> list Z -> Z * W) (chunk_limit_reached : W -> bool).
Context (event_handler : rrr_mqtt_conn -> Z -> option rrr_mqtt_p -> W -> outcome (Z * option Z * W)).
Context (big : bool) (alloc_ok alloc_sub alloc_packet : Z -> bool) (alloc_token : nat -> bool).
Context (moved : Z -> Z -> Z) (now : Z).

Definition rrr_mqtt_connection_call_event_handler (c : rrr_mqtt_conn) (event : Z) (no_repeat : bool)
    (arg : option rrr_mqtt_p) (w : W) : outcome (Z * rrr_mqtt_conn * W) :=
  if has_event_handler c && (negb no_repeat || negb (last_event c =? event)) then
    '(ret, s, w) ← event_handler c event arg w;
    Ret (ret, set_event c s event, w)
  else Ret (RRR_MQTT_OK, c, w).

(** ** Sending *)

(** [__rrr_mqtt_conn_iterator_ctx_send_push] and [_urgent] *)
Definition conn_push (push : W -> list Z -> Z * W) (c : rrr_mqtt_conn) (data : list Z) (w : W) : Z * W :=
  conn_check c (RRR_MQTT_SOFT_ERROR, w)
    (let '(ret, w) := push w data in (if negb (ret =? 0) then RRR_MQTT_SOFT_ERROR else 0, w)).

(** The variable header of the packet: assembled when there is none for the version of
    the connection; the status and the packet. *)
Definition assemble_outbound (c : rrr_mqtt_conn) (o : outbound) : outcome (Z * outbound) :=
  let o :=
    match c_protocol_version c with
    | Some v =>
      if bool_decide (v = protocol_version (o_packet o)) then o
      else mk_out (set_protocol_version (o_packet o) v) None 0 (last_attempt o)
    | None => o
    end in
  match assembled_data o with
  | Some _ => Ret (RRR_MQTT_OK, o)
  | None =>
    '(ret_tmp, network_data, network_size) ← RRR_MQTT_P_GET_ASSEMBLER big alloc_ok moved (o_packet o);
    match network_data with
    | None => Bug
    | Some _ =>
      let o := mk_out (o_packet o) (if network_size =? 0 then None else network_data) network_size
                 (last_attempt o) in
      if negb (ret_tmp =? RRR_MQTT_ASSEMBLE_OK) then
        if ret_tmp =? RRR_MQTT_ASSEMBLE_INTERNAL_ERR then Ret (RRR_MQTT_INTERNAL_ERROR, o) else Bug
      else Ret (RRR_MQTT_OK, o)
    end
  end.

(** The bytes that are sent: fixed header, variable header, payload. *)
Definition send_data (o : outbound) (header : list Z) : outcome (list Z) :=
  let packet := o_packet o in
  variable_header ←
    (if 0 <? assembled_data_size o then
       match assembled_data o with
       | Some d => bytes_at 0 (assembled_data_size o) d
       | None => Oob
       end
     else match payload packet with Some _ => Bug | None => Ret [] end);
  match payload packet with
  | Some [] => Bug
  | Some p => Ret (header ++ variable_header ++ p)
  | None => Ret (header ++ variable_header)
  end.

(** The status, the connection, the packet and [*do_stop]. *)
Definition rrr_mqtt_conn_iterator_ctx_send_packet_with (urgent : bool) (c : rrr_mqtt_conn) (o : outbound)
    (do_stop : Z) (w : W) : outcome (Z * rrr_mqtt_conn * outbound * Z * W) :=
  conn_check c (Ret (RRR_MQTT_SOFT_ERROR, c, o, do_stop, w))
  (if negb (RRR_MQTT_CONN_STATE_SEND_ANY_IS_ALLOWED c) &&
      (RRR_MQTT_P_GET_TYPE (o_packet o) =? RRR_MQTT_P_TYPE_PUBLISH) then Bug
   else
    '(ret, o) ← assemble_outbound c o;
    if negb (ret =? RRR_MQTT_OK) then Ret (ret, c, o, do_stop, w)
    else
      let packet := o_packet o in
      let t := type_properties packet in
      if negb (has_reserved_flags t =? 0) && negb (t_flags t =? type_flags packet) then Bug
      else
        let payload_size := match payload packet with Some p => Z.of_nat (length p) | None => 0 end in
        size ← rrr_length_add_bug_const (assembled_data_size o) payload_size;
        let '(ret, length_bytes, variable_int_length) := rrr_mqtt_connection_create_variable_int size in
        if negb (ret =? 0) then Ret (ret, c, o, do_stop, w)
        else
          let c := set_last_write_time c now in
          let send_size := u64 (1 + variable_int_length + assembled_data_size o + payload_size) in
          if RRR_LENGTH_MAX <? send_size then Bug
          else if negb (alloc_ok send_size) then Ret (1, c, o, do_stop, w)
          else
            let header := u8 (RRR_MQTT_P_GET_TYPE_AND_FLAGS packet) ::
                          take (Z.to_nat variable_int_length) length_bytes in
            data ← send_data o header;
            let '(ret, w) := conn_push (if urgent then send_push_urgent else send_push) c data w in
            if negb (ret =? 0) then Ret (ret, c, o, do_stop, w)
            else
              '(ret, c) ← rrr_mqtt_conn_update_state c packet RRR_MQTT_CONN_UPDATE_STATE_DIRECTION_OUT;
              if negb (ret =? RRR_MQTT_OK) then Ret (ret, c, o, do_stop, w)
              else
                let o := mk_out packet (assembled_data o) (assembled_data_size o) now in
                let do_stop := if negb urgent && chunk_limit_reached w then 1 else do_stop in
                Ret (ret, c, o, do_stop, w)).

Definition rrr_mqtt_conn_iterator_ctx_send_packet :=
  rrr_mqtt_conn_iterator_ctx_send_packet_with false.

Definition rrr_mqtt_conn_iterator_ctx_send_packet_urgent (c : rrr_mqtt_conn) (o : outbound) (w : W)
  : outcome (Z * rrr_mqtt_conn * outbound * W) :=
  '(ret, c, o, _, w) ← rrr_mqtt_conn_iterator_ctx_send_packet_with true c o 0 w;
  Ret (ret, c, o, w).

(** ** Disconnecting *)

(** [ret & ~f] *)
Definition clear_flag (ret f : Z) : Z := Z.ldiff ret f.

Definition rrr_mqtt_conn_iterator_ctx_send_disconnect (c : rrr_mqtt_conn) (w : W)
  : outcome (Z * rrr_mqtt_conn * W) :=
  let force '(ret, c, w) :=
    Ret (ret, (if RRR_MQTT_CONN_STATE_IS_CLOSED_OR_CLOSE_WAIT c then c
               else RRR_MQTT_CONN_STATE_SET c RRR_MQTT_CONN_STATE_CLOSE_WAIT), w) in
  conn_check c (Ret (RRR_MQTT_SOFT_ERROR, c, w))
  (match c_protocol_version c with
   | None => force (RRR_MQTT_OK, c, w)
   | Some v =>
     disconnect ← rrr_mqtt_p_allocate alloc_sub alloc_packet now RRR_MQTT_P_TYPE_DISCONNECT v;
     match disconnect with
     | None => force (RRR_MQTT_INTERNAL_ERROR, c, w)
     | Some p =>
       let p := set_reason_v5 p (disconnect_reason_v5_ c) (reason p) in
       if RRR_MQTT_CONN_STATE_SEND_ANY_IS_ALLOWED c then
         '(ret, c, _, w) ← rrr_mqtt_conn_iterator_ctx_send_packet_urgent c (mk_out p None 0 0) w;
         if negb (ret =? RRR_MQTT_OK) then
           let ret := clear_flag ret RRR_MQTT_SOFT_ERROR in
           force (if negb (ret =? RRR_MQTT_OK) then ret else ret ||| RRR_MQTT_SOFT_ERROR, c, w)
         else force (ret, c, w)
       else force (RRR_MQTT_OK, c, w)
     end
   end).

Definition rrr_mqtt_connection_disconnect_call_event_handler_if_needed (c : rrr_mqtt_conn) (w : W)
  : outcome (Z * rrr_mqtt_conn * W) :=
  '(ret, c, w) ← rrr_mqtt_connection_call_event_handler c RRR_MQTT_CONN_EVENT_DISCONNECT true None w;
  let ret := clear_flag ret RRR_MQTT_SOFT_ERROR in
  if negb (ret =? RRR_MQTT_OK) && negb (ret &&& RRR_MQTT_INTERNAL_ERROR =? 0) then Ret (ret, c, w)
  else Ret (RRR_MQTT_OK, set_has_event_handler c false, w).

(** The DISCONNECT packet, when one is to be sent; the status and the connection. *)
Definition disconnect_packet (c : rrr_mqtt_conn) (w : W) : outcome (Z * rrr_mqtt_conn * W) :=
  if RRR_MQTT_CONN_STATE_IS_CLOSED_OR_CLOSE_WAIT c then Ret (RRR_MQTT_OK, c, w)
  else if match c_protocol_version c with Some v => v_id v =? RRR_MQTT_VERSION_5 | None => false end ||
     ((disconnect_reason_v5_ c <? 0x80) &&
      negb (disconnect_reason_v5_ c =? RRR_MQTT_P_5_REASON_DISCONNECT_WITH_WILL)) then
    '(ret, c, w) ← rrr_mqtt_conn_iterator_ctx_send_disconnect c w;
    Ret (clear_flag ret RRR_MQTT_SOFT_ERROR, c, w)
  else Ret (RRR_MQTT_OK, RRR_MQTT_CONN_STATE_SET c RRR_MQTT_CONN_STATE_CLOSE_WAIT, w).

Definition rrr_mqtt_connection_in_iterator_disconnect (c : rrr_mqtt_conn) (w : W)
  : outcome (Z * rrr_mqtt_conn * W) :=
  let out '(ret, c, w) :=
    Ret (ret, (if negb (ret =? RRR_READ_EOF) && negb (RRR_MQTT_CONN_STATE_IS_CLOSED c)
               then rrr_mqtt_connection_close c else c), w) in
  '(ret, c, w) ← rrr_mqtt_connection_disconnect_call_event_handler_if_needed c w;
  if negb (ret =? 0) then out (ret, c, w)
  else if (rrr_mqtt_conn_timeouts_check c now).2 ||
     (disconnect_reason_v5_ c =? RRR_MQTT_P_5_REASON_KEEP_ALIVE_TIMEOUT) then out (ret, c, w)
  else
    '(ret, c, w) ← disconnect_packet c w;
    if negb (ret =? 0) then out (ret, c, w)
    else if close_wait_time_usec c =? 0 then out (ret, c, w)
    else
      let c := if close_wait_start c =? 0 then set_close_wait_start c now else c in
      if now <? u64 (close_wait_start c + close_wait_time_usec c) then out (RRR_READ_EOF, c, w)
      else out (ret, c, w).

(** ** Housekeeping *)

Definition rrr_mqtt_conn_iterator_ctx_housekeeping
    (exceeded_keep_alive_callback : option (rrr_mqtt_conn -> W -> outcome (Z * rrr_mqtt_conn * W)))
    (c : rrr_mqtt_conn) (w : W) : outcome (Z * rrr_mqtt_conn * W) :=
  conn_check c (Ret (RRR_MQTT_SOFT_ERROR, c, w))
  (if 0 <? c_keep_alive c then
     let '(keepalive_reached, keepalive_exceeded) := rrr_mqtt_conn_timeouts_check c now in
     if keepalive_exceeded then
       Ret (RRR_MQTT_SOFT_ERROR,
            RRR_MQTT_CONN_SET_DISCONNECT_REASON_IF_ZERO c RRR_MQTT_P_5_REASON_KEEP_ALIVE_TIMEOUT, w)
     else if keepalive_reached then
       match exceeded_keep_alive_callback with
       | Some callback => callback c w
       | None => Ret (RRR_MQTT_OK, c, w)
       end
     else Ret (RRR_MQTT_OK, c, w)
   else Ret (RRR_MQTT_OK, c, w)).

(** ** Reading *)

(** [rx] is what the read session has received. *)
Definition rrr_mqtt_conn_parse (rx : list Z) (c : rrr_mqtt_conn) : outcome (Z * rrr_mqtt_conn) :=
  if RRR_MQTT_PARSE_IS_COMPLETE (parse_session c) then Ret (RRR_MQTT_OK, c)
  else
    s ← rrr_mqtt_packet_parse big alloc_ok alloc_sub alloc_packet alloc_token now
          (rrr_mqtt_parse_session_update (parse_session c) rx (c_protocol_version c));
    let c := set_parse_session c s in
    Ret (if RRR_MQTT_PARSE_IS_ERR s then RRR_MQTT_SOFT_ERROR
         else if RRR_MQTT_PARSE_IS_COMPLETE s then RRR_MQTT_OK else RRR_MQTT_INCOMPLETE, c).

(** The status and, when it is known, the size the read session waits for. *)
Definition rrr_mqtt_conn_read_get_target_size (rx : list Z) (c : rrr_mqtt_conn)
  : outcome (Z * option Z * rrr_mqtt_conn) :=
  '(ret, c) ← rrr_mqtt_conn_parse rx c;
  if negb (ret =? RRR_MQTT_OK) &&
     negb (ret &&& (RRR_MQTT_INTERNAL_ERROR ||| RRR_MQTT_SOFT_ERROR) =? 0) then
    let c := if negb (ret &&& RRR_MQTT_SOFT_ERROR =? 0)
             then RRR_MQTT_CONN_SET_DISCONNECT_REASON_IF_ZERO c RRR_MQTT_P_5_REASON_MALFORMED_PACKET else c in
    Ret (clear_flag ret RRR_READ_INCOMPLETE, None, c)
  else if RRR_MQTT_PARSE_FIXED_HEADER_IS_DONE (parse_session c)
  then Ret (RRR_READ_OK, Some (target_size (parse_session c)), c)
  else Ret (ret, None, c).

(** [payload_pos] is within the buffer when the payload is moved; the packet takes the
    buffer over.  The status, the connection and what is left of the buffer. *)
Definition move_payload (rx : list Z) (c : rrr_mqtt_conn) : outcome (Z * rrr_mqtt_conn * option (list Z)) :=
  let s := parse_session c in
  if status_is s RRR_MQTT_PARSE_STATUS_MOVE_PAYLOAD_TO_PACKET then
    match packet s with
    | None => Oob
    | Some p =>
      match payload p with
      | Some _ => Bug
      | None =>
        size ← rrr_length_from_biglength_sub_bug_const (Z.of_nat (length rx)) (payload_pos s);
        if alloc_ok sizeof_rrr_mqtt_p_payload then
          data ← bytes_at (payload_pos s) size rx;
          Ret (0, set_parse_session c (set_packet s (Some (set_payload p (Some data)))), None)
        else Ret (1, c, None)
      end
    end
  else Ret (0, c, Some rx).

Definition rrr_mqtt_conn_read_complete_callback
    (handler_callback : rrr_mqtt_conn -> rrr_mqtt_p -> W -> outcome (Z * rrr_mqtt_conn * W))
    (rx : list Z) (c : rrr_mqtt_conn) (w : W) : outcome (Z * rrr_mqtt_conn * W) :=
  let out '(ret, c, w) :=
    Ret (ret, (if ret =? RRR_MQTT_SOFT_ERROR
               then RRR_MQTT_CONN_SET_DISCONNECT_REASON_IF_ZERO c RRR_MQTT_P_5_REASON_PROTOCOL_ERROR else c), w) in
  let c := set_last_read_time c now in
  '(ret, c) ← rrr_mqtt_conn_parse rx c;
  if negb (ret =? RRR_MQTT_OK) then
    let c := RRR_MQTT_CONN_SET_DISCONNECT_REASON_IF_ZERO c RRR_MQTT_P_5_REASON_MALFORMED_PACKET in
    out (if negb (ret =? RRR_MQTT_INTERNAL_ERROR) then RRR_MQTT_SOFT_ERROR else ret, c, w)
  else if negb (RRR_MQTT_PARSE_IS_COMPLETE (parse_session c)) then out (RRR_READ_SOFT_ERROR, c, w)
  else
    '(ret, c, _) ← move_payload rx c;
    if negb (ret =? 0) then out (ret, c, w)
    else
      '(ret, c, w) ← rrr_mqtt_connection_call_event_handler c RRR_MQTT_CONN_EVENT_PACKET_PARSED false
                       (packet (parse_session c)) w;
      if negb (ret =? 0) then out (ret, c, w)
      else
        '(packet, _) ← rrr_mqtt_packet_parse_session_extract_packet (parse_session c);
        let c := set_parse_session c rrr_mqtt_parse_session_init in
        '(ret, c, w) ← handler_callback c packet w;
        out (ret, c, w).

Definition RRR_READ_RATELIMIT : Z := 32.

(** [ctx_read_message] is the read framework with the callbacks above. *)
Definition rrr_mqtt_conn_iterator_ctx_read
    (ctx_read_message : rrr_mqtt_conn -> W -> outcome (Z * rrr_mqtt_conn * W))
    (c : rrr_mqtt_conn) (w : W) : outcome (Z * rrr_mqtt_conn * W) :=
  conn_check c (Ret (RRR_MQTT_SOFT_ERROR, c, w))
  ('(ret, c, w) ← ctx_read_message c w;
   if negb (ret =? 0) then
     if ret =? RRR_READ_RATELIMIT then Ret (RRR_READ_INCOMPLETE, c, w)
     else if negb (ret =? RRR_READ_INCOMPLETE) then
       Ret (ret, RRR_MQTT_CONN_SET_DISCONNECT_REASON_IF_ZERO c RRR_MQTT_P_5_REASON_UNSPECIFIED_ERROR, w)
     else Ret (ret, c, w)
   else Ret (ret, c, w)).

End World.

(** * The protocol of a connection *)

(** A new connection waits for CONNECT; a server then owes CONNACK and a client waits for
    it; an open connection carries any packet until it is closing and closed. *)
Inductive phase := New | Owes_connack | Awaits_connack | Open | Closing | Closed.

#[export] Instance phase_eq_dec : EqDecision phase.
Proof. solve_decision. Defined.

Definition flags_of (ph : phase) : Z :=
  match ph with
  | New => 0 | Owes_connack => 1 | Awaits_connack => 2 | Open => 12 | Closing => 32 | Closed => 64
  end.

Definition in_phase (c : rrr_mqtt_conn) (ph : phase) : Prop := state_flags c = flags_of ph.

(** What CONNECT, CONNACK and DISCONNECT, sent or received, make of a connection. *)
Inductive phase_step : phase -> bool -> Z -> Z -> phase -> Prop :=
| step_connect_out reason : phase_step New true RRR_MQTT_P_TYPE_CONNECT reason Awaits_connack
| step_connect_in reason : phase_step New false RRR_MQTT_P_TYPE_CONNECT reason Owes_connack
| step_connack_out reason : phase_step Owes_connack true RRR_MQTT_P_TYPE_CONNACK reason
    (if reason =? 0 then Open else Closing)
| step_connack_in reason : phase_step Awaits_connack false RRR_MQTT_P_TYPE_CONNACK reason
    (if reason =? 0 then Open else Closing)
| step_disconnect out reason : phase_step Open out RRR_MQTT_P_TYPE_DISCONNECT reason Closing.

(** The packets that open and close a connection, and those in between. *)
Definition opens_or_closes (type : Z) : Prop :=
  type = RRR_MQTT_P_TYPE_CONNECT \/ type = RRR_MQTT_P_TYPE_CONNACK \/ type = RRR_MQTT_P_TYPE_DISCONNECT.

Definition in_between (type : Z) : Prop := RRR_MQTT_P_TYPE_CONNACK < type < RRR_MQTT_P_TYPE_DISCONNECT.

(** The order in which phases follow each other. *)
Definition rank (ph : phase) : Z :=
  match ph with New => 0 | Owes_connack | Awaits_connack => 1 | Open => 2 | Closing => 3 | Closed => 4 end.

Lemma phase_step_rank ph out type reason ph' : phase_step ph out type reason ph' -> rank ph < rank ph'.
Proof. intros []; cbn; try lia; destruct (_ =? _); cbn; lia. Qed.

Definition dir (out : bool) : Z :=
  if out then RRR_MQTT_CONN_UPDATE_STATE_DIRECTION_OUT else RRR_MQTT_CONN_UPDATE_STATE_DIRECTION_IN.

(** The flag tests in a phase. *)
Lemma phase_flags c ph : in_phase c ph ->
  RRR_MQTT_CONN_STATE_CONNECT_ALLOWED c = bool_decide (ph = New) /\
  RRR_MQTT_CONN_STATE_SEND_CONNACK_IS_ALLOWED c = bool_decide (ph = Owes_connack) /\
  RRR_MQTT_CONN_STATE_RECEIVE_CONNACK_IS_ALLOWED c = bool_decide (ph = Awaits_connack) /\
  RRR_MQTT_CONN_STATE_SEND_ANY_IS_ALLOWED c = bool_decide (ph = Open) /\
  RRR_MQTT_CONN_STATE_RECEIVE_ANY_IS_ALLOWED c = bool_decide (ph = Open) /\
  RRR_MQTT_CONN_STATE_IS_CLOSED_OR_CLOSE_WAIT c = bool_decide (ph = Closing \/ ph = Closed) /\
  RRR_MQTT_CONN_STATE_IS_CLOSED c = bool_decide (ph = Closed) /\
  RRR_MQTT_CONN_STATE_IS_CLOSE_WAIT c = bool_decide (ph = Closing).
Proof.
  intros H. unfold RRR_MQTT_CONN_STATE_CONNECT_ALLOWED, RRR_MQTT_CONN_STATE_SEND_CONNACK_IS_ALLOWED,
    RRR_MQTT_CONN_STATE_RECEIVE_CONNACK_IS_ALLOWED, RRR_MQTT_CONN_STATE_SEND_ANY_IS_ALLOWED,
    RRR_MQTT_CONN_STATE_RECEIVE_ANY_IS_ALLOWED, RRR_MQTT_CONN_STATE_IS_CLOSED_OR_CLOSE_WAIT,
    RRR_MQTT_CONN_STATE_IS_CLOSED, RRR_MQTT_CONN_STATE_IS_CLOSE_WAIT, flag_set. rewrite H.
  destruct ph; split_and!; reflexivity.
Qed.

Lemma in_phase_set c ph ph' : in_phase (RRR_MQTT_CONN_STATE_SET c (flags_of ph)) ph' <-> ph' = ph.
Proof. split; [|by intros ->]. unfold in_phase. cbn. destruct ph, ph'; done. Qed.

Lemma conn_check_phase {A} c ph (early f : A) : in_phase c ph ->
  conn_check c early f = if bool_decide (ph = Closing \/ ph = Closed) then early else f.
Proof.
  intros H. unfold conn_check. pose proof (phase_flags c ph H) as (_ & _ & _ & _ & _ & -> & -> & _).
  by destruct ph.
Qed.

(** All packets: those in between are not checked here. *)
Definition phase_next (ph : phase) (out : bool) (type reason : Z) : option phase :=
  if (RRR_MQTT_P_TYPE_CONNACK <? type) && (type <? RRR_MQTT_P_TYPE_DISCONNECT) then Some ph
  else if type =? RRR_MQTT_P_TYPE_CONNECT then
    match ph with New => Some (if out then Awaits_connack else Owes_connack) | _ => None end
  else if type =? RRR_MQTT_P_TYPE_CONNACK then
    match ph, out with
    | Owes_connack, true | Awaits_connack, false => Some (if reason =? 0 then Open else Closing)
    | _, _ => None
    end
  else if type =? RRR_MQTT_P_TYPE_DISCONNECT then match ph with Open => Some Closing | _ => None end
  else None.

Lemma phase_next_between ph out type reason : in_between type -> phase_next ph out type reason = Some ph.
Proof. intros [H1 H2]. unfold phase_next. by rewrite !(proj2 (Z.ltb_lt _ _)). Qed.

Lemma phase_next_spec ph out type reason ph' : opens_or_closes type ->
  phase_next ph out type reason = Some ph' <-> phase_step ph out type reason ph'.
Proof.
  intros Ht. split; [|by intros []].
  destruct Ht as [-> | [-> | ->]]; cbn; intros H; destruct ph, out; simplify_eq; constructor.
Qed.

Lemma phase_next_type ph out type reason ph' : phase_next ph out type reason = Some ph' ->
  type <= RRR_MQTT_P_TYPE_DISCONNECT.
Proof.
  unfold phase_next. destruct (_ && _) eqn:E; [lia|].
  destruct (Z.eqb_spec type RRR_MQTT_P_TYPE_CONNECT) as [->|]; [done|].
  destruct (Z.eqb_spec type RRR_MQTT_P_TYPE_CONNACK) as [->|]; [done|].
  destruct (Z.eqb_spec type RRR_MQTT_P_TYPE_DISCONNECT) as [->|]; done.
Qed.

Lemma state_set_same c ph : in_phase c ph -> RRR_MQTT_CONN_STATE_SET c (flags_of ph) = c.
Proof. unfold in_phase. destruct c; cbn. by intros <-. Qed.

Lemma update_state_next c p out ph : in_phase c ph ->
  1 <= RRR_MQTT_P_GET_TYPE p <= RRR_MQTT_P_TYPE_DISCONNECT ->
  rrr_mqtt_conn_update_state c p (dir out) =
  match phase_next ph out (RRR_MQTT_P_GET_TYPE p) (reason_v5 p) with
  | Some ph' => Ret (RRR_MQTT_OK, RRR_MQTT_CONN_STATE_SET c (flags_of ph'))
  | None => if out then Bug else Ret (RRR_MQTT_SOFT_ERROR, c)
  end.
Proof.
  intros Hph Ht. unfold rrr_mqtt_conn_update_state, phase_next.
  pose proof (phase_flags c ph Hph) as (-> & -> & -> & -> & -> & _).
  destruct (_ && _) eqn:E; [by rewrite (state_set_same c ph)|].
  assert (dir out =? RRR_MQTT_CONN_UPDATE_STATE_DIRECTION_OUT = out) as -> by (by destruct out).
  destruct (_ =? RRR_MQTT_P_TYPE_CONNECT) eqn:E1; [by destruct ph, out|].
  destruct (_ =? RRR_MQTT_P_TYPE_CONNACK) eqn:E2.
  - change RRR_MQTT_P_5_REASON_OK with 0. by destruct ph, out, (_ =? 0).
  - destruct (_ =? RRR_MQTT_P_TYPE_DISCONNECT) eqn:E3; [by destruct ph, out|].
    unfold RRR_MQTT_P_TYPE_CONNECT, RRR_MQTT_P_TYPE_CONNACK, RRR_MQTT_P_TYPE_DISCONNECT in *. lia.
Qed.

(** C14. The life cycle of a connection.  CONNECT is possible only on a new connection, CONNACK
    only as the answer to it in the other direction, DISCONNECT only on an open connection, and
    each takes the connection forward: to waiting for or owing CONNACK, to open or (when the
    CONNACK refuses) closing, to closing.  When one of the three comes in another phase, it is
    refused with an error and changes nothing if it was received, and ends the program if it
    was to be sent.  Packets of the types between CONNACK and DISCONNECT are passed in every
    phase and change nothing: whether they are allowed is checked elsewhere. *)
Theorem rrr_mqtt_conn_update_state_correct (c : rrr_mqtt_conn) (p : rrr_mqtt_p) (out : bool) (ph : phase)
    (Hph : in_phase c ph) :
  (in_between (RRR_MQTT_P_GET_TYPE p) -> rrr_mqtt_conn_update_state c p (dir out) = Ret (RRR_MQTT_OK, c)) /\
  (opens_or_closes (RRR_MQTT_P_GET_TYPE p) ->
   match rrr_mqtt_conn_update_state c p (dir out) with
   | Ret (ret, c') =>
     (ret = RRR_MQTT_OK /\ exists ph', phase_step ph out (RRR_MQTT_P_GET_TYPE p) (reason_v5 p) ph' /\
        rank ph < rank ph' /\ c' = RRR_MQTT_CONN_STATE_SET c (flags_of ph')) \/
     (ret = RRR_MQTT_SOFT_ERROR /\ c' = c /\ out = false /\
      forall ph', ~ phase_step ph out (RRR_MQTT_P_GET_TYPE p) (reason_v5 p) ph')
   | Bug => out = true /\ forall ph', ~ phase_step ph out (RRR_MQTT_P_GET_TYPE p) (reason_v5 p) ph'
   | Oob => False
   end).
Proof.
  split; intros Ht; rewrite (update_state_next c p out ph Hph)
    by (unfold in_between, opens_or_closes, RRR_MQTT_P_TYPE_CONNECT, RRR_MQTT_P_TYPE_CONNACK,
          RRR_MQTT_P_TYPE_DISCONNECT in *; lia).
  { by rewrite phase_next_between, state_set_same. }
  destruct (phase_next _ _ _ _) as [ph'|] eqn:E.
  - left. split; [done|]. exists ph'. apply (phase_next_spec _ _ _ _ _ Ht) in E. split; [done|].
    split; [by eapply phase_step_rank|done].
  - assert (forall ph', ~ phase_step ph out (RRR_MQTT_P_GET_TYPE p) (reason_v5 p) ph') as Hno
      by (intros ph' H; apply (phase_next_spec _ _ _ _ _ Ht) in H; congruence).
    destruct out; [done|]. by right.
Qed.

(** CONNACK with a refusal is sent to a client that has sent CONNECT. *)
Lemma rrr_mqtt_conn_update_state_correct_witness :
  let c := mk_conn true 0 0 0 None None None 0 None 1 0 0 rrr_mqtt_parse_session_init 0 0 in
  let p := mk_packet (mk_type RRR_MQTT_P_TYPE_CONNACK 1 "CONNACK" 1 0)
    (mk_version RRR_MQTT_VERSION_5 (Some name_mqtt)) 0 1 0 0x87 None 0 None (Connack (mk_connack 0 0 no_properties)) in
  rrr_mqtt_conn_update_state c p 2 = Ret (RRR_MQTT_OK, RRR_MQTT_CONN_STATE_SET c 32) /\
  phase_step Owes_connack true RRR_MQTT_P_TYPE_CONNACK 0x87 Closing.
Proof.
  intros c p. pose proof (proj2 (rrr_mqtt_conn_update_state_correct c p true Owes_connack eq_refl)
    (or_intror (or_introl eq_refl))) as H. cbv beta match delta [dir] in H.
  assert (rrr_mqtt_conn_update_state c p 2 = Ret (RRR_MQTT_OK, RRR_MQTT_CONN_STATE_SET c 32)) as E
    by (vm_compute; reflexivity).
  change RRR_MQTT_CONN_UPDATE_STATE_DIRECTION_OUT with 2 in H. rewrite E in H. split; [done|].
  destruct H as [(_ & ph' & Hstep & _ & Hc)|(H & _)]; [|discriminate].
  destruct ph'; try discriminate Hc. exact Hstep.
Defined.

End MqttConnection.
