(* ===== verification/MqttAccess.v ===== *)
(** Who may publish and subscribe at the broker: the access list handlers of
    src/src/lib/mqtt/mqtt_broker.c, the loading of the list in
    src/src/modules/d_mqttbroker.c, and what they do with a file, from its text to the
    decision about a packet. *)
From S2P Require Import Prelude Types Utf8 Parse ParseText MqttTopic MqttAcl MqttAclCorrect.
From S2P Require Import MqttProperty MqttSubscription MqttPacket MqttParse MqttConnection.
From stdpp Require Import strings.
Open Scope Z_scope.
Open Scope c_scope.

Module MqttAccess.
Import Types Utf8 Parse ParseText MqttTopic MqttAcl MqttAclCorrect.
Import MqttProperty MqttSubscription MqttPacket MqttParse MqttConnection.

Definition RRR_MQTT_P_5_REASON_NOT_AUTHORIZED : Z := 0x87.

(** The fields of [struct rrr_mqtt_broker_data] that are read here. *)
Record rrr_mqtt_broker_data := mk_broker {
  acl : rrr_mqtt_acl;
  disconnect_on_v31_publish_deny : Z
}.

Definition set_qos_or_reason_v5 (v : Z) (s : rrr_mqtt_subscription) : rrr_mqtt_subscription :=
  mk_sub (topic_filter s) (token_tree s) (retain_handling s) (rap s) (nl s) v.

(** The result and the subscriptions, changed in place. *)
Fixpoint rrr_mqtt_broker_acl_handler_subscribe (broker : rrr_mqtt_broker_data)
    (connection : rrr_mqtt_conn) (subscriptions : rrr_mqtt_subscription_collection)
  : outcome (Z * rrr_mqtt_subscription_collection) :=
  match subscriptions with
  | [] => Ret (RRR_MQTT_ACL_RESULT_ALLOW, [])
  | node :: subscriptions =>
    ret_tmp ← rrr_mqtt_acl_check_access
      (fun a b => Ret (rrr_mqtt_topic_match_tokens_recursively_acl a b))
      (acl broker) (token_tree node) RRR_MQTT_ACL_ACTION_RO (c_username connection);
    let node :=
      if ret_tmp =? RRR_MQTT_ACL_RESULT_ALLOW then node
      else set_qos_or_reason_v5 RRR_MQTT_P_5_REASON_NOT_AUTHORIZED node in
    '(ret, subscriptions) ← rrr_mqtt_broker_acl_handler_subscribe broker connection subscriptions;
    Ret (ret, node :: subscriptions)
  end.

Definition rrr_mqtt_broker_acl_handler_publish (broker : rrr_mqtt_broker_data)
    (connection : rrr_mqtt_conn) (packet : rrr_mqtt_p) (publish : rrr_mqtt_p_publish) : outcome Z :=
  ret ← rrr_mqtt_acl_check_access rrr_mqtt_topic_match_tokens_recursively (acl broker)
    (token_tree_ publish) RRR_MQTT_ACL_ACTION_RW (c_username connection);
  if (ret =? RRR_MQTT_ACL_RESULT_DENY) && negb (RRR_MQTT_P_IS_V5 packet) &&
     negb (disconnect_on_v31_publish_deny broker =? 0)
  then Ret RRR_MQTT_ACL_RESULT_DISCONNECT else Ret ret.

(** A packet has the body of its type: another one is read as a structure it is not. *)
Definition rrr_mqtt_broker_acl_handler (connection : rrr_mqtt_conn) (packet : rrr_mqtt_p)
    (broker : rrr_mqtt_broker_data) : outcome (Z * rrr_mqtt_p) :=
  if RRR_MQTT_P_GET_TYPE packet =? RRR_MQTT_P_TYPE_PUBLISH then
    match body packet with
    | Publish publish =>
      ret ← rrr_mqtt_broker_acl_handler_publish broker connection packet publish; Ret (ret, packet)
    | _ => Oob
    end
  else if RRR_MQTT_P_GET_TYPE packet =? RRR_MQTT_P_TYPE_SUBSCRIBE then
    match body packet with
    | Sub_usub p =>
      '(ret, s) ← rrr_mqtt_broker_acl_handler_subscribe broker connection (subscriptions p);
      Ret (ret, set_body packet (Sub_usub (mk_sub_usub (data_tmp p) (sub_properties p) s)))
    | _ => Oob
    end
  else Ret (RRR_MQTT_ACL_RESULT_ALLOW, packet).

(** [acl_file] is the configured name, [f] the file of that name. *)
Definition mqttbroker_parse_acl (alloc_file : bool) (alloc : nat -> bool)
    (acl_file : option (list Z)) (f : file_io) (acl : rrr_mqtt_acl) : outcome (Z * rrr_mqtt_acl) :=
  match acl_file with
  | None =>
    '(ret, acl) ← rrr_mqtt_acl_entry_collection_push_allow_all alloc acl;
    Ret (if negb (ret =? 0) then 1 else 0, acl)
  | Some [] => Ret (1, acl)
  | Some _ =>
    '(ret, acl) ← rrr_mqtt_acl_entry_collection_populate_from_file alloc_file alloc acl f;
    Ret (if negb (ret =? 0) then 1 else 0, acl)
  end.

(** * Matching *)

(** Matching of a topic by the MQTT specification, on levels: [+] stands for one level, [#] for
    any number of them, none included, so that it also matches the level above it. *)
Fixpoint mqtt_matches (filter topic : list (list Z)) : bool :=
  match filter with
  | [] => bool_decide (topic = [])
  | f :: filter =>
    bool_decide (f = [HASH]) ||
    match topic with
    | [] => false
    | t :: topic => (bool_decide (f = [PLUS]) || bool_decide (f = t)) && mqtt_matches filter topic
    end
  end.

(** The filter is some levels, as many as the topic has, and [#] behind them. *)
Definition hash_below (filter topic : list (list Z)) : Prop :=
  exists l, filter = l ++ [[HASH]] /\ length l = length topic.

(** Topics for which the specification and the manual agree, and a filter that is not the
    one case in which the code differs from the specification. *)
Definition ordinary (topic : list (list Z)) : Prop :=
  topic <> [] /\ Forall (fun t => first_char t <> DOLLAR) topic.

Lemma hash_below_cons f filter t topic : hash_below filter topic -> hash_below (f :: filter) (t :: topic).
Proof. intros (l & -> & Hl). exists (f :: l). split; [done|]. cbn. lia. Qed.

Lemma filter_matches_mqtt filter topic : valid_filter filter -> Forall (fun t => first_char t <> DOLLAR) topic ->
  ~ hash_below filter topic -> filter_matches filter topic = mqtt_matches filter topic.
Proof.
  intros Hv. revert topic. induction Hv as [| |ls Hv IH|l ls Hp Hv IH]; intros topic Ht Hn.
  - by destruct topic.
  - destruct topic as [|t topic]; [destruct Hn; by exists []|]. apply Forall_cons_1 in Ht as [Ht _].
    cbn. rewrite strcmp_eq_refl. by rewrite (proj2 (Z.eqb_neq _ _) Ht).
  - destruct topic as [|t topic]; [done|]. apply Forall_cons_1 in Ht as [Ht Hts].
    cbn [filter_matches mqtt_matches]. unfold level_matches. rewrite strcmp_eq_refl, (proj2 (Z.eqb_neq _ _) Ht).
    change (strcmp_eq [PLUS] [HASH]) with false. change (bool_decide ([PLUS] = [HASH])) with false.
    change (bool_decide ([PLUS] = [PLUS])) with true. cbn [orb negb andb]. apply IH; [done|].
    intros H. by apply Hn, hash_below_cons.
  - destruct topic as [|t topic].
    { cbn. rewrite bool_decide_false; [done|]. intros ->. destruct Hp as [Hp _]. apply Hp. constructor. }
    apply Forall_cons_1 in Ht as [_ Hts]. rewrite filter_matches_plain by done. cbn [mqtt_matches].
    destruct (plain_not_wild l Hp) as [W1 W2]. unfold strcmp_eq in *. rewrite W1, W2. cbn [orb]. f_equal.
    apply IH; [done|]. intros H. by apply Hn, hash_below_cons.
Qed.

(** The other matcher, for a subscription without wildcards. *)
Lemma acl_match_mqtt filter topic : valid_filter filter -> topic <> [] -> Forall plain topic ->
  ~ hash_below filter topic ->
  Ret (rrr_mqtt_topic_match_tokens_recursively_acl filter topic) = match_result (mqtt_matches filter topic).
Proof.
  assert (forall (a b : list (list Z)) (x : Z), Ret x = match_result (mqtt_matches a b) \/ (a = [] /\ b = []) ->
    Ret (match a, b with [], [] => RRR_MQTT_TOKEN_MATCH | _, _ => x end) = match_result (mqtt_matches a b)) as Hnext.
  { intros a b x [H|[-> ->]]; [|done]. destruct a, b; try done. }
  intros Hv. revert topic. induction Hv as [| |ls Hv IH|l ls Hp Hv IH]; intros topic Hne Ht Hn.
  - by destruct topic.
  - destruct topic as [|t topic]; [done|]. done.
  - destruct topic as [|t topic]; [done|]. apply Forall_cons_1 in Ht as [Ht Hts].
    destruct (plain_first t Ht) as [H1 H2]. cbn [rrr_mqtt_topic_match_tokens_recursively_acl mqtt_matches].
    change (first_char [PLUS] =? HASH) with false. rewrite (proj2 (Z.eqb_neq _ _) H1).
    change (first_char [PLUS] =? PLUS) with true. change (first_char [PLUS] =? DOLLAR) with false.
    change (bool_decide ([PLUS] = [HASH])) with false. change (bool_decide ([PLUS] = [PLUS])) with true. cbn [orb andb].
    apply Hnext. destruct (decide (topic = [])) as [->|Hne']; [|left; apply IH; try done; intros H; by apply Hn, hash_below_cons].
    destruct ls as [|f ls]; [by right|left]. cbn [mqtt_matches rrr_mqtt_topic_match_tokens_recursively_acl].
    rewrite bool_decide_false; [done|]. intros ->. apply Hn. exists [[PLUS]].
    assert (ls = []) as -> by (inversion Hv as [| |?|? ? [Hx _]]; subst; [done|destruct Hx; constructor]). done.
  - destruct topic as [|t topic]; [done|]. apply Forall_cons_1 in Ht as [Ht Hts].
    destruct (plain_first t Ht) as [H1 H2]. destruct (plain_first l Hp) as [H3 H4].
    destruct (plain_not_wild l Hp) as [W1 W2]. unfold strcmp_eq in W1, W2.
    cbn [rrr_mqtt_topic_match_tokens_recursively_acl mqtt_matches].
    rewrite !(proj2 (Z.eqb_neq _ _)) by done. rewrite W1, W2. cbn [orb]. unfold strcmp_eq.
    destruct (bool_decide (l = t)); cbn [negb andb]; [|done].
    apply Hnext. destruct (decide (topic = [])) as [->|Hne']; [|left; apply IH; try done; intros H; by apply Hn, hash_below_cons].
    destruct ls as [|f ls]; [by right|left]. cbn [mqtt_matches rrr_mqtt_topic_match_tokens_recursively_acl].
    rewrite bool_decide_false; [done|]. intros ->. apply Hn. exists [l].
    assert (ls = []) as -> by (inversion Hv as [| |?|? ? [Hx _]]; subst; [done|destruct Hx; constructor]). done.
Qed.

(** * From the file to the decision *)

Definition may_publish (bs : list block) (user : option (list Z)) (topic : list (list Z)) : bool :=
  match granted (fun filter => mqtt_matches filter topic) user bs with Write => true | _ => false end.

Definition may_subscribe (bs : list block) (user : option (list Z)) (topic : list (list Z)) : bool :=
  match granted (fun filter => mqtt_matches filter topic) user bs with Deny => false | _ => true end.

Definition authorized (bs : list block) (user : option (list Z)) (s : rrr_mqtt_subscription)
  : rrr_mqtt_subscription :=
  if may_subscribe bs user (token_tree s) then s else set_qos_or_reason_v5 RRR_MQTT_P_5_REASON_NOT_AUTHORIZED s.

(** The topics about which the rules are clear: no level begins with [$], and no block is for
    the topics below this one, written with [#]. *)
Definition clear_topic (bs : list block) (topic : list (list Z)) : Prop :=
  ordinary topic /\ Forall (fun b => ~ hash_below (topic_levels (cstr (raw b))) topic) bs.

Lemma block_filter b topic : block_ok b -> topic <> [] ->
  topic_levels (cstr (raw b)) = [] /\ mqtt_matches (topic_levels (cstr (raw b))) topic = false \/
  valid_filter (topic_levels (cstr (raw b))) /\ topic_levels (cstr (raw b)) <> [].
Proof.
  intros [(_ & _ & Hv) _] Ht. destruct (cstr (raw b)) as [|c f]; [left; by destruct topic|right].
  split; [exact Hv|]. unfold topic_levels, levels. by destruct (split_on_cons SLASH (c :: f)) as (? & ? & ->).
Qed.

Section Loaded.
Context (bs : list block) (broker : rrr_mqtt_broker_data).
Context (Hacl : acl broker = (entry_of <$> bs)) (Hok : Forall block_ok bs).

Lemma handler_publish connection packet p :
  clear_topic bs (token_tree_ p) ->
  rrr_mqtt_broker_acl_handler_publish broker connection packet p
  = Ret (if may_publish bs (c_username connection) (token_tree_ p) then RRR_MQTT_ACL_RESULT_ALLOW
         else if RRR_MQTT_P_IS_V5 packet || (disconnect_on_v31_publish_deny broker =? 0)
         then RRR_MQTT_ACL_RESULT_DENY else RRR_MQTT_ACL_RESULT_DISCONNECT).
Proof using Hacl Hok.
  intros [[Hne Ht] Hh]. unfold rrr_mqtt_broker_acl_handler_publish. rewrite Hacl.
  rewrite (check_access_blocks _ (fun filter => mqtt_matches filter (token_tree_ p))), bind_ret;
    [|by right|done|].
  - unfold may_publish. destruct (granted _ _ _); simpl;
      by destruct (RRR_MQTT_P_IS_V5 packet), (disconnect_on_v31_publish_deny broker =? 0).
  - intros b Hb. rewrite Forall_forall in Hok, Hh. specialize (Hok b Hb). specialize (Hh b Hb).
    destruct (block_filter b _ Hok Hne) as [[-> Hm]|[Hv Hn]].
    + rewrite Hm. by destruct (token_tree_ p).
    + by rewrite match_tokens_spec, filter_matches_mqtt.
Qed.

Lemma handler_subscribe connection subs :
  Forall (fun s => clear_topic bs (token_tree s) /\ Forall plain (token_tree s)) subs ->
  rrr_mqtt_broker_acl_handler_subscribe broker connection subs
  = Ret (RRR_MQTT_ACL_RESULT_ALLOW, authorized bs (c_username connection) <$> subs).
Proof using Hacl Hok.
  intros Hs. induction Hs as [|s subs [[[Hne _] Hh] Hp] Hs IH]; [done|].
  cbn [rrr_mqtt_broker_acl_handler_subscribe]. rewrite Hacl.
  rewrite (check_access_blocks _ (fun filter => mqtt_matches filter (token_tree s))), bind_ret; [|by left|done|].
  - rewrite IH, bind_ret, fmap_cons. do 2 f_equal. unfold authorized, may_subscribe. destruct (granted _ _ _); done.
  - intros b Hb. rewrite Forall_forall in Hok, Hh. specialize (Hok b Hb). specialize (Hh b Hb).
    destruct (block_filter b _ Hok Hne) as [[-> Hm]|[Hv Hn]].
    + rewrite Hm. by destruct (token_tree s).
    + by apply acl_match_mqtt.
Qed.
End Loaded.

(** C19. From the file to the decision: with the list of a file as the manual describes it, the
    handler lets a PUBLISH through when the last block whose filter matches the topic, by the
    MQTT specification, grants its user WRITE (by the last USER line of the block with that
    name, or else by its DEFAULT, or else not), and refuses it otherwise, with a disconnect for
    clients older than version 5 where that is configured.  Of a SUBSCRIBE to topics without
    wildcards it marks exactly those as not authorized for which the last matching block gives
    the user no access.  All other packets pass unchanged.
    The topics are ones about which manual and specification agree and the code follows them:
    no level begins with $, and no filter of the file is as many levels as the topic has and #
    behind them.  Subscriptions with wildcards are left out (the code lets some pass that DENY
    should block).  Memory is there, and the file has less than
    2^32 bytes and is read as it is. *)
Theorem rrr_mqtt_broker_access_correct alloc name f text bs connection disconnect :
  name <> [] -> holds_file f text -> bytes_ok text ->
  Z.of_nat (length text) <= RRR_LENGTH_MAX -> (forall i, alloc i = true) -> documented bs text ->
  exists acl, mqttbroker_parse_acl true alloc (Some name) f [] = Ret (0, acl) /\
    forall packet,
    let broker := mk_broker acl disconnect in
    let user := c_username connection in
    (forall p, RRR_MQTT_P_GET_TYPE packet = RRR_MQTT_P_TYPE_PUBLISH -> body packet = Publish p ->
       clear_topic bs (token_tree_ p) ->
       rrr_mqtt_broker_acl_handler connection packet broker
       = Ret (if may_publish bs user (token_tree_ p) then RRR_MQTT_ACL_RESULT_ALLOW
              else if RRR_MQTT_P_IS_V5 packet || (disconnect =? 0)
              then RRR_MQTT_ACL_RESULT_DENY else RRR_MQTT_ACL_RESULT_DISCONNECT, packet)) /\
    (forall p, RRR_MQTT_P_GET_TYPE packet = RRR_MQTT_P_TYPE_SUBSCRIBE -> body packet = Sub_usub p ->
       Forall (fun s => clear_topic bs (token_tree s) /\ Forall plain (token_tree s)) (subscriptions p) ->
       rrr_mqtt_broker_acl_handler connection packet broker
       = Ret (RRR_MQTT_ACL_RESULT_ALLOW, set_body packet (Sub_usub
           (mk_sub_usub (data_tmp p) (sub_properties p) (authorized bs user <$> subscriptions p))))) /\
    (RRR_MQTT_P_GET_TYPE packet <> RRR_MQTT_P_TYPE_PUBLISH ->
     RRR_MQTT_P_GET_TYPE packet <> RRR_MQTT_P_TYPE_SUBSCRIBE ->
       rrr_mqtt_broker_acl_handler connection packet broker = Ret (RRR_MQTT_ACL_RESULT_ALLOW, packet)).
Proof.
  intros Hname Hf Hb Hl Hall Hd. pose proof (documented_not_empty _ _ Hd) as Hne.
  destruct Hd as (_ & Ht%documented_blocks_text & Hok). exists (entry_of <$> bs). split.
  - destruct (populate_text alloc [] f text Hf Hne Hb Hl) as (ret & c & Hp & Hres).
    rewrite (read_blocks_complete bs text _ text) in Hres by (done || lia).
    destruct Hres as [[-> ->]|(_ & _ & Hn)]; [|by destruct Hn]. unfold mqttbroker_parse_acl. rewrite Hp.
    by destruct name.
  - intros packet broker user. unfold rrr_mqtt_broker_acl_handler. split_and!.
    + intros p -> -> Htok. rewrite Z.eqb_refl, (handler_publish bs broker), bind_ret; done.
    + intros p -> -> Hs. change (RRR_MQTT_P_TYPE_SUBSCRIBE =? RRR_MQTT_P_TYPE_PUBLISH) with false.
      rewrite Z.eqb_refl, (handler_subscribe bs broker), bind_ret; done.
    + intros H1 H2. by rewrite !(proj2 (Z.eqb_neq _ _)) by done.
Qed.

Definition client (user : option (list Z)) : rrr_mqtt_conn :=
  mk_conn false 0 0 0 None None None 0 user 0 0 0 rrr_mqtt_parse_session_init 0 0.

Definition publish_to (levels : list (list Z)) : rrr_mqtt_p :=
  mk_packet (mk_type RRR_MQTT_P_TYPE_PUBLISH 0 "PUBLISH" 0 0) (mk_version RRR_MQTT_VERSION_3_1_1 (Some name_mqtt))
    0 0 0 0 None 0 None (Publish (mk_publish None levels no_properties 0 0 0 0 None None None)).

Definition subscribe_to (filter : list Z) : rrr_mqtt_subscription := mk_sub filter (levels filter) 0 0 0 0.

Lemma hash_below_length filter topic : (length filter <> S (length topic))%nat -> ~ hash_below filter topic.
Proof. intros Hl (l & -> & E). rewrite length_app in Hl. cbn in Hl. lia. Qed.

(** The user of the sample file may publish to ["a/b"]. *)
Lemma rrr_mqtt_broker_access_correct_witness :
  exists acl, mqttbroker_parse_acl true (fun _ => true) (Some [102]) (whole_file sample_text) [] = Ret (0, acl) /\
    rrr_mqtt_broker_acl_handler (client (Some [117; 49])) (publish_to [[97]; [98]]) (mk_broker acl 1)
    = Ret (RRR_MQTT_ACL_RESULT_ALLOW, publish_to [[97]; [98]]).
Proof.
  assert (bytes_ok sample_text) as Hb by (repeat constructor; unfold byte_ok; lia).
  destruct (rrr_mqtt_broker_access_correct (fun _ => true) [102] (whole_file sample_text) sample_text
    sample_blocks (client (Some [117; 49])) 1) as (acl & Hacl & Hdec);
    [discriminate|repeat split|exact Hb|vm_compute; discriminate|reflexivity|exact sample_documented|].
  exists acl. split; [exact Hacl|]. destruct (Hdec (publish_to [[97]; [98]])) as [Hp _].
  refine (Hp _ eq_refl eq_refl _). split; [split; [discriminate|repeat constructor; discriminate]|].
  constructor; [|constructor]. apply hash_below_length. vm_compute. discriminate.
Defined.

(** * Where the list does not do what its manual says *)

Definition loaded (text : list Z) : outcome (Z * rrr_mqtt_acl) :=
  mqttbroker_parse_acl true (fun _ => true) (Some [102]) (whole_file text) [].

(** Whether the subscription is authorized and whether the topic may be published to. *)
Definition subscribes (acl : rrr_mqtt_acl) (filter : list Z) : outcome bool :=
  '(_, s) ← rrr_mqtt_broker_acl_handler_subscribe (mk_broker acl 0) (client None) [subscribe_to filter];
  Ret (bool_decide (s = [subscribe_to filter])).

Definition publishes (acl : rrr_mqtt_acl) (topic : list Z) : outcome Z :=
  '(ret, _) ← rrr_mqtt_broker_acl_handler (client None) (publish_to (levels topic)) (mk_broker acl 0); Ret ret.

(** Without a file, publishing to ["$x"] is refused. *)
Lemma allow_all_refuses_dollar :
  exists acl, mqttbroker_parse_acl true (fun _ => true) None (whole_file []) [] = Ret (0, acl) /\
    publishes acl [36; 120] = Ret RRR_MQTT_ACL_RESULT_DENY /\ publishes acl [120] = Ret RRR_MQTT_ACL_RESULT_ALLOW.
Proof. eexists. vm_compute. auto. Qed.

(** ["TOPIC #", "DEFAULT READ", "TOPIC a", "DEFAULT DENY"]: a subscription to ["a"] is
    refused, one to ["#"], which matches ["a"], is authorized. *)
Lemma wildcard_passes_deny :
  exists acl, loaded (TOPIC ++ [32; 35; 10] ++ DEFAULT ++ [32] ++ READ ++ [10] ++
      TOPIC ++ [32; 97; 10] ++ DEFAULT ++ [32] ++ DENY ++ [10]) = Ret (0, acl) /\
    subscribes acl [97] = Ret false /\ subscribes acl [35] = Ret true /\
    filter_matches (levels [35]) (levels [97]) = true.
Proof. eexists. vm_compute. auto. Qed.

(** ["TOPIC a/b", "DEFAULT READ"]: the subscription ["a/+"], which also matches ["a/c"],
    is authorized, though there is no block for ["a/c"]. *)
Lemma literal_block_covers_plus :
  exists acl, loaded (TOPIC ++ [32; 97; 47; 98; 10] ++ DEFAULT ++ [32] ++ READ) = Ret (0, acl) /\
    subscribes acl [97; 47; 99] = Ret false /\ subscribes acl [97; 47; 43] = Ret true /\
    filter_matches (levels [97; 47; 43]) (levels [97; 47; 99]) = true.
Proof. eexists. vm_compute. auto. Qed.

(** A space behind the topic belongs to it. *)
Lemma trailing_space_kept :
  exists acl, loaded (TOPIC ++ [32; 97; 32; 10] ++ DEFAULT ++ [32] ++ WRITE) = Ret (0, acl) /\
    publishes acl [97] = Ret RRR_MQTT_ACL_RESULT_DENY /\ publishes acl [97; 32] = Ret RRR_MQTT_ACL_RESULT_ALLOW.
Proof. eexists. vm_compute. auto. Qed.

(** ["USERx READ"] is the statement ["USER x READ"]. *)
Lemma user_without_space :
  exists acl, loaded (TOPIC ++ [32; 97; 10] ++ USER ++ [120; 32] ++ READ) = Ret (0, acl) /\
    (users <$> acl) = [[mk_user [120] RRR_MQTT_ACL_ACTION_RO]].
Proof. eexists. vm_compute. auto. Qed.

(** The lines between two blocks are counted twice: the error in the third line of
    ["TOPIC a", "TOPIC b", "x"] is found in a line with the number 4. *)
Lemma lines_counted_twice :
  exists c q, let text := TOPIC ++ [32; 97; 10] ++ TOPIC ++ [32; 98; 10] ++ [120] in
    rrr_mqtt_acl_parse_topic_blocks (fun _ => true) []
      (rrr_parse_pos_init (text ++ [0]) (Z.of_nat (length text))) = Ret (1, c, q) /\ line q = 4.
Proof. do 2 eexists. split; vm_compute; reflexivity. Qed.

End MqttAccess.
