(* ===== verification/MqttDelivery.v ===== *)
(** Packets from one connection to another: what a connection sends is the frame of the
    message ([MqttWire], [MqttRoundtrip]), and a connection that receives these bytes hands
    a packet that says the same to its handler. *)
From S2P Require Import Prelude Types MsgHead MqttPayloadBuf MqttProperty MqttSubscription.
From S2P Require Import MqttPacket MqttParse MqttParsePacket MqttParseSafe MqttAssemble MqttWire.
From S2P Require Import MqttRoundtrip MqttConnection.
From stdpp Require Import strings.
Open Scope Z_scope.
Open Scope c_scope.

Module MqttDelivery.
Import Types MsgHead MqttProperty MqttSubscription MqttPacket MqttPayloadBuf MqttParse.
Import MqttParsePacket MqttAssemble MqttWire MqttRoundtrip MqttConnection.

(** * Sending *)

(** Data of an earlier attempt in the same version is the variable header. *)
Definition cache_ok (o : outbound) (v : rrr_mqtt_p_protocol_version) (m : message) : Prop :=
  match assembled_data o with
  | None => True
  | Some b => protocol_version (o_packet o) = v ->
    message_wire v m <> [] /\ take (length (message_wire v m)) b = message_wire v m /\
    assembled_data_size o = Z.of_nat (length (message_wire v m))
  end.

Definition assembled_ok (o : outbound) (v : rrr_mqtt_p_protocol_version) (m : message) : Prop :=
  assembled_data_size o = Z.of_nat (length (message_wire v m)) /\
  (message_wire v m = [] \/ exists b, assembled_data o = Some b /\
     take (length (message_wire v m)) b = message_wire v m).

(** A packet that can be sent on a connection as the message: in its version, with the flags
    of its type. *)
Record ready (big : bool) (moved : Z -> Z -> Z) (c : rrr_mqtt_conn) (o : outbound)
    (v : rrr_mqtt_p_protocol_version) (t : rrr_mqtt_p_type_properties) (m : message) : Prop := {
  ready_version : default (protocol_version (o_packet o)) (c_protocol_version c) = v;
  ready_table : rrr_mqtt_p_get_type_properties (message_type m) = Ret t;
  ready_type : type_properties (o_packet o) = t;
  ready_flags : type_flags (o_packet o) = message_flags t m;
  ready_says : represents big (set_protocol_version (o_packet o) v) m;
  ready_ok : message_ok v m;
  ready_send : sendable (o_packet o) m;
  ready_readable : props_readable big m;
  ready_stays : buffer_stays (fun _ => true) moved v m;
  ready_payload : match payload (o_packet o) with
                  | None => True
                  | Some l => l <> [] /\ message_type m = RRR_MQTT_P_TYPE_PUBLISH
                  end;
  ready_cache : cache_ok o v m;
  ready_size : Z.of_nat (length (message_wire v m ++ default [] (payload (o_packet o)))) <= 0xfffffff
}.

Lemma set_version_same p : set_protocol_version p (protocol_version p) = p.
Proof. by destruct p. Qed.

Section Send.
Context {W : Type}.
Context (send_push send_push_urgent : W -> list Z -> Z * W) (chunk_limit_reached : W -> bool).
Context (big : bool) (alloc_ok : Z -> bool) (moved : Z -> Z -> Z) (now : Z).
Context (Halloc : forall n, alloc_ok n = true) (Hsame : forall a, moved a a = 0).

Lemma assemble_fresh p v m : protocol_version p = v -> represents big p m -> message_ok v m -> sendable p m ->
  props_readable big m -> buffer_stays (fun _ => true) moved v m ->
  Z.of_nat (length (message_wire v m)) <= 0xfffffff ->
  exists b, RRR_MQTT_P_GET_ASSEMBLER big alloc_ok moved p =
    Ret (RRR_MQTT_ASSEMBLE_OK, Some b, Z.of_nat (length (message_wire v m))) /\
    take (length (message_wire v m)) b = message_wire v m.
Proof using Halloc Hsame.
  intros <- Hs Hok Hsend Hp Hst Hl.
  destruct (assemble_stays big alloc_ok moved p m) as [(b & -> & Hb)|[(? & ? & _ & n & Hn)|(_ & Hn & _)]]; try done; [lia|..].
  - by exists b.
  - by rewrite Halloc in Hn.
  - destruct Hn. unfold buffer_stays in *. rewrite Halloc. done.
Qed.

Lemma assemble_outbound_ok c o v t m : ready big moved c o v t m ->
  exists o', assemble_outbound big alloc_ok moved c o = Ret (RRR_MQTT_OK, o') /\
    o_packet o' = set_protocol_version (o_packet o) v /\ assembled_ok o' v m.
Proof using Halloc Hsame.
  intros R. pose proof (ready_size _ _ _ _ _ _ _ R) as Hsize. rewrite length_app in Hsize.
  assert (forall p, p = set_protocol_version (o_packet o) v ->
    exists b, RRR_MQTT_P_GET_ASSEMBLER big alloc_ok moved p =
      Ret (RRR_MQTT_ASSEMBLE_OK, Some b, Z.of_nat (length (message_wire v m))) /\
      take (length (message_wire v m)) b = message_wire v m) as Hasm.
  { intros p ->. apply assemble_fresh; [done|apply R|apply R|exact (ready_send _ _ _ _ _ _ _ R)|apply R|apply R|lia]. }
  assert (forall data q la, (if Z.of_nat (length (message_wire v m)) =? 0 then None else Some data) = q ->
    take (length (message_wire v m)) data = message_wire v m ->
    assembled_ok (mk_out (set_protocol_version (o_packet o) v) q (Z.of_nat (length (message_wire v m))) la) v m)
    as Hout.
  { intros data q la <- Hd. split; [done|]. destruct (Z.eqb_spec (Z.of_nat (length (message_wire v m))) 0) as [E|E].
    - left. apply nil_length_inv. lia.
    - right. by exists data. }
  unfold assemble_outbound. set (o1 := match c_protocol_version c with Some _ => _ | None => _ end).
  assert (o_packet o1 = set_protocol_version (o_packet o) v /\
    (assembled_data o1 = None \/ (o1 = o /\ protocol_version (o_packet o) = v))) as [Ep Ho1].
  { pose proof (ready_version _ _ _ _ _ _ _ R) as Hv. subst o1. destruct (c_protocol_version c) as [w|]; cbn in Hv.
    - subst w. case_bool_decide as E; [|split; [done|by left]]. rewrite E, set_version_same. auto.
    - rewrite <- Hv, set_version_same. auto. }
  destruct (assembled_data o1) as [b|] eqn:Eb.
  - destruct Ho1 as [?|[E Hv]]; [done|]. exists o1. split; [done|]. split; [done|].
    pose proof (ready_cache _ _ _ _ _ _ _ R) as Hc. unfold cache_ok in Hc. rewrite <- E, Eb in Hc.
    rewrite E in Hc. destruct (Hc Hv) as (Hne & Ht & Hs). split; [by rewrite E|]. right. by exists b.
  - destruct (Hasm (o_packet o1) Ep) as (b & -> & Hb). cbn [mbind outcome_bind].
    change (negb (RRR_MQTT_ASSEMBLE_OK =? RRR_MQTT_ASSEMBLE_OK)) with false. cbv iota.
    eexists. split; [done|]. split; [done|]. rewrite Ep. by eapply Hout.
Qed.

Lemma send_data_ok o v t m p : assembled_ok o v m -> o_packet o = p ->
  match payload p with
  | None => True
  | Some l => l <> [] /\ message_wire v m <> []
  end ->
  send_data o ((16 * message_type m + message_flags t m) ::
     vint (Z.of_nat (length (message_wire v m ++ default [] (payload p))))) =
  Ret (frame t v m (default [] (payload p))).
Proof.
  intros [Es Hd] Ep Hp. unfold send_data. rewrite Ep, Es.
  assert ((if 0 <? Z.of_nat (length (message_wire v m)) then
       match assembled_data o with
       | Some d => bytes_at 0 (Z.of_nat (length (message_wire v m))) d
       | None => Oob
       end
     else match payload p with Some _ => Bug | None => Ret [] end) = Ret (message_wire v m)) as ->.
  { destruct (message_wire v m) as [|b l] eqn:Ew.
    - cbn. destruct (payload p); [|done]. by destruct Hp.
    - rewrite (proj2 (Z.ltb_lt _ _)) by (cbn; lia). destruct Hd as [?|(d & -> & Hd)]; [done|].
      rewrite <- (take_drop (length (b :: l)) d), Hd. by apply (bytes_at_app [] (b :: l) _ 0). }
  cbn [mbind outcome_bind]. unfold frame. destruct (payload p) as [[|x l]|]; cbn [default].
  - by destruct Hp.
  - done.
  - rewrite app_nil_r. done.
Qed.

Lemma type_and_flags p t m : type_properties p = t -> type_id t = message_type m -> 1 <= message_type m <= 15 ->
  type_flags p = message_flags t m -> 0 <= message_flags t m < 16 ->
  u8 (RRR_MQTT_P_GET_TYPE_AND_FLAGS p) = 16 * message_type m + message_flags t m.
Proof.
  intros Et Hid Hty Ef Hf. unfold RRR_MQTT_P_GET_TYPE_AND_FLAGS, RRR_MQTT_P_GET_TYPE. rewrite Et, Ef, Hid.
  rewrite lor_shiftl_add by (change (2 ^ 4) with 16; lia). rewrite wrap_small by lia. lia.
Qed.

Lemma create_vint n : 0 <= n <= 0xfffffff -> exists rest,
  rrr_mqtt_connection_create_variable_int n = (RRR_MQTT_OK, vint n ++ rest, Z.of_nat (length (vint n))).
Proof.
  intros Hn. unfold rrr_mqtt_connection_create_variable_int. rewrite (proj2 (Z.ltb_ge _ _)) by lia.
  destruct (create_variable_int_spec 4 n 1) as [rest ->]; [lia|lia|lia|change (128 ^ Z.of_nat 4) with 0x10000000; lia|lia|].
  exists rest. f_equal. unfold vint. lia.
Qed.

Lemma message_flags_range t v m : rrr_mqtt_p_get_type_properties (message_type m) = Ret t -> message_ok v m ->
  type_id t = message_type m /\ 0 <= message_flags t m < 16 /\
  (has_reserved_flags t <> 0 -> message_flags t m = t_flags t).
Proof.
  intros Ht Hok. destruct (type_table _ _ Ht (message_type_range v m Hok)) as (Hid & Hf & Hres).
  split; [done|]. split; [destruct m; try exact Hf; by destruct Hok as [? _]|].
  intros Hr. destruct m; try done. by destruct Hr; apply Hres.
Qed.

Lemma publish_wire_not_empty v m : message_type m = RRR_MQTT_P_TYPE_PUBLISH -> message_ok v m ->
  message_wire v m <> [].
Proof.
  destruct m; intros E Hok; try discriminate E; cbn [message_type message_wire] in *.
  - unfold str_wire. rewrite <- app_assoc. apply be_enc2_not_empty.
  - subst. destruct Hok as [Hok _]. unfold RRR_MQTT_P_TYPE_PUBACK, RRR_MQTT_P_TYPE_PUBLISH in Hok. lia.
  - subst. by destruct Hok as [[?|?] _].
  - subst. by destruct Hok.
Qed.

(** The step of the protocol and the bytes on the wire. *)
Lemma send_packet_sends urgent c o v t m ph ph' do_stop w :
  in_phase c ph -> ph <> Closing -> ph <> Closed -> (message_type m = RRR_MQTT_P_TYPE_PUBLISH -> ph = Open) ->
  message_type m <= RRR_MQTT_P_TYPE_DISCONNECT -> ready big moved c o v t m ->
  phase_next ph true (message_type m) (reason_v5 (o_packet o)) = Some ph' ->
  exists o', o_packet o' = set_protocol_version (o_packet o) v /\ assembled_ok o' v m /\
    rrr_mqtt_conn_iterator_ctx_send_packet_with send_push send_push_urgent chunk_limit_reached big alloc_ok
      moved now urgent c o do_stop w =
    (let '(ret, w') := (if urgent then send_push_urgent else send_push) w
                         (frame t v m (default [] (payload (o_packet o)))) in
     if ret =? 0 then
       Ret (RRR_MQTT_OK, RRR_MQTT_CONN_STATE_SET (set_last_write_time c now) (flags_of ph'),
            mk_out (o_packet o') (assembled_data o') (assembled_data_size o') now,
            (if negb urgent && chunk_limit_reached w' then 1 else do_stop), w')
     else Ret (RRR_MQTT_SOFT_ERROR, set_last_write_time c now, o', do_stop, w')).
Proof using Halloc Hsame.
  intros Hph Hn1 Hn2 Hpub Hty R Hnext. destruct (assemble_outbound_ok c o v t m R) as (o' & Ha & Ep & Hasm).
  exists o'. split; [done|]. split; [done|].
  destruct (message_flags_range t v m) as (Hid & Hf & Hres); [apply R..|].
  pose proof (message_type_range v m (ready_ok _ _ _ _ _ _ _ R)) as Hrange.
  assert (payload (o_packet o') = payload (o_packet o)) as Epay by (by rewrite Ep).
  assert (type_properties (o_packet o') = t) as Et by (rewrite Ep; apply R).
  assert (type_flags (o_packet o') = message_flags t m) as Efl by (rewrite Ep; apply R).
  assert (forall q, in_phase q ph -> forall A (x y : A), conn_check q x y = y) as Hcheck.
  { intros q Hq A x y. rewrite (conn_check_phase q ph) by done. by rewrite bool_decide_false by intuition. }
  unfold rrr_mqtt_conn_iterator_ctx_send_packet_with. rewrite Hcheck by done.
  assert (RRR_MQTT_P_GET_TYPE (o_packet o) = message_type m) as Egt.
  { unfold RRR_MQTT_P_GET_TYPE. by rewrite (ready_type _ _ _ _ _ _ _ R). }
  assert (RRR_MQTT_P_GET_TYPE (o_packet o') = message_type m) as Egt'.
  { unfold RRR_MQTT_P_GET_TYPE. by rewrite Et. }
  assert (reason_v5 (o_packet o') = reason_v5 (o_packet o)) as Er by (by rewrite Ep).
  pose proof (phase_flags c ph Hph) as (_ & _ & _ & -> & _). rewrite Egt.
  replace (negb (bool_decide (ph = Open)) && (message_type m =? RRR_MQTT_P_TYPE_PUBLISH)) with false.
  2:{ destruct (Z.eqb_spec (message_type m) RRR_MQTT_P_TYPE_PUBLISH) as [E|E]; [|by rewrite andb_false_r].
      by rewrite bool_decide_true by auto. }
  rewrite Ha. cbn [mbind outcome_bind]. change (negb (RRR_MQTT_OK =? RRR_MQTT_OK)) with false. cbv iota zeta.
  rewrite Et, Efl.
  replace (negb (has_reserved_flags t =? 0) && negb (t_flags t =? message_flags t m)) with false.
  2:{ destruct (Z.eqb_spec (has_reserved_flags t) 0) as [|E]; [done|]. by rewrite (Hres E), Z.eqb_refl. }
  pose proof (ready_size _ _ _ _ _ _ _ R) as Hsize. set (data := default [] (payload (o_packet o))) in *.
  destruct Hasm as [Esz Hdata]. rewrite Esz, Epay.
  replace (match payload (o_packet o) with Some p => Z.of_nat (length p) | None => 0 end)
    with (Z.of_nat (length data)) by (subst data; by destruct (payload (o_packet o))).
  rewrite length_app in Hsize. rewrite length_add_bug_const_spec, exact_or_bug_small
    by (unfold length_ok, RRR_LENGTH_MAX; lia).
  cbn [mbind outcome_bind]. rewrite <- Nat2Z.inj_add, <- length_app.
  destruct (create_vint (Z.of_nat (length (message_wire v m ++ data)))) as [rest ->]; [rewrite length_app; lia|].
  change (negb (RRR_MQTT_OK =? 0)) with false. cbv iota.
  pose proof (vint_length 4 (Z.of_nat (length (message_wire v m ++ data))) ltac:(lia)) as Hvl.
  fold (vint (Z.of_nat (length (message_wire v m ++ data)))) in Hvl.
  rewrite (wrap_small 64) by lia. rewrite (proj2 (Z.ltb_ge RRR_LENGTH_MAX _)) by (unfold RRR_LENGTH_MAX; lia).
  rewrite Halloc. cbn [negb]. rewrite (type_and_flags (o_packet o') t m) by done.
  rewrite Nat2Z.id, take_app_length. subst data. rewrite <- Epay.
  rewrite (send_data_ok o' v t m (o_packet o')); [|by split|done|].
  2:{ rewrite Epay. pose proof (ready_payload _ _ _ _ _ _ _ R) as Hp. destruct (payload (o_packet o)); [|done].
      destruct Hp as [? Hp]. split; [done|]. apply publish_wire_not_empty; [done|apply R]. }
  cbn [mbind outcome_bind]. unfold conn_push. rewrite (Hcheck (set_last_write_time c now)) by exact Hph.
  destruct ((if urgent then send_push_urgent else send_push) w _) as [ret w']. destruct (Z.eqb_spec ret 0) as [->|E].
  - cbn [negb Z.eqb]. change (negb (0 =? 0)) with false. cbv iota.
    change RRR_MQTT_CONN_UPDATE_STATE_DIRECTION_OUT with (dir true).
    rewrite (update_state_next _ _ true ph) by (exact Hph || (rewrite Egt'; lia)).
    rewrite Egt', Er, Hnext. done.
  - cbn [negb]. done.
Qed.

End Send.

(** * Receiving *)

(** The read framework asks for two bytes first, so that the parser sees the fixed header, or a
    part of it, before the rest. *)

(** ** A part of the fixed header *)

Lemma vint_prefix_carry n v k x : vint_enc n v !! k = Some x -> (S k < length (vint_enc n v))%nat ->
  128 <= x < 256.
Proof.
  revert v k. induction n as [|n IH]; intros v k; [done|]. cbn [vint_enc].
  pose proof (Z.mod_pos_bound v 128 eq_refl). destruct (Z.ltb_spec v 128); [cbn; lia|].
  destruct k as [|k]; cbn; [intros ?; simplify_eq; lia|]. intros Hx Hl. apply (IH _ _ Hx). lia.
Qed.

Lemma variable_int_short fuel s start v pos result e : (fuel + Z.to_nat pos = 5)%nat -> 0 <= pos ->
  0 <= start -> buffer_ok s -> start + pos <= buf_wpos s < start + Z.of_nat (length (vint v)) ->
  (forall i x, start <= i < buf_wpos s -> read_u8 s i = Ret x -> vint v !! Z.to_nat (i - start) = Some x) ->
  variable_int_loop fuel s start (buf_wpos s) pos result e = Ret (RRR_MQTT_INCOMPLETE, 0, 0).
Proof.
  revert pos result e. pose proof (vint_length 4 v ltac:(lia)) as Hvl. fold (vint v) in Hvl.
  induction fuel as [|fuel IH]; intros pos result e Hf Hpos Hs Hok Hlen Hread; [lia|].
  cbn [variable_int_loop]. rewrite (proj2 (Z.ltb_ge 3 pos)) by lia. unfold beyond.
  destruct (Z.ltb_spec (buf_wpos s) (start + pos + 1)); [done|].
  destruct (read_u8_inside s (start + pos)) as (x & Hx & Hb); [done|lia|]. rewrite Hx. cbn [mbind outcome_bind].
  apply Hread in Hx; [|lia]. replace (start + pos - start) with pos in Hx by lia.
  assert (128 <= x < 256) as Hc by (apply (vint_prefix_carry 4 v (Z.to_nat pos) x Hx); fold (vint v); lia).
  cbv zeta. destruct (carry_low x Hb) as [_ ->]. rewrite (proj2 (Z.ltb_ge x 128)) by lia.
  apply IH; try done; lia.
Qed.

(** Nothing is changed while the fixed header is not there. *)
Lemma parse_short big alloc_ok alloc_sub alloc_packet alloc_token now t m n k w :
  rrr_mqtt_p_get_type_properties (message_type m) = Ret t -> 1 <= message_type m <= 15 ->
  0 <= message_flags t m < 16 -> (has_reserved_flags t <> 0 -> message_flags t m = t_flags t) ->
  0 <= n <= 0xfffffff -> (k < length (vint n))%nat ->
  let bytes := (16 * message_type m + message_flags t m) :: take k (vint n) in
  let s := rrr_mqtt_parse_session_update rrr_mqtt_parse_session_init bytes w in
  rrr_mqtt_packet_parse big alloc_ok alloc_sub alloc_packet alloc_token now s = Ret s.
Proof.
  intros Ht Hty Hf Hres Hn Hk bytes s. pose proof (vint_length 4 n ltac:(lia)) as Hvl. fold (vint n) in Hvl.
  assert (byte_ok (16 * message_type m + message_flags t m)) as Hb by (unfold byte_ok; lia).
  assert (length bytes = S k) as Elen by (subst bytes; cbn [length]; rewrite length_take; lia).
  assert (buffer_ok s) as Hok.
  { exists bytes. split; [done|]. split; [done|]. split.
    - constructor; [done|]. apply Forall_take, vint_bytes. lia.
    - change (buf_wpos s) with (Z.of_nat (length bytes)). lia. }
  unfold rrr_mqtt_packet_parse. change (buf s) with (Some bytes). cbv iota.
  change (RRR_MQTT_PARSE_IS_ERR s) with false. change (RRR_MQTT_PARSE_IS_COMPLETE s) with false. cbv iota.
  destruct (buf_wpos s <? 2); [done|]. change (negb (RRR_MQTT_PARSE_FIXED_HEADER_IS_DONE s)) with true. cbv iota.
  assert (parse_fixed_header s = Ret (false, s)) as ->; [|done].
  unfold parse_fixed_header. assert (read_u8 s 0 = Ret (16 * message_type m + message_flags t m)) as -> by done.
  cbn [mbind outcome_bind]. destruct (MqttParseSafe.type_nibble _ Hb) as [-> _].
  assert (((16 * message_type m + message_flags t m) >>> 4) = message_type m) as ->.
  { rewrite Z.shiftr_div_pow2 by lia. change (2 ^ 4) with 16. zdiv. }
  assert (((16 * message_type m + message_flags t m) &&& 0xF) = message_flags t m) as ->.
  { change 0xF with (Z.ones 4). rewrite Z.land_ones by lia. change (2 ^ 4) with 16. zdiv. }
  rewrite (proj2 (Z.eqb_neq _ 0)) by lia. rewrite Ht. cbn [mbind outcome_bind].
  replace (negb (has_reserved_flags t =? 0) && negb (message_flags t m =? t_flags t)) with false.
  2:{ destruct (Z.eqb_spec (has_reserved_flags t) 0) as [|Hr]; [done|]. by rewrite (Hres Hr), Z.eqb_refl. }
  unfold rrr_mqtt_parse_variable_int. rewrite (variable_int_short 5 s 1 n 0 0 1); try done.
  - change (buf_wpos s) with (Z.of_nat (length bytes)). lia.
  - intros i x Hi. unfold read_u8. change (buf s) with (Some bytes). intros Hx. apply load8_Some in Hx as [_ Hx].
    subst bytes. replace (Z.to_nat i) with (S (Z.to_nat (i - 1))) in Hx by lia. cbn in Hx.
    by apply lookup_take_Some in Hx as [? _].
Qed.

(** ** Flags of the parser *)

(** Most of the parser leaves a flag of the session alone. *)
Definition keeps (g : Z) {A} (f : parser A) : Prop :=
  forall s s' r, f s = Ret (s', r) -> status_is s' g = status_is s g.

Section Keeps.
Context (g : Z).

Lemma keeps_bind {A B} (f : parser A) (k : A -> parser B) : keeps g f -> (forall a, keeps g (k a)) -> keeps g (f ≫= k).
Proof.
  intros Hf Hk s s' r. unfold mbind, parser_bind. destruct (f s) as [[s1 [c|a]]| |] eqn:E; intros H; [..|done|done].
  - injection H as <- _. by apply Hf in E.
  - rewrite (Hk a _ _ _ H). by apply Hf in E.
Qed.

Lemma keeps_give {A} (a : A) : keeps g (give a).
Proof. by intros s s' r [= <- _]. Qed.
Lemma keeps_stop {A} c : keeps g (stop (A := A) c).
Proof. by intros s s' r [= <- _]. Qed.
Lemma keeps_ask : keeps g ask.
Proof. by intros s s' r [= <- _]. Qed.
Lemma keeps_oob {A} : keeps g (oob (A := A)).
Proof. by intros s s' r. Qed.
Lemma keeps_bug {A} : keeps g (bug (A := A)).
Proof. by intros s s' r. Qed.
Lemma keeps_call {A} (f : rrr_mqtt_parse_session -> outcome A) : keeps g (call f).
Proof. intros s s' r. unfold call. destruct (f s); by intros [= <- _]. Qed.
Lemma keeps_modify f : (forall s, status_is (f s) g = status_is s g) -> keeps g (modify f).
Proof. intros Hf s s' r [= <- _]. apply Hf. Qed.
Lemma keeps_put_packet p : keeps g (put_packet p).
Proof. by apply keeps_modify. Qed.
Lemma keeps_flag f : (f &&& g) = 0 -> keeps g (modify (fun s => RRR_MQTT_PARSE_STATUS_SET s f)).
Proof. intros Hf. apply keeps_modify. intros s. by rewrite MqttParseSafe.status_is_set, Hf, orb_false_r. Qed.

End Keeps.

Create HintDb keeps_db.
#[local] Hint Resolve keeps_give keeps_stop keeps_ask keeps_oob keeps_bug keeps_call keeps_put_packet : keeps_db.

Ltac head_of f := match f with ?g _ => head_of g | _ => f end.

Ltac keeps :=
  repeat first
    [ solve [auto 1 with keeps_db nocore]
    | apply keeps_bind; [|intros ?]
    | progress cbv zeta
    | match goal with
      | |- keeps _ (match ?x with _ => _ end) => destruct x
      | |- keeps _ (modify (fun s => RRR_MQTT_PARSE_STATUS_SET s _)) => by apply keeps_flag
      | |- keeps _ (modify _) => by apply keeps_modify
      end
    | match goal with |- keeps _ ?f => let h := head_of f in unfold h end ].

Section Keeps_parser.
Context (big : bool) (alloc_ok alloc_sub alloc_packet : Z -> bool) (alloc_token : nat -> bool) (now : Z).
Context (g : Z) (Hg : g = RRR_MQTT_PARSE_STATUS_MOVE_PAYLOAD_TO_PACKET \/ g = RRR_MQTT_PARSE_STATUS_FIXED_HEADER_DONE).

Lemma keeps_done : keeps g parse_done.
Proof using Hg.
  apply keeps_modify. intros s. rewrite !MqttParseSafe.status_is_set.
  destruct Hg as [-> | ->]; cbn [Z.land]; by rewrite !orb_false_r.
Qed.

Lemma keeps_end_header e : keeps g (end_header e).
Proof using Hg. destruct Hg as [-> | ->]; keeps. Qed.

#[local] Hint Resolve keeps_done keeps_end_header : keeps_db.

Lemma keeps_header_payload header payload : (forall e, keeps g (header e)) -> (forall e, keeps g (payload e)) ->
  keeps g (header_and_payload header payload).
Proof using Hg. intros Hh Hp. keeps; auto. Qed.

Lemma keeps_sub_loop fuel opts e : keeps g (sub_usub_loop big alloc_ok alloc_sub alloc_token fuel opts e).
Proof. revert e. induction fuel as [|fuel IH]; intros e; cbn [sub_usub_loop]; keeps; auto. Qed.

Lemma type_parse_keeps t v m : type_id t = message_type m -> message_ok v m -> accepted v m ->
  (message_type m = RRR_MQTT_P_TYPE_PUBLISH -> g = RRR_MQTT_PARSE_STATUS_FIXED_HEADER_DONE) ->
  keeps g (type_parse big alloc_ok alloc_sub alloc_packet alloc_token now t).
Proof using Hg.
  intros Ht Hok Hacc Hpub. unfold type_parse. rewrite Ht.
  destruct m; cbn [message_type] in *; try done; cbn [Z.eqb Z.leb andb Pos.eqb].
  - apply keeps_header_payload; intros e; keeps.
  - apply keeps_header_payload; intros e; keeps.
  - specialize (Hpub eq_refl). apply keeps_header_payload; intros e; [keeps|].
    unfold publish_payload. apply keeps_bind; [apply keeps_call|]. intros n. destruct (n =? 0); [apply keeps_done|].
    apply keeps_bind; [apply keeps_ask|]. intros s. destruct (_ <=? _); [|apply keeps_stop].
    apply keeps_bind; [|intros _; apply keeps_done]. by apply keeps_flag; rewrite Hpub.
  - destruct Hok as [Hty _]. unfold RRR_MQTT_P_TYPE_PUBACK, RRR_MQTT_P_TYPE_PUBCOMP, RRR_MQTT_P_TYPE_CONNECT,
      RRR_MQTT_P_TYPE_CONNACK, RRR_MQTT_P_TYPE_PUBLISH in *.
    rewrite !(proj2 (Z.eqb_neq _ _)) by lia. rewrite !(proj2 (Z.leb_le _ _)) by lia.
    apply keeps_header_payload; intros e; keeps.
  - change (keeps g (rrr_mqtt_parse_subscribe big alloc_ok alloc_sub alloc_packet alloc_token now)).
    keeps; auto using keeps_sub_loop.
  - change (keeps g (rrr_mqtt_parse_unsubscribe big alloc_ok alloc_sub alloc_packet alloc_token now)).
    keeps; auto using keeps_sub_loop.
  - destruct Hok as [-> | ->]; apply keeps_header_payload; intros e; keeps.
Qed.

End Keeps_parser.

Section Moves.
Context (big : bool) (alloc_ok alloc_sub alloc_packet : Z -> bool) (alloc_token : nat -> bool) (now : Z).

Abbreviation quiet := (keeps RRR_MQTT_PARSE_STATUS_MOVE_PAYLOAD_TO_PACKET).

(** A payload that is moved is not empty. *)
Definition moves_some (s : rrr_mqtt_parse_session) : Prop := moves s = true -> payload_pos s <> target_size s.

Lemma publish_payload_moves e s s' r : publish_payload e s = Ret (s', r) -> moves_some s -> moves_some s'.
Proof.
  unfold publish_payload, get_payload_size, call, mbind, parser_bind, outcome_bind.
  destruct (rrr_length_from_biglength_sub_bug_const _ _) as [n| |] eqn:En; try done.
  destruct (Z.eqb_spec n 0) as [->|Hn].
  - intros H Hs. pose proof (keeps_done _ (or_introl eq_refl) _ _ _ H) as Em. unfold moves_some, moves. rewrite Em.
    injection H as <- _. exact Hs.
  - unfold ask. destruct (_ <=? _); [|by intros [= <- _]]. intros [= <- _] _ _. cbn. intros E. apply Hn.
    rewrite E in En. unfold rrr_length_from_biglength_sub_bug_const in En. rewrite Z.ltb_irrefl, Z.sub_diag in En.
    by injection En as <-.
Qed.

Lemma header_publish_moves header s s' r : (forall e, quiet (header e)) -> moves s = false ->
  header_and_payload header publish_payload s = Ret (s', r) -> moves_some s'.
Proof.
  intros Hh Hs H.
  assert (forall s1 s' r, moves s1 = false -> (e ← begin_payload; publish_payload e) s1 = Ret (s', r) -> moves_some s')
    as Hp.
  { intros s1 s2 r2 H1. unfold mbind, parser_bind. destruct (begin_payload s1) as [[s3 [c|e]]| |] eqn:E; try done.
    - assert (quiet begin_payload) as Q by keeps. apply Q in E. intros [= <- _]. unfold moves_some, moves in *. congruence.
    - assert (quiet begin_payload) as Q by keeps. apply Q in E. intros H2.
      apply (publish_payload_moves e s3 s2 r2 H2). unfold moves_some, moves in *. congruence. }
  unfold header_and_payload, ask in H. unfold mbind at 1, parser_bind at 1 in H.
  destruct (RRR_MQTT_PARSE_STATUS_PAYLOAD_IS_DONE s); [done|].
  destruct (RRR_MQTT_PARSE_VARIABLE_HEADER_IS_DONE s); [by apply (Hp s s' r)|].
  unfold mbind at 1, parser_bind at 1 in H. destruct (header _ s) as [[s1 [c|e]]| |] eqn:E; try done; apply Hh in E.
  { injection H as <- _. unfold moves_some, moves in *. congruence. }
  destruct e as [e|]; [|apply (keeps_done _ (or_introl eq_refl)) in H; unfold moves_some, moves in *; congruence].
  unfold mbind at 1, parser_bind at 1 in H. destruct (end_header e s1) as [[s2 [c|[]]]| |] eqn:E2; try done;
    assert (quiet (end_header e)) as Q by keeps; apply Q in E2.
  - injection H as <- _. unfold moves_some, moves in *. congruence.
  - apply (Hp s2 s' r); [unfold moves in *; congruence|done].
Qed.

Lemma type_parse_moves t v m s s' r : type_id t = message_type m -> message_ok v m -> accepted v m ->
  moves s = false -> type_parse big alloc_ok alloc_sub alloc_packet alloc_token now t s = Ret (s', r) ->
  moves s' = true -> message_type m = RRR_MQTT_P_TYPE_PUBLISH /\ payload_pos s' <> target_size s'.
Proof.
  intros Ht Hok Hacc Hs H Hm.
  destruct (decide (message_type m = RRR_MQTT_P_TYPE_PUBLISH)) as [E|E].
  - split; [done|]. unfold type_parse in H. rewrite Ht, E in H.
    apply (header_publish_moves (publish_header big alloc_ok alloc_sub alloc_packet alloc_token now) s s' r);
      [|done|exact H|done].
    intros e. keeps.
  - apply (type_parse_keeps _ _ _ _ _ _ _ (or_introl eq_refl) t v m) in H; try done. unfold moves in *. congruence.
Qed.

Lemma packet_parse_moves v w t m n rest s' :
  rrr_mqtt_p_get_type_properties (message_type m) = Ret t -> message_ok v m -> accepted v m ->
  0 <= n <= 0xfffffff ->
  rrr_mqtt_packet_parse big alloc_ok alloc_sub alloc_packet alloc_token now
    (rrr_mqtt_parse_session_update rrr_mqtt_parse_session_init
      ((16 * message_type m + message_flags t m) :: vint n ++ rest) w) = Ret s' ->
  (RRR_MQTT_PARSE_IS_COMPLETE s' = true -> RRR_MQTT_PARSE_FIXED_HEADER_IS_DONE s' = true) /\
  (moves s' = true -> message_type m = RRR_MQTT_P_TYPE_PUBLISH /\ payload_pos s' <> target_size s').
Proof.
  intros Ht Hok Hacc Hn H. destruct (message_flags_range t v m Ht Hok) as (Hid & Hf & Hres).
  set (bytes := _ :: _) in H. set (s0 := rrr_mqtt_parse_session_update _ _ _) in H.
  unfold rrr_mqtt_packet_parse in H. change (buf s0) with (Some bytes) in H. cbv iota in H.
  change (RRR_MQTT_PARSE_IS_ERR s0) with false in H. change (RRR_MQTT_PARSE_IS_COMPLETE s0) with false in H.
  cbv iota in H. destruct (buf_wpos s0 <? 2); [by injection H as <-|].
  change (negb (RRR_MQTT_PARSE_FIXED_HEADER_IS_DONE s0)) with true in H. cbv iota in H.
  rewrite (parse_fixed_header_here (1 + Z.of_nat (length (vint n)) + n) (message_flags t m) s0 t n rest) in H;
    try done; try (by rewrite Hid); [|rewrite Hid; by apply (message_type_range v)].
  cbn [mbind outcome_bind negb] in H. set (s1 := RRR_MQTT_PARSE_STATUS_SET _ _) in H.
  change (RRR_MQTT_PARSE_VARIABLE_HEADER_IS_DONE s1) with false in H. cbn [negb] in H. cbv zeta in H.
  set (s2 := set_attempts _ _) in H. change (RRR_MQTT_PARSE_VARIABLE_HEADER_IS_DONE s2) with false in H.
  change (10 <? header_parse_attempts s2) with false in H. cbn [negb andb] in H.
  change (s_type_properties s2) with (Some t) in H. cbv iota in H.
  destruct (type_parse _ _ _ _ _ _ _ s2) as [[s3 r]| |] eqn:E; cbn [mbind outcome_bind] in H; try done.
  assert (moves s3 = true -> message_type m = RRR_MQTT_P_TYPE_PUBLISH /\ payload_pos s3 <> target_size s3) as H3
    by (apply (type_parse_moves t v m s2 s3 r); done).
  assert (RRR_MQTT_PARSE_FIXED_HEADER_IS_DONE s3 = true) as H4.
  { unfold RRR_MQTT_PARSE_FIXED_HEADER_IS_DONE.
    by rewrite (type_parse_keeps _ _ _ _ _ _ _ (or_intror eq_refl) t v m Hid Hok Hacc (fun _ => eq_refl) _ _ _ E). }
  unfold moves, RRR_MQTT_PARSE_FIXED_HEADER_IS_DONE in *.
  destruct (negb (_ =? RRR_MQTT_OK)).
  { destruct (_ =? RRR_MQTT_INCOMPLETE); injection H as <-; [done|]. unfold SET_ERR.
    rewrite !MqttParseSafe.status_is_set, H4. split; [done|]. intros Hm. apply H3. by rewrite orb_false_r in Hm. }
  destruct (RRR_MQTT_PARSE_STATUS_PAYLOAD_IS_DONE s3); [|by injection H as <-].
  destruct (packet s3); [|done]. destruct (rrr_length_from_biglength_bug_const _); cbn in H; try done.
  injection H as <-. rewrite !MqttParseSafe.status_is_set, !MqttParseSafe.status_is_packet, H4.
  split; [done|]. intros Hm. apply H3. by rewrite orb_false_r in Hm.
Qed.

End Moves.

(** ** The callbacks of the read framework *)

(** No part of a packet has been looked at but for the beginning of its fixed header. *)
Definition between (c : rrr_mqtt_conn) : Prop :=
  exists o n v, parse_session c = mk_session 0 o 0 None v None 0 0 0 n 0 0 0.

Lemma between_update c bytes w : between c ->
  rrr_mqtt_parse_session_update (parse_session c) bytes w =
  rrr_mqtt_parse_session_update rrr_mqtt_parse_session_init bytes w.
Proof. intros (o & n & v & ->). done. Qed.

Lemma between_init c : between (set_parse_session c rrr_mqtt_parse_session_init).
Proof. by eexists _, _, _. Qed.

Section Receive.
Context {W : Type}.
Context (event_handler : rrr_mqtt_conn -> Z -> option rrr_mqtt_p -> W -> outcome (Z * option Z * W)).
Context (handler_callback : rrr_mqtt_conn -> rrr_mqtt_p -> W -> outcome (Z * rrr_mqtt_conn * W)).
Context (big : bool) (alloc_ok alloc_sub alloc_packet : Z -> bool) (alloc_token : nat -> bool) (now : Z).

Lemma get_target_size_short c t v m n k : between c ->
  rrr_mqtt_p_get_type_properties (message_type m) = Ret t -> message_ok v m ->
  0 <= n <= 0xfffffff -> (k < length (vint n))%nat ->
  exists c', rrr_mqtt_conn_read_get_target_size big alloc_ok alloc_sub alloc_packet alloc_token now
      ((16 * message_type m + message_flags t m) :: take k (vint n)) c = Ret (RRR_READ_INCOMPLETE, None, c') /\
    between c' /\ c' = set_parse_session c (parse_session c').
Proof.
  intros Hb Ht Hok Hn Hk. destruct (message_flags_range t v m Ht Hok) as (Hid & Hf & Hres).
  unfold rrr_mqtt_conn_read_get_target_size, rrr_mqtt_conn_parse. pose proof Hb as (o & n' & v' & Es).
  assert (RRR_MQTT_PARSE_IS_COMPLETE (parse_session c) = false) as -> by (by rewrite Es).
  rewrite (between_update c _ _ Hb), parse_short by (done || by apply (message_type_range v)).
  cbn [mbind outcome_bind]. eexists. split; [reflexivity|]. split; [by eexists _, _, _|done].
Qed.

(** The frame of a message and the packet that is made of it. *)
Definition delivered (t : rrr_mqtt_p_type_properties) (v : rrr_mqtt_p_protocol_version) (m : message)
    (data : list Z) (q : rrr_mqtt_p) : Prop :=
  represents big q m /\ type_properties q = t /\ protocol_version q = v /\ type_flags q = message_flags t m /\
  payload q = (if bool_decide (data = []) then None else Some data).

Context (Halloc : forall n, alloc_ok n = true) (Hsub : forall n, alloc_sub n = true).
Context (Hpacket : forall n, alloc_packet n = true) (Htoken : forall n, alloc_token n = true).

(** A session in which the packet is complete. *)
Definition holds_packet (t : rrr_mqtt_p_type_properties) (v : rrr_mqtt_p_protocol_version) (m : message)
    (data : list Z) (s : rrr_mqtt_parse_session) : Prop :=
  RRR_MQTT_PARSE_IS_COMPLETE s = true /\ target_size s = Z.of_nat (length (frame t v m data)) /\
  moves s = negb (bool_decide (data = [])) /\
  (data <> [] -> payload_pos s = Z.of_nat (length (frame t v m data)) - Z.of_nat (length data)) /\
  exists q s', packet s = Some q /\ rrr_mqtt_packet_parse_session_extract_packet s =
      Ret (set_type_flags q (message_flags t m), s') /\
    payload q = None /\ delivered t v m [] (set_type_flags q (message_flags t m)).

Lemma get_target_size_frame c t v m data rest : between c ->
  rrr_mqtt_p_get_type_properties (message_type m) = Ret t -> message_ok v m -> accepted v m -> v_id v <= 5 ->
  (c_protocol_version c = Some v \/ message_type m = RRR_MQTT_P_TYPE_CONNECT) ->
  (data = [] \/ message_type m = RRR_MQTT_P_TYPE_PUBLISH) -> bytes_ok (data ++ rest) ->
  Z.of_nat (length (message_wire v m ++ data)) <= 0xfffffff ->
  Z.of_nat (length (frame t v m data ++ rest)) < 2 ^ 31 ->
  exists s, rrr_mqtt_conn_read_get_target_size big alloc_ok alloc_sub alloc_packet alloc_token now
      (frame t v m data ++ rest) c =
      Ret (RRR_READ_OK, Some (Z.of_nat (length (frame t v m data))), set_parse_session c s) /\
    holds_packet t v m data s.
Proof using Halloc Hsub Hpacket Htoken.
  intros Hb Ht Hok Hacc Hv Hw Hdata Hbytes Hlen Hlim.
  destruct (parse_frame big alloc_ok alloc_sub alloc_packet alloc_token now v (c_protocol_version c) t m data rest)
    as (s & e & Es & R1 & R2 & R3 & R4 & q & s' & R5 & (S1 & S2 & S3 & S4) & R6 & R7); try done.
  destruct (packet_parse_moves big alloc_ok alloc_sub alloc_packet alloc_token now v (c_protocol_version c) t m
    (Z.of_nat (length (message_wire v m ++ data))) (message_wire v m ++ data ++ rest) s) as [Hfix Hmov]; try done.
  { lia. }
  { revert Es. unfold frame. cbn [app]. by rewrite <- !app_assoc. }
  exists s. split.
  - unfold rrr_mqtt_conn_read_get_target_size, rrr_mqtt_conn_parse. pose proof Hb as (o & n' & v' & Ei).
    assert (RRR_MQTT_PARSE_IS_COMPLETE (parse_session c) = false) as -> by (by rewrite Ei).
    rewrite (between_update c _ _ Hb), Es. cbn [mbind outcome_bind]. rewrite R1, R2.
    change (negb (RRR_MQTT_OK =? RRR_MQTT_OK)) with false. cbn [andb parse_session set_parse_session].
    by rewrite (Hfix R2), R3.
  - split; [done|]. split; [done|]. split.
    { destruct (moves s) eqn:Em; case_bool_decide as Ed; try done.
      - destruct (Hmov eq_refl) as [Hp Hne]. destruct Hne. rewrite R3, R4, (R7 Hp), Ed. cbn. lia.
      - by specialize (R6 Ed). }
    split; [intros Hne; rewrite R4; apply R7; by destruct Hdata|].
    unfold rrr_mqtt_packet_parse_session_extract_packet in *. destruct (packet s) as [q'|]; [|done].
    destruct (negb _); [done|]. exists q', s'. split; [done|].
    set (q1 := set_type_flags (set_received_size q _) _) in R5.
    assert (set_type_flags q' (s_type_flags s) = q1 /\ set_packet s None = s') as [Eq Es']
      by (split; congruence).
    assert (set_type_flags q' (message_flags t m) = q1) as Eq'.
    { change (set_type_flags (set_type_flags q' (s_type_flags s)) (message_flags t m) = q1). by rewrite Eq. }
    rewrite Eq', Eq, Es'. split; [done|].
    split; [by change (payload (set_type_flags q' (message_flags t m)) = None); rewrite Eq'|].
    split; [by apply represents_out|]. by split_and!.
Qed.

Lemma holds_packet_moved t v m data s c : holds_packet t v m data s -> parse_session c = s ->
  Z.of_nat (length (frame t v m data)) < 2 ^ 31 ->
  exists s1 rx q s2, move_payload alloc_ok (frame t v m data) c = Ret (0, set_parse_session c s1, rx) /\
    RRR_MQTT_PARSE_IS_COMPLETE s1 = true /\ (exists p, packet s1 = Some p) /\
    rrr_mqtt_packet_parse_session_extract_packet s1 = Ret (q, s2) /\ delivered t v m data q.
Proof using Halloc.
  intros (Hc & Hts & Hm & Hpos & q & s' & Ep & Eq & Epay & Hd) Es Hlim. unfold move_payload. rewrite Es.
  change (status_is s RRR_MQTT_PARSE_STATUS_MOVE_PAYLOAD_TO_PACKET) with (moves s). rewrite Hm.
  case_bool_decide as Ed; cbn [negb].
  - exists s, (Some (frame t v m data)). eexists _, _. split; [|split; [done|split; [by exists q|split; [exact Eq|by rewrite Ed]]]].
    f_equal. f_equal. f_equal. destruct c; cbn in *. by subst.
  - assert (frame t v m data = ((16 * message_type m + message_flags t m)
      :: vint (Z.of_nat (length (message_wire v m ++ data))) ++ message_wire v m) ++ data) as Ef
      by (unfold frame; cbn [app]; by rewrite <- app_assoc).
    rewrite Ep, Epay, (Hpos Ed). set (pre := _ :: _) in Ef. rewrite Ef in *. rewrite length_app in *.
    unfold rrr_length_from_biglength_sub_bug_const, RRR_LENGTH_MAX.
    rewrite (proj2 (Z.ltb_ge _ _)), (wrap_small 64), (proj2 (Z.ltb_ge _ _)), wrap_small by lia.
    cbn [mbind outcome_bind]. rewrite Halloc. replace (_ - (_ - _)) with (Z.of_nat (length data)) by lia.
    replace (_ - _) with (Z.of_nat (length pre)) by lia.
    pose proof (bytes_at_middle pre data []) as Hb. rewrite app_nil_r in Hb. rewrite Hb. cbn [mbind outcome_bind].
    eexists _, _, _, _. split; [done|]. split; [done|]. split; [by eexists|].
    unfold rrr_mqtt_packet_parse_session_extract_packet in *. rewrite Ep in Eq. cbn [packet set_packet].
    change (RRR_MQTT_PARSE_STATUS_PAYLOAD_IS_DONE (set_packet s _)) with (RRR_MQTT_PARSE_STATUS_PAYLOAD_IS_DONE s).
    destruct (negb (RRR_MQTT_PARSE_STATUS_PAYLOAD_IS_DONE s)); [done|]. split; [reflexivity|].
    assert (s_type_flags s = message_flags t m) as Ef' by (injection Eq; congruence). cbn [s_type_flags set_packet].
    rewrite Ef'. destruct Hd as (D1 & D2 & D3 & D4 & _). unfold delivered. rewrite bool_decide_false by done.
    repeat split; try done; apply D1.
Qed.

Lemma complete_delivers c s t v m data (w : W) : holds_packet t v m data s ->
  Z.of_nat (length (frame t v m data)) < 2 ^ 31 ->
  (forall c' p w', exists sess w'', event_handler c' RRR_MQTT_CONN_EVENT_PACKET_PARSED (Some p) w' = Ret (0, sess, w'')) ->
  exists q c' w', delivered t v m data q /\ between c' /\ state_flags c' = state_flags c /\
    c_protocol_version c' = c_protocol_version c /\ last_read_time c' = now /\
    rrr_mqtt_conn_read_complete_callback event_handler big alloc_ok alloc_sub alloc_packet alloc_token now
      handler_callback (frame t v m data) (set_parse_session c s) w =
    ('(ret, c', w') ← handler_callback c' q w';
     Ret (ret, (if ret =? RRR_MQTT_SOFT_ERROR
                then RRR_MQTT_CONN_SET_DISCONNECT_REASON_IF_ZERO c' RRR_MQTT_P_5_REASON_PROTOCOL_ERROR else c'), w')).
Proof using Halloc.
  intros Hs Hlim Hev. unfold rrr_mqtt_conn_read_complete_callback. cbv zeta.
  set (c0 := set_last_read_time _ _).
  unfold rrr_mqtt_conn_parse. assert (RRR_MQTT_PARSE_IS_COMPLETE (parse_session c0) = true) as -> by apply Hs.
  cbn [mbind outcome_bind]. change (negb (RRR_MQTT_OK =? RRR_MQTT_OK)) with false. cbv iota.
  assert (RRR_MQTT_PARSE_IS_COMPLETE (parse_session c0) = true) as -> by apply Hs. cbn [negb].
  destruct (holds_packet_moved t v m data s c0 Hs eq_refl Hlim) as (s1 & rx & q & s2 & -> & _ & [p Ep] & Eq & Hd).
  cbn [mbind outcome_bind]. change (negb (0 =? 0)) with false. cbv iota.
  change (packet (parse_session (set_parse_session c0 s1))) with (packet s1). rewrite Ep.
  unfold rrr_mqtt_connection_call_event_handler. change (negb false) with true. cbn [orb andb].
  destruct (has_event_handler (set_parse_session c0 s1) && true).
  - destruct (Hev (set_parse_session c0 s1) p w) as (sess & w' & ->). cbn [mbind outcome_bind].
    change (negb (0 =? 0)) with false. cbv iota.
    change (parse_session (set_event (set_parse_session c0 s1) sess RRR_MQTT_CONN_EVENT_PACKET_PARSED)) with s1.
    rewrite Eq. cbn [mbind outcome_bind].
    eexists q, (set_parse_session (set_event (set_parse_session c0 s1) sess _) _), w'. split; [done|]. split; [apply between_init|].
    split_and!; reflexivity.
  - cbn [mbind outcome_bind]. change (negb (RRR_MQTT_OK =? 0)) with false. cbv iota.
    change (parse_session (set_parse_session c0 s1)) with s1.
    rewrite Eq. cbn [mbind outcome_bind]. exists q, (set_parse_session (set_parse_session c0 s1) rrr_mqtt_parse_session_init), w. split; [done|]. split; [apply between_init|].
    split_and!; reflexivity.
Qed.

End Receive.

(** ** From one connection to another *)

Lemma take_frame t v m data k : (k < length (vint (Z.of_nat (length (message_wire v m ++ data)))))%nat ->
  take (S k) (frame t v m data) =
  (16 * message_type m + message_flags t m) :: take k (vint (Z.of_nat (length (message_wire v m ++ data)))).
Proof. intros Hk. unfold frame. cbn [take]. by rewrite take_app_le by lia. Qed.

(** C12. A packet that is sent on one connection arrives at another.  The sender gives the
    transport one sequence of bytes and makes the step of its protocol phase.  A receiver that is
    between two packets asks for more while it has seen only a part of the fixed header, and
    loses nothing by that; when the bytes are there, whatever follows them, it tells the read
    framework where the packet ends and gives its handler a packet that says the same message in
    the same version with the same payload, and is between two packets again.
    The packet is one the program can send and receive: CONNECT, CONNACK, PUBLISH, PUBACK to
    PUBCOMP, SUBSCRIBE, UNSUBSCRIBE, PINGREQ or PINGRESP (SUBACK, UNSUBACK and DISCONNECT are not
    covered), of MQTT 3.1, 3.1.1 or 5, valid in MQTT, without properties of binary data
    (Correlation Data, Authentication Data), which the parser miscounts (mqtt_parse.c:661).  The
    sender is in a phase in which the packet may be sent (PUBLISH: open).  When its host is big
    endian, the packet has no properties that are integers of one or two bytes
    (mqtt_assemble.c:145); and it has no properties, or its variable header and payload other
    than that of PUBLISH fit into 64 bytes, or reallocation does not move the buffer they are
    written to (mqtt_assemble.c:214).  All allocations succeed, the transport accepts the bytes,
    and the event handler answers 0 to the parsed packet.  The receiver has agreed on the version
    of the packet, unless it is CONNECT, and has less than 2^31 bytes of input.  A buffer that
    does not grow does not move.  The two hosts may differ in byte order. *)
Theorem rrr_mqtt_conn_delivers {W : Type} (send_push send_push_urgent : W -> list Z -> Z * W)
    (chunk_limit_reached : W -> bool)
    (event_handler : rrr_mqtt_conn -> Z -> option rrr_mqtt_p -> W -> outcome (Z * option Z * W))
    (handler_callback : rrr_mqtt_conn -> rrr_mqtt_p -> W -> outcome (Z * rrr_mqtt_conn * W))
    (big big_r : bool) (alloc_ok alloc_sub alloc_packet : Z -> bool) (alloc_token : nat -> bool)
    (moved : Z -> Z -> Z) (now : Z) (urgent : bool) (c r : rrr_mqtt_conn) (o : outbound)
    (v : rrr_mqtt_p_protocol_version) (t : rrr_mqtt_p_type_properties) (m : message) (ph ph' : phase)
    (Halloc : forall n, alloc_ok n = true) (Hsub : forall n, alloc_sub n = true)
    (Hpacket : forall n, alloc_packet n = true) (Htoken : forall n, alloc_token n = true)
    (Hsame : forall a, moved a a = 0)
    (Hev : forall c p w, exists sess w', event_handler c RRR_MQTT_CONN_EVENT_PACKET_PARSED (Some p) w = Ret (0, sess, w'))
    (Hph : in_phase c ph) (Hsend : ph <> Closing /\ ph <> Closed)
    (Hopen : message_type m = RRR_MQTT_P_TYPE_PUBLISH -> ph = Open)
    (Hnext : phase_next ph true (message_type m) (reason_v5 (o_packet o)) = Some ph')
    (Hready : ready big moved c o v t m) (Hacc : accepted v m) (Hv : v_id v <= 5)
    (Hdata : bytes_ok (default [] (payload (o_packet o))))
    (Hr : between r) (Hversion : c_protocol_version r = Some v \/ message_type m = RRR_MQTT_P_TYPE_CONNECT) :
  exists bytes, bytes <> [] /\
    (forall do_stop w w', (if urgent then send_push_urgent else send_push) w bytes = (0, w') ->
       exists o' do_stop', rrr_mqtt_conn_iterator_ctx_send_packet_with send_push send_push_urgent chunk_limit_reached
         big alloc_ok moved now urgent c o do_stop w =
       Ret (RRR_MQTT_OK, RRR_MQTT_CONN_STATE_SET (set_last_write_time c now) (flags_of ph'), o', do_stop', w')) /\
    exists header, (2 <= header <= 5)%nat /\
      (forall k r, (0 < k < header)%nat -> between r -> exists r',
         rrr_mqtt_conn_read_get_target_size big_r alloc_ok alloc_sub alloc_packet alloc_token now (take k bytes) r =
         Ret (RRR_READ_INCOMPLETE, None, r') /\ between r' /\ r' = set_parse_session r (parse_session r')) /\
      (forall rest, bytes_ok rest -> Z.of_nat (length (bytes ++ rest)) < 2 ^ 31 -> exists r1,
         rrr_mqtt_conn_read_get_target_size big_r alloc_ok alloc_sub alloc_packet alloc_token now (bytes ++ rest) r =
         Ret (RRR_READ_OK, Some (Z.of_nat (length bytes)), r1) /\
         forall w, exists q r2 w', delivered big_r t v m (default [] (payload (o_packet o))) q /\ between r2 /\
           state_flags r2 = state_flags r /\
           rrr_mqtt_conn_read_complete_callback event_handler big_r alloc_ok alloc_sub alloc_packet alloc_token now
             handler_callback bytes r1 w =
           ('(ret, r3, w'') ← handler_callback r2 q w';
            Ret (ret, (if ret =? RRR_MQTT_SOFT_ERROR
                       then RRR_MQTT_CONN_SET_DISCONNECT_REASON_IF_ZERO r3 RRR_MQTT_P_5_REASON_PROTOCOL_ERROR
                       else r3), w''))).
Proof.
  destruct Hsend as [Hn1 Hn2]. pose proof (ready_table _ _ _ _ _ _ _ Hready) as Ht.
  pose proof (ready_ok _ _ _ _ _ _ _ Hready) as Hok. pose proof (ready_size _ _ _ _ _ _ _ Hready) as Hsize.
  pose proof (message_type_range v m Hok) as Hrange. set (data := default [] (payload (o_packet o))) in *.
  pose proof (phase_next_type _ _ _ _ _ Hnext) as Hty.
  exists (frame t v m data). split; [done|]. split.
  { intros do_stop w w' Hp.
    destruct (send_packet_sends send_push send_push_urgent chunk_limit_reached big alloc_ok moved now Halloc Hsame
      urgent c o v t m ph ph' do_stop w) as (o' & _ & _ & ->); try done. fold data. rewrite Hp. by eexists _, _. }
  set (n := Z.of_nat (length (message_wire v m ++ data))) in *.
  pose proof (vint_length 4 n ltac:(lia)) as Hvl. fold (vint n) in Hvl.
  exists (S (length (vint n))). split; [lia|]. split.
  { intros [|k] r0 Hk Hr0; [lia|]. rewrite take_frame by (fold n; lia). fold n.
    apply (get_target_size_short big_r alloc_ok alloc_sub alloc_packet alloc_token now r0 t v m n k); try done; lia. }
  intros rest Hrest Hlim.
  assert (data = [] \/ message_type m = RRR_MQTT_P_TYPE_PUBLISH) as Hpay.
  { subst data. pose proof (ready_payload _ _ _ _ _ _ _ Hready). destruct (payload _); [right|by left]. by destruct H. }
  destruct (get_target_size_frame big_r alloc_ok alloc_sub alloc_packet alloc_token now Halloc Hsub Hpacket Htoken
    r t v m data rest) as (s & Es & Hs); try done; [by apply Forall_app|].
  exists (set_parse_session r s). split; [done|]. intros w.
  destruct (complete_delivers event_handler handler_callback big_r alloc_ok alloc_sub alloc_packet alloc_token now
    Halloc r s t v m data w) as (q & r2 & w' & D1 & D2 & D3 & _ & _ & D4); try done.
  - rewrite length_app in Hlim. lia.
  - by exists q, r2, w'.
Qed.

(** An open connection of MQTT 5 and a PUBLISH with the payload [hi]. *)
Definition open_conn : rrr_mqtt_conn :=
  mk_conn true 0 0 0 None (Some 1) (Some (protocol_version publish_packet)) 0 None (flags_of Open) 0 0
    rrr_mqtt_parse_session_init 0 0.
Definition hi_packet : outbound := mk_out (set_payload publish_packet (Some [104; 105])) None 0 0.

Lemma hi_packet_ready : ready false (fun _ _ => 0) open_conn hi_packet (protocol_version publish_packet)
  (type_properties publish_packet) publish_message.
Proof.
  split; try done.
  - exact publish_packet_says.
  - apply publish_message_ok.
  - by left.
  - right; right; left. by vm_compute.
Qed.

Lemma rrr_mqtt_conn_delivers_witness :
  let push (w : list Z) (data : list Z) := (0, w ++ data) in
  let handler (c : rrr_mqtt_conn) (e : Z) (p : option rrr_mqtt_p) (w : list Z) := Ret (0, session c, w) in
  let callback (c : rrr_mqtt_conn) (q : rrr_mqtt_p) (w : list Z) := Ret (0, c, default [] (payload q)) in
  let bytes := [0x32; 15; 0; 3; 97; 47; 98; 0; 7; 5; 2; 0; 0; 0; 60; 104; 105] in
  (exists c' o' d', rrr_mqtt_conn_iterator_ctx_send_packet_with push push (fun _ => false) false (fun _ => true)
     (fun _ _ => 0) 7 false open_conn hi_packet 0 [] = Ret (0, c', o', d', bytes)) /\
  exists r1 r2, rrr_mqtt_conn_read_get_target_size true (fun _ => true) (fun _ => true) (fun _ => true) (fun _ => true)
     7 (bytes ++ [0xC0]) open_conn = Ret (0, Some 17, r1) /\
    rrr_mqtt_conn_read_complete_callback handler true (fun _ => true) (fun _ => true) (fun _ => true) (fun _ => true) 7
      callback bytes r1 [] = Ret (0, r2, [104; 105]) /\ between r2.
Proof.
  intros push handler callback bytes.
  destruct (rrr_mqtt_conn_delivers push push (fun _ => false) handler callback false true (fun _ => true) (fun _ => true)
    (fun _ => true) (fun _ => true) (fun _ _ => 0) 7 false open_conn open_conn hi_packet (protocol_version publish_packet)
    (type_properties publish_packet) publish_message Open Open) as (bs & _ & Hsend & _ & _ & _ & Hget); try done.
  - by intros c p w; eexists _, _.
  - apply hi_packet_ready.
  - apply publish_message_accepted.
  - repeat constructor; unfold byte_ok; lia.
  - by eexists _, _, _.
  - by left.
  - destruct (Hsend 0 [] bs eq_refl) as (o' & d' & Es).
    assert (bs = bytes) as ->.
    { vm_compute in Es. injection Es. intros. by subst. }
    split; [by eexists _, _, _|].
    destruct (Hget [0xC0]) as (r1 & E1 & H2); [repeat constructor; unfold byte_ok; lia|vm_compute; reflexivity|].
    destruct (H2 []) as (q & r2 & w' & (_ & _ & _ & _ & Ep) & Hb & _ & E2).
    exists r1, r2. split; [exact E1|]. split; [|done]. rewrite E2. unfold callback. by rewrite Ep.
Defined.

(** * Closing *)

Section Close.
Context {W : Type}.
Context (send_push send_push_urgent : W -> list Z -> Z * W) (chunk_limit_reached : W -> bool).
Context (event_handler : rrr_mqtt_conn -> Z -> option rrr_mqtt_p -> W -> outcome (Z * option Z * W)).
Context (big : bool) (alloc_ok alloc_sub alloc_packet : Z -> bool) (moved : Z -> Z -> Z) (now : Z).
Context (Halloc : forall n, alloc_ok n = true) (Hpacket : forall n, alloc_packet n = true).
Context (Hsame : forall a, moved a a = 0).
Context (Hev : forall c e arg w, exists ret s w', event_handler c e arg w = Ret (ret, s, w')).

(** What closing leaves as it is. *)
Definition closes (c c' : rrr_mqtt_conn) : Prop :=
  close_wait_time_usec c' = close_wait_time_usec c /\ close_wait_start c' = close_wait_start c /\
  disconnect_reason_v5_ c' = disconnect_reason_v5_ c /\ c_protocol_version c' = c_protocol_version c /\
  c_keep_alive c' = c_keep_alive c /\ last_read_time c' = last_read_time c /\ has_event_handler c' = has_event_handler c.

(** Whether the event handler is still to hear of the disconnect. *)
Definition untold (c : rrr_mqtt_conn) : bool :=
  has_event_handler c && negb (last_event c =? RRR_MQTT_CONN_EVENT_DISCONNECT).

(** The handler could not do its part. *)
Definition handler_failed (r : Z) : bool := negb (r &&& RRR_MQTT_INTERNAL_ERROR =? 0).

Lemma failed_cleared r : clear_flag r RRR_MQTT_SOFT_ERROR &&& RRR_MQTT_INTERNAL_ERROR = r &&& RRR_MQTT_INTERNAL_ERROR.
Proof.
  apply Z.bits_inj'. intros n Hn. unfold clear_flag. rewrite !Z.land_spec, Z.ldiff_spec.
  destruct (Z.testbit RRR_MQTT_INTERNAL_ERROR n) eqn:E; [|by rewrite !andb_false_r].
  rewrite !andb_true_r. change RRR_MQTT_INTERNAL_ERROR with (2 ^ 0) in E.
  rewrite Z.pow2_bits_eqb in E by lia. apply Z.eqb_eq in E as <-. by rewrite andb_true_r.
Qed.

Lemma told_once c w : exists r ret c' w',
  rrr_mqtt_connection_disconnect_call_event_handler_if_needed event_handler c w = Ret (ret, c', w') /\
  state_flags c' = state_flags c /\ closes (set_has_event_handler c (has_event_handler c')) c' /\
  (untold c = true -> exists s, event_handler c RRR_MQTT_CONN_EVENT_DISCONNECT None w = Ret (r, s, w')) /\
  (untold c = false -> r = RRR_MQTT_OK /\ w' = w) /\
  if handler_failed r then ret = clear_flag r RRR_MQTT_SOFT_ERROR /\ (ret &&& RRR_MQTT_INTERNAL_ERROR) <> 0
  else ret = RRR_MQTT_OK /\ has_event_handler c' = false.
Proof using Hev.
  unfold rrr_mqtt_connection_disconnect_call_event_handler_if_needed, rrr_mqtt_connection_call_event_handler, untold.
  cbn [negb orb]. destruct (has_event_handler c && _) eqn:Eh.
  2:{ eexists 0, _, _, _. split; [reflexivity|]. by split_and!. }
  destruct (Hev c RRR_MQTT_CONN_EVENT_DISCONNECT None w) as (r & s & w' & E). rewrite E. cbn [mbind outcome_bind].
  rewrite failed_cleared. fold (handler_failed r). exists r.
  destruct (handler_failed r) eqn:Ef.
  - assert (clear_flag r RRR_MQTT_SOFT_ERROR =? RRR_MQTT_OK = false) as ->.
    { apply Z.eqb_neq. intros E0. unfold handler_failed in Ef. rewrite <- failed_cleared, E0 in Ef. done. }
    cbn [negb andb]. eexists _, _, _. split; [reflexivity|]. split_and!; try done; [by eexists|].
    rewrite failed_cleared. by apply Z.eqb_neq, negb_true_iff.
  - rewrite andb_false_r. eexists _, _, _. split; [reflexivity|]. split_and!; try done. by eexists.
Qed.

Definition disconnect_type : rrr_mqtt_p_type_properties := mk_type RRR_MQTT_P_TYPE_DISCONNECT 0 "DISCONNECT" 1 0.

Definition disconnect_of (v : rrr_mqtt_p_protocol_version) (reason : Z) : rrr_mqtt_p :=
  mk_packet disconnect_type v 0 0 0 reason None 0 None (Disconnect no_properties).

Lemma disconnect_ready c v reason : c_protocol_version c = Some v -> byte_ok reason ->
  ready big moved c (mk_out (disconnect_of v reason) None 0 0) v disconnect_type (M_disconnect reason).
Proof.
  intros Ev Hr. split; try done; [by cbn; rewrite Ev|by right|by right; left|].
  cbn [message_wire o_packet payload disconnect_of default]. rewrite app_nil_r. by destruct (is_five v).
Qed.

Lemma force_closing c (ret : Z) (w : W) ph : in_phase c ph -> exists c',
  (let '(ret, c, w) := (ret, c, w) in
   Ret (ret, (if RRR_MQTT_CONN_STATE_IS_CLOSED_OR_CLOSE_WAIT c then c
              else RRR_MQTT_CONN_STATE_SET c RRR_MQTT_CONN_STATE_CLOSE_WAIT), w)) = Ret (ret, c', w) /\
  (ph <> Closed -> in_phase c' Closing) /\ closes c c'.
Proof.
  intros Hph. eexists. split; [done|]. pose proof (phase_flags c ph Hph) as (_ & _ & _ & _ & _ & -> & _).
  case_bool_decide as E; [|done]. split; [|done]. intros Hn. by destruct E as [->|].
Qed.

(** DISCONNECT with the reason of the connection, handed to the transport. *)
Definition disconnect_sent (c : rrr_mqtt_conn) (v : rrr_mqtt_p_protocol_version) (w : W) : W :=
  (send_push_urgent w (frame disconnect_type v (M_disconnect (disconnect_reason_v5_ c)) [])).2.

Definition sent_if_open (ph : phase) (c : rrr_mqtt_conn) (w : W) : W :=
  match ph, c_protocol_version c with
  | Open, Some v => disconnect_sent c v w
  | _, _ => w
  end.

(** When a connection that is not closed or closing is left with DISCONNECT: always with
    MQTT 5; before that not after an error, nor when the will message is to be sent. *)
Definition says_goodbye (c : rrr_mqtt_conn) : bool :=
  match c_protocol_version c with Some v => v_id v =? RRR_MQTT_VERSION_5 | None => false end ||
  ((disconnect_reason_v5_ c <? 0x80) &&
   negb (disconnect_reason_v5_ c =? RRR_MQTT_P_5_REASON_DISCONNECT_WITH_WILL)).

Lemma send_disconnect_closes c ph w : in_phase c ph -> ph <> Closing -> ph <> Closed -> byte_ok (disconnect_reason_v5_ c) ->
  exists ret c' w', rrr_mqtt_conn_iterator_ctx_send_disconnect send_push send_push_urgent chunk_limit_reached big
      alloc_ok alloc_sub alloc_packet moved now c w = Ret (ret, c', w') /\
    clear_flag ret RRR_MQTT_SOFT_ERROR = 0 /\ in_phase c' Closing /\ closes c c' /\ w' = sent_if_open ph c w.
Proof using Halloc Hpacket Hsame.
  intros Hph Hn1 Hn2 Hreason. unfold rrr_mqtt_conn_iterator_ctx_send_disconnect. cbv zeta.
  rewrite (conn_check_phase c ph), bool_decide_false by (done || intuition).
  destruct (c_protocol_version c) as [v|] eqn:Ev.
  2:{ destruct (force_closing c RRR_MQTT_OK w ph Hph) as (c' & E & Hc & Hcl). exists RRR_MQTT_OK, c', w.
      split; [exact E|]. unfold sent_if_open. rewrite Ev. split_and!; auto; try apply Hcl. by destruct ph. }
  unfold rrr_mqtt_p_allocate. change (rrr_mqtt_p_get_type_properties RRR_MQTT_P_TYPE_DISCONNECT) with (Ret disconnect_type).
  cbn [mbind outcome_bind]. change (type_allocate alloc_sub alloc_packet now disconnect_type v)
    with (Ret (rrr_mqtt_p_allocate_raw alloc_packet disconnect_type v)).
  unfold rrr_mqtt_p_allocate_raw. rewrite Hpacket. cbn [negb mbind outcome_bind].
  pose proof (phase_flags c ph Hph) as (_ & _ & _ & -> & _). case_bool_decide as Eo.
  2:{ destruct (force_closing c RRR_MQTT_OK w ph Hph) as (c' & E & Hc & Hcl). exists RRR_MQTT_OK, c', w.
      split; [exact E|]. split_and!; auto; try apply Hcl. unfold sent_if_open. by destruct ph. }
  set (p := set_reason_v5 _ _ _). change p with (disconnect_of v (disconnect_reason_v5_ c)).
  unfold rrr_mqtt_conn_iterator_ctx_send_packet_urgent.
  destruct (send_packet_sends send_push send_push_urgent chunk_limit_reached big alloc_ok moved now Halloc Hsame true c
    (mk_out (disconnect_of v (disconnect_reason_v5_ c)) None 0 0) v disconnect_type (M_disconnect (disconnect_reason_v5_ c)) ph
    Closing 0 w) as (o' & _ & _ & ->); try done; [by apply disconnect_ready|by rewrite Eo|].
  cbn [o_packet disconnect_of payload default]. destruct (send_push_urgent w _) as [r w'] eqn:Ep.
  assert (w' = sent_if_open ph c w) as Hw by (unfold sent_if_open, disconnect_sent; by rewrite Eo, Ev, Ep).
  destruct (r =? 0); cbn [mbind outcome_bind].
  - eexists _, _, w'. split; [reflexivity|]. by split_and!.
  - eexists _, _, w'. split; [reflexivity|]. split; [done|].
    destruct (force_closing (set_last_write_time c now) 0 w' ph Hph) as (c' & E & Hc & Hcl). injection E as <-.
    split; [by apply Hc|]. by split; [apply Hcl|].
Qed.

(** The end of [rrr_mqtt_connection_in_iterator_disconnect]. *)
Lemma disconnect_out c ph (ret : Z) (w : W) : in_phase c ph -> ret <> RRR_READ_EOF -> exists c',
  (let '(ret, c, w) := (ret, c, w) in
   Ret (ret, (if negb (ret =? RRR_READ_EOF) && negb (RRR_MQTT_CONN_STATE_IS_CLOSED c)
              then rrr_mqtt_connection_close c else c), w)) = Ret (ret, c', w) /\ in_phase c' Closed.
Proof.
  intros Hph Hr. eexists. split; [done|]. rewrite (proj2 (Z.eqb_neq _ _)) by done. cbn [negb andb].
  pose proof (phase_flags c ph Hph) as (_ & _ & _ & _ & _ & _ & -> & _). case_bool_decide; [by subst|done].
Qed.

Lemma disconnect_packet_closes c ph w : in_phase c ph -> byte_ok (disconnect_reason_v5_ c) ->
  exists c' w', disconnect_packet send_push send_push_urgent chunk_limit_reached big alloc_ok alloc_sub alloc_packet
      moved now c w = Ret (0, c', w') /\ (ph <> Closed -> in_phase c' Closing) /\ (ph = Closed -> c' = c) /\ closes c c' /\
    w' = if says_goodbye c then sent_if_open ph c w else w.
Proof using Halloc Hpacket Hsame.
  intros Hph Hr. unfold disconnect_packet.
  pose proof (phase_flags c ph Hph) as (_ & _ & _ & _ & _ & -> & _). case_bool_decide as E.
  { exists c, w. split; [done|]. split_and!; try done; [intros Hn; by destruct E as [->|]|].
    destruct (says_goodbye c); [|done]. by destruct E as [-> | ->]. }
  fold (says_goodbye c). destruct (says_goodbye c).
  - destruct (send_disconnect_closes c ph w) as (ret & c' & w' & -> & Hz & Hc & Hcl & Hw); try tauto.
    cbn [mbind outcome_bind]. rewrite Hz. exists c', w'. split_and!; try done; try apply Hcl. tauto.
  - eexists _, w. split; [done|]. split_and!; try done. tauto.
Qed.

End Close.

(** The peer has been silent for more than one and a half of its keep-alive time, or the
    connection is closed for that reason. *)
Definition peer_silent (c : rrr_mqtt_conn) (now : Z) : bool :=
  (last_read_time c + c_keep_alive c * 3 / 2 * 1000000 <? now) ||
  (disconnect_reason_v5_ c =? RRR_MQTT_P_5_REASON_KEEP_ALIVE_TIMEOUT).

Lemma timeouts_silent c now : 0 < c_keep_alive c < 2 ^ 16 -> 0 <= last_read_time c < 2 ^ 63 ->
  (rrr_mqtt_conn_timeouts_check c now).2 || (disconnect_reason_v5_ c =? RRR_MQTT_P_5_REASON_KEEP_ALIVE_TIMEOUT) =
  peer_silent c now.
Proof.
  intros Hk Hl. unfold rrr_mqtt_conn_timeouts_check, peer_silent. cbn [snd].
  assert (0 <= c_keep_alive c * 3 / 2 < 2 ^ 17) by (split; [apply Z.div_pos|apply Z.div_lt_upper_bound]; lia).
  rewrite (wrap_small 64 (c_keep_alive c * 3 / 2 * 1000000)) by lia. by rewrite wrap_small by lia.
Qed.



(** A client that asks for no keep-alive is taken for one that has exceeded it: its connection
    is closed at once, without DISCONNECT and without the close-wait time. *)
Lemma disconnect_without_keep_alive :
  let c := mk_conn true 0 0 0 None (Some 1) (Some (protocol_version publish_packet)) 0 None (flags_of Open) 0 0
             rrr_mqtt_parse_session_init 1000000 0 in
  let push (w : list Z) (data : list Z) := (0, w ++ data) in
  let handler (c : rrr_mqtt_conn) (e : Z) (p : option rrr_mqtt_p) (w : list Z) := Ret (0, None, w) in
  exists c', rrr_mqtt_connection_in_iterator_disconnect push push (fun _ => false) handler false (fun _ => true)
      (fun _ => true) (fun _ => true) (fun _ _ => 0) 10000000 c [] = Ret (0, c', []) /\ in_phase c' Closed.
Proof. eexists. split; vm_compute; reflexivity. Qed.

(** When there is no memory while a packet is assembled, what has been written is kept as if it
    were the packet; the next attempt sends a PUBLISH that ends after the length of its topic. *)
Lemma partly_assembled_is_sent :
  let p := mk_packet (type_properties publish_packet) (protocol_version publish_packet) 2 1 7 0 None 0 None
    (Publish (mk_publish (Some (replicate 100 97 ++ [0])) [] no_properties 0 0 0 0 None None None)) in
  let push (w : list Z) (data : list Z) := (0, w ++ data) in
  let send alloc c o := rrr_mqtt_conn_iterator_ctx_send_packet_with push push (fun _ => false) false alloc
    (fun _ _ => 0) 7 false c o 0 [] in
  match send (fun n => n <=? 64) open_conn (mk_out p None 0 0) with
  | Ret (ret, c, o, _, w) =>
    ret = RRR_MQTT_INTERNAL_ERROR /\ w = [] /\
    match send (fun _ => true) c o with
    | Ret (ret, _, _, _, w) => ret = RRR_MQTT_OK /\ w = [0x32; 2; 0; 100]
    | _ => False
    end
  | _ => False
  end.
Proof. vm_compute. repeat split. Qed.

End MqttDelivery.
